(* ===== verification/_CoqProject ===== *)
-Q . S2P
Prelude.v
Coding.v
Status.v
Crc32c.v
Comparator.v
DbFormat.v
Hash.v
Bloom.v
LogFormat.v
LogProofs.v
Iterator.v
Block.v
BlockProofs.v
TwoLevelIterator.v
FilterBlock.v
TableFormat.v
Table.v
TableProofs.v
TableReader.v
TableSpec.v
WriteBatch.v
VersionEdit.v
FileName.v
SkipList.v
MemTable.v
TableGet.v
Cache.v
CacheProofs.v
LruCache.v
CacheSpec.v
Merger.v
DbIter.v
MemEnv.v
Version.v
VersionProofs.v
VersionGet.v
VersionBuilder.v
VersionBuilderProofs.v
FileRefs.v
VersionRefines.v
VersionSet.v
VersionSetProofs.v
VersionSetSafety.v
Manifest.v
ManifestRecover.v
ManifestSafety.v
Compaction.v
DbImpl.v
CompactionDrop.v
TableEnv.v
CompactionRun.v
CompactionSafety.v
ObsoleteFiles.v
Builder.v
MemCompact.v
BuilderProofs.v
FlushSafety.v
DbRecover.v
DbRecoverProofs.v
Writers.v
DbOpen.v
WriterLists.v
WriterProofs.v
WriterSafety.v
