(* ===== verification/Prelude.v ===== *)
(** * PebblesDB storage engine: a shallow embedding and its correctness theorems

    PebblesDB ([src/pebblesdb/src]) is a key-value store in the LevelDB family.  A write is
    appended to a log and put in a memtable; a full memtable is flushed to a sorted table
    file; reads look in the memtables and in the tables, and iterators merge all of them
    into the user's view at a snapshot.  Tables are kept in levels whose key ranges are cut
    by guards; a version lists the tables and guards, and edits lead from one version to
    the next.  This library models the storage engine from the
    byte formats up to the user iterator, and proves that each layer keeps what the layers
    above rely on.

    ** Parts, files and correspondence with the code

    Formats and basic data:
    - [Prelude]: machine integers with explicit wrap-around, byte strings, tactics, hints
      and the list lemmas that several components share.
    - [Coding] ([util/coding.h], [util/coding.cc]): fixed-width, varint and length-prefixed
      encodings.  [Status] ([util/status.cc]): error values, and the file classes.
      [Crc32c] ([util/crc32c.cc]): checksums.  [Hash], [Bloom] ([util/hash.cc],
      [util/bloom.cc]): the filter policy.
    - [Comparator] ([util/comparator.cc], [include/pebblesdb/slice.h]): the comparator class,
      its contract [ComparatorOk], and the byte-wise comparator.  [DbFormat]
      ([db/dbformat.h], [db/dbformat.cc]): internal keys and lookup keys.
    - [FileName] ([db/filename.cc], [util/logging.cc], [util/env.cc]): names of database files
      and the switch of CURRENT.
    The log: [LogFormat] models [db/log_writer.cc] and [db/log_reader.cc]; [LogProofs] has the
    theorems.  [WriteBatch] ([db/write_batch.cc], [db/murmurhash3.cc]): batches and the choice
    of guards.  [VersionEdit] ([db/version_edit.cc]): manifest records.
    Memory: [SkipList] ([db/skiplist.h], [util/random.h]) with nodes in an explicit store;
    [MemTable] ([db/memtable.cc]).
    Tables: [Block] ([table/block_builder.cc], [table/block.cc]) and [BlockProofs];
    [FilterBlock] ([table/filter_block.cc]); [TableFormat] ([table/format.cc]); [Table]
    ([table/table_builder.cc], [table/table.cc]: modules [TableBuilder] and [Table]) with
    the builder's invariant in [TableProofs], the reader's in [TableReader] and what
    tables promise in [TableSpec]; [TableGet] ([db/version_set.h]: [SaveValue]).
    Resources: [Cache] ([util/cache.cc]: the sharded LRU cache with its handles, hash chains and
    rings in an explicit store), [CacheProofs] (the shape of rings, chains and table),
    [LruCache] (the pointer-free specification of a shard and its refinement), [CacheSpec]
    (clients of the cache); [MemEnv] ([helpers/memenv/memenv.cc]: files in memory).
    Versions ([db/version_set.cc], [db/version_set.h]): [Version] has the searches for files and
    guards, [Version::Get], overlaps and seek statistics, with [VersionProofs] and
    [VersionGet] (what reads find); [VersionBuilder] has the builder that applies edits and
    saves the next version over a store of file objects, with [VersionBuilderProofs] and
    [VersionRefines] (what edits do to the sets of files and guards).
    The set of versions ([db/version_set.cc], [db/version_set.h]): [VersionSet] has the world of
    live versions, their reference counts and the manifest, with [Version::Ref] and [Unref],
    [AppendVersion], [WriteSnapshot], [LogAndApply] cut at its unlocked section into steps, and
    [Recover]; [FileRefs] counts the references to file objects; [VersionSetProofs] and
    [VersionSetSafety] show that the counts are exact over all histories.  [Manifest] relates
    the records of a manifest to the edits they persist, [ManifestRecover] runs [Recover] over
    them and [ManifestSafety] joins both into crash recovery.
    Compaction ([db/version_set.cc], [db/db_impl.cc], [db/db_impl.h]): [Compaction] chooses the level
    and the inputs; [DbImpl] has the database object as far as background compaction goes:
    [BackgroundCompactionGuards], the merge of [DoCompactionWorkGuards] with its output files,
    the installation of the results and [DeleteObsoleteFiles].  [CompactionDrop] says which
    entries survive and what readers see of them, [TableEnv] relates the table builder on a
    file of the environment to the builder on bytes, [CompactionRun] runs the merge loop
    over both and [CompactionSafety] has the theorems; [ObsoleteFiles] is about collection.
    Flushes and recovery ([db/builder.cc], [db/db_impl.cc]): [Builder] writes the entries of an
    iterator to tables cut at guards, with [BuilderProofs]; [MemCompact] has
    [WriteLevel0TableGuards] and the round of the memtable thread, [FlushSafety] the theorems;
    [DbRecover] has [NewDB], [RecoverLogFile] and [Recover], [DbRecoverProofs] replays logs.
    Writers ([db/db_impl.cc]): [Writers] has [Write] with [SequenceWriteBegin] and [SequenceWriteEnd],
    [GetSnapshot] with [WaitOutWriters], and [Get], as steps of threads on a shared state: a step is
    a section under a mutex, the write of the log or a round of the memtable thread.  [DbOpen]
    has [DB::Open].  [WriterLists] is about the list the writers form, [WriterProofs] has the
    invariant of the interleavings, and [WriterSafety] the theorems.
    Iterators: [Iterator] ([include/pebblesdb/iterator.h]): the class [Iterator] and its
    contract [IteratorOk], which the block, two-level, memtable, merging and user iterators
    are proved to keep; [TwoLevelIterator] ([table/two_level_iterator.cc]); [Merger]
    ([table/merger.cc]); [DbIter] ([db/db_iter.cc]).

    ** Conventions

    A pure function is a Rocq function; an object is a record that its operations return
    changed.  A failed [assert], a null dereference and an [abort()] are the outcome [None];
    an error of the code is a [Status].  Integers keep their width: every operation that can
    leave it is wrapped ([u32], [u64]).  Parts the code reaches through an interface are
    classes with their contract ([Comparator], [FilterPolicy], [Iterator], [BlockCache],
    [Env], the files, [Snappy], the heap algorithms of the C++ library [StdHeap]); client
    theorems are proved against the contract, and an instance of each contract is proved.

    Loops that are not structural take fuel.  Each theorem about such a loop gives a bound
    for which the loop returns: the number of entries for scans and skips over blocks
    ([TwoLevelIterator_ops], [DBIter_ops]), the bytes that are left for the readers of logs,
    batches and manifest records, twice the size read for the sampling loop of [DBIter]
    (the generator never yields two periods of zero in a row), the levels and nodes for the
    skip list, the number of handles for the chains and lists of the cache, 31 doublings for
    its table, the bytes of a file for [MemEnv], the number of files or guards for the binary
    searches of [Version] and [(2 n + 1) (n + 1)] rounds for the overlapping inputs of [n]
    files (each restart takes a new bound of a file), and the bytes of the manifest for
    [VersionSet::Recover] (its theorem states that some fuel is enough and that more gives the
    same result), one more than the entries of the inputs for the loop of a compaction and of
    the memtable for [BuildLevel0Tables], and one more than the batches and than the bytes of a
    log for [RecoverLogFile].
    No theorem says only what holds if a loop happens to return.

    ** What the theorems show

    - Reads: [MemTable.memtable_get_newest], [MemTable.batch_insert_then_get],
      [TableGet.flush_preserves_reads] (a table flushed from a memtable answers as the
      memtable does), [DbIter.scan_agrees_with_get] (scans and point reads agree).
    - Iterators: each iterator keeps the contract on its entries, in both directions and with
      changes of direction ([BlockProofs.block_iterator_contract], [TableSpec.table_scan],
      [MemTable.memtable_iterator_contract], [Merger.merging_iterator_contract],
      [DbIter.db_iter_contract]).
    - Durability: the log reads back what was written, a torn tail costs only the records
      in it, readers end on every input ([LogProofs]); CURRENT is switched atomically
      ([FileName]); edits and batches round-trip ([VersionEdit], [WriteBatch]).
    - Versions: a read through a version finds the newest entry of all its files
      ([VersionGet.version_get_newest]); applying edits and saving implements the edits on
      the sets of files and guards and places the files where reads look
      ([VersionRefines.edits_refine_version]); overlapping inputs are closed
      ([VersionProofs.overlapping_inputs_closed]).
    - The set of versions: over all histories of [LogAndApply], readers and iterators the
      reference count of every version and file object is the number of its holders, and an
      object is deleted exactly when its last holder leaves
      ([VersionSetSafety.version_refs_exact]).  After a crash at any point of any history,
      [Recover] rebuilds the files, guards and counters of the last edit whose record became
      durable, or of the one in flight ([ManifestSafety.manifest_crash_recovery]).  The
      statement needs a manifest below 4 GiB in which no record fills a block exactly (the
      case that [LogProofs.log_exact_fit_loses_next] shows to be lost) and file numbers that
      are not in use.
    - Compaction: the merge ends, its outputs are tables cut at the guards that hold a part of
      the inputs, and readers at every snapshot in use see what they saw before
      ([CompactionSafety.compaction_preserves_reads]), provided that no entry outside the inputs
      is older than a deletion that may be dropped.  The inputs the code picks do not ensure
      this ([CompactionSafety.compaction_resurrects_deleted]).  Collection removes exactly the
      obsolete files ([ObsoleteFiles.obsolete_files_deleted]).
    - Flushes and recovery: a memtable is written out whole, to tables cut at the guards
      ([FlushSafety.memtable_written_out]), unless the environment fails to sync a table: then it
      is lost without an error ([FlushSafety.unsynced_flush_loses_memtable]).  Of a log cut
      anywhere the whole batches come back in tables of level 0
      ([DbRecoverProofs.log_replay]); a log whose last memtable stays empty cannot be recovered
      with a filter policy ([DbRecoverProofs.empty_batch_stops_recovery]).
    - Writers: over all interleavings, sequence numbers are given once, the batches of calls that
      returned OK are in memory or written out, below the last sequence number
      ([WriterSafety.concurrent_writes]), and threads are never stuck
      ([WriterSafety.writers_progress]).  Not ensured: a synced write can be lost
      ([WriterSafety.synced_write_lost]), a snapshot can change ([WriterSafety.snapshot_changes])
      and a read can go back ([WriterSafety.read_goes_back]).
    - Structure: the skip list stays sorted and linked at every level ([SkipList]); filters
      have no false negatives ([Bloom], [FilterBlock]); the slicing CRC is the bit-serial
      one ([Crc32c]); encodings round-trip ([Coding], [DbFormat], [TableFormat]).
    - Cache: each shard refines a pointer-free specification, and for every reachable history
      of clients the operations do not fail, a lookup finds the latest insertion, a value is
      deleted exactly once and only when nothing holds it, and the charge is bounded
      ([LruCache], [CacheSpec]).  Files in memory refine a map from names to contents
      ([MemEnv]).
    - Errors: behaviours of the code that a caller must know of, proved on the model
      ([LogProofs.log_exact_fit_loses_next], [LogProofs.log_offset_moves_back],
      [BlockProofs.block_entry_bound_overflow], [VersionEdit.version_edit_second_deleted_guard],
      [VersionRefines.guard_sequence_hides_file], [VersionProofs.overlap_in_level_misses]).

    ** Not modelled

    Threads interleave in the sections of [LogAndApply] ([VersionSetSafety]) and in those of
    writers and snapshots ([WriterSafety]); other interleavings (the lock-free skip list, table
    compactions during writes, the parallel seek that is not compiled in) are left out.
    Not modelled: the level iterators ([db/version_set.cc]), which compactions take as a
    parameter; of the database object ([db/db_impl.cc]) iterators over the whole database,
    replay iterators, backup and the printing of properties; the table cache and the arena.
    Left aside: the operating-system layer ([util/env_posix.cc]), statistics, the C interface,
    benchmarks and tests, and the other programs of the repository, which are third-party
    workloads (GAP, YCSB, libsvm, RocksDB, Speedb). *)

From Stdlib Require Export ZArith Lia.
From stdpp Require Export base numbers list option.

(** Notations of the development live in a scope of their own. *)
Declare Scope pebbles_scope.
Delimit Scope pebbles_scope with pb.

#[global] Open Scope Z_scope.

(** ** Machine integers

    A w-bit unsigned integer is a [Z]; every operation that can leave the range
    is wrapped explicitly with [u8], [u32] or [u64]. *)

Definition u8 (x : Z) : Z := x mod 2 ^ 8.
Definition u16 (x : Z) : Z := x mod 2 ^ 16.
Definition u32 (x : Z) : Z := x mod 2 ^ 32.
Definition u64 (x : Z) : Z := x mod 2 ^ 64.

(** Value of a (signed) [char] whose object representation is the byte [b];
    on the platforms the repository builds for, [char] is signed. *)
Definition schar (b : Z) : Z := if b <? 128 then b else b - 256.

Definition UINT64_MAX : Z := 2 ^ 64 - 1.

Definition is_u8 (x : Z) : Prop := 0 <= x < 2 ^ 8.
Definition is_u32 (x : Z) : Prop := 0 <= x < 2 ^ 32.
Definition is_u64 (x : Z) : Prop := 0 <= x < 2 ^ 64.

(** Byte strings: [std::string], [Slice] contents and file contents. *)
Abbreviation bytes := (list Z) (only parsing).
Definition bytes_ok (l : bytes) : Prop := Forall is_u8 l.

(** Size of a byte string as the code sees it (a [size_t]). *)
Definition blen {A} (l : list A) : Z := Z.of_nat (length l).

(** ** Tactics *)

Create HintDb pebbles.

(** Case analysis on the boolean tests of the code, with their meaning. *)
Ltac case_bool :=
  match goal with
  | |- context [?x <? ?y] => destruct (Z.ltb_spec x y)
  | |- context [?x <=? ?y] => destruct (Z.leb_spec x y)
  | |- context [?x =? ?y] => destruct (Z.eqb_spec x y)
  | H : context [?x <? ?y] |- _ => destruct (Z.ltb_spec x y)
  | H : context [?x <=? ?y] |- _ => destruct (Z.leb_spec x y)
  | H : context [?x =? ?y] |- _ => destruct (Z.eqb_spec x y)
  end.

(** [lia] after exposing the ranges and literal powers of two; sizes stay folded. *)
Ltac rlia :=
  unfold is_u8, is_u32, is_u64 in *;
  change (2 ^ 7) with 128 in *; change (2 ^ 8) with 256 in *;
  change (2 ^ 16) with 65536 in *;
  change (2 ^ 32) with 4294967296 in *;
  change (2 ^ 64) with 18446744073709551616 in *; lia.

(** [lia] after exposing the ranges, sizes and literal powers of two. *)
Ltac ulia :=
  unfold is_u8, is_u32, is_u64, blen in *;
  change (2 ^ 7) with 128 in *; change (2 ^ 8) with 256 in *;
  change (2 ^ 16) with 65536 in *;
  change (2 ^ 32) with 4294967296 in *;
  change (2 ^ 64) with 18446744073709551616 in *; lia.

(** [ulia] with divisions and remainders by constants. *)
Ltac dlia :=
  unfold is_u8, is_u32, is_u64, blen, u8, u16, u32, u64 in *;
  change (2 ^ 7) with 128 in *; change (2 ^ 8) with 256 in *;
  change (2 ^ 16) with 65536 in *;
  change (2 ^ 32) with 4294967296 in *;
  change (2 ^ 64) with 18446744073709551616 in *;
  Z.div_mod_to_equations; lia.

(** ** Arithmetic of wrapped integers *)

Lemma u8_range x : is_u8 (u8 x).
Proof. apply Z.mod_pos_bound; lia. Qed.
Lemma u32_range x : is_u32 (u32 x).
Proof. apply Z.mod_pos_bound; lia. Qed.
Lemma u64_range x : is_u64 (u64 x).
Proof. apply Z.mod_pos_bound; lia. Qed.
Lemma u8_small x : is_u8 x -> u8 x = x.
Proof. apply Z.mod_small. Qed.
Lemma u32_small x : is_u32 x -> u32 x = x.
Proof. apply Z.mod_small. Qed.
Lemma u64_small x : is_u64 x -> u64 x = x.
Proof. apply Z.mod_small. Qed.

Lemma is_u32_u64 x : is_u32 x -> is_u64 x.
Proof. ulia. Qed.
Lemma is_u8_u32 x : is_u8 x -> is_u32 x.
Proof. ulia. Qed.
Lemma is_u8_u64 x : is_u8 x -> is_u64 x.
Proof. ulia. Qed.

#[export] Hint Resolve u8_range u32_range u64_range is_u32_u64 is_u8_u32 is_u8_u64 : pebbles.

(** ** Bits and arithmetic *)

Lemma testbit_high a n i : 0 <= a < 2 ^ n -> n <= i -> Z.testbit a i = false.
Proof.
  intros Ha Hi. destruct (Z.lt_ge_cases n 0) as [Hn|Hn].
  { rewrite (Z.pow_neg_r 2 n) in Ha by done. lia. }
  rewrite <- (Z.mod_small a (2 ^ n)) by done. by apply Z.mod_pow2_bits_high.
Qed.

(** A nonnegative integer with no bit at or above [n] is below [2^n]. *)
Lemma range_of_bits a n :
  0 <= n -> (forall i, n <= i -> Z.testbit a i = false) -> 0 <= a < 2 ^ n.
Proof.
  intros Hn Hb. assert (a = a mod 2 ^ n) as ->; [|apply Z.mod_pos_bound, Z.pow_pos_nonneg; lia].
  apply Z.bits_inj'; intros i Hi. destruct (Z.lt_ge_cases i n).
  - by rewrite Z.mod_pow2_bits_low.
  - rewrite Z.mod_pow2_bits_high by lia. by apply Hb.
Qed.
Lemma lxor_range a b n :
  0 <= n -> 0 <= a < 2 ^ n -> 0 <= b < 2 ^ n -> 0 <= Z.lxor a b < 2 ^ n.
Proof.
  intros Hn Ha Hb. apply range_of_bits; [done|]. intros i Hi.
  by rewrite Z.lxor_spec, (testbit_high a n i), (testbit_high b n i).
Qed.
Lemma lor_range a b n :
  0 <= n -> 0 <= a < 2 ^ n -> 0 <= b < 2 ^ n -> 0 <= Z.lor a b < 2 ^ n.
Proof.
  intros Hn Ha Hb. apply range_of_bits; [done|]. intros i Hi.
  by rewrite Z.lor_spec, (testbit_high a n i), (testbit_high b n i).
Qed.

(** A word whose low [n] bits are free: [|] is [+]. *)
Lemma lor_shiftl_add a b n :
  0 <= n -> 0 <= a < 2 ^ n -> Z.lor a (Z.shiftl b n) = a + b * 2 ^ n.
Proof.
  intros Hn Ha. rewrite <- Z.shiftl_mul_pow2 by lia.
  rewrite <- Z.add_lor_land.
  assert (Z.land a (Z.shiftl b n) = 0) as ->; [|lia].
  apply Z.bits_inj'; intros i Hi. rewrite Z.land_spec, Z.bits_0.
  destruct (Z.lt_ge_cases i n).
  - rewrite Z.shiftl_spec_low by lia. apply andb_false_r.
  - by rewrite (testbit_high a n i).
Qed.

Lemma land_ff x : Z.land x 255 = x mod 256.
Proof. change 255 with (Z.ones 8). by rewrite Z.land_ones. Qed.
Lemma land_7f x : Z.land x 127 = x mod 128.
Proof. change 127 with (Z.ones 7). by rewrite Z.land_ones. Qed.

(** Bit [n] of a word below [2^(n+1)]: the test [x & 2^n]. *)
Lemma land_pow2_lt x n : 0 <= n -> 0 <= x < 2 ^ n -> Z.land x (2 ^ n) = 0.
Proof.
  intros Hn Hx. apply Z.bits_inj'; intros i Hi. rewrite Z.land_spec, Z.bits_0.
  rewrite Z.pow2_bits_eqb by done. destruct (Z.eqb_spec n i) as [->|]; [|apply andb_false_r].
  by rewrite (testbit_high x i i).
Qed.
Lemma land_pow2_ge x n : 0 <= n -> 2 ^ n <= x < 2 ^ (n + 1) -> Z.land x (2 ^ n) = 2 ^ n.
Proof.
  intros Hn Hx. rewrite Z.pow_add_r in Hx by lia. change (2 ^ 1) with 2 in Hx.
  replace x with ((x - 2 ^ n) + 1 * 2 ^ n) by lia.
  rewrite <- lor_shiftl_add by lia. rewrite Z.shiftl_mul_pow2, Z.mul_1_l by lia.
  rewrite Z.land_comm, Z.land_lor_distr_r, Z.land_diag, Z.land_comm, land_pow2_lt by lia.
  apply Z.lor_0_l.
Qed.
(** The test for a varint's continuation bit. *)
Lemma continuation_bit b : is_u8 b -> (Z.land b 128 =? 0) = (b <? 128).
Proof.
  intros Hb. change (Z.land b 128) with (Z.land b (2 ^ 7)).
  destruct (Z.ltb_spec b 128).
  - rewrite land_pow2_lt by (change (2 ^ 7) with 128; ulia). done.
  - rewrite land_pow2_ge by (change (2 ^ (7 + 1)) with 256; change (2 ^ 7) with 128; ulia).
    done.
Qed.
Lemma lor_128_lt v : 0 <= v < 128 -> Z.lor v 128 = v + 128.
Proof.
  intros. change (Z.lor v 128) with (Z.lor v (Z.shiftl 1 7)).
  rewrite lor_shiftl_add; lia.
Qed.

(** ** Little-endian byte strings *)

Fixpoint le_bytes (n : nat) (v : Z) : bytes :=
  match n with
  | O => []
  | S n => v mod 256 :: le_bytes n (v / 256)
  end.

Fixpoint le_val (l : bytes) : Z :=
  match l with
  | [] => 0
  | b :: l => b + 256 * le_val l
  end.

Lemma length_le_bytes n v : length (le_bytes n v) = n.
Proof. revert v. induction n; intros; simpl; auto. Qed.

Lemma le_bytes_ok n v : bytes_ok (le_bytes n v).
Proof.
  revert v. induction n; intros; simpl; constructor; [|apply IHn].
  apply Z.mod_pos_bound; lia.
Qed.

Lemma le_val_bytes n v : 0 <= v < 256 ^ Z.of_nat n -> le_val (le_bytes n v) = v.
Proof.
  revert v. induction n as [|n IH]; intros v Hv; simpl le_bytes; simpl le_val.
  - simpl in Hv. lia.
  - rewrite Nat2Z.inj_succ, Z.pow_succ_r in Hv by lia.
    rewrite IH; [pose proof (Z.div_mod v 256); lia|].
    split; [apply Z.div_pos; lia|apply Z.div_lt_upper_bound; lia].
Qed.

Lemma le_val_range l : bytes_ok l -> 0 <= le_val l < 256 ^ blen l.
Proof.
  unfold blen. induction 1 as [|b l Hb Hl IH]; simpl length.
  - simpl. lia.
  - rewrite Nat2Z.inj_succ, Z.pow_succ_r by lia. simpl. ulia.
Qed.

Lemma le_bytes_val l : bytes_ok l -> le_bytes (length l) (le_val l) = l.
Proof.
  induction 1 as [|b l Hb Hl IH]; [done|]. simpl.
  assert ((b + 256 * le_val l) mod 256 = b) as ->.
  { rewrite Z.mul_comm, Z_mod_plus_full. by apply Z.mod_small. }
  assert ((b + 256 * le_val l) / 256 = le_val l) as ->.
  { rewrite Z.mul_comm, Z.div_add by lia. rewrite Z.div_small by ulia. lia. }
  by rewrite IH.
Qed.

(** ** Byte strings *)

Lemma bytes_ok_app l k : bytes_ok (l ++ k) <-> bytes_ok l /\ bytes_ok k.
Proof. apply Forall_app. Qed.
Lemma bytes_ok_1 b : is_u8 b -> bytes_ok [b].
Proof. intros. constructor; [done|constructor]. Qed.
Lemma bytes_ok_take n l : bytes_ok l -> bytes_ok (take n l).
Proof. apply Forall_take. Qed.
Lemma bytes_ok_drop n l : bytes_ok l -> bytes_ok (drop n l).
Proof. apply Forall_drop. Qed.
Lemma bytes_ok_replicate n b : is_u8 b -> bytes_ok (replicate n b).
Proof. intros. by apply Forall_replicate. Qed.

#[export] Hint Resolve bytes_ok_1 bytes_ok_take bytes_ok_drop le_bytes_ok : pebbles.

Lemma blen_app {A} (l k : list A) : blen (l ++ k) = blen l + blen k.
Proof. unfold blen. rewrite length_app. lia. Qed.
Lemma blen_nonneg {A} (l : list A) : 0 <= blen l.
Proof. unfold blen. lia. Qed.
Lemma blen_cons {A} (x : A) l : blen (x :: l) = 1 + blen l.
Proof. unfold blen. simpl length. lia. Qed.
Lemma blen_nil {A} : blen (@nil A) = 0.
Proof. done. Qed.
Lemma blen_take {A} n (l : list A) : blen (take n l) = Z.min (Z.of_nat n) (blen l).
Proof. unfold blen. rewrite length_take. lia. Qed.
Lemma blen_drop {A} n (l : list A) : blen (drop n l) = Z.max 0 (blen l - Z.of_nat n).
Proof. unfold blen. rewrite length_drop. lia. Qed.
Lemma blen_replicate {A} n (x : A) : blen (replicate n x) = Z.of_nat n.
Proof. unfold blen. by rewrite length_replicate. Qed.

Lemma drop_blen {A} n (l : list A) : blen l <= Z.of_nat n -> drop n l = [].
Proof. unfold blen. intros. apply drop_ge. lia. Qed.
Lemma take_blen {A} n (l : list A) : blen l <= Z.of_nat n -> take n l = l.
Proof. unfold blen. intros. apply take_ge. lia. Qed.
Lemma blen_0 {A} (l : list A) : blen l = 0 -> l = [].
Proof. destruct l; [done|]. unfold blen. simpl length. lia. Qed.

Lemma filter_all {A} (P : A -> Prop) `{forall x, Decision (P x)} (l : list A) :
  Forall P l -> filter P l = l.
Proof. induction 1 as [|x l Hx _ IH]; [done|]. rewrite filter_cons_True by done. by rewrite IH. Qed.
Lemma filter_lookup_inv {A} (P : A -> Prop) `{forall x, Decision (P x)} (l : list A) : forall i e,
  filter P l !! i = Some e -> exists j, l !! j = Some e /\ P e /\ length (filter P (take j l)) = i.
Proof.
  induction l as [|a l IH]; intros i e Hi; [done|]. destruct (decide (P a)) as [Ha|Ha].
  - rewrite filter_cons_True in Hi by done. destruct i as [|i].
    + injection Hi as ->. by exists 0%nat.
    + apply IH in Hi as (j & Hj & HP & Hl). exists (S j). split; [done|]. split; [done|].
      cbn [take]. rewrite filter_cons_True by done. cbn. by rewrite Hl.
  - rewrite filter_cons_False in Hi by done. apply IH in Hi as (j & Hj & HP & Hl).
    exists (S j). split; [done|]. split; [done|]. cbn [take]. by rewrite filter_cons_False by done.
Qed.
(** A loop over a list whose body may fail. *)
Fixpoint foldM {A B} (f : A -> B -> option A) (l : list B) (a : A) : option A :=
  match l with
  | [] => Some a
  | x :: l => match f a x with Some a => foldM f l a | None => None end
  end.
Lemma foldM_app {A B} (f : A -> B -> option A) l k a :
  foldM f (l ++ k) a = foldM f l a ≫= foldM f k.
Proof. revert a. induction l as [|x l IH]; intros a; cbn; [done|]. by destruct (f a x). Qed.
Lemma filter_bool_cons {A} (P : A -> bool) y (l : list A) :
  filter (fun x => P x) (y :: l) = if P y then y :: filter (fun x => P x) l else filter (fun x => P x) l.
Proof. rewrite filter_cons. by destruct (P y). Qed.
Lemma filter_impl_length {A} (P Q : A -> bool) (l : list A) :
  (forall x, x ∈ l -> P x = true -> Q x = true) ->
  (length (filter (fun x => P x) l) <= length (filter (fun x => Q x) l))%nat.
Proof.
  induction l as [|y l IH]; intros H; [done|]. rewrite !filter_bool_cons.
  specialize (IH (fun x Hx => H x (list_elem_of_further x y l Hx))). specialize (H y (list_elem_of_here y l)).
  destruct (P y), (Q y); cbn; try lia; by specialize (H eq_refl).
Qed.
Lemma filter_lt_length {A} (P Q : A -> bool) (l : list A) a :
  (forall x, x ∈ l -> P x = true -> Q x = true) -> a ∈ l -> P a = false -> Q a = true ->
  (length (filter (fun x => P x) l) < length (filter (fun x => Q x) l))%nat.
Proof.
  intros H [l1 [l2 ->]]%list_elem_of_split HP HQ. rewrite !list.filter_app, !filter_bool_cons, HP, HQ, !length_app. cbn.
  assert (forall k, (forall x, x ∈ k -> x ∈ l1 ++ a :: l2) ->
    (length (filter (fun x => P x) k) <= length (filter (fun x => Q x) k))%nat) as Hk.
  { intros k Hin. apply filter_impl_length. intros x Hx. by apply H, Hin. }
  pose proof (Hk l1 ltac:(intros; apply elem_of_app; by left)).
  pose proof (Hk l2 ltac:(intros; apply elem_of_app; right; by right)). lia.
Qed.
Lemma elem_of_concat {A} (x : A) ls : x ∈ concat ls <-> exists l, l ∈ ls /\ x ∈ l.
Proof.
  induction ls as [|l ls IH]; cbn [concat].
  - split; [intros H; by apply elem_of_nil in H|intros (l & H & _); by apply elem_of_nil in H].
  - rewrite elem_of_app, IH. split.
    + intros [H|(k & Hk & H)]; [exists l|exists k]; (split; [|done]); [by left|by right].
    + intros (k & [->|Hk]%elem_of_cons & H); [by left|right; by exists k].
Qed.
Lemma elem_of_concat_lookup {A} (x : A) ls :
  x ∈ concat ls -> exists i l, ls !! i = Some l /\ x ∈ l.
Proof.
  induction ls as [|l ls IH]; cbn [concat]; [by intros ?%elem_of_nil|].
  intros [Hx|Hx]%elem_of_app; [by exists 0%nat, l|].
  destruct (IH Hx) as (i & l' & ? & ?). by exists (S i), l'.
Qed.

Create Rewrite HintDb blen.
#[export] Hint Rewrite @blen_app @blen_cons @blen_nil @blen_take @blen_drop @blen_replicate : blen.

(** Normalise the sizes of byte strings, then linear arithmetic. *)
Ltac blia :=
  autorewrite with blen in *;
  repeat match goal with
  | |- context [blen ?l] => lazymatch goal with
       | _ : 0 <= blen l |- _ => fail | _ => pose proof (blen_nonneg l) end
  | _ : context [blen ?l] |- _ => lazymatch goal with
       | _ : 0 <= blen l |- _ => fail | _ => pose proof (blen_nonneg l) end
  end; first [rlia | ulia].

(** Byte [i] of a string, as the code's [p[i]]: reading past the end is
    undefined in the source and never relied on; the model yields [0]. *)
Definition at_ (l : bytes) (i : Z) : Z := nth (Z.to_nat i) l 0.

(** The sub-string [\[off, off+len)], as [Slice(data + off, len)]. *)
Definition sub (l : bytes) (off len : Z) : bytes :=
  take (Z.to_nat len) (drop (Z.to_nat off) l).

Lemma at_range l i : bytes_ok l -> is_u8 (at_ l i).
Proof.
  intros Hl. unfold at_. destruct (nth_in_or_default (Z.to_nat i) l 0) as [H| ->]; [|ulia].
  unfold bytes_ok in Hl. rewrite List.Forall_forall in Hl. auto.
Qed.
#[export] Hint Resolve at_range : pebbles.
