(* ===== verification/Coding.v ===== *)
(** * util/coding: fixed-width and varint encodings

    Models [src/pebblesdb/src/util/coding.cc] and [coding.h].  A [std::string*]
    output is the byte string appended to it; a [Slice* input] or a pair
    [(p, limit)] is the byte string of the remaining input, so that a [Get...]
    routine returns the decoded value with the input left after it, and [None]
    where the source returns [NULL] or [false]. *)

From S2P Require Import Prelude.

(** ** Fixed-width integers *)

(** Object representation of an [n]-byte unsigned integer in memory, as
    [memcpy] sees it on a little- or big-endian machine. *)
Definition obj_repr (kLittleEndian : bool) (n : nat) (v : Z) : bytes :=
  if kLittleEndian then le_bytes n v else rev (le_bytes n v).
Definition obj_val (kLittleEndian : bool) (l : bytes) : Z :=
  if kLittleEndian then le_val l else le_val (rev l).

Definition EncodeFixed32_on (kLittleEndian : bool) (value : Z) : bytes :=
  if kLittleEndian then obj_repr kLittleEndian 4 value
  else [Z.land value 255; Z.land (Z.shiftr value 8) 255;
        Z.land (Z.shiftr value 16) 255; Z.land (Z.shiftr value 24) 255].

Definition EncodeFixed64_on (kLittleEndian : bool) (value : Z) : bytes :=
  if kLittleEndian then obj_repr kLittleEndian 8 value
  else [Z.land value 255; Z.land (Z.shiftr value 8) 255;
        Z.land (Z.shiftr value 16) 255; Z.land (Z.shiftr value 24) 255;
        Z.land (Z.shiftr value 32) 255; Z.land (Z.shiftr value 40) 255;
        Z.land (Z.shiftr value 48) 255; Z.land (Z.shiftr value 56) 255].

Definition DecodeFixed32_on (kLittleEndian : bool) (ptr : bytes) : Z :=
  if kLittleEndian then obj_val kLittleEndian (sub ptr 0 4)
  else Z.lor (Z.lor (Z.lor (at_ ptr 0) (u32 (Z.shiftl (at_ ptr 1) 8)))
                    (u32 (Z.shiftl (at_ ptr 2) 16)))
             (u32 (Z.shiftl (at_ ptr 3) 24)).

Definition DecodeFixed64_on (kLittleEndian : bool) (ptr : bytes) : Z :=
  if kLittleEndian then obj_val kLittleEndian (sub ptr 0 8)
  else let lo := DecodeFixed32_on kLittleEndian ptr in
       let hi := DecodeFixed32_on kLittleEndian (drop 4 ptr) in
       Z.lor (u64 (Z.shiftl hi 32)) lo.

(** The platform of the repository's builds is little-endian. *)
Definition EncodeFixed32 : Z -> bytes := EncodeFixed32_on true.
Definition EncodeFixed64 : Z -> bytes := EncodeFixed64_on true.
Definition DecodeFixed32 : bytes -> Z := DecodeFixed32_on true.
Definition DecodeFixed64 : bytes -> Z := DecodeFixed64_on true.

Definition PutFixed32 (dst : bytes) (value : Z) : bytes := dst ++ EncodeFixed32 value.
Definition PutFixed64 (dst : bytes) (value : Z) : bytes := dst ++ EncodeFixed64 value.

(** ** Varints *)

(** The unrolled 32-bit encoder; storing through an [unsigned char*] keeps the
    low eight bits. *)
Definition EncodeVarint32 (v : Z) : bytes :=
  let B := 128 in
  if v <? 2 ^ 7 then [u8 v]
  else if v <? 2 ^ 14 then [u8 (Z.lor v B); u8 (Z.shiftr v 7)]
  else if v <? 2 ^ 21 then
    [u8 (Z.lor v B); u8 (Z.lor (Z.shiftr v 7) B); u8 (Z.shiftr v 14)]
  else if v <? 2 ^ 28 then
    [u8 (Z.lor v B); u8 (Z.lor (Z.shiftr v 7) B); u8 (Z.lor (Z.shiftr v 14) B);
     u8 (Z.shiftr v 21)]
  else
    [u8 (Z.lor v B); u8 (Z.lor (Z.shiftr v 7) B); u8 (Z.lor (Z.shiftr v 14) B);
     u8 (Z.lor (Z.shiftr v 21) B); u8 (Z.shiftr v 28)].

(** [while (v >= B) { *(ptr++) = (v & (B-1)) | B; v >>= 7; } *(ptr++) = v;]
    A 64-bit value leaves the loop after at most nine rounds
    ([EncodeVarint64_unfold]), the size of the caller's buffer less one. *)
Fixpoint EncodeVarint64_loop (fuel : nat) (v : Z) : bytes :=
  match fuel with
  | O => []
  | S fuel =>
      if 128 <=? v then u8 (Z.lor (Z.land v (128 - 1)) 128) ::
                        EncodeVarint64_loop fuel (Z.shiftr v 7)
      else [u8 v]
  end.
Definition EncodeVarint64 (v : Z) : bytes := EncodeVarint64_loop 10 v.

Definition PutVarint32 (dst : bytes) (v : Z) : bytes := dst ++ EncodeVarint32 v.
Definition PutVarint64 (dst : bytes) (v : Z) : bytes := dst ++ EncodeVarint64 v.

(** [dst->append(value.data(), value.size())] after the size as a 32-bit varint:
    [value.size()] is converted to [uint32_t]. *)
Definition PutLengthPrefixedSlice (dst value : bytes) : bytes :=
  PutVarint32 dst (u32 (blen value)) ++ value.

Fixpoint VarintLength_loop (fuel : nat) (v len : Z) : Z :=
  match fuel with
  | O => len
  | S fuel => if 128 <=? v then VarintLength_loop fuel (Z.shiftr v 7) (len + 1) else len
  end.
Definition VarintLength (v : Z) : Z := VarintLength_loop 10 v 1.

(** The decoding loop shared by the 32- and the 64-bit reader: [max_shift] is
    the loop's bound and [wrap] the conversion to the result's width. *)
Fixpoint GetVarint_loop (max_shift : Z) (wrap : Z -> Z) (shift result : Z) (p : bytes)
    : option (Z * bytes) :=
  match p with
  | [] => None
  | byte :: p' =>
      if shift <=? max_shift then
        if Z.land byte 128 =? 0 then
          Some (wrap (Z.lor result (wrap (Z.shiftl byte shift))), p')
        else
          GetVarint_loop max_shift wrap (shift + 7)
            (wrap (Z.lor result (wrap (Z.shiftl (Z.land byte 127) shift)))) p'
      else None
  end.

Definition GetVarint32PtrFallback (p : bytes) : option (Z * bytes) :=
  GetVarint_loop 28 u32 0 0 p.

Definition GetVarint32Ptr (p : bytes) : option (Z * bytes) :=
  match p with
  | result :: p' =>
      if Z.land result 128 =? 0 then Some (result, p') else GetVarint32PtrFallback p
  | [] => GetVarint32PtrFallback p
  end.

Definition GetVarint64Ptr (p : bytes) : option (Z * bytes) :=
  GetVarint_loop 63 u64 0 0 p.

(** The [Slice*] readers run the pointer readers on the whole slice. *)
Definition GetVarint32 (input : bytes) : option (Z * bytes) := GetVarint32Ptr input.
Definition GetVarint64 (input : bytes) : option (Z * bytes) := GetVarint64Ptr input.

(** Returns the prefix as the result and the input after it. *)
Definition GetLengthPrefixedSlice (input : bytes) : option (bytes * bytes) :=
  match GetVarint32 input with
  | Some (len, input') =>
      if len <=? blen input'
      then Some (take (Z.to_nat len) input', drop (Z.to_nat len) input')
      else None
  | None => None
  end.

(** The pointer variant: [p + len > limit] is the failing test. *)
Definition GetLengthPrefixedSlicePtr (p : bytes) : option (bytes * bytes) :=
  match GetVarint32Ptr p with
  | Some (len, p') =>
      if blen p' <? len then None
      else Some (take (Z.to_nat len) p', drop (Z.to_nat len) p')
  | None => None
  end.

(** ** Correctness: fixed-width integers *)

Lemma fixed_digits v :
  Z.land v 255 = v mod 256 /\ Z.land (Z.shiftr v 8) 255 = v / 256 mod 256 /\
  Z.land (Z.shiftr v 16) 255 = v / 256 / 256 mod 256 /\
  Z.land (Z.shiftr v 24) 255 = v / 256 / 256 / 256 mod 256.
Proof.
  rewrite !land_ff, !Z.shiftr_div_pow2 by lia.
  rewrite !Z.div_div by lia. auto.
Qed.

Lemma EncodeFixed32_on_le le v : EncodeFixed32_on le v = EncodeFixed32 v.
Proof.
  destruct le; [done|]. unfold EncodeFixed32, EncodeFixed32_on. simpl obj_repr.
  destruct (fixed_digits v) as (-> & -> & -> & ->). done.
Qed.

Lemma EncodeFixed64_on_le le v : EncodeFixed64_on le v = EncodeFixed64 v.
Proof.
  destruct le; [done|]. unfold EncodeFixed64, EncodeFixed64_on.
  change (obj_repr true 8 v) with (le_bytes 8 v). simpl le_bytes.
  rewrite !land_ff, !Z.shiftr_div_pow2, !Z.div_div by lia. done.
Qed.

Lemma EncodeFixed32_length v : length (EncodeFixed32 v) = 4%nat.
Proof. done. Qed.
Lemma EncodeFixed64_length v : length (EncodeFixed64 v) = 8%nat.
Proof. done. Qed.
Lemma blen_EncodeFixed32 v : blen (EncodeFixed32 v) = 4.
Proof. done. Qed.
Lemma blen_EncodeFixed64 v : blen (EncodeFixed64 v) = 8.
Proof. done. Qed.
#[export] Hint Rewrite blen_EncodeFixed32 blen_EncodeFixed64 : blen.

Lemma EncodeFixed32_ok v : bytes_ok (EncodeFixed32 v).
Proof. apply le_bytes_ok. Qed.
Lemma EncodeFixed64_ok v : bytes_ok (EncodeFixed64 v).
Proof. apply le_bytes_ok. Qed.
#[export] Hint Resolve EncodeFixed32_ok EncodeFixed64_ok : pebbles.

Lemma DecodeFixed32_encode v rest :
  is_u32 v -> DecodeFixed32 (EncodeFixed32 v ++ rest) = v.
Proof.
  intros Hv. unfold DecodeFixed32, DecodeFixed32_on, sub. cbn [obj_val].
  rewrite drop_0, take_app_length' by done. apply le_val_bytes. ulia.
Qed.

Lemma DecodeFixed64_encode v rest :
  is_u64 v -> DecodeFixed64 (EncodeFixed64 v ++ rest) = v.
Proof.
  intros Hv. unfold DecodeFixed64, DecodeFixed64_on, sub. cbn [obj_val].
  rewrite drop_0, take_app_length' by done. apply le_val_bytes. ulia.
Qed.

Lemma EncodeFixed32_decode p :
  bytes_ok p -> 4 <= blen p -> EncodeFixed32 (DecodeFixed32 p) = take 4 p.
Proof.
  intros Hp Hl. unfold DecodeFixed32, DecodeFixed32_on, sub. cbn [obj_val].
  rewrite drop_0. change (Z.to_nat 4) with 4%nat.
  unfold EncodeFixed32, EncodeFixed32_on. cbn [obj_repr].
  rewrite <- (le_bytes_val (take 4 p)) at 2 by auto with pebbles.
  rewrite length_take. f_equal. blia.
Qed.

Lemma DecodeFixed32_range p : bytes_ok p -> is_u32 (DecodeFixed32 p).
Proof.
  intros Hp. unfold DecodeFixed32, DecodeFixed32_on, sub. cbn [obj_val].
  rewrite drop_0. change (Z.to_nat 4) with 4%nat.
  pose proof (le_val_range (take 4 p)) as H. specialize (H ltac:(auto with pebbles)).
  unfold is_u32. change (2 ^ 32) with (256 ^ 4).
  split; [lia|]. eapply Z.lt_le_trans; [apply H|]. apply Z.pow_le_mono_r; blia.
Qed.

Lemma DecodeFixed64_range p : bytes_ok p -> is_u64 (DecodeFixed64 p).
Proof.
  intros Hp. unfold DecodeFixed64, DecodeFixed64_on, sub. cbn [obj_val].
  rewrite drop_0. change (Z.to_nat 8) with 8%nat.
  pose proof (le_val_range (take 8 p)) as H. specialize (H ltac:(auto with pebbles)).
  unfold is_u64. change (2 ^ 64) with (256 ^ 8).
  split; [lia|]. eapply Z.lt_le_trans; [apply H|]. apply Z.pow_le_mono_r; blia.
Qed.

(** ** Correctness: varints *)

Lemma shiftr_7_range v n :
  0 <= v < 128 ^ (Z.of_nat (S n)) -> 0 <= Z.shiftr v 7 < 128 ^ Z.of_nat n.
Proof.
  rewrite Z.shiftr_div_pow2, Nat2Z.inj_succ, Z.pow_succ_r by lia.
  change (2 ^ 7) with 128. intros. split; [apply Z.div_pos; lia|].
  apply Z.div_lt_upper_bound; lia.
Qed.

(** Fuel beyond the number of 7-bit digits does not change the encoding. *)
Lemma EncodeVarint64_loop_fuel n m v :
  0 <= v < 128 ^ Z.of_nat (S n) -> (n <= m)%nat ->
  EncodeVarint64_loop (S m) v = EncodeVarint64_loop (S n) v.
Proof.
  revert m v. induction n as [|n IH]; intros m v Hv Hm.
  - change (128 ^ Z.of_nat 1) with 128 in Hv. cbn [EncodeVarint64_loop].
    case_bool; [lia|done].
  - destruct m as [|m]; [lia|].
    change (EncodeVarint64_loop (S (S m)) v) with
      (if 128 <=? v then u8 (Z.lor (Z.land v (128 - 1)) 128) ::
         EncodeVarint64_loop (S m) (Z.shiftr v 7) else [u8 v]).
    rewrite (IH m) by (apply shiftr_7_range || lia; done). done.
Qed.

Lemma EncodeVarint64_unfold v :
  is_u64 v ->
  EncodeVarint64 v =
    if 128 <=? v then u8 (Z.lor (Z.land v 127) 128) :: EncodeVarint64 (Z.shiftr v 7)
    else [u8 v].
Proof.
  intros Hv. unfold EncodeVarint64.
  rewrite <- (EncodeVarint64_loop_fuel 9 10 v); [done| |lia].
  change (128 ^ Z.of_nat 10) with (2 ^ 70). unfold is_u64 in Hv.
  split; [lia|]. eapply Z.lt_trans; [apply Hv|]. apply Z.pow_lt_mono_r; lia.
Qed.

(** Storing [v | 128] through an [unsigned char*] keeps the low seven bits. *)
Lemma u8_lor_128 v : u8 (Z.lor v 128) = v mod 128 + 128.
Proof.
  rewrite <- lor_128_lt by (apply Z.mod_pos_bound; lia).
  unfold u8. rewrite <- land_7f, <- Z.land_ones by lia.
  apply Z.bits_inj'; intros i Hi. rewrite !Z.land_spec, !Z.lor_spec, !Z.land_spec.
  change 128 with (2 ^ 7). change 127 with (Z.ones 7).
  rewrite Z.pow2_bits_eqb, !Z.testbit_ones_nonneg by lia.
  destruct (Z.testbit v i); repeat case_bool; simpl; lia.
Qed.

Lemma u8_lor_land_127 v : u8 (Z.lor (Z.land v 127) 128) = v mod 128 + 128.
Proof. rewrite u8_lor_128, land_7f, Z.mod_mod; lia. Qed.

Lemma EncodeVarint64_lt v : 0 <= v < 128 -> EncodeVarint64 v = [v].
Proof.
  intros Hv. rewrite EncodeVarint64_unfold by ulia. case_bool; [lia|].
  by rewrite u8_small by ulia.
Qed.

Lemma EncodeVarint64_ge v :
  is_u64 v -> 128 <= v -> EncodeVarint64 v = (v mod 128 + 128) :: EncodeVarint64 (v / 128).
Proof.
  intros Hu Hv. rewrite EncodeVarint64_unfold by done. case_bool; [|lia].
  by rewrite u8_lor_land_127, Z.shiftr_div_pow2 by lia.
Qed.

(** The unrolled encoder and the loop produce the same bytes. *)
Lemma EncodeVarint32_loop v : is_u32 v -> EncodeVarint32 v = EncodeVarint64 v.
Proof.
  intros Hv. unfold EncodeVarint32. rewrite !u8_lor_128, !Z.shiftr_div_pow2 by lia.
  change (2 ^ 7) with 128. change (2 ^ 14) with (128 * 128).
  change (2 ^ 21) with (128 * 128 * 128). change (2 ^ 28) with (128 * 128 * 128 * 128).
  rewrite <- !Z.div_div by lia.
  repeat case_bool;
    repeat (rewrite EncodeVarint64_ge by dlia); rewrite EncodeVarint64_lt by dlia;
    rewrite u8_small by dlia; done.
Qed.

(** Every 64-bit value ends its encoding within ten bytes. *)
Lemma EncodeVarint64_length v :
  is_u64 v -> 1 <= blen (EncodeVarint64 v) <= 10.
Proof.
  intros Hv. unfold EncodeVarint64.
  assert (forall n w, blen (EncodeVarint64_loop n w) <= Z.of_nat n) as Hub.
  { induction n; intros w; cbn [EncodeVarint64_loop]; [done|].
    case_bool; [specialize (IHn (Z.shiftr w 7))|]; blia. }
  split; [|apply (Hub 10%nat v)].
  change 10%nat with (S 9). generalize 9%nat. intros n. cbn [EncodeVarint64_loop].
  case_bool; blia.
Qed.

Lemma u64_varint_range v : is_u64 v -> 0 <= v < 128 ^ Z.of_nat 10.
Proof.
  change (128 ^ Z.of_nat 10) with (2 ^ 70). intros Hv.
  split; [apply Hv|]. eapply Z.lt_trans; [apply Hv|]. apply Z.pow_lt_mono_r; lia.
Qed.

Lemma VarintLength_correct v : is_u64 v -> VarintLength v = blen (EncodeVarint64 v).
Proof.
  intros Hv%u64_varint_range. unfold VarintLength, EncodeVarint64.
  assert (forall n w len, 0 <= w < 128 ^ Z.of_nat n -> (0 < n)%nat ->
    VarintLength_loop n w len = len - 1 + blen (EncodeVarint64_loop n w)) as Hgen.
  { induction n as [|n IH]; intros w len Hw Hn; [lia|].
    cbn [VarintLength_loop EncodeVarint64_loop]. case_bool; [|blia].
    destruct n; [change (128 ^ Z.of_nat 1) with 128 in Hw; lia|].
    rewrite IH by (apply shiftr_7_range || lia; done). blia. }
  rewrite Hgen; [lia|done|lia].
Qed.

Lemma EncodeVarint64_ok v : bytes_ok (EncodeVarint64 v).
Proof.
  unfold EncodeVarint64. generalize 10%nat. intros n. revert v.
  induction n as [|n IH]; intros v; cbn [EncodeVarint64_loop]; [constructor|].
  case_bool; constructor; [apply u8_range|apply IH|apply u8_range|constructor].
Qed.
Lemma EncodeVarint32_ok v : is_u32 v -> bytes_ok (EncodeVarint32 v).
Proof. intros. rewrite EncodeVarint32_loop by done. apply EncodeVarint64_ok. Qed.
#[export] Hint Resolve EncodeVarint64_ok EncodeVarint32_ok : pebbles.

(** The decoder inverts the loop encoder: [result] holds the digits read so far. *)
Lemma GetVarint_loop_encode max_shift w fuel v rest :
  0 <= w -> (forall s, 0 <= s < w -> s mod 7 = 0 -> s <= max_shift) ->
  forall shift result,
    0 <= v < 128 ^ Z.of_nat fuel -> (0 < fuel)%nat ->
    0 <= shift < w -> shift mod 7 = 0 -> 0 <= result < 2 ^ shift ->
    result + v * 2 ^ shift < 2 ^ w ->
    GetVarint_loop max_shift (fun x => x mod 2 ^ w) shift result
      (EncodeVarint64_loop fuel v ++ rest) = Some (result + v * 2 ^ shift, rest).
Proof.
  intros Hw Hms. revert v. induction fuel as [|fuel IH]; intros v shift result Hv Hf Hs Hs7 Hr Hb; [lia|].
  assert (0 < 2 ^ shift) by (apply Z.pow_pos_nonneg; lia).
  cbn [EncodeVarint64_loop]. destruct (Z.leb_spec 128 v) as [Hge|Hlt].
  - rewrite u8_lor_land_127. cbn [app GetVarint_loop].
    destruct (Z.leb_spec shift max_shift) as [_|Hbad]; [|specialize (Hms shift); lia].
    assert (0 <= v mod 128 < 128) by (apply Z.mod_pos_bound; lia).
    pose proof (Z.div_mod v 128 ltac:(lia)) as Hdm.
    rewrite continuation_bit by ulia.
    destruct (Z.ltb_spec (v mod 128 + 128) 128); [lia|]. rewrite land_7f.
    assert ((v mod 128 + 128) mod 128 = v mod 128) as -> by
      (rewrite <- Z.add_mod_idemp_r, Z.mod_same, Z.add_0_r, Z.mod_mod by lia; done).
    rewrite (Z.mod_small (Z.shiftl (v mod 128) shift)) by
      (rewrite Z.shiftl_mul_pow2 by lia; nia).
    rewrite lor_shiftl_add, Z.mod_small by (lia || nia).
    rewrite Z.shiftr_div_pow2 by lia. change (2 ^ 7) with 128.
    assert (2 ^ (shift + 7) = 2 ^ shift * 128) as Hp by (rewrite Z.pow_add_r by lia; done).
    destruct fuel as [|fuel]; [change (128 ^ Z.of_nat 1) with 128 in Hv; lia|].
    rewrite IH; [f_equal; f_equal; rewrite Hp; nia| | | | | |].
    + change (v / 128) with (v / 2 ^ 7). rewrite <- Z.shiftr_div_pow2 by lia. by apply shiftr_7_range.
    + lia.
    + split; [lia|]. apply (Z.pow_lt_mono_r_iff 2); [lia|lia|]. rewrite Hp. nia.
    + rewrite <- Z.add_mod_idemp_r, Z.mod_same, Z.add_0_r by lia. done.
    + rewrite Hp. nia.
    + rewrite Hp. nia.
  - rewrite u8_small by ulia. cbn [app GetVarint_loop].
    destruct (Z.leb_spec shift max_shift) as [_|Hbad]; [|specialize (Hms shift); lia].
    rewrite continuation_bit by ulia. destruct (Z.ltb_spec v 128); [|lia].
    rewrite (Z.mod_small (Z.shiftl v shift)) by (rewrite Z.shiftl_mul_pow2 by lia; lia).
    by rewrite lor_shiftl_add, Z.mod_small by (lia || nia).
Qed.

Lemma GetVarint64_encode v rest :
  is_u64 v -> GetVarint64 (EncodeVarint64 v ++ rest) = Some (v, rest).
Proof.
  intros Hv. unfold GetVarint64, GetVarint64Ptr, EncodeVarint64.
  change u64 with (fun x => x mod 2 ^ 64).
  rewrite GetVarint_loop_encode by
    first [by apply u64_varint_range | ulia | dlia]. f_equal; f_equal; lia.
Qed.

Lemma GetVarint32PtrFallback_encode v rest :
  is_u32 v -> GetVarint32PtrFallback (EncodeVarint64 v ++ rest) = Some (v, rest).
Proof.
  intros Hv. unfold GetVarint32PtrFallback, EncodeVarint64.
  change u32 with (fun x => x mod 2 ^ 32).
  rewrite GetVarint_loop_encode by
    first [by apply u64_varint_range, is_u32_u64 | intros; ulia | intros; dlia]. f_equal; f_equal; lia.
Qed.

Lemma GetVarint32_encode v rest :
  is_u32 v -> GetVarint32 (EncodeVarint32 v ++ rest) = Some (v, rest).
Proof.
  intros Hv. unfold GetVarint32, GetVarint32Ptr. rewrite EncodeVarint32_loop by done.
  destruct (Z.lt_ge_cases v 128).
  - rewrite EncodeVarint64_lt by ulia. cbn [app].
    rewrite continuation_bit by ulia. case_bool; [done|lia].
  - pose proof (GetVarint32PtrFallback_encode v rest Hv) as Hfb. revert Hfb.
    rewrite EncodeVarint64_ge by (ulia || auto with pebbles). cbn [app].
    rewrite continuation_bit by dlia. case_bool; [dlia|done].
Qed.

(** What a successful decode reads: a prefix of at most [n] bytes, all but its
    last with the continuation bit; the value is of the result's width. *)
Lemma GetVarint_loop_reads max_shift (wrap : Z -> Z) shift result p v q :
  GetVarint_loop max_shift wrap shift result p = Some (v, q) ->
  exists pre b, p = pre ++ b :: q /\ Forall (fun b => Z.land b 128 <> 0) pre /\
    Z.land b 128 = 0 /\ shift + 7 * blen pre <= max_shift /\ (exists x, v = wrap x).
Proof.
  revert shift result. induction p as [|b p IH]; intros shift result; [done|].
  cbn [GetVarint_loop]. destruct (Z.leb_spec shift max_shift); [|done].
  destruct (Z.eqb_spec (Z.land b 128) 0) as [Hb|Hb].
  - intros [= <- <-]. exists [], b. repeat split; eauto. blia.
  - intros (pre & b' & -> & Hpre & Hb' & Hs & Hv)%IH.
    exists (b :: pre), b'. repeat split; eauto. blia.
Qed.

(** A successful read consumes a short non-empty prefix of the input. *)
Lemma GetVarint_loop_prefix ms wrap n p v q :
  ms < 7 * n -> GetVarint_loop ms wrap 0 0 p = Some (v, q) ->
  (exists x, v = wrap x) /\ exists pre, p = pre ++ q /\ 1 <= blen pre <= n.
Proof.
  intros Hms (pre & b & -> & _ & _ & Hs & Hv)%GetVarint_loop_reads.
  split; [done|]. exists (pre ++ [b]). rewrite <- app_assoc. split; [done|]. blia.
Qed.

Lemma GetVarint32_reads p v q :
  bytes_ok p -> GetVarint32 p = Some (v, q) ->
  is_u32 v /\ exists pre, p = pre ++ q /\ 1 <= blen pre <= 5.
Proof.
  intros Hp. unfold GetVarint32, GetVarint32Ptr. destruct p as [|b p']; [done|].
  inversion_clear Hp as [|? ? Hb Hp']. rewrite continuation_bit by done. case_bool.
  - intros [= <- <-]. split; [ulia|]. exists [b]. split; [done|blia].
  - intros Hd. apply (GetVarint_loop_prefix _ _ 5) in Hd; [|lia].
    destruct Hd as [[x ->] Hpre]. auto using u32_range.
Qed.

Lemma GetVarint64_reads p v q :
  bytes_ok p -> GetVarint64 p = Some (v, q) ->
  is_u64 v /\ exists pre, p = pre ++ q /\ 1 <= blen pre <= 10.
Proof.
  intros _ H. apply (GetVarint_loop_prefix _ _ 10) in H; [|lia].
  destruct H as [[x ->] Hpre]. auto using u64_range.
Qed.

Lemma GetVarint_loop_trunc max_shift wrap shift result p :
  Forall (fun b => Z.land b 128 <> 0) p -> GetVarint_loop max_shift wrap shift result p = None.
Proof.
  intros Hp. revert shift result. induction Hp as [|b p Hb Hp IH]; intros; [done|].
  cbn [GetVarint_loop]. destruct (Z.eqb_spec (Z.land b 128) 0); [done|].
  case_bool; auto.
Qed.

(** Continuation bits of an encoding: all bytes but the last have it. *)
Lemma EncodeVarint64_shape v :
  is_u64 v -> exists pre b, EncodeVarint64 v = pre ++ [b] /\
    Forall (fun b => Z.land b 128 <> 0) pre /\ Z.land b 128 = 0.
Proof.
  intros Hv. pose proof (GetVarint64_encode v [] Hv) as H. rewrite app_nil_r in H.
  apply GetVarint_loop_reads in H as (pre & b & Heq & Hpre & Hb & _). eauto.
Qed.

Lemma GetVarint32_continuation p :
  Forall (fun b => Z.land b 128 <> 0) p -> GetVarint32 p = None.
Proof.
  intros Hp. unfold GetVarint32, GetVarint32Ptr.
  destruct Hp as [|b p Hb Hp]; [done|].
  destruct (Z.eqb_spec (Z.land b 128) 0); [done|].
  apply GetVarint_loop_trunc. by constructor.
Qed.

Lemma take_shape {A} (pre : list A) b k :
  (k < length (pre ++ [b]))%nat -> take k (pre ++ [b]) = take k pre.
Proof. rewrite length_app. simpl. intros. by rewrite take_app_le by lia. Qed.

Lemma at_cons_0 b l : at_ (b :: l) 0 = b.
Proof. done. Qed.

Lemma list_at_least4 (p : bytes) : 4 <= blen p ->
  exists a b c d q, p = a :: b :: c :: d :: q.
Proof.
  destruct p as [|a [|b [|c [|d q]]]]; try (unfold blen; simpl; lia). eauto 6.
Qed.

Lemma DecodeFixed32_on_le le p :
  bytes_ok p -> 4 <= blen p -> DecodeFixed32_on le p = DecodeFixed32 p.
Proof.
  intros Hp (a & b & c & d & q & ->)%list_at_least4. destruct le; [done|].
  unfold DecodeFixed32, DecodeFixed32_on. cbn [obj_val].
  change (at_ _ 0) with a. change (at_ _ 1) with b.
  change (at_ _ 2) with c. change (at_ _ 3) with d.
  change (sub _ 0 4) with [a; b; c; d]. cbn [le_val].
  unfold bytes_ok in Hp. rewrite !Forall_cons_iff in Hp. destruct Hp as (Ha & Hb & Hc & Hd & _).
  rewrite !u32_small by (rewrite Z.shiftl_mul_pow2 by lia;
    change (2 ^ 24) with 16777216; ulia).
  rewrite (lor_shiftl_add a), (lor_shiftl_add _ c), (lor_shiftl_add _ d);
    change (2 ^ 24) with 16777216; ulia.
Qed.

Lemma DecodeFixed64_on_le le p :
  bytes_ok p -> 8 <= blen p -> DecodeFixed64_on le p = DecodeFixed64 p.
Proof.
  intros Hp Hl. destruct le; [done|]. unfold DecodeFixed64_on.
  rewrite !DecodeFixed32_on_le by (auto with pebbles; blia).
  pose proof (DecodeFixed32_range p Hp).
  pose proof (DecodeFixed32_range (drop 4 p) ltac:(auto with pebbles)).
  rewrite u64_small by (rewrite Z.shiftl_mul_pow2 by lia; ulia).
  rewrite Z.lor_comm, lor_shiftl_add by ulia.
  destruct (list_at_least4 p) as (a & b & c & d & q & ->); [lia|].
  destruct (list_at_least4 q) as (e & f & g & h & r & ->); [blia|].
  unfold DecodeFixed64, DecodeFixed32, DecodeFixed64_on, DecodeFixed32_on.
  cbn [obj_val]. change (drop 4 _) with (e :: f :: g :: h :: r).
  change (sub _ 0 8) with [a; b; c; d; e; f; g; h].
  change (sub (a :: _) 0 4) with [a; b; c; d].
  change (sub (e :: _) 0 4) with [e; f; g; h].
  cbn [le_val]. ulia.
Qed.

(** Arrays of fixed-width integers, as the blocks append them. *)
Definition fixed_array (rs : list Z) : bytes := concat (EncodeFixed32 <$> rs).

Lemma blen_fixed_array rs : blen (fixed_array rs) = 4 * blen rs.
Proof.
  induction rs as [|r rs IH]; [done|].
  change (fixed_array (r :: rs)) with (EncodeFixed32 r ++ fixed_array rs).
  rewrite blen_app, blen_EncodeFixed32, IH, blen_cons. lia.
Qed.

Lemma fixed_array_lookup rs j r rest :
  rs !! j = Some r -> is_u32 r -> DecodeFixed32 (drop (4 * j) (fixed_array rs ++ rest)) = r.
Proof.
  revert j. induction rs as [|r' rs IH]; intros j Hj Hr; [done|].
  change (fixed_array (r' :: rs)) with (EncodeFixed32 r' ++ fixed_array rs). rewrite <- app_assoc.
  destruct j as [|j].
  - injection Hj as ->. by apply DecodeFixed32_encode.
  - replace (4 * S j)%nat with (length (EncodeFixed32 r') + 4 * j)%nat
      by (rewrite EncodeFixed32_length; lia).
    rewrite <- drop_drop, drop_app_length. by apply IH.
Qed.

Lemma fold_PutFixed32 rs buf :
  fold_left (fun buf r => PutFixed32 buf r) rs buf = buf ++ fixed_array rs.
Proof.
  revert buf. induction rs as [|r rs IH]; intros buf; cbn [fold_left]; [by rewrite app_nil_r|].
  rewrite IH. unfold PutFixed32. by rewrite <- app_assoc.
Qed.

(** ** The interface the record formats use

    A format is an encoder with a decoder that inverts it in front of any
    further input; the components that lay records out on disk are proved
    against this interface. *)
Class RoundTrip {A} (enc : A -> bytes) (dec : bytes -> option (A * bytes)) (ok : A -> Prop) :=
  roundtrip : forall a rest, ok a -> dec (enc a ++ rest) = Some (a, rest).

#[export] Instance varint32_RoundTrip : RoundTrip EncodeVarint32 GetVarint32 is_u32.
Proof. intros v rest. apply GetVarint32_encode. Qed.
#[export] Instance varint64_RoundTrip : RoundTrip EncodeVarint64 GetVarint64 is_u64.
Proof. intros v rest. apply GetVarint64_encode. Qed.

(** What [PutLengthPrefixedSlice] appends. *)
Definition LengthPrefixed (value : bytes) : bytes := PutLengthPrefixedSlice [] value.
Definition lp_ok (value : bytes) : Prop := blen value < 2 ^ 32.

Lemma PutLengthPrefixedSlice_app dst value :
  PutLengthPrefixedSlice dst value = dst ++ LengthPrefixed value.
Proof. unfold LengthPrefixed, PutLengthPrefixedSlice, PutVarint32. by rewrite <- app_assoc. Qed.

#[export] Instance LengthPrefixed_RoundTrip :
  RoundTrip LengthPrefixed GetLengthPrefixedSlice lp_ok.
Proof.
  intros value rest Hv. unfold lp_ok in Hv. unfold LengthPrefixed, PutLengthPrefixedSlice, PutVarint32.
  rewrite app_nil_l, <- app_assoc. unfold GetLengthPrefixedSlice.
  rewrite u32_small by blia. rewrite (roundtrip (blen value)) by blia.
  case_bool; [|blia]. unfold blen. rewrite Nat2Z.id.
  by rewrite take_app_length, drop_app_length.
Qed.

Lemma LengthPrefixed_ok value : bytes_ok value -> bytes_ok (LengthPrefixed value).
Proof.
  intros. unfold LengthPrefixed, PutLengthPrefixedSlice, PutVarint32.
  rewrite app_nil_l, bytes_ok_app. auto with pebbles.
Qed.
#[export] Hint Resolve LengthPrefixed_ok : pebbles.

Lemma GetLengthPrefixedSlicePtr_eq p : GetLengthPrefixedSlicePtr p = GetLengthPrefixedSlice p.
Proof.
  unfold GetLengthPrefixedSlicePtr, GetLengthPrefixedSlice, GetVarint32.
  destruct (GetVarint32Ptr p) as [[len p']|]; [|done]. repeat case_bool; lia || done.
Qed.

(** Decode one field of a record laid out with [++]. *)
Ltac decode_field :=
  rewrite <- ?app_assoc; rewrite roundtrip by (auto with pebbles; ulia).

(** ** Properties *)

(** The fixed-width encodings are endian-neutral: bytes written on a machine
    of either endianness decode on a machine of either endianness to the value
    that was written. *)
Theorem fixed_endian_neutral (wle rle : bool) (v32 v64 : Z) (rest : bytes)
    (H32 : is_u32 v32) (H64 : is_u64 v64) (Hrest : bytes_ok rest) :
  DecodeFixed32_on rle (EncodeFixed32_on wle v32 ++ rest) = v32 /\
  DecodeFixed64_on rle (EncodeFixed64_on wle v64 ++ rest) = v64.
Proof.
  rewrite EncodeFixed32_on_le, EncodeFixed64_on_le.
  rewrite DecodeFixed32_on_le, DecodeFixed64_on_le by
    (rewrite ?bytes_ok_app; auto with pebbles; blia).
  split; [by apply DecodeFixed32_encode|by apply DecodeFixed64_encode].
Qed.

Lemma fixed_endian_neutral_witness :
  is_u32 3735928559 /\ DecodeFixed32_on false (EncodeFixed32_on true 3735928559 ++ [7]) = 3735928559.
Proof.
  split; [done|].
  apply (fixed_endian_neutral true false 3735928559 1 [7]); [done|done|].
  by repeat constructor.
Defined.

(** Both varint formats round-trip: reading back what was written gives the
    value and leaves the input just after it, through the unrolled 32-bit
    encoder and the 32-bit reader's one-byte fast path as well as through the
    64-bit loops; the encoding has [VarintLength] bytes; and an input that ends
    inside an encoding is rejected. *)
Theorem varint_roundtrip (v32 v64 : Z) (rest : bytes) (H32 : is_u32 v32) (H64 : is_u64 v64) :
  GetVarint32 (EncodeVarint32 v32 ++ rest) = Some (v32, rest) /\
  GetVarint64 (EncodeVarint64 v64 ++ rest) = Some (v64, rest) /\
  blen (EncodeVarint32 v32) = VarintLength v32 /\ blen (EncodeVarint64 v64) = VarintLength v64 /\
  (forall k, (k < length (EncodeVarint32 v32))%nat -> GetVarint32 (take k (EncodeVarint32 v32)) = None) /\
  (forall k, (k < length (EncodeVarint64 v64))%nat -> GetVarint64 (take k (EncodeVarint64 v64)) = None).
Proof.
  split_and!; [apply roundtrip; done|apply roundtrip; done| | | |].
  - rewrite VarintLength_correct, EncodeVarint32_loop by auto with pebbles. done.
  - by rewrite VarintLength_correct.
  - rewrite EncodeVarint32_loop by done.
    destruct (EncodeVarint64_shape v32) as (pre & b & -> & Hpre & _); [auto with pebbles|].
    intros k Hk. rewrite take_shape by done. by apply GetVarint32_continuation, Forall_take.
  - destruct (EncodeVarint64_shape v64) as (pre & b & -> & Hpre & _); [done|].
    intros k Hk. rewrite take_shape by done. by apply GetVarint_loop_trunc, Forall_take.
Qed.

Lemma varint_roundtrip_witness :
  GetVarint32 (EncodeVarint32 300 ++ [1]) = Some (300, [1]).
Proof. apply (varint_roundtrip 300 0 [1]); done. Defined.

(** A varint read is safe on any input: it succeeds only after a prefix of
    at most five (ten) bytes of the input that ends at its first byte without
    the continuation bit, leaves exactly the rest, and yields a 32-bit (64-bit)
    value. *)
Theorem varint_read_bounds (p : bytes) (v : Z) (q : bytes) (Hp : bytes_ok p) :
  (GetVarint32 p = Some (v, q) ->
     is_u32 v /\ exists pre, p = pre ++ q /\ 1 <= blen pre <= 5) /\
  (GetVarint64 p = Some (v, q) ->
     is_u64 v /\ exists pre, p = pre ++ q /\ 1 <= blen pre <= 10).
Proof.
  split; [by apply GetVarint32_reads|by apply GetVarint64_reads].
Qed.

Lemma varint_read_bounds_witness :
  bytes_ok [172; 2; 9] /\ is_u32 300.
Proof.
  assert (bytes_ok [172; 2; 9]) as H by (by repeat constructor).
  split; [done|]. exact (proj1 (proj1 (varint_read_bounds [172; 2; 9] 300 [9] H) eq_refl)).
Defined.

(** A slice shorter than 2^32 bytes appended with its length prefix is read
    back exactly, wherever it stands in the output and whatever follows; a
    prefix that promises more bytes than are left is rejected. *)
Theorem length_prefixed_roundtrip (dst value rest : bytes) (Hv : blen value < 2 ^ 32) :
  (exists enc, PutLengthPrefixedSlice dst value = dst ++ enc /\
     GetLengthPrefixedSlice (enc ++ rest) = Some (value, rest)) /\
  (forall len, is_u32 len -> blen rest < len ->
     GetLengthPrefixedSlice (EncodeVarint32 len ++ rest) = None).
Proof.
  split.
  - exists (LengthPrefixed value). rewrite PutLengthPrefixedSlice_app. split; [done|].
    by apply roundtrip.
  - intros len Hl Hr. unfold GetLengthPrefixedSlice. rewrite roundtrip by done.
    case_bool; [lia|done].
Qed.

Lemma length_prefixed_roundtrip_witness :
  exists enc, PutLengthPrefixedSlice [1] [97; 98; 99] = [1] ++ enc /\
    GetLengthPrefixedSlice (enc ++ [5]) = Some ([97; 98; 99], [5]).
Proof. apply (length_prefixed_roundtrip [1] [97; 98; 99] [5]). done. Defined.
