(* ===== verification/Status.v ===== *)
(** * Statuses and files

    Models [src/pebblesdb/src/include/pebblesdb/status.h] and [util/status.cc]
    (a status is [NULL] or a heap array holding length, code and message), and
    the contracts of the file objects of [include/pebblesdb/env.h] that the log
    and the tables are written to and read from.  The files themselves are
    operating-system objects: the components take them as parameters and the
    theorems instantiate them with in-memory byte strings. *)

From Stdlib Require String Ascii.
From S2P Require Import Prelude Coding.
Export String.StringSyntax.
Delimit Scope string_scope with string.

(** Bytes of a C string literal. *)
Definition str (s : String.string) : bytes :=
  map (fun c => Z.of_N (Ascii.N_of_ascii c)) (String.list_ascii_of_string s).
Arguments str s%_string_scope.

(** [%u], [%d] and [%llu] of a nonnegative number: decimal digits, most
    significant first.  Twenty digits are enough for 64 bits. *)
Fixpoint decimal_loop (fuel : nat) (n : Z) (acc : bytes) : bytes :=
  match fuel with
  | O => acc
  | S fuel =>
      let acc := (48 + n mod 10) :: acc in
      if n / 10 =? 0 then acc else decimal_loop fuel (n / 10) acc
  end.
Definition decimal (n : Z) : bytes := decimal_loop 20 n [].

(** ** Status *)

(** [state_]: [None] is the null pointer of a success status. *)
Definition Status := option bytes.

Definition kOk : Z := 0.
Definition kNotFound : Z := 1.
Definition kCorruption : Z := 2.
Definition kNotSupported : Z := 3.
Definition kInvalidArgument : Z := 4.
Definition kIOError : Z := 5.

(** The private constructor: [state_\[0..3\]] is the length of the message,
    [state_\[4\]] the code, [state_\[5..\]] the message. *)
Definition mkStatus (c : Z) (msg msg2 : bytes) : Status :=
  let len1 := u32 (blen msg) in
  let len2 := u32 (blen msg2) in
  let size := u32 (len1 + (if len2 =? 0 then 0 else 2 + len2)) in
  Some (EncodeFixed32 size ++ [c] ++ take (Z.to_nat len1) msg ++
        (if len2 =? 0 then [] else str ": " ++ take (Z.to_nat len2) msg2)).

Definition OK : Status := None.
Definition NotFound (msg : bytes) : Status := mkStatus kNotFound msg [].
Definition Corruption (msg : bytes) : Status := mkStatus kCorruption msg [].
Definition NotSupported (msg : bytes) : Status := mkStatus kNotSupported msg [].
Definition InvalidArgument (msg : bytes) : Status := mkStatus kInvalidArgument msg [].
Definition IOError (msg msg2 : bytes) : Status := mkStatus kIOError msg msg2.

Definition ok (s : Status) : bool := match s with None => true | Some _ => false end.
Definition code (s : Status) : Z := match s with None => kOk | Some st => at_ st 4 end.
Definition IsNotFound (s : Status) : bool := code s =? kNotFound.
Definition IsCorruption (s : Status) : bool := code s =? kCorruption.
Definition IsIOError (s : Status) : bool := code s =? kIOError.

(** [CopyState] copies [size + 5] bytes. *)
Definition CopyState (state : bytes) : bytes :=
  let size := DecodeFixed32 state in
  take (Z.to_nat (size + 5)) state.

(** The text of a status. *)
Definition ToString (s : Status) : bytes :=
  match s with
  | None => str "OK"
  | Some st =>
      let type :=
        if code s =? kOk then str "OK"
        else if code s =? kNotFound then str "NotFound: "
        else if code s =? kCorruption then str "Corruption: "
        else if code s =? kNotSupported then str "Not implemented: "
        else if code s =? kInvalidArgument then str "Invalid argument: "
        else if code s =? kIOError then str "IO error: "
        else str "Unknown code(" ++ decimal (code s) ++ str "): " in
      type ++ sub st 5 (DecodeFixed32 st)
  end.

Definition status_msg (msg msg2 : bytes) : bytes :=
  match msg2 with [] => msg | _ => msg ++ str ": " ++ msg2 end.

Lemma mkStatus_state c msg msg2 :
  blen msg + blen msg2 + 2 < 2 ^ 32 ->
  mkStatus c msg msg2 =
    Some (EncodeFixed32 (blen (status_msg msg msg2)) ++ [c] ++ status_msg msg msg2).
Proof.
  intros Hl. unfold mkStatus, status_msg.
  rewrite (u32_small (blen msg)), (u32_small (blen msg2)) by blia.
  rewrite !take_ge by (unfold blen; lia).
  destruct msg2 as [|b msg2].
  - change (blen [] =? 0) with true. cbn match. rewrite Z.add_0_r, u32_small by blia.
    by rewrite app_nil_r.
  - destruct (Z.eqb_spec (blen (b :: msg2)) 0); [blia|].
    rewrite u32_small by blia. do 3 f_equal. rewrite !blen_app.
    change (blen (str ": ")) with 2. lia.
Qed.

Lemma status_copy c msg msg2 st :
  blen msg + blen msg2 + 2 < 2 ^ 32 ->
  mkStatus c msg msg2 = Some st -> CopyState st = st.
Proof.
  intros Hl Hst. rewrite mkStatus_state in Hst by done. apply (inj Some) in Hst as <-.
  assert (blen (status_msg msg msg2) < 2 ^ 32) as Hs.
  { unfold status_msg. destruct msg2; autorewrite with blen in *; change (blen (str ": ")) with 2; blia. }
  unfold CopyState. rewrite DecodeFixed32_encode by blia.
  apply take_ge. rewrite !length_app, EncodeFixed32_length. simpl. ulia.
Qed.

(** An error status keeps its code and message: the predicates answer by
    the code it was built with, its text is the name of the code followed by the
    message (and the second message after a colon), and copying it copies the
    whole state. *)
Theorem status_roundtrip (c : Z) (msg msg2 : bytes)
    (Hc : 1 <= c <= 5) (Hl : blen msg + blen msg2 + 2 < 2 ^ 32) :
  let s := mkStatus c msg msg2 in
  ok s = false /\ code s = c /\ option_map CopyState s = s /\
  exists type, ToString s = type ++ msg ++ (match msg2 with [] => [] | _ => str ": " ++ msg2 end) /\
    (IsNotFound s = true -> type = str "NotFound: ") /\
    (IsCorruption s = true -> type = str "Corruption: ") /\
    (IsIOError s = true -> type = str "IO error: ").
Proof.
  cbv zeta. destruct (mkStatus c msg msg2) as [st|] eqn:Est; [|by rewrite mkStatus_state in Est].
  assert (option_map CopyState (Some st) = Some st) as Hcopy.
  { cbn. by rewrite (status_copy c msg msg2). }
  rewrite mkStatus_state in Est by done. apply (inj Some) in Est as <-.
  assert (blen (status_msg msg msg2) < 2 ^ 32) as Hs.
  { unfold status_msg. destruct msg2; autorewrite with blen in *; change (blen (str ": ")) with 2; blia. }
  assert (forall m, code (Some (EncodeFixed32 (blen m) ++ [c] ++ m)) = c) as Hcode by done.
  split_and!; [done|apply Hcode|done|].
  unfold ToString, IsNotFound, IsCorruption, IsIOError. rewrite !Hcode.
  rewrite DecodeFixed32_encode by blia.
  assert (sub (EncodeFixed32 (blen (status_msg msg msg2)) ++ [c] ++ status_msg msg msg2) 5
            (blen (status_msg msg msg2)) =
          msg ++ match msg2 with [] => [] | _ => str ": " ++ msg2 end) as ->.
  { unfold sub. rewrite app_assoc, drop_app_length' by done.
    rewrite take_ge by (unfold blen; lia). unfold status_msg. destruct msg2; [by rewrite app_nil_r|done]. }
  eexists. split; [reflexivity|].
  unfold kOk, kNotFound, kCorruption, kNotSupported, kInvalidArgument, kIOError.
  split_and!; intros E%Z.eqb_eq; rewrite E; done.
Qed.

Lemma status_roundtrip_witness : code (mkStatus kIOError (str "f") (str "no such file")) = kIOError.
Proof. apply (status_roundtrip kIOError (str "f") (str "no such file")); [unfold kIOError; lia|done]. Defined.

(** ** Files *)

(** A file open for concurrent positional writes. *)
Class ConcurrentWritableFile (F : Type) := {
  WriteAt : F -> Z -> bytes -> F * Status;
}.

(** A file open for sequential reads: [Read] returns the bytes read. *)
Class SequentialFile (F : Type) := {
  Read : F -> Z -> F * (Status * bytes);
  Skip : F -> Z -> F * Status;
}.

(** An in-memory file: writing past the end leaves a hole of zeros, as the
    mapped, pre-allocated files of the POSIX environment do. *)
Definition mem_write (f : bytes) (off : Z) (data : bytes) : bytes :=
  let o := Z.to_nat off in
  take o (f ++ replicate (o - length f) 0) ++ data ++ drop (o + length data) f.

#[export] Instance mem_ConcurrentWritableFile : ConcurrentWritableFile bytes := {
  WriteAt f off data := (mem_write f off data, OK);
}.

(** Reading: the bytes not read yet. *)
#[export] Instance mem_SequentialFile : SequentialFile bytes := {
  Read f n := (drop (Z.to_nat n) f, (OK, take (Z.to_nat n) f));
  Skip f n := (drop (Z.to_nat n) f, OK);
}.

Lemma mem_write_end f data : mem_write f (blen f) data = f ++ data.
Proof.
  unfold mem_write, blen. rewrite Nat2Z.id, Nat.sub_diag. cbn [replicate].
  rewrite app_nil_r, take_ge by done. rewrite drop_ge by lia. by rewrite app_nil_r.
Qed.

(** A file open for random reads: the bytes read and whether they lie in the
    caller's scratch buffer (rather than in memory the file maps). *)
Class RandomAccessFile (F : Type) := {
  ReadAt : F -> Z -> Z -> Status * (bytes * bool);
}.

(** A file written front to back. *)
Class WritableFile (F : Type) := {
  Append : F -> bytes -> F * Status;
  FlushFile : F -> F * Status;
}.

#[export] Instance mem_RandomAccessFile : RandomAccessFile bytes := {
  ReadAt f off n := (OK, (sub f off n, true));
}.
#[export] Instance mem_WritableFile : WritableFile bytes := {
  Append f data := (f ++ data, OK);
  FlushFile f := (f, OK);
}.
