(* ===== verification/Comparator.v ===== *)
(** * Slices, comparators and the byte-wise order

    Models [src/pebblesdb/src/include/pebblesdb/slice.h], [comparator.h] and
    [util/comparator.cc].  The [Comparator] interface is a record of operations
    with its documented contract as a class ([ComparatorOk]): a total order,
    separators within [\[start, limit)], successors at or above the key.
    [BytewiseComparator] is shown to meet it, and the clients (internal keys,
    blocks, tables) are proved against the contract only. *)

From S2P Require Import Prelude.

(** ** Slice comparison *)

(** [memcmp(a, b, n)] with its result reduced to its sign: the code tests
    nothing else. *)
Fixpoint memcmp (a b : bytes) (n : nat) : Z :=
  match n, a, b with
  | S n, x :: a, y :: b => if x <? y then -1 else if y <? x then 1 else memcmp a b n
  | _, _, _ => 0
  end.

Definition Slice_compare (a b : bytes) : Z :=
  let min_len := if blen a <? blen b then blen a else blen b in
  let r := memcmp a b (Z.to_nat min_len) in
  if r =? 0 then
    if blen a <? blen b then -1 else if blen b <? blen a then 1 else r
  else r.

Definition Slice_eq (x y : bytes) : bool :=
  (blen x =? blen y) && (memcmp x y (length x) =? 0).

Definition starts_with (s x : bytes) : bool :=
  (blen x <=? blen s) && (memcmp s x (length x) =? 0).

(** ** The comparator interface *)

Record Comparator := {
  Compare : bytes -> bytes -> Z;
  FindShortestSeparator : bytes -> bytes -> bytes;
  FindShortSuccessor : bytes -> bytes;
  KeyNum : bytes -> Z;
}.

(** The contract of [comparator.h] on the keys [valid] it is used for. *)
Class ComparatorOk (c : Comparator) (valid : bytes -> Prop) := {
  cmp_refl : forall a, valid a -> Compare c a a = 0;
  cmp_antisym : forall a b, valid a -> valid b -> (Compare c a b < 0 <-> 0 < Compare c b a);
  cmp_trans : forall a b d, valid a -> valid b -> valid d ->
    Compare c a b <= 0 -> Compare c b d <= 0 -> Compare c a d <= 0;
  sep_valid : forall s l, valid s -> valid l -> valid (FindShortestSeparator c s l);
  sep_lower : forall s l, valid s -> valid l -> Compare c s l < 0 ->
    Compare c s (FindShortestSeparator c s l) <= 0;
  sep_upper : forall s l, valid s -> valid l -> Compare c s l < 0 ->
    Compare c (FindShortestSeparator c s l) l < 0;
  sep_noop : forall s l, valid s -> valid l -> 0 <= Compare c s l ->
    FindShortestSeparator c s l = s;
  succ_valid : forall k, valid k -> valid (FindShortSuccessor c k);
  succ_lower : forall k, valid k -> Compare c k (FindShortSuccessor c k) <= 0;
}.

(** What the memtable and the merging iterator rely on of [KeyNum]. *)
Class KeyNumOk (c : Comparator) (valid : bytes -> Prop) := {
  kn_mono : forall a b, valid a -> valid b -> Compare c a b <= 0 -> KeyNum c a <= KeyNum c b;
  kn_range : forall a, valid a -> 0 <= KeyNum c a <= UINT64_MAX;
}.

(** ** The byte-wise comparator *)

(** [while (diff_index < min_length && start[diff_index] == limit[diff_index])] *)
Fixpoint common_prefix (a b : bytes) : nat :=
  match a, b with
  | x :: a, y :: b => if x =? y then S (common_prefix a b) else O
  | _, _ => O
  end.

Definition Bytewise_FindShortestSeparator (start limit : bytes) : bytes :=
  let min_length := Z.min (blen start) (blen limit) in
  let diff_index := Z.of_nat (common_prefix start limit) in
  if min_length <=? diff_index then start
  else
    let diff_byte := at_ start diff_index in
    if (diff_byte <? 255) && (diff_byte + 1 <? at_ limit diff_index) then
      take (Z.to_nat (diff_index + 1)) (<[Z.to_nat diff_index := u8 (diff_byte + 1)]> start)
    else start.

(** [for (i = 0; i < n; i++)]: the first byte other than [0xff] is incremented
    and the key cut after it; [pre] is the part already scanned. *)
Fixpoint Bytewise_FindShortSuccessor_loop (pre key : bytes) : bytes :=
  match key with
  | [] => pre
  | byte :: key' =>
      if byte =? 255 then Bytewise_FindShortSuccessor_loop (pre ++ [byte]) key'
      else pre ++ [u8 (byte + 1)]
  end.
Definition Bytewise_FindShortSuccessor (key : bytes) : bytes :=
  Bytewise_FindShortSuccessor_loop [] key.

(** The first eight bytes, zero-padded, as a big-endian number. *)
Definition Bytewise_KeyNum (key : bytes) : Z :=
  let buf := take 8 key ++ replicate (8 - length key) 0 in
  Z.lor (Z.lor (Z.lor (Z.lor (Z.lor (Z.lor (Z.lor
    (Z.shiftl (at_ buf 0) 56) (Z.shiftl (at_ buf 1) 48)) (Z.shiftl (at_ buf 2) 40))
    (Z.shiftl (at_ buf 3) 32)) (Z.shiftl (at_ buf 4) 24)) (Z.shiftl (at_ buf 5) 16))
    (Z.shiftl (at_ buf 6) 8)) (at_ buf 7).

Definition BytewiseComparator : Comparator := {|
  Compare := Slice_compare;
  FindShortestSeparator := Bytewise_FindShortestSeparator;
  FindShortSuccessor := Bytewise_FindShortSuccessor;
  KeyNum := Bytewise_KeyNum;
|}.

(** ** Specification: lexicographic order *)

Fixpoint lex_compare (a b : bytes) : comparison :=
  match a, b with
  | [], [] => Eq
  | [], _ => Lt
  | _, [] => Gt
  | x :: a, y :: b => match x ?= y with Eq => lex_compare a b | c => c end
  end.

Definition sign (c : comparison) : Z := match c with Lt => -1 | Eq => 0 | Gt => 1 end.

Lemma Slice_compare_cons x a y b :
  Slice_compare (x :: a) (y :: b) =
    if x <? y then -1 else if y <? x then 1 else Slice_compare a b.
Proof.
  unfold Slice_compare, blen. simpl length.
  assert (forall n, Z.to_nat (Z.of_nat (S n)) = S n) as HS by lia.
  assert (forall n, Z.to_nat (Z.of_nat n) = n) as HN by lia.
  repeat case_bool; try lia; rewrite ?HS, ?HN in *; cbn [memcmp] in *;
    repeat case_bool; try lia; done.
Qed.

Lemma Slice_compare_lex a b : Slice_compare a b = sign (lex_compare a b).
Proof.
  revert b. induction a as [|x a IH]; intros [|y b]; try done.
  rewrite Slice_compare_cons, IH. cbn [lex_compare].
  destruct (Z.compare_spec x y); repeat case_bool; lia || done.
Qed.

Lemma lex_compare_eq a b : lex_compare a b = Eq <-> a = b.
Proof.
  revert b. induction a as [|x a IH]; intros [|y b]; cbn [lex_compare]; try done.
  destruct (Z.compare_spec x y) as [->|H|H].
  - rewrite IH. split; congruence.
  - split; [done|]. intros [= -> ->]. lia.
  - split; [done|]. intros [= -> ->]. lia.
Qed.

Lemma lex_compare_opp a b : lex_compare b a = CompOpp (lex_compare a b).
Proof.
  revert b. induction a as [|x a IH]; intros [|y b]; cbn [lex_compare]; try done.
  rewrite (Z.compare_antisym x y), IH. by destruct (x ?= y).
Qed.

Lemma lex_compare_trans c a b d :
  lex_compare a b = c -> lex_compare b d = c -> lex_compare a d = c.
Proof.
  revert b d. induction a as [|x a IH]; intros [|y b] [|z d]; cbn [lex_compare]; try congruence.
  destruct (Z.compare_spec x y), (Z.compare_spec y z), (Z.compare_spec x z);
    subst; try lia; try congruence; eauto.
Qed.

Lemma sign_lt c : sign c < 0 <-> c = Lt.
Proof. destruct c; simpl; split; lia || done. Qed.
Lemma sign_gt c : 0 < sign c <-> c = Gt.
Proof. destruct c; simpl; split; lia || done. Qed.
Lemma sign_le c : sign c <= 0 <-> c <> Gt.
Proof. destruct c; simpl; split; lia || done. Qed.
Lemma sign_eq c : sign c = 0 <-> c = Eq.
Proof. destruct c; simpl; split; lia || done. Qed.

Lemma Slice_compare_eq a b : Slice_compare a b = 0 <-> a = b.
Proof. by rewrite Slice_compare_lex, sign_eq, lex_compare_eq. Qed.
Lemma Slice_compare_antisym a b : Slice_compare a b < 0 <-> 0 < Slice_compare b a.
Proof.
  rewrite !Slice_compare_lex, sign_lt, sign_gt, lex_compare_opp.
  by destruct (lex_compare b a).
Qed.
Lemma Slice_compare_trans a b d :
  Slice_compare a b <= 0 -> Slice_compare b d <= 0 -> Slice_compare a d <= 0.
Proof.
  rewrite !Slice_compare_lex, !sign_le. intros H1 H2.
  destruct (lex_compare a b) eqn:E1; [|destruct (lex_compare b d) eqn:E2|done]; [| | |done].
  - apply lex_compare_eq in E1 as ->. done.
  - apply lex_compare_eq in E2 as ->. by rewrite E1.
  - by rewrite (lex_compare_trans Lt a b d).
Qed.

Lemma memcmp_self a n : memcmp a a n = 0.
Proof.
  revert n. induction a as [|x a IH]; intros [|n]; try done. cbn [memcmp].
  rewrite !Z.ltb_irrefl. apply IH.
Qed.

Lemma memcmp_prefix x s : memcmp s x (length x) = 0 /\ (length x <= length s)%nat <->
  exists r, s = x ++ r.
Proof.
  split.
  - revert s. induction x as [|c x IH]; intros [|d s] [Hm Hl]; simpl in Hl; try lia; [by exists []|by exists (d :: s)|].
    cbn [memcmp length] in Hm. repeat case_bool; try lia.
    destruct (IH s) as [r ->]; [split; [done|lia]|]. exists r. simpl. f_equal. lia.
  - intros [r ->]. rewrite length_app. split; [|lia].
    induction x as [|c x IH]; [by destruct r|]. cbn [memcmp length app].
    by rewrite !Z.ltb_irrefl.
Qed.

(** [operator==] is equality of contents and [starts_with] the prefix test. *)
Lemma Slice_eq_spec x y : Slice_eq x y = true <-> x = y.
Proof.
  unfold Slice_eq. rewrite andb_true_iff, !Z.eqb_eq. split.
  - intros [Hl Hm]. destruct (proj1 (memcmp_prefix x y)) as [r Hr].
    { unfold blen in Hl. split; [|lia].
      assert (forall n a b, memcmp a b n = 0 -> memcmp b a n = 0) as Hsym.
      { induction n as [|n IH]; intros [|? ?] [|? ?]; cbn [memcmp]; try done.
        repeat case_bool; try lia; try done. apply IH. }
      by apply Hsym. }
    subst y. rewrite blen_app in Hl. destruct r; [by rewrite app_nil_r|blia].
  - intros ->. by rewrite memcmp_self.
Qed.

Lemma starts_with_spec s x : starts_with s x = true <-> exists r, s = x ++ r.
Proof.
  unfold starts_with. rewrite <- memcmp_prefix, andb_true_iff, Z.leb_le, Z.eqb_eq.
  unfold blen. split; intros [??]; split; lia || done.
Qed.

(** ** The separator and the successor stay in their intervals *)

Lemma common_prefix_spec a b :
  let k := common_prefix a b in
  take k a = take k b /\ (k <= length a)%nat /\ (k <= length b)%nat /\
  ((k < length a)%nat -> (k < length b)%nat -> at_ a (Z.of_nat k) <> at_ b (Z.of_nat k)).
Proof.
  revert b. induction a as [|x a IH]; intros [|y b]; cbn [common_prefix length take]; try (split_and!; lia || done).
  destruct (Z.eqb_spec x y) as [->|Hne].
  - destruct (IH b) as (Ht & Ha & Hb & Hd). cbn [take length].
    split_and!; [by rewrite Ht|lia|lia|].
    unfold at_ in *. rewrite !Nat2Z.id in *. cbn [nth]. intros. apply Hd; lia.
  - split_and!; lia || done.
Qed.

Lemma lex_compare_app_l p a b : lex_compare (p ++ a) (p ++ b) = lex_compare a b.
Proof. induction p as [|x p IH]; [done|]. cbn [app lex_compare]. by rewrite Z.compare_refl. Qed.

(** The rest of a string from an index inside it. *)
Lemma drop_at (l : bytes) k :
  (k < length l)%nat -> exists x r, drop k l = x :: r /\ at_ l (Z.of_nat k) = x.
Proof.
  intros Hk. destruct (drop k l) as [|x r] eqn:E.
  - apply (f_equal length) in E. rewrite length_drop in E. simpl in E. lia.
  - exists x, r. split; [done|]. unfold at_. rewrite Nat2Z.id.
    rewrite <- (take_drop k l), E, app_nth2; rewrite length_take; [|lia].
    replace (k - k `min` length l)%nat with O by lia. done.
Qed.

(** A key cut at [k] with a larger byte there. *)
Lemma lex_compare_bump a k c :
  (k < length a)%nat -> at_ a (Z.of_nat k) < c ->
  lex_compare a (take k a ++ [c]) = Lt.
Proof.
  intros Hk Hc. rewrite <- (take_drop k a) at 1. rewrite lex_compare_app_l.
  destruct (drop_at a k Hk) as (x & r & -> & <-). cbn [lex_compare].
  by rewrite (proj2 (Z.compare_lt_iff _ c)).
Qed.

(** [start[i]++; start->resize(i + 1)] *)
Lemma bump_eq (a : bytes) k c :
  (k < length a)%nat -> take (S k) (<[k := c]> a) = take k a ++ [c].
Proof.
  revert a. induction k as [|k IH]; intros [|x a] Hk; simpl in Hk; try lia; [done|].
  change (<[S k:=c]> (x :: a)) with (x :: <[k:=c]> a). cbn [take].
  by rewrite IH by lia.
Qed.

(** The separator is [start] itself or [start] cut at its first difference from
    [limit] with that byte incremented, still below [limit]'s. *)
Lemma Bytewise_separator_cases start limit :
  bytes_ok start ->
  let k := common_prefix start limit in
  let c := at_ start (Z.of_nat k) + 1 in
  Bytewise_FindShortestSeparator start limit = start \/
  (Bytewise_FindShortestSeparator start limit = take k start ++ [c] /\
   (k < length start)%nat /\ (k < length limit)%nat /\ is_u8 c /\ c < at_ limit (Z.of_nat k)).
Proof.
  intros Hs k c. unfold Bytewise_FindShortestSeparator. fold k.
  destruct (Z.leb_spec (Z.min (blen start) (blen limit)) (Z.of_nat k)); [by left|].
  destruct (Z.ltb_spec (at_ start (Z.of_nat k)) 255); [|by left].
  destruct (Z.ltb_spec (at_ start (Z.of_nat k) + 1) (at_ limit (Z.of_nat k))); [|by left].
  right. pose proof (at_range start (Z.of_nat k) Hs). subst c.
  assert (k < length start)%nat by ulia. assert (k < length limit)%nat by ulia.
  split_and!; try done; try ulia.
  cbn [andb]. rewrite Nat2Z.id. replace (Z.to_nat (Z.of_nat k + 1)) with (S k) by lia.
  rewrite u8_small by ulia. by apply bump_eq.
Qed.

Lemma Bytewise_separator_ok start limit :
  bytes_ok start -> bytes_ok (Bytewise_FindShortestSeparator start limit).
Proof.
  intros Hs. destruct (Bytewise_separator_cases start limit Hs) as [->|(-> & _ & _ & Hc & _)]; [done|].
  apply bytes_ok_app. auto with pebbles.
Qed.

Lemma Bytewise_separator_lower start limit :
  bytes_ok start -> Slice_compare start (Bytewise_FindShortestSeparator start limit) <= 0.
Proof.
  intros Hs. rewrite Slice_compare_lex, sign_le.
  destruct (Bytewise_separator_cases start limit Hs) as [->|(-> & Hk & _ & _ & _)].
  - by rewrite (proj2 (lex_compare_eq _ _)).
  - rewrite lex_compare_bump; [done|done|lia].
Qed.

Lemma Bytewise_separator_upper start limit :
  bytes_ok start -> Slice_compare start limit < 0 ->
  Slice_compare (Bytewise_FindShortestSeparator start limit) limit < 0.
Proof.
  intros Hs Hlt. destruct (Bytewise_separator_cases start limit Hs) as [->|(-> & Hk & Hk' & _ & Hc)]; [done|].
  destruct (common_prefix_spec start limit) as [-> _].
  rewrite Slice_compare_lex, sign_lt, lex_compare_opp.
  set (k := common_prefix start limit) in *.
  rewrite <- (take_drop k limit) at 1. rewrite lex_compare_app_l.
  destruct (drop_at limit k Hk') as (x & r & -> & <-).
  cbn [lex_compare]. by rewrite (proj2 (Z.compare_gt_iff _ _)) by lia.
Qed.

Lemma Bytewise_separator_noop start limit :
  bytes_ok start -> 0 <= Slice_compare start limit ->
  Bytewise_FindShortestSeparator start limit = start.
Proof.
  intros Hs Hge. destruct (Bytewise_separator_cases start limit Hs) as [->|(_ & Hk & Hk' & _ & Hc)]; [done|].
  exfalso. revert Hge. rewrite Slice_compare_lex. destruct (common_prefix_spec start limit) as [Ht _].
  set (k := common_prefix start limit) in *.
  assert (lex_compare start limit = Lt) as ->; [|simpl; lia].
  destruct (drop_at start k Hk) as (x & r & Hd & <-).
  destruct (drop_at limit k Hk') as (y & r' & Hd' & <-).
  rewrite <- (take_drop k start), <- (take_drop k limit), Ht, lex_compare_app_l, Hd, Hd'.
  cbn [lex_compare]. by rewrite (proj2 (Z.compare_lt_iff _ _)) by lia.
Qed.

Lemma Bytewise_succ_cases pre key :
  Bytewise_FindShortSuccessor_loop pre key = pre ++ key \/
  exists k, (k < length key)%nat /\ at_ key (Z.of_nat k) <> 255 /\
    Bytewise_FindShortSuccessor_loop pre key =
      pre ++ take k key ++ [u8 (at_ key (Z.of_nat k) + 1)].
Proof.
  revert pre. induction key as [|b key IH]; intros pre; cbn [Bytewise_FindShortSuccessor_loop].
  - left. by rewrite app_nil_r.
  - destruct (Z.eqb_spec b 255) as [->|Hb].
    + destruct (IH (pre ++ [255])) as [->|(k & Hk & Hne & ->)].
      * left. by rewrite <- app_assoc.
      * right. exists (S k). rewrite <- !app_assoc. cbn [length take].
        unfold at_ in *. rewrite !Nat2Z.id in *. cbn [nth]. split_and!; [lia|done|done].
    + right. exists O. change (at_ (b :: key) (Z.of_nat 0)) with b. cbn [length].
      split_and!; [lia|done|done].
Qed.

Lemma Bytewise_succ_ok key : bytes_ok key -> bytes_ok (Bytewise_FindShortSuccessor key).
Proof.
  intros Hk. unfold Bytewise_FindShortSuccessor.
  destruct (Bytewise_succ_cases [] key) as [->|(k & _ & _ & ->)]; [done|].
  apply bytes_ok_app. split; [constructor|]. apply bytes_ok_app. split; [auto with pebbles|].
  auto with pebbles.
Qed.

Lemma Bytewise_succ_lower key :
  bytes_ok key -> Slice_compare key (Bytewise_FindShortSuccessor key) <= 0.
Proof.
  intros Hok. unfold Bytewise_FindShortSuccessor. rewrite Slice_compare_lex, sign_le.
  destruct (Bytewise_succ_cases [] key) as [->|(k & Hk & Hne & ->)]; rewrite app_nil_l.
  - by rewrite (proj2 (lex_compare_eq _ _)).
  - pose proof (at_range key (Z.of_nat k) Hok).
    rewrite u8_small by ulia. rewrite lex_compare_bump; [done|done|lia].
Qed.

#[export] Instance BytewiseComparator_ok : ComparatorOk BytewiseComparator bytes_ok.
Proof.
  constructor; cbn [Compare FindShortestSeparator FindShortSuccessor BytewiseComparator]; intros.
  - by apply Slice_compare_eq.
  - apply Slice_compare_antisym.
  - by eapply Slice_compare_trans.
  - by apply Bytewise_separator_ok.
  - by apply Bytewise_separator_lower.
  - by apply Bytewise_separator_upper.
  - by apply Bytewise_separator_noop.
  - by apply Bytewise_succ_ok.
  - by apply Bytewise_succ_lower.
Qed.

(** Consequences of the contract the clients use. *)
Section Order.
Context {c : Comparator} {valid : bytes -> Prop} {Hc : ComparatorOk c valid}.
Implicit Types a b d : bytes.

Lemma cmp_ge_le a b : valid a -> valid b -> 0 <= Compare c a b <-> Compare c b a <= 0.
Proof.
  intros Ha Hb. pose proof (cmp_antisym a b Ha Hb). lia.
Qed.
Lemma cmp_lt_le_trans a b d : valid a -> valid b -> valid d ->
  Compare c a b < 0 -> Compare c b d <= 0 -> Compare c a d < 0.
Proof.
  intros Ha Hb Hd H1 H2. destruct (Z.lt_ge_cases (Compare c a d) 0) as [|H]; [done|].
  apply cmp_ge_le in H; [|done..]. apply (cmp_antisym a b) in H1; [|done..].
  pose proof (cmp_trans b d a Hb Hd Ha H2 H). lia.
Qed.
Lemma cmp_le_lt_trans a b d : valid a -> valid b -> valid d ->
  Compare c a b <= 0 -> Compare c b d < 0 -> Compare c a d < 0.
Proof.
  intros Ha Hb Hd H1 H2. destruct (Z.lt_ge_cases (Compare c a d) 0) as [|H]; [done|].
  apply cmp_ge_le in H; [|done..]. apply (cmp_antisym b d) in H2; [|done..].
  pose proof (cmp_trans d a b Hd Ha Hb H H1). lia.
Qed.
Lemma cmp_lt_trans a b d : valid a -> valid b -> valid d ->
  Compare c a b < 0 -> Compare c b d < 0 -> Compare c a d < 0.
Proof. intros. eapply (cmp_lt_le_trans a b d); eauto. lia. Qed.
End Order.

(** ** [KeyNum] is monotone *)

Fixpoint be_num (n : nat) (key : bytes) : Z :=
  match n with
  | O => 0
  | S n => at_ key 0 * 256 ^ Z.of_nat n + be_num n (drop 1 key)
  end.

Lemma be_num_range n key : bytes_ok key -> 0 <= be_num n key < 256 ^ Z.of_nat n.
Proof.
  revert key. induction n as [|n IH]; intros key Hk; cbn [be_num]; [done|].
  specialize (IH (drop 1 key) ltac:(auto with pebbles)).
  pose proof (at_range key 0 Hk) as Hb.
  rewrite Nat2Z.inj_succ, Z.pow_succ_r by lia. unfold is_u8 in Hb.
  change (2 ^ 8) with 256 in Hb. nia.
Qed.

Lemma be_num_mono n a b :
  bytes_ok a -> bytes_ok b -> lex_compare a b <> Gt -> be_num n a <= be_num n b.
Proof.
  revert a b. induction n as [|n IH]; intros a b Ha Hb Hle; [done|].
  pose proof (be_num_range n (drop 1 a) ltac:(auto with pebbles)).
  pose proof (be_num_range n (drop 1 b) ltac:(auto with pebbles)).
  destruct a as [|x a], b as [|y b]; cbn [be_num lex_compare] in *; try done.
  - pose proof (at_range (y :: b) 0 Hb) as Hy. unfold is_u8 in Hy.
    assert (be_num n (drop 1 []) <= be_num n (drop 1 (y :: b))).
    { apply IH; [constructor|auto with pebbles|]. simpl. rewrite drop_0. by destruct b. }
    change (at_ [] 0) with 0. nia.
  - change (at_ (x :: a) 0) with x. change (at_ (y :: b) 0) with y.
    change (drop 1 (x :: a)) with (drop 0 a) in *. change (drop 1 (y :: b)) with (drop 0 b) in *.
    rewrite !drop_0 in *. inversion_clear Ha. inversion_clear Hb.
    destruct (Z.compare_spec x y) as [->|Hxy|Hxy]; [| |done].
    + specialize (IH a b ltac:(done) ltac:(done) Hle). lia.
    + pose proof (Z.mul_le_mono_nonneg_r (x + 1) y (256 ^ Z.of_nat n)). lia.
Qed.

Lemma lor_hi_lo h l n : 0 <= n -> 0 <= l < 2 ^ n -> Z.lor (Z.shiftl h n) l = h * 2 ^ n + l.
Proof. intros. rewrite Z.lor_comm, lor_shiftl_add by done. lia. Qed.

Lemma lor_be8 a b c d e f g h :
  is_u8 a -> is_u8 b -> is_u8 c -> is_u8 d -> is_u8 e -> is_u8 f -> is_u8 g -> is_u8 h ->
  Z.lor (Z.lor (Z.lor (Z.lor (Z.lor (Z.lor (Z.lor
    (Z.shiftl a 56) (Z.shiftl b 48)) (Z.shiftl c 40)) (Z.shiftl d 32)) (Z.shiftl e 24))
    (Z.shiftl f 16)) (Z.shiftl g 8)) h =
  a * 256 ^ 7 + (b * 256 ^ 6 + (c * 256 ^ 5 + (d * 256 ^ 4 + (e * 256 ^ 3 + (f * 256 ^ 2 +
    (g * 256 ^ 1 + h)))))).
Proof.
  intros Ha Hb Hc Hd He Hf Hg Hh. unfold is_u8 in *.
  rewrite <- !Z.lor_assoc.
  rewrite (lor_hi_lo g h 8) by lia.
  rewrite (lor_hi_lo f _ 16), (lor_hi_lo e _ 24), (lor_hi_lo d _ 32), (lor_hi_lo c _ 40),
    (lor_hi_lo b _ 48), (lor_hi_lo a _ 56) by lia.
  change (256 ^ 7) with (2 ^ 56). change (256 ^ 6) with (2 ^ 48). change (256 ^ 5) with (2 ^ 40).
  change (256 ^ 4) with (2 ^ 32). change (256 ^ 3) with (2 ^ 24). change (256 ^ 2) with (2 ^ 16).
  change (256 ^ 1) with (2 ^ 8). lia.
Qed.

Lemma Bytewise_KeyNum_be key : bytes_ok key -> Bytewise_KeyNum key = be_num 8 key.
Proof.
  intros Hk. unfold Bytewise_KeyNum. set (buf := take 8 key ++ _).
  assert (bytes_ok buf) by (apply bytes_ok_app; split; [auto with pebbles|by apply bytes_ok_replicate]).
  rewrite lor_be8 by auto with pebbles.
  subst buf. destruct key as [|? [|? [|? [|? [|? [|? [|? [|? ?]]]]]]]];
    cbn [be_num drop take app length replicate Nat.sub]; unfold at_;
    change (Z.to_nat 0) with 0%nat; change (Z.to_nat 1) with 1%nat;
    change (Z.to_nat 2) with 2%nat; change (Z.to_nat 3) with 3%nat;
    change (Z.to_nat 4) with 4%nat; change (Z.to_nat 5) with 5%nat;
    change (Z.to_nat 6) with 6%nat; change (Z.to_nat 7) with 7%nat; cbn [nth]; lia.
Qed.

#[export] Instance BytewiseComparator_KeyNumOk : KeyNumOk BytewiseComparator bytes_ok.
Proof.
  split; intros; cbn [Compare KeyNum BytewiseComparator] in *.
  - rewrite !Bytewise_KeyNum_be by done. apply be_num_mono; [done..|].
    by rewrite <- sign_le, <- Slice_compare_lex.
  - rewrite Bytewise_KeyNum_be by done. pose proof (be_num_range 8 a). unfold UINT64_MAX.
    change (256 ^ Z.of_nat 8) with (2 ^ 64) in *. intuition lia.
Qed.

(** ** Properties *)

(** The byte-wise comparator meets the contract of [Comparator]: it is the
    total lexicographic order with equality of contents as its equality, the
    separator of [start < limit] lies in [\[start, limit)] and is no longer than
    [start], the successor of a key is at least the key and no longer, and
    [KeyNum] is monotone. *)
Theorem bytewise_comparator_contract (a b d : bytes)
    (Ha : bytes_ok a) (Hb : bytes_ok b) (Hd : bytes_ok d) :
  let cmp := Compare BytewiseComparator in
  let sep := FindShortestSeparator BytewiseComparator a b in
  let succ := FindShortSuccessor BytewiseComparator a in
  cmp a b = sign (lex_compare a b) /\ (cmp a b = 0 <-> a = b) /\
  (cmp a b < 0 <-> 0 < cmp b a) /\
  (cmp a b <= 0 -> cmp b d <= 0 -> cmp a d <= 0) /\
  (cmp a b < 0 -> cmp a sep <= 0 /\ cmp sep b < 0) /\ blen sep <= blen a /\
  cmp a succ <= 0 /\ blen succ <= blen a /\
  (cmp a b <= 0 -> KeyNum BytewiseComparator a <= KeyNum BytewiseComparator b).
Proof.
  cbn [Compare FindShortestSeparator FindShortSuccessor KeyNum BytewiseComparator].
  split_and!.
  - apply Slice_compare_lex.
  - apply Slice_compare_eq.
  - apply Slice_compare_antisym.
  - apply Slice_compare_trans.
  - intros. split; [by apply Bytewise_separator_lower|by apply Bytewise_separator_upper].
  - destruct (Bytewise_separator_cases a b Ha) as [->|(-> & ? & _)]; [lia|blia].
  - by apply Bytewise_succ_lower.
  - unfold Bytewise_FindShortSuccessor.
    destruct (Bytewise_succ_cases [] a) as [->|(k & ? & _ & ->)]; blia.
  - intros Hle. rewrite !Bytewise_KeyNum_be by done. apply be_num_mono; [done..|].
    by rewrite Slice_compare_lex, sign_le in Hle.
Qed.

Lemma bytewise_comparator_contract_witness :
  bytes_ok [97; 98; 99] /\ bytes_ok [97; 100] /\
  Bytewise_FindShortestSeparator [97; 98; 98] [97; 100; 100] = [97; 99] /\
  Slice_compare [97; 98; 99] [97; 100] = -1.
Proof.
  assert (bytes_ok [97; 98; 99]) as Ha by (by repeat constructor).
  assert (bytes_ok [97; 100]) as Hb by (by repeat constructor).
  split_and!; [done|done|done|].
  exact (proj1 (bytewise_comparator_contract [97; 98; 99] [97; 100] [] Ha Hb ltac:(constructor))).
Defined.

(** Shortened keys are not longer than the keys they replace: "a short string" in the
    words of [comparator.h]. *)
Class ShortKeys (c : Comparator) (valid : bytes -> Prop) : Prop := {
  sep_short : forall s l, valid s -> valid l -> blen (FindShortestSeparator c s l) <= blen s;
  succ_short : forall k, valid k -> blen (FindShortSuccessor c k) <= blen k;
}.
#[export] Instance Bytewise_ShortKeys : ShortKeys BytewiseComparator bytes_ok.
Proof.
  split; cbn.
  - intros s l Hs _. destruct (Bytewise_separator_cases s l Hs) as [->|(-> & ? & _)]; [lia|blia].
  - intros k _. unfold Bytewise_FindShortSuccessor.
    destruct (Bytewise_succ_cases [] k) as [->|(k' & ? & _ & ->)]; blia.
Qed.

(** Keys below a size keep the contract. *)
#[export] Instance bounded_ComparatorOk c valid n :
  ComparatorOk c valid -> ShortKeys c valid -> ComparatorOk c (fun k => valid k /\ blen k < n).
Proof.
  intros Hc Hs. constructor.
  - intros a [Ha _]. by apply cmp_refl.
  - intros a b [Ha _] [Hb _]. by apply cmp_antisym.
  - intros a b d [Ha _] [Hb _] [Hd _]. by apply cmp_trans.
  - intros s l [Hs1 Hs2] [Hl _]. split; [by apply sep_valid|]. pose proof (sep_short s l Hs1 Hl). lia.
  - intros s l [Hs1 _] [Hl _]. by apply sep_lower.
  - intros s l [Hs1 _] [Hl _]. by apply sep_upper.
  - intros s l [Hs1 _] [Hl _]. by apply sep_noop.
  - intros k [Hk1 Hk2]. split; [by apply succ_valid|]. pose proof (succ_short k Hk1). lia.
  - intros k [Hk _]. by apply succ_lower.
Qed.
