(* ===== verification/DbFormat.v ===== *)
(** * Internal keys

    Models [src/pebblesdb/src/db/dbformat.h] and [dbformat.cc]: the internal key
    (user key, then the sequence number and value type packed in a fixed64), its
    comparator, and the key of a point lookup.  [InternalKeyComparator] wraps any
    user comparator; it is proved to meet the comparator contract whenever the
    user comparator does, so that tables and memtables can be proved against the
    contract alone. *)

From S2P Require Import Prelude Coding Comparator.

(** [config::kNumLevels] *)
Definition kNumLevels : Z := 7.

(** [enum ValueType]; the code casts arbitrary bytes to it. *)
Definition kTypeDeletion : Z := 0.
Definition kTypeValue : Z := 1.
Definition kTypeGuard : Z := 2.
Definition kValueTypeForSeek : Z := kTypeValue.
Definition kMaxSequenceNumber : Z := Z.shiftl 1 56 - 1.

Record ParsedInternalKey := {
  user_key : bytes;
  sequence : Z;
  type : Z;
}.

Definition PackSequenceAndType (seq t : Z) : Z := u64 (Z.lor (Z.shiftl seq 8) t).

Definition InternalKeyEncodingLength (key : ParsedInternalKey) : Z := blen (user_key key) + 8.

Definition AppendInternalKey (result : bytes) (key : ParsedInternalKey) : bytes :=
  PutFixed64 (result ++ user_key key) (PackSequenceAndType (sequence key) (type key)).

(** [Slice(internal_key.data(), internal_key.size() - 8)]; callers guarantee
    [size() >= 8]. *)
Definition ExtractUserKey (internal_key : bytes) : bytes :=
  take (length internal_key - 8) internal_key.

(** [DecodeFixed64(key.data() + key.size() - 8)] *)
Definition ExtractTag (internal_key : bytes) : Z :=
  DecodeFixed64 (drop (length internal_key - 8) internal_key).

Definition ExtractValueType (internal_key : bytes) : Z :=
  Z.land (ExtractTag internal_key) 255.

Definition ParseInternalKey (internal_key : bytes) : option ParsedInternalKey :=
  if blen internal_key <? 8 then None
  else
    let num := ExtractTag internal_key in
    let c := Z.land num 255 in
    let result := {| user_key := ExtractUserKey internal_key;
                     sequence := Z.shiftr num 8; type := c |} in
    if c <=? kTypeValue then Some result else None.

(** ** The internal-key comparator *)

Section InternalKeyComparator.
Context (user_comparator_ : Comparator).

Definition InternalKey_Compare (akey bkey : bytes) : Z :=
  let r := Compare user_comparator_ (ExtractUserKey akey) (ExtractUserKey bkey) in
  if r =? 0 then
    let anum := ExtractTag akey in
    let bnum := ExtractTag bkey in
    if bnum <? anum then -1 else if anum <? bnum then 1 else r
  else r.

Definition InternalKey_FindShortestSeparator (start limit : bytes) : bytes :=
  let user_start := ExtractUserKey start in
  let user_limit := ExtractUserKey limit in
  let tmp := FindShortestSeparator user_comparator_ user_start user_limit in
  if (blen tmp <? blen user_start) && (Compare user_comparator_ user_start tmp <? 0)
  then PutFixed64 tmp (PackSequenceAndType kMaxSequenceNumber kValueTypeForSeek)
  else start.

Definition InternalKey_FindShortSuccessor (key : bytes) : bytes :=
  let user_key := ExtractUserKey key in
  let tmp := FindShortSuccessor user_comparator_ user_key in
  if (blen tmp <? blen user_key) && (Compare user_comparator_ user_key tmp <? 0)
  then PutFixed64 tmp (PackSequenceAndType kMaxSequenceNumber kValueTypeForSeek)
  else key.

(** [KeyNum] is inherited from [Comparator], which returns [0]. *)
Definition InternalKeyComparator : Comparator := {|
  Compare := InternalKey_Compare;
  FindShortestSeparator := InternalKey_FindShortestSeparator;
  FindShortSuccessor := InternalKey_FindShortSuccessor;
  KeyNum := fun _ => 0;
|}.
End InternalKeyComparator.

(** ** Lookup keys *)

(** The three slices of the one buffer [\[start_, end_)]; [kstart] is the offset
    of [kstart_] in it. *)
Record LookupKey := { lk_buf : bytes; lk_kstart : nat }.

Definition mkLookupKey (ukey : bytes) (s : Z) : LookupKey :=
  let usize := blen ukey in
  let prefix := EncodeVarint32 (u32 (usize + 8)) in
  {| lk_buf := prefix ++ ukey ++ EncodeFixed64 (PackSequenceAndType s kValueTypeForSeek);
     lk_kstart := length prefix |}.

Definition memtable_key (k : LookupKey) : bytes := lk_buf k.
Definition internal_key (k : LookupKey) : bytes := drop (lk_kstart k) (lk_buf k).
Definition lookup_user_key (k : LookupKey) : bytes :=
  take (length (lk_buf k) - lk_kstart k - 8) (drop (lk_kstart k) (lk_buf k)).

(** ** Encoded keys *)

(** The bytes [AppendInternalKey] appends. *)
Definition EncodeInternalKey (key : ParsedInternalKey) : bytes := AppendInternalKey [] key.

(** A key the engine builds: 56-bit sequence number, one-byte type. *)
Definition key_ok (key : ParsedInternalKey) : Prop :=
  bytes_ok (user_key key) /\ 0 <= sequence key <= kMaxSequenceNumber /\ is_u8 (type key).

Lemma PackSequenceAndType_add seq t :
  0 <= seq <= kMaxSequenceNumber -> is_u8 t -> PackSequenceAndType seq t = seq * 256 + t.
Proof.
  intros Hs Ht. change kMaxSequenceNumber with 72057594037927935 in Hs.
  unfold PackSequenceAndType. rewrite Z.lor_comm, lor_shiftl_add by ulia.
  change (2 ^ 8) with 256. rewrite u64_small by ulia. lia.
Qed.

Lemma pack_range seq t :
  0 <= seq <= kMaxSequenceNumber -> is_u8 t -> is_u64 (PackSequenceAndType seq t).
Proof. intros. apply u64_range. Qed.

Lemma PutFixed64_user k v : ExtractUserKey (k ++ EncodeFixed64 v) = k.
Proof.
  unfold ExtractUserKey. rewrite length_app, EncodeFixed64_length.
  replace (length k + 8 - 8)%nat with (length k) by lia. by rewrite take_app_length.
Qed.

Lemma PutFixed64_tag k v : is_u64 v -> ExtractTag (k ++ EncodeFixed64 v) = v.
Proof.
  intros Hv. unfold ExtractTag. rewrite length_app, EncodeFixed64_length.
  replace (length k + 8 - 8)%nat with (length k) by lia. rewrite drop_app_length.
  rewrite <- (app_nil_r (EncodeFixed64 v)). by apply DecodeFixed64_encode.
Qed.

Lemma EncodeInternalKey_app key :
  EncodeInternalKey key = user_key key ++ EncodeFixed64 (PackSequenceAndType (sequence key) (type key)).
Proof. done. Qed.

Lemma ExtractTag_range k : bytes_ok k -> is_u64 (ExtractTag k).
Proof. intros. apply DecodeFixed64_range. auto with pebbles. Qed.

Lemma EncodeInternalKey_ok key : key_ok key -> bytes_ok (EncodeInternalKey key).
Proof. intros (? & _). apply bytes_ok_app. auto with pebbles. Qed.

Lemma key_split (k : bytes) : 8 <= blen k ->
  k = ExtractUserKey k ++ drop (length k - 8) k.
Proof. intros. unfold ExtractUserKey. by rewrite take_drop. Qed.

(** ** The comparator contract *)

(** Keys the internal comparator is used for. *)
Definition internal_valid (valid : bytes -> Prop) (k : bytes) : Prop :=
  bytes_ok k /\ 8 <= blen k /\ valid (ExtractUserKey k).

Section Contract.
Context (c : Comparator) (valid : bytes -> Prop) {Hc : ComparatorOk c valid}.
Context (valid_bytes : forall k, valid k -> bytes_ok k).

Abbreviation icmp := (InternalKey_Compare c).
Abbreviation ivalid := (internal_valid valid).

(** Order by user key, then by decreasing tag. *)
Lemma icmp_spec a b :
  icmp a b = let r := Compare c (ExtractUserKey a) (ExtractUserKey b) in
             if r =? 0 then sign (ExtractTag b ?= ExtractTag a) else r.
Proof.
  unfold InternalKey_Compare. cbv zeta.
  destruct (Z.eqb_spec (Compare c (ExtractUserKey a) (ExtractUserKey b)) 0); [|done].
  destruct (Z.compare_spec (ExtractTag b) (ExtractTag a)); repeat case_bool; simpl; lia.
Qed.

Lemma icmp_antisym a b : ivalid a -> ivalid b -> (icmp a b < 0 <-> 0 < icmp b a).
Proof.
  intros (_ & _ & Ha) (_ & _ & Hb). rewrite !icmp_spec. cbv zeta.
  pose proof (cmp_antisym _ _ Ha Hb). pose proof (cmp_antisym _ _ Hb Ha).
  rewrite (Z.compare_antisym (ExtractTag b)).
  destruct (Z.eqb_spec (Compare c (ExtractUserKey a) (ExtractUserKey b)) 0),
    (Z.eqb_spec (Compare c (ExtractUserKey b) (ExtractUserKey a)) 0); try lia.
  destruct (ExtractTag b ?= ExtractTag a); simpl; lia.
Qed.

Lemma icmp_trans a b d : ivalid a -> ivalid b -> ivalid d ->
  icmp a b <= 0 -> icmp b d <= 0 -> icmp a d <= 0.
Proof.
  intros (_ & _ & Ha) (_ & _ & Hb) (_ & _ & Hd). rewrite !icmp_spec. cbv zeta.
  pose proof (cmp_trans _ _ _ Ha Hb Hd) as Htr.
  pose proof (cmp_lt_le_trans _ _ _ Ha Hb Hd). pose proof (cmp_le_lt_trans _ _ _ Ha Hb Hd).
  set (ab := Compare c _ (ExtractUserKey b)) in *. set (bd := Compare c (ExtractUserKey b) _) in *.
  set (ad := Compare c (ExtractUserKey a) (ExtractUserKey d)) in *.
  destruct (Z.eqb_spec ab 0), (Z.eqb_spec bd 0), (Z.eqb_spec ad 0); rewrite ?sign_le;
    rewrite ?Z.compare_gt_iff; lia.
Qed.

Lemma icmp_user_lt a b :
  Compare c (ExtractUserKey a) (ExtractUserKey b) < 0 -> icmp a b < 0.
Proof. intros. rewrite icmp_spec. cbv zeta. case_bool; lia. Qed.

Lemma icmp_le_user a b : icmp a b <= 0 -> Compare c (ExtractUserKey a) (ExtractUserKey b) <= 0.
Proof. rewrite icmp_spec. cbv zeta. case_bool; lia. Qed.

Lemma seek_key_valid tmp :
  valid tmp -> ivalid (PutFixed64 tmp (PackSequenceAndType kMaxSequenceNumber kValueTypeForSeek)).
Proof.
  intros Ht. unfold PutFixed64. split_and!.
  - apply bytes_ok_app. auto with pebbles.
  - blia.
  - by rewrite PutFixed64_user.
Qed.

#[export] Instance InternalKeyComparator_ok : ComparatorOk (InternalKeyComparator c) ivalid.
Proof.
  constructor; cbn [Compare FindShortestSeparator FindShortSuccessor InternalKeyComparator].
  - intros a (_ & _ & Ha). rewrite icmp_spec. cbv zeta. rewrite (cmp_refl _ Ha).
    by rewrite Z.compare_refl.
  - apply icmp_antisym.
  - apply icmp_trans.
  - intros s l Hs Hl. unfold InternalKey_FindShortestSeparator. case_match; [|done].
    apply seek_key_valid, sep_valid; apply Hs || apply Hl.
  - intros s l Hs Hl Hlt. unfold InternalKey_FindShortestSeparator. case_match eqn:E.
    + apply andb_true_iff in E as [_ E]. apply Z.ltb_lt in E.
      apply Z.lt_le_incl, icmp_user_lt. unfold PutFixed64. by rewrite PutFixed64_user.
    + pose proof (icmp_antisym s s Hs Hs). lia.
  - intros s l Hs Hl Hlt. unfold InternalKey_FindShortestSeparator. case_match eqn:E; [|done].
    apply andb_true_iff in E as [Hsz _]. apply Z.ltb_lt in Hsz.
    apply icmp_user_lt. unfold PutFixed64. rewrite PutFixed64_user.
    apply sep_upper; [apply Hs|apply Hl|].
    destruct (Z.lt_ge_cases (Compare c (ExtractUserKey s) (ExtractUserKey l)) 0) as [|Hge]; [done|].
    rewrite sep_noop in Hsz; [lia|apply Hs|apply Hl|done].
  - intros s l Hs Hl Hge. unfold InternalKey_FindShortestSeparator.
    destruct (Z.lt_ge_cases (Compare c (ExtractUserKey s) (ExtractUserKey l)) 0) as [Hlt|Hge'].
    + pose proof (icmp_user_lt s l Hlt). lia.
    + rewrite sep_noop by (apply Hs || apply Hl || lia). by rewrite Z.ltb_irrefl.
  - intros k Hk. unfold InternalKey_FindShortSuccessor. case_match; [|done].
    apply seek_key_valid, succ_valid, Hk.
  - intros k Hk. unfold InternalKey_FindShortSuccessor. case_match eqn:E.
    + apply andb_true_iff in E as [_ E]. apply Z.ltb_lt in E.
      apply Z.lt_le_incl, icmp_user_lt. unfold PutFixed64. by rewrite PutFixed64_user.
    + pose proof (icmp_antisym k k Hk Hk). lia.
Qed.
End Contract.

(** ** Encoded keys compare field by field *)

Lemma ExtractUserKey_encode key : ExtractUserKey (EncodeInternalKey key) = user_key key.
Proof. apply PutFixed64_user. Qed.

Lemma ExtractTag_encode key :
  key_ok key -> ExtractTag (EncodeInternalKey key) = sequence key * 256 + type key.
Proof.
  intros (_ & Hs & Ht). rewrite EncodeInternalKey_app, PutFixed64_tag by (by apply pack_range).
  by apply PackSequenceAndType_add.
Qed.

Lemma icmp_encode c k1 k2 :
  key_ok k1 -> key_ok k2 ->
  InternalKey_Compare c (EncodeInternalKey k1) (EncodeInternalKey k2) =
    let r := Compare c (user_key k1) (user_key k2) in
    if r =? 0 then
      match sequence k2 ?= sequence k1 with
      | Eq => sign (type k2 ?= type k1)
      | o => sign o
      end
    else r.
Proof.
  intros H1 H2. rewrite icmp_spec, !ExtractUserKey_encode, !ExtractTag_encode by done.
  cbv zeta. case_bool; [|done]. f_equal. destruct H1 as (_ & _ & H1), H2 as (_ & _ & H2).
  destruct (Z.compare_spec (sequence k2) (sequence k1)) as [->|Hlt|Hlt].
  - destruct (Z.compare_spec (type k2) (type k1)) as [->| |].
    + by rewrite Z.compare_refl.
    + rewrite (proj2 (Z.compare_lt_iff _ _)); [done|ulia].
    + rewrite (proj2 (Z.compare_gt_iff _ _)); [done|ulia].
  - rewrite (proj2 (Z.compare_lt_iff _ _)); [done|ulia].
  - rewrite (proj2 (Z.compare_gt_iff _ _)); [done|ulia].
Qed.

Lemma ParseInternalKey_encode key :
  key_ok key ->
  ParseInternalKey (EncodeInternalKey key) = if type key <=? kTypeValue then Some key else None.
Proof.
  intros Hk. unfold ParseInternalKey.
  destruct (Z.ltb_spec (blen (EncodeInternalKey key)) 8) as [H|_].
  { rewrite EncodeInternalKey_app in H. blia. }
  rewrite ExtractTag_encode, ExtractUserKey_encode by done. destruct Hk as (_ & Hs & Ht).
  rewrite land_ff, Z.shiftr_div_pow2 by lia. change (2 ^ 8) with 256.
  assert ((sequence key * 256 + type key) mod 256 = type key) as -> by dlia.
  assert ((sequence key * 256 + type key) / 256 = sequence key) as -> by dlia.
  by destruct key.
Qed.

(** Any string of at least eight bytes is an internal key. *)
Definition tag_key (k : bytes) : ParsedInternalKey :=
  {| user_key := ExtractUserKey k; sequence := ExtractTag k / 256; type := ExtractTag k mod 256 |}.
Lemma tag_key_encode k : bytes_ok k -> 8 <= blen k -> key_ok (tag_key k) /\ EncodeInternalKey (tag_key k) = k.
Proof.
  intros Hk Hlen. pose proof (ExtractTag_range k Hk) as Hr.
  assert (key_ok (tag_key k)) as Hok.
  { unfold key_ok, tag_key. cbn [user_key sequence type].
    change kMaxSequenceNumber with 72057594037927935.
    split_and!; try dlia. apply Forall_take, Hk. }
  split; [done|]. destruct Hok as (_ & Hs & Hty).
  rewrite EncodeInternalKey_app. unfold tag_key in *. cbn [user_key sequence type] in *.
  rewrite PackSequenceAndType_add by done.
  assert (ExtractTag k / 256 * 256 + ExtractTag k mod 256 = ExtractTag k) as -> by dlia.
  transitivity (ExtractUserKey k ++ drop (length k - 8) k); [f_equal|symmetry; apply key_split; lia].
  unfold ExtractTag, DecodeFixed64, DecodeFixed64_on, sub. cbn [obj_val]. rewrite drop_0.
  rewrite take_ge by (rewrite length_drop; ulia).
  assert (length (drop (length k - 8) k) = 8%nat) as H8 by (rewrite length_drop; ulia).
  unfold EncodeFixed64, EncodeFixed64_on. cbn [obj_repr]. rewrite <- H8 at 1.
  apply le_bytes_val. auto with pebbles.
Qed.
Lemma ParseInternalKey_inv k p :
  bytes_ok k -> ParseInternalKey k = Some p ->
  EncodeInternalKey p = k /\ key_ok p /\ type p <= kTypeValue.
Proof.
  intros Hk. unfold ParseInternalKey. destruct (Z.ltb_spec (blen k) 8); [done|].
  destruct (Z.leb_spec (Z.land (ExtractTag k) 255) kTypeValue) as [Ht|]; [|done].
  intros [= <-]. rewrite land_ff, Z.shiftr_div_pow2 in * by lia. change (2 ^ 8) with 256 in *.
  destruct (tag_key_encode k Hk ltac:(lia)) as [Hok He]. by split_and!.
Qed.

(** ** Properties *)

(** The internal-key comparator is a correct comparator on internal keys
    whenever the user comparator is one on user keys: a total order, with
    separators and successors (whose user part is shortened and whose tag is the
    largest) staying in their intervals, as its assertions state. *)
Theorem internal_comparator_contract (c : Comparator) (valid : bytes -> Prop)
    (Hbytes : forall k, valid k -> bytes_ok k) (Hc : ComparatorOk c valid) :
  ComparatorOk (InternalKeyComparator c) (internal_valid valid).
Proof. by apply InternalKeyComparator_ok. Qed.

Lemma internal_comparator_contract_witness :
  ComparatorOk (InternalKeyComparator BytewiseComparator) (internal_valid bytes_ok).
Proof. apply internal_comparator_contract; [done|apply BytewiseComparator_ok]. Defined.

(** Internal keys round-trip: parsing an encoded key gives it back, except
    that a key of type [kTypeGuard] (or above) is rejected; and a string that
    parses is the encoding of the key it parses to. *)
Theorem internal_key_roundtrip (key : ParsedInternalKey) (Hk : key_ok key) :
  ParseInternalKey (EncodeInternalKey key) = (if type key <=? kTypeValue then Some key else None) /\
  blen (EncodeInternalKey key) = InternalKeyEncodingLength key /\
  ExtractUserKey (EncodeInternalKey key) = user_key key /\
  ExtractValueType (EncodeInternalKey key) = type key /\
  (forall k p, bytes_ok k -> ParseInternalKey k = Some p -> EncodeInternalKey p = k).
Proof.
  split_and!.
  - by apply ParseInternalKey_encode.
  - rewrite EncodeInternalKey_app. unfold InternalKeyEncodingLength. blia.
  - apply ExtractUserKey_encode.
  - unfold ExtractValueType. rewrite ExtractTag_encode, land_ff by done.
    destruct Hk as (_ & _ & Ht). dlia.
  - intros k p Hb Hp. by apply ParseInternalKey_inv.
Qed.

Definition example_key : ParsedInternalKey :=
  {| user_key := [102; 111; 111]; sequence := 100; type := kTypeValue |}.
Lemma example_key_ok : key_ok example_key.
Proof. split_and!; [by repeat constructor|done..]. Qed.

Lemma internal_key_roundtrip_witness :
  ParseInternalKey (EncodeInternalKey example_key) = Some example_key.
Proof. apply (internal_key_roundtrip example_key example_key_ok). Defined.

(** Internal keys sort by increasing user key, then decreasing sequence
    number, then decreasing type; in particular, among the entries of one user
    key, those at or after a lookup key for snapshot [s] are exactly those
    written at or before [s]. *)
Theorem internal_key_order (c : Comparator) (k1 k2 : ParsedInternalKey) (s : Z)
    (H1 : key_ok k1) (H2 : key_ok k2) (Hs : 0 <= s <= kMaxSequenceNumber) :
  let r := Compare c (user_key k1) (user_key k2) in
  (InternalKey_Compare c (EncodeInternalKey k1) (EncodeInternalKey k2) < 0 <->
     r < 0 \/ (r = 0 /\ (sequence k2 < sequence k1 \/
                         (sequence k1 = sequence k2 /\ type k2 < type k1)))) /\
  (r = 0 -> user_key k1 = user_key k2 -> type k2 <= kTypeValue ->
     (InternalKey_Compare c (internal_key (mkLookupKey (user_key k1) s)) (EncodeInternalKey k2) <= 0 <->
      sequence k2 <= s)).
Proof.
  cbv zeta. split.
  - rewrite icmp_encode by done. cbv zeta.
    destruct (Z.eqb_spec (Compare c (user_key k1) (user_key k2)) 0); [|lia].
    destruct (Z.compare_spec (sequence k2) (sequence k1)), (Z.compare_spec (type k2) (type k1));
      simpl; lia.
  - intros Hr Hu Ht.
    assert (internal_key (mkLookupKey (user_key k1) s) =
      EncodeInternalKey {| user_key := user_key k1; sequence := s; type := kValueTypeForSeek |}) as ->.
    { unfold internal_key, mkLookupKey. cbn [lk_kstart lk_buf]. by rewrite drop_app_length. }
    rewrite icmp_encode by (done || (split_and!; [apply H1|apply Hs..|done])).
    cbn [user_key sequence type]. cbv zeta. rewrite Hr. cbn.
    unfold kValueTypeForSeek, kTypeValue in *.
    destruct (Z.compare_spec (sequence k2) s), (Z.compare_spec (type k2) 1); simpl; lia.
Qed.

Lemma internal_key_order_witness :
  key_ok example_key /\
  (InternalKey_Compare BytewiseComparator
     (internal_key (mkLookupKey [102; 111; 111] 100)) (EncodeInternalKey example_key) <= 0 <-> 100 <= 100).
Proof.
  split; [apply example_key_ok|].
  exact (proj2 (internal_key_order BytewiseComparator example_key example_key 100
    example_key_ok example_key_ok ltac:(done)) ltac:(done) eq_refl ltac:(done)).
Defined.

(** The lookup key fits the buffer it is built in ([usize + 13] bytes), its
    three slices are the length-prefixed memtable key, the internal key for
    seeking at snapshot [s], and the user key. *)
Theorem lookup_key_layout (ukey : bytes) (s : Z)
    (Hu : blen ukey + 8 < 2 ^ 32) :
  let k := mkLookupKey ukey s in
  blen (lk_buf k) <= blen ukey + 13 /\
  lookup_user_key k = ukey /\
  internal_key k = EncodeInternalKey {| user_key := ukey; sequence := s; type := kValueTypeForSeek |} /\
  memtable_key k = LengthPrefixed (internal_key k).
Proof.
  cbv zeta. unfold lookup_user_key, internal_key, memtable_key, mkLookupKey.
  cbn [lk_kstart lk_buf]. rewrite !drop_app_length.
  split_and!.
  - rewrite !blen_app. rewrite blen_EncodeFixed64.
    assert (is_u32 (u32 (blen ukey + 8))) as Hr by apply u32_range.
    assert (blen (EncodeVarint32 (u32 (blen ukey + 8))) <= 5); [|lia].
    unfold EncodeVarint32. repeat case_bool; unfold blen; simpl; lia.
  - rewrite !length_app, EncodeFixed64_length.
    match goal with |- take ?n _ = _ => replace n with (length ukey) by lia end.
    by rewrite take_app_length.
  - done.
  - unfold LengthPrefixed, PutLengthPrefixedSlice, PutVarint32.
    rewrite blen_app, blen_EncodeFixed64. done.
Qed.

Lemma lookup_key_layout_witness : lookup_user_key (mkLookupKey [102; 111; 111] 100) = [102; 111; 111].
Proof. apply (lookup_key_layout [102; 111; 111] 100). done. Defined.

(** ** Shortened internal keys *)

Lemma blen_ExtractUserKey k : 8 <= blen k -> blen (ExtractUserKey k) = blen k - 8.
Proof. intros. unfold ExtractUserKey. rewrite blen_take. ulia. Qed.

#[export] Instance InternalKey_ShortKeys c valid : ShortKeys (InternalKeyComparator c) (internal_valid valid).
Proof.
  split; cbn.
  - intros s l (_ & Hl & _) _. unfold InternalKey_FindShortestSeparator.
    destruct (_ && _) eqn:E; [|lia]. apply andb_true_iff in E as [E%Z.ltb_lt _].
    rewrite blen_ExtractUserKey in E by done. unfold PutFixed64. rewrite blen_app.
    change (blen (EncodeFixed64 _)) with 8. lia.
  - intros k (_ & Hl & _). unfold InternalKey_FindShortSuccessor.
    destruct (_ && _) eqn:E; [|lia]. apply andb_true_iff in E as [E%Z.ltb_lt _].
    rewrite blen_ExtractUserKey in E by done. unfold PutFixed64. rewrite blen_app.
    change (blen (EncodeFixed64 _)) with 8. lia.
Qed.

(** Between a key and its separator from [l] there is no key with the user key of [l]. *)
Lemma internal_sep_gap c valid (Hc : ComparatorOk c valid) s l x :
  internal_valid valid s -> internal_valid valid l -> internal_valid valid x ->
  (Compare (InternalKeyComparator c) s x < 0) ->
  Compare (InternalKeyComparator c) x (FindShortestSeparator (InternalKeyComparator c) s l) <= 0 ->
  ExtractUserKey x <> ExtractUserKey l.
Proof.
  intros (Hsb & Hs8 & Hs) (Hlb & Hl8 & Hl) (Hxb & Hx8 & Hx) Hsx Hle Hux. cbn in *.
  unfold InternalKey_FindShortestSeparator in Hle.
  set (tmp := FindShortestSeparator c (ExtractUserKey s) (ExtractUserKey l)) in *.
  destruct (_ && _) eqn:E.
  - apply andb_true_iff in E as [_ E%Z.ltb_lt].
    assert (Compare c (ExtractUserKey s) (ExtractUserKey l) < 0) as Hsl.
    { destruct (Z.lt_ge_cases (Compare c (ExtractUserKey s) (ExtractUserKey l)) 0); [done|].
      unfold tmp in E. rewrite sep_noop in E by done. rewrite cmp_refl in E by done. lia. }
    pose proof (sep_upper _ _ Hs Hl Hsl) as Hup. fold tmp in Hup.
    assert (valid tmp) as Ht by (by apply sep_valid).
    rewrite icmp_spec in Hle. cbv zeta in Hle. unfold PutFixed64 in Hle.
    rewrite PutFixed64_user in Hle. rewrite Hux in Hle.
    apply (cmp_antisym tmp (ExtractUserKey l)) in Hup; [|done..].
    case_bool; lia.
  - rewrite icmp_spec in Hle, Hsx. cbv zeta in *.
    pose proof (cmp_antisym (ExtractUserKey s) (ExtractUserKey x) Hs Hx) as Ha.
    pose proof (cmp_antisym (ExtractUserKey x) (ExtractUserKey s) Hx Hs) as Hb.
    rewrite (Z.compare_antisym (ExtractTag s) (ExtractTag x)) in Hsx.
    destruct (Z.compare_spec (ExtractTag s) (ExtractTag x)); repeat case_bool; cbn in *; lia.
Qed.

#[export] Instance InternalKey_KeyNumOk c valid : KeyNumOk (InternalKeyComparator c) valid.
Proof. split; cbn; [done|]. unfold UINT64_MAX. lia. Qed.
