(* ===== verification/Hash.v ===== *)
(** * util/hash: the hash of the Bloom filter and the caches

    Models [src/pebblesdb/src/util/hash.cc]. *)

From S2P Require Import Prelude Coding.

Definition hash_m : Z := 0xc6a4a793.
Definition hash_r : Z := 24.

(** [while (data + 4 <= limit)]: one word per round; the rounds are counted by
    the size of the data. *)
Fixpoint Hash_words (rounds : nat) (h : Z) (data : bytes) : Z * bytes :=
  match rounds with
  | O => (h, data)
  | S rounds =>
      if 4 <=? blen data then
        let w := DecodeFixed32 data in
        let h := u32 (h + w) in
        let h := u32 (h * hash_m) in
        let h := Z.lxor h (Z.shiftr h 16) in
        Hash_words rounds h (drop 4 data)
      else (h, data)
  end.

(** The last one to three bytes; [data\[i\]] is a signed [char], converted to
    [int] before the shift and the addition. *)
Definition Hash_tail (h : Z) (data : bytes) : Z :=
  let add2 h := u32 (h + Z.shiftl (schar (at_ data 2)) 16) in
  let add1 h := u32 (h + Z.shiftl (schar (at_ data 1)) 8) in
  let add0 h :=
    let h := u32 (h + schar (at_ data 0)) in
    let h := u32 (h * hash_m) in
    Z.lxor h (Z.shiftr h hash_r) in
  match length data with
  | 3%nat => add0 (add1 (add2 h))
  | 2%nat => add0 (add1 h)
  | 1%nat => add0 h
  | _ => h
  end.

(** [seed ^ (n * m)] is computed at 64 bits and truncated. *)
Definition Hash (data : bytes) (seed : Z) : Z :=
  let h := u32 (Z.lxor seed (u64 (blen data * hash_m))) in
  let '(h, data) := Hash_words (length data) h data in
  Hash_tail h data.

Lemma lxor_shiftr_range h k : 0 <= k -> is_u32 h -> is_u32 (Z.lxor h (Z.shiftr h k)).
Proof.
  intros Hk Hh. apply lxor_range; [lia|done|]. rewrite Z.shiftr_div_pow2 by done.
  assert (0 < 2 ^ k) by (apply Z.pow_pos_nonneg; lia).
  split; [apply Z.div_pos; ulia|]. apply Z.div_lt_upper_bound; [lia|]. unfold is_u32 in Hh. nia.
Qed.

Lemma Hash_words_range n h data : is_u32 h -> is_u32 (fst (Hash_words n h data)).
Proof.
  revert h data. induction n as [|n IH]; intros h data Hh; [done|]. cbn [Hash_words].
  case_bool; [|done]. apply IH, lxor_shiftr_range; [lia|apply u32_range].
Qed.

(** The loop consumes whole words: at most three bytes are left. *)
Lemma Hash_words_rest n h data :
  (length data <= n)%nat -> (length (snd (Hash_words n h data)) < 4)%nat.
Proof.
  revert h data. induction n as [|n IH]; intros h data Hn; [simpl; lia|]. cbn [Hash_words].
  case_bool; [|simpl; ulia]. apply IH. rewrite length_drop. ulia.
Qed.

Lemma Hash_range data seed : is_u32 (Hash data seed).
Proof.
  unfold Hash. set (h0 := u32 _). pose proof (Hash_words_range (length data) h0 data (u32_range _)) as H.
  destruct (Hash_words _ _ _) as [h rest]. cbn [fst] in H. unfold Hash_tail.
  destruct (length rest) as [|[|[|[|?]]]]; try done; apply lxor_shiftr_range; (done || apply u32_range).
Qed.
#[export] Hint Resolve Hash_range : pebbles.
