(* ===== verification/Bloom.v ===== *)
(** * Filter policies and the Bloom filter

    Models [src/pebblesdb/src/include/pebblesdb/filter_policy.h],
    [util/bloom.cc] and the [InternalFilterPolicy] wrapper of [db/dbformat.cc].
    The interface is a record of operations with the documented contract as a
    class: a filter is appended to the output and matches every key it was built
    from.  The Bloom filter is shown to meet it. *)

From Stdlib Require Import SpecFloat.
From S2P Require Import Prelude Coding Status Hash DbFormat.

(** ** The interface *)

Record FilterPolicy := {
  Name : bytes;
  CreateFilter : list bytes -> bytes -> bytes;
  KeyMayMatch : bytes -> bytes -> bool;
}.

(** [filter_of keys] is the filter [CreateFilter] appends for [keys]. *)
Class FilterPolicyOk (p : FilterPolicy) (ok : list bytes -> Prop) (filter_of : list bytes -> bytes) := {
  create_appends : forall keys dst, ok keys -> CreateFilter p keys dst = dst ++ filter_of keys;
  no_false_negative : forall keys key, ok keys -> key ∈ keys ->
    KeyMayMatch p key (filter_of keys) = true;
}.

(** ** The Bloom filter *)

Definition BloomHash (key : bytes) : Z := Hash key 0xbc9f1d34.

(** The object's fields; the two counters are the [mutable] accounting of the
    base class. *)
Record BloomFilterPolicy := {
  bits_per_key_ : Z;
  k_ : Z;
  byte_size : Z;
  filter_count : Z;
}.

(** [static_cast<size_t>(bits_per_key * 0.69)] in double precision: the literal
    is the double nearest to 0.69, the product is rounded and then truncated. *)
Definition double_of_int (n : Z) : spec_float := binary_normalize 53 1024 n 0 false.
Definition lit_0_69 : spec_float := S754_finite false 6214967485771284 (-53).
Definition double_to_size_t (x : spec_float) : Z :=
  match x with
  | S754_finite false m e => if 0 <=? e then Zpos m * 2 ^ e else Zpos m / 2 ^ (- e)
  | _ => 0
  end.

Definition mkBloomFilterPolicy (bits_per_key : Z) : BloomFilterPolicy :=
  let k := double_to_size_t (SFmul 53 1024 (double_of_int bits_per_key) lit_0_69) in
  let k := if k <? 1 then 1 else k in
  let k := if 30 <? k then 30 else k in
  {| bits_per_key_ := u64 bits_per_key; k_ := k; byte_size := 0; filter_count := 0 |}.

(** [(h >> 17) | (h << 15)] *)
Definition bloom_delta (h : Z) : Z := Z.lor (Z.shiftr h 17) (u32 (Z.shiftl h 15)).

(** [array\[bitpos/8\] |= (1 << (bitpos % 8))] *)
Definition set_bit (array : bytes) (bitpos : Z) : bytes :=
  let i := Z.to_nat (bitpos / 8) in
  <[i := u8 (Z.lor (nth i array 0) (Z.shiftl 1 (bitpos mod 8)))]> array.

(** [(array\[bitpos/8\] & (1 << (bitpos % 8))) == 0] is the failing test. *)
Definition get_bit (array : bytes) (bitpos : Z) : bool :=
  negb (Z.land (at_ array (bitpos / 8)) (Z.shiftl 1 (bitpos mod 8)) =? 0).

(** The [k] probes of one key, starting at hash [h]. *)
Fixpoint bloom_set_probes (j : nat) (bits h delta : Z) (array : bytes) : bytes :=
  match j with
  | O => array
  | S j => bloom_set_probes j bits (u32 (h + delta)) delta (set_bit array (u32 (h mod bits)))
  end.

Fixpoint bloom_test_probes (j : nat) (bits h delta : Z) (array : bytes) : bool :=
  match j with
  | O => true
  | S j => if get_bit array (u32 (h mod bits))
           then bloom_test_probes j bits (u32 (h + delta)) delta array else false
  end.

Definition bloom_add_key (k bits : Z) (array key : bytes) : bytes :=
  let h := BloomHash key in
  bloom_set_probes (Z.to_nat k) bits h (bloom_delta h) array.

(** The size of the filter in bytes for [n] keys. *)
Definition bloom_bytes (bits_per_key n : Z) : Z :=
  let bits := u64 (n * bits_per_key) in
  let bits := if bits <? 64 then 64 else bits in
  u64 (bits + 7) / 8.

(** Appends to [dst] and updates the counters; the probes run on the part of the
    output that starts at [init_size]. *)
Definition Bloom_CreateFilter (p : BloomFilterPolicy) (keys : list bytes) (dst : bytes)
    : bytes * BloomFilterPolicy :=
  let bytes := bloom_bytes (bits_per_key_ p) (blen keys) in
  let bits := bytes * 8 in
  let array := replicate (Z.to_nat bytes) 0 ++ [u8 (k_ p)] in
  let array := fold_left (bloom_add_key (k_ p) bits) keys array in
  (dst ++ array,
   {| bits_per_key_ := bits_per_key_ p; k_ := k_ p;
      byte_size := u64 (byte_size p + bytes); filter_count := u64 (filter_count p + 1) |}).

(** [array\[len-1\]] is a signed [char] converted to [size_t]. *)
Definition Bloom_KeyMayMatch (key bloom_filter : bytes) : bool :=
  let len := blen bloom_filter in
  if len <? 2 then false
  else
    let bits := (len - 1) * 8 in
    let k := u64 (schar (at_ bloom_filter (len - 1))) in
    if 30 <? k then true
    else let h := BloomHash key in
         bloom_test_probes (Z.to_nat k) bits h (bloom_delta h) bloom_filter.

Definition BloomPolicy (p : BloomFilterPolicy) : FilterPolicy := {|
  Name := str "leveldb.BuiltinBloomFilter";
  CreateFilter := fun keys dst => fst (Bloom_CreateFilter p keys dst);
  KeyMayMatch := Bloom_KeyMayMatch;
|}.

(** ** The wrapper that filters internal keys by their user keys *)

Definition InternalFilterPolicy (user_policy_ : FilterPolicy) : FilterPolicy := {|
  Name := Name user_policy_;
  CreateFilter := fun keys dst => CreateFilter user_policy_ (map ExtractUserKey keys) dst;
  KeyMayMatch := fun key f => KeyMayMatch user_policy_ (ExtractUserKey key) f;
|}.

(** ** Bits of the array *)

Lemma land_bit_testbit x b : 0 <= b -> negb (Z.land x (Z.shiftl 1 b) =? 0) = Z.testbit x b.
Proof.
  intros Hb. rewrite Z.shiftl_1_l.
  assert (Z.land x (2 ^ b) = if Z.testbit x b then 2 ^ b else 0) as ->.
  { apply Z.bits_inj'; intros i Hi. rewrite Z.land_spec, Z.pow2_bits_eqb by done.
    destruct (Z.eqb_spec b i) as [->|Hne].
    - destruct (Z.testbit x i) eqn:E; [|by rewrite Z.bits_0].
      by rewrite Z.pow2_bits_true.
    - rewrite andb_false_r. destruct (Z.testbit x b); [|by rewrite Z.bits_0].
      by rewrite Z.pow2_bits_false. }
  pose proof (Z.pow_pos_nonneg 2 b). destruct (Z.testbit x b); case_bool; simpl; lia || done.
Qed.

Lemma get_bit_testbit array p : get_bit array p = Z.testbit (at_ array (p / 8)) (p mod 8).
Proof. apply land_bit_testbit. apply Z.mod_pos_bound. lia. Qed.

Lemma set_bit_length array p : length (set_bit array p) = length array.
Proof. apply length_insert. Qed.

Lemma nth_insert (l : bytes) i j x :
  nth j (<[i := x]> l) 0 = if decide (i = j /\ (i < length l)%nat) then x else nth j l 0.
Proof.
  rewrite !nth_lookup. case_decide as H.
  - destruct H as [-> Hi]. by rewrite list_lookup_insert_eq.
  - destruct (decide (i = j)) as [->|Hne].
    + by rewrite list_insert_ge by lia.
    + by rewrite list_lookup_insert_ne.
Qed.

Lemma u8_lor_testbit x b i :
  is_u8 x -> 0 <= b < 8 -> 0 <= i ->
  Z.testbit (u8 (Z.lor x (Z.shiftl 1 b))) i = Z.testbit x i || (b =? i).
Proof.
  intros Hx Hb Hi. rewrite u8_small.
  2:{ apply lor_range; [lia|done|]. rewrite Z.shiftl_1_l.
      split; [apply Z.pow_nonneg; lia|]. apply Z.pow_lt_mono_r; lia. }
  by rewrite Z.lor_spec, Z.shiftl_1_l, Z.pow2_bits_eqb by lia.
Qed.

Lemma set_bit_ok array p : bytes_ok array -> bytes_ok (set_bit array p).
Proof. intros. apply Forall_insert; [done|apply u8_range]. Qed.

Lemma get_set_bit array p q :
  bytes_ok array -> 0 <= p -> 0 <= q -> p / 8 < blen array ->
  get_bit (set_bit array p) q = get_bit array q || (p =? q).
Proof.
  intros Hok Hp Hq Hl. rewrite !get_bit_testbit. unfold set_bit, at_. rewrite nth_insert.
  case_decide as H.
  - destruct H as [Heq _]. assert (p / 8 = q / 8) as E by (pose proof (Z.div_pos p 8); pose proof (Z.div_pos q 8); lia).
    rewrite E. rewrite u8_lor_testbit; [|apply (at_range _ _ Hok)|apply Z.mod_pos_bound; lia|apply Z.mod_pos_bound; lia].
    f_equal. repeat case_bool; dlia || done.
  - assert (p <> q) as Hne.
    { intros ->. apply H. split; [done|]. pose proof (Z.div_pos q 8). ulia. }
    rewrite (proj2 (Z.eqb_neq p q)) by done. by rewrite orb_false_r.
Qed.

(** ** Probing *)

Section Probes.
Context (bits : Z) (Hbits : 0 < bits).

(** The bit positions a key's probes visit. *)
Fixpoint probe_positions (j : nat) (h delta : Z) : list Z :=
  match j with
  | O => []
  | S j => u32 (h mod bits) :: probe_positions j (u32 (h + delta)) delta
  end.

Lemma bloom_set_probes_fold j h delta array :
  bloom_set_probes j bits h delta array = fold_left set_bit (probe_positions j h delta) array.
Proof. revert h array. induction j; intros; simpl; auto. Qed.

Lemma bloom_test_probes_all j h delta array :
  bloom_test_probes j bits h delta array = forallb (get_bit array) (probe_positions j h delta).
Proof.
  revert h. induction j as [|j IH]; intros; simpl; [done|]. rewrite IH.
  by destruct (get_bit _ _).
Qed.

Lemma probe_positions_range j h delta :
  is_u32 h -> Forall (fun p => 0 <= p < bits) (probe_positions j h delta).
Proof.
  revert h. induction j as [|j IH]; intros h Hh; simpl; constructor.
  - pose proof (Z.mod_pos_bound h bits Hbits). pose proof (Z.mod_le h bits).
    rewrite u32_small by ulia. done.
  - apply IH, u32_range.
Qed.

Lemma fold_set_bit_length ps array : length (fold_left set_bit ps array) = length array.
Proof. revert array. induction ps; intros; simpl; [done|]. by rewrite IHps, set_bit_length. Qed.

Lemma fold_set_bit_ok ps array : bytes_ok array -> bytes_ok (fold_left set_bit ps array).
Proof. revert array. induction ps; intros; simpl; auto using set_bit_ok. Qed.

(** Bits are only ever set, and the visited ones are. *)
Lemma get_fold_set_bit ps array q :
  bytes_ok array -> bits <= 8 * blen array -> Forall (fun p => 0 <= p < bits) ps -> 0 <= q ->
  get_bit (fold_left set_bit ps array) q = get_bit array q || existsb (Z.eqb q) ps.
Proof.
  intros Hok Hl Hps Hq. revert array Hok Hl. induction Hps as [|p ps Hp Hps IH]; intros array Hok Hl.
  - simpl. by rewrite orb_false_r.
  - cbn [fold_left existsb]. rewrite IH; [|by apply set_bit_ok|unfold blen; by rewrite set_bit_length].
    rewrite get_set_bit by (done || lia || (apply Z.div_lt_upper_bound; lia)).
    rewrite <- orb_assoc, (Z.eqb_sym p q). done.
Qed.

(** The last byte, which holds [k], is not among the bits. *)
Lemma fold_set_bit_last ps array i :
  Forall (fun p => 0 <= p < bits) ps -> bits <= 8 * Z.of_nat i ->
  nth i (fold_left set_bit ps array) 0 = nth i array 0.
Proof.
  intros Hps Hi. revert array. induction Hps as [|p ps Hp Hps IH]; intros array; [done|].
  cbn [fold_left]. rewrite IH. unfold set_bit. rewrite nth_insert. case_decide as H; [|done].
  exfalso. destruct H as [H _]. assert (p / 8 < Z.of_nat i) by (apply Z.div_lt_upper_bound; lia).
  pose proof (Z.div_pos p 8). lia.
Qed.
End Probes.

(** ** No false negatives *)

Definition policy_ok (p : BloomFilterPolicy) : Prop := 1 <= k_ p <= 30 /\ is_u64 (bits_per_key_ p).

(** The requested size of the filter fits a [size_t]. *)
Definition bloom_keys_ok (p : BloomFilterPolicy) (keys : list bytes) : Prop :=
  blen keys * bits_per_key_ p <= 2 ^ 64 - 8.

Lemma mkBloomFilterPolicy_ok bits_per_key : policy_ok (mkBloomFilterPolicy bits_per_key).
Proof.
  unfold policy_ok, mkBloomFilterPolicy. cbn [k_ bits_per_key_]. split; [|apply u64_range].
  repeat case_bool; lia.
Qed.

Lemma bloom_bytes_range b n :
  0 <= n -> is_u64 b -> n * b <= 2 ^ 64 - 8 -> 8 <= bloom_bytes b n < 2 ^ 62.
Proof.
  intros Hn Hb Hnb. unfold bloom_bytes. rewrite (u64_small (n * b)) by (split; [ulia|lia]).
  change (2 ^ 62) with 4611686018427387904.
  case_bool; rewrite u64_small by ulia; dlia.
Qed.

Definition key_positions (k bits : Z) (key : bytes) : list Z :=
  probe_positions bits (Z.to_nat k) (BloomHash key) (bloom_delta (BloomHash key)).

Lemma bloom_fold_positions k bits keys array :
  fold_left (bloom_add_key k bits) keys array =
  fold_left set_bit (concat (map (key_positions k bits) keys)) array.
Proof.
  revert array. induction keys as [|key keys IH]; intros; [done|].
  cbn [fold_left map concat]. rewrite fold_left_app, IH. f_equal. apply bloom_set_probes_fold.
Qed.

Definition bloom_array (p : BloomFilterPolicy) (keys : list bytes) : bytes :=
  let bytes := bloom_bytes (bits_per_key_ p) (blen keys) in
  fold_left (bloom_add_key (k_ p) (bytes * 8)) keys (replicate (Z.to_nat bytes) 0 ++ [u8 (k_ p)]).

Lemma bloom_positions_range p keys bits :
  0 < bits -> Forall (fun q => 0 <= q < bits) (concat (map (key_positions (k_ p) bits) keys)).
Proof.
  intros Hb. induction keys; simpl; [constructor|]. apply Forall_app. split; [|done].
  apply probe_positions_range; [done|apply Hash_range].
Qed.

Lemma bloom_array_length p keys :
  policy_ok p -> bloom_keys_ok p keys ->
  blen (bloom_array p keys) = bloom_bytes (bits_per_key_ p) (blen keys) + 1.
Proof.
  intros Hp Hk. pose proof (bloom_bytes_range (bits_per_key_ p) (blen keys) (blen_nonneg _) (proj2 Hp) Hk).
  unfold bloom_array. cbv zeta. rewrite bloom_fold_positions. unfold blen at 1.
  rewrite fold_set_bit_length, length_app, length_replicate. simpl. lia.
Qed.

Lemma bloom_no_false_negative p keys key :
  policy_ok p -> bloom_keys_ok p keys -> key ∈ keys ->
  Bloom_KeyMayMatch key (bloom_array p keys) = true.
Proof.
  intros Hp Hk Hin. pose proof (bloom_bytes_range (bits_per_key_ p) (blen keys) (blen_nonneg _) (proj2 Hp) Hk) as Hn.
  pose proof (bloom_array_length p keys Hp Hk) as Hlen.
  unfold Bloom_KeyMayMatch. rewrite Hlen. unfold bloom_array. cbv zeta.
  set (n := bloom_bytes (bits_per_key_ p) (blen keys)) in *. clearbody n.
  rewrite bloom_fold_positions. case_bool; [lia|].
  replace (n + 1 - 1) with n by lia.
  set (ps := concat (map (key_positions (k_ p) (n * 8)) keys)).
  assert (Forall (fun q => 0 <= q < n * 8) ps) as Hps by (apply bloom_positions_range; lia).
  destruct Hp as [Hk30 _].
  assert (schar (at_ (fold_left set_bit ps (replicate (Z.to_nat n) 0 ++ [u8 (k_ p)])) n) = k_ p) as ->.
  { unfold at_. rewrite (fold_set_bit_last (n * 8)) by (done || lia).
    rewrite app_nth2; rewrite length_replicate; [|lia]. rewrite Nat.sub_diag. cbn [nth].
    rewrite u8_small by ulia. unfold schar. case_bool; lia. }
  rewrite u64_small by ulia. case_bool; [lia|].
  rewrite bloom_test_probes_all. apply forallb_forall. intros q Hq.
  assert (In q ps) as Hqps.
  { subst ps. apply in_concat. exists (key_positions (k_ p) (n * 8) key). split; [|done].
    apply in_map. by apply list_elem_of_In. }
  rewrite (get_fold_set_bit (n * 8)); [|apply bytes_ok_app; split; [by apply bytes_ok_replicate|auto with pebbles]|blia|done|].
  - apply orb_true_iff. right. apply existsb_exists. exists q. split; [done|apply Z.eqb_refl].
  - rewrite List.Forall_forall in Hps. apply Hps in Hqps. lia.
Qed.

#[export] Instance BloomPolicy_ok p :
  policy_ok p -> FilterPolicyOk (BloomPolicy p) (bloom_keys_ok p) (bloom_array p).
Proof.
  intros Hp. constructor; cbn [CreateFilter KeyMayMatch BloomPolicy].
  - done.
  - intros keys key Hk Hin. by apply bloom_no_false_negative.
Qed.

(** The internal-key wrapper keeps the contract. *)
#[export] Instance InternalFilterPolicy_ok p ok f :
  FilterPolicyOk p ok f ->
  FilterPolicyOk (InternalFilterPolicy p) (fun keys => ok (map ExtractUserKey keys))
    (fun keys => f (map ExtractUserKey keys)).
Proof.
  intros Hp. constructor; cbn [CreateFilter KeyMayMatch InternalFilterPolicy].
  - intros keys dst Hk. by apply create_appends.
  - intros keys key Hk Hin. apply (no_false_negative _ _ Hk).
    apply list_elem_of_In, in_map. by apply list_elem_of_In.
Qed.

(** The filter does reject keys. *)
Example bloom_rejects :
  Bloom_KeyMayMatch [97; 98] (bloom_array (mkBloomFilterPolicy 10) [[104; 105]; [255]]) = false.
Proof. by vm_compute. Qed.

(** ** Properties *)

(** The Bloom filter has no false negatives: for the policy made for any
    number of bits per key, the filter appended for a set of keys (without
    touching what is already in the output) matches every one of those keys,
    also through the internal-key wrapper. *)
Theorem bloom_filter_no_false_negative (bits_per_key : Z) (keys : list bytes) (key dst : bytes)
    (Hsize : blen keys * u64 bits_per_key <= 2 ^ 64 - 8) :
  let p := mkBloomFilterPolicy bits_per_key in
  exists f, fst (Bloom_CreateFilter p keys dst) = dst ++ f /\
    (key ∈ keys -> Bloom_KeyMayMatch key f = true) /\
    exists f', CreateFilter (InternalFilterPolicy (BloomPolicy p)) keys dst = dst ++ f' /\
      (key ∈ keys -> KeyMayMatch (InternalFilterPolicy (BloomPolicy p)) key f' = true).
Proof.
  intros p. pose proof (mkBloomFilterPolicy_ok bits_per_key) as Hp. fold p in Hp.
  exists (bloom_array p keys). split_and!; [done|by apply bloom_no_false_negative|].
  exists (bloom_array p (map ExtractUserKey keys)). split; [done|].
  assert (bloom_keys_ok p (map ExtractUserKey keys)) as Hk.
  { unfold bloom_keys_ok, blen. rewrite length_map. exact Hsize. }
  intros Hin.
  exact (@no_false_negative _ _ _ (InternalFilterPolicy_ok _ _ _ (BloomPolicy_ok p Hp)) keys key Hk Hin).
Qed.

Lemma bloom_filter_no_false_negative_witness :
  exists f, fst (Bloom_CreateFilter (mkBloomFilterPolicy 10) [[104; 105]; [255]] [9]) = [9] ++ f /\
    Bloom_KeyMayMatch [255] f = true.
Proof.
  destruct (bloom_filter_no_false_negative 10 [[104; 105]; [255]] [255] [9]) as (f & Hf & Hm & _); [done|].
  exists f. split; [exact Hf|]. apply Hm. repeat constructor.
Defined.

(** The filter of [n] keys takes [max(64, n * bits_per_key)] bits rounded up
    to whole bytes plus one byte for the number of probes, which is between 1
    and 30. *)
Theorem bloom_filter_size (bits_per_key : Z) (keys : list bytes)
    (Hb : 0 <= bits_per_key < 2 ^ 31) (Hn : blen keys < 2 ^ 31) :
  let p := mkBloomFilterPolicy bits_per_key in
  1 <= k_ p <= 30 /\
  blen (fst (Bloom_CreateFilter p keys [])) = (Z.max 64 (blen keys * bits_per_key) + 7) / 8 + 1.
Proof.
  intros p. pose proof (mkBloomFilterPolicy_ok bits_per_key) as Hp. fold p in Hp.
  split; [apply Hp|].
  assert (bits_per_key_ p = bits_per_key) as Eb by (apply u64_small; ulia).
  change (fst (Bloom_CreateFilter p keys [])) with (bloom_array p keys).
  pose proof (blen_nonneg keys). assert (0 <= blen keys * bits_per_key < 2 ^ 62) by nia.
  rewrite bloom_array_length; [|done|].
  - unfold bloom_bytes. rewrite Eb, (u64_small (_ * _)) by ulia.
    case_bool; rewrite u64_small by ulia; [rewrite Z.max_l by lia|rewrite Z.max_r by lia]; done.
  - unfold bloom_keys_ok. rewrite Eb. ulia.
Qed.

Lemma bloom_filter_size_witness :
  blen (fst (Bloom_CreateFilter (mkBloomFilterPolicy 10) (replicate 100 [1]) [])) = 126.
Proof. apply (bloom_filter_size 10 (replicate 100 [1])); done. Defined.
