(* ===== verification/LogFormat.v ===== *)
(** * The write-ahead log: format, writer and reader

    Models [src/pebblesdb/src/db/log_format.h], [log_writer.cc/.h] and
    [log_reader.cc/.h].  A log is a sequence of 32 KiB blocks; a logical record is
    split into physical records (checksum, length, type, payload) that never
    cross a block boundary.  The files are parameters ([ConcurrentWritableFile],
    [SequentialFile]); the reporter of the reader is the list of the drops it was
    told about. *)

From S2P Require Import Prelude Coding Status Crc32c.

(** [enum RecordType] and the special values of the reader. *)
Definition kZeroType : Z := 0.
Definition kFullType : Z := 1.
Definition kFirstType : Z := 2.
Definition kMiddleType : Z := 3.
Definition kLastType : Z := 4.
Definition kMaxRecordType : Z := kLastType.
Definition kEof : Z := kMaxRecordType + 1.
Definition kBadRecord : Z := kMaxRecordType + 2.

Definition kBlockSize : Z := 32768.
Definition kHeaderSize : Z := 4 + 1 + 2.

(** ** Writer *)

Module Writer.

(** [offset_] of the writer; [dest_] is passed along and [type_crc_] is the
    function [type_crc]. *)
Definition type_crc (t : Z) : Z := Value [u8 t].

Definition ComputeRecordSize (start remain : Z) : Z :=
  let per_block := kBlockSize - kHeaderSize in
  let whole_blocks := remain / per_block in
  let leftover := remain mod per_block in
  u64 (start + whole_blocks * kBlockSize + kHeaderSize + leftover).

(** [~(kBlockSize - 1)] has the type of [kBlockSize], [unsigned int]: its upper
    32 bits are zero when it meets a [uint64_t]. *)
Definition block_mask : Z := 2 ^ 32 - 1 - (kBlockSize - 1).

(** The space reserved for a record of [size] bytes by the compare-and-swap loop
    that reads [offset_ = start_offset]: the new value of [offset_]. *)
Definition reserve (start_offset size : Z) : Z :=
  let roundup_start :=
    if kBlockSize - Z.land start_offset (kBlockSize - 1) <? kHeaderSize
    then Z.land (u64 (start_offset + kHeaderSize)) block_mask
    else start_offset in
  let left := kBlockSize - Z.land roundup_start (kBlockSize - 1) in
  if kHeaderSize + size <=? left
  then u64 (roundup_start + kHeaderSize + size)
  else ComputeRecordSize (u64 (roundup_start + left)) (size + kHeaderSize - left).

(** [buf\[0..6\]]: masked checksum of type and payload, length, type. *)
Definition header (t : Z) (payload : bytes) : bytes :=
  let n := blen payload in
  let crc := Mask (Extend (type_crc t) payload) in
  EncodeFixed32 crc ++ [u8 (Z.land n 255); u8 (Z.shiftr n 8); u8 t].

Section Writer.
Context {F : Type} {HF : ConcurrentWritableFile F}.

Definition EmitPhysicalRecordAt (dest : F) (t : Z) (payload : bytes) (offset : Z) : F * Status :=
  let '(dest, s) := WriteAt dest offset (header t payload) in
  if ok s then WriteAt dest (u64 (offset + kHeaderSize)) payload else (dest, s).

Definition record_type (begin end_ : bool) : Z :=
  if begin && end_ then kFullType
  else if begin then kFirstType
  else if end_ then kLastType
  else kMiddleType.

(** The [do ... while (s.ok() && left > 0)] loop; [data] is what is left of the
    record.  [None] means that the fuel ran out. *)
Fixpoint emit_loop (fuel : nat) (dest : F) (begin : bool) (offset : Z) (data : bytes)
    : option (F * Status) :=
  match fuel with
  | O => None
  | S fuel =>
      let block_offset := Z.land offset (kBlockSize - 1) in
      let leftover := kBlockSize - block_offset in
      let '(dest, block_offset, offset) :=
        if leftover <? kHeaderSize then
          (* the status of the trailer's write is ignored *)
          (fst (WriteAt dest offset (replicate (Z.to_nat leftover) 0)), 0, u64 (offset + leftover))
        else (dest, block_offset, offset) in
      let left := blen data in
      let avail := kBlockSize - block_offset - kHeaderSize in
      let fragment_length := if left <? avail then left else avail in
      let end_ := left =? fragment_length in
      let t := record_type begin end_ in
      let '(dest, s) := EmitPhysicalRecordAt dest t (take (Z.to_nat fragment_length) data) offset in
      let offset := u64 (offset + kHeaderSize + fragment_length) in
      let data := drop (Z.to_nat fragment_length) data in
      if ok s && (0 <? blen data) then emit_loop fuel dest false offset data
      else Some (dest, s)
  end.

(** Every round but the first writes at least one byte of the record. *)
Definition emit_fuel (data : bytes) : nat := 2 + length data.

(** [AddRecord] of a writer whose [offset_] is [offset], not interleaved with
    other writers: the file, the status and the new [offset_]. *)
Definition AddRecord (dest : F) (offset : Z) (slice : bytes) : option (F * Status * Z) :=
  match emit_loop (emit_fuel slice) dest true offset slice with
  | Some (dest, s) => Some (dest, s, reserve offset (blen slice))
  | None => None
  end.
End Writer.
End Writer.

(** ** Reader *)

Module Reader.

(** What the reporter is told: bytes dropped and the status. *)
Definition report := (Z * Status)%type.

Record Reader {F : Type} := mkReader {
  file_ : F;
  reporter_ : option (list report);   (** the null pointer, or the reports so far *)
  checksum_ : bool;
  buffer_ : bytes;
  eof_ : bool;
  last_record_offset_ : Z;
  end_of_buffer_offset_ : Z;
  initial_offset_ : Z;
}.
Arguments Reader : clear implicits.

Section Reader.
Context {F : Type} {HF : SequentialFile F}.
Implicit Types r : Reader F.

(** The constructor. *)
Definition new (file : F) (reporter : bool) (checksum : bool) (initial_offset : Z) : Reader F :=
  {| file_ := file; reporter_ := if reporter then Some [] else None; checksum_ := checksum;
     buffer_ := []; eof_ := false; last_record_offset_ := 0; end_of_buffer_offset_ := 0;
     initial_offset_ := initial_offset |}.

Definition set_buffer (b : bytes) r : Reader F :=
  {| file_ := file_ r; reporter_ := reporter_ r; checksum_ := checksum_ r; buffer_ := b;
     eof_ := eof_ r; last_record_offset_ := last_record_offset_ r;
     end_of_buffer_offset_ := end_of_buffer_offset_ r; initial_offset_ := initial_offset_ r |}.
Definition set_eof r : Reader F :=
  {| file_ := file_ r; reporter_ := reporter_ r; checksum_ := checksum_ r; buffer_ := buffer_ r;
     eof_ := true; last_record_offset_ := last_record_offset_ r;
     end_of_buffer_offset_ := end_of_buffer_offset_ r; initial_offset_ := initial_offset_ r |}.
Definition set_last (o : Z) r : Reader F :=
  {| file_ := file_ r; reporter_ := reporter_ r; checksum_ := checksum_ r; buffer_ := buffer_ r;
     eof_ := eof_ r; last_record_offset_ := o;
     end_of_buffer_offset_ := end_of_buffer_offset_ r; initial_offset_ := initial_offset_ r |}.
Definition set_end (f : F) (o : Z) r : Reader F :=
  {| file_ := f; reporter_ := reporter_ r; checksum_ := checksum_ r; buffer_ := buffer_ r;
     eof_ := eof_ r; last_record_offset_ := last_record_offset_ r;
     end_of_buffer_offset_ := o; initial_offset_ := initial_offset_ r |}.

(** Reports a drop unless it lies before the initial offset. *)
Definition ReportDrop (n : Z) (reason : Status) r : Reader F :=
  match reporter_ r with
  | Some reps =>
      if initial_offset_ r <=? u64 (u64 (end_of_buffer_offset_ r - blen (buffer_ r)) - n)
      then {| file_ := file_ r; reporter_ := Some (reps ++ [(n, reason)]);
              checksum_ := checksum_ r; buffer_ := buffer_ r; eof_ := eof_ r;
              last_record_offset_ := last_record_offset_ r;
              end_of_buffer_offset_ := end_of_buffer_offset_ r;
              initial_offset_ := initial_offset_ r |}
      else r
  | None => r
  end.

Definition ReportCorruption (n : Z) (reason : bytes) r : Reader F :=
  ReportDrop n (Corruption reason) r.

Definition SkipToInitialBlock r : bool * Reader F :=
  let offset_in_block := initial_offset_ r mod kBlockSize in
  let block_start_location := initial_offset_ r - offset_in_block in
  let block_start_location :=
    if kBlockSize - 6 <? offset_in_block then u64 (block_start_location + kBlockSize)
    else block_start_location in
  if 0 <? block_start_location then
    let '(f, skip_status) := Skip (file_ r) block_start_location in
    let r := set_end f block_start_location r in
    if ok skip_status then (true, r)
    else (false, ReportDrop block_start_location skip_status r)
  else (true, set_end (file_ r) block_start_location r).

(** One round of the loop of [ReadPhysicalRecord]: [inl] is [continue], [inr] is
    the returned type with the contents of [*result] when it is assigned. *)
Definition ReadPhysicalRecord_step (result : bytes) r : Reader F + Z * bytes * Reader F :=
  if blen (buffer_ r) <? kHeaderSize then
    if eof_ r then
      (* a truncated header at the end of the file *)
      inr (kEof, result, set_buffer [] r)
    else
      let '(f, (status, buf)) := Read (file_ r) kBlockSize in
      let r := set_end f (u64 (end_of_buffer_offset_ r + blen buf)) (set_buffer buf r) in
      if negb (ok status) then
        inr (kEof, result, set_eof (ReportDrop kBlockSize status (set_buffer [] r)))
      else if blen buf <? kBlockSize then inl (set_eof r) else inl r
  else
    let hdr := buffer_ r in
    let a := at_ hdr 4 in
    let b := at_ hdr 5 in
    let t := u32 (schar (at_ hdr 6)) in
    let length_ := Z.lor a (Z.shiftl b 8) in
    if blen (buffer_ r) <? kHeaderSize + length_ then
      let drop_size := blen (buffer_ r) in
      let r := set_buffer [] r in
      if negb (eof_ r) then
        inr (kBadRecord, result, ReportCorruption drop_size (str "bad record length") r)
      else inr (kEof, result, r)
    else if (t =? kZeroType) && (length_ =? 0) then
      (* a region pre-allocated by the mapped file *)
      inr (kBadRecord, result, set_buffer [] r)
    else if checksum_ r &&
            negb (Value (sub hdr 6 (1 + length_)) =? Unmask (DecodeFixed32 hdr)) then
      let drop_size := blen (buffer_ r) in
      let r := set_buffer [] r in
      inr (kBadRecord, result, ReportCorruption drop_size (str "checksum mismatch") r)
    else
      let r := set_buffer (drop (Z.to_nat (kHeaderSize + length_)) (buffer_ r)) r in
      if u64 (u64 (end_of_buffer_offset_ r - blen (buffer_ r)) - kHeaderSize - length_)
           <? initial_offset_ r
      then inr (kBadRecord, [], r)
      else inr (t, sub hdr kHeaderSize length_, r).

(** The loop runs at most three rounds: after one [Read] the buffer holds a whole
    block or [eof_] is set (proved as [phys_total] in LogProofs.v). *)
Fixpoint ReadPhysicalRecord_loop (fuel : nat) (result : bytes) r : option (Z * bytes * Reader F) :=
  match fuel with
  | O => None
  | S fuel =>
      match ReadPhysicalRecord_step result r with
      | inl r => ReadPhysicalRecord_loop fuel result r
      | inr x => Some x
      end
  end.
Definition ReadPhysicalRecord (result : bytes) r : option (Z * bytes * Reader F) :=
  ReadPhysicalRecord_loop 3 result r.

(** The locals of [ReadRecord]'s loop. *)
Record rr_state := {
  scratch : bytes;
  in_fragmented_record : bool;
  prospective_record_offset : Z;
  fragment : bytes;
}.

(** One round: [inl] goes round again, [inr (Some rec)] is [return true] with
    [*record = rec], [inr None] is [return false]. *)
Definition ReadRecord_step (st : rr_state) r
    : option ((rr_state * Reader F) + (option bytes * Reader F)) :=
  let physical_record_offset := u64 (end_of_buffer_offset_ r - blen (buffer_ r)) in
  match ReadPhysicalRecord (fragment st) r with
  | None => None
  | Some (record_type, frag, r) =>
    if record_type =? kFullType then
      let r := if in_fragmented_record st && negb (bool_decide (scratch st = []))
               then ReportCorruption (blen (scratch st)) (str "partial record without end(1)") r
               else r in
      Some (inr (Some frag, set_last physical_record_offset r))
    else if record_type =? kFirstType then
      let r := if in_fragmented_record st && negb (bool_decide (scratch st = []))
               then ReportCorruption (blen (scratch st)) (str "partial record without end(2)") r
               else r in
      Some (inl ({| scratch := frag; in_fragmented_record := true;
                    prospective_record_offset := physical_record_offset; fragment := frag |}, r))
    else if record_type =? kMiddleType then
      if negb (in_fragmented_record st) then
        Some (inl ({| scratch := scratch st; in_fragmented_record := false;
                      prospective_record_offset := prospective_record_offset st; fragment := frag |},
                   ReportCorruption (blen frag) (str "missing start of fragmented record(1)") r))
      else
        Some (inl ({| scratch := scratch st ++ frag; in_fragmented_record := true;
                      prospective_record_offset := prospective_record_offset st; fragment := frag |}, r))
    else if record_type =? kLastType then
      if negb (in_fragmented_record st) then
        Some (inl ({| scratch := scratch st; in_fragmented_record := false;
                      prospective_record_offset := prospective_record_offset st; fragment := frag |},
                   ReportCorruption (blen frag) (str "missing start of fragmented record(2)") r))
      else
        Some (inr (Some (scratch st ++ frag), set_last (prospective_record_offset st) r))
    else if record_type =? kEof then Some (inr (None, r))
    else if record_type =? kBadRecord then
      if in_fragmented_record st then
        Some (inl ({| scratch := []; in_fragmented_record := false;
                      prospective_record_offset := prospective_record_offset st; fragment := frag |},
                   ReportCorruption (blen (scratch st)) (str "error in middle of record") r))
      else
        Some (inl ({| scratch := scratch st; in_fragmented_record := false;
                      prospective_record_offset := prospective_record_offset st; fragment := frag |}, r))
    else
      Some (inl ({| scratch := []; in_fragmented_record := false;
                    prospective_record_offset := prospective_record_offset st; fragment := frag |},
                 ReportCorruption
                   (blen frag + (if in_fragmented_record st then blen (scratch st) else 0))
                   (str "unknown record type " ++ decimal record_type) r))
  end.

Fixpoint ReadRecord_loop (fuel : nat) (st : rr_state) r : option (option bytes * Reader F) :=
  match fuel with
  | O => None
  | S fuel =>
      match ReadRecord_step st r with
      | Some (inl (st, r)) => ReadRecord_loop fuel st r
      | Some (inr x) => Some x
      | None => None
      end
  end.

(** [None]: out of fuel; [Some (None, r)]: returns [false]. *)
Definition ReadRecord (fuel : nat) r : option (option bytes * Reader F) :=
  let '(go, r) :=
    if last_record_offset_ r <? initial_offset_ r then SkipToInitialBlock r else (true, r) in
  if go then
    ReadRecord_loop fuel {| scratch := []; in_fragmented_record := false;
                            prospective_record_offset := 0; fragment := [] |} r
  else Some (None, r).

Definition LastRecordOffset r : Z := last_record_offset_ r.
End Reader.
End Reader.
