(* ===== verification/LogProofs.v ===== *)
(** * The write-ahead log: proofs

    What the writer lays out ([emits]), that it stays inside the space it
    reserved, that the reader returns exactly the records written, and what
    happens at the two places where the reservation is wrong. *)

From S2P Require Import Prelude Coding Status Crc32c LogFormat.

Import Writer Reader.

(** ** Arithmetic of block offsets *)

Abbreviation B := kBlockSize (only parsing).
Abbreviation P := (kBlockSize - kHeaderSize) (only parsing).

Ltac klia :=
  change kBlockSize with 32768 in *; change kHeaderSize with 7 in *;
  change (32768 - 7) with 32761 in *; blia.

Lemma land_block x : Z.land x (kBlockSize - 1) = x mod kBlockSize.
Proof. change (kBlockSize - 1) with (Z.ones 15). by rewrite Z.land_ones. Qed.

(** Rounding down to a block below 4 GiB. *)
Lemma land_block_mask x : 0 <= x < 2 ^ 32 -> Z.land x block_mask = x - x mod kBlockSize.
Proof.
  intros Hx.
  assert (Z.land x block_mask = Z.shiftl (Z.shiftr x 15) 15) as ->.
  { apply Z.bits_inj'; intros i Hi. rewrite Z.land_spec.
    change block_mask with (Z.lxor (Z.ones 32) (Z.ones 15)).
    rewrite Z.lxor_spec, !Z.testbit_ones_nonneg by lia.
    destruct (Z.lt_ge_cases i 15).
    - rewrite Z.shiftl_spec_low by lia. repeat case_bool; try lia. apply andb_false_r.
    - rewrite Z.shiftl_spec, Z.shiftr_spec by lia. replace (i - 15 + 15) with i by lia.
      repeat case_bool; try lia; simpl; rewrite ?andb_true_r, ?andb_false_r; [done|].
      by rewrite (testbit_high x 32 i). }
  rewrite Z.shiftl_mul_pow2, Z.shiftr_div_pow2 by lia. change (2 ^ 15) with kBlockSize.
  pose proof (Z.div_mod x kBlockSize). klia.
Qed.

(** ** What a record looks like on disk *)

(** A physical record. *)
Definition frag (t : Z) (p : bytes) : bytes := header t p ++ p.

Lemma header_length t p : length (header t p) = 7%nat.
Proof. done. Qed.
Lemma blen_header t p : blen (header t p) = 7.
Proof. done. Qed.
Lemma blen_frag t p : blen (frag t p) = 7 + blen p.
Proof. unfold frag. by rewrite blen_app. Qed.
#[export] Hint Rewrite blen_header blen_frag : blen.

(** The trailer skipped at [off], and the room of the block after it. *)
Definition skip (off : Z) : Z :=
  if kBlockSize - off mod kBlockSize <? kHeaderSize then kBlockSize - off mod kBlockSize else 0.
Definition room (off : Z) : Z := kBlockSize - (off + skip off) mod kBlockSize.
Definition zeros (n : Z) : bytes := replicate (Z.to_nat n) 0.

(** [emits begin off data bs]: the writer, positioned at [off] with [data] left
    of a record, produces the bytes [bs]. *)
Inductive emits : bool -> Z -> bytes -> bytes -> Prop :=
| emits_last b off d :
    kHeaderSize + blen d <= room off ->
    emits b off d (zeros (skip off) ++ frag (record_type b true) d)
| emits_more b off d bs :
    room off < kHeaderSize + blen d ->
    emits false (off + skip off + room off) (drop (Z.to_nat (room off - kHeaderSize)) d) bs ->
    emits b off d
      (zeros (skip off) ++
       frag (record_type b false) (take (Z.to_nat (room off - kHeaderSize)) d) ++ bs).

Lemma block_mod_range x : 0 <= x mod kBlockSize < kBlockSize.
Proof. apply Z.mod_pos_bound. done. Qed.

Lemma next_block_mod x : (x + (kBlockSize - x mod kBlockSize)) mod kBlockSize = 0.
Proof.
  pose proof (Z.div_mod x kBlockSize ltac:(done)).
  replace (x + (kBlockSize - x mod kBlockSize)) with ((x / kBlockSize + 1) * kBlockSize) by lia.
  by apply Z.mod_mul.
Qed.

(** ** The writer produces it *)

Lemma mem_write_hole f off d :
  blen f <= off ->
  mem_write f off d = f ++ replicate (Z.to_nat (off - blen f)) 0 ++ d.
Proof.
  intros Hl. unfold mem_write. rewrite take_ge.
  - rewrite drop_ge by (unfold blen in Hl; lia). rewrite app_nil_r, <- app_assoc.
    do 3 f_equal. unfold blen. lia.
  - rewrite length_app, length_replicate. unfold blen in Hl. lia.
Qed.

(** A file of [off] bytes once the hole up to [off] is filled. *)
Definition fill (f : bytes) (off : Z) : bytes := f ++ replicate (Z.to_nat (off - blen f)) 0.

Lemma blen_fill f off : blen f <= off -> blen (fill f off) = off.
Proof. intros. unfold fill. blia. Qed.
Lemma fill_end f : fill f (blen f) = f.
Proof. unfold fill. rewrite Z.sub_diag. apply app_nil_r. Qed.
Lemma fill_exact f off : blen f = off -> fill f off = f.
Proof. intros <-. apply fill_end. Qed.
Lemma mem_write_fill f off d : blen f <= off -> mem_write f off d = fill f off ++ d.
Proof. intros. rewrite mem_write_hole by done. unfold fill. by rewrite <- app_assoc. Qed.
Lemma fill_app f off d : blen f <= off -> fill (fill f off ++ d) (off + blen d) = fill f off ++ d.
Proof.
  intros. rewrite <- (fill_end (fill f off ++ d)) at 2. f_equal. rewrite blen_app, blen_fill; done.
Qed.

Lemma EmitPhysicalRecordAt_mem f t p off :
  0 <= blen f <= off -> off + 7 + blen p < 2 ^ 64 ->
  EmitPhysicalRecordAt f t p off = (fill f off ++ frag t p, OK).
Proof.
  intros Hf Hoff. unfold EmitPhysicalRecordAt. cbn [WriteAt mem_ConcurrentWritableFile ok OK].
  rewrite (mem_write_fill f off) by lia. change kHeaderSize with 7. rewrite u64_small by blia.
  assert (off + 7 = blen (fill f off ++ header t p)) as ->.
  { rewrite blen_app, blen_fill by lia. done. }
  rewrite mem_write_end. unfold frag. by rewrite <- app_assoc.
Qed.

Lemma skip_range off : 0 <= skip off < kHeaderSize.
Proof. unfold skip. pose proof (block_mod_range off). case_bool; klia. Qed.

Lemma skip_mod off : skip off <> 0 -> skip off = kBlockSize - off mod kBlockSize.
Proof. unfold skip. case_bool; [done|lia]. Qed.

Lemma room_range off : kHeaderSize <= room off <= kBlockSize.
Proof.
  unfold room. pose proof (block_mod_range (off + skip off)). split; [|lia].
  unfold skip in *. case_bool; [rewrite next_block_mod|rewrite Z.add_0_r]; klia.
Qed.

Lemma skip_block off : off mod kBlockSize = 0 -> skip off = 0.
Proof. intros H. unfold skip. rewrite H. done. Qed.
Lemma room_block off : off mod kBlockSize = 0 -> room off = kBlockSize.
Proof. intros H. unfold room. rewrite skip_block by done. rewrite Z.add_0_r, H. done. Qed.
Lemma next_room_mod off : (off + skip off + room off) mod kBlockSize = 0.
Proof. unfold room. apply next_block_mod. Qed.

Lemma blen_zeros n : 0 <= n -> blen (zeros n) = n.
Proof. intros. unfold zeros. blia. Qed.
Lemma zeros_0 : zeros 0 = [].
Proof. done. Qed.

(** One round of the loop on a file that ends at or before [off]. *)
Lemma emit_loop_step fuel f b off d :
  0 <= blen f <= off -> off + 2 * kBlockSize < 2 ^ 64 ->
  let f' := fill f off ++ zeros (skip off) in
  emit_loop (S fuel) f b off d =
  if kHeaderSize + blen d <=? room off
  then Some (f' ++ frag (record_type b true) d, OK)
  else emit_loop fuel
         (f' ++ frag (record_type b false) (take (Z.to_nat (room off - kHeaderSize)) d))
         false (off + skip off + room off) (drop (Z.to_nat (room off - kHeaderSize)) d).
Proof.
  intros Hf Ho f'. cbn [emit_loop].
  rewrite !land_block.
  set (st := if _ <? _ then _ else _).
  assert (exists g, st = (g, (off + skip off) mod kBlockSize, off + skip off) /\
                    fill g (off + skip off) = f' /\ blen g <= off + skip off) as (g & -> & Hg & Hl).
  { unfold st, f', skip, room in *. pose proof (block_mod_range off). case_bool.
    - eexists; split; [|split]; cbn [WriteAt mem_ConcurrentWritableFile fst].
      + f_equal; [f_equal|]; [by rewrite next_block_mod|apply u64_small; klia].
      + rewrite mem_write_fill by lia. fold (zeros (kBlockSize - off mod kBlockSize)).
        rewrite <- (blen_zeros (kBlockSize - off mod kBlockSize)) at 2 by lia.
        apply fill_app; lia.
      + rewrite mem_write_fill by lia. rewrite blen_app, blen_fill by lia. klia.
    - exists f. rewrite Z.add_0_r, zeros_0, app_nil_r. split; [done|]. split; [done|lia]. }
  pose proof (room_range off) as Hr. unfold room in Hr |- *.
  assert (0 <= off + skip off /\ off + skip off + kBlockSize + kHeaderSize < 2 ^ 64) as [? Hob]
    by (pose proof (skip_range off); klia).
  set (o := off + skip off) in *.
  rewrite EmitPhysicalRecordAt_mem; [|blia|repeat case_bool; klia].
  rewrite Hg. cbn [ok OK negb andb].
  set (n := if blen d <? _ then blen d else _). set (m := kBlockSize - o mod kBlockSize - kHeaderSize).
  destruct (Z.leb_spec (kHeaderSize + blen d) (kBlockSize - o mod kBlockSize)).
  - assert (n = blen d) as -> by (unfold n; case_bool; klia).
    rewrite Z.eqb_refl, take_ge, drop_ge by (unfold blen; lia). done.
  - assert (n = m) as -> by (unfold n, m; case_bool; klia).
    rewrite (proj2 (Z.eqb_neq (blen d) m)) by (unfold m; klia).
    rewrite (proj2 (Z.ltb_lt 0 _)) by (unfold m; klia).
    f_equal. unfold m. rewrite u64_small; klia.
Qed.

(** Blocks do not shrink: after the first round the writer is at the start of a
    block, and every further round writes a full block or finishes. *)
Lemma emit_loop_block fuel f b off d :
  off mod kBlockSize = 0 -> 0 <= blen f <= off ->
  off + 8 * blen d + 2 * kBlockSize < 2 ^ 64 -> (length d < fuel)%nat ->
  exists bs, emits b off d bs /\ emit_loop fuel f b off d = Some (fill f off ++ bs, OK).
Proof.
  revert f b off d. induction fuel as [|fuel IH]; intros f b off d Hm Hf Ho Hl; [lia|].
  rewrite emit_loop_step by blia. case_bool.
  - eexists. split; [by apply emits_last|]. by rewrite <- app_assoc.
  - rewrite room_block, skip_block, zeros_0, app_nil_r, Z.add_0_r in * by done.
    edestruct (IH (fill f off ++ frag (record_type b false)
                 (take (Z.to_nat (kBlockSize - kHeaderSize)) d)) false (off + kBlockSize)
                 (drop (Z.to_nat (kBlockSize - kHeaderSize)) d)) as (bs & Hbs & ->).
    + rewrite <- Zplus_mod_idemp_r, Z_mod_same_full, Z.add_0_r. done.
    + rewrite blen_app, blen_fill by lia. klia.
    + klia.
    + rewrite length_drop. klia.
    + eexists. split.
      * apply emits_more; rewrite room_block by done; [lia|].
        rewrite skip_block by done. rewrite Z.add_0_r. exact Hbs.
      * rewrite skip_block, room_block, zeros_0 by done. cbn [app].
        rewrite fill_exact, <- app_assoc; [done|].
        rewrite blen_app, blen_fill by lia. klia.
Qed.

Lemma emit_loop_mem (f : bytes) b off d :
  0 <= blen f <= off -> off + 8 * blen d + 4 * kBlockSize < 2 ^ 64 ->
  exists bs, emits b off d bs /\
    emit_loop (emit_fuel d) f b off d = Some (fill f off ++ bs, OK).
Proof.
  intros Hf Ho. unfold emit_fuel. cbn [Nat.add]. rewrite emit_loop_step by klia. case_bool.
  - eexists. split; [by apply emits_last|]. by rewrite <- app_assoc.
  - pose proof (skip_range off). pose proof (room_range off).
    set (g := _ ++ frag _ _).
    assert (blen g = off + skip off + room off) as Hg.
    { unfold g. rewrite !blen_app, blen_fill, blen_zeros by lia. klia. }
    edestruct (emit_loop_block (S (length d)) g false (off + skip off + room off)
                 (drop (Z.to_nat (room off - kHeaderSize)) d)) as (bs & Hbs & ->).
    + apply next_room_mod.
    + klia.
    + klia.
    + rewrite length_drop. lia.
    + eexists. split; [by apply emits_more|]. rewrite fill_exact by done.
      unfold g. by rewrite <- !app_assoc.
Qed.

(** A record written at the end of an in-memory log. *)
Lemma AddRecord_mem f d :
  blen f + 8 * blen d + 4 * kBlockSize < 2 ^ 64 ->
  exists bs, emits true (blen f) d bs /\
    AddRecord f (blen f) d = Some (f ++ bs, OK, reserve (blen f) (blen d)).
Proof.
  intros H. destruct (emit_loop_mem f true (blen f) d) as (bs & Hbs & He); [blia|done|].
  exists bs. split; [done|]. unfold AddRecord. by rewrite He, fill_end.
Qed.

(** ** The space reserved for a record *)

(** The bytes of a record of [size] bytes that do not fit in the block [off]
    lies in. *)
Definition spill (off size : Z) : Z := size + kHeaderSize - room off.

(** The spilled part fills its last block exactly. *)
Definition exact_fit (off size : Z) : bool :=
  (0 <? spill off size) && (spill off size mod (kBlockSize - kHeaderSize) =? 0).

Lemma reserve_room off size :
  0 <= off -> 0 <= size -> off + size + kBlockSize < 2 ^ 32 ->
  reserve off size =
  if spill off size <=? 0 then off + skip off + kHeaderSize + size
  else ComputeRecordSize (off + skip off + room off) (spill off size).
Proof.
  intros Ho Hs Hb. unfold reserve, spill. pose proof (block_mod_range off).
  assert ((if kBlockSize - Z.land off (kBlockSize - 1) <? kHeaderSize
           then Z.land (u64 (off + kHeaderSize)) block_mask else off) = off + skip off) as ->.
  { rewrite land_block. unfold skip. case_bool; [|lia].
    rewrite u64_small by klia. rewrite land_block_mask by klia.
    assert ((off + kHeaderSize) mod kBlockSize = kHeaderSize - (kBlockSize - off mod kBlockSize))
      as ->; [|lia].
    rewrite <- Zplus_mod_idemp_l. change kBlockSize with 32768 in *. change kHeaderSize with 7 in *.
    symmetry. apply (Z.mod_unique_pos _ _ 1); lia. }
  rewrite land_block. fold (room off).
  pose proof (room_range off). pose proof (skip_range off).
  repeat case_bool; try lia; rewrite u64_small by klia; done.
Qed.

Lemma reserve_bound off size :
  0 <= off -> 0 <= size -> off + size + kBlockSize < 2 ^ 32 ->
  reserve off size <= off + 2 * size + 2 * kBlockSize.
Proof.
  intros Ho Hs Hb. rewrite reserve_room by done.
  pose proof (room_range off). pose proof (skip_range off).
  case_bool; [klia|]. unfold ComputeRecordSize.
  pose proof (Z.div_mod (spill off size) (kBlockSize - kHeaderSize) ltac:(done)).
  pose proof (Z.mod_pos_bound (spill off size) (kBlockSize - kHeaderSize) ltac:(done)).
  assert (spill off size <= size) by (unfold spill; lia).
  rewrite u64_small by klia. klia.
Qed.

Lemma div_add_block n :
  let per := kBlockSize - kHeaderSize in
  per <= n ->
  (n / per) * kBlockSize = kBlockSize + ((n - per) / per) * kBlockSize /\
  n mod per = (n - per) mod per.
Proof.
  intros per H. replace n with (n - per + 1 * per) at 1 3 by lia.
  rewrite Z.div_add, Z.mod_add by done. lia.
Qed.

(** From the start of a block: a header per started block. *)
Lemma emits_block_length b off d bs :
  emits b off d bs -> off mod kBlockSize = 0 -> 0 < blen d ->
  let per := kBlockSize - kHeaderSize in
  blen bs + (if blen d mod per =? 0 then kHeaderSize else 0) =
  (blen d / per) * kBlockSize + kHeaderSize + blen d mod per.
Proof.
  induction 1 as [b off d Hr|b off d bs Hr He IH]; intros Hm Hd per;
    rewrite ?skip_block, ?room_block, ?Z.add_0_r, ?zeros_0 in * by done; cbn [app] in *.
  - rewrite blen_frag. destruct (Z.eq_dec (blen d) per) as [E|E].
    + rewrite E. done.
    + rewrite Z.div_small, Z.mod_small by (unfold per in *; klia).
      case_bool; klia.
  - destruct (div_add_block (blen d)) as [E1 E2]; [klia|]. fold per in E1, E2.
    assert (blen (drop (Z.to_nat (kBlockSize - kHeaderSize)) d) = blen d - per) as El
      by (unfold per; klia).
    rewrite El in IH. rewrite E1, E2.
    assert (Hmod : (off + kBlockSize) mod kBlockSize = 0)
      by (rewrite <- Zplus_mod_idemp_r, Z_mod_same_full, Z.add_0_r; done).
    specialize (IH Hmod ltac:(unfold per; klia)). cbv zeta in IH. fold per in IH.
    rewrite blen_app, blen_frag, blen_take. unfold per in *. klia.
Qed.

(** What is written and what is reserved: seven bytes too many when the spilled
    part fills its last block exactly. *)
Lemma emits_reserve b off d bs :
  0 <= off -> off + blen d + kBlockSize < 2 ^ 32 ->
  emits b off d bs ->
  off + blen bs + (if exact_fit off (blen d) then kHeaderSize else 0) = reserve off (blen d).
Proof.
  intros Ho Hb He. rewrite reserve_room by blia. unfold exact_fit.
  pose proof (skip_range off). pose proof (room_range off).
  destruct He as [b off d Hr|b off d bs Hr He].
  - rewrite (proj2 (Z.ltb_ge 0 _)) by (unfold spill; lia). cbn [andb].
    rewrite (proj2 (Z.leb_le _ _)) by (unfold spill; lia).
    rewrite blen_app, blen_zeros, blen_frag by lia. klia.
  - apply emits_block_length in He; [|apply next_room_mod|klia]. cbv zeta in He.
    assert (blen (drop (Z.to_nat (room off - kHeaderSize)) d) = spill off (blen d)) as El
      by (unfold spill; klia).
    rewrite El in He.
    rewrite (proj2 (Z.ltb_lt 0 _)) by (unfold spill; lia). cbn [andb].
    rewrite (proj2 (Z.leb_gt _ _)) by (unfold spill; lia).
    unfold ComputeRecordSize. rewrite u64_small.
    + rewrite !blen_app, blen_zeros, blen_frag, blen_take by lia. klia.
    + assert (0 <= spill off (blen d) <= blen d + kHeaderSize) by (unfold spill; lia).
      pose proof (Z.div_mod (spill off (blen d)) (kBlockSize - kHeaderSize) ltac:(done)).
      pose proof (Z.mod_pos_bound (spill off (blen d)) (kBlockSize - kHeaderSize) ltac:(done)).
      klia.
Qed.

(** ** The reader *)

(** Reduces the fields of an updated reader, and nothing else. *)
Ltac rcbn :=
  cbn [set_buffer set_eof set_last set_end new file_ reporter_ checksum_ buffer_ eof_
       last_record_offset_ end_of_buffer_offset_ initial_offset_] in *.

(** The reader stands at offset [off] of the file, with [R] left to read. *)
Record at_pos (r : Reader bytes) (off : Z) (R : bytes) : Prop := {
  ap_initial : initial_offset_ r = 0;
  ap_rest : buffer_ r ++ file_ r = R;
  ap_off : 0 <= off /\ off + blen R < 2 ^ 64;
  ap_end : end_of_buffer_offset_ r = off + blen (buffer_ r);
  ap_block : off mod kBlockSize + blen (buffer_ r) <= kBlockSize;
  ap_eof : eof_ r = true -> file_ r = [];
  ap_not_eof : eof_ r = false -> (off + blen (buffer_ r)) mod kBlockSize = 0;
}.

Lemma at_pos_new file checksum :
  blen file < 2 ^ 64 -> at_pos (new file true checksum 0) 0 file.
Proof. intros. constructor; unfold new; cbn; try done; blia. Qed.

(** The fields the physical reader leaves alone when nothing is dropped. *)
Definition same_client (r r' : Reader bytes) : Prop :=
  reporter_ r' = reporter_ r /\ checksum_ r' = checksum_ r /\
  last_record_offset_ r' = last_record_offset_ r.

Lemma same_client_refl r : same_client r r.
Proof. done. Qed.
Lemma same_client_trans r1 r2 r3 : same_client r1 r2 -> same_client r2 r3 -> same_client r1 r3.
Proof. unfold same_client. intuition congruence. Qed.
#[export] Hint Resolve same_client_refl same_client_trans : pebbles.

Lemma mem_Read (f : bytes) n : Read f n = (drop (Z.to_nat n) f, (OK, take (Z.to_nat n) f)).
Proof. done. Qed.

(** At the end of a block (or in its trailer) the reader fetches the next one. *)
Lemma refill r off z R res :
  at_pos r off (z ++ R) -> eof_ r = false -> buffer_ r = z -> blen z < kHeaderSize ->
  exists r', ReadPhysicalRecord_step res r = inl r' /\ at_pos r' (off + blen z) R /\
    same_client r r' /\ buffer_ r' = take (Z.to_nat kBlockSize) R /\
    (eof_ r' = true <-> blen R < kBlockSize).
Proof.
  intros [Hi Hr Ho He Hb Hf Hn] Hne Hz Hl. subst z. apply (inj _) in Hr. subst R.
  specialize (Hn Hne). unfold ReadPhysicalRecord_step.
  rewrite (proj2 (Z.ltb_lt _ _)), Hne by done. rewrite mem_Read.
  set (nB := Z.to_nat kBlockSize). assert (Z.of_nat nB = kBlockSize) by (by apply Z2Nat.id).
  clearbody nB. set (buf := take _ _). cbn [negb ok OK]. cbv zeta.
  assert (blen buf = Z.min kBlockSize (blen (file_ r))) as Hbuf by (unfold buf; rewrite blen_take; klia).
  set (e := u64 _).
  assert (e = off + blen (buffer_ r) + blen buf) as He'.
  { unfold e. rewrite He. apply u64_small. rewrite blen_app in Ho. klia. }
  pose proof (block_mod_range (off + blen (buffer_ r))).
  rewrite blen_app in Ho.
  assert (Hbuf0 : off + blen (buffer_ r) + blen buf + blen (drop nB (file_ r))
                  < 2 ^ 64) by klia.
  clearbody e. subst e.
  destruct (Z.ltb_spec (blen buf) kBlockSize);
    (eexists; split; [reflexivity|]); rcbn; (split; [|split; [done|split; [done|]]]).
  - constructor; rcbn; [exact Hi|apply take_drop|klia|lia|rewrite Hn; lia| |congruence].
    intros _. apply drop_blen. klia.
  - split; [|done]. klia.
  - constructor; rcbn; [exact Hi|apply take_drop|klia|lia|rewrite Hn; lia|congruence|].
    intros _. replace (blen buf) with kBlockSize by lia.
    rewrite <- Zplus_mod_idemp_r, Z_mod_same_full, Z.add_0_r. done.
  - rewrite Hne. split; [done|klia].
Qed.

(** The fields of a header, followed by anything. *)
Lemma header_checksum t p x :
  bytes_ok p -> is_u8 t -> blen p < 65536 ->
  Unmask (DecodeFixed32 (header t p ++ x)) = Value (t :: p).
Proof.
  intros Hp Ht Hl. unfold header, type_crc, Value. rewrite <- app_assoc, (u8_small t) by done.
  assert (is_u32 0) by ulia.
  rewrite DecodeFixed32_encode by apply Mask_range.
  rewrite Extend_app by (auto with pebbles; blia).
  apply Unmask_Mask, Extend_range; [done|by constructor|blia].
Qed.

Lemma header_fields t p x :
  is_u8 t -> blen p < 65536 ->
  at_ (header t p ++ x) 6 = t /\
  Z.lor (at_ (header t p ++ x) 4) (Z.shiftl (at_ (header t p ++ x) 5) 8) = blen p /\
  drop 6 (header t p ++ x) = t :: x.
Proof.
  intros Ht Hp. unfold header. set (c := EncodeFixed32 _).
  assert (exists a b d e, c = [a; b; d; e]) as (a & b & d & e & ->) by (repeat eexists).
  rewrite (u8_small t) by done. change (at_ (_ ++ x) 6) with t.
  change (at_ (_ ++ x) 4) with (u8 (Z.land (blen p) 255)).
  change (at_ (_ ++ x) 5) with (u8 (Z.shiftr (blen p) 8)).
  split; [done|]. split; [|done]. rewrite land_ff, Z.shiftr_div_pow2 by lia.
  pose proof (blen_nonneg p). rewrite lor_shiftl_add; [dlia|lia|apply Z.mod_pos_bound; lia].
Qed.

Lemma header_sub t p q :
  is_u8 t -> blen p < 65536 -> sub (header t p ++ p ++ q) 6 (1 + blen p) = t :: p.
Proof.
  intros Ht Hp. destruct (header_fields t p (p ++ q)) as (_ & _ & Hd); [done|done|].
  unfold sub. change (Z.to_nat 6) with 6%nat. rewrite Hd.
  replace (Z.to_nat (1 + blen p)) with (S (length p)) by ulia. cbn [take].
  by rewrite take_app_length.
Qed.
Lemma header_drop t p q : drop (Z.to_nat (kHeaderSize + blen p)) (header t p ++ p ++ q) = q.
Proof.
  rewrite app_assoc. apply drop_app_length'. rewrite length_app, header_length.
  change kHeaderSize with 7. ulia.
Qed.
Lemma header_payload t p q : sub (header t p ++ p ++ q) kHeaderSize (blen p) = p.
Proof.
  unfold sub. rewrite drop_app_length' by done. apply take_app_length'. ulia.
Qed.

(** A whole physical record in the buffer is parsed and consumed. *)
Lemma parse_frag r off t p R res :
  at_pos r off (frag t p ++ R) -> bytes_ok p -> 1 <= t <= 4 ->
  kHeaderSize + blen p <= blen (buffer_ r) ->
  exists r', ReadPhysicalRecord_step res r = inr (t, p, r') /\
    at_pos r' (off + kHeaderSize + blen p) R /\ same_client r r'.
Proof.
  intros [Hi Hr Ho He Hb Hf Hn] Hp Ht Hl.
  pose proof (block_mod_range off).
  assert (exists q, buffer_ r = frag t p ++ q /\ q ++ file_ r = R) as (q & Hq & <-).
  { apply app_eq_inv in Hr as [(k & Hk & ?)|(k & Hk & ?)]; [by exists k|].
    assert (k = []) as -> by (apply blen_0; apply (f_equal blen) in Hk; klia).
    exists []. rewrite app_nil_r in Hk |- *. by subst. }
  assert (blen p < 65536) as Hp' by klia.
  destruct (header_fields t p (p ++ q)) as (H6 & H45 & Hd); [ulia|done|].
  unfold ReadPhysicalRecord_step. rewrite (proj2 (Z.ltb_ge _ kHeaderSize)) by klia.
  unfold frag in Hq. rewrite <- app_assoc in Hq. rewrite Hq, H6, H45.
  assert (u32 (schar t) = t) as ->.
  { unfold schar. rewrite (proj2 (Z.ltb_lt t 128)) by lia. apply u32_small. ulia. }
  rewrite (proj2 (Z.ltb_ge _ (kHeaderSize + blen p))) by (rewrite !blen_app; klia).
  rewrite (proj2 (Z.eqb_neq t kZeroType)) by (change kZeroType with 0; lia).
  rewrite (header_sub t p q), (header_checksum t p) by (done || ulia).
  rewrite Z.eqb_refl, andb_false_r. cbn [andb negb]. rcbn.
  rewrite (header_drop t p q), (header_payload t p q), Hi.
  rewrite (proj2 (Z.ltb_ge _ 0)) by apply u64_range.
  eexists. split; [reflexivity|]. split; [|done].
  assert (blen (buffer_ r) = 7 + blen p + blen q) as Hlen by (rewrite Hq; klia).
  rewrite Hlen in *. clear Hq H45 H6 Hd Hlen Hr.
  constructor; rcbn; [done|done|klia|klia| |done|].
  - rewrite <- Z.add_assoc, <- Zplus_mod_idemp_l.
    pose proof (Z.mod_le (off mod kBlockSize + (kHeaderSize + blen p)) kBlockSize). klia.
  - intros E. rewrite <- (Hn E). f_equal. klia.
Qed.

(** While there is more to fetch, the buffer ends with its block. *)
Lemma at_pos_buffer r off R :
  at_pos r off R -> eof_ r = false ->
  blen (buffer_ r) = kBlockSize - off mod kBlockSize \/
  (buffer_ r = [] /\ off mod kBlockSize = 0).
Proof.
  intros [_ _ _ _ Hb _ Hn] E. specialize (Hn E). rewrite <- Zplus_mod_idemp_l in Hn.
  pose proof (block_mod_range off). pose proof (blen_nonneg (buffer_ r)).
  destruct (Z.eq_dec (off mod kBlockSize + blen (buffer_ r)) kBlockSize); [left; lia|right].
  rewrite Z.mod_small in Hn by lia. split; [apply blen_0; lia|lia].
Qed.

Lemma ReadPhysicalRecord_step2 res r r' x :
  ReadPhysicalRecord_step res r = inl r' -> ReadPhysicalRecord_step res r' = inr x ->
  ReadPhysicalRecord res r = Some x.
Proof. intros E1 E2. unfold ReadPhysicalRecord. cbn [ReadPhysicalRecord_loop]. by rewrite E1, E2. Qed.
Lemma ReadPhysicalRecord_step1 res r x :
  ReadPhysicalRecord_step res r = inr x -> ReadPhysicalRecord res r = Some x.
Proof. intros E1. unfold ReadPhysicalRecord. cbn [ReadPhysicalRecord_loop]. by rewrite E1. Qed.

(** The buffer holds the next record already, or is spent up to the trailer. *)
Lemma buffer_cases r off x R :
  at_pos r off (zeros (skip off) ++ x ++ R) ->
  kHeaderSize <= blen x <= room off ->
  (skip off = 0 /\ blen x <= blen (buffer_ r)) \/
  (eof_ r = false /\ buffer_ r = zeros (skip off)).
Proof.
  intros Ha Hx. pose proof (at_pos_buffer _ _ _ Ha) as Hbuf.
  destruct Ha as [_ Hr _ _ Hb Hf _].
  pose proof (skip_range off). pose proof (skip_mod off) as Hs. pose proof (block_mod_range off).
  pose proof (f_equal blen Hr) as Hlen. rewrite !blen_app, blen_zeros in Hlen by lia.
  destruct (eof_ r).
  { left. rewrite Hf, blen_nil in Hlen by done.
    destruct (Z.eq_dec (skip off) 0); klia. }
  destruct (Z.eq_dec (skip off) 0) as [Hs0|Hs0].
  - destruct (Hbuf eq_refl) as [Hbl|[Hbl ?]].
    + left. split; [done|]. unfold room in Hx. rewrite Hs0, Z.add_0_r in Hx. lia.
    + right. by rewrite Hs0.
  - right. split; [done|]. specialize (Hs Hs0).
    destruct (Hbuf eq_refl) as [Hbl|[Hbl ?]]; [|klia].
    apply (f_equal (take (length (buffer_ r)))) in Hr. rewrite take_app_length in Hr.
    rewrite Hr, take_app_length'; [done|].
    unfold zeros. rewrite length_replicate. klia.
Qed.

Lemma phys_frag r off t p R res :
  at_pos r off (zeros (skip off) ++ frag t p ++ R) -> bytes_ok p -> 1 <= t <= 4 ->
  kHeaderSize + blen p <= room off ->
  exists r', ReadPhysicalRecord res r = Some (t, p, r') /\
    at_pos r' (off + skip off + kHeaderSize + blen p) R /\ same_client r r'.
Proof.
  intros Ha Hp Ht Hl. pose proof (skip_range off). pose proof (room_range off).
  destruct (buffer_cases _ _ _ _ Ha) as [[Hs Hb]|[He Hb]]; [rewrite blen_frag; klia| |].
  - rewrite Hs, zeros_0, ?Z.add_0_r in *.
    destruct (parse_frag r off t p R res) as (r' & E & ?); [done..|rewrite blen_frag in Hb; klia|].
    exists r'. split; [by apply ReadPhysicalRecord_step1|done].
  - destruct (refill r off (zeros (skip off)) (frag t p ++ R) res) as (r1 & E1 & Ha1 & Hc1 & Hb1 & _);
      [done..|rewrite blen_zeros; lia|].
    rewrite blen_zeros in Ha1 by lia.
    destruct (parse_frag r1 (off + skip off) t p R res) as (r' & E & ? & ?); [done..| |].
    { rewrite Hb1, blen_take, blen_app, blen_frag. klia. }
    exists r'. split; [by eapply ReadPhysicalRecord_step2|]. eauto with pebbles.
Qed.

(** The locals of [ReadRecord] before the fragment that starts ([b]) or continues
    a record. *)
Definition rr_ok (b : bool) (st : rr_state) : Prop :=
  in_fragmented_record st = negb b /\ (b = true -> scratch st = []) /\
  0 <= prospective_record_offset st.

Lemma rr_step_more b st r r' p :
  rr_ok b st -> ReadPhysicalRecord (fragment st) r = Some (record_type b false, p, r') ->
  exists st', ReadRecord_step st r = Some (inl (st', r')) /\
    rr_ok false st' /\ scratch st' = scratch st ++ p.
Proof.
  intros (Hf & Hs & Hp) E. unfold ReadRecord_step. rewrite E, Hf.
  destruct b; cbn.
  - rewrite Hs by done. eexists. split; [done|]. split; [|done].
    split; [done|]. split; [done|]. cbn. apply u64_range.
  - eexists. split; [done|]. done.
Qed.

Lemma rr_step_last b st r r' p :
  rr_ok b st -> ReadPhysicalRecord (fragment st) r = Some (record_type b true, p, r') ->
  exists o, 0 <= o /\ ReadRecord_step st r = Some (inr (Some (scratch st ++ p), set_last o r')).
Proof.
  intros (Hf & Hs & Hp) E. unfold ReadRecord_step. rewrite E, Hf. destruct b; cbn.
  - rewrite Hs by done. eexists. split; [|done]. apply u64_range.
  - by eexists.
Qed.

Lemma at_pos_last r off R o : at_pos r off R -> at_pos (set_last o r) off R.
Proof. intros []. by constructor. Qed.

Lemma record_type_range b e : 1 <= record_type b e <= 4.
Proof. by destruct b, e. Qed.

(** A reader at the start of what the writer emitted reads the record back. *)
Lemma read_emits b off d bs :
  emits b off d bs -> forall r R st fuel,
  at_pos r off (bs ++ R) -> bytes_ok d -> rr_ok b st -> (length bs <= fuel)%nat ->
  exists r', ReadRecord_loop fuel st r = Some (Some (scratch st ++ d), r') /\
    at_pos r' (off + blen bs) R /\ reporter_ r' = reporter_ r /\ 0 <= last_record_offset_ r'.
Proof.
  induction 1 as [b off d Hr|b off d bs Hr He IH]; intros r R st fuel Ha Hd Hst Hf.
  - rewrite <- app_assoc in Ha.
    destruct (phys_frag _ _ _ _ _ (fragment st) Ha Hd (record_type_range _ _) Hr)
      as (r' & E & Ha' & Hc).
    destruct fuel as [|fuel]; [rewrite length_app in Hf; cbn in Hf; lia|].
    destruct (rr_step_last _ _ _ _ _ Hst E) as (o & Ho & Es).
    exists (set_last o r'). cbn [ReadRecord_loop]. rewrite Es. split; [done|].
    split; [|split; [apply Hc|done]].
    pose proof (skip_range off). apply at_pos_last.
    rewrite blen_app, blen_zeros, blen_frag by lia. change 7 with kHeaderSize. by rewrite !Z.add_assoc.
  - pose proof (room_range off). pose proof (skip_range off).
    rewrite <- !app_assoc in Ha.
    edestruct (phys_frag _ _ _ _ _ (fragment st) Ha) as (r1 & E & Ha' & Hc);
      [auto with pebbles|apply record_type_range|klia|].
    destruct fuel as [|fuel]; [rewrite length_app in Hf; cbn in Hf; lia|].
    destruct (rr_step_more _ _ _ _ _ Hst E) as (st' & Es & Hst' & Hsc).
    assert (off + skip off + kHeaderSize + blen (take (Z.to_nat (room off - kHeaderSize)) d) =
            off + skip off + room off) as Eo by klia.
    rewrite Eo in Ha'.
    destruct (IH r1 R st' fuel Ha') as (r' & El & Ha2 & Hrep & Hlast);
      [auto with pebbles|done| |].
    { rewrite !length_app in Hf. cbn in Hf. lia. }
    exists r'. cbn [ReadRecord_loop]. rewrite Es, El, Hsc, <- app_assoc, take_drop.
    split; [done|]. split; [|split; [|done]].
    + rewrite !blen_app, blen_zeros, blen_frag by lia. change 7 with kHeaderSize.
      by rewrite !Z.add_assoc, Eo.
    + rewrite Hrep. apply Hc.
Qed.

(** ** A log that ends early *)

(** The last bytes of the file are a proper prefix of a physical record: the
    reader takes them for the end of the log. *)
Lemma parse_torn r off t p k res :
  at_pos r off (take k (frag t p)) -> eof_ r = true -> is_u8 t -> blen p < 65536 ->
  Z.of_nat k < kHeaderSize + blen p ->
  exists r', ReadPhysicalRecord_step res r = inr (kEof, res, r') /\ same_client r r'.
Proof.
  intros [Hi Hr Ho He Hb Hf Hn] E Ht Hp Hk.
  rewrite Hf, app_nil_r in Hr by done. unfold ReadPhysicalRecord_step. rewrite E.
  destruct (Z.ltb_spec (blen (buffer_ r)) kHeaderSize) as [|Hl]; [by eexists|].
  assert (exists x, buffer_ r = header t p ++ x) as [x Hx].
  { rewrite Hr. unfold frag. rewrite take_app_ge; [by eexists|].
    rewrite Hr in Hl. rewrite header_length. klia. }
  assert (blen (buffer_ r) < kHeaderSize + blen p) as Hs by (rewrite Hr; klia).
  rewrite Hx in *. destruct (header_fields t p x) as (_ & -> & _); [done..|].
  rewrite (proj2 (Z.ltb_lt _ _) Hs). cbn [set_buffer eof_]. rewrite E. by eexists.
Qed.

Lemma phys_torn r off t p k res :
  at_pos r off (take k (zeros (skip off) ++ frag t p)) -> is_u8 t ->
  kHeaderSize + blen p <= room off -> Z.of_nat k < skip off + kHeaderSize + blen p ->
  exists r', ReadPhysicalRecord res r = Some (kEof, res, r') /\ same_client r r'.
Proof.
  intros Ha Ht Hl Hk. pose proof (skip_range off). pose proof (room_range off).
  pose proof (skip_mod off) as Hs. pose proof (block_mod_range off).
  pose proof (blen_nonneg p) as Hp0.
  assert (blen p < 65536) as Hp by klia.
  destruct (eof_ r) eqn:E.
  - pose proof (ap_rest _ _ _ Ha) as Hr. rewrite (ap_eof _ _ _ Ha), app_nil_r in Hr by done.
    pose proof (ap_block _ _ _ Ha).
    destruct (Z.ltb_spec (blen (buffer_ r)) kHeaderSize) as [Hb|Hb].
    + exists (set_buffer [] r). split; [|done]. apply ReadPhysicalRecord_step1.
      unfold ReadPhysicalRecord_step. by rewrite (proj2 (Z.ltb_lt _ _) Hb), E.
    + assert (skip off = 0) as Hs0 by (destruct (Z.eq_dec (skip off) 0); klia).
      rewrite Hs0, zeros_0 in Ha.
      destruct (parse_torn r off t p k res) as (r' & Er & ?); [done..|lia|].
      exists r'. split; [by apply ReadPhysicalRecord_step1|done].
  - pose proof (ap_rest _ _ _ Ha) as Hr. pose proof (f_equal blen Hr) as Hlen.
    rewrite blen_take, !blen_app, blen_zeros, blen_frag in Hlen by lia.
    assert (buffer_ r = take (Z.to_nat (skip off)) (buffer_ r ++ file_ r) /\
            blen (buffer_ r) = skip off) as [Hb Hbl].
    { destruct (at_pos_buffer _ _ _ Ha E) as [Hb|[Hb Hm]].
      - destruct (Z.eq_dec (skip off) 0) as [Hs0|Hs0].
        + unfold room in *. rewrite Hs0, Z.add_0_r in *. klia.
        + split; [|klia]. rewrite take_app_length'; [done|]. klia.
      - rewrite skip_block, Hb by done. done. }
    rewrite Hr, take_take, Nat.min_l in Hb by klia.
    set (n := Z.to_nat (skip off)) in *.
    assert (length (zeros (skip off)) = n) as Hzn by (unfold zeros; by rewrite length_replicate).
    assert (n <= k)%nat by (unfold n; klia).
    rewrite take_app_length' in Hb by done. rewrite take_app_ge, Hzn in Ha by lia.
    set (j := (k - n)%nat) in *.
    destruct (refill r off (zeros (skip off)) (take j (frag t p)) res)
      as (r1 & E1 & Ha1 & Hc1 & _ & He1); [done..|rewrite blen_zeros; lia|].
    destruct (parse_torn r1 (off + blen (zeros (skip off))) t p j res) as (r' & Er & ?);
      [done|apply He1; klia|done|done|unfold j, n; klia|].
    exists r'. split; [by eapply ReadPhysicalRecord_step2|eauto with pebbles].
Qed.

Lemma record_type_u8 b e : is_u8 (record_type b e).
Proof. pose proof (record_type_range b e). ulia. Qed.
#[export] Hint Resolve record_type_u8 : pebbles.

Lemma rr_step_eof st r r' :
  ReadPhysicalRecord (fragment st) r = Some (kEof, fragment st, r') ->
  ReadRecord_step st r = Some (inr (None, r')).
Proof. intros E. unfold ReadRecord_step. by rewrite E. Qed.

(** A proper prefix of what the writer emitted: no record, nothing reported. *)
Lemma read_torn b off d bs :
  emits b off d bs -> forall r st k fuel,
  at_pos r off (take k bs) -> (k < length bs)%nat -> bytes_ok d -> rr_ok b st ->
  (length bs <= fuel)%nat ->
  exists r', ReadRecord_loop fuel st r = Some (None, r') /\ reporter_ r' = reporter_ r.
Proof.
  induction 1 as [b off d Hr|b off d bs Hr He IH]; intros r st k fuel Ha Hk Hd Hst Hf;
    pose proof (room_range off); pose proof (skip_range off);
    (destruct fuel as [|fuel]; [lia|]); cbn [ReadRecord_loop].
  - destruct (phys_torn _ _ _ _ _ (fragment st) Ha) as (r' & E & Hc); [auto with pebbles|done| |].
    + apply Nat2Z.inj_lt in Hk. fold (blen (zeros (skip off) ++ frag (record_type b true) d)) in Hk.
      rewrite blen_app, blen_zeros, blen_frag in Hk by lia. klia.
    + exists r'. rewrite (rr_step_eof _ _ _ E). split; [done|apply Hc].
  - rewrite app_assoc in *. set (x := zeros _ ++ frag _ _) in *.
    assert (blen x = skip off + room off) as Hx.
    { unfold x. rewrite blen_app, blen_zeros by lia. klia. }
    rewrite length_app in Hk, Hf.
    destruct (Nat.lt_ge_cases k (length x)) as [Hkx|Hkx].
    + rewrite take_app_le in Ha by lia.
      edestruct (phys_torn _ _ _ _ _ (fragment st) Ha) as (r' & E & Hc); [auto with pebbles|klia| |].
      * unfold blen in Hx. rewrite blen_take. klia.
      * exists r'. rewrite (rr_step_eof _ _ _ E). split; [done|apply Hc].
    + rewrite take_app_ge in Ha by lia. unfold x in Ha at 1. rewrite <- app_assoc in Ha.
      edestruct (phys_frag _ _ _ _ _ (fragment st) Ha) as (r1 & E & Ha' & Hc);
        [auto with pebbles|apply record_type_range|klia|].
      destruct (rr_step_more _ _ _ _ _ Hst E) as (st' & -> & Hst' & Hsc).
      assert (off + skip off + kHeaderSize + blen (take (Z.to_nat (room off - kHeaderSize)) d) =
            off + skip off + room off) as Eo by klia.
      rewrite Eo in Ha'.
      destruct (IH r1 st' (k - length x)%nat fuel) as (r' & -> & Hrep);
        [done|lia|auto with pebbles|done|unfold blen in Hx; klia|].
      exists r'. split; [done|]. rewrite Hrep. apply Hc.
Qed.

Definition rr_init : rr_state :=
  {| scratch := []; in_fragmented_record := false; prospective_record_offset := 0; fragment := [] |}.

Lemma ReadRecord_run (r : Reader bytes) fuel :
  initial_offset_ r = 0 -> 0 <= last_record_offset_ r ->
  ReadRecord fuel r = ReadRecord_loop fuel rr_init r.
Proof. intros Hi Hl. unfold ReadRecord. by rewrite Hi, (proj2 (Z.ltb_ge _ 0)). Qed.

Lemma rr_init_ok : rr_ok true rr_init.
Proof. done. Qed.

Lemma ReadRecord_end r off fuel :
  at_pos r off [] -> 0 <= last_record_offset_ r ->
  exists r', ReadRecord (S fuel) r = Some (None, r') /\ reporter_ r' = reporter_ r.
Proof.
  intros Ha Hl. rewrite ReadRecord_run by (done || apply Ha). cbn [ReadRecord_loop].
  destruct (phys_torn r off kFullType [] 0 (fragment rr_init)) as (r' & E & Hc); [done|done| | |].
  - apply room_range.
  - pose proof (skip_range off). klia.
  - exists r'. rewrite (rr_step_eof _ _ _ E). split; [done|apply Hc].
Qed.

(** ** Whole logs *)

(** Appending records one after the other, and reading until [ReadRecord] returns
    false, as [DBImpl::RecoverLogFile] does. *)
Fixpoint write_all (f : bytes) (off : Z) (recs : list bytes) : option (bytes * Z) :=
  match recs with
  | [] => Some (f, off)
  | d :: recs =>
      match AddRecord f off d with
      | Some (f, s, off) => if ok s then write_all f off recs else None
      | None => None
      end
  end.

Fixpoint read_all (n fuel : nat) (r : Reader bytes) : option (list bytes * Reader bytes) :=
  match n with
  | O => None
  | S n =>
      match ReadRecord fuel r with
      | Some (Some d, r) =>
          match read_all n fuel r with Some (ds, r) => Some (d :: ds, r) | None => None end
      | Some (None, r) => Some ([], r)
      | None => None
      end
  end.

(** The log stays below 4 GiB and no record fills its last block exactly. *)
Fixpoint placed (off : Z) (recs : list bytes) : bool :=
  match recs with
  | [] => off <? 2 ^ 32
  | d :: recs =>
      (off + blen d + kBlockSize <? 2 ^ 32) && negb (exact_fit off (blen d)) &&
      placed (reserve off (blen d)) recs
  end.

(** The number of records that lie in the first [k] bytes of the log. *)
Fixpoint complete (off : Z) (recs : list bytes) (k : Z) : nat :=
  match recs with
  | [] => 0
  | d :: recs =>
      let off := reserve off (blen d) in
      if off <=? k then S (complete off recs k) else 0
  end.

(** The bytes of records that follow each other without holes. *)
Inductive logs : Z -> list bytes -> bytes -> Prop :=
| logs_nil off : logs off [] []
| logs_cons off d recs bs bs' :
    emits true off d bs -> reserve off (blen d) = off + blen bs ->
    logs (off + blen bs) recs bs' -> logs off (d :: recs) (bs ++ bs').

Lemma write_all_logs recs f :
  placed (blen f) recs = true ->
  exists bs, logs (blen f) recs bs /\ blen f + blen bs < 2 ^ 32 /\
    write_all f (blen f) recs = Some (f ++ bs, blen f + blen bs).
Proof.
  revert f. induction recs as [|d recs IH]; intros f Hp.
  { apply Z.ltb_lt in Hp. exists []. split; [constructor|]. cbn [write_all].
    rewrite app_nil_r, blen_nil, Z.add_0_r. done. }
  cbn [placed] in Hp. apply andb_prop in Hp as [Hp Hp']. apply andb_prop in Hp as [Hb Hx].
  apply Z.ltb_lt in Hb. apply negb_true_iff in Hx.
  destruct (AddRecord_mem f d) as (bs & He & Hw); [klia|].
  pose proof (emits_reserve _ _ _ _ (blen_nonneg f) Hb He) as Hres. rewrite Hx, Z.add_0_r in Hres.
  rewrite <- Hres, <- blen_app in Hp'.
  destruct (IH (f ++ bs) Hp') as (bs' & Hl & Hsz & Hw').
  exists (bs ++ bs'). split; [|split].
  - econstructor; [done|done|by rewrite <- blen_app].
  - klia.
  - cbn [write_all]. rewrite Hw. cbn [ok OK]. rewrite <- Hres, <- blen_app, Hw'.
    rewrite <- app_assoc, !blen_app. by rewrite Z.add_assoc.
Qed.

Lemma read_all_step n fuel r d r1 ds r2 :
  ReadRecord fuel r = Some (Some d, r1) -> read_all n fuel r1 = Some (ds, r2) ->
  read_all (S n) fuel r = Some (d :: ds, r2).
Proof. intros E1 E2. cbn [read_all]. by rewrite E1, E2. Qed.

Lemma emits_nonempty b off d bs : emits b off d bs -> 0 < blen bs.
Proof. pose proof (skip_range off). destruct 1; unfold zeros; klia. Qed.

(** Reading at a record of a log cut after [k] bytes: the record when it lies in them,
    else the end of the log. *)
Lemma read_record off d bs bs' r k fuel :
  emits true off d bs -> at_pos r off (take (Z.to_nat (k - off)) (bs ++ bs')) ->
  0 <= last_record_offset_ r -> bytes_ok d -> (length bs < fuel)%nat ->
  exists r', reporter_ r' = reporter_ r /\
    if off + blen bs <=? k
    then ReadRecord fuel r = Some (Some d, r') /\ 0 <= last_record_offset_ r' /\
         at_pos r' (off + blen bs) (take (Z.to_nat (k - (off + blen bs))) bs')
    else ReadRecord fuel r = Some (None, r').
Proof.
  intros He Ha Hlast Hd Hf. pose proof (ap_off _ _ _ Ha) as [Ho _]. pose proof (emits_nonempty _ _ _ _ He).
  destruct (Z.leb_spec (off + blen bs) k) as [Hk|Hk].
  - rewrite take_app_ge in Ha by ulia.
    destruct (read_emits _ _ _ _ He r _ rr_init fuel Ha Hd rr_init_ok ltac:(lia))
      as (r1 & E & Ha1 & Hrep & Hlast1).
    rewrite <- ReadRecord_run in E by (done || apply Ha). exists r1. split_and!; [done|done|done|].
    by replace (Z.to_nat (k - (off + blen bs))) with (Z.to_nat (k - off) - length bs)%nat by ulia.
  - rewrite take_app_le in Ha by ulia.
    destruct (read_torn _ _ _ _ He r rr_init (Z.to_nat (k - off)) fuel) as (r' & E & Hrep);
      [done|ulia|done|apply rr_init_ok|lia|].
    exists r'. split; [done|]. rewrite ReadRecord_run by (done || apply Ha). by rewrite E.
Qed.
(** Reading a log cut after [k] bytes. *)
Lemma read_logs off recs bs :
  logs off recs bs -> forall r k fuel,
  at_pos r off (take (Z.to_nat (k - off)) bs) -> 0 <= last_record_offset_ r ->
  Forall bytes_ok recs -> (length bs < fuel)%nat ->
  exists r', read_all (S (length recs)) fuel r = Some (take (complete off recs k) recs, r') /\
    reporter_ r' = reporter_ r.
Proof.
  induction 1 as [off|off d recs bs bs' He Hres Hl IH]; intros r k fuel Ha Hlast Hok Hf.
  - rewrite take_nil in Ha. destruct fuel as [|fuel]; [lia|].
    destruct (ReadRecord_end r off fuel Ha Hlast) as (r' & E & ?).
    exists r'. cbn [length read_all]. rewrite E. by rewrite take_nil.
  - inversion_clear Hok as [|?? Hd Hok']. rewrite length_app in Hf.
    destruct (read_record off d bs bs' r k fuel He Ha Hlast Hd ltac:(lia)) as (r1 & Hrep & H).
    cbn [complete length]. rewrite Hres. destruct (_ <=? k).
    + destruct H as (E & Hlast1 & Ha1). destruct (IH r1 k fuel Ha1 Hlast1 Hok' ltac:(lia)) as (r' & E' & Hrep').
      exists r'. split; [|congruence]. by eapply read_all_step.
    + exists r1. cbn [read_all]. by rewrite H.
Qed.

Lemma complete_all off recs bs k :
  logs off recs bs -> off + blen bs <= k -> complete off recs k = length recs.
Proof.
  intros H. induction H as [|off d recs bs bs' He Hres Hl IH]; intros Hk; [done|].
  cbn [complete length]. rewrite Hres.
  rewrite (proj2 (Z.leb_le _ _)) by blia. rewrite IH by blia. done.
Qed.

(** ** The reader terminates on every file *)

(** Bytes still to be consumed. *)
Definition unread (r : Reader bytes) : nat := length (buffer_ r) + length (file_ r).

Lemma ReportDrop_frame {F} n s (r : Reader F) :
  file_ (ReportDrop n s r) = file_ r /\ buffer_ (ReportDrop n s r) = buffer_ r.
Proof. unfold ReportDrop. destruct (reporter_ r); [case_bool|]; done. Qed.

Lemma unread_report n s r : unread (ReportDrop n s r) = unread r.
Proof. unfold unread. by destruct (ReportDrop_frame n s r) as [-> ->]. Qed.
Lemma unread_corruption n s r : unread (ReportCorruption n s r) = unread r.
Proof. apply unread_report. Qed.

(** A buffer with a whole header is always decided in this round. *)
Lemma parse_total {F} {HF : SequentialFile F} res (r : Reader F) :
  kHeaderSize <= blen (buffer_ r) -> bytes_ok (buffer_ r) ->
  exists t p r', ReadPhysicalRecord_step res r = inr (t, p, r') /\
    file_ r' = file_ r /\ bytes_ok (buffer_ r') /\
    (length (buffer_ r') < length (buffer_ r))%nat.
Proof.
  intros Hl Hb. unfold ReadPhysicalRecord_step. rewrite (proj2 (Z.ltb_ge _ _) Hl).
  set (n := Z.lor _ _). assert (0 < length (buffer_ r))%nat by (change kHeaderSize with 7 in *; ulia).
  assert (bytes_ok []) by constructor.
  destruct (_ <? kHeaderSize + n).
  { destruct (negb _); do 3 eexists; (split; [done|]); [|done].
    unfold ReportCorruption. destruct (ReportDrop_frame (blen (buffer_ r))
      (Corruption (str "bad record length")) (set_buffer [] r)) as [-> ->]. done. }
  destruct (_ && _); [do 3 eexists; split; done|].
  destruct (_ && _).
  { do 3 eexists. split; [done|]. unfold ReportCorruption. destruct (ReportDrop_frame
      (blen (buffer_ r)) (Corruption (str "checksum mismatch")) (set_buffer [] r)) as [-> ->]. done. }
  assert (0 < Z.to_nat (kHeaderSize + n))%nat as Hn.
  { pose proof (at_range (buffer_ r) 4 Hb). pose proof (at_range (buffer_ r) 5 Hb).
    unfold n. rewrite lor_shiftl_add by (done || ulia). change kHeaderSize with 7. ulia. }
  destruct (_ <? _); do 3 eexists; (split; [reflexivity|]); rcbn;
    (split; [done|]); (split; [auto with pebbles|]); rewrite length_drop; lia.
Qed.

(** Contents of the buffer and of the file are bytes. *)
Definition readable (r : Reader bytes) : Prop := bytes_ok (buffer_ r) /\ bytes_ok (file_ r).

Lemma readable_report n s r : readable r -> readable (ReportDrop n s r).
Proof. unfold readable. by destruct (ReportDrop_frame n s r) as [-> ->]. Qed.

Lemma phys_total res r :
  readable r ->
  exists t p r', ReadPhysicalRecord res r = Some (t, p, r') /\ readable r' /\
    (t = kEof \/ (unread r' < unread r)%nat).
Proof.
  intros [Hb Hf]. destruct (Z.ltb_spec (blen (buffer_ r)) kHeaderSize) as [Hl|Hl].
  - destruct (eof_ r) eqn:E.
    { exists kEof, res, (set_buffer [] r). split; [|split; [split; [constructor|done]|by left]].
      apply ReadPhysicalRecord_step1. unfold ReadPhysicalRecord_step.
      by rewrite (proj2 (Z.ltb_lt _ _) Hl), E. }
    set (buf := take (Z.to_nat kBlockSize) (file_ r)).
    assert (exists r1, ReadPhysicalRecord_step res r = inl r1 /\ buffer_ r1 = buf /\
              file_ r1 = drop (Z.to_nat kBlockSize) (file_ r) /\
              (blen buf < kBlockSize -> eof_ r1 = true)) as (r1 & E1 & Hb1 & Hf1 & He1).
    { unfold ReadPhysicalRecord_step. rewrite (proj2 (Z.ltb_lt _ _) Hl), E, mem_Read.
      fold buf. cbn [ok OK negb]. destruct (Z.ltb_spec (blen buf) kBlockSize);
        eexists; (split; [reflexivity|]); rcbn; split_and!; try done; lia. }
    assert (readable r1) as [Hrb Hrf] by (unfold readable; rewrite Hb1, Hf1; unfold buf; auto with pebbles).
    destruct (Z.ltb_spec (blen (buffer_ r1)) kHeaderSize) as [Hl1|Hl1].
    + exists kEof, res, (set_buffer [] r1). split; [|split; [split; [constructor|done]|by left]].
      eapply ReadPhysicalRecord_step2; [done|]. unfold ReadPhysicalRecord_step.
      rewrite (proj2 (Z.ltb_lt _ _) Hl1), He1; [done|]. rewrite <- Hb1. klia.
    + destruct (parse_total res r1) as (t & p & r' & E2 & Hf2 & Hb2 & Hlt); [done..|].
      exists t, p, r'. split; [by eapply ReadPhysicalRecord_step2|].
      split; [by split; [|rewrite Hf2]|]. right.
      unfold unread. rewrite Hf2, Hf1. rewrite Hb1 in Hlt. unfold buf in Hlt.
      rewrite length_take in Hlt. rewrite length_drop. lia.
  - destruct (parse_total res r) as (t & p & r' & E2 & Hf2 & Hb2 & Hlt); [done..|].
    exists t, p, r'. split; [by eapply ReadPhysicalRecord_step1|].
    split; [by split; [|rewrite Hf2]|]. right. unfold unread. rewrite Hf2. lia.
Qed.

Lemma rr_step_total st r :
  readable r ->
  exists x, ReadRecord_step st r = Some x /\
    match x with
    | inl (_, r') => readable r' /\ (unread r' < unread r)%nat
    | inr _ => True
    end.
Proof.
  intros Hr. destruct (phys_total (fragment st) r Hr) as (t & p & r' & E & Hr' & Hd).
  unfold ReadRecord_step. rewrite E.
  destruct Hd as [->|Hd]; [by eexists|].
  repeat case_match; eexists; (split; [reflexivity|]); cbn beta iota; auto;
    unfold ReportCorruption; rewrite ?unread_report; auto using readable_report.
Qed.

Lemma ReadRecord_loop_total fuel st r :
  readable r -> (unread r < fuel)%nat -> ReadRecord_loop fuel st r <> None.
Proof.
  revert st r. induction fuel as [|fuel IH]; intros st r Hr Hf; [lia|]. cbn [ReadRecord_loop].
  destruct (rr_step_total st r Hr) as ([[st' r']|x] & -> & H); [|done].
  destruct H as [Hr' Hlt]. apply IH; [done|lia].
Qed.

Lemma SkipToInitialBlock_mem r :
  exists r' n, SkipToInitialBlock r = (true, r') /\ buffer_ r' = buffer_ r /\
    file_ r' = drop n (file_ r).
Proof.
  unfold SkipToInitialBlock. cbv zeta. set (loc := if _ <? _ then u64 _ else _). clearbody loc.
  case_bool; [|exists (set_end (file_ r) loc r), 0%nat; done].
  exists (set_end (drop (Z.to_nat loc) (file_ r)) loc r), (Z.to_nat loc). done.
Qed.

(** C39: Reading a record terminates on every file, however corrupted, from every
    reader state and every initial offset: the physical reader always returns, and
    the loop of [ReadRecord] goes round at most once per unread byte. *)
Theorem log_read_terminates (r : Reader bytes) (fuel : nat)
  (Hr : bytes_ok (buffer_ r) /\ bytes_ok (file_ r))
  (Hfuel : (length (buffer_ r) + length (file_ r) < fuel)%nat) :
  ReadRecord fuel r <> None.
Proof.
  unfold ReadRecord. case_bool; [|by apply ReadRecord_loop_total].
  destruct (SkipToInitialBlock_mem r) as (r' & n & -> & Hb & Hf).
  apply ReadRecord_loop_total; unfold readable, unread; rewrite Hb, Hf.
  - destruct Hr. auto with pebbles.
  - rewrite length_drop. lia.
Qed.

(** Fifty bytes of 0xFF, read from initial offset 3. *)
Lemma log_read_terminates_witness :
  ReadRecord 60 (new (replicate 50 255) true true 3) <> None.
Proof.
  apply (log_read_terminates (new (replicate 50 255) true true 3) 60).
  - split; [constructor|]. apply bytes_ok_replicate. ulia.
  - cbn. lia.
Defined.

(** C17: Write-ahead log round trip: appending records of any sizes to an empty log
    and reading it back returns exactly those records, in order, and reports no
    corruption, for logs below 4 GiB in which no record's tail fills its last
    block exactly. *)
Theorem log_roundtrip (recs : list bytes) (checksum : bool)
  (Hok : Forall bytes_ok recs) (Hplaced : placed 0 recs = true) :
  exists f r, write_all [] 0 recs = Some (f, blen f) /\
    read_all (S (length recs)) (S (length f)) (new f true checksum 0) = Some (recs, r) /\
    reporter_ r = Some [].
Proof.
  destruct (write_all_logs recs [] Hplaced) as (f & Hl & Hsz & Hw). cbn [app] in Hw.
  rewrite blen_nil, Z.add_0_l in *.
  destruct (read_logs 0 recs f Hl (new f true checksum 0) (blen f) (S (length f)))
    as (r & E & Hrep); [|done|done|lia|].
  { rewrite take_ge by ulia. apply at_pos_new. ulia. }
  exists f, r. split; [done|]. split; [|done].
  rewrite E, (complete_all 0 recs f) by (done || lia). by rewrite firstn_all.
Qed.

Lemma log_roundtrip_witness :
  exists f r, write_all [] 0 [[1; 2]; []; [3]] = Some (f, blen f) /\
    read_all 4 (S (length f)) (new f true true 0) = Some ([[1; 2]; []; [3]], r) /\
    reporter_ r = Some [].
Proof.
  apply (log_roundtrip [[1; 2]; []; [3]] true); [|by vm_compute].
  repeat constructor; done.
Defined.

(** Crash tolerance of the log: when the file ends after any [k] bytes of what
    was appended (a torn write), reading returns exactly the records that lie
    completely in those bytes, then the end of the log, and reports no
    corruption. *)
Theorem log_torn_tail (recs : list bytes) (checksum : bool) (k : Z) (f : bytes) (off : Z)
  (Hok : Forall bytes_ok recs) (Hplaced : placed 0 recs = true)
  (Hw : write_all [] 0 recs = Some (f, off)) (Hk : 0 <= k <= blen f) :
  exists r, read_all (S (length recs)) (S (length f)) (new (take (Z.to_nat k) f) true checksum 0)
            = Some (take (complete 0 recs k) recs, r) /\
    reporter_ r = Some [].
Proof.
  destruct (write_all_logs recs [] Hplaced) as (g & Hl & Hsz & Hw'). cbn [app] in Hw'.
  rewrite blen_nil in *. rewrite Hw in Hw'. injection Hw' as <- ->.
  destruct (read_logs 0 recs f Hl (new (take (Z.to_nat k) f) true checksum 0) k (S (length f)))
    as (r & E & Hrep); [|done|done|lia|].
  { rewrite Z.sub_0_r. apply at_pos_new. rewrite blen_take. ulia. }
  exists r. done.
Qed.

Lemma log_torn_tail_witness :
  exists f off r, write_all [] 0 [[1; 2]; [3]] = Some (f, off) /\
    read_all 3 (S (length f)) (new (take 12 f) true true 0) = Some ([[1; 2]], r) /\
    reporter_ r = Some [].
Proof.
  destruct (write_all [] 0 [[1; 2]; [3]]) as [[f off]|] eqn:E; [|vm_compute in E; discriminate].
  exists f, off.
  destruct (log_torn_tail [[1; 2]; [3]] true 12 f off) as (r & Er & Hr).
  - repeat constructor; done.
  - by vm_compute.
  - done.
  - vm_compute in E. injection E as <- <-. vm_compute. split; discriminate.
  - exists r. done.
Defined.

(** ** Reservations *)

(** Concurrent writers never overlap: a writer that reserved
    [\[off, reserve off n)] for a record of [n] bytes writes exactly a suffix of
    the file that starts at [off] and ends at the end of the reservation, or
    seven bytes before it when the record's tail fills its last block exactly;
    the write succeeds and the loop terminates, whatever is still missing before
    [off] (other writers' records). Offsets below 4 GiB. *)
Theorem log_reservation (f d : bytes) (off : Z)
  (Hf : blen f <= off) (Hsz : off + blen d + kBlockSize < 2 ^ 32) :
  exists bs, AddRecord f off d = Some (fill f off ++ bs, OK, reserve off (blen d)) /\
    off + blen bs + (if exact_fit off (blen d) then kHeaderSize else 0) = reserve off (blen d).
Proof.
  pose proof (blen_nonneg f).
  destruct (emit_loop_mem f true off d) as (bs & Hbs & He); [lia|klia|].
  exists bs. unfold AddRecord. rewrite He. split; [done|].
  eapply emits_reserve; [lia|done|done].
Qed.

Lemma log_reservation_witness :
  exists bs, AddRecord [] 9 [1; 2; 3] = Some (fill [] 9 ++ bs, OK, reserve 9 3) /\
    9 + blen bs + 0 = reserve 9 3.
Proof. apply (log_reservation [] [1; 2; 3] 9); by vm_compute. Defined.

(** A record whose tail fills its last block exactly ends at a block boundary. *)
Lemma exact_fit_end b off d bs :
  0 <= off -> off + blen d + kBlockSize < 2 ^ 32 -> emits b off d bs ->
  exact_fit off (blen d) = true ->
  (off + blen bs) mod kBlockSize = 0 /\ reserve off (blen d) = off + blen bs + kHeaderSize.
Proof.
  intros Ho Hb He Hx. pose proof (emits_reserve _ _ _ _ Ho Hb He) as Hres. rewrite Hx in Hres.
  split; [|lia]. rewrite reserve_room in Hres by blia.
  unfold exact_fit in Hx. apply andb_prop in Hx as [Hx1 Hx2].
  apply Z.ltb_lt in Hx1. apply Z.eqb_eq in Hx2.
  rewrite (proj2 (Z.leb_gt _ _) Hx1) in Hres. unfold ComputeRecordSize in Hres.
  rewrite Hx2 in Hres. pose proof (room_range off). pose proof (skip_range off).
  assert (0 <= spill off (blen d) / (kBlockSize - kHeaderSize) <= spill off (blen d)).
  { split; [apply Z.div_pos; [lia|done]|]. apply Z.div_le_upper_bound; [done|]. klia. }
  rewrite u64_small in Hres by (unfold spill in *; klia).
  replace (off + blen bs) with (off + skip off + room off +
    spill off (blen d) / (kBlockSize - kHeaderSize) * kBlockSize) by lia.
  rewrite Z.mod_add by done. apply next_room_mod.
Qed.

(** A zero header at the start of a block makes the reader skip the block. *)
Lemma zero_header_step r off x res :
  at_pos r off (zeros kHeaderSize ++ x) -> file_ r = [] ->
  ReadPhysicalRecord_step res r = inr (kBadRecord, res, set_buffer [] r) /\
  at_pos (set_buffer [] r) (off + blen (zeros kHeaderSize ++ x)) [].
Proof.
  intros [Hi Hr Ho He Hb Hf Hn] Hf0. rewrite Hf0, app_nil_r in Hr. split.
  - unfold ReadPhysicalRecord_step. rewrite Hr.
    rewrite (proj2 (Z.ltb_ge _ kHeaderSize)) by (rewrite blen_app, blen_zeros; klia).
    change (at_ (zeros kHeaderSize ++ x) 4) with 0. change (at_ (zeros kHeaderSize ++ x) 5) with 0.
    change (at_ (zeros kHeaderSize ++ x) 6) with 0.
    change (u32 (schar 0)) with 0. change (Z.lor 0 (Z.shiftl 0 8)) with 0.
    rewrite (proj2 (Z.ltb_ge _ (kHeaderSize + 0))) by (rewrite blen_app, blen_zeros; klia).
    done.
  - pose proof (block_mod_range (off + blen (zeros kHeaderSize ++ x))).
    rewrite Hr in *. pose proof (blen_nonneg (zeros kHeaderSize ++ x)).
    constructor; rcbn; rewrite ?blen_nil, ?Hf0, ?Z.add_0_r; [done|done|lia|done|lia|done|done].
Qed.

Lemma zero_block r off x res :
  at_pos r off (zeros kHeaderSize ++ x) -> off mod kBlockSize = 0 ->
  kHeaderSize + blen x <= kBlockSize ->
  exists r', ReadPhysicalRecord res r = Some (kBadRecord, res, r') /\
    at_pos r' (off + blen (zeros kHeaderSize ++ x)) [] /\ same_client r r'.
Proof.
  intros Ha Hm Hl. set (W := zeros kHeaderSize ++ x) in *.
  assert (blen W = kHeaderSize + blen x) as HW by (unfold W; rewrite blen_app, blen_zeros; klia).
  assert (file_ r = [] \/ (eof_ r = false /\ buffer_ r = [])) as [Hf|[He Hb]].
  { destruct (eof_ r) eqn:E; [left; by apply (ap_eof _ _ _ Ha)|].
    destruct (at_pos_buffer _ _ _ Ha E) as [Hb|[Hb _]]; [left|by right].
    apply blen_0. pose proof (f_equal blen (ap_rest _ _ _ Ha)). rewrite blen_app in *. klia. }
  - destruct (zero_header_step r off x res Ha Hf) as [E ?].
    eexists. split; [by apply ReadPhysicalRecord_step1|done].
  - destruct (refill r off [] W res) as (r1 & E1 & Ha1 & Hc & Hb1 & _); [done..|].
    rewrite blen_nil, Z.add_0_r in Ha1.
    assert (file_ r1 = []) as Hf1.
    { apply blen_0. pose proof (f_equal blen (ap_rest _ _ _ Ha1)) as Hlen.
      rewrite blen_app, Hb1, blen_take in Hlen. klia. }
    destruct (zero_header_step r1 off x res Ha1 Hf1) as [E ?].
    eexists. split; [by eapply ReadPhysicalRecord_step2|done].
Qed.

(** The record after the hole: a full physical record in one piece. *)
Lemma emits_small b off d :
  off mod kBlockSize = kHeaderSize -> blen d + 2 * kHeaderSize <= kBlockSize ->
  forall bs, emits b off d bs -> bs = frag (record_type b true) d.
Proof.
  intros Hm Hl bs He.
  assert (skip off = 0) as Hs by (unfold skip; rewrite Hm; case_bool; klia).
  assert (room off = kBlockSize - kHeaderSize) as Hr
    by (unfold room; rewrite Hs, Z.add_0_r, Hm; done).
  destruct He as [b off d ?|b off d bs Hx _]; [by rewrite Hs|]. rewrite Hr in Hx. klia.
Qed.

Lemma read_zero_block off x r fuel :
  at_pos r off (zeros kHeaderSize ++ x) -> off mod kBlockSize = 0 ->
  kHeaderSize + blen x <= kBlockSize -> 0 <= last_record_offset_ r ->
  exists r', ReadRecord (S (S fuel)) r = Some (None, r') /\ reporter_ r' = reporter_ r.
Proof.
  intros Ha Hm Hl Hlast. rewrite ReadRecord_run by (done || apply Ha).
  destruct (zero_block r off x [] Ha Hm Hl) as (r1 & E1 & Ha1 & Hc).
  cbn [ReadRecord_loop]. unfold ReadRecord_step at 1.
  change (fragment rr_init) with (@nil Z). rewrite E1. cbn beta iota.
  change (kBadRecord =? kFullType) with false. change (kBadRecord =? kFirstType) with false.
  change (kBadRecord =? kMiddleType) with false. change (kBadRecord =? kLastType) with false.
  change (kBadRecord =? kEof) with false. change (kBadRecord =? kBadRecord) with true.
  change (in_fragmented_record rr_init) with false. cbv iota.
  change (scratch rr_init) with (@nil Z). change (prospective_record_offset rr_init) with 0.
  fold rr_init.
  destruct (ReadRecord_end r1 _ fuel Ha1) as (r' & E & Hrep).
  { destruct Hc as (_ & _ & ->). done. }
  rewrite ReadRecord_run in E; [|apply Ha1|destruct Hc as (_ & _ & ->); done].
  cbn [ReadRecord_loop] in E. exists r'. split; [exact E|]. rewrite Hrep. apply Hc.
Qed.

(** C40: Where the reservation is wrong: after a record whose tail fills its last
    block exactly (65522 bytes at the start of a log, for instance) the next
    record is placed seven bytes into its block; the reader takes the hole for a
    pre-allocated region and silently skips the rest of that block, so the next
    record, although written and acknowledged with OK, is not recovered and
    nothing is reported. *)
Theorem log_exact_fit_loses_next (d d2 : bytes) (checksum : bool)
  (Hd : bytes_ok d) (Hsz : blen d + kBlockSize < 2 ^ 32)
  (Hx : exact_fit 0 (blen d) = true) (Hd2 : blen d2 + 2 * kHeaderSize <= kBlockSize) :
  exists f off r, write_all [] 0 [d; d2] = Some (f, off) /\
    read_all 3 (S (length f)) (new f true checksum 0) = Some ([d], r) /\
    reporter_ r = Some [].
Proof.
  destruct (AddRecord_mem [] d) as (bs & He & Hw); [rewrite blen_nil; klia|].
  rewrite blen_nil in *. cbn [app] in Hw.
  destruct (exact_fit_end _ _ _ _ (Z.le_refl 0) ltac:(rewrite Z.add_0_l; exact Hsz) He Hx) as [Hm Hres].
  rewrite Z.add_0_l in *. rewrite Hres in Hw.
  pose proof (reserve_bound 0 (blen d)) as Hbnd. rewrite Hres in Hbnd.
  destruct (emit_loop_mem bs true (blen bs + kHeaderSize) d2) as (bs2 & He2 & Hw2); [klia|klia|].
  apply emits_small in He2; [|rewrite <- Zplus_mod_idemp_l, Hm; done|done]. subst bs2.
  set (x := frag (record_type true true) d2) in *.
  exists (bs ++ zeros kHeaderSize ++ x), (reserve (blen bs + kHeaderSize) (blen d2)).
  assert (fill bs (blen bs + kHeaderSize) = bs ++ zeros kHeaderSize) as Hfill.
  { unfold fill, zeros. do 3 f_equal. lia. }
  rewrite Hfill, <- app_assoc in Hw2.
  set (f := bs ++ zeros kHeaderSize ++ x).
  assert (blen x <= kBlockSize - kHeaderSize) by (unfold x; klia).
  assert (blen f < 2 ^ 64) as Hf by (unfold f; rewrite !blen_app, blen_zeros; klia).
  pose proof (at_pos_new f checksum Hf) as Ha. unfold f in Ha at 2.
  destruct (read_emits _ _ _ _ He _ _ rr_init (S (length f)) Ha Hd rr_init_ok)
    as (r1 & E1 & Ha1 & Hrep1 & Hlast1); [unfold f; rewrite length_app; lia|].
  rewrite <- ReadRecord_run in E1 by done.
  destruct (read_zero_block (0 + blen bs) x r1 (length f - 1) Ha1) as (r2 & E2 & Hrep2);
    [done|lia|done|].
  exists r2. split; [|split; [|by rewrite Hrep2, Hrep1]].
  - cbn [write_all]. rewrite Hw. cbn [ok OK]. unfold AddRecord. by rewrite Hw2.
  - eapply read_all_step; [exact E1|]. cbn [read_all].
    replace (S (length f)) with (S (S (length f - 1))); [by rewrite E2|].
    assert (0 < length f)%nat; [|lia]. unfold f. rewrite !length_app. unfold x. cbn. lia.
Qed.

Lemma log_exact_fit_loses_next_witness :
  exists f off r, write_all [] 0 [replicate (Z.to_nat 65522) 0; [1]] = Some (f, off) /\
    read_all 3 (S (length f)) (new f true true 0) = Some ([replicate (Z.to_nat 65522) 0], r) /\
    reporter_ r = Some [].
Proof.
  apply (log_exact_fit_loses_next (replicate (Z.to_nat 65522) 0) [1] true).
  - by apply bytes_ok_replicate.
  - by rewrite blen_replicate, Z2Nat.id.
  - by rewrite blen_replicate, Z2Nat.id.
  - done.
Defined.

Lemma land_block_mask_range x : Z.land x block_mask <= 2 ^ 32 - kBlockSize /\
  Z.land x block_mask mod kBlockSize = 0.
Proof.
  assert (Z.land x block_mask = Z.land (u32 x) block_mask) as ->.
  { unfold u32. rewrite <- Z.land_ones, <- Z.land_assoc by lia. done. }
  pose proof (u32_range x) as Hr. rewrite land_block_mask by exact Hr.
  pose proof (Z.div_mod (u32 x) kBlockSize ltac:(done)).
  pose proof (block_mod_range (u32 x)).
  replace (u32 x - u32 x mod kBlockSize) with (u32 x / kBlockSize * kBlockSize) by lia.
  split; [|by apply Z.mod_mul].
  assert (u32 x / kBlockSize < 131072); [|klia].
  apply Z.div_lt_upper_bound; [done|]. klia.
Qed.

(** Beyond 4 GiB the reservation breaks: the mask [~(kBlockSize - 1)] is a
    32-bit value, so a record of up to a block that is reserved while [offset_]
    lies in a block trailer above 4 GiB moves [offset_] back below it, over
    records written before. *)
Theorem log_offset_moves_back (off size : Z)
  (Hoff : 2 ^ 32 <= off) (Hu : off + kHeaderSize < 2 ^ 64)
  (Htrailer : kBlockSize - off mod kBlockSize < kHeaderSize)
  (Hsize : 0 <= size <= kBlockSize - kHeaderSize) :
  reserve off size < off.
Proof.
  unfold reserve. rewrite (land_block off), (proj2 (Z.ltb_lt _ _) Htrailer).
  destruct (land_block_mask_range (u64 (off + kHeaderSize))) as [Hle Hm].
  assert (0 <= Z.land (u64 (off + kHeaderSize)) block_mask) by (by apply Z.land_nonneg; right).
  set (s := Z.land (u64 (off + kHeaderSize)) block_mask) in *.
  rewrite land_block, Hm, Z.sub_0_r, (proj2 (Z.leb_le _ _)) by lia.
  rewrite u64_small by klia.
  assert (off <> 2 ^ 32) by (intros ->; by vm_compute in Htrailer).
  klia.
Qed.

Lemma log_offset_moves_back_witness : reserve (2 ^ 32 + 32765) 100 < 2 ^ 32 + 32765.
Proof. apply log_offset_moves_back; by vm_compute. Defined.
