(* ===== verification/Iterator.v ===== *)
(** * The iterator interface

    Models [src/pebblesdb/src/include/pebblesdb/iterator.h] (the interface and its
    documented contract), [src/pebblesdb/src/table/iterator.cc] (the empty
    iterator) and [src/pebblesdb/src/table/iterator_wrapper.h] (the caching
    wrapper).  Block, merging and two-level iterators implement the interface;
    their clients are verified against [IteratorOk]. *)

From S2P Require Import Prelude Status Comparator.

(** The virtual functions of [Iterator], on a state [T]. *)
Class Iterator (T : Type) := {
  Valid : T -> bool;
  SeekToFirst : T -> T;
  SeekToLast : T -> T;
  Seek : T -> bytes -> T;
  Next : T -> T;
  Prev : T -> T;
  key : T -> bytes;
  value : T -> bytes;
  status : T -> Status;
}.

(** Index of the first entry at or past [target]. *)
Fixpoint first_ge (c : Comparator) (es : list (bytes * bytes)) (target : bytes) : option nat :=
  match es with
  | [] => None
  | (k, _) :: es =>
      if 0 <=? Compare c k target then Some O else S <$> first_ge c es target
  end.

(** Index of the first and of the last entry, and of the neighbours of entry [i]. *)
Definition first_pos {A} (es : list A) : option nat :=
  match es with [] => None | _ => Some O end.
Definition last_pos {A} (es : list A) : option nat :=
  match es with [] => None | _ :: es => Some (length es) end.
Definition next_pos {A} (es : list A) (i : nat) : option nat :=
  if (S i <? length es)%nat then Some (S i) else None.
Definition prev_pos (i : nat) : option nat :=
  match i with O => None | S i => Some i end.

(** The documented contract over the entries [es] of the source: [pos s p] says that
    the iterator [s] stands at entry [p], or at none. *)
Class IteratorOk {T} `{Iterator T} (c : Comparator) (valid : bytes -> Prop)
    (es : list (bytes * bytes)) (pos : T -> option nat -> Prop) : Prop := {
  io_valid : forall s p, pos s p -> Valid s = bool_decide (is_Some p);
  io_entry : forall s i, pos s (Some i) -> es !! i = Some (key s, value s);
  io_status : forall s p, pos s p -> status s = OK;
  io_first : forall s p, pos s p -> pos (SeekToFirst s) (first_pos es);
  io_last : forall s p, pos s p -> pos (SeekToLast s) (last_pos es);
  io_next : forall s i, pos s (Some i) -> pos (Next s) (next_pos es i);
  io_prev : forall s i, pos s (Some i) -> pos (Prev s) (prev_pos i);
  io_seek : forall s p t, valid t -> pos s p -> pos (Seek s t) (first_ge c es t);
}.

(** Standing at [p], for some way of telling positions that keeps the contract. *)
Definition at_pos {T} `{Iterator T} (c : Comparator) (valid : bytes -> Prop)
    (es : list (bytes * bytes)) (s : T) (p : option nat) : Prop :=
  exists pos, IteratorOk c valid es pos /\ pos s p.

#[export] Instance at_pos_ok {T} `{Iterator T} c valid es :
  IteratorOk c valid es (at_pos (T := T) c valid es).
Proof.
  constructor; intros s; intros; destruct_and?;
    match goal with H : at_pos _ _ _ _ _ |- _ => destruct H as (pos & Hok & Hp) end.
  - by eapply io_valid.
  - by eapply io_entry.
  - by eapply io_status.
  - exists pos. split; [done|]. by eapply io_first.
  - exists pos. split; [done|]. by eapply io_last.
  - exists pos. split; [done|]. by eapply io_next.
  - exists pos. split; [done|]. by eapply io_prev.
  - exists pos. split; [done|]. by eapply io_seek.
Qed.

(** Two kinds of iterators behind one pointer. *)
#[export] Instance sum_Iterator {A B} `{Iterator A} `{Iterator B} : Iterator (A + B) := {
  Valid s := match s with inl a => Valid a | inr b => Valid b end;
  SeekToFirst s := match s with inl a => inl (SeekToFirst a) | inr b => inr (SeekToFirst b) end;
  SeekToLast s := match s with inl a => inl (SeekToLast a) | inr b => inr (SeekToLast b) end;
  Seek s t := match s with inl a => inl (Seek a t) | inr b => inr (Seek b t) end;
  Next s := match s with inl a => inl (Next a) | inr b => inr (Next b) end;
  Prev s := match s with inl a => inl (Prev a) | inr b => inr (Prev b) end;
  key s := match s with inl a => key a | inr b => key b end;
  value s := match s with inl a => value a | inr b => value b end;
  status s := match s with inl a => status a | inr b => status b end;
}.
Lemma at_pos_inl {A B} `{Iterator A} `{Iterator B} c valid es (a : A) p :
  at_pos c valid es a p -> at_pos c valid es (inl a : A + B) p.
Proof.
  intros (pos & Hok & Hp).
  exists (fun (s : A + B) p => match s with inl a => pos a p | inr _ => False end).
  split; [|done]. constructor; intros [s|s]; cbn; intros; try done.
  - by eapply io_valid.
  - by eapply io_entry.
  - by eapply io_status.
  - by eapply io_first.
  - by eapply io_last.
  - by eapply io_next.
  - by eapply io_prev.
  - by eapply io_seek.
Qed.

Lemma at_pos_inr {A B} `{Iterator A} `{Iterator B} c valid es (b : B) p :
  at_pos c valid es b p -> at_pos c valid es (inr b : A + B) p.
Proof.
  intros (pos & Hok & Hp).
  exists (fun (s : A + B) p => match s with inr b => pos b p | inl _ => False end).
  split; [|done]. constructor; intros [s|s]; cbn; intros; try done.
  - by eapply io_valid.
  - by eapply io_entry.
  - by eapply io_status.
  - by eapply io_first.
  - by eapply io_last.
  - by eapply io_next.
  - by eapply io_prev.
  - by eapply io_seek.
Qed.

(** ** The empty iterator *)

Definition EmptyIterator := Status.
Definition NewEmptyIterator : EmptyIterator := OK.
Definition NewErrorIterator (status : Status) : EmptyIterator := status.

#[export] Instance EmptyIterator_ops : Iterator EmptyIterator := {
  Valid _ := false;
  SeekToFirst s := s; SeekToLast s := s; Seek s _ := s; Next s := s; Prev s := s;
  key _ := []; value _ := []; status s := s;
}.

#[export] Instance EmptyIterator_ok c valid :
  IteratorOk c valid [] (fun s p => s = OK /\ p = None).
Proof. constructor; cbn; intros; destruct_and?; simplify_eq; done. Qed.

(** ** The caching wrapper *)

Section Wrapper.
Context {T : Type} `{Iterator T}.

(** [iter_] is not null in this model: the wrappers of the code are set before use. *)
Record IteratorWrapper := { iter_ : T; valid_ : bool; key_ : bytes }.

Definition Update (w : IteratorWrapper) : IteratorWrapper :=
  {| iter_ := iter_ w; valid_ := Valid (iter_ w);
     key_ := if Valid (iter_ w) then key (iter_ w) else key_ w |}.
Definition wrap (it : T) : IteratorWrapper :=
  Update {| iter_ := it; valid_ := false; key_ := [] |}.
Definition with_iter (w : IteratorWrapper) (it : T) : IteratorWrapper :=
  Update {| iter_ := it; valid_ := valid_ w; key_ := key_ w |}.
Definition MakeInvalid (w : IteratorWrapper) : IteratorWrapper :=
  {| iter_ := iter_ w; valid_ := false; key_ := key_ w |}.

#[export] Instance IteratorWrapper_ops : Iterator IteratorWrapper := {
  Valid w := valid_ w;
  SeekToFirst w := with_iter w (SeekToFirst (iter_ w));
  SeekToLast w := with_iter w (SeekToLast (iter_ w));
  Seek w k := with_iter w (Seek (iter_ w) k);
  Next w := with_iter w (Next (iter_ w));
  Prev w := with_iter w (Prev (iter_ w));
  key w := key_ w;
  value w := value (iter_ w);
  status w := status (iter_ w);
}.

(** The cached values are those of the iterator. *)
Definition coherent (w : IteratorWrapper) : Prop :=
  valid_ w = Valid (iter_ w) /\ (valid_ w = true -> key_ w = key (iter_ w)).

Lemma with_iter_coherent w it : coherent (with_iter w it).
Proof. split; [done|]. cbn. by intros ->. Qed.
Lemma wrap_coherent it : coherent (wrap it).
Proof. split; [done|]. cbn. by intros ->. Qed.

(** A wrapped iterator keeps the contract of the one inside. *)
#[export] Instance IteratorWrapper_ok c valid es pos :
  IteratorOk c valid es pos ->
  IteratorOk c valid es (fun w p => coherent w /\ pos (iter_ w) p).
Proof.
  intros Hok. constructor; cbn.
  - intros w p [[-> _] Hp]. by eapply io_valid.
  - intros w i [[Hv Hk] Hp]. rewrite Hk; [by apply io_entry|].
    rewrite Hv, (io_valid _ _ Hp). done.
  - intros w p [_ Hp]. by eapply io_status.
  - intros w p [_ Hp]. split; [apply with_iter_coherent|]. by eapply io_first.
  - intros w p [_ Hp]. split; [apply with_iter_coherent|]. by eapply io_last.
  - intros w i [_ Hp]. split; [apply with_iter_coherent|]. by eapply io_next.
  - intros w i [_ Hp]. split; [apply with_iter_coherent|]. by eapply io_prev.
  - intros w p t Ht [_ Hp]. split; [apply with_iter_coherent|]. by eapply io_seek.
Qed.
End Wrapper.
Arguments IteratorWrapper : clear implicits.

Lemma at_pos_wrap {T} `{Iterator T} c valid es (s : T) p :
  at_pos c valid es s p -> at_pos c valid es (wrap s) p.
Proof.
  intros (pos & Hok & Hp). eexists. split; [apply (IteratorWrapper_ok c valid es pos Hok)|].
  split; [apply wrap_coherent|done].
Qed.

(** ** Walking over the entries *)

(** Reads the source from the first entry to the last. *)
Fixpoint collect {T} `{Iterator T} (fuel : nat) (s : T) : list (bytes * bytes) :=
  match fuel with
  | O => []
  | S fuel => if Valid s then (key s, value s) :: collect fuel (Next s) else []
  end.

Lemma collect_from {T} `{Iterator T} c valid es pos `{!IteratorOk c valid es pos} n s i :
  pos s (Some i) -> length es = (i + n)%nat -> forall fuel, (n <= fuel)%nat ->
  collect fuel s = drop i es.
Proof.
  revert s i. induction n as [|n IH]; intros s i Hp Hl fuel Hf.
  - pose proof (io_entry _ _ Hp) as He. apply lookup_lt_Some in He. lia.
  - destruct fuel as [|fuel]; [lia|]. cbn [collect]. rewrite (io_valid _ _ Hp). cbn.
    pose proof (io_entry _ _ Hp) as He.
    assert (drop i es = (key s, value s) :: drop (S i) es) as ->
      by (by apply drop_S).
    f_equal. pose proof (io_next _ _ Hp) as Hn. unfold next_pos in Hn.
    destruct (Nat.ltb_spec (S i) (length es)).
    + apply (IH _ _ Hn); lia.
    + rewrite drop_ge by lia. destruct fuel; [done|]. cbn [collect].
      by rewrite (io_valid _ _ Hn).
Qed.

(** Iterating an implementation of the contract from [SeekToFirst] yields its
    entries. *)
Lemma collect_all {T} `{Iterator T} c valid es pos `{!IteratorOk c valid es pos} s p :
  pos s p -> collect (length es) (SeekToFirst s) = es.
Proof.
  intros Hp. apply io_first in Hp. destruct es as [|e es]; [done|].
  by rewrite (collect_from c valid _ pos _ _ _ Hp eq_refl).
Qed.

Lemma collect_upto {T} `{Iterator T} c valid es pos `{!IteratorOk c valid es pos} s p fuel :
  pos s p -> (length es <= fuel)%nat -> collect fuel (SeekToFirst s) = es.
Proof.
  intros Hp Hf. apply io_first in Hp. destruct es as [|e es]; cbn [first_pos] in Hp.
  - destruct fuel; [done|]. cbn [collect]. by rewrite (io_valid _ _ Hp).
  - by rewrite (collect_from c valid _ pos _ _ _ Hp eq_refl).
Qed.

Lemma first_ge_Some c es t i :
  first_ge c es t = Some i <->
  (exists k v, es !! i = Some (k, v) /\ 0 <= Compare c k t) /\
  (forall j k v, (j < i)%nat -> es !! j = Some (k, v) -> Compare c k t < 0).
Proof.
  revert i. induction es as [|[k v] es IH]; intros i; cbn [first_ge].
  { split; [done|]. intros [(? & ? & ? & _) _]. done. }
  destruct (Z.leb_spec 0 (Compare c k t)) as [Hc|Hc].
  - split.
    + intros [= <-]. split; [by exists k, v|]. intros; lia.
    + intros [_ Hj]. destruct i as [|i]; [done|]. specialize (Hj 0%nat k v ltac:(lia) eq_refl). lia.
  - destruct i as [|i].
    + split.
      * intros E. destruct (first_ge c es t); done.
      * intros [(k' & v' & [= <- <-] & ?) _]. lia.
    + rewrite fmap_Some. split.
      * intros (i' & Hi & [= <-]). apply IH in Hi as [He Hj]. split; [done|].
        intros [|j] k' v' Hlt E; [by injection E as <- <-|]. apply (Hj j k' v'); [lia|done].
      * intros [He Hj]. exists i. split; [|done]. apply IH. split; [done|].
        intros j k' v' Hlt E. apply (Hj (S j) k' v'); [lia|done].
Qed.

Lemma first_ge_None c es t :
  first_ge c es t = None <-> (forall j k v, es !! j = Some (k, v) -> Compare c k t < 0).
Proof.
  induction es as [|[k v] es IH]; cbn [first_ge]; [done|].
  destruct (Z.leb_spec 0 (Compare c k t)) as [Hc|Hc].
  - split; [done|]. intros Hj. specialize (Hj 0%nat k v eq_refl). lia.
  - rewrite fmap_None, IH. split.
    + intros Hj [|j] k' v' E; [by injection E as <- <-|]. by apply (Hj j k' v').
    + intros Hj j k' v' E. by apply (Hj (S j) k' v').
Qed.

Lemma first_ge_app c es1 es2 t :
  first_ge c (es1 ++ es2) t =
  match first_ge c es1 t with
  | Some i => Some i
  | None => Nat.add (length es1) <$> first_ge c es2 t
  end.
Proof.
  induction es1 as [|[k v] es1 IH]; cbn [app first_ge length].
  - by destruct (first_ge c es2 t).
  - case_bool; [done|]. rewrite IH. destruct (first_ge c es1 t); [done|].
    by destruct (first_ge c es2 t).
Qed.
Lemma first_ge_all_lt c es t :
  Forall (fun '(k, _) => Compare c k t < 0) es -> first_ge c es t = None.
Proof.
  rewrite Forall_lookup. intros Hall. apply first_ge_None. intros j k v E. exact (Hall j (k, v) E).
Qed.
Lemma first_ge_all_ge c es t :
  Forall (fun '(k, _) => 0 <= Compare c k t) es -> first_ge c es t = first_pos es.
Proof. destruct 1 as [|[k v] es Hk]; [done|]. cbn. by case_bool; [|lia]. Qed.

(** ** Sorted sources *)

(** Keys strictly increase and are acceptable to the comparator. *)
Fixpoint sorted_keys (c : Comparator) (es : list (bytes * bytes)) : Prop :=
  match es with
  | [] => True
  | (k, _) :: es => Forall (fun '(k', _) => Compare c k k' < 0) es /\ sorted_keys c es
  end.
Definition valid_keys (valid : bytes -> Prop) (es : list (bytes * bytes)) : Prop :=
  Forall (fun '(k, _) => valid k) es.

Lemma sorted_keys_lookup c es i j k1 v1 k2 v2 :
  sorted_keys c es -> (i < j)%nat -> es !! i = Some (k1, v1) -> es !! j = Some (k2, v2) ->
  Compare c k1 k2 < 0.
Proof.
  revert i j. induction es as [|[k v] es IH]; intros i j Hs Hij Hi Hj; [done|].
  destruct Hs as [Hk Hs]. destruct j as [|j]; [lia|]. destruct i as [|i].
  - injection Hi as -> ->. rewrite Forall_lookup in Hk. exact (Hk j _ Hj).
  - eapply (IH i j); [done|lia|done|done].
Qed.

Lemma valid_keys_lookup valid es i k v :
  valid_keys valid es -> es !! i = Some (k, v) -> valid k.
Proof. unfold valid_keys. rewrite Forall_lookup. intros H Hi. exact (H i _ Hi). Qed.
Lemma valid_keys_elem valid es k v : valid_keys valid es -> (k, v) ∈ es -> valid k.
Proof. intros Hv [i Hi]%list_elem_of_lookup. by eapply valid_keys_lookup. Qed.
