(* ===== verification/Block.v ===== *)
(** * Data blocks: builder and iterator

    Models [src/pebblesdb/src/table/block_builder.cc/.h] and
    [src/pebblesdb/src/table/block.cc/.h]: the prefix-compressed key/value blocks
    of a table, their restart array, and the iterator over them.  Pointers into
    the block are offsets; [value_] is the pair of its offset and size. *)

From S2P Require Import Prelude Coding Status Comparator Iterator.

(** ** BlockBuilder *)

Module BlockBuilder.

Record BlockBuilder := {
  block_restart_interval : Z;     (** of [options_] *)
  buffer_ : bytes;
  restarts_ : list Z;
  counter_ : Z;
  finished_ : bool;
  last_key_ : bytes;
}.

Definition new (block_restart_interval : Z) : BlockBuilder :=
  {| block_restart_interval := block_restart_interval; buffer_ := []; restarts_ := [0];
     counter_ := 0; finished_ := false; last_key_ := [] |}.

Definition Reset (b : BlockBuilder) : BlockBuilder := new (block_restart_interval b).

Definition CurrentSizeEstimate (b : BlockBuilder) : Z :=
  blen (buffer_ b) + blen (restarts_ b) * 4 + 4.

Definition empty (b : BlockBuilder) : bool := bool_decide (buffer_ b = []).

(** The builder after [Finish] and the slice it returns. *)
Definition Finish (b : BlockBuilder) : BlockBuilder * bytes :=
  let buf := fold_left (fun buf r => PutFixed32 buf r) (restarts_ b) (buffer_ b) in
  let buf := PutFixed32 buf (u32 (blen (restarts_ b))) in
  ({| block_restart_interval := block_restart_interval b; buffer_ := buf;
      restarts_ := restarts_ b; counter_ := counter_ b; finished_ := true;
      last_key_ := last_key_ b |}, buf).

Definition Add (b : BlockBuilder) (key value : bytes) : BlockBuilder :=
  let '(shared, restarts, counter) :=
    if counter_ b <? block_restart_interval b
    then (Z.of_nat (common_prefix (last_key_ b) key), restarts_ b, counter_ b)
    else (0, restarts_ b ++ [u32 (blen (buffer_ b))], 0) in
  let non_shared := blen key - shared in
  let buf := PutVarint32 (buffer_ b) (u32 shared) in
  let buf := PutVarint32 buf (u32 non_shared) in
  let buf := PutVarint32 buf (u32 (blen value)) in
  let delta := sub key shared non_shared in
  {| block_restart_interval := block_restart_interval b;
     buffer_ := buf ++ delta ++ value;
     restarts_ := restarts; counter_ := counter + 1; finished_ := finished_ b;
     last_key_ := take (Z.to_nat shared) (last_key_ b) ++ delta |}.

End BlockBuilder.

(** ** Block *)

(** [data_\[0, size_)] of a block and the offset of its restart array. *)
Record Block := {
  data_ : bytes;
  size_ : Z;
  restart_offset_ : Z;
}.

Definition NumRestarts (data : bytes) (size : Z) : Z :=
  DecodeFixed32 (drop (Z.to_nat (size - 4)) data).

(** The constructor: [size_ = 0] marks a block too small for its trailer. *)
Definition mkBlock (contents : bytes) : Block :=
  let size := blen contents in
  if size <? 4 then {| data_ := contents; size_ := 0; restart_offset_ := 0 |}
  else
    let max_restarts_allowed := (size - 4) / 4 in
    let n := NumRestarts contents size in
    if max_restarts_allowed <? n
    then {| data_ := contents; size_ := 0; restart_offset_ := 0 |}
    else {| data_ := contents; size_ := size;
            restart_offset_ := u32 (size - u32 (1 + n) * 4) |}.

(** Decodes the header of the entry at [p]: [(shared, non_shared, value_length)]
    and the offset just past it. *)
Definition DecodeEntry (data : bytes) (p limit : Z) : option (Z * Z * Z * Z) :=
  if limit - p <? 3 then None else
  let shared := at_ data p in
  let non_shared := at_ data (p + 1) in
  let value_length := at_ data (p + 2) in
  let bounded '(shared, non_shared, value_length, p) :=
    if u32 (limit - p) <? u32 (non_shared + value_length) then None
    else Some (shared, non_shared, value_length, p) in
  if Z.lor (Z.lor shared non_shared) value_length <? 128
  then bounded (shared, non_shared, value_length, p + 3)
  else
    match GetVarint32Ptr (sub data p (limit - p)) with
    | None => None
    | Some (shared, q) =>
        match GetVarint32Ptr q with
        | None => None
        | Some (non_shared, q) =>
            match GetVarint32Ptr q with
            | None => None
            | Some (value_length, q) =>
                bounded (shared, non_shared, value_length, limit - blen q)
            end
        end
    end.

Module Iter.

Record Iter := {
  comparator_ : Comparator;
  idata_ : bytes;
  restarts_ : Z;
  num_restarts_ : Z;
  current_ : Z;
  restart_index_ : Z;
  key_ : bytes;
  value_ : Z * Z;          (** offset and size *)
  status_ : Status;
}.

Definition new (cmp : Comparator) (data : bytes) (restarts num_restarts : Z) : Iter :=
  {| comparator_ := cmp; idata_ := data; restarts_ := restarts; num_restarts_ := num_restarts;
     current_ := restarts; restart_index_ := num_restarts; key_ := []; value_ := (0, 0);
     status_ := OK |}.

(** Assignments to the mutable fields. *)
Definition set_pos (it : Iter) (current restart_index : Z) : Iter :=
  {| comparator_ := comparator_ it; idata_ := idata_ it; restarts_ := restarts_ it;
     num_restarts_ := num_restarts_ it; current_ := current; restart_index_ := restart_index;
     key_ := key_ it; value_ := value_ it; status_ := status_ it |}.
Definition set_kv (it : Iter) (key : bytes) (value : Z * Z) : Iter :=
  {| comparator_ := comparator_ it; idata_ := idata_ it; restarts_ := restarts_ it;
     num_restarts_ := num_restarts_ it; current_ := current_ it;
     restart_index_ := restart_index_ it; key_ := key; value_ := value; status_ := status_ it |}.
Definition set_status (it : Iter) (s : Status) : Iter :=
  {| comparator_ := comparator_ it; idata_ := idata_ it; restarts_ := restarts_ it;
     num_restarts_ := num_restarts_ it; current_ := current_ it;
     restart_index_ := restart_index_ it; key_ := key_ it; value_ := value_ it; status_ := s |}.

Definition Valid (it : Iter) : bool := current_ it <? restarts_ it.
Definition status (it : Iter) : Status := status_ it.
Definition key (it : Iter) : bytes := key_ it.
Definition value (it : Iter) : bytes := sub (idata_ it) (fst (value_ it)) (snd (value_ it)).

Definition NextEntryOffset (it : Iter) : Z := u32 (fst (value_ it) + snd (value_ it)).

Definition GetRestartPoint (it : Iter) (index : Z) : Z :=
  DecodeFixed32 (drop (Z.to_nat (restarts_ it + index * 4)) (idata_ it)).

Definition SeekToRestartPoint (it : Iter) (index : Z) : Iter :=
  set_kv (set_pos it (current_ it) index) [] (GetRestartPoint it index, 0).

(** After [value_.clear()] the slice does not point into the block; offset 0
    stands for it and is not used while [!Valid()]. *)
Definition CorruptionError (it : Iter) : Iter :=
  set_status (set_kv (set_pos it (restarts_ it) (num_restarts_ it)) [] (0, 0))
    (Corruption (str "bad entry in block")).

(** [while (restart_index_ + 1 < num_restarts_ && ...) ++restart_index_;] *)
Fixpoint advance_restart (fuel : nat) (it : Iter) : Iter :=
  match fuel with
  | O => it
  | S fuel =>
      if (u32 (restart_index_ it + 1) <? num_restarts_ it)
         && (GetRestartPoint it (u32 (restart_index_ it + 1)) <? current_ it)
      then advance_restart fuel (set_pos it (current_ it) (restart_index_ it + 1))
      else it
  end.

Definition ParseNextKey (it : Iter) : bool * Iter :=
  let it := set_pos it (NextEntryOffset it) (restart_index_ it) in
  let p := current_ it in
  let limit := restarts_ it in
  if limit <=? p then (false, set_pos it (restarts_ it) (num_restarts_ it))
  else
    match DecodeEntry (idata_ it) p limit with
    | None => (false, CorruptionError it)
    | Some (shared, non_shared, value_length, p) =>
        if blen (key_ it) <? shared then (false, CorruptionError it)
        else
          let key := take (Z.to_nat shared) (key_ it) ++ sub (idata_ it) p non_shared in
          let it := set_kv it key (p + non_shared, value_length) in
          (true, advance_restart (Z.to_nat (num_restarts_ it)) it)
    end.

Definition Next (it : Iter) : Iter := snd (ParseNextKey it).

(** [while (GetRestartPoint(restart_index_) >= original)] of [Prev]: [None] when
    there is no earlier entry. *)
Fixpoint prev_restart (fuel : nat) (it : Iter) (original : Z) : option Iter :=
  match fuel with
  | O => Some it
  | S fuel =>
      if original <=? GetRestartPoint it (restart_index_ it) then
        if restart_index_ it =? 0 then None
        else prev_restart fuel (set_pos it (current_ it) (restart_index_ it - 1)) original
      else Some it
  end.

(** [do {} while (ParseNextKey() && NextEntryOffset() < bound);] *)
Fixpoint scan_to (fuel : nat) (it : Iter) (bound : Z) : Iter :=
  match fuel with
  | O => it
  | S fuel =>
      let '(b, it) := ParseNextKey it in
      if b && (NextEntryOffset it <? bound) then scan_to fuel it bound else it
  end.

(** Every successful [ParseNextKey] moves on by at least three bytes. *)
Definition scan_fuel (it : Iter) : nat := S (Z.to_nat (restarts_ it)).

Definition Prev (it : Iter) : Iter :=
  let original := current_ it in
  match prev_restart (S (Z.to_nat (restart_index_ it))) it original with
  | None => set_pos it (restarts_ it) (num_restarts_ it)
  | Some it =>
      let it := SeekToRestartPoint it (restart_index_ it) in
      scan_to (scan_fuel it) it original
  end.

(** The binary search of [Seek] over [\[lft, rgt\]]: the restart point to scan
    from, or [None] for a corrupted entry. *)
Fixpoint seek_restart (fuel : nat) (it : Iter) (target : bytes) (lft rgt : Z) : option Z :=
  match fuel with
  | O => Some lft
  | S fuel =>
      if lft <? rgt then
        let mid := u32 (lft + rgt + 1) / 2 in
        let region_offset := GetRestartPoint it mid in
        match DecodeEntry (idata_ it) region_offset (restarts_ it) with
        | None => None
        | Some (shared, non_shared, value_length, key_ptr) =>
            if negb (shared =? 0) then None
            else
              let mid_key := sub (idata_ it) key_ptr non_shared in
              if Compare (comparator_ it) mid_key target <? 0
              then seek_restart fuel it target mid rgt
              else seek_restart fuel it target lft (mid - 1)
        end
      else Some lft
  end.

(** [while (true)] of [Seek]: the linear search for a key [>= target]. *)
Fixpoint seek_scan (fuel : nat) (it : Iter) (target : bytes) : Iter :=
  match fuel with
  | O => it
  | S fuel =>
      let '(b, it) := ParseNextKey it in
      if negb b then it
      else if 0 <=? Compare (comparator_ it) (key_ it) target then it
      else seek_scan fuel it target
  end.

Definition Seek (it : Iter) (target : bytes) : Iter :=
  match seek_restart (Z.to_nat (num_restarts_ it)) it target 0 (num_restarts_ it - 1) with
  | None => CorruptionError it
  | Some lft =>
      let it := SeekToRestartPoint it lft in
      seek_scan (scan_fuel it) it target
  end.

Definition SeekToFirst (it : Iter) : Iter := snd (ParseNextKey (SeekToRestartPoint it 0)).

Definition SeekToLast (it : Iter) : Iter :=
  let it := SeekToRestartPoint it (num_restarts_ it - 1) in
  scan_to (scan_fuel it) it (restarts_ it).

End Iter.

(** [NewIterator]: an iterator, or the status of the empty iterator that is
    returned instead. *)
Definition NewIterator (b : Block) (cmp : Comparator) : Iter.Iter + Status :=
  if size_ b <? 4 then inr (Corruption (str "bad block contents"))
  else
    let num_restarts := NumRestarts (data_ b) (size_ b) in
    if num_restarts =? 0 then inr OK
    else inl (Iter.new cmp (data_ b) (restart_offset_ b) num_restarts).

#[export] Instance BlockIter_ops : Iterator Iter.Iter := {
  Valid := Iter.Valid; SeekToFirst := Iter.SeekToFirst; SeekToLast := Iter.SeekToLast;
  Seek := Iter.Seek; Next := Iter.Next; Prev := Iter.Prev;
  key := Iter.key; value := Iter.value; status := Iter.status;
}.
