(* ===== verification/BlockProofs.v ===== *)
(** * Data blocks: proofs

    A block is described by the list of its entries and of its restart points
    ([block_ok]).  The iterator over such a block keeps the iterator contract
    ([IteratorOk]) and the builder produces such blocks; on arbitrary contents
    the iterator's loops terminate. *)

From S2P Require Import Prelude Coding Status Comparator Iterator Block.

Import Iter.

(** ** Entry headers *)

Lemma lor_byte_lt a b : is_u8 a -> is_u8 b -> Z.lor a b < 128 <-> a < 128 /\ b < 128.
Proof.
  intros Ha Hb. assert (is_u8 (Z.lor a b)) as Hl by (apply (lor_range a b 8); ulia || lia).
  pose proof (continuation_bit _ Ha) as Ea. pose proof (continuation_bit _ Hb) as Eb.
  pose proof (continuation_bit _ Hl) as El. rewrite Z.land_lor_distr_l in El.
  pose proof (Z.lor_eq_0_iff (Z.land a 128) (Z.land b 128)).
  repeat case_bool; try done; intuition lia.
Qed.

(** The header the builder writes, and a whole entry. *)
Definition entry_header (shared non_shared value_length : Z) : bytes :=
  EncodeVarint32 shared ++ EncodeVarint32 non_shared ++ EncodeVarint32 value_length.
Definition entry_bytes (shared : Z) (delta value : bytes) : bytes :=
  entry_header shared (blen delta) (blen value) ++ delta ++ value.

Lemma EncodeVarint32_small v : 0 <= v < 128 -> EncodeVarint32 v = [v].
Proof. intros. rewrite EncodeVarint32_loop by ulia. by apply EncodeVarint64_lt. Qed.

(** The first byte of an encoding tells whether it is the only one. *)
Lemma EncodeVarint32_head v :
  is_u32 v -> exists b l, EncodeVarint32 v = b :: l /\ is_u8 b /\ (b < 128 <-> v < 128) /\
    (v < 128 -> l = [] /\ b = v).
Proof.
  intros Hv. pose proof (EncodeVarint32_ok v Hv) as Hok. destruct (Z.lt_ge_cases v 128).
  - rewrite EncodeVarint32_small in * by ulia. exists v, [].
    apply Forall_cons_iff in Hok as [? _]. done.
  - rewrite EncodeVarint32_loop in * by done. rewrite EncodeVarint64_ge in * by ulia.
    eexists _, _. split; [done|]. apply Forall_cons_iff in Hok as [Hb _].
    pose proof (Z.mod_pos_bound v 128 ltac:(lia)).
    split; [done|]. split; [|lia]. split; [|lia]. lia.
Qed.

Lemma blen_EncodeVarint32 v : is_u32 v -> 1 <= blen (EncodeVarint32 v).
Proof.
  intros Hv. destruct (EncodeVarint32_head v Hv) as (b & l & -> & _). blia.
Qed.

Lemma at_app_r l k i : at_ (l ++ k) (blen l + Z.of_nat i) = nth i k 0.
Proof. unfold at_, blen. rewrite <- Nat2Z.inj_add, Nat2Z.id. by apply app_nth2_plus. Qed.

(** The part of the data from an entry to the limit. *)
Lemma sub_entry pre x post lim :
  blen pre + blen x <= lim <= blen (pre ++ x ++ post) ->
  exists rest, sub (pre ++ x ++ post) (blen pre) (lim - blen pre) = x ++ rest /\
    blen (x ++ rest) = lim - blen pre.
Proof.
  intros Hl. exists (take (Z.to_nat (lim - blen pre - blen x)) post). unfold sub.
  rewrite drop_app_length' by ulia. rewrite take_app_ge by ulia.
  split; [|blia]. do 2 f_equal. ulia.
Qed.

Lemma entry_header_len s n v :
  is_u32 s -> is_u32 n -> is_u32 v -> 3 <= blen (entry_header s n v).
Proof.
  intros Hs Hn Hv. unfold entry_header. rewrite !blen_app.
  pose proof (blen_EncodeVarint32 _ Hs). pose proof (blen_EncodeVarint32 _ Hn).
  pose proof (blen_EncodeVarint32 _ Hv). lia.
Qed.

(** The header of three one-byte values is recognised by its bytes, whatever
    follows. *)
Lemma entry_header_bytes s n v rest :
  is_u32 s -> is_u32 n -> is_u32 v ->
  let l := entry_header s n v ++ rest in
  Z.lor (Z.lor (nth 0 l 0) (nth 1 l 0)) (nth 2 l 0) < 128 <-> s < 128 /\ n < 128 /\ v < 128.
Proof.
  intros Hs Hn Hv l.
  assert (bytes_ok (entry_header s n v)) as Hok.
  { unfold entry_header. rewrite !bytes_ok_app. auto using EncodeVarint32_ok. }
  assert (forall i, (i < 3)%nat -> is_u8 (nth i l 0)) as Hb.
  { intros i Hi. unfold l. rewrite app_nth1.
    - unfold bytes_ok in Hok. rewrite List.Forall_forall in Hok. apply Hok, nth_In.
      pose proof (entry_header_len s n v Hs Hn Hv). ulia.
    - pose proof (entry_header_len s n v Hs Hn Hv). ulia. }
  rewrite !lor_byte_lt; [| | |apply (lor_range _ _ 8)|]; try (apply Hb; lia); try lia.
  clear Hb Hok. unfold l, entry_header. rewrite <- !app_assoc.
  destruct (EncodeVarint32_head s Hs) as (b1 & l1 & -> & B1 & S1 & T1).
  destruct (EncodeVarint32_head n Hn) as (b2 & l2 & -> & B2 & S2 & T2).
  destruct (EncodeVarint32_head v Hv) as (b3 & l3 & -> & B3 & S3 & T3).
  cbn [app nth]. destruct (Z.lt_ge_cases s 128) as [Hs'|]; [|lia].
  destruct (T1 Hs') as [-> ->]. cbn [app nth].
  destruct (Z.lt_ge_cases n 128) as [Hn'|]; [|lia].
  destruct (T2 Hn') as [-> ->]. cbn [app nth]. lia.
Qed.

(** The bound check passes for an entry that ends at or before the limit. *)
Lemma bounded_entry (lim p n v : Z) (x : Z * Z * Z * Z) :
  0 <= p -> 0 <= n -> 0 <= v -> p + n + v <= lim -> lim < 2 ^ 32 ->
  (if u32 (lim - p) <? u32 (n + v) then None else Some x) = Some x.
Proof. intros. rewrite !u32_small by ulia. by rewrite (proj2 (Z.ltb_ge _ _)) by lia. Qed.

Lemma DecodeEntry_entry pre s delta v post lim :
  is_u32 s -> blen delta + blen v < 2 ^ 32 ->
  let data := pre ++ entry_bytes s delta v ++ post in
  blen pre + blen (entry_bytes s delta v) <= lim <= blen data -> lim < 2 ^ 32 ->
  DecodeEntry data (blen pre) lim =
  Some (s, blen delta, blen v, blen pre + blen (entry_header s (blen delta) (blen v))).
Proof.
  intros Hs Hsum data Hlim Hl32.
  assert (is_u32 (blen delta) /\ is_u32 (blen v)) as [Hd Hv] by (split; blia).
  destruct (sub_entry pre (entry_bytes s delta v) post lim Hlim) as (rest & Hsub & Hrest).
  pose proof (entry_header_len s _ _ Hs Hd Hv) as Hh3.
  pose proof (entry_header_bytes s _ _ (delta ++ v ++ post) Hs Hd Hv) as Hbytes. cbv zeta in Hbytes.
  unfold data, DecodeEntry. unfold entry_bytes in *. set (h := entry_header s _ _) in *.
  rewrite <- !app_assoc in *. rewrite !blen_app in *.
  pose proof (blen_nonneg pre). pose proof (blen_nonneg delta). pose proof (blen_nonneg v).
  rewrite (proj2 (Z.ltb_ge (lim - blen pre) 3)) by lia.
  pose proof (at_app_r pre (h ++ delta ++ v ++ post) 0) as A0.
  pose proof (at_app_r pre (h ++ delta ++ v ++ post) 1) as A1.
  pose proof (at_app_r pre (h ++ delta ++ v ++ post) 2) as A2.
  rewrite Z.add_0_r in A0. change (Z.of_nat 1) with 1 in A1. change (Z.of_nat 2) with 2 in A2.
  rewrite A0, A1, A2. case_bool.
  - apply Hbytes in H2 as (Hs' & Hd' & Hv').
      unfold h, entry_header. rewrite !EncodeVarint32_small by ulia. cbn [app nth].
    rewrite bounded_entry by blia. done.
  - rewrite Hsub. unfold h, entry_header. rewrite <- !app_assoc.
    change GetVarint32Ptr with GetVarint32. rewrite !roundtrip by done.
    fold (entry_header s (blen delta) (blen v)). fold h.
    replace (lim - blen (delta ++ v ++ rest)) with (blen pre + blen h) by blia.
    by rewrite bounded_entry by lia.
Qed.

(** ** Well-formed blocks *)

(** An entry of a block: where it starts, where its key delta, value and the next
    entry start, and its contents. *)
Record entry := {
  e_off : Z; e_delta : Z; e_voff : Z; e_next : Z;
  e_shared : Z; e_key : bytes; e_val : bytes;
}.

(** Decoding at [e_off e] after the key [prev] yields the entry. *)
Record decodes (data : bytes) (lim : Z) (prev : bytes) (e : entry) : Prop := {
  d_decode : DecodeEntry data (e_off e) lim =
             Some (e_shared e, e_voff e - e_delta e, e_next e - e_voff e, e_delta e);
  d_shared : 0 <= e_shared e <= blen prev;
  d_key : e_key e = take (Z.to_nat (e_shared e)) prev
                    ++ sub data (e_delta e) (e_voff e - e_delta e);
  d_val : e_val e = sub data (e_voff e) (e_next e - e_voff e);
  d_order : 0 <= e_off e < e_delta e /\ e_delta e <= e_voff e <= e_next e /\ e_next e <= lim;
}.

(** Entries that follow each other from [off] to the limit. *)
Inductive chain (data : bytes) (lim : Z) : Z -> bytes -> list entry -> Prop :=
| chain_nil prev : chain data lim lim prev []
| chain_cons prev e es :
    decodes data lim prev e -> chain data lim (e_next e) (e_key e) es ->
    chain data lim (e_off e) prev (e :: es).

(** Offset of entry [i], or the limit. *)
Definition off_at (lim : Z) (es : list entry) (i : nat) : Z :=
  match es !! i with Some e => e_off e | None => lim end.

(** A block with entries [es] whose restart array holds the offsets of the entries
    [rp] (their indices). *)
Record block_ok (data : bytes) (lim : Z) (rp : list nat) (es : list entry) : Prop := {
  b_lim : 0 <= lim < 2 ^ 32;
  b_chain : chain data lim 0 [] es;
  b_rp0 : rp !! 0%nat = Some 0%nat;
  b_rp_len : 2 * blen rp < 2 ^ 32;
  b_rp_sorted : forall j k a b, (j < k)%nat -> rp !! j = Some a -> rp !! k = Some b -> (a < b)%nat;
  b_rp_restart : forall j i e, rp !! j = Some i -> es !! i = Some e -> e_shared e = 0;
  b_rp_bound : forall j i, rp !! j = Some i -> i = 0%nat \/ (i < length es)%nat;
  b_rp_read : forall j i, rp !! j = Some i ->
    DecodeFixed32 (drop (Z.to_nat (lim + Z.of_nat j * 4)) data) = off_at lim es i;
}.

Lemma chain_lookup data lim off prev es i e :
  chain data lim off prev es -> es !! i = Some e ->
  exists prev', decodes data lim prev' e /\
    (match i with O => prev' = prev | S i => exists e', es !! i = Some e' /\ prev' = e_key e' end).
Proof.
  intros H. revert i. induction H as [|prev e0 es Hd Hc IH]; intros i Hi; [done|].
  destruct i as [|i].
  - injection Hi as <-. by exists prev.
  - destruct (IH i Hi) as (p & Hp & Hm). exists p. split; [done|].
    destruct i as [|i]; [by exists e0|]. done.
Qed.

Lemma chain_next data lim off prev es i e :
  chain data lim off prev es -> es !! i = Some e -> e_next e = off_at lim es (S i).
Proof.
  intros H. revert i. induction H as [|prev e0 es Hd Hc IH]; intros i Hi; [done|].
  destruct i as [|i].
  - injection Hi as <-. unfold off_at. cbn. by destruct Hc.
  - exact (IH i Hi).
Qed.

Lemma chain_off data lim off prev es : chain data lim off prev es -> off_at lim es 0 = off.
Proof. by destruct 1. Qed.

Section Blocks.
Context {data : bytes} {lim : Z} {rp : list nat} {es : list entry}.
Context (Hok : block_ok data lim rp es).

Lemma entry_decodes i e :
  es !! i = Some e -> exists prev, decodes data lim prev e /\
    (match i with O => prev = [] | S i => exists e', es !! i = Some e' /\ prev = e_key e' end).
Proof. apply chain_lookup with (off := 0), Hok. Qed.

Lemma entry_next i e : es !! i = Some e -> e_next e = off_at lim es (S i).
Proof. apply chain_next with (off := 0) (prev := []) (data := data), Hok. Qed.

Lemma off_at_entry i e : es !! i = Some e -> off_at lim es i = e_off e.
Proof. unfold off_at. by intros ->. Qed.

Lemma off_at_S i : (i < length es)%nat -> off_at lim es i < off_at lim es (S i).
Proof.
  intros Hi. destruct (lookup_lt_is_Some_2 _ _ Hi) as [e He].
  rewrite (off_at_entry _ _ He), <- (entry_next _ _ He).
  destruct (entry_decodes _ _ He) as (p & Hd & _). pose proof (d_order _ _ _ _ Hd). lia.
Qed.

Lemma off_at_mono i j :
  (i <= j)%nat -> (j <= length es)%nat -> off_at lim es i + Z.of_nat (j - i) <= off_at lim es j.
Proof.
  induction 1 as [|j Hij IH]; intros Hj; [lia|].
  pose proof (off_at_S j ltac:(lia)). specialize (IH ltac:(lia)). lia.
Qed.

Lemma off_at_0 : off_at lim es 0 = 0.
Proof. apply chain_off with (data := data) (prev := []), Hok. Qed.

Lemma off_at_end : off_at lim es (length es) = lim.
Proof. unfold off_at. by rewrite lookup_ge_None_2. Qed.

Lemma off_at_range i : (i <= length es)%nat -> 0 <= off_at lim es i <= lim.
Proof.
  intros Hi. pose proof (off_at_mono 0 i ltac:(lia) Hi). pose proof (off_at_mono i _ Hi (le_n _)).
  rewrite off_at_0, off_at_end in *. lia.
Qed.

Lemma off_at_u32 i : (i <= length es)%nat -> is_u32 (off_at lim es i).
Proof. intros Hi. pose proof (off_at_range i Hi). pose proof (b_lim _ _ _ _ Hok). ulia. Qed.

(** The limit bounds the number of entries: the scans have enough fuel. *)
Lemma entries_le_lim : Z.of_nat (length es) <= lim.
Proof.
  pose proof (off_at_mono 0 (length es) ltac:(lia) ltac:(lia)).
  rewrite off_at_0, off_at_end in *. lia.
Qed.

(** ** The iterator on a well-formed block *)

Context (c : Comparator).

(** The constant fields. *)
Definition on_block (it : Iter) : Prop :=
  comparator_ it = c /\ idata_ it = data /\ restarts_ it = lim /\ num_restarts_ it = blen rp /\
  status_ it = OK.

(** [restart_index_] names a restart point at or before offset [o]. *)
Definition restart_before (it : Iter) (o : Z) : Prop :=
  0 <= restart_index_ it < blen rp /\
  exists i, rp !! Z.to_nat (restart_index_ it) = Some i /\ off_at lim es i <= o.

(** The iterator stands at entry [i]. *)
Record at_entry (it : Iter) (i : nat) : Prop := {
  ae_block : on_block it;
  ae_entry : exists e, es !! i = Some e /\ current_ it = e_off e /\ key_ it = e_key e /\
               value_ it = (e_voff e, e_next e - e_voff e);
  ae_restart : restart_before it (off_at lim es i);
}.

(** [ParseNextKey] will read entry [i]. *)
Record before_entry (it : Iter) (i : nat) : Prop := {
  be_block : on_block it;
  be_len : (i <= length es)%nat;
  be_next : NextEntryOffset it = off_at lim es i;
  be_key : forall e, es !! i = Some e -> decodes data lim (key_ it) e;
  be_restart : restart_before it (off_at lim es i);
}.

Definition invalid (it : Iter) : Prop := on_block it /\ current_ it = lim.

Lemma at_entry_before it i : at_entry it i -> before_entry it (S i).
Proof.
  intros [Hb (e & He & Hc & Hk & Hv) Hr].
  pose proof (lookup_lt_Some _ _ _ He).
  pose proof (entry_next _ _ He) as Hn.
  pose proof (off_at_S i ltac:(done)).
  constructor; [done|lia| | |].
  - unfold NextEntryOffset. rewrite Hv. cbn [fst snd].
    replace (e_voff e + (e_next e - e_voff e)) with (e_next e) by lia. rewrite Hn.
    apply u32_small, off_at_u32. lia.
  - intros e' He'. destruct (entry_decodes _ _ He') as (p & Hd & e1 & He1 & ->).
    rewrite Hk. by simplify_eq.
  - destruct Hr as (? & j & ? & ?). split; [done|]. exists j. split; [done|lia].
Qed.

(** An entry that shares nothing decodes after any key. *)
Lemma decodes_any prev prev' e :
  e_shared e = 0 -> decodes data lim prev e -> decodes data lim prev' e.
Proof.
  intros Hs [H1 H2 H3 H4 H5]. rewrite Hs in *.
  constructor; rewrite ?Hs; try done. pose proof (blen_nonneg prev'). lia.
Qed.

Lemma restart_point it j i :
  on_block it -> rp !! Z.to_nat j = Some i -> 0 <= j -> GetRestartPoint it j = off_at lim es i.
Proof.
  intros (_ & Hd & Hl & _) Hj Hj0. unfold GetRestartPoint. rewrite Hd, Hl.
  rewrite <- (Z2Nat.id j) at 1 by done. by apply (b_rp_read _ _ _ _ Hok).
Qed.

Lemma rp_bound j i : rp !! j = Some i -> (i <= length es)%nat.
Proof. intros Hj. destruct (b_rp_bound _ _ _ _ Hok j i Hj); lia. Qed.

Lemma seek_restart_before it j i :
  on_block it -> 0 <= j -> rp !! Z.to_nat j = Some i -> before_entry (SeekToRestartPoint it j) i.
Proof.
  intros Hb Hj0 Hj. pose proof (rp_bound _ _ Hj) as Hi.
  pose proof (lookup_lt_Some _ _ _ Hj).
  constructor; [done|done| | |].
  - unfold NextEntryOffset, SeekToRestartPoint, set_kv, set_pos. cbn [value_ fst snd].
    rewrite Z.add_0_r, (restart_point it j i) by done. by apply u32_small, off_at_u32.
  - intros e He. destruct (entry_decodes _ _ He) as (p & Hd & _).
    eapply decodes_any; [|done]. by eapply (b_rp_restart _ _ _ _ Hok).
  - split; [cbn; ulia|]. exists i. by split.
Qed.

(** Advancing [restart_index_] keeps it at a restart point before the current
    entry, and changes nothing else. *)
Lemma advance_restart_ok fuel it o :
  on_block it -> current_ it = o -> restart_before it o ->
  exists ri, advance_restart fuel it = set_pos it o ri /\ restart_before (set_pos it o ri) o.
Proof.
  revert it. induction fuel as [|fuel IH]; intros it Hb Hc Hr.
  - exists (restart_index_ it). split; [|done]. rewrite <- Hc. by destruct it.
  - cbn [advance_restart].
    pose proof Hr as (Hri & _). pose proof (b_rp_len _ _ _ _ Hok).
    pose proof Hb as (_ & _ & _ & Hnr & _). rewrite Hnr.
    rewrite u32_small by ulia.
    destruct (Z.ltb_spec (restart_index_ it + 1) (blen rp)) as [Hlt|Hge]; cbn [andb].
    + destruct (lookup_lt_is_Some_2 rp (Z.to_nat (restart_index_ it + 1))) as [i Hi]; [ulia|].
      rewrite (restart_point it _ i) by (done || lia). rewrite Hc.
      destruct (Z.ltb_spec (off_at lim es i) o) as [Ho|Ho].
      * destruct (IH (set_pos it o (restart_index_ it + 1))) as (ri & E & Hr'); [done|done| |].
        -- split; [cbn; lia|]. exists i. split; [done|lia].
        -- exists ri. split; [|done]. rewrite E. done.
      * exists (restart_index_ it). split; [|done]. rewrite <- Hc. by destruct it.
    + exists (restart_index_ it). split; [|done]. rewrite <- Hc. by destruct it.
Qed.

Lemma ParseNextKey_entry it i :
  before_entry it i -> (i < length es)%nat ->
  exists it', ParseNextKey it = (true, it') /\ at_entry it' i.
Proof.
  intros [Hb Hi Hn Hk Hr] Hlt. destruct (lookup_lt_is_Some_2 _ _ Hlt) as [e He].
  pose proof (Hk e He) as Hd. pose proof Hb as (Hcmp & Hdata & Hlim & Hnr & Hst).
  pose proof (d_order _ _ _ _ Hd) as (Ho1 & Ho2 & Ho3).
  pose proof (d_shared _ _ _ _ Hd).
  rewrite (off_at_entry _ _ He) in Hn, Hr.
  unfold ParseNextKey. cbn [set_pos current_ restarts_ idata_ key_ restart_index_].
  rewrite Hn, Hlim, Hdata. rewrite (proj2 (Z.leb_gt _ _)) by lia.
  rewrite (d_decode _ _ _ _ Hd), (proj2 (Z.ltb_ge _ _)) by lia.
  rewrite <- (d_key _ _ _ _ Hd).
  set (it1 := set_kv _ _ _).
  destruct (advance_restart_ok (Z.to_nat (num_restarts_ it1)) it1 (e_off e)) as (ri & E & Hr');
    [done|done|done|].
  eexists. split; [by rewrite E|]. constructor.
  - done.
  - exists e. cbn. replace (e_delta e + (e_voff e - e_delta e)) with (e_voff e) by lia. done.
  - by rewrite (off_at_entry _ _ He).
Qed.

Lemma ParseNextKey_end it :
  before_entry it (length es) -> exists it', ParseNextKey it = (false, it') /\ invalid it'.
Proof.
  intros [Hb _ Hn _ _]. pose proof Hb as (Hcmp & Hdata & Hlim & Hnr & Hst).
  unfold ParseNextKey. cbn [set_pos current_ restarts_ idata_ key_ restart_index_].
  rewrite Hn, off_at_end, Hlim, Z.leb_refl. eexists. split; [done|].
  by repeat split.
Qed.

(** Scanning from entry [i] up to the entry that ends at the start of entry [m]. *)
Lemma scan_to_entry fuel it i m :
  before_entry it i -> (i < m)%nat -> (m <= length es)%nat -> (m - i <= fuel)%nat ->
  at_entry (scan_to fuel it (off_at lim es m)) (m - 1).
Proof.
  revert it i. induction fuel as [|fuel IH]; intros it i Hbe Him Hm Hf; [lia|].
  cbn [scan_to]. destruct (ParseNextKey_entry it i Hbe ltac:(lia)) as (it' & -> & Hat).
  pose proof (at_entry_before _ _ Hat) as Hbe'. rewrite (be_next _ _ Hbe'). cbn [andb].
  destruct (Z.ltb_spec (off_at lim es (S i)) (off_at lim es m)) as [Hlt|Hge].
  - apply (IH it' (S i)); [done| |done|lia].
    destruct (Nat.eq_dec (S i) m); [subst; lia|lia].
  - assert (S i = m) as <-; [|replace (S i - 1)%nat with i by lia; done].
    destruct (Nat.eq_dec (S i) m); [done|].
    pose proof (off_at_mono (S i) m ltac:(lia) Hm). lia.
Qed.

Lemma scan_fuel_ok it i m :
  on_block it -> (m <= length es)%nat -> (m - i <= scan_fuel it)%nat.
Proof.
  intros (_ & _ & Hl & _) Hm. unfold scan_fuel. rewrite Hl. pose proof entries_le_lim. lia.
Qed.

Lemma SeekToFirst_ok it :
  on_block it ->
  (es = [] /\ invalid (Iter.SeekToFirst it)) \/ (es <> [] /\ at_entry (Iter.SeekToFirst it) 0).
Proof.
  intros Hb. unfold Iter.SeekToFirst.
  pose proof (seek_restart_before it 0 0%nat Hb ltac:(lia) (b_rp0 _ _ _ _ Hok)) as Hbe.
  destruct (Nat.eq_dec (length es) 0%nat) as [E|E].
  - left. split; [by apply length_zero_iff_nil|]. replace 0%nat with (length es) in Hbe.
    destruct (ParseNextKey_end _ Hbe) as (it' & -> & ?). done.
  - right. split; [by intros ->|].
    destruct (ParseNextKey_entry _ _ Hbe) as (it' & -> & ?); [lia|done].
Qed.

Lemma SeekToLast_ok it :
  on_block it ->
  (es = [] /\ invalid (Iter.SeekToLast it)) \/
  (es <> [] /\ at_entry (Iter.SeekToLast it) (length es - 1)).
Proof.
  intros Hb. pose proof Hb as (_ & _ & Hl & Hnr & _). unfold Iter.SeekToLast. rewrite Hnr.
  assert (0 < length rp)%nat as Hrp by (eapply lookup_lt_Some, (b_rp0 _ _ _ _ Hok)).
  destruct (lookup_lt_is_Some_2 rp (Z.to_nat (blen rp - 1))) as [i Hi]; [ulia|].
  pose proof (seek_restart_before it (blen rp - 1) i Hb ltac:(ulia) Hi) as Hbe.
  set (it1 := SeekToRestartPoint it (blen rp - 1)) in *.
  assert (restarts_ it1 = lim) as -> by done.
  destruct (Nat.eq_dec (length es) 0%nat) as [E|E].
  - left. split; [by apply length_zero_iff_nil|].
    pose proof (be_len _ _ Hbe). replace i with (length es) in Hbe by lia.
    destruct (ParseNextKey_end _ Hbe) as (it' & E' & ?).
    unfold scan_fuel. cbn [scan_to]. by rewrite E'.
  - right. split; [by intros ->|]. rewrite <- off_at_end.
    apply (scan_to_entry _ it1 i); [done| |done|].
    + destruct (b_rp_bound _ _ _ _ Hok _ _ Hi); lia.
    + apply scan_fuel_ok; [apply Hbe|done].
Qed.

Lemma Next_ok it i :
  at_entry it i ->
  if (S i <? length es)%nat then at_entry (Iter.Next it) (S i) else invalid (Iter.Next it).
Proof.
  intros Hat. pose proof (at_entry_before _ _ Hat) as Hbe. unfold Iter.Next.
  pose proof (be_len _ _ Hbe).
  destruct (Nat.ltb_spec (S i) (length es)).
  - destruct (ParseNextKey_entry _ _ Hbe) as (it' & -> & ?); done.
  - replace (S i) with (length es) in Hbe by lia.
    destruct (ParseNextKey_end _ Hbe) as (it' & -> & ?). done.
Qed.

(** The backward scan over the restart array finds a restart point strictly before
    entry [i], unless it is the first. *)
Lemma prev_restart_ok fuel it i :
  on_block it -> restart_before it (off_at lim es i) -> (i < length es)%nat ->
  (Z.to_nat (restart_index_ it) < fuel)%nat ->
  (i = 0%nat /\ prev_restart fuel it (off_at lim es i) = None) \/
  (exists ri k, (k < i)%nat /\ 0 <= ri /\ rp !! Z.to_nat ri = Some k /\
     prev_restart fuel it (off_at lim es i) = Some (set_pos it (current_ it) ri)).
Proof.
  revert it. induction fuel as [|fuel IH]; intros it Hb (Hri & k & Hk & Hko) Hi Hf; [lia|].
  cbn [prev_restart]. rewrite (restart_point it _ k) by (done || lia).
  pose proof (rp_bound _ _ Hk).
  destruct (Z.leb_spec (off_at lim es i) (off_at lim es k)) as [Hle|Hlt].
  - destruct (Z.eqb_spec (restart_index_ it) 0) as [Hz|Hz].
    + left. split; [|done]. rewrite Hz in Hk. change (Z.to_nat 0) with 0%nat in Hk. rewrite (b_rp0 _ _ _ _ Hok) in Hk.
      injection Hk as <-. destruct i as [|i]; [done|].
      pose proof (off_at_mono 0 (S i) ltac:(lia) ltac:(lia)). lia.
    + set (it1 := set_pos it (current_ it) (restart_index_ it - 1)).
      destruct (lookup_lt_is_Some_2 rp (Z.to_nat (restart_index_ it - 1))) as [k' Hk']; [ulia|].
      assert (k' < k)%nat
        by (eapply (b_rp_sorted _ _ _ _ Hok); [|exact Hk'|exact Hk]; lia).
      pose proof (off_at_mono k' k ltac:(lia) ltac:(lia)).
      destruct (IH it1) as [[-> E]|(ri & k1 & ? & ? & ? & E)].
      * done.
      * split; [cbn; lia|]. exists k'. split; [done|lia].
      * done.
      * cbn. lia.
      * by left.
      * right. exists ri, k1. split_and!; [done..|]. by rewrite E.
  - right. exists (restart_index_ it), k. split_and!; [|lia|done|by destruct it].
    destruct (Nat.le_gt_cases i k); [|done].
    pose proof (off_at_mono i k ltac:(done) ltac:(done)). lia.
Qed.

Lemma Prev_ok it i :
  at_entry it i ->
  match i with O => invalid (Iter.Prev it) | S j => at_entry (Iter.Prev it) j end.
Proof.
  intros [Hb (e & He & Hc & _) Hr]. pose proof (lookup_lt_Some _ _ _ He) as Hi.
  unfold Iter.Prev. rewrite Hc, <- (off_at_entry _ _ He).
  destruct (prev_restart_ok (S (Z.to_nat (restart_index_ it))) it i) as
    [[-> ->]|(ri & k & Hki & Hri & Hk & ->)]; [done..|lia| |].
  - destruct Hb as (? & ? & Hl & ? & ?). split; [by repeat split|]. cbn. done.
  - pose proof (seek_restart_before (set_pos it (current_ it) ri) ri k Hb Hri Hk) as Hbe.
    cbn [set_pos restart_index_] in *.
    destruct i as [|j]; [lia|]. replace j with (S j - 1)%nat at 2 by lia.
    apply (scan_to_entry _ _ k); [done|done|lia|].
    apply scan_fuel_ok; [apply Hbe|lia].
Qed.

(** ** Seek *)

Context (valid : bytes -> Prop) {Hc : ComparatorOk c valid}.
Context (Hvalid : forall i e, es !! i = Some e -> valid (e_key e)).
Context (Hsorted : forall i j e e', (i < j)%nat -> es !! i = Some e -> es !! j = Some e' ->
                   Compare c (e_key e) (e_key e') < 0).

(** All entries before restart point [l] are smaller than the target. *)
Definition below (t : bytes) (l : Z) : Prop :=
  forall i j e, rp !! Z.to_nat l = Some i -> (j < i)%nat -> es !! j = Some e ->
  Compare c (e_key e) t < 0.

(** The key of a restart point, as the binary search decodes it. *)
Lemma decode_restart it j i e :
  on_block it -> 0 <= j -> rp !! Z.to_nat j = Some i -> es !! i = Some e ->
  DecodeEntry (idata_ it) (GetRestartPoint it j) (restarts_ it) =
    Some (0, e_voff e - e_delta e, e_next e - e_voff e, e_delta e) /\
  sub (idata_ it) (e_delta e) (e_voff e - e_delta e) = e_key e.
Proof.
  intros Hb Hj0 Hj He. rewrite (restart_point it j i) by done.
  destruct Hb as (_ & -> & -> & _). rewrite (off_at_entry _ _ He).
  destruct (entry_decodes _ _ He) as (p & Hd & _).
  pose proof (b_rp_restart _ _ _ _ Hok _ _ _ Hj He) as Hs.
  rewrite (d_decode _ _ _ _ Hd), (d_key _ _ _ _ Hd), Hs. done.
Qed.

Lemma below_0 t : below t 0.
Proof.
  intros i j e Hi. change (Z.to_nat 0) with 0%nat in Hi.
  rewrite (b_rp0 _ _ _ _ Hok) in Hi. injection Hi as <-. lia.
Qed.

Lemma seek_restart_ok fuel it t l r :
  on_block it -> valid t -> 0 <= l <= r -> r < blen rp -> below t l ->
  exists l', seek_restart fuel it t l r = Some l' /\ 0 <= l' < blen rp /\ below t l'.
Proof.
  intros Hb Ht. revert l r. induction fuel as [|fuel IH]; intros l r Hlr Hr Hbel.
  { exists l. split; [done|]. split; [lia|done]. }
  cbn [seek_restart]. destruct (Z.ltb_spec l r) as [Hlt|]; [|by exists l; split; [|split; [lia|]]].
  pose proof (b_rp_len _ _ _ _ Hok). rewrite u32_small by ulia.
  set (mid := (l + r + 1) / 2).
  assert (l < mid <= r) as Hmid by (unfold mid; Z.div_mod_to_equations; lia).
  destruct (lookup_lt_is_Some_2 rp (Z.to_nat mid)) as [i Hi]; [ulia|].
  assert (i < length es)%nat as Hil.
  { destruct (b_rp_bound _ _ _ _ Hok _ _ Hi) as [->|]; [|done].
    assert (0 < 0)%nat; [|lia].
    eapply (b_rp_sorted _ _ _ _ Hok 0%nat (Z.to_nat mid)); [lia|apply Hok|done]. }
  destruct (lookup_lt_is_Some_2 _ _ Hil) as [e He].
  destruct (decode_restart it mid i e) as [-> Hkey]; [done|lia|done|done|].
  cbn [negb Z.eqb]. rewrite Hkey. pose proof Hb as (-> & _).
  destruct (Z.ltb_spec (Compare c (e_key e) t) 0) as [Hcmp|Hcmp].
  - apply IH; [lia|done|]. intros i' j e' Hi' Hj He'. simplify_eq.
    eapply cmp_lt_trans; [| | |exact (Hsorted _ _ _ _ Hj He' He)|done]; eauto.
  - apply IH; [lia|lia|done].
Qed.

(** The linear search stops at the first entry at or past the target. *)
Lemma seek_scan_ok fuel it t i :
  before_entry it i -> (length es - i < fuel)%nat ->
  (forall j e, (j < i)%nat -> es !! j = Some e -> Compare c (e_key e) t < 0) ->
  (exists k e, at_entry (seek_scan fuel it t) k /\ es !! k = Some e /\
     0 <= Compare c (e_key e) t /\
     forall j e, (j < k)%nat -> es !! j = Some e -> Compare c (e_key e) t < 0) \/
  (invalid (seek_scan fuel it t) /\ forall j e, es !! j = Some e -> Compare c (e_key e) t < 0).
Proof.
  revert it i. induction fuel as [|fuel IH]; intros it i Hbe Hf Hlow; [lia|].
  cbn [seek_scan]. pose proof (be_len _ _ Hbe).
  destruct (Nat.eq_dec i (length es)) as [->|Hne].
  - destruct (ParseNextKey_end _ Hbe) as (it' & -> & Hinv). right. split; [done|].
    intros j e He. eapply Hlow; [by eapply lookup_lt_Some|done].
  - destruct (ParseNextKey_entry _ _ Hbe) as (it' & -> & Hat); [lia|]. cbn [negb].
    pose proof Hat as [(Hcc & _) (e & He & _ & Hk & _) _]. rewrite Hcc, Hk.
    destruct (Z.leb_spec 0 (Compare c (e_key e) t)) as [Hge|Hlt].
    + left. by exists i, e.
    + apply (IH it' (S i)); [by apply at_entry_before|lia|].
      intros j e' Hj He'. destruct (Nat.eq_dec j i) as [->|]; [by simplify_eq|].
      eapply Hlow; [|done]. lia.
Qed.

(** The entries as the interface sees them. *)
Definition kvs : list (bytes * bytes) := (fun e => (e_key e, e_val e)) <$> es.

Lemma kvs_lookup i k v :
  kvs !! i = Some (k, v) <-> exists e, es !! i = Some e /\ k = e_key e /\ v = e_val e.
Proof.
  unfold kvs. rewrite list_lookup_fmap, fmap_Some. split.
  - intros (e & He & [= -> ->]). eauto.
  - intros (e & He & -> & ->). eauto.
Qed.

(** The iterator stands at position [p] of the entries. *)
Definition block_pos (it : Iter) (p : option nat) : Prop :=
  match p with Some i => at_entry it i | None => invalid it end.

Lemma block_pos_on it p : block_pos it p -> on_block it.
Proof. destruct p; [apply ae_block|intros [? _]; done]. Qed.

Lemma Seek_ok it t : on_block it -> valid t -> block_pos (Iter.Seek it t) (first_ge c kvs t).
Proof.
  intros Hb Ht. unfold Iter.Seek. pose proof Hb as (_ & _ & _ & Hnr & _). rewrite Hnr.
  assert (0 < length rp)%nat by (eapply lookup_lt_Some, (b_rp0 _ _ _ _ Hok)).
  destruct (seek_restart_ok (Z.to_nat (blen rp)) it t 0 (blen rp - 1)) as (l & -> & Hl & Hbel);
    [done|done|ulia|lia|apply below_0|].
  destruct (lookup_lt_is_Some_2 rp (Z.to_nat l)) as [i Hi]; [ulia|].
  pose proof (seek_restart_before it l i Hb ltac:(lia) Hi) as Hbe.
  destruct (seek_scan_ok (scan_fuel (SeekToRestartPoint it l)) _ t i Hbe) as
    [(k & e & Hat & He & Hge & Hlow)|[Hinv Hlow]].
  - unfold scan_fuel. destruct (be_block _ _ Hbe) as (_ & _ & -> & _).
    pose proof entries_le_lim. lia.
  - intros j e Hj He. by eapply Hbel.
  - assert (first_ge c kvs t = Some k) as ->; [|done].
    apply first_ge_Some. split.
    + exists (e_key e), (e_val e). split; [|done]. apply kvs_lookup. eauto.
    + intros j k' v' Hj (e' & He' & -> & ->)%kvs_lookup. by eapply Hlow.
  - assert (first_ge c kvs t = None) as ->; [|done].
    apply first_ge_None. intros j k' v' (e' & He' & -> & ->)%kvs_lookup. by eapply Hlow.
Qed.

#[export] Instance block_iterator_ok : IteratorOk c valid kvs block_pos.
Proof.
  constructor.
  - intros it [i|] Hp; cbn in *; unfold Iter.Valid.
    + destruct Hp as [Hb (e & He & Hcur & _) _]. destruct Hb as (_ & _ & -> & _).
      rewrite Hcur, <- (off_at_entry _ _ He).
      pose proof (lookup_lt_Some _ _ _ He). pose proof (off_at_S i ltac:(done)).
      pose proof (off_at_range (S i) ltac:(lia)). by rewrite (proj2 (Z.ltb_lt _ _)) by lia.
    + destruct Hp as [(_ & _ & -> & _) ->]. by rewrite Z.ltb_irrefl.
  - intros it i [Hb (e & He & _ & Hk & Hv) _]. cbn. apply kvs_lookup. exists e.
    split; [done|]. split; [done|]. unfold Iter.value. rewrite Hv. cbn [fst snd].
    destruct (entry_decodes _ _ He) as (p & Hd & _). rewrite (d_val _ _ _ _ Hd).
    by destruct Hb as (_ & -> & _).
  - intros it p Hp. apply block_pos_on in Hp. apply Hp.
  - intros it p Hp%block_pos_on. cbn. unfold kvs.
    destruct (SeekToFirst_ok it Hp) as [[E ?]|[E ?]]; [by rewrite E|by destruct es].
  - intros it p Hp%block_pos_on. cbn.
    replace (last_pos kvs) with (if decide (es = []) then None else Some (length es - 1)%nat).
    + destruct (SeekToLast_ok it Hp) as [[E ?]|[E ?]]; case_decide; done.
    + unfold kvs. destruct es as [|e es']; [done|]. cbn. rewrite length_fmap. f_equal. lia.
  - intros it i Hp. apply Next_ok in Hp. unfold next_pos, kvs. rewrite length_fmap.
    by destruct (S i <? length es)%nat.
  - intros it i Hp. apply Prev_ok in Hp. by destruct i.
  - intros it p t Ht Hp%block_pos_on. by apply Seek_ok.
Qed.

End Blocks.

(** ** The builder produces well-formed blocks *)

(** What the builder decides for a key: whether it is a restart point and how many
    bytes it shares with its predecessor. *)
Record comp := { c_restart : bool; c_shared : Z; c_key : bytes; c_val : bytes }.

Fixpoint compress (k counter : Z) (last : bytes) (kv : list (bytes * bytes)) : list comp :=
  match kv with
  | [] => []
  | (key, val) :: kv =>
      if counter <? k
      then {| c_restart := false; c_shared := Z.of_nat (common_prefix last key);
              c_key := key; c_val := val |} :: compress k (counter + 1) key kv
      else {| c_restart := true; c_shared := 0; c_key := key; c_val := val |}
           :: compress k 1 key kv
  end.

Definition c_delta (x : comp) : bytes := drop (Z.to_nat (c_shared x)) (c_key x).
Definition comp_bytes (x : comp) : bytes := entry_bytes (c_shared x) (c_delta x) (c_val x).
Definition comps_bytes (xs : list comp) : bytes := concat (comp_bytes <$> xs).

(** Where the entries lie. *)
Definition place1 (off : Z) (x : comp) : entry :=
  let d := off + blen (entry_header (c_shared x) (blen (c_delta x)) (blen (c_val x))) in
  {| e_off := off; e_delta := d; e_voff := d + blen (c_delta x);
     e_next := d + blen (c_delta x) + blen (c_val x);
     e_shared := c_shared x; e_key := c_key x; e_val := c_val x |}.
Fixpoint place (off : Z) (xs : list comp) : list entry :=
  match xs with
  | [] => []
  | x :: xs => place1 off x :: place (off + blen (comp_bytes x)) xs
  end.

(** Every entry shares a common prefix with the one before it. *)
Fixpoint shares (prev : bytes) (xs : list comp) : Prop :=
  match xs with
  | [] => True
  | x :: xs =>
      0 <= c_shared x <= blen prev /\ c_shared x <= blen (c_key x) /\ blen (c_key x) < 2 ^ 32 /\
      take (Z.to_nat (c_shared x)) prev = take (Z.to_nat (c_shared x)) (c_key x) /\
      shares (c_key x) xs
  end.

Lemma common_prefix_take a b :
  take (common_prefix a b) a = take (common_prefix a b) b /\
  (common_prefix a b <= length a)%nat /\ (common_prefix a b <= length b)%nat.
Proof.
  revert b. induction a as [|x a IH]; intros [|y b]; cbn; try (by repeat split; lia).
  case_bool; cbn; [|by repeat split; lia]. destruct (IH b) as (E & ? & ?). subst.
  rewrite E. repeat split; lia.
Qed.

Lemma compress_shares k kv counter last :
  Forall (fun '(key, _) => blen key < 2 ^ 32) kv -> shares last (compress k counter last kv).
Proof.
  intros H. revert counter last. induction H as [|[key val] kv Hk Hkv IH]; intros counter last;
    [done|]. cbn [compress]. pose proof (blen_nonneg last). pose proof (blen_nonneg key).
  case_bool; cbn; (split; [|split; [|split; [done|split; [|apply IH]]]]); try lia; try done.
  - pose proof (common_prefix_take last key) as (_ & ? & ?). ulia.
  - pose proof (common_prefix_take last key) as (_ & ? & ?). ulia.
  - rewrite Nat2Z.id. apply common_prefix_take.
Qed.

Lemma compress_kvs k counter last kv :
  (fun x => (c_key x, c_val x)) <$> compress k counter last kv = kv.
Proof.
  revert counter last. induction kv as [|[key val] kv IH]; intros; [done|].
  cbn [compress]. case_bool; cbn; by rewrite IH.
Qed.

Lemma blen_comp_bytes x :
  blen (comp_bytes x) =
  blen (entry_header (c_shared x) (blen (c_delta x)) (blen (c_val x)))
  + blen (c_delta x) + blen (c_val x).
Proof. unfold comp_bytes, entry_bytes. rewrite !blen_app. lia. Qed.

Lemma sub_mid a b d : sub (a ++ b ++ d) (blen a) (blen b) = b.
Proof.
  unfold sub, blen. rewrite !Nat2Z.id, drop_app_length. by apply take_app_length.
Qed.

Lemma chain_place data lim xs pre prev post :
  data = pre ++ comps_bytes xs ++ post -> lim = blen pre + blen (comps_bytes xs) ->
  lim < 2 ^ 32 -> shares prev xs -> chain data lim (blen pre) prev (place (blen pre) xs).
Proof.
  revert pre prev. induction xs as [|x xs IH]; intros pre prev Hdata Hlim Hl32 Hsh.
  { replace (blen pre) with lim; [constructor|]. rewrite Hlim. cbn. blia. }
  destruct Hsh as (Hs1 & Hs2 & Hk & Hpre & Hsh).
  change (comps_bytes (x :: xs)) with (comp_bytes x ++ comps_bytes xs) in *.
  rewrite blen_app in Hlim. cbn [place].
  assert (is_u32 (c_shared x)) as Hs by ulia.
  pose proof (blen_nonneg pre). pose proof (blen_nonneg (comps_bytes xs)).
  pose proof (blen_comp_bytes x) as Hbx. set (h := entry_header _ _ _) in *.
  pose proof (blen_nonneg (c_delta x)). pose proof (blen_nonneg (c_val x)).
  pose proof (entry_header_len (c_shared x) (blen (c_delta x)) (blen (c_val x)) Hs) as Hh.
  fold h in Hh. specialize (Hh ltac:(ulia) ltac:(ulia)).
  apply (chain_cons _ _ prev (place1 (blen pre) x)).
  - constructor; cbn [place1 e_off e_delta e_voff e_next e_shared e_key e_val]; fold h.
    + rewrite Hdata. unfold comp_bytes. rewrite <- app_assoc.
      rewrite DecodeEntry_entry; [|done|lia| |done].
      * fold h. match goal with |- Some (_, ?a, ?b, _) = Some (_, ?a', ?b', _) =>
          replace a' with a by lia; replace b' with b by lia end. done.
      * fold (comp_bytes x). rewrite !blen_app. pose proof (blen_nonneg post). lia.
    + done.
    + rewrite Hpre, Hdata. unfold comp_bytes, entry_bytes. fold h. rewrite <- !app_assoc.
      rewrite (app_assoc pre h), <- blen_app.
      replace (blen (pre ++ h) + blen (c_delta x) - blen (pre ++ h)) with (blen (c_delta x)) by lia.
      rewrite sub_mid. symmetry. apply take_drop.
    + rewrite Hdata. unfold comp_bytes, entry_bytes. fold h. rewrite <- !app_assoc.
      rewrite (app_assoc h), (app_assoc pre).
      replace (_ + blen (c_val x) - _) with (blen (c_val x)) by lia.
      symmetry. rewrite <- Z.add_assoc, <- !blen_app. apply sub_mid.
    + lia.
  - replace (e_next (place1 (blen pre) x)) with (blen (pre ++ comp_bytes x)).
    + replace (blen pre + blen (comp_bytes x)) with (blen (pre ++ comp_bytes x)) by apply blen_app.
      apply IH; [by rewrite Hdata, <- !app_assoc|rewrite blen_app; lia|done|done].
    + cbn. fold h. rewrite blen_app. lia.
Qed.

(** Offsets and indices of the restart points after the first. *)
Fixpoint restart_offs (off : Z) (xs : list comp) : list Z :=
  match xs with
  | [] => []
  | x :: xs => (if c_restart x then [off] else []) ++ restart_offs (off + blen (comp_bytes x)) xs
  end.
Fixpoint restart_idx (i : nat) (xs : list comp) : list nat :=
  match xs with
  | [] => []
  | x :: xs => (if c_restart x then [i] else []) ++ restart_idx (S i) xs
  end.

Lemma restart_idx_lookup i xs j a :
  restart_idx i xs !! j = Some a ->
  (i <= a)%nat /\ exists x, xs !! (a - i)%nat = Some x /\ c_restart x = true.
Proof.
  revert i j. induction xs as [|x xs IH]; intros i j Hj; [done|].
  cbn [restart_idx] in Hj.
  assert (forall j', restart_idx (S i) xs !! j' = Some a ->
          (i <= a)%nat /\ exists x0, (x :: xs) !! (a - i)%nat = Some x0 /\ c_restart x0 = true) as H.
  { intros j' Hj'. destruct (IH _ _ Hj') as (? & x0 & Hx & ?). split; [lia|]. exists x0.
    replace (a - i)%nat with (S (a - S i)) by lia. done. }
  destruct (c_restart x) eqn:E; [|exact (H _ Hj)].
  destruct j as [|j]; [|exact (H _ Hj)]. injection Hj as <-.
  split; [lia|]. exists x. by rewrite Nat.sub_diag.
Qed.

Lemma restart_idx_sorted i xs j k a b :
  (j < k)%nat -> restart_idx i xs !! j = Some a -> restart_idx i xs !! k = Some b -> (a < b)%nat.
Proof.
  revert i j k. induction xs as [|x xs IH]; intros i j k Hjk Hj Hk; [done|].
  cbn [restart_idx] in Hj, Hk. destruct (c_restart x); cbn [app] in Hj, Hk; [|by eapply IH].
  destruct k as [|k]; [lia|]. destruct j as [|j].
  - injection Hj as <-. apply restart_idx_lookup in Hk as [? _]. lia.
  - eapply (IH (S i) j k); [lia|done|done].
Qed.

Lemma restart_offs_idx off lim xs i ys :
  length ys = i ->
  restart_offs off xs = off_at lim (ys ++ place off xs) <$> restart_idx i xs.
Proof.
  revert off i ys. induction xs as [|x xs IH]; intros off i ys Hl; [done|].
  cbn [restart_offs restart_idx place].
  rewrite (IH _ (S i) (ys ++ [place1 off x])) by (rewrite length_app; cbn; lia).
  rewrite fmap_app, <- app_assoc. f_equal. destruct (c_restart x); [|done]. cbn.
  unfold off_at. rewrite lookup_app_r by lia. by rewrite <- Hl, Nat.sub_diag.
Qed.

Lemma place_lookup off xs i x :
  xs !! i = Some x -> exists o, place off xs !! i = Some (place1 o x).
Proof.
  revert off i. induction xs as [|y xs IH]; intros off i Hi; [done|].
  destruct i as [|i]; [injection Hi as <-; by eexists|]. by apply IH.
Qed.
Lemma length_place off xs : length (place off xs) = length xs.
Proof. revert off. induction xs; intros; cbn; auto. Qed.

Lemma kvs_place off xs : @kvs (place off xs) = (fun x => (c_key x, c_val x)) <$> xs.
Proof. revert off. induction xs as [|x xs IH]; intros; [done|]. cbn. by rewrite <- (IH (off + blen (comp_bytes x))). Qed.

(** Restart points share nothing. *)
Lemma compress_restart k counter last kv i x :
  compress k counter last kv !! i = Some x -> c_restart x = true -> c_shared x = 0.
Proof.
  revert counter last i. induction kv as [|[key val] kv IH]; intros counter last i Hi Hr; [done|].
  cbn [compress] in Hi. destruct (counter <? k); (destruct i as [|i]; [injection Hi as <-; done|]);
    by eapply IH.
Qed.

(** What [Add] decides, and its effect. *)
Definition comp_of (b : BlockBuilder.BlockBuilder) (key val : bytes) : comp :=
  let share := BlockBuilder.counter_ b <? BlockBuilder.block_restart_interval b in
  {| c_restart := negb share;
     c_shared := if share then Z.of_nat (common_prefix (BlockBuilder.last_key_ b) key) else 0;
     c_key := key; c_val := val |}.

Lemma Add_ok b key val :
  blen key < 2 ^ 32 -> blen val < 2 ^ 32 ->
  let x := comp_of b key val in
  BlockBuilder.Add b key val =
  {| BlockBuilder.block_restart_interval := BlockBuilder.block_restart_interval b;
     BlockBuilder.buffer_ := BlockBuilder.buffer_ b ++ comp_bytes x;
     BlockBuilder.restarts_ := BlockBuilder.restarts_ b ++
       (if c_restart x then [u32 (blen (BlockBuilder.buffer_ b))] else []);
     BlockBuilder.counter_ := (if c_restart x then 0 else BlockBuilder.counter_ b) + 1;
     BlockBuilder.finished_ := BlockBuilder.finished_ b;
     BlockBuilder.last_key_ := key |}.
Proof.
  intros Hk Hv x. set (last := BlockBuilder.last_key_ b).
  assert (0 <= c_shared x <= blen key /\
          take (Z.to_nat (c_shared x)) last = take (Z.to_nat (c_shared x)) key) as [Hs Hp].
  { unfold x, comp_of. cbn [c_shared]. fold last.
    pose proof (common_prefix_take last key) as (E & ? & ?). pose proof (blen_nonneg key).
    case_bool; [|done]. rewrite Nat2Z.id. split; [ulia|done]. }
  assert (sub key (c_shared x) (blen key - c_shared x) = c_delta x) as Hdelta.
  { unfold sub, c_delta. apply take_ge. rewrite length_drop. cbn [c_key x comp_of]. ulia. }
  assert (blen key - c_shared x = blen (c_delta x)) as Hlen.
  { unfold c_delta. rewrite blen_drop. cbn [c_key x comp_of]. ulia. }
  unfold BlockBuilder.Add. fold last.
  assert ((if BlockBuilder.counter_ b <? BlockBuilder.block_restart_interval b
    then (Z.of_nat (common_prefix last key), BlockBuilder.restarts_ b, BlockBuilder.counter_ b)
    else (0, BlockBuilder.restarts_ b ++ [u32 (blen (BlockBuilder.buffer_ b))], 0)) =
    (c_shared x, BlockBuilder.restarts_ b ++
       (if c_restart x then [u32 (blen (BlockBuilder.buffer_ b))] else []),
     if c_restart x then 0 else BlockBuilder.counter_ b)) as ->.
  { unfold x, comp_of. cbn [c_shared c_restart]. fold last. case_bool; cbn [negb]; [|done].
    by rewrite app_nil_r. }
  rewrite Hdelta, Hp. unfold PutVarint32. rewrite !u32_small by blia. rewrite Hlen.
  rewrite <- !app_assoc. f_equal; [|apply take_drop].
  unfold comp_bytes, entry_bytes, entry_header. by rewrite <- !app_assoc.
Qed.

Definition add_all (b : BlockBuilder.BlockBuilder) (kv : list (bytes * bytes)) :=
  fold_left (fun b '(key, val) => BlockBuilder.Add b key val) kv b.

Lemma compress_comp_of b key val kv :
  compress (BlockBuilder.block_restart_interval b) (BlockBuilder.counter_ b)
    (BlockBuilder.last_key_ b) ((key, val) :: kv) =
  let x := comp_of b key val in
  x :: compress (BlockBuilder.block_restart_interval b)
         ((if c_restart x then 0 else BlockBuilder.counter_ b) + 1) key kv.
Proof. cbn [compress]. unfold comp_of. cbn [c_restart]. by case_bool. Qed.

Lemma add_all_ok kv b :
  Forall (fun '(key, val) => blen key < 2 ^ 32 /\ blen val < 2 ^ 32) kv ->
  let xs := compress (BlockBuilder.block_restart_interval b) (BlockBuilder.counter_ b)
              (BlockBuilder.last_key_ b) kv in
  blen (BlockBuilder.buffer_ b) + blen (comps_bytes xs) < 2 ^ 32 ->
  BlockBuilder.buffer_ (add_all b kv) = BlockBuilder.buffer_ b ++ comps_bytes xs /\
  BlockBuilder.restarts_ (add_all b kv) =
    BlockBuilder.restarts_ b ++ restart_offs (blen (BlockBuilder.buffer_ b)) xs.
Proof.
  intros H. revert b. induction H as [|[key val] kv [Hk Hv] Hkv IH]; intros b xs Hsz.
  { cbn. by rewrite !app_nil_r. }
  unfold add_all. cbn [fold_left]. fold (add_all (BlockBuilder.Add b key val) kv).
  unfold xs in *. rewrite compress_comp_of in *. set (x := comp_of b key val) in *. cbv zeta in *.
  set (ys := compress _ _ key kv) in *.
  change (comps_bytes (x :: ys)) with (comp_bytes x ++ comps_bytes ys) in *.
  rewrite blen_app in Hsz. pose proof (blen_nonneg (comps_bytes ys)).
  pose proof (blen_nonneg (comp_bytes x)). pose proof (blen_nonneg (BlockBuilder.buffer_ b)).
  pose proof (Add_ok b key val Hk Hv) as HA. cbv zeta in HA. fold x in HA. rewrite HA. clear HA.
  match goal with |- context [add_all ?b' kv] => destruct (IH b') as [E1 E2] end;
    cbn [BlockBuilder.block_restart_interval BlockBuilder.counter_
      BlockBuilder.last_key_ BlockBuilder.buffer_ BlockBuilder.restarts_] in *.
  { fold ys. rewrite blen_app. lia. }
  fold ys in E1, E2.
  rewrite E1, E2. rewrite <- !app_assoc, blen_app. cbn [restart_offs].
  rewrite u32_small by ulia. done.
Qed.

(** ** Finish *)

(** A block built from [kv], and an upper bound of its size. *)
Definition block_contents (k : Z) (kv : list (bytes * bytes)) : bytes :=
  snd (BlockBuilder.Finish (add_all (BlockBuilder.new k) kv)).

Fixpoint kv_size (kv : list (bytes * bytes)) : Z :=
  match kv with
  | [] => 8
  | (key, val) :: kv => blen key + blen val + 19 + kv_size kv
  end.

Lemma EncodeVarint32_le v : blen (EncodeVarint32 v) <= 5.
Proof. unfold EncodeVarint32. repeat case_bool; blia. Qed.

Lemma kv_size_nonneg kv : 8 <= kv_size kv.
Proof. induction kv as [|[key val] kv IH]; cbn [kv_size]; blia. Qed.

Lemma comps_size k counter last kv :
  let xs := compress k counter last kv in
  blen (comps_bytes xs) + 4 * blen (restart_idx 0 xs) + 8 <= kv_size kv.
Proof.
  cbv zeta. assert (forall i, blen (comps_bytes (compress k counter last kv))
    + 4 * blen (restart_idx i (compress k counter last kv)) + 8 <= kv_size kv) as H; [|apply H].
  revert counter last. induction kv as [|[key val] kv IH]; intros counter last i; [done|].
  assert (forall x ys, c_key x = key -> c_val x = val -> 0 <= c_shared x ->
    blen (comps_bytes ys) + 4 * blen (restart_idx (S i) ys) + 8 <= kv_size kv ->
    blen (comps_bytes (x :: ys)) + 4 * blen (restart_idx i (x :: ys)) + 8
      <= kv_size ((key, val) :: kv)) as Hx.
  { intros x ys Hk Hv Hs Hys. change (comps_bytes (x :: ys)) with (comp_bytes x ++ comps_bytes ys).
    cbn [restart_idx kv_size]. rewrite !blen_app, blen_comp_bytes. unfold c_delta, entry_header.
    rewrite Hk, Hv, !blen_app, blen_drop.
    pose proof (EncodeVarint32_le (c_shared x)). pose proof (EncodeVarint32_le (blen val)).
    match goal with |- context [EncodeVarint32 (Z.max ?a ?b)] =>
      pose proof (EncodeVarint32_le (Z.max a b)) end.
    pose proof (blen_nonneg key). pose proof (blen_nonneg val).
    assert (blen (if c_restart x then [i] else []) <= 1) by (by destruct (c_restart x)). lia. }
  cbn [compress]. case_bool; apply Hx; try done; cbn; lia.
Qed.

Lemma kv_size_keys kv :
  kv_size kv < 2 ^ 32 -> Forall (fun '(key, val) => blen key < 2 ^ 32 /\ blen val < 2 ^ 32) kv.
Proof.
  induction kv as [|[key val] kv IH]; cbn [kv_size]; intros H; constructor;
    pose proof (kv_size_nonneg kv); [blia|apply IH; blia].
Qed.

Section Build.
Context (k : Z) (kv : list (bytes * bytes)).
Context (Hk : 1 <= k) (Hsize : kv_size kv < 2 ^ 32).

Definition built_comps : list comp := compress k 0 [] kv.
Definition built_lim : Z := blen (comps_bytes built_comps).
Definition built_rp : list nat := 0%nat :: restart_idx 0 built_comps.
Definition built_entries : list entry := place 0 built_comps.

Lemma built_bounds :
  0 <= built_lim /\ built_lim + 4 * blen built_rp + 4 < 2 ^ 32.
Proof.
  pose proof (comps_size k 0 [] kv) as H. cbv zeta in H. fold built_comps in H.
  unfold built_lim, built_rp. rewrite blen_cons.
  pose proof (blen_nonneg (comps_bytes built_comps)). lia.
Qed.

Definition restart_array : list Z := 0 :: restart_offs 0 built_comps.

Lemma blen_restart_array : blen restart_array = blen built_rp.
Proof.
  unfold restart_array, built_rp. rewrite !blen_cons.
  rewrite (restart_offs_idx 0 0 built_comps 0 []) by done. unfold blen. by rewrite length_fmap.
Qed.

Lemma block_contents_eq :
  block_contents k kv =
  comps_bytes built_comps ++ fixed_array restart_array ++ EncodeFixed32 (blen built_rp).
Proof.
  pose proof built_bounds as Hb. unfold built_lim in Hb. pose proof (blen_nonneg built_rp).
  unfold block_contents, BlockBuilder.Finish. cbn [snd].
  destruct (add_all_ok kv (BlockBuilder.new k)) as [E1 E2];
    [by apply kv_size_keys| |];
    cbn [BlockBuilder.new BlockBuilder.buffer_ BlockBuilder.restarts_ BlockBuilder.counter_
         BlockBuilder.last_key_ BlockBuilder.block_restart_interval] in *; fold built_comps in *.
  { rewrite blen_nil. lia. }
  cbn [app] in E1, E2. change (BlockBuilder.restarts_ (add_all (BlockBuilder.new k) kv) = restart_array) in E2.
    rewrite E1, E2, fold_PutFixed32. unfold PutFixed32. rewrite blen_restart_array, <- app_assoc.
  by rewrite u32_small by ulia.
Qed.

Lemma restart_idx_pos j i : restart_idx 0 built_comps !! j = Some i -> (0 < i < length built_comps)%nat.
Proof.
  intros Hj. destruct (restart_idx_lookup _ _ _ _ Hj) as (_ & x & Hx & Hr).
  rewrite Nat.sub_0_r in Hx. pose proof (lookup_lt_Some _ _ _ Hx). split; [|done].
  destruct i as [|i]; [|lia]. unfold built_comps in Hx. destruct kv as [|[key val] kv']; [done|].
  cbn [compress] in Hx. rewrite (proj2 (Z.ltb_lt 0 k)) in Hx by lia.
  injection Hx as <-. done.
Qed.

Lemma built_restart_off j i :
  built_rp !! j = Some i ->
  restart_array !! j = Some (off_at built_lim built_entries i).
Proof.
  destruct j as [|j]; intros Hj.
  - injection Hj as <-. cbn. f_equal. unfold off_at, built_entries, built_lim.
    by destruct built_comps.
  - unfold restart_array, built_rp in *. cbn [lookup list_lookup] in *.
    change (restart_idx 0 built_comps !! j = Some i) in Hj.
    change (restart_offs 0 built_comps !! j = Some (off_at built_lim built_entries i)).
    rewrite (restart_offs_idx 0 built_lim built_comps 0 []) by done.
    rewrite list_lookup_fmap, Hj. done.
Qed.

Lemma built_block_ok : block_ok (block_contents k kv) built_lim built_rp built_entries.
Proof.
  pose proof built_bounds as [Hb0 Hb]. pose proof (blen_nonneg built_rp).
  assert (chain (block_contents k kv) built_lim 0 [] built_entries) as Hchain.
  { change 0 with (blen (@nil Z)) at 1. unfold built_entries. change 0 with (blen (@nil Z)).
    eapply chain_place; [apply block_contents_eq|done|lia|].
    apply compress_shares. refine (Forall_impl _ _ (kv_size_keys kv Hsize)). by intros [? ?] [? _]. }
  constructor.
  - lia.
  - done.
  - done.
  - lia.
  - intros j j' a b Hjj Hj Hj'. destruct j' as [|j']; [lia|]. destruct j as [|j].
    + injection Hj as <-. apply restart_idx_pos in Hj'. lia.
    + eapply (restart_idx_sorted _ _ j j'); [lia|exact Hj|exact Hj'].
  - intros j i e Hj He.
    assert (exists x, built_comps !! i = Some x) as [x Hx].
    { apply lookup_lt_Some in He. unfold built_entries in He. rewrite length_place in He.
      by apply lookup_lt_is_Some_2. }
    destruct (place_lookup 0 _ _ _ Hx) as [o Ho]. unfold built_entries in He.
    rewrite Ho in He. injection He as <-. cbn.
    destruct j as [|j].
    + injection Hj as <-. unfold built_comps in Hx. destruct kv as [|[key val] kv']; [done|].
      cbn [compress] in Hx. rewrite (proj2 (Z.ltb_lt 0 k)) in Hx by lia. by injection Hx as <-.
    + destruct (restart_idx_lookup _ _ _ _ Hj) as (_ & x' & Hx' & Hr).
      rewrite Nat.sub_0_r in Hx'. eapply compress_restart; [exact Hx|]. by simplify_eq.
  - intros [|j] i Hj; [injection Hj as <-; by left|right].
    unfold built_entries. rewrite length_place. by apply (restart_idx_pos j).
  - intros j i Hj. rewrite block_contents_eq.
    pose proof (built_restart_off _ _ Hj) as Hr.
    replace (Z.to_nat (built_lim + Z.of_nat j * 4)) with
      (length (comps_bytes built_comps) + 4 * j)%nat by (unfold built_lim; ulia).
    rewrite <- drop_drop, drop_app_length. apply fixed_array_lookup; [done|].
    unfold off_at. destruct (built_entries !! i) as [e|] eqn:He; [|ulia].
    destruct (chain_lookup _ _ _ _ _ _ _ Hchain He) as (p & Hd & _).
    pose proof (d_order _ _ _ _ Hd). ulia.
Qed.

Lemma blen_block_contents : blen (block_contents k kv) = built_lim + 4 * blen built_rp + 4.
Proof.
  rewrite block_contents_eq, !blen_app, blen_fixed_array, blen_restart_array, blen_EncodeFixed32.
  unfold built_lim. lia.
Qed.

Lemma built_num_restarts :
  NumRestarts (block_contents k kv) (blen (block_contents k kv)) = blen built_rp.
Proof.
  pose proof built_bounds. pose proof (blen_nonneg built_rp).
  unfold NumRestarts. rewrite blen_block_contents, block_contents_eq, app_assoc.
  rewrite drop_app_length'.
  - rewrite <- (app_nil_r (EncodeFixed32 _)). apply DecodeFixed32_encode. ulia.
  - rewrite length_app. pose proof (blen_fixed_array restart_array) as Hf.
    rewrite blen_restart_array in Hf. unfold built_lim in *. ulia.
Qed.

Lemma built_iterator c :
  NewIterator (mkBlock (block_contents k kv)) c =
  inl (Iter.new c (block_contents k kv) built_lim (blen built_rp)).
Proof.
  pose proof built_bounds. pose proof blen_block_contents as Hl. pose proof built_num_restarts as Hn.
  assert (1 <= blen built_rp) by (unfold built_rp; blia).
  assert (mkBlock (block_contents k kv) = {| data_ := block_contents k kv;
    size_ := blen (block_contents k kv); restart_offset_ := built_lim |}) as ->.
  { unfold mkBlock. rewrite (proj2 (Z.ltb_ge (blen (block_contents k kv)) 4)) by lia. rewrite Hn.
    rewrite (proj2 (Z.ltb_ge ((blen (block_contents k kv) - 4) / 4) _))
      by (apply Z.div_le_lower_bound; lia).
    f_equal. rewrite (u32_small (1 + _)) by ulia. rewrite u32_small by ulia. lia. }
  unfold NewIterator. cbn [size_ data_ restart_offset_].
  rewrite (proj2 (Z.ltb_ge _ 4)), Hn by lia. by rewrite (proj2 (Z.eqb_neq _ 0)) by lia.
Qed.

Lemma built_kvs : @kvs built_entries = kv.
Proof. unfold built_entries. rewrite kvs_place. apply compress_kvs. Qed.
End Build.

(** ** Arbitrary contents *)

(** A decoded entry header lies inside the block, and the bound check keeps the
    wrapped end of the entry inside it as well. *)
Lemma DecodeEntry_bounds data p lim s n v q :
  bytes_ok data -> 0 <= p -> lim <= blen data -> lim < 2 ^ 32 ->
  DecodeEntry data p lim = Some (s, n, v, q) ->
  p + 3 <= q <= lim /\ 0 <= n /\ 0 <= v /\ u32 (n + v) <= lim - q.
Proof.
  intros Hok Hp Hlim H32. unfold DecodeEntry. case_bool; [done|].
  assert (forall q' n' v' s', p + 3 <= q' <= lim -> 0 <= n' -> 0 <= v' ->
    (if u32 (lim - q') <? u32 (n' + v') then None else Some (s', n', v', q')) = Some (s, n, v, q) ->
    p + 3 <= q <= lim /\ 0 <= n /\ 0 <= v /\ u32 (n + v) <= lim - q) as Hend.
  { intros q' n' v' s' Hq' Hn' Hv'. case_bool; [done|]. intros [= -> -> -> ->].
    rewrite (u32_small (lim - q)) in * by ulia. lia. }
  case_bool.
  - apply Hend; [lia|apply at_range; done|apply at_range; done].
  - change GetVarint32Ptr with GetVarint32.
    set (x := sub data p (lim - p)). assert (bytes_ok x) as Hx by (unfold x, sub; auto with pebbles).
    assert (blen x = lim - p) as Hxl by (unfold x, sub; rewrite blen_take, blen_drop; lia).
    clearbody x.
    destruct (GetVarint32 x) as [[s' x1]|] eqn:E1; [|done].
    apply GetVarint32_reads in E1 as (_ & p1 & -> & ?); [|done].
    apply bytes_ok_app in Hx as [_ Hx].
    destruct (GetVarint32 x1) as [[n' x2]|] eqn:E2; [|done].
    apply GetVarint32_reads in E2 as (? & p2 & -> & ?); [|done].
    apply bytes_ok_app in Hx as [_ Hx].
    destruct (GetVarint32 x2) as [[v' x3]|] eqn:E3; [|done].
    apply GetVarint32_reads in E3 as (? & p3 & -> & ?); [|done].
    apply Hend; blia.
Qed.

(** An iterator over arbitrary bytes. *)
Record readable (it : Iter) : Prop := {
  r_bytes : bytes_ok (idata_ it);
  r_lim : 0 <= restarts_ it <= blen (idata_ it) /\ restarts_ it < 2 ^ 32;
  r_num : 0 <= num_restarts_ it /\ 2 * num_restarts_ it < 2 ^ 32;
}.

Lemma advance_restart_frame fuel it :
  exists ri, advance_restart fuel it = set_pos it (current_ it) ri.
Proof.
  revert it. induction fuel as [|fuel IH]; intros it; cbn [advance_restart].
  - exists (restart_index_ it). by destruct it.
  - destruct (_ && _); [|exists (restart_index_ it); by destruct it].
    destruct (IH (set_pos it (current_ it) (restart_index_ it + 1))) as [ri ->]. by exists ri.
Qed.

(** A successful [ParseNextKey] moves forward, on any contents. *)
Lemma ParseNextKey_progress it it' :
  readable it -> ParseNextKey it = (true, it') ->
  readable it' /\ restarts_ it' = restarts_ it /\
  NextEntryOffset it < NextEntryOffset it' <= restarts_ it.
Proof.
  intros [Hb [Hl1 Hl2] Hn]. unfold ParseNextKey.
  cbn [set_pos current_ restarts_ idata_ key_ restart_index_ num_restarts_].
  case_bool; [done|].
  destruct (DecodeEntry _ _ _) as [[[[s n] v] q]|] eqn:E; [|done].
  assert (is_u32 (NextEntryOffset it)) as Hu by apply u32_range.
  apply DecodeEntry_bounds in E as (Hq & Hn0 & Hv0 & Hw); [|done|apply Hu|lia|lia].
  case_bool; [done|]. intros [= <-].
  destruct (advance_restart_frame (Z.to_nat (num_restarts_ it)) (set_kv (set_pos it
    (NextEntryOffset it) (restart_index_ it)) (take (Z.to_nat s) (key_ it) ++
     sub (idata_ it) q n) (q + n, v))) as [ri ->].
  split; [by constructor|]. split; [done|].
  assert (u32 (q + n + v) = q + u32 (n + v)) as Hnext.
  { pose proof (u32_range (n + v)). rewrite <- (u32_small (q + u32 (n + v))) by ulia.
    unfold u32 at 2 3. by rewrite Zplus_mod_idemp_r, Z.add_assoc. }
  change (NextEntryOffset (set_pos _ _ _)) with (u32 (q + n + v)). rewrite Hnext.
  pose proof (u32_range (n + v)). ulia.
Qed.

(** With more fuel than bytes left, the scans do not depend on the fuel: the loops
    of the code stop. *)
Definition bytes_left (it : Iter) : nat := Z.to_nat (restarts_ it - NextEntryOffset it).

Lemma seek_scan_fuel m m' it t :
  readable it -> (bytes_left it < m)%nat -> (bytes_left it < m')%nat ->
  seek_scan m it t = seek_scan m' it t.
Proof.
  revert m' it. induction m as [|m IH]; intros [|m'] it Hr Hm Hm'; [lia..|].
  cbn [seek_scan]. destruct (ParseNextKey it) as [[|] it'] eqn:E; [|done]. cbn [negb].
  destruct (ParseNextKey_progress it it' Hr E) as (Hr' & Hl & Hp).
  case_bool; [done|]. unfold bytes_left in *. apply IH; [done|lia|lia].
Qed.

Lemma scan_to_fuel m m' it bound :
  readable it -> (bytes_left it < m)%nat -> (bytes_left it < m')%nat ->
  scan_to m it bound = scan_to m' it bound.
Proof.
  revert m' it. induction m as [|m IH]; intros [|m'] it Hr Hm Hm'; [lia..|].
  cbn [scan_to]. destruct (ParseNextKey it) as [[|] it'] eqn:E; [|done]. cbn [andb].
  destruct (ParseNextKey_progress it it' Hr E) as (Hr' & Hl & Hp).
  case_bool; [|done]. unfold bytes_left in *. apply IH; [done|lia|lia].
Qed.

Lemma seek_restart_fuel m m' it t l r :
  readable it -> 0 <= l -> r < num_restarts_ it -> r - l < Z.of_nat m -> r - l < Z.of_nat m' ->
  seek_restart m it t l r = seek_restart m' it t l r.
Proof.
  intros Hr. pose proof (r_num _ Hr).
  revert m' l r. induction m as [|m IH]; intros m' l r Hl Hrr Hm Hm'.
  { destruct m'; cbn [seek_restart]; [done|]. case_bool; [lia|done]. }
  destruct m' as [|m'].
  { cbn [seek_restart]. case_bool; [lia|done]. }
  cbn [seek_restart]. case_bool; [|done]. rewrite u32_small by ulia.
  set (mid := (l + r + 1) / 2).
  assert (l < mid <= r) by (unfold mid; Z.div_mod_to_equations; lia).
  destruct (DecodeEntry _ _ _) as [[[[s n] v] q]|]; [|done]. destruct (negb _); [done|].
  destruct (_ <? 0); apply IH; lia.
Qed.

Lemma prev_restart_fuel m m' it o :
  (Z.to_nat (restart_index_ it) < m)%nat -> (Z.to_nat (restart_index_ it) < m')%nat ->
  0 <= restart_index_ it -> prev_restart m it o = prev_restart m' it o.
Proof.
  revert m' it. induction m as [|m IH]; intros [|m'] it Hm Hm' H0; [lia..|].
  cbn [prev_restart]. case_bool; [|done]. case_bool; [done|].
  apply IH; cbn [set_pos restart_index_]; lia.
Qed.

Lemma scan_fuel_left it : (bytes_left it < scan_fuel it)%nat.
Proof.
  unfold bytes_left, scan_fuel. pose proof (u32_range (fst (value_ it) + snd (value_ it))).
  unfold NextEntryOffset. ulia.
Qed.

Lemma readable_new cmp contents it :
  bytes_ok contents -> blen contents < 2 ^ 32 ->
  NewIterator (mkBlock contents) cmp = inl it -> readable it /\ 0 < num_restarts_ it.
Proof.
  intros Hok H32. unfold NewIterator, mkBlock. case_bool; [done|].
  pose proof (blen_nonneg contents).
  assert (is_u32 (NumRestarts contents (blen contents))) as Hn
    by (apply DecodeFixed32_range; auto with pebbles).
  case_bool; [done|]. cbn [size_ data_ restart_offset_]. case_bool; [done|].
  case_bool; [done|]. intros [= <-].
  set (nr := NumRestarts _ _) in *.
  assert (nr * 4 <= blen contents - 4) by (Z.div_mod_to_equations; lia).
  rewrite (u32_small (1 + nr)) by ulia. rewrite u32_small by ulia.
  split; [constructor|]; cbn [Iter.new idata_ restarts_ num_restarts_]; [done|ulia|ulia|ulia].
Qed.

(** ** The theorems *)

(** The contract holds for the iterator over a built block. *)
Lemma built_contract k kv c valid {Hc : ComparatorOk c valid} :
  1 <= k -> kv_size kv < 2 ^ 32 -> valid_keys valid kv -> sorted_keys c kv ->
  exists it pos, NewIterator (mkBlock (block_contents k kv)) c = inl it /\ pos it None /\
    IteratorOk c valid kv pos.
Proof.
  intros Hk Hsz Hv Hs. pose proof (built_block_ok k kv Hk Hsz) as Hok.
  pose proof (built_kvs k kv) as Hkvs.
  assert (forall i e, built_entries k kv !! i = Some e -> kv !! i = Some (e_key e, e_val e)) as Hl.
  { intros i e He. rewrite <- Hkvs. apply kvs_lookup. eauto. }
  eexists _, (@block_pos (block_contents k kv) (built_lim k kv) (built_rp k kv)
                (built_entries k kv) c).
  split; [by apply built_iterator|]. split; [by repeat split|].
  rewrite <- Hkvs at 1. apply block_iterator_ok; [done|done| |].
  - intros i e He. by eapply valid_keys_lookup, Hl.
  - intros i j e e' Hij He He'. eapply sorted_keys_lookup; eauto.
Qed.

(** C18: The iterator over a block built by [BlockBuilder] keeps the documented
    iterator contract: for every restart interval, every strictly increasing list
    of entries below 4 GiB and every comparator that keeps its own contract, the
    positions reached by SeekToFirst, SeekToLast, Next, Prev and Seek (the first
    entry at or past the target, found by binary and then linear search) are the
    ones of the list of entries, the keys and values read there are the ones
    added, and the status stays OK. *)
Theorem block_iterator_contract (k : Z) (kv : list (bytes * bytes)) (c : Comparator)
  (valid : bytes -> Prop) (Hc : ComparatorOk c valid)
  (Hk : 1 <= k) (Hsize : kv_size kv < 2 ^ 32)
  (Hvalid : valid_keys valid kv) (Hsorted : sorted_keys c kv) :
  exists it pos, NewIterator (mkBlock (block_contents k kv)) c = inl it /\ pos it None /\
    IteratorOk c valid kv pos.
Proof. by apply built_contract. Qed.

Definition example_kv : list (bytes * bytes) :=
  [([1], [10]); ([1; 2], [20; 21]); ([1; 2; 3], [30]); ([2], []); ([2; 200], [50])].

Lemma block_iterator_contract_witness :
  exists it pos, NewIterator (mkBlock (block_contents 2 example_kv)) BytewiseComparator = inl it /\
    pos it None /\ IteratorOk BytewiseComparator bytes_ok example_kv pos.
Proof.
  apply (block_iterator_contract 2 example_kv BytewiseComparator bytes_ok _).
  - lia.
  - by vm_compute.
  - repeat constructor; done.
  - repeat constructor; by vm_compute.
Defined.

(** Block round trip: reading a built block from SeekToFirst with Next yields
    exactly the entries that were added, in order and with a status of OK at every
    step, and Seek finds the first entry at or past any valid target. *)
Theorem block_roundtrip (k : Z) (kv : list (bytes * bytes)) (c : Comparator)
  (valid : bytes -> Prop) (Hc : ComparatorOk c valid) (t : bytes) (Ht : valid t)
  (Hk : 1 <= k) (Hsize : kv_size kv < 2 ^ 32)
  (Hvalid : valid_keys valid kv) (Hsorted : sorted_keys c kv) :
  exists it, NewIterator (mkBlock (block_contents k kv)) c = inl it /\
    collect (length kv) (Iter.SeekToFirst it) = kv /\
    match first_ge c kv t with
    | Some i => Iter.Valid (Iter.Seek it t) = true /\
                kv !! i = Some (Iter.key (Iter.Seek it t), Iter.value (Iter.Seek it t))
    | None => Iter.Valid (Iter.Seek it t) = false
    end /\ Iter.status (Iter.Seek it t) = OK.
Proof.
  destruct (built_contract k kv c valid Hk Hsize Hvalid Hsorted) as (it & pos & Hit & Hp & Hio).
  exists it. split; [done|]. split; [exact (collect_all c valid kv pos it None Hp)|].
  pose proof (io_seek it None t Ht Hp) as Hs. split; [|exact (io_status _ _ Hs)].
  destruct (first_ge c kv t) as [i|].
  - split; [exact (io_valid _ _ Hs)|exact (io_entry _ _ Hs)].
  - exact (io_valid _ _ Hs).
Qed.

Lemma block_roundtrip_witness :
  exists it, NewIterator (mkBlock (block_contents 2 example_kv)) BytewiseComparator = inl it /\
    collect 5 (Iter.SeekToFirst it) = example_kv /\
    (Iter.Valid (Iter.Seek it [1; 9]) = true /\
     example_kv !! 3%nat = Some (Iter.key (Iter.Seek it [1; 9]), Iter.value (Iter.Seek it [1; 9]))) /\
    Iter.status (Iter.Seek it [1; 9]) = OK.
Proof.
  apply (block_roundtrip 2 example_kv BytewiseComparator bytes_ok _ [1; 9]).
  - repeat constructor; done.
  - lia.
  - by vm_compute.
  - repeat constructor; done.
  - repeat constructor; by vm_compute.
Defined.

(** The block iterator never hangs on corrupted contents: for every byte string
    below 4 GiB taken as a block, the binary search, the linear scans of Seek, Prev
    and SeekToLast and the backward search of Prev give the same result with any
    amount of fuel from the one the model uses, so the loops of the code end; and
    every successful ParseNextKey moves strictly forward inside the block. *)
Theorem block_iterator_terminates (contents : bytes) (c : Comparator) (it it' : Iter) (t : bytes)
  (bound o : Z) (m : nat)
  (Hok : bytes_ok contents) (Hsize : blen contents < 2 ^ 32)
  (Hnew : NewIterator (mkBlock contents) c = inl it)
  (Hit' : idata_ it' = idata_ it /\ restarts_ it' = restarts_ it /\
          num_restarts_ it' = num_restarts_ it /\ 0 <= restart_index_ it')
  (Hm : (scan_fuel it' + Z.to_nat (num_restarts_ it') + Z.to_nat (restart_index_ it') < m)%nat) :
  seek_restart m it' t 0 (num_restarts_ it' - 1) =
    seek_restart (Z.to_nat (num_restarts_ it')) it' t 0 (num_restarts_ it' - 1) /\
  seek_scan m it' t = seek_scan (scan_fuel it') it' t /\
  scan_to m it' bound = scan_to (scan_fuel it') it' bound /\
  prev_restart m it' o = prev_restart (S (Z.to_nat (restart_index_ it'))) it' o /\
  (forall it'', ParseNextKey it' = (true, it'') ->
     NextEntryOffset it' < NextEntryOffset it'' <= restarts_ it').
Proof.
  destruct (readable_new c contents it Hok Hsize Hnew) as [[Hb Hl Hn] Hpos].
  destruct Hit' as (E1 & E2 & E3 & Hri).
  assert (readable it') as Hr by (constructor; rewrite ?E1, ?E2, ?E3; done).
  pose proof (scan_fuel_left it').
  split; [apply seek_restart_fuel; [done|lia|lia|lia|lia]|].
  split; [apply seek_scan_fuel; [done|lia|lia]|].
  split; [apply scan_to_fuel; [done|lia|lia]|].
  split; [apply prev_restart_fuel; lia|].
  intros it'' E. by apply ParseNextKey_progress in E as (_ & _ & ?).
Qed.

Definition corrupt_block : bytes := [0; 200; 1; 7; 255; 255; 0; 0; 0; 0; 1; 0; 0; 0].

Lemma block_iterator_terminates_witness :
  let it := Iter.new BytewiseComparator corrupt_block 6 1 in
  seek_scan 100 it [3] = seek_scan 7 it [3].
Proof.
  set (it := Iter.new BytewiseComparator corrupt_block 6 1).
  assert (NewIterator (mkBlock corrupt_block) BytewiseComparator = inl it) as Hnew by reflexivity.
  assert (bytes_ok corrupt_block) as Hok by (repeat constructor; done).
  refine (proj1 (proj2 (block_iterator_terminates corrupt_block BytewiseComparator it it [3] 0 0 100
    Hok _ Hnew _ _))).
  - done.
  - done.
  - cbn. lia.
Defined.

(** The entry bound check can be bypassed: [non_shared + value_length] is added in
    32 bits, so a corrupted header of two lengths that sum to 2^32 passes it although
    the key it announces lies wholly outside the block. *)
Theorem block_entry_bound_overflow (n : Z) (Hn : 0 < n < 2 ^ 32) :
  let data := entry_header 0 n (2 ^ 32 - n) in
  DecodeEntry data 0 (blen data) = Some (0, n, 2 ^ 32 - n, blen data).
Proof.
  intros data. assert (is_u32 0 /\ is_u32 n /\ is_u32 (2 ^ 32 - n)) as (H0 & H1 & H2) by ulia.
  pose proof (entry_header_len _ _ _ H0 H1 H2) as Hlen. fold data in Hlen.
  pose proof (entry_header_bytes _ _ _ [] H0 H1 H2) as Hbytes. cbv zeta in Hbytes.
  fold data in Hbytes. rewrite app_nil_r in Hbytes.
  unfold DecodeEntry. rewrite (proj2 (Z.ltb_ge _ 3)) by lia.
  destruct (Z.ltb_spec (Z.lor (Z.lor (at_ data 0) (at_ data (0 + 1))) (at_ data (0 + 2))) 128) as [Hlt|].
  { change (at_ data 0) with (nth 0 data 0) in Hlt. change (at_ data (0 + 1)) with (nth 1 data 0) in Hlt.
    change (at_ data (0 + 2)) with (nth 2 data 0) in Hlt. apply Hbytes in Hlt. ulia. }
  assert (sub data 0 (blen data - 0) = data ++ []) as ->.
  { unfold sub. rewrite app_nil_r. apply take_blen. blia. }
  unfold data at 1. unfold entry_header. rewrite <- !app_assoc.
  change GetVarint32Ptr with GetVarint32. rewrite !roundtrip by done.
  rewrite blen_nil, Z.sub_0_r, Z.sub_diag.
  replace (n + (2 ^ 32 - n)) with (2 ^ 32) by lia. done.
Qed.

Lemma block_entry_bound_overflow_witness :
  let data := entry_header 0 1 4294967295 in
  DecodeEntry data 0 (blen data) = Some (0, 1, 4294967295, 7).
Proof. apply (block_entry_bound_overflow 1). lia. Defined.
