(* ===== verification/TwoLevelIterator.v ===== *)
(** * The two-level iterator

    Models [src/pebblesdb/src/table/two_level_iterator.cc]: an index iterator whose
    values name blocks, and a function that opens a block as an iterator.
    [TwoLevelIterator] and [TwoLevelIteratorGuards] are the same code over block
    functions of different arguments; here the arguments are one value [arg_], which
    the block function may change (it fills a cache). *)

From S2P Require Import Prelude Status Comparator Iterator.

Section TwoLevelIterator.
Context {I D S : Type} `{Iterator I} `{Iterator D}.
Context (block_function_ : S -> bytes -> D * S).

Record TwoLevelIterator := {
  arg_ : S;
  status_ : Status;
  index_iter_ : IteratorWrapper I;
  data_iter_ : option (IteratorWrapper D);      (** may be null *)
  data_block_handle_ : bytes;
}.

Definition NewTwoLevelIterator (index_iter : I) (arg : S) : TwoLevelIterator :=
  {| arg_ := arg; status_ := OK; index_iter_ := wrap index_iter; data_iter_ := None;
     data_block_handle_ := [] |}.

Definition set_index (it : TwoLevelIterator) (w : IteratorWrapper I) : TwoLevelIterator :=
  {| arg_ := arg_ it; status_ := status_ it; index_iter_ := w; data_iter_ := data_iter_ it;
     data_block_handle_ := data_block_handle_ it |}.
Definition set_data (it : TwoLevelIterator) (w : option (IteratorWrapper D)) : TwoLevelIterator :=
  {| arg_ := arg_ it; status_ := status_ it; index_iter_ := index_iter_ it; data_iter_ := w;
     data_block_handle_ := data_block_handle_ it |}.

Definition SaveError (it : TwoLevelIterator) (s : Status) : TwoLevelIterator :=
  if ok (status_ it) && negb (ok s)
  then {| arg_ := arg_ it; status_ := s; index_iter_ := index_iter_ it;
          data_iter_ := data_iter_ it; data_block_handle_ := data_block_handle_ it |}
  else it.

Definition SetDataIterator (it : TwoLevelIterator) (data_iter : option D) : TwoLevelIterator :=
  let it := match data_iter_ it with None => it | Some w => SaveError it (status w) end in
  set_data it (wrap <$> data_iter).

Definition InitDataBlock (it : TwoLevelIterator) : TwoLevelIterator :=
  if negb (Valid (index_iter_ it)) then SetDataIterator it None
  else
    let handle := value (index_iter_ it) in
    if (match data_iter_ it with None => false | Some _ => true end)
       && (Slice_compare handle (data_block_handle_ it) =? 0)
    then it
    else
      let '(iter, arg) := block_function_ (arg_ it) handle in
      SetDataIterator {| arg_ := arg; status_ := status_ it; index_iter_ := index_iter_ it;
                         data_iter_ := data_iter_ it; data_block_handle_ := handle |} (Some iter).

(** [if (data_iter_.iter() != NULL) data_iter_.f();] *)
Definition on_data (it : TwoLevelIterator) (f : IteratorWrapper D -> IteratorWrapper D) :=
  set_data it (f <$> data_iter_ it).

Definition data_valid (it : TwoLevelIterator) : bool :=
  match data_iter_ it with None => false | Some w => Valid w end.

(** The loops move the index by one entry in a round. *)
Fixpoint SkipEmptyDataBlocksForward (fuel : nat) (it : TwoLevelIterator) : TwoLevelIterator :=
  match fuel with
  | O => it
  | Datatypes.S fuel =>
      if data_valid it then it
      else if negb (Valid (index_iter_ it)) then SetDataIterator it None
      else
        let it := set_index it (Next (index_iter_ it)) in
        let it := InitDataBlock it in
        SkipEmptyDataBlocksForward fuel (on_data it SeekToFirst)
  end.
Fixpoint SkipEmptyDataBlocksBackward (fuel : nat) (it : TwoLevelIterator) : TwoLevelIterator :=
  match fuel with
  | O => it
  | Datatypes.S fuel =>
      if data_valid it then it
      else if negb (Valid (index_iter_ it)) then SetDataIterator it None
      else
        let it := set_index it (Prev (index_iter_ it)) in
        let it := InitDataBlock it in
        SkipEmptyDataBlocksBackward fuel (on_data it SeekToLast)
  end.

Definition tl_status (it : TwoLevelIterator) : Status :=
  if negb (ok (status (index_iter_ it))) then status (index_iter_ it)
  else match data_iter_ it with
       | Some w => if negb (ok (status w)) then status w else status_ it
       | None => status_ it
       end.

(** [fuel] bounds the rounds of the two loops; every bound above the number of index
    entries gives the contract below. *)
Definition TwoLevelIterator_ops (fuel : nat) : Iterator TwoLevelIterator := {|
  Valid := data_valid;
  Seek it target :=
    let it := InitDataBlock (set_index it (Seek (index_iter_ it) target)) in
    SkipEmptyDataBlocksForward fuel (on_data it (fun w => Seek w target));
  SeekToFirst it :=
    let it := InitDataBlock (set_index it (SeekToFirst (index_iter_ it))) in
    SkipEmptyDataBlocksForward fuel (on_data it SeekToFirst);
  SeekToLast it :=
    let it := InitDataBlock (set_index it (SeekToLast (index_iter_ it))) in
    SkipEmptyDataBlocksBackward fuel (on_data it SeekToLast);
  Next it := SkipEmptyDataBlocksForward fuel (on_data it Next);
  Prev it := SkipEmptyDataBlocksBackward fuel (on_data it Prev);
  key it := match data_iter_ it with None => [] | Some w => key w end;
  value it := match data_iter_ it with None => [] | Some w => value w end;
  status := tl_status;
|}.
End TwoLevelIterator.
Arguments TwoLevelIterator : clear implicits.

(** ** The contract

    The index has the entries [ies]; the block named by the value [v] has the entries
    [block_of v].  A block's index key is at or past its own keys and before those of
    the blocks that follow. *)
Section Contract.
Context {I D S : Type} `{Iterator I} `{Iterator D}.
Context (block_function : S -> bytes -> D * S).
Context (c : Comparator) (valid : bytes -> Prop) {Hc : ComparatorOk c valid}.
Context (ies : list (bytes * bytes)) (block_of : bytes -> list (bytes * bytes)) (arg_ok : S -> Prop).

(** The block function opens the blocks of the index. *)
Definition opens_blocks : Prop :=
  forall a i k v, arg_ok a -> ies !! i = Some (k, v) ->
    exists d a', block_function a v = (d, a') /\ arg_ok a' /\ at_pos c valid (block_of v) d None.

Definition blocks : list (list (bytes * bytes)) := (fun '(_, v) => block_of v) <$> ies.
Definition flat : list (bytes * bytes) := concat blocks.

(** Index keys bound the keys of their blocks. *)
Record index_bounds : Prop := {
  ib_valid : forall i k v, ies !! i = Some (k, v) -> valid k /\ valid_keys valid (block_of v);
  ib_low : forall i k v k' v', ies !! i = Some (k, v) -> (k', v') ∈ block_of v -> Compare c k' k <= 0;
  ib_high : forall i j k v kj v' k' w, (i < j)%nat -> ies !! i = Some (k, v) ->
    ies !! j = Some (kj, v') -> (k', w) ∈ block_of v' -> Compare c k k' < 0;
}.

Context (Hopen : opens_blocks) (Hib : index_bounds).

(** Number of entries before block [j]. *)
Definition start (j : nat) : nat := length (concat (take j blocks)).

Lemma start_0 : start 0 = 0%nat.
Proof. done. Qed.
Lemma blocks_lookup j k v : ies !! j = Some (k, v) -> blocks !! j = Some (block_of v).
Proof. intros E. unfold blocks. by rewrite list_lookup_fmap, E. Qed.
Lemma start_S j k v : ies !! j = Some (k, v) -> start (Datatypes.S j) = (start j + length (block_of v))%nat.
Proof.
  intros E. unfold start. rewrite (take_S_r _ _ _ (blocks_lookup _ _ _ E)), concat_app, length_app.
  cbn. by rewrite app_nil_r.
Qed.
Lemma start_all : start (length ies) = length flat.
Proof. unfold start, flat. rewrite take_ge; [done|]. unfold blocks. by rewrite length_fmap. Qed.
Lemma flat_split j k v :
  ies !! j = Some (k, v) ->
  flat = concat (take j blocks) ++ block_of v ++ concat (drop (Datatypes.S j) blocks).
Proof.
  intros E. unfold flat. rewrite <- (take_drop j blocks) at 1. rewrite concat_app.
  by rewrite (drop_S _ _ _ (blocks_lookup _ _ _ E)).
Qed.
Lemma flat_lookup j k v q :
  ies !! j = Some (k, v) -> (q < length (block_of v))%nat -> flat !! (start j + q)%nat = block_of v !! q.
Proof.
  intros E Hq. rewrite (flat_split _ _ _ E). unfold start.
  rewrite lookup_app_r by lia. rewrite Nat.add_sub_swap, Nat.sub_diag, Nat.add_0_l by lia.
  by rewrite lookup_app_l.
Qed.
Lemma start_le j k v : ies !! j = Some (k, v) -> (start j + length (block_of v) <= length flat)%nat.
Proof. intros E. rewrite (flat_split _ _ _ E), !length_app. unfold start. lia. Qed.

(** ** Positions *)

(** The two-level iterator between two operations: the block open is the one it was
    asked for, no error was saved. *)
Record loose (it : TwoLevelIterator I D S) : Prop := {
  l_arg : arg_ok (arg_ it);
  l_status : status_ it = OK;
  l_data : match data_iter_ it with
           | None => True
           | Some w => exists q, at_pos c valid (block_of (data_block_handle_ it)) w q
           end;
}.

(** The index is at entry [j] and the block of that entry is open at [r]. *)
Record stands (it : TwoLevelIterator I D S) (j : nat) (r : option nat) : Prop := {
  s_loose : loose it;
  s_index : at_pos c valid ies (index_iter_ it) (Some j);
  s_block : exists k w, ies !! j = Some (k, data_block_handle_ it) /\ data_iter_ it = Some w /\
    at_pos c valid (block_of (data_block_handle_ it)) w r;
}.
(** Past the ends: no block is open. *)
Record off_ends (it : TwoLevelIterator I D S) : Prop := {
  o_loose : loose it;
  o_index : at_pos c valid ies (index_iter_ it) None;
  o_block : data_iter_ it = None;
}.

Definition tl_pos (it : TwoLevelIterator I D S) (p : option nat) : Prop :=
  match p with
  | None => off_ends it
  | Some n => exists j q, stands it j (Some q) /\ n = (start j + q)%nat
  end.

Lemma SetDataIterator_loose it d v :
  loose it -> at_pos c valid (block_of v) d None ->
  SetDataIterator {| arg_ := arg_ it; status_ := status_ it; index_iter_ := index_iter_ it;
                     data_iter_ := data_iter_ it; data_block_handle_ := v |} (Some d) =
  {| arg_ := arg_ it; status_ := OK; index_iter_ := index_iter_ it; data_iter_ := Some (wrap d);
     data_block_handle_ := v |}.
Proof.
  intros [Ha Hs Hd] Hp. unfold SetDataIterator. cbn [data_iter_].
  destruct (data_iter_ it) as [w|]; [|by unfold set_data; cbn; rewrite Hs].
  destruct Hd as [q Hq]. rewrite (io_status _ _ Hq). unfold SaveError. cbn.
  by rewrite andb_false_r, Hs.
Qed.
Lemma SetDataIterator_null it : loose it -> SetDataIterator it None = set_data it None.
Proof.
  intros [Ha Hs Hd]. unfold SetDataIterator. destruct (data_iter_ it) as [w|]; [|done].
  destruct Hd as [q Hq]. rewrite (io_status _ _ Hq). unfold SaveError. cbn. by rewrite andb_false_r.
Qed.

(** Opening the block of the index entry. *)
Lemma InitDataBlock_stands it j :
  loose it -> at_pos c valid ies (index_iter_ it) (Some j) ->
  exists r, stands (InitDataBlock block_function it) j r.
Proof.
  intros Hl Hi. unfold InitDataBlock. rewrite (io_valid _ _ Hi), bool_decide_eq_true_2 by done.
  pose proof (io_entry _ _ Hi) as He. cbn [negb].
  set (v := value (index_iter_ it)) in *. clearbody v.
  destruct (match data_iter_ it with None => false | Some _ => true end && _) eqn:E.
  - apply andb_true_iff in E as [E1 E2]. apply Z.eqb_eq, Slice_compare_eq in E2.
    destruct Hl as [Ha Hs Hd]. destruct (data_iter_ it) as [w|] eqn:Ed; [|done].
    destruct Hd as [q Hq]. exists q. split; [split; [done|done|rewrite Ed; by exists q]|done|].
    rewrite <- E2 in *. by exists (key (index_iter_ it)), w.
  - destruct (Hopen (arg_ it) _ _ _ (l_arg _ Hl) He) as (d & a' & -> & Ha' & Hd).
    pose proof (SetDataIterator_loose {| arg_ := a'; status_ := status_ it;
      index_iter_ := index_iter_ it; data_iter_ := data_iter_ it;
      data_block_handle_ := data_block_handle_ it |} d v) as Hset. cbn in Hset.
    rewrite Hset; [|by destruct Hl; constructor|done].
    apply at_pos_wrap in Hd. exists None. split; cbn.
    + constructor; cbn; [done|done|by exists None].
    + done.
    + exists (key (index_iter_ it)), (wrap d). by rewrite He.
Qed.
Lemma InitDataBlock_off it :
  loose it -> at_pos c valid ies (index_iter_ it) None -> off_ends (InitDataBlock block_function it).
Proof.
  intros Hl Hi. unfold InitDataBlock.
  rewrite (io_valid _ _ Hi), bool_decide_eq_false_2 by (by intros [? [=]]).
  cbn [negb]. rewrite SetDataIterator_null by done.
  destruct Hl. by repeat (constructor; cbn).
Qed.

Lemma loose_index it w : loose it -> loose (set_index it w).
Proof. intros [? ? ?]. by constructor. Qed.
Lemma stands_data it j r f r' :
  stands it j r -> (forall w k v, ies !! j = Some (k, v) ->
    at_pos c valid (block_of v) w r -> at_pos c valid (block_of v) (f w) r') ->
  stands (on_data it f) j r'.
Proof.
  intros [[Ha Hs Hd] Hi (k & w & He & Hw & Hp)] Hf. unfold on_data. rewrite Hw. cbn.
  specialize (Hf w _ _ He Hp). split; [|done|].
  - constructor; cbn; [done|done|by exists r'].
  - cbn. by exists k, (f w).
Qed.
Lemma off_ends_data it f : off_ends it -> on_data it f = it.
Proof. intros [_ _ Hb]. unfold on_data, set_data. rewrite Hb. by destruct it; cbn in *; subst. Qed.

Lemma off_ends_skip it fuel :
  off_ends it -> SkipEmptyDataBlocksForward block_function fuel it = it /\
                 SkipEmptyDataBlocksBackward block_function fuel it = it.
Proof.
  intros Ho. pose proof Ho as [Hl Hi Hb]. pose proof (io_valid _ _ Hi) as Hv.
  assert (SetDataIterator it None = it) as Hset.
  { rewrite SetDataIterator_null by done. unfold set_data. by destruct it; cbn in *; subst. }
  destruct fuel; [done|]. cbn [SkipEmptyDataBlocksForward SkipEmptyDataBlocksBackward].
  unfold data_valid. rewrite Hb, Hv. by rewrite bool_decide_eq_false_2 by (by intros [? [=]]).
Qed.

(** ** The skipping loops *)

Lemma stands_valid it j q :
  stands it j (Some q) -> data_valid it = true /\ exists k v, ies !! j = Some (k, v) /\ (q < length (block_of v))%nat.
Proof.
  intros [_ _ (k & w & He & Hw & Hp)]. unfold data_valid. rewrite Hw, (io_valid _ _ Hp).
  split; [done|]. exists k, (data_block_handle_ it). split; [done|].
  pose proof (io_entry _ _ Hp) as E. by apply lookup_lt_Some in E.
Qed.
Lemma stands_invalid it j : stands it j None -> data_valid it = false.
Proof. intros [_ _ (k & w & He & Hw & Hp)]. unfold data_valid. by rewrite Hw, (io_valid _ _ Hp). Qed.

(** The entry numbered [n], if there is one, and the one before it. *)
Definition entry_from (n : nat) : option nat := if (n <? length flat)%nat then Some n else None.

Lemma skip_forward fuel it j r :
  stands it j r -> (length ies - j < fuel)%nat ->
  tl_pos (SkipEmptyDataBlocksForward block_function fuel it)
    (match r with Some q => Some (start j + q)%nat | None => entry_from (start (Datatypes.S j)) end).
Proof.
  revert it j r. induction fuel as [|fuel IH]; intros it j r Hs Hf; [lia|].
  cbn [SkipEmptyDataBlocksForward]. destruct r as [q|].
  { destruct (stands_valid _ _ _ Hs) as [-> _]. by exists j, q. }
  rewrite (stands_invalid _ _ Hs). pose proof Hs as [Hl Hi (k & w & He & Hw & Hp)].
  rewrite (io_valid _ _ Hi), bool_decide_eq_true_2 by done. cbn [negb].
  pose proof (io_next _ _ Hi) as Hn. unfold next_pos in Hn.
  pose proof (lookup_lt_Some _ _ _ He) as Hj.
  destruct (Nat.ltb_spec (Datatypes.S j) (length ies)) as [Hj'|Hj'].
  - destruct (InitDataBlock_stands (set_index it (Next (index_iter_ it))) (Datatypes.S j)) as [r Hr];
      [by apply loose_index|done|].
    set (it1 := InitDataBlock _ _) in *.
    destruct (lookup_lt_is_Some_2 ies (Datatypes.S j) Hj') as [[k1 v1] He1].
    assert (stands (on_data it1 SeekToFirst) (Datatypes.S j) (first_pos (block_of v1))) as H1'.
    { eapply stands_data; [done|]. intros w' k' v' He' Hw'. rewrite He1 in He'. simplify_eq.
      by eapply io_first. }
    specialize (IH _ _ _ H1' ltac:(lia)). unfold entry_from in *. rewrite (start_S _ _ _ He1) in IH.
    pose proof (start_le _ _ _ He1).
    destruct (block_of v1) as [|e1 b1]; cbn [first_pos length] in *.
    + by rewrite Nat.add_0_r in IH.
    + rewrite Nat.add_0_r in IH. destruct (Nat.ltb_spec (start (Datatypes.S j)) (length flat)); [done|lia].
  - pose proof (InitDataBlock_off (set_index it (Next (index_iter_ it))) ltac:(by apply loose_index) Hn) as Ho.
    rewrite off_ends_data by done. rewrite (proj1 (off_ends_skip _ _ Ho)).
    replace (Datatypes.S j) with (length ies) by lia. unfold entry_from.
    by rewrite start_all, Nat.ltb_irrefl.
Qed.

Lemma skip_backward fuel it j r :
  stands it j r -> (Datatypes.S j < fuel)%nat ->
  tl_pos (SkipEmptyDataBlocksBackward block_function fuel it)
    (match r with Some q => Some (start j + q)%nat | None => prev_pos (start j) end).
Proof.
  revert it j r. induction fuel as [|fuel IH]; intros it j r Hs Hf; [lia|].
  cbn [SkipEmptyDataBlocksBackward]. destruct r as [q|].
  { destruct (stands_valid _ _ _ Hs) as [-> _]. by exists j, q. }
  rewrite (stands_invalid _ _ Hs). pose proof Hs as [Hl Hi (k & w & He & Hw & Hp)].
  rewrite (io_valid _ _ Hi), bool_decide_eq_true_2 by done. cbn [negb].
  pose proof (io_prev _ _ Hi) as Hn. pose proof (lookup_lt_Some _ _ _ He) as Hj.
  destruct j as [|j]; cbn [prev_pos] in Hn.
  - pose proof (InitDataBlock_off (set_index it (Prev (index_iter_ it))) ltac:(by apply loose_index) Hn) as Ho.
    rewrite off_ends_data by done. by rewrite (proj2 (off_ends_skip _ _ Ho)).
  - destruct (InitDataBlock_stands (set_index it (Prev (index_iter_ it))) j) as [r Hr];
      [by apply loose_index|done|].
    set (it1 := InitDataBlock _ _) in *.
    destruct (lookup_lt_is_Some_2 ies j ltac:(lia)) as [[k1 v1] He1].
    assert (stands (on_data it1 SeekToLast) j (last_pos (block_of v1))) as H1'.
    { eapply stands_data; [done|]. intros w' k' v' He' Hw'. rewrite He1 in He'. simplify_eq.
      by eapply io_last. }
    specialize (IH _ _ _ H1' ltac:(lia)). rewrite (start_S _ _ _ He1).
    destruct (block_of v1) as [|e1 b1]; cbn [last_pos length] in *.
    + by rewrite Nat.add_0_r.
    + by rewrite Nat.add_succ_r.
Qed.

Lemma block_entry i b k' w :
  blocks !! i = Some b -> (k', w) ∈ b -> exists k v, ies !! i = Some (k, v) /\ b = block_of v /\
    valid k /\ valid k' /\ Compare c k' k <= 0.
Proof.
  intros Hi Hin. unfold blocks in Hi. rewrite list_lookup_fmap in Hi.
  destruct (ies !! i) as [[k v]|] eqn:E; [|done]. injection Hi as <-.
  destruct (ib_valid Hib _ _ _ E) as [Hk Hv]. exists k, v. split_and!; [done..| |].
  - by eapply valid_keys_elem.
  - exact (ib_low Hib _ _ _ _ _ E Hin).
Qed.

(** Blocks before a block whose index key is below [t] hold nothing at or past [t]. *)
Lemma seek_before j t :
  valid t -> (forall i k v, (i < j)%nat -> ies !! i = Some (k, v) -> Compare c k t < 0) ->
  first_ge c (concat (take j blocks)) t = None.
Proof.
  intros Ht Hlt. apply first_ge_all_lt, list.Forall_forall. intros [k' w] Hin.
  apply elem_of_concat_lookup in Hin as (i & b & Hi & Hin). apply lookup_take_Some in Hi as [Hi Hij].
  destruct (block_entry _ _ _ _ Hi Hin) as (k & v & E & -> & Hk & Hk' & Hle).
  apply (cmp_le_lt_trans k' k t); [done..|]. by eapply Hlt.
Qed.
(** Blocks after a block whose index key is at or past [t] hold nothing below [t]. *)
Lemma seek_after j k v t :
  valid t -> ies !! j = Some (k, v) -> 0 <= Compare c k t ->
  first_ge c (concat (drop (Datatypes.S j) blocks)) t = first_pos (concat (drop (Datatypes.S j) blocks)).
Proof.
  intros Ht He Hge. destruct (ib_valid Hib _ _ _ He) as [Hk _].
  apply first_ge_all_ge, list.Forall_forall. intros [k' w] Hin.
  apply elem_of_concat_lookup in Hin as (i & b & Hi & Hin). rewrite lookup_drop in Hi.
  destruct (block_entry _ _ _ _ Hi Hin) as (ki & vi & E & -> & Hki & Hk' & _).
  assert (Compare c k k' < 0) by (eapply (ib_high Hib j (Datatypes.S j + i)); [lia|done..]).
  apply (cmp_ge_le) in Hge; [|done..].
  apply (cmp_ge_le); [done..|]. apply Z.lt_le_incl, (cmp_le_lt_trans t k k'); done.
Qed.

(** Where a block holds the first entry at or past [t]. *)
Lemma seek_block j k v t :
  valid t -> ies !! j = Some (k, v) -> first_ge c ies t = Some j ->
  first_ge c flat t = match first_ge c (block_of v) t with
                      | Some q => Some (start j + q)%nat
                      | None => entry_from (start (Datatypes.S j))
                      end.
Proof.
  intros Ht He Hg. apply first_ge_Some in Hg as [(k0 & v0 & He0 & Hge) Hlt].
  rewrite He in He0. injection He0 as <- <-.
  rewrite (flat_split _ _ _ He), first_ge_app, seek_before by done.
  rewrite first_ge_app, (seek_after j k v) by done. fold (start j).
  destruct (first_ge c (block_of v) t) as [q|] eqn:Eq; [done|].
  unfold entry_from. rewrite (start_S _ _ _ He), (flat_split _ _ _ He), !length_app. fold (start j).
  generalize (concat (drop (Datatypes.S j) blocks)). intros [|e r];
    match goal with |- context [(?x <? ?y)%nat] => destruct (Nat.ltb_spec x y) end;
    cbn in *; [lia|done|f_equal; lia|lia].
Qed.
Lemma seek_past t : valid t -> first_ge c ies t = None -> first_ge c flat t = None.
Proof.
  intros Ht Hg. unfold flat. rewrite <- (take_ge blocks (length blocks)) by done.
  apply seek_before; [done|]. intros i k v _ E. by eapply (proj1 (first_ge_None c ies t) Hg).
Qed.

(** ** The contract holds *)

Lemma tl_pos_loose it p :
  tl_pos it p -> loose it /\ exists ip, at_pos c valid ies (index_iter_ it) ip.
Proof.
  destruct p as [n|]; [intros (j & q & [Hl Hi _] & _)|intros [Hl Hi _]]; eauto.
Qed.

(** After an index move the block of the entry is opened. *)
Lemma open_stands it p w :
  tl_pos it p -> forall j, at_pos c valid ies w (Some j) ->
  exists r, stands (InitDataBlock block_function (set_index it w)) j r.
Proof. intros [Hl _]%tl_pos_loose j Hw. by apply InitDataBlock_stands; [apply loose_index|]. Qed.
Lemma open_off it p w f fuel :
  tl_pos it p -> at_pos c valid ies w None ->
  let it' := on_data (InitDataBlock block_function (set_index it w)) f in
  tl_pos (SkipEmptyDataBlocksForward block_function fuel it') None /\
  tl_pos (SkipEmptyDataBlocksBackward block_function fuel it') None.
Proof.
  intros [Hl _]%tl_pos_loose Hw it'.
  assert (off_ends (InitDataBlock block_function (set_index it w))) as Ho
    by (by apply InitDataBlock_off; [apply loose_index|]).
  unfold it'. rewrite (off_ends_data _ _ Ho).
  destruct (off_ends_skip _ fuel Ho) as [-> ->]. done.
Qed.

Lemma flat_empty : ies = [] -> flat = [].
Proof. intros E. unfold flat, blocks. by rewrite E. Qed.
Lemma entry_from_0 : entry_from 0 = first_pos flat.
Proof. unfold entry_from. by destruct flat. Qed.
Lemma last_pos_flat : last_pos flat = prev_pos (length flat).
Proof. by destruct flat. Qed.

Lemma tl_first fuel it p :
  (length ies < fuel)%nat -> tl_pos it p ->
  tl_pos (@SeekToFirst _ (TwoLevelIterator_ops block_function fuel) it) (first_pos flat).
Proof.
  intros Hf Ht. cbn. destruct (tl_pos_loose _ _ Ht) as [_ [ip Hi]].
  pose proof (io_first _ _ Hi) as Hw. destruct (first_pos ies) as [j|] eqn:Ej.
  - destruct (open_stands it p _ Ht _ Hw) as [r Hr].
    assert (j = 0%nat) as -> by (destruct ies; by simplify_eq/=).
    pose proof (io_entry _ _ Hw) as He. set (w := SeekToFirst (index_iter_ it)) in *.
    set (v := value w) in *. set (k := key w) in *.
    assert (stands (on_data (InitDataBlock block_function (set_index it w)) SeekToFirst) 0
              (first_pos (block_of v))) as Hs.
    { eapply stands_data; [done|]. intros d k' v' He' Hd. simplify_eq. by eapply io_first. }
    pose proof (skip_forward fuel _ _ _ Hs ltac:(lia)) as Hk. rewrite <- entry_from_0.
    rewrite (start_S _ _ _ He), start_0 in Hk. pose proof (start_le _ _ _ He).
    destruct (block_of v) as [|e b]; cbn [first_pos length Nat.add] in *; [exact Hk|].
    unfold entry_from. destruct (Nat.ltb_spec 0 (length flat)); [done|lia].
  - assert (ies = []) as E by (by destruct ies). rewrite flat_empty by done.
    exact (proj1 (open_off it p _ SeekToFirst fuel Ht Hw)).
Qed.

Lemma tl_last fuel it p :
  (length ies < fuel)%nat -> tl_pos it p ->
  tl_pos (@SeekToLast _ (TwoLevelIterator_ops block_function fuel) it) (last_pos flat).
Proof.
  intros Hf Ht. cbn. destruct (tl_pos_loose _ _ Ht) as [_ [ip Hi]].
  pose proof (io_last _ _ Hi) as Hw. destruct (last_pos ies) as [j|] eqn:Ej.
  - destruct (open_stands it p _ Ht _ Hw) as [r Hr].
    assert (length ies = Datatypes.S j) as Hj by (destruct ies; by simplify_eq/=).
    pose proof (io_entry _ _ Hw) as He. set (w := SeekToLast (index_iter_ it)) in *.
    set (v := value w) in *. set (k := key w) in *.
    assert (stands (on_data (InitDataBlock block_function (set_index it w)) SeekToLast) j
              (last_pos (block_of v))) as Hs.
    { eapply stands_data; [done|]. intros d k' v' He' Hd. simplify_eq. by eapply io_last. }
    pose proof (skip_backward fuel _ _ _ Hs ltac:(lia)) as Hk.
    rewrite last_pos_flat, <- start_all, Hj, (start_S _ _ _ He).
    destruct (block_of v) as [|e b]; cbn [last_pos length] in *.
    + by rewrite Nat.add_0_r.
    + by rewrite Nat.add_succ_r.
  - assert (ies = []) as E by (by destruct ies). rewrite flat_empty by done.
    exact (proj2 (open_off it p _ SeekToLast fuel Ht Hw)).
Qed.

Lemma tl_seek fuel it p t :
  (length ies < fuel)%nat -> valid t -> tl_pos it p ->
  tl_pos (@Seek _ (TwoLevelIterator_ops block_function fuel) it t) (first_ge c flat t).
Proof.
  intros Hf Hv Ht. cbn. destruct (tl_pos_loose _ _ Ht) as [_ [ip Hi]].
  pose proof (io_seek _ _ t Hv Hi) as Hw. destruct (first_ge c ies t) as [j|] eqn:Ej.
  - destruct (open_stands it p _ Ht _ Hw) as [r Hr].
    pose proof (io_entry _ _ Hw) as He. set (w := Seek (index_iter_ it) t) in *.
    set (v := value w) in *. set (k := key w) in *.
    assert (stands (on_data (InitDataBlock block_function (set_index it w)) (fun w => Seek w t)) j
              (first_ge c (block_of v) t)) as Hs.
    { eapply stands_data; [done|]. intros d k' v' He' Hd. simplify_eq. by eapply io_seek. }
    pose proof (skip_forward fuel _ _ _ Hs ltac:(lia)) as Hk.
    by rewrite (seek_block _ _ _ _ Hv He Ej).
  - rewrite seek_past by done. exact (proj1 (open_off it p _ (fun w => Seek w t) fuel Ht Hw)).
Qed.

Lemma tl_next fuel it n :
  (length ies < fuel)%nat -> tl_pos it (Some n) ->
  tl_pos (@Next _ (TwoLevelIterator_ops block_function fuel) it) (next_pos flat n).
Proof.
  intros Hf (j & q & Hs & ->). cbn. destruct (stands_valid _ _ _ Hs) as (_ & k & v & He & Hq).
  assert (stands (on_data it Next) j (next_pos (block_of v) q)) as Hs'.
  { eapply stands_data; [done|]. intros d k' v' He' Hd. simplify_eq. by eapply io_next. }
  pose proof (skip_forward fuel _ _ _ Hs' ltac:(lia)) as Hk. unfold next_pos in *.
  pose proof (start_le _ _ _ He) as Hle. unfold entry_from in Hk. rewrite (start_S _ _ _ He) in Hk.
  destruct (Nat.ltb_spec (Datatypes.S q) (length (block_of v))) as [Hlt|Hge].
  - destruct (Nat.ltb_spec (Datatypes.S (start j + q)) (length flat)); [|lia].
    by rewrite <- Nat.add_succ_r.
  - by replace (Datatypes.S (start j + q)) with (start j + length (block_of v))%nat by lia.
Qed.
Lemma tl_prev fuel it n :
  (length ies < fuel)%nat -> tl_pos it (Some n) ->
  tl_pos (@Prev _ (TwoLevelIterator_ops block_function fuel) it) (prev_pos n).
Proof.
  intros Hf (j & q & Hs & ->). cbn. destruct (stands_valid _ _ _ Hs) as (_ & k & v & He & Hq).
  pose proof (lookup_lt_Some _ _ _ He).
  assert (stands (on_data it Prev) j (prev_pos q)) as Hs'.
  { eapply stands_data; [done|]. intros d k' v' He' Hd. simplify_eq. by eapply io_prev. }
  pose proof (skip_backward fuel _ _ _ Hs' ltac:(lia)) as Hk.
  destruct q as [|q]; cbn [prev_pos] in Hk; [by rewrite Nat.add_0_r|by rewrite Nat.add_succ_r].
Qed.

Lemma two_level_ok fuel :
  (length ies < fuel)%nat ->
  @IteratorOk _ (TwoLevelIterator_ops block_function fuel) c valid flat tl_pos.
Proof.
  intros Hf. constructor.
  - intros it [n|]; [intros (j & q & Hs & ->)|intros [_ _ Ho]]; cbn.
    + by rewrite (proj1 (stands_valid _ _ _ Hs)).
    + unfold data_valid. by rewrite Ho.
  - intros it n (j & q & Hs & ->). destruct (stands_valid _ _ _ Hs) as (_ & k & v & He & Hq).
    rewrite (flat_lookup _ _ _ _ He Hq). destruct Hs as [_ _ (k' & w & He' & Hw & Hp)].
    simplify_eq. cbn. rewrite Hw. exact (io_entry _ _ Hp).
  - intros it p Ht. destruct (tl_pos_loose _ _ Ht) as [[_ Hs Hd] [ip Hi]]. cbn. unfold tl_status.
    rewrite (io_status _ _ Hi). cbn. destruct (data_iter_ it) as [w|]; [|done].
    destruct Hd as [q Hq]. pose proof (io_status _ _ Hq) as E. cbn in E. by rewrite E.
  - intros it p Ht. by eapply tl_first.
  - intros it p Ht. by eapply tl_last.
  - intros it n Ht. by apply tl_next.
  - intros it n Ht. by apply tl_prev.
  - intros it p t Hv Ht. by eapply tl_seek.
Qed.

Lemma two_level_new index_iter arg :
  at_pos c valid ies index_iter None -> arg_ok arg -> tl_pos (NewTwoLevelIterator index_iter arg) None.
Proof. intros Hi Ha. split; [by constructor|by apply at_pos_wrap|done]. Qed.
End Contract.
