(* ===== verification/FilterBlock.v ===== *)
(** * Filter blocks

    Models [src/pebblesdb/src/table/filter_block.cc/.h]: the per-2KB filters of a
    table ([FilterBlockBuilder], [FilterBlockReader]) and the filter of a whole
    file ([FileLevelFilterBuilder]), over any filter policy. *)

From S2P Require Import Prelude Coding Bloom.

Definition kFilterBaseLg : Z := 11.
Definition kFilterBase : Z := Z.shiftl 1 kFilterBaseLg.

(** The keys of a flattened key buffer, from their starting offsets; [end_] closes
    the last one. *)
Fixpoint key_slices (keys : bytes) (starts : list Z) (end_ : Z) : list bytes :=
  match starts with
  | [] => []
  | s :: starts =>
      let next := match starts with [] => end_ | s' :: _ => s' end in
      sub keys s (next - s) :: key_slices keys starts end_
  end.

(** ** FilterBlockBuilder *)

Module FilterBlockBuilder.
Section Builder.
Context (policy_ : FilterPolicy).

Record FilterBlockBuilder := {
  keys_ : bytes;
  start_ : list Z;
  result_ : bytes;
  filter_offsets_ : list Z;
}.

Definition new : FilterBlockBuilder :=
  {| keys_ := []; start_ := []; result_ := []; filter_offsets_ := [] |}.

Definition GenerateFilter (b : FilterBlockBuilder) : FilterBlockBuilder :=
  match start_ b with
  | [] =>
      {| keys_ := keys_ b; start_ := start_ b; result_ := result_ b;
         filter_offsets_ := filter_offsets_ b ++ [u32 (blen (result_ b))] |}
  | _ =>
      let tmp_keys := key_slices (keys_ b) (start_ b) (blen (keys_ b)) in
      {| keys_ := []; start_ := []; result_ := CreateFilter policy_ tmp_keys (result_ b);
         filter_offsets_ := filter_offsets_ b ++ [u32 (blen (result_ b))] |}
  end.

(** [while (filter_index > filter_offsets_.size()) GenerateFilter();]: a round adds
    one offset. *)
Fixpoint generate_until (fuel : nat) (filter_index : Z) (b : FilterBlockBuilder) :=
  match fuel with
  | O => b
  | S fuel =>
      if blen (filter_offsets_ b) <? filter_index
      then generate_until fuel filter_index (GenerateFilter b) else b
  end.

Definition StartBlock (b : FilterBlockBuilder) (block_offset : Z) : FilterBlockBuilder :=
  let filter_index := block_offset / kFilterBase in
  generate_until (Z.to_nat filter_index) filter_index b.

Definition AddKey (b : FilterBlockBuilder) (key : bytes) : FilterBlockBuilder :=
  {| keys_ := keys_ b ++ key; start_ := start_ b ++ [blen (keys_ b)];
     result_ := result_ b; filter_offsets_ := filter_offsets_ b |}.

Definition Finish (b : FilterBlockBuilder) : FilterBlockBuilder * bytes :=
  let b := match start_ b with [] => b | _ => GenerateFilter b end in
  let array_offset := u32 (blen (result_ b)) in
  let res := fold_left (fun res o => PutFixed32 res o) (filter_offsets_ b) (result_ b) in
  let res := PutFixed32 res array_offset ++ [kFilterBaseLg] in
  ({| keys_ := keys_ b; start_ := start_ b; result_ := res;
      filter_offsets_ := filter_offsets_ b |}, res).

End Builder.
End FilterBlockBuilder.

(** ** FilterBlockReader *)

Module FilterBlockReader.

Record FilterBlockReader := {
  policy_ : FilterPolicy;
  data_ : bytes;
  offset_ : Z;      (** offset of the offset array in [data_] *)
  num_ : Z;
  base_lg_ : Z;
}.

Definition new (policy : FilterPolicy) (contents : bytes) : FilterBlockReader :=
  let n := blen contents in
  if n <? 5 then {| policy_ := policy; data_ := []; offset_ := 0; num_ := 0; base_lg_ := 0 |}
  else
    let base_lg := u64 (schar (at_ contents (n - 1))) in
    let last_word := DecodeFixed32 (drop (Z.to_nat (n - 5)) contents) in
    if n - 5 <? last_word
    then {| policy_ := policy; data_ := []; offset_ := 0; num_ := 0; base_lg_ := base_lg |}
    else {| policy_ := policy; data_ := contents; offset_ := last_word;
            num_ := (n - 5 - last_word) / 4; base_lg_ := base_lg |}.

Definition KeyMayMatch (r : FilterBlockReader) (block_offset : Z) (key : bytes) : bool :=
  let index := Z.shiftr block_offset (base_lg_ r) in
  if index <? num_ r then
    let start := DecodeFixed32 (drop (Z.to_nat (offset_ r + index * 4)) (data_ r)) in
    let limit := DecodeFixed32 (drop (Z.to_nat (offset_ r + index * 4 + 4)) (data_ r)) in
    if (start <=? limit) && (limit <=? offset_ r)
    then Bloom.KeyMayMatch (policy_ r) key (sub (data_ r) start (limit - start))
    else if start =? limit then false
    else true
  else true.

End FilterBlockReader.

(** ** FileLevelFilterBuilder *)

Module FileLevelFilterBuilder.

Record FileLevelFilterBuilder := {
  policy_ : option FilterPolicy;      (** the pointer may be null *)
  keys_ : bytes;
  key_offsets_ : list Z;
}.

Definition Clear (b : FileLevelFilterBuilder) : FileLevelFilterBuilder :=
  {| policy_ := policy_ b; keys_ := []; key_offsets_ := [] |}.
Definition new (policy : option FilterPolicy) : FileLevelFilterBuilder :=
  {| policy_ := policy; keys_ := []; key_offsets_ := [] |}.
Definition Destroy (b : FileLevelFilterBuilder) : FileLevelFilterBuilder := Clear b.

Definition AddKey (b : FileLevelFilterBuilder) (key : bytes) : FileLevelFilterBuilder :=
  match policy_ b with
  | None => b
  | Some _ =>
      {| policy_ := policy_ b; keys_ := keys_ b ++ key;
         key_offsets_ := key_offsets_ b ++ [blen (keys_ b)] |}
  end.

(** The filter, or the null pointer when there is no key or no policy. *)
Definition GenerateFilter (b : FileLevelFilterBuilder) : FileLevelFilterBuilder * option bytes :=
  match key_offsets_ b, policy_ b with
  | [], _ | _, None => (Clear b, None)
  | _, Some p =>
      let tmp_keys := key_slices (keys_ b) (key_offsets_ b) (blen (keys_ b)) in
      (Clear b, Some (CreateFilter p tmp_keys []))
  end.

End FileLevelFilterBuilder.

(** ** Flattened keys *)

(** Offsets at which the keys start in their concatenation. *)
Fixpoint starts_of (off : Z) (ks : list bytes) : list Z :=
  match ks with [] => [] | k :: ks => off :: starts_of (off + blen k) ks end.

Lemma starts_of_app off ks k :
  starts_of off (ks ++ [k]) = starts_of off ks ++ [off + blen (concat ks)].
Proof.
  revert off. induction ks as [|k0 ks IH]; intros off; cbn.
  - by rewrite blen_nil, Z.add_0_r.
  - rewrite IH, blen_app. do 3 f_equal. lia.
Qed.

Lemma key_slices_concat pre ks :
  key_slices (pre ++ concat ks) (starts_of (blen pre) ks) (blen (pre ++ concat ks)) = ks.
Proof.
  revert pre. induction ks as [|k ks IH]; intros pre; [done|]. cbn [starts_of key_slices concat].
  f_equal.
  - replace (match starts_of (blen pre + blen k) ks with
             | [] => blen (pre ++ k ++ concat ks) | s' :: _ => s' end) with (blen pre + blen k).
    + unfold sub. rewrite drop_app_length' by ulia. rewrite take_app_length' by ulia. done.
    + destruct ks; cbn; [|done]. rewrite app_nil_r. by rewrite blen_app.
  - rewrite app_assoc. specialize (IH (pre ++ k)). rewrite blen_app in IH at 1. exact IH.
Qed.

(** ** What the builder accumulates *)

Section Build.
Context (p : FilterPolicy) (ok : list bytes -> Prop) (filter_of : list bytes -> bytes).
Context {Hp : FilterPolicyOk p ok filter_of}.

Import FilterBlockBuilder.

(** The filter stored for a group of keys: nothing for an empty group. *)
Definition fil (g : list bytes) : bytes := match g with [] => [] | _ => filter_of g end.

(** [groups] are the key groups with a filter, [pending] the keys added since. *)
Record holds (b : FilterBlockBuilder) (groups : list (list bytes)) (pending : list bytes) : Prop := {
  h_keys : keys_ b = concat pending;
  h_start : start_ b = starts_of 0 pending;
  h_result : result_ b = concat (fil <$> groups);
  h_offsets : filter_offsets_ b = u32 <$> starts_of 0 (fil <$> groups);
}.

(** A key went to filter number [idx]. *)
Definition located (groups : list (list bytes)) (pending : list bytes) (key : bytes) (idx : nat) :=
  (exists g, groups !! idx = Some g /\ key ∈ g) \/ (idx = length groups /\ key ∈ pending).

Lemma holds_new : holds new [] [].
Proof. done. Qed.

Lemma AddKey_holds b groups pending key :
  holds b groups pending -> holds (AddKey b key) groups (pending ++ [key]).
Proof.
  intros [H1 H2 H3 H4]. constructor; cbn; [|by rewrite starts_of_app, H1, H2|done|done].
  rewrite H1, concat_app. cbn. by rewrite app_nil_r.
Qed.

Lemma AddKey_located groups pending k key idx :
  located groups pending key idx -> located groups (pending ++ [k]) key idx.
Proof. intros [?|[? ?]]; [by left|right]. split; [done|]. apply elem_of_app. by left. Qed.

Lemma GenerateFilter_holds b groups pending :
  holds b groups pending -> (pending = [] \/ ok pending) ->
  holds (GenerateFilter p b) (groups ++ [pending]) [].
Proof.
  intros [H1 H2 H3 H4] Hok. unfold GenerateFilter. rewrite H2.
  destruct pending as [|k ks]; cbn [starts_of].
  - constructor; cbn; [done|done|..]; rewrite fmap_app.
    + rewrite concat_app, <- H3. cbn. by rewrite app_nil_r.
    + cbn. by rewrite starts_of_app, fmap_app, H4, <- H3.
  - destruct Hok as [|Hok]; [done|].
    assert (key_slices (keys_ b) (0 :: starts_of (0 + blen k) ks) (blen (keys_ b)) = k :: ks) as ->.
    { rewrite H1. exact (key_slices_concat [] (k :: ks)). }
    rewrite create_appends by done.
    constructor; cbn; [done|done|..]; rewrite fmap_app.
    + rewrite concat_app, <- H3. cbn. by rewrite app_nil_r.
    + cbn. by rewrite starts_of_app, fmap_app, H4, <- H3.
Qed.

Lemma located_flush groups pending key idx :
  located groups pending key idx -> located (groups ++ [pending]) [] key idx.
Proof.
  intros [(g & Hg & Hk)|[-> Hk]]; left.
  - exists g. split; [|done]. by apply lookup_app_l_Some.
  - exists pending. split; [|done]. by rewrite lookup_app_r, Nat.sub_diag.
Qed.

Lemma blen_offsets b groups pending :
  holds b groups pending -> blen (filter_offsets_ b) = Z.of_nat (length groups).
Proof.
  intros [_ _ _ H4]. rewrite H4. unfold blen. rewrite length_fmap. f_equal.
  rewrite <- (length_fmap fil groups). generalize (fil <$> groups). intros l. generalize 0.
  induction l; intros; cbn; auto.
Qed.

(** Filters are generated up to the index of the block; keys keep their index. *)
Lemma generate_until_holds fuel idx b groups pending :
  holds b groups pending -> (pending = [] \/ ok pending) ->
  Z.of_nat (length groups) <= idx -> idx - Z.of_nat (length groups) <= Z.of_nat fuel ->
  exists groups' pending', holds (generate_until p fuel idx b) groups' pending' /\
    Z.of_nat (length groups') = idx /\ concat groups' ++ pending' = concat groups ++ pending /\
    forall key i, located groups pending key i -> located groups' pending' key i.
Proof.
  revert b groups pending. induction fuel as [|fuel IH]; intros b groups pending Hh Hok Hle Hf.
  { exists groups, pending. cbn. split; [done|]. split; [lia|done]. }
  cbn [generate_until]. rewrite (blen_offsets _ _ _ Hh).
  case_bool; [|exists groups, pending; split; [done|]; split; [lia|done]].
  destruct (IH (GenerateFilter p b) (groups ++ [pending]) []) as (g' & pd' & Hh' & Hl & Hcat & Hloc).
  - by apply GenerateFilter_holds.
  - by left.
  - rewrite length_app. cbn. lia.
  - rewrite length_app. cbn. lia.
  - exists g', pd'. split; [done|]. split; [done|]. split.
    + rewrite Hcat, concat_app. cbn. by rewrite !app_nil_r.
    + intros key i Hk. by apply Hloc, located_flush.
Qed.

(** ** Running the builder *)

(** The calls [(StartBlock AddKey* )*] for data blocks at the given offsets. *)
Definition run (b : FilterBlockBuilder) (blocks : list (Z * list bytes)) : FilterBlockBuilder :=
  fold_left (fun b '(off, ks) => fold_left AddKey ks (StartBlock p b off)) blocks b.
Definition all_keys (blocks : list (Z * list bytes)) : list bytes := concat (snd <$> blocks).

(** Offsets do not decrease from [lo] on. *)
Fixpoint offsets_from (lo : Z) (blocks : list (Z * list bytes)) : Prop :=
  match blocks with [] => True | (off, _) :: bs => lo <= off /\ offsets_from off bs end.

Lemma add_keys_holds ks b groups pending :
  holds b groups pending ->
  holds (fold_left AddKey ks b) groups (pending ++ ks) /\
  (forall key, key ∈ ks -> located groups (pending ++ ks) key (length groups)) /\
  (forall key i, located groups pending key i -> located groups (pending ++ ks) key i).
Proof.
  intros Hh. split; [|split].
  - revert b pending Hh. induction ks as [|k ks IH]; intros b pending Hh; cbn [fold_left].
    + by rewrite app_nil_r.
    + apply AddKey_holds with (key := k) in Hh. apply IH in Hh. by rewrite <- app_assoc in Hh.
  - intros key Hk. right. split; [done|]. apply elem_of_app. by right.
  - intros key i [?|[? ?]]; [by left|right]. split; [done|]. apply elem_of_app. by left.
Qed.

Lemma run_holds blocks b groups pending lo :
  (forall g, g `sublist_of` (concat groups ++ pending ++ all_keys blocks) -> g = [] \/ ok g) ->
  holds b groups pending -> Z.of_nat (length groups) = lo / kFilterBase -> 0 <= lo ->
  offsets_from lo blocks ->
  exists groups' pending', holds (run b blocks) groups' pending' /\
    concat groups' ++ pending' = concat groups ++ pending ++ all_keys blocks /\
    (forall key i, located groups pending key i -> located groups' pending' key i) /\
    (forall off ks key, (off, ks) ∈ blocks -> key ∈ ks ->
       located groups' pending' key (Z.to_nat (off / kFilterBase))).
Proof.
  revert b groups pending lo. induction blocks as [|[off ks] blocks IH];
    intros b groups pending lo Hok Hh Hlen Hlo Hoffs.
  { exists groups, pending. cbn. rewrite app_nil_r. split; [done|]. split; [done|].
    split; [done|]. intros ? ? ? Hin. by apply elem_of_nil in Hin. }
  destruct Hoffs as [Hoff Hoffs].
  assert (lo / kFilterBase <= off / kFilterBase) as Hdiv by (by apply Z.div_le_mono).
  assert (0 <= lo / kFilterBase) by (by apply Z.div_pos).
  destruct (generate_until_holds (Z.to_nat (off / kFilterBase)) (off / kFilterBase) b groups pending)
    as (g1 & pd1 & Hh1 & Hl1 & Hcat1 & Hloc1); [done| |lia|lia|].
  { apply Hok. apply sublist_inserts_l, sublist_inserts_r. done. }
  destruct (add_keys_holds ks _ _ _ Hh1) as (Hh2 & Hnew & Hloc2).
  change (all_keys ((off, ks) :: blocks)) with (ks ++ all_keys blocks) in *.
  destruct (IH (fold_left AddKey ks (StartBlock p b off)) g1 (pd1 ++ ks) off)
    as (g' & pd' & Hh' & Hcat' & Hloc' & Hall).
  - intros g Hg. apply Hok. rewrite <- app_assoc, app_assoc, Hcat1, <- app_assoc in Hg. exact Hg.
  - exact Hh2.
  - done.
  - lia.
  - done.
  - exists g', pd'. split; [exact Hh'|]. split.
    { rewrite Hcat', <- app_assoc, app_assoc, Hcat1, <- app_assoc. done. }
    split; [intros key i Hk; by apply Hloc', Hloc2, Hloc1|].
    intros off' ks' key Hin Hk. apply elem_of_cons in Hin as [[= -> ->]|Hin].
    + apply Hloc'. replace (Z.to_nat (off / kFilterBase)) with (length g1) by lia. by apply Hnew.
    + by eapply Hall.
Qed.
End Build.

(** ** Reading a filter block *)

Lemma starts_of_lookup ls off i :
  (i < length ls)%nat -> starts_of off ls !! i = Some (off + blen (concat (take i ls))).
Proof.
  revert off i. induction ls as [|l ls IH]; intros off i Hi; [cbn in Hi; lia|].
  destruct i as [|i].
  - cbn. f_equal. by rewrite blen_nil, Z.add_0_r.
  - cbn in Hi. change (starts_of (off + blen l) ls !! i = Some (off + blen (l ++ concat (take i ls)))).
    rewrite IH by lia. rewrite blen_app. f_equal. lia.
Qed.

Lemma length_starts_of off ls : length (starts_of off ls) = length ls.
Proof. revert off. induction ls; intros; cbn; auto. Qed.

(** The contents for the filters [ls]: the filters, their offsets closed by the
    offset of the array, and the base. *)
Definition filter_contents (ls : list bytes) : bytes :=
  concat ls ++ fixed_array (u32 <$> starts_of 0 (ls ++ [[]])) ++ [kFilterBaseLg].

Lemma blen_filter_contents ls :
  blen (filter_contents ls) = blen (concat ls) + 4 * blen ls + 5.
Proof.
  unfold filter_contents. rewrite !blen_app, blen_fixed_array. unfold blen.
  rewrite length_fmap, length_starts_of, length_app. cbn. lia.
Qed.

Section Read.
Context (ls : list bytes) (Hsize : blen (filter_contents ls) < 2 ^ 32).

Lemma filter_start_small i : is_u32 (blen (concat (take i (ls ++ [[]])))).
Proof.
  rewrite blen_filter_contents in Hsize.
  assert (concat (ls ++ [[]]) = concat ls) as E by (rewrite concat_app; cbn; apply app_nil_r).
  pose proof (take_drop i (ls ++ [[]])) as H. apply (f_equal (fun l => blen (concat l))) in H.
  rewrite concat_app, blen_app, E in H. pose proof (blen_nonneg ls).
  pose proof (blen_nonneg (concat (drop i (ls ++ [[]])))).
  pose proof (blen_nonneg (concat (take i (ls ++ [[]])))). ulia.
Qed.

Lemma filter_offset_read i :
  (i <= length ls)%nat ->
  DecodeFixed32 (drop (Z.to_nat (blen (concat ls) + Z.of_nat i * 4)) (filter_contents ls)) =
  blen (concat (take i (ls ++ [[]]))).
Proof.
  intros Hi. unfold filter_contents.
  replace (Z.to_nat (blen (concat ls) + Z.of_nat i * 4)) with (length (concat ls) + 4 * i)%nat by ulia.
  rewrite <- drop_drop, drop_app_length.
  apply fixed_array_lookup; [|apply filter_start_small].
  rewrite list_lookup_fmap, starts_of_lookup by (rewrite length_app; cbn; lia).
  cbn. f_equal. apply u32_small, filter_start_small.
Qed.

Lemma reader_new p :
  FilterBlockReader.new p (filter_contents ls) =
  {| FilterBlockReader.policy_ := p; FilterBlockReader.data_ := filter_contents ls;
     FilterBlockReader.offset_ := blen (concat ls); FilterBlockReader.num_ := blen ls;
     FilterBlockReader.base_lg_ := kFilterBaseLg |}.
Proof.
  pose proof (blen_filter_contents ls) as Hl.
  pose proof (blen_nonneg ls). pose proof (blen_nonneg (concat ls)).
  unfold FilterBlockReader.new. rewrite (proj2 (Z.ltb_ge (blen (filter_contents ls)) 5)) by lia.
  assert (at_ (filter_contents ls) (blen (filter_contents ls) - 1) = kFilterBaseLg) as ->.
  { unfold filter_contents at 1, at_. rewrite app_assoc. rewrite app_nth2.
    - set (a := concat ls ++ _). replace (Z.to_nat (blen (filter_contents ls) - 1) - length a)%nat with 0%nat;
        [done|]. unfold filter_contents. rewrite app_assoc. fold a. rewrite blen_app. unfold blen. cbn. lia.
    - unfold filter_contents. rewrite app_assoc, blen_app. unfold blen. cbn. lia. }
  assert (DecodeFixed32 (drop (Z.to_nat (blen (filter_contents ls) - 5)) (filter_contents ls)) =
          blen (concat ls)) as ->.
  { rewrite Hl. replace (blen (concat ls) + 4 * blen ls + 5 - 5) with
      (blen (concat ls) + Z.of_nat (length ls) * 4) by (unfold blen; lia).
    rewrite filter_offset_read by lia. by rewrite take_app_length. }
  rewrite Hl. rewrite (proj2 (Z.ltb_ge _ _)) by lia. f_equal.
  replace (_ - 5 - _) with (blen ls * 4) by lia. by rewrite Z.div_mul.
Qed.

(** Looking up a block offset consults the filter of its window. *)
Lemma reader_window p off key f :
  0 <= off -> ls !! Z.to_nat (off / kFilterBase) = Some f ->
  FilterBlockReader.KeyMayMatch (FilterBlockReader.new p (filter_contents ls)) off key =
  KeyMayMatch p key f.
Proof.
  intros Hoff Hf. rewrite reader_new. unfold FilterBlockReader.KeyMayMatch.
  cbn [FilterBlockReader.base_lg_ FilterBlockReader.num_ FilterBlockReader.offset_
       FilterBlockReader.data_ FilterBlockReader.policy_].
  assert (Z.shiftr off kFilterBaseLg = off / kFilterBase) as ->.
  { unfold kFilterBase. by rewrite Z.shiftr_div_pow2, Z.shiftl_1_l. }
  assert (0 <= off / kFilterBase) by (by apply Z.div_pos).
  pose proof (lookup_lt_Some _ _ _ Hf). set (i := Z.to_nat (off / kFilterBase)) in *.
  assert (off / kFilterBase = Z.of_nat i) as -> by lia.
  rewrite (proj2 (Z.ltb_lt _ _)) by (unfold blen; lia).
  rewrite (filter_offset_read i) by lia.
  replace (blen (concat ls) + Z.of_nat i * 4 + 4) with (blen (concat ls) + Z.of_nat (S i) * 4) by lia.
  rewrite (filter_offset_read (S i)) by lia.
  rewrite !take_app_le by lia.
  rewrite (take_S_r _ _ _ Hf), concat_app. cbn [concat]. rewrite app_nil_r, blen_app.
  assert (exists post, concat ls = concat (take i ls) ++ f ++ post) as [post Hcat].
  { exists (concat (drop (S i) ls)). rewrite <- (take_drop i ls) at 1. rewrite concat_app.
    by rewrite (drop_S _ _ _ Hf). }
  pose proof (blen_nonneg f). pose proof (blen_nonneg post).
  rewrite (proj2 (Z.leb_le _ (blen (concat (take i ls)) + blen f))) by lia.
  rewrite (proj2 (Z.leb_le _ _)) by (rewrite Hcat, !blen_app; lia). cbn [andb].
  f_equal. rewrite Z.add_simpl_l. unfold filter_contents. rewrite Hcat, <- !app_assoc.
  unfold sub. rewrite drop_app_length' by ulia. by rewrite take_app_length' by ulia.
Qed.
End Read.

Section Whole.
Context (p : FilterPolicy) (ok : list bytes -> Prop) (filter_of : list bytes -> bytes).
Context {Hp : FilterPolicyOk p ok filter_of}.
Import FilterBlockBuilder.

Lemma Finish_contents b groups pending :
  holds filter_of b groups pending -> (pending = [] \/ ok pending) ->
  exists groups', snd (Finish p b) = filter_contents (fil filter_of <$> groups') /\
    concat groups' = concat groups ++ pending /\
    forall key i, located groups pending key i -> located groups' [] key i.
Proof.
  intros Hh Hok.
  set (b' := match start_ b with [] => b | _ => GenerateFilter p b end).
  assert (exists groups', holds filter_of b' groups' [] /\ concat groups' = concat groups ++ pending /\
    forall key i, located groups pending key i -> located groups' [] key i)
    as (g' & Hh' & Hcat & Hloc).
  { unfold b'. rewrite (h_start _ _ _ _ Hh). destruct pending as [|k ks]; cbn [starts_of].
    - exists groups. by rewrite app_nil_r.
    - exists (groups ++ [k :: ks]). split; [by eapply GenerateFilter_holds|].
      split; [rewrite concat_app; cbn; by rewrite app_nil_r|].
      intros key i. apply located_flush. }
  exists g'. split; [|done]. unfold Finish. fold b'. cbn [snd].
  destruct Hh' as [_ _ H3 H4]. rewrite fold_PutFixed32. unfold PutFixed32, filter_contents.
  rewrite H4, H3, starts_of_app, fmap_app. cbn [fmap list_fmap]. rewrite Z.add_0_l.
  unfold fixed_array. rewrite fmap_app, concat_app. cbn [fmap list_fmap concat].
  by rewrite app_nil_r, <- !app_assoc.
Qed.
End Whole.

Lemma elem_sublist_concat {A} (ls : list (list A)) i l :
  ls !! i = Some l -> l `sublist_of` concat ls.
Proof.
  revert i. induction ls as [|l0 ls IH]; intros i Hi; [done|]. cbn [concat]. destruct i as [|i].
  - injection Hi as ->. by apply sublist_inserts_r.
  - apply sublist_inserts_l. by eapply IH.
Qed.

Lemma offsets_from_le lo blocks off ks :
  offsets_from lo blocks -> (off, ks) ∈ blocks -> lo <= off.
Proof.
  revert lo. induction blocks as [|[o k] blocks IH]; intros lo Ho Hin; [by apply elem_of_nil in Hin|].
  destruct Ho as [Hlo Ho]. apply elem_of_cons in Hin as [[= -> ->]|Hin]; [done|].
  etrans; [exact Hlo|]. by apply IH.
Qed.

(** The reader consults, for a data block, the filter of a group of keys that holds all
    keys added for the block. *)
Lemma filter_block_window p ok filter_of blocks off ks x :
  FilterPolicyOk p ok filter_of ->
  (forall g, g `sublist_of` all_keys blocks -> g = [] \/ ok g) ->
  offsets_from 0 blocks -> (off, ks) ∈ blocks -> x ∈ ks ->
  let contents := snd (FilterBlockBuilder.Finish p (run p FilterBlockBuilder.new blocks)) in
  blen contents < 2 ^ 32 ->
  exists g, ok g /\ x ∈ g /\ forall key,
    FilterBlockReader.KeyMayMatch (FilterBlockReader.new p contents) off key =
    KeyMayMatch p key (filter_of g).
Proof.
  intros Hp Hok Hoffs Hin Hkey contents Hsize.
  destruct (run_holds p ok filter_of blocks FilterBlockBuilder.new [] [] 0) as
    (groups & pending & Hh & Hcat & _ & Hall); [done|done|done|done|done|].
  cbn [concat app] in Hcat.
  destruct (Finish_contents p ok filter_of _ groups pending Hh) as (g' & Hc & Hcat' & Hloc).
  { apply Hok. rewrite <- Hcat. by apply sublist_inserts_l. }
  fold contents in Hc. rewrite Hc in Hsize |- *.
  destruct (Hloc _ _ (Hall _ _ _ Hin Hkey)) as [(g & Hg & Hkg)|[_ Hk]];
    [|by apply elem_of_nil in Hk].
  exists g. split; [|split; [done|]].
  - destruct (Hok g) as [->|]; [|by apply elem_of_nil in Hkg|done].
    rewrite <- Hcat, <- Hcat'. by apply elem_sublist_concat with (Z.to_nat (off / kFilterBase)).
  - intros key. assert (0 <= off) as Hoff by (eapply offsets_from_le; eauto).
    rewrite (reader_window _ Hsize p off key (fil filter_of g)).
    + by destruct g; [by apply elem_of_nil in Hkg|].
    + done.
    + by rewrite list_lookup_fmap, Hg.
Qed.

(** Filter blocks have no false negatives: whatever data blocks a table builder
    registers (at non-decreasing offsets, with any keys), the reader of the
    finished filter block answers true for every key at the offset of its data
    block, for every policy that keeps the filter-policy contract and filter
    blocks below 4 GiB. *)
Theorem filter_block_no_false_negative (p : FilterPolicy) (ok : list bytes -> Prop)
  (filter_of : list bytes -> bytes) (blocks : list (Z * list bytes)) (off : Z) (ks : list bytes)
  (key : bytes)
  (Hp : FilterPolicyOk p ok filter_of)
  (Hok : forall g, g `sublist_of` all_keys blocks -> g = [] \/ ok g)
  (Hoffs : offsets_from 0 blocks)
  (Hin : (off, ks) ∈ blocks) (Hkey : key ∈ ks) :
  let contents := snd (FilterBlockBuilder.Finish p (run p FilterBlockBuilder.new blocks)) in
  blen contents < 2 ^ 32 ->
  FilterBlockReader.KeyMayMatch (FilterBlockReader.new p contents) off key = true.
Proof.
  intros contents Hsize.
  destruct (filter_block_window p ok filter_of blocks off ks key Hp Hok Hoffs Hin Hkey Hsize)
    as (g & Hg & Hkg & ->).
  exact (@no_false_negative p ok filter_of Hp _ _ Hg Hkg).
Qed.

(** With the built-in Bloom filter of 10 bits per key. *)
Definition example_blocks : list (Z * list bytes) := [(0, [[1]; [2; 3]]); (900, [[4]]); (5000, [[5; 6]])].

Lemma filter_block_no_false_negative_witness :
  let p := BloomPolicy (mkBloomFilterPolicy 10) in
  FilterBlockReader.KeyMayMatch (FilterBlockReader.new p
    (snd (FilterBlockBuilder.Finish p (run p FilterBlockBuilder.new example_blocks)))) 900 [4] = true.
Proof.
  refine (filter_block_no_false_negative (BloomPolicy (mkBloomFilterPolicy 10))
    (bloom_keys_ok (mkBloomFilterPolicy 10)) _ example_blocks 900 [[4]] [4]
    (BloomPolicy_ok _ (mkBloomFilterPolicy_ok 10)) _ _ _ _ _).
  - intros g Hg. right. apply sublist_length in Hg. unfold bloom_keys_ok.
    change (bits_per_key_ (mkBloomFilterPolicy 10)) with 10.
    change (length (all_keys example_blocks)) with 4%nat in Hg. ulia.
  - cbn. lia.
  - apply list_elem_of_In. cbn. auto.
  - apply list_elem_of_In. cbn. auto.
  - by vm_compute.
Defined.

(** ** The filter of a whole file *)

Lemma file_filter_add p ks b ks0 :
  FileLevelFilterBuilder.policy_ b = Some p ->
  FileLevelFilterBuilder.keys_ b = concat ks0 ->
  FileLevelFilterBuilder.key_offsets_ b = starts_of 0 ks0 ->
  let b' := fold_left FileLevelFilterBuilder.AddKey ks b in
  FileLevelFilterBuilder.policy_ b' = Some p /\
  FileLevelFilterBuilder.keys_ b' = concat (ks0 ++ ks) /\
  FileLevelFilterBuilder.key_offsets_ b' = starts_of 0 (ks0 ++ ks).
Proof.
  revert b ks0. induction ks as [|k ks IH]; intros b ks0 H1 H2 H3; cbn [fold_left].
  { by rewrite app_nil_r. }
  specialize (IH (FileLevelFilterBuilder.AddKey b k) (ks0 ++ [k])).
  rewrite <- app_assoc in IH. unfold FileLevelFilterBuilder.AddKey in *. rewrite H1 in *.
  apply IH; cbn; [done|..].
  - rewrite H2, concat_app. cbn. by rewrite app_nil_r.
  - by rewrite H2, H3, starts_of_app.
Qed.

Lemma file_filter_null ks b :
  FileLevelFilterBuilder.policy_ b = None -> fold_left FileLevelFilterBuilder.AddKey ks b = b.
Proof.
  intros Hb. induction ks as [|k ks IH]; [done|]. cbn [fold_left].
  unfold FileLevelFilterBuilder.AddKey at 2. by rewrite Hb.
Qed.

(** The filter of a whole file: adding any keys and generating the filter gives a
    filter that matches every key added, leaves the builder empty for the next
    file, and yields the null pointer exactly when no key was added or there is
    no policy. *)
Theorem file_filter_no_false_negative (p : FilterPolicy) (ok : list bytes -> Prop)
  (filter_of : list bytes -> bytes) (ks : list bytes)
  (Hp : FilterPolicyOk p ok filter_of) (Hok : ok ks) :
  let gen policy := FileLevelFilterBuilder.GenerateFilter
    (fold_left FileLevelFilterBuilder.AddKey ks (FileLevelFilterBuilder.new policy)) in
  fst (gen (Some p)) = FileLevelFilterBuilder.new (Some p) /\ snd (gen None) = None /\
  match snd (gen (Some p)) with
  | None => ks = []
  | Some f => forall key, key ∈ ks -> KeyMayMatch p key f = true
  end.
Proof.
  intros gen.
  destruct (file_filter_add p ks (FileLevelFilterBuilder.new (Some p)) []) as (E1 & E2 & E3);
    [done..|]. cbn [app] in *. unfold gen, FileLevelFilterBuilder.GenerateFilter.
  rewrite E1, E2, E3. unfold FileLevelFilterBuilder.Clear. rewrite E1.
  split; [by destruct ks|]. split; [by rewrite file_filter_null|].
  destruct ks as [|k ks]; [done|]. cbn [starts_of snd]. intros key Hk.
  assert (key_slices (concat (k :: ks)) (0 :: starts_of (0 + blen k) ks) (blen (concat (k :: ks)))
          = k :: ks) as -> by exact (key_slices_concat [] (k :: ks)).
  rewrite create_appends by done. exact (@no_false_negative p ok filter_of Hp _ _ Hok Hk).
Qed.

Lemma file_filter_no_false_negative_witness :
  let p := BloomPolicy (mkBloomFilterPolicy 10) in
  let gen policy := FileLevelFilterBuilder.GenerateFilter
    (fold_left FileLevelFilterBuilder.AddKey [[1]; [2; 3]] (FileLevelFilterBuilder.new policy)) in
  match snd (gen (Some p)) with
  | None => [[1]; [2; 3]] = []
  | Some f => forall key, key ∈ [[1]; [2; 3]] -> KeyMayMatch p key f = true
  end.
Proof.
  refine (proj2 (proj2 (file_filter_no_false_negative (BloomPolicy (mkBloomFilterPolicy 10))
    (bloom_keys_ok (mkBloomFilterPolicy 10)) _ [[1]; [2; 3]]
    (BloomPolicy_ok _ (mkBloomFilterPolicy_ok 10)) _))).
  unfold bloom_keys_ok. by vm_compute.
Defined.
