(* ===== verification/TableFormat.v ===== *)
(** * The table file format

    Models [src/pebblesdb/src/table/format.cc/.h]: block handles, the footer, and
    reading a block with its trailer (type and checksum).  The Snappy library is a
    parameter ([Snappy]) with its documented law ([SnappyOk]). *)

From S2P Require Import Prelude Coding Status Crc32c.

(** [enum CompressionType]. *)
Definition kNoCompression : Z := 0.
Definition kSnappyCompression : Z := 1.

(** [port::Snappy_*]: [None] is [false]. *)
Class Snappy := {
  Snappy_Compress : bytes -> option bytes;
  Snappy_GetUncompressedLength : bytes -> option Z;
  Snappy_Uncompress : bytes -> option bytes;
}.
(** What is compressed can be uncompressed. *)
Class SnappyOk `{Snappy} := {
  snappy_roundtrip : forall x y, Snappy_Compress x = Some y -> bytes_ok x ->
    bytes_ok y /\ Snappy_GetUncompressedLength y = Some (blen x) /\ Snappy_Uncompress y = Some x;
}.

(** The port compiled without Snappy. *)
Definition no_snappy : Snappy := {|
  Snappy_Compress _ := None; Snappy_GetUncompressedLength _ := None; Snappy_Uncompress _ := None;
|}.
Lemma no_snappy_ok : @SnappyOk no_snappy.
Proof. by constructor. Qed.

(** ** BlockHandle *)

Record BlockHandle := { offset_ : Z; size_ : Z }.

(** The default constructor: both fields are [~0]. *)
Definition BlockHandle_default : BlockHandle := {| offset_ := 2 ^ 64 - 1; size_ := 2 ^ 64 - 1 |}.

Definition kMaxEncodedLength : Z := 10 + 10.

Definition BlockHandle_EncodeTo (h : BlockHandle) (dst : bytes) : bytes :=
  PutVarint64 (PutVarint64 dst (offset_ h)) (size_ h).

(** The status, the handle after the call and the rest of the input. *)
Definition BlockHandle_DecodeFrom (h : BlockHandle) (input : bytes) : Status * BlockHandle * bytes :=
  match GetVarint64 input with
  | None => (Corruption (str "bad block handle"), h, input)
  | Some (o, input) =>
      let h := {| offset_ := o; size_ := size_ h |} in
      match GetVarint64 input with
      | None => (Corruption (str "bad block handle"), h, input)
      | Some (s, input) => (OK, {| offset_ := o; size_ := s |}, input)
      end
  end.

(** ** Footer *)

Record Footer := { metaindex_handle_ : BlockHandle; index_handle_ : BlockHandle }.
Definition Footer_default : Footer :=
  {| metaindex_handle_ := BlockHandle_default; index_handle_ := BlockHandle_default |}.

Definition kEncodedLength : Z := 2 * kMaxEncodedLength + 8.
Definition kTableMagicNumber : Z := 0xdb4775248b80fb57.

(** [std::string::resize]. *)
Definition resize (s : bytes) (n : Z) : bytes :=
  take (Z.to_nat n) s ++ replicate (Z.to_nat (n - blen s)) 0.

Definition Footer_EncodeTo (f : Footer) (dst : bytes) : bytes :=
  let dst := BlockHandle_EncodeTo (metaindex_handle_ f) dst in
  let dst := BlockHandle_EncodeTo (index_handle_ f) dst in
  let dst := resize dst (2 * kMaxEncodedLength) in
  let dst := PutFixed32 dst (u32 (Z.land kTableMagicNumber 0xffffffff)) in
  PutFixed32 dst (u32 (Z.shiftr kTableMagicNumber 32)).

Definition Footer_DecodeFrom (f : Footer) (input : bytes) : Status * Footer * bytes :=
  let magic_ptr := drop (Z.to_nat (kEncodedLength - 8)) input in
  let magic_lo := DecodeFixed32 magic_ptr in
  let magic_hi := DecodeFixed32 (drop 4 magic_ptr) in
  let magic := Z.lor (Z.shiftl magic_hi 32) magic_lo in
  if negb (magic =? kTableMagicNumber)
  then (InvalidArgument (str "not an sstable (bad magic number)"), f, input)
  else
    let '(result, mh, input1) := BlockHandle_DecodeFrom (metaindex_handle_ f) input in
    let f := {| metaindex_handle_ := mh; index_handle_ := index_handle_ f |} in
    if ok result then
      let '(result, ih, input2) := BlockHandle_DecodeFrom (index_handle_ f) input1 in
      let f := {| metaindex_handle_ := mh; index_handle_ := ih |} in
      if ok result then (result, f, drop 8 magic_ptr) else (result, f, input2)
    else (result, f, input1).

(** ** Blocks on disk *)

Definition kBlockTrailerSize : Z := 5.

Record BlockContents := { data : bytes; cachable : bool; heap_allocated : bool }.

Section ReadBlock.
Context {F : Type} {HF : RandomAccessFile F} {HS : Snappy}.

Definition ReadBlock (file : F) (verify_checksums : bool) (handle : BlockHandle)
    : Status * option BlockContents :=
  let n := size_ handle in
  let '(s, (contents, in_buf)) := ReadAt file (offset_ handle) (u64 (n + kBlockTrailerSize)) in
  if negb (ok s) then (s, None)
  else if negb (blen contents =? u64 (n + kBlockTrailerSize))
  then (Corruption (str "truncated block read"), None)
  else if verify_checksums &&
          negb (Value (take (Z.to_nat (n + 1)) contents) =?
                Unmask (DecodeFixed32 (drop (Z.to_nat (n + 1)) contents)))
  then (Corruption (str "block checksum mismatch"), None)
  else
    let payload := take (Z.to_nat n) contents in
    let type := schar (at_ contents n) in
    if type =? kNoCompression then
      (OK, Some {| data := payload; cachable := in_buf; heap_allocated := in_buf |})
    else if type =? kSnappyCompression then
      match Snappy_GetUncompressedLength payload with
      | None => (Corruption (str "corrupted compressed block contents"), None)
      | Some ulength =>
          match Snappy_Uncompress payload with
          | None => (Corruption (str "corrupted compressed block contents"), None)
          | Some u => (OK, Some {| data := take (Z.to_nat ulength) u; cachable := true;
                                   heap_allocated := true |})
          end
      end
    else (Corruption (str "bad block type"), None).
End ReadBlock.

(** ** Round trips *)

Definition handle_ok (h : BlockHandle) : Prop := is_u64 (offset_ h) /\ is_u64 (size_ h).

(** What a handle is stored as. *)
Definition handle_bytes (h : BlockHandle) : bytes := BlockHandle_EncodeTo h [].

Lemma BlockHandle_EncodeTo_app h dst : BlockHandle_EncodeTo h dst = dst ++ handle_bytes h.
Proof. unfold handle_bytes, BlockHandle_EncodeTo, PutVarint64. by rewrite <- app_assoc. Qed.

Lemma handle_bytes_len h : handle_ok h -> 2 <= blen (handle_bytes h) <= kMaxEncodedLength.
Proof.
  intros [Ho Hs]. unfold handle_bytes, BlockHandle_EncodeTo, PutVarint64, kMaxEncodedLength.
  pose proof (EncodeVarint64_length _ Ho). pose proof (EncodeVarint64_length _ Hs). blia.
Qed.

Lemma handle_bytes_ok h : bytes_ok (handle_bytes h).
Proof.
  unfold handle_bytes, BlockHandle_EncodeTo, PutVarint64. cbn [app].
  apply bytes_ok_app. auto using EncodeVarint64_ok.
Qed.

Lemma BlockHandle_decode h h0 rest :
  handle_ok h -> BlockHandle_DecodeFrom h0 (handle_bytes h ++ rest) = (OK, h, rest).
Proof.
  intros [Ho Hs]. unfold handle_bytes, BlockHandle_EncodeTo, PutVarint64, BlockHandle_DecodeFrom.
  cbn [app]. rewrite <- app_assoc, !roundtrip by done. by destruct h.
Qed.

Lemma footer_magic_bytes rest :
  let m := EncodeFixed32 (u32 (Z.land kTableMagicNumber 0xffffffff)) ++
           EncodeFixed32 (u32 (Z.shiftr kTableMagicNumber 32)) ++ rest in
  Z.lor (Z.shiftl (DecodeFixed32 (drop 4 m)) 32) (DecodeFixed32 m) = kTableMagicNumber /\
  drop 8 m = rest.
Proof.
  intros m. unfold m. rewrite DecodeFixed32_encode by apply u32_range.
  rewrite (drop_app_length' (EncodeFixed32 _)) by (by rewrite EncodeFixed32_length).
  rewrite DecodeFixed32_encode by apply u32_range. split; [done|].
  rewrite app_assoc. by apply drop_app_length'.
Qed.

Lemma footer_layout f rest :
  handle_ok (metaindex_handle_ f) -> handle_ok (index_handle_ f) ->
  blen (Footer_EncodeTo f []) = kEncodedLength /\ bytes_ok (Footer_EncodeTo f []) /\
  forall f0, Footer_DecodeFrom f0 (Footer_EncodeTo f [] ++ rest) = (OK, f, rest).
Proof.
  intros Hm Hi. unfold Footer_EncodeTo. rewrite !BlockHandle_EncodeTo_app. cbn [app].
  pose proof (handle_bytes_len _ Hm) as L1. pose proof (handle_bytes_len _ Hi) as L2.
  pose proof (handle_bytes_ok (metaindex_handle_ f)). pose proof (handle_bytes_ok (index_handle_ f)).
  pose proof (fun h0 => BlockHandle_decode (metaindex_handle_ f) h0) as D1.
  pose proof (fun h0 => BlockHandle_decode (index_handle_ f) h0) as D2.
  set (e1 := handle_bytes (metaindex_handle_ f)) in *. set (e2 := handle_bytes (index_handle_ f)) in *.
  clearbody e1 e2. unfold kMaxEncodedLength in *. unfold resize. change (2 * (10 + 10)) with 40.
  rewrite take_blen by blia. set (pad := replicate _ 0). unfold PutFixed32.
  assert (blen pad = 40 - blen e1 - blen e2) as Hpad by (unfold pad; blia).
  split; [|split].
  - unfold kEncodedLength, kMaxEncodedLength. blia.
  - rewrite !bytes_ok_app. split_and!; auto with pebbles. by apply bytes_ok_replicate.
  - intros f0. rewrite <- !app_assoc. unfold Footer_DecodeFrom.
    set (m := EncodeFixed32 _ ++ EncodeFixed32 _ ++ rest).
    destruct (footer_magic_bytes rest) as [Hmagic Hrest]. fold m in Hmagic, Hrest.
    assert (drop (Z.to_nat (kEncodedLength - 8)) (e1 ++ e2 ++ pad ++ m) = m) as ->.
    { rewrite !app_assoc. apply drop_app_length'. rewrite !length_app.
      change (Z.to_nat (kEncodedLength - 8)) with 40%nat. ulia. }
    rewrite Hmagic, Z.eqb_refl. cbn [negb]. rewrite D1 by done. cbn [ok OK index_handle_].
    rewrite D2 by done. cbn [ok OK]. rewrite Hrest. by destruct f.
Qed.

(** The trailer of a block. *)
Definition block_trailer (contents : bytes) (type : Z) : bytes :=
  [type] ++ EncodeFixed32 (Mask (Extend (Value contents) [type])).

Lemma blen_block_trailer contents type : blen (block_trailer contents type) = 5.
Proof. done. Qed.

Lemma trailer_checksum contents type rest :
  bytes_ok contents -> is_u8 type -> blen contents + 1 < 2 ^ 32 ->
  let raw := contents ++ block_trailer contents type ++ rest in
  Value (take (Z.to_nat (blen contents + 1)) raw) =
  Unmask (DecodeFixed32 (drop (Z.to_nat (blen contents + 1)) raw)).
Proof.
  intros Hc Ht Hl raw. unfold raw, block_trailer. rewrite <- app_assoc, (app_assoc contents).
  rewrite take_app_length', drop_app_length' by (rewrite length_app; cbn; ulia).
  rewrite DecodeFixed32_encode by apply Mask_range. unfold Value.
  assert (is_u32 0) by ulia. pose proof (blen_nonneg contents).
  rewrite Unmask_Mask.
  - symmetry. apply Extend_app; [done|done|by constructor|blia].
  - apply Extend_range; [|by constructor|blia]. apply Extend_range; [done|done|ulia].
Qed.

(** Reading back a stored block, wherever it lies in the file. *)
Lemma ReadBlock_stored `{Snappy} `{!SnappyOk} pre contents type stored post verify :
  (verify = true -> bytes_ok stored) -> blen stored + 5 < 2 ^ 32 -> is_u64 (blen pre) ->
  (type = kNoCompression /\ stored = contents \/
   type = kSnappyCompression /\ Snappy_Compress contents = Some stored /\ bytes_ok contents) ->
  exists heap,
  ReadBlock (pre ++ stored ++ block_trailer stored type ++ post) verify
    {| offset_ := blen pre; size_ := blen stored |} =
  (OK, Some {| data := contents; cachable := heap; heap_allocated := heap |}).
Proof.
  intros Hs Hl Hpre Htype. exists true. pose proof (blen_nonneg stored).
  unfold ReadBlock. cbn [ReadAt mem_RandomAccessFile offset_ size_].
  change kBlockTrailerSize with 5. rewrite u64_small by ulia.
  set (t := block_trailer stored type).
  assert (sub (pre ++ stored ++ t ++ post) (blen pre) (blen stored + 5) = stored ++ t ++ []) as ->.
  { unfold sub. rewrite drop_app_length' by ulia. rewrite app_nil_r, app_assoc.
    apply take_app_length'. rewrite length_app. change (length t) with 5%nat. ulia. }
  cbn [ok OK negb]. rewrite !blen_app, blen_nil. change (blen t) with 5.
  rewrite Z.add_0_r, Z.eqb_refl. cbn [negb].
  assert (is_u8 type) as Ht by (by destruct Htype as [[-> _]|[-> _]]).
  unfold t.
  assert (forall x, verify && negb (Value (take (Z.to_nat (blen stored + 1)) (stored ++ block_trailer stored type ++ [])) =?
    Unmask (DecodeFixed32 (drop (Z.to_nat (blen stored + 1)) (stored ++ block_trailer stored type ++ [])))) = x ->
    x = false) as Hcrc.
  { intros x <-. destruct verify; [|done]. rewrite (trailer_checksum stored type []) by (done || lia || auto).
    by rewrite Z.eqb_refl. }
  rewrite (Hcrc _ eq_refl). cbv zeta.
  rewrite take_app_length' by ulia.
  assert (at_ (stored ++ block_trailer stored type ++ []) (blen stored) = type) as ->.
  { unfold at_, blen. rewrite Nat2Z.id, app_nth2, Nat.sub_diag by lia. done. }
  destruct Htype as [[-> ->]|(-> & Hcomp & Hc)]; [done|].
  destruct (snappy_roundtrip _ _ Hcomp Hc) as (_ & -> & ->). cbn.
  by rewrite take_blen by ulia.
Qed.

(** Block handles and the footer round-trip: a table's footer is always exactly
    48 bytes, decodes to the handles it was made of and leaves what follows it; a
    trailer with a different magic number is rejected with InvalidArgument. *)
Theorem footer_roundtrip (f f0 : Footer) (rest : bytes)
  (Hm : handle_ok (metaindex_handle_ f)) (Hi : handle_ok (index_handle_ f)) :
  blen (Footer_EncodeTo f []) = kEncodedLength /\
  Footer_DecodeFrom f0 (Footer_EncodeTo f [] ++ rest) = (OK, f, rest) /\
  (forall input, DecodeFixed64 (drop 40 input) <> kTableMagicNumber -> bytes_ok input ->
     48 <= blen input ->
     fst (fst (Footer_DecodeFrom f0 input)) =
     InvalidArgument (str "not an sstable (bad magic number)")).
Proof.
  destruct (footer_layout f rest Hm Hi) as (Hl & _ & Hd). split; [done|]. split; [apply Hd|].
  intros input Hne Hok Hlen. unfold Footer_DecodeFrom.
  change (Z.to_nat (kEncodedLength - 8)) with 40%nat.
  assert (Z.lor (Z.shiftl (DecodeFixed32 (drop 4 (drop 40 input))) 32)
            (DecodeFixed32 (drop 40 input)) = DecodeFixed64 (drop 40 input)) as ->.
  { rewrite <- (DecodeFixed64_on_le false) by (auto with pebbles; blia).
    unfold DecodeFixed64_on. rewrite !DecodeFixed32_on_le by (auto with pebbles; blia).
    pose proof (DecodeFixed32_range (drop 4 (drop 40 input)) ltac:(auto with pebbles)).
    rewrite u64_small; [done|]. rewrite Z.shiftl_mul_pow2 by lia. ulia. }
  by rewrite (proj2 (Z.eqb_neq _ _) Hne).
Qed.

Definition example_footer : Footer :=
  {| metaindex_handle_ := {| offset_ := 300; size_ := 8 |};
     index_handle_ := {| offset_ := 313; size_ := 21 |} |}.

Lemma footer_roundtrip_witness :
  Footer_DecodeFrom Footer_default (Footer_EncodeTo example_footer [] ++ [7]) =
  (OK, example_footer, [7]).
Proof. apply (footer_roundtrip example_footer Footer_default [7]); by split; vm_compute. Defined.
