(* ===== verification/Table.v ===== *)
(** * Sorted table files: builder and reader

    Models [src/pebblesdb/src/table/table_builder.cc] and
    [src/pebblesdb/src/table/table.cc]: a table is a sequence of data blocks, a filter
    block, a metaindex block, an index block and a footer.  The files, the Snappy
    library and the block cache are parameters.  A failed [assert], an [abort()] and a
    null dereference are the outcome [None]. *)

From S2P Require Import Prelude Coding Status Crc32c Comparator DbFormat Bloom Iterator Block.
From S2P Require Import FilterBlock TableFormat TwoLevelIterator.

(** The fields of [struct Options] that tables use.  Comparators are compared by address. *)
Record Options := {
  comparator : Comparator;
  comparator_addr : Z;
  block_size : Z;
  block_restart_interval : Z;
  compression : Z;
  filter_policy : option FilterPolicy;
}.

Definition set_restart_interval (o : Options) (n : Z) : Options :=
  {| comparator := comparator o; comparator_addr := comparator_addr o; block_size := block_size o;
     block_restart_interval := n; compression := compression o; filter_policy := filter_policy o |}.

(** ** TableBuilder *)

Module TableBuilder.
Section Builder.
Context {F : Type} `{WritableFile F} `{Snappy}.

(** The filter block builder comes with the policy it was made for.  The buffer
    [compressed_output] is left out: [WriteBlock] clears it before it returns. *)
Record Rep := {
  options : Options;
  index_block_options : Options;
  file : F;
  offset : Z;
  status : Status;
  data_block : BlockBuilder.BlockBuilder;
  index_block : BlockBuilder.BlockBuilder;
  last_key : bytes;
  num_entries : Z;
  closed : bool;
  filter_block : option (FilterPolicy * FilterBlockBuilder.FilterBlockBuilder);
  pending_index_entry : bool;
  pending_handle : BlockHandle;
}.

(** Assignments. *)
Definition set_file (r : Rep) (f : F) (s : Status) : Rep :=
  {| options := options r; index_block_options := index_block_options r; file := f;
     offset := offset r; status := s; data_block := data_block r; index_block := index_block r;
     last_key := last_key r; num_entries := num_entries r; closed := closed r;
     filter_block := filter_block r; pending_index_entry := pending_index_entry r;
     pending_handle := pending_handle r |}.
Definition set_offset (r : Rep) (o : Z) : Rep :=
  {| options := options r; index_block_options := index_block_options r; file := file r;
     offset := o; status := status r; data_block := data_block r; index_block := index_block r;
     last_key := last_key r; num_entries := num_entries r; closed := closed r;
     filter_block := filter_block r; pending_index_entry := pending_index_entry r;
     pending_handle := pending_handle r |}.
Definition set_data_block (r : Rep) (b : BlockBuilder.BlockBuilder) : Rep :=
  {| options := options r; index_block_options := index_block_options r; file := file r;
     offset := offset r; status := status r; data_block := b; index_block := index_block r;
     last_key := last_key r; num_entries := num_entries r; closed := closed r;
     filter_block := filter_block r; pending_index_entry := pending_index_entry r;
     pending_handle := pending_handle r |}.
Definition set_index_block (r : Rep) (b : BlockBuilder.BlockBuilder) : Rep :=
  {| options := options r; index_block_options := index_block_options r; file := file r;
     offset := offset r; status := status r; data_block := data_block r; index_block := b;
     last_key := last_key r; num_entries := num_entries r; closed := closed r;
     filter_block := filter_block r; pending_index_entry := pending_index_entry r;
     pending_handle := pending_handle r |}.
Definition set_last_key (r : Rep) (k : bytes) (n : Z) : Rep :=
  {| options := options r; index_block_options := index_block_options r; file := file r;
     offset := offset r; status := status r; data_block := data_block r; index_block := index_block r;
     last_key := k; num_entries := n; closed := closed r;
     filter_block := filter_block r; pending_index_entry := pending_index_entry r;
     pending_handle := pending_handle r |}.
Definition set_closed (r : Rep) : Rep :=
  {| options := options r; index_block_options := index_block_options r; file := file r;
     offset := offset r; status := status r; data_block := data_block r; index_block := index_block r;
     last_key := last_key r; num_entries := num_entries r; closed := true;
     filter_block := filter_block r; pending_index_entry := pending_index_entry r;
     pending_handle := pending_handle r |}.
Definition set_filter_block (r : Rep) (fb : option (FilterPolicy * FilterBlockBuilder.FilterBlockBuilder)) : Rep :=
  {| options := options r; index_block_options := index_block_options r; file := file r;
     offset := offset r; status := status r; data_block := data_block r; index_block := index_block r;
     last_key := last_key r; num_entries := num_entries r; closed := closed r;
     filter_block := fb; pending_index_entry := pending_index_entry r;
     pending_handle := pending_handle r |}.
Definition set_pending (r : Rep) (b : bool) (h : BlockHandle) : Rep :=
  {| options := options r; index_block_options := index_block_options r; file := file r;
     offset := offset r; status := status r; data_block := data_block r; index_block := index_block r;
     last_key := last_key r; num_entries := num_entries r; closed := closed r;
     filter_block := filter_block r; pending_index_entry := b; pending_handle := h |}.

(** [if (r->filter_block != NULL) r->filter_block->f();] *)
Definition on_filter (r : Rep)
    (f : FilterPolicy -> FilterBlockBuilder.FilterBlockBuilder -> FilterBlockBuilder.FilterBlockBuilder) : Rep :=
  match filter_block r with
  | None => r
  | Some (p, fb) => set_filter_block r (Some (p, f p fb))
  end.

(** The constructors of [Rep] and [TableBuilder]. *)
Definition new (opt : Options) (f : F) : Rep :=
  let r := {| options := opt; index_block_options := set_restart_interval opt 1; file := f;
     offset := 0; status := OK; data_block := BlockBuilder.new (block_restart_interval opt);
     index_block := BlockBuilder.new 1; last_key := []; num_entries := 0; closed := false;
     filter_block := (fun p => (p, FilterBlockBuilder.new)) <$> filter_policy opt;
     pending_index_entry := false; pending_handle := BlockHandle_default |} in
  on_filter r (fun p fb => FilterBlockBuilder.StartBlock p fb 0).

(** The live block builder picks up the new restart interval. *)
Definition ChangeOptions (r : Rep) (opt : Options) : Status * Rep :=
  if negb (comparator_addr opt =? comparator_addr (options r))
  then (InvalidArgument (str "changing comparator while building table"), r)
  else
    let b := data_block r in
    (OK, {| options := opt; index_block_options := set_restart_interval opt 1; file := file r;
       offset := offset r; status := status r;
       data_block := {| BlockBuilder.block_restart_interval := block_restart_interval opt;
                        BlockBuilder.buffer_ := BlockBuilder.buffer_ b;
                        BlockBuilder.restarts_ := BlockBuilder.restarts_ b;
                        BlockBuilder.counter_ := BlockBuilder.counter_ b;
                        BlockBuilder.finished_ := BlockBuilder.finished_ b;
                        BlockBuilder.last_key_ := BlockBuilder.last_key_ b |};
       index_block := index_block r; last_key := last_key r; num_entries := num_entries r;
       closed := closed r; filter_block := filter_block r;
       pending_index_entry := pending_index_entry r; pending_handle := pending_handle r |}).

(** The handle of the block is the second component. *)
Definition WriteRawBlock (r : Rep) (block_contents : bytes) (type : Z) : Rep * BlockHandle :=
  let handle := {| offset_ := offset r; size_ := blen block_contents |} in
  let '(f, s) := Append (file r) block_contents in
  let r := set_file r f s in
  if ok s then
    let crc := Value block_contents in
    let crc := Extend crc [type] in
    let trailer := [type] ++ EncodeFixed32 (Mask crc) in
    let '(f, s) := Append (file r) trailer in
    let r := set_file r f s in
    (if ok s then set_offset r (u64 (offset r + (blen block_contents + kBlockTrailerSize))) else r,
     handle)
  else (r, handle).

(** The representation, the block after [Reset] and the handle. *)
Definition WriteBlock (r : Rep) (block : BlockBuilder.BlockBuilder)
    : option (Rep * BlockBuilder.BlockBuilder * BlockHandle) :=
  if negb (ok (status r)) then None
  else
    let '(block, raw) := BlockBuilder.Finish block in
    let type := compression (options r) in
    let chosen :=
      if type =? kNoCompression then Some (raw, type)
      else if type =? kSnappyCompression then
        match Snappy_Compress raw with
        | Some compressed =>
            if blen compressed <? blen raw - blen raw / 8 then Some (compressed, type)
            else Some (raw, kNoCompression)
        | None => Some (raw, kNoCompression)
        end
      else None in
    match chosen with
    | None => None
    | Some (block_contents, type) =>
        let '(r, handle) := WriteRawBlock r block_contents type in
        Some (r, BlockBuilder.Reset block, handle)
    end.

Definition Flush (r : Rep) : option Rep :=
  if closed r then None
  else if negb (ok (status r)) then Some r
  else if BlockBuilder.empty (data_block r) then Some r
  else if pending_index_entry r then None
  else
    match WriteBlock r (data_block r) with
    | None => None
    | Some (r, block, handle) =>
        let r := set_pending (set_data_block r block) (pending_index_entry r) handle in
        let r :=
          if ok (status r) then
            let r := set_pending r true (pending_handle r) in
            let '(f, s) := FlushFile (file r) in set_file r f s
          else r in
        Some (on_filter r (fun p fb => FilterBlockBuilder.StartBlock p fb (offset r)))
    end.

(** Emits the index entry of the last block under the key [k]. *)
Definition add_index_entry (r : Rep) (k : bytes) : Rep :=
  let r := set_last_key r k (num_entries r) in
  let handle_encoding := BlockHandle_EncodeTo (pending_handle r) [] in
  let r := set_index_block r (BlockBuilder.Add (index_block r) (last_key r) handle_encoding) in
  set_pending r false (pending_handle r).

Definition Add (r : Rep) (key value : bytes) : option Rep :=
  if closed r then None
  else if negb (ok (status r)) then Some r
  else if pending_index_entry r && negb (BlockBuilder.empty (data_block r)) then None
  else
    let r :=
      if pending_index_entry r
      then add_index_entry r (FindShortestSeparator (comparator (options r)) (last_key r) key)
      else r in
    let r := on_filter r (fun _ fb => FilterBlockBuilder.AddKey fb key) in
    let r := set_last_key r key (num_entries r + 1) in
    let r := set_data_block r (BlockBuilder.Add (data_block r) key value) in
    let estimated_block_size := BlockBuilder.CurrentSizeEstimate (data_block r) in
    if block_size (options r) <=? estimated_block_size then Flush r else Some r.

(** The four parts of [Finish]; each does nothing once the status is an error. *)
Definition write_filter_block (r : Rep) : Rep * BlockHandle :=
  if ok (status r) then
    match filter_block r with
    | None => (r, BlockHandle_default)
    | Some (p, fb) =>
        let '(fb, contents) := FilterBlockBuilder.Finish p fb in
        WriteRawBlock (set_filter_block r (Some (p, fb))) contents kNoCompression
    end
  else (r, BlockHandle_default).

(** With a filter block but no policy in the options the name is read through null. *)
Definition write_metaindex_block (r : Rep) (filter_block_handle : BlockHandle)
    : option (Rep * BlockHandle) :=
  if ok (status r) then
    let meta_index_block := BlockBuilder.new (block_restart_interval (options r)) in
    let meta_index_block :=
      match filter_block r, filter_policy (options r) with
      | None, _ => Some meta_index_block
      | Some _, Some p =>
          let key := str "filter." ++ Name p in
          Some (BlockBuilder.Add meta_index_block key (BlockHandle_EncodeTo filter_block_handle []))
      | Some _, None => None
      end in
    meta_index_block ≫= fun b => '(r, _, h) ← WriteBlock r b; Some (r, h)
  else Some (r, BlockHandle_default).

Definition write_index_block (r : Rep) : option (Rep * BlockHandle) :=
  if ok (status r) then
    let r :=
      if pending_index_entry r
      then add_index_entry r (FindShortSuccessor (comparator (options r)) (last_key r))
      else r in
    '(r, b, h) ← WriteBlock r (index_block r);
    Some (set_index_block r b, h)
  else Some (r, BlockHandle_default).

Definition write_footer (r : Rep) (metaindex_block_handle index_block_handle : BlockHandle) : Rep :=
  if ok (status r) then
    let footer := {| metaindex_handle_ := metaindex_block_handle;
                     index_handle_ := index_block_handle |} in
    let footer_encoding := Footer_EncodeTo footer [] in
    let '(f, s) := Append (file r) footer_encoding in
    let r := set_file r f s in
    if ok s then set_offset r (u64 (offset r + blen footer_encoding)) else r
  else r.

Definition Finish (r : Rep) : option (Status * Rep) :=
  r ← Flush r;
  if closed r then None
  else
    let '(r, filter_block_handle) := write_filter_block (set_closed r) in
    '(r, metaindex_block_handle) ← write_metaindex_block r filter_block_handle;
    '(r, index_block_handle) ← write_index_block r;
    let r := write_footer r metaindex_block_handle index_block_handle in
    Some (status r, r).

Definition Abandon (r : Rep) : option Rep :=
  if closed r then None else Some (set_closed r).

Definition NumEntries (r : Rep) : Z := num_entries r.
Definition FileSize (r : Rep) : Z := offset r.

(** [Add] for each entry. *)
Definition add_entries (r : Rep) (kv : list (bytes * bytes)) : option Rep :=
  fold_left (fun r '(k, v) => r ≫= fun r => Add r k v) kv (Some r).
End Builder.
Arguments Rep : clear implicits.
End TableBuilder.

(** ** Table *)

(** [Cache] as tables use it: [Insert] takes the charge. *)
Class BlockCache (C : Type) := {
  NewId : C -> Z * C;
  CacheLookup : C -> bytes -> option Block * C;
  CacheInsert : C -> bytes -> Block -> Z -> C;
}.

Module Table.
Section Reader.
Context {F C : Type} `{RandomAccessFile F} `{Snappy} `{BlockCache C}.

Record Table := {
  options : Options;
  file : F;
  cache_id : Z;
  filter : option FilterBlockReader.FilterBlockReader;
  metaindex_handle : BlockHandle;
  index_block : Block;
}.

Definition ReadFilter (t : Table) (filter_handle_value : bytes) (policy : FilterPolicy) : Table :=
  match BlockHandle_DecodeFrom BlockHandle_default filter_handle_value with
  | (None, filter_handle, _) =>
      match ReadBlock (file t) false filter_handle with
      | (None, Some block) =>
          {| options := options t; file := file t; cache_id := cache_id t;
             filter := Some (FilterBlockReader.new policy (data block));
             metaindex_handle := metaindex_handle t; index_block := index_block t |}
      | _ => t
      end
  | _ => t
  end.

Definition ReadMeta (t : Table) (footer : Footer) : Table :=
  match filter_policy (options t) with
  | None => t
  | Some policy =>
      match ReadBlock (file t) false (metaindex_handle_ footer) with
      | (None, Some contents) =>
          let meta := mkBlock (data contents) in
          let iter := NewIterator meta BytewiseComparator in
          let key := str "filter." ++ Name policy in
          let iter := Seek iter key in
          if Valid iter && Slice_eq (Iterator.key iter) key
          then ReadFilter t (value iter) policy else t
      | _ => t
      end
  end.

(** The status, the table and the cache after the call. *)
Definition Open (opt : Options) (block_cache : option C) (f : F) (size : Z)
    : Status * option Table * option C :=
  if size <? kEncodedLength
  then (InvalidArgument (str "file is too short to be an sstable"), None, block_cache)
  else
    let '(s, (footer_input, _)) := ReadAt f (size - kEncodedLength) kEncodedLength in
    if negb (ok s) then (s, None, block_cache)
    else
      let '(s, footer, _) := Footer_DecodeFrom Footer_default footer_input in
      if negb (ok s) then (s, None, block_cache)
      else
        match ReadBlock f false (index_handle_ footer) with
        | (None, Some contents) =>
            let '(id, block_cache) :=
              match block_cache with
              | None => (0, None)
              | Some c => let '(id, c) := NewId c in (id, Some c)
              end in
            let t := {| options := opt; file := f; cache_id := id; filter := None;
                        metaindex_handle := metaindex_handle_ footer;
                        index_block := mkBlock (data contents) |} in
            (OK, Some (ReadMeta t footer), block_cache)
        | (s, _) => (s, None, block_cache)
        end.

(** An iterator over a data block, or the error iterator. *)
Definition BlockReader (t : Table) (verify_checksums fill_cache : bool) (block_cache : option C)
    (index_value : bytes) : (Iter.Iter + EmptyIterator) * option C :=
  let '(s, handle, _) := BlockHandle_DecodeFrom BlockHandle_default index_value in
  let '(s, block, block_cache) :=
    if ok s then
      match block_cache with
      | Some c =>
          let key := EncodeFixed64 (cache_id t) ++ EncodeFixed64 (offset_ handle) in
          let '(hit, c) := CacheLookup c key in
          match hit with
          | Some block => (s, Some block, Some c)
          | None =>
              match ReadBlock (file t) verify_checksums handle with
              | (None, Some contents) =>
                  let block := mkBlock (data contents) in
                  let c := if cachable contents && fill_cache
                           then CacheInsert c key block (Block.size_ block) else c in
                  (OK, Some block, Some c)
              | (s, _) => (s, None, Some c)
              end
          end
      | None =>
          match ReadBlock (file t) verify_checksums handle with
          | (None, Some contents) => (OK, Some (mkBlock (data contents)), None)
          | (s, _) => (s, None, None)
          end
      end
    else (s, None, block_cache) in
  match block with
  | Some block => (NewIterator block (comparator (options t)), block_cache)
  | None => (inr (NewErrorIterator s), block_cache)
  end.

(** [file_level_filter] is the macro [FILE_LEVEL_FILTER]; the saver's argument is passed
    through it. *)
Definition InternalGet {A} (file_level_filter : bool) (t : Table)
    (verify_checksums fill_cache : bool) (block_cache : option C)
    (k : bytes) (arg : A) (saver : A -> bytes -> bytes -> A) : Status * A * option C :=
  let iiter := NewIterator (index_block t) (comparator (options t)) in
  let iiter := Seek iiter k in
  let '(s, arg, block_cache) :=
    if Valid iiter then
      let handle_value := value iiter in
      let skip :=
        negb file_level_filter &&
        match filter t with
        | None => false
        | Some filter =>
            let '(s, handle, _) := BlockHandle_DecodeFrom BlockHandle_default handle_value in
            ok s && negb (FilterBlockReader.KeyMayMatch filter (offset_ handle) k)
        end in
      if skip then (OK, arg, block_cache)
      else
        let '(block_iter, block_cache) :=
          BlockReader t verify_checksums fill_cache block_cache (value iiter) in
        let block_iter := Seek block_iter k in
        let arg := if Valid block_iter
                   then saver arg (Iterator.key block_iter) (value block_iter) else arg in
        (Iterator.status block_iter, arg, block_cache)
    else (OK, arg, block_cache) in
  ((if ok s then Iterator.status iiter else s), arg, block_cache).

Definition ApproximateOffsetOf (t : Table) (k : bytes) : Z :=
  let index_iter := Seek (NewIterator (index_block t) (comparator (options t))) k in
  if Valid index_iter then
    let '(s, handle, _) := BlockHandle_DecodeFrom BlockHandle_default (value index_iter) in
    if ok s then offset_ handle else offset_ (metaindex_handle t)
  else offset_ (metaindex_handle t).

(** [Table::NewIterator]: the two-level iterator over the index, whose block function
    threads the cache. *)
Definition read_block_entry (t : Table) (verify_checksums fill_cache : bool) :
    option C -> bytes -> (Iter.Iter + EmptyIterator) * option C :=
  BlockReader t verify_checksums fill_cache.
Definition NewIterator (t : Table) (block_cache : option C)
    : TwoLevelIterator (Iter.Iter + EmptyIterator) (Iter.Iter + EmptyIterator) (option C) :=
  NewTwoLevelIterator (Block.NewIterator (index_block t) (comparator (options t))) block_cache.
End Reader.
Arguments Table : clear implicits.
End Table.
