(* ===== verification/TableProofs.v ===== *)
(** * Sorted table files: proofs

    The builder lays out the file described by [building]; the reader of that file
    finds every entry again, through point lookups and through the two-level iterator,
    with or without a filter and with any coherent block cache. *)

From S2P Require Import Prelude Coding Status Crc32c Comparator DbFormat Bloom Iterator Block.
From S2P Require Import BlockProofs FilterBlock TableFormat TwoLevelIterator Table.

(** ** Blocks *)

Lemma kv_size_app a b : kv_size (a ++ b) = kv_size a + kv_size b - 8.
Proof. induction a as [|[k v] a IH]; cbn [app kv_size]; [lia|]. rewrite IH. lia. Qed.
Lemma kv_size_ge kv : 19 * blen kv + 8 <= kv_size kv.
Proof. induction kv as [|[k v] kv IH]; cbn [kv_size]; [done|]. blia. Qed.

Lemma block_contents_size k kv :
  1 <= k -> kv_size kv < 2 ^ 32 -> blen (block_contents k kv) <= kv_size kv.
Proof.
  intros Hk Hs. rewrite block_contents_eq by done.
  pose proof (comps_size k 0 [] kv) as H. cbv zeta in H. fold (built_comps k kv) in H.
  rewrite !blen_app, blen_fixed_array, blen_restart_array.
  unfold built_rp. rewrite blen_cons. change (blen (EncodeFixed32 _)) with 4.
  unfold blen in *. lia.
Qed.

Definition entries_bytes (kv : list (bytes * bytes)) : Prop :=
  Forall (fun '(k, v) => bytes_ok k /\ bytes_ok v) kv.

Lemma Add_bytes b k v :
  bytes_ok (BlockBuilder.buffer_ b) -> bytes_ok k -> bytes_ok v ->
  bytes_ok (BlockBuilder.buffer_ (BlockBuilder.Add b k v)).
Proof.
  intros Hb Hk Hv. unfold BlockBuilder.Add.
  destruct (if _ <? _ then _ else _) as [[shared restarts] counter]. cbn [BlockBuilder.buffer_].
  unfold PutVarint32, sub. repeat rewrite bytes_ok_app. split_and!; auto with pebbles.
Qed.
Lemma add_all_bytes kv b :
  entries_bytes kv -> bytes_ok (BlockBuilder.buffer_ b) -> bytes_ok (BlockBuilder.buffer_ (add_all b kv)).
Proof.
  intros H. revert b. induction H as [|[k v] kv [Hk Hv] _ IH]; intros b Hb; [done|].
  unfold add_all. cbn [fold_left]. apply IH. by apply Add_bytes.
Qed.
Lemma fold_PutFixed32_bytes l buf :
  bytes_ok buf -> bytes_ok (fold_left (fun buf r => PutFixed32 buf r) l buf).
Proof.
  revert buf. induction l as [|x l IH]; intros buf Hb; [done|]. cbn [fold_left]. apply IH.
  unfold PutFixed32. apply bytes_ok_app. auto with pebbles.
Qed.
Lemma block_contents_bytes k kv : entries_bytes kv -> bytes_ok (block_contents k kv).
Proof.
  intros H. unfold block_contents, BlockBuilder.Finish. cbn [snd]. unfold PutFixed32 at 1.
  apply bytes_ok_app. split; [|auto with pebbles]. apply fold_PutFixed32_bytes.
  by apply add_all_bytes; [|constructor].
Qed.

Lemma EncodeVarint32_nonnil v : EncodeVarint32 v <> [].
Proof. unfold EncodeVarint32. by repeat case_bool. Qed.

Lemma add_all_snoc b kv k v : add_all b (kv ++ [(k, v)]) = BlockBuilder.Add (add_all b kv) k v.
Proof. unfold add_all. by rewrite fold_left_app. Qed.
Lemma Add_nonempty b k v : BlockBuilder.empty (BlockBuilder.Add b k v) = false.
Proof.
  apply bool_decide_eq_false_2. unfold BlockBuilder.Add.
  destruct (if _ <? _ then _ else _) as [[shared restarts] counter]. cbn [BlockBuilder.buffer_].
  unfold PutVarint32. intros E. do 3 apply app_eq_nil in E as [E _].
  apply app_eq_nil in E as [_ E]. by apply EncodeVarint32_nonnil in E.
Qed.
Lemma add_all_empty k kv : BlockBuilder.empty (add_all (BlockBuilder.new k) kv) = bool_decide (kv = []).
Proof.
  destruct kv as [|[key v] kv _] using rev_ind; [done|]. rewrite add_all_snoc, Add_nonempty.
  symmetry. apply bool_decide_eq_false_2. by destruct kv.
Qed.
Lemma add_all_interval kv b :
  BlockBuilder.block_restart_interval (add_all b kv) = BlockBuilder.block_restart_interval b.
Proof.
  revert b. induction kv as [|[k v] kv IH]; intros b; [done|]. unfold add_all. cbn [fold_left].
  fold (add_all (BlockBuilder.Add b k v) kv). rewrite IH. unfold BlockBuilder.Add.
  by destruct (if _ <? _ then _ else _) as [[? ?] ?].
Qed.
Lemma Reset_add_all k kv : BlockBuilder.Reset (fst (BlockBuilder.Finish (add_all (BlockBuilder.new k) kv))) = BlockBuilder.new k.
Proof. unfold BlockBuilder.Reset. cbn. by rewrite add_all_interval. Qed.

(** ** The layout of a table *)

(** A data block: its entries, its offset in the file, what is stored and its type. *)
Record dblock := { d_kv : list (bytes * bytes); d_off : Z; d_stored : bytes; d_type : Z }.
Definition segment (stored : bytes) (type : Z) : bytes := stored ++ block_trailer stored type.
Definition d_seg (b : dblock) : bytes := segment (d_stored b) (d_type b).
Definition d_handle (b : dblock) : BlockHandle := {| offset_ := d_off b; size_ := blen (d_stored b) |}.

Lemma blen_segment st type : blen (segment st type) = blen st + 5.
Proof. unfold segment. by rewrite blen_app, blen_block_trailer. Qed.

(** How [raw] contents are stored. *)
Definition stored_as `{Snappy} (raw stored : bytes) (type : Z) : Prop :=
  (type = kNoCompression /\ stored = raw \/
   type = kSnappyCompression /\ Snappy_Compress raw = Some stored) /\ blen stored <= blen raw.

Fixpoint placed (off : Z) (bs : list dblock) : Prop :=
  match bs with
  | [] => True
  | b :: bs => d_off b = off /\ placed (off + blen (d_seg b)) bs
  end.
Definition laid_out (bs : list dblock) : bytes := concat (d_seg <$> bs).

Lemma placed_app off a b :
  placed off (a ++ b) <-> placed off a /\ placed (off + blen (laid_out a)) b.
Proof.
  revert off. induction a as [|x a IH]; intros off; cbn [app placed].
  - change (laid_out []) with (@nil Z). rewrite blen_nil, Z.add_0_r. tauto.
  - rewrite IH. change (laid_out (x :: a)) with (d_seg x ++ laid_out a). rewrite blen_app, Z.add_assoc. tauto.
Qed.
Lemma laid_out_app a b : laid_out (a ++ b) = laid_out a ++ laid_out b.
Proof. unfold laid_out. by rewrite fmap_app, concat_app. Qed.
Lemma placed_split off bs b :
  placed off bs -> b ∈ bs -> exists pre post, laid_out bs = pre ++ d_seg b ++ post /\ d_off b = off + blen pre.
Proof.
  intros Hp Hb. apply list_elem_of_split in Hb as (b1 & b2 & ->).
  apply placed_app in Hp as [_ [Hp _]]. exists (laid_out b1), (laid_out b2). rewrite laid_out_app. done.
Qed.

(** First and last key of a group of entries. *)
Definition first_key (g : list (bytes * bytes)) : bytes := default [] (fst <$> list.head g).
Definition last_key_of (g : list (bytes * bytes)) : bytes := default [] (fst <$> list.last g).

Section Separators.
Context (c : Comparator).

(** The separators between consecutive groups. *)
Fixpoint sep_keys (gs : list (list (bytes * bytes))) : list bytes :=
  match gs with
  | [] => []
  | g :: gs =>
      match gs with
      | [] => []
      | g' :: _ => FindShortestSeparator c (last_key_of g) (first_key g') :: sep_keys gs
      end
  end.

Lemma sep_keys_cons g g' gs :
  sep_keys (g :: g' :: gs) = FindShortestSeparator c (last_key_of g) (first_key g') :: sep_keys (g' :: gs).
Proof. done. Qed.
Lemma length_sep_keys gs : length (sep_keys gs) = pred (length gs).
Proof. induction gs as [|g [|g' gs] IH]; [done..|]. rewrite sep_keys_cons. cbn [length] in *. by rewrite IH. Qed.
Lemma sep_keys_snoc gs g g' :
  sep_keys ((gs ++ [g]) ++ [g']) = sep_keys (gs ++ [g]) ++ [FindShortestSeparator c (last_key_of g) (first_key g')].
Proof.
  induction gs as [|g1 [|g2 gs] IH]; [done|done|]. cbn [app] in *. rewrite !sep_keys_cons, IH. done.
Qed.
(** Only the first key of the last group counts. *)
Lemma sep_keys_last gs g g' : first_key g = first_key g' -> sep_keys (gs ++ [g]) = sep_keys (gs ++ [g']).
Proof.
  intros E. induction gs as [|g1 [|g2 gs] IH]; [done| |].
  - cbn. by rewrite E.
  - cbn [app] in *. rewrite !sep_keys_cons. by rewrite IH.
Qed.
Lemma sep_keys_lookup gs j s :
  sep_keys gs !! j = Some s -> exists g g', gs !! j = Some g /\ gs !! S j = Some g' /\
    s = FindShortestSeparator c (last_key_of g) (first_key g').
Proof.
  revert j. induction gs as [|g [|g' gs] IH]; intros j Hj; [done..|].
  rewrite sep_keys_cons in Hj. destruct j as [|j].
  - injection Hj as <-. by exists g, g'.
  - apply IH in Hj as (x & y & Hx & Hy & ->). by exists x, y.
Qed.
End Separators.

Lemma first_key_app g e : g <> [] -> first_key (g ++ [e]) = first_key g.
Proof. by destruct g. Qed.
Lemma last_key_of_snoc g k v : last_key_of (g ++ [(k, v)]) = k.
Proof. unfold last_key_of. by rewrite last_snoc. Qed.

(** ** The builder *)

Section Builder.
Context `{HS : Snappy} {HSok : SnappyOk}.
Context (opt : Options).
Import TableBuilder.

Definition options_ok : Prop :=
  1 <= Table.block_restart_interval opt /\
  (compression opt = kNoCompression \/ compression opt = kSnappyCompression).
Context (Hopt : options_ok).

Definition handles (bs : list dblock) : list bytes := (fun b => handle_bytes (d_handle b)) <$> bs.
Definition groups (bs : list dblock) (cur : list (bytes * bytes)) : list (list (bytes * bytes)) :=
  (d_kv <$> bs) ++ match cur with [] => [] | _ => [cur] end.
Definition index_entries (bs : list dblock) (cur : list (bytes * bytes)) : list (bytes * bytes) :=
  zip (sep_keys (comparator opt) (groups bs cur)) (handles bs).
Definition filter_calls (bs : list dblock) (off : Z) (cur : list (bytes * bytes)) : list (Z * list bytes) :=
  ((fun b => (d_off b, fst <$> d_kv b)) <$> bs) ++ [(off, fst <$> cur)].

Definition block_fine (b : dblock) : Prop :=
  d_kv b <> [] /\ stored_as (block_contents (Table.block_restart_interval opt) (d_kv b)) (d_stored b) (d_type b).

(** The builder after adding [kv]: the blocks [bs] are in the file, [cur] is in the
    block under construction. *)
Record building (r : Rep bytes) (bs : list dblock) (cur kv : list (bytes * bytes)) : Prop := {
  b_kv : concat (d_kv <$> bs) ++ cur = kv;
  b_fine : Forall block_fine bs;
  b_placed : placed 0 bs;
  b_file : file r = laid_out bs;
  b_offset : offset r = blen (laid_out bs);
  b_status : status r = OK;
  b_closed : closed r = false;
  b_options : options r = opt;
  b_data : data_block r = add_all (BlockBuilder.new (Table.block_restart_interval opt)) cur;
  b_index : index_block r = add_all (BlockBuilder.new 1) (index_entries bs cur);
  b_last : kv <> [] -> last_key r = last_key_of kv;
  b_pending : pending_index_entry r = bool_decide (cur = [] /\ bs <> []);
  b_handle : forall b, cur = [] -> list.last bs = Some b -> pending_handle r = d_handle b;
  b_filter : filter_block r =
    (fun p => (p, run p FilterBlockBuilder.new (filter_calls bs (offset r) cur))) <$> filter_policy opt;
  b_num : num_entries r = blen kv;
}.

Lemma laid_out_size bs :
  Forall block_fine bs -> kv_size (concat (d_kv <$> bs)) < 2 ^ 32 ->
  blen (laid_out bs) <= 2 * kv_size (concat (d_kv <$> bs)).
Proof.
  induction 1 as [|b bs [Hne [_ Hst]] _ IH]; intros Hsz; [by vm_compute|].
  cbn [fmap list_fmap concat] in *. change (laid_out (b :: bs)) with (d_seg b ++ laid_out bs).
  rewrite kv_size_app in *. pose proof (kv_size_nonneg (concat (d_kv <$> bs))).
  pose proof (kv_size_ge (d_kv b)) as Hge.
  assert (1 <= blen (d_kv b)) by (destruct (d_kv b); [done|blia]).
  pose proof (block_contents_size _ (d_kv b) (proj1 Hopt) ltac:(lia)).
  unfold d_seg. rewrite blen_app, blen_segment. specialize (IH ltac:(lia)). lia.
Qed.

Lemma WriteRawBlock_ok (r : Rep bytes) st type :
  offset r = blen (file r) -> blen (file r) + blen st + 5 < 2 ^ 64 ->
  WriteRawBlock r st type =
  (set_offset (set_file r (file r ++ segment st type) OK) (blen (file r ++ segment st type)),
   {| offset_ := blen (file r); size_ := blen st |}).
Proof.
  intros Ho Hs. unfold WriteRawBlock. cbn [Append mem_WritableFile ok OK set_file file offset].
  change kBlockTrailerSize with 5. rewrite Ho. rewrite u64_small by blia.
  rewrite blen_app, blen_segment. unfold segment, block_trailer. by rewrite <- !app_assoc.
Qed.

(** What the builder stores for a block. *)
Lemma WriteBlock_ok (r : Rep bytes) k kvb :
  status r = OK -> options r = opt -> offset r = blen (file r) -> 1 <= k ->
  kv_size kvb < 2 ^ 32 -> blen (file r) < 2 ^ 63 ->
  exists st type, stored_as (block_contents k kvb) st type /\
    WriteBlock r (add_all (BlockBuilder.new k) kvb) =
    Some (set_offset (set_file r (file r ++ segment st type) OK) (blen (file r ++ segment st type)),
          BlockBuilder.new k, {| offset_ := blen (file r); size_ := blen st |}).
Proof.
  intros Hs Hopts Ho Hk Hsz Hf. unfold WriteBlock. rewrite Hs, Hopts. cbn [ok OK negb].
  rewrite (surjective_pairing (BlockBuilder.Finish _)), Reset_add_all. fold (block_contents k kvb).
  set (raw := block_contents k kvb). assert (blen raw <= kv_size kvb) by (by apply block_contents_size).
  pose proof (blen_nonneg raw). change (2 ^ 63) with 9223372036854775808 in Hf.
  assert (forall st type, blen st <= blen raw ->
    (let '(r0, handle) := WriteRawBlock r st type in Some (r0, BlockBuilder.new k, handle)) =
    Some (set_offset (set_file r (file r ++ segment st type) OK) (blen (file r ++ segment st type)),
          BlockBuilder.new k, {| offset_ := blen (file r); size_ := blen st |})) as HW.
  { intros st type Hst. rewrite WriteRawBlock_ok; [done|done|rlia]. }
  assert (exists st type, stored_as raw st type /\
    (if compression opt =? kNoCompression then Some (raw, compression opt)
     else if compression opt =? kSnappyCompression then
       match Snappy_Compress raw with
       | Some compressed => if blen compressed <? blen raw - blen raw / 8
                            then Some (compressed, compression opt) else Some (raw, kNoCompression)
       | None => Some (raw, kNoCompression)
       end
     else None) = Some (st, type)) as (st & type & Hst & ->).
  { destruct Hopt as [_ [-> | ->]]; cbn [Z.eqb kNoCompression kSnappyCompression].
    - exists raw, kNoCompression. split; [|done]. split; [by left|done].
    - change (1 =? 0) with false. change (1 =? 1) with true. cbn match.
      destruct (Snappy_Compress raw) as [comp|] eqn:Ec.
      + destruct (Z.ltb_spec (blen comp) (blen raw - blen raw / 8)).
        * exists comp, kSnappyCompression. split; [|done]. split; [by right|].
          assert (0 <= blen raw / 8) by (apply Z.div_pos; lia). lia.
        * exists raw, kNoCompression. split; [|done]. split; [by left|done].
      + exists raw, kNoCompression. split; [|done]. split; [by left|done]. }
  exists st, type. split; [done|]. apply HW. by destruct Hst.
Qed.

Lemma zip_longer {A B} (l : list A) (k k' : list B) :
  (length l <= length k)%nat -> zip l (k ++ k') = zip l k.
Proof.
  revert k. induction l as [|x l IH]; intros [|y k] Hl; cbn in *; [done..|lia|].
  f_equal. apply IH. lia.
Qed.
Lemma zip_snoc {A B} (l : list A) (k : list B) x y :
  length l = length k -> zip (l ++ [x]) (k ++ [y]) = zip l k ++ [(x, y)].
Proof.
  revert k. induction l as [|a l IH]; intros [|b k] Hl; cbn in *; [done..|].
  f_equal. apply IH. lia.
Qed.

Lemma groups_flush bs b : groups (bs ++ [b]) [] = (d_kv <$> bs) ++ [d_kv b].
Proof. unfold groups. by rewrite fmap_app, app_nil_r. Qed.
Lemma groups_cur bs cur : cur <> [] -> groups bs cur = (d_kv <$> bs) ++ [cur].
Proof. unfold groups. by destruct cur. Qed.
Lemma handles_snoc bs b : handles (bs ++ [b]) = handles bs ++ [handle_bytes (d_handle b)].
Proof. unfold handles. by rewrite fmap_app. Qed.
Lemma index_entries_flush bs b :
  d_kv b <> [] -> index_entries (bs ++ [b]) [] = index_entries bs (d_kv b).
Proof.
  intros Hb. unfold index_entries. rewrite groups_flush, (groups_cur bs (d_kv b)), handles_snoc by done.
  apply zip_longer. rewrite length_sep_keys, length_app. unfold handles. rewrite !length_fmap. cbn. lia.
Qed.
(** The first entry of a new block emits the index entry of the block before. *)
Lemma index_entries_next bs b e :
  index_entries (bs ++ [b]) [e] =
  index_entries (bs ++ [b]) [] ++
    [(FindShortestSeparator (comparator opt) (last_key_of (d_kv b)) e.1, handle_bytes (d_handle b))].
Proof.
  unfold index_entries. rewrite groups_flush, groups_cur, handles_snoc by done.
  rewrite fmap_app. cbn [fmap list_fmap]. rewrite sep_keys_snoc.
  rewrite zip_snoc.
  - by rewrite (zip_longer _ (handles bs)) by
      (rewrite length_sep_keys, length_app; unfold handles; rewrite !length_fmap; cbn; lia).
  - rewrite length_sep_keys, length_app. unfold handles. rewrite !length_fmap. cbn. lia.
Qed.
(** Later entries of a block do not change the index. *)
Lemma index_entries_more bs cur e : cur <> [] -> index_entries bs (cur ++ [e]) = index_entries bs cur.
Proof.
  intros Hc. unfold index_entries. rewrite !groups_cur by (by destruct cur).
  by rewrite (sep_keys_last _ _ (cur ++ [e]) cur) by (by apply first_key_app).
Qed.

Lemma run_snoc p b calls off ks :
  run p b (calls ++ [(off, ks)]) = fold_left FilterBlockBuilder.AddKey ks
                                     (FilterBlockBuilder.StartBlock p (run p b calls) off).
Proof. unfold run. by rewrite fold_left_app. Qed.

(** [Flush] moves the block under construction to the file. *)
Lemma Flush_building r bs cur kv :
  building r bs cur kv -> cur <> [] -> kv_size kv < 2 ^ 32 ->
  exists r' b, Flush r = Some r' /\ building r' (bs ++ [b]) [] kv /\ d_kv b = cur.
Proof.
  intros Hb Hcur Hsz. pose proof Hb as []. unfold Flush.
  rewrite b_closed0, b_status0, b_data0, add_all_empty, b_pending0.
  rewrite !bool_decide_eq_false_2 by (by intros [? ?] || done). cbn [ok OK negb].
  assert (kv_size cur <= kv_size kv).
  { rewrite <- b_kv0, kv_size_app. pose proof (kv_size_nonneg (concat (d_kv <$> bs))). lia. }
  assert (blen (laid_out bs) < 2 ^ 63).
  { pose proof (laid_out_size bs b_fine0) as Hl. rewrite <- b_kv0, kv_size_app in Hsz.
    pose proof (kv_size_nonneg cur). change (2 ^ 63) with 9223372036854775808. rlia. }
  destruct (WriteBlock_ok r (Table.block_restart_interval opt) cur) as (st & type & Hst & ->);
    [done..|by rewrite b_file0|apply Hopt|lia|by rewrite b_file0|].
  set (b := {| d_kv := cur; d_off := blen (laid_out bs); d_stored := st; d_type := type |}).
  assert (laid_out (bs ++ [b]) = laid_out bs ++ segment st type) as Hlay.
  { rewrite laid_out_app. unfold laid_out at 2. cbn. by rewrite app_nil_r. }
  cbn [ok OK status set_pending set_data_block set_offset set_file FlushFile mem_WritableFile file
       pending_index_entry pending_handle offset].
  eexists _, b. split; [reflexivity|]. split; [|done]. rewrite b_file0, <- Hlay.
  unfold on_filter.
  cbn [filter_block set_pending set_data_block set_offset set_file offset]. rewrite b_filter0.
  destruct (filter_policy opt) as [p|] eqn:Ep; cbn [fmap option_fmap option_map];
  (split; cbn [file offset status closed options data_block index_block last_key
    pending_index_entry pending_handle filter_block num_entries set_filter_block set_pending
    set_data_block set_offset set_file]; try done;
   [ rewrite fmap_app, concat_app; cbn; by rewrite !app_nil_r
   | apply Forall_app; split; [done|]; by constructor
   | apply placed_app; by split
   | by rewrite b_index0, index_entries_flush by done
   | symmetry; apply bool_decide_eq_true_2; split; [done|]; by destruct bs
   | intros b0 _ Hb0; rewrite last_snoc in Hb0; by injection Hb0 as <-
   | rewrite Ep; cbn; try done ]).
  unfold filter_calls. rewrite fmap_app. cbn [fmap list_fmap d_off d_kv b].
  by rewrite !run_snoc, b_offset0.
Qed.

Lemma new_building : building (new opt []) [] [] [].
Proof.
  unfold new, on_filter. cbn [filter_block].
  destruct (filter_policy opt) as [p|] eqn:Ep; cbn [fmap option_fmap option_map]; split; try done;
    cbn [filter_block set_filter_block]; by rewrite Ep.
Qed.

(** The state just before the size test of [Add]. *)
Definition added (r : Rep bytes) (key value : bytes) : Rep bytes :=
  let r := if pending_index_entry r
           then add_index_entry r (FindShortestSeparator (comparator (options r)) (last_key r) key)
           else r in
  let r := on_filter r (fun _ fb => FilterBlockBuilder.AddKey fb key) in
  let r := set_last_key r key (num_entries r + 1) in
  set_data_block r (BlockBuilder.Add (data_block r) key value).

Lemma last_group bs b kv :
  Forall block_fine (bs ++ [b]) -> concat (d_kv <$> bs ++ [b]) ++ [] = kv ->
  kv <> [] /\ last_key_of kv = last_key_of (d_kv b).
Proof.
  intros [_ [[Hne _] _]%Forall_cons_iff]%Forall_app <-. rewrite fmap_app, concat_app, app_nil_r. cbn.
  rewrite app_nil_r. split; [by intros [_ ?]%app_eq_nil|].
  destruct (d_kv b) as [|[k v] l _] using rev_ind; [done|].
  rewrite app_assoc. by rewrite !last_key_of_snoc.
Qed.

(** The pending index entry is emitted before the first entry of a block. *)
Lemma emitted r bs cur kv k v :
  building r bs cur kv ->
  let r1 := if pending_index_entry r
            then add_index_entry r (FindShortestSeparator (comparator (options r)) (last_key r) k)
            else r in
  index_block r1 = add_all (BlockBuilder.new 1) (index_entries bs (cur ++ [(k, v)])) /\
  pending_index_entry r1 = false /\ file r1 = file r /\ offset r1 = offset r /\ status r1 = status r /\
  closed r1 = closed r /\ options r1 = options r /\ data_block r1 = data_block r /\
  filter_block r1 = filter_block r /\ num_entries r1 = num_entries r.
Proof.
  intros []. cbv zeta. rewrite b_pending0. case_bool_decide as Hp.
  - split; [|done]. destruct Hp as [-> Hbs]. destruct bs as [|b bs' _] using rev_ind; [done|].
    cbn [app]. rewrite (index_entries_next bs' b (k, v)), add_all_snoc.
    cbn [add_index_entry set_pending set_index_block set_last_key index_block last_key pending_handle fst].
    rewrite (b_handle0 b eq_refl (last_snoc _ _)), b_index0, b_options0.
    destruct (last_group _ _ _ b_fine0 b_kv0) as [Hne <-]. by rewrite b_last0.
  - split; [|split; [|done]].
    + rewrite b_index0. destruct cur as [|e cur]; [|by rewrite index_entries_more].
      destruct bs; [done|by destruct Hp].
    + done.
Qed.

Lemma added_building r bs cur kv k v :
  building r bs cur kv -> building (added r k v) bs (cur ++ [(k, v)]) (kv ++ [(k, v)]).
Proof.
  intros Hb. pose proof (emitted r bs cur kv k v Hb) as He. unfold added. cbv zeta in *.
  set (r1 := if pending_index_entry r then _ else r) in *. clearbody r1.
  destruct He as (E1 & E2 & E3 & E4 & E5 & E6 & E7 & E8 & E9 & E10). destruct Hb.
  unfold on_filter. rewrite E9, b_filter0.
  destruct (filter_policy opt) as [p|] eqn:Ep; cbn [fmap option_fmap option_map];
  (split; cbn [file offset status closed options data_block index_block last_key
    pending_index_entry pending_handle filter_block num_entries set_filter_block set_last_key
    set_data_block]; try done; try congruence;
   [ by rewrite app_assoc, b_kv0
   | by rewrite E8, b_data0, add_all_snoc
   | by rewrite last_key_of_snoc
   | rewrite E2; symmetry; apply bool_decide_eq_false_2; intros [? _]; by destruct cur
   | intros b ?; by destruct cur
   | rewrite Ep
   | rewrite E10, b_num0, blen_app; done ]).
  - cbn. unfold filter_calls. rewrite E4, !run_snoc, fmap_app, fold_left_app. done.
  - by rewrite E9, b_filter0.
Qed.

Lemma Add_building r bs cur kv k v :
  building r bs cur kv -> kv_size (kv ++ [(k, v)]) < 2 ^ 32 ->
  exists r' bs' cur', Add r k v = Some r' /\ building r' bs' cur' (kv ++ [(k, v)]).
Proof.
  intros Hb Hsz. pose proof (added_building r bs cur kv k v Hb) as Ha. pose proof Hb as [].
  unfold Add. rewrite b_closed0, b_status0, b_data0, add_all_empty. cbn [ok OK negb].
  assert (pending_index_entry r && negb (bool_decide (cur = [])) = false) as ->.
  { rewrite b_pending0. case_bool_decide as Hp; [destruct Hp as [-> _]|]; done. }
  fold (added r k v).
  change (set_data_block _ _) with (added r k v).
  destruct (_ <=? _).
  - destruct (Flush_building _ _ _ _ Ha) as (r' & b & HF & HB & _); [by destruct cur|done|]. eauto.
  - eauto.
Qed.

Lemma add_entries_building kv' r bs cur kv :
  building r bs cur kv -> kv_size (kv ++ kv') < 2 ^ 32 ->
  exists r' bs' cur', add_entries r kv' = Some r' /\ building r' bs' cur' (kv ++ kv').
Proof.
  revert r bs cur kv. induction kv' as [|[k v] kv' IH]; intros r bs cur kv Hb Hsz.
  { rewrite app_nil_r. by exists r, bs, cur. }
  rewrite cons_middle, app_assoc in Hsz.
  destruct (Add_building r bs cur kv k v Hb) as (r1 & bs1 & cur1 & HA & HB).
  { rewrite kv_size_app in Hsz. pose proof (kv_size_nonneg kv'). lia. }
  destruct (IH _ _ _ _ HB Hsz) as (r2 & bs2 & cur2 & HA2 & HB2).
  exists r2, bs2, cur2. rewrite cons_middle, app_assoc. split; [|done].
  unfold add_entries in *. cbn [fold_left]. cbn [mbind option_bind]. by rewrite HA.
Qed.

(** ** Finish *)

(** The index of a finished table: separators, and a successor for the last block. *)
Fixpoint index_all (bs : list dblock) : list (bytes * bytes) :=
  match bs with
  | [] => []
  | b :: bs' =>
      (match bs' with
       | [] => FindShortSuccessor (comparator opt) (last_key_of (d_kv b))
       | b' :: _ => FindShortestSeparator (comparator opt) (last_key_of (d_kv b)) (first_key (d_kv b'))
       end, handle_bytes (d_handle b)) :: index_all bs'
  end.

Lemma index_all_snoc bs b :
  index_all (bs ++ [b]) = index_entries (bs ++ [b]) [] ++
    [(FindShortSuccessor (comparator opt) (last_key_of (d_kv b)), handle_bytes (d_handle b))].
Proof.
  induction bs as [|b1 [|b2 bs] IH]; [done|done|]. cbn [app] in *.
  change (index_all (b1 :: b2 :: bs ++ [b])) with
    ((FindShortestSeparator (comparator opt) (last_key_of (d_kv b1)) (first_key (d_kv b2)),
      handle_bytes (d_handle b1)) :: index_all (b2 :: bs ++ [b])).
  by rewrite IH.
Qed.

(** The whole file of a table. *)
Definition filter_contents_of (bs : list dblock) (p : FilterPolicy) : bytes :=
  snd (FilterBlockBuilder.Finish p (run p FilterBlockBuilder.new
         (filter_calls bs (blen (laid_out bs)) []))).
Definition filter_handle (bs : list dblock) (p : FilterPolicy) : BlockHandle :=
  {| offset_ := blen (laid_out bs); size_ := blen (filter_contents_of bs p) |}.
Definition filter_segment (bs : list dblock) : bytes :=
  match filter_policy opt with
  | None => []
  | Some p => segment (filter_contents_of bs p) kNoCompression
  end.
Definition meta_entries (bs : list dblock) : list (bytes * bytes) :=
  match filter_policy opt with
  | None => []
  | Some p => [(str "filter." ++ Name p, handle_bytes (filter_handle bs p))]
  end.

Record table_file (f : bytes) (bs : list dblock) (kv : list (bytes * bytes)) (footer : Footer) : Prop := {
  tf_kv : concat (d_kv <$> bs) = kv;
  tf_fine : Forall block_fine bs;
  tf_placed : placed 0 bs;
  tf_rest : exists mst mty ist ity,
    let pre := laid_out bs ++ filter_segment bs in
    f = pre ++ segment mst mty ++ segment ist ity ++ Footer_EncodeTo footer [] /\
    stored_as (block_contents (Table.block_restart_interval opt) (meta_entries bs)) mst mty /\
    stored_as (block_contents 1 (index_all bs)) ist ity /\
    metaindex_handle_ footer = {| offset_ := blen pre; size_ := blen mst |} /\
    index_handle_ footer = {| offset_ := blen (pre ++ segment mst mty); size_ := blen ist |};
}.

(** Bytes of the filter block [Finish] will write. *)
Definition filter_bytes (r : Rep bytes) : Z :=
  match Flush r with
  | Some r => match filter_block r with
              | Some (p, fb) => blen (snd (FilterBlockBuilder.Finish p fb))
              | None => 0
              end
  | None => 0
  end.

(** [Flush] at the end leaves no block under construction. *)
Lemma Flush_last r bs cur kv :
  building r bs cur kv -> kv_size kv < 2 ^ 32 ->
  exists r' bs', Flush r = Some r' /\ building r' bs' [] kv.
Proof.
  intros Hb Hsz. destruct cur as [|e cur].
  - exists r, bs. split; [|done]. destruct Hb. unfold Flush. by rewrite b_closed0, b_status0, b_data0.
  - destruct (Flush_building _ _ _ _ Hb) as (r' & b & HF & HB & _); [done|done|]. eauto.
Qed.

Lemma last_index_entry (r0 r : Rep bytes) bs kv :
  building r0 bs [] kv ->
  index_block r = index_block r0 -> last_key r = last_key r0 ->
  pending_index_entry r = pending_index_entry r0 -> pending_handle r = pending_handle r0 ->
  options r = opt ->
  let r1 := if pending_index_entry r
            then add_index_entry r (FindShortSuccessor (comparator (options r)) (last_key r))
            else r in
  index_block r1 = add_all (BlockBuilder.new 1) (index_all bs).
Proof.
  intros [] E1 E2 E3 E4 E5. cbv zeta. rewrite E3, b_pending0. case_bool_decide as Hp.
  - destruct Hp as [_ Hbs]. destruct bs as [|b bs' _] using rev_ind; [done|].
    rewrite index_all_snoc, add_all_snoc.
    cbn [add_index_entry set_pending set_index_block set_last_key index_block last_key pending_handle].
    rewrite E1, E2, E4, E5, (b_handle0 b eq_refl (last_snoc _ _)), b_index0.
    destruct (last_group _ _ _ b_fine0 b_kv0) as [Hne <-]. by rewrite b_last0.
  - rewrite E1, b_index0. destruct bs; [done|]. by destruct Hp.
Qed.

(** A builder whose file ends at its offset. *)
Record writing (r : Rep bytes) (f : bytes) : Prop := {
  w_file : file r = f;
  w_offset : offset r = blen f;
  w_status : status r = OK;
  w_options : options r = opt;
}.

Lemma writing_set r f f' :
  writing r f -> writing (set_offset (set_file r f' OK) (blen f')) f'.
Proof. intros []. by split. Qed.

Lemma write_filter_ok r bs kv :
  building r bs [] kv -> blen (laid_out bs) < 2 ^ 33 ->
  (forall p, filter_policy opt = Some p -> blen (filter_contents_of bs p) < 2 ^ 32) ->
  exists r' h, write_filter_block (set_closed r) = (r', h) /\
    writing r' (laid_out bs ++ filter_segment bs) /\
    (forall p, filter_policy opt = Some p -> h = filter_handle bs p) /\
    (filter_block r' = None <-> filter_policy opt = None) /\
    data_block r' = data_block r /\ index_block r' = index_block r /\ last_key r' = last_key r /\
    pending_index_entry r' = pending_index_entry r /\ pending_handle r' = pending_handle r /\
    num_entries r' = num_entries r.
Proof.
  intros [] Hsz Hf. unfold write_filter_block, filter_segment.
  cbn [set_closed status filter_block]. rewrite b_status0, b_filter0. cbn [ok OK].
  destruct (filter_policy opt) as [p|] eqn:Ep; cbn [fmap option_fmap option_map].
  - specialize (Hf p eq_refl). unfold filter_contents_of in *. rewrite b_offset0.
    destruct (FilterBlockBuilder.Finish p _) as [fb contents] eqn:Efb. cbn [snd] in Hf.
    rewrite WriteRawBlock_ok; cbn [set_filter_block set_closed file offset]; rewrite ?b_file0.
    2: done. 2:{ change (2 ^ 33) with 8589934592 in Hsz. rlia. }
    eexists _, _. split; [reflexivity|]. split; [by split|].
    split; [|by repeat split].
    intros p' [= <-]. unfold filter_handle, filter_contents_of. rewrite Efb. done.
  - eexists _, _. split; [reflexivity|]. rewrite app_nil_r. by repeat split.
Qed.

Lemma write_meta_ok r bs h f :
  writing r f -> blen f < 2 ^ 63 -> kv_size (meta_entries bs) < 2 ^ 32 ->
  (forall p, filter_policy opt = Some p -> h = filter_handle bs p) ->
  (filter_block r = None <-> filter_policy opt = None) ->
  exists st type, stored_as (block_contents (Table.block_restart_interval opt) (meta_entries bs)) st type /\
    write_metaindex_block r h =
    Some (set_offset (set_file r (f ++ segment st type) OK) (blen (f ++ segment st type)),
          {| offset_ := blen f; size_ := blen st |}).
Proof.
  intros [] Hf Hsz Hh Hfb. unfold write_metaindex_block. rewrite w_status0, w_options0. cbn [ok OK].
  assert (match filter_block r, filter_policy opt with
      | None, _ => Some (BlockBuilder.new (Table.block_restart_interval opt))
      | Some _, Some p => Some (BlockBuilder.Add (BlockBuilder.new (Table.block_restart_interval opt))
             (str "filter." ++ Name p) (BlockHandle_EncodeTo h []))
      | Some _, None => None end =
      Some (add_all (BlockBuilder.new (Table.block_restart_interval opt)) (meta_entries bs))) as ->.
  { unfold meta_entries. destruct (filter_policy opt) as [p|], (filter_block r) as [fb|];
      try (by (destruct Hfb; intuition congruence)).
    by rewrite (Hh p eq_refl). }
  destruct (WriteBlock_ok r (Table.block_restart_interval opt) (meta_entries bs))
    as (st & type & Hst & HW); [done..|by rewrite w_file0|apply Hopt|done|by rewrite w_file0|].
  exists st, type. split; [done|]. cbn [mbind option_bind]. rewrite HW. cbn. by rewrite w_file0.
Qed.

Lemma write_index_ok r f entries :
  writing r f -> blen f < 2 ^ 63 -> kv_size entries < 2 ^ 32 ->
  (let r1 := if pending_index_entry r
             then add_index_entry r (FindShortSuccessor (comparator (options r)) (last_key r))
             else r in index_block r1 = add_all (BlockBuilder.new 1) entries) ->
  exists st type r', stored_as (block_contents 1 entries) st type /\
    write_index_block r = Some (r', {| offset_ := blen f; size_ := blen st |}) /\
    writing r' (f ++ segment st type) /\ num_entries r' = num_entries r.
Proof.
  intros Hw Hf Hsz Hidx. cbv zeta in Hidx. unfold write_index_block. rewrite (w_status _ _ Hw). cbn [ok OK].
  set (r1 := if pending_index_entry r then _ else r) in *.
  assert (writing r1 f /\ num_entries r1 = num_entries r) as [Hw1 Hn].
  { unfold r1. destruct Hw. by destruct (pending_index_entry r). }
  clearbody r1. pose proof Hw1 as []. rewrite Hidx.
  destruct (WriteBlock_ok r1 1 entries) as (st & type & Hst & HW);
    [done..|by rewrite w_file0|done|done|by rewrite w_file0|].
  rewrite HW. cbn [mbind option_bind]. rewrite w_file0.
  eexists st, type, _. split; [done|]. split; [reflexivity|]. split; [by split|done].
Qed.

Lemma Finish_file r bs cur kv :
  building r bs cur kv -> kv_size kv < 2 ^ 32 -> filter_bytes r < 2 ^ 32 ->
  (forall bs', concat (d_kv <$> bs') = kv -> Forall block_fine bs' -> placed 0 bs' ->
     kv_size (index_all bs') < 2 ^ 32) ->
  (forall bs', concat (d_kv <$> bs') = kv -> Forall block_fine bs' ->
     (forall p, filter_policy opt = Some p -> blen (filter_contents_of bs' p) <= filter_bytes r) ->
     kv_size (meta_entries bs') < 2 ^ 32) ->
  exists r' bs' footer, Finish r = Some (OK, r') /\ table_file (file r') bs' kv footer /\
    FileSize r' = blen (file r') /\ NumEntries r' = blen kv /\
    (forall p, filter_policy opt = Some p -> blen (filter_contents_of bs' p) <= filter_bytes r).
Proof.
  intros Hb Hsz Hfilter Hidx Hmeta. unfold Finish.
  destruct (Flush_last r bs cur kv Hb Hsz) as (r1 & bs1 & HF & Hb1).
  unfold filter_bytes in *. rewrite HF in *. cbn [mbind option_bind]. pose proof Hb1 as []. rewrite b_closed0.
  rewrite app_nil_r in b_kv0.
  assert (blen (laid_out bs1) < 2 ^ 33) as Hlay.
  { pose proof (laid_out_size bs1 b_fine0) as Hl. rewrite b_kv0 in Hl. specialize (Hl Hsz).
    change (2 ^ 33) with 8589934592. rlia. }
  match type of Hfilter with ?x < _ => set (fbytes := x) in * end.
  assert (forall p, filter_policy opt = Some p -> blen (filter_contents_of bs1 p) <= fbytes) as Hfb0.
  { intros p Hp. unfold fbytes, filter_contents_of. rewrite b_filter0, Hp. cbn [fmap option_fmap option_map].
    by rewrite <- b_offset0. }
  assert (forall p, filter_policy opt = Some p -> blen (filter_contents_of bs1 p) < 2 ^ 32) as Hfc.
  { intros p Hp. specialize (Hfb0 p Hp). lia. }
  specialize (Hmeta bs1 b_kv0 b_fine0 Hfb0).
  destruct (write_filter_ok r1 bs1 kv Hb1 Hlay Hfc) as
    (r2 & fh & -> & Hw2 & Hfh & Hfb & E1 & E2 & E3 & E4 & E5 & E6).
  assert (blen (laid_out bs1 ++ filter_segment bs1) < 2 ^ 34) as Hpre.
  { rewrite blen_app. unfold filter_segment. change (2 ^ 33) with 8589934592 in Hlay.
    change (2 ^ 34) with 17179869184. destruct (filter_policy opt) as [p|]; [|rewrite blen_nil; lia].
    rewrite blen_segment. specialize (Hfc p eq_refl). rlia. }
  set (pre := laid_out bs1 ++ filter_segment bs1) in *.
  destruct (write_meta_ok r2 bs1 fh pre Hw2) as (mst & mty & Hmst & ->);
    [change (2 ^ 63) with (2 ^ 34 * 2 ^ 29); lia|done..|]. cbn [mbind option_bind].
  set (r3 := set_offset _ _).
  assert (writing r3 (pre ++ segment mst mty)) as Hw3 by (by apply (writing_set r2 pre)).
  assert (blen mst < 2 ^ 32) as Hm.
  { destruct Hmst as [_ Hle]. pose proof (block_contents_size _ (meta_entries bs1) (proj1 Hopt) Hmeta). lia. }
  assert (blen (pre ++ segment mst mty) < 2 ^ 35) as Hpre2.
  { rewrite blen_app, blen_segment. change (2 ^ 35) with 34359738368. change (2 ^ 34) with 17179869184 in Hpre. rlia. }
  destruct (write_index_ok r3 _ (index_all bs1) Hw3) as (ist & ity & r4 & Hist & HW & Hw4 & Hn);
    [change (2 ^ 63) with (2 ^ 35 * 2 ^ 28); lia|by apply Hidx| |].
  { apply (last_index_entry r1 r3 bs1 kv Hb1); try done. apply Hw2. }
  rewrite HW. cbn [mbind option_bind].
  assert (blen ist < 2 ^ 32) as Hi.
  { destruct Hist as [_ Hle]. pose proof (block_contents_size 1 (index_all bs1) ltac:(lia)
      (Hidx _ b_kv0 b_fine0 b_placed0)). specialize (Hidx _ b_kv0 b_fine0 b_placed0). lia. }
  set (footer := {| metaindex_handle_ := {| offset_ := blen pre; size_ := blen mst |};
    index_handle_ := {| offset_ := blen (pre ++ segment mst mty); size_ := blen ist |} |}).
  pose proof (blen_nonneg pre). pose proof (blen_nonneg mst). pose proof (blen_nonneg ist).
  pose proof (blen_nonneg (pre ++ segment mst mty)).
  change (2 ^ 34) with 17179869184 in Hpre. change (2 ^ 35) with 34359738368 in Hpre2.
  destruct (footer_layout footer []) as (Hfl & _ & _); [split; cbn; rlia..|].
  unfold write_footer. fold footer. rewrite (w_status _ _ Hw4). cbn [ok OK Append mem_WritableFile].
  cbn [set_offset set_file status offset file].
  assert (blen ((pre ++ segment mst mty) ++ segment ist ity) + 48 < 2 ^ 64) as Hend.
  { rewrite blen_app, blen_segment. rlia. }
  eexists _, bs1, footer. split; [reflexivity|]. cbn [file set_offset set_file].
  rewrite (w_file _ _ Hw4). split; [|split; [|split; [|done]]].
  - split; [done..|]. exists mst, mty, ist, ity. cbv zeta. fold pre. split; [|done].
    by rewrite <- !app_assoc.
  - unfold FileSize. cbn [offset set_offset]. rewrite (w_offset _ _ Hw4), Hfl.
    rewrite u64_small by (pose proof (blen_nonneg ((pre ++ segment mst mty) ++ segment ist ity));
      change kEncodedLength with 48; rlia). rewrite (blen_app _ (Footer_EncodeTo footer [])), Hfl. done.
  - unfold NumEntries. cbn [num_entries set_offset set_file]. rewrite Hn.
    cbn [r3 num_entries set_offset set_file]. by rewrite E6.
Qed.
End Builder.
