(* ===== verification/TableReader.v ===== *)
(** * Sorted table files: reading back what was built *)

From S2P Require Import Prelude Coding Status Crc32c Comparator DbFormat Bloom Iterator Block.
From S2P Require Import BlockProofs FilterBlock TableFormat TwoLevelIterator Table TableProofs.

(** ** Sorted groups of entries *)

Section Groups.
Context (c : Comparator) (valid : bytes -> Prop) {Hc : ComparatorOk c valid}.

Lemma sorted_keys_app a b :
  sorted_keys c (a ++ b) <->
  sorted_keys c a /\ sorted_keys c b /\
  (forall k v k' v', (k, v) ∈ a -> (k', v') ∈ b -> Compare c k k' < 0).
Proof.
  induction a as [|[k v] a IH]; cbn [app sorted_keys].
  - split; [|tauto]. intros Hb. split; [done|]. split; [done|]. intros ? ? ? ? Hin. by apply elem_of_nil in Hin.
  - rewrite Forall_app, IH. split.
    + intros [[H1 H2] (H3 & H4 & H5)]. split; [done|]. split; [done|].
      intros k1 v1 k2 v2 [[= <- <-]|Hin]%elem_of_cons Hin2; [|by eapply H5].
      rewrite list.Forall_forall in H2. exact (H2 _ Hin2).
    + intros ([H1 H2] & H3 & H4). split; [split; [done|]|split; [done|split; [done|]]].
      * apply list.Forall_forall. intros [k' v'] Hin. eapply H4; [apply elem_of_cons; by left|done].
      * intros k1 v1 k2 v2 Hin1 Hin2. eapply H4; [apply elem_of_cons; by right|done].
Qed.

Lemma sorted_group gs i g : sorted_keys c (concat gs) -> gs !! i = Some g -> sorted_keys c g.
Proof.
  revert i. induction gs as [|g0 gs IH]; intros i Hs Hi; [done|]. cbn [concat] in Hs.
  apply sorted_keys_app in Hs as (H1 & H2 & _). destruct i; [by injection Hi as <-|by eapply IH].
Qed.
Lemma sorted_groups gs i j g g' k v k' v' :
  sorted_keys c (concat gs) -> (i < j)%nat -> gs !! i = Some g -> gs !! j = Some g' ->
  (k, v) ∈ g -> (k', v') ∈ g' -> Compare c k k' < 0.
Proof.
  revert i j. induction gs as [|g0 gs IH]; intros i j Hs Hij Hi Hj Hk Hk'; [done|]. cbn [concat] in Hs.
  apply sorted_keys_app in Hs as (H1 & H2 & H3). destruct j as [|j]; [lia|]. destruct i as [|i].
  - injection Hi as ->. eapply H3; [done|]. apply list_elem_of_In, in_concat.
    exists g'. split; apply list_elem_of_In; [|done]. by eapply list_elem_of_lookup_2.
  - eapply (IH i j); [done|lia|done..].
Qed.

Lemma last_key_of_elem g : g <> [] -> exists v, (last_key_of g, v) ∈ g.
Proof.
  destruct g as [|[k v] g _] using rev_ind; [done|]. intros _. rewrite last_key_of_snoc. exists v.
  apply elem_of_app. right. apply elem_of_cons. by left.
Qed.
Lemma first_key_elem g : g <> [] -> exists v, (first_key g, v) ∈ g.
Proof. destruct g as [|[k v] g]; [done|]. exists v. apply elem_of_cons. by left. Qed.

Lemma last_key_max g k v :
  sorted_keys c g -> valid_keys valid g -> (k, v) ∈ g -> Compare c k (last_key_of g) <= 0.
Proof.
  destruct g as [|[kl vl] g _] using rev_ind; [by intros _ _ ?%elem_of_nil|]. rewrite last_key_of_snoc.
  intros (_ & _ & Hs)%sorted_keys_app Hv [Hin|Hin]%elem_of_app.
  - apply Z.lt_le_incl, (Hs _ v _ vl Hin), elem_of_cons. by left.
  - apply list_elem_of_singleton in Hin as [= -> ->]. rewrite cmp_refl; [done|].
    apply Forall_app in Hv as [_ [Hv _]%Forall_cons_iff]. done.
Qed.
Lemma first_key_min g k v :
  sorted_keys c g -> valid_keys valid g -> (k, v) ∈ g -> Compare c (first_key g) k <= 0.
Proof.
  destruct g as [|[kf vf] g]; [by intros _ _ ?%elem_of_nil|]. cbn.
  intros [Hs _] [Hv _]%Forall_cons_iff [[= -> ->]|Hin]%elem_of_cons; [by rewrite cmp_refl|].
  rewrite list.Forall_forall in Hs. apply Z.lt_le_incl, (Hs _ Hin).
Qed.

Lemma sorted_keys_pairs es :
  (forall i j k1 v1 k2 v2, (i < j)%nat -> es !! i = Some (k1, v1) -> es !! j = Some (k2, v2) ->
     Compare c k1 k2 < 0) -> sorted_keys c es.
Proof.
  induction es as [|[k v] es IH]; intros H; [done|]. split.
  - apply Forall_lookup. intros j [k' v'] Hj. apply (H 0%nat (S j) k v k' v'); [lia|done..].
  - apply IH. intros i j k1 v1 k2 v2 Hij Hi Hj. apply (H (S i) (S j) k1 v1 k2 v2); [lia|done..].
Qed.
End Groups.

Lemma valid_keys_concat valid gs i g :
  valid_keys valid (concat gs) -> gs !! i = Some g -> valid_keys valid g.
Proof.
  revert i. induction gs as [|g0 gs IH]; intros i Hv Hi; [done|]. cbn [concat] in Hv.
  apply Forall_app in Hv as [H1 H2]. destruct i; [by injection Hi as <-|by eapply IH].
Qed.
Lemma kv_size_group gs g : g ∈ gs -> kv_size g <= kv_size (concat gs).
Proof.
  induction gs as [|g0 gs IH]; [by intros ?%elem_of_nil|]. cbn [concat]. rewrite kv_size_app.
  pose proof (kv_size_nonneg g0). pose proof (kv_size_nonneg (concat gs)).
  intros [->|Hin]%elem_of_cons; [lia|]. specialize (IH Hin). lia.
Qed.

(** ** The index of a table *)

(** Input size for which every block stays below 4 GiB. *)
Definition table_size (kv : list (bytes * bytes)) : Z := kv_size kv + 20 * blen kv + 64.

(** What can be put in a table. *)
Record entries_ok (c : Comparator) (valid : bytes -> Prop) (kv : list (bytes * bytes)) : Prop := {
  e_valid : valid_keys valid kv;
  e_sorted : sorted_keys c kv;
  e_bytes : entries_bytes kv;
  e_size : table_size kv < 2 ^ 32;
}.

(** Names of filter policies that fit the metaindex. *)
Definition name_ok (p : FilterPolicy) : Prop := bytes_ok (Name p) /\ blen (Name p) < 2 ^ 31.

Section Index.
Context `{HS : Snappy} {HSok : SnappyOk}.
Context (opt : Options) (Hopt : options_ok opt).
Abbreviation c := (comparator opt).
Context (valid : bytes -> Prop) {Hc : ComparatorOk c valid} {Hshort : ShortKeys c valid}.
Context (bs : list dblock) (kv : list (bytes * bytes)).
Context (Hkv : concat (d_kv <$> bs) = kv) (Hfine : Forall (block_fine opt) bs) (Hplaced : placed 0 bs).
Context (He : entries_ok c valid kv).
Abbreviation k := (Table.block_restart_interval opt).

Lemma kv_small : kv_size kv + 20 * blen kv + 64 < 2 ^ 32.
Proof. apply He. Qed.

Lemma block_facts j b :
  bs !! j = Some b -> block_fine opt b /\ sorted_keys c (d_kv b) /\ valid_keys valid (d_kv b) /\
  kv_size (d_kv b) <= kv_size kv /\ entries_bytes (d_kv b).
Proof.
  intros Hj. assert ((d_kv <$> bs) !! j = Some (d_kv b)) as Hg by (by rewrite list_lookup_fmap, Hj).
  destruct He as [Hv Hs Hb _]. rewrite <- Hkv in Hv, Hs, Hb.
  split; [by eapply Forall_lookup_1|]. split; [by eapply sorted_group|].
  split; [by eapply valid_keys_concat|]. split.
  - rewrite <- Hkv. apply kv_size_group. by eapply list_elem_of_lookup_2.
  - apply Forall_forall. intros e Hin%list_elem_of_In. unfold entries_bytes in Hb. rewrite Forall_forall in Hb.
    apply Hb, in_concat. exists (d_kv b). split; [|by apply list_elem_of_In].
    apply list_elem_of_In. by eapply list_elem_of_lookup_2.
Qed.

Lemma laid_out_small : blen (laid_out bs) < 2 ^ 33.
Proof.
  pose proof kv_small. pose proof (blen_nonneg kv).
  pose proof (laid_out_size opt Hopt bs Hfine) as Hl. rewrite Hkv in Hl. specialize (Hl ltac:(lia)).
  change (2 ^ 33) with (2 * 2 ^ 32). lia.
Qed.

(** A stored block can be read. *)
Lemma stored_small b j :
  bs !! j = Some b -> bytes_ok (d_stored b) /\ blen (d_stored b) + 5 < 2 ^ 32 /\
  bytes_ok (block_contents k (d_kv b)).
Proof.
  intros Hj. destruct (block_facts _ _ Hj) as ([_ [Hst Hle]] & _ & _ & Hsz & Hb).
  pose proof (block_contents_bytes k _ Hb) as Hraw. pose proof kv_small. pose proof (blen_nonneg kv).
  pose proof (block_contents_size k (d_kv b) (proj1 Hopt) ltac:(lia)).
  split; [|split; [lia|done]].
  destruct Hst as [[_ ->]|[_ Hcomp]]; [done|]. by destruct (snappy_roundtrip _ _ Hcomp Hraw).
Qed.

Lemma d_handle_ok j b : bs !! j = Some b -> handle_ok (d_handle b).
Proof.
  intros Hj. destruct (stored_small _ _ Hj) as (_ & Hl & _).
  destruct (placed_split 0 bs b Hplaced) as (pre & post & Hlay & Hoff); [by eapply list_elem_of_lookup_2|].
  pose proof laid_out_small as Hs. rewrite Hlay, !blen_app in Hs. change (2 ^ 33) with 8589934592 in Hs.
  pose proof (blen_nonneg pre). pose proof (blen_nonneg post). pose proof (blen_nonneg (d_seg b)).
  pose proof (blen_nonneg (d_stored b)).
  split; cbn; rewrite ?Hoff; rlia.
Qed.

(** Entry [j] of the index names block [j]. *)
Lemma index_all_lookup j ik v :
  index_all opt bs !! j = Some (ik, v) ->
  exists b, bs !! j = Some b /\ v = handle_bytes (d_handle b) /\
    ik = match bs !! S j with
         | Some b' => FindShortestSeparator c (last_key_of (d_kv b)) (first_key (d_kv b'))
         | None => FindShortSuccessor c (last_key_of (d_kv b))
         end.
Proof.
  clear Hkv Hfine Hplaced. revert j. induction bs as [|b bs' IH]; intros j Hj; [done|].
  cbn [index_all] in Hj. destruct j as [|j].
  - injection Hj as <- <-. exists b. by destruct bs'.
  - apply IH in Hj as (b' & Hb' & -> & ->). by exists b'.
Qed.
Lemma length_index_all : length (index_all opt bs) = length bs.
Proof. clear. induction bs as [|b bs' IH]; [done|]. cbn. by rewrite IH. Qed.

(** Index keys lie between the blocks. *)
Lemma index_key_bounds j ik v b :
  index_all opt bs !! j = Some (ik, v) -> bs !! j = Some b ->
  valid ik /\ blen ik <= blen (last_key_of (d_kv b)) /\ Compare c (last_key_of (d_kv b)) ik <= 0 /\
  (forall i b' k' w, (j < i)%nat -> bs !! i = Some b' -> (k', w) ∈ d_kv b' -> Compare c ik k' < 0).
Proof.
  intros Hj Hb. destruct (index_all_lookup _ _ _ Hj) as (b0 & Hb0 & _ & ->).
  assert (b0 = b) as -> by congruence.
  destruct (block_facts _ _ Hb) as ([Hne _] & Hs & Hv & _).
  destruct (last_key_of_elem _ Hne) as [vl Hl]. pose proof (valid_keys_elem _ _ _ _ Hv Hl) as Hvl.
  destruct (bs !! S j) as [b1|] eqn:Eb1.
  - destruct (block_facts _ _ Eb1) as ([Hne1 _] & Hs1 & Hv1 & _).
    destruct (first_key_elem _ Hne1) as [vf Hf]. pose proof (valid_keys_elem _ _ _ _ Hv1 Hf) as Hvf.
    assert (forall i b', bs !! i = Some b' -> (d_kv <$> bs) !! i = Some (d_kv b')) as Hg
      by (intros i b' E; by rewrite list_lookup_fmap, E).
    destruct He as [_ Hsk _ _]. rewrite <- Hkv in Hsk.
    assert (Compare c (last_key_of (d_kv b)) (first_key (d_kv b1)) < 0) as Hlt.
    { eapply (sorted_groups c (d_kv <$> bs) j (S j)); eauto. }
    split; [by apply sep_valid|]. split; [by apply sep_short|]. split; [by apply sep_lower|].
    intros i b' k' w Hi Hb' Hin. pose proof (sep_upper _ _ Hvl Hvf Hlt) as Hup.
    destruct (block_facts _ _ Hb') as (_ & _ & Hv' & _).
    pose proof (valid_keys_elem _ _ _ _ Hv' Hin).
    apply (cmp_lt_le_trans _ (first_key (d_kv b1))); [by apply sep_valid|done|done|done|].
    destruct (decide (i = S j)) as [->|].
    + assert (b' = b1) as -> by congruence. by eapply (first_key_min c valid).
    + apply Z.lt_le_incl. eapply (sorted_groups c (d_kv <$> bs) (S j) i); eauto. lia.
  - split; [by apply succ_valid|]. split; [by apply succ_short|]. split; [by apply succ_lower|].
    intros i b' k' w Hi Hb' _. apply lookup_ge_None in Eb1. apply lookup_lt_Some in Hb'. lia.
Qed.

(** The block a handle names. *)
Definition block_of (v : bytes) : list (bytes * bytes) :=
  match list_find (fun b => v = handle_bytes (d_handle b)) bs with
  | Some (_, b) => d_kv b
  | None => []
  end.

Lemma handle_bytes_inj h h' : handle_ok h -> handle_ok h' -> handle_bytes h = handle_bytes h' -> h = h'.
Proof.
  intros Hh Hh' E. pose proof (BlockHandle_decode h BlockHandle_default [] Hh) as D1.
  pose proof (BlockHandle_decode h' BlockHandle_default [] Hh') as D2. rewrite E, D2 in D1. congruence.
Qed.
Lemma placed_off_inj i j b b' :
  bs !! i = Some b -> bs !! j = Some b' -> d_off b = d_off b' -> i = j.
Proof.
  clear Hkv Hfine He. assert (forall off l, placed off l -> forall i b, l !! i = Some b ->
    off <= d_off b /\ (i <> 0%nat -> off + 5 <= d_off b)) as Hlow.
  { intros off l. revert off. induction l as [|x l IH]; intros off Hp i0 b0 Hi; [done|].
    destruct Hp as [Ho Hp]. destruct i0 as [|i0]; [injection Hi as <-; lia|].
    destruct (IH _ Hp _ _ Hi) as [H1 _]. unfold d_seg in H1. rewrite blen_segment in H1.
    pose proof (blen_nonneg (d_stored x)). lia. }
  revert i j. generalize 0 as off, Hplaced. clear Hplaced.
  induction bs as [|x l IH]; intros off Hp i j Hi Hj Heq; [done|].
  destruct i as [|i], j as [|j]; [done| | |].
  - pose proof (Hlow _ _ Hp _ _ Hi). pose proof (Hlow _ _ Hp _ _ Hj) as [_ H2].
    injection Hi as ->. destruct Hp as [Ho _]. specialize (H2 ltac:(done)). lia.
  - pose proof (Hlow _ _ Hp _ _ Hj). pose proof (Hlow _ _ Hp _ _ Hi) as [_ H2].
    injection Hj as ->. destruct Hp as [Ho _]. specialize (H2 ltac:(done)). lia.
  - f_equal. destruct Hp as [_ Hp]. by eapply IH.
Qed.
Lemma block_of_handle j b : bs !! j = Some b -> block_of (handle_bytes (d_handle b)) = d_kv b.
Proof.
  intros Hj. unfold block_of.
  destruct (list_find _ bs) as [[i b']|] eqn:E.
  - apply list_find_Some in E as (Hi & Heq & _).
    apply handle_bytes_inj in Heq; [|by eapply d_handle_ok..].
    assert (d_off b = d_off b') as Hoff by (injection Heq; done).
    pose proof (placed_off_inj _ _ _ _ Hj Hi Hoff) as ->. congruence.
  - apply list_find_None in E. rewrite Forall_lookup in E. by destruct (E _ _ Hj).
Qed.

Lemma table_blocks : blocks (index_all opt bs) block_of = d_kv <$> bs.
Proof.
  apply list_eq. intros j. unfold blocks. rewrite !list_lookup_fmap.
  destruct (bs !! j) as [b|] eqn:Eb.
  - destruct (lookup_lt_is_Some_2 (index_all opt bs) j) as [[ik v] Hj].
    { rewrite length_index_all. by eapply lookup_lt_Some. }
    rewrite Hj. cbn. destruct (index_all_lookup _ _ _ Hj) as (b' & Hb' & -> & _).
    f_equal. assert (b' = b) as -> by congruence. by eapply block_of_handle.
  - rewrite (proj2 (lookup_ge_None (index_all opt bs) j)); [done|].
    rewrite length_index_all. by apply lookup_ge_None.
Qed.

Lemma table_index_bounds : index_bounds c valid (index_all opt bs) block_of.
Proof.
  split.
  - intros i ik v Hi. destruct (index_all_lookup _ _ _ Hi) as (b & Hb & -> & _).
    rewrite (block_of_handle _ _ Hb). destruct (index_key_bounds _ _ _ _ Hi Hb) as [Hv _].
    split; [done|]. apply (block_facts _ _ Hb).
  - intros i ik v k' w Hi Hin. destruct (index_all_lookup _ _ _ Hi) as (b & Hb & -> & _).
    rewrite (block_of_handle _ _ Hb) in Hin. destruct (index_key_bounds _ _ _ _ Hi Hb) as (Hv & _ & Hle & _).
    destruct (block_facts _ _ Hb) as ([Hne _] & Hs & Hvk & _).
    destruct (last_key_of_elem _ Hne) as [vl Hl].
    apply (cmp_trans k' (last_key_of (d_kv b)) ik); [by eapply valid_keys_elem..|done| |done].
    by eapply (last_key_max c valid).
  - intros i j ik v ik' v' k' w Hij Hi Hj Hin.
    destruct (index_all_lookup _ _ _ Hi) as (b & Hb & _).
    destruct (index_all_lookup _ _ _ Hj) as (b' & Hb' & -> & _).
    rewrite (block_of_handle _ _ Hb') in Hin.
    destruct (index_key_bounds _ _ _ _ Hi Hb) as (_ & _ & _ & Hh). by eapply Hh.
Qed.

Lemma index_sorted : sorted_keys c (index_all opt bs).
Proof.
  apply sorted_keys_pairs. intros i j k1 v1 k2 v2 Hij Hi Hj.
  destruct (index_all_lookup _ _ _ Hi) as (b & Hb & _).
  destruct (index_all_lookup _ _ _ Hj) as (b' & Hb' & _).
  destruct (index_key_bounds _ _ _ _ Hi Hb) as (Hv1 & _ & _ & Hh).
  destruct (index_key_bounds _ _ _ _ Hj Hb') as (Hv2 & _ & Hle & _).
  destruct (block_facts _ _ Hb') as ([Hne _] & _ & Hvk & _). destruct (last_key_of_elem _ Hne) as [vl Hl].
  apply (cmp_lt_le_trans _ (last_key_of (d_kv b'))); [done|by eapply valid_keys_elem|done| |done].
  by eapply Hh.
Qed.
Lemma index_valid : valid_keys valid (index_all opt bs).
Proof.
  apply Forall_lookup. intros j [ik v] Hj. by apply (ib_valid _ _ _ _ table_index_bounds _ _ _ Hj).
Qed.

Lemma last_key_size g : g <> [] -> blen (last_key_of g) + 27 <= kv_size g.
Proof.
  destruct g as [|[k0 v0] g _] using rev_ind; [done|]. intros _. rewrite last_key_of_snoc, kv_size_app.
  cbn [kv_size]. pose proof (kv_size_nonneg g). pose proof (blen_nonneg v0). lia.
Qed.

(** The index takes at most twenty bytes more than the last entries of the blocks. *)
Lemma index_size_sum l es :
  length es = length l -> kv_size (concat (d_kv <$> l)) < 2 ^ 32 ->
  (forall j b ik v, l !! j = Some b -> es !! j = Some (ik, v) ->
     d_kv b <> [] /\ blen ik <= blen (last_key_of (d_kv b)) /\ blen v <= 20) ->
  kv_size es <= kv_size (concat (d_kv <$> l)) + 20 * blen l.
Proof.
  revert es. induction l as [|b l IH]; intros [|[ik v] es] Hl Hsz H; [done|done|done|].
  cbn [fmap list_fmap concat kv_size] in *. rewrite kv_size_app in *.
  destruct (H 0%nat b ik v eq_refl eq_refl) as (Hne & Hk & Hv).
  pose proof (last_key_size _ Hne). pose proof (kv_size_nonneg (d_kv b)).
  pose proof (kv_size_nonneg (concat (d_kv <$> l))).
  specialize (IH es ltac:(cbn in Hl; lia) ltac:(lia)
    (fun j => H (S j))). rewrite blen_cons. lia.
Qed.

Lemma blocks_count : blen bs <= blen kv.
Proof.
  rewrite <- Hkv. clear Hkv He Hplaced. induction Hfine as [|b l [Hne _] Hl IH]; [done|].
  cbn [fmap list_fmap concat]. rewrite blen_cons, blen_app.
  assert (1 <= blen (d_kv b)) by (destruct (d_kv b); [done|blia]).
  specialize (IH Hl). lia.
Qed.

Lemma index_size : kv_size (index_all opt bs) + 5 < 2 ^ 32.
Proof.
  pose proof kv_small. pose proof blocks_count. pose proof (blen_nonneg kv).
  assert (kv_size (index_all opt bs) <= kv_size (concat (d_kv <$> bs)) + 20 * blen bs).
  { apply index_size_sum; [apply length_index_all|rewrite Hkv; lia|].
    intros j b ik v Hb Hj. destruct (index_all_lookup _ _ _ Hj) as (b' & Hb' & -> & _).
    assert (b' = b) as -> by congruence.
    destruct (index_key_bounds _ _ _ _ Hj Hb) as (_ & Hk & _).
    destruct (block_facts _ _ Hb) as ([Hne _] & _). split; [done|]. split; [done|].
    pose proof (handle_bytes_len _ (d_handle_ok _ _ Hb)). unfold kMaxEncodedLength in *. lia. }
  rewrite Hkv in *. lia.
Qed.

Lemma index_bytes : (forall x, valid x -> bytes_ok x) -> entries_bytes (index_all opt bs).
Proof.
  intros Hvb. apply Forall_lookup. intros j [ik v] Hj.
  destruct (index_all_lookup _ _ _ Hj) as (b & Hb & -> & _).
  destruct (index_key_bounds _ _ _ _ Hj Hb) as (Hv & _). split; [by apply Hvb|apply handle_bytes_ok].
Qed.
Lemma metaindex_facts :
  (forall p, filter_policy opt = Some p -> name_ok p) ->
  (forall p, filter_policy opt = Some p -> blen (filter_contents_of bs p) + 5 < 2 ^ 32) ->
  kv_size (meta_entries opt bs) + 5 < 2 ^ 32 /\ entries_bytes (meta_entries opt bs) /\
  valid_keys bytes_ok (meta_entries opt bs) /\ sorted_keys BytewiseComparator (meta_entries opt bs) /\
  (forall p, filter_policy opt = Some p -> handle_ok (filter_handle bs p)).
Proof.
  intros Hname Hfilter. pose proof laid_out_small as Hl.
  change (2 ^ 33) with 8589934592 in Hl. pose proof (blen_nonneg (laid_out bs)).
  unfold meta_entries. destruct (filter_policy opt) as [p|] eqn:Ep.
  - destruct (Hname p eq_refl) as [Hn1 Hn2]. specialize (Hfilter p eq_refl).
    assert (handle_ok (filter_handle bs p)) as Hh.
    { pose proof (blen_nonneg (filter_contents_of bs p)).
      split; unfold filter_handle; cbn [TableFormat.offset_ TableFormat.size_]; rlia. }
    pose proof (handle_bytes_len _ Hh) as Hhl. unfold kMaxEncodedLength in Hhl.
    assert (bytes_ok (str "filter." ++ Name p)).
    { apply bytes_ok_app. split; [|done]. by repeat constructor. }
    split_and!.
    + cbn [kv_size]. rewrite blen_app. change (blen (str "filter.")) with 7.
      change (2 ^ 31) with 2147483648 in Hn2. rlia.
    + constructor; [|done]. split; [done|apply handle_bytes_ok].
    + by constructor.
    + done.
    + by intros p' [= <-].
  - split_and!; [by vm_compute|constructor|constructor|done|done].
Qed.

End Index.

(** ** Reading blocks of a finished file *)

Lemma read_stored `{Snappy} `{!SnappyOk} pre raw st type post verify :
  stored_as raw st type -> bytes_ok raw -> blen raw + 5 < 2 ^ 32 -> is_u64 (blen pre) ->
  exists heap, ReadBlock (pre ++ segment st type ++ post) verify {| offset_ := blen pre; size_ := blen st |} =
    (OK, Some {| data := raw; cachable := heap; heap_allocated := heap |}).
Proof.
  intros [Hst Hle] Hraw Hsz Hpre. unfold segment. rewrite <- app_assoc.
  apply ReadBlock_stored; [intros _|lia|done|by destruct Hst as [?|[? ?]]; [left|right]].
  destruct Hst as [[_ ->]|[_ Hcomp]]; [done|]. by destruct (snappy_roundtrip _ _ Hcomp Hraw).
Qed.

(** ** The block cache *)

(** What a cache promises: it returns nothing but what was inserted, and may forget. *)
Class BlockCacheOk (C : Type) `{BlockCache C} := {
  cache_contents : C -> bytes -> option Block;
  lookup_hit : forall c k b c', CacheLookup c k = (Some b, c') -> cache_contents c k = Some b;
  lookup_keeps : forall c k r c' k' b', CacheLookup c k = (r, c') ->
    cache_contents c' k' = Some b' -> cache_contents c k' = Some b';
  insert_keeps : forall c k b n k' b', cache_contents (CacheInsert c k b n) k' = Some b' ->
    (k' = k /\ b' = b) \/ cache_contents c k' = Some b';
  newid_keeps : forall c id c' k b, NewId c = (id, c') ->
    is_u64 id /\ (cache_contents c' k = Some b -> cache_contents c k = Some b);
}.

(** The cache holds, under the table's keys, nothing but the table's blocks. *)
Definition cache_key (id : Z) (h : BlockHandle) : bytes := EncodeFixed64 id ++ EncodeFixed64 (offset_ h).

Lemma cache_key_inj id h h' :
  is_u64 id -> is_u64 (offset_ h) -> is_u64 (offset_ h') -> cache_key id h = cache_key id h' ->
  offset_ h = offset_ h'.
Proof.
  intros Hi Ho Ho' E. unfold cache_key in E. apply app_inj_1 in E as [_ E]; [|done].
  apply (f_equal (fun l => DecodeFixed64 (l ++ []))) in E. by rewrite !DecodeFixed64_encode in E.
Qed.

Lemma built_at_pos k kv c valid {Hc : ComparatorOk c valid} :
  1 <= k -> kv_size kv < 2 ^ 32 -> valid_keys valid kv -> sorted_keys c kv ->
  at_pos c valid kv (Block.NewIterator (mkBlock (block_contents k kv)) c : Iter.Iter + EmptyIterator) None.
Proof.
  intros Hk Hs Hv Ho. destruct (built_contract k kv c valid Hk Hs Hv Ho) as (it & pos & -> & Hp & Hio).
  apply at_pos_inl. by exists pos.
Qed.

Section Open.
Context `{HS : Snappy} {HSok : SnappyOk} {C : Type} `{HC : BlockCache C} {HCok : BlockCacheOk C}.
Context (opt : Options) (Hopt : options_ok opt).
Abbreviation c := (comparator opt).
Context (valid : bytes -> Prop) {Hc : ComparatorOk c valid} {Hshort : ShortKeys c valid}.
Context (Hvb : forall x, valid x -> bytes_ok x).
Context (f : bytes) (bs : list dblock) (kv : list (bytes * bytes)) (footer : Footer).
Context (Htf : table_file opt f bs kv footer) (He : entries_ok c valid kv).
Context (Hname : forall p, filter_policy opt = Some p -> name_ok p).
Context (Hfilter : forall p, filter_policy opt = Some p -> blen (filter_contents_of bs p) + 5 < 2 ^ 32).
Abbreviation k := (Table.block_restart_interval opt).

Lemma meta_facts :
  kv_size (meta_entries opt bs) + 5 < 2 ^ 32 /\ entries_bytes (meta_entries opt bs) /\
  valid_keys bytes_ok (meta_entries opt bs) /\ sorted_keys BytewiseComparator (meta_entries opt bs) /\
  (forall p, filter_policy opt = Some p -> handle_ok (filter_handle bs p)).
Proof.
  destruct Htf as [Hkv Hfine Hplaced Hrest]. exact (metaindex_facts opt Hopt valid bs kv Hkv Hfine He Hname Hfilter).
Qed.

(** The parts of the file can be read at their handles. *)
Lemma read_data b j verify :
  bs !! j = Some b ->
  exists heap, ReadBlock f verify (d_handle b) =
    (OK, Some {| data := block_contents k (d_kv b); cachable := heap; heap_allocated := heap |}).
Proof.
  destruct Htf as [Hkv Hfine Hplaced Hrest]. destruct Hrest as (mst & mty & ist & ity & -> & _). cbv zeta. intros Hj.
  destruct (placed_split 0 bs b Hplaced) as (pre & post & Hlay & Hoff); [by eapply list_elem_of_lookup_2|].
  rewrite Hlay, <- !app_assoc. unfold d_seg, d_handle. rewrite Hoff, Z.add_0_l.
  destruct (stored_small opt Hopt valid bs kv Hkv Hfine He b j Hj) as (_ & _ & Hb).
  destruct (block_facts opt valid bs kv Hkv Hfine He j b Hj) as ([_ Hst] & _ & _ & Hsz & _).
  pose proof (kv_small opt valid kv He). pose proof (blen_nonneg kv).
  pose proof (block_contents_size k (d_kv b) (proj1 Hopt) ltac:(lia)).
  apply read_stored; [done|done|lia|].
  pose proof (laid_out_small opt Hopt valid bs kv Hkv Hfine He) as Hl.
  rewrite Hlay, blen_app in Hl. change (2 ^ 33) with 8589934592 in Hl.
  pose proof (blen_nonneg pre). pose proof (blen_nonneg (d_seg b ++ post)). rlia.
Qed.

Lemma pre_small : blen (laid_out bs ++ filter_segment opt bs) < 2 ^ 34.
Proof.
  destruct Htf as [Hkv Hfine Hplaced Hrest]. pose proof (laid_out_small opt Hopt valid bs kv Hkv Hfine He) as Hl.
  change (2 ^ 33) with 8589934592 in Hl. change (2 ^ 34) with 17179869184.
  rewrite blen_app. unfold filter_segment. destruct (filter_policy opt) as [p|]; [|rewrite blen_nil; lia].
  rewrite blen_segment. specialize (Hfilter p eq_refl). rlia.
Qed.
Lemma meta_stored_small mst mty :
  stored_as (block_contents k (meta_entries opt bs)) mst mty -> blen mst + 5 < 2 ^ 32.
Proof.
  intros [_ Hle]. destruct meta_facts as (Hs & _).
  pose proof (block_contents_size k (meta_entries opt bs) (proj1 Hopt) ltac:(lia)). lia.
Qed.
Lemma read_metaindex :
  exists heap, ReadBlock f false (metaindex_handle_ footer) =
    (OK, Some {| data := block_contents k (meta_entries opt bs); cachable := heap; heap_allocated := heap |}).
Proof.
  pose proof pre_small as Hp. destruct meta_facts as (Hs & Hb & _).
  destruct Htf as [Hkv Hfine Hplaced Hrest]. destruct Hrest as (mst & mty & ist & ity & -> & Hm & _ & -> & _). cbv zeta.
  pose proof (block_contents_size k (meta_entries opt bs) (proj1 Hopt) ltac:(lia)).
  apply read_stored; [done|by apply block_contents_bytes|lia|].
  pose proof (blen_nonneg (laid_out bs ++ filter_segment opt bs)). change (2 ^ 34) with 17179869184 in Hp. rlia.
Qed.
Lemma index_facts :
  kv_size (index_all opt bs) + 5 < 2 ^ 32 /\ entries_bytes (index_all opt bs) /\
  sorted_keys c (index_all opt bs) /\ valid_keys valid (index_all opt bs).
Proof.
  destruct Htf as [Hkv Hfine Hplaced Hrest]. split_and!; [by eapply index_size|by eapply index_bytes|by eapply index_sorted|by eapply index_valid].
Qed.

Lemma read_index :
  exists heap, ReadBlock f false (index_handle_ footer) =
    (OK, Some {| data := block_contents 1 (index_all opt bs); cachable := heap; heap_allocated := heap |}).
Proof.
  pose proof pre_small as Hp. destruct index_facts as (Hs & Hb & _).
  pose proof Htf as [Hkv Hfine Hplaced Hrest].
  destruct Hrest as (mst & mty & ist & ity & Hf & Hm & Hi & _ & ->). cbv zeta in Hf. rewrite Hf.
  pose proof (meta_stored_small _ _ Hm) as Hms.
  pose proof (block_contents_size 1 (index_all opt bs) ltac:(lia) ltac:(lia)).
  rewrite (app_assoc (laid_out bs ++ filter_segment opt bs) (segment mst mty)).
  apply read_stored; [done|by apply block_contents_bytes|lia|].
  rewrite blen_app, blen_segment. pose proof (blen_nonneg (laid_out bs ++ filter_segment opt bs)).
  pose proof (blen_nonneg mst). change (2 ^ 34) with 17179869184 in Hp. rlia.
Qed.
Lemma read_filter p :
  filter_policy opt = Some p ->
  exists heap, ReadBlock f false (filter_handle bs p) =
    (OK, Some {| data := filter_contents_of bs p; cachable := heap; heap_allocated := heap |}).
Proof.
  intros Hp. specialize (Hfilter p Hp).
  pose proof Htf as [Hkv Hfine Hplaced Hrest].
  pose proof (laid_out_small opt Hopt valid bs kv Hkv Hfine He) as Hl.
  destruct Hrest as (mst & mty & ist & ity & Hf & _). cbv zeta in Hf. rewrite Hf. unfold filter_segment. rewrite Hp.
  unfold segment at 1, filter_handle. rewrite <- !app_assoc.
  apply ReadBlock_stored; [done|done| |by left].
  pose proof (blen_nonneg (laid_out bs)). change (2 ^ 33) with 8589934592 in Hl. rlia.
Qed.
Lemma read_footer :
  kEncodedLength <= blen f /\
  exists in_buf fi, ReadAt f (blen f - kEncodedLength) kEncodedLength = (OK, (fi, in_buf)) /\
    forall f0, Footer_DecodeFrom f0 fi = (OK, footer, []).
Proof.
  pose proof pre_small as Hp. change (2 ^ 34) with 17179869184 in Hp.
  destruct index_facts as (Hs & _). pose proof Htf as [Hkv Hfine Hplaced Hrest].
  destruct Hrest as (mst & mty & ist & ity & Hf & Hm & Hi & Em & Ei). cbv zeta in *. rewrite Hf.
  pose proof (meta_stored_small _ _ Hm) as Hms.
  pose proof (block_contents_size 1 (index_all opt bs) ltac:(lia) ltac:(lia)) as His.
  destruct Hi as [_ Hil].
  set (pre := laid_out bs ++ filter_segment opt bs) in *.
  pose proof (blen_nonneg pre). pose proof (blen_nonneg mst). pose proof (blen_nonneg ist).
  destruct (footer_layout footer []) as (Hl & _ & Hd).
  { rewrite Em. split; cbn [offset_ TableFormat.size_]; rlia. }
  { rewrite Ei, blen_app, blen_segment. split; cbn [offset_ TableFormat.size_]; rlia. }
  rewrite !app_assoc. set (body := (pre ++ segment mst mty) ++ segment ist ity).
  rewrite blen_app, Hl. pose proof (blen_nonneg body). split; [lia|].
  eexists _, _. split; [reflexivity|]. intros f0.
  assert (sub (body ++ Footer_EncodeTo footer []) (blen body + kEncodedLength - kEncodedLength) kEncodedLength
          = Footer_EncodeTo footer [] ++ []) as ->; [|apply Hd].
  unfold sub. rewrite Z.add_simpl_r, drop_app_length' by ulia.
  rewrite app_nil_r. apply take_blen. rewrite Hl. change kEncodedLength with 48. lia.
Qed.

(** The table an opened file gives. *)
Record opened (t : Table.Table bytes) : Prop := {
  o_options : Table.options t = opt;
  o_file : Table.file t = f;
  o_id : is_u64 (Table.cache_id t);
  o_index : Table.index_block t = mkBlock (block_contents 1 (index_all opt bs));
  o_meta : Table.metaindex_handle t = metaindex_handle_ footer;
  o_filter : Table.filter t =
    (fun p => FilterBlockReader.new p (filter_contents_of bs p)) <$> filter_policy opt;
}.

Lemma ReadMeta_opened id :
  is_u64 id ->
  opened (Table.ReadMeta {| Table.options := opt; Table.file := f; Table.cache_id := id;
    Table.filter := None; Table.metaindex_handle := metaindex_handle_ footer;
    Table.index_block := mkBlock (block_contents 1 (index_all opt bs)) |} footer).
Proof.
  intros Hid. unfold Table.ReadMeta. cbn [Table.options Table.file].
  case_eq (filter_policy opt); [intros p Ep|intros Ep; by split; cbn; rewrite ?Ep].
  destruct read_metaindex as [heap Hr]. rewrite Hr. cbn [data OK].
  destruct meta_facts as (Hs & Hb & Hv & Ho & Hh). specialize (Hh p Ep).
  pose proof (built_at_pos k (meta_entries opt bs) BytewiseComparator bytes_ok (proj1 Hopt)
    ltac:(lia) Hv Ho) as Hp0.
  assert (meta_entries opt bs = [(str "filter." ++ Name p, handle_bytes (filter_handle bs p))]) as Hme
    by (unfold meta_entries; by rewrite Ep).
  rewrite Hme in Hp0, Hv |- *.
  set (key := str "filter." ++ Name p) in *.
  assert (bytes_ok key) as Hkb by (by apply Forall_cons_iff in Hv as [? _]).
  pose proof (io_seek _ _ key Hkb Hp0) as Hp1.
  assert (first_ge BytewiseComparator [(key, handle_bytes (filter_handle bs p))] key = Some 0%nat) as Hfg.
  { cbn [first_ge]. by rewrite cmp_refl. }
  rewrite Hfg in Hp1.
  match type of Hp1 with at_pos _ _ _ ?x _ => set (s := x) in *; clearbody s end.
  pose proof (io_entry _ _ Hp1) as Hent.
  assert (Iterator.key s = key /\ value s = handle_bytes (filter_handle bs p)) as [-> ->]
    by (split; injection Hent; done).
  rewrite (io_valid _ _ Hp1).
  rewrite bool_decide_eq_true_2 by done.
  assert (Slice_eq key key = true) as -> by (by apply Slice_eq_spec).
  cbn [andb]. unfold Table.ReadFilter. rewrite <- (app_nil_r (handle_bytes _)).
  rewrite BlockHandle_decode by done. cbn [OK Table.file].
  destruct (read_filter p Ep) as [heap' Hrf]. rewrite Hrf. cbn [OK].
  split; cbn; try done. by rewrite Ep.
Qed.

Lemma ReadMeta_id (t : Table.Table bytes) ft : Table.cache_id (Table.ReadMeta t ft) = Table.cache_id t.
Proof.
  unfold Table.ReadMeta, Table.ReadFilter. destruct (filter_policy (Table.options t)); [|done].
  destruct (ReadBlock _ _ _) as [[|] [|]]; try done.
  destruct (_ && _); [|done]. destruct (BlockHandle_DecodeFrom _ _) as [[[|] ?] ?]; [done|].
  by destruct (ReadBlock _ _ _) as [[|] [|]].
Qed.
Lemma Open_opened (cache : option C) :
  exists t cache', Table.Open opt cache f (blen f) = (OK, Some t, cache') /\ opened t /\
    match cache, cache' with
    | None, None => True
    | Some c0, Some c1 => NewId c0 = (Table.cache_id t, c1)
    | _, _ => False
    end.
Proof.
  destruct read_footer as (Hlen & in_buf & fi & Hread & Hfoot). destruct read_index as [heap Hri].
  unfold Table.Open. rewrite (proj2 (Z.ltb_ge _ _) Hlen). rewrite Hread. cbn [ok OK negb].
  rewrite Hfoot. cbn [ok OK negb]. rewrite Hri.
  destruct cache as [c0|].
  - destruct (NewId c0) as [id c1] eqn:En. eexists _, _. split; [reflexivity|].
    assert (is_u64 id) as Hid by (by destruct (newid_keeps c0 id c1 [] {| data_ := []; Block.size_ := 0; restart_offset_ := 0 |} En)).
    pose proof (ReadMeta_opened id Hid). split; [done|]. by rewrite ReadMeta_id.
  - eexists _, _. split; [reflexivity|]. split; [|done]. apply ReadMeta_opened. rlia.
Qed.

(** ** Reading data blocks *)

Definition cache_ok (id : Z) (cache : option C) : Prop :=
  match cache with
  | None => True
  | Some c0 => forall j b blk, bs !! j = Some b ->
      cache_contents c0 (cache_key id (d_handle b)) = Some blk ->
      blk = mkBlock (block_contents k (d_kv b))
  end.

Lemma cache_ok_insert id c0 j b n :
  is_u64 id -> bs !! j = Some b -> cache_ok id (Some c0) ->
  cache_ok id (Some (CacheInsert c0 (cache_key id (d_handle b)) (mkBlock (block_contents k (d_kv b))) n)).
Proof.
  pose proof Htf as [Hkv Hfine Hplaced _].
  intros Hid Hj Hco j' b' blk Hj' Hin. apply insert_keeps in Hin as [[Hkey ->]|Hin]; [|by eapply Hco].
  pose proof (d_handle_ok opt Hopt valid bs kv Hkv Hfine Hplaced He _ _ Hj) as [H1 _].
  pose proof (d_handle_ok opt Hopt valid bs kv Hkv Hfine Hplaced He _ _ Hj') as [H2 _].
  apply cache_key_inj in Hkey; [|done..].
  pose proof (placed_off_inj bs Hplaced _ _ _ _ Hj Hj' (eq_sym Hkey)) as ->. congruence.
Qed.

Lemma data_at_pos j b :
  bs !! j = Some b ->
  at_pos c valid (d_kv b)
    (Block.NewIterator (mkBlock (block_contents k (d_kv b))) c : Iter.Iter + EmptyIterator) None.
Proof.
  pose proof Htf as [Hkv Hfine _ _]. intros Hj.
  destruct (block_facts opt valid bs kv Hkv Hfine He j b Hj) as (_ & Hs & Hv & Hsz & _).
  pose proof (kv_small opt valid kv He). pose proof (blen_nonneg kv).
  apply (built_at_pos k (d_kv b) c valid); [apply Hopt|lia|done..].
Qed.

Lemma BlockReader_ok t verify fill cache j b :
  opened t -> cache_ok (Table.cache_id t) cache -> bs !! j = Some b ->
  exists it cache', Table.BlockReader t verify fill cache (handle_bytes (d_handle b)) = (it, cache') /\
    at_pos c valid (d_kv b) it None /\ cache_ok (Table.cache_id t) cache'.
Proof.
  pose proof Htf as [Hkv Hfine Hplaced _]. intros [] Hco Hj. pose proof (data_at_pos j b Hj) as Hp.
  pose proof (d_handle_ok opt Hopt valid bs kv Hkv Hfine Hplaced He _ _ Hj) as Hh.
  unfold Table.BlockReader. rewrite <- (app_nil_r (handle_bytes _)), BlockHandle_decode by done.
  cbn [ok OK]. fold (cache_key (Table.cache_id t) (d_handle b)).
  rewrite o_options0, o_file0. destruct (read_data b j verify Hj) as [heap Hr].
  destruct cache as [c0|].
  - destruct (CacheLookup c0 _) as [[blk|] c1] eqn:El.
    + pose proof (lookup_hit _ _ _ _ El) as Hhit.
      rewrite (Hco _ _ _ Hj Hhit). eexists _, _. split; [reflexivity|]. split; [done|].
      intros j' b' blk' Hj' Hin. eapply Hco; [done|]. by eapply lookup_keeps.
    + rewrite Hr. cbn [data cachable]. eexists _, _. split; [reflexivity|]. split; [done|].
      assert (cache_ok (Table.cache_id t) (Some c1)) as Hco1.
      { intros j' b' blk' Hj' Hin. eapply Hco; [done|]. by eapply lookup_keeps. }
      destruct (heap && fill); [|done]. by eapply cache_ok_insert.
  - rewrite Hr. eexists _, _. split; [reflexivity|]. by split.
Qed.

Lemma index_at_pos t :
  opened t ->
  at_pos c valid (index_all opt bs)
    (Block.NewIterator (Table.index_block t) (comparator (Table.options t)) : Iter.Iter + EmptyIterator) None.
Proof.
  intros []. rewrite o_index0, o_options0. destruct index_facts as (Hs & _ & Ho & Hv).
  apply (built_at_pos 1 (index_all opt bs) c valid); [lia|lia|done..].
Qed.

(** ** Iteration *)

Lemma table_iterator t verify fill cache fuel :
  opened t -> cache_ok (Table.cache_id t) cache -> (length kv < fuel)%nat ->
  @at_pos _ (TwoLevelIterator_ops (Table.read_block_entry t verify fill) fuel) c valid kv
    (Table.NewIterator t cache) None.
Proof.
  intros Ht Hco Hf. pose proof Htf as [Hkv Hfine Hplaced _].
  pose proof (table_index_bounds opt Hopt valid bs kv Hkv Hfine Hplaced He) as Hib.
  assert (opens_blocks (Table.read_block_entry t verify fill) c valid (index_all opt bs)
            (block_of bs) (cache_ok (Table.cache_id t))) as Hopen.
  { intros a i ik v Ha Hi. destruct (index_all_lookup opt bs _ _ _ Hi) as (b & Hb & -> & _).
    rewrite (block_of_handle opt Hopt valid bs kv Hkv Hfine Hplaced He _ _ Hb).
    destruct (BlockReader_ok t verify fill a i b Ht Ha Hb) as (d & a' & E & Hd & Ha').
    by exists d, a'. }
  assert (length (index_all opt bs) < fuel)%nat.
  { rewrite length_index_all. pose proof (blocks_count opt bs kv Hkv Hfine). ulia. }
  eexists. split; [|by apply (two_level_new c valid (index_all opt bs) (block_of bs)
    (cache_ok (Table.cache_id t)) _ cache (index_at_pos t Ht) Hco)].
  assert (flat (index_all opt bs) (block_of bs) = kv) as <-.
  { unfold flat. by rewrite (table_blocks opt Hopt valid bs kv Hkv Hfine Hplaced He). }
  by apply two_level_ok.
Qed.

(** ** Point lookups *)

(** [same x k]: a lookup of [x] that stops at the key [k] has found it. *)
Context (same : bytes -> bytes -> Prop).
(** No key between the end of a block and its separator is looked up in the next block. *)
Definition no_gap : Prop := forall s l x, valid s -> valid l -> valid x ->
  Compare c s x < 0 -> Compare c x (FindShortestSeparator c s l) <= 0 -> Compare c s l < 0 -> ~ same x l.
(** The filter of a group of keys matches every lookup that one of them answers. *)
Definition filter_finds : Prop := forall p, filter_policy opt = Some p ->
  exists keys_ok filter_of, FilterPolicyOk p keys_ok filter_of /\
    (forall g, g `sublist_of` (fst <$> kv) -> g = [] \/ keys_ok g) /\
    (forall g x y, keys_ok g -> y ∈ g -> same x y -> KeyMayMatch p x (filter_of g) = true).
Context (Hgap : no_gap) (Hfind : filter_finds).

Lemma placed_offsets off l ks :
  placed off l -> offsets_from off (((fun b => (d_off b, fst <$> d_kv b)) <$> l) ++ [(off + blen (laid_out l), ks)]).
Proof.
  clear. revert off. induction l as [|b l IH]; intros off Hp; cbn.
  - split; [|done]. change (laid_out []) with (@nil Z). rewrite blen_nil. lia.
  - destruct Hp as [-> Hp]. split; [lia|]. change (laid_out (b :: l)) with (d_seg b ++ laid_out l).
    rewrite blen_app, Z.add_assoc. specialize (IH _ Hp). pose proof (blen_nonneg (d_seg b)).
    destruct l as [|b' l]; cbn in *; destruct IH; split; auto; lia.
Qed.
Lemma filter_keys : all_keys (filter_calls bs (blen (laid_out bs)) []) = fst <$> kv.
Proof.
  pose proof Htf as [Hkv _ _ _]. unfold all_keys, filter_calls. rewrite fmap_app, concat_app. cbn.
  rewrite app_nil_r, <- Hkv. clear. induction bs as [|b l IH]; [done|]. cbn. by rewrite fmap_app, IH.
Qed.

Lemma filter_passes p j b x y w :
  filter_policy opt = Some p -> bs !! j = Some b -> (y, w) ∈ d_kv b -> same x y ->
  FilterBlockReader.KeyMayMatch (FilterBlockReader.new p (filter_contents_of bs p)) (d_off b) x = true.
Proof.
  intros Hp Hj Hin Hs. destruct (Hfind p Hp) as (okk & fof & Hpol & Hok & Hm).
  pose proof Htf as [_ _ Hplaced _]. specialize (Hfilter p Hp).
  destruct (filter_block_window p okk fof (filter_calls bs (blen (laid_out bs)) []) (d_off b)
    (fst <$> d_kv b) y) as (g & Hg & Hy & Hk).
  - done.
  - by rewrite filter_keys.
  - apply (placed_offsets 0 bs []). done.
  - unfold filter_calls. apply elem_of_app. left. apply list_elem_of_fmap. exists b.
    split; [done|]. by eapply list_elem_of_lookup_2.
  - apply list_elem_of_fmap. by exists (y, w).
  - fold (filter_contents_of bs p). lia.
  - fold (filter_contents_of bs p) in Hk. rewrite Hk. by eapply Hm.
Qed.

Lemma entry_of_next j b :
  bs !! j = Some b ->
  match entry_from (index_all opt bs) (block_of bs) (start (index_all opt bs) (block_of bs) (S j)) with
  | Some n => exists b' v, bs !! S j = Some b' /\ kv !! n = Some (first_key (d_kv b'), v)
  | None => True
  end.
Proof.
  intros Hj. pose proof Htf as [Hkv Hfine Hplaced _].
  pose proof (table_blocks opt Hopt valid bs kv Hkv Hfine Hplaced He) as Hbl.
  unfold entry_from. destruct (Nat.ltb_spec (start (index_all opt bs) (block_of bs) (S j))
    (length (flat (index_all opt bs) (block_of bs)))) as [Hlt|]; [|done].
  unfold start, flat in *. rewrite Hbl in *.
  destruct (bs !! S j) as [b'|] eqn:Eb.
  - exists b'. destruct (block_facts opt valid bs kv Hkv Hfine He _ _ Eb) as ([Hne _] & _).
    destruct (d_kv b') as [|[fk fv] g] eqn:Eg; [done|]. exists fv. split; [done|].
    assert (kv = concat (take (S j) (d_kv <$> bs)) ++ concat (drop (S j) (d_kv <$> bs))) as ->
      by (by rewrite <- concat_app, take_drop).
    rewrite lookup_app_r, Nat.sub_diag by lia. rewrite (drop_S _ (d_kv b') (S j)) by (by rewrite list_lookup_fmap, Eb).
    cbn [concat]. by rewrite Eg.
  - exfalso. apply lookup_ge_None in Eb. rewrite take_ge in Hlt by (rewrite length_fmap; lia). lia.
Qed.

(** When the block of the index entry holds nothing at or past [x], the entry that
    follows does not answer a lookup of [x]. *)
Lemma missed_next j b ik x :
  valid x -> bs !! j = Some b -> index_all opt bs !! j = Some (ik, handle_bytes (d_handle b)) ->
  first_ge c (index_all opt bs) x = Some j -> first_ge c (d_kv b) x = None -> forall A (arg : A) saver,
  match entry_from (index_all opt bs) (block_of bs) (start (index_all opt bs) (block_of bs) (S j)) with
  | Some i => exists y v, kv !! i = Some (y, v) /\ (arg = saver arg y v \/ arg = arg /\ ~ same x y)
  | None => arg = arg
  end.
Proof.
  intros Hx Hb Hent Ej Eq A arg saver. pose proof Htf as [Hkv Hfine Hplaced _].
  pose proof (entry_of_next j b Hb) as Hn. destruct (entry_from _ _ _) as [n|]; [|done].
  destruct Hn as (b' & v & Hb' & Hn). exists (first_key (d_kv b')), v. split; [done|]. right. split; [done|].
  destruct (index_all_lookup opt bs _ _ _ Hent) as (b0 & Hb0 & _ & Hik).
  assert (b0 = b) as -> by congruence. rewrite Hb' in Hik.
  destruct (block_facts opt valid bs kv Hkv Hfine He _ _ Hb) as ([Hne _] & _ & Hv & _).
  destruct (block_facts opt valid bs kv Hkv Hfine He _ _ Hb') as ([Hne' _] & _ & Hv' & _).
  destruct (last_key_of_elem _ Hne) as [vl Hl]. destruct (first_key_elem _ Hne') as [vf Hf].
  apply first_ge_Some in Ej as [(ik0 & v0 & Hent0 & Hge) _].
  assert (ik0 = ik) as -> by congruence.
  destruct (index_key_bounds opt valid bs kv Hkv Hfine He _ _ _ _ Hent Hb) as (Hvik & _).
  apply (Hgap (last_key_of (d_kv b)) (first_key (d_kv b')) x);
    [exact (valid_keys_elem _ _ _ _ Hv Hl)|exact (valid_keys_elem _ _ _ _ Hv' Hf)|done| | |].
  - apply list_elem_of_lookup in Hl as [i0 Hi0]. by eapply (proj1 (first_ge_None c (d_kv b) x) Eq).
  - rewrite <- Hik. by apply cmp_ge_le.
  - destruct He as [_ Hsk _ _]. rewrite <- Hkv in Hsk.
    eapply (sorted_groups c (d_kv <$> bs) j (S j)); [done|lia|by rewrite list_lookup_fmap, Hb
      |by rewrite list_lookup_fmap, Hb'|done..].
Qed.

Lemma InternalGet_ok {A} t file_level verify fill cache x (arg : A) saver :
  opened t -> cache_ok (Table.cache_id t) cache -> valid x ->
  exists arg' cache', Table.InternalGet file_level t verify fill cache x arg saver = (OK, arg', cache') /\
    cache_ok (Table.cache_id t) cache' /\
    match first_ge c kv x with
    | Some i => exists y v, kv !! i = Some (y, v) /\ (arg' = saver arg y v \/ arg' = arg /\ ~ same x y)
    | None => arg' = arg
    end.
Proof.
  intros Ht Hco Hx. pose proof Htf as [Hkv Hfine Hplaced _].
  pose proof (table_index_bounds opt Hopt valid bs kv Hkv Hfine Hplaced He) as Hib.
  assert (flat (index_all opt bs) (block_of bs) = kv) as Hflat.
  { unfold flat. by rewrite (table_blocks opt Hopt valid bs kv Hkv Hfine Hplaced He). }
  pose proof (index_at_pos t Ht) as Hi. pose proof (io_seek _ _ x Hx Hi) as Hi1.
  unfold Table.InternalGet.
  match type of Hi1 with at_pos _ _ _ ?s _ => set (iiter := s) in *; clearbody iiter end.
  rewrite (io_valid _ _ Hi1), (io_status _ _ Hi1).
  destruct (first_ge c (index_all opt bs) x) as [j|] eqn:Ej.
  2:{ rewrite bool_decide_eq_false_2 by (by intros [? [=]]). eexists _, _. split; [reflexivity|].
      split; [done|]. rewrite <- Hflat. by rewrite (seek_past c valid _ _ Hib x Hx Ej). }
  rewrite bool_decide_eq_true_2 by done.
  pose proof (io_entry _ _ Hi1) as Hent.
  set (hv := value iiter) in *. set (ik := key iiter) in *. clearbody hv ik.
  destruct (index_all_lookup opt bs _ _ _ Hent) as (b & Hb & -> & Hik).
  pose proof (block_of_handle opt Hopt valid bs kv Hkv Hfine Hplaced He _ _ Hb) as Hbo.
  pose proof (seek_block c valid _ _ Hib j ik _ x Hx Hent Ej) as Hseek. rewrite Hflat, Hbo in Hseek.
  pose proof (d_handle_ok opt Hopt valid bs kv Hkv Hfine Hplaced He _ _ Hb) as Hh.
  pose proof (missed_next j b ik x Hx Hb Hent Ej) as Hmiss.
  match goal with |- context [if ?s then (OK, arg, cache) else _] => destruct s eqn:Eskip end.
  - cbn [ok OK]. eexists _, _. split; [reflexivity|]. split; [done|]. rewrite Hseek.
    destruct (first_ge c (d_kv b) x) as [q|] eqn:Eq; [|by apply Hmiss].
    apply first_ge_Some in Eq as [(y & w & Hq & _) _]. exists y, w.
    pose proof (flat_lookup _ (block_of bs) j ik _ q Hent) as Hfl. rewrite Hflat, Hbo in Hfl.
    rewrite Hfl by (by eapply lookup_lt_Some). split; [done|]. right. split; [done|]. intros Hs.
    destruct Ht as [_ _ _ _ _ Hfil]. rewrite Hfil in Eskip.
    destruct (filter_policy opt) as [p|] eqn:Ep in Eskip; cbn [fmap option_fmap option_map] in Eskip; [|by rewrite andb_false_r in Eskip].
    rewrite <- (app_nil_r (handle_bytes _)), BlockHandle_decode in Eskip by done.
    cbn [ok OK andb d_handle offset_] in Eskip.
    rewrite (filter_passes p j b x y w Ep Hb) in Eskip;
      [by rewrite andb_false_r in Eskip|by eapply list_elem_of_lookup_2|done].
  - destruct (BlockReader_ok t verify fill cache j b Ht Hco Hb) as (it & cache' & -> & Hit & Hco').
    pose proof (io_seek _ _ x Hx Hit) as Hit1.
    match type of Hit1 with at_pos _ _ _ ?s _ => set (biter := s) in *; clearbody biter end.
    rewrite (io_valid _ _ Hit1), (io_status _ _ Hit1). cbn [ok OK].
    eexists _, _. split; [reflexivity|]. split; [done|]. rewrite Hseek.
    destruct (first_ge c (d_kv b) x) as [q|] eqn:Eq.
    + rewrite bool_decide_eq_true_2 by done. pose proof (io_entry _ _ Hit1) as Hq.
      exists (key biter), (value biter). split; [|by left].
      pose proof (flat_lookup _ (block_of bs) j ik _ q Hent) as Hfl. rewrite Hflat, Hbo in Hfl.
      by rewrite Hfl by (by eapply lookup_lt_Some).
    + rewrite bool_decide_eq_false_2 by (by intros [? [=]]). by apply Hmiss.
Qed.
End Open.
