(* ===== verification/TableSpec.v ===== *)
(** * Sorted table files: what is promised

    Building a table from sorted entries, opening the file and looking keys up or
    iterating gives the entries back, for every comparator, filter policy, compressor
    and block cache that keep their contracts; instantiated with internal keys and the
    Bloom filter, as the database uses tables. *)

From stdpp Require Import gmap.
From S2P Require Import Prelude Coding Status Crc32c Comparator DbFormat Bloom Iterator Block.
From S2P Require Import BlockProofs FilterBlock TableFormat TwoLevelIterator Table TableProofs.
From S2P Require Import TableReader.

(** A cache that holds nothing under the identifier it hands out next. *)
Definition fresh_for `{BlockCacheOk C} (cache : option C) : Prop :=
  forall c0 id c1 off, cache = Some c0 -> NewId c0 = (id, c1) ->
    cache_contents c1 (EncodeFixed64 id ++ EncodeFixed64 off) = None.

Section Spec.
Context `{HS : Snappy} {HSok : SnappyOk} {C : Type} `{HC : BlockCache C} {HCok : BlockCacheOk C}.
Context (opt : Options) (Hopt : options_ok opt).
Abbreviation c := (comparator opt).
Context (valid : bytes -> Prop) {Hc : ComparatorOk c valid} {Hshort : ShortKeys c valid}.
Context (Hvb : forall x, valid x -> bytes_ok x).
Context (kv : list (bytes * bytes)) (He : entries_ok c valid kv).
Context (Hname : forall p, filter_policy opt = Some p -> name_ok p).

(** The file the builder finishes, and the table it opens to. *)
Lemma build_and_open :
  exists r, TableBuilder.add_entries (TableBuilder.new opt []) kv = Some r /\
  (filter_bytes r + 5 < 2 ^ 32 -> exists r' bs footer,
     TableBuilder.Finish r = Some (OK, r') /\
     TableBuilder.FileSize r' = blen (TableBuilder.file r') /\ TableBuilder.NumEntries r' = blen kv /\
     table_file opt (TableBuilder.file r') bs kv footer /\
     (forall p, filter_policy opt = Some p -> blen (filter_contents_of bs p) + 5 < 2 ^ 32)).
Proof.
  pose proof (kv_small opt valid kv He) as Hs. pose proof (blen_nonneg kv).
  destruct (add_entries_building opt Hopt kv _ _ _ _ (new_building opt)) as (r & bs & cur & HA & HB);
    [cbn [app]; lia|]. cbn [app] in HB. exists r. split; [done|]. intros Hf.
  destruct (Finish_file opt Hopt r bs cur kv HB) as (r' & bs' & footer & HF & Htf & Hsz & Hn & Hfl).
  - lia.
  - lia.
  - intros bs' Hkv Hfine Hpl. pose proof (index_size opt Hopt valid bs' kv Hkv Hfine Hpl He). lia.
  - intros bs' Hkv Hfine Hfl.
    destruct (metaindex_facts opt Hopt valid bs' kv Hkv Hfine He Hname) as [Hm _]; [|lia].
    intros p Hp. specialize (Hfl p Hp). lia.
  - exists r', bs', footer. split_and!; try done. intros p Hp. specialize (Hfl p Hp). lia.
Qed.

(** Opening the file: the cache stays coherent with the table. *)
Lemma open_fresh f bs footer (cache : option C) :
  table_file opt f bs kv footer ->
  (forall p, filter_policy opt = Some p -> blen (filter_contents_of bs p) + 5 < 2 ^ 32) ->
  fresh_for cache ->
  exists t cache', Table.Open opt cache f (blen f) = (OK, Some t, cache') /\
    opened opt f bs footer t /\ cache_ok opt bs (Table.cache_id t) cache'.
Proof.
  intros Htf Hf Hfresh.
  destruct (Open_opened opt Hopt valid Hvb f bs kv footer Htf He Hname Hf cache)
    as (t & cache' & HO & Ht & Hid).
  exists t, cache'. split; [done|]. split; [done|].
  destruct cache as [c0|], cache' as [c1|]; try done.
  intros j b blk _ Hin. unfold cache_key in Hin. by rewrite (Hfresh c0 _ c1 _ eq_refl Hid) in Hin.
Qed.

(** Building, opening and looking keys up. *)
Lemma lookup_built (same : bytes -> bytes -> Prop)
  (Hgap : no_gap opt valid same) (Hfind : filter_finds opt kv same) :
  exists r, TableBuilder.add_entries (TableBuilder.new opt []) kv = Some r /\
  (filter_bytes r + 5 < 2 ^ 32 -> exists r', TableBuilder.Finish r = Some (OK, r') /\
     TableBuilder.FileSize r' = blen (TableBuilder.file r') /\ TableBuilder.NumEntries r' = blen kv /\
     forall cache : option C, fresh_for cache -> exists t cache' inv,
       Table.Open opt cache (TableBuilder.file r') (TableBuilder.FileSize r') = (OK, Some t, cache') /\
       inv cache' /\
       forall A file_level verify fill cache x (arg : A) saver, inv cache -> valid x ->
         exists arg' cache'',
           Table.InternalGet file_level t verify fill cache x arg saver = (OK, arg', cache'') /\
           inv cache'' /\
           match first_ge c kv x with
           | Some i => exists y v, kv !! i = Some (y, v) /\
                         (arg' = saver arg y v \/ (arg' = arg /\ ~ same x y))
           | None => arg' = arg
           end).
Proof.
  destruct build_and_open as (r & HA & Hrest). exists r. split; [done|]. intros Hf.
  destruct (Hrest Hf) as (r' & bs & footer & HF & Hsz & Hn & Htf & Hfl). exists r'.
  split_and!; [done..|]. intros cache Hfresh. rewrite Hsz.
  destruct (open_fresh _ bs footer cache Htf Hfl Hfresh) as (t & cache' & HO & Ht & Hco).
  exists t, cache', (cache_ok opt bs (Table.cache_id t)). split; [done|]. split; [done|].
  intros. by eapply InternalGet_ok.
Qed.

(** C12: Point lookups in a table: building a table from sorted entries succeeds without
    a failed assertion, the finished file has the size and the number of entries
    reported, and opening it gives a table in which a lookup of any key, with or without
    per-block filters, checksum verification and caching, ends with status OK and hands
    to the saver the first entry at or past the key, unless that entry does not answer
    the lookup; an invariant of the block cache is kept by every lookup. *)
Theorem table_lookup (same : bytes -> bytes -> Prop)
  (Hgap : no_gap opt valid same) (Hfind : filter_finds opt kv same) :
  exists r, TableBuilder.add_entries (TableBuilder.new opt []) kv = Some r /\
  (filter_bytes r + 5 < 2 ^ 32 -> exists r', TableBuilder.Finish r = Some (OK, r') /\
     TableBuilder.FileSize r' = blen (TableBuilder.file r') /\ TableBuilder.NumEntries r' = blen kv /\
     forall cache : option C, fresh_for cache -> exists t cache' inv,
       Table.Open opt cache (TableBuilder.file r') (TableBuilder.FileSize r') = (OK, Some t, cache') /\
       inv cache' /\
       forall A file_level verify fill cache x (arg : A) saver, inv cache -> valid x ->
         exists arg' cache'',
           Table.InternalGet file_level t verify fill cache x arg saver = (OK, arg', cache'') /\
           inv cache'' /\
           match first_ge c kv x with
           | Some i => exists y v, kv !! i = Some (y, v) /\
                         (arg' = saver arg y v \/ (arg' = arg /\ ~ same x y))
           | None => arg' = arg
           end).
Proof. exact (lookup_built same Hgap Hfind). Qed.

(** C13: Scanning a table: the iterator of the opened table keeps the iterator contract on
    the entries the table was built from; in particular SeekToFirst and Next yield them
    all, in order. *)
Theorem table_scan (fuel : nat) (verify fill : bool) (Hfuel : (length kv < fuel)%nat) :
  exists r, TableBuilder.add_entries (TableBuilder.new opt []) kv = Some r /\
  (filter_bytes r + 5 < 2 ^ 32 -> exists r', TableBuilder.Finish r = Some (OK, r') /\
     forall cache : option C, fresh_for cache -> exists t cache',
       Table.Open opt cache (TableBuilder.file r') (TableBuilder.FileSize r') = (OK, Some t, cache') /\
       let ops := TwoLevelIterator_ops (Table.read_block_entry t verify fill) fuel in
       @at_pos _ ops c valid kv (Table.NewIterator t cache') None /\
       @collect _ ops (length kv) (@SeekToFirst _ ops (Table.NewIterator t cache')) = kv).
Proof.
  destruct build_and_open as (r & HA & Hrest). exists r. split; [done|]. intros Hf.
  destruct (Hrest Hf) as (r' & bs & footer & HF & Hsz & Hn & Htf & Hfl). exists r'.
  split; [done|]. intros cache Hfresh. rewrite Hsz.
  destruct (open_fresh _ bs footer cache Htf Hfl Hfresh) as (t & cache' & HO & Ht & Hco).
  exists t, cache'. split; [done|]. cbv zeta.
  pose proof (table_iterator opt Hopt valid Hvb _ bs kv footer Htf He t verify fill cache' fuel
    Ht Hco Hfuel) as Hat. split; [done|]. exact (@collect_all _ _ c valid kv _ _ _ None Hat).
Qed.
End Spec.

(** ** A cache that remembers everything *)

Record MapCache := { mc_last_id : Z; mc_blocks : gmap (list Z) Block }.
Definition empty_cache : MapCache := {| mc_last_id := 0; mc_blocks := ∅ |}.
#[export] Instance MapCache_ops : BlockCache MapCache := {
  NewId c := (u64 (mc_last_id c + 1), {| mc_last_id := mc_last_id c + 1; mc_blocks := mc_blocks c |});
  CacheLookup c k := (mc_blocks c !! k, c);
  CacheInsert c k b _ := {| mc_last_id := mc_last_id c; mc_blocks := <[k := b]> (mc_blocks c) |};
}.
#[export] Instance MapCache_ok : BlockCacheOk MapCache.
Proof.
  refine {| cache_contents := fun c k => mc_blocks c !! k |}.
  - intros c k b c' E. cbn in E. by injection E.
  - intros c k r c' k' b' E. cbn in E. by injection E as _ <-.
  - intros c k b n k' b' E. cbn in E. apply lookup_insert_Some in E as [[-> ->]|[_ E]]; auto.
  - intros c id c' k b E. cbn in E. injection E as <- <-. split; [apply u64_range|done].
Defined.

(** ** Tables of internal keys *)

(** How the database sets up its tables. *)
Definition db_options (ucmp : Comparator) (addr block_size restart_interval compression : Z)
    (policy : option FilterPolicy) : Options :=
  {| comparator := InternalKeyComparator ucmp; comparator_addr := addr; Table.block_size := block_size;
     Table.block_restart_interval := restart_interval; Table.compression := compression;
     filter_policy := InternalFilterPolicy <$> policy |}.

Definition same_user_key (x y : bytes) : Prop := ExtractUserKey x = ExtractUserKey y.

Lemma internal_no_gap ucmp uvalid (Hc : ComparatorOk ucmp uvalid) addr bsz ri comp policy :
  no_gap (db_options ucmp addr bsz ri comp policy) (internal_valid uvalid) same_user_key.
Proof. intros s l x Hs Hl Hx Hsx Hle _. by eapply (internal_sep_gap ucmp uvalid Hc s l x). Qed.

(** A user policy finds the user keys it was built from. *)
Definition policy_finds (kv : list (bytes * bytes)) (p : FilterPolicy) : Prop :=
  exists keys_ok filter_of, FilterPolicyOk p keys_ok filter_of /\
    forall g, g `sublist_of` (fst <$> kv) -> g = [] \/ keys_ok (map ExtractUserKey g).

Lemma internal_filter_finds ucmp addr bsz ri comp policy kv :
  (forall p, policy = Some p -> policy_finds kv p) ->
  filter_finds (db_options ucmp addr bsz ri comp policy) kv same_user_key.
Proof.
  intros Hp q Hq. cbn in Hq. destruct policy as [p|]; [|done]. injection Hq as <-.
  destruct (Hp p eq_refl) as (okk & fo & Hok & Hg).
  exists (fun g => okk (map ExtractUserKey g)), (fun g => fo (map ExtractUserKey g)).
  split; [by apply InternalFilterPolicy_ok|]. split; [done|].
  intros g x y Hgk Hin Hs. cbn. apply (@no_false_negative p okk fo Hok); [done|].
  rewrite Hs. apply list_elem_of_In, in_map. by apply list_elem_of_In.
Qed.

(** ** An example *)

(** A comparator whose keys are looked up by equality. *)
Lemma plain_no_gap opt valid (Hc : ComparatorOk (comparator opt) valid) : no_gap opt valid eq.
Proof.
  intros s l x Hs Hl Hx _ Hle Hsl ->. pose proof (sep_upper s l Hs Hl Hsl) as Hup.
  apply (cmp_antisym _ _ (sep_valid s l Hs Hl) Hl) in Hup. lia.
Qed.
Lemma bloom_filter_finds opt kv bits_per_key :
  filter_policy opt = Some (BloomPolicy (mkBloomFilterPolicy bits_per_key)) ->
  blen kv * u64 bits_per_key <= 2 ^ 64 - 8 -> filter_finds opt kv eq.
Proof.
  intros Hp Hsz p Hp'. rewrite Hp in Hp'. injection Hp' as <-.
  set (b := mkBloomFilterPolicy bits_per_key).
  pose proof (BloomPolicy_ok b (mkBloomFilterPolicy_ok bits_per_key)) as Hok.
  exists (bloom_keys_ok b), (bloom_array b). split; [done|]. split.
  - intros g Hg%sublist_length. right. unfold bloom_keys_ok. rewrite length_fmap in Hg.
    cbn [bits_per_key_ b mkBloomFilterPolicy]. unfold blen in *. pose proof (u64_range bits_per_key) as [H0 _].
    apply Nat2Z.inj_le, (Z.mul_le_mono_nonneg_r _ _ (u64 bits_per_key)) in Hg; [lia|done].
  - intros g x y Hg Hin ->. by apply (@no_false_negative _ _ _ Hok).
Qed.

Definition example_options : Options :=
  {| comparator := BytewiseComparator; comparator_addr := 0; Table.block_size := 30;
     Table.block_restart_interval := 2; Table.compression := kNoCompression;
     filter_policy := Some (BloomPolicy (mkBloomFilterPolicy 10)) |}.
Definition example_kv : list (bytes * bytes) :=
  [([97], [1]); ([97; 98], [2; 2]); ([97; 99], []); ([99; 1; 1], [4]); ([99; 1; 2], [5]); ([122], [6])].
Lemma example_entries_ok : entries_ok BytewiseComparator bytes_ok example_kv.
Proof.
  split; [|repeat constructor|unfold entries_bytes, bytes_ok|by vm_compute]; repeat (constructor || split); done.
Qed.
Lemma example_name p : filter_policy example_options = Some p -> name_ok p.
Proof. intros [= <-]. split; [repeat constructor; done|by vm_compute]. Qed.
Lemma example_fresh : fresh_for (Some empty_cache).
Proof. intros c0 id c1 off [= <-] [= <- <-]. done. Qed.

(** The filter block of the example is small. *)
Lemma example_filter r :
  TableBuilder.add_entries (H := mem_WritableFile) (H0 := no_snappy)
    (TableBuilder.new example_options []) example_kv = Some r -> filter_bytes (HS := no_snappy) r + 5 < 2 ^ 32.
Proof.
  intros E. change (filter_bytes (HS := no_snappy) r) with
    (from_option (filter_bytes (HS := no_snappy)) 0 (Some r)). rewrite <- E. by vm_compute.
Qed.

Lemma table_lookup_witness :
  exists r r' t cache' arg cache'',
    TableBuilder.add_entries (H := mem_WritableFile) (H0 := no_snappy)
      (TableBuilder.new example_options []) example_kv = Some r /\
    TableBuilder.Finish (H0 := no_snappy) r = Some (OK, r') /\
    Table.Open (H0 := no_snappy) example_options (Some empty_cache) (TableBuilder.file r') (TableBuilder.FileSize r')
      = (OK, Some t, cache') /\
    Table.InternalGet (H0 := no_snappy) false t true true cache' [99; 1; 1] None (fun _ k v => Some (k, v))
      = (OK, arg, cache'') /\ arg = Some ([99; 1; 1], [4]).
Proof.
  destruct (@table_lookup no_snappy no_snappy_ok MapCache _ _ example_options ltac:(split; [done|by left])
    bytes_ok BytewiseComparator_ok Bytewise_ShortKeys (fun x Hx => Hx) example_kv example_entries_ok
    example_name eq (plain_no_gap example_options bytes_ok BytewiseComparator_ok)
    (bloom_filter_finds example_options example_kv 10 eq_refl ltac:(by vm_compute))) as (r & HA & H).
  destruct (H (example_filter r HA)) as (r' & HF & _ & _ & HO).
  destruct (HO (Some empty_cache) example_fresh) as (t & cache' & inv & HOp & Hi & Hg).
  destruct (Hg _ false true true cache' [99; 1; 1] None (fun _ k v => Some (k, v)) Hi)
    as (arg & c'' & HG & _ & Hres); [repeat constructor; done|].
  exists r, r', t, cache', arg, c''. split; [exact HA|]. split; [exact HF|]. split; [exact HOp|].
  split; [exact HG|]. destruct Hres as (y & v & [= <- <-] & [->|[_ Hne]]); [done|by destruct Hne].
Defined.

Lemma table_scan_witness :
  exists r r' t cache',
    TableBuilder.add_entries (H := mem_WritableFile) (H0 := no_snappy)
      (TableBuilder.new example_options []) example_kv = Some r /\
    TableBuilder.Finish (H0 := no_snappy) r = Some (OK, r') /\
    Table.Open (H0 := no_snappy) example_options (Some empty_cache) (TableBuilder.file r') (TableBuilder.FileSize r')
      = (OK, Some t, cache') /\
    let ops := TwoLevelIterator_ops (Table.read_block_entry (H0 := no_snappy) t true true) 7 in
    @collect _ ops 6 (@SeekToFirst _ ops (Table.NewIterator t cache')) = example_kv.
Proof.
  destruct (@table_scan no_snappy no_snappy_ok MapCache _ _ example_options ltac:(split; [done|by left])
    bytes_ok BytewiseComparator_ok Bytewise_ShortKeys (fun x Hx => Hx) example_kv example_entries_ok
    example_name 7%nat true true ltac:(cbn; lia)) as (r & HA & H).
  destruct (H (example_filter r HA)) as (r' & HF & HO).
  destruct (HO (Some empty_cache) example_fresh) as (t & cache' & HOp & _ & Hc).
  exists r, r', t, cache'. split; [exact HA|]. split; [exact HF|]. split; [exact HOp|exact Hc].
Defined.
