(* ===== verification/WriteBatch.v ===== *)
(** * Write batches and guard selection

    Models [src/pebblesdb/src/db/write_batch.cc], [write_batch_internal.h],
    [include/pebblesdb/write_batch.h], and [MurmurHash3_x86_32] of
    [src/pebblesdb/src/db/murmurhash3.cc], which decides the keys that become
    guards of the fragmented log-structured merge tree.  The memtable and the
    version a batch is inserted into are parameters. *)

From S2P Require Import Prelude Coding Status DbFormat.

(** ** MurmurHash3_x86_32 *)

Definition rotl32 (x r : Z) : Z := Z.lor (u32 (Z.shiftl x r)) (Z.shiftr x (32 - r)).

Definition fmix32 (h : Z) : Z :=
  let h := Z.lxor h (Z.shiftr h 16) in
  let h := u32 (h * 0x85ebca6b) in
  let h := Z.lxor h (Z.shiftr h 13) in
  let h := u32 (h * 0xc2b2ae35) in
  Z.lxor h (Z.shiftr h 16).

Definition murmur_c1 : Z := 0xcc9e2d51.
Definition murmur_c2 : Z := 0x1b873593.

Definition murmur_mix (k1 : Z) : Z := u32 (rotl32 (u32 (k1 * murmur_c1)) 15 * murmur_c2).

(** The body: [n] blocks of four bytes from the front of [data]; the tail is what
    is left. *)
Fixpoint murmur_body (n : nat) (h1 : Z) (data : bytes) : Z * bytes :=
  match n with
  | O => (h1, data)
  | S n =>
      let h1 := Z.lxor h1 (murmur_mix (DecodeFixed32 data)) in
      let h1 := rotl32 h1 13 in
      murmur_body n (u32 (h1 * 5 + 0xe6546b64)) (drop 4 data)
  end.

Definition murmur_tail (len : Z) (h1 : Z) (tail : bytes) : Z :=
  let r := Z.land len 3 in
  if r =? 0 then h1
  else
    let k1 := 0 in
    let k1 := if 3 <=? r then Z.lxor k1 (Z.shiftl (at_ tail 2) 16) else k1 in
    let k1 := if 2 <=? r then Z.lxor k1 (Z.shiftl (at_ tail 1) 8) else k1 in
    let k1 := Z.lxor k1 (at_ tail 0) in
    Z.lxor h1 (murmur_mix k1).

(** [len] is the size of the key; it is below 2^31 ([int]). *)
Definition MurmurHash3_x86_32 (key : bytes) (seed : Z) : Z :=
  let len := blen key in
  let '(h1, tail) := murmur_body (Z.to_nat (len / 4)) seed key in
  let h1 := murmur_tail len h1 tail in
  fmix32 (Z.lxor h1 len).

(** ** WriteBatch *)

(** [rep_]: sequence, count and records. *)
Definition WriteBatch := bytes.

Definition kHeader : Z := 12.
Definition Clear : WriteBatch := replicate (Z.to_nat kHeader) 0.

(** Assignment of a fixed-width field inside [rep_]. *)
Definition overwrite (rep : bytes) (off : nat) (field : bytes) : bytes :=
  take off rep ++ field ++ drop (off + length field) rep.

(** [int] of a [uint32_t]. *)
Definition s32 (x : Z) : Z := if u32 x <? 2 ^ 31 then u32 x else u32 x - 2 ^ 32.

Definition Count (b : WriteBatch) : Z := s32 (DecodeFixed32 (drop 8 b)).
Definition SetCount (b : WriteBatch) (n : Z) : WriteBatch := overwrite b 8 (EncodeFixed32 (u32 n)).
Definition Sequence (b : WriteBatch) : Z := DecodeFixed64 b.
Definition SetSequence (b : WriteBatch) (seq : Z) : WriteBatch := overwrite b 0 (EncodeFixed64 seq).
Definition Contents (b : WriteBatch) : bytes := b.
Definition ByteSize (b : WriteBatch) : Z := blen b.
Definition SetContents (contents : bytes) : WriteBatch := contents.

Definition Put (b : WriteBatch) (key value : bytes) : WriteBatch :=
  let b := SetCount b (Count b + 1) in
  let b := b ++ [kTypeValue] in
  PutLengthPrefixedSlice (PutLengthPrefixedSlice b key) value.

Definition PutGuard (b : WriteBatch) (key : bytes) (level : Z) : WriteBatch :=
  let b := SetCount b (Count b + 1) in
  let b := b ++ [kTypeGuard] in
  PutVarint32 (PutLengthPrefixedSlice b key) (u32 level).

Definition Delete (b : WriteBatch) (key : bytes) : WriteBatch :=
  let b := SetCount b (Count b + 1) in
  let b := b ++ [kTypeDeletion] in
  PutLengthPrefixedSlice b key.

Definition Append (dst src : WriteBatch) : WriteBatch :=
  SetCount dst (Count dst + Count src) ++ drop (Z.to_nat kHeader) src.

(** [WriteBatch::Handler]. *)
Class Handler (H : Type) := {
  HandlePut : H -> bytes -> bytes -> H;
  HandleDelete : H -> bytes -> H;
  HandleGuard : H -> bytes -> Z -> H;
}.

Section Iterate.
Context {H : Type} `{Handler H}.

(** One record of the loop of [Iterate]: the handler and the rest of the input, or
    the status of the failing return. *)
Definition Iterate_record (h : H) (input : bytes) : (H * bytes) + (Status * H) :=
  let tag := schar (at_ input 0) in
  let input := drop 1 input in
  if tag =? kTypeValue then
    match GetLengthPrefixedSlice input with
    | Some (key, input) =>
        match GetLengthPrefixedSlice input with
        | Some (value, input) => inl (HandlePut h key value, input)
        | None => inr (Corruption (str "bad WriteBatch Put"), h)
        end
    | None => inr (Corruption (str "bad WriteBatch Put"), h)
    end
  else if tag =? kTypeDeletion then
    match GetLengthPrefixedSlice input with
    | Some (key, input) => inl (HandleDelete h key, input)
    | None => inr (Corruption (str "bad WriteBatch Delete"), h)
    end
  else if tag =? kTypeGuard then
    match GetLengthPrefixedSlice input with
    | Some (key, input) =>
        match GetVarint32 input with
        | Some (level, input) => inl (HandleGuard h key level, input)
        | None => inr (Corruption (str "bad WriteBatch Guard"), h)
        end
    | None => inr (Corruption (str "bad WriteBatch Guard"), h)
    end
  else inr (Corruption (str "unknown WriteBatch tag"), h).

(** [while (!input.empty())]; every round consumes the tag byte, so the size of the
    input is enough fuel.  [None]: out of fuel. *)
Fixpoint Iterate_loop (fuel : nat) (count found : Z) (h : H) (input : bytes)
    : option (Status * H) :=
  match input with
  | [] => Some (if found =? count then OK else Corruption (str "WriteBatch has wrong count"), h)
  | _ =>
      match fuel with
      | O => None
      | S fuel =>
          match Iterate_record h input with
          | inl (h, input) => Iterate_loop fuel count (found + 1) h input
          | inr x => Some x
          end
      end
  end.

Definition Iterate (b : WriteBatch) (h : H) : option (Status * H) :=
  if blen b <? kHeader then Some (Corruption (str "malformed WriteBatch (too small)"), h)
  else Iterate_loop (length b) (Count b) 0 h (drop (Z.to_nat kHeader) b).
End Iterate.

(** ** Inserting a batch *)

(** [MemTable::Add] and [Version::AddToCompleteGuards] of the objects a batch is
    inserted into. *)
Class InsertTarget (M V : Type) := {
  MemTable_Add : M -> Z -> Z -> bytes -> bytes -> M;
  AddToCompleteGuards : V -> bytes -> Z -> V;     (** internal key and level *)
}.

Section Inserter.
Context {M V : Type} `{InsertTarget M V}.

Record MemTableInserter := { sequence_ : Z; mem_ : M; version_ : option V }.

#[export] Instance MemTableInserter_Handler : Handler MemTableInserter := {
  HandlePut h key value :=
    {| sequence_ := u64 (sequence_ h + 1);
       mem_ := MemTable_Add (mem_ h) (sequence_ h) kTypeValue key value; version_ := version_ h |};
  HandleDelete h key :=
    {| sequence_ := u64 (sequence_ h + 1);
       mem_ := MemTable_Add (mem_ h) (sequence_ h) kTypeDeletion key []; version_ := version_ h |};
  HandleGuard h key level :=
    match version_ h with
    | None => h
    | Some v =>
        let ikey := EncodeInternalKey
          {| user_key := key; sequence := sequence_ h; type := kTypeValue |} in
        {| sequence_ := u64 (sequence_ h + 1); mem_ := mem_ h;
           version_ := Some (AddToCompleteGuards v ikey level) |}
    end;
}.

Definition InsertInto (b : WriteBatch) (memtable : M) : option (Status * MemTableInserter) :=
  Iterate b {| sequence_ := Sequence b; mem_ := memtable; version_ := None |}.
Definition InsertIntoVersion (b : WriteBatch) (memtable : M) (version : V)
    : option (Status * MemTableInserter) :=
  Iterate b {| sequence_ := Sequence b; mem_ := memtable; version_ := Some version |}.
End Inserter.

(** ** Choosing guards *)

Definition top_level_bits : Z := 27.
Definition bit_decrement : Z := 2.
Definition murmur_seed : Z := 42.
Definition set_mask (num_bits : Z) : Z := Z.shiftl 1 num_bits - 1.

Record GuardInserter := { new_batch : WriteBatch; g_sequence_ : Z; num_guards : list Z }.

(** [for (j = i; j < kNumLevels; j++) { new_batch->PutGuard(key, j); num_guards\[j\]++; }] *)
Fixpoint put_guards (fuel : nat) (j : Z) (key : bytes) (g : GuardInserter) : GuardInserter :=
  match fuel with
  | O => g
  | S fuel =>
      if j <? kNumLevels then
        put_guards fuel (j + 1) key
          {| new_batch := PutGuard (new_batch g) key j; g_sequence_ := g_sequence_ g;
             num_guards := alter (fun n => n + 1) (Z.to_nat j) (num_guards g) |}
      else g
  end.

(** The loop over the levels, from the top one with the longest mask. *)
Fixpoint find_level (fuel : nat) (i num_bits hash_result : Z) : option Z :=
  match fuel with
  | O => None
  | S fuel =>
      if i <? kNumLevels then
        let bit_mask := set_mask num_bits in
        if Z.land hash_result bit_mask =? bit_mask then Some i
        else find_level fuel (i + 1) (u32 (num_bits - bit_decrement)) hash_result
      else None
  end.

Definition GuardInserter_Put (g : GuardInserter) (key value : bytes) : GuardInserter :=
  let hash_result := MurmurHash3_x86_32 key murmur_seed in
  let g :=
    match find_level (Z.to_nat kNumLevels) 0 top_level_bits hash_result with
    | Some i => put_guards (Z.to_nat kNumLevels) i key g
    | None => g
    end in
  {| new_batch := new_batch g; g_sequence_ := u64 (g_sequence_ g + 1); num_guards := num_guards g |}.

#[export] Instance GuardInserter_Handler : Handler GuardInserter := {
  HandlePut := GuardInserter_Put;
  HandleDelete g key :=
    {| new_batch := new_batch g; g_sequence_ := u64 (g_sequence_ g + 1); num_guards := num_guards g |};
  HandleGuard g key level := g;      (** [assert(0)]: client batches hold no guards *)
}.

Definition SetGuards (b new_b : WriteBatch) : option (Status * GuardInserter) :=
  Iterate b {| new_batch := new_b; g_sequence_ := Sequence b;
               num_guards := replicate (Z.to_nat kNumLevels) 0 |}.

(** ** The records of a batch *)

Inductive wb_op :=
| OpPut (key value : bytes)
| OpDelete (key : bytes)
| OpGuard (key : bytes) (level : Z).

Definition apply_op (b : WriteBatch) (op : wb_op) : WriteBatch :=
  match op with
  | OpPut k v => Put b k v
  | OpDelete k => Delete b k
  | OpGuard k l => PutGuard b k l
  end.
Definition handle_op {H} `{Handler H} (h : H) (op : wb_op) : H :=
  match op with
  | OpPut k v => HandlePut h k v
  | OpDelete k => HandleDelete h k
  | OpGuard k l => HandleGuard h k l
  end.
Definition op_ok (op : wb_op) : Prop :=
  match op with
  | OpPut k v => lp_ok k /\ lp_ok v
  | OpDelete k => lp_ok k
  | OpGuard k l => lp_ok k /\ is_u32 l
  end.
Definition op_bytes (op : wb_op) : bytes :=
  match op with
  | OpPut k v => [kTypeValue] ++ LengthPrefixed k ++ LengthPrefixed v
  | OpDelete k => [kTypeDeletion] ++ LengthPrefixed k
  | OpGuard k l => [kTypeGuard] ++ LengthPrefixed k ++ EncodeVarint32 l
  end.
Definition ops_bytes (ops : list wb_op) : bytes := concat (op_bytes <$> ops).

(** A batch that holds the records [ops] under the sequence number [seq]. *)
Definition batch_of (seq : Z) (ops : list wb_op) : WriteBatch :=
  EncodeFixed64 seq ++ EncodeFixed32 (blen ops) ++ ops_bytes ops.
Definition ops_ok (seq : Z) (ops : list wb_op) : Prop :=
  is_u64 seq /\ blen ops < 2 ^ 31 /\ Forall op_ok ops.

Lemma s32_small x : 0 <= x < 2 ^ 31 -> s32 x = x.
Proof.
  intros Hx. unfold s32. rewrite u32_small by (change (2 ^ 31) with 2147483648 in Hx; ulia).
  by rewrite (proj2 (Z.ltb_lt _ _)) by lia.
Qed.

Lemma Clear_batch : Clear = batch_of 0 [].
Proof. done. Qed.

Lemma Count_batch seq ops : ops_ok seq ops -> Count (batch_of seq ops) = blen ops.
Proof.
  intros (Hs & Hl & _). unfold Count, batch_of. pose proof (blen_nonneg ops).
  rewrite drop_app_length' by (by rewrite EncodeFixed64_length).
  rewrite DecodeFixed32_encode by (change (2 ^ 31) with 2147483648 in Hl; ulia).
  by apply s32_small.
Qed.

Lemma Sequence_batch seq ops : is_u64 seq -> Sequence (batch_of seq ops) = seq.
Proof. intros. by apply DecodeFixed64_encode. Qed.

Lemma SetSequence_batch seq seq' ops : SetSequence (batch_of seq ops) seq' = batch_of seq' ops.
Proof.
  unfold SetSequence, overwrite, batch_of. cbn [take app Nat.add]. f_equal.
Qed.

Lemma SetCount_batch seq (ops : list wb_op) n body :
  SetCount (EncodeFixed64 seq ++ EncodeFixed32 (blen ops) ++ body) n =
  EncodeFixed64 seq ++ EncodeFixed32 (u32 n) ++ body.
Proof.
  unfold SetCount, overwrite. rewrite take_app_length' by (by rewrite EncodeFixed64_length).
  done.
Qed.

Lemma ops_bytes_app a b : ops_bytes (a ++ b) = ops_bytes a ++ ops_bytes b.
Proof. unfold ops_bytes. by rewrite fmap_app, concat_app. Qed.

Lemma apply_op_batch seq ops op :
  ops_ok seq (ops ++ [op]) -> apply_op (batch_of seq ops) op = batch_of seq (ops ++ [op]).
Proof.
  intros (Hs & Hl & Hok). apply Forall_app in Hok as [Hok Hop]. apply Forall_cons_iff in Hop as [Hop _].
  rewrite blen_app in Hl. change (blen [op]) with 1 in Hl. pose proof (blen_nonneg ops).
  assert (forall e, SetCount (batch_of seq ops) (Count (batch_of seq ops) + 1) ++ e =
    EncodeFixed64 seq ++ EncodeFixed32 (blen (ops ++ [op])) ++ ops_bytes ops ++ e) as Hc.
  { intros e. rewrite Count_batch by (split; [done|split; [lia|done]]).
    unfold batch_of. rewrite SetCount_batch, blen_app. change (blen [op]) with 1.
    rewrite u32_small by (change (2 ^ 31) with 2147483648 in Hl; ulia). by rewrite <- !app_assoc. }
  assert (batch_of seq (ops ++ [op]) = EncodeFixed64 seq ++ EncodeFixed32 (blen (ops ++ [op])) ++
            ops_bytes ops ++ op_bytes op) as ->.
  { unfold batch_of. rewrite ops_bytes_app. unfold ops_bytes at 2. cbn. by rewrite app_nil_r. }
  destruct op as [k v|k|k l]; cbn [apply_op op_bytes]; unfold Put, Delete, PutGuard, PutVarint32;
    rewrite !PutLengthPrefixedSlice_app, <- !app_assoc.
  - apply Hc.
  - apply Hc.
  - destruct Hop as [_ Hlv]. rewrite u32_small by done. apply Hc.
Qed.

Lemma ops_ok_app_l seq a b : ops_ok seq (a ++ b) -> ops_ok seq a.
Proof.
  intros (Hs & Hl & Hok). apply Forall_app in Hok as [Hok _]. rewrite blen_app in Hl.
  pose proof (blen_nonneg b). split; [done|split; [lia|done]].
Qed.

Lemma apply_ops_batch ops seq ops0 :
  ops_ok seq (ops0 ++ ops) ->
  fold_left apply_op ops (batch_of seq ops0) = batch_of seq (ops0 ++ ops).
Proof.
  revert ops0. induction ops as [|op ops IH]; intros ops0 Hok; cbn [fold_left].
  { by rewrite app_nil_r. }
  assert (ops0 ++ op :: ops = (ops0 ++ [op]) ++ ops) as E by (by rewrite <- app_assoc).
  rewrite E in *. rewrite apply_op_batch by (by eapply ops_ok_app_l). by apply IH.
Qed.

(** ** Iterating over a batch *)

Lemma Iterate_record_op {H} `{Handler H} (h : H) op rest :
  op_ok op -> Iterate_record h (op_bytes op ++ rest) = inl (handle_op h op, rest).
Proof.
  intros Hop. unfold Iterate_record.
  destruct op as [k v|k|k l]; cbn [op_bytes handle_op op_ok] in *;
    cbn [app]; rewrite at_cons_0; rewrite ?skipn_cons, ?drop_0; rewrite <- ?app_assoc.
  - destruct Hop as [Hk Hv]. change (schar kTypeValue =? kTypeValue) with true. cbv iota.
        by rewrite !roundtrip by done.
  - change (schar kTypeDeletion =? kTypeValue) with false.
    change (schar kTypeDeletion =? kTypeDeletion) with true. cbv iota.
    by rewrite roundtrip by done.
  - destruct Hop as [Hk Hl]. change (schar kTypeGuard =? kTypeValue) with false.
    change (schar kTypeGuard =? kTypeDeletion) with false.
    change (schar kTypeGuard =? kTypeGuard) with true. cbv iota.
    by rewrite !roundtrip by done.
Qed.

Lemma op_bytes_nonempty op : exists b l, op_bytes op = b :: l.
Proof. destruct op; by repeat eexists. Qed.

Lemma Iterate_loop_ops {H} `{Handler H} ops fuel count found (h : H) :
  Forall op_ok ops -> (length ops <= fuel)%nat ->
  Iterate_loop fuel count found h (ops_bytes ops) =
  Some (if found + blen ops =? count then OK else Corruption (str "WriteBatch has wrong count"),
        fold_left handle_op ops h).
Proof.
  intros Hok. revert fuel found h. induction Hok as [|op ops Hop Hok IH]; intros fuel found h Hf.
  { rewrite blen_nil, Z.add_0_r. by destruct fuel. }
  cbn in Hf. destruct fuel as [|fuel]; [lia|].
  change (ops_bytes (op :: ops)) with (op_bytes op ++ ops_bytes ops).
  assert (Iterate_loop (S fuel) count found h (op_bytes op ++ ops_bytes ops) =
    Iterate_loop fuel count (found + 1) (handle_op h op) (ops_bytes ops)) as ->.
  { pose proof (Iterate_record_op h op (ops_bytes ops) Hop) as E.
    destruct (op_bytes_nonempty op) as (b & l & Hb). rewrite Hb in *. cbn [app Iterate_loop] in *.
    by rewrite E. }
  rewrite IH by lia. rewrite blen_cons. cbn [fold_left]. by rewrite Z.add_assoc.
Qed.

Lemma length_ops_bytes ops : (length ops <= length (ops_bytes ops))%nat.
Proof.
  induction ops as [|op ops IH]; [done|].
  change (ops_bytes (op :: ops)) with (op_bytes op ++ ops_bytes ops). rewrite length_app.
  destruct (op_bytes_nonempty op) as (b & l & ->). cbn. lia.
Qed.

Lemma Iterate_batch {H} `{Handler H} seq ops (h : H) :
  ops_ok seq ops -> Iterate (batch_of seq ops) h = Some (OK, fold_left handle_op ops h).
Proof.
  intros Hok. pose proof Hok as (_ & _ & Hall). unfold Iterate. rewrite Count_batch by done.
  unfold batch_of.
  rewrite (proj2 (Z.ltb_ge _ _)) by (rewrite !blen_app; change kHeader with 12; blia).
  rewrite app_assoc, drop_app_length' by (by rewrite length_app, EncodeFixed32_length, EncodeFixed64_length).
  rewrite Iterate_loop_ops; [by rewrite Z.add_0_l, Z.eqb_refl|done|].
  rewrite length_app. pose proof (length_ops_bytes ops). lia.
Qed.

(** ** Termination *)

Lemma GetVarint32_suffix p v q : GetVarint32 p = Some (v, q) -> (length q < length p)%nat.
Proof.
  unfold GetVarint32, GetVarint32Ptr.
  assert (forall p, GetVarint32PtrFallback p = Some (v, q) -> (length q < length p)%nat) as Hf.
  { intros p' (pre & b & -> & _)%GetVarint_loop_reads. rewrite length_app. cbn. lia. }
  destruct p as [|b p]; [done|]. destruct (_ =? 0); [|apply Hf].
  intros [= _ <-]. cbn. lia.
Qed.

Lemma GetLengthPrefixedSlice_suffix p v q :
  GetLengthPrefixedSlice p = Some (v, q) -> (length q < length p)%nat.
Proof.
  unfold GetLengthPrefixedSlice. destruct (GetVarint32 p) as [[n p']|] eqn:E; [|done].
  apply GetVarint32_suffix in E. case_bool; [|done]. intros [= _ <-]. rewrite length_drop. lia.
Qed.

Lemma Iterate_record_shrinks {H} `{Handler H} (h h' : H) b input rest :
  Iterate_record h (b :: input) = inl (h', rest) -> (length rest <= length input)%nat.
Proof.
  unfold Iterate_record. rewrite at_cons_0, skipn_cons, drop_0.
  destruct (_ =? kTypeValue); [|destruct (_ =? kTypeDeletion); [|destruct (_ =? kTypeGuard); [|done]]];
    destruct (GetLengthPrefixedSlice input) as [[k q]|] eqn:E1; try done;
    apply GetLengthPrefixedSlice_suffix in E1.
  - destruct (GetLengthPrefixedSlice q) as [[v q']|] eqn:E2; [|done].
    apply GetLengthPrefixedSlice_suffix in E2. intros [= _ <-]. lia.
  - intros [= _ <-]. lia.
  - destruct (GetVarint32 q) as [[l q']|] eqn:E2; [|done].
    apply GetVarint32_suffix in E2. intros [= _ <-]. lia.
Qed.

Lemma Iterate_loop_total {H} `{Handler H} fuel count found (h : H) input :
  (length input <= fuel)%nat -> Iterate_loop fuel count found h input <> None.
Proof.
  revert found h input. induction fuel as [|fuel IH]; intros found h [|b input] Hf; try done;
    cbn in Hf; [lia|]. cbn [Iterate_loop].
  destruct (Iterate_record h (b :: input)) as [[h' rest]|] eqn:E; [|done].
  apply Iterate_record_shrinks in E. apply IH. lia.
Qed.

(** ** Guard levels *)

(** A key with hash [h] is a guard of level [j] when the low [27 - 2j] bits of the
    hash are ones. *)
Definition level_bits (j : Z) : Z := top_level_bits - bit_decrement * j.
Definition is_guard (h j : Z) : bool := h mod 2 ^ level_bits j =? 2 ^ level_bits j - 1.

(** Guards are inherited by the levels below. *)
Lemma is_guard_below h i j : 0 <= i <= j -> j < kNumLevels -> is_guard h i = true -> is_guard h j = true.
Proof.
  intros Hij Hj. unfold is_guard. rewrite !Z.eqb_eq. unfold level_bits, top_level_bits, bit_decrement.
  change kNumLevels with 7 in Hj. intros Hh.
  set (a := 27 - 2 * i) in *. set (b := 27 - 2 * j) in *.
  assert (2 ^ a = 2 ^ (a - b) * 2 ^ b) as Hab by (rewrite <- Z.pow_add_r; [f_equal|..]; lia).
  assert (0 < 2 ^ b) by (apply Z.pow_pos_nonneg; lia).
  assert (0 < 2 ^ (a - b)) by (apply Z.pow_pos_nonneg; lia).
  assert (h mod 2 ^ b = (h mod 2 ^ a) mod 2 ^ b) as ->.
  { symmetry. apply Z.mod_mod_divide. exists (2 ^ (a - b)). done. }
  rewrite Hh, Hab. symmetry. apply (Z.mod_unique_pos _ _ (2 ^ (a - b) - 1)); lia.
Qed.

Lemma land_mask h n : 0 <= n -> (Z.land h (set_mask n) =? set_mask n) = (h mod 2 ^ n =? 2 ^ n - 1).
Proof.
  intros Hn. unfold set_mask. rewrite Z.shiftl_1_l.
  assert (2 ^ n - 1 = Z.ones n) as -> by (rewrite Z.ones_equiv; lia). by rewrite Z.land_ones.
Qed.

Lemma find_level_spec fuel i h :
  0 <= i <= kNumLevels -> kNumLevels - i <= Z.of_nat fuel ->
  (forall j, 0 <= j < i -> is_guard h j = false) ->
  match find_level fuel i (level_bits i) h with
  | Some l => 0 <= l < kNumLevels /\ is_guard h l = true /\
              forall j, 0 <= j < l -> is_guard h j = false
  | None => forall j, 0 <= j < kNumLevels -> is_guard h j = false
  end.
Proof.
  change kNumLevels with 7.
  revert i. induction fuel as [|fuel IH]; intros i Hi Hf Hlow; cbn [find_level].
  { intros j Hj. apply Hlow. lia. }
  change kNumLevels with 7. destruct (Z.ltb_spec i 7); [|intros j Hj; apply Hlow; lia].
  rewrite land_mask by (unfold level_bits, top_level_bits, bit_decrement; lia).
  fold (is_guard h i). destruct (is_guard h i) eqn:E; [by split; [lia|]|].
  assert (u32 (level_bits i - bit_decrement) = level_bits (i + 1)) as ->.
  { unfold level_bits, top_level_bits, bit_decrement. rewrite u32_small by ulia. lia. }
  apply IH; [lia|lia|]. intros j Hj. destruct (Z.eq_dec j i) as [->|]; [done|]. apply Hlow. lia.
Qed.

Definition levels : list Z := [0; 1; 2; 3; 4; 5; 6].

(** The guard records for a batch record. *)
Definition guards_of (op : wb_op) : list wb_op :=
  match op with
  | OpPut k _ => map (OpGuard k) (List.filter (is_guard (MurmurHash3_x86_32 k murmur_seed)) levels)
  | _ => []
  end.

Lemma levels_from_none j : 7 <= j -> List.filter (Z.leb j) levels = [].
Proof. intros. unfold levels. cbn [List.filter]. repeat (case_bool; [lia|]). done. Qed.

Lemma put_guards_batch fuel j key g :
  0 <= j -> kNumLevels - j <= Z.of_nat fuel ->
  new_batch (put_guards fuel j key g) =
  fold_left apply_op (map (OpGuard key) (List.filter (Z.leb j) levels)) (new_batch g).
Proof.
  change kNumLevels with 7.
  revert j g. induction fuel as [|fuel IH]; intros j g Hj Hf; cbn [put_guards].
  { by rewrite levels_from_none by lia. }
  change kNumLevels with 7. destruct (Z.ltb_spec j 7).
  - rewrite IH by lia. cbn [new_batch].
    assert (j = 0 \/ j = 1 \/ j = 2 \/ j = 3 \/ j = 4 \/ j = 5 \/ j = 6) as Hc by lia.
    by repeat (destruct Hc as [->|Hc]; [reflexivity|]); subst j.
  - by rewrite levels_from_none by lia.
Qed.

(** The guards a [Put] adds are the levels its hash qualifies for. *)
Lemma GuardInserter_Put_batch g key value :
  new_batch (GuardInserter_Put g key value) =
  fold_left apply_op (guards_of (OpPut key value)) (new_batch g).
Proof.
  unfold GuardInserter_Put, guards_of. set (h := MurmurHash3_x86_32 key murmur_seed).
  pose proof (find_level_spec (Z.to_nat kNumLevels) 0 h) as Hspec.
  change (level_bits 0) with top_level_bits in Hspec.
  specialize (Hspec ltac:(by change kNumLevels with 7) ltac:(by change kNumLevels with 7) ltac:(lia)).
  destruct (find_level _ _ _ h) as [l|]; cbn [new_batch].
  - destruct Hspec as (Hl & Hg & Hlow). rewrite put_guards_batch by (change kNumLevels with 7 in *; lia).
    do 2 f_equal. apply filter_ext_in. intros j Hj.
    assert (0 <= j < 7) as Hj7 by (unfold levels in Hj; cbn in Hj; lia).
    destruct (Z.leb_spec l j) as [Hlj|Hlj].
    + symmetry. apply (is_guard_below h l j); [lia|change kNumLevels with 7; lia|done].
    + symmetry. apply Hlow. lia.
  - replace (List.filter (is_guard h) levels) with (@nil Z); [done|].
    symmetry. change kNumLevels with 7 in Hspec. unfold levels. cbn [List.filter].
    by rewrite !Hspec by lia.
Qed.

Definition client_op (op : wb_op) : Prop := match op with OpGuard _ _ => False | _ => True end.

Lemma guard_inserter_ops ops g :
  Forall client_op ops ->
  new_batch (fold_left handle_op ops g) =
  fold_left apply_op (concat (guards_of <$> ops)) (new_batch g).
Proof.
  intros Hops. revert g. induction Hops as [|op ops Hop Hops IH]; intros g; [done|].
  cbn [fold_left fmap list_fmap concat]. rewrite IH, fold_left_app. f_equal.
  destruct op as [k v|k|k l]; [|done|done]. apply GuardInserter_Put_batch.
Qed.

Lemma guards_ok seq ops :
  is_u64 seq -> Forall op_ok ops -> 7 * blen ops < 2 ^ 31 ->
  ops_ok seq (concat (guards_of <$> ops)).
Proof.
  intros Hs Hok Hl. split; [done|].
  assert (forall op, blen (guards_of op) <= 7) as H7.
  { intros [k v|k|k l]; cbn [guards_of]; [|done|done]. unfold blen. rewrite length_map.
    pose proof (filter_length_le (is_guard (MurmurHash3_x86_32 k murmur_seed)) levels) as H.
    change (length levels) with 7%nat in H. lia. }
  split.
  - assert (blen (concat (guards_of <$> ops)) <= 7 * blen ops); [|lia]. clear -H7.
    induction ops as [|op ops IH]; [done|]. cbn [fmap list_fmap concat].
    rewrite blen_app, blen_cons. specialize (H7 op). unfold fmap in *. lia.
  - clear -Hok. induction Hok as [|op ops Hop Hok IH]; [constructor|].
    cbn [fmap list_fmap concat]. apply Forall_app. split; [|done].
    destruct op as [k v|k|k l]; [|constructor|constructor]. cbn [guards_of].
    apply List.Forall_map, List.Forall_forall. intros j Hj. apply filter_In in Hj as [Hj _].
    split; [apply Hop|]. unfold levels in Hj. cbn in Hj. ulia.
Qed.

(** ** Sequence numbers of inserted records *)

(** The memtable entries of a batch: sequence number, type, key and value. *)
Fixpoint numbered (seq : Z) (ops : list wb_op) : list (Z * Z * bytes * bytes) :=
  match ops with
  | [] => []
  | OpPut k v :: ops => (seq, kTypeValue, k, v) :: numbered (seq + 1) ops
  | OpDelete k :: ops => (seq, kTypeDeletion, k, []) :: numbered (seq + 1) ops
  | OpGuard _ _ :: ops => numbered seq ops
  end.
Definition add_entry {M V} `{InsertTarget M V} (m : M) (e : Z * Z * bytes * bytes) : M :=
  let '(s, t, k, v) := e in MemTable_Add m s t k v.

Lemma insert_ops {M V} `{InsertTarget M V} ops seq (m : M) :
  0 <= seq -> seq + blen ops < 2 ^ 64 ->
  mem_ (fold_left handle_op ops {| sequence_ := seq; mem_ := m; version_ := @None V |}) =
    fold_left add_entry (numbered seq ops) m /\
  sequence_ (fold_left handle_op ops {| sequence_ := seq; mem_ := m; version_ := @None V |}) =
    seq + blen (numbered seq ops).
Proof.
  revert seq m. induction ops as [|op ops IH]; intros seq m Hs Hl; cbn [fold_left].
  { split; [done|]. unfold blen. cbn [numbered sequence_ length]. lia. }
  rewrite blen_cons in Hl. pose proof (blen_nonneg ops).
  destruct op as [k v|k|k l]; cbn [numbered handle_op HandlePut HandleDelete HandleGuard
    MemTableInserter_Handler sequence_ mem_ version_ fold_left];
    rewrite ?u64_small by ulia; rewrite ?blen_cons.
  - destruct (IH (seq + 1) (MemTable_Add m seq kTypeValue k v)) as [-> ->]; [lia|lia|].
    split; [done|lia].
  - destruct (IH (seq + 1) (MemTable_Add m seq kTypeDeletion k [])) as [-> ->]; [lia|lia|].
    split; [done|lia].
  - apply IH; lia.
Qed.

(** ** Properties *)

(** C21: Write batches round-trip: after any sequence of Put, Delete and PutGuard on an
    empty batch and SetSequence, Count and Sequence report what was stored and
    Iterate hands exactly those records, in order, to any handler and returns OK. *)
Theorem write_batch_roundtrip {H : Type} (HH : Handler H) (ops : list wb_op) (seq : Z) (h : H)
  (Hok : ops_ok seq ops) :
  let b := SetSequence (fold_left apply_op ops Clear) seq in
  Count b = blen ops /\ Sequence b = seq /\
  Iterate b h = Some (OK, fold_left handle_op ops h).
Proof.
  assert (ops_ok 0 ([] ++ ops)) as Hok0 by (destruct Hok as (? & ? & ?); by split).
  rewrite Clear_batch, apply_ops_batch by done. cbn [app]. rewrite SetSequence_batch.
  split; [by apply Count_batch|]. split; [apply Sequence_batch, Hok|]. by apply Iterate_batch.
Qed.

(** A handler that records the calls it receives. *)
#[local] Instance log_handler : Handler (list wb_op) := {
  HandlePut h k v := h ++ [OpPut k v]; HandleDelete h k := h ++ [OpDelete k];
  HandleGuard h k l := h ++ [OpGuard k l];
}.
Definition example_ops : list wb_op := [OpPut [1; 2] [3]; OpDelete [4]; OpGuard [5] 3].

Lemma write_batch_roundtrip_witness :
  Iterate (SetSequence (fold_left apply_op example_ops Clear) 77) [] = Some (OK, example_ops).
Proof.
  apply (write_batch_roundtrip log_handler example_ops 77 []).
  split; [done|]. split; [done|]. repeat constructor; done.
Defined.

(** Appending batches: the result holds the records of both in order, its count is
    the sum, and its sequence number is the one of the destination. *)
Theorem write_batch_append {H : Type} (HH : Handler H) (ops1 ops2 : list wb_op) (seq1 seq2 : Z) (h : H)
  (Hok : ops_ok seq1 (ops1 ++ ops2)) (Hseq : is_u64 seq2) :
  let b1 := SetSequence (fold_left apply_op ops1 Clear) seq1 in
  let b2 := SetSequence (fold_left apply_op ops2 Clear) seq2 in
  Append b1 b2 = SetSequence (fold_left apply_op (ops1 ++ ops2) Clear) seq1 /\
  Iterate (Append b1 b2) h = Some (OK, fold_left handle_op ops2 (fold_left handle_op ops1 h)).
Proof.
  pose proof Hok as (Hs1 & Hl & Hall). apply Forall_app in Hall as [Hall1 Hall2].
  rewrite blen_app in Hl. pose proof (blen_nonneg ops1). pose proof (blen_nonneg ops2).
  assert (forall ops, Forall op_ok ops -> blen ops < 2 ^ 31 -> ops_ok 0 ([] ++ ops)) as Hk
    by (intros; by split).
  rewrite Clear_batch, !apply_ops_batch by
    (apply Hk; [done || by apply Forall_app|rewrite ?blen_app; lia]).
  cbn [app]. rewrite !SetSequence_batch.
  assert (Append (batch_of seq1 ops1) (batch_of seq2 ops2) = batch_of seq1 (ops1 ++ ops2)) as ->.
  { unfold Append. rewrite !Count_batch by (split; [done|split; [lia|done]]).
    unfold batch_of. rewrite SetCount_batch, <- blen_app.
    rewrite u32_small by (rewrite blen_app; change (2 ^ 31) with 2147483648 in Hl; ulia).
    rewrite ops_bytes_app, <- !app_assoc. do 3 f_equal. }
  split; [done|]. rewrite Iterate_batch by done. by rewrite fold_left_app.
Qed.

Lemma write_batch_append_witness :
  let b1 := SetSequence (fold_left apply_op [OpPut [1; 2] [3]] Clear) 77 in
  let b2 := SetSequence (fold_left apply_op [OpDelete [4]; OpGuard [5] 3] Clear) 5 in
  Iterate (Append b1 b2) [] = Some (OK, example_ops).
Proof.
  apply (write_batch_append log_handler [OpPut [1; 2] [3]] [OpDelete [4]; OpGuard [5] 3] 77 5 []).
  - split; [done|]. split; [done|]. repeat constructor; done.
  - done.
Defined.

(** Iterating terminates on every byte string, and a batch whose header promises
    another number of records than it holds is reported as corrupted, after the
    records were handed to the handler. *)
Theorem write_batch_iterate_total {H : Type} (HH : Handler H) (b : WriteBatch) (h : H)
  (ops : list wb_op) (seq n : Z)
  (Hok : ops_ok seq ops) (Hn : 0 <= n < 2 ^ 31) (Hne : n <> blen ops) :
  Iterate b h <> None /\
  Iterate (SetCount (SetSequence (fold_left apply_op ops Clear) seq) n) h =
    Some (Corruption (str "WriteBatch has wrong count"), fold_left handle_op ops h).
Proof.
  split.
  { unfold Iterate. case_bool; [done|]. apply Iterate_loop_total. rewrite length_drop. lia. }
  assert (ops_ok 0 ([] ++ ops)) as Hok0 by (destruct Hok as (? & ? & ?); by split).
  rewrite Clear_batch, apply_ops_batch by done. cbn [app]. rewrite SetSequence_batch.
  unfold batch_of. rewrite SetCount_batch.
  rewrite u32_small by (change (2 ^ 31) with 2147483648 in Hn; ulia).
  unfold Iterate, Count. rewrite drop_app_length' by (by rewrite EncodeFixed64_length).
  rewrite DecodeFixed32_encode by (change (2 ^ 31) with 2147483648 in Hn; ulia).
  rewrite s32_small by done.
  rewrite (proj2 (Z.ltb_ge _ _)) by (rewrite !blen_app; change kHeader with 12; blia).
  rewrite app_assoc, drop_app_length' by (by rewrite length_app, EncodeFixed32_length, EncodeFixed64_length).
  rewrite Iterate_loop_ops; [|apply Hok|rewrite length_app; pose proof (length_ops_bytes ops); lia].
  by rewrite Z.add_0_l, (proj2 (Z.eqb_neq _ _)) by done.
Qed.

Lemma write_batch_iterate_total_witness :
  Iterate (SetCount (SetSequence (fold_left apply_op example_ops Clear) 77) 2) [] =
  Some (Corruption (str "WriteBatch has wrong count"), example_ops).
Proof.
  refine (proj2 (write_batch_iterate_total log_handler [] [] example_ops 77 2 _ _ _)).
  - split; [done|]. split; [done|]. repeat constructor; done.
  - done.
  - done.
Defined.

(** Inserting a batch into a memtable adds its puts and deletions in order under
    consecutive sequence numbers that start at the batch's own; guard records are
    skipped and take no number when there is no version to insert into. *)
Theorem write_batch_insert {M V : Type} (HT : InsertTarget M V) (ops : list wb_op) (seq : Z) (m : M)
  (Hok : ops_ok seq ops) (Hseq : seq + blen ops < 2 ^ 64) :
  exists ins : MemTableInserter,
    InsertInto (V := V) (SetSequence (fold_left apply_op ops Clear) seq) m = Some (OK, ins) /\
    mem_ ins = fold_left add_entry (numbered seq ops) m /\
    sequence_ ins = seq + blen (numbered seq ops) /\
    map (fun e => fst (fst (fst e))) (numbered seq ops) = seqZ seq (blen (numbered seq ops)).
Proof.
  assert (ops_ok 0 ([] ++ ops)) as Hok0 by (destruct Hok as (? & ? & ?); by split).
  rewrite Clear_batch, apply_ops_batch by done. cbn [app]. rewrite SetSequence_batch.
  unfold InsertInto. rewrite Sequence_batch by apply Hok. rewrite Iterate_batch by done.
  destruct (insert_ops (V := V) ops seq m) as [E1 E2]; [apply Hok|done|].
  eexists. split; [reflexivity|]. split; [done|]. split; [done|].
  clear. revert seq. induction ops as [|[k v|k|k l] ops IH]; intros seq; cbn [numbered map fst].
  - done.
  - rewrite IH, blen_cons, (seqZ_cons seq) by blia. f_equal. f_equal; lia.
  - rewrite IH, blen_cons, (seqZ_cons seq) by blia. f_equal. f_equal; lia.
  - apply IH.
Qed.

#[local] Instance log_target : InsertTarget (list (Z * Z * bytes * bytes)) unit := {
  MemTable_Add m s t k v := m ++ [(s, t, k, v)];
  AddToCompleteGuards v _ _ := v;
}.
Lemma write_batch_insert_witness :
  exists ins : @MemTableInserter (list (Z * Z * bytes * bytes)) unit,
    InsertInto (SetSequence (fold_left apply_op example_ops Clear) 77) [] = Some (OK, ins) /\
    mem_ ins = [(77, kTypeValue, [1; 2], [3]); (78, kTypeDeletion, [4], [])] /\ sequence_ ins = 79.
Proof.
  destruct (write_batch_insert log_target example_ops 77 []) as (ins & H1 & H2 & H3 & _).
  - split; [done|]. split; [done|]. repeat constructor; done.
  - done.
  - by exists ins.
Defined.


