(* ===== verification/VersionEdit.v ===== *)
(** * Version edits: the records of the manifest

    Models [src/pebblesdb/src/db/version_edit.h] and [version_edit.cc]: the delta
    between two versions (counters, file and guard additions and removals) and its
    on-disk form, a sequence of tagged records.  The indeterminate values and null
    dereferences the decoder can meet on a corrupted manifest are an outcome of
    their own ([UndefinedBehaviour]). *)

From stdpp Require Import sorting.
From S2P Require Import Prelude Coding Status Comparator DbFormat.

(** ** Tags *)

Definition kComparator : Z := 1.
Definition kLogNumber : Z := 2.
Definition kNextFileNumber : Z := 3.
Definition kLastSequence : Z := 4.
Definition kCompactPointer : Z := 5.
Definition kDeletedFile : Z := 6.
Definition kNewFile : Z := 7.
Definition kPrevLogNumber : Z := 9.
Definition kDeletedGuard : Z := 10.
Definition kNewGuard : Z := 11.
Definition kFileInsideGuard : Z := 12.
Definition kNewSentinelFile : Z := 13.
Definition kDeletedSentinelFile : Z := 14.
Definition kNewCompleteGuard : Z := 15.
Definition kNewSentinelFileNo : Z := 16.

(** ** Data

    An [InternalKey] is its byte string.  Pointers to other metadata are addresses
    ([0] is null): an edit only copies them. *)

Record FileMetaData := {
  f_refs : Z;
  f_allowed_seeks : Z;
  f_number : Z;
  f_file_size : Z;
  f_smallest : bytes;
  f_largest : bytes;
  f_guard : Z;
}.
Definition FileMetaData_new : FileMetaData :=
  {| f_refs := 0; f_allowed_seeks := Z.shiftl 1 30; f_number := 0; f_file_size := 0;
     f_smallest := []; f_largest := []; f_guard := 0 |}.

Record GuardMetaData := {
  g_refs : Z;
  g_level : Z;
  g_number_segments : Z;
  g_guard_key : bytes;
  g_smallest : bytes;
  g_largest : bytes;
  g_files : list Z;
  g_file_metas : list Z;
}.
Definition GuardMetaData_new : GuardMetaData :=
  {| g_refs := 0; g_level := -1; g_number_segments := 0; g_guard_key := [];
     g_smallest := []; g_largest := []; g_files := []; g_file_metas := [] |}.

(** An array [v\[config::kNumLevels\]] of empty vectors. *)
Definition no_levels {A} : list (list A) := replicate (Z.to_nat kNumLevels) [].

(** [v\[level\].push_back(x)] *)
Definition push_at {A} (v : list (list A)) (level : Z) (x : A) : list (list A) :=
  alter (fun l => l ++ [x]) (Z.to_nat level) v.

Record VersionEdit := {
  comparator_ : bytes;
  log_number_ : Z;
  prev_log_number_ : Z;
  next_file_number_ : Z;
  last_sequence_ : Z;
  has_comparator_ : bool;
  has_log_number_ : bool;
  has_prev_log_number_ : bool;
  has_next_file_number_ : bool;
  has_last_sequence_ : bool;
  compact_pointers_ : list (Z * bytes);
  deleted_files_ : list (Z * Z);
  new_files_ : list (Z * FileMetaData);
  sentinel_files_ : list (list FileMetaData);
  sentinel_file_nos_ : list (list Z);
  deleted_sentinel_files_ : list (Z * Z);
  new_guards_ : list (list GuardMetaData);
  new_complete_guards_ : list (list GuardMetaData);
  deleted_guards_ : list (Z * bytes);
}.

(** The arrays of vectors and the sets are value-initialised.  [Clear] leaves the
    compaction pointers, the sentinel file numbers and the complete guards alone. *)
Definition Clear (e : VersionEdit) : VersionEdit :=
  {| comparator_ := []; log_number_ := 0; prev_log_number_ := 0; next_file_number_ := 0;
     last_sequence_ := 0; has_comparator_ := false; has_log_number_ := false;
     has_prev_log_number_ := false; has_next_file_number_ := false; has_last_sequence_ := false;
     compact_pointers_ := compact_pointers_ e; deleted_files_ := []; new_files_ := [];
     sentinel_files_ := no_levels; sentinel_file_nos_ := sentinel_file_nos_ e;
     deleted_sentinel_files_ := []; new_guards_ := no_levels;
     new_complete_guards_ := new_complete_guards_ e; deleted_guards_ := [] |}.

Definition VersionEdit_new : VersionEdit :=
  {| comparator_ := []; log_number_ := 0; prev_log_number_ := 0; next_file_number_ := 0;
     last_sequence_ := 0; has_comparator_ := false; has_log_number_ := false;
     has_prev_log_number_ := false; has_next_file_number_ := false; has_last_sequence_ := false;
     compact_pointers_ := []; deleted_files_ := []; new_files_ := []; sentinel_files_ := no_levels;
     sentinel_file_nos_ := no_levels; deleted_sentinel_files_ := []; new_guards_ := no_levels;
     new_complete_guards_ := no_levels; deleted_guards_ := [] |}.

(** ** Building an edit *)

Definition SetComparatorName (e : VersionEdit) (name : bytes) : VersionEdit :=
  {| comparator_ := name; log_number_ := log_number_ e; prev_log_number_ := prev_log_number_ e;
     next_file_number_ := next_file_number_ e; last_sequence_ := last_sequence_ e;
     has_comparator_ := true; has_log_number_ := has_log_number_ e;
     has_prev_log_number_ := has_prev_log_number_ e; has_next_file_number_ := has_next_file_number_ e;
     has_last_sequence_ := has_last_sequence_ e; compact_pointers_ := compact_pointers_ e;
     deleted_files_ := deleted_files_ e; new_files_ := new_files_ e;
     sentinel_files_ := sentinel_files_ e; sentinel_file_nos_ := sentinel_file_nos_ e;
     deleted_sentinel_files_ := deleted_sentinel_files_ e; new_guards_ := new_guards_ e;
     new_complete_guards_ := new_complete_guards_ e; deleted_guards_ := deleted_guards_ e |}.

Definition SetLogNumber (e : VersionEdit) (num : Z) : VersionEdit :=
  {| comparator_ := comparator_ e; log_number_ := num; prev_log_number_ := prev_log_number_ e;
     next_file_number_ := next_file_number_ e; last_sequence_ := last_sequence_ e;
     has_comparator_ := has_comparator_ e; has_log_number_ := true;
     has_prev_log_number_ := has_prev_log_number_ e; has_next_file_number_ := has_next_file_number_ e;
     has_last_sequence_ := has_last_sequence_ e; compact_pointers_ := compact_pointers_ e;
     deleted_files_ := deleted_files_ e; new_files_ := new_files_ e;
     sentinel_files_ := sentinel_files_ e; sentinel_file_nos_ := sentinel_file_nos_ e;
     deleted_sentinel_files_ := deleted_sentinel_files_ e; new_guards_ := new_guards_ e;
     new_complete_guards_ := new_complete_guards_ e; deleted_guards_ := deleted_guards_ e |}.

Definition SetPrevLogNumber (e : VersionEdit) (num : Z) : VersionEdit :=
  {| comparator_ := comparator_ e; log_number_ := log_number_ e; prev_log_number_ := num;
     next_file_number_ := next_file_number_ e; last_sequence_ := last_sequence_ e;
     has_comparator_ := has_comparator_ e; has_log_number_ := has_log_number_ e;
     has_prev_log_number_ := true; has_next_file_number_ := has_next_file_number_ e;
     has_last_sequence_ := has_last_sequence_ e; compact_pointers_ := compact_pointers_ e;
     deleted_files_ := deleted_files_ e; new_files_ := new_files_ e;
     sentinel_files_ := sentinel_files_ e; sentinel_file_nos_ := sentinel_file_nos_ e;
     deleted_sentinel_files_ := deleted_sentinel_files_ e; new_guards_ := new_guards_ e;
     new_complete_guards_ := new_complete_guards_ e; deleted_guards_ := deleted_guards_ e |}.

Definition SetNextFile (e : VersionEdit) (num : Z) : VersionEdit :=
  {| comparator_ := comparator_ e; log_number_ := log_number_ e;
     prev_log_number_ := prev_log_number_ e; next_file_number_ := num;
     last_sequence_ := last_sequence_ e; has_comparator_ := has_comparator_ e;
     has_log_number_ := has_log_number_ e; has_prev_log_number_ := has_prev_log_number_ e;
     has_next_file_number_ := true; has_last_sequence_ := has_last_sequence_ e;
     compact_pointers_ := compact_pointers_ e; deleted_files_ := deleted_files_ e;
     new_files_ := new_files_ e; sentinel_files_ := sentinel_files_ e;
     sentinel_file_nos_ := sentinel_file_nos_ e; deleted_sentinel_files_ := deleted_sentinel_files_ e;
     new_guards_ := new_guards_ e; new_complete_guards_ := new_complete_guards_ e;
     deleted_guards_ := deleted_guards_ e |}.

Definition SetLastSequence (e : VersionEdit) (seq : Z) : VersionEdit :=
  {| comparator_ := comparator_ e; log_number_ := log_number_ e;
     prev_log_number_ := prev_log_number_ e; next_file_number_ := next_file_number_ e;
     last_sequence_ := seq; has_comparator_ := has_comparator_ e; has_log_number_ := has_log_number_ e;
     has_prev_log_number_ := has_prev_log_number_ e; has_next_file_number_ := has_next_file_number_ e;
     has_last_sequence_ := true; compact_pointers_ := compact_pointers_ e;
     deleted_files_ := deleted_files_ e; new_files_ := new_files_ e;
     sentinel_files_ := sentinel_files_ e; sentinel_file_nos_ := sentinel_file_nos_ e;
     deleted_sentinel_files_ := deleted_sentinel_files_ e; new_guards_ := new_guards_ e;
     new_complete_guards_ := new_complete_guards_ e; deleted_guards_ := deleted_guards_ e |}.

Definition SetCompactPointer (e : VersionEdit) (level : Z) (key : bytes) : VersionEdit :=
  {| comparator_ := comparator_ e; log_number_ := log_number_ e;
     prev_log_number_ := prev_log_number_ e; next_file_number_ := next_file_number_ e;
     last_sequence_ := last_sequence_ e; has_comparator_ := has_comparator_ e;
     has_log_number_ := has_log_number_ e; has_prev_log_number_ := has_prev_log_number_ e;
     has_next_file_number_ := has_next_file_number_ e; has_last_sequence_ := has_last_sequence_ e;
     compact_pointers_ := compact_pointers_ e ++ [(level, key)]; deleted_files_ := deleted_files_ e;
     new_files_ := new_files_ e; sentinel_files_ := sentinel_files_ e;
     sentinel_file_nos_ := sentinel_file_nos_ e; deleted_sentinel_files_ := deleted_sentinel_files_ e;
     new_guards_ := new_guards_ e; new_complete_guards_ := new_complete_guards_ e;
     deleted_guards_ := deleted_guards_ e |}.

(** Assignment to one member. *)
Definition set_deleted_files (e : VersionEdit) (x : list (Z * Z)) : VersionEdit :=
  {| comparator_ := comparator_ e; log_number_ := log_number_ e;
     prev_log_number_ := prev_log_number_ e; next_file_number_ := next_file_number_ e;
     last_sequence_ := last_sequence_ e; has_comparator_ := has_comparator_ e;
     has_log_number_ := has_log_number_ e; has_prev_log_number_ := has_prev_log_number_ e;
     has_next_file_number_ := has_next_file_number_ e; has_last_sequence_ := has_last_sequence_ e;
     compact_pointers_ := compact_pointers_ e; deleted_files_ := x; new_files_ := new_files_ e;
     sentinel_files_ := sentinel_files_ e; sentinel_file_nos_ := sentinel_file_nos_ e;
     deleted_sentinel_files_ := deleted_sentinel_files_ e; new_guards_ := new_guards_ e;
     new_complete_guards_ := new_complete_guards_ e; deleted_guards_ := deleted_guards_ e |}.

Definition set_new_files (e : VersionEdit) (x : list (Z * FileMetaData)) : VersionEdit :=
  {| comparator_ := comparator_ e; log_number_ := log_number_ e;
     prev_log_number_ := prev_log_number_ e; next_file_number_ := next_file_number_ e;
     last_sequence_ := last_sequence_ e; has_comparator_ := has_comparator_ e;
     has_log_number_ := has_log_number_ e; has_prev_log_number_ := has_prev_log_number_ e;
     has_next_file_number_ := has_next_file_number_ e; has_last_sequence_ := has_last_sequence_ e;
     compact_pointers_ := compact_pointers_ e; deleted_files_ := deleted_files_ e; new_files_ := x;
     sentinel_files_ := sentinel_files_ e; sentinel_file_nos_ := sentinel_file_nos_ e;
     deleted_sentinel_files_ := deleted_sentinel_files_ e; new_guards_ := new_guards_ e;
     new_complete_guards_ := new_complete_guards_ e; deleted_guards_ := deleted_guards_ e |}.

Definition set_sentinel_files (e : VersionEdit) (x : list (list FileMetaData)) : VersionEdit :=
  {| comparator_ := comparator_ e; log_number_ := log_number_ e;
     prev_log_number_ := prev_log_number_ e; next_file_number_ := next_file_number_ e;
     last_sequence_ := last_sequence_ e; has_comparator_ := has_comparator_ e;
     has_log_number_ := has_log_number_ e; has_prev_log_number_ := has_prev_log_number_ e;
     has_next_file_number_ := has_next_file_number_ e; has_last_sequence_ := has_last_sequence_ e;
     compact_pointers_ := compact_pointers_ e; deleted_files_ := deleted_files_ e;
     new_files_ := new_files_ e; sentinel_files_ := x; sentinel_file_nos_ := sentinel_file_nos_ e;
     deleted_sentinel_files_ := deleted_sentinel_files_ e; new_guards_ := new_guards_ e;
     new_complete_guards_ := new_complete_guards_ e; deleted_guards_ := deleted_guards_ e |}.

Definition set_sentinel_file_nos (e : VersionEdit) (x : list (list Z)) : VersionEdit :=
  {| comparator_ := comparator_ e; log_number_ := log_number_ e;
     prev_log_number_ := prev_log_number_ e; next_file_number_ := next_file_number_ e;
     last_sequence_ := last_sequence_ e; has_comparator_ := has_comparator_ e;
     has_log_number_ := has_log_number_ e; has_prev_log_number_ := has_prev_log_number_ e;
     has_next_file_number_ := has_next_file_number_ e; has_last_sequence_ := has_last_sequence_ e;
     compact_pointers_ := compact_pointers_ e; deleted_files_ := deleted_files_ e;
     new_files_ := new_files_ e; sentinel_files_ := sentinel_files_ e; sentinel_file_nos_ := x;
     deleted_sentinel_files_ := deleted_sentinel_files_ e; new_guards_ := new_guards_ e;
     new_complete_guards_ := new_complete_guards_ e; deleted_guards_ := deleted_guards_ e |}.

Definition set_deleted_sentinel_files (e : VersionEdit) (x : list (Z * Z)) : VersionEdit :=
  {| comparator_ := comparator_ e; log_number_ := log_number_ e;
     prev_log_number_ := prev_log_number_ e; next_file_number_ := next_file_number_ e;
     last_sequence_ := last_sequence_ e; has_comparator_ := has_comparator_ e;
     has_log_number_ := has_log_number_ e; has_prev_log_number_ := has_prev_log_number_ e;
     has_next_file_number_ := has_next_file_number_ e; has_last_sequence_ := has_last_sequence_ e;
     compact_pointers_ := compact_pointers_ e; deleted_files_ := deleted_files_ e;
     new_files_ := new_files_ e; sentinel_files_ := sentinel_files_ e;
     sentinel_file_nos_ := sentinel_file_nos_ e; deleted_sentinel_files_ := x;
     new_guards_ := new_guards_ e; new_complete_guards_ := new_complete_guards_ e;
     deleted_guards_ := deleted_guards_ e |}.

Definition set_new_guards (e : VersionEdit) (x : list (list GuardMetaData)) : VersionEdit :=
  {| comparator_ := comparator_ e; log_number_ := log_number_ e;
     prev_log_number_ := prev_log_number_ e; next_file_number_ := next_file_number_ e;
     last_sequence_ := last_sequence_ e; has_comparator_ := has_comparator_ e;
     has_log_number_ := has_log_number_ e; has_prev_log_number_ := has_prev_log_number_ e;
     has_next_file_number_ := has_next_file_number_ e; has_last_sequence_ := has_last_sequence_ e;
     compact_pointers_ := compact_pointers_ e; deleted_files_ := deleted_files_ e;
     new_files_ := new_files_ e; sentinel_files_ := sentinel_files_ e;
     sentinel_file_nos_ := sentinel_file_nos_ e; deleted_sentinel_files_ := deleted_sentinel_files_ e;
     new_guards_ := x; new_complete_guards_ := new_complete_guards_ e;
     deleted_guards_ := deleted_guards_ e |}.

Definition set_new_complete_guards (e : VersionEdit) (x : list (list GuardMetaData)) : VersionEdit :=
  {| comparator_ := comparator_ e; log_number_ := log_number_ e;
     prev_log_number_ := prev_log_number_ e; next_file_number_ := next_file_number_ e;
     last_sequence_ := last_sequence_ e; has_comparator_ := has_comparator_ e;
     has_log_number_ := has_log_number_ e; has_prev_log_number_ := has_prev_log_number_ e;
     has_next_file_number_ := has_next_file_number_ e; has_last_sequence_ := has_last_sequence_ e;
     compact_pointers_ := compact_pointers_ e; deleted_files_ := deleted_files_ e;
     new_files_ := new_files_ e; sentinel_files_ := sentinel_files_ e;
     sentinel_file_nos_ := sentinel_file_nos_ e; deleted_sentinel_files_ := deleted_sentinel_files_ e;
     new_guards_ := new_guards_ e; new_complete_guards_ := x; deleted_guards_ := deleted_guards_ e |}.

Definition set_deleted_guards (e : VersionEdit) (x : list (Z * bytes)) : VersionEdit :=
  {| comparator_ := comparator_ e; log_number_ := log_number_ e;
     prev_log_number_ := prev_log_number_ e; next_file_number_ := next_file_number_ e;
     last_sequence_ := last_sequence_ e; has_comparator_ := has_comparator_ e;
     has_log_number_ := has_log_number_ e; has_prev_log_number_ := has_prev_log_number_ e;
     has_next_file_number_ := has_next_file_number_ e; has_last_sequence_ := has_last_sequence_ e;
     compact_pointers_ := compact_pointers_ e; deleted_files_ := deleted_files_ e;
     new_files_ := new_files_ e; sentinel_files_ := sentinel_files_ e;
     sentinel_file_nos_ := sentinel_file_nos_ e; deleted_sentinel_files_ := deleted_sentinel_files_ e;
     new_guards_ := new_guards_ e; new_complete_guards_ := new_complete_guards_ e; deleted_guards_ := x |}.

(** [std::set::insert]: the elements are kept in increasing order. *)
Fixpoint set_insert {A} (lt : A -> A -> bool) (x : A) (s : list A) : list A :=
  match s with
  | [] => [x]
  | y :: s' => if lt x y then x :: s else if lt y x then y :: set_insert lt x s' else s
  end.
(** [std::less] on [std::pair<int, uint64_t>] *)
Definition pair_lt (p q : Z * Z) : bool :=
  (fst p <? fst q) || ((fst p =? fst q) && (snd p <? snd q)).
(** [BySmallestPair] on pairs of different levels. *)
Definition level_lt (p q : Z * bytes) : bool := fst p <? fst q.

(** Insertion into [deleted_guards_].  The set's comparator object is
    value-initialised, so its [internal_comparator] is null: comparing two pairs of
    one level dereferences it.  A search for [p] compares it with its neighbours in
    the order, one of which has the level of [p] if any element has: the insertion
    is undefined exactly then. *)
Definition guard_insert (p : Z * bytes) (s : list (Z * bytes)) : option (list (Z * bytes)) :=
  if existsb (fun q => fst q =? fst p) s then None else Some (set_insert level_lt p s).

Definition AddFile (e : VersionEdit) (level file file_size : Z) (smallest largest : bytes)
    : VersionEdit :=
  let f := {| f_refs := 0; f_allowed_seeks := Z.shiftl 1 30; f_number := file;
              f_file_size := file_size; f_smallest := smallest; f_largest := largest;
              f_guard := 0 |} in
  set_new_files e (new_files_ e ++ [(level, f)]).
Definition AddFileToSentinel (e : VersionEdit) (f : FileMetaData) (level : Z) : VersionEdit :=
  set_sentinel_files e (push_at (sentinel_files_ e) level f).
Definition AddSentinelFile (e : VersionEdit) (level allowed_seeks file_size g : Z)
    (largest smallest : bytes) (number refs : Z) : VersionEdit :=
  let meta := {| f_refs := refs; f_allowed_seeks := allowed_seeks; f_number := number;
                 f_file_size := file_size; f_smallest := smallest; f_largest := largest;
                 f_guard := g |} in
  set_sentinel_files e (push_at (sentinel_files_ e) level meta).
Definition AddSentinelFileNo (e : VersionEdit) (level number : Z) : VersionEdit :=
  set_sentinel_file_nos e (push_at (sentinel_file_nos_ e) level number).
(** The guard [AddGuard], [AddCompleteGuard] and [AddGuardWithFiles] push. *)
Definition mk_guard (level number_segments : Z) (guard_key smallest largest : bytes)
    (files : list Z) : GuardMetaData :=
  {| g_refs := 0; g_level := level; g_number_segments := number_segments;
     g_guard_key := guard_key; g_smallest := smallest; g_largest := largest;
     g_files := files; g_file_metas := [] |}.
Definition AddGuard (e : VersionEdit) (level : Z) (guard_key : bytes) : VersionEdit :=
  set_new_guards e (push_at (new_guards_ e) level (mk_guard level 0 guard_key [] [] [])).
Definition AddCompleteGuard (e : VersionEdit) (level : Z) (guard_key : bytes) : VersionEdit :=
  set_new_complete_guards e
    (push_at (new_complete_guards_ e) level (mk_guard level 0 guard_key [] [] [])).
Definition AddGuardFromExisting (e : VersionEdit) (level : Z) (g : GuardMetaData) : VersionEdit :=
  set_new_guards e (push_at (new_guards_ e) level g).
Definition AddCompleteGuardFromExisting (e : VersionEdit) (level : Z) (g : GuardMetaData)
    : VersionEdit :=
  set_new_complete_guards e (push_at (new_complete_guards_ e) level g).
Definition AddGuardWithFiles (e : VersionEdit) (level number_segments : Z)
    (guard_key smallest largest : bytes) (files : list Z) : VersionEdit :=
  set_new_guards e
    (push_at (new_guards_ e) level
       (mk_guard level number_segments guard_key smallest largest files)).
Definition DeleteFile (e : VersionEdit) (level file : Z) : VersionEdit :=
  set_deleted_files e (set_insert pair_lt (level, file) (deleted_files_ e)).
Definition DeleteGuard (e : VersionEdit) (level : Z) (guard : bytes) : option VersionEdit :=
  match guard_insert (level, guard) (deleted_guards_ e) with
  | Some s => Some (set_deleted_guards e s)
  | None => None
  end.
Definition DeleteSentinelFile (e : VersionEdit) (level file : Z) : VersionEdit :=
  set_deleted_sentinel_files e (set_insert pair_lt (level, file) (deleted_sentinel_files_ e)).
(** [guard_array\[i\] += new_guards_\[i\].size()] on 64-bit counters. *)
Definition UpdateGuards (e : VersionEdit) (guard_array : list Z) : list Z :=
  zip_with (fun n gs => u64 (n + blen gs)) guard_array (new_guards_ e).

(** ** Encoding *)

Definition EncodeTo (e : VersionEdit) (dst : bytes) : bytes :=
  let dst := if has_comparator_ e
             then PutLengthPrefixedSlice (PutVarint32 dst kComparator) (comparator_ e) else dst in
  let dst := if has_log_number_ e
             then PutVarint64 (PutVarint32 dst kLogNumber) (log_number_ e) else dst in
  let dst := if has_prev_log_number_ e
             then PutVarint64 (PutVarint32 dst kPrevLogNumber) (prev_log_number_ e) else dst in
  let dst := if has_next_file_number_ e
             then PutVarint64 (PutVarint32 dst kNextFileNumber) (next_file_number_ e) else dst in
  let dst := if has_last_sequence_ e
             then PutVarint64 (PutVarint32 dst kLastSequence) (last_sequence_ e) else dst in
  let dst := fold_left (fun dst p =>
      PutLengthPrefixedSlice (PutVarint32 (PutVarint32 dst kCompactPointer) (u32 (fst p))) (snd p))
    (compact_pointers_ e) dst in
  let dst := fold_left (fun dst p =>
      PutVarint64 (PutVarint32 (PutVarint32 dst kDeletedFile) (u32 (fst p))) (snd p))
    (deleted_files_ e) dst in
  let dst := fold_left (fun dst p =>
      let f := snd p in
      let dst := PutVarint32 (PutVarint32 dst kNewFile) (u32 (fst p)) in
      let dst := PutVarint64 (PutVarint64 dst (f_number f)) (f_file_size f) in
      PutLengthPrefixedSlice (PutLengthPrefixedSlice dst (f_smallest f)) (f_largest f))
    (new_files_ e) dst in
  let dst := fold_left (fun dst p =>
      PutLengthPrefixedSlice (PutVarint32 (PutVarint32 dst kDeletedGuard) (u32 (fst p))) (snd p))
    (deleted_guards_ e) dst in
  let put_guards := fun tag =>
    fold_left (fun dst gs => fold_left (fun dst g =>
      let dst := PutVarint32 (PutVarint32 dst tag) (u32 (g_level g)) in
      PutLengthPrefixedSlice (PutVarint64 dst 0) (g_guard_key g)) gs dst) in
  let dst := put_guards kNewGuard (new_guards_ e) dst in
  let dst := put_guards kNewCompleteGuard (new_complete_guards_ e) dst in
  fold_left (fun dst p =>
      PutVarint64 (PutVarint32 (PutVarint32 dst kDeletedSentinelFile) (u32 (fst p))) (snd p))
    (deleted_sentinel_files_ e) dst.

(** ** Decoding *)

Definition GetInternalKey (input : bytes) : option (bytes * bytes) :=
  GetLengthPrefixedSlice input.
Definition GetLevel (input : bytes) : option (Z * bytes) :=
  match GetVarint32 input with
  | Some (v, input) => if v <? kNumLevels then Some (v, input) else None
  | None => None
  end.

(** The variables of the decoding loop: the remaining input, the guard and the
    integers that are reused from one record to the next ([None]: indeterminate). *)
Record Decoder := {
  d_edit : VersionEdit;
  d_input : bytes;
  d_g : GuardMetaData;
  d_fnumber : option Z;
  d_tag2 : option Z;
}.
Definition with_edit (d : Decoder) (e : VersionEdit) (input : bytes) : Decoder :=
  {| d_edit := e; d_input := input; d_g := d_g d; d_fnumber := d_fnumber d; d_tag2 := d_tag2 d |}.

(** One record: parsed, rejected with [msg], or undefined behaviour (a failed
    [assert], an indeterminate value or a null pointer used). *)
Inductive parse :=
  | Parsed (d : Decoder)
  | Message (e : VersionEdit) (msg : bytes)
  | Undefined.

(** The file numbers of a guard: [for (j = 0; j < number_segments; j++)].  The
    results of the two reads are not tested. *)
Fixpoint read_files (asserts : bool) (n : nat) (input : bytes) (tag2 fnumber : option Z)
    (files : list Z) : option (bytes * option Z * option Z * list Z) :=
  match n with
  | O => Some (input, tag2, fnumber, files)
  | S n =>
      let '(tag2, input) :=
        match GetVarint32 input with Some (t, input) => (Some t, input) | None => (tag2, input) end in
      let tag_ok := match tag2 with Some t => t =? kFileInsideGuard | None => false end in
      if asserts && negb tag_ok then None
      else
        let '(fnumber, input) :=
          match GetVarint64 input with
          | Some (v, input) => (Some v, input)
          | None => (fnumber, input)
          end in
        match fnumber with
        | Some v => read_files asserts n input tag2 fnumber (files ++ [v])
        | None => None
        end
  end.

(** [assert(GetInternalKey(&input, &g.smallest) && GetInternalKey(&input,
    &g.largest))]: the keys are only read when assertions are compiled in. *)
Definition read_range (asserts : bool) (g : GuardMetaData) (input : bytes)
    : option (GuardMetaData * bytes) :=
  if asserts then
    match GetInternalKey input with
    | Some (smallest, input) =>
        match GetInternalKey input with
        | Some (largest, input) =>
            Some ({| g_refs := g_refs g; g_level := g_level g;
                     g_number_segments := g_number_segments g; g_guard_key := g_guard_key g;
                     g_smallest := smallest; g_largest := largest; g_files := g_files g;
                     g_file_metas := g_file_metas g |}, input)
        | None => None
        end
    | None => None
    end
  else Some (g, input).
Definition set_files (g : GuardMetaData) (files : list Z) : GuardMetaData :=
  {| g_refs := g_refs g; g_level := g_level g; g_number_segments := g_number_segments g;
     g_guard_key := g_guard_key g; g_smallest := g_smallest g; g_largest := g_largest g;
     g_files := files; g_file_metas := g_file_metas g |}.

(** [GetLevel(&input, &g.level) && GetVarint64(&input, &g.number_segments) &&
    GetInternalKey(&input, &g.guard_key)], then [g.files.clear()]. *)
Definition read_guard (g : GuardMetaData) (input : bytes) : option (GuardMetaData * bytes) :=
  match GetLevel input with
  | Some (level, input) =>
      match GetVarint64 input with
      | Some (n, input) =>
          match GetInternalKey input with
          | Some (key, input) =>
              Some ({| g_refs := g_refs g; g_level := level; g_number_segments := n;
                       g_guard_key := key; g_smallest := g_smallest g; g_largest := g_largest g;
                       g_files := []; g_file_metas := g_file_metas g |}, input)
          | None => None
          end
      | None => None
      end
  | None => None
  end.

(** [GetLevel] and a number, or a key: the operands of the two-part records. *)
Definition level_number (input : bytes) : option (Z * Z * bytes) :=
  match GetLevel input with
  | Some (level, input) =>
      match GetVarint64 input with
      | Some (number, input) => Some (level, number, input)
      | None => None
      end
  | None => None
  end.
Definition level_key (input : bytes) : option (Z * bytes * bytes) :=
  match GetLevel input with
  | Some (level, input) =>
      match GetInternalKey input with
      | Some (key, input) => Some (level, key, input)
      | None => None
      end
  | None => None
  end.
Definition level_file (input : bytes) : option (Z * FileMetaData * bytes) :=
  match level_number input with
  | Some (level, number, input) =>
      match GetVarint64 input with
      | Some (file_size, input) =>
          match GetInternalKey input with
          | Some (smallest, input) =>
              match GetInternalKey input with
              | Some (largest, input) =>
                  Some (level,
                        {| f_refs := 0; f_allowed_seeks := Z.shiftl 1 30; f_number := number;
                           f_file_size := file_size; f_smallest := smallest;
                           f_largest := largest; f_guard := 0 |}, input)
              | None => None
              end
          | None => None
          end
      | None => None
      end
  | None => None
  end.

(** The [switch] on the tag; [input] starts after it. *)
Definition DecodeFrom_record (asserts : bool) (tag : Z) (d : Decoder) : parse :=
  let e := d_edit d in
  let input := d_input d in
  let number := fun (set : VersionEdit -> Z -> VersionEdit) msg =>
    match GetVarint64 input with
    | Some (num, input) => Parsed (with_edit d (set e num) input)
    | None => Message e msg
    end in
  if tag =? kComparator then
    match GetLengthPrefixedSlice input with
    | Some (s, input) => Parsed (with_edit d (SetComparatorName e s) input)
    | None => Message e (str "comparator name")
    end
  else if tag =? kLogNumber then number SetLogNumber (str "log number")
  else if tag =? kPrevLogNumber then number SetPrevLogNumber (str "previous log number")
  else if tag =? kNextFileNumber then number SetNextFile (str "next file number")
  else if tag =? kLastSequence then number SetLastSequence (str "last sequence number")
  else if tag =? kCompactPointer then
    match level_key input with
    | Some (level, key, input) => Parsed (with_edit d (SetCompactPointer e level key) input)
    | None => Message e (str "compaction pointer")
    end
  else if tag =? kDeletedFile then
    match level_number input with
    | Some (level, number, input) => Parsed (with_edit d (DeleteFile e level number) input)
    | None => Message e (str "deleted file")
    end
  else if tag =? kDeletedGuard then
    match level_key input with
    | Some (level, key, input) =>
        match DeleteGuard e level key with
        | Some e => Parsed (with_edit d e input)
        | None => Undefined
        end
    | None => Message e (str "deleted guard")
    end
  else if tag =? kDeletedSentinelFile then
    match level_number input with
    | Some (level, number, input) =>
        Parsed (with_edit d (DeleteSentinelFile e level number) input)
    | None => Message e (str "deleted sentinel file")
    end
  else if tag =? kNewFile then
    match level_file input with
    | Some (level, f, input) =>
        Parsed (with_edit d (set_new_files e (new_files_ e ++ [(level, f)])) input)
    | None => Message e (str "new-file entry")
    end
  else if tag =? kNewSentinelFile then
    match level_number input with
    | Some (level, fnumber, input) =>
        Parsed {| d_edit := AddSentinelFileNo e level fnumber; d_input := input; d_g := d_g d;
                  d_fnumber := Some fnumber; d_tag2 := d_tag2 d |}
    | None => Message e (str "new-sentinel-file entry")
    end
  else if tag =? kNewSentinelFileNo then
    match level_file input with
    | Some (level, f, input) =>
        Parsed (with_edit d (set_new_files e (new_files_ e ++ [(level, f)])) input)
    | None => Message e (str "new-sentinel-file entry")
    end
  else if tag =? kNewGuard then
    match read_guard (d_g d) input with
    | Some (g, input) =>
        if 0 <? g_number_segments g then
          match read_range asserts g input with
          | Some (g, input) =>
              match read_files asserts (Z.to_nat (g_number_segments g)) input (d_tag2 d)
                      (d_fnumber d) [] with
              | Some (input, tag2, fnumber, files) =>
                  let g := set_files g files in
                  Parsed {| d_edit := AddGuardFromExisting e (g_level g) g; d_input := input;
                            d_g := g; d_fnumber := fnumber; d_tag2 := tag2 |}
              | None => Undefined
              end
          | None => Undefined
          end
        else
          Parsed {| d_edit := AddGuardFromExisting e (g_level g) g; d_input := input; d_g := g;
                    d_fnumber := d_fnumber d; d_tag2 := d_tag2 d |}
    | None => Message e (str "new-guard entry")
    end
  else if tag =? kNewCompleteGuard then
    match read_guard (d_g d) input with
    | Some (g, input) =>
        match (if 0 <? g_number_segments g then read_range asserts g input else Some (g, input)) with
        | Some (g, input) =>
            Parsed {| d_edit := AddCompleteGuardFromExisting e (g_level g) g; d_input := input;
                      d_g := g; d_fnumber := d_fnumber d; d_tag2 := d_tag2 d |}
        | None => Undefined
        end
    | None => Message e (str "new-complete-guard entry")
    end
  else Message e (str "unknown tag").

(** What a call returns: the status with the edit, undefined behaviour, or (for a
    loop bound that is too small) nothing. *)
Inductive decode_result :=
  | Returned (s : Status) (e : VersionEdit)
  | UndefinedBehaviour
  | OutOfFuel.

Definition corrupt_edit (msg : bytes) : Status := mkStatus kCorruption (str "VersionEdit") msg.

Fixpoint DecodeFrom_loop (asserts : bool) (fuel : nat) (d : Decoder) : decode_result :=
  match fuel with
  | O => OutOfFuel
  | S fuel =>
      match GetVarint32 (d_input d) with
      | Some (tag, input) =>
          match DecodeFrom_record asserts tag (with_edit d (d_edit d) input) with
          | Parsed d => DecodeFrom_loop asserts fuel d
          | Message e msg => Returned (corrupt_edit msg) e
          | Undefined => UndefinedBehaviour
          end
      | None =>
          match d_input d with
          | [] => Returned OK (d_edit d)
          | _ => Returned (corrupt_edit (str "invalid tag")) (d_edit d)
          end
      end
  end.

(** Every iteration reads at least one byte. *)
Definition DecodeFrom (asserts : bool) (e : VersionEdit) (src : bytes) : decode_result :=
  DecodeFrom_loop asserts (S (length src))
    {| d_edit := Clear e; d_input := src; d_g := GuardMetaData_new; d_fnumber := None;
       d_tag2 := None |}.

(** ** The records of an edit *)

Inductive edit_record :=
  | RComparator (name : bytes)
  | RNumber (tag num : Z)
  | RLevelKey (tag level : Z) (key : bytes)
  | RLevelNumber (tag level number : Z)
  | RFile (level : Z) (f : FileMetaData)
  | RGuard (tag level : Z) (key : bytes).

Definition record_bytes (r : edit_record) : bytes :=
  match r with
  | RComparator name => EncodeVarint32 kComparator ++ LengthPrefixed name
  | RNumber tag num => EncodeVarint32 tag ++ EncodeVarint64 num
  | RLevelKey tag level key =>
      EncodeVarint32 tag ++ EncodeVarint32 (u32 level) ++ LengthPrefixed key
  | RLevelNumber tag level number =>
      EncodeVarint32 tag ++ EncodeVarint32 (u32 level) ++ EncodeVarint64 number
  | RFile level f =>
      EncodeVarint32 kNewFile ++ EncodeVarint32 (u32 level) ++ EncodeVarint64 (f_number f) ++
      EncodeVarint64 (f_file_size f) ++ LengthPrefixed (f_smallest f) ++ LengthPrefixed (f_largest f)
  | RGuard tag level key =>
      EncodeVarint32 tag ++ EncodeVarint32 (u32 level) ++ EncodeVarint64 0 ++ LengthPrefixed key
  end.

Definition opt_record (has : bool) (r : edit_record) : list edit_record := if has then [r] else [].
Definition guard_records (tag : Z) (gs : list (list GuardMetaData)) : list edit_record :=
  (fun g => RGuard tag (g_level g) (g_guard_key g)) <$> concat gs.
Definition edit_records (e : VersionEdit) : list edit_record :=
  opt_record (has_comparator_ e) (RComparator (comparator_ e)) ++
  opt_record (has_log_number_ e) (RNumber kLogNumber (log_number_ e)) ++
  opt_record (has_prev_log_number_ e) (RNumber kPrevLogNumber (prev_log_number_ e)) ++
  opt_record (has_next_file_number_ e) (RNumber kNextFileNumber (next_file_number_ e)) ++
  opt_record (has_last_sequence_ e) (RNumber kLastSequence (last_sequence_ e)) ++
  ((fun p => RLevelKey kCompactPointer (fst p) (snd p)) <$> compact_pointers_ e) ++
  ((fun p => RLevelNumber kDeletedFile (fst p) (snd p)) <$> deleted_files_ e) ++
  ((fun p => RFile (fst p) (snd p)) <$> new_files_ e) ++
  ((fun p => RLevelKey kDeletedGuard (fst p) (snd p)) <$> deleted_guards_ e) ++
  guard_records kNewGuard (new_guards_ e) ++
  guard_records kNewCompleteGuard (new_complete_guards_ e) ++
  ((fun p => RLevelNumber kDeletedSentinelFile (fst p) (snd p)) <$> deleted_sentinel_files_ e).
Definition records_bytes (rs : list edit_record) : bytes := concat (record_bytes <$> rs).

Lemma records_bytes_app rs rs' : records_bytes (rs ++ rs') = records_bytes rs ++ records_bytes rs'.
Proof. unfold records_bytes. by rewrite fmap_app, concat_app. Qed.
Lemma opt_record_bytes has r :
  records_bytes (opt_record has r) = if has then record_bytes r else [].
Proof. destruct has; [|done]. unfold records_bytes. cbn. apply app_nil_r. Qed.

(** A loop that appends one record per element. *)
Lemma fold_records {A} (put : bytes -> A -> bytes) (r : A -> edit_record) (l : list A) :
  (forall dst x, put dst x = dst ++ record_bytes (r x)) ->
  forall dst, fold_left put l dst = dst ++ records_bytes (r <$> l).
Proof.
  intros Hput. induction l as [|x l IH]; intros dst; cbn [fold_left]; [symmetry; apply app_nil_r|].
  rewrite IH, Hput, <- app_assoc. done.
Qed.
Lemma fold_concat {A B} (f : B -> A -> B) (ls : list (list A)) b :
  fold_left (fun b l => fold_left f l b) ls b = fold_left f (concat ls) b.
Proof.
  revert b. induction ls as [|l ls IH]; intros b; [done|]. cbn [fold_left concat].
  by rewrite IH, fold_left_app.
Qed.

Ltac put_record := intros; cbn [record_bytes]; unfold PutVarint32, PutVarint64;
  rewrite ?PutLengthPrefixedSlice_app, <- ?app_assoc; reflexivity.
Lemma put_opt (has : bool) dst put r :
  put = dst ++ record_bytes r ->
  (if has then put else dst) = dst ++ records_bytes (opt_record has r).
Proof. intros ->. rewrite opt_record_bytes. destruct has; [done|]. by rewrite app_nil_r. Qed.

Lemma EncodeTo_records e dst : EncodeTo e dst = dst ++ records_bytes (edit_records e).
Proof.
  unfold EncodeTo, edit_records, guard_records. cbv zeta. rewrite !fold_concat.
  rewrite (put_opt (has_comparator_ e) dst _ (RComparator (comparator_ e))) by put_record.
  rewrite (put_opt (has_log_number_ e) _ _ (RNumber kLogNumber (log_number_ e))) by put_record.
  rewrite (put_opt (has_prev_log_number_ e) _ _ (RNumber kPrevLogNumber (prev_log_number_ e)))
    by put_record.
  rewrite (put_opt (has_next_file_number_ e) _ _ (RNumber kNextFileNumber (next_file_number_ e)))
    by put_record.
  rewrite (put_opt (has_last_sequence_ e) _ _ (RNumber kLastSequence (last_sequence_ e)))
    by put_record.
  rewrite (fold_records _ (fun p => RLevelKey kCompactPointer (fst p) (snd p)) (compact_pointers_ e)) by put_record.
  rewrite (fold_records _ (fun p => RLevelNumber kDeletedFile (fst p) (snd p)) (deleted_files_ e)) by put_record.
  rewrite (fold_records _ (fun p => RFile (fst p) (snd p)) (new_files_ e)) by put_record.
  rewrite (fold_records _ (fun p => RLevelKey kDeletedGuard (fst p) (snd p)) (deleted_guards_ e))
    by put_record.
  rewrite (fold_records _ (fun g => RGuard kNewGuard (g_level g) (g_guard_key g))
    (concat (new_guards_ e))) by put_record.
  rewrite (fold_records _ (fun g => RGuard kNewCompleteGuard (g_level g) (g_guard_key g))
    (concat (new_complete_guards_ e)))
    by put_record.
  rewrite (fold_records _ (fun p => RLevelNumber kDeletedSentinelFile (fst p) (snd p))
    (deleted_sentinel_files_ e)) by put_record.
  by rewrite !records_bytes_app, <- !app_assoc.
Qed.

(** ** Decoding one record *)

Definition level_ok (level : Z) : Prop := 0 <= level < kNumLevels.
Definition ikey_ok (key : bytes) : Prop := 1 <= blen key < 2 ^ 32.
Definition file_ok (f : FileMetaData) : Prop :=
  is_u64 (f_number f) /\ is_u64 (f_file_size f) /\ ikey_ok (f_smallest f) /\ ikey_ok (f_largest f).
Definition number_tags : list Z := [kLogNumber; kPrevLogNumber; kNextFileNumber; kLastSequence].
Definition record_ok (r : edit_record) : Prop :=
  match r with
  | RComparator name => blen name < 2 ^ 32
  | RNumber tag num => In tag number_tags /\ is_u64 num
  | RLevelKey tag level key => In tag [kCompactPointer; kDeletedGuard] /\ level_ok level /\ ikey_ok key
  | RLevelNumber tag level number =>
      In tag [kDeletedFile; kDeletedSentinelFile] /\ level_ok level /\ is_u64 number
  | RFile level f => level_ok level /\ file_ok f
  | RGuard tag level key => In tag [kNewGuard; kNewCompleteGuard] /\ level_ok level /\ ikey_ok key
  end.

Definition persisted_file (f : FileMetaData) : FileMetaData :=
  {| f_refs := 0; f_allowed_seeks := Z.shiftl 1 30; f_number := f_number f;
     f_file_size := f_file_size f; f_smallest := f_smallest f; f_largest := f_largest f;
     f_guard := 0 |}.

(** The effect of a record on the edit being decoded. *)
Definition apply_record (e : VersionEdit) (r : edit_record) : VersionEdit :=
  match r with
  | RComparator name => SetComparatorName e name
  | RNumber tag num =>
      if tag =? kLogNumber then SetLogNumber e num
      else if tag =? kPrevLogNumber then SetPrevLogNumber e num
      else if tag =? kNextFileNumber then SetNextFile e num
      else SetLastSequence e num
  | RLevelKey tag level key =>
      if tag =? kCompactPointer then SetCompactPointer e level key
      else set_deleted_guards e (set_insert level_lt (level, key) (deleted_guards_ e))
  | RLevelNumber tag level number =>
      if tag =? kDeletedFile then DeleteFile e level number else DeleteSentinelFile e level number
  | RFile level f => set_new_files e (new_files_ e ++ [(level, persisted_file f)])
  | RGuard tag level key =>
      if tag =? kNewGuard then AddGuard e level key else AddCompleteGuard e level key
  end.

(** A guard may be deleted when no guard of its level has been deleted before. *)
Definition applicable (e : VersionEdit) (r : edit_record) : Prop :=
  match r with
  | RLevelKey tag level _ =>
      tag = kDeletedGuard -> existsb (fun q => fst q =? level) (deleted_guards_ e) = false
  | _ => True
  end.

(** The reused guard stays as it was built as long as no guard has segments. *)
Definition fresh_guard (g : GuardMetaData) : Prop :=
  g_refs g = 0 /\ g_smallest g = [] /\ g_largest g = [] /\ g_file_metas g = [].

Lemma GetLevel_encode level rest :
  level_ok level -> GetLevel (EncodeVarint32 (u32 level) ++ rest) = Some (level, rest).
Proof.
  unfold level_ok. intros Hl. assert (kNumLevels = 7) as H7 by done.
  unfold GetLevel. rewrite u32_small by rlia. rewrite GetVarint32_encode by rlia.
  by rewrite (proj2 (Z.ltb_lt _ _)) by lia.
Qed.
Lemma GetInternalKey_encode key rest :
  ikey_ok key -> GetInternalKey (LengthPrefixed key ++ rest) = Some (key, rest).
Proof. intros Hk. unfold GetInternalKey. apply roundtrip. apply Hk. Qed.

Lemma level_key_encode level key rest :
  level_ok level -> ikey_ok key ->
  level_key (EncodeVarint32 (u32 level) ++ LengthPrefixed key ++ rest) = Some (level, key, rest).
Proof. intros. unfold level_key. by rewrite GetLevel_encode, GetInternalKey_encode. Qed.
Lemma level_number_encode level number rest :
  level_ok level -> is_u64 number ->
  level_number (EncodeVarint32 (u32 level) ++ EncodeVarint64 number ++ rest) =
  Some (level, number, rest).
Proof. intros. unfold level_number. by rewrite GetLevel_encode, GetVarint64_encode. Qed.
Lemma level_file_encode level f rest :
  level_ok level -> file_ok f ->
  level_file (EncodeVarint32 (u32 level) ++ EncodeVarint64 (f_number f) ++
              EncodeVarint64 (f_file_size f) ++ LengthPrefixed (f_smallest f) ++
              LengthPrefixed (f_largest f) ++ rest) = Some (level, persisted_file f, rest).
Proof.
  intros Hl (? & ? & ? & ?). unfold level_file.
  by rewrite level_number_encode, GetVarint64_encode, !GetInternalKey_encode by done.
Qed.
Lemma read_guard_encode g level key rest :
  level_ok level -> ikey_ok key -> fresh_guard g ->
  read_guard g (EncodeVarint32 (u32 level) ++ EncodeVarint64 0 ++ LengthPrefixed key ++ rest) =
  Some (mk_guard level 0 key [] [] [], rest).
Proof.
  intros Hl Hk (Hr & Hs & Hg & Hf). unfold read_guard.
  rewrite GetLevel_encode, GetVarint64_encode, GetInternalKey_encode by done.
  unfold mk_guard. by rewrite Hr, Hs, Hg, Hf.
Qed.

(** The record without its tag. *)
Definition record_tag (r : edit_record) : Z :=
  match r with
  | RComparator _ => kComparator
  | RNumber tag _ | RLevelKey tag _ _ | RLevelNumber tag _ _ | RGuard tag _ _ => tag
  | RFile _ _ => kNewFile
  end.
Definition record_body (r : edit_record) : bytes :=
  drop (length (EncodeVarint32 (record_tag r))) (record_bytes r).
Lemma record_split r : record_bytes r = EncodeVarint32 (record_tag r) ++ record_body r.
Proof. destruct r; unfold record_body; cbn [record_bytes record_tag]; by rewrite drop_app_length. Qed.

Lemma DecodeFrom_record_ok asserts r d rest :
  record_ok r -> applicable (d_edit d) r -> fresh_guard (d_g d) -> d_input d = record_body r ++ rest ->
  exists d', DecodeFrom_record asserts (record_tag r) d = Parsed d' /\
    d_edit d' = apply_record (d_edit d) r /\ d_input d' = rest /\ fresh_guard (d_g d').
Proof.
  destruct r as [name|tag num|tag level key|tag level number|level f|tag level key];
    unfold record_body; cbn [record_ok applicable record_tag record_bytes]; intros Hok Happ Hg Hin;
    rewrite drop_app_length, <- ?app_assoc in Hin; unfold DecodeFrom_record; rewrite Hin.
  - cbn [Z.eqb]. change (kComparator =? kComparator) with true.
    rewrite (roundtrip (enc := LengthPrefixed)) by done. by eexists.
  - destruct Hok as [Htag Hn]. unfold number_tags in Htag. rewrite GetVarint64_encode by done.
    cbn [In] in Htag. destruct Htag as [<-|[<-|[<-|[<-|[]]]]]; by eexists.
  - destruct Hok as (Htag & Hl & Hk). rewrite level_key_encode by done.
    cbn [In] in Htag. destruct Htag as [<-|[<-|[]]]; [by eexists|].
    cbn. unfold DeleteGuard, guard_insert. cbn [fst]. rewrite Happ by done. by eexists.
  - destruct Hok as (Htag & Hl & Hk). rewrite level_number_encode by done.
    cbn [In] in Htag. destruct Htag as [<-|[<-|[]]]; by eexists.
  - destruct Hok as [Hl Hf]. rewrite level_file_encode by done. by eexists.
  - destruct Hok as (Htag & Hl & Hk). rewrite read_guard_encode by done.
    cbn [In] in Htag. destruct Htag as [<-|[<-|[]]]; by eexists.
Qed.

(** ** Decoding a sequence of records *)

Fixpoint all_applicable (e : VersionEdit) (rs : list edit_record) : Prop :=
  match rs with
  | [] => True
  | r :: rs => applicable e r /\ all_applicable (apply_record e r) rs
  end.
Lemma all_applicable_app e rs rs' :
  all_applicable e (rs ++ rs') <->
  all_applicable e rs /\ all_applicable (fold_left apply_record rs e) rs'.
Proof. revert e. induction rs as [|r rs IH]; intros e; cbn; [tauto|]. rewrite IH. tauto. Qed.

Lemma record_tag_u32 r : record_ok r -> is_u32 (record_tag r).
Proof.
  destruct r; cbn [record_ok record_tag]; unfold number_tags; cbn [In]; intros Hok;
    repeat match goal with H : _ /\ _ |- _ => destruct H | H : _ \/ _ |- _ => destruct H end;
    subst; done.
Qed.
Lemma record_bytes_length r : record_ok r -> (1 <= length (record_bytes r))%nat.
Proof.
  intros Hr%record_tag_u32. rewrite record_split, length_app.
  pose proof (EncodeVarint64_length (record_tag r)) as H.
  rewrite <- EncodeVarint32_loop in H by done. ulia.
Qed.

(** What the loop does after valid records: it continues with their effect. *)
Lemma DecodeFrom_loop_records asserts rs :
  forall d rest fuel, Forall record_ok rs -> all_applicable (d_edit d) rs -> fresh_guard (d_g d) ->
  d_input d = records_bytes rs ++ rest -> (length (d_input d) < fuel)%nat ->
  exists d' fuel', DecodeFrom_loop asserts fuel d = DecodeFrom_loop asserts fuel' d' /\
    d_edit d' = fold_left apply_record rs (d_edit d) /\ d_input d' = rest /\ fresh_guard (d_g d') /\
    (length rest < fuel')%nat.
Proof.
  induction rs as [|r rs IH]; intros d rest fuel Hok Happ Hg Hin Hf.
  { exists d, fuel. change (records_bytes [] ++ rest) with rest in Hin. by rewrite <- Hin. }
  inversion_clear Hok as [|? ? Hr Hrs]. destruct Happ as [Ha Happ].
  change (records_bytes (r :: rs)) with (record_bytes r ++ records_bytes rs) in Hin.
  destruct fuel as [|fuel]; [lia|]. cbn [DecodeFrom_loop].
  assert (length (d_input d) = length (record_bytes r) + length (records_bytes rs ++ rest))%nat as Hl
    by (rewrite Hin, <- app_assoc, length_app; lia).
  pose proof (record_bytes_length r Hr) as Hlr.
  rewrite Hin. rewrite (record_split r), <- !app_assoc. rewrite GetVarint32_encode by (by apply record_tag_u32).
  destruct (DecodeFrom_record_ok asserts r (with_edit d (d_edit d) (record_body r ++ records_bytes rs ++ rest))
              (records_bytes rs ++ rest)) as (d' & E & He & Hi & Hg'); [done..|].
  rewrite E. cbn [with_edit d_edit] in He.
  destruct (IH d' rest fuel) as (d2 & fuel2 & E2 & He2 & Hrest).
  - done.
  - by rewrite He.
  - done.
  - done.
  - rewrite Hi. lia.
  - exists d2, fuel2. split; [done|]. rewrite He2, He. done.
Qed.

(** ** The effect of the records of an edit *)

Definition persisted_guard (g : GuardMetaData) : GuardMetaData :=
  mk_guard (g_level g) 0 (g_guard_key g) [] [] [].

Definition persisted_guards (gs : list (list GuardMetaData)) : list (list GuardMetaData) :=
  fmap (M := list) (fmap (M := list) persisted_guard) gs.
Definition persisted_files (fs : list (Z * FileMetaData)) : list (Z * FileMetaData) :=
  (fun p => (fst p, persisted_file (snd p))) <$> fs.

(** What a reader of the encoding obtains: the fields written, in an edit [e0] that
    keeps what [Clear] keeps. *)
Definition persisted (e0 e : VersionEdit) : VersionEdit :=
  {| comparator_ := if has_comparator_ e then comparator_ e else [];
     log_number_ := if has_log_number_ e then log_number_ e else 0;
     prev_log_number_ := if has_prev_log_number_ e then prev_log_number_ e else 0;
     next_file_number_ := if has_next_file_number_ e then next_file_number_ e else 0;
     last_sequence_ := if has_last_sequence_ e then last_sequence_ e else 0;
     has_comparator_ := has_comparator_ e; has_log_number_ := has_log_number_ e;
     has_prev_log_number_ := has_prev_log_number_ e; has_next_file_number_ := has_next_file_number_ e;
     has_last_sequence_ := has_last_sequence_ e;
     compact_pointers_ := compact_pointers_ e0 ++ compact_pointers_ e;
     deleted_files_ := deleted_files_ e; new_files_ := persisted_files (new_files_ e);
     sentinel_files_ := no_levels; sentinel_file_nos_ := sentinel_file_nos_ e0;
     deleted_sentinel_files_ := deleted_sentinel_files_ e;
     new_guards_ := persisted_guards (new_guards_ e);
     new_complete_guards_ := 
       zip_with app (new_complete_guards_ e0) (persisted_guards (new_complete_guards_ e));
     deleted_guards_ := deleted_guards_ e |}.

Definition set_compact_pointers (e : VersionEdit) (x : list (Z * bytes)) : VersionEdit :=
  {| comparator_ := comparator_ e; log_number_ := log_number_ e;
     prev_log_number_ := prev_log_number_ e; next_file_number_ := next_file_number_ e;
     last_sequence_ := last_sequence_ e; has_comparator_ := has_comparator_ e;
     has_log_number_ := has_log_number_ e; has_prev_log_number_ := has_prev_log_number_ e;
     has_next_file_number_ := has_next_file_number_ e; has_last_sequence_ := has_last_sequence_ e;
     compact_pointers_ := x; deleted_files_ := deleted_files_ e; new_files_ := new_files_ e;
     sentinel_files_ := sentinel_files_ e; sentinel_file_nos_ := sentinel_file_nos_ e;
     deleted_sentinel_files_ := deleted_sentinel_files_ e; new_guards_ := new_guards_ e;
     new_complete_guards_ := new_complete_guards_ e; deleted_guards_ := deleted_guards_ e |}.

(** A member and the assignment to it. *)
Section Member.
Context {A X : Type} (get : VersionEdit -> A) (set : VersionEdit -> A -> VersionEdit).
Context (get_set : forall e a, get (set e a) = a)
        (set_set : forall e a b, set (set e a) b = set e b)
        (set_get : forall e, set e (get e) = e).
Context (r : X -> edit_record) (step : A -> X -> A)
        (Hstep : forall e x, apply_record e (r x) = set e (step (get e) x)).

Lemma fold_member l e :
  fold_left apply_record (r <$> l) e = set e (fold_left step l (get e)).
Proof.
  revert e. induction l as [|x l IH]; intros e; cbn [fold_left fmap list_fmap]; [symmetry; apply set_get|].
  rewrite Hstep, IH, get_set. apply set_set.
Qed.
End Member.

Lemma fold_push_back {A B} (h : B -> A) l (v : list A) :
  fold_left (fun v x => v ++ [h x]) l v = v ++ (h <$> l).
Proof.
  revert v. induction l as [|x l IH]; intros v; cbn; [by rewrite app_nil_r|].
  by rewrite IH, <- app_assoc.
Qed.

Lemma set_insert_last {A} (lt : A -> A -> bool) x s :
  (forall y, y ∈ s -> lt y x = true) -> (forall y z, lt y z = true -> lt z y = false) ->
  set_insert lt x s = s ++ [x].
Proof.
  intros Hlt Hasym. induction s as [|y s IH]; [done|]. cbn.
  assert (lt y x = true) as Hy by (apply Hlt; by left).
  rewrite (Hasym _ _ Hy), Hy, IH; [done|]. intros z Hz. apply Hlt. by right.
Qed.
Lemma fold_set_insert {A} (lt : A -> A -> bool) l s :
  (forall y z, lt y z = true -> lt z y = false) ->
  StronglySorted (fun x y => lt x y = true) (s ++ l) ->
  fold_left (fun s x => set_insert lt x s) l s = s ++ l.
Proof.
  intros Hasym. revert s. induction l as [|x l IH]; intros s Hs; cbn; [by rewrite app_nil_r|].
  rewrite set_insert_last; [|intros y Hy|done].
  - rewrite IH, <- app_assoc; [done|]. by rewrite <- app_assoc.
  - apply (StronglySorted_app_1_elem_of _ _ _ y x Hs Hy). by left.
Qed.

Lemma fold_push_at {A B} (lev : B -> Z) (h : B -> A) k l (v : list (list A)) :
  Forall (fun g => lev g = Z.of_nat k) l ->
  fold_left (fun v g => push_at v (lev g) (h g)) l v = alter (fun x => x ++ (h <$> l)) k v.
Proof.
  intros Hl. revert v. induction Hl as [|g l Hg Hl IH]; intros v; cbn [fold_left fmap list_fmap].
  - symmetry. apply list_alter_id. intros. apply app_nil_r.
  - rewrite IH. unfold push_at. rewrite Hg, Nat2Z.id, list_alter_alter_eq.
    apply list_alter_ext; [|done]. intros x _. cbn. by rewrite <- app_assoc.
Qed.
Definition at_levels {B} (lev : B -> Z) (start : nat) (gs : list (list B)) : Prop :=
  forall k l, gs !! k = Some l -> Forall (fun g => lev g = Z.of_nat (start + k)) l.
Lemma fold_push_levels {A B} (lev : B -> Z) (h : B -> A) (gs : list (list B)) :
  forall pre v : list (list A), at_levels lev (length pre) gs -> length v = length gs ->
  fold_left (fun v g => push_at v (lev g) (h g)) (concat gs) (pre ++ v) =
  pre ++ zip_with app v (fmap (M := list) (fmap (M := list) h) gs).
Proof.
  induction gs as [|g gs IH]; intros pre v Hgs Hv; destruct v as [|x v]; [done|discriminate Hv|discriminate Hv|].
  cbn [concat fmap list_fmap zip_with]. rewrite fold_left_app.
  rewrite (fold_push_at lev h (length pre) g).
  2: { pose proof (Hgs 0%nat g eq_refl) as H0. rewrite Nat.add_0_r in H0. exact H0. }
  replace (length pre) with (length pre + 0)%nat by lia. rewrite alter_app_r. cbn [alter list_alter].
  replace (pre ++ (x ++ (h <$> g)) :: v) with ((pre ++ [x ++ (h <$> g)]) ++ v) by (by rewrite <- app_assoc).
  rewrite IH.
  - by rewrite <- app_assoc.
  - intros k l Hk. rewrite length_app. cbn [length]. rewrite <- Nat.add_assoc. by apply Hgs.
  - cbn in Hv. lia.
Qed.

(** ** Well-formed edits *)

Definition guard_lists_ok (gs : list (list GuardMetaData)) : Prop :=
  length gs = Z.to_nat kNumLevels /\ at_levels g_level 0 gs /\
  Forall (fun g => ikey_ok (g_guard_key g)) (concat gs).
Record edit_ok (e : VersionEdit) : Prop := {
  ok_comparator : blen (comparator_ e) < 2 ^ 32;
  ok_numbers : Forall is_u64 [log_number_ e; prev_log_number_ e; next_file_number_ e; last_sequence_ e];
  ok_compact : Forall (fun p => level_ok (fst p) /\ ikey_ok (snd p)) (compact_pointers_ e);
  ok_deleted : Forall (fun p => level_ok (fst p) /\ is_u64 (snd p)) (deleted_files_ e);
  ok_deleted_set : StronglySorted (fun p q => pair_lt p q = true) (deleted_files_ e);
  ok_files : Forall (fun p => level_ok (fst p) /\ file_ok (snd p)) (new_files_ e);
  ok_deleted_guards : Forall (fun p => level_ok (fst p) /\ ikey_ok (snd p)) (deleted_guards_ e);
  ok_deleted_guards_set : StronglySorted (fun p q => level_lt p q = true) (deleted_guards_ e);
  ok_guards : guard_lists_ok (new_guards_ e);
  ok_complete_guards : guard_lists_ok (new_complete_guards_ e);
  ok_sentinel : Forall (fun p => level_ok (fst p) /\ is_u64 (snd p)) (deleted_sentinel_files_ e);
  ok_sentinel_set : StronglySorted (fun p q => pair_lt p q = true) (deleted_sentinel_files_ e);
}.

Lemma pair_lt_asym p q : pair_lt p q = true -> pair_lt q p = false.
Proof.
  unfold pair_lt. rewrite orb_true_iff, andb_true_iff, orb_false_iff, andb_false_iff,
    !Z.ltb_lt, !Z.ltb_ge, Z.eqb_eq, Z.eqb_neq. lia.
Qed.
Lemma level_lt_asym p q : level_lt p q = true -> level_lt q p = false.
Proof. unfold level_lt. rewrite Z.ltb_lt, Z.ltb_ge. lia. Qed.

Lemma guard_level_ok gs g : guard_lists_ok gs -> In g (concat gs) -> level_ok (g_level g).
Proof.
  intros (Hlen & Hlev & _) Hg. apply in_concat in Hg as (l & Hl & Hg).
  apply list_elem_of_In, list_elem_of_lookup in Hl as [k Hk].
  pose proof (Hlev k l Hk) as Hall. rewrite List.Forall_forall in Hall. specialize (Hall g Hg).
  apply lookup_lt_Some in Hk. unfold level_ok. lia.
Qed.

Lemma guard_records_ok tag gs :
  In tag [kNewGuard; kNewCompleteGuard] -> guard_lists_ok gs -> Forall record_ok (guard_records tag gs).
Proof.
  intros Htag Hgs. pose proof Hgs as (_ & _ & Hk). apply Forall_fmap, List.Forall_forall. intros g Hg.
  rewrite List.Forall_forall in Hk. split; [done|]. split; [by apply (guard_level_ok gs)|by apply Hk].
Qed.
Lemma fmap_records_ok {A} (r : A -> edit_record) (P : A -> Prop) l :
  Forall P l -> (forall x, P x -> record_ok (r x)) -> Forall record_ok (r <$> l).
Proof. intros Hl Hr. apply Forall_fmap. eapply List.Forall_impl; [|exact Hl]. exact Hr. Qed.
Lemma opt_record_ok has r : record_ok r -> Forall record_ok (opt_record has r).
Proof. intros. destruct has; [by constructor|constructor]. Qed.

Lemma edit_records_ok e : edit_ok e -> Forall record_ok (edit_records e).
Proof.
  intros [Hc Hn Hcp Hdf _ Hf Hdg _ Hg Hcg Hs _].
  inversion_clear Hn as [|? ? Hn1 Hn']. inversion_clear Hn' as [|? ? Hn2 Hn''].
  inversion_clear Hn'' as [|? ? Hn3 Hn3']. inversion_clear Hn3' as [|? ? Hn4 _].
  unfold edit_records. rewrite !Forall_app. split_and!;
    try (apply opt_record_ok; cbn; unfold number_tags; cbn; tauto).
  - apply (fmap_records_ok _ _ _ Hcp). cbn. tauto.
  - apply (fmap_records_ok _ _ _ Hdf). cbn. tauto.
  - apply (fmap_records_ok _ _ _ Hf). cbn. tauto.
  - apply (fmap_records_ok _ _ _ Hdg). cbn. tauto.
  - apply guard_records_ok; [by left|done].
  - apply guard_records_ok; [by right; left|done].
  - apply (fmap_records_ok _ _ _ Hs). cbn. tauto.
Qed.

(** The groups of records, one after the other. *)
Ltac member := intros; repeat match goal with e : VersionEdit |- _ => destruct e end; reflexivity.
Lemma apply_compact l e :
  fold_left apply_record ((fun p => RLevelKey kCompactPointer (fst p) (snd p)) <$> l) e =
  set_compact_pointers e (compact_pointers_ e ++ l).
Proof.
  rewrite (fold_member compact_pointers_ set_compact_pointers ltac:(member) ltac:(member) ltac:(member)
             (fun p => RLevelKey kCompactPointer (fst p) (snd p))
             (fun v p => v ++ [p]) ltac:(by intros ? [])).
  f_equal. rewrite <- (list_fmap_id l) at 2. apply (fold_push_back id).
Qed.
Lemma apply_deleted l e :
  deleted_files_ e = [] -> StronglySorted (fun p q => pair_lt p q = true) l ->
  fold_left apply_record ((fun p => RLevelNumber kDeletedFile (fst p) (snd p)) <$> l) e =
  set_deleted_files e l.
Proof.
  intros He Hl.
  rewrite (fold_member deleted_files_ set_deleted_files ltac:(member) ltac:(member) ltac:(member)
             (fun p => RLevelNumber kDeletedFile (fst p) (snd p))
             (fun s p => set_insert pair_lt p s) ltac:(by intros ? [])).
  rewrite He, fold_set_insert; [done|apply pair_lt_asym|done].
Qed.
Lemma apply_sentinel l e :
  deleted_sentinel_files_ e = [] -> StronglySorted (fun p q => pair_lt p q = true) l ->
  fold_left apply_record ((fun p => RLevelNumber kDeletedSentinelFile (fst p) (snd p)) <$> l) e =
  set_deleted_sentinel_files e l.
Proof.
  intros He Hl.
  rewrite (fold_member deleted_sentinel_files_ set_deleted_sentinel_files
             ltac:(member) ltac:(member) ltac:(member)
             (fun p => RLevelNumber kDeletedSentinelFile (fst p) (snd p))
             (fun s p => set_insert pair_lt p s) ltac:(by intros ? [])).
  rewrite He, fold_set_insert; [done|apply pair_lt_asym|done].
Qed.
Lemma apply_deleted_guards l e :
  deleted_guards_ e = [] -> StronglySorted (fun p q => level_lt p q = true) l ->
  fold_left apply_record ((fun p => RLevelKey kDeletedGuard (fst p) (snd p)) <$> l) e =
  set_deleted_guards e l.
Proof.
  intros He Hl.
  rewrite (fold_member deleted_guards_ set_deleted_guards ltac:(member) ltac:(member) ltac:(member)
             (fun p => RLevelKey kDeletedGuard (fst p) (snd p))
             (fun s p => set_insert level_lt p s) ltac:(by intros ? [])).
  rewrite He, fold_set_insert; [done|apply level_lt_asym|done].
Qed.
Lemma apply_files l e :
  fold_left apply_record ((fun p => RFile (fst p) (snd p)) <$> l) e =
  set_new_files e (new_files_ e ++ persisted_files l).
Proof.
  rewrite (fold_member new_files_ set_new_files ltac:(member) ltac:(member) ltac:(member)
             (fun p => RFile (fst p) (snd p))
             (fun v p => v ++ [(fst p, persisted_file (snd p))]) ltac:(done)).
  by rewrite fold_push_back.
Qed.
Lemma zip_no_levels {A} (gs : list (list A)) :
  length gs = Z.to_nat kNumLevels -> zip_with app no_levels gs = gs.
Proof.
  unfold no_levels. generalize (Z.to_nat kNumLevels). intros n. revert gs.
  induction n as [|n IH]; intros [|g gs] H; [done|done|done|]. cbn. rewrite IH; [done|]. by injection H.
Qed.
Lemma apply_guards gs e :
  guard_lists_ok gs -> new_guards_ e = no_levels ->
  fold_left apply_record (guard_records kNewGuard gs) e = set_new_guards e (persisted_guards gs).
Proof.
  intros (Hlen & Hlev & _) He. unfold guard_records.
  rewrite (fold_member new_guards_ set_new_guards ltac:(member) ltac:(member) ltac:(member)
             (fun g => RGuard kNewGuard (g_level g) (g_guard_key g))
             (fun v g => push_at v (g_level g) (persisted_guard g)) ltac:(done)).
  f_equal. rewrite He. etransitivity;
    [apply (fold_push_levels g_level persisted_guard gs []); [done|by rewrite Hlen]|].
  apply zip_no_levels. unfold persisted_guards. by rewrite length_fmap.
Qed.
Lemma apply_complete_guards gs e :
  guard_lists_ok gs -> length (new_complete_guards_ e) = Z.to_nat kNumLevels ->
  fold_left apply_record (guard_records kNewCompleteGuard gs) e =
  set_new_complete_guards e (zip_with app (new_complete_guards_ e) (persisted_guards gs)).
Proof.
  intros (Hlen & Hlev & _) He. unfold guard_records.
  rewrite (fold_member new_complete_guards_ set_new_complete_guards
             ltac:(member) ltac:(member) ltac:(member)
             (fun g => RGuard kNewCompleteGuard (g_level g) (g_guard_key g))
             (fun v g => push_at v (g_level g) (persisted_guard g)) ltac:(done)).
  f_equal. apply (fold_push_levels g_level persisted_guard gs []); [done|by rewrite Hlen].
Qed.

Lemma apply_opt has r e :
  fold_left apply_record (opt_record has r) e = if has then apply_record e r else e.
Proof. by destruct has. Qed.

Lemma applicable_fmap {A} (r : A -> edit_record) l e :
  (forall e x, applicable e (r x)) -> all_applicable e (r <$> l).
Proof.
  intros Hr. revert e. induction l as [|x l IH]; intros e; cbn; [done|]. split; [apply Hr|apply IH].
Qed.
Lemma applicable_opt has r e : applicable e r -> all_applicable e (opt_record has r).
Proof. by destruct has. Qed.
Lemma applicable_deleted_guards l : forall e,
  StronglySorted (fun p q => level_lt p q = true) (deleted_guards_ e ++ l) ->
  all_applicable e ((fun p => RLevelKey kDeletedGuard (fst p) (snd p)) <$> l).
Proof.
  induction l as [|p l IH]; intros e Hs; cbn [fmap list_fmap all_applicable]; [done|].
  assert (forall q, q ∈ deleted_guards_ e -> level_lt q p = true) as Hlt.
  { intros q Hq. apply (StronglySorted_app_1_elem_of _ _ _ q p Hs Hq). by left. }
  split.
  - intros _. cbn [fst]. apply not_true_iff_false. intros (q & Hq & Hp)%existsb_exists.
    apply list_elem_of_In in Hq. specialize (Hlt q Hq). unfold level_lt in Hlt. lia.
  - apply IH. cbn [apply_record]. change (kDeletedGuard =? kCompactPointer) with false. cbv iota.
    change (deleted_guards_ (set_deleted_guards e ?s)) with s. destruct p as [lv k]. cbn [fst snd].
    rewrite set_insert_last, <- app_assoc; [done|done|apply level_lt_asym].
Qed.

(** The members the groups before the deleted guards leave alone. *)
Lemma fold_keeps {A} (get : VersionEdit -> A) (rs : list edit_record) e :
  Forall (fun r => forall e, get (apply_record e r) = get e) rs ->
  get (fold_left apply_record rs e) = get e.
Proof.
  intros H. revert e. induction H as [|r rs Hr Hrs IH]; intros e; [done|]. cbn. by rewrite IH.
Qed.
Lemma keeps_fmap {A X} (get : VersionEdit -> A) (r : X -> edit_record) l :
  (forall e x, get (apply_record e (r x)) = get e) ->
  Forall (fun r => forall e, get (apply_record e r) = get e) (r <$> l).
Proof. intros H. apply Forall_fmap, List.Forall_forall. intros x _ e. apply H. Qed.
Lemma keeps_opt {A} (get : VersionEdit -> A) has r :
  (forall e, get (apply_record e r) = get e) ->
  Forall (fun r => forall e, get (apply_record e r) = get e) (opt_record has r).
Proof. intros H. destruct has; [by constructor|constructor]. Qed.

Lemma edit_records_applicable e0 e :
  edit_ok e -> all_applicable (Clear e0) (edit_records e).
Proof.
  intros Hok. unfold edit_records.
  repeat (apply all_applicable_app; split); try (by apply applicable_opt);
    try (apply applicable_fmap; intros ? []; by cbn); try (by apply applicable_fmap).
  apply applicable_deleted_guards.
  rewrite !(fold_keeps deleted_guards_) by
    first [by apply keeps_opt | by apply keeps_fmap | apply keeps_fmap; by intros ? []].
  apply ok_deleted_guards_set, Hok.
Qed.

Lemma apply_edit_records e0 e :
  edit_ok e -> length (new_complete_guards_ e0) = Z.to_nat kNumLevels ->
  fold_left apply_record (edit_records e) (Clear e0) = persisted e0 e.
Proof.
  intros Hok He0. pose proof (ok_guards e Hok) as Hg. pose proof (ok_complete_guards e Hok) as Hcg.
  unfold edit_records. rewrite !fold_left_app, !apply_opt.
  destruct Hok as [_ _ _ _ Hdf _ _ Hdg _ _ _ Hds].
  destruct e as [c ln pl nf ls [] [] [] [] [] cp df nfs sf sn ds ng ncg dg];
    cbn [has_comparator_ has_log_number_ has_prev_log_number_ has_next_file_number_ has_last_sequence_
      compact_pointers_ deleted_files_ new_files_ deleted_guards_ new_guards_ new_complete_guards_
      deleted_sentinel_files_] in *;
    rewrite apply_compact, apply_deleted, apply_files, apply_deleted_guards, apply_guards,
      apply_complete_guards, apply_sentinel by done; reflexivity.
Qed.

(** ** Every input is decoded *)

Lemma GetVarint32_shrinks p v q : GetVarint32 p = Some (v, q) -> (length q < length p)%nat.
Proof.
  unfold GetVarint32, GetVarint32Ptr. destruct p as [|b p]; [done|]. case_bool.
  - intros [= <- <-]. cbn. lia.
  - intros (pre & b' & -> & _)%GetVarint_loop_reads. rewrite length_app. cbn. lia.
Qed.
Lemma GetVarint64_shrinks p v q : GetVarint64 p = Some (v, q) -> (length q < length p)%nat.
Proof.
  intros (pre & b & -> & _)%GetVarint_loop_reads. rewrite length_app. cbn. lia.
Qed.
Lemma GetInternalKey_shrinks p k q : GetInternalKey p = Some (k, q) -> (length q < length p)%nat.
Proof.
  unfold GetInternalKey, GetLengthPrefixedSlice.
  destruct (GetVarint32 p) as [[v r]|] eqn:E; [|done]. apply GetVarint32_shrinks in E.
  case_bool; [|done]. intros [= _ <-]. rewrite length_drop. lia.
Qed.
Lemma GetLevel_shrinks p k q : GetLevel p = Some (k, q) -> (length q < length p)%nat.
Proof.
  unfold GetLevel. destruct (GetVarint32 p) as [[v r]|] eqn:E; [|done].
  apply GetVarint32_shrinks in E. case_bool; [|done]. by intros [= _ <-].
Qed.

(** Case analysis on the readers of a record, collecting what each consumes. *)
Ltac shrink :=
  repeat match goal with
  | H : context [match GetVarint32 ?p with _ => _ end] |- _ =>
      let E := fresh in destruct (GetVarint32 p) as [[? ?]|] eqn:E; [apply GetVarint32_shrinks in E|]
  | H : context [match GetVarint64 ?p with _ => _ end] |- _ =>
      let E := fresh in destruct (GetVarint64 p) as [[? ?]|] eqn:E; [apply GetVarint64_shrinks in E|]
  | H : context [match GetInternalKey ?p with _ => _ end] |- _ =>
      let E := fresh in destruct (GetInternalKey p) as [[? ?]|] eqn:E; [apply GetInternalKey_shrinks in E|]
  | H : context [match GetLengthPrefixedSlice ?p with _ => _ end] |- _ =>
      change (GetLengthPrefixedSlice p) with (GetInternalKey p) in H
  | H : context [match GetLevel ?p with _ => _ end] |- _ =>
      let E := fresh in destruct (GetLevel p) as [[? ?]|] eqn:E; [apply GetLevel_shrinks in E|]
  end.

Lemma level_number_shrinks p l n q : level_number p = Some (l, n, q) -> (length q < length p)%nat.
Proof. unfold level_number. intros H. shrink; try done. injection H as <- <- <-. lia. Qed.
Lemma level_key_shrinks p l n q : level_key p = Some (l, n, q) -> (length q < length p)%nat.
Proof. unfold level_key. intros H. shrink; try done. injection H as <- <- <-. lia. Qed.
Lemma level_file_shrinks p l f q : level_file p = Some (l, f, q) -> (length q < length p)%nat.
Proof.
  unfold level_file. intros H.
  destruct (level_number p) as [[[? ?] ?]|] eqn:E; [apply level_number_shrinks in E|done].
  shrink; try done. injection H as <- <- <-. lia.
Qed.
Lemma read_guard_shrinks g p g' q : read_guard g p = Some (g', q) -> (length q < length p)%nat.
Proof. unfold read_guard. intros H. shrink; try done. injection H as <- <-. lia. Qed.
Lemma read_range_shrinks a g p g' q : read_range a g p = Some (g', q) -> (length q <= length p)%nat.
Proof.
  unfold read_range. intros H. destruct a; [|by injection H as <- <-].
  shrink; try done. injection H as <- <-. lia.
Qed.
Lemma read_files_shrinks a n : forall p t f fs p' t' f' fs',
  read_files a n p t f fs = Some (p', t', f', fs') -> (length p' <= length p)%nat.
Proof.
  induction n as [|n IH]; intros p t f fs p' t' f' fs' H; cbn [read_files] in H.
  { by injection H as <- <- <- <-. }
  shrink; repeat case_match; try done; simplify_eq; apply IH in H; lia.
Qed.

Lemma DecodeFrom_record_shrinks a tag d d' :
  DecodeFrom_record a tag d = Parsed d' -> (length (d_input d') <= length (d_input d))%nat.
Proof.
  unfold DecodeFrom_record. destruct d as [e input g fn t2]. cbn [d_edit d_input d_g d_fnumber d_tag2].
  intros H. repeat (case_bool; [shrink; try done; repeat case_match; try done; simplify_eq; cbn;
    repeat match goal with
    | E : level_number _ = _ |- _ => apply level_number_shrinks in E
    | E : level_key _ = _ |- _ => apply level_key_shrinks in E
    | E : level_file _ = _ |- _ => apply level_file_shrinks in E
    | E : read_guard _ _ = _ |- _ => apply read_guard_shrinks in E
    | E : read_range _ _ _ = _ |- _ => apply read_range_shrinks in E
    | E : read_files _ _ _ _ _ _ = _ |- _ => apply read_files_shrinks in E
    end; lia|]). done.
Qed.

Lemma DecodeFrom_loop_total a fuel : forall d,
  (length (d_input d) < fuel)%nat -> DecodeFrom_loop a fuel d <> OutOfFuel.
Proof.
  induction fuel as [|fuel IH]; intros d Hf; [lia|]. cbn [DecodeFrom_loop].
  destruct (GetVarint32 (d_input d)) as [[tag input]|] eqn:E; [|by destruct (d_input d)].
  apply GetVarint32_shrinks in E.
  destruct (DecodeFrom_record a tag (with_edit d (d_edit d) input)) as [d'| |] eqn:Er; [|done|done].
  apply DecodeFrom_record_shrinks in Er. cbn in Er. apply IH. lia.
Qed.

(** ** Decoding an encoded edit *)

Lemma DecodeFrom_encoded a e0 e rest :
  edit_ok e -> length (new_complete_guards_ e0) = Z.to_nat kNumLevels ->
  exists d' fuel', DecodeFrom a e0 (EncodeTo e [] ++ rest) = DecodeFrom_loop a fuel' d' /\
    d_edit d' = persisted e0 e /\ d_input d' = rest /\ fresh_guard (d_g d') /\
    (length rest < fuel')%nat.
Proof.
  intros Hok H0. unfold DecodeFrom. rewrite EncodeTo_records. rewrite app_nil_l.
  rewrite <- apply_edit_records by done.
  apply DecodeFrom_loop_records.
  - by apply edit_records_ok.
  - by apply edit_records_applicable.
  - done.
  - done.
  - cbn [d_input]. lia.
Qed.

Lemma guard_records_persisted tag gs :
  guard_records tag (persisted_guards gs) = guard_records tag gs.
Proof.
  unfold guard_records, persisted_guards. induction gs as [|g gs IH]; [done|].
  cbn [fmap list_fmap concat] in *. rewrite !fmap_app, IH. f_equal.
  rewrite <- list_fmap_compose. done.
Qed.
Lemma file_records_persisted fs :
  records_bytes ((fun p => RFile (fst p) (snd p)) <$> persisted_files fs) =
  records_bytes ((fun p => RFile (fst p) (snd p)) <$> fs).
Proof. unfold records_bytes, persisted_files. by rewrite <- !list_fmap_compose. Qed.

Lemma EncodeTo_persisted e dst :
  length (new_complete_guards_ e) = Z.to_nat kNumLevels ->
  EncodeTo (persisted VersionEdit_new e) dst = EncodeTo e dst.
Proof.
  intros Hlen. rewrite !EncodeTo_records. f_equal. unfold edit_records. rewrite !records_bytes_app.
  cbn [persisted new_files_ new_guards_ new_complete_guards_ compact_pointers_ VersionEdit_new app
    deleted_files_ deleted_guards_ deleted_sentinel_files_ comparator_ log_number_ prev_log_number_
    next_file_number_ last_sequence_ has_comparator_ has_log_number_ has_prev_log_number_
    has_next_file_number_ has_last_sequence_].
  rewrite file_records_persisted, zip_no_levels, !guard_records_persisted
    by (unfold persisted_guards; by rewrite length_fmap).
  by destruct (has_comparator_ e), (has_log_number_ e), (has_prev_log_number_ e),
    (has_next_file_number_ e), (has_last_sequence_ e).
Qed.

(** ** The operations that build an edit *)

Inductive edit_op :=
  | EComparator (name : bytes)
  | ELogNumber (num : Z) | EPrevLogNumber (num : Z) | ENextFile (num : Z) | ELastSequence (seq : Z)
  | ECompactPointer (level : Z) (key : bytes)
  | EAddFile (level file file_size : Z) (smallest largest : bytes)
  | EAddGuard (level : Z) (key : bytes) | EAddCompleteGuard (level : Z) (key : bytes)
  | EAddGuardWithFiles (level n : Z) (key smallest largest : bytes) (files : list Z)
  | EAddSentinelFileNo (level number : Z)
  | EDeleteFile (level file : Z) | EDeleteSentinelFile (level file : Z)
  | EDeleteGuard (level : Z) (key : bytes).
Definition build (e : VersionEdit) (op : edit_op) : option VersionEdit :=
  match op with
  | EComparator name => Some (SetComparatorName e name)
  | ELogNumber num => Some (SetLogNumber e num)
  | EPrevLogNumber num => Some (SetPrevLogNumber e num)
  | ENextFile num => Some (SetNextFile e num)
  | ELastSequence seq => Some (SetLastSequence e seq)
  | ECompactPointer level key => Some (SetCompactPointer e level key)
  | EAddFile level file file_size s l => Some (AddFile e level file file_size s l)
  | EAddGuard level key => Some (AddGuard e level key)
  | EAddCompleteGuard level key => Some (AddCompleteGuard e level key)
  | EAddGuardWithFiles level n key s l files => Some (AddGuardWithFiles e level n key s l files)
  | EAddSentinelFileNo level number => Some (AddSentinelFileNo e level number)
  | EDeleteFile level file => Some (DeleteFile e level file)
  | EDeleteSentinelFile level file => Some (DeleteSentinelFile e level file)
  | EDeleteGuard level key => DeleteGuard e level key
  end.
(** The callers' obligations: numbers of the member's width, levels of the tree,
    valid keys. *)
Definition edit_op_ok (op : edit_op) : Prop :=
  match op with
  | EComparator name => blen name < 2 ^ 32
  | ELogNumber num | EPrevLogNumber num | ENextFile num | ELastSequence num => is_u64 num
  | ECompactPointer level key | EAddGuard level key | EAddCompleteGuard level key
  | EDeleteGuard level key | EAddGuardWithFiles level _ key _ _ _ => level_ok level /\ ikey_ok key
  | EAddFile level file file_size s l =>
      level_ok level /\ is_u64 file /\ is_u64 file_size /\ ikey_ok s /\ ikey_ok l
  | EAddSentinelFileNo level number | EDeleteFile level number | EDeleteSentinelFile level number =>
      level_ok level /\ is_u64 number
  end.

Lemma set_insert_In {A} (lt : A -> A -> bool) x y s :
  In y (set_insert lt x s) -> y = x \/ In y s.
Proof.
  induction s as [|z s IH]; cbn; [intuition|]. destruct (lt x z); cbn; [intuition|].
  destruct (lt z x); cbn; intuition.
Qed.
Lemma Forall_set_insert {A} (lt : A -> A -> bool) (P : A -> Prop) x s :
  P x -> Forall P s -> Forall P (set_insert lt x s).
Proof.
  rewrite !List.Forall_forall. intros Hx Hs y [->|Hy]%set_insert_In; [done|by apply Hs].
Qed.
Lemma sorted_set_insert {A} (lt : A -> A -> bool) x s :
  (forall a b c, lt a b = true -> lt b c = true -> lt a c = true) ->
  StronglySorted (fun a b => lt a b = true) s ->
  StronglySorted (fun a b => lt a b = true) (set_insert lt x s).
Proof.
  intros Htr. induction 1 as [|y s Hs IH Hy]; cbn; [by repeat constructor|].
  destruct (lt x y) eqn:Exy; [|destruct (lt y x) eqn:Eyx].
  - constructor; [by constructor|]. constructor; [done|].
    eapply List.Forall_impl; [|exact Hy]. intros z Hz. by apply (Htr x y z).
  - constructor; [done|]. by apply Forall_set_insert.
  - by constructor.
Qed.
Lemma pair_lt_trans a b c : pair_lt a b = true -> pair_lt b c = true -> pair_lt a c = true.
Proof.
  unfold pair_lt. rewrite !orb_true_iff, !andb_true_iff, !Z.ltb_lt, !Z.eqb_eq. lia.
Qed.
Lemma level_lt_trans a b c : level_lt a b = true -> level_lt b c = true -> level_lt a c = true.
Proof. unfold level_lt. lia. Qed.

Lemma in_concat_push {A} (v : list (list A)) level x y :
  In y (concat (push_at v level x)) -> y = x \/ In y (concat v).
Proof.
  unfold push_at. generalize (Z.to_nat level). intros k. revert k.
  induction v as [|l v IH]; intros [|k]; cbn; [tauto|tauto| |].
  - rewrite !in_app_iff. cbn. intuition.
  - rewrite !in_app_iff. intros [H|H%IH]; intuition.
Qed.
Lemma push_guards_ok gs level n key s l files :
  guard_lists_ok gs -> level_ok level -> ikey_ok key ->
  guard_lists_ok (push_at gs level (mk_guard level n key s l files)).
Proof.
  intros (Hlen & Hlev & Hk) Hl Hkey. split_and!.
  - unfold push_at. by rewrite length_alter.
  - intros k x Hx. unfold push_at in Hx. destruct (decide (k = Z.to_nat level)) as [->|Hne].
    + rewrite list_lookup_alter_eq in Hx. apply fmap_Some in Hx as (y & Ey & ->). apply Forall_app. split; [by apply Hlev|].
      constructor; [|constructor]. cbn. unfold level_ok in Hl. lia.
    + rewrite list_lookup_alter_ne in Hx by congruence. by apply Hlev.
  - apply List.Forall_forall. intros g [->|Hg]%in_concat_push; [done|].
    rewrite List.Forall_forall in Hk. by apply Hk.
Qed.

Ltac edit_fields := repeat match goal with H : _ /\ _ |- _ => destruct H end;
  split; cbn [comparator_ log_number_ prev_log_number_ next_file_number_ last_sequence_
    compact_pointers_ deleted_files_ new_files_ new_guards_ new_complete_guards_ deleted_guards_
    deleted_sentinel_files_ SetComparatorName SetLogNumber SetPrevLogNumber SetNextFile
    SetLastSequence SetCompactPointer AddFile AddGuard AddCompleteGuard AddGuardWithFiles
    AddSentinelFileNo DeleteFile DeleteSentinelFile set_new_files set_new_guards
    set_new_complete_guards set_sentinel_file_nos set_deleted_files set_deleted_sentinel_files
    set_deleted_guards]; try done.

Ltac all_ok := repeat first [apply List.Forall_nil | apply List.Forall_cons; [done|]].

Lemma build_ok e op e' : edit_ok e -> edit_op_ok op -> build e op = Some e' -> edit_ok e'.
Proof.
  intros [Hc Hn Hcp Hdf Hdfs Hf Hdg Hdgs Hg Hcg Hs Hss] Hop Hb.
  assert (is_u64 (log_number_ e) /\ is_u64 (prev_log_number_ e) /\ is_u64 (next_file_number_ e) /\
          is_u64 (last_sequence_ e)) as (Hn1 & Hn2 & Hn3 & Hn4).
  { rewrite List.Forall_forall in Hn. split_and!; apply Hn; cbn; tauto. }
  destruct op; cbn [build edit_op_ok] in *; try (injection Hb as <-; edit_fields;
    solve [ all_ok
          | apply Forall_app; split; [done|]; all_ok
          | by apply push_guards_ok
          | apply Forall_set_insert; done
          | apply sorted_set_insert; [apply pair_lt_trans|done] ]).
  unfold DeleteGuard, guard_insert in Hb. destruct (existsb _ _); [done|]. injection Hb as <-.
  edit_fields.
  - by apply Forall_set_insert.
  - apply sorted_set_insert; [apply level_lt_trans|done].
Qed.

Lemma VersionEdit_new_ok : edit_ok VersionEdit_new.
Proof.
  assert (guard_lists_ok no_levels).
  { split; [done|]. split; [|by cbn]. intros k l Hk. apply lookup_replicate in Hk as [-> _]. constructor. }
  split; try done; repeat constructor; done.
Qed.

(** A sequence of building steps. *)
Definition build_all (ops : list edit_op) (e : VersionEdit) : option VersionEdit :=
  fold_left (fun e op => match e with Some e => build e op | None => None end) ops (Some e).
Lemma build_all_ok ops e e' :
  edit_ok e -> Forall edit_op_ok ops -> build_all ops e = Some e' -> edit_ok e'.
Proof.
  unfold build_all. intros He Hops. revert e He. induction Hops as [|op ops Hop Hops IH]; intros e He.
  { by intros [= <-]. }
  cbn [fold_left]. destruct (build e op) as [e1|] eqn:E; [apply IH; by eapply build_ok|].
  clear. induction ops; [done|]. done.
Qed.

(** The tags the decoder knows; a file number inside a guard is not a record. *)
Definition known_tags : list Z :=
  [kComparator; kLogNumber; kPrevLogNumber; kNextFileNumber; kLastSequence; kCompactPointer;
   kDeletedFile; kDeletedGuard; kDeletedSentinelFile; kNewFile; kNewSentinelFile;
   kNewSentinelFileNo; kNewGuard; kNewCompleteGuard].
Lemma eqb_known tag t : ~ In tag known_tags -> In t known_tags -> (tag =? t) = false.
Proof. intros Hu Ht. apply Z.eqb_neq. by intros ->. Qed.
Lemma DecodeFrom_record_unknown a tag d :
  ~ In tag known_tags -> DecodeFrom_record a tag d = Message (d_edit d) (str "unknown tag").
Proof.
  intros Hu. unfold DecodeFrom_record. cbv zeta.
  repeat match goal with
  | |- context [tag =? ?t] => rewrite (eqb_known tag t Hu) by (cbn; tauto)
  end. done.
Qed.

Lemma DecodeFrom_EncodeTo asserts e0 e : edit_ok e -> length (new_complete_guards_ e0) = Z.to_nat kNumLevels ->
  DecodeFrom asserts e0 (EncodeTo e []) = Returned OK (persisted e0 e).
Proof.
  intros Hok H0. destruct (DecodeFrom_encoded asserts e0 e [] Hok H0) as (d & fuel & E & Hd & Hi & _ & Hf).
  rewrite app_nil_r in E. rewrite E. destruct fuel as [|fuel]; [lia|]. cbn [DecodeFrom_loop].
  rewrite Hi. cbn. by rewrite Hd.
Qed.

(** ** Properties *)

(** C20: Manifest records round-trip: an edit assembled by any sequence of the building
    operations is well formed, and decoding its encoding (into any edit, in either
    assertion mode) succeeds and yields exactly the fields the format stores, file and
    guard order included; what [Clear] does not reset in the destination stays.  The
    bookkeeping that is not stored (segments of guards, sentinel files) is dropped, and
    encoding the decoded edit gives the same bytes. *)
Theorem version_edit_roundtrip (asserts : bool) (ops : list edit_op) (e e0 : VersionEdit)
  (Hops : Forall edit_op_ok ops) (Hbuild : build_all ops VersionEdit_new = Some e)
  (H0 : length (new_complete_guards_ e0) = Z.to_nat kNumLevels) :
  edit_ok e /\ DecodeFrom asserts e0 (EncodeTo e []) = Returned OK (persisted e0 e) /\
  EncodeTo (persisted VersionEdit_new e) [] = EncodeTo e [].
Proof.
  assert (edit_ok e) as Hok by (by eapply build_all_ok; [apply VersionEdit_new_ok|..]).
  split; [done|]. split; [by apply DecodeFrom_EncodeTo|apply EncodeTo_persisted, Hok].
Qed.

Definition example_edit_ops : list edit_op :=
  [EComparator (str "leveldb.BytewiseComparator"); ELogNumber 7; ENextFile 300; ELastSequence 1000;
   ECompactPointer 2 [1; 2; 3]; EDeleteFile 1 20; EDeleteFile 1 10; EAddFile 3 12 4096 [5] [6];
   EDeleteGuard 4 [9]; EAddGuard 2 [7; 7]; EAddGuardWithFiles 2 1 [8] [8] [9] [12];
   EAddCompleteGuard 6 [1]; EDeleteSentinelFile 0 3].
Definition example_edit : VersionEdit :=
  default VersionEdit_new (build_all example_edit_ops VersionEdit_new).
Lemma version_edit_roundtrip_witness :
  DecodeFrom true VersionEdit_new (EncodeTo example_edit []) =
    Returned OK (persisted VersionEdit_new example_edit) /\
  deleted_files_ example_edit = [(1, 10); (1, 20)].
Proof.
  split; [|vm_compute; reflexivity].
  refine (proj1 (proj2 (version_edit_roundtrip true example_edit_ops example_edit VersionEdit_new _ _ _))).
  - repeat constructor; done.
  - vm_compute. reflexivity.
  - reflexivity.
Defined.

(** Decoding a manifest record terminates on every byte string, and a record with an
    unknown tag after valid ones is reported as corruption, with the valid ones applied. *)
Theorem version_edit_decode_total (asserts : bool) (ops : list edit_op) (e e0 : VersionEdit)
  (tag : Z) (src rest : bytes)
  (Hops : Forall edit_op_ok ops) (Hbuild : build_all ops VersionEdit_new = Some e)
  (H0 : length (new_complete_guards_ e0) = Z.to_nat kNumLevels)
  (Htag : is_u32 tag) (Hunknown : ~ In tag known_tags) :
  DecodeFrom asserts e0 src <> OutOfFuel /\
  DecodeFrom asserts e0 (EncodeTo e [] ++ EncodeVarint32 tag ++ rest) =
    Returned (corrupt_edit (str "unknown tag")) (persisted e0 e).
Proof.
  split; [apply DecodeFrom_loop_total; cbn; lia|].
  assert (edit_ok e) as Hok by (by eapply build_all_ok; [apply VersionEdit_new_ok|..]).
  destruct (DecodeFrom_encoded asserts e0 e (EncodeVarint32 tag ++ rest) Hok H0)
    as (d & fuel & E & Hd & Hi & _ & Hf).
  rewrite E. destruct fuel as [|fuel]; [lia|]. cbn [DecodeFrom_loop].
  rewrite Hi, GetVarint32_encode by done.
  rewrite DecodeFrom_record_unknown by done. cbn. by rewrite Hd.
Qed.

Lemma version_edit_decode_total_witness :
  DecodeFrom true VersionEdit_new (EncodeTo example_edit [] ++ EncodeVarint32 17 ++ [1; 2; 3]) =
  Returned (corrupt_edit (str "unknown tag")) (persisted VersionEdit_new example_edit).
Proof.
  refine (proj2 (version_edit_decode_total true example_edit_ops example_edit VersionEdit_new 17
                   [] [1; 2; 3] _ _ _ _ _)).
  - repeat constructor; done.
  - vm_compute. reflexivity.
  - reflexivity.
  - done.
  - intros H. repeat (destruct H as [H|H]; [discriminate H|]). exact H.
Defined.

(** Deleting a second guard of a level dereferences the null comparator of the set:
    the building operation is undefined, and so is decoding a record that lists two
    deleted guards of one level, whatever follows. *)
Theorem version_edit_second_deleted_guard (asserts : bool) (level : Z) (k1 k2 rest : bytes)
  (Hl : level_ok level) (H1 : ikey_ok k1) (H2 : ikey_ok k2) :
  (exists e, DeleteGuard VersionEdit_new level k1 = Some e /\ DeleteGuard e level k2 = None) /\
  DecodeFrom asserts VersionEdit_new
    (record_bytes (RLevelKey kDeletedGuard level k1) ++
     record_bytes (RLevelKey kDeletedGuard level k2) ++ rest) = UndefinedBehaviour.
Proof.
  split.
  { eexists. split; [reflexivity|]. unfold DeleteGuard, guard_insert. cbn.
    by rewrite Z.eqb_refl. }
  unfold DecodeFrom.
  destruct (DecodeFrom_loop_records asserts [RLevelKey kDeletedGuard level k1]
    {| d_edit := Clear VersionEdit_new; d_input := record_bytes (RLevelKey kDeletedGuard level k1) ++
         record_bytes (RLevelKey kDeletedGuard level k2) ++ rest; d_g := GuardMetaData_new;
       d_fnumber := None; d_tag2 := None |}
    (record_bytes (RLevelKey kDeletedGuard level k2) ++ rest)
    (S (length (record_bytes (RLevelKey kDeletedGuard level k1) ++
         record_bytes (RLevelKey kDeletedGuard level k2) ++ rest))))
    as (d & fuel & E & Hd & Hi & _ & Hf).
  - constructor; [|constructor]. cbn. tauto.
  - done.
  - done.
  - cbn [d_input]. unfold records_bytes. cbn [fmap list_fmap concat]. by rewrite app_nil_r.
  - cbn [d_input]. lia.
  - rewrite E. destruct fuel as [|fuel]; [lia|]. cbn [DecodeFrom_loop]. rewrite Hi.
    cbn [record_bytes]. rewrite <- !app_assoc, GetVarint32_encode by done.
    unfold DecodeFrom_record. cbn [with_edit d_input d_edit]. rewrite level_key_encode by done.
    rewrite Hd. cbn. unfold DeleteGuard, guard_insert. cbn. by rewrite Z.eqb_refl.
Qed.

Lemma version_edit_second_deleted_guard_witness :
  DecodeFrom false VersionEdit_new
    (record_bytes (RLevelKey kDeletedGuard 3 [1]) ++ record_bytes (RLevelKey kDeletedGuard 3 [2]) ++ []) =
  UndefinedBehaviour.
Proof. apply (version_edit_second_deleted_guard false 3 [1] [2] []); done. Defined.
