(* ===== verification/FileName.v ===== *)
(** * Numbers in text, file names and the CURRENT file

    Models [src/pebblesdb/src/util/logging.cc] (printing and parsing of numbers,
    escaping), [src/pebblesdb/src/db/filename.cc] (names of the files of a database
    and their parser, and the switch of the CURRENT file to a new manifest),
    [DoWriteStringToFile] and [ReadFileToString] of [src/pebblesdb/src/util/env.cc]
    and the printing of internal keys of [src/pebblesdb/src/db/dbformat.cc].  The
    environment is a parameter with the laws of a file system whose rename is
    atomic. *)

From stdpp Require Import gmap.
From S2P Require Import Prelude Coding Status Comparator DbFormat.

(** ** Logging *)

(** [snprintf("%llu")] into a buffer that is large enough. *)
Definition AppendNumberTo (s : bytes) (num : Z) : bytes := s ++ decimal num.
Definition NumberToString (num : Z) : bytes := AppendNumberTo [] num.

Definition hex_digit (d : Z) : Z := if d <? 10 then 48 + d else 97 + (d - 10).
(** One character: printable ASCII as it is, anything else as [\xHH] ([char] is
    signed, so that bytes from 128 on compare below the space). *)
Definition escape_char (c : Z) : bytes :=
  if (32 <=? schar c) && (schar c <=? 126) then [c]
  else [92; 120; hex_digit (c / 16); hex_digit (c mod 16)].
Definition AppendEscapedStringTo (s value : bytes) : bytes :=
  fold_left (fun s c => s ++ escape_char c) value s.
Definition EscapeString (value : bytes) : bytes := AppendEscapedStringTo [] value.

Definition ConsumeChar (input : bytes) (c : Z) : option bytes :=
  match input with
  | x :: rest => if x =? c then Some rest else None
  | [] => None
  end.

Fixpoint ConsumeDecimal_loop (input : bytes) (v digits : Z) : option (Z * Z * bytes) :=
  match input with
  | c :: rest =>
      if (48 <=? c) && (c <=? 57) then
        let digits := digits + 1 in
        let delta := c - 48 in
        if (UINT64_MAX / 10 <? v) || ((v =? UINT64_MAX / 10) && (UINT64_MAX mod 10 <? delta))
        then None
        else ConsumeDecimal_loop rest (u64 (u64 (v * 10) + delta)) digits
      else Some (v, digits, input)
  | [] => Some (v, digits, input)
  end.
Definition ConsumeDecimalNumber (input : bytes) : option (Z * bytes) :=
  match ConsumeDecimal_loop input 0 0 with
  | Some (v, digits, rest) => if 0 <? digits then Some (v, rest) else None
  | None => None
  end.

(** ** Printing internal keys *)

Definition ParsedInternalKey_DebugString (k : ParsedInternalKey) : bytes :=
  str "'" ++ EscapeString (user_key k) ++
  str "' @ " ++ decimal (sequence k) ++ str " : " ++ decimal (type k).
Definition InternalKey_DebugString (rep : bytes) : bytes :=
  match ParseInternalKey rep with
  | Some parsed => ParsedInternalKey_DebugString parsed
  | None => str "(bad)" ++ EscapeString rep
  end.

(** ** File names *)

Inductive FileType :=
  | kLogFile | kDBLockFile | kTableFile | kDescriptorFile | kCurrentFile | kTempFile | kInfoLogFile.

(** [%06llu] *)
Definition decimal6 (n : Z) : bytes := replicate (6 - length (decimal n)) 48 ++ decimal n.
Definition MakeFileName (name : bytes) (number : Z) (suffix : bytes) : bytes :=
  name ++ str "/" ++ decimal6 number ++ str "." ++ suffix.
Definition LogFileName (name : bytes) (number : Z) : bytes := MakeFileName name number (str "log").
Definition TableFileName (name : bytes) (number : Z) : bytes := MakeFileName name number (str "sst").
Definition LDBTableFileName (name : bytes) (number : Z) : bytes :=
  MakeFileName name number (str "ldb").
Definition DescriptorFileName (dbname : bytes) (number : Z) : bytes :=
  dbname ++ str "/MANIFEST-" ++ decimal6 number.
Definition CurrentFileName (dbname : bytes) : bytes := dbname ++ str "/CURRENT".
Definition LockFileName (dbname : bytes) : bytes := dbname ++ str "/LOCK".
Definition TempFileName (dbname : bytes) (number : Z) : bytes :=
  MakeFileName dbname number (str "dbtmp").
Definition InfoLogFileName (dbname : bytes) : bytes := dbname ++ str "/LOG".
Definition OldInfoLogFileName (dbname : bytes) : bytes := dbname ++ str "/LOG.old".

Definition ParseFileName (fname : bytes) : option (Z * FileType) :=
  let rest := fname in
  if Slice_eq rest (str "CURRENT") then Some (0, kCurrentFile)
  else if Slice_eq rest (str "LOCK") then Some (0, kDBLockFile)
  else if Slice_eq rest (str "LOG") || Slice_eq rest (str "LOG.old") then Some (0, kInfoLogFile)
  else if starts_with rest (str "MANIFEST-") then
    let rest := drop (length (str "MANIFEST-")) rest in
    match ConsumeDecimalNumber rest with
    | None => None
    | Some (num, rest) =>
        match rest with [] => Some (num, kDescriptorFile) | _ => None end
    end
  else
    match ConsumeDecimalNumber rest with
    | None => None
    | Some (num, suffix) =>
        if Slice_eq suffix (str ".log") then Some (num, kLogFile)
        else if Slice_eq suffix (str ".sst") || Slice_eq suffix (str ".ldb")
        then Some (num, kTableFile)
        else if Slice_eq suffix (str ".dbtmp") then Some (num, kTempFile)
        else None
    end.

(** ** The environment *)

(** The calls on an environment and on the files it opens; an open file is named
    by its path. *)
Class Env (E : Type) := {
  NewWritableFile : E -> bytes -> Status * E;
  AppendToFile : E -> bytes -> bytes -> Status * E;
  SyncFile : E -> bytes -> Status * E;
  CloseFile : E -> bytes -> Status * E;
  RemoveFile : E -> bytes -> Status * E;
  RenameFile : E -> bytes -> bytes -> Status * E;
}.

Section WriteString.
Context {E : Type} `{Env E}.

Definition DoWriteStringToFile (env : E) (data fname : bytes) (should_sync : bool) : Status * E :=
  let '(s, env) := NewWritableFile env fname in
  if negb (ok s) then (s, env)
  else
    let '(s, env) := AppendToFile env fname data in
    let '(s, env) := if ok s && should_sync then SyncFile env fname else (s, env) in
    let '(s, env) := if ok s then CloseFile env fname else (s, env) in
    let env := if negb (ok s) then snd (RemoveFile env fname) else env in
    (s, env).
Definition WriteStringToFile (env : E) (data fname : bytes) : Status * E :=
  DoWriteStringToFile env data fname false.
Definition WriteStringToFileSync (env : E) (data fname : bytes) : Status * E :=
  DoWriteStringToFile env data fname true.

Definition SetCurrentFile (env : E) (dbname : bytes) (descriptor_number : Z) : Status * E :=
  let manifest := DescriptorFileName dbname descriptor_number in
  let contents := drop (length dbname + 1) manifest in
  let tmp := TempFileName dbname descriptor_number in
  let '(s, env) := WriteStringToFileSync env (contents ++ [10]) tmp in
  let '(s, env) := if ok s then RenameFile env tmp (CurrentFileName dbname) else (s, env) in
  let env := if negb (ok s) then snd (RemoveFile env tmp) else env in
  (s, env).
End WriteString.

(** Reading a whole sequential file in pieces of 8 KiB; [fuel] bounds the reads. *)
Definition kBufferSize : Z := 8192.
Fixpoint read_all {F} `{SequentialFile F} (fuel : nat) (file : F) (data : bytes)
    : option (Status * bytes) :=
  match fuel with
  | O => None
  | S fuel =>
      let '(file, (s, fragment)) := Read file kBufferSize in
      if negb (ok s) then Some (s, data)
      else
        let data := data ++ fragment in
        match fragment with [] => Some (s, data) | _ => read_all fuel file data end
  end.
(** [opened]: what [env->NewSequentialFile] returns for the name. *)
Definition ReadFileToString {F} `{SequentialFile F} (fuel : nat) (opened : Status * F)
    : option (Status * bytes) :=
  let '(s, file) := opened in
  if negb (ok s) then Some (s, []) else read_all fuel file [].

(** The laws of the environment, over the contents of its files.  A failed call on
    a file may leave that file in any state; it leaves the others alone.  Renaming
    is atomic: it happens or it does not. *)
Class EnvOk (E : Type) `{Env E} (files : E -> gmap (list Z) (list Z)) := {
  new_file : forall e f, ok (fst (NewWritableFile e f)) = true ->
    files (snd (NewWritableFile e f)) = <[f := []]> (files e);
  append_file : forall e f data old, ok (fst (AppendToFile e f data)) = true ->
    files e !! f = Some old -> files (snd (AppendToFile e f data)) = <[f := old ++ data]> (files e);
  sync_file : forall e f, ok (fst (SyncFile e f)) = true -> files (snd (SyncFile e f)) = files e;
  close_file : forall e f, ok (fst (CloseFile e f)) = true -> files (snd (CloseFile e f)) = files e;
  rename_file : forall e a b v, ok (fst (RenameFile e a b)) = true ->
    files e !! a = Some v -> files (snd (RenameFile e a b)) = <[b := v]> (delete a (files e));
  rename_failed : forall e a b, ok (fst (RenameFile e a b)) = false ->
    files (snd (RenameFile e a b)) = files e;
  frame_new : forall e f g, g <> f -> files (snd (NewWritableFile e f)) !! g = files e !! g;
  frame_append : forall e f d g, g <> f -> files (snd (AppendToFile e f d)) !! g = files e !! g;
  frame_sync : forall e f g, g <> f -> files (snd (SyncFile e f)) !! g = files e !! g;
  frame_close : forall e f g, g <> f -> files (snd (CloseFile e f)) !! g = files e !! g;
  frame_remove : forall e f g, g <> f -> files (snd (RemoveFile e f)) !! g = files e !! g;
}.

(** ** Parsing of decimal numbers *)

Definition is_digit (c : Z) : Prop := 48 <= c <= 57.
Definition digits_val (ds : bytes) (v : Z) : Z := fold_left (fun v c => v * 10 + (c - 48)) ds v.

Lemma digits_val_ge ds v : Forall is_digit ds -> 0 <= v -> v <= digits_val ds v.
Proof.
  intros Hds. unfold digits_val. revert v.
  induction Hds as [|c ds Hc Hds IH]; intros v Hv; cbn [fold_left]; [lia|].
  unfold is_digit in Hc. specialize (IH (v * 10 + (c - 48))). lia.
Qed.
(** The overflow test is exact. *)
Lemma overflow_test v d :
  is_u64 v -> 0 <= d <= 9 ->
  ((UINT64_MAX / 10 <? v) || ((v =? UINT64_MAX / 10) && (UINT64_MAX mod 10 <? d))) =
  (UINT64_MAX <? v * 10 + d).
Proof.
  intros Hv Hd. change UINT64_MAX with 18446744073709551615.
  change (18446744073709551615 / 10) with 1844674407370955161.
  change (18446744073709551615 mod 10) with 5.
  apply eq_bool_prop_intro. rewrite !Is_true_true, orb_true_iff, andb_true_iff, !Z.ltb_lt, Z.eqb_eq. lia.
Qed.
(** Input that does not continue the number. *)
Definition no_digit (rest : bytes) : Prop := match rest with c :: _ => ~ is_digit c | [] => True end.
Lemma ConsumeDecimal_loop_spec ds rest : forall v n,
  Forall is_digit ds -> is_u64 v -> no_digit rest ->
  ConsumeDecimal_loop (ds ++ rest) v n =
  if digits_val ds v <=? UINT64_MAX then Some (digits_val ds v, n + blen ds, rest) else None.
Proof.
  induction ds as [|c ds IH]; intros v n Hds Hv Hrest.
  - cbn [app digits_val fold_left]. rewrite (proj2 (Z.leb_le _ _)) by (unfold UINT64_MAX; rlia).
    rewrite blen_nil, Z.add_0_r. destruct rest as [|c rest]; [done|].
    cbn in Hrest |- *. unfold is_digit in Hrest.
    destruct (Z.leb_spec 48 c), (Z.leb_spec c 57); cbn; done || lia.
  - inversion_clear Hds as [|? ? Hc Hds']. unfold is_digit in Hc. cbn [app ConsumeDecimal_loop].
    rewrite (proj2 (Z.leb_le 48 c)), (proj2 (Z.leb_le c 57)) by lia. cbn [andb].
    rewrite overflow_test by (done || lia). change (digits_val (c :: ds) v) with (digits_val ds (v * 10 + (c - 48))).
    assert (v * 10 + (c - 48) <= digits_val ds (v * 10 + (c - 48))) by (apply digits_val_ge; [done|rlia]).
    destruct (Z.ltb_spec UINT64_MAX (v * 10 + (c - 48))) as [Ho|Ho].
    { by rewrite (proj2 (Z.leb_gt _ _)) by lia. }
    unfold UINT64_MAX in Ho. assert (u64 (u64 (v * 10) + (c - 48)) = v * 10 + (c - 48)) as ->.
    { rewrite (u64_small (v * 10)) by rlia. apply u64_small. rlia. }
    rewrite IH by (done || rlia). rewrite blen_cons. by replace (n + 1 + blen ds) with (n + (1 + blen ds)) by lia.
Qed.

Lemma ConsumeDecimalNumber_digits ds rest :
  Forall is_digit ds -> ds <> [] -> no_digit rest ->
  ConsumeDecimalNumber (ds ++ rest) =
  if digits_val ds 0 <=? UINT64_MAX then Some (digits_val ds 0, rest) else None.
Proof.
  intros Hds Hne Hrest. unfold ConsumeDecimalNumber. rewrite ConsumeDecimal_loop_spec by done.
  destruct (digits_val ds 0 <=? UINT64_MAX); [|done]. destruct ds as [|c ds]; [done|].
  rewrite blen_cons. by rewrite (proj2 (Z.ltb_lt _ _)) by blia.
Qed.

(** ** Printed numbers *)

Lemma decimal_loop_spec fuel : forall n acc,
  0 <= n < 10 ^ Z.of_nat fuel -> (0 < fuel)%nat ->
  exists ds, decimal_loop fuel n acc = ds ++ acc /\ Forall is_digit ds /\ ds <> [] /\
    (forall v, digits_val ds v = v * 10 ^ blen ds + n).
Proof.
  induction fuel as [|fuel IH]; intros n acc Hn Hf; [lia|]. cbn [decimal_loop].
  rewrite Nat2Z.inj_succ, Z.pow_succ_r in Hn by lia.
  assert (is_digit (48 + n mod 10)) as Hd by (unfold is_digit; pose proof (Z.mod_pos_bound n 10); lia).
  pose proof (Z.div_mod n 10 ltac:(lia)) as Hdm.
  destruct (Z.eqb_spec (n / 10) 0) as [E|E].
  - exists [48 + n mod 10]. split_and!; [done|by constructor|done|]. intros v.
    unfold digits_val. cbn [fold_left]. change (10 ^ blen [48 + n mod 10]) with 10. lia.
  - assert (0 < n / 10) by (pose proof (Z.div_pos n 10); lia).
    assert (n / 10 < 10 ^ Z.of_nat fuel) by (apply Z.div_lt_upper_bound; lia).
    destruct fuel as [|fuel]; [cbn in *; lia|].
    destruct (IH (n / 10) ((48 + n mod 10) :: acc)) as (ds & -> & Hds & Hne & Hval); [lia|lia|].
    exists (ds ++ [48 + n mod 10]). split_and!.
    + by rewrite <- app_assoc.
    + apply Forall_app. split; [done|by constructor].
    + by destruct ds.
    + intros v. unfold digits_val. rewrite fold_left_app. cbn [fold_left].
      fold (digits_val ds v). rewrite Hval, blen_app.
      change (blen [48 + n mod 10]) with 1. rewrite Z.pow_add_r by blia. lia.
Qed.
Lemma decimal_spec n :
  is_u64 n -> Forall is_digit (decimal n) /\ decimal n <> [] /\ digits_val (decimal n) 0 = n.
Proof.
  intros Hn. destruct (decimal_loop_spec 20 n []) as (ds & E & Hds & Hne & Hval).
  - change (10 ^ Z.of_nat 20) with 100000000000000000000. rlia.
  - lia.
  - unfold decimal. rewrite E, app_nil_r. split_and!; [done|done|]. by rewrite Hval, Z.mul_0_l.
Qed.
Lemma digits_val_zeros k ds : digits_val (replicate k 48 ++ ds) 0 = digits_val ds 0.
Proof. induction k as [|k IH]; [done|]. exact IH. Qed.
Lemma decimal6_spec n :
  is_u64 n -> Forall is_digit (decimal6 n) /\ decimal6 n <> [] /\ digits_val (decimal6 n) 0 = n.
Proof.
  intros (Hd & Hne & Hv)%decimal_spec. unfold decimal6. split_and!.
  - apply Forall_app. split; [apply Forall_replicate; unfold is_digit; lia|done].
  - intros [_ E]%app_eq_nil. done.
  - by rewrite digits_val_zeros.
Qed.
Lemma ConsumeDecimalNumber_decimal6 n rest :
  is_u64 n -> no_digit rest -> ConsumeDecimalNumber (decimal6 n ++ rest) = Some (n, rest).
Proof.
  intros Hn Hr. pose proof (decimal6_spec n Hn) as (Hd & Hne & Hv).
  rewrite ConsumeDecimalNumber_digits, Hv by done.
  by rewrite (proj2 (Z.leb_le _ _)) by (unfold UINT64_MAX; rlia).
Qed.

(** A string that starts with a digit is none of the fixed names. *)
Lemma not_equal_head c s x t : c <> x -> Slice_eq (c :: s) (x :: t) = false.
Proof. intros Hne. apply not_true_iff_false. rewrite Slice_eq_spec. congruence. Qed.
Lemma not_prefix_head c s x t : c <> x -> starts_with (c :: s) (x :: t) = false.
Proof. intros Hne. apply not_true_iff_false. rewrite starts_with_spec. intros [r [=]]. congruence. Qed.
Lemma Slice_eq_refl s : Slice_eq s s = true.
Proof. by apply Slice_eq_spec. Qed.

Definition suffix_type (suffix : bytes) (t : FileType) : Prop :=
  (suffix = str "log" /\ t = kLogFile) \/ (suffix = str "sst" /\ t = kTableFile) \/
  (suffix = str "ldb" /\ t = kTableFile) \/ (suffix = str "dbtmp" /\ t = kTempFile).
Lemma ParseFileName_number n suffix t :
  is_u64 n -> suffix_type suffix t -> ParseFileName (decimal6 n ++ str "." ++ suffix) = Some (n, t).
Proof.
  intros Hn Hs. pose proof (decimal6_spec n Hn) as (Hd & Hne & Hv).
  unfold ParseFileName.
  destruct (decimal6 n) as [|c ds] eqn:E; [done|]. inversion_clear Hd as [|? ? Hc _]. cbn [app].
  unfold is_digit in Hc.
  rewrite (not_equal_head c _ 67 (str "URRENT")), (not_equal_head c _ 76 (str "OCK")),
    (not_equal_head c _ 76 (str "OG")), (not_equal_head c _ 76 (str "OG.old")),
    (not_prefix_head c _ 77 (str "ANIFEST-")) by lia. cbn [orb].
  change (c :: ds ++ str "." ++ suffix) with ((c :: ds) ++ str "." ++ suffix). rewrite <- E.
  rewrite ConsumeDecimalNumber_decimal6; [|done|cbn; unfold is_digit; lia].
  destruct Hs as [[-> ->]|[[-> ->]|[[-> ->]|[-> ->]]]]; reflexivity.
Qed.
Lemma ParseFileName_descriptor n :
  is_u64 n -> ParseFileName (str "MANIFEST-" ++ decimal6 n) = Some (n, kDescriptorFile).
Proof.
  intros Hn. unfold ParseFileName.
  assert (forall t, hd 77 t <> 77 -> Slice_eq (str "MANIFEST-" ++ decimal6 n) t = false) as Hne
    by (intros [|x t] Hx; [done|apply (not_equal_head 77); cbn in Hx; lia]).
  rewrite !Hne by done. cbn [orb].
  rewrite (proj2 (starts_with_spec _ _)) by (by eexists). rewrite drop_app_length.
  rewrite <- (app_nil_r (decimal6 n)). by rewrite ConsumeDecimalNumber_decimal6.
Qed.

(** ** Writing a file and switching CURRENT *)

Section SetCurrent.
Context {E : Type} `{Env E} (files : E -> gmap (list Z) (list Z)) `{!EnvOk E files}.

(** Outcome of [DoWriteStringToFile] on the files: success leaves exactly [data]
    under [fname]; other files are untouched in any case. *)
Lemma write_string_ok env data fname sync :
  ok (fst (DoWriteStringToFile env data fname sync)) = true ->
  files (snd (DoWriteStringToFile env data fname sync)) = <[fname := data]> (files env).
Proof.
  unfold DoWriteStringToFile. destruct (NewWritableFile env fname) as [s1 e1] eqn:E1.
  pose proof (new_file env fname) as H1. rewrite E1 in H1. cbn [fst snd] in H1.
  destruct (ok s1) eqn:O1; cbn [negb]; [|cbn; congruence]. specialize (H1 eq_refl).
  destruct (AppendToFile e1 fname data) as [s2 e2] eqn:E2.
  pose proof (append_file e1 fname data []) as H2. rewrite E2, H1 in H2. cbn [fst snd] in H2.
  destruct (ok s2) eqn:O2; cbn [andb]; [|cbn; rewrite O2; cbn; congruence].
  specialize (H2 eq_refl (lookup_insert_eq _ _ _)). rewrite insert_insert_eq in H2. cbn [app] in H2.
  destruct (if sync then SyncFile e2 fname else (s2, e2)) as [s3 e3] eqn:E3.
  assert (ok s3 = true -> files e3 = files e2) as H3.
  { intros O3. destruct sync; [|by injection E3 as <- <-].
    pose proof (sync_file e2 fname) as Hs. rewrite E3 in Hs. by apply Hs. }
  destruct (ok s3) eqn:O3; [|cbn; rewrite O3; cbn; congruence]. specialize (H3 eq_refl).
  destruct (CloseFile e3 fname) as [s4 e4] eqn:E4.
  pose proof (close_file e3 fname) as H4. rewrite E4 in H4. cbn [fst snd] in H4 |- *.
  destruct (ok s4) eqn:O4; [|cbn; congruence]. intros _. cbn. by rewrite H4, H3, H2.
Qed.
Lemma write_string_frame env data fname sync g :
  g <> fname -> files (snd (DoWriteStringToFile env data fname sync)) !! g = files env !! g.
Proof.
  intros Hg. unfold DoWriteStringToFile.
  pose proof (frame_new env fname g Hg) as H1.
  destruct (NewWritableFile env fname) as [s1 e1]. destruct (ok s1); cbn [negb snd] in *; [|done].
  pose proof (frame_append e1 fname data g Hg) as H2.
  destruct (AppendToFile e1 fname data) as [s2 e2]. cbn [snd] in H2.
  assert (forall s e, (if ok s2 && sync then SyncFile e2 fname else (s2, e2)) = (s, e) ->
            files e !! g = files e2 !! g) as H3.
  { intros s e He. pose proof (frame_sync e2 fname g Hg) as Hs.
    destruct (ok s2 && sync); [rewrite He in Hs; exact Hs|by injection He as <- <-]. }
  destruct (if ok s2 && sync then SyncFile e2 fname else (s2, e2)) as [s3 e3]. specialize (H3 _ _ eq_refl).
  assert (forall s e, (if ok s3 then CloseFile e3 fname else (s3, e3)) = (s, e) ->
            files e !! g = files e3 !! g) as H4.
  { intros s e He. pose proof (frame_close e3 fname g Hg) as Hs.
    destruct (ok s3); [rewrite He in Hs; exact Hs|by injection He as <- <-]. }
  destruct (if ok s3 then CloseFile e3 fname else (s3, e3)) as [s4 e4]. specialize (H4 _ _ eq_refl).
  cbn [snd]. destruct (ok s4); cbn [negb]; [|rewrite frame_remove by done]; congruence.
Qed.

Lemma temp_not_current dbname n : CurrentFileName dbname <> TempFileName dbname n.
Proof.
  unfold CurrentFileName, TempFileName, MakeFileName. intros Heq%app_inv_head.
  assert (In 116 (str "/CURRENT")) as Ht.
  { rewrite Heq, !in_app_iff. right; right; right. cbn. tauto. }
  cbn in Ht. lia.
Qed.
Lemma manifest_not_current dbname n : DescriptorFileName dbname n <> CurrentFileName dbname.
Proof. unfold CurrentFileName, DescriptorFileName. by intros Heq%app_inv_head. Qed.
Lemma manifest_not_temp dbname n m : is_u64 m -> DescriptorFileName dbname n <> TempFileName dbname m.
Proof.
  intros (Hd & Hne & _)%decimal6_spec. unfold DescriptorFileName, TempFileName, MakeFileName. intros Heq%app_inv_head.
  destruct (decimal6 m) as [|c ds]; [done|]. inversion_clear Hd as [|? ? Hc _]. injection Heq as <-. unfold is_digit in Hc. lia.
Qed.
Lemma manifest_contents dbname n :
  drop (length dbname + 1) (DescriptorFileName dbname n) = str "MANIFEST-" ++ decimal6 n.
Proof.
  unfold DescriptorFileName. rewrite <- drop_drop, drop_app_length. done.
Qed.

Definition current_contents (n : Z) : bytes := str "MANIFEST-" ++ decimal6 n ++ [10].

(** Switching CURRENT is all or nothing: if SetCurrentFile succeeds, CURRENT names the
    new manifest and the temporary file is gone; if it fails at any step, CURRENT is
    what it was; no other file changes in either case. *)
Lemma SetCurrentFile_spec (env : E) (dbname : bytes) (n : Z) :
  let r := SetCurrentFile env dbname n in
  (ok (fst r) = true ->
     files (snd r) !! CurrentFileName dbname = Some (current_contents n) /\
     files (snd r) !! TempFileName dbname n = None) /\
  (ok (fst r) = false -> files (snd r) !! CurrentFileName dbname = files env !! CurrentFileName dbname) /\
  (forall g, g <> CurrentFileName dbname -> g <> TempFileName dbname n ->
     files (snd r) !! g = files env !! g).
Proof.
  unfold SetCurrentFile, WriteStringToFileSync. rewrite manifest_contents, <- app_assoc. fold (current_contents n).
  pose proof (temp_not_current dbname n) as Hne.
  pose proof (write_string_ok env (current_contents n) (TempFileName dbname n) true) as Hw.
  pose proof (write_string_frame env (current_contents n) (TempFileName dbname n) true) as Hframe.
  destruct (DoWriteStringToFile env (current_contents n) (TempFileName dbname n) true) as [s1 e1].
  cbn [fst snd] in Hw, Hframe. destruct (ok s1) eqn:O1; cbn [fst snd].
  - specialize (Hw eq_refl).
    pose proof (rename_file e1 (TempFileName dbname n) (CurrentFileName dbname) (current_contents n)) as Hr.
    pose proof (rename_failed e1 (TempFileName dbname n) (CurrentFileName dbname)) as Hr'.
    destruct (RenameFile e1 (TempFileName dbname n) (CurrentFileName dbname)) as [s2 e2].
    cbn [fst snd] in *. destruct (ok s2) eqn:O2; cbn [negb].
    + rewrite Hr; [|done|by rewrite Hw, lookup_insert_eq]. split_and!; [intros _|done|intros g H1 H2].
      * rewrite lookup_insert_eq. split; [done|]. rewrite lookup_insert_ne by done. apply lookup_delete_eq.
      * rewrite lookup_insert_ne, lookup_delete_ne by done. by apply Hframe.
    + specialize (Hr' eq_refl). split_and!; [done|intros _|intros g H1 H2];
        rewrite frame_remove, Hr' by done; by apply Hframe.
  - rewrite O1. cbn [negb]. split_and!; [done|intros _|intros g H1 H2];
      rewrite frame_remove by done; by apply Hframe.
Qed.
End SetCurrent.

(** An in-memory environment: a file system with a budget of calls, after which
    every call fails without effect. *)
Definition mem_call (e : nat * gmap (list Z) (list Z)) (m : gmap (list Z) (list Z))
    : Status * (nat * gmap (list Z) (list Z)) :=
  match fst e with
  | O => (IOError (str "no space") [], e)
  | S n => (OK, (n, m))
  end.
#[export] Instance mem_Env : Env (nat * gmap (list Z) (list Z)) := {
  NewWritableFile e f := mem_call e (<[f := []]> (snd e));
  AppendToFile e f data := mem_call e (alter (fun old => old ++ data) f (snd e));
  SyncFile e f := mem_call e (snd e);
  CloseFile e f := mem_call e (snd e);
  RemoveFile e f := mem_call e (delete f (snd e));
  RenameFile e a b := mem_call e
    match snd e !! a with Some v => <[b := v]> (delete a (snd e)) | None => snd e end;
}.
#[export] Instance mem_EnvOk : EnvOk (nat * gmap (list Z) (list Z)) snd.
Proof.
  split; intros [[|n] m]; unfold NewWritableFile, AppendToFile, SyncFile, CloseFile, RemoveFile,
    RenameFile, mem_Env, mem_call; cbn [fst snd]; try done.
  - intros f data old _ Hf. apply map_eq. intros i. destruct (decide (f = i)) as [->|Hi].
    + by rewrite lookup_alter_eq, Hf, lookup_insert_eq.
    + by rewrite lookup_alter_ne, lookup_insert_ne.
  - intros a b v _ Ha. by rewrite Ha.
  - intros f g Hg. by rewrite lookup_insert_ne.
  - intros f d g Hg. by rewrite lookup_alter_ne.
  - intros f g Hg. by rewrite lookup_delete_ne.
Qed.

(** ** Properties of names and printed text *)

(** File names round-trip: the name of every kind of database file parses back to its
    number and type once the directory is removed, for every 64-bit number. *)
Theorem file_name_roundtrip (dbname : bytes) (n : Z) (Hn : is_u64 n) :
  let base := drop (length dbname + 1) in
  ParseFileName (base (LogFileName dbname n)) = Some (n, kLogFile) /\
  ParseFileName (base (TableFileName dbname n)) = Some (n, kTableFile) /\
  ParseFileName (base (LDBTableFileName dbname n)) = Some (n, kTableFile) /\
  ParseFileName (base (TempFileName dbname n)) = Some (n, kTempFile) /\
  ParseFileName (base (DescriptorFileName dbname n)) = Some (n, kDescriptorFile) /\
  ParseFileName (base (CurrentFileName dbname)) = Some (0, kCurrentFile) /\
  ParseFileName (base (LockFileName dbname)) = Some (0, kDBLockFile) /\
  ParseFileName (base (InfoLogFileName dbname)) = Some (0, kInfoLogFile) /\
  ParseFileName (base (OldInfoLogFileName dbname)) = Some (0, kInfoLogFile).
Proof.
  cbv zeta. rewrite manifest_contents.
  assert (forall s, drop (length dbname + 1) (dbname ++ s) = drop 1 s) as Hb
    by (intros; by rewrite <- drop_drop, drop_app_length).
  unfold LogFileName, TableFileName, LDBTableFileName, TempFileName, MakeFileName, CurrentFileName,
    LockFileName, InfoLogFileName, OldInfoLogFileName. rewrite !Hb.
  split_and!; try (apply ParseFileName_number; [done|unfold suffix_type; tauto]);
    [by apply ParseFileName_descriptor|reflexivity..].
Qed.

Lemma file_name_roundtrip_witness :
  TableFileName (str "/db") 7 = str "/db/000007.sst" /\
  ParseFileName (str "000007.sst") = Some (7, kTableFile).
Proof. split; [reflexivity|]. apply (file_name_roundtrip (str "/db") 7). done. Defined.

(** Decimal parsing is exact: a nonempty run of digits is read to its end and yields its
    value, unless the value exceeds 64 bits, which is rejected; a printed number reads
    back as itself. *)
Theorem decimal_number_exact (ds rest : bytes) (n : Z)
  (Hds : Forall is_digit ds) (Hne : ds <> []) (Hrest : no_digit rest) (Hn : is_u64 n) :
  ConsumeDecimalNumber (ds ++ rest) =
    (if digits_val ds 0 <=? UINT64_MAX then Some (digits_val ds 0, rest) else None) /\
  ConsumeDecimalNumber (NumberToString n ++ rest) = Some (n, rest) /\
  ConsumeDecimalNumber rest = None.
Proof.
  split; [by apply ConsumeDecimalNumber_digits|]. split.
  - pose proof (decimal_spec n Hn) as (Hd & Hne' & Hv). unfold NumberToString, AppendNumberTo.
    rewrite app_nil_l, ConsumeDecimalNumber_digits, Hv by done.
    by rewrite (proj2 (Z.leb_le _ _)) by (unfold UINT64_MAX; rlia).
  - unfold ConsumeDecimalNumber. rewrite <- (app_nil_l rest), ConsumeDecimal_loop_spec by done. done.
Qed.

Lemma decimal_number_exact_witness :
  ConsumeDecimalNumber (str "18446744073709551616.log") = None /\
  ConsumeDecimalNumber (NumberToString 18446744073709551615 ++ str ".log") =
    Some (18446744073709551615, str ".log").
Proof.
  split.
  - apply (decimal_number_exact (str "18446744073709551616") (str ".log") 0);
      [repeat constructor; done|done|cbn; unfold is_digit; lia|done].
  - apply (decimal_number_exact (str "1") (str ".log") 18446744073709551615);
      [repeat constructor; done|done|cbn; unfold is_digit; lia|done].
Defined.

(** Reading back a whole file: one read per started 8 KiB and a last one that finds
    the end. *)
Lemma read_all_contents fuel : forall f data,
  (length f < fuel)%nat -> read_all fuel f data = Some (OK, data ++ f).
Proof.
  induction fuel as [|fuel IH]; intros f data Hf; [lia|]. cbn [read_all].
  change (Read f kBufferSize) with
    (drop (Z.to_nat kBufferSize) f, (OK, take (Z.to_nat kBufferSize) f)).
  cbn [ok negb]. assert (exists n, Z.to_nat kBufferSize = S n) as [n En]
    by (exists (Nat.pred (Z.to_nat kBufferSize)); unfold kBufferSize; lia).
  rewrite En. destruct f as [|c f]; [by cbn; rewrite app_nil_r|]. cbn [take drop].
  rewrite IH by (rewrite length_drop; cbn in Hf; lia).
  by rewrite <- app_assoc, <- app_comm_cons, take_drop.
Qed.
Lemma ReadFileToString_contents f :
  ReadFileToString (S (length f)) (OK, f) = Some (OK, f).
Proof. unfold ReadFileToString. cbn [ok negb]. by rewrite read_all_contents by lia. Qed.

(** Escaped text is printable, and printable text is left as it is. *)
Definition printable (c : Z) : Prop := 32 <= c <= 126.
Lemma escape_char_printable c : is_u8 c -> Forall printable (escape_char c).
Proof.
  intros Hc. unfold escape_char, schar, printable. pose proof (Z.mod_pos_bound c 16).
  assert (0 <= c / 16 < 16) by (split; [apply Z.div_pos; rlia|apply Z.div_lt_upper_bound; rlia]).
  assert (forall d, 0 <= d < 16 -> 32 <= hex_digit d <= 126) as Hx
    by (intros d Hd; unfold hex_digit; case_bool; lia).
  destruct ((32 <=? _) && _) eqn:Ec.
  - constructor; [|constructor]. rewrite andb_true_iff, !Z.leb_le in Ec. destruct (c <? 128); rlia.
  - repeat (constructor; [first [lia|apply Hx; lia]|]). constructor.
Qed.
Lemma AppendEscaped_app s value :
  AppendEscapedStringTo s value = s ++ concat (escape_char <$> value).
Proof.
  unfold AppendEscapedStringTo. revert s. induction value as [|c value IH]; intros s; cbn; [by rewrite app_nil_r|].
  by rewrite IH, <- app_assoc.
Qed.
Lemma EscapeString_printable value :
  bytes_ok value -> Forall printable (EscapeString value) /\
  (Forall printable value -> EscapeString value = value).
Proof.
  intros Hv. unfold EscapeString. rewrite AppendEscaped_app. cbn [app]. split.
  - induction Hv as [|c value Hc Hv IH]; cbn; [constructor|]. apply Forall_app.
    split; [by apply escape_char_printable|done].
  - induction 1 as [|c value Hc Hp IH]; [done|]. inversion_clear Hv. cbn. rewrite IH by done.
    unfold escape_char, schar, printable in *. rewrite (proj2 (Z.ltb_lt c 128)) by lia.
    by rewrite (proj2 (Z.leb_le 32 c)), (proj2 (Z.leb_le c 126)) by lia.
Qed.
