(* ===== verification/SkipList.v ===== *)
(** * The skip list of the memtable

    Models [src/pebblesdb/src/db/skiplist.h] and the generator of
    [src/pebblesdb/src/util/random.h].  A node is an address in a heap of nodes; every
    link carries the 64-bit key number of its target as a hint, and searches skip a
    level on the hint alone.  Insertion publishes a node level by level with
    compare-and-swap; the model runs one thread at a time, with the retry loops of
    the code.  Following a null or missing link is an error of the model ([None]),
    so that the theorems also say that it never happens. *)

From stdpp Require Import sorting.
From S2P Require Import Prelude.
From stdpp Require Import list.
#[local] Open Scope Z_scope.

Definition kMaxHeight : nat := 17.
Definition kBranching : Z := 4.

(** ** Random *)

Module Random.
Definition M : Z := 2147483647.
Definition A : Z := 16807.
Definition new (s : Z) : Z :=
  let seed_ := Z.land s 0x7fffffff in
  if (seed_ =? 0) || (seed_ =? 2147483647) then 1 else seed_.
(** The new seed, which is also the value returned. *)
Definition Next (seed_ : Z) : Z :=
  let product := u64 (seed_ * A) in
  let seed_ := u32 (Z.shiftr product 31 + Z.land product M) in
  if M <? seed_ then u32 (seed_ - M) else seed_.
(** The value and the new seed. *)
Definition Uniform (seed_ n : Z) : Z * Z := let seed_ := Next seed_ in (seed_ mod n, seed_).
Definition OneIn (seed_ n : Z) : bool * Z := let seed_ := Next seed_ in (seed_ mod n =? 0, seed_).
Definition Skewed (seed_ max_log : Z) : Z * Z :=
  let '(base, seed_) := Uniform seed_ (max_log + 1) in Uniform seed_ (Z.shiftl 1 base).
End Random.

(** ** The list *)

(** The order of the keys and their 64-bit numbers: what the list relies on. *)
Class KeyOrder {K : Type} (compare : K -> K -> Z) (ext : K -> Z) (valid : K -> Prop) := {
  ko_refl : forall a, valid a -> compare a a = 0;
  ko_antisym : forall a b, valid a -> valid b -> (compare a b < 0 <-> 0 < compare b a);
  ko_trans : forall a b c, valid a -> valid b -> valid c ->
    compare a b <= 0 -> compare b c <= 0 -> compare a c <= 0;
  ko_num : forall a b, valid a -> valid b -> compare a b <= 0 -> ext a <= ext b;
  ko_range : forall a, valid a -> 0 <= ext a <= UINT64_MAX;
}.

Section SkipList.
Context {K : Type} (compare_ : K -> K -> Z) (extractor_ : K -> Z).

(** [ptrs_\[n\]]: the hint and the next node.  The head has no key. *)
Record Node := {
  n_cmp : Z;
  n_key : option K;
  n_ptrs : list (Z * option nat);
}.
(** The nodes by address, and the generator; [head_] is the node allocated first. *)
Record SkipList := { heap : list Node; rnd_ : Z }.
Definition head_ : nat := 0.

(** *** Node *)

Definition set_ptr (nd : Node) (n : nat) (p : Z * option nat) : Node :=
  {| n_cmp := n_cmp nd; n_key := n_key nd; n_ptrs := <[n := p]> (n_ptrs nd) |}.
Definition SetNext (h : list Node) (x n : nat) (c : Z) (y : option nat) : list Node :=
  alter (fun nd => set_ptr nd n (c, y)) x h.
Definition GetNext (h : list Node) (x n : nat) : option (Z * option nat) :=
  match h !! x with Some nd => n_ptrs nd !! n | None => None end.

(** [while (expected > new_cmp) expected = compare_and_swap(&cmp, expected, new_cmp)]:
    the swap returns the value found. *)
Fixpoint lower_hint (fuel : nat) (cmp expected new_cmp : Z) : option Z :=
  match fuel with
  | O => None
  | S fuel =>
      if new_cmp <? expected then
        if cmp =? expected then lower_hint fuel new_cmp cmp new_cmp
        else lower_hint fuel cmp cmp new_cmp
      else Some cmp
  end.
Definition CasNext (h : list Node) (x n : nat) (old_node : option nat) (new_node : nat)
    : option (bool * list Node) :=
  match GetNext h x n, h !! new_node with
  | Some (c, y), Some nd =>
      if decide (y = old_node) then
        match lower_hint 4 c UINT64_MAX (n_cmp nd) with
        | Some c => Some (true, SetNext h x n c (Some new_node))
        | None => None
        end
      else Some (false, h)
  | _, _ => None
  end.

Definition mk_node (cmp : Z) (key : option K) (height : nat) : Node :=
  {| n_cmp := cmp; n_key := key; n_ptrs := replicate height (UINT64_MAX, None) |}.
(** [NewNode]: the address of the node and the heap with it. *)
Definition NewNode (h : list Node) (key : K) (height : nat) : nat * list Node :=
  (length h, h ++ [mk_node (extractor_ key) (Some key) height]).

(** *** Searching *)

Definition KeyIsAfterNode (h : list Node) (key : K) (n : option nat) : bool :=
  match n with
  | None => false
  | Some a =>
      match h !! a with
      | Some nd => match n_key nd with Some k => compare_ k key <? 0 | None => false end
      | None => false
      end
  end.

(** [while (level > 0 && x->NoBarrier_Cmp(level) > cmp)] *)
Fixpoint skip_levels (h : list Node) (cmp : Z) (x level : nat) (prev obs : list (option nat))
    : option (nat * list (option nat) * list (option nat)) :=
  match level with
  | O => Some (O, prev, obs)
  | S lower =>
      match GetNext h x level with
      | None => None
      | Some (c, _) =>
          if cmp <? c
          then skip_levels h cmp x lower (<[level := Some x]> prev) (<[level := None]> obs)
          else Some (level, prev, obs)
      end
  end.
Fixpoint FindGreaterOrEqual_loop (fuel : nat) (h : list Node) (key : K) (cmp : Z) (x level : nat)
    (prev obs : list (option nat)) : option (option nat * list (option nat) * list (option nat)) :=
  match fuel with
  | O => None
  | S fuel =>
      match skip_levels h cmp x level prev obs with
      | None => None
      | Some (level, prev, obs) =>
          match GetNext h x level with
          | None => None
          | Some (c, next) =>
              if (c <? cmp) || KeyIsAfterNode h key next then
                match next with
                | Some y => FindGreaterOrEqual_loop fuel h key cmp y level prev obs
                | None => None
                end
              else
                let prev := <[level := Some x]> prev in
                let obs := <[level := next]> obs in
                match level with
                | O => Some (next, prev, obs)
                | S lower => FindGreaterOrEqual_loop fuel h key cmp x lower prev obs
                end
          end
      end
  end.
(** Every iteration moves to a later node or to a lower level. *)
Definition search_fuel (h : list Node) : nat := length h + kMaxHeight.
Definition no_nodes : list (option nat) := replicate kMaxHeight None.
(** The node and the arrays [prev] and [obs] (which callers may not ask for). *)
Definition FindGreaterOrEqual (h : list Node) (key : K)
    : option (option nat * list (option nat) * list (option nat)) :=
  FindGreaterOrEqual_loop (search_fuel h) h key (extractor_ key) head_ (kMaxHeight - 1)
    no_nodes no_nodes.

Fixpoint FindLessThan_loop (fuel : nat) (h : list Node) (key : K) (x level : nat) : option nat :=
  match fuel with
  | O => None
  | S fuel =>
      match GetNext h x level with
      | None => None
      | Some (_, next) =>
          let down :=
            match level with O => Some x | S lower => FindLessThan_loop fuel h key x lower end in
          match next with
          | None => down
          | Some y => if KeyIsAfterNode h key next then FindLessThan_loop fuel h key y level else down
          end
      end
  end.
Definition FindLessThan (h : list Node) (key : K) : option nat :=
  FindLessThan_loop (search_fuel h) h key head_ (kMaxHeight - 1).

Fixpoint FindLast_loop (fuel : nat) (h : list Node) (x level : nat) : option nat :=
  match fuel with
  | O => None
  | S fuel =>
      match GetNext h x level with
      | None => None
      | Some (_, None) => match level with O => Some x | S lower => FindLast_loop fuel h x lower end
      | Some (_, Some y) => FindLast_loop fuel h y level
      end
  end.
Definition FindLast (h : list Node) : option nat :=
  FindLast_loop (search_fuel h) h head_ (kMaxHeight - 1).

(** *** Construction and insertion *)

(** The constructor sets every link of the head once more. *)
Definition new : SkipList :=
  {| heap := fold_left (fun h i => SetNext h head_ i UINT64_MAX None) (seq 0 kMaxHeight)
               [mk_node UINT64_MAX None kMaxHeight];
     rnd_ := Random.new 0xdeadbeef |}.

(** [while (height < kMaxHeight && (rnd_.Next() % kBranching) == 0) height++] *)
Fixpoint random_height (fuel : nat) (height : nat) (rnd : Z) : nat * Z :=
  match fuel with
  | O => (height, rnd)
  | S fuel =>
      if decide (height < kMaxHeight)%nat then
        let rnd := Random.Next rnd in
        if rnd mod kBranching =? 0 then random_height fuel (S height) rnd else (height, rnd)
      else (height, rnd)
  end.
Definition RandomHeight (rnd : Z) : nat * Z := random_height kMaxHeight 1 rnd.

(** "advance and retry the CAS": follow level [i] from [p]. *)
Fixpoint advance (fuel : nat) (h : list Node) (xcmp : Z) (key : K) (i p : nat)
    : option (nat * option nat) :=
  match fuel with
  | O => None
  | S fuel =>
      match GetNext h p i with
      | None => None
      | Some (c, o) =>
          if (c <? xcmp) || KeyIsAfterNode h key o then
            match o with Some q => advance fuel h xcmp key i q | None => None end
          else Some (p, o)
      end
  end.
(** [n ? n->cmp : UINT64_MAX] *)
Definition cmp_of (h : list Node) (n : option nat) : option Z :=
  match n with
  | None => Some UINT64_MAX
  | Some a => match h !! a with Some nd => Some (n_cmp nd) | None => None end
  end.
(** [while (true)] around the compare-and-swap of level [i]. *)
Fixpoint link_level (fuel : nat) (h : list Node) (xcmp : Z) (key : K) (x i p : nat) (n : option nat)
    : option (list Node) :=
  match fuel with
  | O => None
  | S fuel =>
      match cmp_of h n with
      | None => None
      | Some c =>
          let h := SetNext h x i c n in
          let retry := fun h =>
            match advance (search_fuel h) h xcmp key i p with
            | Some (p, o) => link_level fuel h xcmp key x i p o
            | None => None
            end in
          if xcmp <=? c then
            match CasNext h p i n x with
            | Some (true, h) => Some h
            | Some (false, h) => retry h
            | None => None
            end
          else retry h
      end
  end.
(** [for (i = 0; i < height; i++)] *)
Fixpoint link_levels (h : list Node) (xcmp : Z) (key : K) (x : nat) (levels : list nat)
    (prev obs : list (option nat)) : option (list Node) :=
  match levels with
  | [] => Some h
  | i :: levels =>
      match prev !! i, obs !! i with
      | Some (Some p), Some n =>
          match link_level (search_fuel h) h xcmp key x i p n with
          | Some h => link_levels h xcmp key x levels prev obs
          | None => None
          end
      | _, _ => None
      end
  end.
Definition Insert (l : SkipList) (key : K) : option SkipList :=
  match FindGreaterOrEqual (heap l) key with
  | None => None
  | Some (_, prev, obs) =>
      let '(height, rnd) := RandomHeight (rnd_ l) in
      let '(x, h) := NewNode (heap l) key height in
      match link_levels h (extractor_ key) key x (seq 0 height) prev obs with
      | Some h => Some {| heap := h; rnd_ := rnd |}
      | None => None
      end
  end.
Definition Contains (l : SkipList) (key : K) : option bool :=
  match FindGreaterOrEqual (heap l) key with
  | Some (Some x, _, _) =>
      match heap l !! x with
      | Some nd => match n_key nd with Some k => Some (compare_ key k =? 0) | None => None end
      | None => None
      end
  | Some (None, _, _) => Some false
  | None => None
  end.

(** *** Iterator: the current node, or null *)

Definition iter_key (l : SkipList) (node_ : option nat) : option K :=
  match node_ with
  | Some x => match heap l !! x with Some nd => n_key nd | None => None end
  | None => None
  end.
(** A position: [None] is an error of the model, [Some None] the null pointer. *)
Definition not_head (x : option nat) : option (option nat) :=
  match x with
  | Some x => Some (if (x =? head_)%nat then None else Some x)
  | None => None
  end.
Definition iter_Next (l : SkipList) (node_ : option nat) : option (option nat) :=
  match node_ with
  | Some x => match GetNext (heap l) x 0 with Some (_, y) => Some y | None => None end
  | None => None
  end.
Definition iter_Prev (l : SkipList) (node_ : option nat) : option (option nat) :=
  match iter_key l node_ with
  | Some k => not_head (FindLessThan (heap l) k)
  | None => None
  end.
Definition iter_Seek (l : SkipList) (target : K) : option (option nat) :=
  match FindGreaterOrEqual (heap l) target with Some (x, _, _) => Some x | None => None end.
Definition iter_SeekToFirst (l : SkipList) : option (option nat) :=
  match GetNext (heap l) head_ 0 with Some (_, y) => Some y | None => None end.
Definition iter_SeekToLast (l : SkipList) : option (option nat) := not_head (FindLast (heap l)).

(** ** The shape of the list *)

Definition key_at (h : list Node) (a : nat) : option K :=
  match h !! a with Some nd => n_key nd | None => None end.
Definition cmp_at (h : list Node) (a : nat) : Z :=
  match h !! a with Some nd => n_cmp nd | None => 0 end.
Definition height (h : list Node) (a : nat) : nat :=
  match h !! a with Some nd => length (n_ptrs nd) | None => 0 end.

(** The nodes of a sequence that are linked at level [l]. *)
Fixpoint at_level (h : list Node) (l : nat) (xs : list nat) : list nat :=
  match xs with
  | [] => []
  | x :: xs => if decide (l < height h x)%nat then x :: at_level h l xs else at_level h l xs
  end.
Definition first_at (h : list Node) (l : nat) (xs : list nat) : option nat := head (at_level h l xs).
Definition last_at (h : list Node) (l : nat) (xs : list nat) : option nat := last (at_level h l xs).
(** The link to a node: its number is the hint. *)
Definition link (h : list Node) (y : option nat) : Z * option nat :=
  (match y with Some a => cmp_at h a | None => UINT64_MAX end, y).

Lemma at_level_app h l xs ys : at_level h l (xs ++ ys) = at_level h l xs ++ at_level h l ys.
Proof. induction xs as [|x xs IH]; [done|]. cbn. case_decide; [|done]. cbn. by rewrite IH. Qed.
Lemma at_level_elem h l xs a : a ∈ at_level h l xs <-> a ∈ xs /\ (l < height h a)%nat.
Proof.
  induction xs as [|x xs IH]; cbn.
  - rewrite !elem_of_nil. tauto.
  - case_decide as Hx; rewrite !elem_of_cons, IH || rewrite elem_of_cons, IH; clear IH.
    + split; [intros [->|[? ?]]; tauto|intros [[->|?] ?]; tauto].
    + split; [tauto|intros [[->|?] ?]; tauto].
Qed.
Lemma first_at_app h l xs ys :
  first_at h l (xs ++ ys) = match first_at h l xs with Some y => Some y | None => first_at h l ys end.
Proof. unfold first_at. rewrite at_level_app. by destruct (at_level h l xs). Qed.
Lemma first_at_None h l xs : first_at h l xs = None <-> at_level h l xs = [].
Proof. unfold first_at. by destruct (at_level h l xs). Qed.
Lemma first_at_Some h l xs y :
  first_at h l xs = Some y -> (l < height h y)%nat /\ exists pre post, xs = pre ++ y :: post /\ at_level h l pre = [].
Proof.
  unfold first_at. induction xs as [|x xs IH]; cbn; [done|]. case_decide as Hx.
  - intros [= ->]. split; [done|]. by exists [], xs.
  - intros (Hy & pre & post & -> & Hpre)%IH. split; [done|]. exists (x :: pre), post.
    split; [done|]. cbn. by rewrite decide_False.
Qed.
(** The last node of a level before a split. *)
Lemma last_at_split h l pre x post :
  (l < height h x)%nat -> first_at h l post = None -> last_at h l (pre ++ x :: post) = Some x.
Proof.
  intros Hx Hpost%first_at_None. unfold last_at. rewrite at_level_app. cbn.
  rewrite decide_True, Hpost by done. apply last_snoc.
Qed.
Lemma last_at_later h l pre x post y :
  NoDup (pre ++ x :: post) -> first_at h l post = Some y -> last_at h l (pre ++ x :: post) <> Some x.
Proof.
  intros Hnd Hy. unfold last_at. rewrite at_level_app. cbn.
  assert (last (at_level h l post) <> Some x) as Hne.
  { intros Hx%last_Some_elem_of. apply at_level_elem in Hx as [Hx _].
    apply NoDup_app in Hnd as (_ & _ & Hnd%NoDup_cons). tauto. }
  assert (exists z, last (at_level h l post) = Some z) as [z Hz].
  { apply last_is_Some. unfold first_at in Hy. by destruct (at_level h l post). }
  case_decide; rewrite last_app; rewrite ?last_cons, Hz; congruence.
Qed.

Context (valid : K -> Prop) `{!KeyOrder compare_ extractor_ valid}.

(** [a] holds a valid key that satisfies [P]. *)
Definition node_ok (h : list Node) (a : nat) : Prop :=
  exists k, key_at h a = Some k /\ valid k /\ cmp_at h a = extractor_ k /\
    (1 <= height h a <= kMaxHeight)%nat.
Definition before (h : list Node) (a b : nat) : Prop :=
  forall ka kb, key_at h a = Some ka -> key_at h b = Some kb -> compare_ ka kb < 0.

(** The invariant: [ns] are the nodes after the head, in key order; every link goes
    to the next node of its level and carries its number. *)
Record sl_ok (h : list Node) (ns : list nat) : Prop := {
  ok_head : height h head_ = kMaxHeight;
  ok_nodes : Forall (node_ok h) ns;
  ok_nodup : NoDup (head_ :: ns);
  ok_sorted : StronglySorted (before h) ns;
  ok_alloc : (length ns < length h)%nat;
  ok_links : forall pre x post, head_ :: ns = pre ++ x :: post ->
    forall l, (l < height h x)%nat -> GetNext h x l = Some (link h (first_at h l post));
}.

Lemma height_ptr h x l : (l < height h x)%nat <-> is_Some (GetNext h x l).
Proof.
  unfold height, GetNext. destruct (h !! x) as [nd|]; [by rewrite lookup_lt_is_Some|].
  split; [lia|by intros []].
Qed.

Lemma first_at_0 h xs : Forall (node_ok h) xs -> first_at h 0 xs = head xs.
Proof.
  destruct xs as [|x xs]; [done|]. intros Hx. inversion_clear Hx as [|? ? (k & _ & _ & _ & Hh) _].
  unfold first_at. cbn. by rewrite decide_True by lia.
Qed.

(** ** Searching *)

Section Search.
Context (h : list Node) (ns L R : list nat) (k : K).
Context (Hok : sl_ok h ns) (Hns : ns = L ++ R) (Hk : valid k).
(** [L] are the nodes before the key, [R] the others. *)
Context (HL : Forall (fun a => KeyIsAfterNode h k (Some a) = true) L)
        (HR : Forall (fun a => KeyIsAfterNode h k (Some a) = false) R).

Lemma KeyIsAfterNode_at a ka : key_at h a = Some ka -> KeyIsAfterNode h k (Some a) = (compare_ ka k <? 0).
Proof. unfold key_at, KeyIsAfterNode. destruct (h !! a) as [nd|]; [|done]. by intros ->. Qed.
Lemma node_in a : a ∈ ns -> node_ok h a.
Proof. apply Forall_forall, (ok_nodes h ns Hok). Qed.

Lemma num_L a : a ∈ L -> cmp_at h a <= extractor_ k.
Proof.
  intros Ha. destruct (node_in a) as (ka & Hka & Hv & -> & _); [rewrite Hns; apply elem_of_app; by left|].
  rewrite Forall_forall in HL. specialize (HL a Ha). rewrite (KeyIsAfterNode_at a ka Hka) in HL.
  apply ko_num; [done|done|]. lia.
Qed.
Lemma num_R a : a ∈ R -> extractor_ k <= cmp_at h a.
Proof.
  intros Ha. destruct (node_in a) as (ka & Hka & Hv & -> & _); [rewrite Hns; apply elem_of_app; by right|].
  rewrite Forall_forall in HR. specialize (HR a Ha). rewrite (KeyIsAfterNode_at a ka Hka) in HR.
  apply ko_num; [done|done|]. apply Z.ltb_ge in HR.
  destruct (Z.lt_ge_cases 0 (compare_ k ka)) as [Hlt|]; [|lia].
  apply (proj2 (ko_antisym ka k Hv Hk)) in Hlt. lia.
Qed.
Lemma link_R l : extractor_ k <= fst (link h (first_at h l R)) /\ KeyIsAfterNode h k (first_at h l R) = false.
Proof.
  destruct (first_at h l R) as [y|] eqn:E; cbn [link fst].
  - apply first_at_Some in E as (_ & pre & post & E & _).
    assert (y ∈ R) as Hy by (rewrite E; apply elem_of_app; right; by left).
    split; [by apply num_R|]. rewrite Forall_forall in HR. by apply HR.
  - split; [|done]. apply (ko_range (KeyOrder := KeyOrder0)). done.
Qed.

(** A position of the search at level [l]: [x] is the head or a node of [L]. *)
Definition position (l x : nat) (post : list nat) : Prop :=
  (l < height h x)%nat /\ exists pre, head_ :: L = pre ++ x :: post.

Lemma position_link l x post j :
  position l x post -> (j <= l)%nat -> GetNext h x j = Some (link h (first_at h j (post ++ R))).
Proof.
  intros [Hx [pre Hpre]] Hj. apply (ok_links h ns Hok pre x (post ++ R)); [|lia].
  rewrite Hns, app_comm_cons, Hpre. by rewrite <- app_assoc.
Qed.
Lemma position_first l x post j y :
  position l x post -> (j <= l)%nat -> first_at h j post = Some y ->
  exists post', position j y post' /\ (length post' < length post)%nat /\ y ∈ L.
Proof.
  intros [Hx [pre Hpre]] Hj (Hy & mid & post' & -> & _)%first_at_Some. exists post'. split_and!.
  - split; [done|]. exists (pre ++ x :: mid). rewrite Hpre. by rewrite <- app_assoc.
  - rewrite length_app. cbn. lia.
  - destruct pre as [|p pre]; injection Hpre as _ HL0; rewrite HL0.
    + rewrite elem_of_app, elem_of_cons. tauto.
    + rewrite elem_of_app, elem_of_cons, elem_of_app, elem_of_cons. tauto.
Qed.
Lemma position_head l : (l < kMaxHeight)%nat -> position l head_ L.
Proof. intros Hl. split; [by rewrite (ok_head h ns Hok)|]. by exists []. Qed.
Lemma position_last l x post :
  position l x post -> first_at h l post = None -> last_at h l (head_ :: L) = Some x.
Proof. intros [Hx [pre ->]] Hpost. by apply last_at_split. Qed.

(** What the arrays hold at level [j]. *)
Definition found (j : nat) (prev obs : list (option nat)) : Prop :=
  prev !! j = Some (last_at h j (head_ :: L)) /\
  (obs !! j = Some None \/ obs !! j = Some (first_at h j R)).
Definition found_above (l : nat) (prev obs : list (option nat)) : Prop :=
  length prev = kMaxHeight /\ length obs = kMaxHeight /\
  forall j, (l < j < kMaxHeight)%nat -> found j prev obs.

Lemma found_record l x o prev obs :
  (l < kMaxHeight)%nat -> found_above l prev obs -> last_at h l (head_ :: L) = Some x ->
  o = None \/ o = first_at h l R ->
  length (<[l := Some x]> prev) = kMaxHeight /\ length (<[l := o]> obs) = kMaxHeight /\
  forall j, (l <= j < kMaxHeight)%nat -> found j (<[l := Some x]> prev) (<[l := o]> obs).
Proof.
  intros Hl (Hp & Ho & Hf) Hx Hor. rewrite !length_insert. split_and!; [done|done|].
  intros j Hj. unfold found. destruct (decide (j = l)) as [->|Hne].
  - rewrite !list_lookup_insert_eq by lia. rewrite Hx. split; [done|]. destruct Hor as [-> | ->]; tauto.
  - rewrite !list_lookup_insert_ne by done. apply Hf. lia.
Qed.

(** Skipping on hints only leaves levels that have no later node before the key. *)
Lemma skip_levels_ok x post : forall level prev obs,
  (level < kMaxHeight)%nat -> position level x post -> found_above level prev obs ->
  exists level' prev' obs', skip_levels h (extractor_ k) x level prev obs = Some (level', prev', obs') /\
    (level' <= level)%nat /\ found_above level' prev' obs'.
Proof.
  induction level as [|level IH]; intros prev obs Hl Hpos Hf; cbn [skip_levels].
  { by exists 0%nat, prev, obs. }
  rewrite (position_link (S level) x post) by (done || lia). unfold link at 1.
  destruct (Z.ltb_spec (extractor_ k)
    (match first_at h (S level) (post ++ R) with Some a => cmp_at h a | None => UINT64_MAX end)) as [Hlt|Hge].
  2: { by exists (S level), prev, obs. }
  assert (first_at h (S level) post = None) as Hnone.
  { rewrite first_at_app in Hlt. destruct (first_at h (S level) post) as [y|] eqn:Ey; [|done].
    destruct (position_first (S level) x post (S level) y Hpos ltac:(lia) Ey) as (post' & _ & _ & Hy).
    pose proof (num_L y Hy). lia. }
  destruct (found_record (S level) x None prev obs) as (Hp & Ho & Hf'); [done|done| |by left|].
  { by eapply position_last. }
  destruct (IH (<[S level := Some x]> prev) (<[S level := None]> obs)) as (l' & p' & o' & E & Hle & Hab).
  - lia.
  - destruct Hpos as [? ?]. split; [lia|done].
  - split_and!; [done|done|]. intros j Hj. apply Hf'. lia.
  - exists l', p', o'. split_and!; [done|lia|done].
Qed.

Lemma FindGreaterOrEqual_loop_ok fuel : forall x level post prev obs,
  (level < kMaxHeight)%nat -> position level x post -> found_above level prev obs ->
  (length post + level < fuel)%nat ->
  exists prev' obs',
    FindGreaterOrEqual_loop fuel h k (extractor_ k) x level prev obs = Some (first_at h 0 R, prev', obs') /\
    forall j, (j < kMaxHeight)%nat -> found j prev' obs'.
Proof.
  induction fuel as [|fuel IH]; intros x level post prev obs Hl Hpos Hf Hfuel; [lia|].
  cbn [FindGreaterOrEqual_loop].
  destruct (skip_levels_ok x post level prev obs Hl Hpos Hf) as (l & p & o & -> & Hle & Hf').
  assert (position l x post) as Hpos' by (destruct Hpos; split; [lia|done]).
  rewrite (position_link l x post) by (done || lia). rewrite first_at_app. unfold link.
  destruct (first_at h l post) as [y|] eqn:Ey.
  - destruct (position_first l x post l y Hpos' ltac:(lia) Ey) as (post' & Hy & Hlen & HyL).
    pose proof (proj1 (Forall_forall _ _) HL y HyL) as Hy'. cbn beta in Hy'.
    rewrite Hy', orb_true_r. apply (IH y l post'); [lia|done|done|lia].
  - destruct (link_R l) as [Hhint Hafter]. unfold link in Hhint. cbn [fst] in Hhint.
    rewrite Hafter, (proj2 (Z.ltb_ge _ _)) by done. cbn [orb].
    destruct (found_record l x (first_at h l R) p o) as (Hp & Ho & Hrec);
      [lia|done|by eapply position_last|by right|].
    destruct l as [|l].
    + exists (<[0%nat := Some x]> p), (<[0%nat := first_at h 0 R]> o). split; [done|].
      intros j Hj. apply Hrec. lia.
    + apply (IH x l post); [lia|destruct Hpos'; split; [lia|done]| |lia].
      split_and!; [done|done|]. intros j Hj. apply Hrec. lia.
Qed.

Lemma FindGreaterOrEqual_ok :
  exists prev obs, FindGreaterOrEqual h k = Some (head R, prev, obs) /\
    forall j, (j < kMaxHeight)%nat -> found j prev obs.
Proof.
  unfold FindGreaterOrEqual.
  destruct (FindGreaterOrEqual_loop_ok (search_fuel h) head_ (kMaxHeight - 1) L no_nodes no_nodes)
    as (prev & obs & E & Hf).
  - unfold kMaxHeight. lia.
  - apply position_head. unfold kMaxHeight. lia.
  - split_and!; [done|done|]. intros j Hj. unfold kMaxHeight in Hj. lia.
  - pose proof (ok_alloc h ns Hok) as Ha. rewrite Hns, length_app in Ha.
    unfold search_fuel, kMaxHeight. lia.
  - exists prev, obs. split; [|done]. rewrite E, first_at_0; [done|].
    pose proof (ok_nodes h ns Hok) as Hall. rewrite Hns in Hall. by apply Forall_app in Hall as [_ ?].
Qed.

(** The last node before the key, the head if there is none. *)
Lemma FindLessThan_loop_ok fuel : forall x level post,
  position level x post -> (length post + level < fuel)%nat ->
  FindLessThan_loop fuel h k x level = last_at h 0 (head_ :: L).
Proof.
  induction fuel as [|fuel IH]; intros x level post Hpos Hfuel; [lia|]. cbn [FindLessThan_loop].
  rewrite (position_link level x post) by (done || lia). rewrite first_at_app. unfold link.
  assert (first_at h level post = None ->
          match level with O => Some x | S lower => FindLessThan_loop fuel h k x lower end =
          last_at h 0 (head_ :: L)) as Hdown.
  { intros Hnone. destruct level as [|level]; [by erewrite position_last|].
    apply (IH x level post); [destruct Hpos; split; [lia|done]|lia]. }
  destruct (first_at h level post) as [y|] eqn:Ey.
  - destruct (position_first level x post level y Hpos ltac:(lia) Ey) as (post' & Hy & Hlen & HyL).
    pose proof (proj1 (Forall_forall _ _) HL y HyL) as Hy'. cbn beta in Hy'.
    rewrite Hy'. apply (IH y level post'); [done|lia].
  - destruct (link_R level) as [_ Hafter]. destruct (first_at h level R) as [y|]; [|by apply Hdown].
    rewrite Hafter. by apply Hdown.
Qed.
Lemma last_at_0 : last_at h 0 (head_ :: L) = last (head_ :: L).
Proof.
  unfold last_at. f_equal.
  assert (Forall (fun a => 0 < height h a)%nat (head_ :: L)) as Hall.
  { constructor; [rewrite (ok_head h ns Hok); unfold kMaxHeight; lia|].
    pose proof (ok_nodes h ns Hok) as Hn. rewrite Hns in Hn. apply Forall_app in Hn as [Hn _].
    eapply Forall_impl; [exact Hn|]. intros a (? & _ & _ & _ & ?). lia. }
  induction Hall as [|a xs Ha Hall IH]; [done|]. cbn [at_level]. by rewrite decide_True, IH.
Qed.
Lemma FindLessThan_ok : FindLessThan h k = last (head_ :: L).
Proof.
  unfold FindLessThan. rewrite <- last_at_0. apply (FindLessThan_loop_ok _ _ _ L).
  - apply position_head. unfold kMaxHeight. lia.
  - pose proof (ok_alloc h ns Hok) as Ha. rewrite Hns, length_app in Ha.
    unfold search_fuel, kMaxHeight. lia.
Qed.
End Search.

(** ** The last node *)

Lemma FindLast_loop_ok h ns fuel : sl_ok h ns -> forall x level post,
  position h ns level x post -> (length post + level < fuel)%nat ->
  FindLast_loop fuel h x level = last_at h 0 (head_ :: ns).
Proof.
  intros Hok. assert (ns = ns ++ []) as Hns by (by rewrite app_nil_r).
  induction fuel as [|fuel IH]; intros x level post Hpos Hfuel; [lia|]. cbn [FindLast_loop].
  rewrite (position_link h ns ns [] Hok Hns level x post) by (done || lia).
  rewrite app_nil_r. unfold link. destruct (first_at h level post) as [y|] eqn:Ey.
  - destruct (position_first h ns level x post level y Hpos ltac:(lia) Ey) as (post' & Hy & Hlen & _).
    apply (IH y level post'); [done|lia].
  - destruct level as [|level]; [by erewrite position_last|].
    apply (IH x level post); [destruct Hpos; split; [lia|done]|lia].
Qed.
Lemma FindLast_ok h ns : sl_ok h ns -> FindLast h = last (head_ :: ns).
Proof.
  intros Hok. assert (ns = ns ++ []) as Hns by (by rewrite app_nil_r).
  rewrite <- (last_at_0 h ns ns [] Hok Hns). apply (FindLast_loop_ok h ns _ Hok _ _ ns).
  - apply (position_head h ns ns Hok). unfold kMaxHeight. lia.
  - pose proof (ok_alloc h ns Hok). unfold search_fuel, kMaxHeight. lia.
Qed.

(** ** Splitting the list at a key *)

Lemma after_monotone h k a b ka kb :
  key_at h a = Some ka -> key_at h b = Some kb -> valid ka -> valid kb -> valid k ->
  before h a b -> KeyIsAfterNode h k (Some a) = false -> KeyIsAfterNode h k (Some b) = false.
Proof.
  intros Ha Hb Va Vb Vk Hab. rewrite (KeyIsAfterNode_at h k a ka Ha), (KeyIsAfterNode_at h k b kb Hb).
  rewrite !Z.ltb_ge. intros Hge. specialize (Hab ka kb Ha Hb).
  destruct (Z.lt_ge_cases (compare_ kb k) 0) as [Hlt|]; [|lia].
  assert (compare_ ka k <= 0) as Hle by (apply (ko_trans ka kb k); [done|done|done|lia|lia]).
  assert (compare_ k ka <= 0) as Hka.
  { destruct (Z.lt_ge_cases 0 (compare_ k ka)) as [Hp|]; [|lia].
    apply (proj2 (ko_antisym ka k Va Vk)) in Hp. lia. }
  assert (compare_ kb ka <= 0) as Hba by (apply (ko_trans kb k ka); [done|done|done|lia|lia]).
  apply (proj1 (ko_antisym ka kb Va Vb)) in Hab. lia.
Qed.

Lemma split_at h ns k :
  Forall (node_ok h) ns -> StronglySorted (before h) ns -> valid k ->
  exists L R, ns = L ++ R /\ Forall (fun a => KeyIsAfterNode h k (Some a) = true) L /\
    Forall (fun a => KeyIsAfterNode h k (Some a) = false) R.
Proof.
  intros Hn Hs Hk. induction Hs as [|a ns Hs IH Ha]; [by exists [], []|].
  inversion_clear Hn as [|? ? Hna Hns]. destruct (KeyIsAfterNode h k (Some a)) eqn:Ek.
  - destruct (IH Hns) as (L & R & -> & HL & HR). exists (a :: L), R. split_and!; [done|by constructor|done].
  - exists [], (a :: ns). split_and!; [done|constructor|]. constructor; [done|].
    apply Forall_forall. intros b Hb. rewrite Forall_forall in Hns, Ha.
    destruct Hna as (ka & Hka & Hva & _). destruct (Hns b Hb) as (kb & Hkb & Hvb & _).
    by apply (after_monotone h k a b ka kb); [..|apply Ha|].
Qed.

(** ** Insertion *)

Lemma lower_hint_ok cmp new_cmp :
  new_cmp <= cmp -> cmp <= UINT64_MAX -> lower_hint 4 cmp UINT64_MAX new_cmp = Some new_cmp.
Proof.
  intros H1 H2. cbn [lower_hint].
  repeat first [ lia | f_equal; lia | case_bool ].
Qed.

Lemma height_SetNext h x n c y a : height (SetNext h x n c y) a = height h a.
Proof.
  unfold height, SetNext. destruct (decide (x = a)) as [->|Hne].
  - rewrite list_lookup_alter_eq. destruct (h !! a) as [nd|]; [|done]. cbn. apply length_insert.
  - by rewrite list_lookup_alter_ne.
Qed.
Lemma key_at_SetNext h x n c y a : key_at (SetNext h x n c y) a = key_at h a.
Proof.
  unfold key_at, SetNext. destruct (decide (x = a)) as [->|Hne].
  - rewrite list_lookup_alter_eq. by destruct (h !! a).
  - by rewrite list_lookup_alter_ne.
Qed.
Lemma cmp_at_SetNext h x n c y a : cmp_at (SetNext h x n c y) a = cmp_at h a.
Proof.
  unfold cmp_at, SetNext. destruct (decide (x = a)) as [->|Hne].
  - rewrite list_lookup_alter_eq. by destruct (h !! a).
  - by rewrite list_lookup_alter_ne.
Qed.
Lemma length_SetNext h x n c y : length (SetNext h x n c y) = length h.
Proof. apply length_alter. Qed.
Lemma GetNext_SetNext h x n c y a l :
  (n < height h x)%nat ->
  GetNext (SetNext h x n c y) a l =
  if decide (a = x /\ l = n) then Some (c, y) else GetNext h a l.
Proof.
  unfold height, GetNext, SetNext. intros Hn. destruct (decide (x = a)) as [->|Hne].
  - rewrite list_lookup_alter_eq. destruct (h !! a) as [nd|] eqn:Ea; [|lia]. cbn.
    destruct (decide (l = n)) as [->|Hl].
    + rewrite decide_True by done. by apply list_lookup_insert_eq.
    + rewrite decide_False by tauto. by apply list_lookup_insert_ne.
  - rewrite list_lookup_alter_ne by done. rewrite decide_False; [done|]. intros [-> _]. done.
Qed.
Lemma KeyIsAfterNode_ext h g k n :
  (forall a, key_at g a = key_at h a) -> KeyIsAfterNode g k n = KeyIsAfterNode h k n.
Proof.
  intros Hk. destruct n as [a|]; [|done]. specialize (Hk a). unfold key_at in Hk. cbn.
  destruct (g !! a) as [nd|], (h !! a) as [nd'|]; rewrite ?Hk; rewrite <- ?Hk; done.
Qed.

Lemma last_at_Some h l xs p :
  last_at h l xs = Some p ->
  (l < height h p)%nat /\ exists pre post, xs = pre ++ p :: post /\ first_at h l post = None.
Proof.
  unfold last_at. induction xs as [|x xs IH]; cbn; [done|]. case_decide as Hx.
  - destruct (at_level h l xs) as [|z zs] eqn:E.
    + intros [= ->]. split; [done|]. exists [], xs. split; [done|]. by apply first_at_None.
    + rewrite last_cons_cons. intros (Hp & pre & post & -> & Hpost)%IH. split; [done|].
      by exists (x :: pre), post.
  - intros (Hp & pre & post & -> & Hpost)%IH. split; [done|]. by exists (x :: pre), post.
Qed.

Section Insert.
Context (h : list Node) (ns L R : list nat) (k : K) (hh : nat).
Context (Hok : sl_ok h ns) (Hns : ns = L ++ R) (Hk : valid k).
Context (HL : Forall (fun a => KeyIsAfterNode h k (Some a) = true) L)
        (HR : Forall (fun a => KeyIsAfterNode h k (Some a) = false) R).
Context (Hhh : (1 <= hh <= kMaxHeight)%nat).
Let x : nat := length h.
Let h1 : list Node := h ++ [mk_node (extractor_ k) (Some k) hh].

Lemma old_lookup a : (a < x)%nat -> h1 !! a = h !! a.
Proof. intros. by apply lookup_app_l. Qed.
Lemma new_lookup : h1 !! x = Some (mk_node (extractor_ k) (Some k) hh).
Proof. unfold h1, x. rewrite lookup_app_r, Nat.sub_diag by lia. done. Qed.
Lemma height_old a : (0 < height h a)%nat -> (a < x)%nat.
Proof.
  unfold height. destruct (h !! a) as [nd|] eqn:E; [|lia]. intros _. by apply lookup_lt_Some in E.
Qed.
Lemma node_old a : a ∈ head_ :: ns -> (a < x)%nat.
Proof.
  intros [->|Ha]%elem_of_cons; apply height_old.
  - rewrite (ok_head h ns Hok). unfold kMaxHeight. lia.
  - destruct (node_in h ns Hok a Ha) as (? & _ & _ & _ & ?). lia.
Qed.
Lemma height_h1 a : (a < x)%nat -> height h1 a = height h a.
Proof. intros. unfold height. by rewrite old_lookup. Qed.
Lemma height_new : height h1 x = hh.
Proof. unfold height. rewrite new_lookup. cbn. apply length_replicate. Qed.
Lemma in_R a l : first_at h l R = Some a -> a ∈ R /\ (a < x)%nat.
Proof.
  intros (_ & pre & post & E & _)%first_at_Some. assert (a ∈ R) as Ha by (rewrite E, elem_of_app; right; by left).
  split; [done|]. apply node_old. right. rewrite Hns, elem_of_app. by right.
Qed.

(** The heap once the levels below [i] are linked. *)
Record linked (i : nat) (g : list Node) : Prop := {
  lk_len : length g = S x;
  lk_height : forall a, height g a = height h1 a;
  lk_key : forall a, key_at g a = key_at h1 a;
  lk_cmp : forall a, cmp_at g a = cmp_at h1 a;
  lk_new : forall l, (l < i)%nat -> GetNext g x l = Some (link h (first_at h l R));
  lk_old : forall a l, a <> x -> GetNext g a l =
    if decide ((l < i)%nat /\ last_at h l (head_ :: L) = Some a) then Some (extractor_ k, Some x)
    else GetNext h a l;
}.

Lemma linked_0 : linked 0 h1.
Proof.
  split; try done.
  - unfold h1, x. rewrite length_app. cbn. lia.
  - lia.
  - intros a l Ha. rewrite decide_False by lia. unfold GetNext.
    destruct (decide (a < x)%nat) as [Hlt|Hge]; [by rewrite old_lookup|].
    rewrite !lookup_ge_None_2; [done|unfold x in *; lia|]. unfold h1. rewrite length_app. cbn. unfold x in *. lia.
Qed.

(** The link that level [i] has before the node is inserted. *)
Lemma old_link i p :
  last_at h i (head_ :: L) = Some p -> (p < x)%nat /\ (i < height h p)%nat /\
  GetNext h p i = Some (link h (first_at h i R)).
Proof.
  intros (Hp & pre & post & E & Hnone)%last_at_Some. split_and!.
  - apply height_old. lia.
  - done.
  - rewrite (ok_links h ns Hok pre p (post ++ R)); [by rewrite first_at_app, Hnone| |done].
    rewrite Hns, app_comm_cons, E. by rewrite <- app_assoc.
Qed.
Lemma cmp_of_R g i n :
  linked i g -> n = None \/ n = first_at h i R -> cmp_of g n = Some (fst (link h n)).
Proof.
  intros Hg Hn. destruct n as [a|]; [|done]. destruct Hn as [?|Ha]; [done|]. symmetry in Ha.
  apply in_R in Ha as [_ Ha]. pose proof (lk_cmp i g Hg a) as Hc. pose proof (lk_height i g Hg a) as Hh.
  unfold cmp_at in Hc. cbn [cmp_of link fst]. unfold cmp_at.
  rewrite old_lookup in Hc by done. destruct (lookup_lt_is_Some_2 g a) as [nd Hnd].
  { rewrite (lk_len i g Hg). lia. }
  destruct (lookup_lt_is_Some_2 h a) as [nd' Hnd']; [done|]. rewrite Hnd, Hnd' in *. by rewrite Hc.
Qed.
Lemma hint_R i n : n = None \/ n = first_at h i R -> extractor_ k <= fst (link h n) <= UINT64_MAX.
Proof.
  intros Hn. pose proof (ko_range k Hk) as Hr. destruct n as [a|]; cbn [link fst]; [|lia].
  destruct Hn as [?|Ha]; [done|]. symmetry in Ha. pose proof (link_R h ns L R k Hok Hns Hk HR i) as [Hlow _].
  rewrite Ha in Hlow. cbn [link fst] in Hlow. split; [done|].
  apply in_R in Ha as [Ha _]. destruct (node_in h ns Hok a) as (ka & _ & Hv & -> & _).
  { rewrite Hns, elem_of_app. by right. }
  apply (ko_range ka Hv).
Qed.

Lemma linked_SetNew i g c n : linked i g -> (i < hh)%nat -> linked i (SetNext g x i c n).
Proof.
  intros Hg Hi. assert (i < height g x)%nat as Hx by (rewrite (lk_height i g Hg), height_new; lia).
  split.
  - rewrite length_SetNext. apply Hg.
  - intros a. rewrite height_SetNext. apply Hg.
  - intros a. rewrite key_at_SetNext. apply Hg.
  - intros a. rewrite cmp_at_SetNext. apply Hg.
  - intros l Hl. rewrite GetNext_SetNext by done. rewrite decide_False by lia. by apply Hg.
  - intros a l Ha. rewrite GetNext_SetNext by done. rewrite decide_False by tauto. by apply Hg.
Qed.
Lemma linked_link i g p c :
  linked i g -> (i < hh)%nat -> last_at h i (head_ :: L) = Some p ->
  GetNext g x i = Some (link h (first_at h i R)) -> c = extractor_ k ->
  linked (S i) (SetNext g p i c (Some x)).
Proof.
  intros Hg Hi Hp Hnew ->. destruct (old_link i p Hp) as (Hpx & Hph & _).
  assert (i < height g p)%nat as Hgp by (rewrite (lk_height i g Hg), height_h1; lia).
  split.
  - rewrite length_SetNext. apply Hg.
  - intros a. rewrite height_SetNext. apply Hg.
  - intros a. rewrite key_at_SetNext. apply Hg.
  - intros a. rewrite cmp_at_SetNext. apply Hg.
  - intros l Hl. rewrite GetNext_SetNext by done. rewrite decide_False by lia.
    destruct (decide (l = i)) as [->|]; [done|]. apply Hg. lia.
  - intros a l Ha. rewrite GetNext_SetNext by done. destruct (decide (a = p /\ l = i)) as [[-> ->]|Hne].
    + by rewrite decide_True by (split; [lia|done]).
    + rewrite (lk_old i g Hg) by done. destruct (decide (l = i)) as [->|Hli].
      * rewrite !decide_False; [done| |lia]. intros [_ E]. apply Hne. split; [congruence|done].
      * destruct (decide _) as [[H1 H2]|H1]; [by rewrite decide_True by (split; [lia|done])|].
        rewrite decide_False; [done|]. intros [H2 H3]. apply H1. split; [lia|done].
Qed.

Lemma new_cmp i g : linked i g -> exists nd, g !! x = Some nd /\ n_cmp nd = extractor_ k.
Proof.
  intros Hg. destruct (lookup_lt_is_Some_2 g x) as [nd Hnd]; [rewrite (lk_len i g Hg); lia|].
  exists nd. split; [done|]. pose proof (lk_cmp i g Hg x) as Hc. unfold cmp_at in Hc.
  by rewrite Hnd, new_lookup in Hc.
Qed.

(** A swap that expects the right successor links the level. *)
Lemma link_level_hit i g p fuel :
  linked i g -> (i < hh)%nat -> last_at h i (head_ :: L) = Some p ->
  exists g', link_level (S fuel) g (extractor_ k) k x i p (first_at h i R) = Some g' /\ linked (S i) g'.
Proof.
  intros Hg Hi Hp. cbn [link_level]. rewrite (cmp_of_R g i) by (done || tauto).
  destruct (hint_R i (first_at h i R)) as [Hlo Hhi]; [by right|].
  rewrite (proj2 (Z.leb_le _ _)) by done.
  set (c := fst (link h (first_at h i R))) in *.
  assert (linked i (SetNext g x i c (first_at h i R))) as Hg1 by (by apply linked_SetNew).
  destruct (old_link i p Hp) as (Hpx & Hph & Hnext).
  destruct (new_cmp i _ Hg1) as (nd & Hnd & Hc). unfold CasNext.
  rewrite (lk_old i _ Hg1) by lia. rewrite decide_False by lia. rewrite Hnext. unfold link at 1. rewrite Hnd.
  rewrite decide_True by done. rewrite Hc. fold c.
  change (match first_at h i R with Some a => cmp_at h a | None => UINT64_MAX end) with c.
  rewrite lower_hint_ok by done. eexists. split; [reflexivity|].
  apply linked_link; [done|done|done| |done].
  rewrite GetNext_SetNext; [by rewrite decide_True|]. rewrite (lk_height i g Hg), height_new. lia.
Qed.

(** A swap that expects null while the level continues is retried once. *)
Lemma link_level_ok i g p n fuel :
  linked i g -> (i < hh)%nat -> last_at h i (head_ :: L) = Some p ->
  n = None \/ n = first_at h i R ->
  exists g', link_level (S (S fuel)) g (extractor_ k) k x i p n = Some g' /\ linked (S i) g'.
Proof.
  intros Hg Hi Hp Hn. destruct (decide (n = first_at h i R)) as [->|Hne]; [by apply link_level_hit|].
  destruct Hn as [->|?]; [|done].
  remember (S fuel) as fuel' eqn:Ef. cbn [link_level]. rewrite (cmp_of_R g i) by (done || tauto).
  destruct (hint_R i None) as [Hlo _]; [by left|]. rewrite (proj2 (Z.leb_le _ _)) by done.
  set (g1 := SetNext g x i (fst (link h None)) None).
  assert (linked i g1) as Hg1 by (by apply linked_SetNew).
  destruct (old_link i p Hp) as (Hpx & Hph & Hnext).
  assert (GetNext g1 p i = Some (link h (first_at h i R))) as Hp1.
  { rewrite (lk_old i g1 Hg1) by lia. by rewrite decide_False by lia. }
  destruct (new_cmp i g1 Hg1) as (nd & Hnd & _). unfold CasNext. rewrite Hp1, Hnd. unfold link at 1.
  rewrite decide_False by congruence.
  assert (search_fuel g1 = S (search_fuel g1 - 1)) as -> by (unfold search_fuel, kMaxHeight; lia).
  cbn [advance]. rewrite Hp1. unfold link at 1.
  destruct (link_R h ns L R k Hok Hns Hk HR i) as [Hhint Hafter]. unfold link in Hhint. cbn [fst] in Hhint.
  rewrite (proj2 (Z.ltb_ge _ _)) by done. cbn [orb].
  assert (KeyIsAfterNode g1 k (first_at h i R) = false) as ->.
  { rewrite <- Hafter. destruct (first_at h i R) as [a|] eqn:Ea; [|done]. apply in_R in Ea as [_ Ha].
    pose proof (lk_key i g1 Hg1 a) as Hka. unfold key_at in Hka. rewrite old_lookup in Hka by done. cbn.
    destruct (g1 !! a), (h !! a); rewrite ?Hka; rewrite <- ?Hka; done. }
  subst fuel'. by apply link_level_hit.
Qed.

Lemma link_levels_ok prev obs :
  (forall j, (j < kMaxHeight)%nat -> found h L R j prev obs) ->
  forall n i g, (i + n = hh)%nat -> linked i g ->
  exists g', link_levels g (extractor_ k) k x (seq i n) prev obs = Some g' /\ linked hh g'.
Proof.
  intros Hf. induction n as [|n IH]; intros i g Hi Hg; cbn [seq link_levels].
  { exists g. split; [done|]. by replace hh with i by lia. }
  destruct (Hf i) as [Hp Ho]; [lia|]. rewrite Hp.
  assert (exists p, last_at h i (head_ :: L) = Some p) as [p Ep].
  { apply last_is_Some. cbn [at_level]. by rewrite decide_True by (rewrite (ok_head h ns Hok); lia). }
  rewrite Ep. assert (exists o, obs !! i = Some o /\ (o = None \/ o = first_at h i R)) as (o & -> & Ho').
  { destruct Ho as [->| ->]; eexists; (split; [reflexivity|]); tauto. }
  assert (exists f, search_fuel g = S (S f)) as [f ->].
  { exists (search_fuel g - 2)%nat. unfold search_fuel, kMaxHeight. lia. }
  destruct (link_level_ok i g p o f) as (g' & -> & Hg'); [done|lia|done|done|].
  apply (IH (S i)); [lia|done].
Qed.

Lemma at_level_ext g l ys :
  Forall (fun a => height g a = height h a) ys -> at_level g l ys = at_level h l ys.
Proof. induction 1 as [|a ys Ha _ IH]; [done|]. cbn. by rewrite Ha, IH. Qed.

(** The keys of [L] are below [k], the keys of [R] above. *)
Context (Hfresh : forall a ka, a ∈ ns -> key_at h a = Some ka -> compare_ ka k <> 0).

Section Linked.
Context (g : list Node) (Hg : linked hh g).

Lemma lk_old_node a : (a < x)%nat ->
  height g a = height h a /\ key_at g a = key_at h a /\ cmp_at g a = cmp_at h a.
Proof.
  intros Ha. rewrite (lk_height _ _ Hg), (lk_key _ _ Hg), (lk_cmp _ _ Hg).
  unfold height, key_at, cmp_at. by rewrite old_lookup.
Qed.
Lemma node_ok_old a : a ∈ ns -> node_ok g a.
Proof.
  intros Ha. destruct (lk_old_node a) as (Eh & Ek & Ec); [apply node_old; by right|].
  unfold node_ok. rewrite Eh, Ek, Ec. by apply (node_in h ns Hok).
Qed.
Lemma node_ok_new : node_ok g x.
Proof.
  exists k. rewrite (lk_height _ _ Hg), (lk_key _ _ Hg), (lk_cmp _ _ Hg), height_new.
  unfold key_at, cmp_at. by rewrite new_lookup.
Qed.
Lemma key_at_new : key_at g x = Some k.
Proof. rewrite (lk_key _ _ Hg). unfold key_at. by rewrite new_lookup. Qed.
Lemma before_old a b : a ∈ ns -> b ∈ ns -> before h a b -> before g a b.
Proof.
  intros Ha Hb. unfold before.
  destruct (lk_old_node a) as (_ & -> & _); [apply node_old; by right|].
  by destruct (lk_old_node b) as (_ & -> & _); [apply node_old; by right|].
Qed.
Lemma before_new a : a ∈ L -> before g a x.
Proof.
  intros Ha ka kb. assert (a ∈ ns) as Hn by (rewrite Hns, elem_of_app; by left).
  destruct (lk_old_node a) as (_ & -> & _); [apply node_old; by right|]. rewrite key_at_new.
  intros Hka [= <-]. pose proof (proj1 (Forall_forall _ _) HL a Ha) as Hlt. cbn beta in Hlt.
  rewrite (KeyIsAfterNode_at h k a ka Hka) in Hlt. lia.
Qed.
Lemma after_new b : b ∈ R -> before g x b.
Proof.
  intros Hb ka kb. assert (b ∈ ns) as Hn by (rewrite Hns, elem_of_app; by right).
  destruct (lk_old_node b) as (_ & -> & _); [apply node_old; by right|]. rewrite key_at_new.
  intros [= <-] Hkb. pose proof (proj1 (Forall_forall _ _) HR b Hb) as Hge. cbn beta in Hge.
  rewrite (KeyIsAfterNode_at h k b kb Hkb) in Hge. specialize (Hfresh b kb Hn Hkb).
  destruct (node_in h ns Hok b Hn) as (kb' & Hkb' & Hv & _).
  assert (kb' = kb) as -> by congruence. apply (proj2 (ko_antisym k kb Hk Hv)). lia.
Qed.

Lemma sorted_new : StronglySorted (before g) (L ++ x :: R).
Proof.
  pose proof (ok_sorted h ns Hok) as Hs. rewrite Hns in Hs.
  assert (forall ys, StronglySorted (before h) ys -> (forall a, a ∈ ys -> a ∈ ns) ->
            StronglySorted (before g) ys) as Hkeep.
  { intros ys Hys. induction Hys as [|a ys Hys IH Ha]; intros Hin; [constructor|]. constructor.
    - apply IH. intros b Hb. apply Hin. by right.
    - apply Forall_forall. intros b Hb. rewrite Forall_forall in Ha.
      apply before_old; [apply Hin; by left|apply Hin; by right|by apply Ha]. }
  apply StronglySorted_app in Hs as (Hlr & Hsl & Hsr).
  apply StronglySorted_app_2; [| |constructor].
  - intros a b Ha [->|Hb]%elem_of_cons; [by apply before_new|].
    apply before_old; [rewrite Hns, elem_of_app; by left|rewrite Hns, elem_of_app; by right|by apply Hlr].
  - apply Hkeep; [done|]. intros a Ha. rewrite Hns, elem_of_app. by left.
  - apply Hkeep; [done|]. intros a Ha. rewrite Hns, elem_of_app. by right.
  - apply Forall_forall. apply after_new.
Qed.
Lemma nodup_new : NoDup (head_ :: L ++ x :: R).
Proof.
  assert (x ∉ head_ :: ns) as Hx by (intros Hx%node_old; lia).
  pose proof (ok_nodup h ns Hok) as Hnd. rewrite Hns in Hnd, Hx.
  assert (x :: head_ :: L ++ R ≡ₚ head_ :: L ++ x :: R) as <- by apply (Permutation_middle (head_ :: L)).
  by constructor.
Qed.

Lemma first_at_old ys l : (forall a, a ∈ ys -> a ∈ head_ :: ns) -> first_at g l ys = first_at h l ys.
Proof.
  intros Hys. unfold first_at. f_equal. apply at_level_ext, Forall_forall. intros a Ha.
  apply lk_old_node, node_old, Hys, Ha.
Qed.
Lemma link_old y : (forall a, y = Some a -> (a < x)%nat) -> link g y = link h y.
Proof.
  intros Hy. unfold link. f_equal. destruct y as [a|]; [|done]. apply lk_old_node. by apply Hy.
Qed.
Lemma first_old ys l : (forall a, a ∈ ys -> a ∈ head_ :: ns) ->
  link g (first_at g l ys) = link h (first_at h l ys).
Proof.
  intros Hys. rewrite (first_at_old ys l Hys). apply link_old.
  intros a (_ & pre & post & E & _)%first_at_Some. apply node_old, Hys. rewrite E, elem_of_app. right. by left.
Qed.

Lemma links_new pre a post :
  head_ :: L ++ x :: R = pre ++ a :: post ->
  forall l, (l < height g a)%nat -> GetNext g a l = Some (link g (first_at g l post)).
Proof.
  intros E l Hl. change (head_ :: L ++ x :: R) with ((head_ :: L) ++ x :: R) in E.
  assert (forall ys : list nat, (forall b, b ∈ ys -> b ∈ R) -> forall b, b ∈ ys -> b ∈ head_ :: ns) as HRin.
  { intros ys Hys b Hb. right. rewrite Hns, elem_of_app. right. by apply Hys. }
  pose proof nodup_new as Hnd. change (head_ :: L ++ x :: R) with ((head_ :: L) ++ x :: R) in Hnd.
  apply app_eq_inv in E as [(mid & E1 & E2)|(mid & E1 & E2)].
  - destruct mid as [|b mid].
    { rewrite app_nil_r in E1. injection E2 as -> ->.
      rewrite (lk_new _ _ Hg) by (rewrite (lk_height _ _ Hg), height_new in Hl; lia).
      by rewrite first_old by (by apply HRin). }
    injection E2 as -> ->.
    assert (b ∈ head_ :: ns) as Hb.
    { rewrite Hns, app_comm_cons, E1, !elem_of_app. left. right. by left. }
    pose proof (node_old b Hb) as Hbx. destruct (lk_old_node b Hbx) as (Ehb & _ & _). rewrite Ehb in Hl.
    assert (forall c, c ∈ mid -> c ∈ head_ :: ns) as Hmid.
    { intros c Hc. rewrite Hns, app_comm_cons, E1, !elem_of_app. left. right. by right. }
    rewrite (lk_old _ _ Hg) by lia.
    assert (GetNext h b l = Some (link h (first_at h l (mid ++ R)))) as Hold.
    { apply (ok_links h ns Hok pre b (mid ++ R)); [|done].
      rewrite Hns, app_comm_cons, E1. by rewrite <- app_assoc. }
    rewrite first_at_app in Hold |- *. rewrite (first_at_old mid l Hmid).
    destruct (first_at h l mid) as [y|] eqn:Ey.
    + rewrite decide_False.
      * rewrite Hold, link_old; [done|]. intros c [= <-].
        apply first_at_Some in Ey as (_ & m1 & m2 & -> & _). apply node_old, Hmid.
        rewrite elem_of_app. right. by left.
      * intros [_ Hlast]. rewrite E1 in Hlast. apply last_at_later with (y := y) in Hlast; [done| |done].
        rewrite <- E1. by apply NoDup_app in Hnd as [? _].
    + assert (last_at h l (head_ :: L) = Some b) as Hlast by (rewrite E1; by apply last_at_split).
      unfold first_at at 1. cbn [at_level]. rewrite (lk_height _ _ Hg), height_new.
      destruct (decide (l < hh)%nat) as [Hlt|Hge].
      * rewrite decide_True by done. cbn [head]. unfold link. rewrite (lk_cmp _ _ Hg).
        unfold cmp_at. by rewrite new_lookup.
      * rewrite decide_False by tauto. rewrite Hold. fold (first_at g l R).
        by rewrite first_old by (by apply HRin).
  - destruct mid as [|b mid].
    { injection E2 as <- <-. rewrite (lk_new _ _ Hg) by (rewrite (lk_height _ _ Hg), height_new in Hl; lia).
      by rewrite first_old by (by apply HRin). }
    injection E2 as <- E2.
    assert (a ∈ R) as HaR by (rewrite E2, elem_of_app; right; by left).
    assert (a ∈ head_ :: ns) as Ha by (right; rewrite Hns, elem_of_app; by right).
    pose proof (node_old a Ha) as Hax. destruct (lk_old_node a Hax) as (Eha & _ & _). rewrite Eha in Hl.
    rewrite (lk_old _ _ Hg) by lia. rewrite decide_False.
    + rewrite first_old by (apply HRin; intros b Hb; rewrite E2, elem_of_app; right; by right).
      apply (ok_links h ns Hok ((head_ :: L) ++ mid) a post); [|done].
      rewrite Hns, E2. by rewrite <- app_assoc.
    + intros [_ (_ & p1 & p2 & E3 & _)%last_at_Some].
      apply NoDup_app in Hnd as (_ & Hnd & _). apply (Hnd a).
      * rewrite E3, elem_of_app. right. by left.
      * by right.
Qed.

Lemma sl_ok_new : sl_ok g (L ++ x :: R).
Proof.
  pose proof (node_old head_ ltac:(by left)) as H0. split.
  - rewrite (proj1 (lk_old_node head_ H0)). apply (ok_head h ns Hok).
  - apply Forall_app. split; [|constructor; [apply node_ok_new|]]; apply Forall_forall; intros a Ha;
      apply node_ok_old; rewrite Hns, elem_of_app; tauto.
  - apply nodup_new.
  - apply sorted_new.
  - rewrite (lk_len _ _ Hg), length_app. pose proof (ok_alloc h ns Hok) as Ha.
    rewrite Hns, length_app in Ha. cbn. fold x in Ha. lia.
  - apply links_new.
Qed.
End Linked.
End Insert.

(** ** The list as a sorted sequence of keys *)

Fixpoint insert_key (k : K) (ks : list K) : list K :=
  match ks with
  | [] => [k]
  | k' :: ks' => if compare_ k' k <? 0 then k' :: insert_key k ks' else k :: ks
  end.
(** Index of the first key at or after [k]. *)
Fixpoint seek_index (k : K) (ks : list K) : option nat :=
  match ks with
  | [] => None
  | k' :: ks' => if compare_ k' k <? 0 then S <$> seek_index k ks' else Some 0%nat
  end.
Definition contents (h : list Node) (ns : list nat) (ks : list K) : Prop :=
  Forall2 (fun a k => key_at h a = Some k) ns ks.
Definition repr (l : SkipList) (ns : list nat) (ks : list K) : Prop :=
  sl_ok (heap l) ns /\ contents (heap l) ns ks.
(** The node at an index, null past the end. *)
Definition node_at (ns : list nat) (i : option nat) : option nat :=
  match i with Some i => ns !! i | None => None end.

Lemma contents_keep h g ns ks :
  contents h ns ks -> (forall a, a ∈ ns -> key_at g a = key_at h a) -> contents g ns ks.
Proof.
  induction 1 as [|a k ns ks Ha Hc IH]; intros Hkeep; constructor.
  - rewrite Hkeep; [done|by left].
  - apply IH. intros b Hb. apply Hkeep. by right.
Qed.
Lemma insert_key_split h L R k kl kr :
  Forall (fun a => KeyIsAfterNode h k (Some a) = true) L ->
  Forall (fun a => KeyIsAfterNode h k (Some a) = false) R ->
  contents h L kl -> contents h R kr ->
  insert_key k (kl ++ kr) = kl ++ k :: kr /\
  seek_index k (kl ++ kr) = match kr with [] => None | _ => Some (length kl) end.
Proof.
  intros HL HR Hl Hr. induction Hl as [|a k' L kl Ha Hl IH]; cbn [app insert_key seek_index].
  - destruct Hr as [|b k' R kr Hb Hr]; [done|]. inversion_clear HR as [|? ? Hb' _].
    rewrite (KeyIsAfterNode_at h k b k' Hb) in Hb'. cbn. by rewrite Hb'.
  - inversion_clear HL as [|? ? Ha' HL']. rewrite (KeyIsAfterNode_at h k a k' Ha) in Ha'. rewrite Ha'.
    destruct (IH HL') as [-> ->]. split; [done|]. by destruct kr.
Qed.

Lemma RandomHeight_range rnd : (1 <= fst (RandomHeight rnd) <= kMaxHeight)%nat.
Proof.
  unfold RandomHeight. assert (forall fuel n rnd, (1 <= n <= kMaxHeight)%nat ->
    (1 <= fst (random_height fuel n rnd) <= kMaxHeight)%nat) as H.
  { clear. induction fuel as [|fuel IH]; intros n rnd Hn; cbn [random_height]; [done|].
    case_decide; [|done]. destruct (_ =? 0); [apply IH; lia|done]. }
  apply H. unfold kMaxHeight. lia.
Qed.

Lemma new_repr : repr new [] [].
Proof.
  split; [|constructor].
  assert (heap new = [mk_node UINT64_MAX None kMaxHeight]) as E by reflexivity.
  split; rewrite ?E.
  - reflexivity.
  - constructor.
  - constructor; [apply not_elem_of_nil|constructor].
  - constructor.
  - cbn. lia.
  - intros pre x post Hs l Hl. destruct pre as [|p pre]; [|destruct pre; discriminate Hs].
    injection Hs as <- <-. unfold height, GetNext in *. cbn -[kMaxHeight] in *.
    rewrite length_replicate in Hl. by apply lookup_replicate_2.
Qed.

Lemma Insert_repr l ns ks k :
  repr l ns ks -> valid k -> Forall (fun k' => compare_ k' k <> 0) ks ->
  exists l' ns', Insert l k = Some l' /\ repr l' ns' (insert_key k ks).
Proof.
  intros [Hok Hc] Hk Hfresh.
  destruct (split_at (heap l) ns k) as (L & R & Hns & HL & HR); [apply Hok|apply Hok|done|].
  destruct (FindGreaterOrEqual_ok (heap l) ns L R k Hok Hns Hk HL HR) as (prev & obs & E & Hf).
  unfold Insert. rewrite E. pose proof (RandomHeight_range (rnd_ l)) as Hh.
  destruct (RandomHeight (rnd_ l)) as [hh rnd]. cbn [fst] in Hh. unfold NewNode.
  destruct (link_levels_ok (heap l) ns L R k hh Hok Hns Hk HR Hh prev obs Hf hh 0
              (heap l ++ [mk_node (extractor_ k) (Some k) hh])) as (g & -> & Hg).
  { lia. }
  { by eapply linked_0. }
  eexists _, (L ++ length (heap l) :: R). split; [reflexivity|]. cbn [heap].
  assert (forall a ka, a ∈ ns -> key_at (heap l) a = Some ka -> compare_ ka k <> 0) as Hfr.
  { intros a ka Ha Hka. apply list_elem_of_lookup in Ha as [i Hi].
    destruct (Forall2_lookup_l _ _ _ _ _ Hc Hi) as (k' & Hk' & Hka').
    rewrite Forall_forall in Hfresh. assert (k' = ka) as <- by congruence.
    apply Hfresh. by apply list_elem_of_lookup_2 in Hk'. }
  split; [by eapply sl_ok_new|].
  rewrite Hns in Hc. apply Forall2_app_inv_l in Hc as (kl & kr & Hl & Hr & ->).
  destruct (insert_key_split (heap l) L R k kl kr HL HR Hl Hr) as [-> _].
  assert (forall a, a ∈ ns -> key_at g a = key_at (heap l) a) as Hkeep.
  { intros a Ha. assert (a < length (heap l))%nat as Hlt by (apply (node_old (heap l) ns hh Hok Hh); by right).
    exact (proj1 (proj2 (lk_old_node (heap l) L R k hh g Hg a Hlt))). }
  apply Forall2_app; [|constructor].
  - apply (contents_keep (heap l)); [done|]. intros a Ha. apply Hkeep. rewrite Hns, elem_of_app. by left.
  - by eapply key_at_new.
  - apply (contents_keep (heap l)); [done|]. intros a Ha. apply Hkeep. rewrite Hns, elem_of_app. by right.
Qed.

(** ** The iterator *)

Section Iterate.
Context (l : SkipList) (ns : list nat) (ks : list K) (Hrepr : repr l ns ks).

Lemma key_of i a : ns !! i = Some a -> exists k, ks !! i = Some k /\ key_at (heap l) a = Some k /\ valid k.
Proof.
  intros Hi. destruct Hrepr as [Hok Hc]. destruct (Forall2_lookup_l _ _ _ _ _ Hc Hi) as (k & Hk & Ha).
  exists k. split_and!; [done|done|]. destruct (node_in (heap l) ns Hok a) as (k' & Hk' & Hv & _).
  { by apply list_elem_of_lookup_2 in Hi. }
  congruence.
Qed.

Lemma iter_Seek_ok k : valid k -> iter_Seek l k = Some (node_at ns (seek_index k ks)).
Proof.
  intros Hk. destruct Hrepr as [Hok Hc].
  destruct (split_at (heap l) ns k) as (L & R & Hns & HL & HR); [apply Hok|apply Hok|done|].
  destruct (FindGreaterOrEqual_ok (heap l) ns L R k Hok Hns Hk HL HR) as (prev & obs & E & _).
  unfold iter_Seek. rewrite E. rewrite Hns in Hc.
  apply Forall2_app_inv_l in Hc as (kl & kr & Hl & Hr & ->).
  destruct (insert_key_split (heap l) L R k kl kr HL HR Hl Hr) as [_ ->]. rewrite Hns.
  destruct Hr as [|b k' R kr Hb Hr]; [done|]. cbn [head node_at].
  by rewrite <- (Forall2_length _ _ _ Hl), list_lookup_middle.
Qed.
Lemma iter_SeekToFirst_ok : iter_SeekToFirst l = Some (ns !! 0%nat).
Proof.
  destruct Hrepr as [Hok _]. unfold iter_SeekToFirst.
  rewrite (ok_links (heap l) ns Hok [] head_ ns) by (done || (rewrite (ok_head _ _ Hok); unfold kMaxHeight; lia)).
  unfold link. rewrite first_at_0 by apply Hok. by destruct ns.
Qed.
Lemma iter_Next_ok i a : ns !! i = Some a -> iter_Next l (Some a) = Some (ns !! S i).
Proof.
  intros Hi. destruct Hrepr as [Hok _]. unfold iter_Next.
  assert (head_ :: ns = (head_ :: take i ns) ++ a :: drop (S i) ns) as E
    by (cbn; f_equal; by rewrite take_drop_middle).
  pose proof (ok_nodes _ _ Hok) as Hn. assert (node_ok (heap l) a) as (? & _ & _ & _ & Hh).
  { rewrite Forall_forall in Hn. apply Hn. by apply list_elem_of_lookup_2 in Hi. }
  rewrite (ok_links _ _ Hok _ _ _ E) by lia. unfold link.
  rewrite first_at_0 by (by apply Forall_drop). by rewrite head_lookup, lookup_drop, Nat.add_0_r.
Qed.
Lemma iter_Prev_ok i a : ns !! i = Some a ->
  iter_Prev l (Some a) = Some (match i with O => None | S j => ns !! j end).
Proof.
  intros Hi. destruct (key_of i a Hi) as (k & Hki & Hka & Hv). destruct Hrepr as [Hok Hc].
  unfold iter_Prev, iter_key. unfold key_at in Hka. rewrite Hka. fold (key_at (heap l) a) in Hka.
  assert (ns = take i ns ++ a :: drop (S i) ns) as E by (by rewrite take_drop_middle).
  pose proof (ok_sorted _ _ Hok) as Hs. rewrite E in Hs.
  apply StronglySorted_app in Hs as (Hlr & _ & Hs). apply StronglySorted_inv in Hs as [_ Hafter].
  assert (forall b kb, b ∈ ns -> key_at (heap l) b = Some kb -> valid kb) as Hval.
  { intros b kb Hb Hkb. destruct (node_in _ _ Hok b Hb) as (k' & ? & ? & _). congruence. }
  rewrite (FindLessThan_ok (heap l) ns (take i ns) (a :: drop (S i) ns) k Hok E Hv).
  - destruct i as [|i]; [done|]. cbn [not_head]. rewrite last_cons.
    assert (last (take (S i) ns) = ns !! i) as ->.
    { apply lookup_lt_Some in Hi. rewrite last_lookup, length_take, Nat.min_l by lia. cbn.
      by rewrite lookup_take_lt by lia. }
    destruct (ns !! i) as [b|] eqn:Eb; [|apply lookup_ge_None in Eb; apply lookup_lt_Some in Hi; lia].
    cbn [not_head]. pose proof (ok_nodup _ _ Hok) as [Hnd _]%NoDup_cons.
    destruct (Nat.eqb_spec b head_) as [->|]; [|done]. by apply list_elem_of_lookup_2 in Eb.
  - apply Forall_forall. intros b Hb. assert (b ∈ ns) as Hbn by (rewrite E, elem_of_app; by left).
    destruct (node_in _ _ Hok b Hbn) as (kb & Hkb & _). rewrite (KeyIsAfterNode_at _ _ _ _ Hkb).
    apply Z.ltb_lt. apply (Hlr b a); [done|by left|done|done].
  - constructor.
    + rewrite (KeyIsAfterNode_at _ _ _ _ Hka), ko_refl by done. done.
    + apply Forall_forall. intros b Hb. assert (b ∈ ns) as Hbn by (rewrite E, elem_of_app; right; by right).
      destruct (node_in _ _ Hok b Hbn) as (kb & Hkb & Hvb & _). rewrite (KeyIsAfterNode_at _ _ _ _ Hkb).
      rewrite Forall_forall in Hafter. specialize (Hafter b Hb k kb Hka Hkb).
      apply (proj1 (ko_antisym k kb Hv Hvb)) in Hafter. apply Z.ltb_ge. lia.
Qed.
Lemma iter_SeekToLast_ok : iter_SeekToLast l = Some (last ns).
Proof.
  destruct Hrepr as [Hok _]. unfold iter_SeekToLast. rewrite (FindLast_ok _ _ Hok), last_cons.
  destruct (last ns) as [b|] eqn:Eb; [|done]. cbn [not_head].
  pose proof (ok_nodup _ _ Hok) as [Hnd _]%NoDup_cons.
  destruct (Nat.eqb_spec b head_) as [->|]; [|done]. by apply last_Some_elem_of in Eb.
Qed.
Lemma iter_key_ok i a : ns !! i = Some a -> iter_key l (Some a) = ks !! i.
Proof.
  intros Hi. destruct (key_of i a Hi) as (k & -> & Hk & _). exact Hk.
Qed.

(** Keys and nodes correspond. *)
Lemma node_of k : k ∈ ks -> exists a, a ∈ ns /\ key_at (heap l) a = Some k /\ valid k.
Proof.
  intros [i Hi]%list_elem_of_lookup. destruct Hrepr as [Hok Hc].
  destruct (Forall2_lookup_r _ _ _ _ _ Hc Hi) as (a & Ha & Hka). exists a.
  apply list_elem_of_lookup_2 in Ha. split_and!; [done|done|].
  destruct (node_in _ _ Hok a Ha) as (k' & ? & ? & _). congruence.
Qed.
(** [Contains] finds exactly the keys that compare equal. *)
Lemma Contains_ok k : valid k ->
  exists b, Contains l k = Some b /\ (b = true <-> exists k', k' ∈ ks /\ compare_ k k' = 0).
Proof.
  intros Hk. destruct Hrepr as [Hok Hc].
  destruct (split_at (heap l) ns k) as (L & R & Hns & HL & HR); [apply Hok|apply Hok|done|].
  destruct (FindGreaterOrEqual_ok (heap l) ns L R k Hok Hns Hk HL HR) as (prev & obs & E & _).
  unfold Contains. rewrite E.
  assert (forall k', k' ∈ ks -> compare_ k k' = 0 -> exists a, a ∈ R /\ key_at (heap l) a = Some k') as Hin.
  { intros k' Hk' H0. destruct (node_of k' Hk') as (a & Ha & Hka & Hv). exists a. split; [|done].
    rewrite Hns, elem_of_app in Ha. destruct Ha as [Ha|Ha]; [|done].
    pose proof (proj1 (Forall_forall _ _) HL a Ha) as Hlt. cbn beta in Hlt.
    rewrite (KeyIsAfterNode_at _ _ _ _ Hka), Z.ltb_lt in Hlt.
    apply (proj1 (ko_antisym k' k Hv Hk)) in Hlt. lia. }
  destruct R as [|y R]; cbn [head].
  { exists false. split; [done|]. split; [done|]. intros (k' & Hk' & H0).
    destruct (Hin k' Hk' H0) as (a & Ha & _). by apply elem_of_nil in Ha. }
  assert (y ∈ ns) as Hy by (rewrite Hns, elem_of_app; right; by left).
  apply list_elem_of_lookup in Hy as [i Hi]. destruct (key_of i y Hi) as (ky & Hky & Hkey & Hvy).
  pose proof Hkey as Hkey'. unfold key_at in Hkey'. destruct (heap l !! y) as [nd|]; [|done]. rewrite Hkey'.
  eexists. split; [reflexivity|]. rewrite Z.eqb_eq. split.
  { intros H0. exists ky. split; [by apply list_elem_of_lookup_2 in Hky|done]. }
  intros (k' & Hk' & H0). destruct (Hin k' Hk' H0) as (a & Ha & Hka).
  apply elem_of_cons in Ha as [->|Ha]; [congruence|]. exfalso.
  destruct (node_of k' Hk') as (_ & _ & _ & Hv').
  pose proof (ok_sorted _ _ Hok) as Hs. rewrite Hns in Hs. apply StronglySorted_app in Hs as (_ & _ & Hs).
  apply StronglySorted_inv in Hs as [_ Hs]. rewrite Forall_forall in Hs.
  pose proof (Hs a Ha ky k' Hkey Hka) as Hlt. inversion_clear HR as [|? ? Hge _].
  rewrite (KeyIsAfterNode_at _ _ _ _ Hkey), Z.ltb_ge in Hge.
  assert (compare_ k' k <= 0) as Hk'k.
  { destruct (Z.lt_ge_cases 0 (compare_ k' k)) as [Hp|]; [|lia].
    apply (proj2 (ko_antisym k k' Hk Hv')) in Hp. lia. }
  assert (compare_ k ky <= 0) as Hkky.
  { destruct (Z.lt_ge_cases 0 (compare_ k ky)) as [Hp|]; [|lia].
    apply (proj2 (ko_antisym ky k Hvy Hk)) in Hp. lia. }
  pose proof (ko_trans k' k ky Hv' Hk Hvy Hk'k Hkky).
  apply (proj1 (ko_antisym ky k' Hvy Hv')) in Hlt. lia.
Qed.
End Iterate.

(** ** Properties *)

Definition insert_all (ks : list K) (l : SkipList) : option SkipList :=
  fold_left (fun l k => match l with Some l => Insert l k | None => None end) ks (Some l).
Definition sorted_of (ks : list K) : list K := fold_left (fun s k => insert_key k s) ks [].
(** No two keys compare equal. *)
Fixpoint distinct (ks : list K) : Prop :=
  match ks with
  | [] => True
  | k :: ks => Forall (fun k' => compare_ k k' <> 0) ks /\ distinct ks
  end.

Lemma insert_key_perm k ks : insert_key k ks ≡ₚ k :: ks.
Proof.
  induction ks as [|k' ks IH]; cbn; [done|]. destruct (_ <? 0); [|done]. rewrite IH. by constructor.
Qed.
Lemma repr_sorted l ns ks : repr l ns ks -> StronglySorted (fun a b => compare_ a b < 0) ks.
Proof.
  intros [Hok Hc]. pose proof (ok_sorted _ _ Hok) as Hs. clear Hok.
  induction Hc as [|a k ns ks Ha Hc IH]; constructor; apply StronglySorted_inv in Hs as [Hs Hb].
  - by apply IH.
  - apply Forall_forall. intros k' [i Hi]%list_elem_of_lookup.
    destruct (Forall2_lookup_r _ _ _ _ _ Hc Hi) as (b & Hbi & Hkb).
    apply (proj1 (Forall_lookup _ _) Hb i b Hbi k k' Ha Hkb).
Qed.
Lemma insert_all_repr ks : forall l ns s,
  repr l ns s -> Forall valid ks -> distinct ks ->
  Forall (fun k => Forall (fun k' => compare_ k' k <> 0) s) ks ->
  exists l' ns', insert_all ks l = Some l' /\ repr l' ns' (fold_left (fun s k => insert_key k s) ks s).
Proof.
  unfold insert_all. induction ks as [|k ks IH]; intros l ns s Hr Hv Hd Hs; cbn [fold_left].
  { by exists l, ns. }
  inversion_clear Hv as [|? ? Hvk Hvks]. destruct Hd as [Hdk Hd]. inversion_clear Hs as [|? ? Hsk Hss].
  destruct (Insert_repr l ns s k Hr Hvk Hsk) as (l1 & ns1 & -> & Hr1).
  apply (IH l1 ns1); [done|done|done|]. apply Forall_forall. intros k2 Hk2.
  rewrite insert_key_perm. constructor.
  - rewrite Forall_forall in Hdk. by apply Hdk.
  - rewrite Forall_forall in Hss. by apply Hss.
Qed.
Lemma sorted_of_perm ks : sorted_of ks ≡ₚ ks.
Proof.
  unfold sorted_of. assert (forall s, fold_left (fun s k => insert_key k s) ks s ≡ₚ s ++ ks) as H; [|apply H].
  induction ks as [|k ks IH]; intros s; cbn; [by rewrite app_nil_r|].
  rewrite IH, insert_key_perm. rewrite <- Permutation_middle. done.
Qed.
(** Seeking in a sorted sequence: the first key that is not before the target. *)
Lemma seek_index_spec k ks :
  Forall valid ks -> StronglySorted (fun a b => compare_ a b < 0) ks ->
  match seek_index k ks with
  | Some i => exists f, ks !! i = Some f /\ 0 <= compare_ f k /\
      forall k', k' ∈ ks -> 0 <= compare_ k' k -> compare_ f k' <= 0
  | None => forall k', k' ∈ ks -> compare_ k' k < 0
  end.
Proof.
  intros Hv Hs. induction Hs as [|a ks Hs IH Ha]; cbn [seek_index].
  { intros k' Hk'. by apply elem_of_nil in Hk'. }
  inversion_clear Hv as [|? ? Hva Hvs]. destruct (Z.ltb_spec (compare_ a k) 0) as [Hlt|Hge].
  - specialize (IH Hvs). destruct (seek_index k ks) as [i|]; cbn [fmap option_fmap option_map].
    + destruct IH as (f & Hf & Hfk & Hmin). exists f. split_and!; [done|done|].
      intros k' [->|Hk']%elem_of_cons Hge; [lia|by apply Hmin].
    + intros k' [->|Hk']%elem_of_cons; [done|by apply IH].
  - exists a. split_and!; [done|done|]. intros k' [->|Hk']%elem_of_cons _; [by rewrite ko_refl|].
    rewrite Forall_forall in Ha. specialize (Ha k' Hk'). lia.
Qed.
Lemma insert_all_new ks :
  Forall valid ks -> distinct ks -> exists l ns, insert_all ks new = Some l /\ repr l ns (sorted_of ks).
Proof.
  intros Hv Hd. apply (insert_all_repr ks new [] []); [apply new_repr|done|done|].
  apply Forall_forall. intros. constructor.
Qed.

(** C19: Insertion keeps the skip list a sorted sequence of all keys inserted, at every
    sequence of heights the generator draws: no insertion of distinct keys fails or
    follows a null link, whatever the hints, the nodes met along level 0 from the head
    to the null link carry the keys inserted, in order, and [Contains] finds exactly the
    keys present. *)
Theorem skiplist_insert_sorted (ks : list K) (Hv : Forall valid ks) (Hd : distinct ks) :
  exists l ns, insert_all ks new = Some l /\
    sorted_of ks ≡ₚ ks /\ StronglySorted (fun a b => compare_ a b < 0) (sorted_of ks) /\
    iter_SeekToFirst l = Some (ns !! 0%nat) /\
    (forall i a, ns !! i = Some a -> iter_Next l (Some a) = Some (ns !! S i)) /\
    iter_key l <$> (Some <$> ns) = Some <$> sorted_of ks /\
    (forall k, valid k -> exists b, Contains l k = Some b /\
       (b = true <-> exists k', k' ∈ ks /\ compare_ k k' = 0)).
Proof.
  destruct (insert_all_new ks Hv Hd) as (l & ns & E & Hr). exists l, ns.
  split_and!; [done|apply sorted_of_perm|by eapply repr_sorted| | | |].
  - by apply (iter_SeekToFirst_ok l ns _ Hr).
  - intros i a Hi. by apply (iter_Next_ok l ns _ Hr).
  - apply list_eq. intros i. rewrite !list_lookup_fmap.
    destruct (ns !! i) as [a|] eqn:Ea; cbn.
    + destruct (key_of l ns _ Hr i a Ea) as (k & -> & Hk & _). cbn. f_equal. exact Hk.
    + destruct Hr as [_ Hc]. apply lookup_ge_None in Ea. rewrite (Forall2_length _ _ _ Hc) in Ea.
      apply lookup_ge_None in Ea. by rewrite Ea.
  - intros k Hk. destruct (Contains_ok l ns _ Hr k Hk) as (b & Eb & Hb). exists b. split; [done|].
    rewrite Hb. by setoid_rewrite sorted_of_perm.
Qed.

(** The iterator is a cursor on the sorted keys: [Seek] goes to the first key at or
    after the target, [Next] and [Prev] move by one (off the end to null), [SeekToFirst]
    and [SeekToLast] go to the ends; no step follows a null link. *)
Theorem skiplist_iterator_cursor (ks : list K) (Hv : Forall valid ks) (Hd : distinct ks) :
  exists l ns, insert_all ks new = Some l /\ length ns = length ks /\
    (forall k, valid k -> iter_Seek l k = Some (node_at ns (seek_index k (sorted_of ks)))) /\
    iter_SeekToFirst l = Some (ns !! 0%nat) /\ iter_SeekToLast l = Some (last ns) /\
    (forall i a, ns !! i = Some a ->
       iter_key l (Some a) = sorted_of ks !! i /\ iter_Next l (Some a) = Some (ns !! S i) /\
       iter_Prev l (Some a) = Some (match i with O => None | S j => ns !! j end)).
Proof.
  destruct (insert_all_new ks Hv Hd) as (l & ns & E & Hr). exists l, ns.
  split_and!; [done| | | | |].
  - rewrite (Forall2_length _ _ _ (proj2 Hr)). by rewrite sorted_of_perm.
  - intros k Hk. by apply (iter_Seek_ok l ns _ Hr).
  - by apply (iter_SeekToFirst_ok l ns _ Hr).
  - by apply (iter_SeekToLast_ok l ns _ Hr).
  - intros i a Hi. split_and!; [by apply (iter_key_ok l ns _ Hr)|by apply (iter_Next_ok l ns _ Hr)|].
    by apply (iter_Prev_ok l ns _ Hr).
Qed.
End SkipList.

(** Integers whose numbers collide: four consecutive keys share one. *)
Definition int_compare (a b : Z) : Z := a - b.
Definition int_num (a : Z) : Z := a / 4.
#[export] Instance int_KeyOrder : KeyOrder int_compare int_num (fun a => 0 <= a <= UINT64_MAX).
Proof.
  split; unfold int_compare, int_num; intros; try lia.
  - apply Z.div_le_mono; lia.
  - split; [apply Z.div_pos; lia|]. apply Z.div_le_upper_bound; lia.
Qed.
Lemma example_keys_ok :
  Forall (fun a => 0 <= a <= UINT64_MAX) [30; 7; 5; 100; 6] /\ distinct int_compare [30; 7; 5; 100; 6].
Proof. unfold UINT64_MAX, int_compare. split; repeat constructor; lia. Qed.

Lemma skiplist_insert_sorted_witness :
  exists l ns, insert_all int_compare int_num [30; 7; 5; 100; 6] new = Some l /\
    iter_key l <$> (Some <$> ns) = Some <$> [5; 6; 7; 30; 100].
Proof.
  destruct example_keys_ok as [Hv Hd].
  destruct (skiplist_insert_sorted int_compare int_num _ [30; 7; 5; 100; 6] Hv Hd)
    as (l & ns & E & _ & _ & _ & _ & H & _). exists l, ns. split; [exact E|exact H].
Defined.
Lemma skiplist_iterator_cursor_witness :
  exists l ns, insert_all int_compare int_num [30; 7; 5; 100; 6] new = Some l /\ length ns = 5%nat /\
    iter_Seek int_compare int_num l 8 = Some (ns !! 3%nat).
Proof.
  destruct example_keys_ok as [Hv Hd].
  destruct (skiplist_iterator_cursor int_compare int_num _ [30; 7; 5; 100; 6] Hv Hd)
    as (l & ns & E & Hlen & Hs & _). exists l, ns. split; [exact E|]. split; [exact Hlen|].
  rewrite Hs; [reflexivity|unfold UINT64_MAX; lia].
Defined.
