(* ===== verification/MemTable.v ===== *)
(** * The memtable

    Models [src/pebblesdb/src/db/memtable.h] and [memtable.cc]: an entry is the
    length-prefixed internal key followed by the length-prefixed value, in one buffer;
    the entries are the keys of a skip list ordered by the internal keys and numbered by
    the user comparator's [KeyNum].  A [const char*] into a buffer is the rest of the
    buffer.  The arena the buffers come from is not modelled: entries are never freed. *)

From stdpp Require Import sorting.
From S2P Require Import Prelude Coding Status Comparator DbFormat Iterator WriteBatch SkipList.
From stdpp Require Import list.
#[local] Open Scope Z_scope.

(** [GetVarint32Ptr(p, p + 5, &len)] on a pointer into a buffer: the value and the
    buffer from the position after it. *)
Definition GetVarint32At (data : bytes) : option (Z * bytes) :=
  match GetVarint32Ptr (take 5 data) with
  | Some (len, rest) => Some (len, drop (length (take 5 data) - length rest) data)
  | None => None
  end.
(** The static [GetLengthPrefixedSlice]: the slice and the buffer from its end.  A
    corrupted prefix is a null pointer; the code assumes that there is none. *)
Definition GetLengthPrefixedSliceAt (data : bytes) : option (bytes * bytes) :=
  match GetVarint32At data with
  | Some (len, p) => Some (take (Z.to_nat len) p, drop (Z.to_nat len) p)
  | None => None
  end.

Section MemTable.
Context (ucmp : Comparator).

Definition KeyComparator (aptr bptr : bytes) : Z :=
  match GetLengthPrefixedSliceAt aptr, GetLengthPrefixedSliceAt bptr with
  | Some (a, _), Some (b, _) => Compare (InternalKeyComparator ucmp) a b
  | _, _ => 0
  end.
(** Called on nodes with a key only (the list handles the head's null key). *)
Definition KeyExtractor (k : bytes) : Z :=
  match GetVarint32At k with
  | Some (key_length, key_ptr) => KeyNum ucmp (take (Z.to_nat (key_length - 8)) key_ptr)
  | None => UINT64_MAX
  end.

Definition EncodeKey (target : bytes) : bytes := PutVarint32 [] (u32 (blen target)) ++ target.

Record MemTable := {
  refs_ : Z;
  table_ : @SkipList bytes;
  num_entries : Z;
}.
Definition MemTable_new : MemTable := {| refs_ := 0; table_ := SkipList.new; num_entries := 0 |}.

Definition Ref (m : MemTable) : MemTable :=
  {| refs_ := u64 (refs_ m + 1); table_ := table_ m; num_entries := num_entries m |}.
(** [None]: the object is deleted. *)
Definition Unref (m : MemTable) : option MemTable :=
  let ref := u64 (refs_ m - 1) in
  if ref =? 0 then None
  else Some {| refs_ := ref; table_ := table_ m; num_entries := num_entries m |}.

(** The buffer [Add] fills. *)
Definition encode_entry (s type : Z) (key value : bytes) : bytes :=
  let key_size := blen key in
  let val_size := blen value in
  let internal_key_size := key_size + 8 in
  EncodeVarint32 (u32 internal_key_size) ++ key ++
  EncodeFixed64 (u64 (Z.lor (Z.shiftl s 8) type)) ++
  EncodeVarint32 (u32 val_size) ++ value.
Definition Add (m : MemTable) (s type : Z) (key value : bytes) : option MemTable :=
  match SkipList.Insert KeyComparator KeyExtractor (table_ m) (encode_entry s type key value) with
  | Some t => Some {| refs_ := refs_ m; table_ := t; num_entries := num_entries m + 1 |}
  | None => None
  end.

(** What [Get] tells its caller: a value, a deletion ([*s] is NotFound), or that the
    memtable knows nothing. *)
Inductive GetResult :=
  | Found (value : bytes)
  | Deleted (s : Status)
  | Unknown.
Definition Get (m : MemTable) (key : LookupKey) : option GetResult :=
  let memkey := memtable_key key in
  match iter_Seek KeyComparator KeyExtractor (table_ m) memkey with
  | None => None
  | Some None => Some Unknown
  | Some node =>
      match iter_key (table_ m) node with
      | None => None
      | Some entry =>
          match GetVarint32At entry with
          | None => None
          | Some (key_length, key_ptr) =>
              if Compare ucmp (take (Z.to_nat (key_length - 8)) key_ptr) (lookup_user_key key) =? 0 then
                let tag := DecodeFixed64 (drop (Z.to_nat (key_length - 8)) key_ptr) in
                let type := Z.land tag 255 in
                if type =? kTypeValue then
                  match GetLengthPrefixedSliceAt (drop (Z.to_nat key_length) key_ptr) with
                  | Some (v, _) => Some (Found v)
                  | None => None
                  end
                else if type =? kTypeDeletion then Some (Deleted (NotFound []))
                else Some Unknown
              else Some Unknown
          end
      end
  end.

(** ** MemTableIterator *)

Record MemTableIterator := { mi_table : @SkipList bytes; mi_node : option nat }.
Definition NewIterator (m : MemTable) : MemTableIterator :=
  {| mi_table := table_ m; mi_node := None |}.
(** A step of the list's iterator; the node is kept where the list has no answer. *)
Definition step (it : MemTableIterator) (r : option (option nat)) : MemTableIterator :=
  match r with
  | Some node => {| mi_table := mi_table it; mi_node := node |}
  | None => it
  end.
Definition mi_slices (it : MemTableIterator) : bytes * bytes :=
  match iter_key (mi_table it) (mi_node it) with
  | Some entry =>
      match GetLengthPrefixedSliceAt entry with
      | Some (key_slice, rest) =>
          match GetLengthPrefixedSliceAt rest with
          | Some (value, _) => (key_slice, value)
          | None => (key_slice, [])
          end
      | None => ([], [])
      end
  | None => ([], [])
  end.
#[export] Instance MemTableIterator_ops : Iterator MemTableIterator := {
  Valid it := bool_decide (is_Some (mi_node it));
  SeekToFirst it := step it (iter_SeekToFirst (mi_table it));
  SeekToLast it := step it (iter_SeekToLast (mi_table it));
  Seek it k := step it (iter_Seek KeyComparator KeyExtractor (mi_table it) (EncodeKey k));
  Next it := step it (iter_Next (mi_table it) (mi_node it));
  Prev it := step it (iter_Prev KeyComparator (mi_table it) (mi_node it));
  key it := fst (mi_slices it);
  value it := snd (mi_slices it);
  status _ := OK;
}.

(** ** Entries *)

(** An entry as the engine builds it, and its parts. *)
Definition ientry : Type := ParsedInternalKey * bytes.
Definition ientry_ok (e : ientry) : Prop :=
  DbFormat.key_ok (fst e) /\ blen (user_key (fst e)) + 8 < 2 ^ 32 /\ blen (snd e) < 2 ^ 32.
Definition ikey (e : ientry) : bytes := EncodeInternalKey (fst e).
Definition ientry_bytes (e : ientry) : bytes := LengthPrefixed (ikey e) ++ LengthPrefixed (snd e).

Lemma encode_entry_bytes s t k v :
  ientry_ok ({| user_key := k; sequence := s; type := t |}, v) ->
  encode_entry s t k v = ientry_bytes ({| user_key := k; sequence := s; type := t |}, v).
Proof.
  intros (_ & Hk & Hv). cbn [fst snd user_key] in *. unfold encode_entry, ientry_bytes, ikey.
  unfold LengthPrefixed, PutLengthPrefixedSlice, PutVarint32. cbn [app fst snd].
  rewrite EncodeInternalKey_app. cbn [user_key sequence type].
  rewrite blen_app, blen_EncodeFixed64, <- !app_assoc. done.
Qed.

Lemma GetVarint32At_encode v rest :
  is_u32 v -> GetVarint32At (EncodeVarint32 v ++ rest) = Some (v, rest).
Proof.
  intros Hv. unfold GetVarint32At.
  assert (1 <= length (EncodeVarint32 v) <= 5)%nat as Hl.
  { unfold EncodeVarint32. repeat case_bool; simpl; lia. }
  rewrite take_app_ge by lia. change GetVarint32Ptr with GetVarint32. rewrite GetVarint32_encode by done.
  rewrite length_app. replace (length (EncodeVarint32 v) + length (take (5 - length (EncodeVarint32 v)) rest) -
    length (take (5 - length (EncodeVarint32 v)) rest))%nat with (length (EncodeVarint32 v)) by lia.
  by rewrite drop_app_length.
Qed.
Lemma LengthPrefixed_app s rest :
  LengthPrefixed s ++ rest = EncodeVarint32 (u32 (blen s)) ++ s ++ rest.
Proof. unfold LengthPrefixed, PutLengthPrefixedSlice, PutVarint32. by rewrite app_nil_l, <- app_assoc. Qed.
Lemma GetLengthPrefixedSliceAt_encode s rest :
  blen s < 2 ^ 32 -> GetLengthPrefixedSliceAt (LengthPrefixed s ++ rest) = Some (s, rest).
Proof.
  intros Hs. unfold GetLengthPrefixedSliceAt. rewrite LengthPrefixed_app.
  rewrite u32_small by blia. rewrite GetVarint32At_encode by blia.
  unfold blen. rewrite Nat2Z.id. by rewrite take_app_length, drop_app_length.
Qed.

(** The keys of the list: entries, and lookup keys (which have no value). *)
Definition list_key (p : ParsedInternalKey) (rest : bytes) : bytes :=
  LengthPrefixed (EncodeInternalKey p) ++ rest.
Definition pkey_ok (p : ParsedInternalKey) : Prop :=
  DbFormat.key_ok p /\ blen (user_key p) + 8 < 2 ^ 32.
Definition list_key_ok (k : bytes) : Prop := exists p rest, pkey_ok p /\ k = list_key p rest.

Lemma blen_ikey p : blen (EncodeInternalKey p) = blen (user_key p) + 8.
Proof. rewrite EncodeInternalKey_app. blia. Qed.
Lemma KeyComparator_keys p q r s :
  pkey_ok p -> pkey_ok q ->
  KeyComparator (list_key p r) (list_key q s) =
  InternalKey_Compare ucmp (EncodeInternalKey p) (EncodeInternalKey q).
Proof.
  intros [_ Hp] [_ Hq]. unfold KeyComparator, list_key.
  by rewrite !GetLengthPrefixedSliceAt_encode by (rewrite blen_ikey; lia).
Qed.
Lemma KeyExtractor_key p r : pkey_ok p -> KeyExtractor (list_key p r) = KeyNum ucmp (user_key p).
Proof.
  intros [_ Hp]. unfold KeyExtractor, list_key. rewrite LengthPrefixed_app.
  rewrite u32_small by (rewrite blen_ikey; blia). rewrite GetVarint32At_encode by (rewrite blen_ikey; blia).
  rewrite blen_ikey. replace (Z.to_nat (blen (user_key p) + 8 - 8)) with (length (user_key p)) by (unfold blen; lia).
  rewrite EncodeInternalKey_app, <- app_assoc. by rewrite take_app_length.
Qed.

(** ** The order of the entries *)

Context (Hc : ComparatorOk ucmp bytes_ok) (Hn : KeyNumOk ucmp bytes_ok).

Lemma pkey_valid p : pkey_ok p -> internal_valid bytes_ok (EncodeInternalKey p).
Proof.
  intros [Hp _]. split_and!.
  - by apply EncodeInternalKey_ok.
  - rewrite blen_ikey. blia.
  - rewrite ExtractUserKey_encode. apply Hp.
Qed.
#[local] Instance memtable_KeyOrder : KeyOrder KeyComparator KeyExtractor list_key_ok.
Proof.
  pose proof (InternalKeyComparator_ok ucmp bytes_ok (fun k H => H)) as Hi. split.
  - intros a (p & r & Hp & ->). rewrite KeyComparator_keys by done.
    by apply (cmp_refl (ComparatorOk := Hi)), pkey_valid.
  - intros a b (p & r & Hp & ->) (q & s & Hq & ->). rewrite !KeyComparator_keys by done.
    by apply (cmp_antisym (ComparatorOk := Hi)); apply pkey_valid.
  - intros a b d (p & r & Hp & ->) (q & s & Hq & ->) (w & u & Hw & ->). rewrite !KeyComparator_keys by done.
    by apply (cmp_trans (ComparatorOk := Hi)); apply pkey_valid.
  - intros a b (p & r & Hp & ->) (q & s & Hq & ->). rewrite KeyComparator_keys, !KeyExtractor_key by done.
    intros Hle%icmp_le_user. rewrite !ExtractUserKey_encode in Hle.
    apply kn_mono; [apply Hp|apply Hq|done].
  - intros a (p & r & Hp & ->). rewrite KeyExtractor_key by done. apply kn_range, Hp.
Qed.

Lemma ientry_list_key e : ientry_ok e -> list_key_ok (ientry_bytes e).
Proof. intros (Hk & Hl & _). by exists (fst e), (LengthPrefixed (snd e)). Qed.
Lemma compare_entries a b :
  ientry_ok a -> ientry_ok b ->
  KeyComparator (ientry_bytes a) (ientry_bytes b) = InternalKey_Compare ucmp (ikey a) (ikey b).
Proof. intros (Ha & Hla & _) (Hb & Hlb & _). by apply KeyComparator_keys. Qed.

(** ** Adding entries *)

Definition add (m : option MemTable) (e : Z * Z * bytes * bytes) : option MemTable :=
  let '(s, t, k, v) := e in match m with Some m => Add m s t k v | None => None end.
Definition to_ientry (e : Z * Z * bytes * bytes) : ientry :=
  let '(s, t, k, v) := e in ({| user_key := k; sequence := s; type := t |}, v).
Definition entry_ok (e : Z * Z * bytes * bytes) : Prop := ientry_ok (to_ientry e).
Definition entry_seq (e : Z * Z * bytes * bytes) : Z := fst (fst (fst e)).

Lemma fold_add_None es : fold_left add es None = None.
Proof. induction es as [|[[[s t] k] v] es IH]; [done|]. exact IH. Qed.
Lemma fold_add_insert es : forall m,
  Forall entry_ok es ->
  table_ <$> fold_left add es (Some m) =
  insert_all KeyComparator KeyExtractor (ientry_bytes <$> (to_ientry <$> es)) (table_ m).
Proof.
  unfold insert_all. induction es as [|[[[s t] k] v] es IH]; intros m Hes; [done|].
  inversion_clear Hes as [|? ? He Hes']. cbn [fmap list_fmap fold_left add to_ientry].
  unfold Add. rewrite encode_entry_bytes by done.
  destruct (SkipList.Insert _ _ _ _) as [l|]; [by rewrite IH|].
  rewrite fold_add_None. clear. induction es as [|e es IH]; [done|]. exact IH.
Qed.

(** Entries with different sequence numbers never compare equal. *)
Lemma distinct_entries es :
  Forall entry_ok es -> NoDup (entry_seq <$> es) ->
  distinct KeyComparator (ientry_bytes <$> (to_ientry <$> es)).
Proof.
  induction es as [|e es IH]; intros Hes Hnd; [done|]. inversion_clear Hes as [|? ? He Hes'].
  cbn [fmap list_fmap] in *. apply NoDup_cons in Hnd as [Hnin Hnd]. split; [|by apply IH].
  apply Forall_fmap, Forall_fmap, Forall_forall. intros e' He'.
  change (KeyComparator (ientry_bytes (to_ientry e)) (ientry_bytes (to_ientry e')) <> 0).
  rewrite Forall_forall in Hes'. specialize (Hes' e' He').
  rewrite compare_entries by done. unfold ikey. rewrite icmp_encode by (apply He || apply Hes'). cbv zeta.
  destruct (Z.eqb_spec (Compare ucmp (user_key (fst (to_ientry e))) (user_key (fst (to_ientry e')))) 0); [|done].
  assert (sequence (fst (to_ientry e')) <> sequence (fst (to_ientry e))) as Hne.
  { intros E. apply Hnin, list_elem_of_fmap. exists e'. split; [|done].
    destruct e as [[[s t] k] v], e' as [[[s' t'] k'] v']. cbn in *. by symmetry. }
  destruct (Z.compare_spec (sequence (fst (to_ientry e'))) (sequence (fst (to_ientry e)))); [done|done|done].
Qed.

(** The entries of a memtable, in the order of the list. *)
Definition holds (m : MemTable) (ns : list nat) (es : list ientry) : Prop :=
  repr KeyComparator KeyExtractor list_key_ok (table_ m) ns (ientry_bytes <$> es) /\ Forall ientry_ok es.

Lemma fold_add_holds es :
  Forall entry_ok es -> NoDup (entry_seq <$> es) ->
  exists m ns es', fold_left add es (Some MemTable_new) = Some m /\ holds m ns es' /\
    es' ≡ₚ to_ientry <$> es.
Proof.
  intros Hes Hnd.
  assert (Forall list_key_ok (ientry_bytes <$> (to_ientry <$> es))) as Hv.
  { apply Forall_fmap, Forall_fmap. eapply Forall_impl; [exact Hes|]. intros e He. by apply ientry_list_key. }
  destruct (insert_all_new KeyComparator KeyExtractor list_key_ok _ Hv (distinct_entries es Hes Hnd))
    as (l & ns & E & Hr).
  pose proof (fold_add_insert es MemTable_new Hes) as Hf. cbn [table_ MemTable_new] in Hf.
  rewrite <- Hf in E.
  apply fmap_Some in E as (m & E & ->).
  assert (sorted_of KeyComparator (ientry_bytes <$> (to_ientry <$> es)) ≡ₚ
          map ientry_bytes (to_ientry <$> es)) as Hp by apply sorted_of_perm.
  apply Permutation_map_inv in Hp as (es' & Ees & Hp). rewrite Ees in Hr.
  exists m, ns, es'. split; [done|]. split; [|by symmetry]. split; [exact Hr|].
  rewrite <- Hp. apply Forall_fmap. exact Hes.
Qed.

Lemma holds_sorted m ns es :
  holds m ns es -> StronglySorted (fun a b => KeyComparator a b < 0) (ientry_bytes <$> es).
Proof. intros [Hr _]. by eapply repr_sorted. Qed.

(** ** Reading at a snapshot *)

Definition lookup_pkey (ukey : bytes) (s : Z) : ParsedInternalKey :=
  {| user_key := ukey; sequence := s; type := kValueTypeForSeek |}.
Lemma memtable_key_list ukey s : memtable_key (mkLookupKey ukey s) = list_key (lookup_pkey ukey s) [].
Proof.
  unfold list_key. rewrite LengthPrefixed_app, app_nil_r, blen_ikey. done.
Qed.
Lemma lookup_user_key_mk ukey s : lookup_user_key (mkLookupKey ukey s) = ukey.
Proof.
  unfold lookup_user_key, mkLookupKey. cbn [lk_buf lk_kstart]. rewrite drop_app_length.
  rewrite !length_app, EncodeFixed64_length.
  match goal with |- take ?n _ = _ => replace n with (length ukey) by lia end. apply take_app_length.
Qed.

Definition read_entry (e : ientry) (ukey : bytes) : GetResult :=
  if Compare ucmp (user_key (fst e)) ukey =? 0 then
    if type (fst e) =? kTypeValue then Found (snd e)
    else if type (fst e) =? kTypeDeletion then Deleted (NotFound [])
    else Unknown
  else Unknown.
Lemma Get_entry m ukey s a e :
  ientry_ok e ->
  iter_Seek KeyComparator KeyExtractor (table_ m) (memtable_key (mkLookupKey ukey s)) = Some (Some a) ->
  iter_key (table_ m) (Some a) = Some (ientry_bytes e) ->
  Get m (mkLookupKey ukey s) = Some (read_entry e ukey).
Proof.
  intros He Hs Hk. unfold Get. rewrite Hs, Hk. unfold ientry_bytes. rewrite LengthPrefixed_app.
  destruct He as (Hkey & Hl & Hv). unfold ikey. rewrite u32_small by (rewrite blen_ikey; blia).
  rewrite GetVarint32At_encode, blen_ikey by (rewrite blen_ikey; blia).
  rewrite EncodeInternalKey_app, <- app_assoc, lookup_user_key_mk.
  replace (Z.to_nat (blen (user_key (fst e)) + 8 - 8)) with (length (user_key (fst e))) by (unfold blen; lia).
  rewrite take_app_length, drop_app_length.
  rewrite DecodeFixed64_encode by apply u64_range.
  destruct Hkey as (_ & Hseq & Ht).
  assert (Z.land (PackSequenceAndType (sequence (fst e)) (type (fst e))) 255 = type (fst e)) as ->.
  { rewrite PackSequenceAndType_add, land_ff by done. dlia. }
  unfold read_entry. destruct (_ =? 0); [|done]. destruct (type (fst e) =? kTypeValue); [|by destruct (_ =? _)].
  replace (Z.to_nat (blen (user_key (fst e)) + 8)) with (length (user_key (fst e)) + 8)%nat by (unfold blen; lia).
  rewrite <- drop_drop, drop_app_length. rewrite drop_app_length' by done.
  rewrite <- (app_nil_r (LengthPrefixed (snd e))). by rewrite GetLengthPrefixedSliceAt_encode.
Qed.

(** The entries a reader of [ukey] at snapshot [s] may see, and the newest of them. *)
Definition visible (ukey : bytes) (s : Z) (e : Z * Z * bytes * bytes) : bool :=
  (Compare ucmp (user_key (fst (to_ientry e))) ukey =? 0) && (entry_seq e <=? s).
Fixpoint newest (ukey : bytes) (s : Z) (es : list (Z * Z * bytes * bytes))
    : option (Z * Z * bytes * bytes) :=
  match es with
  | [] => None
  | e :: es =>
      let r := newest ukey s es in
      if visible ukey s e then
        match r with
        | Some e' => if entry_seq e <? entry_seq e' then r else Some e
        | None => Some e
        end
      else r
  end.
Definition get_result (e : option (Z * Z * bytes * bytes)) : GetResult :=
  match e with
  | Some (_, t, _, v) => if t =? kTypeValue then Found v else Deleted (NotFound [])
  | None => Unknown
  end.

Lemma newest_in ukey s es e : newest ukey s es = Some e -> e ∈ es /\ visible ukey s e = true.
Proof.
  induction es as [|a es IH]; cbn [newest]; [done|]. cbv zeta.
  destruct (visible ukey s a) eqn:Ev.
  - destruct (newest ukey s es) as [e'|]; [destruct (_ <? _)|]; intros [= <-]; try (split; [by left|done]).
    destruct IH; [done|]. split; [by right|done].
  - intros (? & ?)%IH. split; [by right|done].
Qed.
Lemma newest_None ukey s es :
  newest ukey s es = None -> forall e, e ∈ es -> visible ukey s e = false.
Proof.
  induction es as [|a es IH]; cbn [newest]; intros H e He; [by apply elem_of_nil in He|]. cbv zeta in H.
  destruct (visible ukey s a) eqn:Ev; [by destruct (newest ukey s es); [destruct (_ <? _)|]|].
  apply elem_of_cons in He as [->|He]; [done|by apply IH].
Qed.
Lemma newest_max ukey s es e :
  newest ukey s es = Some e -> forall e', e' ∈ es -> visible ukey s e' = true -> entry_seq e' <= entry_seq e.
Proof.
  revert e. induction es as [|a es IH]; cbn [newest]; intros e H e' He' Hv; [by apply elem_of_nil in He'|].
  cbv zeta in H. apply elem_of_cons in He' as [->|He'].
  - rewrite Hv in H. destruct (newest ukey s es) as [e2|]; [|by injection H as <-].
    destruct (Z.ltb_spec (entry_seq a) (entry_seq e2)); injection H as <-; lia.
  - destruct (visible ukey s a).
    + destruct (newest ukey s es) as [e2|] eqn:E2.
      * specialize (IH e2 eq_refl e' He' Hv).
        destruct (Z.ltb_spec (entry_seq a) (entry_seq e2)); injection H as <-; lia.
      * pose proof (newest_None ukey s es E2 e' He'). congruence.
    + by apply (IH e).
Qed.

(** Point entries: values and deletions. *)
Definition point_entry (e : Z * Z * bytes * bytes) : Prop :=
  entry_ok e /\ 0 <= type (fst (to_ientry e)) <= kTypeValue.

Section Read.
Context (ukey : bytes) (s : Z).
Context (Hukey : bytes_ok ukey) (Hlen : blen ukey + 8 < 2 ^ 32) (Hs : 0 <= s <= kMaxSequenceNumber).

Lemma lookup_pkey_ok : pkey_ok (lookup_pkey ukey s).
Proof. split; [|done]. split_and!; [done|apply Hs..|done]. Qed.
Lemma lookup_list_key : list_key_ok (list_key (lookup_pkey ukey s) []).
Proof. exists (lookup_pkey ukey s), []. split; [apply lookup_pkey_ok|done]. Qed.

(** An entry is at or after the lookup key when its user key is greater, or equal and
    the entry is visible. *)
Lemma ge_lookup e :
  point_entry e ->
  0 <= KeyComparator (ientry_bytes (to_ientry e)) (list_key (lookup_pkey ukey s) []) <->
  0 < Compare ucmp (user_key (fst (to_ientry e))) ukey \/ visible ukey s e = true.
Proof.
  intros [(Hk & Hl & Hv) Ht]. unfold ientry_bytes.
  change (LengthPrefixed (ikey (to_ientry e)) ++ LengthPrefixed (snd (to_ientry e)))
    with (list_key (fst (to_ientry e)) (LengthPrefixed (snd (to_ientry e)))).
  rewrite KeyComparator_keys by (done || apply lookup_pkey_ok).
  rewrite icmp_encode by (done || apply lookup_pkey_ok). cbv zeta. cbn [lookup_pkey user_key sequence type].
  unfold visible. destruct e as [[[sq t] k] v]. cbn [to_ientry fst snd user_key sequence type entry_seq] in *.
  rewrite andb_true_iff, Z.eqb_eq, Z.leb_le. unfold kValueTypeForSeek. change kTypeValue with 1 in *.
  destruct (Z.eqb_spec (Compare ucmp k ukey) 0) as [E|E]; [|lia].
  destruct (Z.compare_spec s sq) as [->|Hlt|Hgt]; [|cbn; lia|cbn; lia].
  destruct (Z.compare_spec 1 t); cbn; lia.
Qed.

Lemma cmp_eq_sym a b : bytes_ok a -> bytes_ok b -> Compare ucmp a b = 0 -> Compare ucmp b a = 0.
Proof.
  intros Ha Hb H0. pose proof (cmp_antisym a b Ha Hb). pose proof (cmp_antisym b a Hb Ha). lia.
Qed.
Lemma cmp_eq_trans a b d : bytes_ok a -> bytes_ok b -> bytes_ok d ->
  Compare ucmp a b = 0 -> Compare ucmp b d = 0 -> Compare ucmp a d = 0.
Proof.
  intros Ha Hb Hd H1 H2. pose proof (cmp_eq_sym a b Ha Hb H1). pose proof (cmp_eq_sym b d Hb Hd H2).
  pose proof (cmp_trans a b d Ha Hb Hd). pose proof (cmp_trans d b a Hd Hb Ha).
  pose proof (cmp_antisym a d Ha Hd). lia.
Qed.

Context (es' : list ientry) (es : list (Z * Z * bytes * bytes)).
Context (Hsorted : StronglySorted (fun a b => KeyComparator a b < 0) (ientry_bytes <$> es')).
Context (Hok : Forall ientry_ok es') (Hp : es' ≡ₚ to_ientry <$> es).
Context (Hes : Forall point_entry es) (Hnd : NoDup (entry_seq <$> es)).

Lemma entry_of e : e ∈ es -> point_entry e /\ ientry_bytes (to_ientry e) ∈ ientry_bytes <$> es'.
Proof.
  intros He. split; [by apply (proj1 (Forall_forall _ _) Hes)|]. apply list_elem_of_fmap_2.
  rewrite Hp. by apply list_elem_of_fmap_2.
Qed.
Lemma point_user e : point_entry e -> bytes_ok (user_key (fst (to_ientry e))).
Proof. intros [[Hk _] _]. apply Hk. Qed.

Lemma seek_entries :
  match seek_index KeyComparator (list_key (lookup_pkey ukey s) []) (ientry_bytes <$> es') with
  | Some i => exists e, e ∈ es /\ es' !! i = Some (to_ientry e) /\
      (0 < Compare ucmp (user_key (fst (to_ientry e))) ukey \/ visible ukey s e = true) /\
      forall e', e' ∈ es -> visible ukey s e' = true ->
        InternalKey_Compare ucmp (ikey (to_ientry e)) (ikey (to_ientry e')) <= 0
  | None => forall e', e' ∈ es -> visible ukey s e' = false
  end.
Proof.
  assert (Forall list_key_ok (ientry_bytes <$> es')) as Hv.
  { apply Forall_fmap. eapply Forall_impl; [exact Hok|]. apply ientry_list_key. }
  pose proof (seek_index_spec KeyComparator KeyExtractor list_key_ok
    (list_key (lookup_pkey ukey s) []) _ Hv Hsorted) as Hseek.
  destruct (seek_index _ _ _) as [i|].
  - destruct Hseek as (f & Hf & Hge & Hmin). rewrite list_lookup_fmap in Hf.
    apply fmap_Some in Hf as (fe & Hfe & ->).
    assert (fe ∈ to_ientry <$> es) as Hin by (rewrite <- Hp; by apply list_elem_of_lookup_2 in Hfe).
    apply list_elem_of_fmap in Hin as (e & -> & He). destruct (entry_of e He) as [Hpe _].
    exists e. split_and!; [done|done|by apply ge_lookup|]. intros e' He' Hv'.
    destruct (entry_of e' He') as [Hpe' Hin']. rewrite <- compare_entries by (apply Hpe || apply Hpe').
    apply Hmin; [done|]. apply ge_lookup; [done|]. by right.
  - intros e' He'. destruct (entry_of e' He') as [Hpe' Hin']. apply not_true_iff_false. intros Hv'.
    pose proof (Hseek _ Hin'). assert (0 <= KeyComparator (ientry_bytes (to_ientry e'))
      (list_key (lookup_pkey ukey s) [])) by (apply ge_lookup; [done|by right]). lia.
Qed.

Lemma newest_unique e1 e2 : e1 ∈ es -> e2 ∈ es -> entry_seq e1 = entry_seq e2 -> e1 = e2.
Proof.
  intros [i Hi]%list_elem_of_lookup [j Hj]%list_elem_of_lookup E.
  assert (i = j) as ->; [|congruence]. eapply (NoDup_lookup _ i j (entry_seq e1) Hnd);
    rewrite list_lookup_fmap; [by rewrite Hi|rewrite Hj; cbn; by rewrite E].
Qed.

(** The visible entry a seek meets is the newest. *)
Lemma met_newest e :
  e ∈ es -> visible ukey s e = true ->
  (forall e', e' ∈ es -> visible ukey s e' = true ->
     InternalKey_Compare ucmp (ikey (to_ientry e)) (ikey (to_ientry e')) <= 0) ->
  newest ukey s es = Some e.
Proof.
  intros He Hv Hmin. destruct (entry_of e He) as [Hpe _].
  destruct (newest ukey s es) as [e1|] eqn:En.
  2: { rewrite (newest_None ukey s es En e He) in Hv. done. }
  pose proof (newest_max ukey s es e1 En e He Hv) as Hmax. apply newest_in in En as [He1 Hv1].
  f_equal. apply newest_unique; [done|done|]. specialize (Hmin e1 He1 Hv1).
  destruct (entry_of e1 He1) as [Hpe1 _]. unfold ikey in Hmin.
  rewrite icmp_encode in Hmin by (apply Hpe || apply Hpe1). cbv zeta in Hmin.
  unfold visible in Hv, Hv1. apply andb_true_iff in Hv as [E0%Z.eqb_eq _].
  apply andb_true_iff in Hv1 as [Hc1%Z.eqb_eq _].
  rewrite (cmp_eq_trans _ ukey _ (point_user e Hpe) Hukey (point_user e1 Hpe1) E0
    (cmp_eq_sym _ _ (point_user e1 Hpe1) Hukey Hc1)) in Hmin.
  destruct e as [[[sq t] k] v], e1 as [[[sq1 t1] k1] v1]. cbn in Hmin, Hmax |- *.
  unfold entry_seq in Hmax. cbn in Hmax. destruct (Z.compare_spec sq1 sq); cbn in Hmin; lia.
Qed.

(** Reading the entry a seek meets answers the lookup. *)
Lemma seek_newest :
  match seek_index KeyComparator (list_key (lookup_pkey ukey s) []) (ientry_bytes <$> es') with
  | Some i => exists e, point_entry e /\ es' !! i = Some (to_ientry e) /\
      read_entry (to_ientry e) ukey = get_result (newest ukey s es)
  | None => newest ukey s es = None
  end.
Proof.
  pose proof seek_entries as Hseek. destruct (seek_index _ _ _) as [i|].
  2: { destruct (newest ukey s es) as [e|] eqn:En; [|done].
       apply newest_in in En as [He Hv]. rewrite (Hseek e He) in Hv. done. }
  destruct Hseek as (e & He & Hi & Hge & Hmin). destruct (entry_of e He) as [Hpe _].
  exists e. split; [done|]. split; [done|]. unfold read_entry.
  destruct (Z.eqb_spec (Compare ucmp (user_key (fst (to_ientry e))) ukey) 0) as [E0|E0].
  - assert (visible ukey s e = true) as Hv by (destruct Hge; [lia|done]).
    rewrite (met_newest e He Hv Hmin).
    destruct Hpe as [_ Ht]. destruct e as [[[sq t] k] v]. cbn [to_ientry fst snd type get_result] in *.
    unfold kTypeValue, kTypeDeletion in *. destruct (Z.eqb_spec t 1); [done|].
    by rewrite (proj2 (Z.eqb_eq t 0)) by lia.
  - assert (newest ukey s es = None) as ->; [|done].
    destruct (newest ukey s es) as [e1|] eqn:En; [|done]. exfalso.
    apply newest_in in En as [He1 Hv1]. specialize (Hmin e1 He1 Hv1). apply icmp_le_user in Hmin.
    unfold ikey in Hmin. rewrite !ExtractUserKey_encode in Hmin.
    destruct (entry_of e1 He1) as [Hpe1 _].
    unfold visible in Hv1, Hge. apply andb_true_iff in Hv1 as [Hc1%Z.eqb_eq _].
    rewrite andb_true_iff, Z.eqb_eq in Hge.
    pose proof (cmp_trans _ _ _ (point_user e Hpe) (point_user e1 Hpe1) Hukey Hmin). lia.
Qed.

Lemma Get_newest m ns : holds m ns es' -> Get m (mkLookupKey ukey s) = Some (get_result (newest ukey s es)).
Proof.
  intros [Hr _]. pose proof seek_newest as Hseek.
  pose proof (iter_Seek_ok KeyComparator KeyExtractor list_key_ok (table_ m) ns _ Hr _ lookup_list_key) as Hit.
  rewrite <- memtable_key_list in Hit. rewrite memtable_key_list in Hit at 2.
  destruct (seek_index _ _ _) as [i|]; cbn [node_at] in Hit.
  2: { unfold Get. by rewrite Hit, Hseek. }
  destruct Hseek as (e & Hpe & Hi & <-).
  assert ((ientry_bytes <$> es') !! i = Some (ientry_bytes (to_ientry e))) as Hki
    by (by rewrite list_lookup_fmap, Hi).
  destruct (Forall2_lookup_r _ _ _ _ _ (proj2 Hr) Hki) as (a & Ha & Hka).
  rewrite Ha in Hit. apply (Get_entry m ukey s a (to_ientry e)); [apply Hpe|done|exact Hka].
Qed.
End Read.

(** ** The iterator meets the interface *)

Definition seek_target (t : bytes) : Prop := internal_valid bytes_ok t /\ blen t < 2 ^ 32.
Lemma seek_target_key t : seek_target t -> exists p, pkey_ok p /\ t = EncodeInternalKey p.
Proof.
  intros [(Hb & H8 & _) Hl]. destruct (tag_key_encode t Hb H8) as [Hk He]. exists (tag_key t). split; [|done].
  split; [done|]. cbn. rewrite blen_ExtractUserKey by done. lia.
Qed.
Definition iter_entries (es : list ientry) : list (bytes * bytes) := (fun e => (ikey e, snd e)) <$> es.
Definition mi_pos (m : MemTable) (ns : list nat) (it : MemTableIterator) (p : option nat) : Prop :=
  mi_table it = table_ m /\ mi_node it = node_at ns p /\
  match p with Some i => (i < length ns)%nat | None => True end.

Lemma seek_index_first_ge p es :
  pkey_ok p -> Forall ientry_ok es ->
  seek_index KeyComparator (list_key p []) (ientry_bytes <$> es) =
  first_ge (InternalKeyComparator ucmp) (iter_entries es) (EncodeInternalKey p).
Proof.
  intros Hp Hes. induction Hes as [|e es He Hes IH]; [done|].
  cbn [fmap list_fmap seek_index iter_entries first_ge] in *.
  change (ientry_bytes e) with (list_key (fst e) (LengthPrefixed (snd e))).
  destruct He as (Hk & Hl & _). rewrite KeyComparator_keys by done.
  change (Compare (InternalKeyComparator ucmp)) with (InternalKey_Compare ucmp).
  change (ikey e) with (EncodeInternalKey (fst e)). rewrite IH.
  destruct (Z.ltb_spec (InternalKey_Compare ucmp (EncodeInternalKey (fst e)) (EncodeInternalKey p)) 0);
    destruct (Z.leb_spec 0 (InternalKey_Compare ucmp (EncodeInternalKey (fst e)) (EncodeInternalKey p)));
    done || lia.
Qed.

Section Iter.
Context (m : MemTable) (ns : list nat) (es : list ientry) (Hm : holds m ns es).
Let Hr := proj1 Hm.

Lemma length_nodes : length ns = length es.
Proof. rewrite (Forall2_length _ _ _ (proj2 Hr)). apply length_fmap. Qed.
Lemma mi_slices_ok it i a e :
  mi_table it = table_ m -> mi_node it = Some a -> ns !! i = Some a -> es !! i = Some e ->
  mi_slices it = (ikey e, snd e).
Proof.
  intros Ht Hnode Ha He. unfold mi_slices. rewrite Ht, Hnode.
  rewrite (iter_key_ok KeyComparator KeyExtractor list_key_ok _ _ _ Hr i a Ha).
  rewrite list_lookup_fmap, He. cbn [fmap option_fmap option_map].
  assert (ientry_ok e) as (Hk & Hl & Hv).
  { apply (proj1 (Forall_lookup _ _) (proj2 Hm) i e He). }
  unfold ientry_bytes. rewrite GetLengthPrefixedSliceAt_encode by (unfold ikey; rewrite blen_ikey; lia).
  rewrite <- (app_nil_r (LengthPrefixed (snd e))). by rewrite GetLengthPrefixedSliceAt_encode.
Qed.

Lemma pos_node it i : mi_pos m ns it (Some i) ->
  exists a e, mi_node it = Some a /\ ns !! i = Some a /\ es !! i = Some e.
Proof.
  intros (_ & Hn' & Hi). destruct (lookup_lt_is_Some_2 ns i Hi) as [a Ha].
  rewrite length_nodes in Hi. destruct (lookup_lt_is_Some_2 es i Hi) as [e He].
  exists a, e. split_and!; [|done|done]. by rewrite Hn'.
Qed.
Lemma step_pos it r p :
  mi_table it = table_ m -> r = Some (node_at ns p) ->
  match p with Some i => (i < length ns)%nat | None => True end -> mi_pos m ns (step it r) p.
Proof. intros Ht -> Hp'. by split. Qed.

Lemma mi_valid it p : mi_pos m ns it p -> Valid it = bool_decide (is_Some p).
Proof.
  intros (Ht & Hnode & Hb). unfold Valid, MemTableIterator_ops. rewrite Hnode.
  destruct p as [i|]; [|done]. cbn [node_at]. destruct (lookup_lt_is_Some_2 ns i Hb) as [a ->].
  by rewrite !bool_decide_eq_true_2.
Qed.
Lemma mi_entry it i : mi_pos m ns it (Some i) -> iter_entries es !! i = Some (key it, value it).
Proof.
  intros Hpos. destruct (pos_node it i Hpos) as (a & e & Hnode & Ha & He). destruct Hpos as [Ht _].
  unfold iter_entries. rewrite list_lookup_fmap, He. cbn [fmap option_fmap option_map].
  unfold key, value, MemTableIterator_ops. by rewrite (mi_slices_ok it i a e).
Qed.
Lemma lookup_beyond {A} (xs : list A) i : xs !! i = None -> forall B (ys : list B), length ys = length xs -> ys !! i = None.
Proof. intros H B ys Hl. apply lookup_ge_None. apply lookup_ge_None in H. lia. Qed.

Lemma mi_first it p : mi_pos m ns it p -> mi_pos m ns (SeekToFirst it) (first_pos (iter_entries es)).
Proof.
  intros (Ht & _ & _). apply step_pos; [done| |].
  - rewrite Ht, (iter_SeekToFirst_ok KeyComparator KeyExtractor list_key_ok _ _ _ Hr). f_equal.
    pose proof length_nodes. destruct es as [|e es']; [by destruct ns|done].
  - pose proof length_nodes. destruct es as [|e es']; [done|]. cbn in *. lia.
Qed.
Lemma mi_last it p : mi_pos m ns it p -> mi_pos m ns (SeekToLast it) (last_pos (iter_entries es)).
Proof.
  intros (Ht & _ & _). pose proof length_nodes as Hl. apply step_pos; [done| |].
  - rewrite Ht, (iter_SeekToLast_ok KeyComparator KeyExtractor list_key_ok _ _ _ Hr). f_equal.
    rewrite last_lookup, Hl. destruct es as [|e es']; [by destruct ns|]. cbn. by rewrite length_fmap.
  - destruct es as [|e es']; [done|]. cbn in *. rewrite length_fmap. lia.
Qed.
Lemma mi_next it i : mi_pos m ns it (Some i) -> mi_pos m ns (Next it) (next_pos (iter_entries es) i).
Proof.
  intros Hpos. destruct (pos_node it i Hpos) as (a & e & Hnode & Ha & He). destruct Hpos as [Ht _].
  pose proof length_nodes as Hl. unfold next_pos, iter_entries. rewrite length_fmap.
  destruct (Nat.ltb_spec (S i) (length es)) as [Hlt|Hge]; apply step_pos; try done.
  - by rewrite Ht, Hnode, (iter_Next_ok KeyComparator KeyExtractor list_key_ok _ _ _ Hr i a Ha).
  - lia.
  - rewrite Ht, Hnode, (iter_Next_ok KeyComparator KeyExtractor list_key_ok _ _ _ Hr i a Ha). f_equal.
    apply lookup_ge_None. lia.
Qed.
Lemma mi_prev it i : mi_pos m ns it (Some i) -> mi_pos m ns (Prev it) (prev_pos i).
Proof.
  intros Hpos. destruct (pos_node it i Hpos) as (a & e & Hnode & Ha & He). destruct Hpos as (Ht & _ & Hi).
  apply step_pos; [done| |destruct i; [done|cbn; lia]].
  rewrite Ht, Hnode, (iter_Prev_ok KeyComparator KeyExtractor list_key_ok _ _ _ Hr i a Ha). by destruct i.
Qed.
Lemma mi_seek it p t : seek_target t -> mi_pos m ns it p ->
  mi_pos m ns (Seek it t) (first_ge (InternalKeyComparator ucmp) (iter_entries es) t).
Proof.
  intros (q & Hq & ->)%seek_target_key (Ht & _ & _). pose proof length_nodes as Hl.
  assert (list_key_ok (list_key q [])) as Hqk by (exists q, []; by split).
  assert (EncodeKey (EncodeInternalKey q) = list_key q []) as Ek
    by (unfold list_key; by rewrite LengthPrefixed_app, app_nil_r).
  rewrite <- (seek_index_first_ge q es Hq (proj2 Hm)). apply step_pos; [done| |].
  - by rewrite Ht, Ek, (iter_Seek_ok KeyComparator KeyExtractor list_key_ok _ _ _ Hr).
  - pose proof (seek_index_spec KeyComparator KeyExtractor list_key_ok (list_key q []) (ientry_bytes <$> es)) as Hs.
    destruct (seek_index _ _ _) as [i|]; [|done]. destruct Hs as (f & Hf & _).
    { apply Forall_fmap. eapply Forall_impl; [exact (proj2 Hm)|]. apply ientry_list_key. }
    { by eapply repr_sorted. }
    apply lookup_lt_Some in Hf. rewrite length_fmap in Hf. lia.
Qed.

#[local] Instance MemTableIterator_ok :
  IteratorOk (InternalKeyComparator ucmp) seek_target (iter_entries es) (mi_pos m ns).
Proof.
  split; [apply mi_valid|apply mi_entry|done|apply mi_first|apply mi_last|apply mi_next|apply mi_prev|].
  intros it p t. apply mi_seek.
Qed.
End Iter.

(** ** A batch in the memtable *)

#[export] Instance memtable_InsertTarget {V} : InsertTarget (option MemTable) V := {
  MemTable_Add m s t k v := add m (s, t, k, v);
  AddToCompleteGuards v _ _ := v;
}.

(** The state of [ukey] after the operations of a batch. *)
Definition apply_write (ukey : bytes) (r : GetResult) (op : wb_op) : GetResult :=
  match op with
  | OpPut k v => if Compare ucmp k ukey =? 0 then Found v else r
  | OpDelete k => if Compare ucmp k ukey =? 0 then Deleted (NotFound []) else r
  | OpGuard _ _ => r
  end.

Lemma numbered_seqs ops : forall seq e, e ∈ numbered seq ops -> seq <= entry_seq e < seq + blen ops.
Proof.
  induction ops as [|[k v|k|k lv] ops IH]; intros seq e He; cbn [numbered] in He;
    [by apply elem_of_nil in He| | |]; rewrite blen_cons; pose proof (blen_nonneg ops).
  - apply elem_of_cons in He as [->|He]; [unfold entry_seq; cbn; lia|]. apply IH in He. lia.
  - apply elem_of_cons in He as [->|He]; [unfold entry_seq; cbn; lia|]. apply IH in He. lia.
  - apply IH in He. lia.
Qed.
Lemma numbered_nodup ops : forall seq, NoDup (entry_seq <$> numbered seq ops).
Proof.
  induction ops as [|[k v|k|k lv] ops IH]; intros seq; cbn [numbered fmap list_fmap]; [constructor| | |apply IH];
    (constructor; [|apply IH]); intros (e & E & He)%list_elem_of_fmap; apply numbered_seqs in He;
    unfold entry_seq in E at 1; cbn in E; lia.
Qed.

(** The last write of a batch is the newest of its entries. *)
Lemma newest_numbered ukey s ops : forall seq r,
  seq + blen ops <= s ->
  fold_left (apply_write ukey) ops r =
  match newest ukey s (numbered seq ops) with Some e => get_result (Some e) | None => r end.
Proof.
  assert (forall e es r, (forall e', e' ∈ es -> entry_seq e < entry_seq e') -> entry_seq e <= s ->
    match newest ukey s (e :: es) with Some e => get_result (Some e) | None => r end =
    match newest ukey s es with
    | Some e => get_result (Some e)
    | None => if Compare ucmp (user_key (fst (to_ientry e))) ukey =? 0 then get_result (Some e) else r
    end) as Hcons.
  { intros e es r Hlt Hs. cbn [newest]. cbv zeta. unfold visible. rewrite (proj2 (Z.leb_le _ _)) by done.
    rewrite andb_true_r. destruct (newest ukey s es) as [e'|] eqn:En; [|by destruct (_ =? 0)].
    apply newest_in in En as [He' _]. destruct (_ =? 0); [|done].
    by rewrite (proj2 (Z.ltb_lt _ _)) by (by apply Hlt). }
  induction ops as [|[k v|k|k lv] ops IH]; intros seq r Hs; rewrite ?blen_cons in Hs;
    cbn [fold_left apply_write numbered]; [done| | |].
  - rewrite Hcons; [|intros e He%numbered_seqs; unfold entry_seq at 1; cbn; lia|unfold entry_seq; cbn; blia].
    by rewrite <- (IH (seq + 1)) by lia.
  - rewrite Hcons; [|intros e He%numbered_seqs; unfold entry_seq at 1; cbn; lia|unfold entry_seq; cbn; blia].
    by rewrite <- (IH (seq + 1)) by lia.
  - apply IH. lia.
Qed.

Definition write_ok (op : wb_op) : Prop :=
  match op with
  | OpPut k v => bytes_ok k /\ blen k + 8 < 2 ^ 32 /\ blen v < 2 ^ 32
  | OpDelete k => bytes_ok k /\ blen k + 8 < 2 ^ 32
  | OpGuard _ _ => True
  end.
Lemma numbered_points ops : forall seq,
  Forall write_ok ops -> 0 <= seq -> seq + blen ops <= kMaxSequenceNumber ->
  Forall point_entry (numbered seq ops).
Proof.
  induction ops as [|op ops IH]; intros seq Hok H0 Hs; [constructor|].
  inversion_clear Hok as [|? ? Hop Hops]. rewrite blen_cons in Hs. pose proof (blen_nonneg ops).
  destruct op as [k v|k|k lv]; cbn [numbered write_ok] in *; [| |apply IH; [done|lia|lia]];
    (constructor; [|apply IH; [done|lia|lia]]).
  - destruct Hop as (? & ? & ?). split; [|cbn; unfold kTypeValue; lia].
    split_and!; [|done|done]. split_and!; [done|cbn; lia..|done].
  - destruct Hop as (? & ?). split; [|cbn; unfold kTypeValue, kTypeDeletion; lia].
    split_and!; [|done|done]. split_and!; [done|cbn; lia..|done].
Qed.
Lemma fold_add_entry es (m : option MemTable) :
  fold_left (add_entry (H := @memtable_InsertTarget unit)) es m = fold_left add es m.
Proof. revert m. induction es as [|[[[? ?] ?] ?] es IH]; intros m; [done|]. cbn. apply IH. Qed.

(** ** Properties *)

(** C16: Reading the memtable at a snapshot: after adding any entries with different
    sequence numbers, in any order, [Get] for a user key and a snapshot returns the
    value of the newest entry of that key at or before the snapshot, a deletion if that
    entry is one, and nothing if there is no such entry. *)
Theorem memtable_get_newest (es : list (Z * Z * bytes * bytes))
  (Hes : Forall point_entry es) (Hnd : NoDup (entry_seq <$> es)) :
  exists m, fold_left add es (Some MemTable_new) = Some m /\
    forall ukey s, bytes_ok ukey -> blen ukey + 8 < 2 ^ 32 -> 0 <= s <= kMaxSequenceNumber ->
      Get m (mkLookupKey ukey s) = Some (get_result (newest ukey s es)).
Proof.
  destruct (fold_add_holds es) as (m & ns & es' & E & Hm & Hp); [|done|].
  { eapply Forall_impl; [exact Hes|]. intros e He. apply He. }
  exists m. split; [done|]. intros ukey s Hu Hl Hs. apply (Get_newest ukey s Hu Hl Hs es' es (holds_sorted _ _ _ Hm) (proj2 Hm) Hp Hes Hnd m ns Hm).
Qed.

(** The memtable's iterator meets the iterator contract on the entries added, sorted by
    internal key, for every seek target that is an internal key. *)
Theorem memtable_iterator_contract (es : list (Z * Z * bytes * bytes))
  (Hes : Forall entry_ok es) (Hnd : NoDup (entry_seq <$> es)) :
  exists m ns es', fold_left add es (Some MemTable_new) = Some m /\ es' ≡ₚ to_ientry <$> es /\
    mi_pos m ns (NewIterator m) None /\
    IteratorOk (InternalKeyComparator ucmp) seek_target (iter_entries es') (mi_pos m ns).
Proof.
  destruct (fold_add_holds es Hes Hnd) as (m & ns & es' & E & Hm & Hp).
  exists m, ns, es'. split_and!; [done|done|done|]. by apply MemTableIterator_ok.
Qed.

(** A write batch takes effect in the memtable as a whole and in order: inserting the
    batch of any operations at a sequence number succeeds, and reading any key at a
    snapshot past the batch gives what the last operation of the batch on that key
    wrote, a deletion, or nothing. *)
Theorem batch_insert_then_get (ops : list wb_op) (seq : Z)
  (Hok : ops_ok seq ops) (Hw : Forall write_ok ops) (Hseq : seq + blen ops <= kMaxSequenceNumber) :
  exists ins m,
    InsertInto (V := unit) (SetSequence (fold_left apply_op ops Clear) seq) (Some MemTable_new) =
      Some (OK, ins) /\
    mem_ ins = Some m /\
    forall ukey s, bytes_ok ukey -> blen ukey + 8 < 2 ^ 32 -> seq + blen ops <= s <= kMaxSequenceNumber ->
      Get m (mkLookupKey ukey s) = Some (fold_left (apply_write ukey) ops Unknown).
Proof.
  assert (ops_ok 0 ([] ++ ops)) as Hok0 by (destruct Hok as (? & ? & ?); by split).
  assert (0 <= seq) as H0 by apply Hok. pose proof (blen_nonneg ops) as Hlen.
  pose proof (numbered_points ops seq Hw H0 Hseq) as Hpts.
  destruct (fold_add_holds (numbered seq ops)) as (m & ns & es' & E & Hm & Hp).
  { eapply Forall_impl; [exact Hpts|]. intros e He. apply He. }
  { apply numbered_nodup. }
  rewrite Clear_batch, apply_ops_batch by done. cbn [app]. rewrite SetSequence_batch.
  unfold InsertInto. rewrite Sequence_batch by apply Hok. rewrite Iterate_batch by done.
  destruct (insert_ops (V := unit) ops seq (Some MemTable_new)) as [E1 _]; [done| |].
  { unfold kMaxSequenceNumber in Hseq. change (Z.shiftl 1 56) with (2 ^ 56) in Hseq. lia. }
  eexists _, m. split; [reflexivity|]. split; [by rewrite E1, fold_add_entry|].
  intros ukey s Hu Hl Hs. rewrite (Get_newest ukey s Hu Hl ltac:(lia) es' _ (holds_sorted _ _ _ Hm) (proj2 Hm) Hp Hpts
    (numbered_nodup ops seq) m ns Hm).
  rewrite (newest_numbered ukey s ops seq) by lia. by destruct (newest ukey s (numbered seq ops)).
Qed.
End MemTable.

Definition example_entries : list (Z * Z * bytes * bytes) :=
  [(5, kTypeValue, [1; 2], [50]); (9, kTypeDeletion, [1; 2], []); (7, kTypeValue, [3], [70])].
Lemma example_points : Forall point_entry example_entries.
Proof. repeat constructor; done. Qed.

Lemma memtable_get_newest_witness :
  exists m, fold_left (add BytewiseComparator) example_entries (Some MemTable_new) = Some m /\
    Get BytewiseComparator m (mkLookupKey [1; 2] 8) = Some (Found [50]) /\
    Get BytewiseComparator m (mkLookupKey [1; 2] 9) = Some (Deleted (NotFound [])).
Proof.
  assert (bytes_ok [1; 2]) as Hb by (by repeat constructor).
  assert (blen [1; 2] + 8 < 2 ^ 32) as Hl by done.
  destruct (memtable_get_newest BytewiseComparator _ _ example_entries) as (m & E & H).
  - apply example_points.
  - repeat constructor; rewrite ?elem_of_cons, ?elem_of_nil; cbn; lia.
  - exists m. split; [exact E|]. clear E. split.
    + rewrite H; [reflexivity|exact Hb|exact Hl|change kMaxSequenceNumber with 72057594037927935; lia].
    + rewrite H; [reflexivity|exact Hb|exact Hl|change kMaxSequenceNumber with 72057594037927935; lia].
Defined.
Lemma memtable_iterator_contract_witness :
  exists m ns es', fold_left (add BytewiseComparator) example_entries (Some MemTable_new) = Some m /\
    es' ≡ₚ to_ientry <$> example_entries /\
    IteratorOk (H := MemTableIterator_ops BytewiseComparator)
      (InternalKeyComparator BytewiseComparator) seek_target (iter_entries es') (mi_pos m ns).
Proof.
  destruct (memtable_iterator_contract BytewiseComparator _ _ example_entries) as (m & ns & es' & H1 & H2 & _ & H4).
  - eapply Forall_impl; [exact example_points|]. intros e He. apply He.
  - repeat constructor; rewrite ?elem_of_cons, ?elem_of_nil; cbn; lia.
  - exists m, ns, es'. split; [exact H1|]. split; [exact H2|exact H4].
Defined.
Lemma batch_insert_then_get_witness :
  let ops := [OpPut [1] [10]; OpDelete [2]; OpPut [1] [11]] in
  exists ins m,
    InsertInto (H := memtable_InsertTarget BytewiseComparator) (V := unit)
      (SetSequence (fold_left apply_op ops Clear) 100) (Some MemTable_new) = Some (OK, ins) /\
    mem_ ins = Some m /\ Get BytewiseComparator m (mkLookupKey [1] 200) = Some (Found [11]).
Proof.
  intros ops. assert (bytes_ok [1]) as Hb by (by repeat constructor).
  assert (blen [1] + 8 < 2 ^ 32) as Hl by done.
  destruct (batch_insert_then_get BytewiseComparator _ _ ops 100) as (ins & m & H1 & H2 & H3).
  - split; [done|]. split; [done|]. repeat constructor; done.
  - repeat constructor; done.
  - by vm_compute.
  - exists ins, m. split; [exact H1|]. split; [exact H2|]. clear H1 H2.
    rewrite H3; [reflexivity|exact Hb|exact Hl|by vm_compute].
Defined.
