(* ===== verification/TableGet.v ===== *)
(** * Point lookups through tables

    Models [Saver] and [SaveValue] of [src/pebblesdb/src/db/version_set.h], which read the
    answer to a lookup off the entry a table hands over, and proves that a table built
    from the entries of a memtable answers every lookup as the memtable does. *)

From stdpp Require Import sorting gmap.
From S2P Require Import Prelude Coding Status Comparator DbFormat Bloom Iterator Block BlockProofs.
From S2P Require Import FilterBlock TableFormat TwoLevelIterator Table TableProofs TableReader.
From S2P Require Import TableSpec WriteBatch SkipList MemTable.
From stdpp Require Import list.
#[local] Open Scope Z_scope.

Inductive SaverState := kNotFound | kFound | kDeleted | kCorrupt.

(** The user comparator is a parameter of [SaveValue]. *)
Record Saver := { sv_state : SaverState; sv_user_key : bytes; sv_value : bytes }.

Definition SaveValue (ucmp : Comparator) (s : Saver) (ikey v : bytes) : Saver :=
  match ParseInternalKey ikey with
  | None => {| sv_state := kCorrupt; sv_user_key := sv_user_key s; sv_value := sv_value s |}
  | Some parsed_key =>
      if Compare ucmp (user_key parsed_key) (sv_user_key s) =? 0 then
        let state := if type parsed_key =? kTypeValue then kFound else kDeleted in
        {| sv_state := state; sv_user_key := sv_user_key s;
           sv_value := match state with kFound => v | _ => sv_value s end |}
      else s
  end.

(** The saver holds the answer [r] to a lookup. *)
Definition answers (s : Saver) (r : GetResult) : Prop :=
  match r with
  | Found v => sv_state s = kFound /\ sv_value s = v
  | Deleted _ => sv_state s = kDeleted
  | Unknown => sv_state s = kNotFound
  end.
Definition new_saver (ukey value : bytes) : Saver :=
  {| sv_state := kNotFound; sv_user_key := ukey; sv_value := value |}.

Section Get.
Context (ucmp : Comparator) (Hc : ComparatorOk ucmp bytes_ok) (Hn : KeyNumOk ucmp bytes_ok).

Lemma SaveValue_entry e ukey v0 :
  point_entry e ->
  answers (SaveValue ucmp (new_saver ukey v0) (ikey (to_ientry e)) (snd (to_ientry e)))
    (read_entry ucmp (to_ientry e) ukey).
Proof.
  intros [(Hk & _) Ht]. destruct e as [[[s t] k] v]. cbn [to_ientry fst snd type] in *.
  unfold SaveValue, ikey, read_entry. cbn [fst snd].
  assert (ParseInternalKey (EncodeInternalKey {| user_key := k; sequence := s; type := t |}) =
    Some {| user_key := k; sequence := s; type := t |}) as ->.
  { rewrite ParseInternalKey_encode by done. cbn. by case_bool; [|lia]. }
  cbn [user_key type new_saver sv_user_key]. destruct (_ =? 0); [|done].
  unfold kTypeValue, kTypeDeletion in *. destruct (Z.eqb_spec t 1); [done|].
  by rewrite (proj2 (Z.eqb_eq t 0)) by lia.
Qed.

(** What a user comparator needs so that filters on user keys lose nothing. *)
Definition cmp_identity : Prop :=
  forall a b, bytes_ok a -> bytes_ok b -> Compare ucmp a b = 0 -> a = b.

Lemma iter_entries_sorted es :
  Forall ientry_ok es -> StronglySorted (fun a b => KeyComparator ucmp a b < 0) (ientry_bytes <$> es) ->
  sorted_keys (InternalKeyComparator ucmp) (iter_entries es).
Proof.
  induction 1 as [|e es He Hes IH]; intros Hs; [done|]. cbn [fmap list_fmap iter_entries sorted_keys] in *.
  apply StronglySorted_inv in Hs as [Hs Hlt]. split; [|by apply IH].
  apply Forall_fmap in Hlt. apply Forall_fmap.
  apply Forall_forall. intros e' Hin. cbn.
  rewrite Forall_forall in Hlt. rewrite Forall_forall in Hes.
  change (InternalKey_Compare ucmp (ikey e) (ikey e') < 0).
  rewrite <- compare_entries; [|done|by apply Hes]. by apply (Hlt e').
Qed.

Lemma iter_entries_ok es :
  Forall ientry_ok es -> Forall (fun e => bytes_ok (snd e)) es ->
  StronglySorted (fun a b => KeyComparator ucmp a b < 0) (ientry_bytes <$> es) ->
  table_size (iter_entries es) < 2 ^ 32 ->
  entries_ok (InternalKeyComparator ucmp) (internal_valid bytes_ok) (iter_entries es).
Proof.
  intros Hok Hb Hs Hsz. split; [| |  |done].
  - apply Forall_fmap. eapply Forall_impl; [exact Hok|]. intros e (Hk & Hl & _). cbn. by apply pkey_valid.
  - by apply iter_entries_sorted.
  - apply Forall_fmap. apply Forall_forall. intros e Hin. cbn.
    rewrite Forall_forall in Hok, Hb. split; [apply EncodeInternalKey_ok, (Hok e Hin)|by apply Hb].
Qed.

(** The key a lookup seeks. *)
Lemma internal_key_mk ukey s : internal_key (mkLookupKey ukey s) = EncodeInternalKey (lookup_pkey ukey s).
Proof. unfold internal_key, mkLookupKey. cbn [lk_kstart lk_buf]. by rewrite drop_app_length. Qed.

Section Build.
Context `{HS : Snappy} {HSok : SnappyOk} {C : Type} `{HC : BlockCache C} {HCok : BlockCacheOk C}.
Context (addr block_size restart_interval compression : Z) (policy : option FilterPolicy).
Abbreviation opt := (db_options ucmp addr block_size restart_interval compression policy).
Context (Hopt : options_ok opt) (Hname : forall p, policy = Some p -> name_ok p) (Hid : cmp_identity).

(** What a lookup through a table leaves in the saver. *)
Lemma saver_newest ukey s v0 es' es sv :
  bytes_ok ukey -> blen ukey + 8 < 2 ^ 32 -> 0 <= s <= kMaxSequenceNumber ->
  StronglySorted (fun a b => KeyComparator ucmp a b < 0) (ientry_bytes <$> es') ->
  Forall ientry_ok es' -> es' ≡ₚ to_ientry <$> es -> Forall point_entry es -> NoDup (entry_seq <$> es) ->
  match first_ge (InternalKeyComparator ucmp) (iter_entries es') (EncodeInternalKey (lookup_pkey ukey s)) with
  | Some i => exists y v, iter_entries es' !! i = Some (y, v) /\
      (sv = SaveValue ucmp (new_saver ukey v0) y v \/
       (sv = new_saver ukey v0 /\ ~ same_user_key (EncodeInternalKey (lookup_pkey ukey s)) y))
  | None => sv = new_saver ukey v0
  end ->
  answers sv (get_result (newest ucmp ukey s es)).
Proof.
  intros Hu Hl Hs Hsorted Hok Hp Hes Hnd Hsv.
  pose proof (seek_newest ucmp Hc Hn ukey s Hu Hl Hs es' es Hsorted Hok Hp Hes Hnd) as Hseek.
  rewrite (seek_index_first_ge ucmp (lookup_pkey ukey s) es' (lookup_pkey_ok ukey s Hu Hl Hs) Hok) in Hseek.
  destruct (first_ge _ _ _) as [i|]; [|by rewrite Hseek, Hsv].
  destruct Hseek as (e & Hpe & Hi & <-). destruct Hsv as (y & v & Hyv & Hsv).
  unfold iter_entries in Hyv. rewrite list_lookup_fmap, Hi in Hyv. cbn [fmap option_fmap option_map] in Hyv. injection Hyv as <- <-.
  destruct Hsv as [->|[-> Hne]]; [by apply SaveValue_entry|].
  unfold read_entry. destruct (Z.eqb_spec (Compare ucmp (user_key (fst (to_ientry e))) ukey) 0) as [E|E]; [|done].
  destruct Hne. unfold same_user_key, ikey. rewrite !ExtractUserKey_encode. cbn. symmetry.
  apply Hid; [exact (point_user e Hpe)|exact Hu|exact E].
Qed.

(** A policy that serves any group of at most [n] keys. *)
Definition policy_serves (n : nat) (p : FilterPolicy) : Prop :=
  exists keys_ok filter_of, FilterPolicyOk p keys_ok filter_of /\
    forall g, (length g <= n)%nat -> g = [] \/ keys_ok g.

Lemma policy_serves_finds n kv p : (length kv <= n)%nat -> policy_serves n p -> policy_finds kv p.
Proof.
  intros Hn' (okk & fo & Hok & Hg). exists okk, fo. split; [done|]. intros g Hsub.
  apply sublist_length in Hsub. rewrite length_fmap in Hsub.
  destruct (Hg (map ExtractUserKey g)) as [E|]; [rewrite length_map; lia| |by right].
  left. by destruct g.
Qed.

Lemma kv_size_perm l l' : l ≡ₚ l' -> kv_size l = kv_size l'.
Proof.
  induction 1 as [|[k v] l l' _ IH|[k v] [k' v'] l|l1 l2 l3 _ IH1 _ IH2]; cbn [kv_size]; lia.
Qed.

(** C8: Flushing a memtable keeps its reads: for any point entries with different
    sequence numbers, the entries the memtable's iterator yields build a table file
    without a failed assertion and, once the file is opened, every lookup of a user key at
    a snapshot through the table (with its index, filters, checksums and cache) ends with
    status OK and leaves in the saver exactly what the memtable's [Get] answers: the same
    value, a deletion, or nothing. *)
Theorem flush_preserves_reads (es : list (Z * Z * bytes * bytes))
  (Hes : Forall point_entry es) (Hnd : NoDup (entry_seq <$> es))
  (Hval : Forall (fun e => bytes_ok (snd (to_ientry e))) es)
  (Hsize : table_size (iter_entries (to_ientry <$> es)) < 2 ^ 32)
  (Hpol : forall p, policy = Some p -> policy_serves (length es) p) :
  exists m r, fold_left (add ucmp) es (Some MemTable_new) = Some m /\
  let it := NewIterator m in
  TableBuilder.add_entries (TableBuilder.new opt [])
    (collect (H := MemTableIterator_ops ucmp) (length es) (SeekToFirst (Iterator := MemTableIterator_ops ucmp) it))
    = Some r /\
  (filter_bytes r + 5 < 2 ^ 32 -> exists r', TableBuilder.Finish r = Some (OK, r') /\
     forall cache : option C, fresh_for cache -> exists t cache' inv,
       Table.Open opt cache (TableBuilder.file r') (TableBuilder.FileSize r') = (OK, Some t, cache') /\
       inv cache' /\
       forall file_level verify fill cache ukey s v0,
         inv cache -> bytes_ok ukey -> blen ukey + 8 < 2 ^ 32 -> 0 <= s <= kMaxSequenceNumber ->
         exists sv cache'' res,
           Table.InternalGet file_level t verify fill cache (internal_key (mkLookupKey ukey s))
             (new_saver ukey v0) (SaveValue ucmp) = (OK, sv, cache'') /\
           inv cache'' /\ Get ucmp m (mkLookupKey ukey s) = Some res /\ answers sv res).
Proof.
  destruct (fold_add_holds ucmp Hc Hn es) as (m & ns & es' & E & Hm & Hp); [|done|].
  { eapply Forall_impl; [exact Hes|]. intros e He. apply He. }
  pose proof (holds_sorted _ _ _ _ Hm) as Hs. pose proof (proj2 Hm) as Hok.
  assert (length es' = length es) as Hlen by (rewrite Hp; apply length_fmap).
  assert (collect (H := MemTableIterator_ops ucmp) (length es)
    (SeekToFirst (Iterator := MemTableIterator_ops ucmp) (NewIterator m)) = iter_entries es') as Hcol.
  { rewrite <- Hlen, <- (length_fmap (fun e => (ikey e, snd e)) es').
    apply (@collect_all _ (MemTableIterator_ops ucmp) _ _ _ _ (MemTableIterator_ok ucmp Hc Hn m ns es' Hm) _ None).
    done. }
  assert (entries_ok (InternalKeyComparator ucmp) (internal_valid bytes_ok) (iter_entries es')) as He.
  { apply iter_entries_ok; [done| |done|].
    - rewrite Hp. by apply Forall_fmap.
    - unfold table_size, blen in *. rewrite (kv_size_perm _ (iter_entries (to_ientry <$> es))).
      + unfold iter_entries in *. rewrite length_fmap in *. by rewrite Hlen, length_fmap in *.
      + by apply fmap_Permutation. }
  exists m. cbv zeta. rewrite Hcol.
  pose proof (InternalKeyComparator_ok ucmp bytes_ok (fun k H => H)) as Hic.
  destruct (lookup_built (Hc := Hic) (Hshort := InternalKey_ShortKeys ucmp bytes_ok) opt Hopt (internal_valid bytes_ok) (fun x Hx => proj1 Hx) (iter_entries es') He
    ltac:(intros p Hp'; destruct policy as [q|]; [injection Hp' as <-; exact (Hname q eq_refl)|done])
    same_user_key (internal_no_gap ucmp bytes_ok Hc _ _ _ _ _)) as (r & HA & Hrest).
  { apply internal_filter_finds. intros p Hp'. eapply policy_serves_finds; [|by apply Hpol].
    unfold iter_entries. rewrite length_fmap. lia. }
  exists r. split; [done|]. split; [done|]. intros Hf.
  destruct (Hrest Hf) as (r' & HF & _ & _ & HO). exists r'. split; [done|]. intros cache Hfresh.
  destruct (HO cache Hfresh) as (t & cache' & inv & HOpen & Hinv & Hget).
  exists t, cache', inv. split; [done|]. split; [done|]. intros fl verify fill c0 ukey s v0 Hi Hu Hl Hsn.
  destruct (Hget Saver fl verify fill c0 (internal_key (mkLookupKey ukey s)) (new_saver ukey v0)
    (SaveValue ucmp) Hi) as (sv & c'' & HG & Hi'' & Hsv).
  { rewrite internal_key_mk. by apply pkey_valid, lookup_pkey_ok. }
  exists sv, c'', (get_result (newest ucmp ukey s es)). split_and!; [done|done| |].
  - exact (Get_newest ucmp Hc Hn ukey s Hu Hl Hsn es' es Hs Hok Hp Hes Hnd m ns Hm).
  - rewrite internal_key_mk in Hsv. by eapply saver_newest.
Qed.
End Build.
End Get.

(** ** An example *)

Lemma Bytewise_identity : cmp_identity BytewiseComparator.
Proof. intros a b _ _. apply Slice_compare_eq. Qed.
Lemma bloom_serves n bits_per_key :
  Z.of_nat n * u64 bits_per_key <= 2 ^ 64 - 8 -> policy_serves n (BloomPolicy (mkBloomFilterPolicy bits_per_key)).
Proof.
  intros Hsz. set (b := mkBloomFilterPolicy bits_per_key).
  exists (bloom_keys_ok b), (bloom_array b).
  split; [apply BloomPolicy_ok, mkBloomFilterPolicy_ok|]. intros g Hg. right.
  unfold bloom_keys_ok, b, blen. cbn [bits_per_key_ mkBloomFilterPolicy].
  pose proof (u64_range bits_per_key) as [H0 _].
  apply Nat2Z.inj_le, (Z.mul_le_mono_nonneg_r _ _ (u64 bits_per_key)) in Hg; [lia|done].
Qed.

Definition flush_options : Options :=
  db_options BytewiseComparator 0 40 2 kNoCompression (Some (BloomPolicy (mkBloomFilterPolicy 10))).
Lemma flush_filter m r :
  fold_left (add BytewiseComparator) example_entries (Some MemTable_new) = Some m ->
  TableBuilder.add_entries (H := mem_WritableFile) (H0 := no_snappy) (TableBuilder.new flush_options [])
    (collect (H := MemTableIterator_ops BytewiseComparator) 3
       (SeekToFirst (Iterator := MemTableIterator_ops BytewiseComparator) (NewIterator m))) = Some r ->
  filter_bytes (HS := no_snappy) r + 5 < 2 ^ 32.
Proof.
  intros Em E. change (filter_bytes (HS := no_snappy) r) with
    (from_option (filter_bytes (HS := no_snappy)) 0 (Some r)). rewrite <- E.
  assert (m = from_option id MemTable_new (Some m)) as -> by done. rewrite <- Em. by vm_compute.
Qed.

Lemma flush_preserves_reads_witness :
  exists m r r' t cache' sv cache'',
    fold_left (add BytewiseComparator) example_entries (Some MemTable_new) = Some m /\
    TableBuilder.add_entries (H := mem_WritableFile) (H0 := no_snappy) (TableBuilder.new flush_options [])
      (collect (H := MemTableIterator_ops BytewiseComparator) 3
         (SeekToFirst (Iterator := MemTableIterator_ops BytewiseComparator) (NewIterator m))) = Some r /\
    TableBuilder.Finish (H0 := no_snappy) r = Some (OK, r') /\
    Table.Open (H0 := no_snappy) flush_options (Some empty_cache) (TableBuilder.file r') (TableBuilder.FileSize r')
      = (OK, Some t, cache') /\
    Table.InternalGet (H0 := no_snappy) true t true true cache' (internal_key (mkLookupKey [1; 2] 8))
      (new_saver [1; 2] []) (SaveValue BytewiseComparator) = (OK, sv, cache'') /\
    answers sv (Found [50]).
Proof.
  destruct (@flush_preserves_reads BytewiseComparator _ _ no_snappy no_snappy_ok MapCache _ _ 0 40 2 kNoCompression
    (Some (BloomPolicy (mkBloomFilterPolicy 10))) ltac:(split; [done|by left])
    ltac:(intros p [= <-]; split; [repeat constructor; done|by vm_compute]) Bytewise_identity example_entries
    example_points
    ltac:(repeat constructor; rewrite ?elem_of_cons, ?elem_of_nil; cbn; lia)
    ltac:(repeat constructor; done) ltac:(by vm_compute)
    ltac:(intros p [= <-]; by apply bloom_serves)) as (m & r & Em & HA & H).
  destruct (H (flush_filter m r Em HA)) as (r' & HF & HO).
  destruct (HO (Some empty_cache)) as (t & cache' & inv & HOp & Hi & Hg); [by intros c0 id c1 off [= <-] [= <- <-]|].
  destruct (Hg true true true cache' [1; 2] 8 [] Hi) as (sv & c'' & res & HG & _ & Hm & Ha).
  { repeat constructor; done. } { done. } { split; by vm_compute. }
  exists m, r, r', t, cache', sv, c''. split; [exact Em|]. split; [exact HA|]. split; [exact HF|].
  split; [exact HOp|]. split; [exact HG|].
  assert (m = from_option id MemTable_new (Some m)) as Hm' by done. rewrite <- Em in Hm'. rewrite Hm' in Hm.
  vm_compute in Hm. injection Hm as <-. exact Ha.
Defined.
