(* ===== verification/Cache.v ===== *)
(** * util/cache: the sharded LRU cache

    Models [src/pebblesdb/src/util/cache.cc] at the level of its pointers: the handles of a
    shard live in a store, are linked in a circular list in the order of their last use and
    in the chains of a hash table, and are counted.  Reading a freed handle, a null pointer
    or a failed [assert] is the outcome [None].  The calls of the values' deleters are
    recorded in order.  The mutex of a shard makes its operations atomic; they are modelled
    one at a time. *)

From stdpp Require Import gmap.
From S2P Require Import Prelude Coding Hash.

(** Addresses of the handles of a shard; [&lru_] is [0], the null pointer is no address. *)
Abbreviation ptr := nat (only parsing).
Definition lru_addr : ptr := 0%nat.

Section Cache.
(** The values ([void*]) and the deleters (function pointers) the clients pass, and the
    null pointers of the two types. *)
Context {V D : Type} (null_value : V) (null_deleter : D).

Record LRUHandle := {
  value : V;
  deleter : D;
  next_hash : option ptr;
  next : ptr;
  prev : ptr;
  charge : Z;
  key_length : Z;
  refs : Z;
  hash : Z;
  key_data : bytes;
}.

Abbreviation Store := (gmap ptr LRUHandle) (only parsing).

Definition set_next_hash (p : option ptr) (h : LRUHandle) : LRUHandle :=
  {| value := value h; deleter := deleter h; next_hash := p; next := next h; prev := prev h;
     charge := charge h; key_length := key_length h; refs := refs h; hash := hash h;
     key_data := key_data h |}.
Definition set_next (p : ptr) (h : LRUHandle) : LRUHandle :=
  {| value := value h; deleter := deleter h; next_hash := next_hash h; next := p; prev := prev h;
     charge := charge h; key_length := key_length h; refs := refs h; hash := hash h;
     key_data := key_data h |}.
Definition set_prev (p : ptr) (h : LRUHandle) : LRUHandle :=
  {| value := value h; deleter := deleter h; next_hash := next_hash h; next := next h; prev := p;
     charge := charge h; key_length := key_length h; refs := refs h; hash := hash h;
     key_data := key_data h |}.
Definition set_refs (n : Z) (h : LRUHandle) : LRUHandle :=
  {| value := value h; deleter := deleter h; next_hash := next_hash h; next := next h;
     prev := prev h; charge := charge h; key_length := key_length h; refs := n; hash := hash h;
     key_data := key_data h |}.

(** An assignment through a pointer to a handle. *)
Definition store (m : Store) (e : ptr) (f : LRUHandle -> LRUHandle) : option Store :=
  match m !! e with
  | Some h => Some (<[e := f h]> m)
  | None => None
  end.

(** [LRUHandle::key]: the dummy handle, which is linked to itself, holds no key here; the
    code would read a [Slice] through its [value]. *)
Definition handle_key (e : ptr) (h : LRUHandle) : option bytes :=
  if decide (next h = e) then None
  else Some (take (Z.to_nat (key_length h)) (key_data h)).

(** ** The hash table *)

Record HandleTable := { length_ : Z; elems_ : Z; list_ : list (option ptr) }.

(** What an [LRUHandle**] points to: a bucket or the [next_hash] of a handle. *)
Inductive Slot := Bucket (i : nat) | NextHash (e : ptr).

Definition read_slot (m : Store) (l : list (option ptr)) (s : Slot) : option (option ptr) :=
  match s with
  | Bucket i => l !! i
  | NextHash e => next_hash <$> m !! e
  end.
Definition write_slot (m : Store) (l : list (option ptr)) (s : Slot) (p : option ptr)
    : option (Store * list (option ptr)) :=
  match s with
  | Bucket i => match l !! i with Some _ => Some (m, <[i := p]> l) | None => None end
  | NextHash e => match store m e (set_next_hash p) with Some m => Some (m, l) | None => None end
  end.

(** The loop that follows a chain to the slot that points to a match, or to its end. *)
Fixpoint FindPointer_loop (fuel : nat) (m : Store) (l : list (option ptr)) (k : bytes) (hash_ : Z)
    (s : Slot) : option Slot :=
  match fuel with
  | O => None
  | S fuel =>
      p ← read_slot m l s;
      match p with
      | None => Some s
      | Some e =>
          h ← m !! e;
          if negb (hash h =? hash_) then FindPointer_loop fuel m l k hash_ (NextHash e)
          else
            k' ← handle_key e h;
            if decide (k = k') then Some s else FindPointer_loop fuel m l k hash_ (NextHash e)
      end
  end.

(** A chain visits a handle once, so the handles bound its length. *)
Definition FindPointer (m : Store) (t : HandleTable) (k : bytes) (hash_ : Z) : option Slot :=
  FindPointer_loop (S (size m)) m (list_ t) k hash_
    (Bucket (Z.to_nat (Z.land hash_ (u32 (length_ t - 1))))).

Definition Table_Lookup (m : Store) (t : HandleTable) (k : bytes) (hash_ : Z)
    : option (option ptr) :=
  s ← FindPointer m t k hash_; read_slot m (list_ t) s.

(** [while (new_length < elems_) new_length *= 2;]: above [2^31] elements the product wraps
    to zero and the loop does not end. *)
Fixpoint grow (fuel : nat) (new_length elems : Z) : option Z :=
  match fuel with
  | O => None
  | S fuel => if new_length <? elems then grow fuel (u32 (new_length * 2)) elems
              else Some new_length
  end.

(** The inner loop of [Resize]: moves the chain from [h] to the new buckets. *)
Fixpoint move_chain (fuel : nat) (m : Store) (new_list : list (option ptr)) (new_length count : Z)
    (h : option ptr) : option (Store * list (option ptr) * Z) :=
  match fuel with
  | O => None
  | S fuel =>
      match h with
      | None => Some (m, new_list, count)
      | Some e =>
          hh ← m !! e;
          let next := next_hash hh in
          let i := Z.to_nat (Z.land (hash hh) (u32 (new_length - 1))) in
          p ← new_list !! i;
          m ← store m e (set_next_hash p);
          move_chain fuel m (<[i := Some e]> new_list) new_length (u32 (count + 1)) next
      end
  end.

(** The outer loop, over the buckets of the old array. *)
Fixpoint move_buckets (m : Store) (old new_list : list (option ptr)) (new_length count : Z)
    : option (Store * list (option ptr) * Z) :=
  match old with
  | [] => Some (m, new_list, count)
  | h :: old =>
      r ← move_chain (S (size m)) m new_list new_length count h;
      let '(m, new_list, count) := r in
      move_buckets m old new_list new_length count
  end.

Definition Resize (m : Store) (t : HandleTable) : option (Store * HandleTable) :=
  new_length ← grow 31 4 (elems_ t);
  r ← move_buckets m (list_ t) (replicate (Z.to_nat new_length) None) new_length 0;
  let '(m, new_list, count) := r in
  if elems_ t =? count
  then Some (m, {| length_ := new_length; elems_ := elems_ t; list_ := new_list |})
  else None.

Definition Table_Insert (m : Store) (t : HandleTable) (e : ptr)
    : option (option ptr * Store * HandleTable) :=
  h ← m !! e;
  k ← handle_key e h;
  s ← FindPointer m t k (hash h);
  old ← read_slot m (list_ t) s;
  nh ← match old with
       | None => Some None
       | Some o => next_hash <$> m !! o
       end;
  m ← store m e (set_next_hash nh);
  r ← write_slot m (list_ t) s (Some e);
  let '(m, l) := r in
  match old with
  | Some _ => Some (old, m, {| length_ := length_ t; elems_ := elems_ t; list_ := l |})
  | None =>
      let t := {| length_ := length_ t; elems_ := u32 (elems_ t + 1); list_ := l |} in
      if length_ t <? elems_ t then
        r ← Resize m t;
        let '(m, t) := r in Some (old, m, t)
      else Some (old, m, t)
  end.

Definition Table_Remove (m : Store) (t : HandleTable) (k : bytes) (hash_ : Z)
    : option (option ptr * Store * HandleTable) :=
  s ← FindPointer m t k hash_;
  result ← read_slot m (list_ t) s;
  match result with
  | None => Some (None, m, t)
  | Some e =>
      h ← m !! e;
      r ← write_slot m (list_ t) s (next_hash h);
      let '(m, l) := r in
      Some (result, m, {| length_ := length_ t; elems_ := u32 (elems_ t - 1); list_ := l |})
  end.

(** ** A shard *)

Record LRUCache := {
  capacity_ : Z;
  usage_ : Z;
  handles : Store;  (** the handles that are allocated, [lru_] among them *)
  table_ : HandleTable;
  deleted : list (D * bytes * V);  (** the calls of deleters so far *)
}.

Definition set_handles (c : LRUCache) (m : Store) : LRUCache :=
  {| capacity_ := capacity_ c; usage_ := usage_ c; handles := m; table_ := table_ c;
     deleted := deleted c |}.
Definition set_table (c : LRUCache) (m : Store) (t : HandleTable) : LRUCache :=
  {| capacity_ := capacity_ c; usage_ := usage_ c; handles := m; table_ := t;
     deleted := deleted c |}.

(** [HandleTable()] resizes from no buckets to four. *)
Definition HandleTable_new (m : Store) : option (Store * HandleTable) :=
  Resize m {| length_ := 0; elems_ := 0; list_ := [] |}.

Definition LRUCache_new : option LRUCache :=
  let lru_ := {| value := null_value; deleter := null_deleter; next_hash := None;
                 next := lru_addr; prev := lru_addr; charge := 0; key_length := 0; refs := 0;
                 hash := 0; key_data := [] |} in
  r ← HandleTable_new {[ lru_addr := lru_ ]};
  let '(m, t) := r in
  Some {| capacity_ := 0; usage_ := 0; handles := m; table_ := t; deleted := [] |}.

Definition SetCapacity (c : LRUCache) (capacity : Z) : LRUCache :=
  {| capacity_ := capacity; usage_ := usage_ c; handles := handles c; table_ := table_ c;
     deleted := deleted c |}.

Definition LRU_Remove (m : Store) (e : ptr) : option Store :=
  h ← m !! e;
  m ← store m (next h) (set_prev (prev h));
  h ← m !! e;
  store m (prev h) (set_next (next h)).

Definition LRU_Append (m : Store) (e : ptr) : option Store :=
  m ← store m e (set_next lru_addr);
  lru_ ← m !! lru_addr;
  m ← store m e (set_prev (prev lru_));
  h ← m !! e;
  m ← store m (prev h) (set_next e);
  h ← m !! e;
  store m (next h) (set_prev e).

Definition Unref (c : LRUCache) (e : ptr) : option LRUCache :=
  h ← handles c !! e;
  if 0 <? refs h then
    let h := set_refs (refs h - 1) h in
    let m := <[e := h]> (handles c) in
    if refs h <=? 0 then
      k ← handle_key e h;
      Some {| capacity_ := capacity_ c; usage_ := u64 (usage_ c - charge h);
              handles := delete e m; table_ := table_ c;
              deleted := deleted c ++ [(deleter h, k, value h)] |}
    else Some (set_handles c m)
  else None.

Definition LRUCache_Lookup (c : LRUCache) (k : bytes) (hash_ : Z)
    : option (option ptr * LRUCache) :=
  r ← Table_Lookup (handles c) (table_ c) k hash_;
  match r with
  | None => Some (None, c)
  | Some e =>
      h ← handles c !! e;
      m ← store (handles c) e (set_refs (u32 (refs h + 1)));
      m ← LRU_Remove m e;
      m ← LRU_Append m e;
      Some (Some e, set_handles c m)
  end.

Definition LRUCache_Release (c : LRUCache) (handle : ptr) : option LRUCache := Unref c handle.

(** [while (usage_ > capacity_ && lru_.next != &lru_)]: one handle leaves the list per
    round. *)
Fixpoint evict_loop (fuel : nat) (c : LRUCache) : option LRUCache :=
  match fuel with
  | O => None
  | S fuel =>
      lru_ ← handles c !! lru_addr;
      if (capacity_ c <? usage_ c) && negb (Nat.eqb (next lru_) lru_addr) then
        let old := next lru_ in
        m ← LRU_Remove (handles c) old;
        h ← m !! old;
        k ← handle_key old h;
        r ← Table_Remove m (table_ c) k (hash h);
        let '(_, m, t) := r in
        c ← Unref (set_table c m t) old;
        evict_loop fuel c
      else Some c
  end.

(** [malloc] returns an address that is not in use; the links of the new handle are set
    before they are read. *)
Definition LRUCache_Insert (c : LRUCache) (k : bytes) (hash_ : Z) (v : V) (charge_ : Z) (del : D)
    : option (ptr * LRUCache) :=
  let e := fresh (dom (handles c)) in
  let h := {| value := v; deleter := del; next_hash := None; next := lru_addr; prev := lru_addr;
              charge := charge_; key_length := blen k; refs := 2; hash := hash_;
              key_data := k |} in
  m ← LRU_Append (<[e := h]> (handles c)) e;
  let usage := u64 (usage_ c + charge_) in
  r ← Table_Insert m (table_ c) e;
  let '(old, m, t) := r in
  let c := {| capacity_ := capacity_ c; usage_ := usage; handles := m; table_ := t;
              deleted := deleted c |} in
  c ← match old with
      | None => Some c
      | Some o => m ← LRU_Remove (handles c) o; Unref (set_handles c m) o
      end;
  c ← evict_loop (S (size (handles c))) c;
  Some (e, c).

Definition LRUCache_Erase (c : LRUCache) (k : bytes) (hash_ : Z) : option LRUCache :=
  r ← Table_Remove (handles c) (table_ c) k hash_;
  let '(e, m, t) := r in
  let c := set_table c m t in
  match e with
  | None => Some c
  | Some e => m ← LRU_Remove m e; Unref (set_handles c m) e
  end.

(** [~LRUCache]: every handle must have been released. *)
Fixpoint destroy_loop (fuel : nat) (c : LRUCache) (e : ptr) : option LRUCache :=
  match fuel with
  | O => None
  | S fuel =>
      if Nat.eqb e lru_addr then Some c
      else
        h ← handles c !! e;
        let next := next h in
        if refs h =? 1 then c ← Unref c e; destroy_loop fuel c next else None
  end.
Definition LRUCache_destroy (c : LRUCache) : option LRUCache :=
  lru_ ← handles c !! lru_addr;
  destroy_loop (S (size (handles c))) c (next lru_).

(** ** The sharded cache *)

Definition kNumShardBits : Z := 4.
Definition kNumShards : Z := Z.shiftl 1 kNumShardBits.

Record ShardedLRUCache := { shard_ : list LRUCache; last_id_ : Z }.

(** A [Cache::Handle*]: the shards take their memory from disjoint ranges of addresses. *)
Definition CacheHandle : Type := nat * ptr.

Definition HashSlice (s : bytes) : Z := Hash s 0.
Definition Shard (hash_ : Z) : Z := Z.shiftr hash_ (32 - kNumShardBits).

Definition NewLRUCache (capacity : Z) : option ShardedLRUCache :=
  let per_shard := u64 (capacity + (kNumShards - 1)) / kNumShards in
  c ← LRUCache_new;
  Some {| shard_ := replicate (Z.to_nat kNumShards) (SetCapacity c per_shard); last_id_ := 0 |}.

(** Runs an operation of shard [i]. *)
Definition on_shard {A} (c : ShardedLRUCache) (i : Z) (f : LRUCache -> option (A * LRUCache))
    : option (A * ShardedLRUCache) :=
  s ← shard_ c !! Z.to_nat i;
  r ← f s;
  let '(a, s) := r in
  Some (a, {| shard_ := <[Z.to_nat i := s]> (shard_ c); last_id_ := last_id_ c |}).

Definition Cache_Insert (c : ShardedLRUCache) (k : bytes) (v : V) (charge_ : Z) (del : D)
    : option (CacheHandle * ShardedLRUCache) :=
  let hash := HashSlice k in
  on_shard c (Shard hash) (fun s =>
    r ← LRUCache_Insert s k hash v charge_ del;
    let '(e, s) := r in Some ((Z.to_nat (Shard hash), e), s)).
Definition Cache_Lookup (c : ShardedLRUCache) (k : bytes)
    : option (option CacheHandle * ShardedLRUCache) :=
  let hash := HashSlice k in
  on_shard c (Shard hash) (fun s =>
    r ← LRUCache_Lookup s k hash;
    let '(e, s) := r in Some (option_map (pair (Z.to_nat (Shard hash))) e, s)).

(** The handle a pointer of a client points to. *)
Definition handle_at (c : ShardedLRUCache) (p : CacheHandle) : option LRUHandle :=
  s ← shard_ c !! fst p; handles s !! snd p.

Definition Cache_Release (c : ShardedLRUCache) (p : CacheHandle) : option ShardedLRUCache :=
  h ← handle_at c p;
  if decide (Z.to_nat (Shard (hash h)) = fst p) then
    r ← on_shard c (Shard (hash h)) (fun s => s ← LRUCache_Release s (snd p); Some (tt, s));
    Some (snd r)
  else None.
Definition Cache_Erase (c : ShardedLRUCache) (k : bytes) : option ShardedLRUCache :=
  let hash := HashSlice k in
  r ← on_shard c (Shard hash) (fun s => s ← LRUCache_Erase s k hash; Some (tt, s));
  Some (snd r).
Definition Cache_Value (c : ShardedLRUCache) (p : CacheHandle) : option V :=
  value <$> handle_at c p.
Definition Cache_NewId (c : ShardedLRUCache) : Z * ShardedLRUCache :=
  let id := u64 (last_id_ c + 1) in (id, {| shard_ := shard_ c; last_id_ := id |}).

(** [~ShardedLRUCache]: the shards are destroyed, the last one first. *)
Definition Cache_destroy (c : ShardedLRUCache) : option (list LRUCache) :=
  mapM LRUCache_destroy (reverse (shard_ c)).
End Cache.
Arguments LRUHandle : clear implicits.
Arguments LRUCache : clear implicits.
Arguments ShardedLRUCache : clear implicits.
