(* ===== verification/CacheProofs.v ===== *)
(** * util/cache: the shape of a shard's store

    The circular list of a shard, the chains of its hash table, and what the operations on
    them do: [LRU_Remove], [LRU_Append] and [FindPointer], [Insert], [Remove] and [Resize] of
    the table.  The shard's operations are in LruCache.v. *)

From S2P Require Import Prelude Coding Hash Cache.
From stdpp Require Import list gmap.
#[local] Open Scope Z_scope.

(** ** Stores compared up to some of their fields *)

Section Same.
Context {A B C : Type}.

Lemma same_proj (f : A -> B) (g : A -> C) (m m' : gmap nat A) e :
  f <$> m = f <$> m' -> (forall h h', f h = f h' -> g h = g h') -> g <$> m !! e = g <$> m' !! e.
Proof.
  intros E Hg. pose proof (f_equal (fun x => x !! e) E) as Ee. cbn in Ee. rewrite !lookup_fmap in Ee.
  destruct (m !! e), (m' !! e); cbn in *; try done. f_equal. injection Ee as Ee. by apply Hg.
Qed.
Lemma same_lookup (f : A -> B) (m m' : gmap nat A) e h :
  f <$> m = f <$> m' -> m !! e = Some h -> exists h', m' !! e = Some h' /\ f h' = f h.
Proof.
  intros E He. pose proof (f_equal (fun x => x !! e) E) as Ee. cbn in Ee.
  rewrite !lookup_fmap, He in Ee. destruct (m' !! e) as [h'|]; [|done]. injection Ee as Ee. by exists h'.
Qed.
Lemma same_dom (f : A -> B) (m m' : gmap nat A) : f <$> m = f <$> m' -> dom m = dom m'.
Proof. intros E. apply (f_equal dom) in E. by rewrite !dom_fmap_L in E. Qed.
Lemma same_insert (f : A -> B) (m : gmap nat A) e h h' :
  m !! e = Some h -> f h' = f h -> f <$> <[e := h']> m = f <$> m.
Proof.
  intros He Hf. rewrite fmap_insert, Hf. apply insert_id. by rewrite lookup_fmap, He.
Qed.
Lemma same_coarse (f : A -> B) (g : A -> C) (m m' : gmap nat A) :
  f <$> m = f <$> m' -> (forall h h', f h = f h' -> g h = g h') -> g <$> m = g <$> m'.
Proof. intros E Hg. apply map_eq. intros i. rewrite !lookup_fmap. by eapply same_proj. Qed.
End Same.

Lemma length_le_size {A} (m : gmap nat A) (l : list nat) :
  NoDup l -> (forall e, e ∈ l -> is_Some (m !! e)) -> (length l <= size m)%nat.
Proof.
  intros Hn Hl. rewrite <- size_dom, <- (size_list_to_set (C := gset nat) l Hn).
  apply subseteq_size. intros e He%elem_of_list_to_set. apply elem_of_dom. by apply Hl.
Qed.

Lemma in_concat_lookup {A} (ls : list (list A)) i a x : ls !! i = Some a -> x ∈ a -> x ∈ concat ls.
Proof.
  revert i. induction ls as [|l ls IH]; intros i Hi Hx; [done|]. cbn. apply elem_of_app.
  destruct i as [|i]; [injection Hi as ->; by left|right; by apply (IH i)].
Qed.
(** Lists in a list that has no duplicates are disjoint. *)
Lemma nodup_concat_disj {A} (ls : list (list A)) : forall i j a b x,
  NoDup (concat ls) -> ls !! i = Some a -> ls !! j = Some b -> i <> j -> x ∈ a -> x ∉ b.
Proof.
  induction ls as [|l ls IH]; intros i j a b x Hn Hi Hj Hij Hx Hb; [done|].
  cbn in Hn. apply NoDup_app in Hn as (H1 & H12 & H2).
  destruct i as [|i], j as [|j]; cbn in Hi, Hj; try congruence.
  - injection Hi as ->. apply (H12 x Hx). by eapply in_concat_lookup.
  - injection Hj as ->. apply (H12 x Hb). by eapply in_concat_lookup.
  - apply (IH i j a b x); auto.
Qed.
(** What one of the lists contributes. *)
Lemma concat_split {A} (ls : list (list A)) i a :
  ls !! i = Some a -> exists c, concat ls ≡ₚ a ++ c /\ forall b, concat (<[i := b]> ls) ≡ₚ b ++ c.
Proof.
  intros Hi. exists (concat (take i ls) ++ concat (drop (S i) ls)).
  assert (Hl : (i < length ls)%nat) by by eapply lookup_lt_Some. split.
  - rewrite <- (take_drop_middle ls i a Hi) at 1. rewrite concat_app. cbn.
    apply Permutation_app_swap_app.
  - intros b. rewrite insert_take_drop by done. rewrite concat_app. cbn.
    apply Permutation_app_swap_app.
Qed.

Lemma nodup_concat_lookup {A} (ls : list (list A)) i a :
  NoDup (concat ls) -> ls !! i = Some a -> NoDup a.
Proof.
  intros Hn Hi. destruct (concat_split ls i a Hi) as (c & Hc & _). rewrite Hc in Hn.
  by apply NoDup_app in Hn as [? _].
Qed.

Section Shape.
Context {V D : Type}.
Implicit Types (m : gmap nat (LRUHandle V D)) (h : LRUHandle V D) (e x y : nat) (o l : list nat).

Definition erase_hash h := set_next_hash None h.
Definition erase_links h := set_next lru_addr (set_prev lru_addr h).

Lemma store_ok m e f h : m !! e = Some h -> store m e f = Some (<[e := f h]> m).
Proof. intros E. unfold store. by rewrite E. Qed.

(** ** The circular list *)

Definition edge m x y : Prop := next <$> m !! x = Some y /\ prev <$> m !! y = Some x.

Fixpoint linked m x l y : Prop :=
  match l with
  | [] => edge m x y
  | z :: l => edge m x z /\ linked m z l y
  end.

Lemma linked_app m x l1 z l2 y : linked m x (l1 ++ z :: l2) y <-> linked m x l1 z /\ linked m z l2 y.
Proof. revert x. induction l1 as [|a l1 IH]; intros x; cbn; [done|]. rewrite IH. tauto. Qed.

Lemma edge_frame m m' x y :
  next <$> m' !! x = next <$> m !! x -> prev <$> m' !! y = prev <$> m !! y -> edge m x y -> edge m' x y.
Proof. unfold edge. by intros -> ->. Qed.

(** A segment only depends on the forward links of its start and inside, and on the backward
    links inside and at its end. *)
Lemma linked_frame m m' x l y :
  (forall z, z ∈ x :: l -> next <$> m' !! z = next <$> m !! z) ->
  (forall z, z ∈ l ++ [y] -> prev <$> m' !! z = prev <$> m !! z) ->
  linked m x l y -> linked m' x l y.
Proof.
  revert x. induction l as [|a l IH]; intros x Hn Hp; cbn.
  - apply edge_frame; [apply Hn|apply Hp]; set_solver.
  - intros [He Hl]. split.
    + revert He. apply edge_frame; [apply Hn|apply Hp]; set_solver.
    + apply IH; [| |done]; intros z Hz; [apply Hn|apply Hp]; set_solver.
Qed.

Lemma linked_same {B} (f : LRUHandle V D -> B) m m' x l y :
  f <$> m = f <$> m' -> (forall h h', f h = f h' -> next h = next h' /\ prev h = prev h') ->
  linked m x l y -> linked m' x l y.
Proof.
  intros E Hf. apply linked_frame; intros z _; symmetry; apply (same_proj _ _ _ _ _ E);
    intros; by apply Hf.
Qed.

(** Every address of a segment is allocated. *)
Lemma linked_alloc m x l y z : linked m x l y -> z ∈ x :: l ++ [y] -> is_Some (m !! z).
Proof.
  revert x. induction l as [|a l IH]; intros x; cbn.
  - intros [Hn Hp] [->|[->|[]%elem_of_nil]%elem_of_cons]%elem_of_cons.
    + by destruct (m !! x).
    + by destruct (m !! y).
  - intros [[Hn _] Hl] [->|Hz]%elem_of_cons; [by destruct (m !! x)|by eapply IH].
Qed.

(** Where a segment starts and how it ends. *)
Lemma linked_first m x l y : linked m x l y -> next <$> m !! x = Some (default y (head l)).
Proof. destruct l; cbn; [by intros []|by intros [[] _]]. Qed.
Lemma linked_last m x l y : linked m x l y -> prev <$> m !! y = Some (default x (last l)).
Proof.
  destruct l as [|z l _] using rev_ind; [by intros []|]. rewrite last_snoc.
  intros [_ [_ H]]%linked_app. done.
Qed.

Definition ring m o : Prop := linked m lru_addr o lru_addr /\ NoDup (lru_addr :: o).

Lemma ring_step m x l y e h :
  linked m x l y -> NoDup (x :: l) -> y ∉ l -> e ∈ l -> m !! e = Some h -> next h <> e.
Proof.
  revert x. induction l as [|a l IH]; intros x Hl Hn Hy He Hm; [by apply elem_of_nil in He|].
  destruct Hl as [Hxa Hl]. apply NoDup_cons in Hn as [Hx Hn].
  apply elem_of_cons in He as [->|He]; [|apply (IH a); set_solver].
  pose proof (linked_first _ _ _ _ Hl) as Hf. rewrite Hm in Hf. injection Hf as ->.
  destruct l as [|b l]; cbn; [set_solver|]. apply NoDup_cons in Hn as [Ha _]. set_solver.
Qed.
Lemma ring_no_self m o e h : ring m o -> e ∈ o -> m !! e = Some h -> next h <> e.
Proof.
  intros [Hl Hn] He. pose proof Hn as [? _]%NoDup_cons. by apply (ring_step m lru_addr o lru_addr).
Qed.
Lemma ring_alloc m o e : ring m o -> e = lru_addr \/ e ∈ o -> is_Some (m !! e).
Proof. intros [Hl _] He. eapply linked_alloc; [done|]. set_solver. Qed.

Lemma ring_same {B} (f : LRUHandle V D -> B) m m' o :
  f <$> m = f <$> m' -> (forall h h', f h = f h' -> next h = next h' /\ prev h = prev h') ->
  ring m o -> ring m' o.
Proof. intros E Hf [Hl Hn]. split; [|done]. by eapply linked_same. Qed.

Lemma ring_frame m m' o : (forall z, z ∈ lru_addr :: o -> m' !! z = m !! z) -> ring m o -> ring m' o.
Proof.
  intros Hf [Hl Hn]. split; [|done]. revert Hl. apply linked_frame; intros z Hz; rewrite Hf; set_solver.
Qed.

(** A segment whose last forward link is redirected. *)
Lemma linked_retarget m m' a l b b' :
  linked m a l b -> NoDup (a :: l) ->
  (forall z, z ∈ a :: l -> z <> default a (last l) -> next <$> m' !! z = next <$> m !! z) ->
  (forall z, z ∈ l -> prev <$> m' !! z = prev <$> m !! z) ->
  edge m' (default a (last l)) b' -> linked m' a l b'.
Proof.
  revert a. induction l as [|c l IH]; intros a; [done|]. rewrite last_cons.
  intros [He Hl] [Ha Hn]%NoDup_cons Hnx Hpv HE.
  assert (default a (match last l with Some y => Some y | None => Some c end) = default c (last l)) as Hd
    by by destruct (last l).
  rewrite Hd in *. split.
  - revert He. apply edge_frame; [apply Hnx; [set_solver|]|apply Hpv; set_solver].
    intros ->. apply Ha. destruct (last l) as [z|] eqn:El; cbn; [|set_solver].
    apply last_Some_elem_of in El. set_solver.
  - apply IH; try done; intros z Hz; [apply Hnx|apply Hpv]; set_solver.
Qed.

Lemma last_in a l : default a (last l) ∈ a :: l.
Proof. destruct (last l) as [z|] eqn:El; cbn; [apply last_Some_elem_of in El|]; set_solver. Qed.
Lemma head_in a l : default a (head l) ∈ a :: l.
Proof. destruct l; set_solver. Qed.

Lemma LRU_Remove_ok m o1 e o2 :
  ring m (o1 ++ e :: o2) ->
  exists m', LRU_Remove m e = Some m' /\ ring m' (o1 ++ o2) /\
    erase_links <$> m' = erase_links <$> m /\
    (forall z, z ∉ lru_addr :: o1 ++ o2 -> m' !! z = m !! z).
Proof.
  intros [[Hl1 Hl2]%linked_app Hn].
  pose proof (linked_last _ _ _ _ Hl1) as Hpe. pose proof (linked_first _ _ _ _ Hl2) as Hne.
  pose proof (last_in lru_addr o1) as Hx. pose proof (head_in lru_addr o2) as Hy.
  set (x := default lru_addr (last o1)) in *. set (y := default lru_addr (head o2)) in *.
  assert (Hn' : NoDup (lru_addr :: o1 ++ o2) /\ e ∉ lru_addr :: o1 ++ o2).
  { clear -Hn. apply NoDup_cons in Hn as [H0 Hn]. apply NoDup_app in Hn as (H1 & H12 & H2).
    apply NoDup_cons in H2 as [He H2]. split; [apply NoDup_cons; split; [set_solver|]|set_solver].
    apply NoDup_app. set_solver. }
  destruct Hn' as [Hn' He].
  destruct (m !! e) as [h|] eqn:Em; [|done]. injection Hpe as Hpe. injection Hne as Hne.
  destruct (linked_alloc _ _ _ _ y Hl2) as [hy Ey]; [set_solver|].
  destruct (linked_alloc _ _ _ _ x Hl1) as [hx Ex]; [set_solver|].
  set (m1 := <[y := set_prev x hy]> m).
  assert (Em1 : m1 !! e = Some h) by (unfold m1; rewrite lookup_insert_ne; [done|set_solver]).
  assert (exists hx1, m1 !! x = Some hx1 /\ prev hx1 = (if decide (x = y) then x else prev hx)) as (hx1 & Ex1 & Hpx).
  { unfold m1. destruct (decide (x = y)) as [<-|Hxy]; [rewrite lookup_insert_eq|rewrite lookup_insert_ne by done]; eauto. }
  exists (<[x := set_next y hx1]> m1). split; [|split; [|split]].
  - unfold LRU_Remove. rewrite Em. cbn. rewrite Hne, Hpe, (store_ok _ _ _ _ Ey). cbn. fold m1.
    rewrite Em1. cbn. rewrite Hne, Hpe. by apply store_ok.
  - split; [|done].
    assert (Hnx : forall z, z <> x -> next <$> <[x := set_next y hx1]> m1 !! z = next <$> m !! z).
    { intros z Hz. unfold m1. rewrite lookup_insert_ne by done.
      destruct (decide (z = y)) as [->|]; [rewrite lookup_insert_eq, Ey|rewrite lookup_insert_ne]; done. }
    assert (Hpv : forall z, z <> y -> prev <$> <[x := set_next y hx1]> m1 !! z = prev <$> m !! z).
    { intros z Hz. destruct (decide (z = x)) as [->|]; [|unfold m1; by rewrite !lookup_insert_ne].
      rewrite lookup_insert_eq. cbn. rewrite Hpx, Ex. by destruct (decide (x = y)). }
    assert (HE : edge (<[x := set_next y hx1]> m1) x y).
    { split; [by rewrite lookup_insert_eq|]. destruct (decide (x = y)) as [Hxy|].
      - rewrite <- Hxy, lookup_insert_eq. cbn. rewrite Hpx. by destruct (decide (x = y)).
      - unfold m1. by rewrite lookup_insert_ne, lookup_insert_eq. }
    clearbody m1. apply NoDup_cons in Hn' as [H0 Hn']. apply NoDup_app in Hn' as (H1 & H12 & H2).
    assert (Hsplit : linked (<[x := set_next y hx1]> m1) lru_addr o1 y).
    { apply (linked_retarget m _ _ _ e); [done|apply NoDup_cons; split; [set_solver|done]| | |done].
      - intros z _. apply Hnx.
      - intros z Hz. apply Hpv. intros ->. apply elem_of_cons in Hy as [Hy|Hy]; [|by apply (H12 y)].
        rewrite Hy in Hz. apply H0, elem_of_app. by left. }
    destruct o2 as [|b o2]; [by rewrite app_nil_r|]. cbn in y. subst y. apply linked_app. split; [done|].
    destruct Hl2 as [_ Hl2]. revert Hl2. apply NoDup_cons in H2 as [Hb H2].
    apply linked_frame; intros z Hz; [apply Hnx|apply Hpv].
    + intros ->. apply elem_of_cons in Hx as [Hx|Hx]; [|by apply (H12 x)].
      rewrite Hx in Hz. apply H0, elem_of_app. by right.
    + intros ->. apply elem_of_app in Hz as [Hz|Hz%list_elem_of_singleton]; [done|].
      apply H0, elem_of_app. right. rewrite Hz. apply elem_of_cons. by left.
  - rewrite (same_insert _ m1 x hx1) by done. by apply (same_insert _ m y hy).
  - intros z Hz. unfold m1. rewrite !lookup_insert_ne; [done| |]; set_solver.
Qed.

Lemma LRU_Append_ok m o e h :
  ring m o -> e ∉ lru_addr :: o -> m !! e = Some h ->
  exists m', LRU_Append m e = Some m' /\ ring m' (o ++ [e]) /\
    erase_links <$> m' = erase_links <$> m /\
    (forall z, z ∉ lru_addr :: o ++ [e] -> m' !! z = m !! z).
Proof.
  intros [Hl Hn] He Em. pose proof (linked_last _ _ _ _ Hl) as Hp. pose proof (last_in lru_addr o) as Hx.
  set (x := default lru_addr (last o)) in *.
  destruct (m !! lru_addr) as [h0|] eqn:E0; [|done]. injection Hp as Hp.
  assert (He0 : e <> lru_addr) by set_solver. assert (Hex : e <> x) by (intros ->; by apply He).
  destruct (linked_alloc _ _ _ _ x Hl) as [hx Ex]; [set_solver|].
  set (h1 := set_prev x (set_next lru_addr h)).
  set (m2 := <[e := h1]> m). set (m3 := <[x := set_next e hx]> m2).
  assert (Em2 : m2 !! e = Some h1) by apply lookup_insert_eq.
  assert (Em3 : m3 !! e = Some h1) by (unfold m3; by rewrite lookup_insert_ne).
  assert (exists h0', m3 !! lru_addr = Some h0' /\ next h0' = (if decide (x = lru_addr) then e else next h0))
    as (h0' & E0' & Hn0).
  { unfold m3, m2. destruct (decide (x = lru_addr)) as [->|].
    - rewrite lookup_insert_eq. eauto.
    - rewrite !lookup_insert_ne by done. eauto. }
  exists (<[lru_addr := set_prev e h0']> m3). split; [|split; [|split]].
  - unfold LRU_Append. rewrite (store_ok _ _ _ _ Em). cbn. rewrite lookup_insert_ne, E0 by done. cbn.
    rewrite Hp, (store_ok _ e _ (set_next lru_addr h)) by apply lookup_insert_eq. cbn.
    rewrite insert_insert_eq. fold h1. fold m2. rewrite Em2. cbn.
    rewrite (store_ok _ x _ hx) by (unfold m2; by rewrite lookup_insert_ne). cbn. fold m3.
    rewrite Em3. cbn. by apply store_ok.
  - assert (Hnx : forall z, z <> x -> z <> e -> next <$> <[lru_addr := set_prev e h0']> m3 !! z = next <$> m !! z).
    { intros z Hz Hze. destruct (decide (z = lru_addr)) as [->|].
      - rewrite lookup_insert_eq, E0. cbn. rewrite Hn0. by destruct (decide (x = lru_addr)).
      - unfold m3, m2. by rewrite !lookup_insert_ne. }
    assert (Hpv : forall z, z <> lru_addr -> z <> e -> prev <$> <[lru_addr := set_prev e h0']> m3 !! z = prev <$> m !! z).
    { intros z Hz Hze. rewrite lookup_insert_ne by done. unfold m3, m2. destruct (decide (z = x)) as [->|].
      - by rewrite lookup_insert_eq, Ex.
      - by rewrite !lookup_insert_ne. }
    split; [|apply NoDup_cons in Hn as [H0 Hn]; apply NoDup_cons; split; [set_solver|]].
    2: { apply NoDup_app. split; [done|]. split; [set_solver|apply NoDup_singleton]. }
    apply linked_app. split; [|split].
    + apply (linked_retarget m _ _ _ lru_addr); try done.
      * intros z Hz Hzx. apply Hnx; [done|]. intros ->. by apply He.
      * intros z Hz. apply Hpv; intros ->; [by apply NoDup_cons in Hn as [? _]|]. apply He. by right.
      * fold x. split.
        -- destruct (decide (x = lru_addr)) as [->|].
           ++ rewrite lookup_insert_eq. cbn. by rewrite Hn0.
           ++ rewrite lookup_insert_ne by done. unfold m3. by rewrite lookup_insert_eq.
        -- by rewrite lookup_insert_ne, Em3 by done.
    + by rewrite lookup_insert_ne, Em3 by done.
    + by rewrite lookup_insert_eq.
  - rewrite (same_insert _ m3 lru_addr h0') by done. unfold m3.
    rewrite (same_insert _ m2 x hx) by (try done; unfold m2; by rewrite lookup_insert_ne).
    by apply (same_insert _ m e h).
  - intros z Hz. unfold m3, m2. rewrite !lookup_insert_ne; [done| | |].
    + intros ->. apply Hz. set_solver.
    + intros ->. apply Hz. clear -Hx. set_solver.
    + set_solver.
Qed.

(** ** Chains *)

Fixpoint chain m (p : option nat) (es : list nat) : Prop :=
  match es with
  | [] => p = None
  | e :: es => p = Some e /\ exists h, m !! e = Some h /\ chain m (next_hash h) es
  end.

Lemma chain_frame m m' p es :
  (forall e, e ∈ es -> next_hash <$> m' !! e = next_hash <$> m !! e) -> chain m p es -> chain m' p es.
Proof.
  revert p. induction es as [|e es IH]; intros p Hf; [done|]. intros (-> & h & Eh & Hc).
  split; [done|]. pose proof (Hf e ltac:(by left)) as He. rewrite Eh in He.
  destruct (m' !! e) as [h'|]; [|done]. injection He as He. exists h'. split; [done|].
  rewrite He. apply IH; [|done]. intros e' He'. apply Hf. by right.
Qed.
Lemma chain_head m p es : chain m p es -> p = head es.
Proof. destruct es; [done|]. by intros [-> _]. Qed.
Lemma chain_alloc m p es e : chain m p es -> e ∈ es -> is_Some (m !! e).
Proof.
  revert p. induction es as [|a es IH]; intros p; [by intros _ ?%elem_of_nil|].
  intros (_ & h & Eh & Hc) [->|He]%elem_of_cons; [done|by eapply IH].
Qed.

Lemma chains_frame m m' lst bs :
  (forall e, e ∈ concat bs -> next_hash <$> m' !! e = next_hash <$> m !! e) ->
  Forall2 (chain m) lst bs -> Forall2 (chain m') lst bs.
Proof.
  intros Hf. induction 1 as [|p es lst bs Hc _ IH]; constructor.
  - revert Hc. apply chain_frame. intros e He. apply Hf. cbn. set_solver.
  - apply IH. intros e He. apply Hf. cbn. set_solver.
Qed.

(** Redirecting the last link of the first part of a chain. *)
Lemma chain_redirect m p pre x post q new h :
  chain m p (pre ++ x :: post) -> x ∉ pre -> m !! x = Some h -> chain m q new -> x ∉ new ->
  chain (<[x := set_next_hash q h]> m) p (pre ++ x :: new).
Proof.
  intros Hc Hx Ex Hq Hn. revert p Hc. induction pre as [|a pre IH]; intros p (-> & ha & Ea & Hc).
  - split; [done|]. exists (set_next_hash q h). split; [by rewrite lookup_insert_eq|]. cbn.
    revert Hq. apply chain_frame. intros e He. rewrite lookup_insert_ne; [done|set_solver].
  - split; [done|]. exists ha. split; [rewrite lookup_insert_ne; [done|set_solver]|].
    apply IH; [set_solver|done].
Qed.

(** The slot that follows a part of a chain. *)
Fixpoint slot_after (s : Slot) (pre : list nat) : Slot :=
  match pre with
  | [] => s
  | e :: pre => slot_after (NextHash e) pre
  end.
Lemma slot_after_snoc s pre x : slot_after s (pre ++ [x]) = NextHash x.
Proof. revert s. induction pre as [|a pre IH]; intros s; [done|]. apply IH. Qed.

(** Handles hold their whole key and are not linked to themselves. *)
Definition keyed m (e : nat) : Prop :=
  exists h, m !! e = Some h /\ next h <> e /\ key_length h = blen (key_data h).
Definition matches m (k : bytes) (hash_ : Z) (e : nat) : Prop :=
  exists h, m !! e = Some h /\ hash h = hash_ /\ key_data h = k.

Lemma handle_key_ok m e h : keyed m e -> m !! e = Some h -> handle_key e h = Some (key_data h).
Proof.
  intros (h' & Eh & Hn & Hl) Eh'. rewrite Eh in Eh'. injection Eh' as ->. unfold handle_key.
  rewrite decide_False by done. rewrite Hl. unfold blen. by rewrite Nat2Z.id, firstn_all.
Qed.

Lemma FindPointer_loop_ok m (lst : list (option nat)) k hash_ : forall es fuel s p,
  read_slot m lst s = Some p -> chain m p es -> (length es < fuel)%nat -> (forall e, e ∈ es -> keyed m e) ->
  exists pre post, es = pre ++ post /\ FindPointer_loop fuel m lst k hash_ s = Some (slot_after s pre) /\
    (forall e, e ∈ pre -> ~ matches m k hash_ e) /\ (forall e, head post = Some e -> matches m k hash_ e) /\
    read_slot m lst (slot_after s pre) = Some (head post).
Proof.
  induction es as [|e es IH]; intros fuel s p Hs Hc Hf Hk; (destruct fuel as [|fuel]; [cbn in Hf; lia|]);
    cbn [FindPointer_loop]; rewrite Hs; cbn [mbind option_bind].
  - cbn in Hc. subst p. exists [], []. split_and!; try done. intros e He. by apply elem_of_nil in He.
  - destruct Hc as (-> & h & Eh & Hc). rewrite Eh. cbn [mbind option_bind].
    assert (Hrec : ~ matches m k hash_ e -> exists pre post, e :: es = pre ++ post /\
      FindPointer_loop fuel m lst k hash_ (NextHash e) = Some (slot_after s pre) /\
      (forall e, e ∈ pre -> ~ matches m k hash_ e) /\ (forall e, head post = Some e -> matches m k hash_ e) /\
      read_slot m lst (slot_after s pre) = Some (head post)).
    { intros Hm. destruct (IH fuel (NextHash e) (next_hash h)) as (pre & post & -> & Hfp & Hpre & Hpost & Hr).
      - cbn. by rewrite Eh.
      - done.
      - cbn in Hf. lia.
      - intros e' He'. apply Hk. by right.
      - exists (e :: pre), post. split_and!; try done. intros e' [->|He']%elem_of_cons; [done|by apply Hpre]. }
    destruct (Z.eqb_spec (hash h) hash_) as [Hh|Hh]; cbn [negb].
    + rewrite (handle_key_ok m e h (Hk e ltac:(by left)) Eh). cbn [mbind option_bind].
      destruct (decide (k = key_data h)) as [->|Hkk].
      * exists [], (e :: es). split_and!; try done; [by intros ? ?%elem_of_nil|].
        intros e' [= <-]. by exists h.
      * apply Hrec. intros (h' & Eh' & _ & Hk'). rewrite Eh in Eh'. injection Eh' as ->. done.
    + apply Hrec. intros (h' & Eh' & Hh' & _). rewrite Eh in Eh'. injection Eh' as ->. done.
Qed.

Lemma write_slot_ok m (lst : list (option nat)) bs i pre post q new :
  Forall2 (chain m) lst bs -> bs !! i = Some (pre ++ post) -> NoDup (concat bs) ->
  chain m q new -> (forall e, e ∈ new -> e ∉ pre) ->
  exists m' lst', write_slot m lst (slot_after (Bucket i) pre) q = Some (m', lst') /\
    Forall2 (chain m') lst' (<[i := pre ++ new]> bs) /\ erase_hash <$> m' = erase_hash <$> m /\
    length lst' = length lst.
Proof.
  intros HF Hi Hn Hq Hd. destruct (Forall2_lookup_r _ _ _ _ _ HF Hi) as (p & Hp & Hc).
  destruct pre as [|x pre _] using rev_ind.
  - exists m, (<[i := q]> lst). cbn. rewrite Hp. split_and!; [done| |done|by rewrite length_insert].
    by apply Forall2_insert.
  - rewrite slot_after_snoc. cbn [write_slot].
    assert (Hx : x ∈ (pre ++ [x]) ++ post) by set_solver.
    destruct (chain_alloc _ _ _ x Hc Hx) as [h Eh]. rewrite (store_ok _ _ _ _ Eh).
    eexists _, lst. split_and!; [done| |by apply (same_insert _ m x h)|done].
    apply Forall2_same_length_lookup_2; [rewrite length_insert; by eapply Forall2_length|].
    intros j pj es Hj Hes. rewrite list_lookup_insert in Hes.
    case_decide as Hij.
    + destruct Hij as [-> _]. rewrite Hp in Hj. injection Hj as <-. injection Hes as <-.
      rewrite <- app_assoc in *. cbn in *.
      apply (chain_redirect m p pre x post q new h); [done| |done|done|].
      * apply (nodup_concat_lookup _ _ _ Hn) in Hi. apply NoDup_app in Hi as (_ & Hi & _).
        intros Hxp. apply (Hi x Hxp). by left.
      * intros Hxn. apply (Hd x Hxn). set_solver.
    + apply (chain_frame m); [|by eapply Forall2_lookup_lr].
      intros e He. rewrite lookup_insert_ne; [done|]. intros <-.
      apply (nodup_concat_disj bs i j _ _ x Hn Hi Hes); [|done|done]. intros ->. apply Hij. split; [done|by eapply lookup_lt_Some].
Qed.

(** ** The table *)

Definition bucket_index (len hash_ : Z) : nat := Z.to_nat (Z.land hash_ (u32 (len - 1))).

Lemma bucket_index_lt n hash_ : 0 <= n <= 31 -> 0 <= hash_ -> (bucket_index (2 ^ n) hash_ < Z.to_nat (2 ^ n))%nat.
Proof.
  intros Hn Hh. unfold bucket_index. assert (0 < 2 ^ n) by (apply Z.pow_pos_nonneg; lia).
  assert (2 ^ n <= 2 ^ 31) by (apply Z.pow_le_mono_r; lia).
  rewrite u32_small by (change (2 ^ 31) with 2147483648 in *; ulia).
  rewrite Z.sub_1_r, <- Z.ones_equiv, Z.land_ones by lia.
  pose proof (Z.mod_pos_bound hash_ (2 ^ n)). lia.
Qed.

(** The chains of an array of buckets: the handles of a chain hash to its bucket. *)
Definition chains m (len : Z) (lst : list (option nat)) (bs : list (list nat)) : Prop :=
  Forall2 (chain m) lst bs /\
  forall i es e, bs !! i = Some es -> e ∈ es -> exists h, m !! e = Some h /\ bucket_index len (hash h) = i.

Record table_ok m (t : HandleTable) (o : list nat) : Prop := {
  table_chains : exists bs, chains m (length_ t) (list_ t) bs /\ concat bs ≡ₚ o;
  table_size : length (list_ t) = Z.to_nat (length_ t);
  table_pow : exists n, 2 <= n <= 31 /\ length_ t = 2 ^ n;
  table_elems : elems_ t = blen o;
  table_load : elems_ t <= length_ t;
}.

Lemma chains_same {B} (f : LRUHandle V D -> B) m m' len lst bs :
  f <$> m = f <$> m' -> (forall h h', f h = f h' -> next_hash h = next_hash h' /\ hash h = hash h') ->
  chains m len lst bs -> chains m' len lst bs.
Proof.
  intros E Hf [HF Hp]. split.
  - eapply Forall2_impl; [done|]. intros p es. apply chain_frame. intros e _. symmetry.
    apply (same_proj _ _ _ _ _ E). intros h h' Hh. by apply Hf.
  - intros i es e Hi He. destruct (Hp i es e Hi He) as (h & Eh & Hh).
    destruct (same_lookup _ _ _ _ _ E Eh) as (h' & Eh' & Hhh). exists h'. split; [done|].
    by destruct (Hf _ _ Hhh) as [_ ->].
Qed.
Lemma table_ok_same {B} (f : LRUHandle V D -> B) m m' t o :
  f <$> m = f <$> m' -> (forall h h', f h = f h' -> next_hash h = next_hash h' /\ hash h = hash h') ->
  table_ok m t o -> table_ok m' t o.
Proof.
  intros E Hf [(bs & Hb & Ho) ????]. split; try done. exists bs. split; [|done]. by eapply chains_same.
Qed.
Lemma table_ok_perm m t o o' : o ≡ₚ o' -> table_ok m t o -> table_ok m t o'.
Proof.
  intros Hp [(bs & Hb & Ho) ?? He ?]. split; try done.
  - exists bs. split; [done|]. by rewrite Ho.
  - rewrite He. unfold blen. by rewrite Hp.
Qed.
Lemma table_frame m m' t o : (forall z, z ∈ o -> m' !! z = m !! z) -> table_ok m t o -> table_ok m' t o.
Proof.
  intros Hf [(bs & [HF Hp] & Ho) ????]. split; try done. exists bs. split; [|done]. split.
  - revert HF. apply chains_frame. intros e He. rewrite Hf; [done|]. by rewrite <- Ho.
  - intros i es e Hi He. rewrite Hf; [by apply (Hp i es)|]. rewrite <- Ho. by eapply in_concat_lookup.
Qed.
Lemma table_alloc m t o e : table_ok m t o -> e ∈ o -> is_Some (m !! e).
Proof.
  intros [(bs & [_ Hp] & Ho) ????] He. rewrite <- Ho in He. apply elem_of_concat_lookup in He as (i & es & Hi & He).
  destruct (Hp i es e Hi He) as (h & ? & _). by exists h.
Qed.

(** [FindPointer] stops at the slot that points to the match, or to the end of the chain. *)
Lemma FindPointer_ok m t o k hash_ :
  table_ok m t o -> NoDup o -> (forall e, e ∈ o -> keyed m e) -> 0 <= hash_ ->
  exists bs i pre post, chains m (length_ t) (list_ t) bs /\ concat bs ≡ₚ o /\
    bs !! i = Some (pre ++ post) /\ i = bucket_index (length_ t) hash_ /\
    FindPointer m t k hash_ = Some (slot_after (Bucket i) pre) /\
    read_slot m (list_ t) (slot_after (Bucket i) pre) = Some (head post) /\
    match post with
    | [] => forall e, e ∈ o -> ~ matches m k hash_ e
    | e :: _ => matches m k hash_ e
    end.
Proof.
  intros Ht Hn Hk Hh. destruct (table_chains _ _ _ Ht) as (bs & [HF Hp] & Ho).
  destruct (table_pow _ _ _ Ht) as (n & Hn31 & Hlen). set (i := bucket_index (length_ t) hash_).
  assert (Hi : (i < length bs)%nat).
  { rewrite <- (Forall2_length _ _ _ HF), (table_size _ _ _ Ht). unfold i. rewrite Hlen.
    apply bucket_index_lt; lia. }
  apply lookup_lt_is_Some_2 in Hi as [es Hes].
  destruct (Forall2_lookup_r _ _ _ _ _ HF Hes) as (p & Hp0 & Hc).
  assert (Hin : forall e, e ∈ es -> e ∈ o) by (intros e He; rewrite <- Ho; by eapply in_concat_lookup).
  destruct (FindPointer_loop_ok m (list_ t) k hash_ es (S (size m)) (Bucket i) p) as (pre & post & -> & Hfp & Hpre & Hpost & Hr).
  - done.
  - done.
  - apply Nat.lt_succ_r, length_le_size; [|intros e He; by eapply chain_alloc].
    eapply nodup_concat_lookup; [|done]. by rewrite Ho.
  - intros e He. by apply Hk, Hin.
  - exists bs, i, pre, post. split_and!; try done. destruct post as [|e post]; [|by apply Hpost].
    rewrite app_nil_r in *. intros e He Hm. apply (Hpre e); [|done].
    destruct Hm as (h & Eh & Hhash & _). rewrite <- Ho in He.
    apply elem_of_concat_lookup in He as (j & es & Hj & He). destruct (Hp j es e Hj He) as (h' & Eh' & Hb).
    rewrite Eh in Eh'. injection Eh' as <-. rewrite Hhash in Hb. fold i in Hb. subst j. by simplify_eq.
Qed.

Lemma Table_Lookup_ok m t o k hash_ :
  table_ok m t o -> NoDup o -> (forall e, e ∈ o -> keyed m e) -> 0 <= hash_ ->
  exists r, Table_Lookup m t k hash_ = Some r /\
    match r with
    | None => forall e, e ∈ o -> ~ matches m k hash_ e
    | Some e => e ∈ o /\ matches m k hash_ e
    end.
Proof.
  intros Ht Hn Hk Hh. destruct (FindPointer_ok m t o k hash_) as (bs & i & pre & post & _ & Ho & Hi & _ & Hf & Hr & Hm);
    try done. exists (head post). unfold Table_Lookup. rewrite Hf. cbn [mbind option_bind]. split; [done|].
  destruct post as [|e post]; [done|]. split; [|done]. cbn. rewrite <- Ho. eapply in_concat_lookup; [done|]. set_solver.
Qed.

(** Replacing the rest of a chain from a slot on. *)
Lemma write_chains m len lst bs i pre post q new :
  chains m len lst bs -> bs !! i = Some (pre ++ post) -> NoDup (concat bs) ->
  chain m q new -> (forall e, e ∈ new -> e ∉ pre) ->
  (forall e, e ∈ new -> exists h, m !! e = Some h /\ bucket_index len (hash h) = i) ->
  exists m' lst', write_slot m lst (slot_after (Bucket i) pre) q = Some (m', lst') /\
    chains m' len lst' (<[i := pre ++ new]> bs) /\ erase_hash <$> m' = erase_hash <$> m /\
    length lst' = length lst.
Proof.
  intros [HF Hp] Hi Hn Hq Hd Hb.
  destruct (write_slot_ok m lst bs i pre post q new) as (m' & lst' & Hw & HF' & Hs & Hl); try done.
  exists m', lst'. split_and!; try done. split; [done|]. intros j es e Hj He.
  assert (exists h, m !! e = Some h /\ bucket_index len (hash h) = j) as (h & Eh & Hh).
  { rewrite list_lookup_insert in Hj. case_decide as Hij; [|by apply (Hp j es)].
    destruct Hij as [<- _]. injection Hj as <-. apply elem_of_app in He as [He|He]; [|by apply Hb].
    apply (Hp i (pre ++ post)); [done|set_solver]. }
  destruct (same_lookup erase_hash m m' e h (eq_sym Hs) Eh) as (h' & Eh' & Hhh).
  exists h'. split; [done|]. rewrite <- Hh. f_equal. exact (f_equal hash Hhh).
Qed.

Lemma Table_Remove_ok m t o k hash_ :
  table_ok m t o -> NoDup o -> (forall e, e ∈ o -> keyed m e) -> 0 <= hash_ ->
  (exists e m' t' o', Table_Remove m t k hash_ = Some (Some e, m', t') /\ matches m k hash_ e /\
     o ≡ₚ e :: o' /\ table_ok m' t' o' /\ erase_hash <$> m' = erase_hash <$> m) \/
  (Table_Remove m t k hash_ = Some (None, m, t) /\ forall e, e ∈ o -> ~ matches m k hash_ e).
Proof.
  intros Ht Hn Hk Hh. destruct (FindPointer_ok m t o k hash_) as (bs & i & pre & post & Hc & Ho & Hi & Hidx & Hf & Hr & Hm);
    try done. unfold Table_Remove. rewrite Hf. cbn [mbind option_bind]. rewrite Hr. cbn [mbind option_bind].
  destruct post as [|e post]; [by right|]. left. cbn [head].
  destruct Hc as [HF Hp]. destruct (Forall2_lookup_r _ _ _ _ _ HF Hi) as (p & Hp0 & Hch).
  assert (He : exists h, m !! e = Some h /\ chain m (next_hash h) post).
  { clear -Hch. revert p Hch. induction pre as [|a pre IH]; intros p (_ & h & Eh & Hch); [by exists h|by eapply IH]. }
  destruct He as (h & Eh & Hpost). rewrite Eh. cbn [mbind option_bind].
  assert (Hnb : NoDup (concat bs)) by by rewrite Ho.
  pose proof (nodup_concat_lookup _ _ _ Hnb Hi) as Hnd. apply NoDup_app in Hnd as (Hn1 & Hn12 & [Hn2 Hn3]%NoDup_cons).
  destruct (write_chains m (length_ t) (list_ t) bs i pre (e :: post) (next_hash h) post)
    as (m' & lst' & -> & Hc' & Hs & Hl); try done.
  { intros e' He' Hpre. apply (Hn12 e' Hpre). by right. }
  { intros e' He'. apply (Hp i (pre ++ e :: post)); [done|set_solver]. }
  destruct (concat_split bs i _ Hi) as (c & Hcc & Hci).
  exists e, m', {| length_ := length_ t; elems_ := u32 (elems_ t - 1); list_ := lst' |}, (pre ++ post ++ c).
  assert (Hperm : o ≡ₚ e :: pre ++ post ++ c).
  { rewrite <- Ho, Hcc, <- app_assoc. cbn. by rewrite <- Permutation_middle. }
  split_and!; try done. destruct Ht as [_ Hsz (n & Hn31 & Hlen) Hel Hld].
  assert (Hone : elems_ t = 1 + blen (pre ++ post ++ c)) by (rewrite Hel; unfold blen; rewrite Hperm; cbn; lia).
  assert (Hu : u32 (elems_ t - 1) = blen (pre ++ post ++ c)).
  { rewrite Hone. replace (1 + _ - 1) with (blen (pre ++ post ++ c)) by lia. apply u32_small.
    assert (2 ^ n <= 2 ^ 31) by (apply Z.pow_le_mono_r; lia).
    change (2 ^ 31) with 2147483648 in *. ulia. }
  split; cbn; try done.
  - exists (<[i := pre ++ post]> bs). split; [done|]. by rewrite Hci, app_assoc.
  - by rewrite Hl.
  - by exists n.
  - lia.
Qed.

(** ** Resizing *)

Definition hashes_ok m : Prop := forall e h, m !! e = Some h -> 0 <= hash h.
Lemma hashes_ok_same m m' : erase_hash <$> m' = erase_hash <$> m -> hashes_ok m -> hashes_ok m'.
Proof.
  intros E Hm e h Eh. destruct (same_lookup _ _ _ _ _ E Eh) as (h' & Eh' & Hh).
  pose proof (Hm e h' Eh') as H0. pose proof (f_equal hash Hh) as H1. cbn in H1. lia.
Qed.

Lemma move_chain_ok n : 2 <= n <= 31 -> forall es fuel m new bs count p,
  chain m p es -> NoDup es -> (length es < fuel)%nat -> chains m (2 ^ n) new bs ->
  length new = Z.to_nat (2 ^ n) -> (forall e, e ∈ es -> e ∉ concat bs) -> hashes_ok m ->
  0 <= count -> count + blen es < 2 ^ 32 ->
  exists m' new' bs', move_chain fuel m new (2 ^ n) count p = Some (m', new', count + blen es) /\
    chains m' (2 ^ n) new' bs' /\ concat bs' ≡ₚ es ++ concat bs /\ length new' = length new /\
    erase_hash <$> m' = erase_hash <$> m /\ (forall e, e ∉ es -> m' !! e = m !! e).
Proof.
  intros Hn. induction es as [|e es IH]; intros fuel m new bs count p Hc Hnd Hf Hch Hlen Hd Hh Hct Hct2;
    (destruct fuel as [|fuel]; [cbn in Hf; lia|]); cbn [move_chain].
  - cbn in Hc. subst p. exists m, new, bs. rewrite blen_nil, Z.add_0_r. by split_and!.
  - destruct Hc as (-> & h & Eh & Hc). rewrite Eh. cbn [mbind option_bind].
    apply NoDup_cons in Hnd as [He Hnd]. fold (bucket_index (2 ^ n) (hash h)).
    set (i := bucket_index (2 ^ n) (hash h)). destruct Hch as [HF Hp].
    assert (Hi : (i < length new)%nat) by (rewrite Hlen; apply bucket_index_lt; [lia|by eapply Hh]).
    pose proof Hi as [q Hq]%lookup_lt_is_Some_2. destruct (Forall2_lookup_l _ _ _ _ _ HF Hq) as (b & Hb & Hcb).
    rewrite Hq. cbn [mbind option_bind]. rewrite (store_ok _ _ _ _ Eh). cbn [mbind option_bind].
    assert (Heb : e ∉ concat bs) by (apply Hd; by left).
    destruct (concat_split bs i b Hb) as (c & Hcc & Hci).
    set (m1 := <[e := set_next_hash q h]> m).
    assert (Hs1 : erase_hash <$> m1 = erase_hash <$> m) by by apply (same_insert _ m e h).
    assert (Hfr : forall z, z <> e -> m1 !! z = m !! z) by (intros z Hz; unfold m1; by rewrite lookup_insert_ne).
    rewrite u32_small by blia.
    destruct (IH fuel m1 (<[i := Some e]> new) (<[i := e :: b]> bs) (count + 1) (next_hash h))
      as (m' & new' & bs' & -> & Hch' & Hperm & Hl' & Hs' & Hfr').
    + revert Hc. apply chain_frame. intros z Hz. rewrite Hfr; [done|]. by intros ->.
    + done.
    + cbn in Hf. lia.
    + split.
      * apply Forall2_insert.
        -- revert HF. apply chains_frame. intros z Hz. rewrite Hfr; [done|]. by intros ->.
        -- split; [done|]. exists (set_next_hash q h). split; [by unfold m1; rewrite lookup_insert_eq|].
           cbn. revert Hcb. apply chain_frame. intros z Hz. rewrite Hfr; [done|]. intros ->.
           apply Heb. by eapply in_concat_lookup.
      * intros j es' e' Hj He'.
        assert (exists h', m !! e' = Some h' /\ bucket_index (2 ^ n) (hash h') = j) as (h' & Eh' & Hb').
        { rewrite list_lookup_insert in Hj. case_decide as Hij; [|by apply (Hp j es')].
          destruct Hij as [<- _]. injection Hj as <-.
          apply elem_of_cons in He' as [->|He']; [by exists h|by apply (Hp i b)]. }
        destruct (same_lookup _ _ _ _ _ (eq_sym Hs1) Eh') as (h'' & Eh'' & Hhh). exists h''. split; [done|].
        rewrite <- Hb'. f_equal. exact (f_equal hash Hhh).
    + by rewrite length_insert.
    + intros z Hz. rewrite Hci. assert (z ∉ concat bs) by (apply Hd; by right).
      intros [->|Hz']%elem_of_cons; [done|]. by rewrite Hcc in *.
    + by eapply hashes_ok_same.
    + lia.
    + blia.
    + exists m', new', bs'. rewrite blen_cons. split_and!; try done.
      * do 2 f_equal. lia.
      * rewrite Hperm, Hci, Hcc. cbn. by rewrite <- Permutation_middle.
      * by rewrite Hl', length_insert.
      * by rewrite Hs'.
      * intros z Hz. rewrite Hfr', Hfr; [done| |]; set_solver.
Qed.

Lemma move_buckets_ok n : 2 <= n <= 31 -> forall old obs m new bs count,
  Forall2 (chain m) old obs -> NoDup (concat obs) -> chains m (2 ^ n) new bs ->
  length new = Z.to_nat (2 ^ n) -> (forall e, e ∈ concat obs -> e ∉ concat bs) -> hashes_ok m ->
  0 <= count -> count + blen (concat obs) < 2 ^ 32 ->
  exists m' new' bs', move_buckets m old new (2 ^ n) count = Some (m', new', count + blen (concat obs)) /\
    chains m' (2 ^ n) new' bs' /\ concat bs' ≡ₚ concat obs ++ concat bs /\ length new' = length new /\
    erase_hash <$> m' = erase_hash <$> m.
Proof.
  intros Hn. induction old as [|p old IH]; intros obs m new bs count HF Hnd Hch Hlen Hd Hh Hct Hct2;
    inversion HF as [|? es ? obs' Hc HF']; subst; cbn [move_buckets].
  - exists m, new, bs. cbn. rewrite Z.add_0_r. by split_and!.
  - cbn [concat] in *. apply NoDup_app in Hnd as (Hn1 & Hn12 & Hn2). rewrite blen_app in *.
    destruct (move_chain_ok n Hn es (S (size m)) m new bs count p) as (m1 & new1 & bs1 & -> & Hch1 & Hp1 & Hl1 & Hs1 & Hf1);
      try done; [|intros e He; apply Hd; set_solver|blia|].
    { apply Nat.lt_succ_r, length_le_size; [done|]. intros e He. by eapply chain_alloc. }
    cbn [mbind option_bind].
    destruct (IH obs' m1 new1 bs1 (count + blen es)) as (m' & new' & bs' & -> & Hch' & Hp' & Hl' & Hs').
    + revert HF'. apply chains_frame. intros e He. rewrite Hf1; [done|]. intros He'. by apply (Hn12 e).
    + done.
    + done.
    + by rewrite Hl1.
    + intros e He. rewrite Hp1. intros [He'|He']%elem_of_app; [by apply (Hn12 e)|].
      apply (Hd e); [set_solver|done].
    + by eapply hashes_ok_same.
    + blia.
    + blia.
    + exists m', new', bs'. split_and!; [do 2 f_equal; lia|done| |by rewrite Hl'|by rewrite Hs'].
      rewrite Hp', Hp1, <- app_assoc. apply Permutation_app_swap_app.
Qed.

Lemma grow_ok elems : elems <= 2 ^ 31 -> forall fuel j, 2 <= j <= 31 -> 31 - j < Z.of_nat fuel ->
  exists n, j <= n <= 31 /\ grow fuel (2 ^ j) elems = Some (2 ^ n) /\ elems <= 2 ^ n.
Proof.
  intros He. induction fuel as [|fuel IH]; intros j Hj Hf; [lia|]. cbn [grow].
  destruct (Z.ltb_spec (2 ^ j) elems) as [Hl|Hl]; [|exists j; split_and!; try done; lia].
  assert (j <> 31) by (intros ->; lia).
  replace (2 ^ j * 2) with (2 ^ (j + 1)) by (rewrite Z.pow_add_r by lia; lia).
  rewrite u32_small. 2: { split; [apply Z.pow_nonneg; lia|]. apply Z.pow_lt_mono_r; lia. }
  destruct (IH (j + 1)) as (n & Hn & Hg & Hle); [lia|lia|]. exists n. split_and!; try done; lia.
Qed.

Lemma Resize_ok m t o bs :
  Forall2 (chain m) (list_ t) bs -> concat bs ≡ₚ o -> NoDup o -> elems_ t = blen o -> blen o <= 2 ^ 31 ->
  hashes_ok m ->
  exists m' t', Resize m t = Some (m', t') /\ table_ok m' t' o /\ erase_hash <$> m' = erase_hash <$> m.
Proof.
  intros HF Ho Hn He Hb Hh. destruct (grow_ok (elems_ t) ltac:(lia) 31 2) as (n & Hn31 & Hg & Hle); [lia|lia|].
  unfold Resize. change 4 with (2 ^ 2). rewrite Hg. cbn [mbind option_bind].
  assert (Hblen : blen (concat bs) = blen o) by (unfold blen; by rewrite Ho).
  set (N := Z.to_nat (2 ^ n)).
  destruct (move_buckets_ok n ltac:(lia) (list_ t) bs m (replicate N None) (replicate N []) 0)
    as (m' & new' & bs' & -> & Hch & Hp & Hl & Hs); try done.
  - by rewrite Ho.
  - split; [apply Forall2_replicate; done|]. intros i es e Hi He'.
    apply lookup_replicate in Hi as [-> _]. by apply elem_of_nil in He'.
  - by rewrite length_replicate.
  - intros e _ He'. apply elem_of_concat_lookup in He' as (i & es & Hi & He').
    apply lookup_replicate in Hi as [-> _]. by apply elem_of_nil in He'.
  - rewrite Hblen. change (2 ^ 31) with 2147483648 in *. change (2 ^ 32) with 4294967296. lia.
  - cbn [mbind option_bind]. rewrite Hblen, He, Z.add_0_l, Z.eqb_refl.
    eexists m', _. split; [done|]. split; [|done].
    assert (Hnil : concat (replicate N []) = @nil nat) by (clear; induction N; [done|]; by cbn).
    rewrite Hnil, app_nil_r in Hp. split; cbn; [| |by exists n; split; [lia|]|done|by rewrite <- He].
    + exists bs'. split; [done|]. by rewrite Hp.
    + by rewrite Hl, length_replicate.
Qed.

Lemma Table_Insert_ok m t o e h :
  table_ok m t o -> NoDup o -> (forall x, x ∈ o -> keyed m x) -> e ∉ o -> m !! e = Some h -> keyed m e ->
  hashes_ok m -> blen o < 2 ^ 31 ->
  exists old m' t', Table_Insert m t e = Some (old, m', t') /\ erase_hash <$> m' = erase_hash <$> m /\
    match old with
    | None => (forall x, x ∈ o -> ~ matches m (key_data h) (hash h) x) /\ table_ok m' t' (e :: o)
    | Some x => exists o', o ≡ₚ x :: o' /\ matches m (key_data h) (hash h) x /\ table_ok m' t' (e :: o')
    end.
Proof.
  intros Ht Hn Hk He Eh Hke Hh Hb. unfold Table_Insert. rewrite Eh. cbn [mbind option_bind].
  rewrite (handle_key_ok m e h Hke Eh). cbn [mbind option_bind].
  destruct (FindPointer_ok m t o (key_data h) (hash h)) as (bs & i & pre & post & Hc & Ho & Hi & Hidx & -> & Hr & Hm);
    try done; [by eapply Hh|]. cbn [mbind option_bind]. rewrite Hr. cbn [mbind option_bind].
  assert (Hnb : NoDup (concat bs)) by by rewrite Ho.
  assert (Heb : e ∉ concat bs) by by rewrite Ho.
  destruct (Forall2_lookup_r _ _ _ _ _ (proj1 Hc) Hi) as (p & Hp0 & Hch).
  (* the chain that the new handle starts *)
  assert (exists q rest, match head post with None => Some None | Some x => next_hash <$> m !! x end = Some q /\
            chain m q rest /\ rest = tail post) as (q & rest & -> & Hq & Hrest).
  { destruct post as [|x post]; [by exists None, []|]. clear -Hch. revert p Hch.
    induction pre as [|a pre IH]; intros p (_ & hx & Ex & Hch); [|by eapply IH].
    exists (next_hash hx), post. cbn. by rewrite Ex. }
  cbn [mbind option_bind]. rewrite (store_ok _ _ _ _ Eh). cbn [mbind option_bind].
  set (m1 := <[e := set_next_hash q h]> m).
  assert (Hs1 : erase_hash <$> m1 = erase_hash <$> m) by by apply (same_insert _ m e h).
  assert (Hfr : forall z, z <> e -> m1 !! z = m !! z) by (intros z Hz; unfold m1; by rewrite lookup_insert_ne).
  assert (Hin : forall z, z ∈ pre ++ post -> z <> e)
    by (intros z Hz ->; apply Heb; by eapply in_concat_lookup).
  assert (Hc1 : chains m1 (length_ t) (list_ t) bs).
  { destruct Hc as [HF Hp]. split.
    - revert HF. apply chains_frame. intros z Hz. rewrite Hfr; [done|]. by intros ->.
    - intros j es z Hj Hz. rewrite Hfr; [by apply (Hp j es)|]. intros ->. apply Heb. by eapply in_concat_lookup. }
  destruct (write_chains m1 (length_ t) (list_ t) bs i pre post (Some e) (e :: rest))
    as (m2 & lst & -> & Hc2 & Hs2 & Hl2); try done.
  { split; [done|]. exists (set_next_hash q h). split; [by unfold m1; rewrite lookup_insert_eq|]. cbn.
    revert Hq. apply chain_frame. intros z Hz. rewrite Hfr; [done|]. apply Hin. subst rest.
    destruct post; set_solver. }
  { pose proof (nodup_concat_lookup _ _ _ Hnb Hi) as Hnd. apply NoDup_app in Hnd as (Hn1 & Hn12 & Hn2).
    intros z [->|Hz]%elem_of_cons Hpre; [by apply (Hin e); [set_solver|]|].
    apply (Hn12 z Hpre). subst rest. destruct post; set_solver. }
  { intros z [->|Hz]%elem_of_cons.
    - exists (set_next_hash q h). split; [by unfold m1; rewrite lookup_insert_eq|]. by rewrite Hidx.
    - destruct Hc1 as [_ Hp1]. apply (Hp1 i (pre ++ post)); [done|]. subst rest. destruct post; set_solver. }
  cbn [mbind option_bind]. destruct (concat_split bs i _ Hi) as (c & Hcc & Hci).
  assert (Hs : erase_hash <$> m2 = erase_hash <$> m) by by rewrite Hs2.
  destruct Ht as [_ Hsz (n & Hn31 & Hlen) Hel Hld]. destruct post as [|x post]; cbn [head tail] in *; subst rest.
  - assert (Hperm : concat (<[i := pre ++ [e]]> bs) ≡ₚ e :: o).
    { rewrite Hci, <- Ho, Hcc, app_nil_r, <- app_assoc. cbn. by rewrite <- Permutation_middle. }
    rewrite u32_small by (change (2 ^ 31) with 2147483648 in *; rewrite Hel; blia). cbn [length_ elems_].
    destruct (Z.ltb_spec (length_ t) (elems_ t + 1)) as [Hgt|Hle].
    + destruct (Resize_ok m2 {| length_ := length_ t; elems_ := elems_ t + 1; list_ := lst |} (e :: o) (<[i := pre ++ [e]]> bs))
        as (m3 & t3 & -> & Ht3 & Hs3).
      * by destruct Hc2.
      * done.
      * by apply NoDup_cons.
      * cbn. rewrite Hel, blen_cons. lia.
      * rewrite blen_cons. lia.
      * by eapply hashes_ok_same.
      * cbn [mbind option_bind]. eexists None, m3, t3. split; [done|]. split; [by rewrite Hs3|done].
    + eexists None, m2, _. split; [done|]. split; [done|]. split; [done|].
      split; cbn; [|by rewrite Hl2|by exists n|rewrite Hel, blen_cons; lia|done]. by eexists.
  - eexists (Some x), m2, _. split; [done|]. split; [done|]. exists (pre ++ post ++ c).
    assert (Hpo : o ≡ₚ x :: pre ++ post ++ c).
    { rewrite <- Ho, Hcc, <- app_assoc. cbn. by rewrite <- Permutation_middle. }
    split; [done|]. split; [done|].
    assert (Hb' : blen (e :: pre ++ post ++ c) = blen o) by (unfold blen; rewrite Hpo; cbn; lia).
    split; cbn; [|by rewrite Hl2|by exists n|by rewrite Hb'|done].
    eexists. split; [done|]. rewrite Hci, <- app_assoc. cbn. by rewrite <- Permutation_middle.
Qed.
End Shape.
