(* ===== verification/LruCache.v ===== *)
(** * util/cache: what a shard promises

    The specification of a shard, without pointers, chains or counts: entries by handle, the
    cached handles from the least to the most recently used, the handles the clients hold and
    the deleter calls so far.  Every operation of [Cache.LRUCache] is proved to implement its
    specification, so it never reads freed memory and its loops end.  Properties of the cache
    are then properties of the specification. *)

From S2P Require Import Prelude Coding Hash Cache CacheProofs.
From stdpp Require Import gmap gmultiset list.
#[local] Open Scope Z_scope.

Section Spec.
Context {V D : Type}.

Record Entry := { e_deleter : D; e_key : bytes; e_value : V; e_charge : Z; e_hash : Z }.

Record Spec := {
  sp_cap : Z;
  sp_ents : gmap nat Entry;        (** the entries that are alive *)
  sp_order : list nat;             (** cached, least recently used first *)
  sp_held : gmultiset nat;         (** handles the clients have not released *)
  sp_deleted : list (D * bytes * V);
}.

Definition with_order (s : Spec) (o : list nat) (held : gmultiset nat) : Spec :=
  {| sp_cap := sp_cap s; sp_ents := sp_ents s; sp_order := o; sp_held := held;
     sp_deleted := sp_deleted s |}.

Definition sum_charges (m : gmap nat Entry) : Z := map_fold (fun _ x acc => e_charge x + acc) 0 m.
Definition sp_usage (s : Spec) : Z := u64 (sum_charges (sp_ents s)).

(** The cached handle of a key. *)
Definition has_key (ents : gmap nat Entry) (k : bytes) (hash_ : Z) (e : nat) : Prop :=
  (fun x => (e_key x, e_hash x)) <$> ents !! e = Some (k, hash_).
#[export] Instance has_key_dec ents k hash_ e : Decision (has_key ents k hash_ e).
Proof. unfold has_key. apply _. Defined.
Definition find_key (s : Spec) (k : bytes) (hash_ : Z) : option nat :=
  head (filter (has_key (sp_ents s) k hash_) (sp_order s)).

Definition without (e : nat) (o : list nat) : list nat := filter (fun x => x <> e) o.

(** A reference to [e] is given back; the entry dies with the last one. *)
Definition spec_unref (s : Spec) (e : nat) : Spec :=
  let held := sp_held s ∖ {[+ e +]} in
  if decide (e ∈ sp_order s \/ e ∈ held) then with_order s (sp_order s) held
  else
    {| sp_cap := sp_cap s; sp_ents := delete e (sp_ents s); sp_order := sp_order s;
       sp_held := held;
       sp_deleted := sp_deleted s ++
         match sp_ents s !! e with Some x => [(e_deleter x, e_key x, e_value x)] | None => [] end |}.

(** The cache forgets [e]: its own reference is given back. *)
Definition spec_forget (s : Spec) (e : nat) : Spec :=
  spec_unref (with_order s (without e (sp_order s)) (sp_held s ⊎ {[+ e +]})) e.

Definition spec_lookup (s : Spec) (k : bytes) (hash_ : Z) : option nat * Spec :=
  match find_key s k hash_ with
  | None => (None, s)
  | Some e => (Some e, with_order s (without e (sp_order s) ++ [e]) (sp_held s ⊎ {[+ e +]}))
  end.

Definition spec_erase (s : Spec) (k : bytes) (hash_ : Z) : Spec :=
  match find_key s k hash_ with None => s | Some e => spec_forget s e end.

(** The least recently used entries are forgotten while the charges exceed the capacity. *)
Fixpoint spec_evict (o : list nat) (s : Spec) : Spec :=
  match o with
  | [] => s
  | e :: o => if sp_cap s <? sp_usage s then spec_evict o (spec_forget s e) else s
  end.

(** The new entry [e] is the most recently used one and is held by the client; an entry with
    the same key is forgotten. *)
Definition spec_insert (s : Spec) (e : nat) (x : Entry) : Spec :=
  let old := find_key s (e_key x) (e_hash x) in
  let s := {| sp_cap := sp_cap s; sp_ents := <[e := x]> (sp_ents s); sp_order := sp_order s ++ [e];
              sp_held := sp_held s ⊎ {[+ e +]}; sp_deleted := sp_deleted s |} in
  let s := match old with None => s | Some o => spec_forget s o end in
  spec_evict (sp_order s) s.

(** ** The representation *)

Definition ent (h : LRUHandle V D) : Entry :=
  {| e_deleter := deleter h; e_key := key_data h; e_value := value h; e_charge := charge h;
     e_hash := hash h |}.
Definition static (h : LRUHandle V D) := erase_hash (erase_links h).

Implicit Types (c : LRUCache V D) (s : Spec) (m : gmap nat (LRUHandle V D)) (h : LRUHandle V D) (e : nat).

Definition no_self m : Prop := forall e h, e <> lru_addr -> m !! e = Some h -> next h <> e.

Definition count (s : Spec) e : Z :=
  Z.of_nat (multiplicity e (sp_held s)) + (if decide (e ∈ sp_order s) then 1 else 0).

(** What does not depend on the links: counts, keys, hashes and the entries. *)
Record stat m s : Prop := {
  stat_refs : forall e h, e <> lru_addr -> m !! e = Some h ->
    refs h = count s e /\ 0 < refs h /\ key_length h = blen (key_data h);
  stat_hashes : hashes_ok m;
  stat_held : forall e, e ∈ sp_held s -> e <> lru_addr /\ is_Some (m !! e);
  stat_unique : forall e e' k hash_, e ∈ sp_order s -> e' ∈ sp_order s ->
    has_key (sp_ents s) k hash_ e -> has_key (sp_ents s) k hash_ e' -> e = e';
  stat_ents : ent <$> delete lru_addr m = sp_ents s;
}.

Record rep c s : Prop := {
  rep_ring : ring (handles c) (sp_order s);
  rep_table : table_ok (handles c) (table_ c) (sp_order s);
  rep_self : no_self (handles c);
  rep_stat : stat (handles c) s;
  rep_usage : usage_ c = sp_usage s;
  rep_cap : capacity_ c = sp_cap s;
  rep_deleted : deleted c = sp_deleted s;
}.

Lemma links_static m m' : erase_links <$> m = erase_links <$> m' -> static <$> m = static <$> m'.
Proof. intros E. apply (same_coarse _ _ _ _ E). intros h h' Hh. unfold static. by rewrite Hh. Qed.
Lemma hash_static m m' : erase_hash <$> m = erase_hash <$> m' -> static <$> m = static <$> m'.
Proof. intros E. apply (same_coarse _ _ _ _ E). intros h h' Hh. exact (f_equal erase_links Hh). Qed.
Lemma static_ents m m' : static <$> m = static <$> m' ->
  ent <$> delete lru_addr m = ent <$> delete lru_addr m'.
Proof.
  intros E. rewrite !fmap_delete. f_equal. apply (same_coarse _ _ _ _ E). intros h h' Hh.
  exact (f_equal ent Hh).
Qed.

Lemma stat_same m m' s : static <$> m = static <$> m' -> stat m s -> stat m' s.
Proof.
  intros E [Hr Hh Hd Hu He]. split.
  - intros e h Hne Eh. destruct (same_lookup _ _ _ _ _ (eq_sym E) Eh) as (h' & Eh' & Hhh).
    destruct (Hr e h' Hne Eh') as (H1 & H2 & H3).
    pose proof (f_equal refs Hhh) as E1. pose proof (f_equal key_length Hhh) as E2.
    pose proof (f_equal key_data Hhh) as E3. cbn in E1, E2, E3. split_and!; congruence.
  - intros e h Eh. destruct (same_lookup _ _ _ _ _ (eq_sym E) Eh) as (h' & Eh' & Hhh).
    pose proof (Hh e h' Eh'). pose proof (f_equal hash Hhh) as E1. cbn in E1. lia.
  - intros e Hin. destruct (Hd e Hin) as [Hne [h Eh]]. split; [done|].
    destruct (same_lookup _ _ _ _ _ E Eh) as (h' & Eh' & _). by exists h'.
  - done.
  - by rewrite <- He, (static_ents _ _ E).
Qed.

(** A new shape of the list keeps every handle from being linked to itself. *)
Lemma no_self_ring m m' o :
  no_self m -> ring m' o -> (forall z, z ∉ lru_addr :: o -> m' !! z = m !! z) -> no_self m'.
Proof.
  intros Hs Hr Hf e h He Eh. destruct (decide (e ∈ o)) as [Ho|Ho]; [by eapply ring_no_self|].
  apply (Hs e h He). by rewrite <- Hf by set_solver.
Qed.
Lemma no_self_same m m' : erase_hash <$> m' = erase_hash <$> m -> no_self m -> no_self m'.
Proof.
  intros E Hs e h He Eh. destruct (same_lookup _ _ _ _ _ E Eh) as (h' & Eh' & Hh).
  pose proof (Hs e h' He Eh') as Hn. pose proof (f_equal next Hh) as Hx. cbn in Hx. congruence.
Qed.

Lemma rep_keyed c s e : rep c s -> e <> lru_addr -> is_Some (handles c !! e) -> keyed (handles c) e.
Proof.
  intros Hr He [h Eh]. exists h. destruct (stat_refs _ _ (rep_stat _ _ Hr) e h He Eh) as (_ & _ & Hl).
  split; [done|]. split; [by eapply rep_self|done].
Qed.
Lemma rep_order_alloc c s e : rep c s -> e ∈ sp_order s -> e <> lru_addr /\ is_Some (handles c !! e).
Proof.
  intros Hr He. split; [|eapply ring_alloc; [by apply Hr|by right]].
  intros ->. by pose proof (proj2 (rep_ring _ _ Hr)) as [? _]%NoDup_cons.
Qed.
Lemma rep_nodup c s : rep c s -> NoDup (sp_order s).
Proof. intros Hr. by pose proof (proj2 (rep_ring _ _ Hr)) as [_ ?]%NoDup_cons. Qed.

Lemma matches_has_key c s k hash_ e :
  rep c s -> e <> lru_addr -> matches (handles c) k hash_ e <-> has_key (sp_ents s) k hash_ e.
Proof.
  intros Hr He. unfold matches, has_key. rewrite <- (stat_ents _ _ (rep_stat _ _ Hr)), lookup_fmap, lookup_delete_ne by done.
  destruct (handles c !! e) as [h|]; cbn; split.
  - intros (h' & [= <-] & <- & <-). done.
  - intros [= <- <-]. by exists h.
  - by intros (h' & ? & _).
  - done.
Qed.
Lemma find_key_spec s k hash_ :
  match find_key s k hash_ with
  | None => forall e, e ∈ sp_order s -> ~ has_key (sp_ents s) k hash_ e
  | Some e => e ∈ sp_order s /\ has_key (sp_ents s) k hash_ e
  end.
Proof.
  unfold find_key. destruct (filter _ _) as [|e l] eqn:E; cbn.
  - intros e He Hk. assert (e ∈ filter (has_key (sp_ents s) k hash_) (sp_order s)) as Hin
      by by apply list_elem_of_filter.
    rewrite E in Hin. by apply elem_of_nil in Hin.
  - assert (e ∈ filter (has_key (sp_ents s) k hash_) (sp_order s)) as Hin by (rewrite E; by left).
    apply list_elem_of_filter in Hin as [??]. done.
Qed.
(** What the table finds is what the specification finds. *)
Lemma find_key_some c s k hash_ e :
  rep c s -> e ∈ sp_order s -> matches (handles c) k hash_ e -> find_key s k hash_ = Some e.
Proof.
  intros Hr He Hm. apply (matches_has_key c s) in Hm; [|done|by eapply rep_order_alloc].
  pose proof (find_key_spec s k hash_) as Hf. destruct (find_key s k hash_) as [e'|]; [|by destruct (Hf e)].
  destruct Hf as [He' Hk']. f_equal. by eapply stat_unique; [apply Hr|..].
Qed.
Lemma find_key_none c s k hash_ :
  rep c s -> (forall e, e ∈ sp_order s -> ~ matches (handles c) k hash_ e) -> find_key s k hash_ = None.
Proof.
  intros Hr Hm. pose proof (find_key_spec s k hash_) as Hf. destruct (find_key s k hash_) as [e'|]; [|done].
  destruct Hf as [He' Hk']. destruct (Hm e' He'). apply (matches_has_key c s); [done|by eapply rep_order_alloc|done].
Qed.

Lemma without_split e o1 o2 : NoDup (o1 ++ e :: o2) -> without e (o1 ++ e :: o2) = o1 ++ o2.
Proof.
  intros (H1 & H12 & [H2 H3]%NoDup_cons)%NoDup_app. unfold without. rewrite filter_app, filter_cons_False by auto.
  rewrite !filter_all; [done| |]; apply Forall_forall; intros x Hx ->; [done|]. apply (H12 e Hx). by left.
Qed.
Lemma without_elem e x o : x ∈ without e o <-> x <> e /\ x ∈ o.
Proof. unfold without. by rewrite list_elem_of_filter. Qed.

(** ** Giving back a reference *)

Lemma count_unref s e x :
  e ∈ sp_held s -> count (with_order s (sp_order s) (sp_held s ∖ {[+ e +]})) x = count s x - (if decide (x = e) then 1 else 0).
Proof.
  intros He. unfold count, with_order. cbn. rewrite multiplicity_difference.
  destruct (decide (x ∈ sp_order s)), (decide (x = e)) as [->|Hx];
    try (rewrite multiplicity_singleton_ne by done; lia).
  all: rewrite multiplicity_singleton_eq; rewrite elem_of_multiplicity in He; lia.
Qed.
Lemma elem_of_unref s e x : x ∈ sp_held s ∖ {[+ e +]} -> x ∈ sp_held s.
Proof. rewrite !elem_of_multiplicity, multiplicity_difference. lia. Qed.

Lemma count_pos s x : 0 < count s x <-> x ∈ sp_order s \/ x ∈ sp_held s.
Proof.
  unfold count. rewrite elem_of_multiplicity. case_decide; split; intros Hx.
  - by left.
  - lia.
  - right. lia.
  - destruct Hx as [Hx|Hx]; [done|lia].
Qed.

Lemma sum_charges_delete (m : gmap nat Entry) e x :
  m !! e = Some x -> sum_charges (delete e m) = sum_charges m - e_charge x.
Proof.
  intros He. unfold sum_charges. rewrite (map_fold_delete_L _ _ e x m); [lia| |done]. intros; lia.
Qed.
Lemma sum_charges_insert (m : gmap nat Entry) e x :
  m !! e = None -> sum_charges (<[e := x]> m) = sum_charges m + e_charge x.
Proof.
  intros He. unfold sum_charges. rewrite map_fold_insert_L; [lia| |done]. intros; lia.
Qed.
Lemma u64_sub_u64 a b : u64 (u64 a - b) = u64 (a - b).
Proof. unfold u64. by rewrite Zminus_mod_idemp_l. Qed.
Lemma u64_add_u64 a b : u64 (u64 a + b) = u64 (a + b).
Proof. unfold u64. by rewrite Zplus_mod_idemp_l. Qed.

(** A change of a count only. *)
Record refs_only m m' : Prop := {
  ro_ring : forall o, ring m o -> ring m' o;
  ro_table : forall t o, table_ok m t o -> table_ok m' t o;
  ro_self : no_self m -> no_self m';
  ro_ents : ent <$> delete lru_addr m' = ent <$> delete lru_addr m;
  ro_hashes : hashes_ok m -> hashes_ok m';
  ro_dom : forall x, is_Some (m !! x) -> is_Some (m' !! x);
}.
Lemma set_refs_only m e h n : m !! e = Some h -> refs_only m (<[e := set_refs n h]> m).
Proof.
  intros Eh. set (m' := <[e := _]> m).
  assert (Hs : set_refs 0 <$> m' = set_refs 0 <$> m) by by apply (same_insert _ m e h).
  split.
  - intros o. apply (ring_same (set_refs 0)); [done|]. intros h1 h2 E.
    split; [exact (f_equal next E)|exact (f_equal prev E)].
  - intros t o. apply (table_ok_same (set_refs 0)); [done|]. intros h1 h2 E.
    split; [exact (f_equal next_hash E)|exact (f_equal hash E)].
  - intros Hn x hx Hx Ex. destruct (same_lookup _ _ _ _ _ Hs Ex) as (h' & Ex' & E).
    pose proof (Hn x h' Hx Ex'). pose proof (f_equal next E) as E'. cbn in E'. congruence.
  - rewrite !fmap_delete. f_equal. apply (same_coarse _ _ _ _ Hs). intros h1 h2 E. exact (f_equal ent E).
  - intros Hh x hx Ex. destruct (same_lookup _ _ _ _ _ Hs Ex) as (h' & Ex' & E).
    pose proof (Hh x h' Ex'). pose proof (f_equal hash E) as E'. cbn in E'. lia.
  - intros x [hx Ex]. destruct (same_lookup _ _ _ _ _ (eq_sym Hs) Ex) as (h' & Ex' & _). by exists h'.
Qed.

Lemma stat_dec m s e h :
  stat m s -> e ∈ sp_held s -> m !! e = Some h -> 1 < refs h ->
  stat (<[e := set_refs (refs h - 1) h]> m) (with_order s (sp_order s) (sp_held s ∖ {[+ e +]})).
Proof.
  intros Hst He Eh Hr. pose proof (set_refs_only m e h (refs h - 1) Eh) as Ho. split; cbn.
  - intros x hx Hx Ex. rewrite count_unref by done. destruct (decide (x = e)) as [->|Hxe].
    + rewrite lookup_insert_eq in Ex. injection Ex as <-. cbn.
      destruct (stat_refs _ _ Hst e h Hx Eh) as (H1 & H2 & H3). split_and!; [lia|lia|done].
    + rewrite lookup_insert_ne in Ex by done. destruct (stat_refs _ _ Hst x hx Hx Ex) as (H1 & H2 & H3).
      split_and!; [lia|lia|done].
  - apply Ho, Hst.
  - intros x Hx. destruct (stat_held _ _ Hst x (elem_of_unref _ _ _ Hx)) as [Hxl Hxs]. split; [done|].
    by apply (ro_dom _ _ Ho).
  - apply Hst.
  - by rewrite (ro_ents _ _ Ho), (stat_ents _ _ Hst).
Qed.

(** The last reference to [e]: the handle is freed. *)
Lemma stat_free m s e h n ded :
  stat m s -> e ∈ sp_held s -> m !! e = Some h -> refs h = 1 ->
  stat (delete e (<[e := set_refs n h]> m))
    {| sp_cap := sp_cap s; sp_ents := delete e (sp_ents s); sp_order := sp_order s;
       sp_held := sp_held s ∖ {[+ e +]}; sp_deleted := ded |} /\ e ∉ sp_order s /\ e ∉ sp_held s ∖ {[+ e +]}.
Proof.
  intros Hst He Eh Hr. destruct (stat_held _ _ Hst e He) as [Hne _].
  destruct (stat_refs _ _ Hst e h Hne Eh) as (H1 & _ & _). rewrite Hr in H1.
  pose proof (count_unref s e e He) as Hc. rewrite decide_True in Hc by done.
  assert (Hz : ~ (e ∈ sp_order s \/ e ∈ sp_held s ∖ {[+ e +]})).
  { intros Hin. apply (count_pos (with_order s (sp_order s) (sp_held s ∖ {[+ e +]}))) in Hin. lia. }
  split; [|tauto]. rewrite delete_insert_eq. split; cbn.
  - intros x hx Hx [Hxe Ex]%lookup_delete_Some. destruct (stat_refs _ _ Hst x hx Hx Ex) as (H2 & H3 & H4).
    pose proof (count_unref s e x He) as Hcx. rewrite decide_False in Hcx by done.
    unfold count in *. cbn in *. split_and!; [lia|lia|done].
  - intros x hx [Hxe Ex]%lookup_delete_Some. by eapply (stat_hashes _ _ Hst).
  - intros x Hx. destruct (stat_held _ _ Hst x (elem_of_unref _ _ _ Hx)) as [Hxl Hxs]. split; [done|].
    rewrite lookup_delete_ne; [done|]. intros <-. tauto.
  - intros x y k hash_ Hx Hy Hkx Hky. unfold has_key in *.
    rewrite lookup_delete_ne in Hkx by (intros <-; tauto). rewrite lookup_delete_ne in Hky by (intros <-; tauto).
    by apply (stat_unique _ _ Hst x y k hash_).
  - by rewrite delete_delete, fmap_delete, (stat_ents _ _ Hst).
Qed.

Lemma ents_lookup c s e h : rep c s -> e <> lru_addr -> handles c !! e = Some h -> sp_ents s !! e = Some (ent h).
Proof.
  intros Hr Hne Eh. rewrite <- (stat_ents _ _ (rep_stat _ _ Hr)), lookup_fmap, lookup_delete_ne by done.
  by rewrite Eh.
Qed.

Lemma Unref_ok c s e :
  rep c s -> e ∈ sp_held s -> exists c', Unref c e = Some c' /\ rep c' (spec_unref s e).
Proof.
  intros Hr He. pose proof (rep_stat _ _ Hr) as Hst. destruct (stat_held _ _ Hst e He) as [Hne [h Eh]].
  destruct (stat_refs _ _ Hst e h Hne Eh) as (Hrf & Hpos & Hkl). unfold Unref. rewrite Eh. cbn [mbind option_bind].
  rewrite (proj2 (Z.ltb_lt _ _)) by done. cbn [refs set_refs].
  pose proof (set_refs_only (handles c) e h (refs h - 1) Eh) as Ho. unfold spec_unref.
  pose proof (count_unref s e e He) as Hce. rewrite decide_True in Hce by done.
  pose proof (count_pos (with_order s (sp_order s) (sp_held s ∖ {[+ e +]})) e) as Hcp. rewrite Hce in Hcp.
  cbn [sp_order sp_held with_order] in Hcp. destruct (Z.leb_spec (refs h - 1) 0) as [Hz|Hnz].
  - destruct (stat_free (handles c) s e h (refs h - 1)
      (sp_deleted s ++ match sp_ents s !! e with Some x => [(e_deleter x, e_key x, e_value x)] | None => [] end))
      as (Hst' & Heo & Heh); try done; [lia|].
    rewrite decide_False by tauto. pose proof (ents_lookup c s e h Hr Hne Eh) as Hee.
    assert (Hkey : handle_key e (set_refs (refs h - 1) h) = Some (key_data h)).
    { unfold handle_key. cbn. rewrite decide_False by exact (rep_self _ _ Hr e h Hne Eh).
      rewrite Hkl. unfold blen. by rewrite Nat2Z.id, firstn_all. }
    rewrite Hkey. cbn [mbind option_bind]. eexists. split; [done|]. split; cbn.
    + apply (ring_frame (handles c)); [|apply Hr]. intros z Hz'. rewrite delete_insert_eq, lookup_delete_ne; [done|].
      intros <-. apply elem_of_cons in Hz' as [|]; done.
    + apply (table_frame (handles c)); [|apply Hr]. intros z Hz'. rewrite delete_insert_eq, lookup_delete_ne; [done|].
      by intros <-.
    + intros x hx Hx [Hxe Ex]%lookup_delete_Some. by apply (ro_self _ _ Ho (rep_self _ _ Hr)).
    + done.
    + rewrite (rep_usage _ _ Hr). unfold sp_usage. cbn. rewrite (sum_charges_delete _ _ _ Hee). apply u64_sub_u64.
    + apply Hr.
    + by rewrite Hee, (rep_deleted _ _ Hr).
  - rewrite decide_True by (apply Hcp; lia). eexists. split; [done|].
    split; cbn; [apply Ho, Hr|apply Ho, Hr|apply Ho, Hr|apply stat_dec; try done; lia|apply Hr..].
Qed.

(** ** Forgetting an entry *)

Lemma stat_detach m s e :
  stat m s -> e ∈ sp_order s -> e <> lru_addr -> is_Some (m !! e) ->
  stat m (with_order s (without e (sp_order s)) (sp_held s ⊎ {[+ e +]})).
Proof.
  intros Hst He Hne Hal. split; cbn; try apply Hst.
  - intros x hx Hx Ex. destruct (stat_refs _ _ Hst x hx Hx Ex) as (H1 & H2 & H3). split_and!; [|done|done].
    rewrite H1. unfold count. cbn. rewrite multiplicity_disj_union.
    destruct (decide (x = e)) as [->|Hxe].
    + rewrite multiplicity_singleton_eq, decide_True by done.
      rewrite decide_False by (rewrite without_elem; tauto). lia.
    + rewrite multiplicity_singleton_ne by done. pose proof (without_elem e x (sp_order s)) as Hw.
      do 2 case_decide; try tauto; lia.
  - intros x [Hx|Hx]%gmultiset_elem_of_disj_union; [by apply Hst|].
    apply gmultiset_elem_of_singleton in Hx as ->. done.
  - intros x y k hash_ [_ Hx]%without_elem [_ Hy]%without_elem. by apply Hst.
Qed.

(** The list and the table agree that [e] is gone. *)
Lemma rep_detach c s e m t :
  rep c s -> e ∈ sp_order s -> static <$> m = static <$> handles c ->
  ring m (without e (sp_order s)) -> table_ok m t (without e (sp_order s)) -> no_self m ->
  rep (set_table c m t) (with_order s (without e (sp_order s)) (sp_held s ⊎ {[+ e +]})).
Proof.
  intros Hr He Hs Hring Htab Hself. destruct (rep_order_alloc c s e Hr He) as [Hne Hal].
  split; cbn; try done; try apply Hr. apply (stat_same (handles c)); [done|].
  apply stat_detach; [apply Hr|done..].
Qed.
Lemma forget_ok c s e m t :
  rep c s -> e ∈ sp_order s -> static <$> m = static <$> handles c ->
  ring m (without e (sp_order s)) -> table_ok m t (without e (sp_order s)) -> no_self m ->
  exists c', Unref (set_table c m t) e = Some c' /\ rep c' (spec_forget s e).
Proof.
  intros. apply Unref_ok; [by apply rep_detach|]. cbn.
  apply gmultiset_elem_of_disj_union. right. by apply gmultiset_elem_of_singleton.
Qed.

Lemma without_perm e o o' : NoDup o -> o ≡ₚ e :: o' -> o' ≡ₚ without e o.
Proof.
  intros Hn Hp. assert (He : e ∈ o) by (rewrite Hp; by left).
  apply list_elem_of_split in He as (o1 & o2 & ->). rewrite without_split by done.
  apply (Permutation_cons_inv (a := e)). by rewrite <- Hp, Permutation_middle.
Qed.
Lemma order_split c s e :
  rep c s -> e ∈ sp_order s -> exists o1 o2, sp_order s = o1 ++ e :: o2 /\ without e (sp_order s) = o1 ++ o2.
Proof.
  intros Hr He. pose proof (rep_nodup _ _ Hr) as Hn. apply list_elem_of_split in He as (o1 & o2 & E).
  exists o1, o2. rewrite E in *. split; [done|by apply without_split].
Qed.

Lemma LRUCache_Erase_ok c s k hash_ :
  rep c s -> 0 <= hash_ -> exists c', LRUCache_Erase c k hash_ = Some c' /\ rep c' (spec_erase s k hash_).
Proof.
  intros Hr Hh. unfold LRUCache_Erase, spec_erase. pose proof (rep_nodup _ _ Hr) as Hn.
  destruct (Table_Remove_ok (handles c) (table_ c) (sp_order s) k hash_) as
    [(e & m & t & o' & -> & Hm & Hp & Ht & Hs)|[-> Hnone]]; try apply Hr; try done.
  { intros x Hx. destruct (rep_order_alloc c s x Hr Hx). by eapply rep_keyed. }
  2: { rewrite (find_key_none c) by done. exists c. cbn. destruct c; done. }
  cbn [mbind option_bind]. assert (He : e ∈ sp_order s) by (rewrite Hp; by left).
  rewrite (find_key_some c s k hash_ e) by done.
  destruct (order_split c s e Hr He) as (o1 & o2 & E & Ew).
  destruct (LRU_Remove_ok m o1 e o2) as (m' & -> & Hring & Hs' & Hf).
  { rewrite <- E. apply (ring_same erase_hash (handles c)); [done| |apply Hr]. intros h h' Eh.
    split; [exact (f_equal next Eh)|exact (f_equal prev Eh)]. }
  cbn [mbind option_bind]. apply (forget_ok c s e m' t); try done; rewrite ?Ew; try done.
  - rewrite (links_static _ _ Hs'). by apply hash_static.
  - apply (table_ok_same erase_links m); [done| |].
    { intros h h' Eh. split; [exact (f_equal next_hash Eh)|exact (f_equal hash Eh)]. }
    rewrite <- Ew. apply (table_ok_perm _ _ o'); [by apply without_perm|done].
  - apply (no_self_ring m m' (o1 ++ o2)); [|done|done]. eapply no_self_same; [done|apply Hr].
Qed.

(** ** Eviction *)

Lemma keyed_static m m' x h :
  static <$> m' = static <$> m -> no_self m' -> x <> lru_addr -> m !! x = Some h ->
  key_length h = blen (key_data h) -> keyed m' x.
Proof.
  intros Hs Hn Hx Ex Hl. destruct (same_lookup _ _ _ _ _ (eq_sym Hs) Ex) as (h' & Ex' & E).
  exists h'. split; [done|]. split; [by apply Hn|]. pose proof (f_equal key_length E) as E1.
  pose proof (f_equal key_data E) as E2. cbn in E1, E2. congruence.
Qed.
Lemma matches_static m m' k hash_ x : static <$> m = static <$> m' -> matches m k hash_ x -> matches m' k hash_ x.
Proof.
  intros Hs (h & Eh & H1 & H2). destruct (same_lookup _ _ _ _ _ Hs Eh) as (h' & Eh' & E).
  exists h'. split; [done|]. pose proof (f_equal hash E) as E1. pose proof (f_equal key_data E) as E2.
  cbn in E1, E2. split; congruence.
Qed.

Lemma evict_step_ok c s e o m :
  rep c s -> sp_order s = e :: o -> LRU_Remove (handles c) e = Some m ->
  exists h m' t c', m !! e = Some h /\ handle_key e h = Some (key_data h) /\
    Table_Remove m (table_ c) (key_data h) (hash h) = Some (Some e, m', t) /\
    Unref (set_table c m' t) e = Some c' /\ rep c' (spec_forget s e).
Proof.
  intros Hr Ho Hrm. assert (He : e ∈ sp_order s) by (rewrite Ho; by left).
  pose proof (rep_nodup _ _ Hr) as Hn. destruct (rep_order_alloc c s e Hr He) as [Hne [h0 Eh0]].
  pose proof (rep_ring _ _ Hr) as Hring0. rewrite Ho in Hring0.
  destruct (LRU_Remove_ok (handles c) [] e o Hring0) as (m1 & Hrm' & Hring & Hs & Hf).
  rewrite Hrm in Hrm'. injection Hrm' as <-. cbn [app] in *.
  assert (Hst : static <$> m = static <$> handles c) by by apply links_static.
  assert (Hself : no_self m) by (eapply no_self_ring; [apply (rep_self _ _ Hr)|done|done]).
  assert (Hk : forall x, x ∈ sp_order s -> keyed m x).
  { intros x Hx. destruct (rep_order_alloc c s x Hr Hx) as [Hxl [hx Ex]].
    apply (keyed_static (handles c) m x hx); try done. by apply (stat_refs _ _ (rep_stat _ _ Hr) x hx). }
  destruct (same_lookup _ _ _ _ _ (eq_sym Hst) Eh0) as (h & Eh & E).
  exists h. assert (Hhash : hashes_ok m).
  { intros x hx Ex. destruct (same_lookup _ _ _ _ _ Hst Ex) as (h' & Ex' & E').
    pose proof (stat_hashes _ _ (rep_stat _ _ Hr) x h' Ex'). pose proof (f_equal hash E') as E1. cbn in E1. lia. }
  destruct (Table_Remove_ok m (table_ c) (sp_order s) (key_data h) (hash h)) as
    [(e' & m' & t & o' & Htr & Hm & Hp & Ht & Hs')|[_ Hnone]]; try done.
  { apply (table_ok_same erase_links (handles c)); [done| |apply Hr].
    intros h1 h2 E1. split; [exact (f_equal next_hash E1)|exact (f_equal hash E1)]. }
  { by eapply Hhash. }
  2: { destruct (Hnone e He). by exists h. }
  assert (e' = e) as ->.
  { assert (He' : e' ∈ sp_order s) by (rewrite Hp; by left).
    apply (stat_unique _ _ (rep_stat _ _ Hr) e' e (key_data h) (hash h)); try done;
      apply (matches_has_key c s); try done; try (by eapply rep_order_alloc);
      apply (matches_static m); try done. by exists h. }
  assert (Ew : without e (sp_order s) = o) by (rewrite Ho in *; by apply (without_split e [] o)).
  destruct (forget_ok c s e m' t) as (c' & Hu & Hr'); try done; rewrite ?Ew.
  - rewrite (hash_static _ _ Hs'). done.
  - apply (ring_same erase_hash m); [done| |done]. intros h1 h2 E1.
    split; [exact (f_equal next E1)|exact (f_equal prev E1)].
  - rewrite <- Ew. apply (table_ok_perm _ _ o'); [by apply without_perm|done].
  - by eapply no_self_same.
  - exists m', t, c'. split_and!; try done. by apply (handle_key_ok m); [apply Hk|].
Qed.

Lemma sp_order_unref s e : sp_order (spec_unref s e) = sp_order s.
Proof. unfold spec_unref. by case_decide. Qed.
Lemma sp_order_forget s e : sp_order (spec_forget s e) = without e (sp_order s).
Proof. unfold spec_forget. by rewrite sp_order_unref. Qed.

Lemma evict_loop_ok : forall o fuel c s, rep c s -> sp_order s = o -> (length o < fuel)%nat ->
  exists c', evict_loop fuel c = Some c' /\ rep c' (spec_evict o s).
Proof.
  induction o as [|e o IH]; intros fuel c s Hr Ho Hf; (destruct fuel as [|fuel]; [cbn in Hf; lia|]);
    cbn [evict_loop spec_evict]; pose proof (linked_first _ _ _ _ (proj1 (rep_ring _ _ Hr))) as Hnx;
    rewrite Ho in Hnx; destruct (handles c !! lru_addr) as [hl|]; try done; injection Hnx as Hnx;
    cbn [mbind option_bind]; rewrite Hnx; cbn [head default from_option id].
  - rewrite andb_false_r. by exists c.
  - assert (He : e <> lru_addr) by (eapply rep_order_alloc; [done|]; rewrite Ho; by left).
    rewrite (proj2 (Nat.eqb_neq e lru_addr)) by done. cbn [negb]. rewrite andb_true_r.
    rewrite (rep_cap _ _ Hr), (rep_usage _ _ Hr). destruct (sp_cap s <? sp_usage s); [|by exists c].
    pose proof (rep_ring _ _ Hr) as Hring. rewrite Ho in Hring.
    destruct (LRU_Remove_ok (handles c) [] e o Hring) as (m & Hrm & _).
    destruct (evict_step_ok c s e o m Hr Ho Hrm) as (h & m' & t & c' & Eh & Hk & Htr & Hu & Hr').
    rewrite Hrm. cbn [mbind option_bind]. rewrite Eh. cbn [mbind option_bind]. rewrite Hk. cbn [mbind option_bind].
    rewrite Htr. cbn [mbind option_bind]. rewrite Hu. cbn [mbind option_bind].
    apply IH; [done| |cbn in Hf; lia]. rewrite sp_order_forget, Ho.
    apply (without_split e [] o). rewrite <- Ho. by eapply rep_nodup.
Qed.

(** ** Lookup *)

Lemma stat_inc m s e h :
  stat m s -> e <> lru_addr -> m !! e = Some h ->
  stat (<[e := set_refs (refs h + 1) h]> m) (with_order s (sp_order s) (sp_held s ⊎ {[+ e +]})).
Proof.
  intros Hst Hne Eh. pose proof (set_refs_only m e h (refs h + 1) Eh) as Ho. split; cbn.
  - intros x hx Hx Ex. unfold count. cbn. rewrite multiplicity_disj_union. destruct (decide (x = e)) as [->|Hxe].
    + rewrite lookup_insert_eq in Ex. injection Ex as <-. cbn. rewrite multiplicity_singleton_eq.
      destruct (stat_refs _ _ Hst e h Hx Eh) as (H1 & H2 & H3). unfold count in H1. split_and!; [lia|lia|done].
    + rewrite lookup_insert_ne in Ex by done. rewrite multiplicity_singleton_ne, Nat.add_0_r by done.
      by apply Hst.
  - apply Ho, Hst.
  - intros x [Hx|Hx]%gmultiset_elem_of_disj_union.
    + destruct (stat_held _ _ Hst x Hx). split; [done|]. by apply (ro_dom _ _ Ho).
    + apply gmultiset_elem_of_singleton in Hx as ->. split; [done|]. apply (ro_dom _ _ Ho). by exists h.
  - apply Hst.
  - by rewrite (ro_ents _ _ Ho), (stat_ents _ _ Hst).
Qed.
Lemma stat_perm m s o held : sp_order s ≡ₚ o -> stat m (with_order s (sp_order s) held) -> stat m (with_order s o held).
Proof.
  intros Hp [H1 H2 H3 H4 H5]. split; try done.
  - intros e h He Eh. destruct (H1 e h He Eh) as (Hr & ? & ?). split_and!; try done. rewrite Hr.
    unfold count. cbn. destruct (decide (e ∈ sp_order s)) as [Hi|Hi]; rewrite Hp in Hi.
    + by rewrite decide_True.
    + by rewrite decide_False.
  - intros e e' k hash_. cbn. rewrite <- Hp. apply H4.
Qed.

(** A client holds each handle fewer than [2^32 - 2] times, so the counts do not wrap. *)
Definition few_held s : Prop := forall e, Z.of_nat (multiplicity e (sp_held s)) < 2 ^ 32 - 2.

Lemma refs_small c s e h :
  rep c s -> few_held s -> e <> lru_addr -> handles c !! e = Some h -> u32 (refs h + 1) = refs h + 1.
Proof.
  intros Hr Hf Hne Eh. destruct (stat_refs _ _ (rep_stat _ _ Hr) e h Hne Eh) as (-> & Hp & _).
  apply u32_small. pose proof (Hf e). unfold count in *. destruct (decide _); rlia.
Qed.

Lemma LRUCache_Lookup_ok c s k hash_ :
  rep c s -> few_held s -> 0 <= hash_ ->
  exists c', LRUCache_Lookup c k hash_ = Some (fst (spec_lookup s k hash_), c') /\ rep c' (snd (spec_lookup s k hash_)).
Proof.
  intros Hr Hfew Hh. unfold LRUCache_Lookup, spec_lookup.
  destruct (Table_Lookup_ok (handles c) (table_ c) (sp_order s) k hash_) as (r & -> & Hres);
    [apply Hr|by eapply rep_nodup| |done|].
  { intros x Hx. destruct (rep_order_alloc c s x Hr Hx). by eapply rep_keyed. }
  cbn [mbind option_bind]. destruct r as [e|]; [|rewrite (find_key_none c) by done; by exists c].
  destruct Hres as [He Hm]. rewrite (find_key_some c s k hash_ e) by done. cbn [fst snd].
  destruct (rep_order_alloc c s e Hr He) as [Hne [h Eh]]. rewrite Eh. cbn [mbind option_bind].
  rewrite (refs_small c s e h), (store_ok _ _ _ _ Eh) by done. cbn [mbind option_bind].
  set (m0 := <[e := set_refs (refs h + 1) h]> (handles c)).
  pose proof (set_refs_only (handles c) e h (refs h + 1) Eh) as Hro. fold m0 in Hro.
  destruct (order_split c s e Hr He) as (o1 & o2 & E & Ew).
  destruct (LRU_Remove_ok m0 o1 e o2) as (m1 & -> & Hring1 & Hs1 & Hf1); [rewrite <- E; apply Hro, Hr|].
  cbn [mbind option_bind]. pose proof (rep_nodup _ _ Hr) as Hn.
  assert (He1 : e ∉ lru_addr :: o1 ++ o2).
  { intros [->|Hin]%elem_of_cons; [done|]. rewrite <- Ew in Hin. by apply without_elem in Hin as [? _]. }
  assert (Hem1 : m1 !! e = Some (set_refs (refs h + 1) h)) by (rewrite Hf1 by done; apply lookup_insert_eq).
  destruct (LRU_Append_ok m1 (o1 ++ o2) e _ Hring1 He1 Hem1) as (m2 & -> & Hring2 & Hs2 & Hf2).
  cbn [mbind option_bind]. eexists. split; [done|]. rewrite Ew.
  assert (Hs : erase_links <$> m0 = erase_links <$> m2) by by rewrite Hs2.
  assert (Hp : sp_order s ≡ₚ (o1 ++ o2) ++ [e]) by by rewrite E, <- app_assoc, <- Permutation_cons_append.
  split; cbn; try done; try apply Hr.
  - apply (table_ok_same erase_links m0); [done| |].
    { intros h1 h2 E1. split; [exact (f_equal next_hash E1)|exact (f_equal hash E1)]. }
    apply (table_ok_perm _ _ (sp_order s)); [done|]. apply Hro, Hr.
  - apply (no_self_ring m1 m2 ((o1 ++ o2) ++ [e])); [|done|done].
    apply (no_self_ring m0 m1 (o1 ++ o2)); [|done|done]. apply Hro, Hr.
  - apply (stat_same m0); [by apply links_static|]. apply stat_perm; [done|]. apply stat_inc; [apply Hr|done..].
Qed.

(** ** Insertion *)

Definition spec_add s e (x : Entry) : Spec :=
  {| sp_cap := sp_cap s; sp_ents := <[e := x]> (sp_ents s); sp_order := sp_order s ++ [e];
     sp_held := sp_held s ⊎ {[+ e +]}; sp_deleted := sp_deleted s |}.

Lemma stat_insert m s e h :
  stat m s -> m !! e = None -> e <> lru_addr -> (forall x, x ∈ sp_order s -> is_Some (m !! x)) ->
  (forall x, x ∈ sp_order s -> ~ has_key (sp_ents s) (key_data h) (hash h) x) ->
  refs h = 2 -> key_length h = blen (key_data h) -> 0 <= hash h -> stat (<[e := h]> m) (spec_add s e (ent h)).
Proof.
  intros Hst Em Hne Hal Hno Hr Hl Hh.
  assert (Heo : e ∉ sp_order s) by (intros [? ?]%Hal; congruence).
  assert (Heh : e ∉ sp_held s) by (intros [_ [? ?]]%(stat_held _ _ Hst); congruence).
  assert (Hents : forall x k hash_, x ∈ sp_order s -> has_key (<[e := ent h]> (sp_ents s)) k hash_ x -> has_key (sp_ents s) k hash_ x).
  { intros x k hash_ Hx. unfold has_key. rewrite lookup_insert_ne; [done|]. by intros <-. }
  assert (Hnew : forall k hash_, has_key (<[e := ent h]> (sp_ents s)) k hash_ e -> k = key_data h /\ hash_ = hash h).
  { intros k hash_. unfold has_key. rewrite lookup_insert_eq. by intros [= <- <-]. }
  split; cbn.
  - intros x hx Hx Ex. unfold count. cbn. rewrite multiplicity_disj_union. destruct (decide (x = e)) as [->|Hxe].
    + rewrite lookup_insert_eq in Ex. injection Ex as <-. rewrite multiplicity_singleton_eq, decide_True by set_solver.
      assert (multiplicity e (sp_held s) = 0%nat) as -> by (rewrite elem_of_multiplicity in Heh; lia).
      split_and!; [lia|lia|done].
    + rewrite lookup_insert_ne in Ex by done. rewrite multiplicity_singleton_ne, Nat.add_0_r by done.
      destruct (stat_refs _ _ Hst x hx Hx Ex) as (-> & ? & ?). split_and!; try done. unfold count.
      do 2 case_decide; try done; set_solver.
  - intros x hx Ex. destruct (decide (x = e)) as [->|]; [rewrite lookup_insert_eq in Ex; by injection Ex as <-|].
    rewrite lookup_insert_ne in Ex by done. by eapply (stat_hashes _ _ Hst).
  - intros x [Hx|Hx]%gmultiset_elem_of_disj_union.
    + destruct (stat_held _ _ Hst x Hx). split; [done|]. rewrite lookup_insert_ne; [done|]. by intros <-.
    + apply gmultiset_elem_of_singleton in Hx as ->. split; [done|]. rewrite lookup_insert_eq. by eexists.
  - intros x y k hash_ [Hx|Hx%list_elem_of_singleton]%elem_of_app [Hy|Hy%list_elem_of_singleton]%elem_of_app Hkx Hky; subst; try done.
    + by apply (stat_unique _ _ Hst x y k hash_ Hx Hy); apply Hents.
    + apply Hnew in Hky as [-> ->]. by destruct (Hno x Hx (Hents _ _ _ Hx Hkx)).
    + apply Hnew in Hkx as [-> ->]. by destruct (Hno y Hy (Hents _ _ _ Hy Hky)).
  - rewrite delete_insert_ne by done. by rewrite fmap_insert, (stat_ents _ _ Hst).
Qed.

Lemma usage_insert c s e x :
  rep c s -> handles c !! e = None -> u64 (usage_ c + e_charge x) = u64 (sum_charges (<[e := x]> (sp_ents s))).
Proof.
  intros Hr He. rewrite (rep_usage _ _ Hr). unfold sp_usage. rewrite u64_add_u64, sum_charges_insert; [done|].
  rewrite <- (stat_ents _ _ (rep_stat _ _ Hr)), lookup_fmap.
  by rewrite (proj2 (lookup_delete_None (handles c) lru_addr e) (or_intror He)).
Qed.

(** The new handle is linked; the table does not know it yet. *)
Lemma insert_link c s e h :
  rep c s -> handles c !! e = None -> key_length h = blen (key_data h) -> 0 <= hash h ->
  exists m1, LRU_Append (<[e := h]> (handles c)) e = Some m1 /\ ring m1 (sp_order s ++ [e]) /\
    static <$> m1 = static <$> <[e := h]> (handles c) /\ no_self m1 /\ table_ok m1 (table_ c) (sp_order s) /\
    (forall x, x ∈ sp_order s ++ [e] -> keyed m1 x) /\ hashes_ok m1.
Proof.
  intros Hr He Hl Hh. assert (Hne : e <> lru_addr).
  { intros ->. destruct (ring_alloc _ _ lru_addr (rep_ring _ _ Hr)) as [? ?]; [by left|congruence]. }
  assert (Heo : e ∉ sp_order s) by (intros Hx; destruct (rep_order_alloc c s e Hr Hx) as [_ [? ?]]; congruence).
  assert (Hfr : forall z, z <> e -> <[e := h]> (handles c) !! z = handles c !! z) by (intros; by rewrite lookup_insert_ne).
  destruct (LRU_Append_ok (<[e := h]> (handles c)) (sp_order s) e h) as (m1 & Ha & Hring & Hs & Hf).
  { apply (ring_frame (handles c)); [|apply Hr]. intros z Hz. apply Hfr. intros ->. by apply elem_of_cons in Hz as [|]. }
  { by intros [|]%elem_of_cons. }
  { by rewrite lookup_insert_eq. }
  assert (Hself : no_self m1).
  { intros x hx Hx Ex. destruct (decide (x ∈ sp_order s ++ [e])) as [Hin|Hin]; [by eapply ring_no_self|].
    apply (rep_self _ _ Hr x hx Hx). rewrite <- Ex. rewrite Hf by set_solver. symmetry. apply Hfr. set_solver. }
  pose proof (links_static _ _ Hs) as Hst. exists m1. split_and!; try done.
  - apply (table_ok_same erase_links (<[e := h]> (handles c))); [done| |].
    { intros h1 h2 E1. split; [exact (f_equal next_hash E1)|exact (f_equal hash E1)]. }
    apply (table_frame (handles c)); [|apply Hr]. intros z Hz. apply Hfr. by intros ->.
  - intros x [Hx|Hx%list_elem_of_singleton]%elem_of_app.
    + destruct (rep_order_alloc c s x Hr Hx) as [Hxl [hx Ex]].
      apply (keyed_static (<[e := h]> (handles c)) m1 x hx); try done; [rewrite Hfr; [done|by intros ->]|].
      by apply (stat_refs _ _ (rep_stat _ _ Hr) x hx).
    + subst x. apply (keyed_static (<[e := h]> (handles c)) m1 e h); try done. by rewrite lookup_insert_eq.
  - intros x hx Ex. destruct (same_lookup _ _ _ _ _ Hst Ex) as (h' & Ex' & E').
    pose proof (f_equal hash E') as E1. cbn in E1. rewrite <- E1. destruct (decide (x = e)) as [->|].
    + rewrite lookup_insert_eq in Ex'. by injection Ex' as <-.
    + rewrite Hfr in Ex' by done. by eapply (stat_hashes _ _ (rep_stat _ _ Hr)).
Qed.

Lemma without_snoc x e o : x <> e -> without x (o ++ [e]) = without x o ++ [e].
Proof. intros Hx. unfold without. by rewrite filter_app, filter_cons_True by auto. Qed.

Lemma find_forgotten s k hash_ x held y :
  (forall e e', e ∈ sp_order s -> e' ∈ sp_order s -> has_key (sp_ents s) k hash_ e -> has_key (sp_ents s) k hash_ e' -> e = e') ->
  find_key s k hash_ = Some x -> y ∈ sp_order (with_order s (without x (sp_order s)) held) ->
  ~ has_key (sp_ents s) k hash_ y.
Proof.
  intros Hu Hf [Hyx Hy]%without_elem Hk. pose proof (find_key_spec s k hash_) as Hfs. rewrite Hf in Hfs.
  destruct Hfs as [Hx Hkx]. apply Hyx. by apply Hu.
Qed.

(** The shard once the new handle is in the list and in the table; [o0] and [held0] are those
    of the shard before, but for a replaced handle. *)
Lemma attach_ok c s o0 held0 e h m t :
  rep c s -> let s0 := with_order s o0 held0 in
  stat (handles c) s0 -> handles c !! e = None -> (forall x, x ∈ o0 -> is_Some (handles c !! x)) ->
  (forall x, x ∈ o0 -> ~ has_key (sp_ents s) (key_data h) (hash h) x) ->
  refs h = 2 -> key_length h = blen (key_data h) -> 0 <= hash h ->
  static <$> m = static <$> <[e := h]> (handles c) -> ring m (o0 ++ [e]) -> table_ok m t (o0 ++ [e]) -> no_self m ->
  rep {| capacity_ := capacity_ c; usage_ := u64 (usage_ c + charge h); handles := m; table_ := t; deleted := deleted c |}
    (spec_add s0 e (ent h)).
Proof.
  intros Hr s0 Hst He Hal Hno Hrf Hl Hh Hs Hring Htab Hself.
  split; cbn; try done; try apply Hr; [|exact (usage_insert c s e (ent h) Hr He)].
  apply (stat_same (<[e := h]> (handles c))); [done|]. apply stat_insert; try done.
  intros ->. destruct (ring_alloc _ _ lru_addr (rep_ring _ _ Hr)) as [? ?]; [by left|congruence].
Qed.

Lemma spec_add_detach s x e y :
  x <> e -> with_order (spec_add s e y) (without x (sp_order s ++ [e])) ((sp_held s ⊎ {[+ e +]}) ⊎ {[+ x +]}) =
  spec_add (with_order s (without x (sp_order s)) (sp_held s ⊎ {[+ x +]})) e y.
Proof.
  intros Hx. unfold spec_add, with_order. cbn. rewrite without_snoc by done. f_equal. multiset_solver.
Qed.

Definition new_handle k hash_ (v : V) charge_ (d : D) : LRUHandle V D :=
  {| value := v; deleter := d; next_hash := None; next := lru_addr; prev := lru_addr;
     charge := charge_; key_length := blen k; refs := 2; hash := hash_; key_data := k |}.

Lemma LRUCache_Insert_ok c s k hash_ v charge_ d :
  rep c s -> blen (sp_order s) < 2 ^ 31 -> 0 <= hash_ ->
  let e := fresh (dom (handles c)) in
  exists c', LRUCache_Insert c k hash_ v charge_ d = Some (e, c') /\
    rep c' (spec_insert s e {| e_deleter := d; e_key := k; e_value := v; e_charge := charge_; e_hash := hash_ |}).
Proof.
  intros Hr Hb Hh e. unfold LRUCache_Insert. fold e. fold (new_handle k hash_ v charge_ d).
  set (h := new_handle k hash_ v charge_ d).
  assert (He : handles c !! e = None) by (apply not_elem_of_dom, is_fresh).
  assert (Hne : e <> lru_addr).
  { intros E. destruct (ring_alloc _ _ lru_addr (rep_ring _ _ Hr)) as [? ?]; [by left|congruence]. }
  assert (Heo : e ∉ sp_order s) by (intros Hx; destruct (rep_order_alloc c s e Hr Hx) as [_ [? ?]]; congruence).
  destruct (insert_link c s e h Hr He eq_refl Hh) as (m1 & -> & Hring1 & Hst1 & Hself1 & Htab1 & Hk1 & Hh1).
  cbn [mbind option_bind].
  destruct (same_lookup _ _ _ e h (eq_sym Hst1)) as (h1 & Eh1 & E1); [apply lookup_insert_eq|].
  assert (Ek : key_data h1 = k) by exact (f_equal key_data E1). assert (Eha : hash h1 = hash_) by exact (f_equal hash E1).
  assert (Hmat : forall x, x ∈ sp_order s -> matches m1 k hash_ x <-> matches (handles c) k hash_ x).
  { intros x Hx. assert (Hxe : x <> e) by (by intros ->). split; intros Hm.
    - apply (matches_static _ _ _ _ _ Hst1) in Hm as (hx & Ex & ? & ?). rewrite lookup_insert_ne in Ex by done. by exists hx.
    - apply (matches_static _ _ _ _ _ (eq_sym Hst1)). destruct Hm as (hx & Ex & ? & ?). exists hx.
      by rewrite lookup_insert_ne. }
  destruct (Table_Insert_ok m1 (table_ c) (sp_order s) e h1) as (old & m2 & t2 & -> & Hs2 & Hold); try done.
  { by eapply rep_nodup. }
  { intros x Hx. apply Hk1. set_solver. }
  { apply Hk1. set_solver. }
  cbn [mbind option_bind]. rewrite Ek, Eha in Hold.
  pose proof (rep_nodup _ _ Hr) as Hn.
  assert (Hring2 : ring m2 (sp_order s ++ [e])).
  { apply (ring_same erase_hash m1); [done| |done]. intros a b E2.
    split; [exact (f_equal next E2)|exact (f_equal prev E2)]. }
  assert (Hst2 : static <$> m2 = static <$> <[e := h]> (handles c)) by by rewrite (hash_static _ _ Hs2).
  assert (Hself2 : no_self m2) by by eapply no_self_same.
  pose proof (usage_insert c s e (ent h) Hr He) as Hus. cbn [ent e_charge h new_handle charge] in Hus.
  (* the shard once the replaced entry, if any, is gone *)
  assert (exists c2, match old with
      | None => Some {| capacity_ := capacity_ c; usage_ := u64 (usage_ c + charge_); handles := m2; table_ := t2; deleted := deleted c |}
      | Some o => m ← LRU_Remove m2 o;
          Unref {| capacity_ := capacity_ c; usage_ := u64 (usage_ c + charge_); handles := m; table_ := t2; deleted := deleted c |} o
      end = Some c2 /\
    rep c2 (match find_key s k hash_ with None => spec_add s e (ent h) | Some o => spec_forget (spec_add s e (ent h)) o end))
    as (c2 & Hc2 & Hr2).
  { destruct old as [x|].
    - destruct Hold as (o' & Hp & Hm & Ht2). assert (Hx : x ∈ sp_order s) by (rewrite Hp; by left).
      assert (Hxe : x <> e) by (by intros ->). pose proof (find_key_some c s k hash_ x Hr Hx (proj1 (Hmat x Hx) Hm)) as Hfk.
      rewrite Hfk. destruct (order_split c s x Hr Hx) as (o1 & o2 & E & Ew).
      destruct (LRU_Remove_ok m2 o1 x (o2 ++ [e])) as (m3 & -> & Hring3 & Hs3 & Hf3).
      { by rewrite E, <- app_assoc in Hring2. }
      cbn [mbind option_bind]. rewrite app_assoc, <- Ew in Hring3.
      assert (Hst3 : static <$> m3 = static <$> <[e := h]> (handles c)) by by rewrite (links_static _ _ Hs3).
      apply Unref_ok; [|cbn; apply gmultiset_elem_of_disj_union; right; by apply gmultiset_elem_of_singleton].
      cbn [sp_order sp_held spec_add]. rewrite spec_add_detach by done.
      apply (attach_ok c s _ _ e h); try done.
      + apply stat_detach; [apply Hr|done|by eapply rep_order_alloc..].
      + intros y [_ Hy]%without_elem. by eapply rep_order_alloc.
      + intros y Hy. eapply (find_forgotten s k hash_ x ∅); [|done|done]. intros a b. apply (rep_stat _ _ Hr).
      + apply (table_ok_same erase_links m2); [done| |].
        { intros a b E2. split; [exact (f_equal next_hash E2)|exact (f_equal hash E2)]. }
        apply (table_ok_perm _ _ (e :: o')); [|done]. rewrite Permutation_cons_append.
        by rewrite (without_perm x (sp_order s) o').
      + apply (no_self_ring m2 m3 (without x (sp_order s) ++ [e])); [done|done|].
        by rewrite Ew, <- app_assoc.
    - destruct Hold as [Hno Ht2]. rewrite (find_key_none c s) by (try done; intros x Hx Hm; apply (Hno x Hx); by apply Hmat).
      eexists. split; [done|].
      apply (attach_ok c s (sp_order s) (sp_held s) e h m2 t2); try done.
      + destruct s. apply Hr.
      + intros y Hy. by eapply rep_order_alloc.
      + intros y Hy Hk. apply (Hno y Hy). apply Hmat; [done|]. apply (matches_has_key c s); [done|by eapply rep_order_alloc|done].
      + apply (table_ok_perm _ _ (e :: sp_order s)); [|done]. by rewrite Permutation_cons_append. }
  cbn [handles set_handles]. unfold set_handles. cbn [handles capacity_ usage_ table_ deleted]. rewrite Hc2. cbn [mbind option_bind].
  destruct (evict_loop_ok _ (S (size (handles c2))) c2 _ Hr2 eq_refl) as (c3 & -> & Hr3).
  { apply Nat.lt_succ_r, length_le_size; [by eapply rep_nodup|]. intros y Hy. by eapply rep_order_alloc. }
  exists c3. split; [done|]. exact Hr3.
Qed.

(** ** Construction and destruction *)

Definition spec_new (cap : Z) : Spec :=
  {| sp_cap := cap; sp_ents := ∅; sp_order := []; sp_held := ∅; sp_deleted := [] |}.

Lemma LRUCache_new_ok (nv : V) (nd : D) cap :
  exists c, LRUCache_new nv nd = Some c /\ rep (SetCapacity c cap) (spec_new cap).
Proof.
  unfold LRUCache_new, HandleTable_new. set (h0 := {| value := nv |}). set (m0 := {[lru_addr := h0]}).
  assert (Hl0 : m0 !! lru_addr = Some h0) by apply lookup_singleton_eq.
  assert (Hlx : forall e h, m0 !! e = Some h -> e = lru_addr /\ h = h0)
    by (intros e h [-> ->]%lookup_singleton_Some; done).
  destruct (Resize_ok m0 {| length_ := 0; elems_ := 0; list_ := [] |} [] []) as (m & t & -> & Ht & Hs);
    try done; [constructor| |].
  { intros e h Eh. destruct (Hlx e h Eh) as [_ ->]. done. }
  cbn [mbind option_bind]. eexists. split; [done|]. split; cbn; try done.
  - apply (ring_same erase_hash m0); [done| |].
    { intros a b E2. split; [exact (f_equal next E2)|exact (f_equal prev E2)]. }
    split; [split; by rewrite Hl0|apply NoDup_singleton].
  - intros e h He Eh. destruct (same_lookup _ _ _ _ _ Hs Eh) as (h' & Eh' & _). by destruct (Hlx e h' Eh').
  - apply (stat_same m0); [by apply hash_static|]. split; cbn.
    + intros e h He Eh. by destruct (Hlx e h Eh).
    + intros e h Eh. by destruct (Hlx e h Eh) as [_ ->].
    + intros e He. by apply gmultiset_elem_of_empty in He.
    + intros e e' k hash_ He. by apply elem_of_nil in He.
    + apply map_eq. intros i. rewrite lookup_fmap, lookup_empty. destruct (decide (i = lru_addr)) as [->|Hi].
      * by rewrite lookup_delete_eq.
      * rewrite lookup_delete_ne by done. by rewrite lookup_insert_ne, lookup_empty by (intros <-; done).
Qed.

(** The handles from [e] on, each with one reference. *)
Fixpoint last_refs m e (o : list nat) : Prop :=
  match o with
  | [] => e = lru_addr
  | x :: o => e = x /\ x <> lru_addr /\ exists h, m !! x = Some h /\ refs h = 1 /\
      handle_key x h = Some (key_data h) /\ last_refs m (next h) o
  end.
Lemma last_refs_frame m m' o : forall e, (forall x, x ∈ o -> m' !! x = m !! x) -> last_refs m e o -> last_refs m' e o.
Proof.
  induction o as [|x o IH]; intros e Hf; [done|]. intros (-> & Hx & h & Eh & Hr & Hk & Hl).
  split; [done|]. split; [done|]. exists h. rewrite Hf by (by left). split_and!; try done.
  apply IH; [|done]. intros y Hy. apply Hf. by right.
Qed.
Definition calls (ents : gmap nat Entry) (o : list nat) : list (D * bytes * V) :=
  omap (fun e => (fun x => (e_deleter x, e_key x, e_value x)) <$> ents !! e) o.

Lemma destroy_loop_ok : forall o fuel c e, last_refs (handles c) e o -> NoDup o -> (length o < fuel)%nat ->
  exists c', destroy_loop fuel c e = Some c' /\
    deleted c' = deleted c ++ calls (ent <$> handles c) o.
Proof.
  induction o as [|x o IH]; intros fuel c e Hl Hn Hf; (destruct fuel as [|fuel]; [cbn in Hf; lia|]); cbn [destroy_loop].
  - cbn in Hl. subst e. rewrite Nat.eqb_refl. exists c. by rewrite app_nil_r.
  - destruct Hl as (-> & Hx & h & Eh & Hr & Hk & Hl). apply NoDup_cons in Hn as [Hxo Hn].
    rewrite (proj2 (Nat.eqb_neq x lru_addr)) by done. rewrite Eh. cbn [mbind option_bind]. rewrite Hr. cbn [Z.eqb Pos.eqb].
    unfold Unref. rewrite Eh. cbn [mbind option_bind]. rewrite Hr. cbn [refs set_refs].
    change (0 <? 1) with true. change (1 - 1) with 0. change (0 <=? 0) with true. cbn iota.
    assert (Hk' : handle_key x (set_refs 0 h) = Some (key_data h)) by exact Hk. rewrite Hk'. cbn [mbind option_bind].
    destruct (IH fuel {| capacity_ := capacity_ c; usage_ := u64 (usage_ c - charge h); handles := delete x (<[x := set_refs 0 h]> (handles c));
      table_ := table_ c; deleted := deleted c ++ [(deleter h, key_data h, value h)] |} (next h)) as (c' & Hd & Hdel).
    + cbn. revert Hl. apply last_refs_frame. intros y Hy. rewrite delete_insert_eq, lookup_delete_ne; [done|]. by intros ->.
    + done.
    + cbn in Hf. lia.
    + exists c'. split; [exact Hd|]. rewrite Hdel. cbn [deleted handles]. rewrite <- app_assoc. f_equal.
      cbn [calls omap list_omap]. unfold calls. cbn. rewrite !lookup_fmap, Eh. cbn. f_equal.
      apply list_omap_ext, Forall_Forall2_diag, Forall_forall. intros y Hy.
      rewrite !lookup_fmap, delete_insert_eq, lookup_delete_ne; [done|]. by intros ->.
Qed.

(** With no handle held, the destructor calls the deleter of every entry once. *)
Lemma LRUCache_destroy_ok c s :
  rep c s -> sp_held s = ∅ ->
  exists c', LRUCache_destroy c = Some c' /\ deleted c' = sp_deleted s ++ calls (sp_ents s) (sp_order s).
Proof.
  intros Hr Hh. pose proof (rep_nodup _ _ Hr) as Hn. unfold LRUCache_destroy.
  pose proof (linked_first _ _ _ _ (proj1 (rep_ring _ _ Hr))) as Hnx.
  destruct (handles c !! lru_addr) as [hl|] eqn:E0; [|done]. injection Hnx as Hnx. cbn [mbind option_bind].
  destruct (destroy_loop_ok (sp_order s) (S (size (handles c))) c (next hl)) as (c' & -> & Hd).
  - rewrite Hnx. clear Hnx.
    assert (Hgen : forall o a, linked (handles c) a o lru_addr -> (forall x, x ∈ o -> x ∈ sp_order s) ->
              last_refs (handles c) (default lru_addr (head o)) o).
    { induction o as [|x o IH]; intros a Hl Hin; [done|]. destruct Hl as [_ Hl].
      destruct (rep_order_alloc c s x Hr (Hin x ltac:(by left))) as [Hx [h Eh]]. split; [done|]. split; [done|].
      exists h. destruct (stat_refs _ _ (rep_stat _ _ Hr) x h Hx Eh) as (Hrf & _ & _). split_and!; [done| | |].
      - rewrite Hrf. unfold count. rewrite Hh, multiplicity_empty, decide_True by (apply Hin; by left). lia.
      - apply (handle_key_ok (handles c)); [by eapply rep_keyed|done].
      - pose proof (linked_first _ _ _ _ Hl) as Hf. rewrite Eh in Hf. injection Hf as ->.
        apply (IH x); [done|]. intros y Hy. apply Hin. by right. }
    apply (Hgen _ lru_addr); [apply Hr|done].
  - done.
  - apply Nat.lt_succ_r, length_le_size; [done|]. intros y Hy. by eapply rep_order_alloc.
  - exists c'. split; [done|]. rewrite Hd, (rep_deleted _ _ Hr). f_equal.
    apply list_omap_ext, Forall_Forall2_diag, Forall_forall. intros y Hy.
    rewrite <- (stat_ents _ _ (rep_stat _ _ Hr)), !lookup_fmap, lookup_delete_ne; [done|].
    symmetry. by eapply rep_order_alloc.
Qed.

(** C34: A shard implements its specification, which has neither pointers nor counts: on a
    shard that represents [s], a lookup, an erasure, a release of a held handle and an
    insertion return what the specification returns and leave a shard that represents the
    specification's next state.  In particular each of them is defined: the hash table and
    the list agree, no freed handle is read, and the loops end. *)
Theorem lru_shard_refines c s :
  rep c s ->
  (forall k hash_, few_held s -> 0 <= hash_ ->
     exists c', LRUCache_Lookup c k hash_ = Some (fst (spec_lookup s k hash_), c') /\
       rep c' (snd (spec_lookup s k hash_))) /\
  (forall k hash_, 0 <= hash_ ->
     exists c', LRUCache_Erase c k hash_ = Some c' /\ rep c' (spec_erase s k hash_)) /\
  (forall e, e ∈ sp_held s -> exists c', LRUCache_Release c e = Some c' /\ rep c' (spec_unref s e)) /\
  (forall k hash_ v charge_ d, blen (sp_order s) < 2 ^ 31 -> 0 <= hash_ ->
     exists e c', LRUCache_Insert c k hash_ v charge_ d = Some (e, c') /\ sp_ents s !! e = None /\
       rep c' (spec_insert s e {| e_deleter := d; e_key := k; e_value := v; e_charge := charge_; e_hash := hash_ |})).
Proof.
  intros Hr. split_and!.
  - intros. by apply LRUCache_Lookup_ok.
  - intros. by apply LRUCache_Erase_ok.
  - intros. by apply Unref_ok.
  - intros k hash_ v charge_ d Hb Hh. destruct (LRUCache_Insert_ok c s k hash_ v charge_ d Hr Hb Hh) as (c' & Hi & Hr').
    exists (fresh (dom (handles c))), c'. split; [done|]. split; [|done].
    assert (He : handles c !! fresh (dom (handles c)) = None) by (apply not_elem_of_dom, is_fresh).
    rewrite <- (stat_ents _ _ (rep_stat _ _ Hr)), lookup_fmap.
    by rewrite (proj2 (lookup_delete_None (handles c) lru_addr _) (or_intror He)).
Qed.
End Spec.

Lemma lru_shard_refines_witness :
  exists c e c', rep (V := nat) (D := nat) c (spec_new 2) /\
    LRUCache_Insert c [1] 7 10%nat 1 0%nat = Some (e, c') /\
    rep c' (spec_insert (spec_new 2) e {| e_deleter := 0%nat; e_key := [1]; e_value := 10%nat; e_charge := 1; e_hash := 7 |}).
Proof.
  destruct (LRUCache_new_ok 0%nat 0%nat 2) as (c & _ & Hr).
  destruct (proj2 (proj2 (proj2 (lru_shard_refines (SetCapacity c 2) (spec_new 2) Hr))) [1] 7 10%nat 1 0%nat
    ltac:(done) ltac:(lia)) as (e & c' & Hi & _ & Hr').
  exists (SetCapacity c 2), e, c'. split; [exact Hr|]. split; [exact Hi|exact Hr'].
Defined.
