(* ===== verification/CacheSpec.v ===== *)
(** * util/cache: what the sharded cache promises its clients

    Clients insert, look up, release and erase; the client's own state is the handles it
    has not released, the values it has inserted and the latest value of every key.  By
    induction on the steps: no operation reads freed memory, a value a client holds stays
    what it was, a lookup finds nothing but the latest value, and every inserted value is
    handed to its deleter exactly once. *)

From S2P Require Import Prelude Coding Hash Cache CacheProofs LruCache.
From stdpp Require Import gmap gmultiset list.
#[local] Open Scope Z_scope.

(** ** Facts of the specification *)

Section SpecFacts.
Context {V D : Type}.
Implicit Types (s : Spec (V := V) (D := D)) (e : nat) (x : Entry (V := V) (D := D)).

Definition call x : D * bytes * V := (e_deleter x, e_key x, e_value x).

(** The values that are alive and those whose deleter was called. *)
Definition all_calls s : list (D * bytes * V) := (call <$> (map_to_list (sp_ents s)).*2) ++ sp_deleted s.

Lemma live_delete (m : gmap nat (Entry (V := V) (D := D))) e x :
  m !! e = Some x -> call <$> (map_to_list m).*2 ≡ₚ call x :: (call <$> (map_to_list (delete e m)).*2).
Proof. intros He. by rewrite <- (map_to_list_delete m e x He). Qed.

Lemma all_calls_unref s e : all_calls (spec_unref s e) ≡ₚ all_calls s.
Proof.
  unfold spec_unref. case_decide; [done|]. unfold all_calls. cbn. destruct (sp_ents s !! e) as [x|] eqn:Ee.
  - rewrite (live_delete _ _ _ Ee). rewrite app_assoc, Permutation_app_comm. done.
  - by rewrite delete_id, app_nil_r.
Qed.
Lemma all_calls_forget s e : all_calls (spec_forget s e) ≡ₚ all_calls s.
Proof. unfold spec_forget. by rewrite all_calls_unref. Qed.
Lemma all_calls_evict o : forall s, all_calls (spec_evict o s) ≡ₚ all_calls s.
Proof.
  induction o as [|e o IH]; intros s; [done|]. cbn. case_match; [|done]. by rewrite IH, all_calls_forget.
Qed.
Lemma all_calls_lookup s k h : all_calls (snd (spec_lookup s k h)) = all_calls s.
Proof. unfold spec_lookup. by destruct (find_key s k h). Qed.
Lemma all_calls_erase s k h : all_calls (spec_erase s k h) ≡ₚ all_calls s.
Proof. unfold spec_erase. destruct (find_key s k h); [apply all_calls_forget|done]. Qed.
Lemma all_calls_insert s e x : sp_ents s !! e = None -> all_calls (spec_insert s e x) ≡ₚ call x :: all_calls s.
Proof.
  intros He. unfold spec_insert. rewrite all_calls_evict. destruct (find_key s _ _); rewrite ?all_calls_forget;
    unfold all_calls; cbn; by rewrite map_to_list_insert.
Qed.

Lemma unref_held s e : sp_held (spec_unref s e) = sp_held s ∖ {[+ e +]}.
Proof. unfold spec_unref. by case_decide. Qed.
Lemma forget_held s e : sp_held (spec_forget s e) = sp_held s.
Proof. unfold spec_forget. rewrite unref_held. cbn. multiset_solver. Qed.
Lemma evict_held o : forall s, sp_held (spec_evict o s) = sp_held s.
Proof. induction o as [|e o IH]; intros s; [done|]. cbn. case_match; [|done]. by rewrite IH, forget_held. Qed.
Lemma erase_held s k h : sp_held (spec_erase s k h) = sp_held s.
Proof. unfold spec_erase. destruct (find_key s k h); [apply forget_held|done]. Qed.
Lemma insert_held s e x : sp_held (spec_insert s e x) = sp_held s ⊎ {[+ e +]}.
Proof. unfold spec_insert. rewrite evict_held. destruct (find_key s _ _); rewrite ?forget_held; done. Qed.

(** No operation changes an entry. *)
Lemma unref_ents s e : sp_ents (spec_unref s e) ⊆ sp_ents s.
Proof. unfold spec_unref. case_decide; [done|]. apply delete_subseteq. Qed.
Lemma forget_ents s e : sp_ents (spec_forget s e) ⊆ sp_ents s.
Proof. unfold spec_forget. etrans; [apply unref_ents|done]. Qed.
Lemma evict_ents o : forall s, sp_ents (spec_evict o s) ⊆ sp_ents s.
Proof.
  induction o as [|e o IH]; intros s; [done|]. cbn. case_match; [|done]. etrans; [apply IH|apply forget_ents].
Qed.
Lemma erase_ents s k h : sp_ents (spec_erase s k h) ⊆ sp_ents s.
Proof. unfold spec_erase. destruct (find_key s k h); [apply forget_ents|done]. Qed.
Lemma insert_ents s e x : sp_ents (spec_insert s e x) ⊆ <[e := x]> (sp_ents s).
Proof.
  unfold spec_insert. etrans; [apply evict_ents|]. destruct (find_key s _ _); [|done].
  etrans; [apply forget_ents|done].
Qed.

Lemma forget_cap s e : sp_cap (spec_forget s e) = sp_cap s.
Proof. unfold spec_forget, spec_unref. by case_decide. Qed.
Lemma evict_cap o : forall s, sp_cap (spec_evict o s) = sp_cap s.
Proof. induction o as [|e o IH]; intros s; [done|]. cbn. case_match; [|done]. by rewrite IH, forget_cap. Qed.
Lemma insert_cap s e x : sp_cap (spec_insert s e x) = sp_cap s.
Proof. unfold spec_insert. rewrite evict_cap. destruct (find_key s _ _); by rewrite ?forget_cap. Qed.

(** Eviction forgets the oldest entries, and stops once the charges fit. *)
Lemma evict_order : forall o s, sp_order s = o -> NoDup o ->
  exists n, sp_order (spec_evict o s) = drop n o /\
    (sp_usage (spec_evict o s) <= sp_cap s \/ sp_order (spec_evict o s) = []) /\
    ((0 < n)%nat -> sp_cap s < sp_usage s).
Proof.
  induction o as [|e o IH]; intros s Ho Hn; cbn [spec_evict].
  - exists 0%nat. rewrite Ho. split_and!; [done|by right|lia].
  - destruct (Z.ltb_spec (sp_cap s) (sp_usage s)) as [Hlt|Hge].
    + assert (Hw : without e (sp_order s) = o) by (rewrite Ho; by apply (without_split e [])).
      destruct (IH (spec_forget s e)) as (n & Hd & Hfit & _); [by rewrite sp_order_forget|by apply NoDup_cons in Hn as []|].
      rewrite forget_cap in Hfit. exists (S n). by split_and!.
    + exists 0%nat. split_and!; [by rewrite Ho|by left|lia].
Qed.
Lemma evict_sub o : forall s y, sp_order s = o -> NoDup o -> y ∈ sp_order (spec_evict o s) -> y ∈ o.
Proof.
  intros s y Ho Hn Hy. destruct (evict_order o s Ho Hn) as (n & E & _). rewrite E in Hy.
  rewrite <- (take_drop n o). apply elem_of_app. by right.
Qed.

(** An insertion keeps the most recently used entries, the new one last. *)
Lemma insert_order s e x :
  NoDup (sp_order s ++ [e]) ->
  exists n, sp_order (spec_insert s e x) =
    drop n (match find_key s (e_key x) (e_hash x) with None => sp_order s | Some o => without o (sp_order s) end ++ [e]) /\
    (sp_usage (spec_insert s e x) <= sp_cap s \/ sp_order (spec_insert s e x) = []).
Proof.
  intros Hn. pose proof (find_key_spec s (e_key x) (e_hash x)) as Hf. unfold spec_insert.
  destruct (find_key s (e_key x) (e_hash x)) as [z|] eqn:Ez; cbn zeta.
  - destruct Hf as [Hz _]. assert (Hze : z <> e).
    { intros ->. apply NoDup_app in Hn as (_ & Hd & _). apply (Hd e Hz). by left. }
    set (s1 := spec_forget _ z). assert (Ho : sp_order s1 = without z (sp_order s) ++ [e]).
    { unfold s1. rewrite sp_order_forget. by apply without_snoc. }
    destruct (evict_order (sp_order s1) s1 eq_refl) as (n & Hd & Hfit & _).
    { unfold s1. rewrite sp_order_forget. by apply NoDup_filter. }
    exists n. rewrite Hd, Ho in *. split; [done|]. unfold s1 in Hfit at 2. rewrite forget_cap in Hfit. exact Hfit.
  - set (s1 := {| sp_cap := sp_cap s |}). destruct (evict_order (sp_order s1) s1 eq_refl Hn) as (n & Hd & Hfit & _).
    exists n. rewrite Hd in *. done.
Qed.
End SpecFacts.

(** ** Clients *)

Section Clients.
Context {V D : Type} (null_value : V) (null_deleter : D).
Implicit Types (c : ShardedLRUCache V D) (s : Spec (V := V) (D := D)) (k : bytes).

Record Client := {
  c_held : gmultiset CacheHandle;
  c_inserted : list (D * bytes * V);
  c_latest : gmap (list Z) V;
}.

Definition room c : Prop := Forall (fun sh => elems_ (table_ sh) < 2 ^ 31) (shard_ c).
Definition few (g : Client) : Prop := forall p, Z.of_nat (multiplicity p (c_held g)) < 2 ^ 32 - 2.

Inductive client_step : ShardedLRUCache V D * Client -> ShardedLRUCache V D * Client -> Prop :=
| step_insert c g k v charge_ d h c' :
    room c -> Cache_Insert c k v charge_ d = Some (h, c') ->
    client_step (c, g) (c', {| c_held := c_held g ⊎ {[+ h +]}; c_inserted := (d, k, v) :: c_inserted g;
                               c_latest := <[k := v]> (c_latest g) |})
| step_hit c g k h c' :
    few g -> Cache_Lookup c k = Some (Some h, c') ->
    client_step (c, g) (c', {| c_held := c_held g ⊎ {[+ h +]}; c_inserted := c_inserted g; c_latest := c_latest g |})
| step_miss c g k c' :
    few g -> Cache_Lookup c k = Some (None, c') -> client_step (c, g) (c', g)
| step_release c g h c' :
    h ∈ c_held g -> Cache_Release c h = Some c' ->
    client_step (c, g) (c', {| c_held := c_held g ∖ {[+ h +]}; c_inserted := c_inserted g; c_latest := c_latest g |})
| step_erase c g k c' :
    Cache_Erase c k = Some c' ->
    client_step (c, g) (c', {| c_held := c_held g; c_inserted := c_inserted g; c_latest := delete k (c_latest g) |})
| step_new_id c g id c' :
    Cache_NewId c = (id, c') -> client_step (c, g) (c', g).

Definition no_client : Client := {| c_held := ∅; c_inserted := []; c_latest := ∅ |}.

Inductive reachable (capacity : Z) : ShardedLRUCache V D * Client -> Prop :=
| reach_new c : NewLRUCache null_value null_deleter capacity = Some c -> reachable capacity (c, no_client)
| reach_step x y : reachable capacity x -> client_step x y -> reachable capacity y.

(** ** The shards of a reachable cache represent their specifications *)

Definition shard_of k : nat := Z.to_nat (Shard (HashSlice k)).

Lemma shard_of_lt k : (shard_of k < 16)%nat.
Proof.
  unfold shard_of, Shard, kNumShardBits. pose proof (Hash_range k 0) as H. fold (HashSlice k) in H.
  rewrite Z.shiftr_div_pow2 by lia. change (2 ^ (32 - 4)) with 268435456.
  assert (0 <= HashSlice k / 268435456 < 16); [|lia]. split; [apply Z.div_pos; ulia|].
  apply Z.div_lt_upper_bound; ulia.
Qed.
Lemma HashSlice_nonneg k : 0 <= HashSlice k.
Proof. pose proof (Hash_range k 0). unfold HashSlice. rlia. Qed.

Record sim c (g : Client) (ss : list (Spec (V := V) (D := D))) : Prop := {
  sim_shards : Forall2 rep (shard_ c) ss;
  sim_len : length ss = 16%nat;
  sim_placed : forall i s e x, ss !! i = Some s -> sp_ents s !! e = Some x ->
    e_hash x = HashSlice (e_key x) /\ shard_of (e_key x) = i;
  sim_held : forall i s e, ss !! i = Some s -> multiplicity e (sp_held s) = multiplicity (i, e) (c_held g);
  sim_range : forall p, p ∈ c_held g -> (fst p < 16)%nat;
  sim_calls : c_inserted g ≡ₚ concat (all_calls <$> ss);
  sim_latest : forall i s e x, ss !! i = Some s -> e ∈ sp_order s -> sp_ents s !! e = Some x ->
    c_latest g !! e_key x = Some (e_value x);
}.

(** One shard changes. *)
Lemma sim_update c g ss i s g' cs' s' new id :
  sim c g ss -> ss !! i = Some s -> rep cs' s' ->
  (forall e x, sp_ents s' !! e = Some x -> e_hash x = HashSlice (e_key x) /\ shard_of (e_key x) = i) ->
  (forall e, multiplicity e (sp_held s') = multiplicity (i, e) (c_held g')) ->
  (forall p, fst p <> i -> multiplicity p (c_held g') = multiplicity p (c_held g)) ->
  c_inserted g' ≡ₚ new ++ c_inserted g -> all_calls s' ≡ₚ new ++ all_calls s ->
  (forall e x, e ∈ sp_order s' -> sp_ents s' !! e = Some x -> c_latest g' !! e_key x = Some (e_value x)) ->
  (forall k, shard_of k <> i -> c_latest g' !! k = c_latest g !! k) ->
  sim {| shard_ := <[i := cs']> (shard_ c); last_id_ := id |} g' (<[i := s']> ss).
Proof.
  intros Hs Hi Hr Hpl Hh Hho Hins Hcalls Hlat Hlo.
  assert (Hil : (i < length ss)%nat) by by eapply lookup_lt_Some.
  assert (Hcase : forall j t, <[i := s']> ss !! j = Some t -> (j = i /\ t = s') \/ (j <> i /\ ss !! j = Some t)).
  { intros j t Hj. rewrite list_lookup_insert in Hj. case_decide as Hd; [left|right].
    - destruct Hd as [-> _]. by injection Hj as ->.
    - split; [|done]. intros ->. by apply Hd. }
  split; cbn.
  - apply Forall2_insert; [apply Hs|done].
  - rewrite length_insert. apply Hs.
  - intros j t e x [[-> ->]|[_ Hj]]%Hcase; [apply Hpl|by apply (sim_placed _ _ _ Hs j t)].
  - intros j t e [[-> ->]|[Hji Hj]]%Hcase; [apply Hh|]. rewrite Hho by done. by apply Hs.
  - intros p Hp. destruct (decide (fst p = i)) as [->|Hpi]; [rewrite <- (sim_len _ _ _ Hs); done|].
    apply (sim_range _ _ _ Hs). rewrite elem_of_multiplicity in *. by rewrite <- Hho.
  - rewrite list_fmap_insert.
    destruct (concat_split (all_calls <$> ss) i (all_calls s)) as (rest & Hc & Hci).
    { by rewrite list_lookup_fmap, Hi. }
    rewrite Hci, Hins, Hcalls, (sim_calls _ _ _ Hs), Hc. by rewrite app_assoc.
  - intros j t e x [[-> ->]|[Hji Hj]]%Hcase Ho Ex; [by eapply Hlat|].
    rewrite Hlo; [by apply (sim_latest _ _ _ Hs j t e)|].
    destruct (sim_placed _ _ _ Hs j t e x Hj Ex) as [_ ->]. done.
Qed.

Lemma sim_shard c g ss k : sim c g ss -> exists s cs, ss !! shard_of k = Some s /\ shard_ c !! shard_of k = Some cs /\ rep cs s.
Proof.
  intros Hs. pose proof (shard_of_lt k) as Hl. rewrite <- (sim_len _ _ _ Hs) in Hl.
  apply lookup_lt_is_Some_2 in Hl as [s Hi]. destruct (Forall2_lookup_r _ _ _ _ _ (sim_shards _ _ _ Hs) Hi) as (cs & Hc & Hr).
  by exists s, cs.
Qed.

Lemma on_shard_ok {A} c i cs (f : LRUCache V D -> option (A * LRUCache V D)) a cs' :
  shard_ c !! Z.to_nat i = Some cs -> f cs = Some (a, cs') ->
  on_shard c i f = Some (a, {| shard_ := <[Z.to_nat i := cs']> (shard_ c); last_id_ := last_id_ c |}).
Proof. intros Hc Hf. unfold on_shard. rewrite Hc. cbn. by rewrite Hf. Qed.

(** The handles of one shard among all handles. *)
Lemma decide_pair {A} (i e y : nat) (a b : A) :
  (if decide ((i, y) = (i, e)) then a else b) = (if decide (y = e) then a else b).
Proof. do 2 case_decide; congruence. Qed.
Lemma held_add (i e y : nat) (X : gmultiset nat) (Y : gmultiset CacheHandle) :
  multiplicity y X = multiplicity (i, y) Y ->
  multiplicity y (X ⊎ {[+ e +]}) = multiplicity (i, y) (Y ⊎ {[+ (i, e) +]}).
Proof. intros H. by rewrite !multiplicity_disj_union, H, !multiplicity_singleton, decide_pair. Qed.
Lemma held_sub (i e y : nat) (X : gmultiset nat) (Y : gmultiset CacheHandle) :
  multiplicity y X = multiplicity (i, y) Y ->
  multiplicity y (X ∖ {[+ e +]}) = multiplicity (i, y) (Y ∖ {[+ (i, e) +]}).
Proof. intros H. by rewrite !multiplicity_difference, H, !multiplicity_singleton, decide_pair. Qed.
Lemma held_add_other (i e : nat) (p : CacheHandle) (Y : gmultiset CacheHandle) :
  fst p <> i -> multiplicity p (Y ⊎ {[+ (i, e) +]}) = multiplicity p Y.
Proof. intros H. rewrite multiplicity_disj_union, multiplicity_singleton_ne; [lia|]. by intros ->. Qed.
Lemma held_sub_other (i e : nat) (p : CacheHandle) (Y : gmultiset CacheHandle) :
  fst p <> i -> multiplicity p (Y ∖ {[+ (i, e) +]}) = multiplicity p Y.
Proof. intros H. rewrite multiplicity_difference, multiplicity_singleton_ne; [lia|]. by intros ->. Qed.

(** A handle that is held is alive. *)
Lemma sim_value c g ss i e :
  sim c g ss -> (i, e) ∈ c_held g ->
  exists cs s x h, ss !! i = Some s /\ shard_ c !! i = Some cs /\ rep cs s /\ e ∈ sp_held s /\
    sp_ents s !! e = Some x /\ handle_at c (i, e) = Some h /\ x = ent h.
Proof.
  intros Hs Hp. pose proof (sim_range _ _ _ Hs _ Hp) as Hl. cbn in Hl. rewrite <- (sim_len _ _ _ Hs) in Hl.
  apply lookup_lt_is_Some_2 in Hl as [s Hi]. destruct (Forall2_lookup_r _ _ _ _ _ (sim_shards _ _ _ Hs) Hi) as (cs & Hc & Hr).
  assert (He : e ∈ sp_held s).
  { rewrite elem_of_multiplicity in *. by rewrite (sim_held _ _ _ Hs i s e Hi). }
  destruct (stat_held _ _ (rep_stat _ _ Hr) e He) as [Hne [h Eh]]. exists cs, s, (ent h), h.
  split_and!; try done; [by eapply ents_lookup|]. unfold handle_at. cbn. rewrite Hc. cbn. done.
Qed.

(** The values of handles that stay held do not change. *)
Definition stable c c' (g g' : Client) : Prop :=
  forall p, p ∈ c_held g -> p ∈ c_held g' -> Cache_Value c' p = Cache_Value c p.
Lemma sim_stable c g ss i s g' cs' s' id :
  sim c g ss -> ss !! i = Some s ->
  sim {| shard_ := <[i := cs']> (shard_ c); last_id_ := id |} g' (<[i := s']> ss) ->
  (forall e x x', sp_ents s !! e = Some x -> sp_ents s' !! e = Some x' -> x = x') ->
  stable c {| shard_ := <[i := cs']> (shard_ c); last_id_ := id |} g g'.
Proof.
  intros Hs Hi Hs' Hsub [j e] Hp Hp'.
  destruct (sim_value _ _ _ j e Hs Hp) as (cs1 & s1 & x1 & h1 & Hi1 & _ & _ & _ & Hx1 & Hv1 & E1).
  destruct (sim_value _ _ _ j e Hs' Hp') as (cs2 & s2 & x2 & h2 & Hi2 & _ & _ & _ & Hx2 & Hv2 & E2).
  unfold Cache_Value. rewrite Hv1, Hv2. cbn. f_equal. assert (x1 = x2) as Hx; [|].
  2: { rewrite E1, E2 in Hx. symmetry. exact (f_equal e_value Hx). }
  destruct (decide (j = i)) as [->|Hj].
  - rewrite list_lookup_insert_eq in Hi2 by (by eapply lookup_lt_Some).
    injection Hi2 as <-. rewrite Hi in Hi1. injection Hi1 as <-. by eapply Hsub.
  - rewrite list_lookup_insert_ne in Hi2 by done. congruence.
Qed.

Lemma insert_order_sub s e (x : Entry (V := V) (D := D)) y :
  NoDup (sp_order s ++ [e]) -> y ∈ sp_order (spec_insert s e x) ->
  y = e \/ (y ∈ sp_order s /\ find_key s (e_key x) (e_hash x) <> Some y).
Proof.
  intros Hn Hy. unfold spec_insert in Hy. apply evict_sub in Hy; [|done|].
  - destruct (find_key s _ _) as [z|].
    + rewrite sp_order_forget in Hy. apply without_elem in Hy as [Hyz Hy]. cbn in Hy.
      apply elem_of_app in Hy as [Hy|Hy%list_elem_of_singleton]; [right|by left]. split; [done|]. congruence.
    + cbn in Hy. apply elem_of_app in Hy as [Hy|Hy%list_elem_of_singleton]; [right|by left]. done.
  - destruct (find_key s _ _) as [z|]; [|done]. rewrite sp_order_forget. by apply NoDup_filter.
Qed.

Lemma insert_sim c g ss k v charge_ d :
  sim c g ss -> room c -> exists e c' ss', Cache_Insert c k v charge_ d = Some ((shard_of k, e), c') /\
    sim c' {| c_held := c_held g ⊎ {[+ (shard_of k, e) +]}; c_inserted := (d, k, v) :: c_inserted g;
              c_latest := <[k := v]> (c_latest g) |} ss' /\
    Cache_Value c' (shard_of k, e) = Some v /\ (shard_of k, e) ∉ c_held g /\
    stable c c' g {| c_held := c_held g ⊎ {[+ (shard_of k, e) +]}; c_inserted := (d, k, v) :: c_inserted g;
              c_latest := <[k := v]> (c_latest g) |}.
Proof.
  intros Hs Hroom. destruct (sim_shard c g ss k Hs) as (s & cs & Hi & Hc & Hr).
  set (x := {| e_deleter := d; e_key := k; e_value := v; e_charge := charge_; e_hash := HashSlice k |}).
  destruct (LRUCache_Insert_ok cs s k (HashSlice k) v charge_ d Hr) as (cs' & Hins & Hr').
  { rewrite <- (table_elems _ _ _ (rep_table _ _ Hr)). by eapply (Forall_lookup_1 _ _ _ _ Hroom). }
  { apply HashSlice_nonneg. }
  set (e := fresh (dom (handles cs))) in *. exists e.
  assert (He : handles cs !! e = None) by (apply not_elem_of_dom, is_fresh).
  assert (Hee : sp_ents s !! e = None).
  { rewrite <- (stat_ents _ _ (rep_stat _ _ Hr)), lookup_fmap.
    by rewrite (proj2 (lookup_delete_None (handles cs) lru_addr e) (or_intror He)). }
  assert (Heo : NoDup (sp_order s ++ [e])).
  { apply NoDup_app. split; [by eapply rep_nodup|]. split; [|apply NoDup_singleton].
    intros y Hy Hye%list_elem_of_singleton. subst y. destruct (rep_order_alloc cs s e Hr Hy) as [_ [? ?]]. congruence. }
  assert (Hents : forall y z, sp_ents (spec_insert s e x) !! y = Some z ->
            (y = e /\ z = x) \/ (y <> e /\ sp_ents s !! y = Some z)).
  { intros y z Hy. pose proof (lookup_weaken _ _ _ _ Hy (insert_ents s e x)) as Hz.
    apply lookup_insert_Some in Hz as [[-> ->]|[Hne Hz]]; [by left|right; auto]. }
  assert (Hsim : sim {| shard_ := <[shard_of k := cs']> (shard_ c); last_id_ := last_id_ c |}
    {| c_held := c_held g ⊎ {[+ (shard_of k, e) +]}; c_inserted := (d, k, v) :: c_inserted g; c_latest := <[k := v]> (c_latest g) |}
    (<[shard_of k := spec_insert s e x]> ss)).
  { apply (sim_update c g ss (shard_of k) s _ cs' _ [(d, k, v)]); try done.
    - intros y z [[-> ->]|[_ Hz]]%Hents; [done|]. by apply (sim_placed _ _ _ Hs (shard_of k) s y).
    - intros y. cbn. rewrite insert_held. by apply held_add, (sim_held _ _ _ Hs).
    - intros p Hp. cbn. by apply held_add_other.
    - by rewrite (all_calls_insert s e x Hee).
    - intros y z Hy Hz. cbn. destruct (insert_order_sub s e x y Heo Hy) as [->|[Hyo Hnf]];
        (apply Hents in Hz as [[Hye ->]|[Hye Hz]]; [|try done]); cbn.
      + by rewrite lookup_insert_eq.
      + subst y. by rewrite lookup_insert_eq.
      + rewrite lookup_insert_ne; [by apply (sim_latest _ _ _ Hs (shard_of k) s y)|].
        intros Ek. apply Hnf, (find_key_some cs); [done|done|].
        apply (matches_has_key cs s); [done|by eapply rep_order_alloc|]. unfold has_key. rewrite Hz. cbn.
        destruct (sim_placed _ _ _ Hs _ _ _ _ Hi Hz) as [Eh _]. by rewrite Eh, Ek.
    - intros k' Hk'. cbn. rewrite lookup_insert_ne; [done|]. by intros <-. }
  eexists _, _. split; [|split; [exact Hsim|split; [|split]]].
  - apply (on_shard_ok _ _ cs _ _ cs'); [done|]. rewrite Hins. done.
  - destruct (sim_value _ _ _ (shard_of k) e Hsim) as (cs1 & s1 & x1 & h & Hi1 & _ & _ & _ & Hx1 & Hv & ->).
    { cbn. apply gmultiset_elem_of_disj_union. right. by apply gmultiset_elem_of_singleton. }
    unfold Cache_Value. rewrite Hv. cbn. f_equal.
    rewrite list_lookup_insert_eq in Hi1 by (by eapply lookup_lt_Some). injection Hi1 as <-.
    apply Hents in Hx1 as [[_ Hx]|[? _]]; [|done]. exact (f_equal e_value Hx).
  - intros Hin. destruct (sim_value _ _ _ (shard_of k) e Hs Hin) as (cs1 & s1 & x1 & h & Hi1 & _ & _ & _ & Hx1 & _).
    simplify_eq.
  - apply (sim_stable c g ss (shard_of k) s _ _ _ _ Hs Hi Hsim). intros y a b Ha Hb.
    apply Hents in Hb as [[-> ->]|[_ Hb]]; simplify_eq. done.
Qed.

Lemma and_dep (P Q : Prop) : (P -> Q) -> P -> P /\ Q.
Proof. tauto. Qed.
Lemma few_shard c g ss i s : sim c g ss -> few g -> ss !! i = Some s -> few_held s.
Proof. intros Hs Hf Hi e. rewrite (sim_held _ _ _ Hs i s e Hi). apply Hf. Qed.

Lemma lookup_sim c g ss k :
  sim c g ss -> few g ->
  (exists e c' ss', Cache_Lookup c k = Some (Some (shard_of k, e), c') /\
     sim c' {| c_held := c_held g ⊎ {[+ (shard_of k, e) +]}; c_inserted := c_inserted g; c_latest := c_latest g |} ss' /\
     is_Some (c_latest g !! k) /\ Cache_Value c' (shard_of k, e) = c_latest g !! k /\
     stable c c' g {| c_held := c_held g ⊎ {[+ (shard_of k, e) +]}; c_inserted := c_inserted g; c_latest := c_latest g |}) \/
  (exists c' ss', Cache_Lookup c k = Some (None, c') /\ sim c' g ss' /\ stable c c' g g).
Proof.
  intros Hs Hfew. destruct (sim_shard c g ss k Hs) as (s & cs & Hi & Hc & Hr).
  destruct (LRUCache_Lookup_ok cs s k (HashSlice k) Hr) as (cs' & Hl & Hr'); [by eapply few_shard|apply HashSlice_nonneg|].
  assert (Hos : Cache_Lookup c k = Some (option_map (pair (shard_of k)) (fst (spec_lookup s k (HashSlice k))),
    {| shard_ := <[shard_of k := cs']> (shard_ c); last_id_ := last_id_ c |})).
  { apply (on_shard_ok _ _ cs); [done|]. rewrite Hl. done. }
  pose proof (find_key_spec s k (HashSlice k)) as Hfk.
  unfold spec_lookup in *. destruct (find_key s k (HashSlice k)) as [e|]; cbn [fst snd option_map] in *.
  - left. destruct Hfk as [Heo Hk]. exists e.
    assert (Hord : forall y, y ∈ without e (sp_order s) ++ [e] -> y ∈ sp_order s).
    { intros y [[_ Hy]%without_elem|Hy%list_elem_of_singleton]%elem_of_app; by subst. }
    assert (Hsim : sim {| shard_ := <[shard_of k := cs']> (shard_ c); last_id_ := last_id_ c |}
      {| c_held := c_held g ⊎ {[+ (shard_of k, e) +]}; c_inserted := c_inserted g; c_latest := c_latest g |}
      (<[shard_of k := with_order s (without e (sp_order s) ++ [e]) (sp_held s ⊎ {[+ e +]})]> ss)).
    { apply (sim_update c g ss (shard_of k) s _ cs' _ []); try done.
      - intros y z Hz. by apply (sim_placed _ _ _ Hs _ s y).
      - intros y. cbn. by apply held_add, (sim_held _ _ _ Hs).
      - intros p Hp. cbn. by apply held_add_other.
      - intros y z Hy Hz. by apply (sim_latest _ _ _ Hs _ s y z Hi (Hord y Hy)). }
    eexists _, _. split; [exact Hos|]. split; [exact Hsim|].
    destruct (sim_value _ _ _ (shard_of k) e Hsim) as (cs1 & s1 & x1 & h & Hi1 & _ & _ & _ & Hx1 & Hv & ->).
    { cbn. apply gmultiset_elem_of_disj_union. right. by apply gmultiset_elem_of_singleton. }
    rewrite list_lookup_insert_eq in Hi1 by (by eapply lookup_lt_Some). injection Hi1 as <-. cbn in Hx1.
    pose proof (sim_latest _ _ _ Hs _ s e _ Hi Heo Hx1) as Hlat. unfold has_key in Hk. rewrite Hx1 in Hk. cbn in Hk, Hlat.
    injection Hk as Hk _. rewrite Hk in Hlat. rewrite Hlat. split; [by eexists|]. split; [unfold Cache_Value; rewrite Hv; done|].
    apply (sim_stable c g ss (shard_of k) s _ _ _ _ Hs Hi Hsim). intros y a b Ha Hb. cbn in Hb. congruence.
  - right. eexists _, (<[shard_of k := s]> ss). split; [exact Hos|]. apply and_dep.
    { intros Hsim. apply (sim_stable c g ss (shard_of k) s _ _ _ _ Hs Hi Hsim). congruence. }
    apply (sim_update c g ss (shard_of k) s _ cs' _ []); try done.
    + intros y z Hz. by apply (sim_placed _ _ _ Hs _ s y).
    + intros y. by apply (sim_held _ _ _ Hs).
    + intros y z Hy Hz. by apply (sim_latest _ _ _ Hs _ s y z Hi).
Qed.

Lemma release_sim c g ss p :
  sim c g ss -> p ∈ c_held g ->
  exists c' ss', Cache_Release c p = Some c' /\
    sim c' {| c_held := c_held g ∖ {[+ p +]}; c_inserted := c_inserted g; c_latest := c_latest g |} ss' /\
    stable c c' g {| c_held := c_held g ∖ {[+ p +]}; c_inserted := c_inserted g; c_latest := c_latest g |}.
Proof.
  intros Hs Hp. destruct p as [i e].
  destruct (sim_value c g ss i e Hs Hp) as (cs & s & x & h & Hi & Hc & Hr & He & Hx & Hh & Hxh).
  destruct (sim_placed _ _ _ Hs i s e x Hi Hx) as [Hhash Hsh].
  assert (Hix : Z.to_nat (Shard (hash h)) = i) by (rewrite <- Hsh; unfold shard_of; by rewrite <- Hhash, Hxh).
  destruct (Unref_ok cs s e Hr He) as (cs' & Hu & Hr').
  eexists _, (<[i := spec_unref s e]> ss). split.
  - unfold Cache_Release. rewrite Hh. cbn [mbind option_bind fst snd]. rewrite decide_True by done.
    erewrite (on_shard_ok c (Shard (hash h)) cs _ tt cs'); [done|by rewrite Hix|]. unfold LRUCache_Release. rewrite Hu. done.
  - cbn [snd]. rewrite Hix. apply and_dep.
    { intros Hsim. apply (sim_stable c g ss i s _ _ _ _ Hs Hi Hsim). intros y a b Ha Hb.
      pose proof (lookup_weaken _ _ _ _ Hb (unref_ents s e)). congruence. }
    apply (sim_update c g ss i s _ cs' _ []); try done.
    + intros y z Hz. apply (sim_placed _ _ _ Hs i s y); [done|]. by eapply lookup_weaken, unref_ents.
    + intros y. cbn. rewrite unref_held. by apply held_sub, (sim_held _ _ _ Hs).
    + intros q Hq. cbn. by apply held_sub_other.
    + by rewrite all_calls_unref.
    + intros y z Hy Hz. rewrite sp_order_unref in Hy. apply (sim_latest _ _ _ Hs i s y z Hi Hy).
      by eapply lookup_weaken, unref_ents.
Qed.

Lemma erase_sim c g ss k :
  sim c g ss -> exists c' ss', Cache_Erase c k = Some c' /\
    sim c' {| c_held := c_held g; c_inserted := c_inserted g; c_latest := delete k (c_latest g) |} ss' /\
    stable c c' g {| c_held := c_held g; c_inserted := c_inserted g; c_latest := delete k (c_latest g) |}.
Proof.
  intros Hs. destruct (sim_shard c g ss k Hs) as (s & cs & Hi & Hc & Hr).
  destruct (LRUCache_Erase_ok cs s k (HashSlice k) Hr (HashSlice_nonneg k)) as (cs' & Hu & Hr').
  eexists _, (<[shard_of k := spec_erase s k (HashSlice k)]> ss). split.
  - unfold Cache_Erase. erewrite (on_shard_ok c _ cs _ tt cs'); [done|done|]. rewrite Hu. done.
  - cbn [snd]. apply and_dep.
    { intros Hsim. apply (sim_stable c g ss (shard_of k) s _ _ _ _ Hs Hi Hsim). intros y a b Ha Hb.
      pose proof (lookup_weaken _ _ _ _ Hb (erase_ents s k (HashSlice k))). congruence. }
    apply (sim_update c g ss (shard_of k) s _ cs' _ []); try done.
    + intros y z Hz. apply (sim_placed _ _ _ Hs _ s y); [done|]. by eapply lookup_weaken, erase_ents.
    + intros y. rewrite erase_held. by apply (sim_held _ _ _ Hs).
    + by rewrite all_calls_erase.
    + intros y z Hy Hz. pose proof (lookup_weaken _ _ _ _ Hz (erase_ents s k (HashSlice k))) as Hz'.
      assert (Hyo : y ∈ sp_order s /\ find_key s k (HashSlice k) <> Some y).
      { unfold spec_erase in Hy. destruct (find_key s k (HashSlice k)) as [w|]; [|done].
        rewrite sp_order_forget in Hy. apply without_elem in Hy as [??]. split; [done|]. congruence. }
      destruct Hyo as [Hyo Hnf]. cbn. rewrite lookup_delete_ne; [by apply (sim_latest _ _ _ Hs (shard_of k) s y)|].
      intros Ek. apply Hnf, (find_key_some cs); [done|done|].
      apply (matches_has_key cs s); [done|by eapply rep_order_alloc|]. unfold has_key. rewrite Hz'. cbn.
      destruct (sim_placed _ _ _ Hs _ _ _ _ Hi Hz') as [Eh _]. by rewrite Eh, Ek.
    + intros k' Hk'. cbn. rewrite lookup_delete_ne; [done|]. by intros <-.
Qed.

Lemma new_sim capacity :
  exists c ss, NewLRUCache null_value null_deleter capacity = Some c /\ sim c no_client ss.
Proof.
  set (cap := u64 (capacity + (kNumShards - 1)) / kNumShards).
  destruct (LRUCache_new_ok null_value null_deleter cap) as (c0 & Hc & Hr).
  unfold NewLRUCache. rewrite Hc. cbn [mbind option_bind]. fold cap.
  eexists _, (replicate 16 (spec_new cap)). split; [done|].
  assert (Hlk : forall i s, replicate 16 (spec_new cap) !! i = Some s -> s = spec_new cap)
    by (intros i s [-> _]%lookup_replicate; done).
  split; cbn [shard_]; try done.
  - change (Z.to_nat kNumShards) with 16%nat. by apply Forall2_replicate.
  - intros i s e x E%Hlk. by subst.
  - intros i s e E%Hlk. by subst.
  - intros p Hp. by apply gmultiset_elem_of_empty in Hp.
  - intros i s e x E%Hlk Hin. subst. by apply elem_of_nil in Hin.
Qed.

Lemma reachable_sim capacity x : reachable capacity x -> exists ss, sim (fst x) (snd x) ss.
Proof.
  induction 1 as [c Hc|x y Hx [ss Hs] Hst].
  - destruct (new_sim capacity) as (c' & ss & Hc' & Hs). rewrite Hc in Hc'. injection Hc' as <-. by exists ss.
  - destruct Hst as [c g k v charge_ d h c' Hroom Hop|c g k h c' Hfew Hop|c g k c' Hfew Hop|c g h c' Hh Hop|c g k c' Hop|c g id c' Hop];
      cbn [fst snd] in *.
    + destruct (insert_sim c g ss k v charge_ d Hs Hroom) as (e & c1 & ss' & Hi & Hs' & _).
      rewrite Hop in Hi. injection Hi as -> ->. by exists ss'.
    + destruct (lookup_sim c g ss k Hs Hfew) as [(e & c1 & ss' & Hi & Hs' & _)|(c1 & ss' & Hi & _)];
        rewrite Hop in Hi; [|done]. injection Hi as -> ->. by exists ss'.
    + destruct (lookup_sim c g ss k Hs Hfew) as [(e & c1 & ss' & Hi & _)|(c1 & ss' & Hi & Hs' & _)];
        rewrite Hop in Hi; [done|]. injection Hi as ->. by exists ss'.
    + destruct (release_sim c g ss h Hs Hh) as (c1 & ss' & Hi & Hs' & _). rewrite Hop in Hi. injection Hi as ->. by exists ss'.
    + destruct (erase_sim c g ss k Hs) as (c1 & ss' & Hi & Hs' & _). rewrite Hop in Hi. injection Hi as ->. by exists ss'.
    + unfold Cache_NewId in Hop. injection Hop as _ <-. exists ss. destruct Hs. by split.
Qed.

(** ** Destruction *)

Lemma calls_all : forall (o : list nat) (m : gmap nat (Entry (V := V) (D := D))),
  NoDup o -> (forall e, is_Some (m !! e) <-> e ∈ o) -> calls m o ≡ₚ call <$> (map_to_list m).*2.
Proof.
  induction o as [|e o IH]; intros m Hn Hd.
  - assert (m = ∅) as ->; [|by rewrite map_to_list_empty]. apply map_eq. intros i. rewrite lookup_empty.
    destruct (m !! i) eqn:Ei; [|done]. assert (Hi : i ∈ []) by (apply Hd; by eexists). by apply elem_of_nil in Hi.
  - apply NoDup_cons in Hn as [He Hn]. destruct (proj2 (Hd e)) as [x Ex]; [by left|].
    rewrite (live_delete m e x Ex). unfold calls. cbn. rewrite Ex. cbn. f_equiv.
    rewrite <- (IH (delete e m)); [|done|].
    + apply Permutation_refl', list_omap_ext, Forall_Forall2_diag, Forall_forall. intros y Hy.
      rewrite lookup_delete_ne; [done|]. by intros ->.
    + intros y. rewrite lookup_delete_is_Some, Hd, elem_of_cons. split; [intros [? [?|?]]; congruence|].
      intros Hy. split; [by intros ->|by right].
Qed.

Lemma destroy_all cs ss :
  Forall2 rep cs ss -> (forall s, s ∈ ss -> sp_held s = ∅) ->
  exists cs', mapM LRUCache_destroy cs = Some cs' /\ concat (deleted <$> cs') ≡ₚ concat (all_calls <$> ss).
Proof.
  induction 1 as [|c s cs ss Hr _ IH]; intros Hh; [by exists []|].
  destruct (LRUCache_destroy_ok c s Hr) as (c' & Hc & Hdel); [apply Hh; by left|].
  destruct IH as (cs' & Hcs & Hp); [intros t Ht; apply Hh; by right|].
  exists (c' :: cs'). cbn. rewrite Hc. cbn. rewrite Hcs. cbn. split; [done|]. rewrite Hp, Hdel.
  f_equiv. unfold all_calls. rewrite Permutation_app_comm. f_equiv. apply calls_all; [by eapply rep_nodup|].
  intros e. rewrite <- (stat_ents _ _ (rep_stat _ _ Hr)), lookup_fmap, fmap_is_Some, lookup_delete_is_Some.
  split; [|intros He; destruct (rep_order_alloc c s e Hr He); auto].
  intros [Hne [h Eh]]. destruct (stat_refs _ _ (rep_stat _ _ Hr) e h (not_eq_sym Hne) Eh) as (-> & Hpos & _).
  apply count_pos in Hpos as [?|Hin]; [done|]. rewrite (Hh s ltac:(by left)) in Hin. by apply gmultiset_elem_of_empty in Hin.
Qed.

(** ** What clients may rely on *)

(** C33: In every state that clients can reach, every operation of the cache is defined: no
    operation reads a freed handle, follows a null pointer or fails an assertion, and its
    loops end.  An insertion returns a handle nobody holds, with the inserted value; the
    handles that are held can be read and released. *)
Theorem cache_operations_safe capacity c g :
  reachable capacity (c, g) -> room c -> few g ->
  (forall k v charge_ d, exists h c', Cache_Insert c k v charge_ d = Some (h, c') /\
     h ∉ c_held g /\ Cache_Value c' h = Some v) /\
  (forall k, is_Some (Cache_Lookup c k)) /\ (forall k, is_Some (Cache_Erase c k)) /\
  (forall h, h ∈ c_held g -> is_Some (Cache_Value c h) /\ is_Some (Cache_Release c h)).
Proof.
  intros Hre Hroom Hfew. destruct (reachable_sim _ _ Hre) as [ss Hs]. cbn [fst snd] in Hs. split_and!.
  - intros k v charge_ d. destruct (insert_sim c g ss k v charge_ d Hs Hroom) as (e & c' & ss' & Hi & _ & Hv & Hn & _).
    by exists (shard_of k, e), c'.
  - intros k. destruct (lookup_sim c g ss k Hs Hfew) as [(e & c' & ss' & Hi & _)|(c' & ss' & Hi & _)]; rewrite Hi; by eexists.
  - intros k. destruct (erase_sim c g ss k Hs) as (c' & ss' & Hi & _). rewrite Hi. by eexists.
  - intros [i e] Hh. destruct (release_sim c g ss (i, e) Hs Hh) as (c' & ss' & Hi & _). split; [|rewrite Hi; by eexists].
    destruct (sim_value c g ss i e Hs Hh) as (? & ? & ? & h & _ & _ & _ & _ & _ & Hv & _).
    unfold Cache_Value. rewrite Hv. by eexists.
Qed.

(** A lookup that hits returns the latest value inserted under the key and not erased
    since; and no step of any client changes the value behind a handle that stays held, not
    even when its entry is replaced, erased or evicted. *)
Theorem cache_lookup_latest capacity c g :
  reachable capacity (c, g) -> few g ->
  (forall k h c', Cache_Lookup c k = Some (Some h, c') ->
     exists v, c_latest g !! k = Some v /\ Cache_Value c' h = Some v) /\
  (forall c' g' h, client_step (c, g) (c', g') -> h ∈ c_held g -> h ∈ c_held g' ->
     Cache_Value c' h = Cache_Value c h).
Proof.
  intros Hre Hfew. destruct (reachable_sim _ _ Hre) as [ss Hs]. cbn [fst snd] in Hs. split.
  - intros k h c' Hl. destruct (lookup_sim c g ss k Hs Hfew) as [(e & c1 & ss' & Hi & _ & [v Hv] & Hval & _)|(c1 & ss' & Hi & _)];
      rewrite Hl in Hi; [|done]. injection Hi as -> ->. exists v. by rewrite Hval.
  - intros c' g' h Hst Hin Hin'.
    inversion Hst as [? ? k v charge_ d h0 ? Hroom Hop|? ? k h0 ? _ Hop|? ? k ? _ Hop|? ? h0 ? Hh0 Hop|? ? k ? Hop|? ? id ? Hop]; subst.
    + destruct (insert_sim c g ss k v charge_ d Hs Hroom) as (e & c1 & ss' & Hi & _ & _ & _ & Hsb).
      rewrite Hop in Hi. injection Hi as -> ->. by apply Hsb.
    + destruct (lookup_sim c g ss k Hs Hfew) as [(e & c1 & ss' & Hi & _ & _ & _ & Hsb)|(c1 & ss' & Hi & _)];
        rewrite Hop in Hi; [|done]. injection Hi as -> ->. by apply Hsb.
    + destruct (lookup_sim c g' ss k Hs Hfew) as [(e & c1 & ss' & Hi & _)|(c1 & ss' & Hi & _ & Hsb)];
        rewrite Hop in Hi; [done|]. injection Hi as ->. by apply Hsb.
    + destruct (release_sim c g ss h0 Hs Hh0) as (c1 & ss' & Hi & _ & Hsb). rewrite Hop in Hi. injection Hi as ->. by apply Hsb.
    + destruct (erase_sim c g ss k Hs) as (c1 & ss' & Hi & _ & Hsb). rewrite Hop in Hi. injection Hi as ->. by apply Hsb.
    + unfold Cache_NewId in Hop. by injection Hop as _ <-.
Qed.

(** C35: Every inserted value is passed to its deleter at most once, with its key; and when
    the clients have released all handles, destroying the cache passes every value that is
    left to its deleter, so that each inserted value is deleted exactly once. *)
Theorem cache_deletes_once capacity c g :
  reachable capacity (c, g) ->
  concat (deleted <$> shard_ c) ⊆+ c_inserted g /\
  (c_held g = ∅ -> exists shards, Cache_destroy c = Some shards /\
     concat (deleted <$> shards) ≡ₚ c_inserted g).
Proof.
  intros Hre. destruct (reachable_sim _ _ Hre) as [ss Hs]. cbn [fst snd] in Hs. split.
  - rewrite (sim_calls _ _ _ Hs). generalize (sim_shards _ _ _ Hs). generalize (shard_ c). clear.
    induction ss as [|s ss IH]; intros cs HF; inversion HF as [|c0 ? cs0 ? Hr HF']; subst; [done|]. cbn.
    apply submseteq_app; [|by apply IH]. rewrite (rep_deleted _ _ Hr). apply submseteq_inserts_l. done.
  - intros Hh. destruct (destroy_all (reverse (shard_ c)) (reverse ss)) as (cs' & Hc & Hp).
    { apply Forall2_reverse, Hs. }
    { intros s Hin. rewrite elem_of_reverse in Hin. apply list_elem_of_lookup in Hin as [i Hi].
      apply gmultiset_eq. intros e. rewrite (sim_held _ _ _ Hs i s e Hi), Hh. done. }
    exists cs'. split; [exact Hc|]. rewrite Hp, (sim_calls _ _ _ Hs), fmap_reverse.
    generalize (all_calls <$> ss). clear. induction l as [|a l IH]; [done|].
    rewrite reverse_cons, concat_app. cbn. rewrite app_nil_r, IH. apply Permutation_app_comm.
Qed.

(** C36: An insertion leaves the shard of its key within its capacity, unless nothing is cached
    there any more; the new entry is the most recently used one, an entry with the same key
    is gone, and what had to be evicted are the least recently used entries: the list of the
    shard is a suffix of the old list, without the replaced handle, and the new handle. *)
Theorem cache_capacity capacity c g k v charge_ d h c' :
  reachable capacity (c, g) -> room c -> Cache_Insert c k v charge_ d = Some (h, c') ->
  exists sh sh' (o old : list nat) (n : nat),
    shard_ c !! shard_of k = Some sh /\ shard_ c' !! shard_of k = Some sh' /\
    capacity_ sh' = capacity_ sh /\
    (usage_ sh' <= capacity_ sh' \/ elems_ (table_ sh') = 0) /\
    ring (handles sh) o /\
    (forall x, x ∈ o -> x ∈ old <-> matches (handles sh) k (HashSlice k) x) /\
    ring (handles sh') (drop n (filter (fun x => x ∉ old) o ++ [snd h])).
Proof.
  intros Hre Hroom Hop. destruct (reachable_sim _ _ Hre) as [ss Hs]. cbn [fst snd] in Hs.
  destruct (sim_shard c g ss k Hs) as (s & cs & Hi & Hc & Hr).
  destruct (LRUCache_Insert_ok cs s k (HashSlice k) v charge_ d Hr) as (cs' & Hins & Hr').
  { rewrite <- (table_elems _ _ _ (rep_table _ _ Hr)). by eapply (Forall_lookup_1 _ _ _ _ Hroom). }
  { apply HashSlice_nonneg. }
  assert (He : handles cs !! fresh (dom (handles cs)) = None) by (apply not_elem_of_dom, is_fresh).
  set (e := fresh (dom (handles cs))) in *. clearbody e.
  set (x := {| e_deleter := d; e_key := k; e_value := v; e_charge := charge_; e_hash := HashSlice k |}) in *.
  assert (Hop' : Cache_Insert c k v charge_ d = Some ((shard_of k, e),
    {| shard_ := <[shard_of k := cs']> (shard_ c); last_id_ := last_id_ c |})).
  { apply (on_shard_ok _ _ cs _ _ cs'); [done|]. rewrite Hins. done. }
  rewrite Hop in Hop'. assert (h = (shard_of k, e) /\ c' = {| shard_ := <[shard_of k := cs']> (shard_ c); last_id_ := last_id_ c |}) as [-> ->].
  { clear -Hop'. generalize dependent (shard_of k). intros i Hop'. by inversion Hop'. } cbn [snd].
  pose proof (rep_nodup _ _ Hr) as Hn. destruct (insert_order s e x) as (n & Ho & Hfit).
  { apply NoDup_app. split; [done|]. split; [|apply NoDup_singleton].
    intros y Hy Hye%list_elem_of_singleton. subst y. destruct (rep_order_alloc cs s e Hr Hy) as [_ [? ?]]. congruence. }
  exists cs, cs', (sp_order s), (match find_key s k (HashSlice k) with Some o => [o] | None => [] end), n.
  split_and!; try done.
  - cbn. by rewrite list_lookup_insert_eq by (by eapply lookup_lt_Some).
  - by rewrite (rep_cap _ _ Hr'), (rep_cap _ _ Hr), insert_cap.
  - rewrite (rep_usage _ _ Hr'), (rep_cap _ _ Hr'), (table_elems _ _ _ (rep_table _ _ Hr')), insert_cap.
    destruct Hfit as [?| ->]; auto.
  - apply Hr.
  - intros y Hy. rewrite (matches_has_key cs s k (HashSlice k) y Hr (proj1 (rep_order_alloc cs s y Hr Hy))).
    pose proof (find_key_spec s k (HashSlice k)) as Hf. destruct (find_key s k (HashSlice k)) as [z|].
    + rewrite list_elem_of_singleton. split; [intros ->; apply Hf|]. intros Hk.
      apply (stat_unique _ _ (rep_stat _ _ Hr) y z k (HashSlice k)); try done; apply Hf.
    + split; [by intros ?%elem_of_nil|]. intros Hk. by destruct (Hf y Hy).
  - pose proof (rep_ring _ _ Hr') as Hring. rewrite Ho in Hring. cbn in Hring.
    destruct (find_key s k (HashSlice k)) as [z|].
    + erewrite list_filter_iff; [exact Hring|]. intros y. by rewrite list_elem_of_singleton.
    + rewrite filter_all; [exact Hring|]. apply Forall_forall. intros y _. by apply not_elem_of_nil.
Qed.
End Clients.

(** ** An example

    Two values under one key, the first one held: the cache drops the first value, which
    stays readable, and finds the second. *)

Definition no_cache : ShardedLRUCache nat nat := {| shard_ := []; last_id_ := 0 |}.
Definition example_c0 := default no_cache (NewLRUCache 0%nat 0%nat 32).
Definition example_c1 := default no_cache (snd <$> Cache_Insert example_c0 [1] 11%nat 1 0%nat).
Definition example_cache := default no_cache (snd <$> Cache_Insert example_c1 [1] 13%nat 1 0%nat).
Definition example_client1 : Client (V := nat) (D := nat) :=
  {| c_held := ∅ ⊎ {[+ (4%nat, 1%nat) +]}; c_inserted := [(0%nat, [1], 11%nat)]; c_latest := <[[1] := 11%nat]> ∅ |}.
Definition example_client : Client (V := nat) (D := nat) :=
  {| c_held := ∅ ⊎ {[+ (4%nat, 1%nat) +]} ⊎ {[+ (4%nat, 2%nat) +]}; c_inserted := [(0%nat, [1], 13%nat); (0%nat, [1], 11%nat)];
     c_latest := <[[1] := 13%nat]> (<[[1] := 11%nat]> ∅) |}.

Lemma room_decide (c : ShardedLRUCache nat nat) :
  forallb (fun sh => elems_ (table_ sh) <? 2 ^ 31) (shard_ c) = true -> room c.
Proof.
  intros H. apply Forall_forall. intros sh Hsh%list_elem_of_In.
  apply (proj1 (List.forallb_forall _ _) H), Z.ltb_lt in Hsh. done.
Qed.

Lemma example_reachable : reachable 0%nat 0%nat 32 (example_cache, example_client).
Proof.
  apply (reach_step _ _ _ (example_c1, example_client1)); [apply (reach_step _ _ _ (example_c0, no_client))|].
  - apply reach_new. by vm_compute.
  - apply (step_insert example_c0 no_client [1] 11%nat 1 0%nat (4%nat, 1%nat) example_c1);
      [apply room_decide; by vm_compute|by vm_compute].
  - apply (step_insert example_c1 example_client1 [1] 13%nat 1 0%nat (4%nat, 2%nat) example_cache);
      [apply room_decide; by vm_compute|by vm_compute].
Qed.
Lemma example_few : few example_client.
Proof.
  intros p. unfold example_client. cbn [c_held]. rewrite !multiplicity_disj_union, multiplicity_empty, !multiplicity_singleton.
  do 2 case_decide; done.
Qed.

Lemma cache_operations_safe_witness :
  reachable 0%nat 0%nat 32 (example_cache, example_client) /\ room example_cache /\ few example_client /\
  is_Some (Cache_Value example_cache (4%nat, 1%nat)) /\ is_Some (Cache_Release example_cache (4%nat, 1%nat)).
Proof.
  assert (Hr : room example_cache) by (apply room_decide; by vm_compute).
  split; [exact example_reachable|]. split; [exact Hr|]. split; [exact example_few|].
  apply (cache_operations_safe 0%nat 0%nat 32 example_cache example_client example_reachable Hr example_few).
  unfold example_client. cbn [c_held]. rewrite !gmultiset_elem_of_disj_union, !gmultiset_elem_of_singleton. tauto.
Defined.
Lemma cache_lookup_latest_witness :
  exists h c', Cache_Lookup example_cache [1] = Some (Some h, c') /\
    exists v, c_latest example_client !! ([1] : list Z) = Some v /\ Cache_Value c' h = Some v.
Proof.
  destruct (Cache_Lookup example_cache [1]) as [[[h|] c']|] eqn:E; [|by vm_compute in E..].
  exists h, c'. split; [done|].
  exact (proj1 (cache_lookup_latest 0%nat 0%nat 32 example_cache example_client example_reachable example_few) [1] h c' E).
Defined.
Lemma cache_deletes_once_witness :
  concat (deleted <$> shard_ example_cache) ⊆+ [(0%nat, [1], 13%nat); (0%nat, [1], 11%nat)].
Proof. exact (proj1 (cache_deletes_once 0%nat 0%nat 32 example_cache example_client example_reachable)). Defined.
Lemma cache_capacity_witness :
  exists sh', shard_ (default no_cache (snd <$> Cache_Insert example_cache [2] 5%nat 1 0%nat)) !! 1%nat = Some sh' /\
    (usage_ sh' <= capacity_ sh' \/ elems_ (table_ sh') = 0).
Proof.
  assert (Hr : room example_cache) by (apply room_decide; by vm_compute).
  destruct (Cache_Insert example_cache [2] 5%nat 1 0%nat) as [[h c']|] eqn:E; [|by vm_compute in E].
  destruct (cache_capacity 0%nat 0%nat 32 example_cache example_client [2] 5%nat 1 0%nat h c' example_reachable Hr E)
    as (sh & sh' & o & old & n & _ & Hs & _ & Hfit & _).
  exists sh'. split; [exact Hs|exact Hfit].
Defined.
