(* ===== verification/Merger.v ===== *)
(** * The merging iterator

    Models [src/pebblesdb/src/table/merger.cc]: an iterator over the union of several
    sorted sources, which keeps the children in a heap ordered by [KeyNum] and then by
    key.  The heap algorithms are those of the C++ standard library, known by their
    contract.  The parallel seek, the timers and the file metadata that the class
    carries are not compiled in, or not used.  A failed [assert] is the outcome [None]. *)

From stdpp Require Import sorting.
From S2P Require Import Prelude Status Comparator Iterator TableReader.
From stdpp Require Import list.
#[local] Open Scope Z_scope.

(** ** Heap algorithms of the standard library *)

(** [comp x y]: [x] goes below [y]. *)
Class StdHeap := {
  make_heap : (nat -> nat -> bool) -> list nat -> list nat;
  push_heap : (nat -> nat -> bool) -> list nat -> list nat;
  pop_heap : (nat -> nat -> bool) -> list nat -> list nat;
}.

(** No element is below its child. *)
Definition is_heap (comp : nat -> nat -> bool) (l : list nat) : Prop :=
  forall i x y, (0 < i)%nat -> l !! ((i - 1) / 2)%nat = Some x -> l !! i = Some y -> comp x y = false.
Record strict_weak (comp : nat -> nat -> bool) (D : list nat) : Prop := {
  sw_asym : forall x y, x ∈ D -> y ∈ D -> comp x y = true -> comp y x = false;
  sw_cotrans : forall x y z, x ∈ D -> y ∈ D -> z ∈ D -> comp x z = false -> comp z y = false -> comp x y = false;
}.

(** What the standard promises. *)
Class StdHeapOk `{StdHeap} : Prop := {
  make_heap_ok : forall comp l, strict_weak comp l ->
    is_heap comp (make_heap comp l) /\ make_heap comp l ≡ₚ l;
  push_heap_ok : forall comp l x, strict_weak comp (l ++ [x]) -> is_heap comp l ->
    is_heap comp (push_heap comp (l ++ [x])) /\ push_heap comp (l ++ [x]) ≡ₚ l ++ [x];
  pop_heap_ok : forall comp x l, strict_weak comp (x :: l) -> is_heap comp (x :: l) ->
    exists l', pop_heap comp (x :: l) = l' ++ [x] /\ is_heap comp l' /\ l' ≡ₚ l;
}.

(** ** MergingIterator *)

Inductive Direction := kForward | kReverse.

Section MergingIterator.
Context {T : Type} `{Iterator T} `{StdHeap} (comparator_ : Comparator).

(** [heap_] holds the first [heap_sz_] elements of the array; [current_] is the index of
    the child. *)
Record MergingIterator := {
  children_ : list (IteratorWrapper T);
  comparisons_ : list Z;
  heap_ : list nat;
  current_ : option nat;
  status_ : Status;
  direction_ : Direction;
}.

Definition set_children (mi : MergingIterator) (ws : list (IteratorWrapper T)) : MergingIterator :=
  {| children_ := ws; comparisons_ := comparisons_ mi; heap_ := heap_ mi; current_ := current_ mi;
     status_ := status_ mi; direction_ := direction_ mi |}.
Definition set_heap (mi : MergingIterator) (comparisons : list Z) (heap : list nat) : MergingIterator :=
  {| children_ := children_ mi; comparisons_ := comparisons; heap_ := heap; current_ := current_ mi;
     status_ := status_ mi; direction_ := direction_ mi |}.
Definition set_current (mi : MergingIterator) (cur : option nat) : MergingIterator :=
  {| children_ := children_ mi; comparisons_ := comparisons_ mi; heap_ := heap_ mi; current_ := cur;
     status_ := status_ mi; direction_ := direction_ mi |}.
Definition set_direction (mi : MergingIterator) (d : Direction) : MergingIterator :=
  {| children_ := children_ mi; comparisons_ := comparisons_ mi; heap_ := heap_ mi;
     current_ := current_ mi; status_ := status_ mi; direction_ := d |}.

Definition child_key (mi : MergingIterator) (i : nat) : bytes :=
  match children_ mi !! i with Some w => key w | None => [] end.
Definition comparison (mi : MergingIterator) (i : nat) : Z := default 0 (comparisons_ mi !! i).

Definition HeapComparator (mi : MergingIterator) (lhs rhs : nat) : bool :=
  let '(lhs, rhs) := match direction_ mi with kForward => (rhs, lhs) | kReverse => (lhs, rhs) end in
  (comparison mi lhs <? comparison mi rhs) ||
  ((comparison mi lhs =? comparison mi rhs) &&
   (Compare comparator_ (child_key mi lhs) (child_key mi rhs) <? 0)).

Fixpoint reinit_loop (i : nat) (ws : list (IteratorWrapper T)) (mi : MergingIterator) : MergingIterator :=
  match ws with
  | [] => mi
  | w :: ws =>
      reinit_loop (S i) ws
        (if Valid w
         then set_heap mi (<[i := KeyNum comparator_ (key w)]> (comparisons_ mi)) (heap_ mi ++ [i])
         else mi)
  end.
Definition ReinitializeComparisons (mi : MergingIterator) : MergingIterator :=
  let mi := reinit_loop 0 (children_ mi) (set_heap mi (comparisons_ mi) []) in
  set_heap mi (comparisons_ mi) (make_heap (HeapComparator mi) (heap_ mi)).

Definition PopCurrentComparison (mi : MergingIterator) (idx : nat) : option MergingIterator :=
  if bool_decide (head (heap_ mi) = Some idx) then
    let heap := pop_heap (HeapComparator mi) (heap_ mi) in
    Some (set_heap mi (comparisons_ mi) (removelast heap))
  else None.
Definition PushCurrentComparison (mi : MergingIterator) (idx : nat) : MergingIterator :=
  match children_ mi !! idx with
  | Some w =>
      if Valid w then
        let mi := set_heap mi (<[idx := KeyNum comparator_ (key w)]> (comparisons_ mi)) (heap_ mi ++ [idx]) in
        set_heap mi (comparisons_ mi) (push_heap (HeapComparator mi) (heap_ mi))
      else mi
  | None => mi
  end.

Definition FindSmallest (mi : MergingIterator) : option MergingIterator :=
  match direction_ mi with
  | kForward => Some (set_current mi (head (heap_ mi)))
  | kReverse => None
  end.
Definition FindLargest (mi : MergingIterator) : option MergingIterator :=
  match direction_ mi with
  | kReverse => Some (set_current mi (head (heap_ mi)))
  | kForward => None
  end.

Definition on_children (mi : MergingIterator) (f : IteratorWrapper T -> IteratorWrapper T) : MergingIterator :=
  set_children mi (f <$> children_ mi).
(** The loop over the children other than [current_]. *)
Definition on_others (mi : MergingIterator) (cur : nat) (f : IteratorWrapper T -> IteratorWrapper T)
    : MergingIterator :=
  set_children mi (imap (fun i w => if (i =? cur)%nat then w else f w) (children_ mi)).
Definition on_current (mi : MergingIterator) (cur : nat) (f : IteratorWrapper T -> IteratorWrapper T)
    : MergingIterator :=
  set_children mi (alter f cur (children_ mi)).

Definition mi_SeekToFirst (mi : MergingIterator) : option MergingIterator :=
  FindSmallest (ReinitializeComparisons (set_direction (on_children mi SeekToFirst) kForward)).
Definition mi_SeekToLast (mi : MergingIterator) : option MergingIterator :=
  FindLargest (ReinitializeComparisons (set_direction (on_children mi SeekToLast) kReverse)).
Definition SeekInSequence (mi : MergingIterator) (target : bytes) : MergingIterator :=
  on_children mi (fun w => Seek w target).
Definition mi_Seek (mi : MergingIterator) (target : bytes) : option MergingIterator :=
  FindSmallest (ReinitializeComparisons (set_direction (SeekInSequence mi target) kForward)).

(** Positions a child after, and before, the key [k] of the current child. *)
Definition child_after (k : bytes) (child : IteratorWrapper T) : IteratorWrapper T :=
  let child := Seek child k in
  if Valid child && (Compare comparator_ k (key child) =? 0) then Next child else child.
Definition child_before (k : bytes) (child : IteratorWrapper T) : IteratorWrapper T :=
  let child := Seek child k in
  if Valid child then Prev child else SeekToLast child.

Definition mi_Next (mi : MergingIterator) : option MergingIterator :=
  cur ← current_ mi;
  let mi :=
    match direction_ mi with
    | kForward => mi
    | kReverse =>
        let mi := on_others mi cur (child_after (child_key mi cur)) in
        ReinitializeComparisons (set_direction mi kForward)
    end in
  mi ← PopCurrentComparison mi cur;
  FindSmallest (PushCurrentComparison (on_current mi cur Next) cur).

Definition mi_Prev (mi : MergingIterator) : option MergingIterator :=
  cur ← current_ mi;
  let mi :=
    match direction_ mi with
    | kReverse => mi
    | kForward =>
        let mi := on_others mi cur (child_before (child_key mi cur)) in
        ReinitializeComparisons (set_direction mi kReverse)
    end in
  mi ← PopCurrentComparison mi cur;
  FindLargest (PushCurrentComparison (on_current mi cur Prev) cur).

Definition mi_value (mi : MergingIterator) : bytes :=
  match current_ mi ≫= fun cur => children_ mi !! cur with Some w => value w | None => [] end.
Definition mi_key (mi : MergingIterator) : bytes :=
  match current_ mi with Some cur => child_key mi cur | None => [] end.
Fixpoint children_status (ws : list (IteratorWrapper T)) (s : Status) : Status :=
  match ws with
  | [] => s
  | w :: ws => if negb (ok (Iterator.status w)) then Iterator.status w else children_status ws s
  end.

(** The interface; where an [assert] fails the iterator is left as it is (the contract
    below shows that none does). *)
Definition MergingIterator_ops : Iterator MergingIterator := {|
  Valid mi := bool_decide (is_Some (current_ mi));
  SeekToFirst mi := default mi (mi_SeekToFirst mi);
  SeekToLast mi := default mi (mi_SeekToLast mi);
  Seek mi t := default mi (mi_Seek mi t);
  Next mi := default mi (mi_Next mi);
  Prev mi := default mi (mi_Prev mi);
  key mi := mi_key mi;
  value mi := mi_value mi;
  status mi := children_status (children_ mi) (status_ mi);
|}.

(** The constructor. *)
Definition MergingIterator_new (children : list T) : MergingIterator :=
  ReinitializeComparisons
    {| children_ := wrap <$> children; comparisons_ := replicate (length children) 0; heap_ := [];
       current_ := None; status_ := OK; direction_ := kForward |}.

(** No child, one child, or several. *)
Definition NewMergingIterator (list : list T) : EmptyIterator + (T + MergingIterator) :=
  match list with
  | [] => inl NewEmptyIterator
  | [it] => inr (inl it)
  | _ => inr (inr (MergingIterator_new list))
  end.
End MergingIterator.
Arguments MergingIterator : clear implicits.

(** ** What remains of a source *)

(** The entries a source still has to yield in direction [d], in the order it yields
    them, and the position it moves to. *)
Definition rem {A} (d : Direction) (p : option nat) (es : list A) : list A :=
  match p, d with
  | None, _ => []
  | Some i, kForward => drop i es
  | Some i, kReverse => reverse (take (S i) es)
  end.
Definition step_pos {A} (d : Direction) (es : list A) (i : nat) : option nat :=
  match d with kForward => next_pos es i | kReverse => prev_pos i end.

Lemma rem_step {A} d (es : list A) i e :
  es !! i = Some e -> rem d (Some i) es = e :: rem d (step_pos d es i) es.
Proof.
  intros Hi. destruct d; cbn [rem step_pos].
  - rewrite (drop_S _ _ _ Hi). f_equal. unfold next_pos. destruct (Nat.ltb_spec (S i) (length es)); [done|].
    by rewrite drop_ge by lia.
  - rewrite (take_S_r _ _ _ Hi), reverse_snoc. f_equal. destruct i; [done|]. done.
Qed.
Lemma rem_None_inv {A} d p (es : list A) :
  (forall i, p = Some i -> (i < length es)%nat) -> rem d p es = [] -> p = None.
Proof.
  destruct p as [i|]; [|done]. intros Hi E. specialize (Hi i eq_refl).
  apply lookup_lt_is_Some_2 in Hi as [e He]. by rewrite (rem_step d es i e He) in E.
Qed.

Lemma concat_perm {A} (xs ys : list (list A)) :
  length xs = length ys -> (forall j x y, xs !! j = Some x -> ys !! j = Some y -> x ≡ₚ y) ->
  concat xs ≡ₚ concat ys.
Proof.
  revert ys. induction xs as [|x xs IH]; intros [|y ys] Hlen Ho; try done. cbn. f_equiv.
  - by apply (Ho 0%nat).
  - apply IH; [cbn in Hlen; lia|]. intros j. apply (Ho (S j)).
Qed.
Lemma rem_first {A} (es : list A) : rem kForward (first_pos es) es = es.
Proof. by destruct es. Qed.
Lemma rem_last {A} (es : list A) : rem kReverse (last_pos es) es ≡ₚ es.
Proof. destruct es as [|e es]; [done|]. cbn [last_pos rem]. rewrite take_ge by done. apply reverse_Permutation. Qed.
Lemma filter_concat {A} (P : A -> Prop) `{forall x, Decision (P x)} (ls : list (list A)) :
  filter P (concat ls) = concat (filter P <$> ls).
Proof. induction ls as [|l ls IH]; [done|]. cbn. by rewrite filter_app, IH. Qed.

(** A source of several loses one entry. *)
Lemma concat_step {A} (xs ys : list (list A)) cur a l :
  length xs = length ys -> xs !! cur = Some (a :: l) -> ys !! cur = Some l ->
  (forall j x y, j <> cur -> xs !! j = Some x -> ys !! j = Some y -> x ≡ₚ y) ->
  concat xs ≡ₚ a :: concat ys.
Proof.
  revert ys cur. induction xs as [|x xs IH]; intros [|y ys] cur Hlen Hx Hy Ho; try done.
  cbn [concat]. destruct cur as [|cur].
  - injection Hx as ->. injection Hy as ->. cbn. f_equiv. f_equiv.
    apply concat_perm; [cbn in Hlen; lia|]. intros j x y. by apply (Ho (S j)).
  - rewrite (Ho 0%nat x y) by done. rewrite (IH ys cur); [by rewrite Permutation_middle|cbn in Hlen; lia|done|done|].
    intros j x' y' Hne. apply (Ho (S j)). lia.
Qed.
Lemma NoDup_concat_same {A} (ls : list (list A)) i j a b x :
  NoDup (concat ls) -> ls !! i = Some a -> ls !! j = Some b -> x ∈ a -> x ∈ b -> i = j.
Proof.
  revert i j. induction ls as [|l ls IH]; intros i j Hnd Hi Hj Ha Hb; [done|].
  cbn in Hnd. apply NoDup_app in Hnd as (_ & Hd & Hnd).
  assert (forall k m, ls !! k = Some m -> x ∈ m -> x ∈ concat ls) as Hin.
  { intros k m Hk Hm. apply list_elem_of_In, in_concat. exists m. split; apply list_elem_of_In; [|done].
    by eapply list_elem_of_lookup_2. }
  destruct i as [|i], j as [|j]; cbn in Hi, Hj; [done| | |f_equal; by eapply IH].
  - injection Hi as ->. destruct (Hd x Ha). by eapply Hin.
  - injection Hj as ->. destruct (Hd x Hb). by eapply Hin.
Qed.

(** ** Sorted sources cut at a key *)

Section Cut.
Context (c : Comparator) (valid : bytes -> Prop) {Hc : ComparatorOk c valid}.

Definition at_or_after (t : bytes) (e : bytes * bytes) : Prop := 0 <= Compare c (fst e) t.
Definition before (t : bytes) (e : bytes * bytes) : Prop := ~ at_or_after t e.
#[export] Instance at_or_after_dec t e : Decision (at_or_after t e) := Z_le_dec _ _.
#[export] Instance before_dec t e : Decision (before t e) := not_dec _.

Lemma cut_after es t :
  sorted_keys c es -> valid_keys valid es -> valid t ->
  rem kForward (first_ge c es t) es = filter (at_or_after t) es.
Proof.
  induction es as [|[k v] es IH]; intros Hs Hv Ht; [done|]. cbn [first_ge].
  destruct Hs as [Hlt Hs]. inversion_clear Hv as [|? ? Hk Hv'].
  destruct (Z.leb_spec 0 (Compare c k t)) as [Hge|Hl].
  - cbn [rem]. rewrite drop_0. symmetry. apply filter_all.
    constructor; [done|]. apply Forall_forall. intros [k' v'] Hin.
    rewrite Forall_forall in Hlt. specialize (Hlt _ Hin). cbn in Hlt. unfold at_or_after. cbn [fst].
    assert (valid k') by (by eapply valid_keys_elem).
    destruct (Z.le_gt_cases 0 (Compare c k' t)) as [|Hbad]; [done|].
    pose proof (cmp_lt_trans k k' t Hk H Ht Hlt Hbad). lia.
  - rewrite filter_cons_False by (unfold at_or_after; cbn; lia). rewrite <- IH by done.
    by destruct (first_ge c es t).
Qed.

(** The position before everything at or after [t]. *)
Definition last_before (es : list (bytes * bytes)) (t : bytes) : option nat :=
  match first_ge c es t with Some j => prev_pos j | None => last_pos es end.
Lemma cut_before es t :
  sorted_keys c es -> valid_keys valid es -> valid t ->
  rem kReverse (last_before es t) es ≡ₚ filter (before t) es.
Proof.
  intros Hs Hv Ht. pose proof (cut_after es t Hs Hv Ht) as Hr.
  pose proof (filter_app_complement (at_or_after t) es) as Hsplit.
  unfold last_before. destruct (first_ge c es t) as [j|] eqn:E; cbn [rem] in Hr.
  - assert (rem kReverse (prev_pos j) es ≡ₚ take j es) as ->.
    { destruct j; [done|]. cbn [rem prev_pos]. apply reverse_Permutation. }
    rewrite <- Hr in Hsplit. rewrite <- (take_drop j es) in Hsplit at 3.
    rewrite (comm app (drop j es)) in Hsplit. by apply (inj (.++ drop j es)) in Hsplit.
  - rewrite <- Hr in Hsplit. cbn in Hsplit. rewrite Hsplit.
    destruct es as [|e es]; [done|]. cbn [last_pos rem]. rewrite take_ge by done. apply reverse_Permutation.
Qed.

Lemma sorted_keys_keys es i j k v k' v' :
  sorted_keys c es -> valid_keys valid es -> es !! i = Some (k, v) -> es !! j = Some (k', v') ->
  Compare c k k' = 0 -> i = j.
Proof.
  intros Hs Hv Hi Hj H0. destruct (Nat.lt_trichotomy i j) as [Hlt|[->|Hlt]]; [|done|].
  - pose proof (sorted_keys_lookup c es i j k v k' v' Hs Hlt Hi Hj). lia.
  - pose proof (sorted_keys_lookup c es j i k' v' k v Hs Hlt Hj Hi) as Hbad.
    apply (cmp_antisym k' k) in Hbad; [lia|by eapply valid_keys_lookup..].
Qed.
Lemma first_ge_self es i k v :
  sorted_keys c es -> valid_keys valid es -> es !! i = Some (k, v) -> first_ge c es k = Some i.
Proof.
  intros Hs Hv Hi. apply first_ge_Some. split.
  - exists k, v. split; [done|]. rewrite cmp_refl; [done|]. by eapply valid_keys_lookup.
  - intros j k' v' Hlt Hj. exact (sorted_keys_lookup c es j i k' v' k v Hs Hlt Hj Hi).
Qed.
Lemma sorted_keys_NoDup es : sorted_keys c es -> valid_keys valid es -> NoDup es.
Proof.
  intros Hs Hv. apply NoDup_alt. intros i j [k v] Hi Hj.
  eapply sorted_keys_keys; [done..|]. apply cmp_refl. by eapply valid_keys_lookup.
Qed.
End Cut.

(** ** Heaps *)

Lemma heap_top comp x l :
  strict_weak comp (x :: l) -> is_heap comp (x :: l) -> forall y, y ∈ x :: l -> comp x y = false.
Proof.
  intros Hsw Hh y [i Hi]%list_elem_of_lookup. revert y Hi.
  induction i as [i IH] using lt_wf_ind. intros y Hi.
  assert (y ∈ x :: l) as Hy by (by eapply list_elem_of_lookup_2).
  assert (x ∈ x :: l) as Hx by (apply elem_of_cons; by left).
  destruct i as [|i].
  - injection Hi as <-. destruct (comp x x) eqn:E; [|done].
    by rewrite (sw_asym _ _ Hsw x x Hx Hx E) in E.
  - assert ((S i - 1) / 2 < S i)%nat as Hlt by (apply Nat.Div0.div_lt_upper_bound; lia).
    destruct (lookup_lt_is_Some_2 (x :: l) ((S i - 1) / 2)) as [z Hz].
    { apply lookup_lt_Some in Hi. lia. }
    apply (sw_cotrans _ _ Hsw x y z); [done|done|by eapply list_elem_of_lookup_2| |].
    + by apply (IH _ Hlt).
    + apply (Hh (S i)); [lia|done..].
Qed.
Lemma is_heap_ext comp comp' l :
  (forall x y, x ∈ l -> y ∈ l -> comp x y = comp' x y) -> is_heap comp l -> is_heap comp' l.
Proof.
  intros He Hh i x y Hi Hx Hy. rewrite <- He; [by apply (Hh i)|by eapply list_elem_of_lookup_2..].
Qed.
Lemma strict_weak_sub comp D D' : (forall x, x ∈ D' -> x ∈ D) -> strict_weak comp D -> strict_weak comp D'.
Proof. intros Hs [Ha Hc]. split; eauto. Qed.

(** Sorting keeps the contract of the heap algorithms. *)
Fixpoint heap_insert (comp : nat -> nat -> bool) (x : nat) (l : list nat) : list nat :=
  match l with
  | [] => [x]
  | y :: l => if comp x y then y :: heap_insert comp x l else x :: y :: l
  end.
Definition heap_sort (comp : nat -> nat -> bool) (l : list nat) : list nat := foldr (heap_insert comp) [] l.
Definition sorted_heap : StdHeap := {|
  make_heap := heap_sort; push_heap := heap_sort;
  pop_heap comp l := match l with [] => [] | x :: l => heap_sort comp l ++ [x] end;
|}.

Lemma heap_insert_perm comp x l : heap_insert comp x l ≡ₚ x :: l.
Proof. induction l as [|y l IH]; cbn; [done|]. destruct (comp x y); [|done]. rewrite IH. constructor. Qed.
Lemma heap_sort_perm comp l : heap_sort comp l ≡ₚ l.
Proof. induction l as [|x l IH]; cbn; [done|]. by rewrite heap_insert_perm, IH. Qed.
Lemma heap_insert_sorted comp x l :
  strict_weak comp (x :: l) -> StronglySorted (fun a b => comp a b = false) l ->
  StronglySorted (fun a b => comp a b = false) (heap_insert comp x l).
Proof.
  induction l as [|y l IH]; intros Hsw Hs; cbn; [by repeat constructor|].
  apply StronglySorted_inv in Hs as [Hs Hy]. destruct (comp x y) eqn:E.
  - constructor.
    + apply IH; [|done]. eapply strict_weak_sub; [|exact Hsw]. intros z. rewrite !elem_of_cons. tauto.
    + rewrite heap_insert_perm. constructor; [|done].
      apply (sw_asym _ _ Hsw); [..|done]; rewrite !elem_of_cons; tauto.
  - repeat constructor; [done..|]. apply Forall_forall. intros z Hz. rewrite Forall_forall in Hy.
    apply (sw_cotrans _ _ Hsw x z y); [rewrite ?elem_of_cons; tauto..|done|by apply Hy].
Qed.
Lemma heap_sort_heap comp l : strict_weak comp l -> is_heap comp (heap_sort comp l).
Proof.
  intros Hsw.
  assert (StronglySorted (fun a b => comp a b = false) (heap_sort comp l)) as Hs.
  { induction l as [|x l IH]; cbn; [constructor|]. apply heap_insert_sorted.
    - eapply strict_weak_sub; [|exact Hsw]. intros y. fold (heap_sort comp l). by rewrite heap_sort_perm.
    - apply IH. eapply strict_weak_sub; [|exact Hsw]. intros y. rewrite elem_of_cons. tauto. }
  assert ((forall i j x y, (i < j)%nat -> heap_sort comp l !! i = Some x -> heap_sort comp l !! j = Some y ->
    comp x y = false)) as Hij.
  { induction Hs as [|z m Hm IH Hz]; intros i j x y Hlt Hx Hy; [done|].
    destruct j as [|j]; [lia|]. destruct i as [|i]; [|by apply (IH i j); [lia|..]].
    injection Hx as ->. rewrite Forall_forall in Hz. apply Hz. by eapply list_elem_of_lookup_2. }
  intros i x y Hi Hx Hy. apply (Hij ((i - 1) / 2)%nat i); [|done..].
  apply Nat.Div0.div_lt_upper_bound. lia.
Qed.
Lemma sorted_heap_ok : @StdHeapOk sorted_heap.
Proof.
  split; cbn.
  - intros comp l Hsw. split; [by apply heap_sort_heap|apply heap_sort_perm].
  - intros comp l x Hsw _. split; [by apply heap_sort_heap|apply heap_sort_perm].
  - intros comp x l Hsw _. exists (heap_sort comp l). split; [done|]. split; [|apply heap_sort_perm].
    apply heap_sort_heap. eapply strict_weak_sub; [|exact Hsw]. intros y. rewrite elem_of_cons. tauto.
Qed.

Lemma choose_positions {T} `{Iterator T} c valid (its : list T) ess :
  Forall2 (fun it es => exists p, at_pos c valid es it p) its ess ->
  exists ps, length ps = length its /\ forall j it es p,
    its !! j = Some it -> ess !! j = Some es -> ps !! j = Some p -> at_pos c valid es it p.
Proof.
  induction 1 as [|it es its' ess' [p Hp] Hits (ps & Hlp & Hps)]; [by exists []|].
  exists (p :: ps). split; [cbn; by rewrite Hlp|]. intros [|j] it' es' p' Hi He Hp'; [cbn in *; congruence|].
  by apply (Hps j).
Qed.

(** ** The contract *)

Section Contract.
Context {T : Type} `{HT : Iterator T} `{HH : StdHeap} {HHok : StdHeapOk}.
Context (c : Comparator) (valid : bytes -> Prop) {Hc : ComparatorOk c valid} {Hkn : KeyNumOk c valid}.
(** The sources, and their union in order. *)
Context (ess : list (list (bytes * bytes))) (ms : list (bytes * bytes)).

Record merges : Prop := {
  mg_perm : concat ess ≡ₚ ms;
  mg_sorted : sorted_keys c ms;
  mg_valid : valid_keys valid ms;
  mg_sources : Forall (sorted_keys c) ess;
}.
Context (Hm : merges).

Lemma source_facts j es : ess !! j = Some es ->
  sorted_keys c es /\ valid_keys valid es /\ forall e, e ∈ es -> e ∈ ms.
Proof.
  intros Hj. assert (forall e, e ∈ es -> e ∈ ms) as Hin.
  { intros e He. rewrite <- (mg_perm Hm). apply list_elem_of_In, in_concat. exists es.
    split; apply list_elem_of_In; [by eapply list_elem_of_lookup_2|done]. }
  split; [exact (Forall_lookup_1 _ _ _ _ (mg_sources Hm) Hj)|]. split; [|done].
  apply Forall_forall. intros e He%Hin. exact (proj1 (Forall_forall _ _) (mg_valid Hm) e He).
Qed.
Lemma entry_unique k v k' v' : (k, v) ∈ ms -> (k', v') ∈ ms -> Compare c k k' = 0 -> (k, v) = (k', v').
Proof.
  intros [i Hi]%list_elem_of_lookup [j Hj]%list_elem_of_lookup H0.
  assert (i = j) as ->; [|congruence].
  eapply (sorted_keys_keys c valid ms); [apply Hm..|exact Hi|exact Hj|done].
Qed.
Lemma entry_source j j' es es' k v k' v' :
  ess !! j = Some es -> ess !! j' = Some es' -> (k, v) ∈ es -> (k', v') ∈ es' -> Compare c k k' = 0 -> j = j'.
Proof.
  intros Hj Hj' He He' H0. destruct (source_facts _ _ Hj) as (_ & _ & Hin).
  destruct (source_facts _ _ Hj') as (_ & _ & Hin').
  pose proof (entry_unique _ _ _ _ (Hin _ He) (Hin' _ He') H0) as E. injection E as <- <-.
  eapply (NoDup_concat_same ess); [|done..]. rewrite (mg_perm Hm). by apply (sorted_keys_NoDup c valid); apply Hm.
Qed.

(** ** The order of a direction *)

Definition lt_d (d : Direction) (a b : bytes) : Prop :=
  match d with kForward => Compare c a b < 0 | kReverse => Compare c b a < 0 end.
#[local] Instance lt_d_dec d a b : Decision (lt_d d a b).
Proof. destruct d; apply Z_lt_dec. Defined.

Lemma lt_d_asym d a b : valid a -> valid b -> lt_d d a b -> ~ lt_d d b a.
Proof.
  intros Ha Hb. pose proof (cmp_antisym a b Ha Hb). pose proof (cmp_antisym b a Hb Ha).
  destruct d; cbn; lia.
Qed.
Lemma lt_d_cotrans d a b m : valid a -> valid b -> valid m -> ~ lt_d d a m -> ~ lt_d d m b -> ~ lt_d d a b.
Proof.
  intros Ha Hb Hm'. destruct d; cbn; intros H1 H2 H3.
  - apply H2. apply (cmp_le_lt_trans m a b); [done..| |done]. apply cmp_ge_le; [done..|lia].
  - apply H1. apply (cmp_lt_le_trans b a m) in H3; [|done..|apply cmp_ge_le; [done..|lia]]. lia.
Qed.

(** ** Children and their heap *)

Abbreviation mit := (MergingIterator T).
#[local] Instance mit_ops : Iterator mit := MergingIterator_ops c.

Definition children_at (ws : list (IteratorWrapper T)) (ps : list (option nat)) : Prop :=
  length ws = length ess /\ length ps = length ess /\
  forall j w es p, ws !! j = Some w -> ess !! j = Some es -> ps !! j = Some p -> at_pos c valid es w p.
Definition rests (d : Direction) (ps : list (option nat)) : list (list (bytes * bytes)) :=
  zip_with (rem d) ps ess.
Definition live (ps : list (option nat)) (j : nat) : Prop := exists i, ps !! j = Some (Some i).

(** The comparisons of the children that stand at an entry are up to date. *)
Record keyed (mi : mit) (ps : list (option nat)) : Prop := {
  ky_children : children_at (children_ mi) ps;
  ky_len : length (comparisons_ mi) = length ess;
  ky_nums : forall j w, live ps j -> children_ mi !! j = Some w ->
    comparisons_ mi !! j = Some (KeyNum c (key w));
  ky_status : status_ mi = OK;
}.
Record heaped (mi : mit) (ps : list (option nat)) : Prop := {
  hp_keyed : keyed mi ps;
  hp_nodup : NoDup (heap_ mi);
  hp_live : forall j, j ∈ heap_ mi <-> live ps j;
  hp_heap : is_heap (HeapComparator c mi) (heap_ mi);
}.

Lemma live_child ws ps j :
  children_at ws ps -> live ps j ->
  exists w es i, ws !! j = Some w /\ ess !! j = Some es /\ ps !! j = Some (Some i) /\
    at_pos c valid es w (Some i) /\ es !! i = Some (key w, value w) /\ (key w, value w) ∈ ms /\ valid (key w).
Proof.
  intros (Hl & Hlp & Hat) [i Hi]. pose proof (lookup_lt_Some _ _ _ Hi) as Hlt.
  destruct (lookup_lt_is_Some_2 ws j ltac:(lia)) as [w Hw].
  destruct (lookup_lt_is_Some_2 ess j ltac:(lia)) as [es Hes].
  specialize (Hat _ _ _ _ Hw Hes Hi). pose proof (io_entry _ _ Hat) as He.
  destruct (source_facts _ _ Hes) as (_ & Hv & Hin).
  exists w, es, i. split_and!; [done..| |].
  - apply Hin. by eapply list_elem_of_lookup_2.
  - by eapply valid_keys_lookup.
Qed.

Lemma HeapComparator_lt mi ps j1 j2 :
  keyed mi ps -> live ps j1 -> live ps j2 ->
  HeapComparator c mi j1 j2 = bool_decide (lt_d (direction_ mi) (child_key mi j2) (child_key mi j1)).
Proof.
  intros Hk L1 L2.
  destruct (live_child _ _ _ (ky_children _ _ Hk) L1) as (w1 & _ & _ & Hw1 & _ & _ & _ & _ & _ & Hv1).
  destruct (live_child _ _ _ (ky_children _ _ Hk) L2) as (w2 & _ & _ & Hw2 & _ & _ & _ & _ & _ & Hv2).
  assert (comparison mi j1 = KeyNum c (key w1)) as E1
    by (unfold comparison; by rewrite (ky_nums _ _ Hk _ _ L1 Hw1)).
  assert (comparison mi j2 = KeyNum c (key w2)) as E2
    by (unfold comparison; by rewrite (ky_nums _ _ Hk _ _ L2 Hw2)).
  assert (child_key mi j1 = key w1) as K1 by (unfold child_key; by rewrite Hw1).
  assert (child_key mi j2 = key w2) as K2 by (unfold child_key; by rewrite Hw2).
  assert (forall a b, valid a -> valid b ->
    (KeyNum c a <? KeyNum c b) || ((KeyNum c a =? KeyNum c b) && (Compare c a b <? 0)) =
    bool_decide (Compare c a b < 0)) as Hcmp.
  { intros a b Ha Hb. pose proof (kn_mono a b Ha Hb). pose proof (kn_mono b a Hb Ha).
    pose proof (cmp_antisym a b Ha Hb). pose proof (cmp_antisym b a Hb Ha).
    destruct (Z.ltb_spec (KeyNum c a) (KeyNum c b)); destruct (Z.eqb_spec (KeyNum c a) (KeyNum c b));
      destruct (Z.ltb_spec (Compare c a b) 0); cbn;
      first [rewrite bool_decide_true by lia; done|rewrite bool_decide_false by lia; done]. }
  unfold HeapComparator. destruct (direction_ mi); rewrite E1, E2, K1, K2; by apply Hcmp.
Qed.
Lemma keyed_strict_weak mi ps D :
  keyed mi ps -> (forall j, j ∈ D -> live ps j) -> strict_weak (HeapComparator c mi) D.
Proof.
  intros Hk HD.
  assert (forall j, j ∈ D -> valid (child_key mi j)) as Hv.
  { intros j Hj. destruct (live_child _ _ _ (ky_children _ _ Hk) (HD j Hj)) as (w & _ & _ & Hw & _ & _ & _ & _ & _ & Hv).
    unfold child_key. by rewrite Hw. }
  split.
  - intros x y Hx Hy. rewrite !(HeapComparator_lt _ ps) by eauto. rewrite bool_decide_eq_true.
    intros Hlt. apply bool_decide_eq_false. by apply lt_d_asym; [apply Hv..|].
  - intros x y z Hx Hy Hz. rewrite !(HeapComparator_lt _ ps) by eauto. rewrite !bool_decide_eq_false.
    intros H1 H2. by apply (lt_d_cotrans _ _ _ (child_key mi z)); [apply Hv..| |].
Qed.

(** What remains is ordered. *)
Lemma rem_sorted d p es e l :
  sorted_keys c es -> rem d p es = e :: l -> Forall (fun e' => lt_d d (fst e) (fst e')) l.
Proof.
  intros Hs E. apply Forall_forall. intros [k' v'] [j Hj]%list_elem_of_lookup. destruct e as [k v].
  destruct p as [i|]; [|done]. destruct d; cbn [rem lt_d fst] in *.
  - assert (es !! i = Some (k, v)) as Hi by (rewrite <- (Nat.add_0_r i), <- lookup_drop, E; done).
    assert (es !! (i + S j)%nat = Some (k', v')) as Hj' by (rewrite <- lookup_drop, E; done).
    eapply sorted_keys_lookup; [done| |exact Hi|exact Hj']. lia.
  - assert (reverse (reverse (take (S i) es)) = take (S i) es) as Er by apply reverse_involutive.
    rewrite E, reverse_cons in Er.
    assert (take (S i) es !! length l = Some (k, v)) as Hi.
    { rewrite <- Er, lookup_app_r by (rewrite length_reverse; lia). by rewrite length_reverse, Nat.sub_diag. }
    assert (take (S i) es !! (length l - S j)%nat = Some (k', v')) as Hj'.
    { rewrite <- Er. pose proof (lookup_lt_Some _ _ _ Hj). rewrite lookup_app_l by (rewrite length_reverse; lia).
      rewrite reverse_lookup by lia. by replace (length l - S (length l - S j))%nat with j by lia. }
    pose proof (lookup_lt_Some _ _ _ Hj).
    apply lookup_take_Some in Hi as [Hi _]. apply lookup_take_Some in Hj' as [Hj' _].
    eapply sorted_keys_lookup; [done| |exact Hj'|exact Hi]. lia.
Qed.

Lemma rests_lookup d ps j p es :
  ps !! j = Some p -> ess !! j = Some es -> rests d ps !! j = Some (rem d p es).
Proof. intros Hp He. unfold rests. by rewrite lookup_zip_with, Hp; cbn; rewrite He. Qed.
Lemma rests_elem d ps e :
  e ∈ concat (rests d ps) -> exists j p es, ps !! j = Some p /\ ess !! j = Some es /\ e ∈ rem d p es.
Proof.
  intros He. apply list_elem_of_In, in_concat in He as (r & Hr%list_elem_of_In & He%list_elem_of_In).
  apply list_elem_of_lookup in Hr as [j Hj]. unfold rests in Hj. rewrite lookup_zip_with in Hj.
  destruct (ps !! j) as [p|] eqn:Ep; [|done]. destruct (ess !! j) as [es|] eqn:Ee; [|done].
  cbn in Hj. injection Hj as <-. by exists j, p, es.
Qed.
Lemma elem_rests d ps j p es e :
  ps !! j = Some p -> ess !! j = Some es -> e ∈ rem d p es -> e ∈ concat (rests d ps).
Proof.
  intros Hp Hes He. apply list_elem_of_In, in_concat. exists (rem d p es).
  split; apply list_elem_of_In; [|done]. eapply list_elem_of_lookup_2. by apply rests_lookup.
Qed.

(** The child on top of the heap has the next entry of the union. *)
Lemma heap_top_entry d mi ps i :
  heaped mi ps -> direction_ mi = d -> concat (rests d ps) ≡ₚ rem d (Some i) ms -> (i < length ms)%nat ->
  exists cur l w es ci, heap_ mi = cur :: l /\ children_ mi !! cur = Some w /\ ess !! cur = Some es /\
    ps !! cur = Some (Some ci) /\ at_pos c valid es w (Some ci) /\ es !! ci = Some (key w, value w) /\
    ms !! i = Some (key w, value w).
Proof.
  intros Hh Hd Hr [[k v] Hi]%lookup_lt_is_Some_2. pose proof (hp_keyed _ _ Hh) as Hk.
  rewrite (rem_step d ms i (k, v) Hi) in Hr. remember (rem d (step_pos d ms i) ms) as R eqn:ER.
  assert (Forall (fun e' => lt_d d k (fst e')) R) as HR.
  { apply (rem_sorted d (Some i) ms (k, v)); [apply Hm|]. rewrite (rem_step d ms i (k, v) Hi). by subst R. }
  assert ((k, v) ∈ concat (rests d ps)) as Hin by (rewrite Hr; apply elem_of_cons; by left).
  apply rests_elem in Hin as (j & p & es & Hp & Hes & Hin).
  destruct p as [ij|]; [|by apply elem_of_nil in Hin].
  assert (live ps j) as Lj by (by exists ij).
  pose proof (proj2 (hp_live _ _ Hh j) Lj) as Hjh.
  destruct (heap_ mi) as [|cur l] eqn:Eh; [by apply elem_of_nil in Hjh|].
  assert (live ps cur) as Lc by (apply (hp_live _ _ Hh); rewrite Eh; apply elem_of_cons; by left).
  destruct (live_child _ _ _ (ky_children _ _ Hk) Lc) as (w & esc & ci & Hw & Hesc & Hci & Hat & Hent & Hwm & Hwv).
  exists cur, l, w, esc, ci. split_and!; try done.
  destruct (live_child _ _ _ (ky_children _ _ Hk) Lj) as (wj & esj & ij' & Hwj & Hesj & Hij & _ & Hentj & Hjm & Hjv).
  assert (esj = es) as -> by congruence. assert (ij' = ij) as -> by congruence.
  (* the heads: top is not after child j's head, which is not after (k, v) *)
  assert (~ lt_d d (key wj) (key w)) as H1.
  { pose proof (heap_top (HeapComparator c mi) cur l) as Ht. rewrite <- Eh in Ht.
    specialize (Ht (keyed_strict_weak mi ps _ Hk (fun j => proj1 (hp_live _ _ Hh j))) (hp_heap _ _ Hh) j ltac:(rewrite Eh; done)).
    rewrite (HeapComparator_lt _ ps) in Ht by done. apply bool_decide_eq_false in Ht.
    unfold child_key in Ht. by rewrite Hw, Hwj, Hd in Ht. }
  assert (~ lt_d d k (key wj)) as H2.
  { rewrite (rem_step d es ij _ Hentj) in Hin. apply elem_of_cons in Hin as [E|Hin].
    - assert (k = key wj) as -> by congruence. intros Hbad. by destruct (lt_d_asym d _ _ Hjv Hjv Hbad).
    - pose proof (rem_sorted d (Some ij) es _ _ (proj1 (source_facts _ _ Hes)) (rem_step d es ij _ Hentj)) as Hs.
      rewrite Forall_forall in Hs. specialize (Hs _ Hin). cbn in Hs. apply lt_d_asym; [done| |done].
      destruct (source_facts _ _ Hes) as (_ & Hv & _). eapply valid_keys_lookup; [apply Hm|exact Hi]. }
  assert (valid k) as Hkv by (eapply valid_keys_lookup; [apply Hm|exact Hi]).
  assert ((key w, value w) ∈ (k, v) :: R) as Hwr.
  { rewrite <- Hr. apply (elem_rests d ps cur (Some ci) esc); [done..|]. rewrite (rem_step d esc ci _ Hent). apply elem_of_cons. by left. }
  apply elem_of_cons in Hwr as [->|Hwr]; [done|].
  rewrite Forall_forall in HR. specialize (HR _ Hwr). cbn in HR. exfalso.
  by apply (lt_d_cotrans d k (key w) (key wj) Hkv Hwv Hjv H2 H1).
Qed.
Lemma heap_top_None d mi ps :
  heaped mi ps -> concat (rests d ps) ≡ₚ [] -> heap_ mi = [].
Proof.
  intros Hh Hr%Permutation_nil_r. destruct (heap_ mi) as [|cur l] eqn:Eh; [done|]. exfalso.
  assert (live ps cur) as Lc by (apply (hp_live _ _ Hh); rewrite Eh; apply elem_of_cons; by left).
  destruct (live_child _ _ _ (ky_children _ _ (hp_keyed _ _ Hh)) Lc) as (w & es & ci & _ & Hes & Hci & _ & Hent & _).
  assert ((key w, value w) ∈ concat (rests d ps)) as Hin.
  { apply (elem_rests d ps cur (Some ci) es); [done..|]. rewrite (rem_step d es ci _ Hent). apply elem_of_cons. by left. }
  rewrite Hr in Hin. by apply elem_of_nil in Hin.
Qed.

(** ** Rebuilding the heap *)

Fixpoint valid_from (i : nat) (ws : list (IteratorWrapper T)) : list nat :=
  match ws with
  | [] => []
  | w :: ws => if Valid w then i :: valid_from (S i) ws else valid_from (S i) ws
  end.
Lemma valid_from_elem ws : forall i x,
  x ∈ valid_from i ws <-> exists j w, ws !! j = Some w /\ Valid w = true /\ x = (i + j)%nat.
Proof.
  induction ws as [|w ws IH]; intros i x; cbn [valid_from].
  - rewrite elem_of_nil. split; [done|]. by intros (? & ? & ? & _).
  - assert (x ∈ valid_from (S i) ws <->
      exists j w', (w :: ws) !! S j = Some w' /\ Valid w' = true /\ x = (i + S j)%nat) as IH'.
    { rewrite IH. split; intros (j & w' & ? & ? & ->); exists j, w'; (split; [done|]; split; [done|lia]). }
    destruct (Valid w) eqn:Ev; [rewrite elem_of_cons|]; rewrite IH'; split.
    + intros [->|(j & w' & Hj)]; [exists 0%nat, w; split; [done|]; split; [done|lia]|by exists (S j), w'].
    + intros ([|j] & w' & Hj & Hv & ->); [left; lia|right; by exists j, w'].
    + intros (j & w' & Hj). by exists (S j), w'.
    + intros ([|j] & w' & Hj & Hv & ->); [cbn in Hj; congruence|by exists j, w'].
Qed.
Lemma valid_from_NoDup ws : forall i, NoDup (valid_from i ws).
Proof.
  induction ws as [|w ws IH]; intros i; cbn [valid_from]; [constructor|]. destruct (Valid w); [|apply IH].
  constructor; [|apply IH]. rewrite valid_from_elem. intros (j & w' & _ & _ & E). lia.
Qed.

Lemma reinit_loop_spec ws : forall i (mi : mit),
  let mi' := reinit_loop c i ws mi in
  children_ mi' = children_ mi /\ direction_ mi' = direction_ mi /\ current_ mi' = current_ mi /\
  status_ mi' = status_ mi /\ length (comparisons_ mi') = length (comparisons_ mi) /\
  heap_ mi' = heap_ mi ++ valid_from i ws /\
  (forall j, (j < i)%nat -> comparisons_ mi' !! j = comparisons_ mi !! j) /\
  (forall j w, ws !! j = Some w -> Valid w = true -> (i + j < length (comparisons_ mi))%nat ->
     comparisons_ mi' !! (i + j)%nat = Some (KeyNum c (key w))).
Proof.
  induction ws as [|w ws IH]; intros i mi; cbn [reinit_loop valid_from]; cbv zeta.
  { rewrite app_nil_r. split_and!; done. }
  set (mi1 := if Valid w then _ else mi).
  assert (length (comparisons_ mi1) = length (comparisons_ mi)) as Hlen.
  { unfold mi1. destruct (Valid w); [apply length_insert|done]. }
  destruct (IH (S i) mi1) as (H1 & H2 & H3 & H4 & H5 & H6 & H7 & H8).
  rewrite H1, H2, H3, H4, H5, H6, Hlen. split_and!; try (unfold mi1; by destruct (Valid w)).
  - unfold mi1. destruct (Valid w); [|done]. cbn. by rewrite <- app_assoc.
  - intros j Hj. rewrite H7 by lia. unfold mi1. destruct (Valid w); [|done]. cbn.
    by rewrite list_lookup_insert_ne by lia.
  - intros [|j] w' Hw Hv Hl.
    + injection Hw as ->. rewrite Nat.add_0_r in *. rewrite H7 by lia. unfold mi1. rewrite Hv. cbn.
      by rewrite list_lookup_insert_eq by lia.
    + rewrite <- Nat.add_succ_comm. rewrite Nat.add_comm in Hl |- *. rewrite Nat.add_comm. apply H8; [done..|]. lia.
Qed.

Lemma live_valid ws ps j :
  children_at ws ps -> live ps j <-> exists w, ws !! j = Some w /\ Valid w = true.
Proof.
  intros Hch. split.
  - intros Hl. destruct (live_child _ _ _ Hch Hl) as (w & es & i & Hw & _ & _ & Hat & _).
    exists w. split; [done|]. by rewrite (io_valid _ _ Hat).
  - intros (w & Hw & Hv). destruct Hch as (Hl & Hlp & Hat). pose proof (lookup_lt_Some _ _ _ Hw) as Hlt.
    destruct (lookup_lt_is_Some_2 ps j ltac:(lia)) as [p Hp].
    destruct (lookup_lt_is_Some_2 ess j ltac:(lia)) as [es Hes].
    rewrite (io_valid _ _ (Hat _ _ _ _ Hw Hes Hp)) in Hv. apply bool_decide_eq_true in Hv as [i ->]. by exists i.
Qed.

Lemma reinit_heaped (mi : mit) ps :
  children_at (children_ mi) ps -> length (comparisons_ mi) = length ess -> status_ mi = OK ->
  let mi' := ReinitializeComparisons c mi in
  heaped mi' ps /\ direction_ mi' = direction_ mi /\ current_ mi' = current_ mi /\
  children_ mi' = children_ mi.
Proof.
  intros Hch Hlen Hst. unfold ReinitializeComparisons. cbv zeta.
  destruct (reinit_loop_spec (children_ mi) 0 (set_heap mi (comparisons_ mi) []))
    as (H1 & H2 & H3 & H4 & H5 & H6 & _ & H8).
  set (mi1 := reinit_loop c 0 (children_ mi) (set_heap mi (comparisons_ mi) [])) in *.
  cbn [children_ direction_ current_ status_ comparisons_ heap_ set_heap app] in *.
  assert (keyed mi1 ps) as Hk.
  { split; [by rewrite H1|by rewrite H5|..|by rewrite H4]. intros j w Hl Hw. rewrite H1 in Hw.
    apply (live_valid _ _ _ Hch) in Hl as (w' & Hw' & Hv). assert (w' = w) as -> by congruence.
    apply (H8 j w Hw Hv). apply lookup_lt_Some in Hw. destruct Hch as (Hl & _). cbn. lia. }
  assert (forall j, j ∈ heap_ mi1 <-> live ps j) as Hlive.
  { intros j. rewrite H6, valid_from_elem, (live_valid _ _ _ Hch). split.
    - intros (j' & w & Hw & Hv & ->). by exists w.
    - intros (w & Hw & Hv). by exists j, w. }
  destruct (make_heap_ok (HeapComparator c mi1) (heap_ mi1)) as [Hheap Hperm].
  { apply (keyed_strict_weak mi1 ps _ Hk). intros j. apply Hlive. }
  split; [|by rewrite H1, H2, H3]. split.
  - destruct Hk as [K1 K2 K3 K4]. by split.
  - cbn. rewrite Hperm, H6. apply valid_from_NoDup.
  - intros j. cbn. rewrite Hperm. apply Hlive.
  - exact Hheap.
Qed.

(** ** Positions *)

Definition based (mi : mit) : Prop :=
  status_ mi = OK /\ length (comparisons_ mi) = length ess /\ exists ps, children_at (children_ mi) ps.
Definition standing (d : Direction) (mi : mit) (ps : list (option nat)) (i : nat) : Prop :=
  heaped mi ps /\ direction_ mi = d /\ current_ mi = head (heap_ mi) /\
  concat (rests d ps) ≡ₚ rem d (Some i) ms /\ (i < length ms)%nat.
Definition mpos (mi : mit) (p : option nat) : Prop :=
  match p with
  | Some i => exists d ps, standing d mi ps i
  | None => current_ mi = None /\ based mi
  end.

Lemma keyed_based mi ps : keyed mi ps -> based mi.
Proof. intros [H1 H2 _ H4]. split; [done|]. split; [done|]. by exists ps. Qed.
Lemma mpos_based mi p : mpos mi p -> based mi.
Proof. destruct p as [i|]; [|by intros [_ ?]]. intros (d & ps & Hh & _). eapply keyed_based, Hh. Qed.

Definition find (d : Direction) : mit -> option mit :=
  match d with kForward => FindSmallest | kReverse => FindLargest end.
Lemma found d mi ps q :
  heaped mi ps -> direction_ mi = d -> (forall i, q = Some i -> (i < length ms)%nat) ->
  concat (rests d ps) ≡ₚ rem d q ms ->
  exists mi', find d mi = Some mi' /\ mpos mi' q.
Proof.
  intros Hh Hd Hq Hr. exists (set_current mi (head (heap_ mi))). split.
  { destruct d; cbn; [unfold FindSmallest|unfold FindLargest]; by rewrite Hd. }
  destruct q as [i|].
  - exists d, ps. split; [|by split_and!; try done; apply Hq].
    destruct Hh as [[K1 K2 K3 K4] H2 H3 H4]. by repeat split; try done; apply K1 || apply H3.
  - split; [|exact (keyed_based mi ps (hp_keyed _ _ Hh))]. cbn. by rewrite (heap_top_None d mi ps Hh Hr).
Qed.

(** ** Positioning *)

(** All children seek, the heap is rebuilt and the top is found. *)
Lemma reposition d mi ws (f : list (bytes * bytes) -> option nat) q :
  based mi -> length ws = length ess ->
  (forall j w es, ws !! j = Some w -> ess !! j = Some es -> at_pos c valid es w (f es)) ->
  (forall i, q = Some i -> (i < length ms)%nat) ->
  concat ((fun es => rem d (f es) es) <$> ess) ≡ₚ rem d q ms ->
  exists mi', find d (ReinitializeComparisons c (set_direction (set_children mi ws) d)) = Some mi' /\ mpos mi' q.
Proof.
  intros (Hst & Hlen & _) Hl Hat Hq Hr.
  destruct (reinit_heaped (set_direction (set_children mi ws) d) (f <$> ess)) as (Hh & Hd & _).
  - split; [done|]. split; [apply length_fmap|]. intros j w es p Hw Hes Hp.
    rewrite list_lookup_fmap, Hes in Hp. injection Hp as <-. by apply (Hat j).
  - done.
  - done.
  - apply (found d _ (f <$> ess) q Hh Hd Hq). rewrite <- Hr. unfold rests.
    assert (zip_with (rem d) (f <$> ess) ess = (fun es => rem d (f es) es) <$> ess) as ->; [|done].
    clear. induction ess as [|es l IH]; [done|]. cbn. by rewrite IH.
Qed.
Lemma based_children mi j w es : based mi -> children_ mi !! j = Some w -> ess !! j = Some es ->
  length (children_ mi) = length ess /\ exists p, at_pos c valid es w p.
Proof.
  intros (_ & _ & ps & Hl & Hlp & Hat) Hw Hes. split; [done|].
  destruct (lookup_lt_is_Some_2 ps j) as [p Hp]; [apply lookup_lt_Some in Hes; lia|]. exists p. by apply (Hat j).
Qed.
Lemma based_length mi : based mi -> length (children_ mi) = length ess.
Proof. by intros (_ & _ & ps & Hl & _). Qed.

Lemma concat_fmap_perm (f g : list (bytes * bytes) -> list (bytes * bytes)) :
  (forall es, es ∈ ess -> f es ≡ₚ g es) -> concat (f <$> ess) ≡ₚ concat (g <$> ess).
Proof.
  intros Hfg. apply concat_perm; [by rewrite !length_fmap|]. intros j x y Hx Hy.
  rewrite list_lookup_fmap in Hx, Hy. destruct (ess !! j) as [es|] eqn:E; [|done].
  injection Hx as <-. injection Hy as <-. apply Hfg. by eapply list_elem_of_lookup_2.
Qed.
Lemma merge_first mi : based mi -> exists mi', mi_SeekToFirst c mi = Some mi' /\ mpos mi' (first_pos ms).
Proof.
  intros Hb. apply (reposition kForward mi _ first_pos); [done|by rewrite length_fmap, based_length| | |].
  - intros j w es Hw Hes. rewrite list_lookup_fmap in Hw. apply fmap_Some in Hw as (w0 & Hw0 & ->).
    destruct (based_children mi j w0 es Hb Hw0 Hes) as (_ & p & Hp). by eapply io_first.
  - destruct ms; [done|]. intros i [= <-]. cbn. lia.
  - rewrite (rem_first ms), <- (mg_perm Hm). rewrite (concat_fmap_perm _ id), list_fmap_id; [done|].
    intros es _. by rewrite rem_first.
Qed.
Lemma merge_last mi : based mi -> exists mi', mi_SeekToLast c mi = Some mi' /\ mpos mi' (last_pos ms).
Proof.
  intros Hb. apply (reposition kReverse mi _ last_pos); [done|by rewrite length_fmap, based_length| | |].
  - intros j w es Hw Hes. rewrite list_lookup_fmap in Hw. apply fmap_Some in Hw as (w0 & Hw0 & ->).
    destruct (based_children mi j w0 es Hb Hw0 Hes) as (_ & p & Hp). by eapply io_last.
  - destruct ms; [done|]. intros i [= <-]. cbn. lia.
  - rewrite (rem_last ms), <- (mg_perm Hm). rewrite (concat_fmap_perm _ id), list_fmap_id; [done|].
    intros es _. by rewrite rem_last.
Qed.
Lemma merge_seek mi t : valid t -> based mi ->
  exists mi', mi_Seek c mi t = Some mi' /\ mpos mi' (first_ge c ms t).
Proof.
  intros Ht Hb.
  apply (reposition kForward mi _ (fun es => first_ge c es t)); [done|by rewrite length_fmap, based_length| | |].
  - intros j w es Hw Hes. rewrite list_lookup_fmap in Hw. apply fmap_Some in Hw as (w0 & Hw0 & ->).
    destruct (based_children mi j w0 es Hb Hw0 Hes) as (_ & p & Hp). by eapply io_seek.
  - intros i [(k & v & Hi & _) _]%first_ge_Some. by eapply lookup_lt_Some.
  - rewrite (cut_after c valid ms t (mg_sorted Hm) (mg_valid Hm) Ht), <- (mg_perm Hm).
    rewrite (concat_fmap_perm _ (filter (at_or_after c t))), <- filter_concat; [done|].
    intros es (j & Hj)%list_elem_of_lookup. destruct (source_facts _ _ Hj) as (? & ? & _).
    by rewrite (cut_after c valid).
Qed.

(** ** Stepping *)

Definition step_child (d : Direction) : IteratorWrapper T -> IteratorWrapper T :=
  match d with kForward => Next | kReverse => Prev end.
Lemma step_child_pos d es w i :
  at_pos c valid es w (Some i) -> at_pos c valid es (step_child d w) (step_pos d es i).
Proof. intros Hp. destruct d; [by apply io_next|by apply io_prev]. Qed.
Lemma step_pos_range {A} d (es : list A) i j :
  (i < length es)%nat -> step_pos d es i = Some j -> (j < length es)%nat.
Proof.
  destruct d; cbn; [unfold next_pos; destruct (Nat.ltb_spec (S i) (length es)); [|done]; intros _ [= <-]; done|].
  destruct i; cbn; intros Hi [= <-]. lia.
Qed.

(** Children at new positions with the comparisons of those that moved. *)
Lemma moved_children mi ps cur w es p' :
  children_at (children_ mi) ps -> children_ mi !! cur = Some w -> ess !! cur = Some es ->
  forall w', at_pos c valid es w' p' -> children_at (<[cur := w']> (children_ mi)) (<[cur := p']> ps).
Proof.
  intros (Hl & Hlp & Hat) Hw Hes w' Hp'. split; [by rewrite length_insert|]. split; [by rewrite length_insert|].
  intros j wj esj p Hj Hesj Hp. destruct (decide (j = cur)) as [->|Hne].
  - rewrite list_lookup_insert_eq in Hj by (by eapply lookup_lt_Some).
    rewrite list_lookup_insert_eq in Hp by (apply lookup_lt_Some in Hes; lia). congruence.
  - rewrite list_lookup_insert_ne in Hj by done. rewrite list_lookup_insert_ne in Hp by done. by apply (Hat j).
Qed.
Lemma live_moved ps cur p' j :
  live (<[cur := p']> ps) j -> j <> cur -> live ps j.
Proof. intros [i Hi] Hne. rewrite list_lookup_insert_ne in Hi by done. by exists i. Qed.

(** Heaps that hold other children only are not disturbed. *)
Lemma is_heap_moved mi mi' ps ps' l cur :
  keyed mi ps -> keyed mi' ps' -> direction_ mi' = direction_ mi ->
  (forall j, j <> cur -> children_ mi' !! j = children_ mi !! j) -> cur ∉ l ->
  (forall j, j ∈ l -> live ps j) -> (forall j, j ∈ l -> live ps' j) ->
  is_heap (HeapComparator c mi) l -> is_heap (HeapComparator c mi') l.
Proof.
  intros Hk Hk' Hd Hch Hcur Hl Hl'. apply is_heap_ext. intros x y Hx Hy.
  rewrite (HeapComparator_lt mi ps), (HeapComparator_lt mi' ps') by auto. unfold child_key.
  by rewrite Hd, !Hch by congruence.
Qed.

Definition advance (d : Direction) (mi : mit) (cur : nat) : option mit :=
  mi ← PopCurrentComparison c mi cur;
  find d (PushCurrentComparison c (on_current mi cur (step_child d)) cur).

Lemma push_current (mi1 : mit) ps ps' l' cur w' d :
  keyed mi1 ps -> heap_ mi1 = l' -> NoDup l' -> cur ∉ l' -> direction_ mi1 = d ->
  (forall j, j ∈ l' <-> live ps j /\ j <> cur) ->
  is_heap (HeapComparator c mi1) l' ->
  (cur < length ess)%nat ->
  let mi2 := set_children mi1 (<[cur := w']> (children_ mi1)) in
  children_at (children_ mi2) ps' -> (forall j, j <> cur -> ps' !! j = ps !! j) ->
  let mi3 := PushCurrentComparison c mi2 cur in
  heaped mi3 ps' /\ direction_ mi3 = d.
Proof.
  intros Hk Hheap Hnd Hcur Hd Hl' Hh Hlt mi2 Hch Hps mi3.
  pose proof Hk as [(Hlc & Hlp & _) Hlen Hnums Hst].
  assert (children_ mi2 !! cur = Some w') as Hw' by (cbn; apply list_lookup_insert_eq; lia).
  assert (forall j, j <> cur -> children_ mi2 !! j = children_ mi1 !! j) as Hoth
    by (intros j Hne; cbn; by rewrite list_lookup_insert_ne by done).
  assert (forall j, j <> cur -> live ps' j <-> live ps j) as Hlive
    by (intros j Hne; unfold live; by rewrite Hps).
  unfold mi3, PushCurrentComparison. rewrite Hw'.
  pose proof (live_valid _ _ cur Hch) as Hv. destruct (Valid w') eqn:Ev.
  - set (mi4 := set_heap mi2 _ _).
    assert (live ps' cur) as Hlc' by (apply Hv; by exists w').
    assert (keyed mi4 ps') as Hk4.
    { split; [done|by cbn; rewrite length_insert|..|done]. intros j w Hj Hw. change (children_ mi2 !! j = Some w) in Hw. cbn [mi4 comparisons_ set_heap].
      destruct (decide (j = cur)) as [->|Hne].
      - assert (w = w') as -> by congruence. cbn. by rewrite list_lookup_insert_eq by lia.
      - rewrite list_lookup_insert_ne by done. apply Hnums; [by apply Hlive|by rewrite <- Hoth]. }
    assert (is_heap (HeapComparator c mi4) l') as Hh4.
    { eapply (is_heap_moved mi1 mi4 ps ps' l' cur); try done; intros j Hj; [apply Hl', Hj|].
      apply Hlive; [congruence|]. by apply Hl'. }
    destruct (push_heap_ok (HeapComparator c mi4) l' cur) as [Hp Hperm]; [|done|].
    { apply (keyed_strict_weak mi4 ps' _ Hk4). intros j [Hj|Hj%list_elem_of_singleton]%elem_of_app; [|by subst].
      apply Hlive; [congruence|]. by apply Hl'. }
    split; [|exact Hd]. cbn in Hp, Hperm. split.
    + destruct Hk4 as [K1 K2 K3 K4]. by split.
    + cbn. rewrite Hheap. rewrite Hperm. apply NoDup_app. split_and!; [done| |apply NoDup_singleton].
      intros j Hj ->%list_elem_of_singleton. done.
    + intros j. cbn. rewrite Hheap, Hperm, elem_of_app, list_elem_of_singleton, Hl'.
      destruct (decide (j = cur)) as [->|Hne]; [tauto|]. rewrite Hlive by done. tauto.
    + cbn. rewrite Hheap. exact Hp.
  - assert (~ live ps' cur) as Hnl.
    { intros (w & Hw & Hvw)%Hv. congruence. }
    assert (keyed mi2 ps') as Hk2.
    { split; [done..| |done]. intros j w Hj Hw. assert (j <> cur) as Hne by congruence.
      apply Hnums; [by apply Hlive|by rewrite <- Hoth]. }
    split; [|exact Hd]. split; [done|by cbn; rewrite Hheap| |].
    + intros j. cbn. rewrite Hheap, Hl'. destruct (decide (j = cur)) as [->|Hne]; [tauto|].
      rewrite Hlive by done. tauto.
    + cbn [heap_ mi2 set_children]. rewrite Hheap.
      eapply (is_heap_moved mi1 mi2 ps ps' l' cur); try done; intros j Hj; [apply Hl', Hj|].
      apply Hlive; [congruence|]. by apply Hl'.
Qed.

Lemma advance_ok d mi ps i :
  standing d mi ps i ->
  exists cur mi', current_ mi = Some cur /\ advance d mi cur = Some mi' /\ mpos mi' (step_pos d ms i).
Proof.
  intros (Hh & Hd & Hcur & Hr & Hi).
  destruct (heap_top_entry d mi ps i Hh Hd Hr Hi) as (cur & l & w & es & ci & Eh & Hw & Hes & Hci & Hat & Hent & Hmi).
  exists cur. pose proof (hp_keyed _ _ Hh) as Hk. pose proof (hp_nodup _ _ Hh) as Hnd.
  pose proof (hp_live _ _ Hh) as Hlive. pose proof (hp_heap _ _ Hh) as Hheap. rewrite Eh in Hcur, Hnd, Hlive, Hheap.
  destruct (pop_heap_ok (HeapComparator c mi) cur l) as (l' & Hpop & Hh' & Hperm); [|done|].
  { rewrite <- Eh. apply (keyed_strict_weak mi ps _ Hk). intros j. rewrite Eh. apply Hlive. }
  apply NoDup_cons in Hnd as [Hnin Hnd].
  set (mi1 := set_heap mi (comparisons_ mi) l').
  assert (PopCurrentComparison c mi cur = Some mi1) as Hp.
  { unfold PopCurrentComparison. rewrite Eh. cbn [head]. rewrite bool_decide_true by done.
    rewrite Hpop, removelast_last. done. }
  unfold advance. rewrite Hp. cbn [mbind option_bind].
  assert (on_current mi1 cur (step_child d) = set_children mi1 (<[cur := step_child d w]> (children_ mi1))) as ->.
  { unfold on_current. f_equal. rewrite list_insert_alter. apply list_alter_ext; [|done].
    intros w0 Hw0. cbn in Hw0. congruence. }
  set (ps' := <[cur := step_pos d es ci]> ps).
  destruct (push_current mi1 ps ps' l' cur (step_child d w) d) as [Hh3 Hd3].
  - destruct Hk as [K1 K2 K3 K4]. by split.
  - done.
  - by rewrite Hperm.
  - by rewrite Hperm.
  - exact Hd.
  - intros j. rewrite Hperm, <- Hlive, elem_of_cons. split; [|tauto]. intros Hj. split; [by right|congruence].
  - exact Hh'.
  - by eapply lookup_lt_Some.
  - eapply (moved_children mi ps cur w es); [apply Hk|done..|]. by apply step_child_pos.
  - intros j Hne. unfold ps'. by rewrite list_lookup_insert_ne by done.
  - destruct (found d _ ps' (step_pos d ms i) Hh3 Hd3) as (mi' & Hf & Hpos).
    + intros i'. by apply step_pos_range.
    + apply (Permutation_cons_inv (a := (key w, value w))). rewrite <- (rem_step d ms i _ Hmi), <- Hr. symmetry.
      assert (length ps' = length ps) as Hlps by apply length_insert.
      eapply (concat_step _ _ cur (key w, value w)).
      * unfold rests. rewrite !length_zip_with. by rewrite Hlps.
      * rewrite (rests_lookup d ps cur _ es Hci Hes). by rewrite (rem_step d es ci _ Hent).
      * apply rests_lookup; [|done]. unfold ps'. apply list_lookup_insert_eq. by eapply lookup_lt_Some.
      * intros j x y Hne Hx Hy. assert (x = y) as ->; [|done].
        unfold rests, ps' in *. rewrite lookup_zip_with in Hx, Hy. rewrite list_lookup_insert_ne in Hy by done. congruence.
    + exists mi'. split; [done|]. split; [exact Hf|exact Hpos].
Qed.

(** ** Turning around *)

(** The children were moved around the current entry; the current child is on top. *)
Lemma turned d (mi : mit) ws ps i cur es e :
  based mi -> current_ mi = Some cur -> ess !! cur = Some es -> e ∈ es -> ms !! i = Some e ->
  children_at ws ps -> concat (rests d ps) ≡ₚ rem d (Some i) ms ->
  let mi' := ReinitializeComparisons c (set_direction (set_children mi ws) d) in
  standing d mi' ps i /\ current_ mi' = Some cur.
Proof.
  intros (Hst & Hlen & _) Hcur Hes He Hi Hch Hr mi'.
  destruct (reinit_heaped (set_direction (set_children mi ws) d) ps) as (Hh & Hd & Hc' & _); [done..|].
  assert (i < length ms)%nat as Hlt by (by eapply lookup_lt_Some).
  destruct (heap_top_entry d _ ps i Hh Hd Hr Hlt) as (cur' & l & w & es' & ci & Eh & _ & Hes' & _ & _ & Hent & Hmi).
  assert (cur = cur') as <-.
  { destruct e as [k v]. rewrite Hi in Hmi. assert (k = key w) as -> by congruence.
    eapply (entry_source cur cur' es es' (key w) v (key w) (value w)); [done..| |].
    - by eapply list_elem_of_lookup_2.
    - apply cmp_refl. eapply valid_keys_lookup; [apply Hm|exact Hi]. }
  split; [|by rewrite <- Hcur]. split_and!; [done|done| |done|done]. fold mi' in Eh, Hc'. by rewrite Hc', Eh.
Qed.

Lemma others_at (mi : mit) cur f ps ps' :
  children_at (children_ mi) ps -> length ps' = length ess ->
  (forall j w es p, children_ mi !! j = Some w -> ess !! j = Some es -> ps' !! j = Some p ->
     at_pos c valid es (if (j =? cur)%nat then w else f w) p) ->
  children_at (children_ (on_others mi cur f)) ps'.
Proof.
  intros (Hl & Hlp & _) Hlen Hat. split; [by cbn; rewrite length_imap|]. split; [done|].
  intros j w es p Hw Hes Hp. cbn in Hw. rewrite list_lookup_imap in Hw.
  apply fmap_Some in Hw as (w0 & Hw0 & ->). by apply Hat.
Qed.

Section Turn.
Context (mi : mit) (ps : list (option nat)) (cur ci : nat) (w : IteratorWrapper T) (es : list (bytes * bytes)).
Context (Hk : keyed mi ps) (Hw : children_ mi !! cur = Some w) (Hes : ess !! cur = Some es).
Context (Hat : at_pos c valid es w (Some ci)) (Hent : es !! ci = Some (key w, value w)).

Lemma key_valid : valid (key w).
Proof. destruct (source_facts _ _ Hes) as (_ & Hv & _). by eapply valid_keys_lookup. Qed.
Lemma key_first : first_ge c es (key w) = Some ci.
Proof. destruct (source_facts _ _ Hes) as (Hs & Hv & _). by eapply (first_ge_self c valid). Qed.
Lemma child_at j w' esj : children_ mi !! j = Some w' -> ess !! j = Some esj -> exists p, at_pos c valid esj w' p.
Proof. intros Hj Hesj. eapply based_children; [by eapply keyed_based|done..]. Qed.
Lemma other_key j esj i k v : j <> cur -> ess !! j = Some esj -> esj !! i = Some (k, v) -> Compare c (key w) k <> 0.
Proof.
  intros Hne Hesj Hi H0. apply Hne. symmetry.
  eapply (entry_source cur j es esj (key w) (value w) k v); [done..| | |done]; by eapply list_elem_of_lookup_2.
Qed.

Lemma turn_forward :
  children_at (children_ (on_others mi cur (child_after c (key w)))) ((fun es => first_ge c es (key w)) <$> ess).
Proof.
  apply (others_at mi cur _ ps); [apply Hk|apply length_fmap|].
  intros j w' esj p Hj Hesj Hp. rewrite list_lookup_fmap, Hesj in Hp.
  assert (p = first_ge c esj (key w)) as -> by (cbn [fmap option_fmap option_map] in Hp; congruence).
  destruct (Nat.eqb_spec j cur) as [->|Hne].
  - assert (esj = es) as -> by congruence. assert (w' = w) as -> by congruence. by rewrite key_first.
  - destruct (child_at j w' esj Hj Hesj) as [p0 Hp0]. pose proof (io_seek _ _ (key w) key_valid Hp0) as Hsk.
    unfold child_after. destruct (Valid (Seek w' (key w)) && _) eqn:E; [|done]. exfalso.
    apply andb_true_iff in E as [Ev E%Z.eqb_eq].
    rewrite (io_valid _ _ Hsk) in Ev. apply bool_decide_eq_true in Ev as [i' Ei]. rewrite Ei in Hsk.
    exact (other_key j esj i' _ _ Hne Hesj (io_entry _ _ Hsk) E).
Qed.
Definition before_pos (j : nat) (esj : list (bytes * bytes)) : option nat :=
  if (j =? cur)%nat then Some ci else last_before c esj (key w).
Lemma turn_reverse : children_at (children_ (on_others mi cur (child_before (key w)))) (imap before_pos ess).
Proof.
  apply (others_at mi cur _ ps); [apply Hk|apply length_imap|].
  intros j w' esj p Hj Hesj Hp. rewrite list_lookup_imap, Hesj in Hp. injection Hp as <-. unfold before_pos.
  destruct (Nat.eqb_spec j cur) as [->|Hne].
  - assert (esj = es) as -> by congruence. by assert (w' = w) as -> by congruence.
  - destruct (child_at j w' esj Hj Hesj) as [p0 Hp0]. pose proof (io_seek _ _ (key w) key_valid Hp0) as Hsk.
    unfold child_before, last_before. rewrite (io_valid _ _ Hsk).
    destruct (first_ge c esj (key w)) as [j'|]; cbn [bool_decide]; [by apply io_prev|by eapply io_last].
Qed.
Lemma forward_rests i : ms !! i = Some (key w, value w) ->
  concat (rests kForward ((fun es => first_ge c es (key w)) <$> ess)) ≡ₚ rem kForward (Some i) ms.
Proof.
  intros Hi. rewrite <- (first_ge_self c valid ms i (key w) (value w) (mg_sorted Hm) (mg_valid Hm) Hi).
  rewrite (cut_after c valid ms _ (mg_sorted Hm) (mg_valid Hm) key_valid), <- (mg_perm Hm), filter_concat.
  apply concat_perm.
  { unfold rests. by rewrite length_zip_with, !length_fmap, Nat.min_id. }
  intros j x y Hx Hy. rewrite list_lookup_fmap in Hy. destruct (ess !! j) as [esj|] eqn:Ej; [|done].
  apply (inj Some) in Hy. subst y. erewrite rests_lookup in Hx; [|by rewrite list_lookup_fmap, Ej|done]. apply (inj Some) in Hx. subst x.
  destruct (source_facts _ _ Ej) as (? & ? & _). by rewrite (cut_after c valid _ _ ltac:(done) ltac:(done) key_valid).
Qed.
Lemma reverse_rests i : ms !! i = Some (key w, value w) ->
  concat (rests kReverse (imap before_pos ess)) ≡ₚ rem kReverse (Some i) ms.
Proof.
  intros Hi. rewrite (rem_step kReverse ms i _ Hi). cbn [step_pos].
  assert (last_before c ms (key w) = prev_pos i) as <-.
  { unfold last_before. by rewrite (first_ge_self c valid ms i (key w) (value w) (mg_sorted Hm) (mg_valid Hm) Hi). }
  rewrite (cut_before c valid ms _ (mg_sorted Hm) (mg_valid Hm) key_valid), <- (mg_perm Hm), filter_concat.
  rewrite (concat_step _ ((fun es => rem kReverse (last_before c es (key w)) es) <$> ess) cur (key w, value w)
    (rem kReverse (prev_pos ci) es)).
  - f_equiv. apply concat_fmap_perm. intros es' [j Hj]%list_elem_of_lookup.
    destruct (source_facts _ _ Hj) as (? & ? & _). by apply (cut_before c valid); [..|apply key_valid].
  - unfold rests. by rewrite length_zip_with, length_fmap, length_imap, Nat.min_id.
  - rewrite (rests_lookup _ _ cur (Some ci) es); [|by rewrite list_lookup_imap, Hes; unfold before_pos; cbn; rewrite Nat.eqb_refl|done].
    by rewrite (rem_step kReverse es ci _ Hent).
  - rewrite list_lookup_fmap, Hes. cbn [fmap option_fmap option_map]. unfold last_before. by rewrite key_first.
  - intros j x y Hne Hx Hy. rewrite list_lookup_fmap in Hy. destruct (ess !! j) as [esj|] eqn:Ej; [|done].
    apply (inj Some) in Hy. subst y. erewrite rests_lookup in Hx; [|by rewrite list_lookup_imap, Ej|done]. apply (inj Some) in Hx. subst x.
    unfold before_pos. by rewrite (proj2 (Nat.eqb_neq _ _) Hne).
Qed.
End Turn.

Lemma standing_child d mi ps i :
  standing d mi ps i ->
  exists cur w es ci, current_ mi = Some cur /\ child_key mi cur = key w /\ children_ mi !! cur = Some w /\
    ess !! cur = Some es /\ at_pos c valid es w (Some ci) /\ es !! ci = Some (key w, value w) /\
    ms !! i = Some (key w, value w).
Proof.
  intros (Hh & Hd & Hcur & Hr & Hi).
  destruct (heap_top_entry d mi ps i Hh Hd Hr Hi) as (cur & l & w & es & ci & Eh & Hw & Hes & Hci & Hat & Hent & Hmi).
  exists cur, w, es, ci. rewrite Hcur, Eh. unfold child_key. by rewrite Hw.
Qed.

Lemma turn_to_forward mi ps i cur :
  standing kReverse mi ps i -> current_ mi = Some cur ->
  exists ps', standing kForward (ReinitializeComparisons c
    (set_direction (on_others mi cur (child_after c (child_key mi cur))) kForward)) ps' i /\
    current_ (ReinitializeComparisons c
    (set_direction (on_others mi cur (child_after c (child_key mi cur))) kForward)) = Some cur.
Proof.
  intros Hs Hcur. destruct (standing_child _ _ _ _ Hs) as (cur' & w & es & ci & Ec & Hck & Hw & Hes & Hat & Hent & Hi).
  assert (cur' = cur) as -> by congruence. rewrite Hck. destruct Hs as (Hh & _). pose proof (hp_keyed _ _ Hh) as Hk.
  eexists. eapply (turned kForward mi); [by eapply keyed_based|done|exact Hes| |exact Hi| |].
  - by eapply list_elem_of_lookup_2.
  - by eapply turn_forward.
  - by eapply forward_rests.
Qed.
Lemma turn_to_reverse mi ps i cur :
  standing kForward mi ps i -> current_ mi = Some cur ->
  exists ps', standing kReverse (ReinitializeComparisons c
    (set_direction (on_others mi cur (child_before (child_key mi cur))) kReverse)) ps' i /\
    current_ (ReinitializeComparisons c
    (set_direction (on_others mi cur (child_before (child_key mi cur))) kReverse)) = Some cur.
Proof.
  intros Hs Hcur. destruct (standing_child _ _ _ _ Hs) as (cur' & w & es & ci & Ec & Hck & Hw & Hes & Hat & Hent & Hi).
  assert (cur' = cur) as -> by congruence. rewrite Hck. destruct Hs as (Hh & _). pose proof (hp_keyed _ _ Hh) as Hk.
  eexists. eapply (turned kReverse mi); [by eapply keyed_based|done|exact Hes| |exact Hi| |].
  - by eapply list_elem_of_lookup_2.
  - by eapply turn_reverse.
  - by eapply reverse_rests.
Qed.

Lemma merge_next mi i : mpos mi (Some i) -> exists mi', mi_Next c mi = Some mi' /\ mpos mi' (next_pos ms i).
Proof.
  intros (d & ps & Hs). destruct (standing_child _ _ _ _ Hs) as (cur & w & _ & _ & Hcur & _).
  unfold mi_Next. rewrite Hcur. cbn [mbind option_bind].
  pose proof Hs as (_ & Hd & _). rewrite Hd. destruct d.
  - destruct (advance_ok kForward mi ps i Hs) as (cur' & mi' & Hc' & Ha & Hp).
    assert (cur' = cur) as -> by congruence. by exists mi'.
  - destruct (turn_to_forward mi ps i cur Hs Hcur) as (ps' & Hs' & Hcur').
    destruct (advance_ok kForward _ ps' i Hs') as (cur' & mi' & Hc' & Ha & Hp).
    assert (cur' = cur) as -> by congruence. by exists mi'.
Qed.
Lemma merge_prev mi i : mpos mi (Some i) -> exists mi', mi_Prev c mi = Some mi' /\ mpos mi' (prev_pos i).
Proof.
  intros (d & ps & Hs). destruct (standing_child _ _ _ _ Hs) as (cur & w & _ & _ & Hcur & _).
  unfold mi_Prev. rewrite Hcur. cbn [mbind option_bind].
  pose proof Hs as (_ & Hd & _). rewrite Hd. destruct d.
  - destruct (turn_to_reverse mi ps i cur Hs Hcur) as (ps' & Hs' & Hcur').
    destruct (advance_ok kReverse _ ps' i Hs') as (cur' & mi' & Hc' & Ha & Hp).
    assert (cur' = cur) as -> by congruence. by exists mi'.
  - destruct (advance_ok kReverse mi ps i Hs) as (cur' & mi' & Hc' & Ha & Hp).
    assert (cur' = cur) as -> by congruence. by exists mi'.
Qed.

Lemma children_status_ok ws ps : children_at ws ps -> children_status ws OK = OK.
Proof.
  intros (Hl & Hlp & Hat). assert (forall j w, ws !! j = Some w -> Iterator.status w = OK) as Hok.
  { intros j w Hw. pose proof (lookup_lt_Some _ _ _ Hw).
    destruct (lookup_lt_is_Some_2 ps j ltac:(lia)) as [p Hp].
    destruct (lookup_lt_is_Some_2 ess j ltac:(lia)) as [es Hes]. by eapply io_status, Hat. }
  clear -Hok. induction ws as [|w ws IH]; [done|]. cbn [children_status].
  rewrite (Hok 0%nat w eq_refl). apply IH. intros j. apply (Hok (S j)).
Qed.

#[local] Instance MergingIterator_ok : IteratorOk c valid ms mpos.
Proof.
  constructor.
  - intros mi [i|] Hp; cbn.
    + destruct Hp as (d & ps & Hs). destruct (standing_child _ _ _ _ Hs) as (cur & _ & _ & _ & -> & _). done.
    + destruct Hp as [-> _]. done.
  - intros mi i (d & ps & Hs). destruct (standing_child _ _ _ _ Hs) as (cur & w & _ & _ & Hcur & Hk & Hw & _ & _ & _ & Hi).
    cbn [key value mit_ops MergingIterator_ops]. unfold mi_key, mi_value. rewrite Hcur. cbn [mbind option_bind].
    by rewrite Hk, Hw.
  - intros mi p Hp. cbn. destruct (mpos_based mi p Hp) as (-> & _ & ps & Hch). by eapply children_status_ok.
  - intros mi p Hp%mpos_based. cbn. by destruct (merge_first mi Hp) as (mi' & -> & ?).
  - intros mi p Hp%mpos_based. cbn. by destruct (merge_last mi Hp) as (mi' & -> & ?).
  - intros mi i Hp. cbn. by destruct (merge_next mi i Hp) as (mi' & -> & ?).
  - intros mi i Hp. cbn. by destruct (merge_prev mi i Hp) as (mi' & -> & ?).
  - intros mi p t Ht Hp%mpos_based. cbn. by destruct (merge_seek mi t Ht Hp) as (mi' & -> & ?).
Qed.

Lemma merge_new (its : list T) :
  Forall2 (fun it es => exists p, at_pos c valid es it p) its ess -> mpos (MergingIterator_new c its) None.
Proof.
  intros Hits. pose proof (Forall2_length _ _ _ Hits) as Hl. unfold MergingIterator_new.
  destruct (choose_positions c valid its ess Hits) as (ps & Hlp & Hps).
  destruct (reinit_heaped {| children_ := wrap <$> its; comparisons_ := replicate (length its) 0; heap_ := [];
       current_ := None; status_ := OK; direction_ := kForward |} ps) as (Hh & _ & Hc' & _).
  - cbn. split; [by rewrite length_fmap|]. split; [lia|]. intros j w es p Hw Hes Hp.
    rewrite list_lookup_fmap in Hw. apply fmap_Some in Hw as (it & Hit & ->).
    by apply at_pos_wrap, (Hps j).
  - cbn. by rewrite length_replicate.
  - done.
  - split; [done|]. eapply keyed_based, Hh.
Qed.

Lemma sorted_keys_perm es es' :
  sorted_keys c es -> sorted_keys c es' -> valid_keys valid es -> es ≡ₚ es' -> es = es'.
Proof.
  revert es'. induction es as [|[k v] es IH]; intros es' Hs Hs' Hv Hp.
  { by apply Permutation_nil_l in Hp. }
  destruct es' as [|[k' v'] es']; [by apply Permutation_nil_r in Hp|].
  assert (valid_keys valid ((k', v') :: es')) as Hv' by (unfold valid_keys; by rewrite <- Hp).
  destruct Hs as [Hlt Hs], Hs' as [Hlt' Hs'].
  assert ((k, v) = (k', v')) as E.
  { assert ((k, v) ∈ (k', v') :: es') as [E|Hin]%elem_of_cons by (rewrite <- Hp; apply elem_of_cons; by left); [done|].
    assert ((k', v') ∈ (k, v) :: es) as [E|Hin']%elem_of_cons by (rewrite Hp; apply elem_of_cons; by left); [done|].
    rewrite Forall_forall in Hlt, Hlt'. pose proof (Hlt _ Hin') as H1. pose proof (Hlt' _ Hin) as H2. cbn in H1, H2.
    apply cmp_antisym in H1; [lia|by inversion Hv|by inversion Hv']. }
  injection E as <- <-. f_equal. apply IH; [done|done|by inversion Hv|]. by apply Permutation_cons_inv in Hp.
Qed.

Lemma merging_at its :
  Forall2 (fun it es => exists p, at_pos c valid es it p) its ess ->
  exists p, at_pos c valid ms (NewMergingIterator c its) p.
Proof.
  intros Hits. destruct its as [|it [|it' its']] eqn:Eits.
  - exists None. apply at_pos_inl. assert (ess = []) as Enil by (by inversion Hits).
    assert (ms = []) as ->. { pose proof (mg_perm Hm) as Hp. rewrite Enil in Hp. by apply Permutation_nil_l in Hp. }
    exists (fun s p => s = OK /\ p = None). split; [apply EmptyIterator_ok|done].
  - assert (exists es, ess = [es] /\ exists p, at_pos c valid es it p) as (es & Ee & p & Hp).
    { inversion Hits as [|? es ? l Hp Hnil]. inversion Hnil. by exists es. }
    exists p.
    apply at_pos_inr, at_pos_inl. assert (ms = es) as ->; [|done].
    pose proof (mg_perm Hm) as Hpm. pose proof (mg_sources Hm) as Hsrc. rewrite Ee in Hpm, Hsrc. cbn in Hpm.
    rewrite app_nil_r in Hpm. apply sorted_keys_perm; [apply Hm|by inversion Hsrc|apply Hm|done].
  - exists None. apply at_pos_inr, at_pos_inr. exists mpos. split; [apply MergingIterator_ok|by apply merge_new].
Qed.

(** C15: The merging iterator keeps the iterator contract on the union of its sources:
    over children that keep the contract on sorted sources without common keys, in any
    state, every sequence of seeks and steps, in both directions and with every change of
    direction, stands where the contract says on the sorted union; and no assertion on
    the heap or on the direction ever fails.  The same for the iterator that
    [NewMergingIterator] returns for no child and for one child. *)
Theorem merging_iterator_contract (its : list T)
  (Hits : Forall2 (fun it es => exists p, at_pos c valid es it p) its ess) :
  (exists pos, IteratorOk (H := MergingIterator_ops c) c valid ms pos /\ pos (MergingIterator_new c its) None /\
    (forall mi p, pos mi p -> is_Some (mi_SeekToFirst c mi) /\ is_Some (mi_SeekToLast c mi) /\
       forall t, valid t -> is_Some (mi_Seek c mi t)) /\
    (forall mi i, pos mi (Some i) -> is_Some (mi_Next c mi) /\ is_Some (mi_Prev c mi))) /\
  exists p, at_pos c valid ms (NewMergingIterator c its) p.
Proof.
  split; [|by apply merging_at]. exists mpos. split; [apply MergingIterator_ok|]. split; [by apply merge_new|]. split.
  - intros mi p Hp%mpos_based. destruct (merge_first mi Hp) as (? & -> & _).
    destruct (merge_last mi Hp) as (? & -> & _). split_and!; [done|done|].
    intros t Ht. by destruct (merge_seek mi t Ht Hp) as (? & -> & _).
  - intros mi i Hp. destruct (merge_next mi i Hp) as (? & -> & _). by destruct (merge_prev mi i Hp) as (? & -> & _).
Qed.
End Contract.

(** ** An example: merging sorted lists *)

Record ListIter := { li_entries : list (bytes * bytes); li_at : option nat }.
Definition li_move (it : ListIter) (p : option nat) : ListIter := {| li_entries := li_entries it; li_at := p |}.
Definition li_entry (it : ListIter) : option (bytes * bytes) := li_at it ≫= fun i => li_entries it !! i.
Definition ListIter_ops (c : Comparator) : Iterator ListIter := {|
  Valid it := bool_decide (is_Some (li_at it));
  SeekToFirst it := li_move it (first_pos (li_entries it));
  SeekToLast it := li_move it (last_pos (li_entries it));
  Seek it t := li_move it (first_ge c (li_entries it) t);
  Next it := li_move it (li_at it ≫= next_pos (li_entries it));
  Prev it := li_move it (li_at it ≫= prev_pos);
  key it := from_option fst [] (li_entry it);
  value it := from_option snd [] (li_entry it);
  status _ := OK;
|}.
Lemma ListIter_at c valid es : exists p, @at_pos _ (ListIter_ops c) c valid es {| li_entries := es; li_at := None |} p.
Proof.
  exists None, (fun it p => li_entries it = es /\ li_at it = p /\ forall i, p = Some i -> (i < length es)%nat).
  split; [|done]. constructor; cbn; intros it.
  - by intros p (_ & -> & _).
  - intros i (He & Hp & Hi). unfold li_entry. rewrite Hp, He. cbn.
    destruct (lookup_lt_is_Some_2 es i (Hi i eq_refl)) as [[k v] ->]. done.
  - done.
  - intros p (-> & _). split_and!; [done..|]. destruct es; [done|]. intros i [= <-]. cbn. lia.
  - intros p (-> & _). split_and!; [done..|]. destruct es; [done|]. intros i [= <-]. cbn. lia.
  - intros i (-> & -> & Hi). split_and!; [done..|]. intros j. apply (step_pos_range kForward es i j). by apply Hi.
  - intros i (-> & -> & Hi). split_and!; [done..|]. intros j. apply (step_pos_range kReverse es i j). by apply Hi.
  - intros p t _ (-> & _). split_and!; [done..|]. intros i [(k & v & Hi & _) _]%first_ge_Some. by eapply lookup_lt_Some.
Qed.

Definition merge_sources : list (list (bytes * bytes)) :=
  [[([1], [10]); ([3], [30])]; [([2; 0], [20])]; []; [([0], [0]); ([9], [90])]].
Definition merge_result : list (bytes * bytes) :=
  [([0], [0]); ([1], [10]); ([2; 0], [20]); ([3], [30]); ([9], [90])].
Lemma merging_iterator_contract_witness :
  let its := (fun es => {| li_entries := es; li_at := None |}) <$> merge_sources in
  let mi := MergingIterator_new (H := ListIter_ops BytewiseComparator) (H0 := sorted_heap) BytewiseComparator its in
  let ops := MergingIterator_ops (H := ListIter_ops BytewiseComparator) (H0 := sorted_heap) BytewiseComparator in
  @collect _ ops 5 (@SeekToFirst _ ops mi) = merge_result.
Proof.
  intros its mi ops.
  destruct (@merging_iterator_contract _ (ListIter_ops BytewiseComparator) sorted_heap sorted_heap_ok
    BytewiseComparator bytes_ok BytewiseComparator_ok BytewiseComparator_KeyNumOk merge_sources merge_result)
    with (its := its) as [(pos & Hok & Hp & _) _].
  - split.
    + apply (bool_decide_unpack (concat merge_sources ≡ₚ merge_result)). by vm_compute.
    + repeat constructor.
    + repeat constructor; done.
    + repeat constructor.
  - apply Forall2_fmap_l, Forall_Forall2_diag, Forall_forall. intros es _. apply ListIter_at.
  - exact (@collect_all _ ops BytewiseComparator bytes_ok merge_result pos Hok mi None Hp).
Defined.
