(* ===== verification/DbIter.v ===== *)
(** * The user-level iterator

    Models [src/pebblesdb/src/db/db_iter.cc]: [DBIter] turns the internal entries
    (user key, sequence number, type) of an iterator into the user's view at a snapshot:
    the newest visible entry of each user key, deletions left out.  The samples that the
    iterator reports to the database are kept as a trace.  A failed [assert] is the
    outcome [None]; so is running out of the fuel that bounds the scans, which the
    theorems exclude. *)

From stdpp Require Import sorting.
From S2P Require Import Prelude Status Comparator DbFormat Iterator TableReader SkipList MemTable.
From S2P Require Import TableGet Merger.
From stdpp Require Import list.
#[local] Open Scope Z_scope.

Definition kReadBytesPeriod : Z := 1048576.

Section DBIter.
Context {T : Type} `{Iterator T} (user_comparator_ : Comparator) (sequence_ : Z).

(** [db_samples]: the keys passed to [DBImpl::RecordReadSample], newest first.  The
    capacity of [saved_value_] is not modelled. *)
Record DBIter := {
  iter_ : T;
  status_ : Status;
  saved_key_ : bytes;
  saved_value_ : bytes;
  direction_ : Direction;
  valid_ : bool;
  rnd_ : Z;
  bytes_counter_ : Z;
  tombstones_counter_ : Z;
  db_samples : list bytes;
}.

Definition set_iter (it : DBIter) (i : T) : DBIter :=
  {| iter_ := i; status_ := status_ it; saved_key_ := saved_key_ it; saved_value_ := saved_value_ it;
     direction_ := direction_ it; valid_ := valid_ it; rnd_ := rnd_ it; bytes_counter_ := bytes_counter_ it;
     tombstones_counter_ := tombstones_counter_ it; db_samples := db_samples it |}.
Definition set_status (it : DBIter) (s : Status) : DBIter :=
  {| iter_ := iter_ it; status_ := s; saved_key_ := saved_key_ it; saved_value_ := saved_value_ it;
     direction_ := direction_ it; valid_ := valid_ it; rnd_ := rnd_ it; bytes_counter_ := bytes_counter_ it;
     tombstones_counter_ := tombstones_counter_ it; db_samples := db_samples it |}.
Definition set_saved (it : DBIter) (k v : bytes) : DBIter :=
  {| iter_ := iter_ it; status_ := status_ it; saved_key_ := k; saved_value_ := v;
     direction_ := direction_ it; valid_ := valid_ it; rnd_ := rnd_ it; bytes_counter_ := bytes_counter_ it;
     tombstones_counter_ := tombstones_counter_ it; db_samples := db_samples it |}.
Definition set_dir (it : DBIter) (d : Direction) : DBIter :=
  {| iter_ := iter_ it; status_ := status_ it; saved_key_ := saved_key_ it; saved_value_ := saved_value_ it;
     direction_ := d; valid_ := valid_ it; rnd_ := rnd_ it; bytes_counter_ := bytes_counter_ it;
     tombstones_counter_ := tombstones_counter_ it; db_samples := db_samples it |}.
Definition set_valid (it : DBIter) (b : bool) : DBIter :=
  {| iter_ := iter_ it; status_ := status_ it; saved_key_ := saved_key_ it; saved_value_ := saved_value_ it;
     direction_ := direction_ it; valid_ := b; rnd_ := rnd_ it; bytes_counter_ := bytes_counter_ it;
     tombstones_counter_ := tombstones_counter_ it; db_samples := db_samples it |}.
Definition set_counters (it : DBIter) (rnd counter tombstones : Z) (samples : list bytes) : DBIter :=
  {| iter_ := iter_ it; status_ := status_ it; saved_key_ := saved_key_ it; saved_value_ := saved_value_ it;
     direction_ := direction_ it; valid_ := valid_ it; rnd_ := rnd; bytes_counter_ := counter;
     tombstones_counter_ := tombstones; db_samples := samples |}.

Definition SaveKey (it : DBIter) (k : bytes) : DBIter := set_saved it k (saved_value_ it).
Definition ClearSavedValue (it : DBIter) : DBIter := set_saved it (saved_key_ it) [].

(** The period and the new state of the generator. *)
Definition RandomPeriod (rnd : Z) : Z * Z := Random.Uniform rnd (2 * kReadBytesPeriod).

(** The constructor. *)
Definition DBIter_new (iter : T) (seed : Z) : DBIter :=
  let '(period, rnd) := RandomPeriod (Random.new seed) in
  {| iter_ := iter; status_ := OK; saved_key_ := []; saved_value_ := []; direction_ := kForward;
     valid_ := false; rnd_ := rnd; bytes_counter_ := period; tombstones_counter_ := 0; db_samples := [] |}.

(** [while (bytes_counter_ < 0)]. *)
Fixpoint sample_loop (fuel : nat) (k : bytes) (it : DBIter) : DBIter :=
  match fuel with
  | O => it
  | S fuel =>
      if bytes_counter_ it <? 0 then
        let '(period, rnd) := RandomPeriod (rnd_ it) in
        sample_loop fuel k
          (set_counters it rnd (bytes_counter_ it + period) (tombstones_counter_ it) (k :: db_samples it))
      else it
  end.

(** Two rounds of the loop add at least one, so that twice the size read is enough fuel. *)
Definition ParseKey (it : DBIter) : option ParsedInternalKey * DBIter :=
  let k := key (iter_ it) in
  let n := blen k + blen (value (iter_ it)) in
  let it := set_counters it (rnd_ it) (bytes_counter_ it - n) (tombstones_counter_ it) (db_samples it) in
  let it := sample_loop (Z.to_nat (2 * n + 2)) k it in
  match ParseInternalKey k with
  | None => (None, set_status it (Corruption (str "corrupted internal key in DBIter")))
  | Some ikey =>
      (Some ikey,
       if type ikey =? kTypeDeletion then
         let tombstones := tombstones_counter_ it + 1 in
         if 64 <? tombstones then set_counters it (rnd_ it) (bytes_counter_ it) 0 (k :: db_samples it)
         else set_counters it (rnd_ it) (bytes_counter_ it) tombstones (db_samples it)
       else it)
  end.

(** [skip] is always the address of [saved_key_]. *)
Fixpoint FindNextUserEntry_loop (fuel : nat) (skipping : bool) (it : DBIter) : option DBIter :=
  match fuel with
  | O => None
  | S fuel =>
      let '(parsed, it) := ParseKey it in
      let '(stop, skipping, it) :=
        match parsed with
        | Some ikey =>
            if sequence ikey <=? sequence_ then
              if type ikey =? kTypeDeletion then (false, true, SaveKey it (user_key ikey))
              else if type ikey =? kTypeValue then
                if skipping && (Compare user_comparator_ (user_key ikey) (saved_key_ it) <=? 0)
                then (false, skipping, it)
                else (true, skipping, SaveKey (set_valid it true) [])
              else (false, skipping, it)
            else (false, skipping, it)
        | None => (false, skipping, it)
        end in
      if stop : bool then Some it
      else
        let it := set_iter it (Next (iter_ it)) in
        if Valid (iter_ it) then FindNextUserEntry_loop fuel skipping it
        else Some (set_valid (SaveKey it []) false)
  end.
Definition FindNextUserEntry (fuel : nat) (skipping : bool) (it : DBIter) : option DBIter :=
  if Valid (iter_ it) then
    match direction_ it with
    | kForward => FindNextUserEntry_loop fuel skipping it
    | kReverse => None
    end
  else None.

(** The type of the saved entry and the iterator after the loop. *)
Fixpoint FindPrevUserEntry_loop (fuel : nat) (value_type : Z) (it : DBIter) : option (Z * DBIter) :=
  match fuel with
  | O => None
  | S fuel =>
      let '(parsed, it) := ParseKey it in
      let '(stop, value_type, it) :=
        match parsed with
        | Some ikey =>
            if sequence ikey <=? sequence_ then
              if negb (value_type =? kTypeDeletion) &&
                 (Compare user_comparator_ (user_key ikey) (saved_key_ it) <? 0)
              then (true, value_type, it)
              else
                let value_type := type ikey in
                (false, value_type,
                 if value_type =? kTypeDeletion then set_saved it [] []
                 else set_saved it (ExtractUserKey (key (iter_ it))) (value (iter_ it)))
            else (false, value_type, it)
        | None => (false, value_type, it)
        end in
      if stop : bool then Some (value_type, it)
      else
        let it := set_iter it (Prev (iter_ it)) in
        if Valid (iter_ it) then FindPrevUserEntry_loop fuel value_type it
        else Some (value_type, it)
  end.
Definition FindPrevUserEntry (fuel : nat) (it : DBIter) : option DBIter :=
  match direction_ it with
  | kForward => None
  | kReverse =>
      '(value_type, it) ← (if Valid (iter_ it) then FindPrevUserEntry_loop fuel kTypeDeletion it
                           else Some (kTypeDeletion, it));
      Some (if value_type =? kTypeDeletion
            then set_dir (ClearSavedValue (SaveKey (set_valid it false) [])) kForward
            else set_valid it true)
  end.

Definition di_Next (fuel : nat) (it : DBIter) : option DBIter :=
  if valid_ it then
    match direction_ it with
    | kReverse =>
        let it := set_dir it kForward in
        let it := set_iter it (if Valid (iter_ it) then Next (iter_ it) else SeekToFirst (iter_ it)) in
        if Valid (iter_ it) then FindNextUserEntry fuel true it
        else Some (SaveKey (set_valid it false) [])
    | kForward => FindNextUserEntry fuel true (SaveKey it (ExtractUserKey (key (iter_ it))))
    end
  else None.

(** Scans backwards until the user key changes; [false] when the entries end. *)
Fixpoint scan_back (fuel : nat) (it : DBIter) : option (bool * DBIter) :=
  match fuel with
  | O => None
  | S fuel =>
      let it := set_iter it (Prev (iter_ it)) in
      if negb (Valid (iter_ it)) then Some (false, it)
      else if Compare user_comparator_ (ExtractUserKey (key (iter_ it))) (saved_key_ it) <? 0
      then Some (true, it)
      else scan_back fuel it
  end.
Definition di_Prev (fuel : nat) (it : DBIter) : option DBIter :=
  if valid_ it then
    match direction_ it with
    | kForward =>
        if Valid (iter_ it) then
          '(more, it) ← scan_back fuel (SaveKey it (ExtractUserKey (key (iter_ it))));
          if more : bool then FindPrevUserEntry fuel (set_dir it kReverse)
          else Some (ClearSavedValue (SaveKey (set_valid it false) []))
        else None
    | kReverse => FindPrevUserEntry fuel it
    end
  else None.

Definition di_Seek (fuel : nat) (it : DBIter) (target : bytes) : option DBIter :=
  let it := ClearSavedValue (set_dir it kForward) in
  let it := SaveKey it (AppendInternalKey []
    {| user_key := target; sequence := sequence_; type := kValueTypeForSeek |}) in
  let it := set_iter it (Seek (iter_ it) (saved_key_ it)) in
  if Valid (iter_ it) then FindNextUserEntry fuel false it else Some (set_valid it false).
Definition di_SeekToFirst (fuel : nat) (it : DBIter) : option DBIter :=
  let it := ClearSavedValue (set_dir it kForward) in
  let it := set_iter it (SeekToFirst (iter_ it)) in
  if Valid (iter_ it) then FindNextUserEntry fuel false it else Some (set_valid it false).
Definition di_SeekToLast (fuel : nat) (it : DBIter) : option DBIter :=
  let it := ClearSavedValue (set_dir it kReverse) in
  FindPrevUserEntry fuel (set_iter it (SeekToLast (iter_ it))).

(** The interface; where an [assert] fails the iterator is left as it is. *)
Definition DBIter_ops (fuel : nat) : Iterator DBIter := {|
  Valid := valid_;
  SeekToFirst it := default it (di_SeekToFirst fuel it);
  SeekToLast it := default it (di_SeekToLast fuel it);
  Seek it t := default it (di_Seek fuel it t);
  Next it := default it (di_Next fuel it);
  Prev it := default it (di_Prev fuel it);
  key it := match direction_ it with kForward => ExtractUserKey (key (iter_ it)) | kReverse => saved_key_ it end;
  value it := match direction_ it with kForward => value (iter_ it) | kReverse => saved_value_ it end;
  status it := if ok (status_ it) then Iterator.status (iter_ it) else status_ it;
|}.
End DBIter.
Arguments DBIter : clear implicits.

(** ** The generator and the sampling loop *)

Lemma Random_Next_range s : 1 <= s < Random.M -> 1 <= Random.Next s < Random.M.
Proof.
  unfold Random.Next, Random.M, Random.A. intros Hs.
  assert (u64 (s * 16807) = s * 16807) as -> by (apply u64_small; rlia).
  assert (~ (2147483647 | 16807 * s)) as Hnd.
  { intros Hd. apply Z.gauss in Hd; [|done]. apply Z.divide_pos_le in Hd; lia. }
  rewrite (Z.land_ones _ 31 ltac:(lia) : Z.land _ 2147483647 = _), Z.shiftr_div_pow2 by lia.
  change (2 ^ 31) with 2147483648.
  set (p := s * 16807) in *. pose proof (Z.div_mod p 2147483648 ltac:(lia)) as Hp.
  pose proof (Z.mod_pos_bound p 2147483648 ltac:(lia)) as Hr. set (q := p / 2147483648) in *. set (r := p mod 2147483648) in *.
  assert (0 <= q < 16807) as Hq by (unfold q; split; [apply Z.div_pos; lia|apply Z.div_lt_upper_bound; lia]).
  rewrite (u32_small (q + r)) by rlia.
  assert (q + r <> 0) by lia.
  assert (q + r <> 2147483647) as Hne.
  { intros E. apply Hnd. exists (q + 1). lia. }
  destruct (Z.ltb_spec 2147483647 (q + r)); [|lia]. rewrite u32_small by rlia.
  assert (q + r - 2147483647 <> 2147483647) by lia. lia.
Qed.
Lemma Random_new_range s : 1 <= Random.new s < Random.M.
Proof.
  unfold Random.new, Random.M. change 2147483647 with (Z.ones 31). rewrite Z.land_ones by lia.
  pose proof (Z.mod_pos_bound s (2 ^ 31) ltac:(lia)). change (Z.ones 31) with 2147483647 in *.
  change (2 ^ 31) with 2147483648 in *. destruct (Z.eqb_spec (s mod 2147483648) 0); [cbn; lia|].
  destruct (Z.eqb_spec (s mod 2147483648) 2147483647); cbn; lia.
Qed.

(** The generator never gives two periods of zero in a row. *)
Definition zero_period (seed : Z) : bool := seed mod (2 * kReadBytesPeriod) =? 0.
Lemma no_two_zero_periods s :
  1 <= s < Random.M -> zero_period s = true -> zero_period (Random.Next s) = false.
Proof.
  unfold zero_period. change (2 * kReadBytesPeriod) with 2097152. intros Hs Hz%Z.eqb_eq.
  apply Z.mod_divide in Hz as [m ->]; [|done]. unfold Random.M in Hs.
  assert (forallb (fun m => negb (Random.Next (m * 2097152) mod 2097152 =? 0)) (seqZ 1 1023) = true) as Hall
    by (by vm_compute).
  rewrite forallb_forall in Hall. apply negb_true_iff, Hall, list_elem_of_In, elem_of_seqZ. lia.
Qed.

Section Sampling.
Context {T : Type} `{Iterator T}.
Definition sampler_ok (it : DBIter T) : Prop := 1 <= rnd_ it < Random.M /\ 0 <= bytes_counter_ it.

(** Everything but the sampling state is the same. *)
Definition same_state (it it' : DBIter T) : Prop :=
  iter_ it' = iter_ it /\ status_ it' = status_ it /\ saved_key_ it' = saved_key_ it /\
  saved_value_ it' = saved_value_ it /\ direction_ it' = direction_ it /\ valid_ it' = valid_ it.

Lemma sample_loop_ok k : forall fuel (it : DBIter T) d,
  1 <= rnd_ it < Random.M -> - Z.of_nat d <= bytes_counter_ it ->
  (2 * d + (if zero_period (rnd_ it) then 0 else 1) <= fuel)%nat ->
  sampler_ok (sample_loop fuel k it) /\ same_state it (sample_loop fuel k it) /\
  tombstones_counter_ (sample_loop fuel k it) = tombstones_counter_ it.
Proof.
  induction fuel as [|fuel IH]; intros it d Hr Hd Hf; cbn [sample_loop].
  { assert (d = 0%nat) as -> by lia. repeat split; try done; lia. }
  destruct (Z.ltb_spec (bytes_counter_ it) 0) as [Hneg|Hpos]; [|repeat split; try done; lia].
  unfold RandomPeriod, Random.Uniform.
  pose proof (Random_Next_range _ Hr) as Hr'. set (rnd' := Random.Next (rnd_ it)) in *.
  pose proof (Z.mod_pos_bound rnd' (2 * kReadBytesPeriod) ltac:(done)) as Hp.
  set (it' := set_counters it rnd' _ _ _).
  assert (exists d', - Z.of_nat d' <= bytes_counter_ it' /\
    (2 * d' + (if zero_period rnd' then 0 else 1) <= fuel)%nat) as (d' & Hd' & Hf').
  { unfold it'. cbn [bytes_counter_ set_counters]. destruct (zero_period rnd') eqn:Ez.
    - exists d. destruct (zero_period (rnd_ it)) eqn:Ez'; [|lia].
      pose proof (no_two_zero_periods _ Hr Ez'). unfold rnd' in *. congruence.
    - exists (d - 1)%nat. unfold zero_period in Ez. apply Z.eqb_neq in Ez.
      split; [lia|]. destruct (zero_period (rnd_ it)); lia. }
  destruct (IH it' d' Hr' Hd' Hf') as (H1 & H2 & H3). split; [exact H1|]. split; [exact H2|exact H3].
Qed.

Lemma ParseKey_ok (it : DBIter T) e :
  sampler_ok it -> DbFormat.key_ok (fst e) -> type (fst e) <= kTypeValue ->
  key (iter_ it) = ikey e ->
  exists it', ParseKey it = (Some (fst e), it') /\ same_state it it' /\ sampler_ok it'.
Proof.
  intros [Hr Hb] Hk Ht He. unfold ParseKey. cbv zeta. set (n := blen (key (iter_ it)) + blen (value (iter_ it))).
  assert (0 <= n) as Hn by (unfold n, blen; lia).
  destruct (sample_loop_ok (key (iter_ it)) (Z.to_nat (2 * n + 2))
    (set_counters it (rnd_ it) (bytes_counter_ it - n) (tombstones_counter_ it) (db_samples it)) (Z.to_nat n))
    as (H1 & H2 & H3); [done|cbn; lia|cbn; destruct (zero_period _); lia|].
  set (it1 := sample_loop _ _ _) in *.
  assert (ParseInternalKey (key (iter_ it)) = Some (fst e)) as ->.
  { rewrite He. unfold ikey. rewrite ParseInternalKey_encode by done. by case_bool; [|lia]. }
  eexists. split; [reflexivity|]. destruct (type (fst e) =? kTypeDeletion); [destruct (64 <? _)|]; done.
Qed.
End Sampling.

(** ** The user's view *)

Section View.
Context (ucmp : Comparator) (Hc : ComparatorOk ucmp bytes_ok) (s : Z).
Context (pes : list ientry).

Definition pentry_ok (e : ientry) : Prop := ientry_ok e /\ 0 <= type (fst e) <= kTypeValue.
Context (Hok : Forall pentry_ok pes).
Context (Hsorted : sorted_keys (InternalKeyComparator ucmp) (iter_entries pes)).

Abbreviation uk e := (user_key (fst e)).
Definition vis (e : ientry) : bool := sequence (fst e) <=? s.
Definition same_key (a b : ientry) : bool := Compare ucmp (uk a) (uk b) =? 0.
Definition tag (e : ientry) : Z := sequence (fst e) * 256 + type (fst e).

(** The entries a reader at snapshot [s] sees: values for which there is no newer visible
    entry of the same user key. *)
Definition shown (e : ientry) : bool :=
  vis e && (type (fst e) =? kTypeValue) &&
  negb (existsb (fun e' => vis e' && same_key e' e && (tag e <? tag e')) pes).
Definition user_view : list (bytes * bytes) :=
  (fun e : ientry => (uk e, snd e)) <$> filter (fun e => shown e = true) pes.

Lemma entry_ok_at j e : pes !! j = Some e -> pentry_ok e.
Proof. apply Forall_lookup_1, Hok. Qed.
Lemma uk_bytes j e : pes !! j = Some e -> bytes_ok (uk e).
Proof. intros Hj. apply (entry_ok_at j e Hj). Qed.

Lemma iter_entries_lookup i e : pes !! i = Some e -> iter_entries pes !! i = Some (ikey e, snd e).
Proof. intros Hi. unfold iter_entries. rewrite list_lookup_fmap. by rewrite Hi. Qed.

Lemma order_at i j a b :
  (i < j)%nat -> pes !! i = Some a -> pes !! j = Some b ->
  Compare ucmp (uk a) (uk b) < 0 \/ (Compare ucmp (uk a) (uk b) = 0 /\ tag b < tag a).
Proof.
  intros Hij Ha Hb.
  assert (Compare (InternalKeyComparator ucmp) (ikey a) (ikey b) < 0) as Hlt.
  { apply (sorted_keys_lookup _ _ i j _ (snd a) _ (snd b) Hsorted Hij); by apply iter_entries_lookup. }
  destruct (entry_ok_at _ _ Ha) as [[Hka _] Hta]. destruct (entry_ok_at _ _ Hb) as [[Hkb _] Htb].
  cbn [Compare InternalKeyComparator] in Hlt. unfold ikey in Hlt. rewrite icmp_encode in Hlt by done. cbv zeta in Hlt.
  destruct (Z.eqb_spec (Compare ucmp (uk a) (uk b)) 0) as [E|E]; [right|left; lia]. split; [done|].
  unfold tag. change kTypeValue with 1 in *.
  destruct (Z.compare_spec (sequence (fst b)) (sequence (fst a))); [|lia|cbn in Hlt; lia].
  destruct (Z.compare_spec (type (fst b)) (type (fst a))); cbn in Hlt; lia.
Qed.
Lemma same_key_eq a b : same_key a b = true <-> Compare ucmp (uk a) (uk b) = 0.
Proof. apply Z.eqb_eq. Qed.
Lemma order_le i j a b : (i <= j)%nat -> pes !! i = Some a -> pes !! j = Some b -> Compare ucmp (uk a) (uk b) <= 0.
Proof.
  intros Hij Ha Hb. destruct (decide (i = j)) as [->|Hne].
  - assert (a = b) as -> by congruence. rewrite cmp_refl; [done|]. by eapply uk_bytes.
  - destruct (order_at i j a b ltac:(lia) Ha Hb) as [|[? _]]; lia.
Qed.

(** An entry is shown when no visible entry before it has its user key. *)
Lemma shown_at j e : pes !! j = Some e ->
  shown e = true <-> vis e = true /\ type (fst e) = kTypeValue /\
    forall i a, (i < j)%nat -> pes !! i = Some a -> vis a = true -> same_key a e = false.
Proof.
  intros Hj. unfold shown. rewrite !andb_true_iff, negb_true_iff, Z.eqb_eq. split.
  - intros [[Hv Ht] He]. split_and!; [done..|]. intros i a Hi Ha Hva.
    destruct (same_key a e) eqn:Es; [|done]. exfalso. apply not_true_iff_false in He. apply He, existsb_exists.
    exists a. split; [apply list_elem_of_In; by eapply list_elem_of_lookup_2|].
    rewrite Hva, Es. cbn. apply Z.ltb_lt. apply same_key_eq in Es.
    destruct (order_at i j a e Hi Ha Hj) as [|[_ ?]]; lia.
  - intros (Hv & Ht & Hall). split; [done|]. apply not_true_iff_false. intros He.
    apply existsb_exists in He as (a & Hin%list_elem_of_In & Hb).
    apply andb_true_iff in Hb as [[Hva Hs]%andb_true_iff Htag%Z.ltb_lt].
    apply list_elem_of_lookup in Hin as [i Hi].
    destruct (Nat.lt_trichotomy i j) as [Hlt|[->|Hgt]].
    + by rewrite (Hall i a Hlt Hi Hva) in Hs.
    + assert (a = e) as -> by congruence. lia.
    + apply same_key_eq in Hs. destruct (order_at j i e a Hgt Hj Hi) as [Hbad|[_ ?]]; [|lia].
      apply cmp_antisym in Hbad; [lia|by eapply uk_bytes..].
Qed.

(** ** Positions in the view *)

Definition cnt (j : nat) : nat := length (filter (fun e => shown e = true) (take j pes)).
Lemma view_lookup j e : pes !! j = Some e -> shown e = true -> user_view !! cnt j = Some (uk e, snd e).
Proof.
  intros Hj Hs. unfold user_view, cnt. rewrite list_lookup_fmap.
  assert (filter (fun e => shown e = true) pes = filter (fun e => shown e = true) (take j pes) ++
    e :: filter (fun e => shown e = true) (drop (S j) pes)) as ->.
  { rewrite <- (take_drop_middle pes j e Hj) at 1. by rewrite filter_app, filter_cons_True by done. }
  rewrite lookup_app_r by lia. by rewrite Nat.sub_diag.
Qed.
Lemma cnt_S_shown j e : pes !! j = Some e -> shown e = true -> cnt (S j) = S (cnt j).
Proof.
  intros Hj Hs. unfold cnt. rewrite (take_S_r _ _ _ Hj), filter_app, length_app, filter_cons_True by done.
  cbn. lia.
Qed.
Lemma cnt_S_not j e : pes !! j = Some e -> shown e = false -> cnt (S j) = cnt j.
Proof.
  intros Hj Hs. unfold cnt. rewrite (take_S_r _ _ _ Hj), filter_app, length_app, filter_cons_False by congruence.
  cbn. lia.
Qed.
Lemma cnt_skip lo hi :
  (lo <= hi)%nat -> (forall j e, (lo <= j < hi)%nat -> pes !! j = Some e -> shown e = false) -> cnt hi = cnt lo.
Proof.
  induction 1 as [|hi Hle IH]; intros Hns; [done|]. rewrite <- IH by (intros; eapply Hns; [|done]; lia).
  destruct (pes !! hi) as [e|] eqn:E; [apply (cnt_S_not hi e E), (Hns hi e); [lia|done]|].
  unfold cnt. apply lookup_ge_None in E. by rewrite !take_ge by lia.
Qed.
Lemma cnt_mono lo hi : (lo <= hi)%nat -> (cnt lo <= cnt hi)%nat.
Proof.
  induction 1 as [|hi Hle IH]; [done|]. destruct (pes !! hi) as [e|] eqn:E.
  - destruct (shown e) eqn:Es; [rewrite (cnt_S_shown hi e E Es)|rewrite (cnt_S_not hi e E Es)]; lia.
  - assert (cnt (S hi) = cnt hi) as ->; [|done]. unfold cnt. apply lookup_ge_None in E. by rewrite !take_ge by lia.
Qed.
Lemma cnt_all : cnt (length pes) = length user_view.
Proof. unfold cnt, user_view. by rewrite length_fmap, firstn_all. Qed.
Lemma cnt_0 : cnt 0 = 0%nat.
Proof. done. Qed.
Lemma cnt_lt_inv lo hi : (cnt lo < cnt hi)%nat -> (lo < hi)%nat.
Proof. intros Hlt. destruct (Nat.lt_ge_cases lo hi) as [|Hge]; [done|]. apply cnt_mono in Hge. lia. Qed.

Lemma view_inv i k v : user_view !! i = Some (k, v) ->
  exists j e, pes !! j = Some e /\ shown e = true /\ cnt j = i /\ k = uk e /\ v = snd e.
Proof.
  intros Hi. unfold user_view in Hi. rewrite list_lookup_fmap in Hi.
  apply fmap_Some in Hi as (e & He & [= -> ->]).
  apply filter_lookup_inv in He as (j & Hj & HP & Hl). by exists j, e.
Qed.

(** ** Scanning forward *)

Section Scan.
Context {T : Type} `{Iterator T} (pos : T -> option nat -> Prop).
Context {Hit : IteratorOk (InternalKeyComparator ucmp) seek_target (iter_entries pes) pos}.
Abbreviation dbi := (DBIter T).

Definition good (it : dbi) : Prop := sampler_ok it /\ status_ it = OK.

Lemma entry_at t j : pos t (Some j) -> exists e, pes !! j = Some e /\ key t = ikey e /\ value t = snd e.
Proof.
  intros Hp. pose proof (io_entry _ _ Hp) as He. unfold iter_entries in He. rewrite list_lookup_fmap in He.
  apply fmap_Some in He as (e & Hj & [= -> ->]). by exists e.
Qed.

Lemma parse_at (it : dbi) j (e : ientry) :
  good it -> pos (iter_ it) (Some j) -> pes !! j = Some e ->
  exists it', ParseKey it = (Some (fst e), it') /\ same_state it it' /\ good it'.
Proof.
  intros [Hs Hst] Hp He. destruct (entry_at _ _ Hp) as (e' & He' & Hk & _). assert (e' = e) as -> by congruence.
  destruct (entry_ok_at _ _ He) as [[Hkey _] Ht].
  destruct (ParseKey_ok it e Hs Hkey) as (it' & HP & Hsame & Hs'); [lia|done|].
  exists it'. split; [done|]. split; [done|]. split; [done|]. destruct Hsame as (_ & -> & _). done.
Qed.

(** The user key an entry must be above to be accepted. *)
Definition above (u : option bytes) (e : ientry) : Prop :=
  match u with None => True | Some k => 0 < Compare ucmp (uk e) k end.
#[local] Instance above_dec u e : Decision (above u e).
Proof. destruct u; [apply Z_lt_dec|left; exact I]. Defined.
(** Where a forward scan may start with the bound [u]. *)
Record scannable (j : nat) (u : option bytes) : Prop := {
  sc_bound : forall k, u = Some k -> bytes_ok k;
  sc_fresh : forall i a i' a', (j <= i)%nat -> (i' < j)%nat -> pes !! i = Some a -> pes !! i' = Some a' ->
    vis a = true -> vis a' = true -> above u a -> same_key a' a = false;
  sc_above : forall k i a, u = Some k -> (j <= i)%nat -> pes !! i = Some a -> vis a = true ->
    0 <= Compare ucmp (uk a) k;
}.
Definition none_above (u : option bytes) (lo hi : nat) : Prop :=
  forall i a, (lo <= i < hi)%nat -> pes !! i = Some a -> shown a = true -> ~ above u a.

(** Scans stop at the first entry shown above the bound. *)
Definition scanned (lo : nat) (u : option bytes) (it : dbi) : Prop :=
  good it /\ direction_ it = kForward /\
  ((exists j e, (lo <= j)%nat /\ pes !! j = Some e /\ shown e = true /\ above u e /\ none_above u lo j /\
      pos (iter_ it) (Some j) /\ valid_ it = true) \/
   (valid_ it = false /\ (exists p, pos (iter_ it) p) /\ none_above u lo (length pes))).

Lemma scanned_later j u u' (it : dbi) :
  (forall i a, (S j <= i)%nat -> pes !! i = Some a -> shown a = true -> (above u a <-> above u' a)) ->
  none_above u j (S j) -> scanned (S j) u' it -> scanned j u it.
Proof.
  intros Heq Hj (Hg & Hd & Hs). split; [done|]. split; [done|].
  assert (forall hi, none_above u' (S j) hi -> none_above u j hi) as Hna.
  { intros hi Hn i a Hi Ha Hsh. destruct (decide (i = j)) as [->|Hne]; [by apply (Hj j a); [lia|..]|].
    rewrite (Heq i a) by (lia || done). apply (Hn i a); [lia|done..]. }
  destruct Hs as [(j' & e & Hlt & He & Hsh & Hab & Hn & Hp & Hv)|(Hv & Hp & Hn)].
  - left. exists j', e. split_and!; try done; [lia| |by apply Hna]. by apply (Heq j').
  - right. split_and!; try done. by apply Hna.
Qed.

(** What is not shown at [j] does not stop the scan. *)
Lemma hidden_none u j (e : ientry) : pes !! j = Some e -> shown e = false \/ ~ above u e -> none_above u j (S j).
Proof.
  intros Hj Hh i a Hi Ha Hsh Hab. assert (i = j) as -> by lia. assert (a = e) as -> by congruence.
  destruct Hh; congruence || done.
Qed.

Lemma scan_forward : forall fuel j (it : dbi) (skipping : bool) u,
  (length pes - j < fuel)%nat -> good it -> direction_ it = kForward -> pos (iter_ it) (Some j) ->
  u = (if skipping then Some (saved_key_ it) else None) -> scannable j u ->
  exists it', FindNextUserEntry_loop ucmp s fuel skipping it = Some it' /\ scanned j u it'.
Proof.
  induction fuel as [|fuel IH]; intros j it skipping u Hf Hg Hd Hp Hu Hsc; [lia|].
  destruct (entry_at _ _ Hp) as (e & He & Hk & Hval). pose proof (lookup_lt_Some _ _ _ He) as Hlt.
  destruct (parse_at it j e Hg Hp He) as (it1 & HP & (E1 & E2 & E3 & E4 & E5 & E6) & Hg1).
  pose proof (entry_ok_at _ _ He) as [_ Hty]. change kTypeValue with 1 in Hty.
  cbn [FindNextUserEntry_loop]. rewrite HP.
  (* moving on with the bound u' *)
  assert (forall (it2 : dbi) sk' u', good it2 -> direction_ it2 = kForward -> iter_ it2 = iter_ it ->
    u' = (if sk' : bool then Some (saved_key_ it2) else None) -> scannable (S j) u' ->
    (forall i a, (S j <= i)%nat -> pes !! i = Some a -> shown a = true -> (above u a <-> above u' a)) ->
    none_above u j (S j) ->
    exists it', (let it := set_iter it2 (Next (iter_ it2)) in
      if Valid (iter_ it) then FindNextUserEntry_loop ucmp s fuel sk' it
      else Some (set_valid (SaveKey it []) false)) = Some it' /\ scanned j u it') as Hmove.
  { intros it2 sk' u' Hg2 Hd2 Ei Hu' Hsc' Heq Hj. cbv zeta. cbn [iter_ set_iter]. rewrite Ei.
    pose proof (io_next _ _ Hp) as Hn. rewrite (io_valid _ _ Hn). unfold iter_entries in *. unfold next_pos in *.
    rewrite length_fmap in *. destruct (Nat.ltb_spec (S j) (length pes)) as [Hl|Hl]; cbn [bool_decide].
    - destruct (IH (S j) (set_iter it2 (Next (iter_ it))) sk' u') as (it' & HF & Hs); [lia|done..|].
      exists it'. split; [exact HF|]. by eapply scanned_later.
    - eexists. split; [reflexivity|]. eapply (scanned_later j u u'); [done|done|].
      split; [done|]. split; [done|]. right. split_and!; [done|by eexists|].
      intros i a Hi. lia. }
  destruct (Z.leb_spec (sequence (fst e)) s) as [Hv|Hv].
  2: { (* not visible *)
    destruct (Hmove it1 skipping u) as (it' & Hmv & Hs); [done|by rewrite E5|done|by rewrite E3| |done| |exists it'; split; [exact Hmv|exact Hs]].
    - destruct Hsc as [B F A]. split; [done| |].
      + intros i a i' a' Hi Hi' Ha Ha' Hva Hva'. destruct (decide (i' = j)) as [->|Hne].
        * assert (a' = e) as -> by congruence. unfold vis in Hva'. apply Z.leb_le in Hva'. lia.
        * apply (F i a i' a'); [lia|lia|done..].
      + intros k i a Hk' Hi. apply (A k i a Hk'). lia.
    - eapply hidden_none; [done|]. left. unfold shown, vis. by rewrite (proj2 (Z.leb_gt _ _) Hv). }
  assert (vis e = true) as Hvis by (by apply Z.leb_le).
  unfold kTypeDeletion, kTypeValue. destruct (Z.eqb_spec (type (fst e)) 0) as [Ht|Ht].
  - (* a deletion *)
    destruct (Hmove (SaveKey it1 (uk e)) true (Some (uk e))) as (it' & Hmv & Hs);
      [done|by cbn; rewrite E5|done|done| | | |exists it'; split; [exact Hmv|exact Hs]].
    + split.
      * intros k [= <-]. by eapply uk_bytes.
      * intros i a i' a' Hi Hi' Ha Ha' _ _ Hab. cbn in Hab. destruct (same_key a' a) eqn:Es; [|done].
        apply same_key_eq in Es. pose proof (order_le i' j a' e ltac:(lia) Ha' He) as H1.
        pose proof (uk_bytes _ _ Ha). pose proof (uk_bytes _ _ Ha'). pose proof (uk_bytes _ _ He).
        assert (Compare ucmp (uk a) (uk a') <= 0) by (apply cmp_ge_le; [done..|lia]).
        assert (Compare ucmp (uk a) (uk e) <= 0) by (by apply (cmp_trans (uk a) (uk a') (uk e))). lia.
      * intros k i a [= <-] Hi Ha _. apply cmp_ge_le; [by eapply uk_bytes..|]. apply (order_le j i); [lia|done..].
    + intros i a Hi Ha Hsh. cbn. pose proof (uk_bytes _ _ Ha) as Hba. pose proof (uk_bytes _ _ He) as Hbe.
      apply (shown_at i a Ha) in Hsh as (Hva & _ & Hno). specialize (Hno j e ltac:(lia) He Hvis).
      assert (0 < Compare ucmp (uk a) (uk e)) as Hlt'.
      { pose proof (order_le j i e a ltac:(lia) He Ha) as Hle.
        destruct (Z.eq_dec (Compare ucmp (uk e) (uk a)) 0) as [E|E]; [by apply same_key_eq in E; congruence|].
        apply cmp_antisym; [done..|lia]. }
      split; [done|]. intros _. destruct u as [k|]; [|done]. cbn. pose proof (sc_bound _ _ Hsc k eq_refl).
      pose proof (sc_above _ _ Hsc k j e eq_refl ltac:(lia) He Hvis) as Hge. apply cmp_ge_le in Hge; [|done..].
      apply cmp_antisym; [done..|]. eapply cmp_le_lt_trans; [| | |exact Hge|]; [done..|].
      by apply cmp_antisym in Hlt'.
    + eapply hidden_none; [done|]. left. unfold shown. rewrite Ht. by rewrite andb_false_r.
  - assert (type (fst e) = 1) as Ht1 by lia. rewrite Ht1. cbn [Z.eqb Pos.eqb]. rewrite E3.
    assert (skipping && (Compare ucmp (uk e) (saved_key_ it) <=? 0) = negb (bool_decide (above u e))) as ->.
    { subst u. destruct skipping; cbn [andb]; [|done].
      change (above (Some (saved_key_ it)) e) with (0 < Compare ucmp (uk e) (saved_key_ it)). destruct (Z.leb_spec (Compare ucmp (uk e) (saved_key_ it)) 0).
      - by rewrite bool_decide_false by lia.
      - by rewrite bool_decide_true by lia. }
    destruct (bool_decide_reflect (above u e)) as [Hab|Hab]; cbn [negb].
    + (* accepted *)
      eexists. split; [reflexivity|]. split; [done|]. split; [by cbn; rewrite E5|]. left. exists j, e.
      split_and!; try done.
      * apply (shown_at j e He). split; [done|]. split; [done|]. intros i a Hi Ha Hva.
        apply (sc_fresh _ _ Hsc j e i a); [lia|lia|done..].
      * intros i a Hi. lia.
      * cbn. by rewrite E1.
    + (* hidden *)
      destruct (Hmove it1 skipping u) as (it' & Hmv & Hs); [done|by rewrite E5|done|by rewrite E3| |done| |exists it'; split; [exact Hmv|exact Hs]].
      * destruct Hsc as [B F A]. split; [done| |].
        -- intros i a i' a' Hi Hi' Ha Ha' Hva Hva' Haa. destruct (decide (i' = j)) as [->|Hne].
           ++ assert (a' = e) as -> by congruence. destruct (same_key e a) eqn:Es; [|done]. exfalso. apply Hab.
              apply same_key_eq in Es. destruct u as [k|]; [|done]. cbn in *. specialize (B k eq_refl).
              pose proof (uk_bytes _ _ Ha) as Hba. pose proof (uk_bytes _ _ He) as Hbe.
              apply cmp_antisym in Haa; [|done..]. apply cmp_antisym; [done..|].
              eapply cmp_lt_le_trans; [| | |exact Haa|]; [done..|]. apply cmp_ge_le; [done..|lia].
           ++ apply (F i a i' a'); [lia|lia|done..].
        -- intros k i a Hk' Hi. apply (A k i a Hk'). lia.
      * eapply hidden_none; [done|]. by right.
Qed.

(** ** Scanning backward *)

Definition none_shown (lo hi : nat) : Prop :=
  forall i a, (lo <= i < hi)%nat -> pes !! i = Some a -> shown a = false.
Definition none_vis (lo hi : nat) : Prop :=
  forall i a, (lo <= i < hi)%nat -> pes !! i = Some a -> vis a = false.
(** The iterator stands at the last visible entry before [m]. *)
Definition at_before (m : nat) (it : dbi) : Prop :=
  exists q, pos (iter_ it) q /\
  match q with Some q => (q < m)%nat /\ none_vis (S q) m | None => none_vis 0 m end.
Definition saved (it : dbi) (e : ientry) : Prop := saved_key_ it = uk e /\ saved_value_ it = snd e.

Lemma vis_not_shown a : vis a = false -> shown a = false.
Proof. intros Hv. unfold shown. by rewrite Hv. Qed.

(** The state of the backward scan that is to look at the entries below [S j]. *)
Definition scanning (j top : nat) (vt : Z) (it : dbi) : Prop :=
  (vt = kTypeDeletion /\ none_shown j top) \/
  (vt = kTypeValue /\ exists m e, (j <= m < top)%nat /\ pes !! m = Some e /\ vis e = true /\
     type (fst e) = kTypeValue /\ saved it e /\ none_vis j m /\ none_shown (S m) top).
Definition back_done (top : nat) (vt : Z) (it : dbi) : Prop :=
  (vt = kTypeDeletion /\ none_shown 0 top /\ exists p, pos (iter_ it) p) \/
  (vt = kTypeValue /\ exists m e, (m < top)%nat /\ pes !! m = Some e /\ shown e = true /\ saved it e /\
     at_before m it /\ none_shown (S m) top).

(** The saved entry is shown once the entries before it are of smaller user keys. *)
Lemma saved_shown j m e :
  (j <= m)%nat -> pes !! m = Some e -> vis e = true -> type (fst e) = kTypeValue -> none_vis j m ->
  (forall i a, (i < j)%nat -> pes !! i = Some a -> vis a = true -> same_key a e = false) -> shown e = true.
Proof.
  intros Hjm He Hv Ht Hnv Hlow. apply (shown_at m e He). split; [done|]. split; [done|].
  intros i a Hi Ha Hva. destruct (Nat.lt_ge_cases i j) as [Hlt|Hge]; [by apply (Hlow i a)|].
  rewrite (Hnv i a) in Hva by (lia || done). done.
Qed.

Lemma scanning_step j top vt (it it2 : dbi) e vt' :
  pes !! j = Some e -> vis e = true -> scanning (S j) top vt it -> (j < top)%nat ->
  (vt = kTypeDeletion \/ 0 <= Compare ucmp (uk e) (saved_key_ it)) ->
  vt' = type (fst e) -> (type (fst e) = kTypeValue -> saved it2 e) -> scanning j top vt' it2.
Proof.
  intros He Hv Hs Hjt Hcase -> Hsv.
  assert (none_shown (S j) top) as Hns.
  { destruct Hs as [[_ Hn]|(-> & m & em & Hm & Hem & _ & _ & [Hk _] & Hnv & Hn)]; [done|].
    destruct Hcase as [|Hge]; [done|]. rewrite Hk in Hge.
    intros i a Hi Ha. destruct (Nat.lt_trichotomy i m) as [Hlt|[->|Hgt]].
    - apply vis_not_shown, (Hnv i a); [lia|done].
    - assert (a = em) as -> by congruence. apply not_true_iff_false. intros Hsh.
      apply (shown_at m em Hem) in Hsh as (_ & _ & Hno). specialize (Hno j e ltac:(lia) He Hv).
      apply Z.eqb_neq in Hno. pose proof (order_le j m e em ltac:(lia) He Hem). lia.
    - apply (Hn i a); [lia|done]. }
  destruct (entry_ok_at _ _ He) as [_ Hty]. change kTypeValue with 1 in *. change kTypeDeletion with 0 in *.
  destruct (Z.eq_dec (type (fst e)) 0) as [E|E].
  - left. split; [done|]. intros i a Hi Ha. destruct (decide (i = j)) as [->|]; [|apply (Hns i a); [lia|done]].
    assert (a = e) as -> by congruence. unfold shown. rewrite E. by rewrite andb_false_r.
  - right. assert (type (fst e) = 1) as E1 by lia. split; [done|]. exists j, e. split; [lia|]. do 3 (split; [done|]). split; [by apply Hsv|].
    split; [|done]. intros i a Hi. lia.
Qed.
Lemma scanning_skip j top vt (it it2 : dbi) e :
  pes !! j = Some e -> vis e = false -> scanning (S j) top vt it -> saved_key_ it2 = saved_key_ it ->
  saved_value_ it2 = saved_value_ it -> scanning j top vt it2.
Proof.
  intros He Hv Hs Ek Ev. destruct Hs as [[-> Hn]|(-> & m & em & Hm & Hem & Hvm & Htm & [Hk Hvl] & Hnv & Hn)].
  - left. split; [done|]. intros i a Hi Ha. destruct (decide (i = j)) as [->|]; [|apply (Hn i a); [lia|done]].
    apply vis_not_shown. congruence.
  - right. split; [done|]. exists m, em. split; [lia|]. do 3 (split; [done|]). split; [split; congruence|]. split; [|done].
    intros i a Hi Ha. destruct (decide (i = j)) as [->|]; [congruence|]. apply (Hnv i a); [lia|done].
Qed.

Lemma scan_backward : forall fuel j (it : dbi) vt top,
  (j < fuel)%nat -> good it -> pos (iter_ it) (Some j) -> (j < top)%nat -> scanning (S j) top vt it ->
  exists vt' it', FindPrevUserEntry_loop ucmp s fuel vt it = Some (vt', it') /\ good it' /\
    direction_ it' = direction_ it /\ back_done top vt' it'.
Proof.
  induction fuel as [|fuel IH]; intros j it vt top Hf Hg Hp Htop Hs; [lia|].
  destruct (entry_at _ _ Hp) as (e & He & Hk & Hval).
  destruct (parse_at it j e Hg Hp He) as (it1 & HP & (E1 & E2 & E3 & E4 & E5 & E6) & Hg1).
  cbn [FindPrevUserEntry_loop]. rewrite HP.
  assert (forall (it2 : dbi) vt2, good it2 -> direction_ it2 = direction_ it -> iter_ it2 = iter_ it ->
    scanning j top vt2 it2 ->
    exists vt' it', (let it := set_iter it2 (Prev (iter_ it2)) in
      if Valid (iter_ it) then FindPrevUserEntry_loop ucmp s fuel vt2 it else Some (vt2, it)) = Some (vt', it') /\
      good it' /\ direction_ it' = direction_ it /\ back_done top vt' it') as Hmove.
  { intros it2 vt2 Hg2 Hd2 Ei Hs2. cbv zeta. cbn [iter_ set_iter]. rewrite Ei.
    pose proof (io_prev _ _ Hp) as Hpr. rewrite (io_valid _ _ Hpr). destruct j as [|j']; cbn [prev_pos bool_decide] in *.
    - eexists _, _. split; [reflexivity|]. split; [done|]. split; [done|].
      destruct Hs2 as [[-> Hn]|(-> & m & em & Hm & Hem & Hvm & Htm & Hsv & Hnv & Hn)].
      + left. split_and!; [done|done|by eexists].
      + right. split; [done|]. exists m, em. split; [lia|]. split; [done|]. split; [|split; [done|]; split; [by exists None|done]].
        apply (saved_shown 0 m em); [lia|done..|]. intros i a Hi. lia.
    - destruct (IH j' (set_iter it2 (Prev (iter_ it))) vt2 top) as (vt' & it' & HF & Hg' & Hd' & Hb);
        [lia|done|done|lia|exact Hs2|].
      exists vt', it'. split_and!; try done. by rewrite Hd'. }
  destruct (Z.leb_spec (sequence (fst e)) s) as [Hv|Hv].
  2: { destruct (Hmove it1 vt) as (vt' & it' & Hm & Hr); [done|done|done| |by exists vt', it'].
       eapply scanning_skip; [done| |exact Hs|done|done]. unfold vis. by apply Z.leb_gt. }
  assert (vis e = true) as Hvis by (by apply Z.leb_le).
  destruct (negb (vt =? kTypeDeletion) && (Compare ucmp (uk e) (saved_key_ it1) <? 0)) eqn:Eb.
  - (* the saved entry is the answer *)
    apply andb_true_iff in Eb as [Evt%negb_true_iff%Z.eqb_neq Elt%Z.ltb_lt]. rewrite E3 in Elt.
    eexists _, _. split; [reflexivity|]. split; [done|]. split; [done|]. right.
    destruct Hs as [[-> _]|(-> & m & em & Hm & Hem & Hvm & Htm & [Hsk Hsvl] & Hnv & Hn)]; [done|].
    split; [done|]. exists m, em. rewrite Hsk in Elt. split; [lia|]. split; [done|].
    split; [|split; [split; congruence|split; [|done]]].
    + apply (saved_shown (S j) m em); [lia|done..|]. intros i a Hi Ha _.
      pose proof (order_le i j a e ltac:(lia) Ha He) as Hle. apply Z.eqb_neq. intros E.
      pose proof (uk_bytes _ _ Ha). pose proof (uk_bytes _ _ He). pose proof (uk_bytes _ _ Hem).
      pose proof (cmp_le_lt_trans (uk a) (uk e) (uk em) ltac:(done) ltac:(done) ltac:(done) Hle Elt). lia.
    + exists (Some j). rewrite E1. split; [done|]. split; [lia|done].
  - set (it2 := if type (fst e) =? kTypeDeletion then _ else _).
    destruct (Hmove it2 (type (fst e))) as (vt' & it' & Hm & Hr).
    + unfold it2. by destruct (type (fst e) =? kTypeDeletion).
    + unfold it2. by destruct (type (fst e) =? kTypeDeletion).
    + unfold it2. by destruct (type (fst e) =? kTypeDeletion).
    + eapply scanning_step; [done|done|exact Hs|done| |done|].
      * apply andb_false_iff in Eb as [Evt%negb_false_iff%Z.eqb_eq|Elt%Z.ltb_ge]; [by left|right]. by rewrite <- E3.
      * intros Ht. unfold it2. rewrite Ht. cbn. rewrite E1, Hk, Hval. split; [|done].
        apply ExtractUserKey_encode.
    + by exists vt', it'.
Qed.

(** ** Positions of the user iterator *)

Definition dstands (it : dbi) (j : nat) (e : ientry) : Prop :=
  match direction_ it with
  | kForward => pos (iter_ it) (Some j)
  | kReverse => saved it e /\ at_before j it
  end.
Definition dpos (it : dbi) (p : option nat) : Prop :=
  good it /\
  match p with
  | Some i => valid_ it = true /\ exists j e, pes !! j = Some e /\ shown e = true /\ cnt j = i /\ dstands it j e
  | None => valid_ it = false /\ exists p, pos (iter_ it) p
  end.
Lemma dpos_iter it p : dpos it p -> good it /\ exists q, pos (iter_ it) q.
Proof.
  intros [Hg Hp]. split; [done|]. destruct p as [i|]; [|apply Hp].
  destruct Hp as (_ & j & e & _ & _ & _ & Hs). unfold dstands in Hs. destruct (direction_ it); [by eexists|].
  destruct Hs as [_ (q & Hq & _)]. by exists q.
Qed.

Lemma scanned_dpos lo u it q :
  scanned lo u it ->
  (forall j e, (lo <= j)%nat -> pes !! j = Some e -> shown e = true -> above u e -> none_above u lo j ->
     q = Some (cnt j)) ->
  (none_above u lo (length pes) -> q = None) -> dpos it q.
Proof.
  intros (Hg & Hd & Hs) Hsome Hnone. destruct Hs as [(j & e & Hlo & He & Hsh & Hab & Hn & Hp & Hv)|(Hv & Hp & Hn)].
  - rewrite (Hsome j e) by done. split; [done|]. split; [done|]. exists j, e. unfold dstands. by rewrite Hd.
  - rewrite Hnone by done. by split.
Qed.
Lemma FindNext_ok fuel (it : dbi) lo skipping u :
  (length pes < fuel)%nat -> good it -> direction_ it = kForward -> pos (iter_ it) (Some lo) ->
  u = (if skipping : bool then Some (saved_key_ it) else None) -> scannable lo u ->
  exists it', FindNextUserEntry ucmp s fuel skipping it = Some it' /\ scanned lo u it'.
Proof.
  intros Hf Hg Hd Hp Hu Hsc. unfold FindNextUserEntry. rewrite (io_valid _ _ Hp), Hd. cbn [bool_decide].
  apply (scan_forward fuel lo it skipping u); [lia|done..].
Qed.

(** The position a backward search finds. *)
Definition last_shown (top : nat) (q : option nat) : Prop :=
  match q with
  | Some i => exists m e, (m < top)%nat /\ pes !! m = Some e /\ shown e = true /\ none_shown (S m) top /\ cnt m = i
  | None => none_shown 0 top
  end.
Lemma FindPrev_ok fuel (it : dbi) p :
  (length pes < fuel)%nat -> good it -> direction_ it = kReverse -> pos (iter_ it) p ->
  exists it' q, FindPrevUserEntry ucmp s fuel it = Some it' /\ dpos it' q /\
    last_shown (match p with Some j => S j | None => 0%nat end) q.
Proof.
  intros Hf Hg Hd Hp. unfold FindPrevUserEntry. rewrite Hd, (io_valid _ _ Hp).
  destruct p as [j|]; cbn [bool_decide].
  - destruct (entry_at _ _ Hp) as (e & He & _). pose proof (lookup_lt_Some _ _ _ He).
    destruct (scan_backward fuel j it kTypeDeletion (S j)) as (vt & it' & HF & Hg' & Hd' & Hb); [lia|done|done|lia| |].
    { left. split; [done|]. intros i a Hi. lia. }
    rewrite HF. cbn [mbind option_bind]. destruct Hb as [(-> & Hn & Hq)|(-> & m & em & Hm & Hem & Hsh & Hsv & Hat & Hn)].
    + eexists _, None. split; [reflexivity|]. split; [|done]. by split.
    + eexists _, (Some (cnt m)). split; [reflexivity|]. split.
      * split; [done|]. split; [done|]. exists m, em. unfold dstands. cbn. by rewrite Hd', Hd.
      * exists m, em. split_and!; done.
  - cbn [mbind option_bind]. eexists _, None. split; [reflexivity|]. split; [|intros i a Hi; lia].
    split; [done|]. split; [done|]. by eexists.
Qed.

Context (fuel : nat) (Hfuel : (length pes < fuel)%nat).
Context (Hs : 0 <= s <= kMaxSequenceNumber).

Lemma last_shown_prev j e q :
  pes !! j = Some e -> shown e = true -> (forall top, (top <= j)%nat -> none_shown top j -> last_shown top q ->
  q = prev_pos (cnt j)).
Proof.
  intros He Hsh top Hle Htop Hq. destruct q as [i|].
  - destruct Hq as (m & em & Hm & Hem & Hshm & Hn & <-).
    rewrite (cnt_skip (S m) j), (cnt_S_shown m em Hem Hshm); [done|lia|].
    intros i a Hi Ha. destruct (Nat.lt_ge_cases i top); [apply (Hn i a); [lia|done]|apply (Htop i a); [lia|done]].
  - rewrite (cnt_skip 0 j), cnt_0; [done|lia|]. intros i a Hi Ha.
    destruct (Nat.lt_ge_cases i top); [apply (Hq i a); [lia|done]|apply (Htop i a); [lia|done]].
Qed.

Lemma scannable_None_0 : scannable 0 None.
Proof. split; [done| |done]. intros. lia. Qed.
Lemma none_above_shown lo hi : none_above None lo hi <-> none_shown lo hi.
Proof.
  split; intros Hn i a Hi Ha; [apply not_true_iff_false; intros Hsh; by apply (Hn i a Hi Ha Hsh)|].
  intros Hsh _. by rewrite (Hn i a Hi Ha) in Hsh.
Qed.
Lemma first_pos_cnt j e : pes !! j = Some e -> shown e = true -> none_shown 0 j -> first_pos user_view = Some (cnt j).
Proof.
  intros He Hsh Hn. pose proof (view_lookup j e He Hsh) as Hv. rewrite (cnt_skip 0 j) in Hv |- *; [|lia|done..|lia|done].
  rewrite cnt_0 in *. by destruct user_view.
Qed.

Lemma first_pos_none : none_shown 0 (length pes) -> first_pos user_view = None.
Proof.
  intros Hn. pose proof cnt_all as Hl. rewrite (cnt_skip 0 (length pes)), cnt_0 in Hl by (lia || done).
  by destruct user_view.
Qed.
Lemma iter_first_pos : first_pos (iter_entries pes) = match pes with [] => None | _ => Some 0%nat end.
Proof. by destruct pes. Qed.

Lemma di_first it p : dpos it p -> exists it', di_SeekToFirst ucmp s fuel it = Some it' /\ dpos it' (first_pos user_view).
Proof.
  intros Hp. destruct (dpos_iter _ _ Hp) as (Hg & q & Hq). unfold di_SeekToFirst.
  pose proof (io_first _ _ Hq) as Hf. rewrite iter_first_pos in Hf. cbv zeta. cbn [iter_ set_iter ClearSavedValue set_saved set_dir].
  rewrite (io_valid _ _ Hf). destruct (decide (pes = [])) as [E|E].
  - rewrite E in Hf |- *. cbn [bool_decide]. eexists. split; [reflexivity|]. rewrite first_pos_none.
    + split; [done|]. split; [done|by eexists].
    + intros i a Hi Ha. rewrite E in Ha. done.
  - assert (match pes with [] => None | _ => Some 0%nat end = Some 0%nat) as E0 by (by destruct pes).
    rewrite E0 in *. cbn [bool_decide].
    destruct (FindNext_ok fuel (set_iter (ClearSavedValue (set_dir it kForward)) (SeekToFirst (iter_ it))) 0 false None)
      as (it' & HF & Hsc); [done..|apply scannable_None_0|]. exists it'. split; [exact HF|].
    eapply scanned_dpos; [exact Hsc| |].
    + intros j e _ He Hsh _ Hn%none_above_shown. by eapply first_pos_cnt.
    + intros Hn%none_above_shown. by apply first_pos_none.
Qed.
Lemma iter_last_pos : last_pos (iter_entries pes) = match pes with [] => None | _ :: l => Some (length l) end.
Proof. destruct pes; [done|]. cbn. unfold iter_entries. by rewrite length_fmap. Qed.
Lemma di_last it p : dpos it p -> exists it', di_SeekToLast ucmp s fuel it = Some it' /\ dpos it' (last_pos user_view).
Proof.
  intros Hp. destruct (dpos_iter _ _ Hp) as (Hg & q & Hq). unfold di_SeekToLast.
  pose proof (io_last _ _ Hq) as Hl.
  destruct (FindPrev_ok fuel (set_iter (ClearSavedValue (set_dir it kReverse)) (SeekToLast (iter_ it)))
    (last_pos (iter_entries pes))) as (it' & q' & HF & Hd & Hls); [done..|].
  exists it'. split; [exact HF|]. assert (q' = last_pos user_view) as ->; [|done].
  assert (match last_pos (iter_entries pes) with Some j => S j | None => 0%nat end = length pes) as Etop.
  { rewrite iter_last_pos. by destruct pes. }
  rewrite Etop in Hls. pose proof cnt_all as Hca. destruct q' as [i|].
  - destruct Hls as (m & em & Hm & Hem & Hsh & Hn & <-).
    rewrite (cnt_skip (S m) (length pes)), (cnt_S_shown m em Hem Hsh) in Hca by (lia || done).
    destruct user_view as [|v l]; [done|]. cbn in *. by injection Hca as <-.
  - rewrite (cnt_skip 0 (length pes)), cnt_0 in Hca by (lia || done). by destruct user_view.
Qed.

(** The next entry of the view is the first one shown past [j]. *)
Lemma next_shown j e j' e' :
  pes !! j = Some e -> shown e = true -> pes !! j' = Some e' -> shown e' = true -> (j < j')%nat ->
  none_shown (S j) j' -> next_pos user_view (cnt j) = Some (cnt j').
Proof.
  intros He Hsh He' Hsh' Hlt Hn. rewrite (cnt_skip (S j) j'), (cnt_S_shown j e He Hsh) by (lia || done).
  unfold next_pos. pose proof (view_lookup j' e' He' Hsh') as Hv. apply lookup_lt_Some in Hv.
  rewrite (cnt_skip (S j) j'), (cnt_S_shown j e He Hsh) in Hv by (lia || done).
  by rewrite (proj2 (Nat.ltb_lt _ _)).
Qed.
Lemma next_none j e :
  pes !! j = Some e -> shown e = true -> none_shown (S j) (length pes) -> next_pos user_view (cnt j) = None.
Proof.
  intros He Hsh Hn. pose proof (lookup_lt_Some _ _ _ He). pose proof cnt_all as Hca.
  rewrite (cnt_skip (S j) (length pes)), (cnt_S_shown j e He Hsh) in Hca by (lia || done).
  unfold next_pos. by rewrite (proj2 (Nat.ltb_ge _ _)) by lia.
Qed.
(** Above the user key of a shown entry is past it. *)
Lemma above_shown j e i a :
  pes !! j = Some e -> shown e = true -> pes !! i = Some a -> shown a = true ->
  (above (Some (uk e)) a <-> (j < i)%nat).
Proof.
  intros He Hsh Ha Hsha. cbn. pose proof (uk_bytes _ _ Ha). pose proof (uk_bytes _ _ He). split.
  - intros Hab. destruct (Nat.lt_ge_cases j i) as [|Hge]; [done|]. pose proof (order_le i j a e Hge Ha He). lia.
  - intros Hlt. apply (shown_at j e He) in Hsh as (Hv & _). apply (shown_at i a Ha) in Hsha as (_ & _ & Hno).
    specialize (Hno j e Hlt He Hv). apply Z.eqb_neq in Hno. pose proof (order_le j i e a ltac:(lia) He Ha).
    apply cmp_antisym; [done..|lia].
Qed.
Lemma scanned_next lo j e it :
  pes !! j = Some e -> shown e = true -> (lo <= j)%nat -> scanned lo (Some (uk e)) it ->
  dpos it (next_pos user_view (cnt j)).
Proof.
  intros He Hsh Hlo Hsc.
  assert (forall hi, none_above (Some (uk e)) lo hi -> none_shown (S j) hi) as Hna.
  { intros hi Hn i a Hi Ha. apply not_true_iff_false. intros Hsha. apply (Hn i a); [lia|done..|].
    apply (proj2 (above_shown j e i a He Hsh Ha Hsha)). lia. }
  eapply scanned_dpos; [exact Hsc| |].
  - intros j' e' _ He' Hsh' Hab Hn. pose proof (proj1 (above_shown j e j' e' He Hsh He' Hsh') Hab).
    eapply next_shown; [done..|]. by apply Hna.
  - intros Hn. eapply next_none; [done..|]. by apply Hna.
Qed.

Lemma scannable_at j e lo :
  pes !! j = Some e -> vis e = true -> (lo <= j)%nat -> none_vis lo j -> scannable lo (Some (uk e)).
Proof.
  intros He Hv Hlo Hnv. pose proof (uk_bytes _ _ He) as Hbe. split.
  - by intros k [= <-].
  - intros i a i' a' Hi Hi' Ha Ha' _ _ Hab. cbn in Hab. apply Z.eqb_neq. intros E.
    pose proof (uk_bytes _ _ Ha). pose proof (uk_bytes _ _ Ha').
    pose proof (order_le i' j a' e ltac:(lia) Ha' He) as Hle1.
    assert (Compare ucmp (uk a) (uk a') <= 0) as Hle2 by (apply cmp_ge_le; [done..|lia]).
    assert (Compare ucmp (uk a) (uk e) <= 0) by (by apply (cmp_trans (uk a) (uk a') (uk e))). lia.
  - intros k i a [= <-] Hi Ha Hva. destruct (Nat.lt_ge_cases i j) as [Hlt|Hge].
    + rewrite (Hnv i a) in Hva by (lia || done). done.
    + apply cmp_ge_le; [by eapply uk_bytes|done|]. by apply (order_le j i).
Qed.

Lemma di_next it i : dpos it (Some i) -> exists it', di_Next ucmp s fuel it = Some it' /\ dpos it' (next_pos user_view i).
Proof.
  intros (Hg & Hv & j & e & He & Hsh & <- & Hst). pose proof (proj1 (shown_at j e He) Hsh) as (Hvis & _).
  pose proof (lookup_lt_Some _ _ _ He) as Hlt.
  unfold di_Next. rewrite Hv. unfold dstands in Hst. destruct (direction_ it) eqn:Ed.
  - destruct (entry_at _ _ Hst) as (e' & He' & Hk & _). assert (e' = e) as -> by congruence.
    assert (ExtractUserKey (key (iter_ it)) = uk e) as Euk by (rewrite Hk; apply ExtractUserKey_encode). rewrite Euk.
    destruct (FindNext_ok fuel (SaveKey it (uk e)) j true (Some (uk e))) as (it' & HF & Hsc); [done..| |].
    { apply (scannable_at j e j He Hvis); [lia|]. intros ? ? ?. lia. }
    exists it'. split; [exact HF|]. by eapply (scanned_next j j e).
  - destruct Hst as [[Hsk Hsv] (q & Hq & Hqm)].
    (* one step forward from the last visible entry before [j] *)
    assert (exists lo, pos (if Valid (iter_ it) then Next (iter_ it) else SeekToFirst (iter_ it)) (Some lo) /\
      (lo <= j)%nat /\ none_vis lo j) as (lo & Hlo & Hle & Hnv).
    { rewrite (io_valid _ _ Hq). destruct q as [q|]; cbn [bool_decide].
      - destruct Hqm as [Hqj Hnv]. pose proof (io_next _ _ Hq) as Hn. unfold next_pos, iter_entries in Hn.
        rewrite length_fmap in Hn. rewrite (proj2 (Nat.ltb_lt _ _)) in Hn by lia. exists (S q). by split_and!; [|lia|].
      - pose proof (io_first _ _ Hq) as Hf. rewrite iter_first_pos in Hf. exists 0%nat.
        split; [|split; [lia|done]]. by destruct pes. }
    cbv zeta. cbn [iter_ set_iter set_dir]. rewrite (io_valid _ _ Hlo). cbn [bool_decide].
    destruct (FindNext_ok fuel (set_iter (set_dir it kForward)
      (if Valid (iter_ it) then Next (iter_ it) else SeekToFirst (iter_ it))) lo true (Some (uk e)))
      as (it' & HF & Hsc); [done..|by cbn; rewrite Hsk|by apply (scannable_at j e lo)|].
    exists it'. split; [exact HF|]. by eapply (scanned_next lo j e).
Qed.

(** Backing out of the entries of the current user key. *)
Lemma scan_back_ok (e : ientry) j : pes !! j = Some e -> forall n i it,
  (i < n)%nat -> (i <= j)%nat -> good it -> saved_key_ it = uk e -> pos (iter_ it) (Some i) ->
  (forall l (a : ientry), (i <= l <= j)%nat -> pes !! l = Some a -> Compare ucmp (uk a) (uk e) = 0) ->
  exists more it', scan_back ucmp n it = Some (more, it') /\ good it' /\
    if more : bool
    then exists p, pos (iter_ it') (Some p) /\ (p < j)%nat /\
      forall l (a : ientry), (p < l <= j)%nat -> pes !! l = Some a -> Compare ucmp (uk a) (uk e) = 0
    else (exists p, pos (iter_ it') p) /\
      forall l (a : ientry), (l <= j)%nat -> pes !! l = Some a -> Compare ucmp (uk a) (uk e) = 0.
Proof.
  intros He. induction n as [|n IH]; intros i it Hn Hij Hg Hsk Hp Heq; [lia|]. cbn [scan_back iter_ set_iter].
  pose proof (io_prev _ _ Hp) as Hpr. rewrite (io_valid _ _ Hpr). destruct i as [|i]; cbn [prev_pos bool_decide negb] in *.
  - eexists false, _. split; [reflexivity|]. split; [done|]. split; [by eexists|]. intros l a Hl. apply Heq. lia.
  - destruct (entry_at _ _ Hpr) as (a & Ha & Hk & _).
    assert (ExtractUserKey (key (Prev (iter_ it))) = uk a) as -> by (rewrite Hk; apply ExtractUserKey_encode).
    cbn [saved_key_ set_iter]. rewrite Hsk.
    destruct (Z.ltb_spec (Compare ucmp (uk a) (uk e)) 0) as [Hlt|Hge].
    + eexists true, _. split; [reflexivity|]. split; [done|]. exists i. split; [done|]. split; [lia|].
      intros l b Hl. apply Heq. lia.
    + apply (IH i); [lia|lia|done|done|done|]. intros l b Hl Hb. destruct (decide (l = i)) as [->|].
      * assert (b = a) as -> by congruence. pose proof (order_le i j a e ltac:(lia) Ha He). lia.
      * apply (Heq l b); [lia|done].
Qed.

Lemma di_prev it i : dpos it (Some i) -> exists it', di_Prev ucmp s fuel it = Some it' /\ dpos it' (prev_pos i).
Proof.
  intros (Hg & Hv & j & e & He & Hsh & <- & Hst). pose proof (proj1 (shown_at j e He) Hsh) as (Hvis & _ & Hno).
  pose proof (lookup_lt_Some _ _ _ He) as Hlt.
  (* entries of the same user key before [j] are not shown *)
  assert (forall p, (forall l (a : ientry), (p <= l <= j)%nat -> pes !! l = Some a -> Compare ucmp (uk a) (uk e) = 0) ->
    none_shown p j) as Hgroup.
  { intros p Hp l a Hl Ha. destruct (vis a) eqn:Eva; [|by apply vis_not_shown].
    specialize (Hno l a ltac:(lia) Ha Eva). apply Z.eqb_neq in Hno. destruct Hno. apply (Hp l a); [lia|done]. }
  unfold di_Prev. rewrite Hv. unfold dstands in Hst. destruct (direction_ it) eqn:Ed.
  - rewrite (io_valid _ _ Hst). cbn [bool_decide].
    destruct (entry_at _ _ Hst) as (e' & He' & Hk & _). assert (e' = e) as -> by congruence.
    assert (ExtractUserKey (key (iter_ it)) = uk e) as Euk by (rewrite Hk; apply ExtractUserKey_encode). rewrite Euk.
    destruct (scan_back_ok e j He fuel j (SaveKey it (uk e))) as (more & it1 & HF & Hg1 & Hmore);
      [lia|lia|done|done|done| |].
    { intros l a Hl Ha. assert (l = j) as -> by lia. assert (a = e) as -> by congruence. apply cmp_refl. by eapply uk_bytes. }
    rewrite HF. cbn [mbind option_bind]. destruct more.
    + destruct Hmore as (p & Hp & Hpj & Heq).
      destruct (FindPrev_ok fuel (set_dir it1 kReverse) (Some p)) as (it' & q & HF' & Hd & Hls); [done..|].
      exists it'. split; [exact HF'|].
      rewrite <- (last_shown_prev j e q He Hsh (S p)); [done|lia| |done].
      apply Hgroup. intros l a Hl. apply Heq. lia.
    + destruct Hmore as [Hp Heq]. eexists. split; [reflexivity|].
      rewrite (cnt_skip 0 j), cnt_0; [|lia|].
      * split; [done|]. by split.
      * apply Hgroup. intros l a Hl. apply Heq. lia.
  - destruct Hst as [_ (p & Hp & Hpm)].
    destruct (FindPrev_ok fuel it p) as (it' & q & HF' & Hd & Hls); [done..|].
    exists it'. split; [exact HF'|].
    assert (forall lo, none_vis lo j -> none_shown lo j) as Hvs
      by (intros lo Hnv l a Hl Ha; apply vis_not_shown, (Hnv l a Hl Ha)).
    destruct p as [p|].
    + destruct Hpm as [Hpj Hnv]. rewrite <- (last_shown_prev j e q He Hsh (S p)); [done|lia|by apply Hvs|done].
    + rewrite <- (last_shown_prev j e q He Hsh 0); [done|lia|by apply Hvs|done].
Qed.

Definition user_target (t : bytes) : Prop := bytes_ok t /\ blen t + 8 < 2 ^ 32.
Section Seek.
Context (t : bytes) (Ht : user_target t).
Abbreviation target := (EncodeInternalKey (lookup_pkey t s)).

Lemma target_ok : pkey_ok (lookup_pkey t s).
Proof. exact (lookup_pkey_ok t s (proj1 Ht) (proj2 Ht) Hs). Qed.
Lemma target_seek : seek_target target.
Proof. split; [apply pkey_valid, target_ok|]. rewrite blen_ikey. apply Ht. Qed.

(** An entry is at or past the target when its user key is past it, or is it and the
    entry is visible. *)
Lemma ge_target j e : pes !! j = Some e ->
  0 <= Compare (InternalKeyComparator ucmp) (ikey e) target <->
  0 < Compare ucmp (uk e) t \/ (Compare ucmp (uk e) t = 0 /\ vis e = true).
Proof.
  intros He. destruct (entry_ok_at _ _ He) as [[Hk _] Hty]. cbn [Compare InternalKeyComparator]. unfold ikey.
  rewrite icmp_encode by (done || apply target_ok). cbv zeta. cbn [lookup_pkey user_key sequence type].
  unfold vis. rewrite Z.leb_le. unfold kValueTypeForSeek. change kTypeValue with 1 in *.
  destruct (Z.eqb_spec (Compare ucmp (uk e) t) 0) as [E|E]; [|lia].
  destruct (Z.compare_spec s (sequence (fst e))) as [->|Hlt|Hgt]; [|cbn; lia|cbn; lia].
  destruct (Z.compare_spec 1 (type (fst e))); cbn; lia.
Qed.

(** Where the seek lands in the view. *)
Lemma seek_view lo q :
  (lo <= length pes)%nat ->
  (forall i (a : ientry), (i < lo)%nat -> pes !! i = Some a -> vis a = true -> Compare ucmp (uk a) t < 0) ->
  (forall i (a : ientry), (lo <= i)%nat -> pes !! i = Some a -> 0 <= Compare ucmp (uk a) t) ->
  match q with
  | Some i => exists j e, (lo <= j)%nat /\ pes !! j = Some e /\ shown e = true /\ none_shown lo j /\ cnt j = i
  | None => none_shown lo (length pes)
  end -> q = first_ge ucmp user_view t.
Proof.
  intros Hlo Hbefore Hafter Hq. symmetry.
  assert (forall i k v hi, user_view !! i = Some (k, v) -> none_shown lo hi -> (i < cnt hi)%nat -> Compare ucmp k t < 0) as Hlow.
  { intros i k v hi Hi Hn Hlt. destruct (view_inv i k v Hi) as (j & a & Ha & Hsh & <- & -> & _).
    apply cnt_lt_inv in Hlt. destruct (Nat.lt_ge_cases j lo) as [Hj|Hj].
    - apply (Hbefore j a Hj Ha). by apply (shown_at j a Ha).
    - rewrite (Hn j a) in Hsh by (lia || done). done. }
  destruct q as [i|].
  - destruct Hq as (j & e & Hj & He & Hsh & Hn & <-). apply first_ge_Some. split.
    + exists (uk e), (snd e). split; [by apply view_lookup|]. by apply (Hafter j).
    + intros i k v Hi Hv. by eapply Hlow.
  - apply first_ge_None. intros i k v Hv. eapply Hlow; [done..|]. rewrite cnt_all. by eapply lookup_lt_Some.
Qed.

Lemma di_seek it p : dpos it p ->
  exists it', di_Seek ucmp s fuel it t = Some it' /\ dpos it' (first_ge ucmp user_view t).
Proof.
  intros Hp. destruct (dpos_iter _ _ Hp) as (Hg & q & Hq). unfold di_Seek. cbv zeta.
  change (AppendInternalKey [] _) with target. cbn [iter_ saved_key_ set_iter SaveKey set_saved ClearSavedValue set_dir saved_value_].
  pose proof (io_seek _ _ target target_seek Hq) as Hsk. rewrite (io_valid _ _ Hsk).
  assert (forall i (a : ientry), pes !! i = Some a -> bytes_ok (uk a)) as Hb by (intros; by eapply uk_bytes).
  destruct (first_ge (InternalKeyComparator ucmp) (iter_entries pes) target) as [lo|] eqn:Ef; cbn [bool_decide].
  - apply first_ge_Some in Ef as [(k & v & Hkv & Hge) Hlow].
    destruct (entry_at _ _ Hsk) as (e & He & _). rewrite (iter_entries_lookup lo e He) in Hkv. injection Hkv as <- <-.
    apply (ge_target lo e He) in Hge.
    assert (forall i (a : ientry), (i < lo)%nat -> pes !! i = Some a -> vis a = true -> Compare ucmp (uk a) t < 0) as Hbefore.
    { intros i a Hi Ha Hva. specialize (Hlow i _ _ Hi (iter_entries_lookup i a Ha)).
      pose proof (ge_target i a Ha) as Hgt. rewrite Hva in Hgt. lia. }
    assert (forall i (a : ientry), (lo <= i)%nat -> pes !! i = Some a -> 0 <= Compare ucmp (uk a) t) as Hafter.
    { intros i a Hi Ha. pose proof (order_le lo i e a Hi He Ha) as Hle. apply cmp_ge_le; [by eapply Hb|apply Ht|].
      apply (cmp_trans t (uk e) (uk a)); [apply Ht|by eapply Hb..| |done]. apply cmp_ge_le; [by eapply Hb|apply Ht|lia]. }
    pose proof (lookup_lt_Some _ _ _ He) as Hlt.
    match goal with |- context [FindNextUserEntry ucmp s fuel false ?x] => set (it0 := x) end.
    destruct (FindNext_ok fuel it0 lo false None) as (it' & HF & Hsc); [done..| |].
    { split; [done| |done]. intros i a i' a' Hi Hi' Ha Ha' _ Hva' _. apply Z.eqb_neq. intros E.
      pose proof (Hafter i a Hi Ha) as Hge'. pose proof (Hbefore i' a' Hi' Ha' Hva') as Hlt'.
      apply (cmp_ge_le (uk a) t) in Hge'; [|by eapply Hb|apply Ht].
      assert (Compare ucmp (uk a') (uk a) < 0); [|lia].
      apply (cmp_lt_le_trans _ t); [by eapply Hb|apply Ht|by eapply Hb|done|done]. }
    exists it'. split; [exact HF|]. eapply scanned_dpos; [exact Hsc| |].
    + intros j' e' Hj' He' Hsh' _ Hn%none_above_shown. symmetry. apply (seek_view lo); [lia|done|done|].
      by exists j', e'.
    + intros Hn%none_above_shown. symmetry. by apply (seek_view lo); [lia|..].
  - eexists. split; [reflexivity|].
    assert (first_ge ucmp user_view t = None) as ->.
    { symmetry. apply (seek_view (length pes)); [lia| | |].
      - intros i a Hi Ha Hva. pose proof (proj1 (first_ge_None _ _ _) Ef i _ _ (iter_entries_lookup i a Ha)) as Hlt.
        pose proof (ge_target i a Ha) as Hgt. rewrite Hva in Hgt. lia.
      - intros i a Hi Ha%lookup_lt_Some. lia.
      - intros i a Hi. lia. }
    split; [done|]. split; [done|by eexists].
Qed.
End Seek.

#[local] Instance DBIter_ok : IteratorOk (H := DBIter_ops ucmp s fuel) ucmp user_target user_view dpos.
Proof.
  constructor.
  - intros it [i|] [_ [Hv _]]; exact Hv.
  - intros it i (Hg & Hv & j & e & He & Hsh & <- & Hst). rewrite (view_lookup j e He Hsh).
    cbn [key value DBIter_ops]. unfold dstands in Hst. destruct (direction_ it).
    + destruct (entry_at _ _ Hst) as (e' & He' & -> & ->). assert (e' = e) as -> by congruence.
      unfold ikey. by rewrite ExtractUserKey_encode.
    + destruct Hst as [[-> ->] _]. done.
  - intros it p Hp. destruct (dpos_iter it p Hp) as ([_ Hst] & q & Hq). cbn. rewrite Hst. cbn. by eapply io_status.
  - intros it p Hp. cbn [SeekToFirst DBIter_ops]. by destruct (di_first it p Hp) as (it' & -> & ?).
  - intros it p Hp. cbn [SeekToLast DBIter_ops]. by destruct (di_last it p Hp) as (it' & -> & ?).
  - intros it i Hp. cbn [Next DBIter_ops]. by destruct (di_next it i Hp) as (it' & -> & ?).
  - intros it i Hp. cbn [Prev DBIter_ops]. by destruct (di_prev it i Hp) as (it' & -> & ?).
  - intros it p t Ht Hp. cbn [Seek DBIter_ops]. by destruct (di_seek t Ht it p Hp) as (it' & -> & ?).
Qed.
Lemma DBIter_new_pos t p seed : pos t p -> dpos (DBIter_new t seed) None.
Proof.
  intros Hp. unfold DBIter_new, RandomPeriod, Random.Uniform. split; [|split; [done|by eexists]].
  split; [|done]. split; cbn; [apply Random_Next_range, Random_new_range|].
  apply Z.mod_pos_bound. done.
Qed.
End Scan.
End View.

(** ** Properties *)

Section Properties.
Context (ucmp : Comparator) (Hc : ComparatorOk ucmp bytes_ok).
Abbreviation icmp := (InternalKeyComparator ucmp).

(** The user iterator over an internal iterator that keeps its contract. *)
Lemma user_iterator_at {T} `{Iterator T} (s : Z) (pes : list ientry) (t : T) p seed fuel :
  Forall pentry_ok pes -> sorted_keys icmp (iter_entries pes) -> 0 <= s <= kMaxSequenceNumber ->
  (length pes < fuel)%nat -> at_pos icmp seek_target (iter_entries pes) t p ->
  at_pos (H := DBIter_ops ucmp s fuel) ucmp user_target (user_view ucmp s pes) (DBIter_new t seed) None.
Proof.
  intros Hok Hsorted Hs Hf (pos & Hit & Hp). exists (dpos ucmp s pes pos).
  split; [by apply DBIter_ok|by eapply DBIter_new_pos].
Qed.

(** C14: The user iterator keeps the iterator contract on the user's view: over any internal
    iterator that keeps the contract on sorted internal entries, and at any snapshot, the
    iterator stands, after every sequence of seeks and steps in both directions, at the
    entry of the view that the contract says, where the view has for each user key the
    value of its newest entry at or before the snapshot, unless that is a deletion; the
    status stays OK and no assertion fails.  Reading it from the start gives the view. *)
Theorem db_iter_contract {T} `{Iterator T} (s : Z) (pes : list ientry) (t : T) p (seed : Z) (fuel : nat)
  (Hok : Forall pentry_ok pes) (Hsorted : sorted_keys icmp (iter_entries pes))
  (Hs : 0 <= s <= kMaxSequenceNumber) (Hf : (length pes < fuel)%nat)
  (Hat : at_pos icmp seek_target (iter_entries pes) t p) :
  let ops := DBIter_ops ucmp s fuel in
  let it := DBIter_new t seed in
  (exists pos, IteratorOk (H := ops) ucmp user_target (user_view ucmp s pes) pos /\ pos it None /\
    (forall it p, pos it p -> is_Some (di_SeekToFirst ucmp s fuel it) /\ is_Some (di_SeekToLast ucmp s fuel it) /\
       forall k, user_target k -> is_Some (di_Seek ucmp s fuel it k)) /\
    (forall it i, pos it (Some i) -> is_Some (di_Next ucmp s fuel it) /\ is_Some (di_Prev ucmp s fuel it))) /\
  @collect _ ops (length (user_view ucmp s pes)) (@SeekToFirst _ ops it) = user_view ucmp s pes.
Proof.
  intros ops it. destruct Hat as (pos & Hit & Hp). split.
  - exists (dpos ucmp s pes pos). split; [by apply DBIter_ok|]. split; [by eapply DBIter_new_pos|]. split.
    + intros it' p' Hd. destruct (di_first ucmp Hc s pes Hok Hsorted pos fuel Hf it' p' Hd) as (? & -> & _).
      destruct (di_last ucmp Hc s pes Hok Hsorted pos fuel Hf it' p' Hd) as (? & -> & _). split_and!; [done|done|].
      intros k Hk. by destruct (di_seek ucmp Hc s pes Hok Hsorted pos fuel Hf Hs k Hk it' p' Hd) as (? & -> & _).
    + intros it' i Hd. destruct (di_next ucmp Hc s pes Hok Hsorted pos fuel Hf it' i Hd) as (? & -> & _).
      by destruct (di_prev ucmp Hc s pes Hok Hsorted pos fuel Hf it' i Hd) as (? & -> & _).
  - destruct (user_iterator_at s pes t p seed fuel Hok Hsorted Hs Hf) as (pos' & Hok' & Hp').
    { by exists pos. }
    exact (@collect_all _ ops ucmp user_target _ pos' Hok' it None Hp').
Qed.

(** What the view shows of a user key is what the newest visible entry holds. *)
Lemma view_newest (es : list (Z * Z * bytes * bytes)) (pes : list ientry) s ukey v :
  Forall point_entry es -> NoDup (entry_seq <$> es) -> pes ≡ₚ to_ientry <$> es -> bytes_ok ukey ->
  (exists k, Compare ucmp k ukey = 0 /\ (k, v) ∈ user_view ucmp s pes) <->
  get_result (newest ucmp ukey s es) = Found v.
Proof.
  intros Hes Hnd Hp Hu.
  assert (forall e, e ∈ es -> point_entry e) as Hpe by (by apply Forall_forall).
  assert (forall e, e ∈ es -> bytes_ok (user_key (fst (to_ientry e)))) as Hb by (intros e He; apply (Hpe e He)).
  assert (forall e, vis s (to_ientry e) = (entry_seq e <=? s)) as Hvis by (by intros [[[? ?] ?] ?]).
  assert (forall e, entry_seq e = sequence (fst (to_ientry e))) as Hseq by (by intros [[[? ?] ?] ?]).
  assert (forall pe, pe ∈ pes <-> exists e, pe = to_ientry e /\ e ∈ es) as Hin
    by (intros pe; rewrite Hp, list_elem_of_fmap; done).
  assert (forall e, e ∈ es -> 0 <= type (fst (to_ientry e)) <= 1) as Hty by (intros e He; apply (Hpe e He)).
  split.
  - intros (k & Hk & (pe & [= -> ->] & [Hsh Hpe']%list_elem_of_filter)%list_elem_of_fmap).
    apply Hin in Hpe' as (e & -> & He). unfold shown in Hsh.
    apply andb_true_iff in Hsh as [[Hv Ht%Z.eqb_eq]%andb_true_iff Hno%negb_true_iff].
    rewrite Hvis in Hv. assert (visible ucmp ukey s e = true) as Hve.
    { unfold visible. by rewrite Hk, Hv. }
    destruct (newest ucmp ukey s es) as [e1|] eqn:En.
    2: { by rewrite (newest_None ucmp ukey s es En e He) in Hve. }
    pose proof (newest_max ucmp ukey s es e1 En e He Hve) as Hmax. apply newest_in in En as [He1 Hv1].
    unfold visible in Hv1. apply andb_true_iff in Hv1 as [Hc1%Z.eqb_eq Hs1].
    assert (e1 = e) as ->.
    { apply (newest_unique es Hnd e1 e He1 He). apply Z.le_antisymm; [|done].
      apply not_true_iff_false in Hno. apply Z.nlt_ge. intros Hlt. apply Hno, existsb_exists.
      exists (to_ientry e1). split; [apply list_elem_of_In, Hin; by exists e1|].
      rewrite Hvis, Hs1. unfold same_key.
      rewrite (cmp_eq_trans ucmp Hc _ ukey _ (Hb e1 He1) Hu (Hb e He) Hc1 (cmp_eq_sym ucmp Hc _ _ (Hb e He) Hu Hk)).
      cbn. apply Z.ltb_lt. unfold tag. rewrite <- !Hseq. pose proof (Hty e He). pose proof (Hty e1 He1). lia. }
    destruct e as [[[sq ty] ky] vl]. cbn in Ht |- *. by rewrite Ht.
  - destruct (newest ucmp ukey s es) as [e|] eqn:En; [|done].
    pose proof (newest_max ucmp ukey s es e En) as Hmax. apply newest_in in En as [He Hv].
    unfold visible in Hv. apply andb_true_iff in Hv as [Hk%Z.eqb_eq Hs'].
    intros Hg. assert (type (fst (to_ientry e)) = kTypeValue /\ snd (to_ientry e) = v) as [Ht Hv'].
    { destruct e as [[[sq ty] ky] vl]. cbn in Hg |- *. destruct (Z.eqb_spec ty kTypeValue); [|done]. by injection Hg as ->. }
    exists (user_key (fst (to_ientry e))). split; [done|]. rewrite <- Hv'. apply list_elem_of_fmap.
    exists (to_ientry e). split; [done|]. apply list_elem_of_filter. split; [|apply Hin; by exists e].
    unfold shown. rewrite Hvis, Hs', Ht. cbn. apply negb_true_iff, not_true_iff_false. intros Hex.
    apply existsb_exists in Hex as (pe & (e2 & -> & He2)%list_elem_of_In%Hin & Hb2).
    apply andb_true_iff in Hb2 as [[Hv2 Hsk%Z.eqb_eq]%andb_true_iff Htag%Z.ltb_lt]. rewrite Hvis in Hv2.
    assert (entry_seq e2 <= entry_seq e) as Hle.
    { apply Hmax; [done|]. unfold visible.
      rewrite (cmp_eq_trans ucmp Hc _ _ _ (Hb e2 He2) (Hb e He) Hu Hsk Hk). by rewrite Hv2. }
    destruct (Z.eq_dec (entry_seq e2) (entry_seq e)) as [E|E].
    + assert (e2 = e) as -> by (by apply (newest_unique es Hnd)). lia.
    + unfold tag in Htag. rewrite <- !Hseq in Htag. pose proof (Hty e He). pose proof (Hty e2 He2). lia.
Qed.

(** Two memtables, the second with newer entries. *)
Lemma newest_app es1 es2 ukey s :
  (forall e1 e2, e1 ∈ es1 -> e2 ∈ es2 -> entry_seq e1 < entry_seq e2) ->
  newest ucmp ukey s (es1 ++ es2) =
  match newest ucmp ukey s es2 with Some e => Some e | None => newest ucmp ukey s es1 end.
Proof.
  induction es1 as [|e es1 IH]; intros Hlt; [cbn [app newest]; by destruct (newest ucmp ukey s es2)|].
  cbn [app newest]. cbv zeta. rewrite IH by (intros ? ? ? ?; apply Hlt; [apply elem_of_cons; by right|done]).
  destruct (newest ucmp ukey s es2) as [e2|] eqn:E2; [|done].
  apply newest_in in E2 as [He2 _].
  rewrite (proj2 (Z.ltb_lt _ _)) by (apply Hlt; [apply elem_of_cons; by left|done]).
  by destruct (visible ucmp ukey s e).
Qed.

Context (Hn : KeyNumOk ucmp bytes_ok) `{HH : StdHeap} {HHok : StdHeapOk}.
#[local] Instance mem_ops : Iterator MemTableIterator := MemTableIterator_ops ucmp.
#[local] Instance merged_ops : Iterator (MergingIterator MemTableIterator) := MergingIterator_ops icmp.

Lemma icmp_seek_ok : ComparatorOk icmp seek_target.
Proof.
  apply bounded_ComparatorOk; [|apply InternalKey_ShortKeys]. apply (InternalKeyComparator_ok ucmp bytes_ok). done.
Qed.
Lemma iter_entries_seek es : Forall ientry_ok es -> valid_keys seek_target (iter_entries es).
Proof.
  intros Hok. apply Forall_fmap. eapply Forall_impl; [exact Hok|]. intros e (Hk & Hl & _).
  change (seek_target (EncodeInternalKey (fst e))). split; [by apply pkey_valid|]. by rewrite blen_ikey.
Qed.
Lemma memtable_at m ns es :
  holds ucmp m ns es -> exists p, at_pos icmp seek_target (iter_entries es) (NewIterator m) p.
Proof.
  intros Hm. exists None, (mi_pos m ns). split; [by apply MemTableIterator_ok|done].
Qed.
Lemma holds_iter_sorted m ns es : holds ucmp m ns es -> sorted_keys icmp (iter_entries es).
Proof. intros Hm. apply iter_entries_sorted; [apply Hm|by eapply holds_sorted]. Qed.

End Properties.

(** ** Examples *)

Definition example_pes : list ientry :=
  [({| user_key := [1; 2]; sequence := 9; type := kTypeDeletion |}, []);
   ({| user_key := [1; 2]; sequence := 5; type := kTypeValue |}, [50]);
   ({| user_key := [3]; sequence := 7; type := kTypeValue |}, [70]);
   ({| user_key := [3]; sequence := 6; type := kTypeValue |}, [60])].
Example example_views :
  user_view BytewiseComparator 8 example_pes = [([1; 2], [50]); ([3], [70])] /\
  user_view BytewiseComparator 9 example_pes = [([3], [70])] /\
  user_view BytewiseComparator 6 example_pes = [([1; 2], [50]); ([3], [60])].
Proof. by vm_compute. Qed.

Lemma db_iter_contract_witness :
  let ops := DBIter_ops (H := ListIter_ops (InternalKeyComparator BytewiseComparator)) BytewiseComparator 8 5 in
  let it := DBIter_new {| li_entries := iter_entries example_pes; li_at := None |} 301 in
  @collect _ ops 2 (@SeekToFirst _ ops it) = [([1; 2], [50]); ([3], [70])].
Proof.
  intros ops it.
  destruct (ListIter_at (InternalKeyComparator BytewiseComparator) seek_target (iter_entries example_pes)) as [p Hp].
  refine (proj2 (@db_iter_contract BytewiseComparator BytewiseComparator_ok _ (ListIter_ops _) 8 example_pes _ p 301 5
    _ _ _ _ Hp)).
  - repeat constructor; done.
  - repeat constructor.
  - split; by vm_compute.
  - cbn. lia.
Defined.

Definition newer_entries : list (Z * Z * bytes * bytes) :=
  [(12, kTypeValue, [3], [71]); (13, kTypeValue, [4], [40])].
