(* ===== verification/MemEnv.v ===== *)
(** * helpers/memenv: the in-memory file system

    Models [src/pebblesdb/src/helpers/memenv/memenv.cc]: files as lists of 8 KiB blocks that
    are counted and shared by names and open files, and the environment over them.  Using a
    file that was deleted, a null pointer, a block that does not exist or a failed [assert]
    is the outcome [None].  The mutexes make the operations atomic; they are modelled one
    at a time. *)

From S2P Require Import Prelude Coding Status Comparator.
From stdpp Require Import gmap gmultiset list sorting.
#[local] Open Scope Z_scope.

(** ** Files *)

Module FileState.
Definition kBlockSize : Z := 8 * 1024.

Record FileState := { refs_ : Z; blocks_ : list bytes; size_ : Z }.

Section File.
(** [new char\[kBlockSize\]] holds arbitrary bytes: those of the block at index [i]. *)
Context (junk : nat -> bytes).

Definition new : FileState := {| refs_ := 0; blocks_ := []; size_ := 0 |}.
Definition Ref (f : FileState) : FileState :=
  {| refs_ := refs_ f + 1; blocks_ := blocks_ f; size_ := size_ f |}.
(** [None] inside: the file deletes itself. *)
Definition Unref (f : FileState) : option (option FileState) :=
  let r := refs_ f - 1 in
  if r <? 0 then None
  else if r <=? 0 then Some None
  else Some (Some {| refs_ := r; blocks_ := blocks_ f; size_ := size_ f |}).
Definition Size (f : FileState) : Z := size_ f.

(** [while (bytes_to_copy > 0)]: one block per round. *)
Fixpoint read_loop (fuel : nat) (blocks : list bytes) (bytes_to_copy : Z) (block block_offset : Z) (dst : bytes)
    : option bytes :=
  match fuel with
  | O => None
  | S fuel =>
      if 0 <? bytes_to_copy then
        let avail := kBlockSize - block_offset in
        let avail := if bytes_to_copy <? avail then bytes_to_copy else avail in
        b ← blocks !! Z.to_nat block;
        read_loop fuel blocks (bytes_to_copy - avail) (block + 1) 0 (dst ++ sub b block_offset avail)
      else Some dst
  end.

(** The status and the bytes of the result; a failed read sets no result. *)
Definition Read (f : FileState) (offset n : Z) : option (Status * bytes) :=
  if size_ f <? offset then Some (IOError (str "Offset greater than file size.") [], [])
  else
    let available := size_ f - offset in
    let n := if available <? n then available else n in
    if n =? 0 then Some (OK, [])
    else
      let block := offset / kBlockSize in
      let block_offset := offset mod kBlockSize in
      if n <=? kBlockSize - block_offset then
        b ← blocks_ f !! Z.to_nat block;
        Some (OK, sub b block_offset n)
      else
        dst ← read_loop (S (S (length (blocks_ f)))) (blocks_ f) n block block_offset [];
        Some (OK, dst).

(** [memcpy] of [data] into a block. *)
Definition copy_into (b : bytes) (off : Z) (data : bytes) : bytes :=
  take (Z.to_nat off) b ++ data ++ drop (Z.to_nat off + length data) b.

(** [while (src_len > 0)]: every round copies at least one byte. *)
Fixpoint append_loop (fuel : nat) (f : FileState) (src : bytes) : option FileState :=
  match fuel with
  | O => None
  | S fuel =>
      if 0 <? blen src then
        let offset := size_ f mod kBlockSize in
        let '(blocks, avail) :=
          if negb (offset =? 0) then (blocks_ f, kBlockSize - offset)
          else (blocks_ f ++ [junk (length (blocks_ f))], kBlockSize) in
        let avail := if blen src <? avail then blen src else avail in
        b ← last blocks;
        let b := copy_into b offset (take (Z.to_nat avail) src) in
        append_loop fuel
          {| refs_ := refs_ f; blocks_ := <[(length blocks - 1)%nat := b]> blocks; size_ := u64 (size_ f + avail) |}
          (drop (Z.to_nat avail) src)
      else Some f
  end.
Definition Append (f : FileState) (data : bytes) : option (Status * FileState) :=
  f ← append_loop (S (length data)) f data; Some (OK, f).

(** *** A file is a byte string *)

Definition contents (f : FileState) : bytes := take (Z.to_nat (size_ f)) (concat (blocks_ f)).

(** Whole blocks, as many as the size needs. *)
Record file_ok (f : FileState) : Prop := {
  file_size : 0 <= size_ f < 2 ^ 64;
  file_blocks : forall b, b ∈ blocks_ f -> blen b = kBlockSize;
  file_full : (blen (blocks_ f) - 1) * kBlockSize < size_ f <= blen (blocks_ f) * kBlockSize \/
              (size_ f = 0 /\ blocks_ f = []);
}.

Hypothesis junk_size : forall i, blen (junk i) = kBlockSize.

Lemma blen_concat (bs : list bytes) : (forall b, b ∈ bs -> blen b = kBlockSize) -> blen (concat bs) = blen bs * kBlockSize.
Proof.
  induction bs as [|b bs IH]; intros Hb; [done|]. cbn [concat]. rewrite blen_app, blen_cons, IH, (Hb b).
  - lia.
  - by left.
  - intros b' Hb'. apply Hb. by right.
Qed.
Lemma blen_contents f : file_ok f -> blen (contents f) = size_ f.
Proof.
  intros [Hs Hb Hf]. unfold contents. rewrite blen_take, blen_concat by done.
  destruct Hf as [Hf|[E ->]]; [lia|]. rewrite E. done.
Qed.

(** Reading inside one block. *)
Lemma concat_block (bs : list bytes) : forall i b off n,
  (forall b, b ∈ bs -> blen b = kBlockSize) -> bs !! i = Some b -> 0 <= off -> 0 <= n -> off + n <= kBlockSize ->
  sub b off n = sub (concat bs) (Z.of_nat i * kBlockSize + off) n.
Proof.
  induction bs as [|a bs IH]; intros i b off n Hb Hi Ho Hn Hon; [done|]. cbn [concat].
  assert (Ha : blen a = kBlockSize) by (apply Hb; by left). unfold blen in Ha.
  destruct i as [|i]; cbn in Hi.
  - injection Hi as ->. unfold sub. rewrite Z.mul_0_l, Z.add_0_l, drop_app.
    rewrite take_app_le by (rewrite length_drop; lia). done.
  - rewrite (IH i b off n); try done; [|intros b' Hb'; apply Hb; by right]. unfold sub. f_equal.
    replace (Z.to_nat (Z.of_nat (S i) * kBlockSize + off)) with (length a + Z.to_nat (Z.of_nat i * kBlockSize + off))%nat.
    + by rewrite <- drop_drop, drop_app_length.
    + assert (0 <= Z.of_nat i * kBlockSize) by (unfold kBlockSize; lia). lia.
Qed.
Lemma sub_split (l : bytes) off n k : 0 <= off -> 0 <= k <= n -> sub l off n = sub l off k ++ sub l (off + k) (n - k).
Proof.
  intros Ho Hk. unfold sub. rewrite Z2Nat.inj_add, <- drop_drop by lia.
  replace (Z.to_nat n) with (Z.to_nat k + Z.to_nat (n - k))%nat by lia.
  by rewrite <- take_take_drop.
Qed.

Lemma read_loop_ok bs : (forall b, b ∈ bs -> blen b = kBlockSize) -> forall fuel n block off dst,
  0 <= n -> 0 <= block -> 0 <= off < kBlockSize -> block * kBlockSize + off + n <= blen bs * kBlockSize ->
  n + off <= (Z.of_nat fuel - 1) * kBlockSize ->
  read_loop fuel bs n block off dst = Some (dst ++ sub (concat bs) (block * kBlockSize + off) n).
Proof.
  intros Hb. induction fuel as [|fuel IH]; intros n block off dst Hn Hbl Ho Hfit Hf; [unfold kBlockSize in *; lia|].
  cbn [read_loop]. destruct (Z.ltb_spec 0 n) as [Hpos|Hz].
  - set (avail := if n <? kBlockSize - off then n else kBlockSize - off).
    assert (Hav : 0 < avail <= n /\ off + avail <= kBlockSize /\ (avail = n \/ avail = kBlockSize - off))
      by (unfold avail; case_bool; lia).
    clearbody avail. destruct (lookup_lt_is_Some_2 bs (Z.to_nat block)) as [b Hbk].
    { unfold blen, kBlockSize in *. nia. }
    rewrite Hbk. cbn [mbind option_bind].
    rewrite IH; [|lia|lia|unfold kBlockSize in *; lia| |].
    + rewrite <- app_assoc. f_equal. f_equal. rewrite (sub_split (concat bs) (block * kBlockSize + off) n avail);
        [|unfold kBlockSize in *; lia|lia].
      f_equal; [rewrite (concat_block bs (Z.to_nat block) b off avail), Z2Nat.id by (try done; lia); done|].
      destruct Hav as (Hav & _ & [-> | ->]).
      * rewrite Z.sub_diag. done.
      * f_equal. lia.
    + unfold kBlockSize in *. destruct Hav as (Hav & _ & [E|E]); lia.
    + unfold kBlockSize in *. destruct Hav as (Hav & _ & [E|E]); lia.
  - assert (n = 0) as -> by lia. unfold sub. by rewrite app_nil_r.
Qed.

(** Reads see the contents: past the end is an error, and a read near the end is short. *)
Lemma Read_ok f offset n :
  file_ok f -> 0 <= offset -> 0 <= n ->
  Read f offset n = Some (if size_ f <? offset then (IOError (str "Offset greater than file size.") [], [])
                          else (OK, sub (contents f) offset n)).
Proof.
  intros Hok Ho Hn. pose proof (blen_contents f Hok) as Hl. destruct Hok as [Hs Hb Hf]. unfold Read.
  destruct (Z.ltb_spec (size_ f) offset) as [|Hle]; [done|].
  set (n' := if size_ f - offset <? n then size_ f - offset else n).
  assert (Hn' : n' = Z.min n (size_ f - offset)) by (unfold n'; case_bool; lia).
  assert (Hsub : sub (contents f) offset n = sub (contents f) offset n').
  { unfold sub. rewrite Hn'. destruct (Z.le_gt_cases n (size_ f - offset)); [by rewrite Z.min_l|].
    rewrite Z.min_r, !take_ge; [done|..]; rewrite ?length_drop; unfold blen in Hl; lia. }
  rewrite Hsub. destruct (Z.eqb_spec n' 0) as [->|Hnz]; [done|].
  assert (Hcut : sub (contents f) offset n' = sub (concat (blocks_ f)) offset n').
  { unfold sub, contents. rewrite skipn_firstn_comm, take_take. f_equal. lia. }
  pose proof (Z.div_mod offset kBlockSize ltac:(done)) as Hdm.
  pose proof (Z.mod_pos_bound offset kBlockSize ltac:(done)) as Hmod.
  assert (Hq : 0 <= offset / kBlockSize) by (apply Z.div_pos; [done|unfold kBlockSize; lia]).
  assert (Hfit : offset + n' <= blen (blocks_ f) * kBlockSize) by (destruct Hf as [Hf|[E _]]; lia).
  rewrite Hcut. case_bool.
  - destruct (lookup_lt_is_Some_2 (blocks_ f) (Z.to_nat (offset / kBlockSize))) as [b Hbk].
    { unfold blen, kBlockSize in *. nia. }
    rewrite Hbk. cbn [mbind option_bind]. rewrite (concat_block _ _ _ _ _ Hb Hbk) by lia.
    rewrite Z2Nat.id by done. do 3 f_equal. unfold kBlockSize in *. lia.
  - rewrite (read_loop_ok _ Hb); try (unfold kBlockSize in *; lia).
    + cbn [mbind option_bind app]. do 3 f_equal. unfold kBlockSize in *. lia.
    + unfold blen, kBlockSize in *. lia.
Qed.

(** One round of [Append]. *)
Lemma append_round f src :
  file_ok f -> src <> [] -> size_ f + blen src < 2 ^ 64 ->
  exists f' avail, 0 < avail <= blen src /\ file_ok f' /\ refs_ f' = refs_ f /\
    size_ f' = size_ f + avail /\ contents f' = contents f ++ take (Z.to_nat avail) src /\
    forall fuel, append_loop (S fuel) f src = append_loop fuel f' (drop (Z.to_nat avail) src).
Proof.
  intros Hok Hne Hfit. pose proof (blen_contents f Hok) as Hlc. destruct Hok as [Hs Hb Hf].
  assert (Hpos : 0 < blen src) by (destruct src; [done|blia]).
  pose proof (Z.mod_pos_bound (size_ f) kBlockSize ltac:(done)) as Hmod.
  pose proof (Z.div_mod (size_ f) kBlockSize ltac:(done)) as Hdm.
  set (off := size_ f mod kBlockSize) in *.
  set (blocks := if negb (off =? 0) then blocks_ f else blocks_ f ++ [junk (length (blocks_ f))]).
  set (room := kBlockSize - off).
  set (avail := if blen src <? room then blen src else room).
  assert (Hav : 0 < avail <= blen src /\ avail <= room) by (unfold avail, room; case_bool; lia).
  assert (Hbl : forall b, b ∈ blocks -> blen b = kBlockSize).
  { unfold blocks. destruct (negb (off =? 0)); [done|]. intros b [Hin|Hin%list_elem_of_singleton]%elem_of_app; [by apply Hb|].
    subst b. apply junk_size. }
  assert (Hnum : blen blocks = size_ f / kBlockSize + 1).
  { unfold blocks. destruct (Z.eqb_spec off 0) as [E|E]; cbn [negb].
    - rewrite blen_app. change (blen [junk (length (blocks_ f))]) with 1.
      destruct Hf as [Hf|[E0 ->]]; [unfold kBlockSize in *; nia|]. rewrite E0. done.
    - destruct Hf as [Hf|[E0 _]]; [unfold kBlockSize in *; nia|]. unfold off in E. by rewrite E0 in E. }
  destruct (last blocks) as [b|] eqn:Elast.
  2: { apply last_None in Elast. rewrite Elast in Hnum. change (blen []) with 0 in Hnum.
       assert (0 <= size_ f / kBlockSize) by (apply Z.div_pos; [lia|unfold kBlockSize; lia]). lia. }
  pose proof (proj1 (last_Some _ _) Elast) as [init Hinit].
  assert (Hbb : blen b = kBlockSize) by (apply Hbl; rewrite Hinit; set_solver).
  set (d := take (Z.to_nat avail) src). assert (Hd : blen d = avail) by (unfold d; rewrite blen_take; lia).
  set (b' := copy_into b off d). assert (Hb' : blen b' = kBlockSize).
  { unfold b', copy_into. rewrite !blen_app, blen_take, blen_drop. unfold blen in *. lia. }
  assert (Hins : <[(length blocks - 1)%nat := b']> blocks = init ++ [b']).
  { rewrite Hinit, length_app. cbn [length]. replace (length init + 1 - 1)%nat with (length init + 0)%nat by lia.
    by rewrite insert_app_r. }
  assert (Hi : blen init = size_ f / kBlockSize) by (rewrite Hinit in Hnum; unfold blen in *; rewrite length_app in Hnum; cbn [length] in Hnum; lia).
  assert (Hci : blen (concat init) = size_ f - off).
  { rewrite blen_concat; [unfold kBlockSize in *; lia|]. intros x Hx. apply Hbl. rewrite Hinit. set_solver. }
  exists {| refs_ := refs_ f; blocks_ := init ++ [b']; size_ := size_ f + avail |}, avail.
  split; [lia|]. split; [|split; [done|split; [done|split]]].
  - split; cbn [size_ blocks_].
    + lia.
    + intros x [Hx|Hx%list_elem_of_singleton]%elem_of_app; [apply Hbl; rewrite Hinit; set_solver|by subst].
    + left. rewrite blen_app, Hi. change (blen [b']) with 1. unfold room in Hav.
      clear -Hav Hmod Hdm. clearbody avail off. unfold kBlockSize in *. lia.
  - unfold contents. cbn [size_ blocks_]. rewrite concat_app. cbn [concat]. rewrite app_nil_r.
    assert (Hold : take (Z.to_nat (size_ f)) (concat (blocks_ f)) = concat init ++ take (Z.to_nat off) b).
    { unfold blocks in Hinit. destruct (Z.eqb_spec off 0) as [E|E]; cbn [negb] in Hinit.
      - apply app_inj_tail in Hinit as [<- _]. rewrite E. cbn [Z.to_nat take]. rewrite app_nil_r.
        apply take_ge. unfold blen in Hci. lia.
      - rewrite Hinit, concat_app. cbn [concat]. rewrite app_nil_r, take_app.
        rewrite take_ge by (unfold blen in Hci; lia). do 2 f_equal. unfold blen in Hci. lia. }
    rewrite Hold. unfold b', copy_into. rewrite <- (app_assoc (concat init)).
    rewrite !(app_assoc (concat init)), (app_assoc _ d). apply take_app_length'.
    rewrite !length_app, length_take. fold d. clear -Hci Hbb Hd Hmod Hs Hav. clearbody d avail off.
    unfold blen in *. lia.
  - intros fuel. cbn [append_loop]. rewrite (proj2 (Z.ltb_lt 0 (blen src))) by done. fold off.
    assert (Hpair : (if negb (off =? 0) then (blocks_ f, kBlockSize - off)
                     else (blocks_ f ++ [junk (length (blocks_ f))], kBlockSize)) = (blocks, room)).
    { unfold blocks, room. destruct (Z.eqb_spec off 0) as [->|]; done. }
    rewrite Hpair. fold avail. rewrite Elast. cbn [mbind option_bind]. fold d. fold b'. rewrite Hins.
    by rewrite u64_small by (unfold is_u64; lia).
Qed.

Lemma append_loop_ok : forall fuel f src,
  file_ok f -> size_ f + blen src < 2 ^ 64 -> (length src < fuel)%nat ->
  exists f', append_loop fuel f src = Some f' /\ file_ok f' /\ contents f' = contents f ++ src /\ refs_ f' = refs_ f.
Proof.
  induction fuel as [|fuel IH]; intros f src Hok Hfit Hf; [lia|].
  destruct (decide (src = [])) as [->|Hne].
  - exists f. cbn. by rewrite app_nil_r.
  - destruct (append_round f src Hok Hne Hfit) as (f1 & avail & Hav & Hok1 & Hr1 & Hs1 & Hc1 & ->).
    destruct (IH f1 (drop (Z.to_nat avail) src)) as (f' & -> & Hok' & Hc' & Hr').
    + done.
    + rewrite blen_drop. lia.
    + rewrite length_drop. unfold blen in *. lia.
    + exists f'. split; [done|]. split; [done|]. split; [|by rewrite Hr'].
      by rewrite Hc', Hc1, <- app_assoc, take_drop.
Qed.
End File.
End FileState.

(** ** The environment *)

Import FileState.

Section Env.

(** The file objects that are allocated, by address, and the names; a null pointer in
    the map is [None]. *)
Record InMemoryEnv := { file_map_ : gmap (list Z) (option nat); objects : gmap nat FileState }.

Definition set_map (e : InMemoryEnv) (m : gmap (list Z) (option nat)) : InMemoryEnv :=
  {| file_map_ := m; objects := objects e |}.
Definition set_objects (e : InMemoryEnv) (o : gmap nat FileState) : InMemoryEnv :=
  {| file_map_ := file_map_ e; objects := o |}.

(** [p->Ref()] and [p->Unref()]. *)
Definition ref_object (o : gmap nat FileState) (p : nat) : option (gmap nat FileState) :=
  f ← o !! p; Some (<[p := Ref f]> o).
Definition unref_object (o : gmap nat FileState) (p : nat) : option (gmap nat FileState) :=
  f ← o !! p;
  r ← Unref f;
  Some (match r with None => delete p o | Some f => <[p := f]> o end).

Definition not_found (fname : bytes) : Status := IOError fname (str "File not found").

Definition DeleteFileInternal (e : InMemoryEnv) (fname : bytes) : option InMemoryEnv :=
  match file_map_ e !! fname with
  | None => Some e
  | Some ptr =>
      p ← ptr;
      o ← unref_object (objects e) p;
      Some {| file_map_ := delete fname (file_map_ e); objects := o |}
  end.

(** The open files: their file object and, for sequential reads, the position. *)
Record SequentialFileImpl := { sf_file : nat; pos_ : Z }.

(** [NewSequentialFile] and [NewRandomAccessFile] open the object under the name. *)
Definition open_file (e : InMemoryEnv) (fname : bytes) : option (Status * option nat * InMemoryEnv) :=
  match file_map_ e !! fname with
  | None => Some (not_found fname, None, e)
  | Some ptr =>
      p ← ptr;
      o ← ref_object (objects e) p;
      Some (OK, Some p, set_objects e o)
  end.
Definition NewSequentialFile (e : InMemoryEnv) (fname : bytes)
    : option (Status * option SequentialFileImpl * InMemoryEnv) :=
  r ← open_file e fname;
  let '(s, p, e) := r in
  Some (s, option_map (fun p => {| sf_file := p; pos_ := 0 |}) p, e).
Definition NewRandomAccessFile (e : InMemoryEnv) (fname : bytes)
    : option (Status * option nat * InMemoryEnv) := open_file e fname.

Definition NewWritableFile (e : InMemoryEnv) (fname : bytes) : option (Status * nat * InMemoryEnv) :=
  e ← match file_map_ e !! fname with
      | None => Some e
      | Some _ => DeleteFileInternal e fname
      end;
  let p := fresh (dom (objects e)) in
  let o := <[p := Ref FileState.new]> (objects e) in
  let m := <[fname := Some p]> (file_map_ e) in
  o ← ref_object o p;
  Some (OK, p, {| file_map_ := m; objects := o |}).

(** The destructors of the open files. *)
Definition close_file (e : InMemoryEnv) (p : nat) : option InMemoryEnv :=
  o ← unref_object (objects e) p; Some (set_objects e o).

Definition SequentialFile_Read (e : InMemoryEnv) (s : SequentialFileImpl) (n : Z)
    : option (Status * bytes * SequentialFileImpl) :=
  f ← objects e !! sf_file s;
  r ← FileState.Read f (pos_ s) n;
  let '(st, result) := r in
  Some (st, result, if ok st then {| sf_file := sf_file s; pos_ := u64 (pos_ s + blen result) |} else s).
Definition SequentialFile_Skip (e : InMemoryEnv) (s : SequentialFileImpl) (n : Z)
    : option (Status * SequentialFileImpl) :=
  f ← objects e !! sf_file s;
  if Size f <? pos_ s then Some (IOError (str "pos_ > file_->Size()") [], s)
  else
    let available := Size f - pos_ s in
    let n := if available <? n then available else n in
    Some (OK, {| sf_file := sf_file s; pos_ := u64 (pos_ s + n) |}).
Definition RandomAccessFile_Read (e : InMemoryEnv) (p : nat) (offset n : Z) : option (Status * bytes) :=
  f ← objects e !! p; FileState.Read f offset n.
Definition WritableFile_Append (junk : nat -> bytes) (e : InMemoryEnv) (p : nat) (data : bytes) : option (Status * InMemoryEnv) :=
  f ← objects e !! p;
  r ← FileState.Append junk f data;
  let '(s, f) := r in Some (s, set_objects e (<[p := f]> (objects e))).
Definition WritableFile_Close (p : nat) : Status := OK.
Definition WritableFile_Sync (p : nat) : Status := OK.

Definition FileExists (e : InMemoryEnv) (fname : bytes) : bool :=
  match file_map_ e !! fname with None => false | Some _ => true end.

(** The names of a [std::map] in order. *)
Definition name_le (a b : list Z) : Prop := Slice_compare a b <= 0.
#[export] Instance name_le_dec a b : Decision (name_le a b).
Proof. unfold name_le. apply _. Defined.
Definition GetChildren (e : InMemoryEnv) (dir : bytes) : Status * list bytes :=
  (OK, omap (fun filename =>
         if (blen dir + 1 <=? blen filename) && (at_ filename (blen dir) =? 47) && starts_with filename dir
         then Some (drop (length dir + 1) filename) else None)
       (merge_sort name_le (map_to_list (file_map_ e)).*1)).

Definition DeleteFile (e : InMemoryEnv) (fname : bytes) : option (Status * InMemoryEnv) :=
  match file_map_ e !! fname with
  | None => Some (not_found fname, e)
  | Some _ => e ← DeleteFileInternal e fname; Some (OK, e)
  end.
Definition CreateDir (e : InMemoryEnv) (dirname : bytes) : Status := OK.
Definition DeleteDir (e : InMemoryEnv) (dirname : bytes) : Status := OK.

Definition GetFileSize (e : InMemoryEnv) (fname : bytes) : option (Status * option Z) :=
  match file_map_ e !! fname with
  | None => Some (not_found fname, None)
  | Some ptr => p ← ptr; f ← objects e !! p; Some (OK, Some (Size f))
  end.

(** [file_map_\[target\] = file_map_\[src\]]: a missing source reads as a null pointer. *)
Definition RenameFile (e : InMemoryEnv) (src target : bytes) : option (Status * InMemoryEnv) :=
  match file_map_ e !! src with
  | None => Some (not_found src, e)
  | Some _ =>
      e ← DeleteFileInternal e target;
      let p := match file_map_ e !! src with Some p => p | None => None end in
      Some (OK, set_map e (delete src (<[target := p]> (file_map_ e))))
  end.

(** [~InMemoryEnv]: the names give back their references. *)
Fixpoint unref_all (o : gmap nat FileState) (ps : list (option nat)) : option (gmap nat FileState) :=
  match ps with
  | [] => Some o
  | p :: ps => p ← p; o ← unref_object o p; unref_all o ps
  end.
Definition InMemoryEnv_destroy (e : InMemoryEnv) : option (gmap nat FileState) :=
  unref_all (objects e) (map_to_list (file_map_ e)).*2.

(** ** What the environment promises: a file system

    A name points to a file; a file is a byte string that lives as long as it has a name or
    is open. *)

Record Fs := { names : gmap (list Z) nat; data : gmap nat (list Z); opened : gmultiset nat }.

Definition alive (a : Fs) (p : nat) : Prop := p ∈ (map_img (names a) : gset nat) \/ p ∈ opened a.
#[export] Instance alive_dec a p : Decision (alive a p).
Proof. unfold alive. apply _. Defined.
Definition gc (a : Fs) (p : nat) : Fs :=
  if decide (alive a p) then a else {| names := names a; data := delete p (data a); opened := opened a |}.

Definition fs_unlink (a : Fs) (n : bytes) : Fs :=
  match names a !! n with
  | None => a
  | Some p => gc {| names := delete n (names a); data := data a; opened := opened a |} p
  end.
Definition fs_create (a : Fs) (n : bytes) (p : nat) : Fs :=
  let a := fs_unlink a n in
  {| names := <[n := p]> (names a); data := <[p := []]> (data a); opened := opened a ⊎ {[+ p +]} |}.
Definition fs_open (a : Fs) (p : nat) : Fs :=
  {| names := names a; data := data a; opened := opened a ⊎ {[+ p +]} |}.
Definition fs_close (a : Fs) (p : nat) : Fs :=
  gc {| names := names a; data := data a; opened := opened a ∖ {[+ p +]} |} p.
Definition fs_append (a : Fs) (p : nat) (d : bytes) : Fs :=
  {| names := names a; data := alter (fun old => old ++ d) p (data a); opened := opened a |}.
Definition fs_rename (a : Fs) (src target : bytes) : Fs :=
  match names a !! src with
  | None => a
  | Some p =>
      let a := fs_unlink a target in
      {| names := delete src (<[target := p]> (names a)); data := data a; opened := opened a |}
  end.

(** ** The representation *)

Implicit Types (o : gmap nat FileState) (a : Fs) (p q : nat) (n : list Z).

Definition cnt a p : Z :=
  Z.of_nat (multiplicity p (opened a)) + (if decide (p ∈ (map_img (names a) : gset nat)) then 1 else 0).

(** The objects are counted by the names and the open files; [debt] is a reference that is
    still to be given back. *)
Record objects_ok o a (debt : option nat) : Prop := {
  obj_files : forall p f, o !! p = Some f ->
    file_ok f /\ refs_ f = cnt a p + (if decide (debt = Some p) then 1 else 0) /\ 0 < refs_ f;
  obj_data : contents <$> o = data a;
  obj_named : forall n p, names a !! n = Some p -> is_Some (o !! p);
  obj_open : forall p, p ∈ opened a -> is_Some (o !! p);
}.
Record rep (e : InMemoryEnv) a : Prop := {
  rep_map : file_map_ e = Some <$> names a;
  rep_inj : forall n n' p, names a !! n = Some p -> names a !! n' = Some p -> n = n';
  rep_objects : objects_ok (objects e) a None;
}.

Lemma cnt_pos a p : 0 < cnt a p <-> alive a p.
Proof.
  unfold cnt, alive. rewrite elem_of_multiplicity. case_decide; split; intros H1.
  - by left.
  - lia.
  - right. lia.
  - destruct H1 as [?|H1]; [done|lia].
Qed.

Lemma unref_object_ok o a p :
  objects_ok o a (Some p) -> is_Some (o !! p) ->
  exists o', unref_object o p = Some o' /\ objects_ok o' (gc a p) None.
Proof.
  intros [Hf Hd Hn Ho] [f Ef]. destruct (Hf p f Ef) as (Hok & Hr & Hpos). rewrite decide_True in Hr by done.
  unfold unref_object. rewrite Ef. cbn [mbind option_bind]. unfold Unref.
  assert (Hc : 0 <= cnt a p) by (unfold cnt; case_decide; lia).
  rewrite (proj2 (Z.ltb_ge (refs_ f - 1) 0)) by lia. pose proof (cnt_pos a p) as Hal. unfold gc.
  assert (Hoth : forall q g, q <> p -> o !! q = Some g -> file_ok g /\ refs_ g = cnt a q + 0 /\ 0 < refs_ g).
  { intros q g Hq Eg. destruct (Hf q g Eg) as (H1 & H2 & H3). rewrite decide_False in H2 by congruence. done. }
  destruct (Z.leb_spec (refs_ f - 1) 0) as [Hz|Hnz]; cbn [mbind option_bind]; eexists; (split; [done|]).
  - rewrite decide_False by (rewrite <- Hal; lia). split; cbn.
    + intros q g [Hq Eg]%lookup_delete_Some. rewrite decide_False by done. by apply Hoth.
    + by rewrite fmap_delete, Hd.
    + intros n q Hq. rewrite lookup_delete_ne; [by eapply Hn|]. intros <-.
      assert (alive a p) as Hp by (left; by eapply elem_of_map_img_2). apply Hal in Hp. lia.
    + intros q Hq. rewrite lookup_delete_ne; [by eapply Ho|]. intros <-.
      assert (alive a p) as Hp by by right. apply Hal in Hp. lia.
  - rewrite decide_True by (rewrite <- Hal; lia). split; cbn.
    + intros q g Eg. rewrite decide_False by done. destruct (decide (q = p)) as [->|Hq].
      * rewrite lookup_insert_eq in Eg. injection Eg as <-. cbn. split_and!; [|lia|lia]. destruct Hok. by split.
      * rewrite lookup_insert_ne in Eg by done. by apply Hoth.
    + rewrite fmap_insert, <- Hd. apply insert_id. rewrite lookup_fmap, Ef. done.
    + intros n q Hq. apply Hn in Hq. destruct (decide (q = p)) as [->|]; [rewrite lookup_insert_eq; by eexists|by rewrite lookup_insert_ne].
    + intros q Hq. apply Ho in Hq. destruct (decide (q = p)) as [->|]; [rewrite lookup_insert_eq; by eexists|by rewrite lookup_insert_ne].
Qed.

(** The names without one of them. *)
Lemma img_delete e a n p q :
  rep e a -> names a !! n = Some p -> q ∈ (map_img (delete n (names a)) : gset nat) <-> q ∈ (map_img (names a) : gset nat) /\ q <> p.
Proof.
  intros Hr Hn. rewrite !elem_of_map_img. split.
  - intros [m [Hm Hq]%lookup_delete_Some]. split; [by exists m|]. intros ->. apply Hm. by eapply rep_inj.
  - intros [[m Hm] Hq]. exists m. apply lookup_delete_Some. split; [|done]. intros <-. congruence.
Qed.

Lemma DeleteFileInternal_ok e a n :
  rep e a -> exists e', DeleteFileInternal e n = Some e' /\ rep e' (fs_unlink a n).
Proof.
  intros Hr. unfold DeleteFileInternal, fs_unlink. rewrite (rep_map _ _ Hr), lookup_fmap.
  destruct (names a !! n) as [p|] eqn:En; cbn [fmap option_fmap option_map]; [|by exists e].
  cbn [mbind option_bind]. set (a1 := {| names := delete n (names a); data := data a; opened := opened a |}).
  pose proof (rep_objects _ _ Hr) as Hob.
  destruct (unref_object_ok (objects e) a1 p) as (o' & Hu & Hob').
  - split; cbn; try apply Hob.
    + intros q f Ef. destruct (obj_files _ _ _ Hob q f Ef) as (H1 & H2 & H3). split_and!; [done| |done].
      rewrite decide_False in H2 by done. rewrite H2. unfold cnt. cbn.
      pose proof (img_delete e a n p q Hr En) as Himg. destruct (decide (q = p)) as [->|Hq].
      * rewrite (decide_True (P := Some p = Some p)) by done.
        rewrite decide_True by (by eapply elem_of_map_img_2). rewrite decide_False by tauto. lia.
      * rewrite (decide_False (P := Some p = Some q)) by congruence. do 2 case_decide; try tauto; lia.
    + intros m q [_ Hm]%lookup_delete_Some. by eapply (obj_named _ _ _ Hob).
  - by eapply (obj_named _ _ _ Hob).
  - rewrite Hu. cbn [mbind option_bind]. eexists. split; [done|].
    assert (Hnm : names (gc a1 p) = delete n (names a)) by (unfold gc; by case_decide).
    split; cbn.
    + by rewrite Hnm, fmap_delete.
    + intros m m' q. rewrite Hnm. intros [_ Hm]%lookup_delete_Some [_ Hm']%lookup_delete_Some. by eapply (rep_inj _ _ Hr).
    + done.
Qed.

Lemma ref_object_ok o a p f :
  objects_ok o a None -> o !! p = Some f ->
  ref_object o p = Some (<[p := Ref f]> o) /\ objects_ok (<[p := Ref f]> o) (fs_open a p) None.
Proof.
  intros Hob Ef. unfold ref_object. rewrite Ef. split; [done|].
  assert (Hcnt : forall q, cnt (fs_open a p) q = cnt a q + (if decide (q = p) then 1 else 0)).
  { intros q. unfold cnt, fs_open. cbn. rewrite multiplicity_disj_union, multiplicity_singleton. do 2 case_decide; lia. }
  assert (Hsome : forall q, is_Some (o !! q) -> is_Some (<[p := Ref f]> o !! q)).
  { intros q Hq. destruct (decide (q = p)) as [->|]; [rewrite lookup_insert_eq; by eexists|by rewrite lookup_insert_ne]. }
  split; cbn [names data opened fs_open].
  - intros q g Eg. rewrite Hcnt. destruct (decide (q = p)) as [->|Hq].
    + rewrite lookup_insert_eq in Eg. injection Eg as <-. destruct (obj_files _ _ _ Hob p f Ef) as (H1 & H2 & H3).
      rewrite (decide_False (P := None = Some p)) in * by done. cbn. split_and!; [by destruct H1|lia|lia].
    + rewrite lookup_insert_ne in Eg by done. rewrite Z.add_0_r. by apply (obj_files _ _ _ Hob).
  - rewrite fmap_insert, <- (obj_data _ _ _ Hob). apply insert_id. by rewrite lookup_fmap, Ef.
  - intros n q Hn. by eapply Hsome, (obj_named _ _ _ Hob).
  - intros q [Hq|Hq%gmultiset_elem_of_singleton]%gmultiset_elem_of_disj_union; apply Hsome; [by apply (obj_open _ _ _ Hob)|].
    subst q. by exists f.
Qed.

Lemma open_file_ok e a n :
  rep e a -> match names a !! n with
  | None => open_file e n = Some (not_found n, None, e)
  | Some p => exists e', open_file e n = Some (OK, Some p, e') /\ rep e' (fs_open a p)
  end.
Proof.
  intros Hr. unfold open_file. rewrite (rep_map _ _ Hr), lookup_fmap. destruct (names a !! n) as [p|] eqn:En; [|done].
  cbn [fmap option_fmap option_map mbind option_bind].
  destruct (obj_named _ _ _ (rep_objects _ _ Hr) n p En) as [f Ef].
  destruct (ref_object_ok _ a p f (rep_objects _ _ Hr) Ef) as [-> Hob]. cbn [mbind option_bind].
  eexists. split; [done|]. split; [apply Hr..|done].
Qed.

Lemma fs_unlink_names a n : names (fs_unlink a n) = delete n (names a).
Proof.
  unfold fs_unlink. destruct (names a !! n) as [p|] eqn:E; [|by rewrite delete_id].
  unfold gc. by case_decide.
Qed.

Lemma create_ok e a n :
  rep e a -> names a !! n = None -> let p := fresh (dom (objects e)) in
  data a !! p = None /\
  objects_ok (<[p := Ref (Ref FileState.new)]> (objects e))
    {| names := <[n := p]> (names a); data := <[p := []]> (data a); opened := opened a ⊎ {[+ p +]} |} None /\
  (forall m, names a !! m <> Some p).
Proof.
  intros Hr Hn p. pose proof (rep_objects _ _ Hr) as Hob.
  assert (Hp : objects e !! p = None) by (apply not_elem_of_dom, is_fresh). clearbody p.
  assert (Hnm : forall m, names a !! m <> Some p) by (intros m Hm; apply (obj_named _ _ _ Hob) in Hm as [? ?]; congruence).
  split; [by rewrite <- (obj_data _ _ _ Hob), lookup_fmap, Hp|]. split; [|done].
  assert (Himg : forall q, q ∈ (map_img (<[n := p]> (names a)) : gset nat) <-> q = p \/ q ∈ (map_img (names a) : gset nat)).
  { intros q. rewrite map_img_insert_notin_L by done. set_solver. }
  assert (Hsome : forall q (f : FileState), is_Some (objects e !! q) -> is_Some (<[p := f]> (objects e) !! q)).
  { intros q f Hq. destruct (decide (q = p)) as [->|]; [rewrite lookup_insert_eq; by eexists|by rewrite lookup_insert_ne]. }
  split; cbn [names data opened].
  - intros q g Eg. rewrite (decide_False (P := None = Some q)) by done. unfold cnt. cbn [opened names].
    rewrite multiplicity_disj_union, multiplicity_singleton. destruct (decide (q = p)) as [->|Hq].
    + rewrite lookup_insert_eq in Eg. injection Eg as <-. cbn. rewrite decide_True by (apply Himg; by left).
      assert (multiplicity p (opened a) = 0%nat) as ->.
      { destruct (decide (p ∈ opened a)) as [Hin|Hin]; [apply (obj_open _ _ _ Hob) in Hin as [? ?]; congruence|].
        rewrite elem_of_multiplicity in Hin. lia. }
      split_and!; [|lia|lia]. split; [cbn; lia|by intros ? ?%elem_of_nil|by right].
    + rewrite lookup_insert_ne in Eg by done. destruct (obj_files _ _ _ Hob q g Eg) as (H1 & H2 & H3).
      rewrite decide_False in H2 by done. unfold cnt in H2. split_and!; [done| |done]. rewrite H2.
      pose proof (Himg q) as Hi. do 2 case_decide; try tauto; lia.
  - by rewrite fmap_insert, (obj_data _ _ _ Hob).
  - intros m q [[<- <-]|[_ Hm]]%lookup_insert_Some; [rewrite lookup_insert_eq; by eexists|].
    by eapply Hsome, (obj_named _ _ _ Hob).
  - intros q [Hq|Hq%gmultiset_elem_of_singleton]%gmultiset_elem_of_disj_union.
    + by apply Hsome, (obj_open _ _ _ Hob).
    + subst q. rewrite lookup_insert_eq. by eexists.
Qed.

Lemma NewWritableFile_ok e a n :
  rep e a -> exists p e', NewWritableFile e n = Some (OK, p, e') /\ data (fs_unlink a n) !! p = None /\ rep e' (fs_create a n p).
Proof.
  intros Hr. unfold NewWritableFile.
  assert (exists e1, match file_map_ e !! n with None => Some e | Some _ => DeleteFileInternal e n end = Some e1 /\ rep e1 (fs_unlink a n))
    as (e1 & -> & Hr1).
  { destruct (DeleteFileInternal_ok e a n Hr) as (e1 & Hd & Hr1). destruct (file_map_ e !! n) eqn:E; [by exists e1|].
    exists e. split; [done|]. unfold DeleteFileInternal in Hd. rewrite E in Hd. by injection Hd as <-. }
  cbn [mbind option_bind]. destruct (create_ok e1 (fs_unlink a n) n Hr1) as (Hdat & Hob & Hnm).
  { by rewrite fs_unlink_names, lookup_delete_eq. }
  set (p := fresh (dom (objects e1))) in *. clearbody p. unfold ref_object. rewrite lookup_insert_eq. cbn [mbind option_bind].
  rewrite insert_insert_eq. exists p. eexists. split; [done|]. split; [done|]. split; cbn.
  - by rewrite (rep_map _ _ Hr1), fmap_insert.
  - intros m m' q [[<- <-]|[Hm Hq]]%lookup_insert_Some [[<- Hp]|[Hm' Hq']]%lookup_insert_Some; try done.
    + by apply Hnm in Hq'.
    + subst q. by apply Hnm in Hq.
    + by eapply (rep_inj _ _ Hr1).
  - done.
Qed.

Lemma close_file_ok e a p :
  rep e a -> p ∈ opened a -> exists e', close_file e p = Some e' /\ rep e' (fs_close a p).
Proof.
  intros Hr Hp. pose proof (rep_objects _ _ Hr) as Hob. unfold close_file, fs_close.
  set (a1 := {| names := names a; data := data a; opened := opened a ∖ {[+ p +]} |}).
  destruct (unref_object_ok (objects e) a1 p) as (o' & -> & Hob').
  - split; cbn; try apply Hob.
    + intros q f Ef. destruct (obj_files _ _ _ Hob q f Ef) as (H1 & H2 & H3). split_and!; [done| |done].
      rewrite decide_False in H2 by done. rewrite H2. unfold cnt. cbn.
      rewrite multiplicity_difference, multiplicity_singleton. rewrite elem_of_multiplicity in Hp.
      destruct (decide (q = p)) as [->|Hq].
      * rewrite (decide_True (P := Some p = Some p)) by done. case_decide; lia.
      * rewrite (decide_False (P := Some p = Some q)) by congruence. case_decide; lia.
    + intros q Hq. apply (obj_open _ _ _ Hob). rewrite elem_of_multiplicity in *.
      rewrite multiplicity_difference in Hq. lia.
  - by apply (obj_open _ _ _ Hob).
  - cbn [mbind option_bind]. eexists. split; [done|].
    assert (Hnm : names (gc a1 p) = names a) by (unfold gc; by case_decide).
    split; cbn; [by rewrite Hnm, (rep_map _ _ Hr)|rewrite Hnm; apply Hr|done].
Qed.

Context (junk : nat -> bytes) (junk_size : forall i, blen (junk i) = kBlockSize).

Lemma Append_ok e a p f d :
  rep e a -> objects e !! p = Some f -> size_ f + blen d < 2 ^ 64 ->
  exists e', WritableFile_Append junk e p d = Some (OK, e') /\ rep e' (fs_append a p d).
Proof.
  intros Hr Ef Hfit. pose proof (rep_objects _ _ Hr) as Hob.
  destruct (obj_files _ _ _ Hob p f Ef) as (Hok & Hrf & Hpos).
  destruct (append_loop_ok junk junk_size (S (length d)) f d Hok Hfit) as (f' & Ha & Hok' & Hc' & Hr'); [lia|].
  unfold WritableFile_Append, FileState.Append. rewrite Ef. cbn [mbind option_bind]. rewrite Ha. cbn [mbind option_bind].
  eexists. split; [done|]. split; cbn; try apply Hr. split; cbn [names data opened fs_append].
  - intros q g Eg. destruct (decide (q = p)) as [->|Hq].
    + rewrite lookup_insert_eq in Eg. injection Eg as <-. rewrite Hr'. done.
    + rewrite lookup_insert_ne in Eg by done. by apply (obj_files _ _ _ Hob).
  - rewrite <- (obj_data _ _ _ Hob). apply map_eq. intros q. destruct (decide (q = p)) as [->|Hq].
    + by rewrite lookup_fmap, lookup_alter_eq, lookup_insert_eq, lookup_fmap, Ef; cbn; rewrite Hc'.
    + by rewrite lookup_fmap, lookup_alter_ne, lookup_insert_ne, lookup_fmap by done.
  - intros m q Hm. apply (obj_named _ _ _ Hob) in Hm. destruct (decide (q = p)) as [->|]; [rewrite lookup_insert_eq; by eexists|by rewrite lookup_insert_ne].
  - intros q Hq. apply (obj_open _ _ _ Hob) in Hq. destruct (decide (q = p)) as [->|]; [rewrite lookup_insert_eq; by eexists|by rewrite lookup_insert_ne].
Qed.

Lemma Rename_ok e a src target :
  rep e a -> src <> target -> exists e',
    RenameFile e src target = Some (match names a !! src with None => not_found src | Some _ => OK end, e') /\
    rep e' (fs_rename a src target).
Proof.
  intros Hr Hne. unfold RenameFile, fs_rename. rewrite (rep_map _ _ Hr), lookup_fmap.
  destruct (names a !! src) as [p|] eqn:Es; cbn [fmap option_fmap option_map]; [|by exists e].
  destruct (DeleteFileInternal_ok e a target Hr) as (e1 & -> & Hr1). cbn [mbind option_bind].
  assert (Hs1 : names (fs_unlink a target) !! src = Some p) by (rewrite fs_unlink_names, lookup_delete_ne; done).
  assert (Ht1 : names (fs_unlink a target) !! target = None) by (by rewrite fs_unlink_names, lookup_delete_eq).
  rewrite (rep_map _ _ Hr1), lookup_fmap, Hs1. cbn [fmap option_fmap option_map].
  eexists. split; [done|]. set (a1 := fs_unlink a target) in *. clearbody a1.
  assert (Himg : (map_img (delete src (<[target := p]> (names a1))) : gset nat) = map_img (names a1)).
  { apply set_eq. intros q. rewrite !elem_of_map_img. split.
    - intros [m [Hm Hq]%lookup_delete_Some]. apply lookup_insert_Some in Hq as [[<- <-]|[_ Hq]]; eauto.
    - intros [m Hm]. destruct (decide (m = src)) as [->|Hms].
      + exists target. rewrite lookup_delete_ne, lookup_insert_eq by done. congruence.
      + exists m. rewrite lookup_delete_ne by done. rewrite lookup_insert_ne; [done|]. intros <-. congruence. }
  split; cbn.
  - by rewrite fmap_delete, fmap_insert.
  - intros m m' q [Hm Hq]%lookup_delete_Some [Hm' Hq']%lookup_delete_Some.
    apply lookup_insert_Some in Hq as [[<- <-]|[Hmt Hq]]; apply lookup_insert_Some in Hq' as [[<- Hp]|[Hmt' Hq']]; try done.
    + destruct Hm'. by eapply (rep_inj _ _ Hr1).
    + subst q. destruct Hm. by eapply (rep_inj _ _ Hr1).
    + by eapply (rep_inj _ _ Hr1).
  - destruct (rep_objects _ _ Hr1) as [H1 H2 H3 H4]. split; cbn; try done.
    + intros q f Ef. destruct (H1 q f Ef) as (? & Hrf & ?). split_and!; try done. rewrite Hrf. unfold cnt. cbn. by rewrite Himg.
    + intros m q [Hm Hq]%lookup_delete_Some. apply lookup_insert_Some in Hq as [[<- <-]|[_ Hq]]; by eapply H3.
Qed.

Lemma opened_data e a p :
  rep e a -> p ∈ opened a -> exists f, objects e !! p = Some f /\ file_ok f /\ data a !! p = Some (contents f) /\
    blen (contents f) = size_ f.
Proof.
  intros Hr Hp. pose proof (rep_objects _ _ Hr) as Hob. destruct (obj_open _ _ _ Hob p Hp) as [f Ef].
  destruct (obj_files _ _ _ Hob p f Ef) as (Hok & _ & _). exists f. split_and!; try done.
  - by rewrite <- (obj_data _ _ _ Hob), lookup_fmap, Ef.
  - by apply blen_contents.
Qed.


(** Sequential reads follow each other. *)
Lemma sequential_read e a p pos (n : Z) d :
  rep e a -> p ∈ opened a -> data a !! p = Some d -> 0 <= pos <= blen d -> 0 <= n ->
  SequentialFile_Read e {| sf_file := p; pos_ := pos |} n =
    Some (OK, sub d pos n, {| sf_file := p; pos_ := pos + blen (sub d pos n) |}).
Proof.
  intros Hr Hp Hd Hpos Hn. destruct (opened_data e a p Hr Hp) as (f & Ef & Hok & Hd' & Hl).
  rewrite Hd in Hd'. injection Hd' as ->. unfold SequentialFile_Read. cbn [sf_file pos_]. rewrite Ef. cbn [mbind option_bind].
  rewrite Read_ok, (proj2 (Z.ltb_ge _ _)) by (try done; lia). cbn [mbind option_bind ok OK].
  rewrite u64_small; [done|]. pose proof (file_size _ Hok). unfold sub. rewrite blen_take, blen_drop. unfold is_u64.
  pose proof (blen_nonneg (contents f)). lia.
Qed.

(** Renaming a file of the in-memory environment to its own name reports success and
    deletes the file. *)
Theorem memenv_rename_same_deletes e a n p :
  rep e a -> names a !! n = Some p ->
  exists e', RenameFile e n n = Some (OK, e') /\ FileExists e' n = false /\ rep e' (fs_unlink a n).
Proof.
  intros Hr Hn. unfold RenameFile. rewrite (rep_map _ _ Hr), lookup_fmap, Hn. cbn [fmap option_fmap option_map].
  destruct (DeleteFileInternal_ok e a n Hr) as (e1 & -> & Hr1). cbn [mbind option_bind].
  assert (Hnone : file_map_ e1 !! n = None).
  { by rewrite (rep_map _ _ Hr1), lookup_fmap, fs_unlink_names, lookup_delete_eq. }
  rewrite Hnone. eexists. split; [done|]. rewrite delete_insert_id by done.
  split; [unfold FileExists; cbn; by rewrite Hnone|]. destruct e1. exact Hr1.
Qed.

Definition empty_env : InMemoryEnv := {| file_map_ := ∅; objects := ∅ |}.
Definition empty_fs : Fs := {| names := ∅; data := ∅; opened := ∅ |}.
Lemma empty_env_rep : rep empty_env empty_fs.
Proof.
  split; [done|done|]. split; cbn; try done. intros p Hp. by apply gmultiset_elem_of_empty in Hp.
Qed.
End Env.

Definition zero_block (i : nat) : bytes := replicate (Z.to_nat kBlockSize) 0.
Lemma zero_block_size i : blen (zero_block i) = kBlockSize.
Proof. unfold zero_block. by rewrite blen_replicate. Qed.

(** A file of the in-memory environment is a byte string, whatever bytes its blocks start
    with: appending appends (the loop over blocks ends and copies every byte), and reading
    returns the bytes at the offset, fewer at the end, and an error past it. *)
Theorem memfile_refines (junk : nat -> bytes) (f : FileState) :
  (forall i, blen (junk i) = kBlockSize) -> file_ok f ->
  (forall d, size_ f + blen d < 2 ^ 64 ->
     exists f', FileState.Append junk f d = Some (OK, f') /\ file_ok f' /\ contents f' = contents f ++ d) /\
  (forall offset n, 0 <= offset -> 0 <= n -> FileState.Read f offset n =
     Some (if blen (contents f) <? offset then (IOError (str "Offset greater than file size.") [], [])
           else (OK, sub (contents f) offset n))).
Proof.
  intros Hj Hok. split.
  - intros d Hd. destruct (append_loop_ok junk Hj (S (length d)) f d Hok Hd) as (f' & Ha & Hok' & Hc & _); [lia|].
    exists f'. unfold FileState.Append. by rewrite Ha.
  - intros offset n Ho Hn. rewrite (blen_contents f Hok). by apply Read_ok.
Qed.

Lemma memfile_refines_witness :
  exists f', FileState.Append zero_block FileState.new [1; 2; 3] = Some (OK, f') /\ contents f' = [1; 2; 3].
Proof.
  destruct (proj1 (memfile_refines zero_block FileState.new zero_block_size
    ltac:(split; [cbn; lia|by intros ? ?%elem_of_nil|by right])) [1; 2; 3] ltac:(done)) as (f' & Ha & _ & Hc).
  exists f'. split; [exact Ha|exact Hc].
Defined.
Lemma memenv_rename_same_deletes_witness :
  exists e e', FileExists e (str "a") = true /\ RenameFile e (str "a") (str "a") = Some (OK, e') /\ FileExists e' (str "a") = false.
Proof.
  destruct (NewWritableFile_ok empty_env empty_fs (str "a") empty_env_rep) as (p & e & Hn & _ & Hr).
  destruct (memenv_rename_same_deletes e _ (str "a") p Hr (lookup_insert_eq _ _ _)) as (e' & Hrn & Hex & _).
  exists e, e'. split; [|split; [exact Hrn|exact Hex]].
  unfold FileExists. rewrite (rep_map _ _ Hr), lookup_fmap. cbn [names fs_create]. by rewrite lookup_insert_eq.
Defined.
