(* ===== verification/Version.v ===== *)
(** * Versions: the files of a database, by level and guard

    Models the class [Version] of [src/pebblesdb/src/db/version_set.h] and
    [src/pebblesdb/src/db/version_set.cc]: the searches over the files and guards of a
    level, the choice of the files a read must look in, and the statistics of reads.

    The objects [FileMetaData] are shared by the versions that list them: they live in a
    store, and a version lists their addresses ([0] is null).  The guards of a version are
    its own and are held by value. *)

From stdpp Require Import gmap sorting.
From S2P Require Import Prelude Coding Status Comparator DbFormat Bloom VersionEdit MemTable.
From S2P Require Import TableGet.
From stdpp Require Import list.
#[local] Open Scope Z_scope.

(** The store of [FileMetaData] objects; reading through a null pointer gives the
    default object, which no address of a version does ([version_wf] below). *)
Abbreviation Files := (gmap Z FileMetaData).
Definition deref (h : Files) (a : Z) : FileMetaData := default FileMetaData_new (h !! a).
Definition set_refs (f : FileMetaData) (n : Z) : FileMetaData :=
  {| f_refs := n; f_allowed_seeks := f_allowed_seeks f; f_number := f_number f;
     f_file_size := f_file_size f; f_smallest := f_smallest f; f_largest := f_largest f;
     f_guard := f_guard f |}.
Definition set_allowed_seeks (f : FileMetaData) (n : Z) : FileMetaData :=
  {| f_refs := f_refs f; f_allowed_seeks := n; f_number := f_number f;
     f_file_size := f_file_size f; f_smallest := f_smallest f; f_largest := f_largest f;
     f_guard := f_guard f |}.

Record Version := {
  v_refs : Z;
  files_ : list (list Z);
  guards_ : list (list GuardMetaData);
  complete_guards_ : list (list GuardMetaData);
  sentinel_files_ : list (list Z);
  sentinel_file_nos_ : list (list Z);
  num_complete_guards_ : list Z;
  file_to_compact_ : Z;
  file_to_compact_level_ : Z;
  num_files_read : Z;
}.
Definition Version_new : Version :=
  {| v_refs := 0; files_ := no_levels; guards_ := no_levels; complete_guards_ := no_levels;
     sentinel_files_ := no_levels; sentinel_file_nos_ := no_levels;
     num_complete_guards_ := replicate (Z.to_nat kNumLevels) 0;
     file_to_compact_ := 0; file_to_compact_level_ := -1; num_files_read := 0 |}.

(** The element [v\[level\]] of an array of vectors. *)
Definition at_level {A} (v : list (list A)) (level : Z) : list A := nth (Z.to_nat level) v [].

(** ** Searching a level *)

Section Search.
Context (ucmp : Comparator).
Abbreviation icmp := (InternalKey_Compare ucmp).

(** The loop of [FindFile]; [left], [right] and [mid] are [uint32_t]. *)
Fixpoint FindFile_loop (fuel : nat) (files : list FileMetaData) (key : bytes) (left right : Z)
    : option Z :=
  match fuel with
  | O => None
  | S fuel =>
      if left <? right then
        let mid := u32 (left + right) / 2 in
        match files !! Z.to_nat mid with
        | None => None
        | Some f =>
            if icmp (f_largest f) key <? 0 then FindFile_loop fuel files key (u32 (mid + 1)) right
            else FindFile_loop fuel files key left mid
        end
      else Some right
  end.
Definition FindFile (files : list FileMetaData) (key : bytes) : option Z :=
  FindFile_loop (S (length files)) files key 0 (u32 (blen files)).

(** The user key [ParseInternalKey] leaves in its result, whatever it returns. *)
Definition parsed_user_key (key : bytes) : bytes :=
  if blen key <? 8 then [] else take (length key - 8) key.

Definition guard_user_key (g : GuardMetaData) : bytes := ExtractUserKey (g_guard_key g).

Fixpoint FindGuard_loop (fuel : nat) (guards : list GuardMetaData) (ukey : bytes) (left right : Z)
    : option Z :=
  match fuel with
  | O => None
  | S fuel =>
      if left <? right then
        let mid := u32 (left + right) / 2 in
        if u32 (left + 1) =? right then
          match guards !! Z.to_nat right with
          | None => None
          | Some g => Some (if 0 <=? Compare ucmp ukey (guard_user_key g) then right else left)
          end
        else
          match guards !! Z.to_nat mid with
          | None => None
          | Some f =>
              if Compare ucmp ukey (guard_user_key f) <? 0
              then FindGuard_loop fuel guards ukey left (u32 (mid - 1))
              else FindGuard_loop fuel guards ukey mid right
          end
      else Some (if right <? 0 then 0 else right)
  end.
Definition FindGuard (guards : list GuardMetaData) (key : bytes) : option Z :=
  if blen guards =? 0 then Some 0
  else FindGuard_loop (length guards) guards (parsed_user_key key) 0 (u32 (blen guards - 1)).

(** A [const Slice*] is an option: null is [None]. *)
Definition AfterFile (user_key : option bytes) (f : FileMetaData) : bool :=
  match user_key with
  | Some k => 0 <? Compare ucmp k (ExtractUserKey (f_largest f))
  | None => false
  end.
Definition BeforeFile (user_key : option bytes) (f : FileMetaData) : bool :=
  match user_key with
  | Some k => Compare ucmp k (ExtractUserKey (f_smallest f)) <? 0
  | None => false
  end.
Definition AfterGuard (user_key : option bytes) (g : GuardMetaData) : bool :=
  match user_key with
  | Some k => 0 <=? Compare ucmp k (guard_user_key g)
  | None => false
  end.
Definition BeforeGuard (user_key : option bytes) (g : GuardMetaData) : bool :=
  match user_key with
  | Some k => Compare ucmp k (guard_user_key g) <? 0
  | None => false
  end.

(** The test of one guard, at index [i] of [n]; [next] is the guard after it. *)
Definition fits_guard (i n : nat) (g : GuardMetaData) (next : option GuardMetaData)
    (smallest_user_key largest_user_key : option bytes) : bool :=
  if decide (i = 0%nat) then BeforeGuard largest_user_key g
  else if decide (i = n - 1)%nat then AfterGuard smallest_user_key g
  else AfterGuard smallest_user_key g &&
       match next with Some g' => BeforeGuard largest_user_key g' | None => false end.
Definition RangeFitsWithinAGuard (guards : list GuardMetaData)
    (smallest_user_key largest_user_key : option bytes) : bool :=
  existsb (fun i => match guards !! i with
                    | Some g => fits_guard i (length guards) g (guards !! S i)
                                  smallest_user_key largest_user_key
                    | None => false
                    end) (seq 0 (length guards)).

Definition SomeFileOverlapsRange (disjoint_sorted_files : bool) (files : list FileMetaData)
    (smallest_user_key largest_user_key : option bytes) : option bool :=
  if negb disjoint_sorted_files then
    Some (existsb (fun f => negb (AfterFile smallest_user_key f || BeforeFile largest_user_key f)) files)
  else
    index ← match smallest_user_key with
            | Some k => FindFile files (EncodeInternalKey
                          {| user_key := k; sequence := kMaxSequenceNumber; type := kValueTypeForSeek |})
            | None => Some 0
            end;
    if blen files <=? index then Some false
    else match files !! Z.to_nat index with
         | Some f => Some (negb (BeforeFile largest_user_key f))
         | None => None
         end.
End Search.

(** ** Reading through a version *)

(** [std::map<uint64_t, std::string*>]: [operator\[\]] adds a null pointer for a new key. *)
Abbreviation FilterMap := (gmap Z (option (list Z))).
Definition filter_at (m : FilterMap) (n : Z) : option bytes * FilterMap :=
  match m !! n with
  | Some s => (s, m)
  | None => (None, <[n := None]> m)
  end.

(** What a version uses of the table cache: [TableCache::Get], which hands the entry found
    in a table file to a function that updates its argument. *)
Class TableReads (T : Type) := {
  cache_Get : forall A : Type, T -> bool -> bool -> Z -> Z -> bytes -> A -> (A -> bytes -> bytes -> A) ->
    Status * A * T;
}.
Arguments cache_Get {T _ A}.

Record GetStats := { seek_file : Z; seek_file_level : Z }.

(** The variables of [Version::Get] and the parts of the database it changes. *)
Record Reader (T : Type) := {
  rd_cache : T;
  rd_filters : FilterMap;
  rd_value : bytes;
  rd_stats : GetStats;
  rd_last_file_read : Z;
  rd_last_file_read_level : Z;
  rd_num_files_read : Z;
}.
Arguments rd_cache {T}. Arguments rd_filters {T}. Arguments rd_value {T}. Arguments rd_stats {T}.
Arguments rd_last_file_read {T}. Arguments rd_last_file_read_level {T}. Arguments rd_num_files_read {T}.

Definition NewestFirst (a b : FileMetaData) : bool := f_number b <? f_number a.

(** [std::sort] with a strict weak order: elements that are not ordered keep their places. *)
Definition sort_le {A} (lt : A -> A -> bool) (a b : A) : Prop := lt b a = false.
#[export] Instance sort_le_dec {A} (lt : A -> A -> bool) a b : Decision (sort_le lt a b).
Proof. unfold sort_le. apply _. Defined.
Definition std_sort {A} (lt : A -> A -> bool) (l : list A) : list A := merge_sort (sort_le lt) l.

Section Get.
Context (ucmp : Comparator) {T : Type} `{TableReads T} (policy : option FilterPolicy).
Context (h : Files) (verify_checksums fill_cache : bool).

(** We have had more than one seek for this read: charge the first file. *)
Definition charge_seek (r : Reader T) (a level : Z) : Reader T :=
  {| rd_cache := rd_cache r; rd_filters := rd_filters r; rd_value := rd_value r;
     rd_stats := if negb (rd_last_file_read r =? 0) && (seek_file (rd_stats r) =? 0)
                 then {| seek_file := rd_last_file_read r; seek_file_level := rd_last_file_read_level r |}
                 else rd_stats r;
     rd_last_file_read := a; rd_last_file_read_level := level;
     rd_num_files_read := rd_num_files_read r |}.
Definition set_filters (r : Reader T) (m : FilterMap) : Reader T :=
  {| rd_cache := rd_cache r; rd_filters := m; rd_value := rd_value r; rd_stats := rd_stats r;
     rd_last_file_read := rd_last_file_read r; rd_last_file_read_level := rd_last_file_read_level r;
     rd_num_files_read := rd_num_files_read r |}.
Definition set_read (r : Reader T) (t : T) (value : bytes) : Reader T :=
  {| rd_cache := t; rd_filters := rd_filters r; rd_value := value; rd_stats := rd_stats r;
     rd_last_file_read := rd_last_file_read r; rd_last_file_read_level := rd_last_file_read_level r;
     rd_num_files_read := rd_num_files_read r + 1 |}.

(** The status the search of a file ends the read with, if it does. *)
Definition saver_result (s : Saver) : option Status :=
  match sv_state s with
  | kNotFound => None
  | kFound => Some OK
  | kDeleted => Some (NotFound [])
  | kCorrupt => Some (mkStatus kCorruption (str "corrupted key for ") (sv_user_key s))
  end.
Definition read_table (r : Reader T) (f : FileMetaData) (ikey user_key : bytes) : Reader T * option Status :=
  let '(s, saver, t) := cache_Get (rd_cache r) verify_checksums fill_cache (f_number f) (f_file_size f)
                          ikey (new_saver user_key (rd_value r)) (SaveValue ucmp) in
  let r := set_read r t (sv_value saver) in
  if negb (ok s) then (r, Some s) else (r, saver_result saver).
Definition search_file (r : Reader T) (level a : Z) (ikey user_key : bytes)
    : option (Reader T * option Status) :=
  let f := deref h a in
  let r := charge_seek r a level in
  let '(filter, m) := filter_at (rd_filters r) (f_number f) in
  let r := set_filters r m in
  match filter with
  | Some filter_slice =>
      match policy with
      | Some p => if negb (KeyMayMatch p ikey filter_slice) then Some (r, None)
                  else Some (read_table r f ikey user_key)
      | None => None
      end
  | None => Some (read_table r f ikey user_key)
  end.
Fixpoint search_files (r : Reader T) (level : Z) (l : list Z) (ikey user_key : bytes)
    : option (Reader T * option Status) :=
  match l with
  | [] => Some (r, None)
  | a :: l =>
      match search_file r level a ikey user_key with
      | Some (r, None) => search_files r level l ikey user_key
      | res => res
      end
  end.

(** The files of a list whose range holds the key, newest first. *)
Definition in_range (user_key : bytes) (a : Z) : bool :=
  (0 <=? Compare ucmp user_key (ExtractUserKey (f_smallest (deref h a)))) &&
  (Compare ucmp user_key (ExtractUserKey (f_largest (deref h a))) <=? 0).
Definition newest_first (l : list Z) : list Z :=
  std_sort (fun a b => NewestFirst (deref h a) (deref h b)) l.
Definition level_files (v : Version) (level : Z) (ikey user_key : bytes) : option (list Z) :=
  let guards := at_level (guards_ v) level in
  let sentinels := at_level (sentinel_files_ v) level in
  let sentinel := newest_first (filter (fun a => in_range user_key a) sentinels) in
  guard_index ← FindGuard ucmp guards ikey;
  match guards !! Z.to_nat guard_index with
  | None => if blen guards =? 0 then Some sentinel else None
  | Some g =>
      if (guard_index =? 0) && (0 <? Compare ucmp (guard_user_key g) user_key) then Some sentinel
      else if 0 <? g_number_segments g then
        if blen (g_file_metas g) <? g_number_segments g then None
        else Some (newest_first (filter (fun a => negb (a =? 0) && in_range user_key a)
                     (take (Z.to_nat (g_number_segments g)) (g_file_metas g))))
      else Some []
  end.
Fixpoint Get_loop (v : Version) (r : Reader T) (levels : list Z) (ikey user_key : bytes)
    : option (Reader T * option Status) :=
  match levels with
  | [] => Some (r, None)
  | level :: levels =>
      if blen (at_level (files_ v) level) =? 0 then Get_loop v r levels ikey user_key
      else
        l ← level_files v level ikey user_key;
        match search_files r level l ikey user_key with
        | Some (r, None) => Get_loop v r levels ikey user_key
        | res => res
        end
  end.
Definition levels : list Z := seqZ 0 kNumLevels.
Definition Get (v : Version) (t : T) (filters : FilterMap) (k : LookupKey) (value : bytes)
    : option (Status * Reader T) :=
  let r := {| rd_cache := t; rd_filters := filters; rd_value := value;
              rd_stats := {| seek_file := 0; seek_file_level := -1 |};
              rd_last_file_read := 0; rd_last_file_read_level := -1; rd_num_files_read := 0 |} in
  '(r, res) ← Get_loop v r levels (internal_key k) (lookup_user_key k);
  Some (default (NotFound []) res, r).
End Get.

(** ** Statistics of reads *)

Definition set_compact (v : Version) (f level : Z) : Version :=
  {| v_refs := v_refs v; files_ := files_ v; guards_ := guards_ v; complete_guards_ := complete_guards_ v;
     sentinel_files_ := sentinel_files_ v; sentinel_file_nos_ := sentinel_file_nos_ v;
     num_complete_guards_ := num_complete_guards_ v; file_to_compact_ := f;
     file_to_compact_level_ := level; num_files_read := num_files_read v |}.
Definition UpdateStats (h : Files) (v : Version) (stats : GetStats) : Files * Version * bool :=
  let f := seek_file stats in
  if f =? 0 then (h, v, false)
  else
    let seeks := f_allowed_seeks (deref h f) - 1 in
    let h := <[f := set_allowed_seeks (deref h f) seeks]> h in
    if (seeks <=? 0) && (file_to_compact_ v =? 0)
    then (h, set_compact v f (seek_file_level stats), true)
    else (h, v, false).

Section Overlap.
Context (ucmp : Comparator) (h : Files).

(** [func] changes its argument and says whether to go on. *)
Section ForEach.
Context {A : Type} (func : A -> Z -> Z -> A * bool).
Fixpoint call_each (arg : A) (level : Z) (l : list Z) : A * bool :=
  match l with
  | [] => (arg, true)
  | a :: l => let '(arg, more) := func arg level a in
              if more then call_each arg level l else (arg, false)
  end.
Fixpoint each_level (v : Version) (arg : A) (levels : list Z) (user_key internal_key : bytes) : option A :=
  match levels with
  | [] => Some arg
  | level :: levels =>
      let files := at_level (files_ v) level in
      if blen files =? 0 then each_level v arg levels user_key internal_key
      else
        index ← FindFile ucmp (deref h <$> files) internal_key;
        if index <? blen files then
          match files !! Z.to_nat index with
          | None => None
          | Some f =>
              if Compare ucmp user_key (ExtractUserKey (f_smallest (deref h f))) <? 0
              then each_level v arg levels user_key internal_key
              else let '(arg, more) := func arg level f in
                   if more then each_level v arg levels user_key internal_key else Some arg
          end
        else each_level v arg levels user_key internal_key
  end.
Definition ForEachOverlapping (v : Version) (user_key internal_key : bytes) (arg : A) : option A :=
  let tmp := newest_first h (filter (fun a => in_range ucmp h user_key a) (at_level (files_ v) 0)) in
  let '(arg, more) := call_each arg 0 tmp in
  if more then each_level v arg (seqZ 1 (kNumLevels - 1)) user_key internal_key else Some arg.
End ForEach.

(** [State] of [RecordReadSample]. *)
Record Sample := { sm_stats : GetStats; sm_matches : Z }.
Definition Match (state : Sample) (level f : Z) : Sample * bool :=
  let matches := sm_matches state + 1 in
  ({| sm_stats := if matches =? 1 then {| seek_file := f; seek_file_level := level |} else sm_stats state;
      sm_matches := matches |}, matches <? 2).
(** [state.stats] is not initialised: it is read only when [Match] has set it. *)
Definition RecordReadSample (v : Version) (internal_key : bytes) : option (Files * Version * bool) :=
  match ParseInternalKey internal_key with
  | None => Some (h, v, false)
  | Some ikey =>
      state ← ForEachOverlapping Match v (user_key ikey) internal_key
                {| sm_stats := {| seek_file := 0; seek_file_level := 0 |}; sm_matches := 0 |};
      if 2 <=? sm_matches state then Some (UpdateStats h v (sm_stats state)) else Some (h, v, false)
  end.

Definition OverlapInLevel (v : Version) (level : Z) (smallest_user_key largest_user_key : option bytes)
    : option bool :=
  SomeFileOverlapsRange ucmp (0 <? level) (deref h <$> at_level (files_ v) level)
    smallest_user_key largest_user_key.
Definition OverlapInLevelGuards (v : Version) (level : Z) (smallest_user_key largest_user_key : option bytes)
    : bool :=
  negb (RangeFitsWithinAGuard ucmp (at_level (guards_ v) level) smallest_user_key largest_user_key).

(** ** The files that overlap a range *)

(** Entirely before or after the range; a null bound is [None]. *)
Definition before_range (limit : bytes) (user_begin : option bytes) : bool :=
  match user_begin with Some b => Compare ucmp limit b <? 0 | None => false end.
Definition after_range (start : bytes) (user_end : option bytes) : bool :=
  match user_end with Some e => 0 <? Compare ucmp start e | None => false end.
Definition file_start (a : Z) : bytes := ExtractUserKey (f_smallest (deref h a)).
Definition file_limit (a : Z) : bytes := ExtractUserKey (f_largest (deref h a)).

Fixpoint GetOverlappingInputs_loop (fuel : nat) (files : list Z) (user_begin user_end : option bytes)
    (i : nat) (inputs : list Z) : option (list Z) :=
  match fuel with
  | O => None
  | S fuel =>
      match files !! i with
      | None => Some inputs
      | Some f =>
          if before_range (file_limit f) user_begin then
            GetOverlappingInputs_loop fuel files user_begin user_end (S i) inputs
          else if after_range (file_start f) user_end then
            GetOverlappingInputs_loop fuel files user_begin user_end (S i) inputs
          else if before_range (file_start f) user_begin then
            GetOverlappingInputs_loop fuel files (Some (file_start f)) user_end 0 []
          else if after_range (file_limit f) user_end then
            GetOverlappingInputs_loop fuel files user_begin (Some (file_limit f)) 0 []
          else GetOverlappingInputs_loop fuel files user_begin user_end (S i) (inputs ++ [f])
      end
  end.
(** Each restart moves a bound past a file: at most two passes for each file. *)
Definition overlap_fuel (n : nat) : nat := (2 * n + 1) * (n + 1).
Definition GetOverlappingInputs (v : Version) (level : Z) (begin end_ : option bytes) : option (list Z) :=
  if (kNumLevels <=? level) then None
  else let files := at_level (files_ v) level in
       GetOverlappingInputs_loop (overlap_fuel (length files)) files
         (ExtractUserKey <$> begin) (ExtractUserKey <$> end_) 0 [].

(** [inputs], [guard_inputs] and [sentinel_inputs]. *)
Definition GetOverlappingInputsGuards (v : Version) (level : Z) (begin end_ : option bytes)
    : option (list Z * list GuardMetaData * list Z) :=
  if (kNumLevels <=? level) then None
  else
    let user_begin := ExtractUserKey <$> begin in
    let user_end := ExtractUserKey <$> end_ in
    let sentinels := at_level (sentinel_files_ v) level in
    let meets start limit := negb (before_range limit user_begin) && negb (after_range start user_end) in
    let add_sentinel_files := existsb (fun f => meets (file_start f) (file_limit f)) sentinels in
    let sentinel_inputs := if add_sentinel_files then sentinels else [] in
    let guards := filter (fun g => meets (ExtractUserKey (g_smallest g)) (ExtractUserKey (g_largest g)))
                    (at_level (guards_ v) level) in
    if existsb (fun g => blen (g_file_metas g) <? g_number_segments g) guards then None
    else
      Some (sentinel_inputs ++
              concat ((fun g => take (Z.to_nat (g_number_segments g)) (g_file_metas g)) <$> guards),
            guards, sentinel_inputs).
End Overlap.

(** ** The guards of a version *)

Definition set_guards (v : Version) (gs : list (list GuardMetaData)) : Version :=
  {| v_refs := v_refs v; files_ := files_ v; guards_ := gs; complete_guards_ := complete_guards_ v;
     sentinel_files_ := sentinel_files_ v; sentinel_file_nos_ := sentinel_file_nos_ v;
     num_complete_guards_ := num_complete_guards_ v; file_to_compact_ := file_to_compact_ v;
     file_to_compact_level_ := file_to_compact_level_ v; num_files_read := num_files_read v |}.
Definition set_complete_guards (v : Version) (gs : list (list GuardMetaData)) : Version :=
  {| v_refs := v_refs v; files_ := files_ v; guards_ := guards_ v; complete_guards_ := gs;
     sentinel_files_ := sentinel_files_ v; sentinel_file_nos_ := sentinel_file_nos_ v;
     num_complete_guards_ := num_complete_guards_ v; file_to_compact_ := file_to_compact_ v;
     file_to_compact_level_ := file_to_compact_level_ v; num_files_read := num_files_read v |}.
Definition AddGuard (v : Version) (g : GuardMetaData) (level : Z) : option Version :=
  if (0 <=? level) && (level <? kNumLevels) then Some (set_guards v (push_at (guards_ v) level g)) else None.
Definition AddToCompleteGuards (v : Version) (g : GuardMetaData) (level : Z) : option Version :=
  if (0 <=? level) && (level <? kNumLevels)
  then Some (set_complete_guards v (push_at (complete_guards_ v) level g)) else None.
Definition AddCompleteGuardsToEdit (v : Version) (edit : VersionEdit) : VersionEdit :=
  fold_left (fun edit i =>
    fold_left (fun edit g => AddCompleteGuardFromExisting edit i g) (at_level (complete_guards_ v) i) edit)
    levels edit.
Definition AddGuardsToEdit (v : Version) (edit : VersionEdit) (level_to_load_complete_guards : list Z)
    : VersionEdit :=
  fold_left (fun edit i =>
    if bool_decide (i ∈ level_to_load_complete_guards)
    then fold_left (fun edit g => AddGuardFromExisting edit i g) (at_level (complete_guards_ v) i) edit
    else edit) levels edit.
Definition NumFiles (v : Version) (level : Z) : Z := blen (at_level (files_ v) level).
Definition NumGuards (v : Version) (level : Z) : Z := blen (at_level (guards_ v) level).
Definition NumSentinelFiles (v : Version) (level : Z) : Z := blen (at_level (sentinel_files_ v) level).
Definition NumGuardFiles (v : Version) (level : Z) : option Z :=
  if level <? kNumLevels
  then Some (fold_left (fun n g => n + g_number_segments g) (at_level (guards_ v) level) 0) else None.
Definition NumCompleteGuardFiles (v : Version) (level : Z) : option Z :=
  if level <? kNumLevels
  then Some (fold_left (fun n g => n + g_number_segments g) (at_level (complete_guards_ v) level) 0) else None.
Definition TotalGuards (v : Version) : Z :=
  fold_left (fun total i => total + blen (at_level (guards_ v) i)) levels 0.
Definition TotalFileSize (h : Files) (files : list Z) : Z :=
  fold_left (fun sum a => sum + f_file_size (deref h a)) files 0.
