(* ===== verification/VersionProofs.v ===== *)
(** * Versions: the searches find what they look for

    [FindFile] and [FindGuard] are binary searches; [GetOverlappingInputs] closes a range
    under the files it touches.  Their results are described without the loops. *)

From stdpp Require Import gmap sorting.
From S2P Require Import Prelude Coding Status Comparator DbFormat Bloom VersionEdit MemTable.
From S2P Require Import TableGet Version.
From stdpp Require Import list.
#[local] Open Scope Z_scope.

(** Halving an interval of indices does not leave it. *)
Lemma mid_bounds left right n : 0 <= left < right -> right <= n -> n < 2 ^ 31 ->
  u32 (left + right) / 2 = (left + right) / 2 /\ left <= (left + right) / 2 < right.
Proof. intros. rewrite u32_small by rlia. split; [done|]. Z.div_mod_to_equations. lia. Qed.
Lemma lookup_Z {A} (l : list A) i : 0 <= i < blen l -> exists x, l !! Z.to_nat i = Some x.
Proof. intros. apply lookup_lt_is_Some. unfold blen in *. lia. Qed.
Lemma nth_lookup_Some {A} (l : list A) i x d : l !! i = Some x -> nth i l d = x.
Proof. revert i. induction l as [|y l IH]; intros [|i] H; try done; cbn in *; [by injection H|by apply IH]. Qed.

Section Search.
Context (ucmp : Comparator).
Abbreviation icmp := (InternalKey_Compare ucmp).

(** *** FindFile *)

(** What the loop keeps: the file before [left] is before the key, the one at [right] is not. *)
Definition file_lt (files : list FileMetaData) (key : bytes) (i : Z) : Prop :=
  forall f, files !! Z.to_nat i = Some f -> icmp (f_largest f) key < 0.
Definition file_ge (files : list FileMetaData) (key : bytes) (i : Z) : Prop :=
  forall f, files !! Z.to_nat i = Some f -> 0 <= icmp (f_largest f) key.

Lemma FindFile_loop_ok fuel : forall files key left right,
  0 <= left <= right -> right <= blen files -> blen files < 2 ^ 31 -> right - left < Z.of_nat fuel ->
  (0 < left -> file_lt files key (left - 1)) -> file_ge files key right ->
  exists i, FindFile_loop ucmp fuel files key left right = Some i /\ 0 <= i <= blen files /\
    (0 < i -> file_lt files key (i - 1)) /\ file_ge files key i.
Proof.
  induction fuel as [|fuel IH]; intros files key left right Hlr Hr Hn Hf Hl Hg; [lia|]. cbn [FindFile_loop].
  case_bool; [|assert (left = right) as -> by lia; exists right; split_and!; (done || lia)].
  destruct (mid_bounds left right (blen files)) as [-> Hm]; [lia..|].
  destruct (lookup_Z files ((left + right) / 2)) as [f Ef]; [lia|]. rewrite Ef.
  destruct (Z.ltb_spec (icmp (f_largest f) key) 0).
  - rewrite u32_small by rlia. apply IH; [lia..| |done].
    intros _ f'. rewrite Z.add_simpl_r, Ef. by intros [= <-].
  - apply IH; [lia..|done|]. intros f'. rewrite Ef. by intros [= <-].
Qed.
Lemma FindFile_ok files key : blen files < 2 ^ 31 ->
  exists i, FindFile ucmp files key = Some i /\ 0 <= i <= blen files /\
    (0 < i -> file_lt files key (i - 1)) /\ file_ge files key i.
Proof.
  intros Hn. unfold FindFile. pose proof (blen_nonneg files). rewrite u32_small by rlia.
  apply FindFile_loop_ok; unfold blen in *; try lia.
  intros f Hf. apply lookup_lt_Some in Hf. lia.
Qed.

Context (Hc : ComparatorOk ucmp bytes_ok).
Abbreviation ivalid := (internal_valid bytes_ok).
#[local] Existing Instance InternalKeyComparator_ok.
Lemma icmp_ok : ComparatorOk (InternalKeyComparator ucmp) ivalid.
Proof. by apply InternalKeyComparator_ok. Qed.

(** Files in increasing order of their largest keys. *)
Definition largest_sorted (files : list FileMetaData) : Prop :=
  StronglySorted (fun f g => icmp (f_largest f) (f_largest g) <= 0) files.
Lemma sorted_lookup {A} (R : A -> A -> Prop) l i j x y :
  StronglySorted R l -> l !! i = Some x -> l !! j = Some y -> (i < j)%nat -> R x y.
Proof.
  revert i j. induction l as [|a l IH]; [done|].
  intros [|i] [|j] [Ha Hs]%StronglySorted_cons Hi Hj Hij; try lia.
  - injection Hi as <-. rewrite Forall_lookup in Ha. by eapply Ha.
  - by apply (IH i j); [..|lia].
Qed.

(** On sorted files the result splits the list: before it every file ends before the key,
    from it on none does. *)
Lemma FindFile_splits files key : blen files < 2 ^ 31 -> largest_sorted files ->
  Forall (fun f => ivalid (f_largest f)) files -> ivalid key ->
  exists i, FindFile ucmp files key = Some i /\ 0 <= i <= blen files /\
    forall j f, files !! j = Some f -> (Z.of_nat j < i <-> icmp (f_largest f) key < 0).
Proof.
  intros Hn Hs Hv Hk. destruct (FindFile_ok files key Hn) as (i & E & Hi & Hl & Hg).
  exists i. split; [done|]. split; [done|]. intros j f Hj.
  pose proof icmp_ok as Hic. rewrite Forall_lookup in Hv. split.
  - intros Hlt. destruct (lookup_Z files (i - 1)) as [g Eg]; [lia|].
    pose proof (Hl ltac:(lia) g Eg) as Hgk.
    destruct (decide (Z.to_nat (i - 1) = j)) as [<-|Hne]; [by rewrite Hj in Eg; injection Eg as ->|].
    assert (icmp (f_largest f) (f_largest g) <= 0) as Hle.
    { exact (sorted_lookup _ files _ _ f g Hs Hj Eg ltac:(lia)). }
    exact (@cmp_le_lt_trans _ ivalid icmp_ok (f_largest f) (f_largest g) key
      ltac:(by eapply Hv) ltac:(by eapply Hv) Hk Hle Hgk).
  - intros Hlt. apply Z.nle_gt. intros Hge. apply lookup_lt_Some in Hj as Hjn.
    destruct (lookup_Z files i) as [g Eg]; [unfold blen; lia|]. pose proof (Hg g Eg) as Hgk.
    destruct (decide (Z.to_nat i = j)) as [<-|Hne]; [by rewrite Hj in Eg; injection Eg as ->; lia|].
    assert (icmp (f_largest g) (f_largest f) <= 0) as Hle.
    { exact (sorted_lookup _ files _ _ g f Hs Eg Hj ltac:(lia)). }
    pose proof (@cmp_le_lt_trans _ ivalid icmp_ok (f_largest g) (f_largest f) key
      ltac:(by eapply Hv) ltac:(by eapply Hv) Hk Hle Hlt). cbn in *. lia.
Qed.

(** *** FindGuard *)

Definition guard_le (guards : list GuardMetaData) (ukey : bytes) (i : Z) : Prop :=
  forall g, guards !! Z.to_nat i = Some g -> 0 <= Compare ucmp ukey (guard_user_key g).
Definition guard_gt (guards : list GuardMetaData) (ukey : bytes) (i : Z) : Prop :=
  forall g, guards !! Z.to_nat i = Some g -> Compare ucmp ukey (guard_user_key g) < 0.

Lemma FindGuard_loop_ok fuel : forall guards ukey left right,
  0 <= left <= right -> right < blen guards -> blen guards < 2 ^ 31 -> right - left < Z.of_nat fuel ->
  (0 < left -> guard_le guards ukey left) -> guard_gt guards ukey (right + 1) ->
  exists i, FindGuard_loop ucmp fuel guards ukey left right = Some i /\ 0 <= i < blen guards /\
    (0 < i -> guard_le guards ukey i) /\ guard_gt guards ukey (i + 1).
Proof.
  induction fuel as [|fuel IH]; intros gs ukey left right Hlr Hr Hn Hf Hl Hg; [lia|]. cbn [FindGuard_loop].
  case_bool; [|assert (left = right) as -> by lia; destruct (Z.ltb_spec right 0); [lia|];
               exists right; split_and!; (done || lia)].
  destruct (mid_bounds left right (blen gs)) as [-> Hm]; [lia..|].
  rewrite (u32_small (left + 1)) by rlia. destruct (Z.eqb_spec (left + 1) right) as [<-|Hne].
  - destruct (lookup_Z gs (left + 1)) as [g Eg]; [lia|]. rewrite Eg.
    destruct (Z.leb_spec 0 (Compare ucmp ukey (guard_user_key g))).
    + exists (left + 1). split; [done|]. split; [lia|]. split; [|done]. intros _ g' Eg'. congruence.
    + exists left. split; [done|]. split; [lia|]. split; [done|]. intros g' Eg'.
      assert (g' = g) as -> by congruence. lia.
  - destruct (lookup_Z gs ((left + right) / 2)) as [g Eg]; [lia|]. rewrite Eg.
    assert (left < (left + right) / 2) by (Z.div_mod_to_equations; lia).
    destruct (Z.ltb_spec (Compare ucmp ukey (guard_user_key g)) 0).
    + rewrite u32_small by rlia. apply IH; [lia..|done|]. intros g'. rewrite Z.sub_add, Eg. by intros [= <-].
    + apply IH; [lia..| |done]. intros _ g'. rewrite Eg. by intros [= <-].
Qed.
Lemma FindGuard_ok guards key : guards <> [] -> blen guards < 2 ^ 31 ->
  exists i, FindGuard ucmp guards key = Some i /\ 0 <= i < blen guards /\
    (0 < i -> guard_le guards (parsed_user_key key) i) /\ guard_gt guards (parsed_user_key key) (i + 1).
Proof.
  intros Hne Hn. unfold FindGuard.
  assert (0 < blen guards) by (destruct guards; [done|rewrite blen_cons; pose proof (blen_nonneg guards); lia]).
  rewrite (proj2 (Z.eqb_neq _ _)) by lia. rewrite u32_small by rlia.
  apply FindGuard_loop_ok; unfold blen in *; try lia.
  intros g Hg. apply lookup_lt_Some in Hg. lia.
Qed.

(** Guards in strictly increasing order of their user keys. *)
Definition guards_sorted (guards : list GuardMetaData) : Prop :=
  StronglySorted (fun a b => Compare ucmp (guard_user_key a) (guard_user_key b) < 0) guards.
Abbreviation gvalid := (fun g => bytes_ok (guard_user_key g)).

(** On sorted guards the result is the last guard at or before the key, or the first guard. *)
Lemma FindGuard_splits guards key : guards <> [] -> blen guards < 2 ^ 31 -> guards_sorted guards ->
  Forall gvalid guards -> bytes_ok (parsed_user_key key) ->
  exists i, FindGuard ucmp guards key = Some i /\ 0 <= i < blen guards /\
    forall j g, guards !! j = Some g ->
      (i < Z.of_nat j -> Compare ucmp (parsed_user_key key) (guard_user_key g) < 0) /\
      (Z.of_nat j <= i -> 0 < i -> 0 <= Compare ucmp (parsed_user_key key) (guard_user_key g)).
Proof.
  intros Hne Hn Hs Hv Hk. destruct (FindGuard_ok guards key Hne Hn) as (i & E & Hi & Hl & Hg).
  exists i. split; [done|]. split; [done|]. intros j g Hj. rewrite Forall_lookup in Hv. split.
  - intros Hlt. apply lookup_lt_Some in Hj as Hjn.
    destruct (lookup_Z guards (i + 1)) as [g' Eg]; [unfold blen; lia|]. pose proof (Hg g' Eg) as Hgk.
    destruct (decide (Z.to_nat (i + 1) = j)) as [<-|Hne']; [by rewrite Hj in Eg; injection Eg as ->|].
    assert (Compare ucmp (guard_user_key g') (guard_user_key g) < 0) as Hlt'.
    { exact (sorted_lookup _ guards _ _ g' g Hs Eg Hj ltac:(lia)). }
    eapply (@cmp_lt_trans ucmp bytes_ok Hc _ (guard_user_key g')); [done|by eapply Hv|by eapply Hv|done|done].
  - intros Hle Hpos. destruct (lookup_Z guards i) as [g' Eg]; [done|]. pose proof (Hl Hpos g' Eg) as Hgk.
    destruct (decide (Z.to_nat i = j)) as [<-|Hne']; [by rewrite Hj in Eg; injection Eg as ->|].
    assert (Compare ucmp (guard_user_key g) (guard_user_key g') < 0) as Hlt'.
    { exact (sorted_lookup _ guards _ _ g g' Hs Hj Eg ltac:(lia)). }
    rewrite (@cmp_ge_le ucmp bytes_ok Hc) in Hgk |- *; [|done|by eapply Hv|done|by eapply Hv].
    apply Z.lt_le_incl. eapply (@cmp_lt_le_trans ucmp bytes_ok Hc _ (guard_user_key g'));
      [by eapply Hv|by eapply Hv|done|done|done].
Qed.
End Search.

(** *** GetOverlappingInputs *)

Section Overlap.
Context (ucmp : Comparator) (Hc : ComparatorOk ucmp bytes_ok) (h : Files).
Abbreviation range := (option bytes * option bytes)%type.
Abbreviation before := (before_range ucmp).
Abbreviation after := (after_range ucmp).
Abbreviation start := (file_start h).
Abbreviation limit := (file_limit h).

(** A file meets a range, and lies within it. *)
Definition meets (r : range) (f : Z) : bool := negb (before (limit f) (fst r)) && negb (after (start f) (snd r)).
Definition within (r : range) (f : Z) : bool := negb (before (start f) (fst r)) && negb (after (limit f) (snd r)).
(** [r'] holds all of [r]. *)
Definition lower_le (b' b : option bytes) : Prop :=
  match b', b with
  | None, _ => True
  | Some x, Some y => Compare ucmp x y <= 0
  | Some _, None => False
  end.
Definition upper_ge (e' e : option bytes) : Prop :=
  match e', e with
  | None, _ => True
  | Some x, Some y => 0 <= Compare ucmp x y
  | Some _, None => False
  end.
Definition covers (r' r : range) : Prop := lower_le (fst r') (fst r) /\ upper_ge (snd r') (snd r).
(** No file crosses the ends of the range. *)
Definition closed (files : list Z) (r : range) : Prop :=
  forall f, f ∈ files -> meets r f = true -> within r f = true.

Definition bound_ok (b : option bytes) : Prop := match b with Some x => bytes_ok x | None => True end.
Definition range_ok (r : range) : Prop := bound_ok (fst r) /\ bound_ok (snd r).
Definition files_valid (files : list Z) : Prop := Forall (fun f => bytes_ok (start f) /\ bytes_ok (limit f)) files.

Lemma before_mono x y b : bytes_ok x -> bytes_ok y -> bound_ok b -> Compare ucmp x y <= 0 ->
  before y b = true -> before x b = true.
Proof.
  destruct b as [b|]; [|done]. cbn. intros Hx Hy Hb Hxy Hlt%Z.ltb_lt. apply Z.ltb_lt.
  by eapply (@cmp_le_lt_trans ucmp bytes_ok Hc _ y).
Qed.
Lemma after_mono x y e : bytes_ok x -> bytes_ok y -> bound_ok e -> Compare ucmp y x <= 0 ->
  after y e = true -> after x e = true.
Proof.
  destruct e as [e|]; [|done]. cbn. intros Hx Hy He Hxy Hlt%Z.ltb_lt. apply Z.ltb_lt.
  apply (@cmp_antisym ucmp bytes_ok Hc) in Hlt; [|done..]. apply (@cmp_antisym ucmp bytes_ok Hc); [done..|].
  by eapply (@cmp_lt_le_trans ucmp bytes_ok Hc _ y).
Qed.
Lemma before_lower x b b' : bytes_ok x -> bound_ok b -> bound_ok b' -> lower_le b' b ->
  before x b = false -> before x b' = false.
Proof.
  destruct b as [b|], b' as [b'|]; cbn; try done. intros Hx Hb Hb' Hle Hge%Z.ltb_ge. apply Z.ltb_ge.
  rewrite (@cmp_ge_le ucmp bytes_ok Hc) in Hge |- * by done. by eapply (@cmp_trans ucmp bytes_ok Hc _ b).
Qed.
Lemma after_upper x e e' : bytes_ok x -> bound_ok e -> bound_ok e' -> upper_ge e' e ->
  after x e = false -> after x e' = false.
Proof.
  destruct e as [e|], e' as [e'|]; cbn; try done. intros Hx He He' Hge Hle%Z.ltb_ge. apply Z.ltb_ge.
  rewrite (@cmp_ge_le ucmp bytes_ok Hc) in Hge by done. by eapply (@cmp_trans ucmp bytes_ok Hc _ e).
Qed.
Lemma meets_covers r r' f : range_ok r -> range_ok r' -> bytes_ok (start f) -> bytes_ok (limit f) ->
  covers r' r -> meets r f = true -> meets r' f = true.
Proof.
  intros [? ?] [? ?] Hs Hl [Hlo Hup]. unfold meets.
  intros [Hb%negb_true_iff Ha%negb_true_iff]%andb_true_iff. apply andb_true_iff. split; apply negb_true_iff.
  - by apply (before_lower _ (fst r)).
  - by apply (after_upper _ (snd r)).
Qed.
Lemma covers_refl r : range_ok r -> covers r r.
Proof.
  intros [H1 H2]. split; [destruct (fst r)|destruct (snd r)]; cbn in *; try done;
    rewrite (@cmp_refl ucmp bytes_ok Hc) by done; lia.
Qed.

(** The files still past an end of the range: the bound on the restarts. *)
Definition past (files : list Z) (r : range) : nat :=
  (length (filter (fun f => before (start f) (fst r)) files) +
   length (filter (fun f => after (limit f) (snd r)) files))%nat.
Lemma past_bound files r : (past files r <= 2 * length files)%nat.
Proof.
  unfold past.
  pose proof (length_filter (fun f => before (start f) (fst r)) files).
  pose proof (length_filter (fun f => after (limit f) (snd r)) files). lia.
Qed.
Lemma restart_lower files b e f : files_valid files -> bound_ok b -> f ∈ files ->
  before (start f) b = true -> (past files (Some (start f), e) < past files (b, e))%nat.
Proof.
  intros Hv Hb Hf Hlt. unfold past. cbn [fst snd]. apply Nat.add_lt_mono_r.
  unfold files_valid in Hv. rewrite Forall_forall in Hv. destruct (Hv f Hf) as [Hs _].
  apply (filter_lt_length (fun x => before (start x) (Some (start f))) (fun x => before (start x) b) files f);
    [|done| |done].
  - intros g Hg Hgf. apply (before_mono (start g) (start f)); [by apply Hv|done|done| |done].
    cbn in Hgf. apply Z.ltb_lt in Hgf. lia.
  - cbn. rewrite (@cmp_refl ucmp bytes_ok Hc) by done. done.
Qed.
Lemma restart_upper files b e f : files_valid files -> bound_ok e -> f ∈ files ->
  after (limit f) e = true -> (past files (b, Some (limit f)) < past files (b, e))%nat.
Proof.
  intros Hv He Hf Hlt. unfold past. cbn [fst snd]. apply Nat.add_lt_mono_l.
  unfold files_valid in Hv. rewrite Forall_forall in Hv. destruct (Hv f Hf) as [_ Hl].
  apply (filter_lt_length (fun x => after (limit x) (Some (limit f))) (fun x => after (limit x) e) files f);
    [|done| |done].
  - intros g Hg Hgf. apply (after_mono (limit g) (limit f)); [by apply Hv|done|done| |done].
    cbn in Hgf. apply Z.ltb_lt in Hgf. apply (@cmp_antisym ucmp bytes_ok Hc) in Hgf; [lia|done|by apply Hv].
  - cbn. rewrite (@cmp_refl ucmp bytes_ok Hc) by done. done.
Qed.

(** The widest bound a restart gives is within every closed range over the old one. *)
Lemma restart_covered files r r' f : files_valid files -> range_ok r -> range_ok r' -> f ∈ files ->
  closed files r' -> covers r' r -> meets r f = true ->
  lower_le (fst r') (Some (start f)) /\ upper_ge (snd r') (Some (limit f)).
Proof.
  intros Hv Hr Hr' Hf Hcl Hco Hm. unfold files_valid in Hv. rewrite Forall_forall in Hv.
  destruct (Hv f Hf) as [Hs Hl]. pose proof (Hcl f Hf (meets_covers r r' f Hr Hr' Hs Hl Hco Hm)) as Hw.
  unfold within in Hw. apply andb_true_iff in Hw as [Hb%negb_true_iff Ha%negb_true_iff].
  destruct r' as [[b'|] [e'|]], Hr' as [Hb' He']; cbn in *; split; try done.
  all: try (apply Z.ltb_ge in Hb; by rewrite (@cmp_ge_le ucmp bytes_ok Hc) in Hb by done).
  all: apply Z.ltb_ge in Ha; by rewrite (@cmp_ge_le ucmp bytes_ok Hc) by done.
Qed.

Lemma GetOverlappingInputs_loop_ok fuel : forall files b e i,
  files_valid files -> range_ok (b, e) -> (i <= length files)%nat ->
  (past files (b, e) * (length files + 1) + (length files - i) < fuel)%nat ->
  (forall f, f ∈ take i files -> meets (b, e) f = true -> within (b, e) f = true) ->
  exists r, GetOverlappingInputs_loop ucmp h fuel files b e i (filter (fun f => meets (b, e) f) (take i files)) =
      Some (filter (fun f => meets r f) files) /\
    range_ok r /\ covers r (b, e) /\ closed files r /\
    forall r', range_ok r' -> covers r' (b, e) -> closed files r' -> covers r' r.
Proof.
  induction fuel as [|fuel IH]; intros files b e i Hv Hr Hi Hfuel Hin; [lia|]. cbn [GetOverlappingInputs_loop].
  destruct (files !! i) as [f|] eqn:Ef.
  2:{ apply lookup_ge_None in Ef. rewrite take_ge in * by done. exists (b, e). split_and!; try done.
      by apply covers_refl. }
  assert (f ∈ files) as Hf by by eapply list_elem_of_lookup_2.
  unfold files_valid in Hv. rewrite Forall_forall in Hv. destruct (Hv f Hf) as [Hs Hl]. rewrite <- Forall_forall in Hv.
  apply lookup_lt_Some in Ef as Hlt. pose proof (take_S_r _ _ _ Ef) as Htake.
  assert (forall m, meets (b, e) f = m -> filter (fun f => meets (b, e) f) (take (S i) files) =
    filter (fun f => meets (b, e) f) (take i files) ++ (if m then [f] else [])) as Hfil.
  { intros m Hm. rewrite Htake, filter_app, filter_cons, filter_nil, Hm. by destruct m. }
  assert (forall b' e', (past files (b', e') < past files (b, e))%nat ->
    (past files (b', e') * (length files + 1) + (length files - 0) < fuel)%nat) as Hless.
  { intros b' e' Hp. nia. }
  assert (meets (b, e) f = false ->
    exists r, GetOverlappingInputs_loop ucmp h fuel files b e (S i) (filter (fun f => meets (b, e) f) (take i files)) =
      Some (filter (fun f => meets r f) files) /\
    range_ok r /\ covers r (b, e) /\ closed files r /\
    forall r', range_ok r' -> covers r' (b, e) -> closed files r' -> covers r' r) as Hskip.
  { intros Hm. rewrite <- (app_nil_r (filter _ _)), <- (Hfil _ Hm). apply IH; [done|done|lia|lia|].
    rewrite Htake. intros g [Hg|Hg%list_elem_of_singleton]%elem_of_app; [by apply Hin|]. subst g. congruence. }
  destruct (before (limit f) b) eqn:Eb; [by apply Hskip; unfold meets; cbn; rewrite Eb|].
  destruct (after (start f) e) eqn:Ea; [by apply Hskip; unfold meets; cbn; rewrite Eb, Ea|].
  assert (meets (b, e) f = true) as Hm by (unfold meets; cbn; by rewrite Eb, Ea).
  destruct (before (start f) b) eqn:Esb; [|destruct (after (limit f) e) eqn:Ele].
  - destruct (IH files (Some (start f)) e 0%nat) as (r & E & Hro & Hco & Hcl & Hmin);
      [done|by split; [|apply Hr]|lia|apply Hless, restart_lower; [done|apply Hr|done|done]|
       intros g Hg; by apply elem_of_nil in Hg|].
    exists r. cbn [take filter] in E. split; [exact E|]. split; [done|]. split_and!.
    + destruct Hco as [Hlo Hup]. split; [|done]. cbn in *. destruct b as [b|]; [|done].
      destruct (fst r) as [x|] eqn:Ex; [|done]. cbn in *. apply Z.ltb_lt in Esb.
      eapply (@cmp_trans ucmp bytes_ok Hc _ (start f)); [|done|apply Hr|done|lia].
      destruct Hro as [Hro _]. by rewrite Ex in Hro.
    + done.
    + intros r' Hr' Hcov Hcl'. apply Hmin; [done| |done].
      destruct (restart_covered files (b, e) r' f Hv Hr Hr' Hf Hcl' Hcov Hm) as [H1 _]. split; [done|apply Hcov].
  - destruct (IH files b (Some (limit f)) 0%nat) as (r & E & Hro & Hco & Hcl & Hmin);
      [done|by split; [apply Hr|]|lia|apply Hless, restart_upper; [done|apply Hr|done|done]|
       intros g Hg; by apply elem_of_nil in Hg|].
    exists r. cbn [take filter] in E. split; [exact E|]. split; [done|]. split_and!.
    + destruct Hco as [Hlo Hup]. split; [done|]. cbn in *. destruct e as [e|]; [|done].
      destruct (snd r) as [x|] eqn:Ex; [|done]. cbn in *. apply Z.ltb_lt in Ele.
      destruct Hro as [_ Hro]. rewrite Ex in Hro. destruct Hr as [_ He]. cbn in He, Hro.
      apply (@cmp_antisym ucmp bytes_ok Hc) in Ele; [|done..].
      rewrite (@cmp_ge_le ucmp bytes_ok Hc) in Hup |- * by done.
      eapply (@cmp_trans ucmp bytes_ok Hc _ (limit f)); [done|done|done|lia|done].
    + done.
    + intros r' Hr' Hcov Hcl'. apply Hmin; [done| |done].
      destruct (restart_covered files (b, e) r' f Hv Hr Hr' Hf Hcl' Hcov Hm) as [_ H2]. split; [apply Hcov|done].
  - rewrite <- (Hfil _ Hm). apply IH; [done|done|lia|lia|].
    rewrite Htake. intros g [Hg|Hg%list_elem_of_singleton]%elem_of_app; [by apply Hin|]. subst g. intros _.
    unfold within. cbn. by rewrite Esb, Ele.
Qed.
End Overlap.

(** C23: The inputs of a compaction form a closed range: for every level and every bounds
    (null for none), [GetOverlappingInputs] ends, and its result is the list of the files
    that meet the smallest range which holds the requested one and which no file crosses;
    so no file left out shares a key with a file taken in. *)
Theorem overlapping_inputs_closed (ucmp : Comparator) (Hc : ComparatorOk ucmp bytes_ok) (h : Files)
  (v : Version) (level : Z) (begin end_ : option bytes)
  (Hl : 0 <= level < kNumLevels) (Hf : files_valid h (at_level (files_ v) level))
  (Hr : range_ok (ExtractUserKey <$> begin, ExtractUserKey <$> end_)) :
  let files := at_level (files_ v) level in
  let r0 := (ExtractUserKey <$> begin, ExtractUserKey <$> end_) in
  exists r, GetOverlappingInputs ucmp h v level begin end_ = Some (filter (fun f => meets ucmp h r f) files) /\
    covers ucmp r r0 /\ closed ucmp h files r /\
    forall r', range_ok r' -> covers ucmp r' r0 -> closed ucmp h files r' -> covers ucmp r' r.
Proof.
  intros files r0. unfold GetOverlappingInputs. destruct (Z.leb_spec kNumLevels level); [lia|].
  pose proof (past_bound ucmp h files r0) as Hp.
  destruct (GetOverlappingInputs_loop_ok ucmp Hc h (overlap_fuel (length files)) files (fst r0) (snd r0) 0)
    as (r & E & _ & Hco & Hcl & Hmin); [done|done|lia| |intros f Hf0; by apply elem_of_nil in Hf0|].
  { unfold overlap_fuel. change (fst r0, snd r0) with r0. nia. }
  exists r. split; [exact E|]. split_and!; [exact Hco|exact Hcl|exact Hmin].
Qed.

(** A level with the files [a..c], [b..e], [f..g] and [h..h], asked for [d..d]. *)
Definition example_file (n : Z) (smallest largest : bytes) : FileMetaData :=
  {| f_refs := 1; f_allowed_seeks := 100; f_number := n; f_file_size := 100;
     f_smallest := EncodeInternalKey {| user_key := smallest; sequence := 9; type := kTypeValue |};
     f_largest := EncodeInternalKey {| user_key := largest; sequence := 8; type := kTypeValue |};
     f_guard := 0 |}.
Definition overlap_files : Files :=
  list_to_map [(1, example_file 11 [97] [99]); (2, example_file 12 [98] [101]);
               (3, example_file 13 [102] [103]); (4, example_file 14 [104] [104])].
Definition overlap_version : Version :=
  {| v_refs := 1; files_ := [[]; [1; 2; 3; 4]; []; []; []; []; []]; guards_ := no_levels;
     complete_guards_ := no_levels; sentinel_files_ := [[]; [1; 2; 3; 4]; []; []; []; []; []];
     sentinel_file_nos_ := no_levels; num_complete_guards_ := [0; 0; 0; 0; 0; 0; 0];
     file_to_compact_ := 0; file_to_compact_level_ := -1; num_files_read := 0 |}.
Definition overlap_key : bytes := EncodeInternalKey {| user_key := [100]; sequence := 7; type := kTypeValue |}.

Lemma overlapping_inputs_closed_witness :
  exists r, covers BytewiseComparator r (Some [100], Some [100]) /\
    closed BytewiseComparator overlap_files [1; 2; 3; 4] r /\
    GetOverlappingInputs BytewiseComparator overlap_files overlap_version 1 (Some overlap_key) (Some overlap_key)
      = Some [1; 2].
Proof.
  destruct (overlapping_inputs_closed BytewiseComparator _ overlap_files overlap_version 1
    (Some overlap_key) (Some overlap_key)) as (r & E & Hco & Hcl & _).
  - split; by vm_compute.
  - repeat constructor; done.
  - repeat constructor; done.
  - exists r. split; [exact Hco|]. split; [exact Hcl|]. by vm_compute.
Defined.

