(* ===== verification/VersionGet.v ===== *)
(** * Reads through a version

    What [Version::Get] promises: when the guards and files of a version are placed as the
    reads expect ([level_ok]) and newer files hold newer entries ([newer_first]), the
    read answers with the newest entry visible at the snapshot, whatever the files, their
    filters and the state of the table cache. *)

From stdpp Require Import gmap sorting.
From S2P Require Import Prelude Coding Status Comparator DbFormat Bloom Iterator VersionEdit.
From S2P Require Import MemTable TableSpec TableGet Version VersionProofs.
From stdpp Require Import list.
#[local] Open Scope Z_scope.

(** An entry: sequence number, type, user key, value. *)
Abbreviation entry := (Z * Z * bytes * bytes)%type.

(** ** What the table cache promises to a version

    [holds_table t n size kv]: the cache serves table file [n] of [size] bytes, whose
    entries are [kv]. *)
Class TableReadsOk (T : Type) `{TableReads T} (ucmp : Comparator) := {
  holds_table : T -> Z -> Z -> list (bytes * bytes) -> Prop;
  cache_Get_ok : forall (A : Type) t verify fill n size kv k (arg : A) saver,
    holds_table t n size kv -> internal_valid bytes_ok k ->
    exists arg' t', cache_Get t verify fill n size k arg saver = (OK, arg', t') /\
      (forall n' size' kv', holds_table t n' size' kv' -> holds_table t' n' size' kv') /\
      match first_ge (InternalKeyComparator ucmp) kv k with
      | Some i => exists y v, kv !! i = Some (y, v) /\
          (arg' = saver arg y v \/ (arg' = arg /\ ~ same_user_key k y))
      | None => arg' = arg
      end;
}.

Section Get.
Context (ucmp : Comparator) (Hc : ComparatorOk ucmp bytes_ok) (Hn : KeyNumOk ucmp bytes_ok).
Context (Hid : cmp_identity ucmp).
Context {T : Type} `{HT : TableReads T} {HTok : TableReadsOk T ucmp} (policy : option FilterPolicy).
Context (h : Files) (verify fill : bool).

(** The entries of each file, in the order of the keys. *)
Context (es : Z -> list entry).
Record file_ok (a : Z) : Prop := {
  fo_points : Forall point_entry (es a);
  fo_nodup : NoDup (entry_seq <$> es a);
  fo_sorted : StronglySorted (fun x y => KeyComparator ucmp x y < 0) (ientry_bytes <$> (to_ientry <$> es a));
  fo_range : forall e, e ∈ es a ->
    Compare ucmp (file_start h a) (user_key (fst (to_ientry e))) <= 0 /\
    Compare ucmp (user_key (fst (to_ientry e))) (file_limit h a) <= 0;
  fo_start : bytes_ok (file_start h a);
  fo_limit : bytes_ok (file_limit h a);
}.
Definition held (t : T) (a : Z) : Prop :=
  holds_table t (f_number (deref h a)) (f_file_size (deref h a)) (iter_entries (to_ientry <$> es a)).
(** The filters kept in memory do not hide keys of their files. *)
Definition filter_sound (m : FilterMap) (a : Z) : Prop :=
  forall f, m !! f_number (deref h a) = Some (Some f) ->
  exists p, policy = Some p /\ forall e s, e ∈ es a ->
    KeyMayMatch p (internal_key (mkLookupKey (user_key (fst (to_ientry e))) s)) f = true.

Context (ukey : bytes) (s : Z).
Context (Hu : bytes_ok ukey) (Hul : blen ukey + 8 < 2 ^ 32) (Hs : 0 <= s <= kMaxSequenceNumber).
Abbreviation ikey := (internal_key (mkLookupKey ukey s)).
Abbreviation answer a := (newest ucmp ukey s (es a)).

(** The answer of the first file that has one. *)
Fixpoint first_answer (l : list Z) : option entry :=
  match l with
  | [] => None
  | a :: l => match answer a with Some e => Some e | None => first_answer l end
  end.
Lemma first_answer_app l l' :
  first_answer (l ++ l') = match first_answer l with Some e => Some e | None => first_answer l' end.
Proof. induction l as [|a l IH]; cbn; [done|]. by destruct (answer a). Qed.

(** How a search ends, for the answer [g]. *)
Definition ends (res : option Status) (value : bytes) (g : GetResult) : Prop :=
  match g with
  | Found v => res = Some OK /\ value = v
  | Deleted _ => res = Some (NotFound [])
  | Unknown => res = None
  end.
Definition reader_ok (files : list Z) (r : Reader T) : Prop :=
  forall a, a ∈ files -> held (rd_cache r) a /\ filter_sound (rd_filters r) a.

Lemma visible_key e : point_entry e -> visible ucmp ukey s e = true -> user_key (fst (to_ientry e)) = ukey.
Proof.
  intros He [Hk%Z.eqb_eq _]%andb_true_iff. apply Hid; [by apply point_user|done|done].
Qed.

Lemma read_table_ok files r a : (forall b, b ∈ files -> file_ok b) -> a ∈ files -> reader_ok files r ->
  exists r' res, read_table ucmp verify fill r (deref h a) ikey ukey = (r', res) /\
    reader_ok files r' /\ ends res (rd_value r') (get_result (answer a)).
Proof.
  intros Hf Ha Hr. destruct (Hf a Ha) as [Hpt Hnd Hso _ _ _].
  destruct (Hr a Ha) as [Hh _]. unfold read_table.
  destruct (cache_Get_ok Saver (rd_cache r) verify fill _ _ _ ikey (new_saver ukey (rd_value r))
    (SaveValue ucmp) Hh) as (sv & t' & -> & Hkeep & Hsv).
  { rewrite internal_key_mk. by apply pkey_valid, lookup_pkey_ok. }
  assert (answers sv (get_result (answer a))) as Hans.
  { rewrite internal_key_mk in Hsv.
    apply (saver_newest ucmp Hc Hn Hid ukey s (rd_value r) (to_ientry <$> es a) (es a) sv); try done.
    apply Forall_fmap. eapply Forall_impl; [exact Hpt|]. intros e He. apply He. }
  exists (set_read r t' (sv_value sv)), (saver_result sv). split; [done|]. split.
  - intros b Hb. destruct (Hr b Hb). split; [by apply Hkeep|done].
  - unfold ends, saver_result. destruct (get_result (answer a)) as [v| |]; cbn in Hans |- *.
    + destruct Hans as [-> <-]. done.
    + by rewrite Hans.
    + by rewrite Hans.
Qed.

Lemma filter_at_sound m n : forall a, filter_sound m a -> filter_sound (snd (filter_at m n)) a.
Proof.
  intros a Ha. unfold filter_at. destruct (m !! n) as [x|] eqn:E; [done|]. cbn.
  intros f [[_ ?]|[_ Hf]]%lookup_insert_Some; [done|by apply Ha].
Qed.
(** A file its filter rules out has no answer. *)
Lemma filtered_out m a f p : file_ok a -> filter_sound m a -> policy = Some p ->
  m !! f_number (deref h a) = Some (Some f) -> KeyMayMatch p ikey f = false -> answer a = None.
Proof.
  intros Hf Hm Hp E Hno. destruct (answer a) as [e|] eqn:Ea; [|done].
  destruct (newest_in ucmp ukey s (es a) e Ea) as [Hin Hv].
  destruct (Hm f E) as (p' & Hp' & Hkeys). assert (p' = p) as -> by congruence.
  destruct Hf as [Hpt _ _ _ _ _]. rewrite Forall_forall in Hpt.
  specialize (Hkeys e s Hin). rewrite (visible_key e (Hpt e Hin) Hv) in Hkeys. congruence.
Qed.
Lemma search_file_ok files r level a : (forall b, b ∈ files -> file_ok b) -> a ∈ files -> reader_ok files r ->
  exists r' res, search_file ucmp policy h verify fill r level a ikey ukey = Some (r', res) /\
    reader_ok files r' /\ ends res (rd_value r') (get_result (answer a)).
Proof.
  intros Hf Ha Hr. unfold search_file.
  pose proof (filter_at_sound (rd_filters (charge_seek r a level)) (f_number (deref h a))) as Hfs.
  destruct (filter_at (rd_filters (charge_seek r a level)) (f_number (deref h a))) as [filter m] eqn:E.
  set (r1 := set_filters (charge_seek r a level) m).
  assert (reader_ok files r1) as Hr1.
  { intros b Hb. destruct (Hr b Hb). split; [done|by apply Hfs]. }
  destruct (read_table_ok files r1 a Hf Ha Hr1) as (r' & res & Hread & Hr' & Hend).
  destruct filter as [f|]; [|rewrite Hread; by eexists _, _].
  unfold filter_at in E. destruct (_ !! _) as [x|] eqn:Em in E; [|done]. injection E as -> <-.
  destruct (Hr a Ha) as [_ Hsa]. destruct (Hsa f Em) as (p & Hp & _). rewrite Hp.
  destruct (KeyMayMatch p ikey f) eqn:Ek; cbn [negb]; [rewrite Hread; by eexists _, _|].
  exists r1, None. split; [done|]. split; [done|].
  by rewrite (filtered_out _ a f p (Hf a Ha) Hsa Hp Em Ek).
Qed.
Lemma search_files_ok files l : forall r level,
  (forall b, b ∈ files -> file_ok b) -> (forall a, a ∈ l -> a ∈ files) -> reader_ok files r ->
  exists r' res, search_files ucmp policy h verify fill r level l ikey ukey = Some (r', res) /\
    reader_ok files r' /\ ends res (rd_value r') (get_result (first_answer l)).
Proof.
  induction l as [|a l IH]; intros r level Hf Hl Hr; cbn [search_files first_answer]; [by eexists _, _|].
  destruct (search_file_ok files r level a Hf ltac:(apply Hl; by left) Hr) as (r1 & res1 & -> & Hr1 & Hend).
  destruct (answer a) as [e|].
  - exists r1, res1. destruct e as [[[? t] ?] v]. cbn [get_result] in *.
    destruct res1 as [st|]; [done|]. destruct (t =? kTypeValue); cbn [ends] in Hend; [by destruct Hend|discriminate Hend].
  - cbn in Hend. rewrite Hend. apply IH; [done| |done]. intros b Hb. apply Hl. by right.
Qed.

(** ** The files of a level *)

(** Where the files of a level must be for the reads to find them: the sentinel files lie
    before the first guard, the files of a guard between its key and the next guard's. *)
Definition guard_metas (g : GuardMetaData) : list Z := take (Z.to_nat (g_number_segments g)) (g_file_metas g).
Record level_ok (files : list Z) (guards : list GuardMetaData) (sentinels : list Z) : Prop := {
  lo_sorted : guards_sorted ucmp guards;
  lo_valid : Forall (fun g => bytes_ok (guard_user_key g)) guards;
  lo_small : blen guards < 2 ^ 31;
  lo_segments : Forall (fun g => 0 <= g_number_segments g <= blen (g_file_metas g)) guards;
  lo_listed : forall a, a ∈ sentinels \/ (exists g, g ∈ guards /\ a ∈ guard_metas g) -> a ∈ files;
  lo_nonnull : forall a, a ∈ files -> a <> 0;
  lo_placed : forall a, a ∈ files ->
    (a ∈ sentinels /\ forall g, guards !! 0%nat = Some g -> Compare ucmp (file_limit h a) (guard_user_key g) < 0) \/
    exists i g, guards !! i = Some g /\ a ∈ guard_metas g /\
      Compare ucmp (guard_user_key g) (file_start h a) <= 0 /\
      forall g', guards !! S i = Some g' -> Compare ucmp (file_limit h a) (guard_user_key g') < 0;
}.

Lemma parsed_lookup : parsed_user_key ikey = ukey.
Proof.
  unfold parsed_user_key. rewrite internal_key_mk, blen_ikey. cbn [lookup_pkey user_key].
  pose proof (blen_nonneg ukey). destruct (Z.ltb_spec (blen ukey + 8) 8); [lia|].
  exact (ExtractUserKey_encode (lookup_pkey ukey s)).
Qed.

Definition number_of (a : Z) : Z := f_number (deref h a).
Lemma newest_first_perm l : newest_first h l ≡ₚ l.
Proof. apply merge_sort_Permutation. Qed.
Lemma newest_first_sorted l : StronglySorted (fun a b => number_of b <= number_of a) (newest_first h l).
Proof.
  assert (forall a b, sort_le (fun a b => NewestFirst (deref h a) (deref h b)) a b <-> number_of b <= number_of a) as Hle
    by (intros a b; apply Z.ltb_ge).
  assert (Transitive (sort_le (fun a b => NewestFirst (deref h a) (deref h b)))) as Htr.
  { intros a b c. rewrite !Hle. lia. }
  assert (Total (sort_le (fun a b => NewestFirst (deref h a) (deref h b)))) as Hto.
  { intros a b. rewrite !Hle. lia. }
  unfold newest_first, std_sort. pose proof (StronglySorted_merge_sort _ l) as Hsort.
  revert Hsort. generalize (merge_sort (sort_le (fun a b => NewestFirst (deref h a) (deref h b))) l).
  induction l0 as [|a l0 IH]; intros [Ha Hl]%StronglySorted_cons || intros _; constructor; [by apply IH|].
  eapply Forall_impl; [exact Ha|]. intros b. by rewrite Hle.
Qed.

Lemma answer_range a : file_ok a -> answer a <> None -> in_range ucmp h ukey a = true.
Proof.
  intros [Hpt _ _ Hrange Hst _] Hne. destruct (answer a) as [e|] eqn:Ea; [|done].
  destruct (newest_in ucmp ukey s (es a) e Ea) as [Hin Hv]. rewrite Forall_forall in Hpt.
  destruct (Hrange e Hin) as [Hlo Hup]. rewrite (visible_key e (Hpt e Hin) Hv) in *.
  unfold in_range. fold (file_start h a) (file_limit h a).
  apply andb_true_iff. split; apply Z.leb_le; [|done]. by apply (@cmp_ge_le ucmp bytes_ok Hc).
Qed.

Section Level.
Context (files : list Z) (guards : list GuardMetaData) (sentinels : list Z).
Context (Hlo : level_ok files guards sentinels) (Hfiles : forall a, a ∈ files -> file_ok a).
Abbreviation gk := guard_user_key.

Lemma guard_order i j g g' : guards !! i = Some g -> guards !! j = Some g' -> (i <= j)%nat ->
  Compare ucmp (gk g) (gk g') <= 0.
Proof.
  destruct Hlo as [Hso Hva _ _ _ _ _]. rewrite Forall_lookup in Hva. intros Hi Hj Hij.
  destruct (decide (i = j)) as [<-|Hne].
  - assert (g' = g) as -> by congruence. rewrite (@cmp_refl ucmp bytes_ok Hc); [lia|by eapply Hva].
  - apply Z.lt_le_incl. exact (sorted_lookup _ guards i j g g' Hso Hi Hj ltac:(lia)).
Qed.

(** A file with an answer is before every guard past the key, and not past any other. *)
Lemma answer_bounds a : a ∈ files -> answer a <> None ->
  bytes_ok (file_start h a) /\ bytes_ok (file_limit h a) /\
  Compare ucmp (file_start h a) ukey <= 0 /\ Compare ucmp ukey (file_limit h a) <= 0.
Proof.
  intros Ha Hans. pose proof (answer_range a (Hfiles a Ha) Hans) as Hin.
  destruct (Hfiles a Ha) as [_ _ _ _ Hst Hli]. unfold in_range in Hin. fold (file_start h a) (file_limit h a) in Hin.
  apply andb_true_iff in Hin as [H1%Z.leb_le H2%Z.leb_le].
  split_and!; [done|done| |done]. by apply (@cmp_ge_le ucmp bytes_ok Hc).
Qed.

(** The key is before the first guard: the file is a sentinel. *)
Lemma placed_sentinel a : a ∈ files -> answer a <> None ->
  (forall g, guards !! 0%nat = Some g -> Compare ucmp ukey (gk g) < 0) -> a ∈ sentinels.
Proof.
  intros Ha Hans Hg0. destruct (answer_bounds a Ha Hans) as (Hst & Hli & Hs1 & Hs2).
  destruct Hlo as [_ Hva _ _ _ _ Hpl]. rewrite Forall_lookup in Hva.
  destruct (Hpl a Ha) as [[Hin _]|(i & g & Hi & _ & Hge & _)]; [done|exfalso].
  destruct (guards !! 0%nat) as [g0|] eqn:E0.
  2:{ apply lookup_ge_None in E0. apply lookup_lt_Some in Hi. lia. }
  pose proof (guard_order 0 i g0 g E0 Hi ltac:(lia)) as H0i. specialize (Hg0 g0 eq_refl).
  assert (Compare ucmp (gk g0) ukey <= 0) as Hle.
  { eapply (@cmp_trans ucmp bytes_ok Hc _ (gk g)); [by eapply Hva|by eapply Hva|done|done|].
    eapply (@cmp_trans ucmp bytes_ok Hc _ (file_start h a)); [by eapply Hva|done..]. }
  rewrite <- (@cmp_ge_le ucmp bytes_ok Hc) in Hle; [lia|done|by eapply Hva].
Qed.

(** The key is in the range of guard [i]: the file is in the guard. *)
Lemma placed_guard a i g : a ∈ files -> answer a <> None -> guards !! i = Some g ->
  Compare ucmp (gk g) ukey <= 0 ->
  (forall j g', guards !! j = Some g' -> (i < j)%nat -> Compare ucmp ukey (gk g') < 0) ->
  a ∈ guard_metas g.
Proof.
  intros Ha Hans Hi Hge Hlt. destruct (answer_bounds a Ha Hans) as (Hst & Hli & Hs1 & Hs2).
  destruct Hlo as [_ Hva _ _ _ _ Hpl]. rewrite Forall_lookup in Hva.
  assert (forall j g', guards !! j = Some g' -> (j <= i)%nat -> Compare ucmp (file_limit h a) (gk g') < 0 -> False) as Hno.
  { intros j g' Hj Hji Hl. pose proof (guard_order j i g' g Hj Hi Hji) as Hji'.
    assert (Compare ucmp (file_limit h a) ukey < 0) as Hlk.
    { eapply (@cmp_lt_le_trans ucmp bytes_ok Hc _ (gk g')); [done|by eapply Hva|done|done|].
      eapply (@cmp_trans ucmp bytes_ok Hc _ (gk g)); [by eapply Hva|by eapply Hva|done|done|done]. }
    rewrite <- (@cmp_ge_le ucmp bytes_ok Hc) in Hs2 by done. lia. }
  destruct (Hpl a Ha) as [[_ Hl]|(j & g' & Hj & Hin & Hge' & Hnext)].
  - apply lookup_lt_Some in Hi as Hlen. destruct (guards !! 0%nat) as [g0|] eqn:E0.
    + destruct (Hno 0%nat g0 E0 ltac:(lia) (Hl g0 eq_refl)).
    + apply lookup_ge_None in E0. lia.
  - destruct (decide (i < j)%nat) as [Hij|Hij].
    { exfalso. assert (Compare ucmp (gk g') ukey <= 0) as Hle.
      { eapply (@cmp_trans ucmp bytes_ok Hc _ (file_start h a)); [by eapply Hva|done..]. }
      rewrite <- (@cmp_ge_le ucmp bytes_ok Hc) in Hle; [|done|by eapply Hva].
      specialize (Hlt j g' Hj Hij). lia. }
    destruct (decide (j = i)) as [->|Hne]; [by assert (g' = g) as <- by congruence|exfalso].
    apply lookup_lt_Some in Hi as Hlen. destruct (lookup_lt_is_Some_2 guards (S j) ltac:(lia)) as [g2 E2].
    exact (Hno (S j) g2 E2 ltac:(lia) (Hnext g2 E2)).
Qed.

(** The list a read searches: files of the level, newest first, with every answer. *)
Record searched (l : list Z) : Prop := {
  se_in : forall a, a ∈ l -> a ∈ files;
  se_all : forall a, a ∈ files -> answer a <> None -> a ∈ l;
  se_sorted : StronglySorted (fun a b => number_of b <= number_of a) l;
}.
Lemma newest_first_searched (P : Z -> bool) cand :
  (forall a, a ∈ cand -> a ∈ files) ->
  (forall a, a ∈ files -> answer a <> None -> a ∈ cand /\ P a = true) ->
  searched (newest_first h (filter (fun a => P a) cand)).
Proof.
  intros Hin Hall. split.
  - intros a. rewrite newest_first_perm, list_elem_of_filter. intros [_ Ha]. by apply Hin.
  - intros a Ha Hans. rewrite newest_first_perm, list_elem_of_filter.
    destruct (Hall a Ha Hans) as [Hca HP]. split; [by apply Is_true_true|done].
  - apply newest_first_sorted.
Qed.
Lemma guard_list_ok i g : guards !! i = Some g -> Compare ucmp (gk g) ukey <= 0 ->
  (forall j g', guards !! j = Some g' -> (i < j)%nat -> Compare ucmp ukey (gk g') < 0) ->
  exists l, (if 0 <? g_number_segments g then
      if blen (g_file_metas g) <? g_number_segments g then None
      else Some (newest_first h (filter (fun a => negb (a =? 0) && in_range ucmp h ukey a)
                   (take (Z.to_nat (g_number_segments g)) (g_file_metas g))))
    else Some []) = Some l /\ searched l.
Proof.
  intros E Hle Hlt. pose proof (placed_guard) as Hpl. destruct Hlo as [_ _ _ Hseg Hli Hnn _].
  rewrite Forall_lookup in Hseg. specialize (Hseg i g E).
  destruct (Z.ltb_spec 0 (g_number_segments g)).
  - destruct (Z.ltb_spec (blen (g_file_metas g)) (g_number_segments g)); [lia|].
    eexists. split; [done|]. apply newest_first_searched.
    + intros a Ha. apply Hli. right. exists g. split; [by eapply list_elem_of_lookup_2|done].
    + intros a Ha Hans. split; [by apply (Hpl a i g)|].
      rewrite (answer_range a (Hfiles a Ha) Hans), (proj2 (Z.eqb_neq a 0) (Hnn a Ha)). done.
  - eexists. split; [done|]. split; [intros a Ha; by apply elem_of_nil in Ha| |constructor].
    intros a Ha Hans. specialize (Hpl a i g Ha Hans E Hle Hlt).
    unfold guard_metas in Hpl. rewrite (proj2 (Z2Nat.inj_iff (g_number_segments g) 0 ltac:(lia) ltac:(lia)) ltac:(lia)) in Hpl. done.
Qed.
Lemma level_files_ok v level :
  at_level (guards_ v) level = guards -> at_level (sentinel_files_ v) level = sentinels ->
  exists l, level_files ucmp h v level ikey ukey = Some l /\ searched l.
Proof.
  intros Eg Es. unfold level_files. rewrite Eg, Es. destruct Hlo as [Hso Hva Hsm Hseg Hli Hnn _].
  assert ((forall g, guards !! 0%nat = Some g -> Compare ucmp ukey (gk g) < 0) ->
    searched (newest_first h (filter (fun a => in_range ucmp h ukey a) sentinels))) as Hsent.
  { intros H0. apply newest_first_searched; [intros a Ha; apply Hli; by left|].
    intros a Ha Hans. split; [by apply placed_sentinel|]. apply answer_range; [by apply Hfiles|done]. }
  destruct (decide (guards = [])) as [->|Hne].
  { eexists. split; [done|]. by apply Hsent. }
  destruct (FindGuard_splits ucmp Hc guards ikey Hne Hsm Hso Hva) as (i & -> & Hi & Hsplit);
    [by rewrite parsed_lookup|]. rewrite parsed_lookup in Hsplit. cbn [mbind option_bind].
  destruct (lookup_Z guards i Hi) as [g E]. rewrite E.
  assert (bytes_ok (gk g)) as Hg by (rewrite Forall_lookup in Hva; by eapply Hva).
  destruct (Z.eqb_spec i 0) as [->|Hi0]; cbn [andb];
    [destruct (Z.ltb_spec 0 (Compare ucmp (gk g) ukey)) as [Hgt|Hle]|].
  - eexists. split; [done|]. apply Hsent. intros g0 E0. change (Z.to_nat 0) with 0%nat in E.
    assert (g0 = g) as -> by congruence.
    by apply (@cmp_antisym ucmp bytes_ok Hc).
  - destruct (guard_list_ok 0 g E Hle) as (l & El & Hl); [|by exists l].
    intros j g' Hj Hj0. apply (Hsplit j g' Hj). lia.
  - destruct (guard_list_ok (Z.to_nat i) g E) as (l & El & Hl); [| |by exists l].
    + rewrite <- (@cmp_ge_le ucmp bytes_ok Hc) by done. apply (Hsplit (Z.to_nat i) g E); lia.
    + intros j g' Hj Hj0. apply (Hsplit j g' Hj). lia.
Qed.
End Level.

(** ** All levels *)

Section Levels.
Context (v : Version).
Abbreviation files level := (at_level (files_ v) level).
Definition version_ok : Prop := forall level, level ∈ levels ->
  level_ok (files level) (at_level (guards_ v) level) (at_level (sentinel_files_ v) level) /\
  forall a, a ∈ files level -> file_ok a.
(** Entries of a user key get older from level to level and, in a level, with the file numbers. *)
Definition newer (a b : Z) : Prop := forall e e', e ∈ es a -> e' ∈ es b ->
  Compare ucmp (user_key (fst (to_ientry e))) (user_key (fst (to_ientry e'))) = 0 -> entry_seq e' < entry_seq e.
Record newer_first : Prop := {
  nf_levels : forall i j a b, i ∈ levels -> j ∈ levels -> i < j -> a ∈ files i -> b ∈ files j -> newer a b;
  nf_numbers : forall i a b, i ∈ levels -> a ∈ files i -> b ∈ files i -> number_of b < number_of a -> newer a b;
  nf_distinct : forall i a b, i ∈ levels -> a ∈ files i -> b ∈ files i -> number_of a = number_of b -> a = b;
}.
Definition level_entries (level : Z) : list entry := concat (es <$> files level).
Definition all_entries : list entry := concat (level_entries <$> levels).

Context (Hv : version_ok) (Hnf : newer_first).

Lemma Get_loop_ok ls : (forall i, i ∈ ls -> i ∈ levels) -> forall r all,
  (forall i a, i ∈ levels -> a ∈ files i -> a ∈ all) -> (forall b, b ∈ all -> file_ok b) -> reader_ok all r ->
  exists r' res lists, Get_loop ucmp policy h verify fill v r ls ikey ukey = Some (r', res) /\
    reader_ok all r' /\ Forall2 (fun level l => searched (files level) l) ls lists /\
    ends res (rd_value r') (get_result (first_answer (concat lists))).
Proof.
  induction ls as [|level ls IH]; intros Hls r all Hall Hf Hr; cbn [Get_loop].
  { exists r, None, []. split_and!; [done|done|constructor|done]. }
  assert (level ∈ levels) as Hlevel by (apply Hls; by left). destruct (Hv level Hlevel) as [Hlo Hfl].
  assert (forall i, i ∈ ls -> i ∈ levels) as Hls' by (intros; apply Hls; by right).
  destruct (level_files_ok _ _ _ Hlo Hfl v level eq_refl eq_refl) as (l & El & Hl).
  destruct (Z.eqb_spec (blen (files level)) 0) as [E0|_].
  { destruct (IH Hls' r all Hall Hf Hr) as (r' & res & lists & E & Hr' & HF & Hend).
    exists r', res, ([] :: lists). split_and!; [done|done|constructor; [|done]|done].
    apply blen_0 in E0. rewrite E0. split; [done| |constructor]. intros a Ha. by apply elem_of_nil in Ha. }
  rewrite El. cbn [mbind option_bind].
  destruct (search_files_ok all l r level Hf) as (r1 & res1 & E1 & Hr1 & Hend1); [|done|].
  { intros a Ha. apply (Hall level); [done|]. by apply Hl. }
  rewrite E1. destruct (IH Hls' r1 all Hall Hf Hr1) as (r' & res & lists & E & Hr' & HF & Hend).
  destruct res1 as [st|].
  - exists r1, (Some st), (l :: lists). split_and!; [done|done|by constructor|].
    cbn [concat]. rewrite first_answer_app.
    destruct (first_answer l) as [e|]; [done|]. by cbn [get_result ends] in Hend1.
  - exists r', res, (l :: lists). split_and!; [done|done|by constructor|].
    cbn [concat]. rewrite first_answer_app. destruct (first_answer l) as [[[[? t] ?] x]|]; [|done].
    cbn [get_result] in Hend1. destruct (t =? kTypeValue); cbn [ends] in Hend1; [by destruct Hend1|discriminate Hend1].
Qed.

(** The searched lists run from newer to older files. *)
Lemma lists_sorted ls lists : (forall i, i ∈ ls -> i ∈ levels) -> StronglySorted Z.lt ls ->
  Forall2 (fun level l => searched (files level) l) ls lists ->
  StronglySorted (fun a b => a = b \/ newer a b) (concat lists).
Proof.
  intros Hls Hso HF. induction HF as [|level l ls lists Hl HF IH]; [constructor|]. cbn [concat].
  apply StronglySorted_cons in Hso as [Hlt Hso]. apply StronglySorted_app. split_and!.
  - intros a b Ha (k & [n Hn']%list_elem_of_lookup & Hb)%elem_of_concat. right.
    destruct (Forall2_lookup_r _ _ _ _ _ HF Hn') as (j & Hj & Hs').
    apply list_elem_of_lookup_2 in Hj. rewrite Forall_forall in Hlt.
    apply (nf_levels Hnf level j); [apply Hls; by left|apply Hls; by right|by apply Hlt|by apply Hl|by apply Hs'].
  - destruct Hl as [Hin _ Hsl]. assert (level ∈ levels) as Hlevel by (apply Hls; by left).
    clear -Hin Hsl Hlevel Hnf. induction Hsl as [|a l Hsl IH Ha]; constructor.
    + apply IH. intros; apply Hin. by right.
    + rewrite Forall_forall in Ha |- *. intros b Hb. specialize (Ha b Hb).
      destruct (decide (number_of a = number_of b)).
      * left. apply (nf_distinct Hnf level); [done|apply Hin; by left|apply Hin; by right|done].
      * right. apply (nf_numbers Hnf level); [done|apply Hin; by left|apply Hin; by right|lia].
  - apply IH; [intros; apply Hls; by right|done].
Qed.

Lemma first_answer_None l : first_answer l = None <-> forall a, a ∈ l -> answer a = None.
Proof.
  induction l as [|a l IH]; cbn [first_answer]; [split; [intros _ a Ha; by apply elem_of_nil in Ha|done]|].
  destruct (answer a) as [e|] eqn:Ea.
  - split; [done|]. intros H. specialize (H a ltac:(by left)). congruence.
  - rewrite IH. split; [intros H b [->|Hb]%elem_of_cons; [done|by apply H]|intros H b Hb; apply H; by right].
Qed.
Lemma first_answer_Some l e : first_answer l = Some e ->
  exists l1 a l2, l = l1 ++ a :: l2 /\ answer a = Some e /\ forall b, b ∈ l1 -> answer b = None.
Proof.
  induction l as [|a l IH]; cbn [first_answer]; [done|]. destruct (answer a) as [e'|] eqn:Ea.
  - intros [= ->]. exists [], a, l. split_and!; [done|done|]. intros b Hb. by apply elem_of_nil in Hb.
  - intros (l1 & b & l2 & -> & Hb & Hn1)%IH. exists (a :: l1), b, l2. split_and!; [done|done|].
    intros c [->|Hc']%elem_of_cons; [done|by apply Hn1].
Qed.
Lemma all_entries_spec e : e ∈ all_entries <-> exists i a, i ∈ levels /\ a ∈ files i /\ e ∈ es a.
Proof.
  unfold all_entries, level_entries. rewrite elem_of_concat. split.
  - intros (l & (i & -> & Hi)%list_elem_of_fmap & (l' & (a & -> & Ha)%list_elem_of_fmap & He)%elem_of_concat).
    by exists i, a.
  - intros (i & a & Hi & Ha & He). exists (concat (es <$> files i)).
    split; [apply list_elem_of_fmap; by exists i|]. apply elem_of_concat. exists (es a).
    split; [apply list_elem_of_fmap; by exists a|done].
Qed.
Lemma newest_unique_max l e : e ∈ l -> visible ucmp ukey s e = true ->
  (forall e', e' ∈ l -> visible ucmp ukey s e' = true -> e' = e \/ entry_seq e' < entry_seq e) ->
  newest ucmp ukey s l = Some e.
Proof.
  intros Hin Hvis Hmax. destruct (newest ucmp ukey s l) as [e2|] eqn:E2.
  - destruct (newest_in ucmp ukey s l e2 E2) as [Hin2 Hv2].
    pose proof (newest_max ucmp ukey s l e2 E2 e Hin Hvis). destruct (Hmax e2 Hin2 Hv2) as [->|]; [done|lia].
  - pose proof (newest_None ucmp ukey s l E2 e Hin). congruence.
Qed.
Lemma visible_same_key e e' : point_entry e -> point_entry e' -> visible ucmp ukey s e = true ->
  visible ucmp ukey s e' = true -> Compare ucmp (user_key (fst (to_ientry e))) (user_key (fst (to_ientry e'))) = 0.
Proof.
  intros He He' Hv1 Hv2. rewrite (visible_key e He Hv1), (visible_key e' He' Hv2).
  by apply (@cmp_refl ucmp bytes_ok Hc).
Qed.

Lemma first_answer_newest lists : Forall2 (fun level l => searched (files level) l) levels lists ->
  first_answer (concat lists) = newest ucmp ukey s all_entries.
Proof.
  intros HF. pose proof (lists_sorted levels lists (fun i Hi => Hi) ltac:(by repeat constructor) HF) as Hso.
  assert (forall i b, i ∈ levels -> b ∈ files i -> answer b <> None -> b ∈ concat lists) as Hall.
  { intros i b Hi Hb Hans. apply list_elem_of_lookup in Hi as [n Hi].
    destruct (Forall2_lookup_l _ _ _ _ _ HF Hi) as (l & Hl & Hse).
    apply elem_of_concat. exists l. split; [by eapply list_elem_of_lookup_2|by apply Hse]. }
  assert (forall a, a ∈ concat lists -> exists i, i ∈ levels /\ a ∈ files i) as Hin.
  { intros a (l & [n Hl]%list_elem_of_lookup & Ha)%elem_of_concat. destruct (Forall2_lookup_r _ _ _ _ _ HF Hl) as (i & Hi & Hse).
    exists i. split; [by eapply list_elem_of_lookup_2|by apply Hse]. }
  assert (forall i a e, i ∈ levels -> a ∈ files i -> e ∈ es a -> point_entry e) as Hpt.
  { intros i a e Hi Ha He. destruct (Hv i Hi) as [_ Hf]. destruct (Hf a Ha) as [Hp _ _ _ _ _].
    rewrite Forall_forall in Hp. by apply Hp. }
  destruct (first_answer (concat lists)) as [e|] eqn:E.
  - symmetry. apply first_answer_Some in E as (l1 & a & l2 & El & Ea & Hl1).
    destruct (newest_in ucmp ukey s (es a) e Ea) as [Hea Hve].
    destruct (Hin a ltac:(rewrite El; set_solver)) as (i & Hi & Hai).
    apply newest_unique_max; [apply all_entries_spec; by exists i, a|done|].
    intros e' (j & b & Hj & Hb & Heb)%all_entries_spec Hve'.
    assert (answer b <> None) as Hans.
    { intros Eb. pose proof (newest_None ucmp ukey s (es b) Eb e' Heb). congruence. }
    specialize (Hall j b Hj Hb Hans). rewrite El in Hall, Hso.
    apply elem_of_app in Hall as [Hb1|[->|Hb2]%elem_of_cons].
    + by rewrite (Hl1 b Hb1) in Hans.
    + destruct (decide (entry_seq e' < entry_seq e)); [by right|left].
      pose proof (newest_max ucmp ukey s (es a) e Ea e' Heb Hve'). destruct (Hv i Hi) as [_ Hf].
      apply (newest_unique (es a)); [by apply (fo_nodup a (Hf a Hai))|done|done|lia].
    + apply StronglySorted_app_1_r, StronglySorted_cons in Hso as [Ha _].
      rewrite Forall_forall in Ha. destruct (Ha b Hb2) as [<-|Hnew].
      * destruct (decide (entry_seq e' < entry_seq e)); [by right|left].
        pose proof (newest_max ucmp ukey s (es a) e Ea e' Heb Hve'). destruct (Hv i Hi) as [_ Hf].
        apply (newest_unique (es a)); [by apply (fo_nodup a (Hf a Hai))|done|done|lia].
      * right. apply (Hnew e e' Hea Heb). by apply visible_same_key; [apply (Hpt i a)|apply (Hpt j b)|..].
  - symmetry. rewrite first_answer_None in E. destruct (newest ucmp ukey s all_entries) as [e|] eqn:En; [|done].
    destruct (newest_in ucmp ukey s _ e En) as [(i & a & Hi & Ha & He)%all_entries_spec Hve].
    assert (answer a = None) as Hno.
    { destruct (answer a) eqn:Ea; [|done]. rewrite <- Ea. apply E, (Hall i a Hi Ha). congruence. }
    pose proof (newest_None ucmp ukey s (es a) Hno e He). congruence.
Qed.

(** The files of all levels. *)
Definition all_files : list Z := concat ((fun level => files level) <$> levels).
Lemma all_files_spec a : a ∈ all_files <-> exists i, i ∈ levels /\ a ∈ files i.
Proof.
  unfold all_files. rewrite elem_of_concat. split.
  - intros (l & (i & -> & Hi)%list_elem_of_fmap & Ha). by exists i.
  - intros (i & Hi & Ha). exists (files i). split; [apply list_elem_of_fmap; by exists i|done].
Qed.
Lemma Version_Get_newest t m value : (forall a, a ∈ all_files -> held t a /\ filter_sound m a) ->
  exists st r, Get ucmp policy h verify fill v t m (mkLookupKey ukey s) value = Some (st, r) /\
    match get_result (newest ucmp ukey s all_entries) with
    | Found x => st = OK /\ rd_value r = x
    | _ => st = NotFound []
    end /\
    forall a, a ∈ all_files -> held (rd_cache r) a /\ filter_sound (rd_filters r) a.
Proof.
  intros Ht. unfold Get. rewrite lookup_user_key_mk.
  match goal with |- context [Get_loop _ _ _ _ _ _ ?r0] => set (r := r0) end.
  destruct (Get_loop_ok levels (fun i Hi => Hi) r all_files) as (r' & res & lists & -> & Hr' & HF & Hend).
  - intros i a Hi Ha. apply all_files_spec. by exists i.
  - intros b (i & Hi & Hb)%all_files_spec. destruct (Hv i Hi) as [_ Hf]. by apply Hf.
  - exact Ht.
  - cbn [mbind option_bind]. rewrite (first_answer_newest lists HF) in Hend.
    exists (default (NotFound []) res), r'. split; [done|]. split; [|done].
    destruct (get_result _); cbn [ends] in Hend.
    + destruct Hend as [-> ->]. done.
    + by rewrite Hend.
    + by rewrite Hend.
Qed.
End Levels.
End Get.

(** C9: Reads through a version find the newest entry: when the files of every level are
    placed by their guards ([version_ok]), older entries of a key are in higher levels or in
    lower file numbers ([newer_first]), and the table cache and the filters in memory
    serve the files, [Version::Get] ends without a failed read and answers with the newest
    entry of the key at the snapshot among all the files of the version: its value, or
    NotFound for a deletion or a key that is not there.  The cache and the filters
    keep serving the files. *)
Theorem version_get_newest (ucmp : Comparator) (Hc : ComparatorOk ucmp bytes_ok) (Hn : KeyNumOk ucmp bytes_ok)
  (Hid : cmp_identity ucmp) (T : Type) (HT : TableReads T) (HTok : TableReadsOk T ucmp)
  (policy : option FilterPolicy) (h : Files) (verify fill : bool) (es : Z -> list entry) (v : Version)
  (Hv : version_ok ucmp h es v) (Hnf : newer_first ucmp h es v)
  (ukey : bytes) (s : Z) (Hu : bytes_ok ukey) (Hul : blen ukey + 8 < 2 ^ 32) (Hs : 0 <= s <= kMaxSequenceNumber)
  (t : T) (m : FilterMap) (value : bytes)
  (Ht : forall a, a ∈ all_files v -> held ucmp h es t a /\ filter_sound policy h es m a) :
  exists st r, Get ucmp policy h verify fill v t m (mkLookupKey ukey s) value = Some (st, r) /\
    match get_result (newest ucmp ukey s (all_entries es v)) with
    | Found x => st = OK /\ rd_value r = x
    | _ => st = NotFound []
    end /\
    forall a, a ∈ all_files v -> held ucmp h es (rd_cache r) a /\ filter_sound policy h es (rd_filters r) a.
Proof. by apply Version_Get_newest. Qed.

(** ** An example *)

(** Tables in memory, read without a cache. *)
Definition MapTables : Type := gmap Z (list (bytes * bytes)).
#[export] Instance MapTables_reads : TableReads MapTables := {
  cache_Get A t _ _ n _ k arg saver :=
    match t !! n with
    | Some kv =>
        match first_ge (InternalKeyComparator BytewiseComparator) kv k with
        | Some i => match kv !! i with Some (y, v) => (OK, saver arg y v, t) | None => (OK, arg, t) end
        | None => (OK, arg, t)
        end
    | None => (NotFound [], arg, t)
    end }.
Lemma first_ge_lookup c kv k i : first_ge c kv k = Some i -> is_Some (kv !! i).
Proof.
  revert i. induction kv as [|[k' v'] kv IH]; intros i; cbn [first_ge]; [done|].
  destruct (_ <=? _); [by intros [= <-]|]. destruct (first_ge c kv k) as [j|]; [|done].
  intros [= <-]. by apply IH.
Qed.
#[export] Instance MapTables_ok : TableReadsOk MapTables BytewiseComparator.
Proof.
  refine {| holds_table t n _ kv := t !! n = Some kv |}.
  intros A t verify fill n size kv k arg saver Hn _. cbn [cache_Get MapTables_reads]. rewrite Hn.
  destruct (first_ge _ kv k) as [i|] eqn:E; [|by exists arg, t].
  destruct (first_ge_lookup _ _ _ _ E) as [[y v] Ei]. rewrite Ei. exists (saver arg y v), t.
  split_and!; [done|done|]. exists y, v. split; [done|by left].
Defined.

Lemma level_ok_nil ucmp h : level_ok ucmp h [] [] [].
Proof.
  split; try by constructor.
  - intros a [H|(g & H & _)]; by apply elem_of_nil in H.
  - intros a H. by apply elem_of_nil in H.
Qed.

Definition example_guard (k : bytes) (seq : Z) (metas : list Z) : GuardMetaData :=
  {| g_refs := 1; g_level := 1; g_number_segments := blen metas;
     g_guard_key := EncodeInternalKey {| user_key := k; sequence := seq; type := kTypeValue |};
     g_smallest := []; g_largest := []; g_files := []; g_file_metas := metas |}.
(** Level 0 has a newer value of [b]; in level 1 a file lies before the guard [b], one after. *)
Definition read_files : Files :=
  list_to_map [(1, example_file 21 [98] [98]); (2, example_file 15 [97] [97]); (3, example_file 16 [98] [99])].
Definition read_entries (a : Z) : list entry :=
  if a =? 1 then [(9, kTypeValue, [98], [200])]
  else if a =? 2 then [(3, kTypeValue, [97], [7])]
  else if a =? 3 then [(5, kTypeValue, [98], [100]); (4, kTypeDeletion, [99], [])]
  else [].
Definition read_version : Version :=
  {| v_refs := 1; files_ := [[1]; [2; 3]; []; []; []; []; []];
     guards_ := [[]; [example_guard [98] 4 [3]]; []; []; []; []; []];
     complete_guards_ := no_levels; sentinel_files_ := [[1]; [2]; []; []; []; []; []];
     sentinel_file_nos_ := no_levels; num_complete_guards_ := [0; 0; 0; 0; 0; 0; 0];
     file_to_compact_ := 0; file_to_compact_level_ := -1; num_files_read := 0 |}.
Definition read_tables : MapTables :=
  list_to_map [(21, iter_entries (to_ientry <$> read_entries 1));
               (15, iter_entries (to_ientry <$> read_entries 2));
               (16, iter_entries (to_ientry <$> read_entries 3))].

Lemma read_version_levels level : level ∈ levels ->
  level = 0 \/ level = 1 \/ at_level (files_ read_version) level = [] /\
    at_level (guards_ read_version) level = [] /\ at_level (sentinel_files_ read_version) level = [].
Proof.
  change levels with [0; 1; 2; 3; 4; 5; 6]. rewrite !elem_of_cons, elem_of_nil.
  intros [->|[->|[->|[->|[->|[->|[->|[]]]]]]]]; auto.
Qed.
Lemma read_files_ok a : a ∈ [1; 2; 3] -> file_ok BytewiseComparator read_files read_entries a.
Proof.
  rewrite !elem_of_cons, elem_of_nil. intros [->|[->|[->|[]]]]; split.
  all: try by repeat constructor.
  all: try (repeat constructor; rewrite ?elem_of_cons, ?elem_of_nil; vm_compute; naive_solver).
  all: intros e; cbn; rewrite ?elem_of_cons, ?elem_of_nil; intros Hin;
    repeat (destruct Hin as [->|Hin]; [by vm_compute|]); done.
Qed.
Lemma read_version_ok : version_ok BytewiseComparator read_files read_entries read_version.
Proof.
  intros level Hl. destruct (read_version_levels level Hl) as [->|[->|(-> & -> & ->)]].
  3:{ split; [apply level_ok_nil|]. intros a H. by apply elem_of_nil in H. }
  - change (at_level (files_ read_version) 0) with [1]. change (at_level (sentinel_files_ read_version) 0) with [1].
    split; [|intros a ->%list_elem_of_singleton; apply read_files_ok; by left].
    split; [by constructor..| | |].
    + intros a [H|(g & H & _)]; [done|by apply elem_of_nil in H].
    + by intros a ->%list_elem_of_singleton.
    + intros a H. left. by split.
  - change (at_level (files_ read_version) 1) with [2; 3].
    change (at_level (sentinel_files_ read_version) 1) with [2].
    change (at_level (guards_ read_version) 1) with [example_guard [98] 4 [3]]. split.
    2:{ intros a Ha. apply read_files_ok. by right. }
    split; [by repeat constructor..| | |].
    + intros a [->%list_elem_of_singleton|(g & ->%list_elem_of_singleton & ->%list_elem_of_singleton)];
        rewrite !elem_of_cons; auto.
    + intros a. rewrite !elem_of_cons, elem_of_nil. by intros [->|[->|[]]].
    + intros a. rewrite !elem_of_cons, elem_of_nil. intros [->|[->|[]]].
      * left. split; [by left|]. intros g [= <-]. by vm_compute.
      * right. exists 0%nat, (example_guard [98] 4 [3]). split_and!; [done|by left|by vm_compute|done].
Qed.
(** Every pair of files that the order compares. *)
Lemma read_newer a b : (a, b) ∈ [(1, 2); (1, 3); (3, 2)] -> newer BytewiseComparator read_entries a b.
Proof.
  rewrite !elem_of_cons, elem_of_nil. intros [[= -> ->]|[[= -> ->]|[[= -> ->]|[]]]] e e'; cbn;
    rewrite ?elem_of_cons, ?elem_of_nil; intros He He'; repeat (destruct He as [->|He]; [|try done]);
    repeat (destruct He' as [->|He']; [vm_compute; done|try done]).
Qed.
Lemma read_version_files level : level ∈ levels ->
  (level = 0 /\ at_level (files_ read_version) level = [1]) \/
  (level = 1 /\ at_level (files_ read_version) level = [2; 3]) \/ at_level (files_ read_version) level = [].
Proof. intros Hl. destruct (read_version_levels level Hl) as [->|[->|(-> & _)]]; auto. Qed.
Lemma read_version_newer : newer_first BytewiseComparator read_files read_entries read_version.
Proof.
  split.
  - intros i j a b Hi Hj Hij Ha Hb. apply read_newer.
    destruct (read_version_files i Hi) as [[-> E]|[[-> E]|E]], (read_version_files j Hj) as [[-> E']|[[-> E']|E']];
      rewrite E in Ha; rewrite E' in Hb; rewrite ?elem_of_cons, ?elem_of_nil in *; naive_solver lia.
  - intros i a b Hi Ha Hb Hlt. apply read_newer.
    destruct (read_version_files i Hi) as [[-> E]|[[-> E]|E]]; rewrite E in Ha, Hb;
      rewrite ?elem_of_cons, ?elem_of_nil in *; try done.
    + destruct Ha as [->|[]], Hb as [->|[]]. lia.
    + destruct Ha as [->|[->|[]]], Hb as [->|[->|[]]]; [by vm_compute in Hlt|by vm_compute in Hlt|auto|by vm_compute in Hlt].
  - intros i a b Hi Ha Hb. destruct (read_version_files i Hi) as [[-> E]|[[-> E]|E]]; rewrite E in Ha, Hb;
      rewrite ?elem_of_cons, ?elem_of_nil in *; try done; [naive_solver|].
    destruct Ha as [->|[->|[]]], Hb as [->|[->|[]]]; by vm_compute.
Qed.

Lemma version_get_newest_witness :
  exists r, Get BytewiseComparator None read_files true true read_version read_tables ∅
    (mkLookupKey [98] 6) [] = Some (OK, r) /\ rd_value r = [100].
Proof.
  destruct (version_get_newest BytewiseComparator _ _ Bytewise_identity MapTables _ _ None read_files true true
    read_entries read_version read_version_ok read_version_newer [98] 6) with (t := read_tables) (m := ∅ : FilterMap)
    (value := @nil Z) as (st & r & E & Hres & _).
  - by repeat constructor.
  - by vm_compute.
  - split; by vm_compute.
  - intros a Ha. change (a ∈ [1; 2; 3]) in Ha. rewrite !elem_of_cons, elem_of_nil in Ha.
    destruct Ha as [->|[->|[->|[]]]]; (split; [by vm_compute|intros f Hf; by vm_compute in Hf]).
  - change (newest _ _ _ _) with (Some (5, kTypeValue, [98], [100])) in Hres. destruct Hres as [-> Hval].
    by exists r.
Defined.
