(* ===== verification/VersionBuilder.v ===== *)
(** * Building the next version

    Models [VersionSet::Builder] of [src/pebblesdb/src/db/version_set.cc]: edits are
    collected level by level ([Apply]), and merged with the files and guards of the base
    version into a new one ([SaveTo]), whose files are then handed out to its guards
    ([PopulateFilesToGuardsAndSentinels]).

    [new FileMetaData] takes the next address of the store.  The sets of the builder are
    lists kept in their order; the null deletion set of a level is empty. *)

From stdpp Require Import gmap sorting.
From S2P Require Import Prelude Coding Status Comparator DbFormat VersionEdit MemTable TableGet Version.
From stdpp Require Import list.
#[local] Open Scope Z_scope.

(** The store of the objects [FileMetaData], and the next free address. *)
Record Store := { st_files : Files; st_next : Z }.
Definition alloc (st : Store) (f : FileMetaData) : Store * Z :=
  ({| st_files := <[st_next st := f]> (st_files st); st_next := st_next st + 1 |}, st_next st).
Definition set_files (st : Store) (h : Files) : Store := {| st_files := h; st_next := st_next st |}.

(** Conversion of a [uint64_t] to [int]. *)
Definition s32 (x : Z) : Z := let y := u32 x in if y <? 2 ^ 31 then y else y - 2 ^ 32.

(** ** The edits of a level *)

Record LevelState := {
  ls_deleted_files : gset Z;
  ls_added_files : list Z;
  ls_added_guards : list GuardMetaData;
  ls_added_complete_guards : list GuardMetaData;
  ls_deleted_guards : list bytes;
}.
Definition LevelState_new : LevelState :=
  {| ls_deleted_files := ∅; ls_added_files := []; ls_added_guards := [];
     ls_added_complete_guards := []; ls_deleted_guards := [] |}.
Abbreviation Builder := (list LevelState).
Definition Builder_new : Builder := replicate (Z.to_nat kNumLevels) LevelState_new.
Definition level_state (b : Builder) (level : Z) : LevelState := nth (Z.to_nat level) b LevelState_new.

(** Changes the state of [level]; an index outside the array is undefined. *)
Definition on_level (b : Builder) (level : Z) (f : LevelState -> LevelState) : option Builder :=
  if (0 <=? level) && (level <? kNumLevels) then Some (alter f (Z.to_nat level) b) else None.
Definition delete_file (number : Z) (s : LevelState) : LevelState :=
  {| ls_deleted_files := {[ number ]} ∪ ls_deleted_files s; ls_added_files := ls_added_files s;
     ls_added_guards := ls_added_guards s; ls_added_complete_guards := ls_added_complete_guards s;
     ls_deleted_guards := ls_deleted_guards s |}.
Definition set_added_files (s : LevelState) (l : list Z) (deleted : gset Z) : LevelState :=
  {| ls_deleted_files := deleted; ls_added_files := l;
     ls_added_guards := ls_added_guards s; ls_added_complete_guards := ls_added_complete_guards s;
     ls_deleted_guards := ls_deleted_guards s |}.
Definition set_added_guards (s : LevelState) (l : list GuardMetaData) : LevelState :=
  {| ls_deleted_files := ls_deleted_files s; ls_added_files := ls_added_files s;
     ls_added_guards := l; ls_added_complete_guards := ls_added_complete_guards s;
     ls_deleted_guards := ls_deleted_guards s |}.
Definition set_added_complete_guards (s : LevelState) (l : list GuardMetaData) : LevelState :=
  {| ls_deleted_files := ls_deleted_files s; ls_added_files := ls_added_files s;
     ls_added_guards := ls_added_guards s; ls_added_complete_guards := l;
     ls_deleted_guards := ls_deleted_guards s |}.
Definition set_deleted_guards (s : LevelState) (l : list bytes) : LevelState :=
  {| ls_deleted_files := ls_deleted_files s; ls_added_files := ls_added_files s;
     ls_added_guards := ls_added_guards s; ls_added_complete_guards := ls_added_complete_guards s;
     ls_deleted_guards := l |}.

Section Builder.
Context (ucmp : Comparator).
Abbreviation icmp := (InternalKey_Compare ucmp).

(** ** The orders of the sets *)

Definition BySmallestKey (f1 f2 : FileMetaData) : bool :=
  let r := icmp (f_smallest f1) (f_smallest f2) in
  if negb (r =? 0) then r <? 0 else f_number f1 <? f_number f2.
Definition BySmallestGuard (g1 g2 : GuardMetaData) : bool :=
  Compare ucmp (guard_user_key g1) (guard_user_key g2) <? 0.
Definition BySmallestInternalKey (k1 k2 : bytes) : bool := icmp k1 k2 <? 0.
Definition file_before (h : Files) (a b : Z) : bool := BySmallestKey (deref h a) (deref h b).
(** [count(x) > 0] in a set: an element that is neither before nor after [x]. *)
Definition set_has {A} (lt : A -> A -> bool) (x : A) (s : list A) : bool :=
  existsb (fun y => negb (lt x y) && negb (lt y x)) s.

(** ** Apply *)

Definition Apply_deleted_file (b : Builder) (p : Z * Z) : option Builder :=
  on_level b (fst p) (delete_file (snd p)).
(** [new FileMetaData(f)] with one reference and its seeks. *)
Definition new_file (f : FileMetaData) : FileMetaData :=
  let seeks := s32 (f_file_size f / 16384) in
  set_allowed_seeks (set_refs f 1) (if seeks <? 100 then 100 else seeks).
Definition Apply_new_file (sb : Store * Builder) (p : Z * FileMetaData) : option (Store * Builder) :=
  let '(st, b) := sb in
  let '(st, a) := alloc st (new_file (snd p)) in
  b ← on_level b (fst p) (fun s =>
        set_added_files s (set_insert (file_before (st_files st)) a (ls_added_files s))
          (ls_deleted_files s ∖ {[ f_number (snd p) ]}));
  Some (st, b).
Definition Apply_deleted_guard (b : Builder) (p : Z * bytes) : option Builder :=
  on_level b (fst p) (fun s =>
    set_deleted_guards s (set_insert BySmallestInternalKey (snd p) (ls_deleted_guards s))).
(** [new GuardMetaData(g)] of a level, without files. *)
Definition new_guard (level : Z) (g : GuardMetaData) : GuardMetaData :=
  {| g_refs := 1; g_level := level; g_number_segments := 0; g_guard_key := g_guard_key g;
     g_smallest := g_smallest g; g_largest := g_largest g; g_files := []; g_file_metas := g_file_metas g |}.
Definition Apply_guards (e : VersionEdit) (b : Builder) (level : Z) : option Builder :=
  on_level b level (fun s =>
    let s := fold_left (fun s g => set_added_guards s
               (set_insert BySmallestGuard (new_guard level g) (ls_added_guards s)))
               (at_level (new_guards_ e) level) s in
    fold_left (fun s g => set_added_complete_guards s
               (set_insert BySmallestGuard (new_guard level g) (ls_added_complete_guards s)))
               (at_level (new_complete_guards_ e) level) s).
(** [vset_->compact_pointer_\[level\] = key] *)
Definition Apply_pointer (cp : list bytes) (p : Z * bytes) : option (list bytes) :=
  if (0 <=? fst p) && (fst p <? kNumLevels) then Some (<[Z.to_nat (fst p) := snd p]> cp) else None.

Definition Apply (st : Store) (cp : list bytes) (b : Builder) (e : VersionEdit)
    : option (Store * list bytes * Builder) :=
  cp ← foldM Apply_pointer (compact_pointers_ e) cp;
  b ← foldM Apply_deleted_file (deleted_files_ e) b;
  '(st, b) ← foldM Apply_new_file (new_files_ e) (st, b);
  b ← foldM Apply_deleted_guard (deleted_guards_ e) b;
  b ← foldM (Apply_guards e) levels b;
  Some (st, cp, b).

(** ** SaveTo *)

Definition set_level {A} (v : list (list A)) (level : Z) (l : list A) : list (list A) :=
  <[Z.to_nat level := l]> v.
Definition set_version_files (v : Version) (fs : list (list Z)) : Version :=
  {| v_refs := v_refs v; files_ := fs; guards_ := guards_ v; complete_guards_ := complete_guards_ v;
     sentinel_files_ := sentinel_files_ v; sentinel_file_nos_ := sentinel_file_nos_ v;
     num_complete_guards_ := num_complete_guards_ v; file_to_compact_ := file_to_compact_ v;
     file_to_compact_level_ := file_to_compact_level_ v; num_files_read := num_files_read v |}.
Definition set_sentinels (v : Version) (fs : list (list Z)) : Version :=
  {| v_refs := v_refs v; files_ := files_ v; guards_ := guards_ v; complete_guards_ := complete_guards_ v;
     sentinel_files_ := fs; sentinel_file_nos_ := sentinel_file_nos_ v;
     num_complete_guards_ := num_complete_guards_ v; file_to_compact_ := file_to_compact_ v;
     file_to_compact_level_ := file_to_compact_level_ v; num_files_read := num_files_read v |}.
Definition set_num_complete (v : Version) (ns : list Z) : Version :=
  {| v_refs := v_refs v; files_ := files_ v; guards_ := guards_ v; complete_guards_ := complete_guards_ v;
     sentinel_files_ := sentinel_files_ v; sentinel_file_nos_ := sentinel_file_nos_ v;
     num_complete_guards_ := ns; file_to_compact_ := file_to_compact_ v;
     file_to_compact_level_ := file_to_compact_level_ v; num_files_read := num_files_read v |}.

(** *** Files *)

Definition MaybeAddFile (b : Builder) (level : Z) (sv : Store * Version) (a : Z) : Store * Version :=
  let '(st, v) := sv in
  let f := deref (st_files st) a in
  if decide (f_number f ∈ ls_deleted_files (level_state b level)) then (st, v)
  else (set_files st (<[a := set_refs f (f_refs f + 1)]> (st_files st)),
        set_version_files v (push_at (files_ v) level a)).
(** [std::upper_bound] on a range that is ordered: the elements before it, and the rest. *)
Fixpoint split_upper {A} (lt : A -> A -> bool) (x : A) (l : list A) : list A * list A :=
  match l with
  | [] => ([], [])
  | y :: l' => if lt x y then ([], l) else let '(pre, rest) := split_upper lt x l' in (y :: pre, rest)
  end.
(** Goes through the added elements and, before each, the base elements not past it. *)
Fixpoint merge_added {A S} (lt : A -> A -> bool) (add : S -> A -> S) (added base : list A) (s : S) : S :=
  match added with
  | [] => fold_left add base s
  | x :: added =>
      let '(pre, rest) := split_upper lt x base in
      merge_added lt add added rest (add (fold_left add pre s) x)
  end.
Definition save_files (b : Builder) (base : Version) (level : Z) (sv : Store * Version) : Store * Version :=
  merge_added (file_before (st_files (fst sv))) (MaybeAddFile b level)
    (ls_added_files (level_state b level)) (at_level (files_ base) level) sv.

(** *** Guards *)

(** The guard last added, or null. *)
Definition MaybeAddGuard (b : Builder) (level : Z) (vl : Version * option GuardMetaData) (g : GuardMetaData)
    : Version * option GuardMetaData :=
  let '(v, last_inserted) := vl in
  if match last_inserted with
     | Some l => Compare ucmp (guard_user_key g) (guard_user_key l) =? 0
     | None => false
     end then vl
  else if set_has BySmallestInternalKey (g_guard_key g) (ls_deleted_guards (level_state b level)) then vl
  else
    let new_g := {| g_refs := 1; g_level := g_level g; g_number_segments := 0; g_guard_key := g_guard_key g;
                    g_smallest := []; g_largest := []; g_files := []; g_file_metas := [] |} in
    (set_guards v (push_at (guards_ v) level new_g), Some g).
Definition save_guards (b : Builder) (base : Version) (level : Z) (v : Version) : Version :=
  fst (merge_added BySmallestGuard (MaybeAddGuard b level)
         (ls_added_guards (level_state b level)) (at_level (guards_ base) level) (v, None)).

Definition ref_guard (g : GuardMetaData) : GuardMetaData :=
  {| g_refs := g_refs g + 1; g_level := g_level g; g_number_segments := g_number_segments g;
     g_guard_key := g_guard_key g; g_smallest := g_smallest g; g_largest := g_largest g;
     g_files := g_files g; g_file_metas := g_file_metas g |}.
Definition AddCompleteGuard (b : Builder) (level : Z) (v : Version) (g : GuardMetaData) : Version :=
  if set_has BySmallestInternalKey (g_guard_key g) (ls_deleted_guards (level_state b level)) then v
  else set_complete_guards v (push_at (complete_guards_ v) level (ref_guard g)).
Definition MaybeAddCompleteGuard (b : Builder) (level : Z) (vl : Version * option GuardMetaData)
    (g : GuardMetaData) : Version * option GuardMetaData :=
  let '(v, last_inserted) := vl in
  if match last_inserted with
     | Some l => Compare ucmp (guard_user_key g) (guard_user_key l) =? 0
     | None => false
     end then vl
  else if set_has BySmallestInternalKey (g_guard_key g) (ls_deleted_guards (level_state b level)) then vl
  else (set_complete_guards v (push_at (complete_guards_ v) level (ref_guard g)), Some g).

(** The first index from [i] on whose guard is before its predecessor. *)
Fixpoint unsorted_from (cg : list GuardMetaData) (prev : option GuardMetaData) (i : nat) : nat :=
  match cg with
  | [] => i
  | g :: cg =>
      match prev with
      | Some p => if Compare ucmp (guard_user_key g) (guard_user_key p) <? 0 then i
                  else unsorted_from cg (Some g) (S i)
      | None => unsorted_from cg (Some g) (S i)
      end
  end.
Definition unsorted_start (cg : list GuardMetaData) (num_complete : Z) : nat :=
  let start := Z.to_nat (if num_complete <=? 0 then 1 else num_complete) in
  if (start <=? length cg)%nat then unsorted_from (drop start cg) (cg !! (start - 1)%nat) start
  else length cg.
Definition add_complete (level : Z) (e : option VersionEdit) (g : GuardMetaData) : option VersionEdit :=
  (fun e => AddCompleteGuardFromExisting e level g) <$> e.
Definition save_complete_guards (b : Builder) (base : Version) (level : Z)
    (ve : Version * option VersionEdit) : Version * option VersionEdit :=
  let '(v, e) := ve in
  let cg := at_level (complete_guards_ base) level in
  let num := nth (Z.to_nat level) (num_complete_guards_ base) 0 in
  let combined := ls_added_complete_guards (level_state b level) in
  let '(v, e) :=
    match cg with
    | [] => (fold_left (AddCompleteGuard b level) combined v, e)
    | _ =>
        let start := unsorted_start cg num in
        let combined := fold_left (fun s g => set_insert BySmallestGuard g s) (drop start cg) combined in
        let e := fold_left (add_complete level) (drop start cg) e in
        let e := fold_left (add_complete level) (reverse (drop (Z.to_nat num) (take start cg))) e in
        (fst (merge_added BySmallestGuard (MaybeAddCompleteGuard b level) combined (take start cg) (v, None)), e)
    end in
  (set_num_complete v (<[Z.to_nat level := blen (at_level (complete_guards_ v) level)]> (num_complete_guards_ v)), e).

(** *** Files of guards and sentinels *)

Definition IsFileAlreadyPresent (files : list Z) (current_file_number : Z) : bool :=
  existsb (fun n => n =? current_file_number) files.
Definition clear_guard (g : GuardMetaData) : GuardMetaData :=
  {| g_refs := g_refs g; g_level := g_level g; g_number_segments := 0; g_guard_key := g_guard_key g;
     g_smallest := g_smallest g; g_largest := g_largest g; g_files := []; g_file_metas := g_file_metas g |}.
(** Adds the file [a] to the guard, and widens the guard's range to it. *)
Definition add_to_guard (h : Files) (g : GuardMetaData) (first_entry : bool) (a : Z) : GuardMetaData :=
  let f := deref h a in
  {| g_refs := g_refs g; g_level := g_level g; g_number_segments := g_number_segments g + 1;
     g_guard_key := g_guard_key g;
     g_smallest := if first_entry || (icmp (f_smallest f) (g_smallest g) <? 0) then f_smallest f
                   else g_smallest g;
     g_largest := if first_entry || (0 <? icmp (f_largest f) (g_largest g)) then f_largest f
                  else g_largest g;
     g_files := g_files g ++ [f_number f]; g_file_metas := g_file_metas g ++ [a] |}.
(** The inner loop: files that end before the guard key [limit] (null for the last guard) go
    to the guard before it, or to the sentinels; gives the guard, the sentinels and the
    files left. *)
Fixpoint place_files (h : Files) (limit : option bytes) (g : option GuardMetaData) (first_entry : bool)
    (sentinels files : list Z) : option GuardMetaData * list Z * list Z :=
  match files with
  | [] => (g, sentinels, [])
  | a :: files' =>
      let f := deref h a in
      if match limit with Some k => icmp (f_largest f) k <? 0 | None => true end then
        match g with
        | None => place_files h limit g first_entry (sentinels ++ [a]) files'
        | Some g' =>
            if IsFileAlreadyPresent (g_files g') (f_number f)
            then place_files h limit g first_entry sentinels files'
            else place_files h limit (Some (add_to_guard h g' first_entry a)) false sentinels files'
        end
      else (g, sentinels, files)
  end.
(** The outer loop: [g] is the guard before the ones left, or null for the sentinels. *)
Fixpoint populate_level (h : Files) (g : option GuardMetaData) (guards : list GuardMetaData)
    (sentinels files : list Z) : list GuardMetaData * list Z :=
  let '(g, sentinels, files) :=
    place_files h (g_guard_key <$> head guards) g true sentinels files in
  let '(gs, sentinels) :=
    match guards with
    | [] => ([], sentinels)
    | g' :: guards => populate_level h (Some (clear_guard g')) guards sentinels files
    end in
  (option_list g ++ gs, sentinels).
Definition PopulateFilesToGuardsAndSentinels (h : Files) (v : Version) (level : Z) : Version :=
  let guards := at_level (guards_ v) level in
  let files := at_level (files_ v) level in
  match guards with
  | [] => set_sentinels v (set_level (sentinel_files_ v) level (at_level (sentinel_files_ v) level ++ files))
  | _ =>
      let '(gs, sentinels) := populate_level h None guards [] files in
      set_sentinels (set_guards v (set_level (guards_ v) level gs)) (set_level (sentinel_files_ v) level sentinels)
  end.

Definition save_level (b : Builder) (base : Version) (sve : Store * Version * option VersionEdit) (level : Z)
    : Store * Version * option VersionEdit :=
  let '(st, v, e) := sve in
  let '(st, v) := save_files b base level (st, v) in
  let v := save_guards b base level v in
  let '(v, e) := save_complete_guards b base level (v, e) in
  (st, PopulateFilesToGuardsAndSentinels (st_files st) v level, e).
Definition SaveTo (b : Builder) (base : Version) (st : Store) (v : Version) (e : option VersionEdit)
    : Store * Version * option VersionEdit :=
  fold_left (save_level b base) levels (st, v, e).

(** ~Builder: drops the references of the added files. *)
Definition unref_file (h : Files) (a : Z) : Files :=
  let f := deref h a in
  if f_refs f - 1 <=? 0 then delete a h else <[a := set_refs f (f_refs f - 1)]> h.
(** ~Version does so with a check: [assert(f->refs > 0); f->refs--;] and the deletion; a
    freed file is undefined. *)
Definition drop_file (h : Files) (a : Z) : option Files :=
  f ← h !! a; if 0 <? f_refs f then Some (unref_file h a) else None.
Definition Builder_destroy (b : Builder) (st : Store) : Store :=
  set_files st (fold_left (fun h s => fold_left unref_file (ls_added_files s) h) b (st_files st)).
End Builder.
