(* ===== verification/VersionBuilderProofs.v ===== *)
(** * Building the next version: what the builder promises

    The merge keeps the order and the elements; a new version has the files of the base
    that were not deleted and the files added, its guards are strictly ordered, and every
    file is placed with the guard the reads look in. *)

From stdpp Require Import gmap sorting.
From S2P Require Import Prelude Coding Status Comparator DbFormat Bloom Iterator VersionEdit.
From S2P Require Import MemTable TableSpec TableGet Version VersionProofs VersionGet VersionBuilder.
From stdpp Require Import list.
#[local] Open Scope Z_scope.

(** ** Ordered sets and merges *)

Section Merge.
Context {A : Type} (lt : A -> A -> bool) (P : A -> Prop).
(** A strict weak order on the elements [P]; [ord_le] is its complement. *)
Class StrictWeak := {
  sw_irrefl : forall a, P a -> lt a a = false;
  sw_le_trans : forall a b c, P a -> P b -> P c -> lt b a = false -> lt c b = false -> lt c a = false;
  sw_asym : forall a b, P a -> P b -> lt a b = true -> lt b a = false;
}.
Context {Hsw : StrictWeak}.
Definition ord_le (a b : A) : Prop := lt b a = false.

(** The elements of a merge, in the order they are visited. *)
Fixpoint merge_order (added base : list A) : list A :=
  match added with
  | [] => base
  | x :: added => let '(pre, rest) := split_upper lt x base in pre ++ x :: merge_order added rest
  end.
Lemma merge_added_order {S} (add : S -> A -> S) added : forall base s,
  merge_added lt add added base s = fold_left add (merge_order added base) s.
Proof.
  induction added as [|x added IH]; intros base s; cbn [merge_added merge_order]; [done|].
  destruct (split_upper lt x base) as [pre rest]. rewrite fold_left_app. cbn [fold_left]. apply IH.
Qed.
Lemma split_upper_app x l : forall pre rest, split_upper lt x l = (pre, rest) -> l = pre ++ rest.
Proof.
  induction l as [|y l IH]; intros pre rest; cbn [split_upper]; [by intros [= <- <-]|].
  destruct (lt x y); [by intros [= <- <-]|]. destruct (split_upper lt x l) as [p r].
  intros [= <- <-]. cbn. f_equal. by apply IH.
Qed.
Lemma merge_order_perm added : forall base, merge_order added base ≡ₚ added ++ base.
Proof.
  induction added as [|x added IH]; intros base; cbn [merge_order app]; [done|].
  destruct (split_upper lt x base) as [pre rest] eqn:E. rewrite (split_upper_app x base pre rest E), IH.
  rewrite <- Permutation_middle. f_equiv. rewrite !(assoc_L (++)). f_equiv. apply Permutation_app_comm.
Qed.
Lemma split_upper_bounds x l : P x -> Forall P l -> StronglySorted ord_le l ->
  forall pre rest, split_upper lt x l = (pre, rest) -> Forall (fun y => ord_le y x) pre /\ Forall (ord_le x) rest.
Proof.
  intros Hx HP Hs. induction Hs as [|y l Hs IH Hy]; intros pre rest; cbn [split_upper];
    [by intros [= <- <-]|]. inversion_clear HP as [|? ? Hpy HP']. destruct (lt x y) eqn:E.
  - intros [= <- <-]. split; [done|]. constructor; [by apply sw_asym|].
    apply Forall_forall. intros z Hz. rewrite Forall_forall in Hy, HP'.
    apply (sw_le_trans x y z); [done|done|by apply HP'|by apply sw_asym|by apply Hy].
  - destruct (split_upper lt x l) as [p r]. intros [= <- <-]. destruct (IH HP' p r eq_refl). split; [by constructor|done].
Qed.
Lemma merge_order_sorted added : forall base, Forall P added -> Forall P base ->
  StronglySorted ord_le added -> StronglySorted ord_le base -> StronglySorted ord_le (merge_order added base).
Proof.
  induction added as [|x added IH]; intros base Ha Hb Hsa Hsb; cbn [merge_order]; [done|].
  destruct (split_upper lt x base) as [pre rest] eqn:E. pose proof (split_upper_app x base pre rest E) as Hbase.
  apply Forall_cons in Ha as [Hx Ha]. apply StronglySorted_cons in Hsa as [Hxa Hsa].
  destruct (split_upper_bounds x base Hx Hb Hsb pre rest E) as [Hpre Hrest]. subst base.
  apply Forall_app in Hb as [Hbp Hbr]. apply StronglySorted_app in Hsb as (Hpr & Hsp & Hsr).
  assert (Forall (ord_le x) (merge_order added rest)) as Hge by (rewrite merge_order_perm; by apply Forall_app).
  assert (Forall P (merge_order added rest)) as HPm by (rewrite merge_order_perm; by apply Forall_app).
  apply StronglySorted_app. split_and!; [|done|by constructor; [apply IH|]].
  intros a b Hain [->|Hbin]%elem_of_cons; [by rewrite Forall_forall in Hpre; apply Hpre|].
  rewrite Forall_forall in Hpre, Hge, HPm, Hbp.
  apply (sw_le_trans a x b); [by apply Hbp|done|by apply HPm|by apply Hpre|by apply Hge].
Qed.

(** [std::set::insert] keeps a strictly increasing list. *)
Definition ord_lt (a b : A) : Prop := lt a b = true.
Lemma slt_le_trans a b c : P a -> P b -> P c -> ord_lt a b -> ord_le b c -> ord_lt a c.
Proof.
  intros Ha Hb Hc Hab Hbc. unfold ord_lt. destruct (lt a c) eqn:E; [done|].
  pose proof (sw_le_trans b c a Hb Hc Ha Hbc E). congruence.
Qed.
Lemma set_insert_elem x y s : y ∈ set_insert lt x s -> y = x \/ y ∈ s.
Proof.
  induction s as [|z s IH]; cbn [set_insert]; [by intros ->%list_elem_of_singleton; left|].
  destruct (lt x z); [by intros [->|]%elem_of_cons; auto|].
  destruct (lt z x); [|by right]. intros [->|Hy]%elem_of_cons; [right; by left|].
  destruct (IH Hy); [by left|right; by right].
Qed.
Lemma set_insert_sorted x s : P x -> Forall P s -> StronglySorted ord_lt s -> StronglySorted ord_lt (set_insert lt x s).
Proof.
  intros Hx HP Hs. induction Hs as [|y s Hs IH Hy]; cbn [set_insert]; [by repeat constructor|].
  inversion_clear HP as [|? ? Hpy HP']. destruct (lt x y) eqn:E.
  - constructor; [by constructor|]. constructor; [done|]. rewrite Forall_forall in *. intros z Hz.
    apply (slt_le_trans x y z); [done|done|by apply HP'|done|]. apply sw_asym; [done|by apply HP'|by apply Hy].
  - destruct (lt y x) eqn:E'; [|by constructor]. constructor; [by apply IH|].
    rewrite Forall_forall in *. intros z [->|Hz]%set_insert_elem; [done|by apply Hy].
Qed.
Lemma set_insert_valid x s : P x -> Forall P s -> Forall P (set_insert lt x s).
Proof.
  intros Hx Hs. rewrite Forall_forall in *. intros y [->|Hy]%set_insert_elem; [done|by apply Hs].
Qed.
(** The set gets the element, unless it has an equivalent one. *)
Lemma set_insert_has x s : exists y, y ∈ set_insert lt x s /\ (y = x \/ lt x y = false /\ lt y x = false).
Proof.
  induction s as [|y s (z & Hz & H)]; cbn [set_insert]; [exists x; split; [by left|by left]|].
  destruct (lt x y) eqn:E; [exists x; split; [by left|by left]|].
  destruct (lt y x) eqn:E'; [exists z; split; [by right|done]|]. exists y. split; [by left|by right].
Qed.
Lemma set_insert_mono x y s : y ∈ s -> y ∈ set_insert lt x s.
Proof.
  induction s as [|z s IH]; cbn [set_insert]; intros Hy; [by apply elem_of_nil in Hy|].
  destruct (lt x z); [by right|]. destruct (lt z x); [|done].
  apply elem_of_cons in Hy as [->|Hy]; [by left|right; by apply IH].
Qed.
Lemma slt_sorted_le s : Forall P s -> StronglySorted ord_lt s -> StronglySorted ord_le s.
Proof.
  intros HP Hs. induction Hs as [|y s Hs IH Hy]; [constructor|]. inversion_clear HP as [|? ? Hpy HP'].
  constructor; [by apply IH|]. rewrite Forall_forall in *. intros z Hz. apply sw_asym; [done|by apply HP'|by apply Hy].
Qed.
End Merge.
Arguments StrictWeak {A}.

Section Orders.
Context (ucmp : Comparator) (Hc : ComparatorOk ucmp bytes_ok).
Abbreviation icmp := (InternalKey_Compare ucmp).
Abbreviation ivalid := (internal_valid bytes_ok).

Lemma icmp_sym a b : ivalid a -> ivalid b -> (icmp a b < 0 <-> 0 < icmp b a).
Proof. by apply (@cmp_antisym _ _ (icmp_ok ucmp Hc)). Qed.
Lemma icmp_le_trans a b c : ivalid a -> ivalid b -> ivalid c -> icmp a b <= 0 -> icmp b c <= 0 -> icmp a c <= 0.
Proof. by apply (@cmp_trans _ _ (icmp_ok ucmp Hc)). Qed.

Lemma icmp_zero a b : ivalid a -> ivalid b -> icmp a b = 0 -> icmp b a = 0.
Proof. intros Ha Hb E. pose proof (icmp_sym a b Ha Hb). pose proof (icmp_sym b a Hb Ha). lia. Qed.
Lemma icmp_squeeze a b c : ivalid a -> ivalid b -> ivalid c -> icmp a b <= 0 -> icmp b c <= 0 -> icmp a c = 0 ->
  icmp a b = 0 /\ icmp b c = 0.
Proof.
  intros Ha Hb Hcc Hab Hbc E. apply icmp_zero in E; [|done..].
  pose proof (icmp_le_trans c a b Hcc Ha Hb ltac:(lia) Hab). pose proof (icmp_le_trans b c a Hb Hcc Ha Hbc ltac:(lia)).
  pose proof (icmp_sym a b Ha Hb). pose proof (icmp_sym b a Hb Ha).
  pose proof (icmp_sym b c Hb Hcc). pose proof (icmp_sym c b Hcc Hb). lia.
Qed.
Lemma BySmallestKey_false f g : ivalid (f_smallest f) -> ivalid (f_smallest g) ->
  BySmallestKey ucmp g f = false <->
  icmp (f_smallest f) (f_smallest g) < 0 \/
  (icmp (f_smallest f) (f_smallest g) = 0 /\ f_number f <= f_number g).
Proof.
  intros Hf Hg. unfold BySmallestKey.
  pose proof (icmp_sym (f_smallest f) (f_smallest g) Hf Hg). pose proof (icmp_sym (f_smallest g) (f_smallest f) Hg Hf).
  destruct (Z.eqb_spec (icmp (f_smallest g) (f_smallest f)) 0); cbn [negb]; rewrite Z.ltb_ge; lia.
Qed.
#[export] Instance file_before_weak h :
  StrictWeak (file_before ucmp h) (fun a => ivalid (f_smallest (deref h a))).
Proof.
  split.
  - intros a Ha. apply BySmallestKey_false; [done..|]. right.
    split; [by apply (@cmp_refl _ _ (icmp_ok ucmp Hc))|lia].
  - intros a b c Ha Hb Hcc. unfold file_before. rewrite !BySmallestKey_false by done. intros H1 H2.
    pose proof (icmp_le_trans (f_smallest (deref h a)) (f_smallest (deref h b)) (f_smallest (deref h c)) Ha Hb Hcc ltac:(lia) ltac:(lia)).
    destruct (Z.eq_dec (icmp (f_smallest (deref h a)) (f_smallest (deref h c))) 0) as [E|]; [|lia].
    destruct (icmp_squeeze (f_smallest (deref h a)) (f_smallest (deref h b)) (f_smallest (deref h c))) as [E1 E2];
      [done..|lia|lia|done|lia].
  - intros a b Ha Hb Hlt. unfold file_before in *. apply BySmallestKey_false; [done..|].
    apply not_false_iff_true in Hlt. destruct (Z.lt_total (icmp (f_smallest (deref h a)) (f_smallest (deref h b))) 0) as [|[E|E]];
      [by left| |].
    + right. split; [done|]. apply Z.lt_le_incl, Z.nle_gt. intros Hn. apply Hlt. apply BySmallestKey_false; [done..|].
      right. pose proof (icmp_sym (f_smallest (deref h a)) (f_smallest (deref h b)) Ha Hb).
      pose proof (icmp_sym (f_smallest (deref h b)) (f_smallest (deref h a)) Hb Ha). lia.
    + destruct Hlt. apply BySmallestKey_false; [done..|]. left.
      pose proof (icmp_sym (f_smallest (deref h b)) (f_smallest (deref h a)) Hb Ha). lia.
Qed.

Abbreviation gvalid := (fun g => bytes_ok (guard_user_key g)).
#[export] Instance BySmallestGuard_weak : StrictWeak (BySmallestGuard ucmp) gvalid.
Proof.
  unfold BySmallestGuard. split.
  - intros a Ha. rewrite (@cmp_refl ucmp bytes_ok Hc) by done. done.
  - intros a b c Ha Hb Hcc. rewrite !Z.ltb_ge. rewrite !(@cmp_ge_le ucmp bytes_ok Hc) by done.
    by apply (@cmp_trans ucmp bytes_ok Hc).
  - intros a b Ha Hb. rewrite Z.ltb_lt, Z.ltb_ge. intros Hlt. apply (@cmp_antisym ucmp bytes_ok Hc) in Hlt; [lia|done..].
Qed.
End Orders.

(** ** Placing the files of a level *)

Section Populate.
Context (ucmp : Comparator) (Hc : ComparatorOk ucmp bytes_ok) (h : Files).
Abbreviation icmp := (InternalKey_Compare ucmp).
Abbreviation ivalid := (internal_valid bytes_ok).
Abbreviation number a := (f_number (deref h a)).

(** A guard with the files of a segment. *)
Definition fill_guard (g : GuardMetaData) (first : bool) (seg : list Z) : GuardMetaData :=
  fst (fold_left (fun s a => (add_to_guard ucmp h (fst s) (snd s) a, false)) seg (g, first)).
Lemma fill_guard_cons g first a seg :
  fill_guard g first (a :: seg) = fill_guard (add_to_guard ucmp h g first a) false seg.
Proof. done. Qed.
Lemma fill_guard_fields seg : forall g first,
  g_guard_key (fill_guard g first seg) = g_guard_key g /\
  g_file_metas (fill_guard g first seg) = g_file_metas g ++ seg /\
  g_files (fill_guard g first seg) = g_files g ++ ((fun a => number a) <$> seg) /\
  g_number_segments (fill_guard g first seg) = g_number_segments g + blen seg.
Proof.
  induction seg as [|a seg IH]; intros g first.
  - cbn. rewrite !app_nil_r. split_and!; [done..|]. unfold blen. cbn. lia.
  - rewrite fill_guard_cons. destruct (IH (add_to_guard ucmp h g first a) false) as (-> & -> & -> & ->).
    cbn [add_to_guard g_guard_key g_file_metas g_files g_number_segments]. rewrite blen_cons, <- !app_assoc.
    split_and!; [done..|lia].
Qed.

(** The file ends before the guard key. *)
Definition ends_before (limit : option bytes) (a : Z) : bool :=
  match limit with Some k => icmp (f_largest (deref h a)) k <? 0 | None => true end.

Lemma IsFileAlreadyPresent_false l n : n ∉ l -> IsFileAlreadyPresent l n = false.
Proof.
  intros Hn. unfold IsFileAlreadyPresent. apply not_true_iff_false. intros (x & Hx & E%Z.eqb_eq)%existsb_exists.
  subst. by apply list_elem_of_In in Hx.
Qed.
Lemma place_files_sentinel limit first files : forall sentinels, exists seg rest,
  place_files ucmp h limit None first sentinels files = (None, sentinels ++ seg, rest) /\ files = seg ++ rest /\
  Forall (fun a => ends_before limit a = true) seg /\
  (forall a, head rest = Some a -> ends_before limit a = false).
Proof.
  induction files as [|a files IH]; intros sentinels; cbn [place_files].
  - exists [], []. rewrite app_nil_r. by split_and!.
  - fold (ends_before limit a). destruct (ends_before limit a) eqn:E.
    + destruct (IH (sentinels ++ [a])) as (seg & rest & -> & -> & Hseg & Hrest).
      exists (a :: seg), rest. rewrite <- app_assoc. split_and!; [done|done|by constructor|done].
    + exists [], (a :: files). rewrite app_nil_r. split_and!; [done|done|done|]. by intros ? [= <-].
Qed.
Lemma place_files_guard limit files : forall first g sentinels,
  NoDup ((fun a => number a) <$> files) -> (forall a, a ∈ files -> number a ∉ g_files g) ->
  exists seg rest,
    place_files ucmp h limit (Some g) first sentinels files = (Some (fill_guard g first seg), sentinels, rest) /\
    files = seg ++ rest /\ Forall (fun a => ends_before limit a = true) seg /\
    (forall a, head rest = Some a -> ends_before limit a = false).
Proof.
  induction files as [|a files IH]; intros first g sentinels Hnd Hdis; cbn [place_files].
  - exists [], []. by split_and!.
  - fold (ends_before limit a). destruct (ends_before limit a) eqn:E.
    + rewrite IsFileAlreadyPresent_false by (apply Hdis; by left).
      apply NoDup_cons in Hnd as [Hna Hnd].
      destruct (IH false (add_to_guard ucmp h g first a) sentinels Hnd) as (seg & rest & -> & -> & Hseg & Hrest).
      { intros b Hb. cbn [add_to_guard g_files]. intros [Hin|Heq%list_elem_of_singleton]%elem_of_app.
        - by apply (Hdis b ltac:(by right)).
        - apply Hna. rewrite <- Heq. apply list_elem_of_fmap. by exists b. }
      exists (a :: seg), rest. split_and!; [done|done|by constructor|done].
    + exists [], (a :: files). split_and!; [done|done|done|]. by intros ? [= <-].
Qed.

(** The segments: the first for the sentinels, then one for each guard. *)
Inductive segmented : list GuardMetaData -> list (list Z) -> Prop :=
  | seg_last seg : segmented [] [seg]
  | seg_next g gs seg segs : segmented gs segs ->
      Forall (fun a => ends_before (Some (g_guard_key g)) a = true) seg ->
      (forall a, head (concat segs) = Some a -> ends_before (Some (g_guard_key g)) a = false) ->
      segmented (g :: gs) (seg :: segs).
Fixpoint fill_all (gs : list GuardMetaData) (segs : list (list Z)) : list GuardMetaData :=
  match gs, segs with
  | g :: gs, seg :: segs => fill_guard (clear_guard g) true seg :: fill_all gs segs
  | _, _ => []
  end.

Lemma populate_guard gs : forall g sentinels files,
  NoDup ((fun a => number a) <$> files) -> g_files g = [] -> exists seg segs,
    populate_level ucmp h (Some g) gs sentinels files = (fill_guard g true seg :: fill_all gs segs, sentinels) /\
    files = concat (seg :: segs) /\ segmented gs (seg :: segs).
Proof.
  induction gs as [|g' gs IH]; intros g sentinels files Hnd Hg; cbn [populate_level].
  - destruct (place_files_guard (g_guard_key <$> head []) files true g sentinels Hnd)
      as (seg & rest & -> & Hf & _ & Hrest); [intros; rewrite Hg; by apply not_elem_of_nil|].
    assert (rest = []) as -> by (destruct rest as [|a rest]; [done|specialize (Hrest a eq_refl); done]).
    exists seg, []. cbn. rewrite Hf, !app_nil_r. split_and!; [done..|constructor].
  - destruct (place_files_guard (g_guard_key <$> head (g' :: gs)) files true g sentinels Hnd)
      as (seg & rest & -> & Hf & Hseg & Hrest); [intros; rewrite Hg; by apply not_elem_of_nil|].
    assert (NoDup ((fun a => number a) <$> rest)) as Hndr.
    { rewrite Hf, fmap_app in Hnd. by apply NoDup_app in Hnd as (_ & _ & ?). }
    destruct (IH (clear_guard g') sentinels rest Hndr eq_refl) as (seg' & segs & -> & Hr & Hs).
    exists seg, (seg' :: segs). cbn [option_list app fill_all]. split; [done|]. split; [cbn; cbn in Hr; by rewrite <- Hr|].
    constructor; [done|done|]. by rewrite <- Hr.
Qed.
Lemma populate_segments g gs files : NoDup ((fun a => number a) <$> files) -> exists seg segs,
  populate_level ucmp h None (g :: gs) [] files = (fill_all (g :: gs) segs, seg) /\
  files = concat (seg :: segs) /\ segmented (g :: gs) (seg :: segs).
Proof.
  intros Hnd. cbn [populate_level].
  destruct (place_files_sentinel (g_guard_key <$> head (g :: gs)) true files []) as (seg & rest & -> & Hf & Hseg & Hrest).
  cbn [app].
  assert (NoDup ((fun a => number a) <$> rest)) as Hndr.
  { rewrite Hf, fmap_app in Hnd. by apply NoDup_app in Hnd as (_ & _ & ?). }
  destruct (populate_guard gs (clear_guard g) seg rest Hndr eq_refl) as (seg' & segs & -> & Hr & Hs).
  exists seg, (seg' :: segs). cbn [option_list app fill_all]. split; [done|]. split; [cbn; cbn in Hr; by rewrite <- Hr|].
  constructor; [done|done|]. by rewrite <- Hr.
Qed.

(** The file is on one side of the guard: it ends before the guard's user key, or it
    starts at or past it, and then it does not end before the guard key itself. *)
Definition separated (a : Z) (g : GuardMetaData) : Prop :=
  Compare ucmp (file_limit h a) (guard_user_key g) < 0 \/
  (Compare ucmp (guard_user_key g) (file_start h a) <= 0 /\ 0 <= icmp (f_largest (deref h a)) (g_guard_key g)).
Record keys_ok (a : Z) : Prop := {
  ko_smallest : ivalid (f_smallest (deref h a));
  ko_largest : ivalid (f_largest (deref h a));
}.
Definition smallest_le (a b : Z) : Prop := icmp (f_smallest (deref h a)) (f_smallest (deref h b)) <= 0.

Lemma file_start_le a b : smallest_le a b -> Compare ucmp (file_start h a) (file_start h b) <= 0.
Proof. apply (icmp_le_user ucmp). Qed.
Lemma ends_before_limit a g : separated a g -> ends_before (Some (g_guard_key g)) a = true ->
  Compare ucmp (file_limit h a) (guard_user_key g) < 0.
Proof. intros [H|[_ H]] E; [done|]. cbn in E. apply Z.ltb_lt in E. lia. Qed.
Lemma not_ends_before a g : separated a g -> ends_before (Some (g_guard_key g)) a = false ->
  Compare ucmp (guard_user_key g) (file_start h a) <= 0.
Proof.
  intros [H|[H _]] E; [|done]. cbn in E. apply Z.ltb_ge in E.
  pose proof (icmp_user_lt ucmp (f_largest (deref h a)) (g_guard_key g) H). lia.
Qed.

Lemma segmented_placed gs segs : segmented gs segs -> StronglySorted smallest_le (concat segs) ->
  Forall (fun a => keys_ok a /\ Forall (separated a) gs) (concat segs) ->
  Forall (fun g => bytes_ok (guard_user_key g)) gs ->
  forall i seg a, segs !! i = Some seg -> a ∈ seg ->
    (forall g, gs !! i = Some g -> Compare ucmp (file_limit h a) (guard_user_key g) < 0) /\
    (forall j g, i = S j -> gs !! j = Some g -> Compare ucmp (guard_user_key g) (file_start h a) <= 0).
Proof.
  intros Hseg. induction Hseg as [seg0|g0 gs seg0 segs Hseg IH Hb Hh]; intros Hso Hall Hgv i seg a Hi Ha.
  { destruct i; [|done]. split; [done|lia]. }
  cbn [concat] in Hso, Hall. apply StronglySorted_app in Hso as (_ & _ & Hso).
  apply Forall_app in Hall as [Hall0 Hall]. apply Forall_cons in Hgv as [Hg0 Hgv].
  destruct i as [|i]; cbn in Hi.
  - injection Hi as <-. split; [|lia]. intros g [= <-].
    rewrite Forall_forall in Hall0, Hb. destruct (Hall0 a Ha) as [_ Hsep]. apply Forall_cons in Hsep as [Hsep _].
    apply ends_before_limit; [done|by apply Hb].
  - assert (a ∈ concat segs) as Hac.
    { apply elem_of_concat. exists seg. split; [by eapply list_elem_of_lookup_2|done]. }
    destruct (IH Hso) with (i := i) (seg := seg) (a := a) as [H1 H2]; [|done|done|done|].
    { eapply Forall_impl; [exact Hall|]. intros x [? Hx]. split; [done|]. by apply Forall_cons in Hx as [_ ?]. }
    split; [exact H1|]. intros j g [= <-]. destruct i as [|i]; [|intros Hj; by eapply H2]. intros [= <-].
    destruct (concat segs) as [|f l] eqn:El; [by apply elem_of_nil in Hac|].
    apply Forall_cons in Hall as [[[Hfs _] Hsep] Hall]. apply Forall_cons in Hsep as [Hsep _].
    pose proof (not_ends_before f g0 Hsep (Hh f eq_refl)) as Hle.
    apply elem_of_cons in Hac as [->|Hac]; [done|]. apply StronglySorted_cons in Hso as [Hfa _].
    rewrite Forall_forall in Hfa, Hall. destruct (Hall a Hac) as [[Has _] _].
    eapply (@cmp_trans ucmp bytes_ok Hc _ (file_start h f)); [done|apply Hfs|apply Has|done|by apply file_start_le, Hfa].
Qed.
Lemma segmented_length gs segs : segmented gs segs -> length segs = S (length gs).
Proof. induction 1; cbn; lia. Qed.
Lemma fill_all_lookup gs : forall segs i g seg, gs !! i = Some g -> segs !! i = Some seg ->
  fill_all gs segs !! i = Some (fill_guard (clear_guard g) true seg).
Proof.
  induction gs as [|g' gs IH]; intros [|seg' segs] [|i] g seg Hi Hs; try done; cbn in *.
  - by simplify_eq.
  - by apply IH.
Qed.
Lemma fill_all_length gs : forall segs, length segs = length gs -> length (fill_all gs segs) = length gs.
Proof. induction gs as [|g gs IH]; intros [|seg segs]; cbn; intros; try lia. by rewrite IH by lia. Qed.

Lemma fill_all_user gs : forall segs, length segs = length gs ->
  guard_user_key <$> fill_all gs segs = guard_user_key <$> gs.
Proof.
  induction gs as [|g gs IH]; intros [|seg segs] Hl; try done; cbn [fill_all fmap list_fmap].
  f_equal; [|apply IH; cbn in Hl; lia]. unfold guard_user_key.
  by destruct (fill_guard_fields seg (clear_guard g) true) as (-> & _).
Qed.
Lemma fill_all_elem gs segs g' : length segs = length gs -> g' ∈ fill_all gs segs ->
  exists i g seg, gs !! i = Some g /\ segs !! i = Some seg /\ g' = fill_guard (clear_guard g) true seg.
Proof.
  intros Hl [i Hi]%list_elem_of_lookup. apply lookup_lt_Some in Hi as Hlt. rewrite fill_all_length in Hlt by done.
  destruct (lookup_lt_is_Some_2 gs i Hlt) as [g Hg]. destruct (lookup_lt_is_Some_2 segs i ltac:(lia)) as [seg Hs].
  exists i, g, seg. rewrite (fill_all_lookup gs segs i g seg Hg Hs) in Hi. split_and!; [done|done|congruence].
Qed.
Lemma guards_sorted_map gs gs' : guard_user_key <$> gs = guard_user_key <$> gs' ->
  guards_sorted ucmp gs -> guards_sorted ucmp gs'.
Proof.
  unfold guards_sorted. revert gs'. induction gs as [|g gs IH]; intros [|g' gs'] E Hs; try done.
  cbn in E. injection E as E0 E. apply StronglySorted_cons in Hs as [Hg Hs]. constructor; [by apply IH|].
  rewrite <- E0. rewrite Forall_forall in Hg |- *. intros x Hx.
  assert (guard_user_key x ∈ guard_user_key <$> gs) as (y & -> & Hy)%list_elem_of_fmap
    by (rewrite E; apply list_elem_of_fmap; by exists x). by apply Hg.
Qed.

(** What the files and guards of a level must be for the placement to work. *)
Record placeable (files : list Z) (gs : list GuardMetaData) : Prop := {
  pl_nonnull : forall a, a ∈ files -> a <> 0;
  pl_numbers : NoDup ((fun a => number a) <$> files);
  pl_sorted : StronglySorted smallest_le files;
  pl_separated : Forall (fun a => keys_ok a /\ Forall (separated a) gs) files;
  pl_guards : guards_sorted ucmp gs;
  pl_valid : Forall (fun g => bytes_ok (guard_user_key g)) gs;
  pl_fresh : Forall (fun g => g_file_metas g = []) gs;
  pl_few : blen gs < 2 ^ 31;
}.
Lemma populate_level_ok files g gs : placeable files (g :: gs) -> exists gs' sentinels,
  populate_level ucmp h None (g :: gs) [] files = (gs', sentinels) /\ level_ok ucmp h files gs' sentinels /\
  guard_user_key <$> gs' = guard_user_key <$> (g :: gs).
Proof.
  intros [Hnn Hnd Hso Hsep Hgs Hgv Hfr Hfew].
  destruct (populate_segments g gs files Hnd) as (seg & segs & E & Hf & Hseg).
  pose proof (segmented_length _ _ Hseg) as Hlen. cbn [length] in Hlen.
  assert (length segs = length (g :: gs)) as Hl by (cbn; lia).
  pose proof (fill_all_user (g :: gs) segs Hl) as Hu. pose proof (fill_all_length (g :: gs) segs Hl) as Hfl.
  rewrite Hf in Hso, Hsep. pose proof (segmented_placed _ _ Hseg Hso Hsep Hgv) as Hpl.
  exists (fill_all (g :: gs) segs), seg. split; [done|]. split; [|done]. split.
  - by eapply guards_sorted_map.
  - apply Forall_forall. intros g' (i & g0 & s0 & Hg0 & _ & ->)%(fill_all_elem _ _ _ Hl). unfold guard_user_key.
    destruct (fill_guard_fields s0 (clear_guard g0) true) as (-> & _). rewrite Forall_lookup in Hgv. exact (Hgv i g0 Hg0).
  - unfold blen in *. rewrite Hfl. lia.
  - apply Forall_forall. intros g' (i & g0 & s0 & Hg0 & _ & ->)%(fill_all_elem _ _ _ Hl).
    destruct (fill_guard_fields s0 (clear_guard g0) true) as (_ & -> & _ & ->). cbn [clear_guard g_number_segments g_file_metas].
    rewrite blen_app. pose proof (blen_nonneg s0). pose proof (blen_nonneg (g_file_metas g0)). lia.
  - rewrite Hf. intros a [Ha|(g' & (i & g0 & s0 & Hg0 & Hs0 & ->)%(fill_all_elem _ _ _ Hl) & Ha)].
    + apply elem_of_app. by left.
    + apply elem_of_app. right. apply elem_of_concat. exists s0. split; [by eapply list_elem_of_lookup_2|].
      unfold guard_metas in Ha. destruct (fill_guard_fields s0 (clear_guard g0) true) as (_ & E1 & _ & E2).
      rewrite E1, E2 in Ha. cbn [clear_guard g_file_metas] in Ha. rewrite Forall_lookup in Hfr.
      rewrite (Hfr i g0 Hg0) in Ha. by apply list_elem_of_lookup in Ha as [n Hn]; apply lookup_take_Some in Hn as [Hn _];
        apply list_elem_of_lookup_2 in Hn.
  - done.
  - intros a Ha. rewrite Hf in Ha. apply elem_of_concat in Ha as (s0 & [i Hi]%list_elem_of_lookup & Ha).
    destruct (Hpl i s0 a Hi Ha) as [H1 H2]. destruct i as [|i]; cbn in Hi.
    + injection Hi as ->. left. split; [done|]. intros g' Hg'.
      destruct segs as [|s1 segs]; [done|]. cbn in Hg'. injection Hg' as <-. unfold guard_user_key.
      destruct (fill_guard_fields s1 (clear_guard g) true) as (-> & _). by apply (H1 g).
    + right. apply lookup_lt_Some in Hi as Hlt. destruct (lookup_lt_is_Some_2 (g :: gs) i ltac:(lia)) as [g0 Hg0].
      exists i, (fill_guard (clear_guard g0) true s0). rewrite (fill_all_lookup _ _ _ _ _ Hg0 Hi).
      destruct (fill_guard_fields s0 (clear_guard g0) true) as (Ek & E1 & _ & E2). split; [done|]. split_and!.
      * unfold guard_metas. rewrite E1, E2. cbn [clear_guard g_file_metas g_number_segments].
        rewrite Forall_lookup in Hfr. rewrite (Hfr i g0 Hg0). cbn [app].
        by rewrite Z.add_0_l, take_blen by (unfold blen; lia).
      * unfold guard_user_key. rewrite Ek. by apply (H2 i g0).
      * intros g' Hg'. apply lookup_lt_Some in Hg' as Hlt'. rewrite Hfl in Hlt'.
        destruct (lookup_lt_is_Some_2 (g :: gs) (S i) Hlt') as [g1 Hg1].
        destruct (lookup_lt_is_Some_2 segs (S i) ltac:(lia)) as [s1 Hs1].
        rewrite (fill_all_lookup _ _ _ _ _ Hg1 Hs1) in Hg'. injection Hg' as <-. unfold guard_user_key.
        destruct (fill_guard_fields s1 (clear_guard g1) true) as (-> & _). by apply (H1 g1).
Qed.
End Populate.

(** ** The store during SaveTo *)

(** Two stores agree on all but the counters of the files. *)
Definition finfo (f : FileMetaData) : Z * Z * bytes * bytes :=
  (f_number f, f_file_size f, f_smallest f, f_largest f).
Definition same_info (h h' : Files) : Prop := forall a, finfo (deref h a) = finfo (deref h' a).
#[export] Instance same_info_equiv : Equivalence same_info.
Proof.
  split; [done| |].
  - intros h h' H a. by rewrite H.
  - intros h h' h'' H H' a. by rewrite H.
Qed.
Lemma same_number h h' a : same_info h h' -> f_number (deref h a) = f_number (deref h' a).
Proof. intros H. specialize (H a). unfold finfo in H. congruence. Qed.
Lemma same_size h h' a : same_info h h' -> f_file_size (deref h a) = f_file_size (deref h' a).
Proof. intros H. specialize (H a). unfold finfo in H. congruence. Qed.
Lemma same_smallest h h' a : same_info h h' -> f_smallest (deref h a) = f_smallest (deref h' a).
Proof. intros H. specialize (H a). unfold finfo in H. congruence. Qed.
Lemma same_largest h h' a : same_info h h' -> f_largest (deref h a) = f_largest (deref h' a).
Proof. intros H. specialize (H a). unfold finfo in H. congruence. Qed.
Lemma deref_insert h a f : deref (<[a := f]> h) a = f.
Proof. unfold deref. by rewrite lookup_insert_eq. Qed.
Lemma deref_insert_ne h a b f : a <> b -> deref (<[a := f]> h) b = deref h b.
Proof. intros. unfold deref. by rewrite lookup_insert_ne. Qed.
Lemma same_info_refs h a n : same_info h (<[a := set_refs (deref h a) n]> h).
Proof.
  intros b. destruct (decide (a = b)) as [<-|Hne]; [by rewrite deref_insert|by rewrite deref_insert_ne].
Qed.
#[export] Hint Resolve same_info_refs : pebbles.

Lemma at_level_lookup {A} (v : list (list A)) L : at_level v L = default [] (v !! Z.to_nat L).
Proof.
  unfold at_level. generalize (Z.to_nat L). induction v as [|l v IH]; intros [|n]; cbn; try done.
Qed.
Lemma at_level_push {A} (v : list (list A)) L L' x : 0 <= L < blen v -> 0 <= L' ->
  at_level (push_at v L x) L' = if decide (L' = L) then at_level v L' ++ [x] else at_level v L'.
Proof.
  intros HL HL'. rewrite !at_level_lookup. unfold push_at. destruct (decide (L' = L)) as [->|Hne].
  - rewrite list_lookup_alter_eq. destruct (lookup_Z v L HL) as [l ->]. done.
  - rewrite list_lookup_alter_ne; [done|lia].
Qed.
Lemma at_level_set {A} (v : list (list A)) L L' l : 0 <= L < blen v -> 0 <= L' ->
  at_level (set_level v L l) L' = if decide (L' = L) then l else at_level v L'.
Proof.
  intros HL HL'. rewrite !at_level_lookup. unfold set_level. destruct (decide (L' = L)) as [->|Hne].
  - rewrite list_lookup_insert_eq; [done|unfold blen in *; lia].
  - rewrite list_lookup_insert_ne; [done|lia].
Qed.
Lemma blen_push {A} (v : list (list A)) L x : blen (push_at v L x) = blen v.
Proof. unfold push_at, blen. by rewrite length_alter. Qed.

Section Save.
Context (ucmp : Comparator) (Hc : ComparatorOk ucmp bytes_ok).
Abbreviation icmp := (InternalKey_Compare ucmp).
Abbreviation ivalid := (internal_valid bytes_ok).

(** Changes to one level. *)
Definition at_one {A} (v v' : list (list A)) (L : Z) : Prop :=
  blen v' = blen v /\ forall L', 0 <= L' -> L' <> L -> at_level v' L' = at_level v L'.
Lemma at_one_refl {A} (v : list (list A)) L : at_one v v L.
Proof. done. Qed.
Lemma at_one_trans {A} (v v' v'' : list (list A)) L : at_one v v' L -> at_one v' v'' L -> at_one v v'' L.
Proof. intros [H1 H2] [H3 H4]. split; [congruence|]. intros. by rewrite H4, H2. Qed.
Lemma at_one_push {A} (v : list (list A)) L x : 0 <= L < blen v -> at_one v (push_at v L x) L.
Proof.
  intros HL. split; [apply blen_push|]. intros L' H0 Hne. rewrite at_level_push by done. by rewrite decide_False.
Qed.
Lemma at_one_set {A} (v : list (list A)) L l : 0 <= L < blen v -> at_one v (set_level v L l) L.
Proof.
  intros HL. split; [unfold set_level, blen; by rewrite length_insert|].
  intros L' H0 Hne. rewrite at_level_set by done. by rewrite decide_False.
Qed.

(** *** Files *)

Definition kept (h : Files) (b : Builder) (L : Z) (l : list Z) : list Z :=
  filter (fun a => f_number (deref h a) ∉ ls_deleted_files (level_state b L)) l.
Definition add_refs (h : Files) (l : list Z) : Files :=
  fold_left (fun h a => <[a := set_refs (deref h a) (f_refs (deref h a) + 1)]> h) l h.
Lemma add_refs_info l : forall h, same_info h (add_refs h l).
Proof.
  induction l as [|a l IH]; intros h; [done|]. cbn. etrans; [apply same_info_refs|apply IH].
Qed.
Lemma kept_same h h' b L l : same_info h h' -> kept h b L l = kept h' b L l.
Proof.
  intros H. unfold kept. apply list_filter_iff. intros a. by rewrite (same_number h h' a H).
Qed.
Lemma fold_MaybeAddFile b L l : forall st v, 0 <= L < blen (files_ v) ->
  exists v', fold_left (MaybeAddFile b L) l (st, v) =
      (set_files st (add_refs (st_files st) (kept (st_files st) b L l)), v') /\
    v' = set_version_files v (files_ v') /\ at_one (files_ v) (files_ v') L /\
    at_level (files_ v') L = at_level (files_ v) L ++ kept (st_files st) b L l.
Proof.
  induction l as [|a l IH]; intros st v HL.
  { exists v. cbn. destruct st, v. by rewrite app_nil_r. }
  cbn [fold_left MaybeAddFile]. unfold kept. rewrite filter_cons. fold (kept (st_files st) b L l).
  destruct (decide (f_number (deref (st_files st) a) ∈ _)) as [Hin|Hin], (decide (f_number (deref (st_files st) a) ∉ _)) as [Hn|Hn];
    try done.
  - by apply IH.
  - set (st1 := set_files st _). set (v1 := set_version_files v _).
    destruct (IH st1 v1) as (v' & -> & Hv' & Ho & Hl); [by cbn; rewrite blen_push|].
    assert (kept (st_files st1) b L l = kept (st_files st) b L l) as Ek
      by (apply kept_same; symmetry; apply same_info_refs). rewrite Ek in *.
    exists v'. split; [done|]. split; [by rewrite Hv'|]. split.
    + eapply at_one_trans; [by apply (at_one_push _ L a)|exact Ho].
    + rewrite Hl. change (files_ v1) with (push_at (files_ v) L a). rewrite at_level_push by lia. rewrite decide_True by done. by rewrite <- app_assoc.
Qed.

(** The files of the new version at a level. *)
Definition out_files (h : Files) (b : Builder) (base : Version) (L : Z) : list Z :=
  kept h b L (merge_order (file_before ucmp h) (ls_added_files (level_state b L)) (at_level (files_ base) L)).
Lemma save_files_spec b base L st v : 0 <= L < blen (files_ v) -> at_level (files_ v) L = [] ->
  exists v', save_files ucmp b base L (st, v) =
      (set_files st (add_refs (st_files st) (out_files (st_files st) b base L)), v') /\
    v' = set_version_files v (files_ v') /\ at_one (files_ v) (files_ v') L /\
    at_level (files_ v') L = out_files (st_files st) b base L.
Proof.
  intros HL Hnil. unfold save_files. cbn [fst]. rewrite merge_added_order.
  destruct (fold_MaybeAddFile b L (merge_order (file_before ucmp (st_files st)) (ls_added_files (level_state b L))
    (at_level (files_ base) L)) st v HL) as (v' & E & Hv' & Ho & Hl).
  exists v'. rewrite Hnil in Hl. split_and!; [exact E|done|done|exact Hl].
Qed.
Lemma out_files_elem h b base L a : a ∈ out_files h b base L <->
  (a ∈ ls_added_files (level_state b L) \/ a ∈ at_level (files_ base) L) /\
  f_number (deref h a) ∉ ls_deleted_files (level_state b L).
Proof.
  unfold out_files, kept. rewrite list_elem_of_filter, merge_order_perm, elem_of_app. tauto.
Qed.
Lemma out_files_sorted h b base L :
  Forall (fun a => ivalid (f_smallest (deref h a))) (ls_added_files (level_state b L)) ->
  Forall (fun a => ivalid (f_smallest (deref h a))) (at_level (files_ base) L) ->
  StronglySorted (ord_le (file_before ucmp h)) (ls_added_files (level_state b L)) ->
  StronglySorted (ord_le (file_before ucmp h)) (at_level (files_ base) L) ->
  StronglySorted (ord_le (file_before ucmp h)) (out_files h b base L).
Proof.
  intros Ha Hb Hsa Hsb. unfold out_files, kept.
  pose proof (@merge_order_sorted _ _ _ (file_before_weak ucmp Hc h) _ _ Ha Hb Hsa Hsb) as Hs.
  revert Hs. generalize (merge_order (file_before ucmp h) (ls_added_files (level_state b L)) (at_level (files_ base) L)).
  induction 1 as [|x l Hs IH Hx]; [constructor|]. rewrite filter_cons. destruct (decide _); [|done].
  constructor; [done|]. rewrite Forall_forall in *. intros y [_ Hy]%list_elem_of_filter. by apply Hx.
Qed.
Lemma file_before_smallest h a b : ivalid (f_smallest (deref h a)) -> ivalid (f_smallest (deref h b)) ->
  ord_le (file_before ucmp h) a b -> smallest_le ucmp h a b.
Proof. intros Ha Hb H. apply (BySmallestKey_false ucmp Hc) in H; [|done..]. unfold smallest_le. lia. Qed.

(** *** Guards *)

Abbreviation guk := guard_user_key.
Abbreviation gvalid := (fun g => bytes_ok (guard_user_key g)).
Definition fresh_guard (g : GuardMetaData) : GuardMetaData :=
  {| g_refs := 1; g_level := g_level g; g_number_segments := 0; g_guard_key := g_guard_key g;
     g_smallest := []; g_largest := []; g_files := []; g_file_metas := [] |}.
Definition guard_deleted (b : Builder) (L : Z) (g : GuardMetaData) : bool :=
  set_has (BySmallestInternalKey ucmp) (g_guard_key g) (ls_deleted_guards (level_state b L)).
Definition same_as (last : option GuardMetaData) (g : GuardMetaData) : bool :=
  match last with Some l => Compare ucmp (guk g) (guk l) =? 0 | None => false end.
(** The guards taken from an ordered list: not deleted, and different from the last taken. *)
Fixpoint pick (f : GuardMetaData -> GuardMetaData) (b : Builder) (L : Z) (last : option GuardMetaData)
    (l : list GuardMetaData) : list GuardMetaData :=
  match l with
  | [] => []
  | g :: l => if same_as last g || guard_deleted b L g then pick f b L last l
              else f g :: pick f b L (Some g) l
  end.
Lemma fold_MaybeAddGuard b L l : forall v last, 0 <= L < blen (guards_ v) ->
  exists v' last', fold_left (MaybeAddGuard ucmp b L) l (v, last) = (v', last') /\
    v' = set_guards v (guards_ v') /\ at_one (guards_ v) (guards_ v') L /\
    at_level (guards_ v') L = at_level (guards_ v) L ++ pick fresh_guard b L last l.
Proof.
  induction l as [|g l IH]; intros v last HL.
  { exists v, last. cbn. destruct v. by rewrite app_nil_r. }
  cbn [fold_left MaybeAddGuard pick]. fold (same_as last g). fold (guard_deleted b L g).
  destruct (same_as last g); [by apply IH|]. destruct (guard_deleted b L g); [by apply IH|]. cbn [orb].
  set (v1 := set_guards v _).
  destruct (IH v1 (Some g)) as (v' & last' & -> & Hv' & Ho & Hl); [by cbn; rewrite blen_push|].
  exists v', last'. split; [done|]. split; [by rewrite Hv'|]. split.
  - eapply at_one_trans; [by apply (at_one_push _ L (fresh_guard g))|exact Ho].
  - rewrite Hl. change (guards_ v1) with (push_at (guards_ v) L (fresh_guard g)).
    rewrite at_level_push by lia. rewrite decide_True by done. by rewrite <- app_assoc.
Qed.
Lemma fold_MaybeAddCompleteGuard b L l : forall v last, 0 <= L < blen (complete_guards_ v) ->
  exists v' last', fold_left (MaybeAddCompleteGuard ucmp b L) l (v, last) = (v', last') /\
    v' = set_complete_guards v (complete_guards_ v') /\ at_one (complete_guards_ v) (complete_guards_ v') L /\
    at_level (complete_guards_ v') L = at_level (complete_guards_ v) L ++ pick ref_guard b L last l.
Proof.
  induction l as [|g l IH]; intros v last HL.
  { exists v, last. cbn. destruct v. by rewrite app_nil_r. }
  cbn [fold_left MaybeAddCompleteGuard pick]. fold (same_as last g). fold (guard_deleted b L g).
  destruct (same_as last g); [by apply IH|]. destruct (guard_deleted b L g); [by apply IH|]. cbn [orb].
  set (v1 := set_complete_guards v _).
  destruct (IH v1 (Some g)) as (v' & last' & -> & Hv' & Ho & Hl); [by cbn; rewrite blen_push|].
  exists v', last'. split; [done|]. split; [by rewrite Hv'|]. split.
  - eapply at_one_trans; [by apply (at_one_push _ L (ref_guard g))|exact Ho].
  - rewrite Hl. change (complete_guards_ v1) with (push_at (complete_guards_ v) L (ref_guard g)).
    rewrite at_level_push by lia. rewrite decide_True by done. by rewrite <- app_assoc.
Qed.

Section Pick.
Context (f : GuardMetaData -> GuardMetaData) (Hf : forall g, g_guard_key (f g) = g_guard_key g).
Context (b : Builder) (L : Z).
Lemma f_user g : guk (f g) = guk g.
Proof. unfold guard_user_key. by rewrite Hf. Qed.
Lemma pick_elem l : forall last p, p ∈ pick f b L last l -> exists g, g ∈ l /\ guard_deleted b L g = false /\ p = f g.
Proof.
  induction l as [|g l IH]; intros last p; cbn [pick]; [by intros H; apply elem_of_nil in H|].
  destruct (same_as last g || guard_deleted b L g) eqn:E.
  - intros (g' & ? & ?)%IH. exists g'. split; [by right|done].
  - apply orb_false_iff in E as [_ E]. intros [->|(g' & ? & ?)%IH]%elem_of_cons.
    + exists g. split; [by left|done].
    + exists g'. split; [by right|done].
Qed.
(** Every guard that is not deleted is represented. *)
Lemma pick_all l : forall last g, Forall gvalid l -> g ∈ l -> guard_deleted b L g = false ->
  same_as last g = true \/ exists p, p ∈ pick f b L last l /\ Compare ucmp (guk g) (guk p) = 0.
Proof.
  induction l as [|g' l IH]; intros last g Hv Hg Hd; [by apply elem_of_nil in Hg|].
  apply Forall_cons in Hv as [Hg' Hv]. cbn [pick].
  assert (forall g, g ∈ g' :: l -> bytes_ok (guk g)) as Hval.
  { intros x [->|Hx]%elem_of_cons; [done|]. rewrite Forall_forall in Hv. by apply Hv. }
  destruct (same_as last g' || guard_deleted b L g') eqn:E.
  - apply elem_of_cons in Hg as [->|Hg]; [|by apply IH]. left. rewrite Hd, orb_false_r in E. done.
  - apply elem_of_cons in Hg as [->|Hg].
    + right. exists (f g'). split; [by left|]. rewrite f_user. by apply (@cmp_refl ucmp bytes_ok Hc).
    + destruct (IH (Some g') g Hv Hg Hd) as [Hs|(p & Hp & Hcmp)].
      * right. exists (f g'). split; [by left|]. rewrite f_user. cbn in Hs. by apply Z.eqb_eq in Hs.
      * right. exists p. split; [by right|done].
Qed.
Lemma pick_sorted l : forall last, Forall gvalid l -> StronglySorted (ord_le (BySmallestGuard ucmp)) l ->
  (forall p, last = Some p -> bytes_ok (guk p) /\ Forall (fun g => Compare ucmp (guk p) (guk g) <= 0) l) ->
  guards_sorted ucmp (pick f b L last l) /\
  forall p, last = Some p -> Forall (fun g => Compare ucmp (guk p) (guk g) < 0) (pick f b L last l).
Proof.
  induction l as [|g l IH]; intros last Hv Hs Hlast; cbn [pick]; [by split; [constructor|]|].
  apply Forall_cons in Hv as [Hg Hv]. apply StronglySorted_cons in Hs as [Hgl Hs].
  assert (Forall (fun g' => Compare ucmp (guk g) (guk g') <= 0) l) as Hle.
  { rewrite Forall_forall in Hgl, Hv |- *. intros x Hx. specialize (Hgl x Hx). unfold ord_le, BySmallestGuard in Hgl.
    apply Z.ltb_ge in Hgl. apply (@cmp_ge_le ucmp bytes_ok Hc); [by apply Hv|done|done]. }
  destruct (same_as last g || guard_deleted b L g) eqn:E.
  - apply IH; [done|done|]. intros p Ep. destruct (Hlast p Ep) as [Hp Hpl]. by apply Forall_cons in Hpl as [_ ?].
  - apply orb_false_iff in E as [E _]. destruct (IH (Some g) Hv Hs) as [Hsorted Hgt].
    { intros p [= <-]. done. }
    specialize (Hgt g eq_refl). split.
    + constructor; [done|]. eapply Forall_impl; [exact Hgt|]. intros x Hx. by rewrite f_user.
    + intros p ->. destruct (Hlast p eq_refl) as [Hp Hpl]. apply Forall_cons in Hpl as [Hpg _].
      cbn in E. apply Z.eqb_neq in E.
      assert (Compare ucmp (guk p) (guk g) < 0) as Hlt.
      { pose proof (@cmp_antisym ucmp bytes_ok Hc (guk p) (guk g) Hp Hg).
        pose proof (@cmp_antisym ucmp bytes_ok Hc (guk g) (guk p) Hg Hp). lia. }
      constructor; [by rewrite f_user|]. rewrite Forall_forall in Hgt |- *. intros x Hx.
      assert (bytes_ok (guk x)) as Hxv.
      { apply pick_elem in Hx as (y & Hy & _ & ->). rewrite f_user. rewrite Forall_forall in Hv. by apply Hv. }
      eapply (@cmp_lt_trans ucmp bytes_ok Hc _ (guk g)); [done|done|done|done|by apply Hgt].
Qed.
End Pick.

(** The guards of the new version at a level, before they get their files. *)
Definition out_guards (b : Builder) (base : Version) (L : Z) : list GuardMetaData :=
  pick fresh_guard b L None
    (merge_order (BySmallestGuard ucmp) (ls_added_guards (level_state b L)) (at_level (guards_ base) L)).
Lemma save_guards_spec b base L v : 0 <= L < blen (guards_ v) -> at_level (guards_ v) L = [] ->
  let v' := save_guards ucmp b base L v in
  v' = set_guards v (guards_ v') /\ at_one (guards_ v) (guards_ v') L /\
  at_level (guards_ v') L = out_guards b base L.
Proof.
  intros HL Hnil. unfold save_guards. rewrite merge_added_order.
  destruct (fold_MaybeAddGuard b L (merge_order (BySmallestGuard ucmp) (ls_added_guards (level_state b L))
    (at_level (guards_ base) L)) v None HL) as (v' & last' & E & Hv' & Ho & Hl).
  rewrite Hnil in Hl. cbv zeta. rewrite E. by split_and!.
Qed.
Lemma out_guards_sorted b base L :
  Forall gvalid (ls_added_guards (level_state b L)) -> Forall gvalid (at_level (guards_ base) L) ->
  StronglySorted (ord_le (BySmallestGuard ucmp)) (ls_added_guards (level_state b L)) ->
  guards_sorted ucmp (at_level (guards_ base) L) -> guards_sorted ucmp (out_guards b base L).
Proof.
  intros Ha Hb Hsa Hsb. pose proof (BySmallestGuard_weak ucmp Hc) as Hw.
  apply pick_sorted; [done| | |done].
  - rewrite merge_order_perm. by apply Forall_app.
  - apply (@merge_order_sorted _ _ _ Hw); [done..|].
    apply (@slt_sorted_le _ _ _ Hw); [done|]. unfold guards_sorted in Hsb.
    induction Hsb as [|x l Hs IH Hx]; [constructor|]. apply Forall_cons in Hb as [_ Hb].
    constructor; [by apply IH|]. eapply Forall_impl; [exact Hx|]. intros y Hy. by apply Z.ltb_lt.
Qed.
Lemma out_guards_fresh b base L : Forall (fun g => g_file_metas g = []) (out_guards b base L).
Proof. apply Forall_forall. by intros p (g & _ & _ & ->)%pick_elem. Qed.
Lemma out_guards_elem b base L p : p ∈ out_guards b base L -> exists g,
  (g ∈ ls_added_guards (level_state b L) \/ g ∈ at_level (guards_ base) L) /\
  guard_deleted b L g = false /\ g_guard_key p = g_guard_key g.
Proof.
  intros (g & Hg & Hd & ->)%pick_elem. exists g. rewrite merge_order_perm, elem_of_app in Hg. done.
Qed.

(** *** Complete guards *)

Definition out_complete (b : Builder) (base : Version) (L : Z) : list GuardMetaData :=
  let cg := at_level (complete_guards_ base) L in
  let added := ls_added_complete_guards (level_state b L) in
  match cg with
  | [] => ref_guard <$> filter (fun g => negb (guard_deleted b L g)) added
  | _ =>
      let start := unsorted_start ucmp cg (nth (Z.to_nat L) (num_complete_guards_ base) 0) in
      pick ref_guard b L None
        (merge_order (BySmallestGuard ucmp)
           (fold_left (fun s g => set_insert (BySmallestGuard ucmp) g s) (drop start cg) added) (take start cg))
  end.
Lemma fold_AddCompleteGuard b L l : forall v, 0 <= L < blen (complete_guards_ v) ->
  exists v', fold_left (AddCompleteGuard ucmp b L) l v = v' /\
    v' = set_complete_guards v (complete_guards_ v') /\ at_one (complete_guards_ v) (complete_guards_ v') L /\
    at_level (complete_guards_ v') L = at_level (complete_guards_ v) L ++
      (ref_guard <$> filter (fun g => negb (guard_deleted b L g)) l).
Proof.
  induction l as [|g l IH]; intros v HL.
  { exists v. cbn. destruct v. by rewrite app_nil_r. }
  cbn [fold_left]. unfold AddCompleteGuard at 2. fold (guard_deleted b L g). rewrite filter_bool_cons.
  destruct (guard_deleted b L g); cbn [negb]; [by apply IH|].
  set (v1 := set_complete_guards v _).
  destruct (IH v1) as (v' & -> & Hv' & Ho & Hl); [by cbn; rewrite blen_push|].
  exists v'. split; [done|]. split; [by rewrite Hv'|]. split.
  - eapply at_one_trans; [by apply (at_one_push _ L (ref_guard g))|exact Ho].
  - rewrite Hl. change (complete_guards_ v1) with (push_at (complete_guards_ v) L (ref_guard g)).
    rewrite at_level_push by lia. rewrite decide_True by done. by rewrite <- app_assoc.
Qed.
(** The complete guards of the new version, and what the edit gets. *)
Definition edit_complete (base : Version) (L : Z) (e : option VersionEdit) : option VersionEdit :=
  let cg := at_level (complete_guards_ base) L in
  let num := nth (Z.to_nat L) (num_complete_guards_ base) 0 in
  let start := unsorted_start ucmp cg num in
  match cg with
  | [] => e
  | _ => fold_left (add_complete L) (drop start cg ++ reverse (drop (Z.to_nat num) (take start cg))) e
  end.
Lemma save_complete_guards_spec b base L v e : 0 <= L < blen (complete_guards_ v) ->
  at_level (complete_guards_ v) L = [] ->
  exists v', save_complete_guards ucmp b base L (v, e) = (v', edit_complete base L e) /\
    v' = set_num_complete (set_complete_guards v (complete_guards_ v')) (num_complete_guards_ v') /\
    at_one (complete_guards_ v) (complete_guards_ v') L /\
    at_level (complete_guards_ v') L = out_complete b base L /\
    num_complete_guards_ v' = <[Z.to_nat L := blen (out_complete b base L)]> (num_complete_guards_ v).
Proof.
  intros HL Hnil. unfold save_complete_guards, edit_complete, out_complete.
  destruct (at_level (complete_guards_ base) L) as [|g0 cg] eqn:Ecg.
  - destruct (fold_AddCompleteGuard b L (ls_added_complete_guards (level_state b L)) v HL) as (v' & -> & Hv' & Ho & Hl).
    rewrite Hnil in Hl. cbn [app] in Hl. eexists. split; [done|].
    cbn [set_num_complete complete_guards_ num_complete_guards_]. rewrite Hl.
    split; [by rewrite Hv' at 1|]. split; [done|]. split; [done|]. by rewrite Hv'.
  - rewrite merge_added_order. set (l := merge_order _ _ _).
    destruct (fold_MaybeAddCompleteGuard b L l v None HL) as (v' & last' & -> & Hv' & Ho & Hl).
    rewrite Hnil in Hl. cbn [app] in Hl. eexists. split; [by rewrite fold_left_app|].
    cbn [set_num_complete complete_guards_ num_complete_guards_ fst]. rewrite Hl.
    split; [by rewrite Hv' at 1|]. split; [done|]. split; [done|]. by rewrite Hv'.
Qed.

(** *** One level *)

Lemma place_files_same h h' : same_info h h' -> forall files limit g first sentinels,
  place_files ucmp h limit g first sentinels files = place_files ucmp h' limit g first sentinels files.
Proof.
  intros H. induction files as [|a files IH]; intros limit g first sentinels; cbn [place_files]; [done|].
  rewrite (same_largest h h' a H), (same_number h h' a H).
  destruct (match limit with Some k => _ | None => _ end); [|done].
  destruct g as [g|]; [|by rewrite IH]. destruct (IsFileAlreadyPresent _ _); [by rewrite IH|].
  assert (add_to_guard ucmp h g first a = add_to_guard ucmp h' g first a) as ->; [|by rewrite IH].
  unfold add_to_guard. by rewrite (same_largest h h' a H), (same_number h h' a H), (same_smallest h h' a H).
Qed.
Lemma populate_same h h' : same_info h h' -> forall gs g sentinels files,
  populate_level ucmp h g gs sentinels files = populate_level ucmp h' g gs sentinels files.
Proof.
  intros H. induction gs as [|g' gs IH]; intros g sentinels files; cbn [populate_level];
    rewrite (place_files_same h h' H); [done|]. destruct (place_files _ _ _ _ _ _ _) as [[g1 s1] f1]. by rewrite IH.
Qed.
(** The guards and the sentinels of a level. *)
Definition placed (h : Files) (files : list Z) (gs : list GuardMetaData) : list GuardMetaData * list Z :=
  match gs with [] => ([], files) | _ => populate_level ucmp h None gs [] files end.

Record version_wf (v : Version) : Prop := {
  vw_files : blen (files_ v) = kNumLevels;
  vw_guards : blen (guards_ v) = kNumLevels;
  vw_complete : blen (complete_guards_ v) = kNumLevels;
  vw_sentinels : blen (sentinel_files_ v) = kNumLevels;
  vw_num : blen (num_complete_guards_ v) = kNumLevels;
}.
Definition level_empty (v : Version) (L : Z) : Prop :=
  at_level (files_ v) L = [] /\ at_level (guards_ v) L = [] /\ at_level (complete_guards_ v) L = [] /\
  at_level (sentinel_files_ v) L = [].
(** [v'] has at level [L] what the builder puts there over the store [h]. *)
Record saved (h : Files) (b : Builder) (base v' : Version) (L : Z) : Prop := {
  sv_files : at_level (files_ v') L = out_files h b base L;
  sv_guards : at_level (guards_ v') L = fst (placed h (out_files h b base L) (out_guards b base L));
  sv_sentinels : at_level (sentinel_files_ v') L = snd (placed h (out_files h b base L) (out_guards b base L));
  sv_complete : at_level (complete_guards_ v') L = out_complete b base L;
  sv_num : num_complete_guards_ v' !! Z.to_nat L = Some (blen (out_complete b base L));
}.
Definition same_level (v v' : Version) (L : Z) : Prop :=
  at_level (files_ v') L = at_level (files_ v) L /\ at_level (guards_ v') L = at_level (guards_ v) L /\
  at_level (complete_guards_ v') L = at_level (complete_guards_ v) L /\
  at_level (sentinel_files_ v') L = at_level (sentinel_files_ v) L /\
  num_complete_guards_ v' !! Z.to_nat L = num_complete_guards_ v !! Z.to_nat L.

Lemma save_level_spec b base L st v e : 0 <= L < kNumLevels -> version_wf v -> level_empty v L ->
  exists v', save_level ucmp b base (st, v, e) L =
      (set_files st (add_refs (st_files st) (out_files (st_files st) b base L)), v', edit_complete base L e) /\
    version_wf v' /\ v_refs v' = v_refs v /\ file_to_compact_ v' = file_to_compact_ v /\
    saved (st_files st) b base v' L /\ forall L', 0 <= L' -> L' <> L -> same_level v v' L'.
Proof.
  intros HL [Wf Wg Wc Ws Wn] (Ef & Eg & Ec & Es). unfold save_level.
  destruct (save_files_spec b base L st v) as (v1 & -> & H1 & O1 & L1); [lia|done|].
  set (h' := add_refs (st_files st) (out_files (st_files st) b base L)).
  assert (same_info (st_files st) h') as Hsame by apply add_refs_info.
  assert (guards_ v1 = guards_ v) as Eg1 by by rewrite H1.
  assert (complete_guards_ v1 = complete_guards_ v) as Ec1 by by rewrite H1.
  assert (sentinel_files_ v1 = sentinel_files_ v) as Es1 by by rewrite H1.
  destruct (save_guards_spec b base L v1) as (H2 & O2 & L2); [rewrite Eg1; lia|by rewrite Eg1|].
  set (v2 := save_guards ucmp b base L v1) in *.
  assert (complete_guards_ v2 = complete_guards_ v) as Ec2 by (rewrite H2; done).
  assert (sentinel_files_ v2 = sentinel_files_ v) as Es2 by (rewrite H2; done).
  assert (files_ v2 = files_ v1) as Ef2 by (rewrite H2; done).
  destruct (save_complete_guards_spec b base L v2 e) as (v3 & -> & H3 & O3 & L3 & N3);
    [rewrite Ec2; lia|by rewrite Ec2|].
  assert (files_ v3 = files_ v1) as Ef3 by (rewrite H3; done).
  assert (guards_ v3 = guards_ v2) as Eg3 by (rewrite H3; done).
  assert (sentinel_files_ v3 = sentinel_files_ v) as Es3 by (rewrite H3; done).
  assert (num_complete_guards_ v2 = num_complete_guards_ v) as En2 by (rewrite H2, H1; done).
  assert (v_refs v3 = v_refs v) as Er3 by (rewrite H3, H2, H1; done).
  assert (file_to_compact_ v3 = file_to_compact_ v) as Et3 by (rewrite H3, H2, H1; done).
  rewrite Ec2 in O3. rewrite Eg1 in O2. rewrite En2 in N3.
  set (v4 := PopulateFilesToGuardsAndSentinels ucmp h' v3 L). exists v4. split; [done|].
  assert (exists gs ss, placed (st_files st) (out_files (st_files st) b base L) (out_guards b base L) = (gs, ss) /\
    files_ v4 = files_ v3 /\ complete_guards_ v4 = complete_guards_ v3 /\
    num_complete_guards_ v4 = num_complete_guards_ v3 /\ v_refs v4 = v_refs v3 /\
    file_to_compact_ v4 = file_to_compact_ v3 /\
    at_one (guards_ v3) (guards_ v4) L /\ at_level (guards_ v4) L = gs /\
    at_one (sentinel_files_ v3) (sentinel_files_ v4) L /\ at_level (sentinel_files_ v4) L = ss)
    as (gs & ss & Epl & E1 & E2 & E3 & E4 & E5 & O4 & L4 & O5 & L5).
  { unfold v4, PopulateFilesToGuardsAndSentinels. rewrite Eg3, L2, Ef3, L1, Es3.
    assert (0 <= L < blen (guards_ v3)) by (rewrite Eg3; destruct O2 as [-> _]; lia).
    unfold placed. destruct (out_guards b base L) as [|g0 gs0] eqn:Eog.
    - rewrite Es. eexists _, _. split; [done|]. cbn [files_ complete_guards_ num_complete_guards_ v_refs set_sentinels
        file_to_compact_ guards_ sentinel_files_]. split_and!; try done.
      + by rewrite Eg3.
      + by rewrite Eg3, L2.
      + apply at_one_set. lia.
      + rewrite at_level_set by lia. by rewrite decide_True.
    - rewrite <- (populate_same _ _ Hsame).
      destruct (populate_level ucmp (st_files st) None (g0 :: gs0) [] _) as [gs ss] eqn:Ep.
      exists gs, ss. split; [done|]. cbn [files_ complete_guards_ num_complete_guards_ v_refs set_sentinels set_guards
        file_to_compact_ guards_ sentinel_files_]. rewrite <- Eg3. split_and!; try done.
      + by apply at_one_set.
      + rewrite at_level_set by lia. by rewrite decide_True.
      + apply at_one_set. lia.
      + rewrite at_level_set by lia. by rewrite decide_True. }
  split_and!; [| |congruence| |].
  - destruct O1 as [O1 _], O2 as [O2 _], O3 as [O3 _], O4 as [O4 _], O5 as [O5 _].
    split; [rewrite E1, Ef3; congruence|congruence|congruence|congruence|].
    rewrite E3, N3. unfold blen in *. by rewrite length_insert.
  - congruence.
  - split; [by rewrite E1, Ef3|by rewrite Epl|by rewrite Epl|by rewrite E2|].
    rewrite E3, N3. apply list_lookup_insert_eq. unfold blen, kNumLevels in *. lia.
  - intros L' H0 Hne. destruct O1 as [_ O1], O2 as [_ O2], O3 as [_ O3], O4 as [_ O4], O5 as [_ O5].
    split_and!.
    + by rewrite E1, Ef3, O1.
    + by rewrite O4, Eg3, O2.
    + by rewrite E2, O3.
    + by rewrite O5, Es3.
    + rewrite E3, N3. apply list_lookup_insert_ne. lia.
Qed.

(** *** All levels *)

Lemma file_before_same h h' a b : same_info h h' -> file_before ucmp h a b = file_before ucmp h' a b.
Proof.
  intros H. unfold file_before, BySmallestKey.
  by rewrite (same_smallest h h' a H), (same_smallest h h' b H), (same_number h h' a H), (same_number h h' b H).
Qed.
Lemma merge_order_ext {A} (lt lt' : A -> A -> bool) : (forall a b, lt a b = lt' a b) ->
  forall added base, merge_order lt added base = merge_order lt' added base.
Proof.
  intros H. assert (forall x l, split_upper lt x l = split_upper lt' x l) as Hs.
  { intros x l. induction l as [|y l IH]; cbn; [done|]. by rewrite H, IH. }
  induction added as [|x added IH]; intros base; cbn; [done|]. rewrite Hs.
  destruct (split_upper lt' x base). by rewrite IH.
Qed.
Lemma out_files_same h h' b base L : same_info h h' -> out_files h b base L = out_files h' b base L.
Proof.
  intros H. unfold out_files. rewrite (kept_same h h' b L _ H).
  f_equal. apply merge_order_ext. intros. by apply file_before_same.
Qed.
Lemma placed_same h h' files gs : same_info h h' -> placed h files gs = placed h' files gs.
Proof. intros H. unfold placed. destruct gs; [done|]. by apply populate_same. Qed.
Lemma saved_same h h' b base v L : same_info h h' -> saved h b base v L -> saved h' b base v L.
Proof.
  intros H [H1 H2 H3 H4 H5]. rewrite (out_files_same h h') in H1, H2, H3 by done.
  rewrite (placed_same h h') in H2, H3 by done. by split.
Qed.
Lemma saved_other h b base v v' L : same_level v v' L -> saved h b base v L -> saved h b base v' L.
Proof. intros (E1 & E2 & E3 & E4 & E5) [H1 H2 H3 H4 H5]. split; congruence. Qed.
Lemma add_refs_app h l l' : add_refs h (l ++ l') = add_refs (add_refs h l) l'.
Proof. unfold add_refs. apply fold_left_app. Qed.

Lemma save_levels_spec b base ls : forall st v e, NoDup ls ->
  (forall L, L ∈ ls -> 0 <= L < kNumLevels) -> version_wf v -> (forall L, L ∈ ls -> level_empty v L) ->
  exists v', fold_left (save_level ucmp b base) ls (st, v, e) =
      (set_files st (add_refs (st_files st) (concat (out_files (st_files st) b base <$> ls))), v',
       fold_left (fun e L => edit_complete base L e) ls e) /\
    version_wf v' /\ v_refs v' = v_refs v /\ file_to_compact_ v' = file_to_compact_ v /\
    (forall L, L ∈ ls -> saved (st_files st) b base v' L) /\
    forall L, 0 <= L -> L ∉ ls -> same_level v v' L.
Proof.
  induction ls as [|L ls IH]; intros st v e Hnd Hr Hwf He; cbn [fold_left fmap list_fmap concat].
  { exists v. destruct st. split_and!; [done..| |]; [intros L HL; by apply elem_of_nil in HL|done]. }
  apply NoDup_cons in Hnd as [HnL Hnd].
  destruct (save_level_spec b base L st v e) as (v1 & -> & Hwf1 & Hr1 & Ht1 & Hs1 & Hsame1);
    [apply Hr; by left|done|apply He; by left|].
  set (h1 := add_refs (st_files st) (out_files (st_files st) b base L)).
  assert (same_info (st_files st) h1) as Hh by apply add_refs_info.
  destruct (IH (set_files st h1) v1 (edit_complete base L e) Hnd) as (v' & -> & Hwf' & Hr' & Ht' & Hs' & Hsame');
    [intros; apply Hr; by right|done| |].
  { intros L' HL'. assert (L' <> L) as Hne by (intros ->; done).
    destruct (Hsame1 L' ltac:(apply Hr; by right) Hne) as (E1 & E2 & E3 & E4 & _).
    destruct (He L' ltac:(by right)) as (?&?&?&?). split_and!; congruence. }
  exists v'. cbn [st_files set_files]. split.
  { f_equal. f_equal. unfold set_files. cbn. f_equal. rewrite add_refs_app. fold h1. f_equal. f_equal.
    apply list_fmap_ext. intros i x _. by rewrite (out_files_same (st_files st) h1). }
  split_and!; [done|congruence|congruence| |].
  - intros L' [->|HL']%elem_of_cons.
    + eapply saved_other; [|exact Hs1]. apply Hsame'; [apply Hr; by left|done].
    + apply (saved_same h1); [by symmetry|]. by apply Hs'.
  - intros L' H0 Hn. apply not_elem_of_cons in Hn as [Hne Hn].
    destruct (Hsame1 L' H0 Hne) as (A1 & A2 & A3 & A4 & A5), (Hsame' L' H0 Hn) as (B1 & B2 & B3 & B4 & B5).
    split_and!; congruence.
Qed.
Lemma levels_range L : L ∈ levels <-> 0 <= L < kNumLevels.
Proof. unfold levels. rewrite elem_of_seqZ. lia. Qed.
Lemma levels_forall (Q : Z -> Prop) : Forall Q levels -> forall L, L ∈ levels -> Q L.
Proof. by rewrite Forall_forall. Qed.
Lemma levels_nodup : NoDup levels.
Proof. apply NoDup_seqZ. Qed.
Lemma Version_new_wf : version_wf Version_new.
Proof. done. Qed.
Lemma Version_new_empty L : L ∈ levels -> level_empty Version_new L.
Proof.
  change levels with [0; 1; 2; 3; 4; 5; 6]. rewrite !elem_of_cons, elem_of_nil.
  intros [->|[->|[->|[->|[->|[->|[->|[]]]]]]]]; done.
Qed.
Lemma SaveTo_spec b base st e : exists v',
  SaveTo ucmp b base st Version_new e =
    (set_files st (add_refs (st_files st) (concat (out_files (st_files st) b base <$> levels))), v',
     fold_left (fun e L => edit_complete base L e) levels e) /\
  version_wf v' /\ v_refs v' = 0 /\ file_to_compact_ v' = 0 /\
  forall L, L ∈ levels -> saved (st_files st) b base v' L.
Proof.
  destruct (save_levels_spec b base levels st Version_new e) as (v' & E & H1 & H2 & H3 & H4 & _).
  - apply levels_nodup.
  - intros L. apply levels_range.
  - apply Version_new_wf.
  - apply Version_new_empty.
  - by exists v'.
Qed.
End Save.
