(* ===== verification/FileRefs.v ===== *)
(** * Reference counts of file objects

    The counters of the files of a store are exact when they count the pointers of a
    multiset of owners: the versions and the builder at work.  Allocation, the builder's
    additions and the release of files keep them exact, and no freed file is used. *)

From stdpp Require Import gmap gmultiset.
From S2P Require Import Prelude Comparator DbFormat VersionEdit Version VersionProofs VersionBuilder.
From S2P Require Import VersionBuilderProofs.
From stdpp Require Import list.
#[local] Open Scope Z_scope.

(** The pointers of a list, with multiplicities. *)
Abbreviation mset l := (list_to_set_disj l : gmultiset Z).
#[export] Instance mset_proper : Proper (Permutation ==> (=)) (list_to_set_disj (C := gmultiset Z)).
Proof. intros l l' H. by apply list_to_set_disj_perm. Qed.
Lemma elem_of_mset a l : a ∈ mset l <-> a ∈ l.
Proof. by rewrite elem_of_list_to_set_disj. Qed.

Definition file_refs (h : Files) (X : gmultiset Z) : Prop :=
  forall a, f_refs <$> h !! a = if decide (a ∈ X) then Some (Z.of_nat (multiplicity a X)) else None.

Lemma file_refs_Some h X a : file_refs h X -> a ∈ X ->
  exists f, h !! a = Some f /\ f_refs f = Z.of_nat (multiplicity a X) /\ 0 < f_refs f.
Proof.
  intros H Ha. specialize (H a). rewrite decide_True in H by done. apply fmap_Some in H as (f & E & Hf).
  exists f. split; [done|]. split; [done|]. rewrite elem_of_multiplicity in Ha. lia.
Qed.
Lemma file_refs_None h X a : file_refs h X -> a ∉ X -> h !! a = None.
Proof. intros H Ha. specialize (H a). rewrite decide_False in H by done. by apply fmap_None in H. Qed.
Lemma file_refs_deref h X a : file_refs h X -> a ∈ X -> f_refs (deref h a) = Z.of_nat (multiplicity a X).
Proof. intros H Ha. destruct (file_refs_Some h X a H Ha) as (f & E & Hf & _). unfold deref. by rewrite E. Qed.
Lemma file_refs_empty : file_refs ∅ ∅.
Proof. intros a. rewrite decide_False by multiset_solver. by rewrite lookup_empty. Qed.

(** Two stores agree on what the files of [X] describe. *)
Definition same_on (X : gmultiset Z) (h h' : Files) : Prop := forall a, a ∈ X -> finfo (deref h a) = finfo (deref h' a).
Lemma same_on_refl X h : same_on X h h.
Proof. done. Qed.
Lemma same_on_trans X h h' h'' : same_on X h h' -> same_on X h' h'' -> same_on X h h''.
Proof. intros H H' a Ha. by rewrite H, H'. Qed.
Lemma same_on_sub X Y h h' : X ⊆ Y -> same_on Y h h' -> same_on X h h'.
Proof. intros Hs H a Ha. apply H. multiset_solver. Qed.

(** ** Operations *)

Lemma file_refs_insert h X a f n : file_refs h X -> f_refs f = Z.of_nat (multiplicity a X + n) -> (0 < n)%nat ->
  file_refs (<[a := f]> h) (X ⊎ n *: {[+ a +]}).
Proof.
  intros H Hf Hn b. destruct (decide (a = b)) as [<-|Hne].
  - rewrite lookup_insert_eq. cbn [fmap option_fmap option_map]. rewrite decide_True by multiset_solver.
    rewrite multiplicity_disj_union, multiplicity_scalar_mul, multiplicity_singleton_eq. f_equal. lia.
  - rewrite lookup_insert_ne by done. rewrite (H b).
    assert (multiplicity b (X ⊎ n *: {[+ a +]}) = multiplicity b X) as E.
    { rewrite multiplicity_disj_union, multiplicity_scalar_mul, multiplicity_singleton_ne by done. lia. }
    rewrite E. apply decide_ext. by rewrite !elem_of_multiplicity, E.
Qed.
Lemma scalar_1 (a : Z) : 1%nat *: {[+ a +]} = ({[+ a +]} : gmultiset Z).
Proof. multiset_solver. Qed.
Lemma file_refs_new h X a f : file_refs h X -> a ∉ X -> f_refs f = 1 -> file_refs (<[a := f]> h) (X ⊎ {[+ a +]}).
Proof.
  intros H Ha Hf. rewrite <- (scalar_1 a). apply file_refs_insert; [done| |lia].
  rewrite elem_of_multiplicity in Ha. rewrite Hf. lia.
Qed.
Lemma file_refs_incr h X a : file_refs h X -> a ∈ X ->
  file_refs (<[a := set_refs (deref h a) (f_refs (deref h a) + 1)]> h) (X ⊎ {[+ a +]}).
Proof.
  intros H Ha. rewrite <- (scalar_1 a). apply file_refs_insert; [done| |lia].
  cbn [set_refs f_refs]. rewrite (file_refs_deref h X a H Ha). lia.
Qed.
Lemma add_refs_refs l : forall h X, file_refs h X -> (forall a, a ∈ l -> a ∈ X) -> file_refs (add_refs h l) (X ⊎ mset l).
Proof.
  induction l as [|a l IH]; intros h X H Hl; cbn [add_refs fold_left].
  { by replace (X ⊎ mset []) with X by (cbn; multiset_solver). }
  cbn [list_to_set_disj]. rewrite (assoc_L (⊎)). apply IH; [apply file_refs_incr; [done|apply Hl; by left]|].
  intros b Hb. apply gmultiset_elem_of_disj_union. left. apply Hl. by right.
Qed.
Lemma unref_refs h X a : file_refs h X -> a ∈ X -> file_refs (unref_file h a) (X ∖ {[+ a +]}) /\
  same_on (X ∖ {[+ a +]}) h (unref_file h a).
Proof.
  intros H Ha. pose proof (file_refs_deref h X a H Ha) as Hr. unfold unref_file.
  assert (forall b, multiplicity b (X ∖ {[+ a +]}) = if decide (b = a) then (multiplicity b X - 1)%nat else multiplicity b X) as Hm.
  { intros b. rewrite multiplicity_difference. destruct (decide (b = a)) as [->|Hne].
    - by rewrite multiplicity_singleton_eq.
    - rewrite multiplicity_singleton_ne by done. lia. }
  destruct (Z.leb_spec (f_refs (deref h a) - 1) 0) as [Hle|Hgt].
  - split.
    + intros b. destruct (decide (a = b)) as [<-|Hne].
      * rewrite lookup_delete_eq, decide_False; [done|]. rewrite elem_of_multiplicity, Hm, decide_True by done. lia.
      * rewrite lookup_delete_ne, (H b) by done. rewrite Hm, (decide_False (P := b = a)) by done.
        apply decide_ext. rewrite !elem_of_multiplicity, Hm, (decide_False (P := b = a)); done.
    + intros b Hb. destruct (decide (a = b)) as [<-|Hne].
      * rewrite elem_of_multiplicity, Hm, decide_True in Hb by done. lia.
      * unfold deref. by rewrite lookup_delete_ne.
  - split.
    + intros b. destruct (decide (a = b)) as [<-|Hne].
      * rewrite lookup_insert_eq. cbn [fmap option_fmap option_map set_refs f_refs].
        rewrite decide_True by (rewrite elem_of_multiplicity, Hm, decide_True by done; lia).
        rewrite Hm, decide_True by done. f_equal. lia.
      * rewrite lookup_insert_ne, (H b) by done. rewrite Hm, (decide_False (P := b = a)) by done.
        apply decide_ext. rewrite !elem_of_multiplicity, Hm, (decide_False (P := b = a)); done.
    + intros b _. apply same_info_refs.
Qed.
Lemma drop_file_refs h X a : file_refs h X -> a ∈ X ->
  drop_file h a = Some (unref_file h a).
Proof.
  intros H Ha. destruct (file_refs_Some h X a H Ha) as (f & E & _ & Hp). unfold drop_file. rewrite E.
  cbn [mbind option_bind]. by rewrite (proj2 (Z.ltb_lt _ _) Hp).
Qed.
Lemma drop_files_refs l : forall h X, file_refs h X -> mset l ⊆ X -> exists h',
  foldM drop_file l h = Some h' /\ h' = fold_left unref_file l h /\
  file_refs h' (X ∖ mset l) /\ same_on (X ∖ mset l) h h'.
Proof.
  induction l as [|a l IH]; intros h X H Hl; cbn [foldM fold_left].
  { exists h. replace (X ∖ mset []) with X by (cbn; multiset_solver). by split_and!. }
  cbn [list_to_set_disj] in Hl |- *. assert (a ∈ X) as Ha by multiset_solver.
  rewrite (drop_file_refs h X a H Ha). destruct (unref_refs h X a H Ha) as [H1 H2].
  destruct (IH (unref_file h a) (X ∖ {[+ a +]}) H1 ltac:(multiset_solver)) as (h' & E & E' & H3 & H4).
  assert (X ∖ ({[+ a +]} ⊎ mset l) = X ∖ {[+ a +]} ∖ mset l) as -> by multiset_solver.
  exists h'. split_and!; [done|done|done|]. eapply same_on_trans; [|exact H4].
  eapply same_on_sub; [|exact H2]. multiset_solver.
Qed.

(** ** The files a builder holds *)

Definition builder_files (b : Builder) : list Z := concat (ls_added_files <$> b).
Lemma builder_files_alter (b : Builder) i f s x : b !! i = Some s -> ls_added_files (f s) ≡ₚ x :: ls_added_files s ->
  builder_files (alter f i b) ≡ₚ x :: builder_files b.
Proof.
  unfold builder_files. revert i. induction b as [|s0 b IH]; intros [|i] Hi Hp; try done; cbn in *.
  - injection Hi as ->. by rewrite Hp.
  - rewrite (IH i Hi Hp). symmetry. apply Permutation_middle.
Qed.
Lemma level_state_lookup (b : Builder) L : 0 <= L < blen b -> b !! Z.to_nat L = Some (level_state b L).
Proof.
  intros HL. destruct (lookup_Z b L HL) as [s E]. rewrite E. f_equal. unfold level_state. symmetry.
  by apply nth_lookup_Some.
Qed.
Lemma builder_files_ext (b b' : Builder) : blen b = kNumLevels -> blen b' = kNumLevels ->
  (forall L, L ∈ levels -> ls_added_files (level_state b' L) = ls_added_files (level_state b L)) ->
  builder_files b' = builder_files b.
Proof.
  intros Hb Hb' H. unfold builder_files. f_equal. apply list_eq. intros i. rewrite !list_lookup_fmap.
  destruct (decide (i < Z.to_nat kNumLevels)%nat) as [Hi|Hi].
  - assert (0 <= Z.of_nat i < kNumLevels) as Hr by (unfold kNumLevels in *; lia).
    specialize (H (Z.of_nat i) (proj2 (levels_range _) Hr)).
    rewrite <- (Nat2Z.id i). rewrite !level_state_lookup by lia.
    cbn [fmap option_fmap option_map]. by rewrite H.
  - by rewrite !lookup_ge_None_2 by (unfold blen, kNumLevels in *; lia).
Qed.
Lemma builder_files_elem (b : Builder) a : blen b = kNumLevels -> a ∈ builder_files b ->
  exists L, L ∈ levels /\ a ∈ ls_added_files (level_state b L).
Proof.
  intros Hb (l & (s & -> & Hs)%list_elem_of_fmap & Ha)%elem_of_concat.
  apply list_elem_of_lookup in Hs as [i Hi]. apply lookup_lt_Some in Hi as Hlt.
  exists (Z.of_nat i). split; [apply levels_range; unfold blen in Hb; lia|].
  unfold level_state. rewrite Nat2Z.id. by rewrite (nth_lookup_Some _ _ _ _ Hi).
Qed.
Lemma Builder_destroy_refs b st X : file_refs (st_files st) (X ⊎ mset (builder_files b)) ->
  file_refs (st_files (Builder_destroy b st)) X /\ st_next (Builder_destroy b st) = st_next st /\
  same_on X (st_files st) (st_files (Builder_destroy b st)).
Proof.
  intros H. unfold Builder_destroy. cbn [st_files set_files st_next].
  assert (fold_left (fun h s => fold_left unref_file (ls_added_files s) h) b (st_files st) =
    fold_left unref_file (builder_files b) (st_files st)) as ->.
  { unfold builder_files. generalize (st_files st). clear H. induction b as [|s b IH]; intros h; cbn; [done|].
    by rewrite fold_left_app, IH. }
  destruct (drop_files_refs (builder_files b) _ _ H ltac:(multiset_solver)) as (h' & _ & <- & H1 & H2).
  replace ((X ⊎ mset (builder_files b)) ∖ mset (builder_files b)) with X in * by multiset_solver. by split_and!.
Qed.
