(* ===== verification/VersionRefines.v ===== *)
(** * What a sequence of edits does to a version

    A level is abstracted to a map from file numbers to file descriptions and a set of guard
    keys.  Applying edits in a builder and saving the builder implements the obvious
    operation on this abstraction, and gives a version whose files are placed as the
    reads expect. *)

From stdpp Require Import gmap gmultiset sorting.
From S2P Require Import Prelude Coding Status Comparator DbFormat Bloom Iterator VersionEdit.
From S2P Require Import MemTable TableSpec TableGet Version VersionProofs VersionGet VersionBuilder.
From S2P Require Import VersionBuilderProofs FileRefs.
From stdpp Require Import list.
#[local] Open Scope Z_scope.

(** ** The abstraction *)

(** Size, smallest key, largest key. *)
Abbreviation info := (Z * list Z * list Z)%type.
Definition file_info (f : FileMetaData) : info := (f_file_size f, f_smallest f, f_largest f).
Definition file_pair (h : Files) (a : Z) : Z * info := (f_number (deref h a), file_info (deref h a)).
Definition abs_files (h : Files) (l : list Z) : gmap Z info := list_to_map (file_pair h <$> l).
Abbreviation numbers h l := ((fun a => f_number (deref h a)) <$> l).

(** What an edit deletes from and adds to a level. *)
Definition edit_deleted (e : VersionEdit) (L : Z) : gset Z :=
  list_to_set (snd <$> filter (fun p => fst p = L) (deleted_files_ e)).
Definition edit_new (e : VersionEdit) (L : Z) : list FileMetaData :=
  snd <$> filter (fun p => fst p = L) (new_files_ e).
Definition new_map (fs : list FileMetaData) : gmap Z info :=
  list_to_map ((fun f => (f_number f, file_info f)) <$> fs).
(** The edit on the files of a level. *)
Definition spec_edit (e : VersionEdit) (L : Z) (m : gmap Z info) : gmap Z info :=
  filter (fun p => p.1 ∉ edit_deleted e L) m ∪ new_map (edit_new e L).

Lemma file_pair_same h h' a : same_info h h' -> file_pair h a = file_pair h' a.
Proof. intros H. specialize (H a). unfold finfo in H. unfold file_pair, file_info. congruence. Qed.
Lemma abs_files_same h h' l : same_info h h' -> abs_files h l = abs_files h' l.
Proof. intros H. unfold abs_files. f_equal. apply list_fmap_ext. intros. by apply file_pair_same. Qed.
Lemma abs_files_ext h h' l : (forall a, a ∈ l -> deref h a = deref h' a) -> abs_files h l = abs_files h' l.
Proof.
  intros H. unfold abs_files. f_equal. apply list_fmap_ext. intros i a Ha.
  unfold file_pair. by rewrite (H a) by by eapply list_elem_of_lookup_2.
Qed.
Lemma file_pair_fst h l : (file_pair h <$> l).*1 = numbers h l.
Proof. rewrite <- list_fmap_compose. done. Qed.
Lemma abs_files_perm h l l' : NoDup (numbers h l) -> l ≡ₚ l' -> abs_files h l = abs_files h l'.
Proof.
  intros Hnd Hp. unfold abs_files. apply list_to_map_proper; [by rewrite file_pair_fst|by rewrite Hp].
Qed.
Lemma abs_files_app h l l' : abs_files h (l ++ l') = abs_files h l ∪ abs_files h l'.
Proof. unfold abs_files. rewrite fmap_app. apply list_to_map_app. Qed.
Lemma abs_files_kept h (D : gset Z) l : NoDup (numbers h l) ->
  abs_files h (filter (fun a => f_number (deref h a) ∉ D) l) = filter (fun p => p.1 ∉ D) (abs_files h l).
Proof.
  induction l as [|a l IH]; intros Hnd; [done|]. apply NoDup_cons in Hnd as [Hna Hnd].
  unfold abs_files in *. cbn [fmap list_fmap list_to_map foldr]. rewrite filter_cons.
  assert ((list_to_map (file_pair h <$> l) : gmap Z info) !! f_number (deref h a) = None) as Hno.
  { apply not_elem_of_list_to_map_1. by rewrite file_pair_fst. }
  destruct (decide (f_number (deref h a) ∉ D)) as [Hin|Hin].
  - cbn [fmap list_fmap list_to_map foldr]. rewrite IH by done. cbn. by rewrite map_filter_insert_True.
  - rewrite IH by done. cbn. rewrite map_filter_insert_False by done. by rewrite delete_id.
Qed.

(** ** The state of a builder over a base version *)

Section Refine.
Context (ucmp : Comparator) (Hc : ComparatorOk ucmp bytes_ok).
Abbreviation ivalid := (internal_valid bytes_ok).
Abbreviation gvalid := (fun g => bytes_ok (guard_user_key g)).
Abbreviation added b L := (ls_added_files (level_state b L)).
Abbreviation deleted b L := (ls_deleted_files (level_state b L)).
Abbreviation base_files base L := (at_level (files_ base) L).

Record level_inv (st : Store) (s : LevelState) (base : list Z) : Prop := {
  li_addr : forall a, a ∈ ls_added_files s ++ base -> 0 < a < st_next st;
  li_numbers : NoDup (numbers (st_files st) (ls_added_files s ++ base));
  li_keys : Forall (keys_ok (st_files st)) (ls_added_files s ++ base);
  li_added : StronglySorted (ord_lt (file_before ucmp (st_files st))) (ls_added_files s);
  li_base : StronglySorted (ord_le (file_before ucmp (st_files st))) base;
}.
Record guards_inv (s : LevelState) : Prop := {
  gi_guards : Forall gvalid (ls_added_guards s);
  gi_sorted : StronglySorted (ord_lt (BySmallestGuard ucmp)) (ls_added_guards s);
  gi_complete : Forall gvalid (ls_added_complete_guards s);
  gi_complete_sorted : StronglySorted (ord_lt (BySmallestGuard ucmp)) (ls_added_complete_guards s);
  gi_deleted : ls_deleted_guards s = [];
}.
Definition builder_inv (st : Store) (b : Builder) (base : Version) : Prop :=
  0 < st_next st /\ blen b = kNumLevels /\
  forall L, L ∈ levels -> level_inv st (level_state b L) (base_files base L) /\ guards_inv (level_state b L).
(** The files the builder would save at a level. *)
Definition abs_level (h : Files) (s : LevelState) (base : list Z) : gmap Z info :=
  filter (fun p => p.1 ∉ ls_deleted_files s) (abs_files h (ls_added_files s ++ base)).

Lemma level_state_alter b L L' f : 0 <= L < blen b -> 0 <= L' ->
  level_state (alter f (Z.to_nat L) b) L' = if decide (L' = L) then f (level_state b L') else level_state b L'.
Proof.
  intros HL HL'.
  assert (forall b i, nth i b LevelState_new = default LevelState_new (b !! i)) as Hn.
  { intros b0. induction b0 as [|x b0 IH]; intros [|i]; cbn; try done. }
  unfold level_state. rewrite !Hn. destruct (decide (L' = L)) as [->|Hne].
  - rewrite list_lookup_alter_eq. destruct (lookup_Z b L HL) as [l ->]. done.
  - rewrite list_lookup_alter_ne; [done|lia].
Qed.
Lemma on_level_Some b L f : L ∈ levels -> on_level b L f = Some (alter f (Z.to_nat L) b).
Proof.
  intros [H0 H1]%levels_range. unfold on_level. by rewrite (proj2 (Z.leb_le _ _) H0), (proj2 (Z.ltb_lt _ _) H1).
Qed.
Lemma blen_alter (b : Builder) L f : blen (alter f (Z.to_nat L) b) = blen b.
Proof. unfold blen. by rewrite length_alter. Qed.

(** *** Deleting files *)

Lemma Apply_deleted_files ds : forall b, blen b = kNumLevels -> (forall p, p ∈ ds -> fst p ∈ levels) ->
  exists b', foldM Apply_deleted_file ds b = Some b' /\ blen b' = kNumLevels /\
    forall L, L ∈ levels -> level_state b' L =
      set_added_files (level_state b L) (added b L)
        (list_to_set (snd <$> filter (fun p => fst p = L) ds) ∪ deleted b L).
Proof.
  induction ds as [|[L0 n] ds IH]; intros b Hb Hin; cbn [foldM].
  { exists b. split; [done|]. split; [done|]. intros L HL. destruct (level_state b L). cbn.
    unfold set_added_files. cbn. f_equal. set_solver. }
  unfold Apply_deleted_file at 1. cbn [fst snd]. pose proof (Hin (L0, n) ltac:(by left)) as HL0. cbn in HL0.
  rewrite (on_level_Some _ _ _ HL0).
  destruct (IH (alter (delete_file n) (Z.to_nat L0) b)) as (b' & E & Hb' & Hl);
    [by rewrite blen_alter|intros; apply Hin; by right|].
  exists b'. split; [done|]. split; [done|]. intros L HL. rewrite (Hl L HL).
  apply levels_range in HL, HL0. rewrite level_state_alter by lia. rewrite filter_cons. cbn [fst].
  destruct (decide (L = L0)) as [<-|Hne]; [rewrite decide_True by done|rewrite decide_False by done; done].
  unfold set_added_files, delete_file. cbn. f_equal. set_solver.
Qed.

(** *** Adding files *)

Lemma deref_old st f a : 0 < a < st_next st -> deref (<[st_next st := f]> (st_files st)) a = deref (st_files st) a.
Proof. intros. apply deref_insert_ne. lia. Qed.
Lemma set_insert_perm {A} (lt : A -> A -> bool) x s :
  (forall y, y ∈ s -> lt x y = true \/ lt y x = true) -> set_insert lt x s ≡ₚ x :: s.
Proof.
  induction s as [|y s IH]; intros H; cbn [set_insert]; [done|]. destruct (lt x y) eqn:E; [done|].
  destruct (H y ltac:(by left)) as [|E']; [congruence|]. rewrite E'.
  rewrite IH by (intros; apply H; by right). constructor.
Qed.
Lemma file_before_ext h h' a b : deref h a = deref h' a -> deref h b = deref h' b ->
  file_before ucmp h a b = file_before ucmp h' a b.
Proof. intros Ha Hb. unfold file_before. by rewrite Ha, Hb. Qed.
(** Files of different numbers are ordered. *)
Lemma file_before_total h a b : keys_ok h a -> keys_ok h b -> f_number (deref h a) <> f_number (deref h b) ->
  file_before ucmp h a b = true \/ file_before ucmp h b a = true.
Proof.
  intros [Ha _] [Hb _] Hne. destruct (file_before ucmp h a b) eqn:E; [by left|]. right.
  destruct (file_before ucmp h b a) eqn:E'; [done|]. unfold file_before in *.
  apply (BySmallestKey_false ucmp Hc) in E, E'; [|done..].
  pose proof (icmp_sym ucmp Hc (f_smallest (deref h a)) (f_smallest (deref h b)) Ha Hb).
  pose proof (icmp_sym ucmp Hc (f_smallest (deref h b)) (f_smallest (deref h a)) Hb Ha). lia.
Qed.
Lemma sorted_ext {A} (R R' : A -> A -> Prop) l :
  (forall a b, a ∈ l -> b ∈ l -> R a b -> R' a b) -> StronglySorted R l -> StronglySorted R' l.
Proof.
  intros H Hs. induction Hs as [|x l Hs IH Hx]; [constructor|]. constructor.
  - apply IH. intros a b Ha Hb. apply H; by right.
  - rewrite Forall_forall in *. intros y Hy. apply H; [by left|by right|by apply Hx].
Qed.

(** A store that grows keeps what the old addresses hold. *)
Definition grows (st st' : Store) : Prop :=
  st_next st <= st_next st' /\ forall a, 0 < a < st_next st -> deref (st_files st') a = deref (st_files st) a.
Lemma grows_refl st : grows st st.
Proof. done. Qed.
Lemma grows_trans st st' st'' : grows st st' -> grows st' st'' -> grows st st''.
Proof.
  intros [H1 H2] [H3 H4]. split; [lia|]. intros a Ha. rewrite H4 by lia. by apply H2.
Qed.
Lemma alloc_grows st f : grows st (fst (alloc st f)).
Proof. split; [cbn; lia|]. intros a Ha. by apply deref_old. Qed.
Lemma numbers_ext h h' (l : list Z) : (forall a, a ∈ l -> deref h a = deref h' a) -> numbers h l = numbers h' l.
Proof. intros H. apply list_fmap_ext. intros i a Ha. by rewrite (H a) by by eapply list_elem_of_lookup_2. Qed.
Lemma level_inv_grows st st' s base : grows st st' -> level_inv st s base ->
  level_inv st' s base /\ abs_level (st_files st') s base = abs_level (st_files st) s base.
Proof.
  intros [Hn Hd] [Ha Hnum Hk Hs Hb].
  assert (forall a, a ∈ ls_added_files s ++ base -> deref (st_files st') a = deref (st_files st) a) as Hsame
    by (intros a Hin; by apply Hd, Ha).
  split; [split|].
  - intros a Hin. specialize (Ha a Hin). lia.
  - by rewrite (numbers_ext _ (st_files st) _ Hsame).
  - rewrite Forall_forall in *. intros a Hin. destruct (Hk a Hin). split; by rewrite Hsame.
  - eapply sorted_ext; [|exact Hs]. intros a b Hia Hib. unfold ord_lt.
    rewrite (file_before_ext (st_files st') (st_files st)); [done|apply Hsame, elem_of_app; by left..].
  - eapply sorted_ext; [|exact Hb]. intros a b Hia Hib. unfold ord_le.
    rewrite (file_before_ext (st_files st') (st_files st)); [done|apply Hsame, elem_of_app; by right..].
  - unfold abs_level. by rewrite (abs_files_ext _ (st_files st) _ Hsame).
Qed.

Lemma new_file_info f : f_number (new_file f) = f_number f /\ file_info (new_file f) = file_info f.
Proof. done. Qed.
Lemma filter_deleted_ext (D : gset Z) n (m : gmap Z info) : m !! n = None ->
  filter (fun p => p.1 ∉ D ∖ {[n]}) m = filter (fun p => p.1 ∉ D) m.
Proof.
  intros Hn. apply map_filter_ext. intros k x Hk. cbn.
  assert (k <> n) by (intros ->; congruence). set_solver.
Qed.
Lemma new_file_step st s base f : 0 < st_next st -> level_inv st s base ->
  ivalid (f_smallest f) -> ivalid (f_largest f) ->
  f_number f ∉ numbers (st_files st) (ls_added_files s ++ base) ->
  let st' := fst (alloc st (new_file f)) in
  let s' := set_added_files s (set_insert (file_before ucmp (st_files st')) (st_next st) (ls_added_files s))
              (ls_deleted_files s ∖ {[ f_number f ]}) in
  level_inv st' s' base /\
  abs_level (st_files st') s' base = abs_level (st_files st) s base ∪ {[ f_number f := file_info f ]} /\
  numbers (st_files st') (ls_added_files s' ++ base) ≡ₚ f_number f :: numbers (st_files st) (ls_added_files s ++ base) /\
  ls_added_files s' ≡ₚ st_next st :: ls_added_files s.
Proof.
  intros Hpos Hinv Hfs Hfl Hfresh st' s'. pose proof (alloc_grows st (new_file f)) as Hg. fold st' in Hg.
  destruct (level_inv_grows st st' s base Hg Hinv) as [[Ha Hnum Hk Hs Hb] Habs]. destruct Hg as [_ Hd].
  assert (deref (st_files st') (st_next st) = new_file f) as Hnew by apply deref_insert.
  assert (f_number f ∉ numbers (st_files st') (ls_added_files s ++ base)) as Hfresh'.
  { rewrite (numbers_ext _ (st_files st)); [done|]. intros a Hin. by apply Hd, (li_addr st s base Hinv). }
  assert (keys_ok (st_files st') (st_next st)) as Hkn by (split; rewrite Hnew; done).
  set (ins := set_insert (file_before ucmp (st_files st')) (st_next st) (ls_added_files s)).
  assert (ins ≡ₚ st_next st :: ls_added_files s) as Hperm.
  { apply set_insert_perm. intros y Hy. rewrite Forall_app in Hk. destruct Hk as [Hk _].
    rewrite Forall_forall in Hk. apply file_before_total; [done|by apply Hk|].
    rewrite Hnew. cbn. intros E. apply Hfresh'. rewrite E.
    apply list_elem_of_fmap. exists y. split; [done|]. apply elem_of_app. by left. }
  assert (NoDup (numbers (st_files st') (st_next st :: ls_added_files s ++ base))) as Hnd.
  { cbn [fmap list_fmap]. apply NoDup_cons. split; [by rewrite Hnew|done]. }
  assert (ls_added_files s' = ins) as Eadd by done.
  split_and!; [split| | |done].
  - rewrite Eadd. intros a. rewrite Hperm. cbn. intros [->|Hin]%elem_of_cons; [lia|by apply Ha].
  - rewrite Eadd, Hperm. done.
  - rewrite Eadd, Hperm. cbn. by constructor.
  - rewrite Eadd. apply (@set_insert_sorted _ _ _ (file_before_weak ucmp Hc (st_files st'))).
    + apply Hkn.
    + apply Forall_app in Hk as [Hk _]. eapply Forall_impl; [exact Hk|]. by intros a [].
    + done.
  - done.
  - rewrite <- Habs. unfold abs_level. rewrite Eadd.
    rewrite (abs_files_perm _ (ins ++ base) (st_next st :: ls_added_files s ++ base)) by (rewrite ?Hperm; done).
    change (st_next st :: ls_added_files s ++ base) with ([st_next st] ++ ls_added_files s ++ base).
    rewrite abs_files_app. set (m := abs_files (st_files st') (ls_added_files s ++ base)).
    assert (m !! f_number f = None) as Hm by (apply not_elem_of_list_to_map_1; by rewrite file_pair_fst).
    assert (abs_files (st_files st') [st_next st] = {[ f_number f := file_info f ]}) as ->.
    { unfold abs_files. cbn [fmap list_fmap]. unfold file_pair. by rewrite Hnew. }
    cbn [ls_deleted_files s' set_added_files]. rewrite <- insert_union_singleton_l, map_filter_insert_True by set_solver.
    rewrite filter_deleted_ext by done. rewrite insert_union_singleton_r; [done|].
    apply map_lookup_filter_None. by left.
  - rewrite Eadd, Hperm. cbn [app fmap list_fmap]. rewrite Hnew. cbn [new_file set_allowed_seeks set_refs f_number].
    f_equiv. erewrite numbers_ext; [done|]. intros a Hin. by apply Hd, (li_addr st s base Hinv).
Qed.

(** The counters of the files, for owners [X] besides the builder. *)
Definition refs_kept (st : Store) (b : Builder) (st' : Store) (b' : Builder) : Prop :=
  forall X, (forall a, a ∈ X -> a < st_next st) -> file_refs (st_files st) (X ⊎ mset (builder_files b)) ->
  file_refs (st_files st') (X ⊎ mset (builder_files b')).
Lemma refs_kept_trans st b st' b' st'' b'' : grows st st' ->
  refs_kept st b st' b' -> refs_kept st' b' st'' b'' -> refs_kept st b st'' b''.
Proof. intros [Hg _] H H' X HX Hr. apply H'; [|by apply H]. intros a Ha. specialize (HX a Ha). lia. Qed.
Lemma refs_kept_ext st b b' : builder_files b' = builder_files b -> refs_kept st b st b'.
Proof. intros E X _. by rewrite E. Qed.

(** The parts of a level state that files do not touch. *)
Definition same_guards (s s' : LevelState) : Prop :=
  ls_added_guards s' = ls_added_guards s /\ ls_added_complete_guards s' = ls_added_complete_guards s /\
  ls_deleted_guards s' = ls_deleted_guards s.
Lemma same_guards_inv s s' : same_guards s s' -> guards_inv s -> guards_inv s'.
Proof. intros (E1 & E2 & E3) []. split; congruence. Qed.
Lemma same_guards_trans s s' s'' : same_guards s s' -> same_guards s' s'' -> same_guards s s''.
Proof. intros (E1 & E2 & E3) (F1 & F2 & F3). split_and!; congruence. Qed.

Definition news (L : Z) (fs : list (Z * FileMetaData)) : list FileMetaData := snd <$> filter (fun p => fst p = L) fs.
Definition new_ok (p : Z * FileMetaData) : Prop :=
  fst p ∈ levels /\ ivalid (f_smallest (snd p)) /\ ivalid (f_largest (snd p)).
(** The numbers of the new files of a level are new. *)
Definition fresh_numbers (h : Files) (s : LevelState) (base : list Z) (fs : list FileMetaData) : Prop :=
  NoDup (f_number <$> fs) /\
  forall f, f ∈ fs -> f_number f ∉ numbers h (ls_added_files s ++ base).

Lemma news_cons L L0 f fs : news L ((L0, f) :: fs) = if decide (L0 = L) then f :: news L fs else news L fs.
Proof. unfold news. rewrite filter_cons. cbn [fst]. by destruct (decide (L0 = L)). Qed.
Lemma new_map_cons f fs : new_map (f :: fs) = {[ f_number f := file_info f ]} ∪ new_map fs.
Proof. unfold new_map. cbn. apply insert_union_singleton_l. Qed.

Lemma Apply_new_files base fs : forall st b, 0 < st_next st -> blen b = kNumLevels ->
  (forall L, L ∈ levels -> level_inv st (level_state b L) (base_files base L)) ->
  Forall new_ok fs ->
  (forall L, L ∈ levels -> fresh_numbers (st_files st) (level_state b L) (base_files base L) (news L fs)) ->
  exists st' b', foldM (Apply_new_file ucmp) fs (st, b) = Some (st', b') /\
    0 < st_next st' /\ blen b' = kNumLevels /\ grows st st' /\ refs_kept st b st' b' /\
    forall L, L ∈ levels ->
      level_inv st' (level_state b' L) (base_files base L) /\
      abs_level (st_files st') (level_state b' L) (base_files base L) =
        abs_level (st_files st) (level_state b L) (base_files base L) ∪ new_map (news L fs) /\
      same_guards (level_state b L) (level_state b' L) /\
      numbers (st_files st') (added b' L ++ base_files base L) ≡ₚ
        (f_number <$> news L fs) ++ numbers (st_files st) (added b L ++ base_files base L).
Proof.
  induction fs as [|[L0 f] fs IH]; intros st b Hpos Hb Hinv Hok Hfresh; cbn [foldM].
  { exists st, b. split_and!; try done; [by apply refs_kept_ext|]. intros L HL. split; [by apply Hinv|]. split; [|done].
    unfold news, new_map. cbn. by rewrite (right_id_L ∅ (∪)). }
  apply Forall_cons in Hok as [(HL0 & Hfs & Hfl) Hok]. cbn [fst snd] in *.
  set (st1 := fst (alloc st (new_file f))).
  set (upd := fun s => set_added_files s (set_insert (file_before ucmp (st_files st1)) (st_next st) (ls_added_files s))
                         (ls_deleted_files s ∖ {[ f_number f ]})).
  assert (Apply_new_file ucmp (st, b) (L0, f) = Some (st1, alter upd (Z.to_nat L0) b)) as ->.
  { unfold Apply_new_file. cbn [alloc fst snd]. by rewrite (on_level_Some _ _ _ HL0). }
  pose proof (proj1 (levels_range L0) HL0) as HL0r.
  assert (f_number f ∉ numbers (st_files st) (added b L0 ++ base_files base L0)) as Hnf.
  { destruct (Hfresh L0 HL0) as [_ H]. apply H. rewrite news_cons, decide_True by done. by left. }
  destruct (new_file_step st (level_state b L0) (base_files base L0) f Hpos (Hinv L0 HL0) Hfs Hfl Hnf) as (Hinv1 & Habs1 & Hnum1 & Hperm1).
  fold st1 in Hinv1, Habs1, Hnum1, Hperm1. fold (upd (level_state b L0)) in Hinv1, Habs1, Hnum1, Hperm1.
  assert (grows st st1) as Hg by apply alloc_grows.
  assert (forall L, L ∈ levels -> level_state (alter upd (Z.to_nat L0) b) L =
    if decide (L = L0) then upd (level_state b L) else level_state b L) as Hls.
  { intros L HL%levels_range. apply level_state_alter; [rewrite Hb; lia|lia]. }
  assert (refs_kept st b st1 (alter upd (Z.to_nat L0) b)) as Hrk.
  { intros X HX Hr. rewrite (builder_files_alter b _ upd _ (st_next st) (level_state_lookup b L0 ltac:(lia)) Hperm1).
    cbn [list_to_set_disj]. replace (X ⊎ ({[+ st_next st +]} ⊎ mset (builder_files b))) with
      (X ⊎ mset (builder_files b) ⊎ {[+ st_next st +]}) by multiset_solver.
    apply file_refs_new; [done| |done]. rewrite gmultiset_elem_of_disj_union. intros [Ha%HX|Ha%elem_of_mset]; [lia|].
    destruct (builder_files_elem b _ Hb Ha) as (L & HL & Hin).
    pose proof (li_addr _ _ _ (Hinv L HL) (st_next st)) as Hlt. rewrite elem_of_app in Hlt. specialize (Hlt (or_introl Hin)). lia. }
  destruct (IH st1 (alter upd (Z.to_nat L0) b)) as (st' & b' & E & Hpos' & Hb' & Hg' & Hrk' & Hrest).
  - cbn. lia.
  - by rewrite blen_alter.
  - intros L HL. rewrite (Hls L HL). destruct (decide (L = L0)) as [->|Hne]; [done|].
    by apply level_inv_grows with (st := st), Hinv.
  - done.
  - intros L HL. rewrite (Hls L HL). destruct (Hfresh L HL) as [Hnd Hn]. rewrite news_cons in Hnd, Hn.
    destruct (decide (L = L0)) as [->|Hne].
    + rewrite decide_True in Hnd, Hn by done. apply NoDup_cons in Hnd as [Hnf' Hnd]. split; [done|].
      intros f' Hf' Hin. apply list_elem_of_fmap in Hin as (a & Ea & Hin).
      cbn [upd set_added_files ls_added_files] in Hin. apply elem_of_app in Hin as [Hin|Hin].
      * apply set_insert_elem in Hin as [->|Hin].
        -- unfold st1 in Ea. cbn in Ea. rewrite deref_insert in Ea. cbn in Ea. apply Hnf'. rewrite <- Ea.
           apply list_elem_of_fmap. by exists f'.
        -- apply (Hn f' ltac:(by right)). rewrite Ea. apply list_elem_of_fmap. exists a.
           split; [|apply elem_of_app; by left]. destruct Hg as [_ Hd]. rewrite Hd; [done|].
           apply (li_addr st _ _ (Hinv L0 HL0)). apply elem_of_app. by left.
      * apply (Hn f' ltac:(by right)). rewrite Ea. apply list_elem_of_fmap. exists a.
        split; [|apply elem_of_app; by right]. destruct Hg as [_ Hd]. rewrite Hd; [done|].
        apply (li_addr st _ _ (Hinv L0 HL0)). apply elem_of_app. by right.
    + rewrite decide_False in Hnd, Hn by done. split; [done|]. intros f' Hf'.
      rewrite (numbers_ext _ (st_files st)); [by apply Hn|]. intros a Hin. destruct Hg as [_ Hd].
      apply Hd, (li_addr st _ _ (Hinv L HL)), Hin.
  - exists st', b'. split; [done|]. split; [done|]. split; [done|]. split; [by eapply grows_trans|].
    split; [by eapply refs_kept_trans|].
    intros L HL. destruct (Hrest L HL) as (H1 & H2 & H3 & H4). rewrite (Hls L HL) in H2, H3, H4. split; [done|].
    rewrite news_cons. destruct (decide (L = L0)) as [->|Hne].
    + rewrite decide_True by done. split; [|split; [done|]].
      * by rewrite H2, Habs1, new_map_cons, (assoc_L (∪)).
      * rewrite H4, Hnum1. cbn [fmap list_fmap]. symmetry. apply Permutation_middle.
    + rewrite decide_False by done. split; [|split; [done|]].
      * rewrite H2. f_equal. by apply level_inv_grows with (st := st), Hinv.
      * rewrite H4. f_equiv. erewrite numbers_ext; [done|]. intros a Hin. destruct Hg as [_ Hd].
        apply Hd, (li_addr st _ _ (Hinv L HL)), Hin.
Qed.

(** *** Adding guards *)

Context (Hid : cmp_identity ucmp).
Definition guard_keys (l : list GuardMetaData) : gset (list Z) := list_to_set (guard_user_key <$> l).
Lemma guard_keys_elem l k : k ∈ guard_keys l <-> exists g, g ∈ l /\ guard_user_key g = k.
Proof.
  unfold guard_keys. rewrite elem_of_list_to_set, list_elem_of_fmap. split; intros (g & H1 & H2); exists g; auto.
Qed.
Lemma guard_keys_insert g l : gvalid g -> Forall gvalid l ->
  guard_keys (set_insert (BySmallestGuard ucmp) g l) = {[ guard_user_key g ]} ∪ guard_keys l.
Proof.
  intros Hg Hl. apply set_eq. intros k. rewrite elem_of_union, elem_of_singleton, !guard_keys_elem. split.
  - intros (x & [->|Hx]%set_insert_elem & <-); [by left|right; by exists x].
  - intros [->|(x & Hx & <-)]; [|exists x; split; [by apply set_insert_mono|done]].
    destruct (set_insert_has (BySmallestGuard ucmp) g l) as (y & Hy & [->|[E1 E2]]); [by exists g|].
    exists y. split; [done|]. unfold BySmallestGuard in E1, E2. apply Z.ltb_ge in E1, E2.
    pose proof (set_insert_elem _ _ _ _ Hy) as [->|Hyl]; [done|]. rewrite Forall_forall in Hl. specialize (Hl y Hyl).
    apply Hid; [done|done|]. apply (@cmp_ge_le ucmp bytes_ok Hc) in E1; [lia|done..].
Qed.
Lemma insert_guards f gs : (forall g, g_guard_key (f g) = g_guard_key g) -> Forall gvalid gs -> forall l,
  Forall gvalid l -> StronglySorted (ord_lt (BySmallestGuard ucmp)) l ->
  let l' := fold_left (fun s g => set_insert (BySmallestGuard ucmp) (f g) s) gs l in
  Forall gvalid l' /\ StronglySorted (ord_lt (BySmallestGuard ucmp)) l' /\
  guard_keys l' = guard_keys gs ∪ guard_keys l.
Proof.
  intros Hf. induction gs as [|g gs IH]; intros Hgs l Hl Hs; cbn [fold_left].
  { split_and!; [done|done|]. apply set_eq. intros k. rewrite elem_of_union, guard_keys_elem. set_solver. }
  apply Forall_cons in Hgs as [Hg Hgs].
  assert (gvalid (f g)) as Hfg by (unfold guard_user_key in *; by rewrite Hf).
  pose proof (BySmallestGuard_weak ucmp Hc) as Hw.
  destruct (IH Hgs (set_insert (BySmallestGuard ucmp) (f g) l)) as (H1 & H2 & H3).
  { by apply set_insert_valid. } { by apply (@set_insert_sorted _ _ _ Hw). }
  split_and!; [done|done|]. rewrite H3, guard_keys_insert by done. unfold guard_keys at 4. cbn [fmap list_fmap list_to_set].
  assert (guard_user_key (f g) = guard_user_key g) as -> by (unfold guard_user_key; by rewrite Hf).
  fold (guard_keys gs). set_solver.
Qed.
Lemma fold_added_guards L gs : forall s,
  fold_left (fun s g => set_added_guards s (set_insert (BySmallestGuard ucmp) (new_guard L g) (ls_added_guards s))) gs s =
  set_added_guards s (fold_left (fun l g => set_insert (BySmallestGuard ucmp) (new_guard L g) l) gs (ls_added_guards s)).
Proof. induction gs as [|g gs IH]; intros s; cbn; [by destruct s|]. by rewrite IH. Qed.
Lemma fold_added_complete L gs : forall s,
  fold_left (fun s g => set_added_complete_guards s
    (set_insert (BySmallestGuard ucmp) (new_guard L g) (ls_added_complete_guards s))) gs s =
  set_added_complete_guards s
    (fold_left (fun l g => set_insert (BySmallestGuard ucmp) (new_guard L g) l) gs (ls_added_complete_guards s)).
Proof. induction gs as [|g gs IH]; intros s; cbn; [by destruct s|]. by rewrite IH. Qed.
Lemma Apply_guards_spec e ls : forall b, NoDup ls -> (forall L, L ∈ ls -> L ∈ levels) -> blen b = kNumLevels ->
  (forall L, L ∈ levels -> Forall gvalid (at_level (new_guards_ e) L) /\ Forall gvalid (at_level (new_complete_guards_ e) L)) ->
  (forall L, L ∈ levels -> guards_inv (level_state b L)) ->
  exists b', foldM (Apply_guards ucmp e) ls b = Some b' /\ blen b' = kNumLevels /\
    forall L, L ∈ levels ->
      guards_inv (level_state b' L) /\ ls_added_files (level_state b' L) = added b L /\
      ls_deleted_files (level_state b' L) = deleted b L /\
      guard_keys (ls_added_guards (level_state b' L)) =
        (if decide (L ∈ ls) then guard_keys (at_level (new_guards_ e) L) else ∅) ∪
        guard_keys (ls_added_guards (level_state b L)) /\
      guard_keys (ls_added_complete_guards (level_state b' L)) =
        (if decide (L ∈ ls) then guard_keys (at_level (new_complete_guards_ e) L) else ∅) ∪
        guard_keys (ls_added_complete_guards (level_state b L)).
Proof.
  induction ls as [|L0 ls IH]; intros b Hnd Hls Hb Hok Hinv; cbn [foldM].
  { exists b. split; [done|]. split; [done|]. intros L HL. rewrite !decide_False by apply not_elem_of_nil.
    split_and!; [by apply Hinv|done|done|set_solver|set_solver]. }
  apply NoDup_cons in Hnd as [HnL Hnd]. pose proof (Hls L0 ltac:(by left)) as HL0.
  unfold Apply_guards at 1. rewrite (on_level_Some _ _ _ HL0). cbv zeta.
  match goal with |- context [alter ?f _ b] => set (upd := f) end.
  assert (forall L, L ∈ levels -> level_state (alter upd (Z.to_nat L0) b) L =
    if decide (L = L0) then upd (level_state b L) else level_state b L) as Hst.
  { intros L HL%levels_range. apply levels_range in HL0. apply level_state_alter; [rewrite Hb; lia|lia]. }
  destruct (Hok L0 HL0) as [Hg1 Hg2]. destruct (Hinv L0 HL0) as [I1 I2 I3 I4 I5].
  destruct (insert_guards (new_guard L0) (at_level (new_guards_ e) L0) ltac:(done) Hg1 _ I1 I2) as (A1 & A2 & A3).
  destruct (insert_guards (new_guard L0) (at_level (new_complete_guards_ e) L0) ltac:(done) Hg2 _ I3 I4) as (B1 & B2 & B3).
  assert (upd (level_state b L0) = set_added_complete_guards (set_added_guards (level_state b L0)
     (fold_left (fun l g => set_insert (BySmallestGuard ucmp) (new_guard L0 g) l) (at_level (new_guards_ e) L0) (ls_added_guards (level_state b L0))))
     (fold_left (fun l g => set_insert (BySmallestGuard ucmp) (new_guard L0 g) l) (at_level (new_complete_guards_ e) L0)
        (ls_added_complete_guards (level_state b L0)))) as Hupd.
  { unfold upd. by rewrite fold_added_guards, fold_added_complete. }
  destruct (IH (alter upd (Z.to_nat L0) b)) as (b' & E & Hb' & Hrest);
    [done|intros; apply Hls; by right|by rewrite blen_alter|done| |].
  { intros L HL. rewrite (Hst L HL). destruct (decide (L = L0)) as [->|]; [|by apply Hinv]. rewrite Hupd. by split. }
  exists b'. split; [done|]. split; [done|]. intros L HL. destruct (Hrest L HL) as (R1 & R2 & R3 & R4 & R5).
  rewrite (Hst L HL) in R2, R3, R4, R5. split; [done|]. destruct (decide (L = L0)) as [->|Hne].
  - rewrite Hupd in R2, R3, R4, R5. rewrite decide_False in R4, R5 by done. rewrite !decide_True by by left.
    cbn [set_added_complete_guards set_added_guards ls_added_files ls_deleted_files ls_added_guards ls_added_complete_guards] in *.
    rewrite R2, R3, R4, R5, A3, B3. split_and!; set_solver.
  - split_and!; [done|done| |]; destruct (decide (L ∈ ls)) as [Hin|Hin].
    + rewrite decide_True by by right. done.
    + rewrite decide_False by (rewrite elem_of_cons; tauto). done.
    + rewrite decide_True by by right. done.
    + rewrite decide_False by (rewrite elem_of_cons; tauto). done.
Qed.

(** *** A whole edit *)

(** An edit the builder can apply: its levels are in range, its keys are internal keys, and
    it deletes no guard (the database never does). *)
Record edit_applies (e : VersionEdit) : Prop := {
  eo_pointers : Forall (fun p => fst p ∈ levels) (compact_pointers_ e);
  eo_deleted : Forall (fun p => fst p ∈ levels) (deleted_files_ e);
  eo_new : Forall new_ok (new_files_ e);
  eo_guards : forall L, L ∈ levels ->
    Forall gvalid (at_level (new_guards_ e) L) /\ Forall gvalid (at_level (new_complete_guards_ e) L);
  eo_deleted_guards : deleted_guards_ e = [];
}.
Definition edit_fresh (st : Store) (b : Builder) (base : Version) (e : VersionEdit) : Prop :=
  forall L, L ∈ levels -> fresh_numbers (st_files st) (level_state b L) (base_files base L) (edit_new e L).

Lemma Apply_pointers ps : forall cp, Forall (fun p => fst p ∈ levels) ps ->
  exists cp', foldM Apply_pointer ps cp = Some cp'.
Proof.
  induction ps as [|[L k] ps IH]; intros cp Hps; cbn [foldM]; [by exists cp|].
  apply Forall_cons in Hps as [HL Hps]. unfold Apply_pointer at 1. cbn [fst] in *. apply levels_range in HL as [H0 H1].
  rewrite (proj2 (Z.leb_le _ _) H0), (proj2 (Z.ltb_lt _ _) H1). by apply IH.
Qed.
Lemma level_inv_deleted st s base D : level_inv st s base ->
  level_inv st (set_added_files s (ls_added_files s) D) base.
Proof. intros []. by split. Qed.

Lemma Apply_refines st cp b base e : builder_inv st b base -> edit_applies e -> edit_fresh st b base e ->
  exists st' cp' b', Apply ucmp st cp b e = Some (st', cp', b') /\ builder_inv st' b' base /\ grows st st' /\
    refs_kept st b st' b' /\
    forall L, L ∈ levels ->
      abs_level (st_files st') (level_state b' L) (base_files base L) =
        spec_edit e L (abs_level (st_files st) (level_state b L) (base_files base L)) /\
      guard_keys (ls_added_guards (level_state b' L)) =
        guard_keys (at_level (new_guards_ e) L) ∪ guard_keys (ls_added_guards (level_state b L)) /\
      guard_keys (ls_added_complete_guards (level_state b' L)) =
        guard_keys (at_level (new_complete_guards_ e) L) ∪ guard_keys (ls_added_complete_guards (level_state b L)) /\
      numbers (st_files st') (added b' L ++ base_files base L) ≡ₚ
        (f_number <$> edit_new e L) ++ numbers (st_files st) (added b L ++ base_files base L).
Proof.
  intros (Hpos & Hb & Hinv) [Hptr Hdel Hnew Hgs Hdg] Hfresh. unfold Apply.
  destruct (Apply_pointers (compact_pointers_ e) cp Hptr) as (cp' & ->). cbn [mbind option_bind].
  rewrite Forall_forall in Hdel. destruct (Apply_deleted_files (deleted_files_ e) b Hb Hdel) as (b1 & -> & Hb1 & Hl1).
  cbn [mbind option_bind].
  assert (forall L, L ∈ levels -> level_inv st (level_state b1 L) (base_files base L)) as Hinv1.
  { intros L HL. rewrite (Hl1 L HL). apply level_inv_deleted, Hinv, HL. }
  destruct (Apply_new_files base (new_files_ e) st b1 Hpos Hb1 Hinv1 Hnew) as (st2 & b2 & -> & Hpos2 & Hb2 & Hg2 & Hk2 & Hr2).
  { intros L HL. rewrite (Hl1 L HL). exact (Hfresh L HL). }
  cbn [mbind option_bind]. rewrite Hdg. cbn [foldM mbind option_bind].
  assert (forall L, L ∈ levels -> same_guards (level_state b L) (level_state b2 L)) as Hsg.
  { intros L HL. eapply same_guards_trans; [|by apply (Hr2 L HL)]. by rewrite (Hl1 L HL). }
  destruct (Apply_guards_spec e levels b2 levels_nodup (fun L H => H) Hb2 Hgs) as (b3 & -> & Hb3 & Hr3).
  { intros L HL. eapply same_guards_inv; [by apply Hsg|]. by apply Hinv. }
  cbn [mbind option_bind]. exists st2, cp', b3. split; [done|]. split; [split; [done|]; split; [done|]|split; [done|]; split].
  - intros L HL. destruct (Hr3 L HL) as (R1 & R2 & R3 & _), (Hr2 L HL) as (S1 & _ & _). split; [|done].
    destruct S1. split; by rewrite ?R2.
  - eapply (refs_kept_trans _ _ st b1); [done| |eapply (refs_kept_trans _ _ st2 b2); [done|exact Hk2|]].
    + apply refs_kept_ext, builder_files_ext; [done|done|]. intros L HL. by rewrite (Hl1 L HL).
    + apply refs_kept_ext, builder_files_ext; [done|done|]. intros L HL. apply (Hr3 L HL).
  - intros L HL. destruct (Hr3 L HL) as (R1 & R2 & R3 & R4 & R5), (Hr2 L HL) as (S1 & S2 & S3 & S4).
    rewrite !decide_True in R4, R5 by done. destruct (Hsg L HL) as (G1 & G2 & _). rewrite G1 in R4. rewrite G2 in R5.
    rewrite R2. rewrite (Hl1 L HL) in S4.
    split_and!; [|done|done|exact S4]. unfold abs_level at 1. rewrite R2, R3. fold (abs_level (st_files st2) (level_state b2 L) (base_files base L)).
    rewrite S2. unfold spec_edit. f_equal. unfold abs_level. rewrite (Hl1 L HL).
    cbn [set_added_files ls_added_files ls_deleted_files]. fold (edit_deleted e L).
    rewrite map_filter_filter. apply map_filter_ext. intros k x _. cbn. set_solver.
Qed.

(** ** Saving a builder *)

(** *** The complete guards *)

Lemma sorted_of_steps l : Forall gvalid l ->
  (forall i x y, l !! i = Some x -> l !! S i = Some y -> ord_le (BySmallestGuard ucmp) x y) ->
  StronglySorted (ord_le (BySmallestGuard ucmp)) l.
Proof.
  intros Hv Hstep. pose proof (BySmallestGuard_weak ucmp Hc) as Hw. induction l as [|x l IH]; [constructor|].
  apply Forall_cons in Hv as [Hx Hv]. assert (StronglySorted (ord_le (BySmallestGuard ucmp)) l) as Hs.
  { apply IH; [done|]. intros i a b Ha Hb. by apply (Hstep (S i)). }
  constructor; [done|]. destruct l as [|y l]; [constructor|].
  pose proof (Hstep 0%nat x y eq_refl eq_refl) as Hxy. constructor; [done|].
  apply StronglySorted_cons in Hs as [Hy _]. apply Forall_cons in Hv as [Hyv Hv].
  rewrite Forall_forall in Hy, Hv |- *. intros z Hz. by eapply (@sw_le_trans _ _ _ Hw x y z); [..|apply Hv|done|apply Hy].
Qed.
Lemma unsorted_from_steps cg : forall prev i, (i <= unsorted_from ucmp cg prev i <= i + length cg)%nat /\
  forall j x y, (S j < unsorted_from ucmp cg prev i - i)%nat -> cg !! j = Some x -> cg !! S j = Some y ->
    ord_le (BySmallestGuard ucmp) x y.
Proof.
  induction cg as [|g cg IH]; intros prev i; cbn [unsorted_from length].
  { split; [lia|]. intros; lia. }
  assert (forall k, k = unsorted_from ucmp cg (Some g) (S i) -> (i <= k <= i + S (length cg))%nat /\
    forall j x y, (S j < k - i)%nat -> (g :: cg) !! j = Some x -> (g :: cg) !! S j = Some y ->
      ord_le (BySmallestGuard ucmp) x y) as Hgo.
  { intros k ->. destruct (IH (Some g) (S i)) as [Hk Hst]. split; [lia|]. intros [|j] x y Hj Hx Hy.
    - cbn in Hx, Hy. injection Hx as <-. destruct cg as [|g' cg]; [done|]. cbn in Hy. injection Hy as <-.
      cbn [unsorted_from] in Hj. unfold ord_le, BySmallestGuard. destruct (_ <? _); [lia|done].
    - apply (Hst j); [lia|done|done]. }
  destruct prev as [p|]; [|by apply Hgo]. destruct (_ <? _); [|by apply Hgo]. split; [lia|]. intros; lia.
Qed.
(** The first element of the scan is not before its predecessor. *)
Lemma unsorted_from_first g cg p i : unsorted_from ucmp (g :: cg) (Some p) i <> i -> ord_le (BySmallestGuard ucmp) p g.
Proof. cbn [unsorted_from]. unfold ord_le, BySmallestGuard. by destruct (_ <? _). Qed.
Lemma unsorted_start_sorted cg num : Forall gvalid cg -> 0 <= num <= blen cg -> cg <> [] ->
  StronglySorted (ord_le (BySmallestGuard ucmp)) (take (Z.to_nat num) cg) ->
  StronglySorted (ord_le (BySmallestGuard ucmp)) (take (unsorted_start ucmp cg num) cg).
Proof.
  intros Hv Hnum Hne Hs. apply sorted_of_steps; [by apply Forall_take|]. intros i x y.
  rewrite !lookup_take_Some. intros [Hx Hi] [Hy Hi'].
  unfold unsorted_start in Hi, Hi'. set (start := Z.to_nat (if num <=? 0 then 1 else num)) in *.
  assert (1 <= start)%nat as Hst by (unfold start; case_bool; lia).
  assert (length cg <> 0)%nat by (destruct cg; [done|cbn; lia]).
  assert (start <= length cg)%nat as Hle by (unfold start, blen in *; case_bool; lia).
  rewrite (proj2 (Nat.leb_le _ _) Hle) in Hi'.
  destruct (unsorted_from_steps (drop start cg) (cg !! (start - 1)%nat) start) as [_ Hsteps].
  destruct (decide (S i < start)%nat) as [Hlt|Hge].
  - assert (Z.to_nat num = start) as Hn.
    { unfold start in *. destruct (Z.leb_spec num 0); [change (Z.to_nat 1) with 1%nat in Hlt; lia|done]. }
    rewrite Hn in Hs. eapply (sorted_lookup _ (take start cg) i (S i)); [exact Hs| | |lia];
      (rewrite lookup_take_lt by lia; done).
  - destruct (decide (S i = start)) as [<-|Hne'].
    + replace (S i - 1)%nat with i in * by lia. rewrite Hx in *.
      destruct (drop (S i) cg) as [|g cg'] eqn:Ed.
      { apply (f_equal length) in Ed. rewrite length_drop in Ed. apply lookup_lt_Some in Hy. cbn in Ed. lia. }
      pose proof (lookup_drop cg (S i) 0) as E0. rewrite Ed, Nat.add_0_r, Hy in E0. injection E0 as ->.
      apply (unsorted_from_first y cg' x (S i)). lia.
    + apply (Hsteps (i - start)%nat); [lia| |]; rewrite lookup_drop; rewrite <- ?Hx, <- ?Hy; f_equal; lia.
Qed.

Lemma guard_keys_app l l' : guard_keys (l ++ l') = guard_keys l ∪ guard_keys l'.
Proof. unfold guard_keys. by rewrite fmap_app, list_to_set_app_L. Qed.
Lemma guard_keys_perm l l' : l ≡ₚ l' -> guard_keys l = guard_keys l'.
Proof. intros H. unfold guard_keys. by rewrite H. Qed.
Lemma guard_keys_user l l' : guard_user_key <$> l = guard_user_key <$> l' -> guard_keys l = guard_keys l'.
Proof. intros H. unfold guard_keys. by rewrite H. Qed.
Lemma no_deleted b L g : ls_deleted_guards (level_state b L) = [] -> guard_deleted ucmp b L g = false.
Proof. intros E. unfold guard_deleted. by rewrite E. Qed.
Lemma pick_keys f b L l : (forall g, g_guard_key (f g) = g_guard_key g) ->
  ls_deleted_guards (level_state b L) = [] -> Forall gvalid l ->
  Forall gvalid (pick ucmp f b L None l) /\ guard_keys (pick ucmp f b L None l) = guard_keys l.
Proof.
  intros Hf Hd Hv. assert (forall g, guard_user_key (f g) = guard_user_key g) as Hu.
  { intros g. unfold guard_user_key. by rewrite Hf. }
  assert (Forall gvalid (pick ucmp f b L None l)) as Hpv.
  { apply Forall_forall. intros p (g & Hg & _ & ->)%pick_elem. rewrite Hu. rewrite Forall_forall in Hv. by apply Hv. }
  split; [done|]. apply set_eq. intros k. rewrite !guard_keys_elem. split.
  - intros (p & (g & Hg & _ & ->)%pick_elem & <-). exists g. by rewrite Hu.
  - intros (g & Hg & <-).
    destruct (pick_all ucmp Hc f Hf b L l None g Hv Hg (no_deleted b L g Hd)) as [?|(p & Hp & E)]; [done|].
    exists p. split; [done|]. rewrite Forall_forall in Hv, Hpv. symmetry. apply Hid; [by apply Hv|by apply Hpv|done].
Qed.

(** What the guards of a base version must be. *)
Record base_guards (base : Version) (L : Z) : Prop := {
  bg_valid : Forall gvalid (at_level (guards_ base) L);
  bg_sorted : guards_sorted ucmp (at_level (guards_ base) L);
  bg_complete : Forall gvalid (at_level (complete_guards_ base) L);
  bg_num : exists num, num_complete_guards_ base !! Z.to_nat L = Some num /\
    0 <= num <= blen (at_level (complete_guards_ base) L) /\
    StronglySorted (ord_le (BySmallestGuard ucmp)) (take (Z.to_nat num) (at_level (complete_guards_ base) L));
}.
Lemma out_guards_keys b base L : guards_inv (level_state b L) -> base_guards base L ->
  Forall gvalid (out_guards ucmp b base L) /\ guards_sorted ucmp (out_guards ucmp b base L) /\
  guard_keys (out_guards ucmp b base L) =
    guard_keys (ls_added_guards (level_state b L)) ∪ guard_keys (at_level (guards_ base) L).
Proof.
  intros [G1 G2 _ _ G5] [B1 B2 _ _]. pose proof (BySmallestGuard_weak ucmp Hc) as Hw.
  destruct (pick_keys fresh_guard b L (merge_order (BySmallestGuard ucmp) (ls_added_guards (level_state b L))
    (at_level (guards_ base) L))) as [Hv Hk]; [done|done|by rewrite merge_order_perm; apply Forall_app|].
  split_and!; [done| |].
  - apply (out_guards_sorted ucmp Hc); [done|done|by apply (@slt_sorted_le _ _ _ Hw)|done].
  - unfold out_guards. rewrite Hk, <- guard_keys_app. apply guard_keys_perm, merge_order_perm.
Qed.
Lemma guards_sorted_le l : Forall gvalid l -> guards_sorted ucmp l -> StronglySorted (ord_le (BySmallestGuard ucmp)) l.
Proof.
  intros Hv Hs. pose proof (BySmallestGuard_weak ucmp Hc) as Hw. apply (@slt_sorted_le _ _ _ Hw); [done|].
  eapply sorted_ext; [|exact Hs]. intros a b _ _ H. by apply Z.ltb_lt.
Qed.
Lemma out_complete_keys b base L : guards_inv (level_state b L) -> base_guards base L ->
  Forall gvalid (out_complete ucmp b base L) /\ guards_sorted ucmp (out_complete ucmp b base L) /\
  guard_keys (out_complete ucmp b base L) =
    guard_keys (ls_added_complete_guards (level_state b L)) ∪ guard_keys (at_level (complete_guards_ base) L).
Proof.
  intros [_ _ G3 G4 G5] [_ _ B3 (num & En & Hnum & B4)]. pose proof (BySmallestGuard_weak ucmp Hc) as Hw.
  unfold out_complete. rewrite (nth_lookup_Some _ _ _ _ En).
  destruct (at_level (complete_guards_ base) L) as [|g0 cg] eqn:Ecg.
  - assert (filter (fun g => negb (guard_deleted ucmp b L g)) (ls_added_complete_guards (level_state b L)) =
      ls_added_complete_guards (level_state b L)) as ->.
    { apply filter_all, Forall_forall. intros g _. by rewrite no_deleted. }
    assert (guard_user_key <$> (ref_guard <$> ls_added_complete_guards (level_state b L)) =
      guard_user_key <$> ls_added_complete_guards (level_state b L)) as Hu by (by rewrite <- list_fmap_compose).
    split_and!.
    + apply Forall_fmap. eapply Forall_impl; [exact G3|]. done.
    + eapply guards_sorted_map; [symmetry; exact Hu|]. eapply sorted_ext; [|exact G4].
      intros a x _ _ H. by apply Z.ltb_lt.
    + rewrite (guard_keys_user _ _ Hu). set_solver.
  - set (start := unsorted_start ucmp (g0 :: cg) num).
    destruct (insert_guards id (drop start (g0 :: cg)) ltac:(done) (Forall_drop _ start _ B3) _ G3 G4) as (A1 & A2 & A3).
    cbv [id] in A1, A2, A3. set (comb := fold_left _ _ _) in *.
    assert (StronglySorted (ord_le (BySmallestGuard ucmp)) (take start (g0 :: cg))) as Hst
      by (by apply unsorted_start_sorted).
    destruct (pick_keys ref_guard b L (merge_order (BySmallestGuard ucmp) comb (take start (g0 :: cg)))) as [Hv Hk];
      [done|done|rewrite merge_order_perm; apply Forall_app; by split; [|apply Forall_take]|].
    split_and!; [done| |].
    + apply (pick_sorted ucmp Hc ref_guard ltac:(done)); [| |done].
      * rewrite merge_order_perm. apply Forall_app; by split; [|apply Forall_take].
      * apply (@merge_order_sorted _ _ _ Hw); [done|by apply Forall_take|by apply (@slt_sorted_le _ _ _ Hw)|done].
    + rewrite Hk, (guard_keys_perm _ _ (merge_order_perm _ _ _)), guard_keys_app, A3.
      rewrite <- (take_drop start (g0 :: cg)) at 3. rewrite guard_keys_app. set_solver.
Qed.

(** *** The whole version *)

(** A version that edits can be applied to, over the files of the store. *)
Record version_inv (st : Store) (v : Version) : Prop := {
  vi_next : 0 < st_next st;
  vi_wf : version_wf v;
  vi_files : forall L, L ∈ levels -> level_inv st LevelState_new (base_files v L);
  vi_guards : forall L, L ∈ levels -> base_guards v L;
}.
Definition abs_version (h : Files) (v : Version) (L : Z) : gmap Z info := abs_files h (base_files v L).

Lemma level_state_new L : level_state Builder_new L = LevelState_new.
Proof.
  unfold level_state, Builder_new. generalize (Z.to_nat L) (Z.to_nat kNumLevels). intros n k.
  revert n. induction k as [|k IH]; intros [|n]; cbn; try done.
Qed.
Lemma guards_inv_new : guards_inv LevelState_new.
Proof. by repeat constructor. Qed.
Lemma builder_inv_new st v : version_inv st v -> builder_inv st Builder_new v.
Proof.
  intros [H1 H2 H3 H4]. split; [done|]. split; [done|]. intros L HL. rewrite level_state_new.
  split; [by apply H3|apply guards_inv_new].
Qed.
Lemma abs_level_new h l : abs_level h LevelState_new l = abs_files h l.
Proof. unfold abs_level. cbn. apply map_filter_id. intros k x _. set_solver. Qed.

Lemma placed_user h files gs : NoDup (numbers h files) ->
  guard_user_key <$> fst (placed ucmp h files gs) = guard_user_key <$> gs.
Proof.
  intros Hnd. unfold placed. destruct gs as [|g gs]; [done|].
  destruct (populate_segments ucmp h g gs files Hnd) as (seg & segs & -> & _ & Hs). cbn [fst].
  apply segmented_length in Hs. apply fill_all_user. cbn in *. lia.
Qed.
Lemma out_files_inv st b base L : level_inv st (level_state b L) (base_files base L) ->
  let l := out_files ucmp (st_files st) b base L in
  (forall a, a ∈ l -> 0 < a < st_next st) /\ NoDup (numbers (st_files st) l) /\
  Forall (keys_ok (st_files st)) l /\ StronglySorted (ord_le (file_before ucmp (st_files st))) l /\
  abs_files (st_files st) l = abs_level (st_files st) (level_state b L) (base_files base L).
Proof.
  intros [Ha Hn Hk Hs Hb] l. pose proof (file_before_weak ucmp Hc (st_files st)) as Hw.
  assert (l `sublist_of` merge_order (file_before ucmp (st_files st)) (added b L) (base_files base L)) as Hsub
    by apply sublist_filter.
  pose proof (merge_order_perm (file_before ucmp (st_files st)) (added b L) (base_files base L)) as Hp.
  assert (forall a, a ∈ l -> a ∈ added b L ++ base_files base L) as Hin.
  { intros a Hal. rewrite <- Hp. exact (elem_of_sublist _ _ _ Hal Hsub). }
  rewrite Forall_app in Hk. destruct Hk as [Hka Hkb].
  assert (Forall (fun a => ivalid (f_smallest (deref (st_files st) a))) (added b L)) as Hva
    by (eapply Forall_impl; [exact Hka|]; by intros a []).
  assert (Forall (fun a => ivalid (f_smallest (deref (st_files st) a))) (base_files base L)) as Hvb
    by (eapply Forall_impl; [exact Hkb|]; by intros a []).
  split_and!.
  - intros a Hal. by apply Ha, Hin.
  - eapply sublist_NoDup; [|apply fmap_sublist, Hsub]. by rewrite Hp.
  - apply Forall_forall. intros a Hal. specialize (Hin a Hal).
    apply elem_of_app in Hin as [Hin|Hin]; [by rewrite Forall_forall in Hka; apply Hka|by rewrite Forall_forall in Hkb; apply Hkb].
  - apply (out_files_sorted ucmp Hc); [done|done|by apply (@slt_sorted_le _ _ _ Hw)|done].
  - unfold l, out_files, kept, abs_level. rewrite abs_files_kept by (by rewrite Hp).
    f_equal. apply abs_files_perm; [by rewrite Hp|done].
Qed.

(** The guards of a level leave no file across them. *)
Definition all_separated (h : Files) (v : Version) (L : Z) : Prop :=
  Forall (fun a => Forall (separated ucmp h a) (at_level (guards_ v) L)) (base_files v L).

Lemma level_inv_refs st l h' : same_info (st_files st) h' -> level_inv st LevelState_new l ->
  level_inv (set_files st h') LevelState_new l.
Proof.
  intros Hs [Ha Hn Hk _ Hb]. cbn [LevelState_new ls_added_files app] in *. split; cbn [ls_added_files app set_files st_files].
  - done.
  - erewrite list_fmap_ext; [exact Hn|]. intros i a _. symmetry. by apply same_number.
  - eapply Forall_impl; [exact Hk|]. intros a []. split; [by rewrite <- (same_smallest _ _ _ Hs)|by rewrite <- (same_largest _ _ _ Hs)].
  - constructor.
  - eapply sorted_ext; [|exact Hb]. intros a b _ _. unfold ord_le. by rewrite (file_before_same ucmp _ _ _ _ Hs).
Qed.

Lemma fill_all_keys h gs : forall segs, length segs = length gs ->
  g_guard_key <$> fill_all ucmp h gs segs = g_guard_key <$> gs.
Proof.
  induction gs as [|g gs IH]; intros [|seg segs] Hl; try done; cbn [fill_all fmap list_fmap].
  f_equal; [|apply IH; cbn in Hl; lia]. by destruct (fill_guard_fields ucmp h seg (clear_guard g) true) as (-> & _).
Qed.
Lemma placed_keys h files gs : NoDup (numbers h files) ->
  g_guard_key <$> fst (placed ucmp h files gs) = g_guard_key <$> gs.
Proof.
  intros Hnd. unfold placed. destruct gs as [|g gs]; [done|].
  destruct (populate_segments ucmp h g gs files Hnd) as (seg & segs & -> & _ & Hs). cbn [fst].
  apply segmented_length in Hs. apply fill_all_keys. cbn in *. lia.
Qed.
Lemma separated_keys h a gs gs' : g_guard_key <$> gs = g_guard_key <$> gs' ->
  Forall (separated ucmp h a) gs -> Forall (separated ucmp h a) gs'.
Proof.
  intros E H. apply Forall_forall. intros g Hg.
  assert (g_guard_key g ∈ g_guard_key <$> gs) as (g' & Eg & Hg')%list_elem_of_fmap
    by (rewrite E; apply list_elem_of_fmap; by exists g).
  rewrite Forall_forall in H. specialize (H g' Hg'). unfold separated, guard_user_key in *. by rewrite Eg.
Qed.
Lemma smallest_sorted h l : Forall (keys_ok h) l -> StronglySorted (ord_le (file_before ucmp h)) l ->
  StronglySorted (smallest_le ucmp h) l.
Proof.
  intros Hk. apply sorted_ext. intros a b Ha Hb. rewrite Forall_forall in Hk.
  apply (file_before_smallest ucmp Hc); by apply Hk.
Qed.
(** The placement of a level is what the reads expect, when its guards separate its files. *)
Lemma placed_ok h files gs : (forall a, a ∈ files -> a <> 0) -> NoDup (numbers h files) ->
  Forall (keys_ok h) files -> StronglySorted (ord_le (file_before ucmp h)) files ->
  guards_sorted ucmp gs -> Forall gvalid gs -> Forall (fun g => g_file_metas g = []) gs -> blen gs < 2 ^ 31 ->
  Forall (fun a => Forall (separated ucmp h a) gs) files ->
  level_ok ucmp h files (fst (placed ucmp h files gs)) (snd (placed ucmp h files gs)).
Proof.
  intros Hnn Hnd Hk Hso Hgs Hgv Hfr Hfew Hsep. unfold placed. destruct gs as [|g gs]; cbn [fst snd].
  - split; try done.
    + intros a [H|(g & H & _)]; [done|by apply elem_of_nil in H].
    + intros a Ha. by left.
  - destruct (populate_level_ok ucmp Hc h files g gs) as (gs' & ss & -> & Hok & _); [|done].
    split; try done; [by apply smallest_sorted|]. rewrite Forall_forall in *. auto.
Qed.
Lemma level_ok_same h h' files gs ss : same_info h h' -> level_ok ucmp h files gs ss -> level_ok ucmp h' files gs ss.
Proof.
  intros H []. split; try done. intros a Ha. unfold file_limit, file_start in *.
  rewrite <- (same_largest h h' a H), <- (same_smallest h h' a H). auto.
Qed.
Lemma all_separated_same h h' v L : same_info h h' -> all_separated h v L -> all_separated h' v L.
Proof.
  intros H Hs. eapply Forall_impl; [exact Hs|]. intros a Ha. eapply Forall_impl; [exact Ha|]. intros g.
  unfold separated, file_limit, file_start. by rewrite <- (same_largest h h' a H), <- (same_smallest h h' a H).
Qed.

Lemma SaveTo_refines st b base e : builder_inv st b base -> version_wf base ->
  (forall L, L ∈ levels -> base_guards base L) ->
  exists h' v' e', SaveTo ucmp b base st Version_new e = (set_files st h', v', e') /\
    same_info (st_files st) h' /\ version_inv (set_files st h') v' /\ v_refs v' = 0 /\ file_to_compact_ v' = 0 /\
    h' = add_refs (st_files st) (all_files v') /\
    (forall a, a ∈ all_files v' -> a ∈ builder_files b \/ a ∈ all_files base) /\
    forall L, L ∈ levels ->
      abs_version h' v' L = abs_level (st_files st) (level_state b L) (base_files base L) /\
      guard_keys (at_level (guards_ v') L) =
        guard_keys (ls_added_guards (level_state b L)) ∪ guard_keys (at_level (guards_ base) L) /\
      guard_keys (at_level (complete_guards_ v') L) =
        guard_keys (ls_added_complete_guards (level_state b L)) ∪ guard_keys (at_level (complete_guards_ base) L) /\
      (all_separated h' v' L -> blen (at_level (guards_ v') L) < 2 ^ 31 ->
       level_ok ucmp h' (base_files v' L) (at_level (guards_ v') L) (at_level (sentinel_files_ v') L)).
Proof.
  intros (Hpos & Hb & Hinv) Hwf Hbg.
  destruct (SaveTo_spec ucmp b base st e) as (v' & E & Hwf' & Hr & Ht & Hs).
  set (h' := add_refs (st_files st) _) in E.
  assert (same_info (st_files st) h') as Hsame by apply add_refs_info.
  assert (forall L, L ∈ levels -> level_inv st LevelState_new (base_files v' L) /\
    abs_files (st_files st) (base_files v' L) = abs_level (st_files st) (level_state b L) (base_files base L)) as Hfiles.
  { intros L HL. destruct (Hinv L HL) as [Hli _]. rewrite (sv_files _ _ _ _ _ _ (Hs L HL)).
    destruct (out_files_inv st b base L Hli) as (H1 & H2 & H3 & H4 & H5). split; [|done].
    split; cbn [LevelState_new ls_added_files app]; try done. constructor. }
  exists h', v'. eexists. split; [exact E|]. split; [done|].
  split; [|split; [done|]; split; [done|]; split; [|split]].
  - split; [done|done| |].
    + intros L HL. by apply level_inv_refs, Hfiles.
    + intros L HL. destruct (Hinv L HL) as [Hli Hgi], (Hs L HL) as [S1 S2 S3 S4 S5].
      destruct (out_files_inv st b base L Hli) as (_ & Hnd & _).
      destruct (out_guards_keys b base L Hgi (Hbg L HL)) as (G1 & G2 & _).
      destruct (out_complete_keys b base L Hgi (Hbg L HL)) as (C1 & C2 & _).
      pose proof (placed_user (st_files st) (out_files ucmp (st_files st) b base L) (out_guards ucmp b base L) Hnd) as Hu.
      split.
      * rewrite S2. apply Forall_fmap with (f := guard_user_key) (P := bytes_ok). rewrite Hu. by apply Forall_fmap.
      * rewrite S2. eapply guards_sorted_map; [symmetry; exact Hu|done].
      * by rewrite S4.
      * exists (blen (out_complete ucmp b base L)). rewrite S4. split; [done|].
        pose proof (blen_nonneg (out_complete ucmp b base L)). split; [lia|].
        unfold blen. rewrite Nat2Z.id, firstn_all. by apply guards_sorted_le.
  - unfold h', all_files. do 2 f_equal. apply list_fmap_ext. intros i L HL%list_elem_of_lookup_2.
    symmetry. apply (sv_files _ _ _ _ _ _ (Hs L HL)).
  - intros a (L & HL & Ha)%all_files_spec. rewrite (sv_files _ _ _ _ _ _ (Hs L HL)) in Ha.
    apply out_files_elem in Ha as [[Ha|Ha] _].
    + left. apply elem_of_concat. exists (added b L). split; [|done]. apply list_elem_of_fmap. exists (level_state b L).
      split; [done|]. eapply list_elem_of_lookup_2, level_state_lookup. rewrite Hb. by apply levels_range.
    + right. apply all_files_spec. by exists L.
  - intros L HL. destruct (Hinv L HL) as [Hli Hgi], (Hs L HL) as [S1 S2 S3 S4 S5], (Hfiles L HL) as [_ Habs].
    destruct (out_files_inv st b base L Hli) as (Hadr & Hnd & Hk & Hso & _).
    destruct (out_guards_keys b base L Hgi (Hbg L HL)) as (G1 & G2 & G3).
    destruct (out_complete_keys b base L Hgi (Hbg L HL)) as (_ & _ & C3).
    split_and!.
    + unfold abs_version. by rewrite <- (abs_files_same _ _ _ Hsame).
    + rewrite <- G3, S2. apply guard_keys_user. by apply placed_user.
    + by rewrite S4, C3.
    + intros Hsep Hfew. apply (level_ok_same _ _ _ _ _ Hsame).
      apply (all_separated_same h' (st_files st)) in Hsep; [|by symmetry]. unfold all_separated in Hsep.
      pose proof (placed_keys (st_files st) (out_files ucmp (st_files st) b base L) (out_guards ucmp b base L) Hnd) as Hpk.
      assert (blen (out_guards ucmp b base L) < 2 ^ 31) as Hfew'.
      { apply (f_equal length) in Hpk. rewrite !length_fmap in Hpk. rewrite S2 in Hfew. unfold blen in *. lia. }
      rewrite S1, S2, S3. rewrite S1, S2 in Hsep. apply placed_ok; try done.
      * intros a Ha. specialize (Hadr a Ha). lia.
      * apply out_guards_fresh.
      * eapply Forall_impl; [exact Hsep|]. intros a. by apply separated_keys.
Qed.

(** ** A sequence of edits *)

Definition apply_one (s : Store * list bytes * Builder) (e : VersionEdit) : option (Store * list bytes * Builder) :=
  let '(st, cp, b) := s in Apply ucmp st cp b e.
Definition apply_all := foldM apply_one.
(** What the edits do to a level. *)
Definition spec_edits (es : list VersionEdit) (L : Z) (m : gmap Z info) : gmap Z info :=
  fold_left (fun m e => spec_edit e L m) es m.
Definition edits_new (es : list VersionEdit) (L : Z) : list FileMetaData := concat ((fun e => edit_new e L) <$> es).
Definition edits_guards (es : list VersionEdit) (L : Z) : gset (list Z) :=
  guard_keys (concat ((fun e => at_level (new_guards_ e) L) <$> es)).
Definition edits_complete (es : list VersionEdit) (L : Z) : gset (list Z) :=
  guard_keys (concat ((fun e => at_level (new_complete_guards_ e) L) <$> es)).
(** No edit adds a file number that its level has or had. *)
Definition fresh_edits (h : Files) (b : Builder) (base : Version) (es : list VersionEdit) : Prop :=
  forall L, L ∈ levels -> NoDup ((f_number <$> edits_new es L) ++ numbers h (added b L ++ base_files base L)).

Lemma fresh_edits_cons h b base e es : fresh_edits h b base (e :: es) ->
  forall L, L ∈ levels -> fresh_numbers h (level_state b L) (base_files base L) (edit_new e L).
Proof.
  intros H L HL. specialize (H L HL). unfold edits_new in H. cbn [fmap list_fmap concat] in H.
  rewrite fmap_app, <- (assoc_L (++)) in H. apply NoDup_app in H as (H1 & H2 & _). split; [done|].
  intros f Hf Hin. apply (H2 (f_number f)); [apply list_elem_of_fmap; by exists f|]. apply elem_of_app. by right.
Qed.
Lemma apply_all_refines es : forall st cp b base, builder_inv st b base -> Forall edit_applies es ->
  fresh_edits (st_files st) b base es ->
  exists st' cp' b', apply_all es (st, cp, b) = Some (st', cp', b') /\ builder_inv st' b' base /\ grows st st' /\
    refs_kept st b st' b' /\
    forall L, L ∈ levels ->
      abs_level (st_files st') (level_state b' L) (base_files base L) =
        spec_edits es L (abs_level (st_files st) (level_state b L) (base_files base L)) /\
      guard_keys (ls_added_guards (level_state b' L)) = edits_guards es L ∪ guard_keys (ls_added_guards (level_state b L)) /\
      guard_keys (ls_added_complete_guards (level_state b' L)) =
        edits_complete es L ∪ guard_keys (ls_added_complete_guards (level_state b L)).
Proof.
  induction es as [|e es IH]; intros st cp b base Hinv Hok Hfresh.
  { exists st, cp, b. split; [done|]. split; [done|]. split; [apply grows_refl|].
    split; [by apply refs_kept_ext|]. intros L HL.
    unfold edits_guards, edits_complete, guard_keys. cbn. split_and!; [done|set_solver|set_solver]. }
  apply Forall_cons in Hok as [He Hok]. unfold apply_all. cbn [foldM apply_one].
  destruct (Apply_refines st cp b base e Hinv He (fresh_edits_cons _ _ _ _ _ Hfresh))
    as (st1 & cp1 & b1 & -> & Hinv1 & Hg1 & Hk1 & H1). fold (apply_all es (st1, cp1, b1)).
  destruct (IH st1 cp1 b1 base Hinv1 Hok) as (st2 & cp2 & b2 & -> & Hinv2 & Hg2 & Hk2 & H2).
  { intros L HL. destruct (H1 L HL) as (_ & _ & _ & Hn). rewrite Hn. specialize (Hfresh L HL).
    unfold edits_new in Hfresh. cbn [fmap list_fmap concat] in Hfresh. rewrite fmap_app in Hfresh.
    rewrite (assoc_L (++)). by rewrite (Permutation_app_comm (f_number <$> edits_new es L)). }
  exists st2, cp2, b2. split; [done|]. split; [done|]. split; [by eapply grows_trans|].
  split; [by eapply refs_kept_trans|].
  intros L HL. destruct (H1 L HL) as (A1 & A2 & A3 & _), (H2 L HL) as (B1 & B2 & B3).
  unfold edits_guards, edits_complete. cbn [fmap list_fmap concat]. rewrite !guard_keys_app.
  split_and!; [by rewrite B1, A1|rewrite B2, A2|rewrite B3, A3]; unfold edits_guards, edits_complete; set_solver.
Qed.

(** The edits applied to a version with a new builder. *)
Lemma edits_saved es st cp v e : version_inv st v -> Forall edit_applies es ->
  fresh_edits (st_files st) Builder_new v es ->
  exists st' cp' b h' v' e',
    apply_all es (st, cp, Builder_new) = Some (st', cp', b) /\ builder_inv st' b v /\ grows st st' /\
    refs_kept st Builder_new st' b /\
    SaveTo ucmp b v st' Version_new e = (set_files st' h', v', e') /\
    same_info (st_files st') h' /\ version_inv (set_files st' h') v' /\ v_refs v' = 0 /\
    (forall X, (forall a, a ∈ X -> a < st_next st) -> mset (all_files v) ⊆ X -> file_refs (st_files st) X ->
       file_refs h' (X ⊎ mset (all_files v') ⊎ mset (builder_files b))) /\
    forall L, L ∈ levels ->
      abs_version h' v' L = spec_edits es L (abs_version (st_files st) v L) /\
      guard_keys (at_level (guards_ v') L) = edits_guards es L ∪ guard_keys (at_level (guards_ v) L) /\
      guard_keys (at_level (complete_guards_ v') L) = edits_complete es L ∪ guard_keys (at_level (complete_guards_ v) L) /\
      (all_separated h' v' L -> blen (at_level (guards_ v') L) < 2 ^ 31 ->
       level_ok ucmp h' (base_files v' L) (at_level (guards_ v') L) (at_level (sentinel_files_ v') L)).
Proof.
  intros Hinv Hok Hfresh.
  destruct (apply_all_refines es st cp Builder_new v (builder_inv_new st v Hinv) Hok Hfresh)
    as (st' & cp' & b & Ha & Hb & Hg & Hk & H).
  destruct (SaveTo_refines st' b v e Hb (vi_wf _ _ Hinv) (vi_guards _ _ Hinv)) as (h' & v' & e' & Hs & Hi & Hv & Hr & _ & Ea & Hin & H').
  exists st', cp', b, h', v', e'. split_and!; [done..| |].
  { intros X HX Hsub Hr0. specialize (Hk X HX). replace (X ⊎ mset (builder_files Builder_new)) with X in Hk by multiset_solver.
    specialize (Hk Hr0). rewrite <- (assoc_L (⊎)), (comm_L (⊎) (mset (all_files v'))), (assoc_L (⊎)), Ea.
    apply add_refs_refs; [done|]. intros a [Hx|Hx]%Hin; apply gmultiset_elem_of_disj_union;
      [right; by apply elem_of_mset|left]. apply elem_of_mset in Hx. multiset_solver. }
  intros L HL.
  destruct (H L HL) as (A1 & A2 & A3), (H' L HL) as (B1 & B2 & B3 & B4).
  rewrite level_state_new in A1, A2, A3. rewrite abs_level_new in A1.
  split_and!; [by rewrite B1, A1|rewrite B2, A2|rewrite B3, A3|exact B4]; unfold guard_keys; cbn; set_solver.
Qed.
End Refine.

(** ** Properties *)


Definition empty_store : Store := {| st_files := ∅; st_next := 1 |}.
Lemma version_inv_new ucmp : version_inv ucmp empty_store Version_new.
Proof.
  split; [done|apply Version_new_wf| |]; intros L HL; destruct (Version_new_empty L HL) as (E0 & E1 & E2 & E3).
  - rewrite E0. split; try constructor; by apply elem_of_nil in H.
  - split; rewrite ?E1, ?E2; try constructor. exists 0. split; [|split; [done|constructor]].
    revert HL. change levels with [0; 1; 2; 3; 4; 5; 6]. rewrite !elem_of_cons, elem_of_nil.
    by intros [->|[->|[->|[->|[->|[->|[->|[]]]]]]]].
Qed.
Definition example_key (k : bytes) (seq : Z) : bytes :=
  EncodeInternalKey {| user_key := k; sequence := seq; type := kTypeValue |}.
(** Two files and a guard between them; then the first file is replaced. *)
Definition example_edits : list VersionEdit :=
  [VersionEdit.AddGuard (AddFile (AddFile VersionEdit_new 1 5 100 (example_key [97] 3) (example_key [98] 2))
     1 6 100 (example_key [100] 9) (example_key [101] 9)) 1 (example_key [99] 4);
   AddFile (DeleteFile VersionEdit_new 1 5) 1 7 80 (example_key [98] 2) (example_key [98] 2)].
Lemma example_edits_apply : Forall edit_applies example_edits.
Proof.
  repeat constructor; try (vm_compute; done).
  all: try match goal with H : _ ∈ levels |- _ => revert H; revert L; apply levels_forall end.
  all: repeat constructor; vm_compute; done.
Qed.

(** C31: A file that holds only newer versions of a guard's user key is hidden from reads:
    guard keys carry the sequence number of the write that chose them, the placement
    compares whole internal keys, and the lookup compares user keys.  Here a guard [c]
    was chosen at sequence number 4 and the only file of the level holds [c] at 9: the
    new version keeps the file and puts it with the sentinels, and a read of [c] looks in
    the guard and answers "not found" although the newest entry is a value. *)
Theorem guard_sequence_hides_file :
  let e := VersionEdit.AddGuard (AddFile VersionEdit_new 1 5 100 (example_key [99] 9) (example_key [99] 9))
             1 (example_key [99] 4) in
  let es := fun _ => [(9, kTypeValue, [99], [200])] in
  let tables : MapTables := {[ 5 := iter_entries (to_ientry <$> [(9, kTypeValue, [99], [200])]) ]} in
  exists st cp b st' v e',
    Apply BytewiseComparator empty_store (replicate 7 []) Builder_new e = Some (st, cp, b) /\
    SaveTo BytewiseComparator b Version_new st Version_new None = (st', v, e') /\
    at_level (sentinel_files_ v) 1 = [1] /\
    get_result (newest BytewiseComparator [99] 20 (all_entries es v)) = Found [200] /\
    exists r, Get BytewiseComparator None (st_files st') false false v tables ∅ (mkLookupKey [99] 20) [] =
      Some (NotFound [], r).
Proof.
  cbv zeta. match goal with |- context [Apply ?u ?s ?c ?b ?e] => destruct (Apply u s c b e) as [[[st cp] b']|] eqn:E end;
    [|vm_compute in E; discriminate].
  exists st, cp, b'. destruct (SaveTo BytewiseComparator b' Version_new st Version_new None) as [[st' v] e'] eqn:Es.
  exists st', v, e'. vm_compute in E. injection E as <- <- <-. vm_compute in Es. injection Es as <- <- <-.
  split_and!; [done..|]. eexists. vm_compute. reflexivity.
Qed.
