(* ===== verification/VersionSet.v ===== *)
(** * The set of versions

    Models [VersionSet] of [src/pebblesdb/src/db/version_set.cc]: the live versions with
    their reference counts, the counters of the database, and the manifest: [LogAndApply]
    writes an edit to the manifest and makes the next version current, [Recover] reads the
    manifest back.

    Versions are objects of a store, named by addresses ([0] is null); the circular list
    of live versions is the list of its elements.  The environment is threaded through;
    an open file is named by its path. *)

From Stdlib Require Import SpecFloat.
From stdpp Require Import gmap sorting.
From S2P Require Import Prelude Coding Status Comparator DbFormat Bloom LogFormat VersionEdit FileName.
From S2P Require Import MemTable TableGet Version VersionBuilder.
From stdpp Require Import list.
#[local] Open Scope Z_scope.

(** ** Sizes of levels *)

Definition of_level {A} (d : A) (l : list A) (level : Z) : A := nth (Z.to_nat level) l d.
(** Doubles that are small multiples of 2^20 are exact. *)
Definition mb (n : Z) : spec_float := double_of_int (n * 1048576).
Definition MaxBytesForLevel : Z -> spec_float :=
  of_level S754_nan (mb <$> [64; 128; 512; 4096; 32768; 262144; 2097152]).
Definition MinBytesForLevel : Z -> spec_float :=
  of_level S754_nan (mb <$> [16; 128; 256; 512; 1024; 2048; 0]).
Definition MaxBytesPerGuardForLevel : Z -> spec_float :=
  of_level S754_nan (mb <$> [64; 128; 256; 512; 512; 1024; 2048]).
Definition MinFileSizeForLevel : Z -> Z :=
  of_level 0 ((fun n => n * 1048576) <$> [1; 1; 1; 1; 8; 16; 32]).
Definition MaxFileSizeForLevel : Z -> Z :=
  of_level 0 ((fun n => n * 1048576) <$> [64; 64; 64; 64; 128; 256; 512]).
Definition MaxFilesPerGuardForLevel : Z -> Z := of_level 0 (replicate 7 (-1)).
Definition MaxCompactionBytesForLevel (level : Z) : Z := u64 (MaxFileSizeForLevel level * 16).
Definition kL0_SentinelCompactionTrigger : Z := 2.
Definition kL0_GuardCompactionTrigger : Z := 2.
Definition kMaxFilesPerGuardSentinel : Z := 2.

(** ** Compaction scores *)

Record Scores := {
  compaction_scores_ : list spec_float;
  guard_compaction_scores_ : list (list spec_float);
  sentinel_compaction_scores_ : list spec_float;
}.
(** The sentinel scores are not initialised. *)
Definition Scores_new (garbage : list spec_float) : Scores :=
  {| compaction_scores_ := replicate (Z.to_nat kNumLevels) (double_of_int (-1));
     guard_compaction_scores_ := no_levels; sentinel_compaction_scores_ := garbage |}.

Definition ddiv : spec_float -> spec_float -> spec_float := SFdiv 53 1024.
(** [std::max] *)
Definition dmax (a b : spec_float) : spec_float := if SFltb a b then b else a.

Definition segment_score (h : Files) (level n : Z) (files : list Z) : spec_float :=
  let max_files_per_segment :=
    if 0 <? MaxFilesPerGuardForLevel level then MaxFilesPerGuardForLevel level else kMaxFilesPerGuardSentinel in
  dmax (ddiv (double_of_int (u64 (TotalFileSize h files))) (MaxBytesPerGuardForLevel level))
    (ddiv (double_of_int n) (double_of_int (max_files_per_segment + 1))).
(** The scores of the sentinels and the guards of a level. *)
Definition level_scores (h : Files) (v : Version) (level : Z) : spec_float * list spec_float :=
  let sentinels := at_level (sentinel_files_ v) level in
  let guards := at_level (guards_ v) level in
  if level =? 0 then
    (ddiv (double_of_int (blen sentinels)) (double_of_int kL0_SentinelCompactionTrigger),
     (fun g => ddiv (double_of_int (blen (g_files g))) (double_of_int kL0_GuardCompactionTrigger)) <$> guards)
  else
    (segment_score h level (blen sentinels) sentinels,
     (fun g => segment_score h level (blen (g_files g)) (g_file_metas g)) <$> guards).
Definition Finalize_level (h : Files) (v : Version) (s : Scores) (level : Z) : Scores :=
  let '(sentinel, guards) := level_scores h v level in
  {| compaction_scores_ := <[Z.to_nat level := fold_left dmax guards sentinel]> (compaction_scores_ s);
     guard_compaction_scores_ := <[Z.to_nat level := guards]> (guard_compaction_scores_ s);
     sentinel_compaction_scores_ := <[Z.to_nat level := sentinel]> (sentinel_compaction_scores_ s) |}.
Definition Finalize (h : Files) (v : Version) (s : Scores) : Scores := fold_left (Finalize_level h v) levels s.

(** ** The state *)

Record VersionObject := { vo_version : Version; vo_scores : Scores }.
Record VersionSet := {
  vs_store : Store;
  vs_objects : gmap Z VersionObject;
  vs_fresh : Z;
  dummy_versions_ : list Z;
  current_ : Z;
  next_file_number_ : Z;
  manifest_file_number_ : Z;
  last_sequence_ : Z;
  log_number_ : Z;
  prev_log_number_ : Z;
  compact_pointer_ : list bytes;
  file_level_bloom_filter : FilterMap;
  (** the open manifest: its name and the offset of its log writer *)
  descriptor_log_ : option (list Z * Z);
}.
Definition set_objects (vs : VersionSet) (st : Store) (o : gmap Z VersionObject) (l : list Z) : VersionSet :=
  {| vs_store := st; vs_objects := o; vs_fresh := vs_fresh vs; dummy_versions_ := l; current_ := current_ vs;
     next_file_number_ := next_file_number_ vs; manifest_file_number_ := manifest_file_number_ vs;
     last_sequence_ := last_sequence_ vs; log_number_ := log_number_ vs; prev_log_number_ := prev_log_number_ vs;
     compact_pointer_ := compact_pointer_ vs; file_level_bloom_filter := file_level_bloom_filter vs;
     descriptor_log_ := descriptor_log_ vs |}.
Definition set_current (vs : VersionSet) (p : Z) : VersionSet :=
  {| vs_store := vs_store vs; vs_objects := vs_objects vs; vs_fresh := vs_fresh vs;
     dummy_versions_ := dummy_versions_ vs; current_ := p;
     next_file_number_ := next_file_number_ vs; manifest_file_number_ := manifest_file_number_ vs;
     last_sequence_ := last_sequence_ vs; log_number_ := log_number_ vs; prev_log_number_ := prev_log_number_ vs;
     compact_pointer_ := compact_pointer_ vs; file_level_bloom_filter := file_level_bloom_filter vs;
     descriptor_log_ := descriptor_log_ vs |}.
Definition set_pointers (vs : VersionSet) (st : Store) (cp : list bytes) : VersionSet :=
  {| vs_store := st; vs_objects := vs_objects vs; vs_fresh := vs_fresh vs;
     dummy_versions_ := dummy_versions_ vs; current_ := current_ vs;
     next_file_number_ := next_file_number_ vs; manifest_file_number_ := manifest_file_number_ vs;
     last_sequence_ := last_sequence_ vs; log_number_ := log_number_ vs; prev_log_number_ := prev_log_number_ vs;
     compact_pointer_ := cp; file_level_bloom_filter := file_level_bloom_filter vs;
     descriptor_log_ := descriptor_log_ vs |}.
Definition set_numbers (vs : VersionSet) (next manifest last log prev : Z) : VersionSet :=
  {| vs_store := vs_store vs; vs_objects := vs_objects vs; vs_fresh := vs_fresh vs;
     dummy_versions_ := dummy_versions_ vs; current_ := current_ vs;
     next_file_number_ := next; manifest_file_number_ := manifest;
     last_sequence_ := last; log_number_ := log; prev_log_number_ := prev;
     compact_pointer_ := compact_pointer_ vs; file_level_bloom_filter := file_level_bloom_filter vs;
     descriptor_log_ := descriptor_log_ vs |}.
Definition set_descriptor (vs : VersionSet) (d : option (list Z * Z)) : VersionSet :=
  {| vs_store := vs_store vs; vs_objects := vs_objects vs; vs_fresh := vs_fresh vs;
     dummy_versions_ := dummy_versions_ vs; current_ := current_ vs;
     next_file_number_ := next_file_number_ vs; manifest_file_number_ := manifest_file_number_ vs;
     last_sequence_ := last_sequence_ vs; log_number_ := log_number_ vs; prev_log_number_ := prev_log_number_ vs;
     compact_pointer_ := compact_pointer_ vs; file_level_bloom_filter := file_level_bloom_filter vs;
     descriptor_log_ := d |}.
Definition set_level_filters (vs : VersionSet) (m : FilterMap) : VersionSet :=
  {| vs_store := vs_store vs; vs_objects := vs_objects vs; vs_fresh := vs_fresh vs;
     dummy_versions_ := dummy_versions_ vs; current_ := current_ vs;
     next_file_number_ := next_file_number_ vs; manifest_file_number_ := manifest_file_number_ vs;
     last_sequence_ := last_sequence_ vs; log_number_ := log_number_ vs; prev_log_number_ := prev_log_number_ vs;
     compact_pointer_ := compact_pointer_ vs; file_level_bloom_filter := m;
     descriptor_log_ := descriptor_log_ vs |}.

(** ** Reference counts of versions *)

Definition set_v_refs (v : Version) (n : Z) : Version :=
  {| v_refs := n; files_ := files_ v; guards_ := guards_ v; complete_guards_ := complete_guards_ v;
     sentinel_files_ := sentinel_files_ v; sentinel_file_nos_ := sentinel_file_nos_ v;
     num_complete_guards_ := num_complete_guards_ v; file_to_compact_ := file_to_compact_ v;
     file_to_compact_level_ := file_to_compact_level_ v; num_files_read := num_files_read v |}.
Definition with_version (o : VersionObject) (v : Version) : VersionObject :=
  {| vo_version := v; vo_scores := vo_scores o |}.
(** Changes the version at [p]; null and freed addresses are undefined. *)
Definition on_version (vs : VersionSet) (p : Z) (f : Version -> option Version) : option VersionSet :=
  o ← vs_objects vs !! p;
  v ← f (vo_version o);
  Some (set_objects vs (vs_store vs) (<[p := with_version o v]> (vs_objects vs)) (dummy_versions_ vs)).
Definition Version_Ref (vs : VersionSet) (p : Z) : option VersionSet :=
  on_version vs p (fun v => Some (set_v_refs v (v_refs v + 1))).
(** [delete v] *)
Definition Version_destroy (vs : VersionSet) (p : Z) : option VersionSet :=
  o ← vs_objects vs !! p;
  if negb (v_refs (vo_version o) =? 0) then None
  else
    h ← foldM drop_file (concat (at_level (files_ (vo_version o)) <$> levels)) (st_files (vs_store vs));
    Some (set_objects vs (set_files (vs_store vs) h) (delete p (vs_objects vs))
            (filter (fun q => q <> p) (dummy_versions_ vs))).
Definition Version_Unref (vs : VersionSet) (p : Z) : option VersionSet :=
  o ← vs_objects vs !! p;
  let n := v_refs (vo_version o) in
  if n <? 1 then None
  else
    vs ← on_version vs p (fun v => Some (set_v_refs v (n - 1)));
    if n - 1 =? 0 then Version_destroy vs p else Some vs.

(** [new Version(this)], and an object for a version that was filled. *)
Definition new_version (vs : VersionSet) (o : VersionObject) : VersionSet * Z :=
  ({| vs_store := vs_store vs; vs_objects := <[vs_fresh vs := o]> (vs_objects vs); vs_fresh := vs_fresh vs + 1;
      dummy_versions_ := dummy_versions_ vs; current_ := current_ vs;
      next_file_number_ := next_file_number_ vs; manifest_file_number_ := manifest_file_number_ vs;
      last_sequence_ := last_sequence_ vs; log_number_ := log_number_ vs; prev_log_number_ := prev_log_number_ vs;
      compact_pointer_ := compact_pointer_ vs; file_level_bloom_filter := file_level_bloom_filter vs;
      descriptor_log_ := descriptor_log_ vs |}, vs_fresh vs).
Definition AppendVersion (vs : VersionSet) (p : Z) : option VersionSet :=
  o ← vs_objects vs !! p;
  if negb (v_refs (vo_version o) =? 0) || (p =? current_ vs) then None
  else
    vs ← (if current_ vs =? 0 then Some vs else Version_Unref vs (current_ vs));
    vs ← Version_Ref (set_current vs p) p;
    Some (set_objects vs (vs_store vs) (vs_objects vs) (dummy_versions_ vs ++ [p])).

(** ** Counters *)

Definition set_next (vs : VersionSet) (next : Z) : VersionSet :=
  set_numbers vs next (manifest_file_number_ vs) (last_sequence_ vs) (log_number_ vs) (prev_log_number_ vs).
Definition NewFileNumber (vs : VersionSet) : Z * VersionSet :=
  (next_file_number_ vs, set_next vs (u64 (next_file_number_ vs + 1))).
Definition ReuseFileNumber (vs : VersionSet) (file_number : Z) : VersionSet :=
  if next_file_number_ vs =? u64 (file_number + 1) then set_next vs file_number else vs.
Definition MarkFileNumberUsed (vs : VersionSet) (number : Z) : VersionSet :=
  if next_file_number_ vs <=? number then set_next vs (u64 (number + 1)) else vs.
Definition SetLastSequence (vs : VersionSet) (s : Z) : VersionSet :=
  if last_sequence_ vs <=? s
  then set_numbers vs (next_file_number_ vs) (manifest_file_number_ vs) s (log_number_ vs) (prev_log_number_ vs)
  else vs.

(** ** Live files and filters *)

Definition AddLiveFiles (vs : VersionSet) (live : gset Z) : option (gset Z) :=
  foldM (fun live p =>
    o ← vs_objects vs !! p;
    Some (fold_left (fun live a => {[ f_number (deref (st_files (vs_store vs)) a) ]} ∪ live)
            (concat (at_level (files_ (vo_version o)) <$> levels)) live)) (dummy_versions_ vs) live.
Definition AddFileLevelBloomFilterInfo (m : FilterMap) (file_number : Z) (filter_string : option bytes) : FilterMap :=
  <[file_number := filter_string]> m.
Definition RemoveFileLevelBloomFilterInfo (vs : VersionSet) (file_number : Z) : VersionSet :=
  set_level_filters vs (delete file_number (file_level_bloom_filter vs)).

(** ** The manifest *)

(** What [LogAndApply] and [Recover] need of the environment beyond [Env]: files written at
    offsets, and files read from the start. *)
Class ManifestEnv (E F : Type) := {
  NewConcurrentWritableFile : E -> bytes -> Status * E;
  WriteFileAt : E -> bytes -> Z -> bytes -> E * Status;
  NewSequentialFile : E -> bytes -> Status * F;
}.

Section Manifest.
Context (ucmp : Comparator) (cmp_name dbname : bytes) (asserts : bool) (garbage : list spec_float).
Context {E F : Type} `{HE : Env E} `{HM : ManifestEnv E F} `{HF : SequentialFile F}.

(** [new VersionSet] *)
Definition VersionSet_empty : VersionSet :=
  {| vs_store := {| st_files := ∅; st_next := 1 |}; vs_objects := ∅; vs_fresh := 1; dummy_versions_ := [];
     current_ := 0; next_file_number_ := 2; manifest_file_number_ := 0; last_sequence_ := 0; log_number_ := 0;
     prev_log_number_ := 0; compact_pointer_ := replicate (Z.to_nat kNumLevels) [];
     file_level_bloom_filter := ∅; descriptor_log_ := None |}.
Definition VersionSet_new : option VersionSet :=
  let '(vs, p) := new_version VersionSet_empty {| vo_version := Version_new; vo_scores := Scores_new garbage |} in
  AppendVersion vs p.

(** The open file [name], written at offsets. *)
Definition named_file (name : bytes) : ConcurrentWritableFile E :=
  {| WriteAt env off data := WriteFileAt env name off data |}.
Definition descriptor_AddRecord (env : E) (d : list Z * Z) (record : bytes) : option (E * Status * (list Z * Z)) :=
  '(env, s, off) ← @Writer.AddRecord E (named_file (fst d)) env (snd d) record;
  Some (env, s, (fst d, off)).

Definition snapshot_files (h : Files) (level : Z) (files : list Z) (e : VersionEdit) : VersionEdit :=
  fold_left (fun e a =>
    let f := deref h a in AddFile e level (f_number f) (f_file_size f) (f_smallest f) (f_largest f)) files e.
Definition snapshot_guards (level : Z) (guards : list GuardMetaData) (e : VersionEdit) : VersionEdit :=
  fold_left (fun e g =>
    if 0 <? g_number_segments g
    then AddGuardWithFiles e level (g_number_segments g) (g_guard_key g) (g_smallest g) (g_largest g) (g_files g)
    else VersionEdit.AddGuard e level (g_guard_key g)) guards e.
Definition snapshot_level (h : Files) (v : Version) (e : VersionEdit) (level : Z) : VersionEdit :=
  let e := snapshot_files h level (at_level (files_ v) level) e in
  let e := fold_left (fun e n => AddSentinelFileNo e level n) (at_level (Version.sentinel_file_nos_ v) level) e in
  let e := snapshot_guards level (at_level (guards_ v) level) e in
  fold_left (fun e g => VersionEdit.AddCompleteGuard e level (g_guard_key g)) (at_level (complete_guards_ v) level) e.
Definition snapshot (h : Files) (cp : list bytes) (v : Version) : VersionEdit :=
  let e := SetComparatorName VersionEdit_new cmp_name in
  let e := fold_left (fun e level =>
    match at_level cp level with [] => e | key => SetCompactPointer e level key end) levels e in
  fold_left (snapshot_level h v) levels e.
Definition WriteSnapshot (env : E) (vs : VersionSet) (d : list Z * Z) : option (E * Status * (list Z * Z)) :=
  o ← vs_objects vs !! current_ vs;
  descriptor_AddRecord env d (EncodeTo (snapshot (st_files (vs_store vs)) (compact_pointer_ vs) (vo_version o)) []).

(** *** LogAndApply

    In three parts: until the mutex is released, the write of the manifest, and the rest.
    Between them other threads may run. *)

Record Pending := {
  pd_version : Z;
  pd_edit : VersionEdit;
  pd_cg_sizes : list Z;
  pd_new_manifest : bool;
}.

(** Until the new version is filled: the edit gets the counters, a builder on the current
    version applies it. *)
Definition complete_edit (vs : VersionSet) (edit : VersionEdit) : option VersionEdit :=
  edit ← (if has_log_number_ edit then
            if (log_number_ vs <=? VersionEdit.log_number_ edit) &&
               (VersionEdit.log_number_ edit <? next_file_number_ vs) then Some edit else None
          else Some (SetLogNumber edit (log_number_ vs)));
  let edit := if has_prev_log_number_ edit then edit else SetPrevLogNumber edit (prev_log_number_ vs) in
  let edit := SetNextFile edit (next_file_number_ vs) in
  Some (VersionEdit.SetLastSequence edit (last_sequence_ vs)).
(** The builder's life: it holds the base version. *)
Definition build_version (vs : VersionSet) (edit : VersionEdit) : option (VersionSet * Version * VersionEdit) :=
  let base := current_ vs in
  vs ← Version_Ref vs base;
  o ← vs_objects vs !! base;
  '(st, cp, b) ← Apply ucmp (vs_store vs) (compact_pointer_ vs) Builder_new edit;
  let '(st, v, e) := SaveTo ucmp b (vo_version o) st Version_new (Some edit) in
  vs ← Version_Unref (set_pointers vs (Builder_destroy b st) cp) base;
  Some (vs, v, default edit e).
Definition la_begin (vs : VersionSet) (edit : VersionEdit) : option (VersionSet * Pending) :=
  edit ← complete_edit vs edit;
  o ← vs_objects vs !! current_ vs;
  let cg_sizes := (fun level => blen (at_level (complete_guards_ (vo_version o)) level)) <$> levels in
  '(vs, v, edit) ← build_version vs edit;
  let '(vs, p) := new_version vs
    {| vo_version := v; vo_scores := Finalize (st_files (vs_store vs)) v (Scores_new garbage) |} in
  Some (vs, {| pd_version := p; pd_edit := edit; pd_cg_sizes := cg_sizes; pd_new_manifest := false |}).

(** The first call opens a new manifest with a snapshot of the current version. *)
Definition la_open (env : E) (vs : VersionSet) (pd : Pending) : option (E * Status * VersionSet * Pending) :=
  match descriptor_log_ vs with
  | Some _ => Some (env, OK, vs, pd)
  | None =>
      let name := DescriptorFileName dbname (manifest_file_number_ vs) in
      let pd := {| pd_version := pd_version pd; pd_edit := SetNextFile (pd_edit pd) (next_file_number_ vs);
                   pd_cg_sizes := pd_cg_sizes pd; pd_new_manifest := true |} in
      let '(s, env) := NewConcurrentWritableFile env name in
      if ok s then
        '(env, s, d) ← WriteSnapshot env vs (name, 0);
        Some (env, s, set_descriptor vs (Some d), pd)
      else Some (env, s, vs, pd)
  end.
Definition la_write (env : E) (s : Status) (vs : VersionSet) (pd : Pending) : option (E * Status * VersionSet) :=
  '(env, s, vs) ← (if ok s then
      d ← descriptor_log_ vs;
      '(env, s, d) ← descriptor_AddRecord env d (EncodeTo (pd_edit pd) []);
      let '(s, env) := if ok s then SyncFile env (fst d) else (s, env) in
      Some (env, s, set_descriptor vs (Some d))
    else Some (env, s, vs));
  let '(s, env) := if ok s && pd_new_manifest pd then SetCurrentFile env dbname (manifest_file_number_ vs)
                   else (s, env) in
  Some (env, s, vs).

Definition AddFilters (m : FilterMap) (file_numbers : list Z) (file_level_filters : list (option bytes)) : FilterMap :=
  fold_left (fun m p => AddFileLevelBloomFilterInfo m (fst p) (snd p)) (zip file_numbers file_level_filters) m.
(** Complete guards added to the current version during the write. *)
Definition delta_guard (level : Z) (g : GuardMetaData) : GuardMetaData :=
  {| g_refs := 1; g_level := level; g_number_segments := 0; g_guard_key := g_guard_key g;
     g_smallest := []; g_largest := []; g_files := []; g_file_metas := [] |}.
Definition delta_guards (v : Version) (cg_sizes : list Z) (level : Z) : list GuardMetaData :=
  delta_guard level <$> drop (Z.to_nat (nth (Z.to_nat level) cg_sizes 0)) (at_level (complete_guards_ v) level).
Definition la_install (vs : VersionSet) (pd : Pending) : option VersionSet :=
  o ← vs_objects vs !! current_ vs;
  let added := (fun level => (level, delta_guards (vo_version o) (pd_cg_sizes pd) level)) <$> levels in
  vs ← AppendVersion vs (pd_version pd);
  vs ← on_version vs (pd_version pd) (fun v => Some (fold_left (fun v p =>
         set_complete_guards v (set_level (complete_guards_ v) (fst p)
           (at_level (complete_guards_ v) (fst p) ++ snd p))) added v));
  Some (set_numbers vs (next_file_number_ vs) (manifest_file_number_ vs) (last_sequence_ vs)
          (VersionEdit.log_number_ (pd_edit pd)) (VersionEdit.prev_log_number_ (pd_edit pd))).
Definition la_finish (env : E) (s : Status) (vs : VersionSet) (pd : Pending)
    (file_numbers : list Z) (file_level_filters : list (option bytes)) : option (E * VersionSet) :=
  let vs := set_level_filters vs (AddFilters (file_level_bloom_filter vs) file_numbers file_level_filters) in
  if ok s then vs ← la_install vs pd; Some (env, vs)
  else
    vs ← Version_destroy vs (pd_version pd);
    if pd_new_manifest pd then
      Some (snd (RemoveFile env (DescriptorFileName dbname (manifest_file_number_ vs))), set_descriptor vs None)
    else Some (env, vs).
(** The whole call, when no other thread runs. *)
Definition LogAndApply (env : E) (vs : VersionSet) (edit : VersionEdit)
    (file_numbers : list Z) (file_level_filters : list (option bytes)) : option (E * Status * VersionSet) :=
  '(vs, pd) ← la_begin vs edit;
  '(env, s, vs, pd) ← la_open env vs pd;
  '(env, s, vs) ← la_write env s vs pd;
  '(env, vs) ← la_finish env s vs pd file_numbers file_level_filters;
  Some (env, s, vs).

(** *** Recover *)

(** What a reporter that keeps the first corruption makes of a status. *)
Definition report_status (s : Status) (reports : list Reader.report) : Status :=
  fold_left (fun s r => if ok s then snd r else s) reports s.
Record Recovered := {
  rc_store : Store; rc_pointers : list bytes; rc_builder : Builder;
  rc_log : option Z; rc_prev : option Z; rc_next : option Z; rc_last : option Z;
}.
(** One record: decode, check the comparator, apply, remember the numbers. *)
Definition Recover_record (rc : Recovered) (record : bytes) : option (Status * Recovered) :=
  match DecodeFrom asserts VersionEdit_new record with
  | Returned s edit =>
      let s := if ok s && has_comparator_ edit && negb (bool_decide (comparator_ edit = cmp_name))
               then mkStatus kInvalidArgument (comparator_ edit ++ str " does not match existing comparator ") cmp_name
               else s in
      '(st, cp, b) ← (if ok s then Apply ucmp (rc_store rc) (rc_pointers rc) (rc_builder rc) edit
                      else Some (rc_store rc, rc_pointers rc, rc_builder rc));
      Some (s, {| rc_store := st; rc_pointers := cp; rc_builder := b;
        rc_log := if has_log_number_ edit then Some (VersionEdit.log_number_ edit) else rc_log rc;
        rc_prev := if has_prev_log_number_ edit then Some (VersionEdit.prev_log_number_ edit) else rc_prev rc;
        rc_next := if has_next_file_number_ edit then Some (VersionEdit.next_file_number_ edit) else rc_next rc;
        rc_last := if has_last_sequence_ edit then Some (VersionEdit.last_sequence_ edit) else rc_last rc |})
  | _ => None
  end.
Definition reports (r : Reader.Reader F) : list Reader.report := default [] (Reader.reporter_ r).
(** [n] bounds the records, [fuel] the reads of one record. *)
Fixpoint Recover_loop (n fuel : nat) (r : Reader.Reader F) (s : Status) (rc : Recovered)
    : option (Status * Recovered) :=
  match n with
  | O => None
  | S n =>
      '(rec, r') ← Reader.ReadRecord fuel r;
      let s := report_status s (drop (length (reports r)) (reports r')) in
      match rec with
      | None => Some (s, rc)
      | Some record =>
          if negb (ok s) then Some (s, rc)
          else '(s, rc) ← Recover_record rc record; Recover_loop n fuel r' s rc
      end
  end.
Definition Recover (n fuel : nat) (env : E) (vs : VersionSet) : option (Status * VersionSet) :=
  '(s, curfile) ← ReadFileToString fuel (NewSequentialFile env (CurrentFileName dbname));
  if negb (ok s) then Some (s, vs)
  else if negb (bool_decide (last curfile = Some 10)) then
    Some (Corruption (str "CURRENT file does not end with newline"), vs)
  else
    let dscname := dbname ++ [47] ++ take (length curfile - 1) curfile in
    let '(s, file) := NewSequentialFile env dscname in
    if negb (ok s) then Some (s, vs)
    else
      let base := current_ vs in
      vs ← Version_Ref vs base;
      '(s, rc) ← Recover_loop n fuel (Reader.new file true true 0) s
        {| rc_store := vs_store vs; rc_pointers := compact_pointer_ vs; rc_builder := Builder_new;
           rc_log := None; rc_prev := None; rc_next := None; rc_last := None |};
      let vs := set_pointers vs (rc_store rc) (rc_pointers rc) in
      let '(s, vs) :=
        if ok s then
          (match rc_next rc, rc_log rc, rc_last rc with
           | None, _, _ => Corruption (str "no meta-nextfile entry in descriptor")
           | _, None, _ => Corruption (str "no meta-lognumber entry in descriptor")
           | _, _, None => Corruption (str "no last-sequence-number entry in descriptor")
           | _, _, _ => s
           end, MarkFileNumberUsed (MarkFileNumberUsed vs (default 0 (rc_prev rc))) (default 0 (rc_log rc)))
        else (s, vs) in
      vs ← (if ok s then
              o ← vs_objects vs !! base;
              let '(st, v, _) := SaveTo ucmp (rc_builder rc) (vo_version o) (vs_store vs) Version_new None in
              let vs := set_pointers vs st (compact_pointer_ vs) in
              let '(vs, p) := new_version vs
                {| vo_version := v; vo_scores := Finalize (st_files st) v (Scores_new garbage) |} in
              vs ← AppendVersion vs p;
              Some (set_numbers vs (u64 (default 0 (rc_next rc) + 1)) (default 0 (rc_next rc)) (default 0 (rc_last rc))
                      (default 0 (rc_log rc)) (default 0 (rc_prev rc)))
            else Some vs);
      vs ← Version_Unref (set_pointers vs (Builder_destroy (rc_builder rc) (vs_store vs)) (compact_pointer_ vs)) base;
      Some (s, vs).
End Manifest.
