(* ===== verification/VersionSetProofs.v ===== *)
(** * The set of versions: reference counts

    In every state that readers, writers and one [LogAndApply] at a time can reach, the
    counters of versions and files are exact: a version lives as long as it is current or
    held, a file object as long as a version lists it.  No operation touches a freed
    object or fails an assertion. *)

From stdpp Require Import gmap gmultiset sorting.
From S2P Require Import Prelude Coding Status Comparator DbFormat Bloom LogFormat LogProofs.
From S2P Require Import VersionEdit FileName.
From S2P Require Import MemTable TableGet Version VersionProofs VersionGet VersionBuilder VersionBuilderProofs.
From S2P Require Import FileRefs VersionRefines VersionSet.
From stdpp Require Import list.
#[local] Open Scope Z_scope.

(** ** Owners *)

Definition owned (o : gmap Z VersionObject) : list Z :=
  concat ((fun p => all_files (vo_version (snd p))) <$> map_to_list o).
Lemma owned_insert o p x : o !! p = None -> owned (<[p := x]> o) ≡ₚ all_files (vo_version x) ++ owned o.
Proof. intros H. unfold owned. by rewrite map_to_list_insert. Qed.
Lemma owned_delete o p x : o !! p = Some x -> owned o ≡ₚ all_files (vo_version x) ++ owned (delete p o).
Proof. intros H. rewrite <- (insert_delete_id o p x H) at 1. apply owned_insert, lookup_delete_eq. Qed.
Lemma owned_update o p x y : o !! p = Some x -> all_files (vo_version y) = all_files (vo_version x) ->
  owned (<[p := y]> o) ≡ₚ owned o.
Proof.
  intros H E. rewrite (owned_delete (<[p := y]> o) p y) by apply lookup_insert_eq.
  by rewrite delete_insert_eq, (owned_delete o p x H), E.
Qed.
Lemma owned_elem o p x a : o !! p = Some x -> a ∈ all_files (vo_version x) -> a ∈ owned o.
Proof. intros H Ha. rewrite (owned_delete o p x H). apply elem_of_app. by left. Qed.

Lemma elem_of_owned o a : a ∈ owned o <-> exists p x, o !! p = Some x /\ a ∈ all_files (vo_version x).
Proof.
  unfold owned. rewrite elem_of_concat. split.
  - intros (l & ([p x] & -> & Hp)%list_elem_of_fmap & Ha). exists p, x. by apply elem_of_map_to_list in Hp.
  - intros (p & x & Hp & Ha). exists (all_files (vo_version x)). split; [|done]. apply list_elem_of_fmap.
    exists (p, x). split; [done|]. by apply elem_of_map_to_list.
Qed.

(** ** Counters *)

(** [R] are the references to versions; [pending] is the version being prepared; [Y] are
    references to files that no version has. *)
Record core (vs : VersionSet) (Y R : gmultiset Z) (pending : option Z) : Prop := {
  co_refs : file_refs (st_files (vs_store vs)) (mset (owned (vs_objects vs)) ⊎ Y);
  co_addr : forall a, a ∈ mset (owned (vs_objects vs)) ⊎ Y -> 0 < a < st_next (vs_store vs);
  co_fresh : forall p, is_Some (vs_objects vs !! p) -> 0 < p < vs_fresh vs;
  co_next : 0 < vs_fresh vs /\ 0 < st_next (vs_store vs);
  co_nodup : NoDup (dummy_versions_ vs);
  co_listed : forall p, p ∈ dummy_versions_ vs <-> p ∈ R;
  co_live : forall p, p ∈ R <-> is_Some (vs_objects vs !! p) /\ pending <> Some p;
  co_counts : forall p o, vs_objects vs !! p = Some o -> v_refs (vo_version o) = Z.of_nat (multiplicity p R);
  co_pending : forall p, pending = Some p -> is_Some (vs_objects vs !! p);
}.
(** What changes of reference counts leave alone. *)
Record same_versions (Y : gmultiset Z) (vs vs' : VersionSet) : Prop := {
  sm_objects : forall q o', vs_objects vs' !! q = Some o' -> exists o n,
    vs_objects vs !! q = Some o /\ vo_version o' = set_v_refs (vo_version o) n;
  sm_store : st_next (vs_store vs) <= st_next (vs_store vs') /\
    same_on (mset (owned (vs_objects vs')) ⊎ Y) (st_files (vs_store vs)) (st_files (vs_store vs'));
  sm_rest : vs_fresh vs' = vs_fresh vs /\ current_ vs' = current_ vs /\
    next_file_number_ vs' = next_file_number_ vs /\ manifest_file_number_ vs' = manifest_file_number_ vs /\
    last_sequence_ vs' = last_sequence_ vs /\ log_number_ vs' = log_number_ vs /\
    prev_log_number_ vs' = prev_log_number_ vs /\ file_level_bloom_filter vs' = file_level_bloom_filter vs /\
    descriptor_log_ vs' = descriptor_log_ vs;
}.

Lemma set_v_refs_same v n m : set_v_refs (set_v_refs v n) m = set_v_refs v m.
Proof. done. Qed.
Lemma all_files_refs v n : all_files (set_v_refs v n) = all_files v.
Proof. done. Qed.
Lemma core_addr_sub vs Y R pd p o a : core vs Y R pd -> vs_objects vs !! p = Some o ->
  a ∈ all_files (vo_version o) -> 0 < a < st_next (vs_store vs).
Proof.
  intros Hc E Ha. apply (co_addr vs Y R pd Hc), gmultiset_elem_of_disj_union. left. rewrite elem_of_mset. by eapply owned_elem.
 Qed.

Lemma on_version_Some vs p f o v : vs_objects vs !! p = Some o -> f (vo_version o) = Some v ->
  on_version vs p f = Some (set_objects vs (vs_store vs) (<[p := with_version o v]> (vs_objects vs)) (dummy_versions_ vs)).
Proof. intros E Ef. unfold on_version. rewrite E. cbn [mbind option_bind]. by rewrite Ef. Qed.
Lemma lookup_update {A} (m : gmap Z A) p x q : is_Some (m !! p) -> is_Some (<[p := x]> m !! q) <-> is_Some (m !! q).
Proof.
  intros Hp. destruct (decide (p = q)) as [<-|Hne]; [rewrite lookup_insert_eq|by rewrite lookup_insert_ne].
  split; [done|by eexists].
Qed.

(** A change of one version that keeps its files and gives its counter [n]. *)
Lemma core_update vs Y R R' pd p o v : core vs Y R pd -> vs_objects vs !! p = Some o -> all_files v = all_files (vo_version o) ->
  v_refs v = Z.of_nat (multiplicity p R') -> (forall q, q <> p -> multiplicity q R' = multiplicity q R) -> (p ∈ R' <-> p ∈ R) ->
  core (set_objects vs (vs_store vs) (<[p := with_version o v]> (vs_objects vs)) (dummy_versions_ vs)) Y R' pd.
Proof.
  intros [H1 H2 H3 H4 H5 H6 H7 H8 H9] E Ef Hr Hq Hp.
  assert (forall q, q ∈ R' <-> q ∈ R) as HR.
  { intros q. destruct (decide (q = p)) as [->|Hne]; [done|]. by rewrite !elem_of_multiplicity, Hq. }
  pose proof (owned_update (vs_objects vs) p o (with_version o v) E Ef) as Ho.
  split; cbn [set_objects vs_store vs_objects vs_fresh dummy_versions_].
  - by rewrite Ho.
  - intros a. rewrite Ho. apply H2.
  - intros q Hx. apply lookup_update in Hx; [by apply H3|by eexists].
  - done.
  - done.
  - intros q. by rewrite HR.
  - intros q. rewrite HR, lookup_update; [done|by eexists].
  - intros q o' E'. destruct (decide (p = q)) as [<-|Hne].
    + rewrite lookup_insert_eq in E'. injection E' as <-. done.
    + rewrite lookup_insert_ne in E' by done. rewrite (Hq q) by done. by apply H8.
  - intros q Hx%H9. apply lookup_update; [by eexists|done].
Qed.
Lemma same_versions_refs Y vs p o n : vs_objects vs !! p = Some o ->
  same_versions Y vs (set_objects vs (vs_store vs)
    (<[p := with_version o (set_v_refs (vo_version o) n)]> (vs_objects vs)) (dummy_versions_ vs)).
Proof.
  intros E. split; cbn [set_objects vs_objects vs_store]; [|split; [lia|done]|done]. intros q o' E'.
  destruct (decide (p = q)) as [<-|Hne].
  - rewrite lookup_insert_eq in E'. injection E' as <-. by exists o, n.
  - rewrite lookup_insert_ne in E' by done. exists o', (v_refs (vo_version o')). split; [done|]. by destruct (vo_version o').
Qed.
Lemma core_Ref vs Y R pd p : core vs Y R pd -> p ∈ R -> exists vs', Version_Ref vs p = Some vs' /\
  core vs' Y (R ⊎ {[+ p +]}) pd /\ same_versions Y vs vs' /\ compact_pointer_ vs' = compact_pointer_ vs /\
  vs_store vs' = vs_store vs.
Proof.
  intros Hc Hp. destruct (proj1 (co_live _ _ _ _ Hc p) Hp) as [[o E] _].
  unfold Version_Ref. erewrite on_version_Some; [|exact E|reflexivity]. eexists. split; [done|].
  split; [|split; [by apply same_versions_refs|done]]. pose proof (co_counts _ _ _ _ Hc p o E) as Hn.
  apply (core_update vs Y R); [done|done|done| | |].
  - cbn. rewrite Hn, multiplicity_disj_union, multiplicity_singleton_eq. lia.
  - intros q Hq. rewrite multiplicity_disj_union, multiplicity_singleton_ne by done. lia.
  - multiset_solver.
Qed.

(** A version [p] that is about to be freed: nothing references it. *)
Record doomed (vs : VersionSet) (Y R : gmultiset Z) (pending : option Z) (p : Z) : Prop := {
  do_refs : file_refs (st_files (vs_store vs)) (mset (owned (vs_objects vs)) ⊎ Y);
  do_addr : forall a, a ∈ mset (owned (vs_objects vs)) ⊎ Y -> 0 < a < st_next (vs_store vs);
  do_fresh : forall p, is_Some (vs_objects vs !! p) -> 0 < p < vs_fresh vs;
  do_next : 0 < vs_fresh vs /\ 0 < st_next (vs_store vs);
  do_nodup : NoDup (dummy_versions_ vs);
  do_unused : p ∉ R;
  do_listed : forall q, q <> p -> q ∈ dummy_versions_ vs <-> q ∈ R;
  do_live : forall q, q <> p -> q ∈ R <-> is_Some (vs_objects vs !! q) /\ pending <> Some q;
  do_counts : forall q o, q <> p -> vs_objects vs !! q = Some o -> v_refs (vo_version o) = Z.of_nat (multiplicity q R);
  do_pending : forall q, pending = Some q -> q <> p /\ is_Some (vs_objects vs !! q);
}.
Lemma doomed_destroy vs Y R pd p o : doomed vs Y R pd p -> vs_objects vs !! p = Some o -> v_refs (vo_version o) = 0 ->
  exists vs', Version_destroy vs p = Some vs' /\
    core vs' Y R pd /\ same_versions Y vs vs' /\ vs_objects vs' = delete p (vs_objects vs) /\
    compact_pointer_ vs' = compact_pointer_ vs.
Proof.
  intros [H1 H2 H3 H4 H5 HpR H6 H7 H8 H9] E Hr.
  pose proof (owned_delete _ p o E) as Ho. rewrite Ho in H1.
  destruct (drop_files_refs (all_files (vo_version o)) _ _ H1) as (h' & Eh & _ & Hh & Hs).
  { rewrite list_to_set_disj_app. multiset_solver. }
  rewrite list_to_set_disj_app in Hh, Hs.
  replace ((mset (all_files (vo_version o)) ⊎ mset (owned (delete p (vs_objects vs))) ⊎ Y) ∖ mset (all_files (vo_version o)))
    with (mset (owned (delete p (vs_objects vs))) ⊎ Y) in Hh, Hs by multiset_solver.
  unfold Version_destroy. rewrite E. cbn [mbind option_bind]. rewrite Hr. cbn [Z.eqb negb].
  change (concat (at_level (files_ (vo_version o)) <$> levels)) with (all_files (vo_version o)). rewrite Eh.
  eexists. split; [done|].
  split; [|split; [split|done]]; cbn [set_objects vs_objects vs_store st_files set_files vs_fresh dummy_versions_ st_next].
  - split; cbn [set_objects vs_objects vs_store st_files set_files vs_fresh dummy_versions_ st_next]; [done| | |done| | | | |].
    + intros a Ha. apply H2. rewrite Ho, list_to_set_disj_app. multiset_solver.
    + intros q [x Hx]. apply lookup_delete_Some in Hx as [_ Hx]. apply H3. by exists x.
    + by apply NoDup_filter.
    + intros q. rewrite list_elem_of_filter. destruct (decide (q = p)) as [->|Hne]; [naive_solver|].
      rewrite H6 by done. naive_solver.
    + intros q. destruct (decide (q = p)) as [->|Hne].
      * rewrite lookup_delete_eq. split; [done|by intros [[? ?] _]].
      * by rewrite lookup_delete_ne, H7.
    + intros q o' [Hne E']%lookup_delete_Some. by apply H8.
    + intros q [Hne Hx]%H9. by rewrite lookup_delete_ne.
  - intros q o' [_ E']%lookup_delete_Some. exists o', (v_refs (vo_version o')). split; [done|]. by destruct (vo_version o').
  - split; [lia|exact Hs].
  - done.
Qed.
(** The version being prepared is freed when the manifest cannot be written. *)
Lemma core_destroy_pending vs Y R p : core vs Y R (Some p) ->
  exists vs', Version_destroy vs p = Some vs' /\
    core vs' Y R None /\ same_versions Y vs vs' /\ vs_objects vs' = delete p (vs_objects vs) /\
    compact_pointer_ vs' = compact_pointer_ vs.
Proof.
  intros Hc. destruct (co_pending _ _ _ _ Hc p eq_refl) as [o E]. assert (p ∉ R) as HpR by (rewrite (co_live _ _ _ _ Hc); tauto).
  apply (doomed_destroy vs Y R None p o); [|done|].
  - destruct Hc as [H1 H2 H3 H4 H5 H6 H7 H8 H9]. split; try done.
    + intros q Hne. rewrite H7. naive_solver.
    + intros q o' Hne. apply H8.
  - rewrite (co_counts _ _ _ _ Hc p o E). rewrite elem_of_multiplicity in HpR. lia.
Qed.
Lemma same_versions_owned Y vs vs' a : same_versions Y vs vs' -> a ∈ owned (vs_objects vs') -> a ∈ owned (vs_objects vs).
Proof.
  intros [H _ _]. rewrite !elem_of_owned. intros (p & o' & E' & Ha). destruct (H p o' E') as (o & n & E & Eo).
  exists p, o. split; [done|]. by rewrite Eo in Ha.
Qed.
Lemma same_versions_sub Y Y' vs vs' : Y' ⊆ Y -> same_versions Y vs vs' -> same_versions Y' vs vs'.
Proof. intros Hs [H1 [H2 H3] H4]. split; [done|split; [done|]|done]. eapply same_on_sub, H3. multiset_solver. Qed.
Lemma same_versions_trans Y vs vs' vs'' : same_versions Y vs vs' -> same_versions Y vs' vs'' -> same_versions Y vs vs''.
Proof.
  intros HA HB. pose proof (fun a => same_versions_owned Y vs' vs'' a HB) as Hsub.
  destruct HA as [A1 [A2 A3] A4], HB as [B1 [B2 B3] B4]. split.
  - intros q o'' (o' & n & E' & Ev')%B1. destruct (A1 q o' E') as (o & m & E & Ev). exists o, n. split; [done|].
    by rewrite Ev', Ev.
  - split; [lia|]. intros a Ha. rewrite (A3 a), (B3 a); [done|done|].
    rewrite gmultiset_elem_of_disj_union, elem_of_mset in *. naive_solver.
  - decompose [and] A4. decompose [and] B4. split_and!; congruence.
Qed.
Lemma core_Unref vs Y R pd p : core vs Y R pd -> p ∈ R -> exists vs', Version_Unref vs p = Some vs' /\
  core vs' Y (R ∖ {[+ p +]}) pd /\ same_versions Y vs vs' /\ compact_pointer_ vs' = compact_pointer_ vs /\
  forall q, q <> p -> vs_objects vs' !! q = vs_objects vs !! q.
Proof.
  intros Hc Hp. destruct (proj1 (co_live _ _ _ _ Hc p) Hp) as [[o E] Hpd]. unfold Version_Unref. rewrite E. cbn [mbind option_bind].
  pose proof (co_counts _ _ _ _ Hc p o E) as Hn. pose proof Hp as Hm. rewrite elem_of_multiplicity in Hm.
  rewrite (proj2 (Z.ltb_ge _ _)) by lia. erewrite on_version_Some; [|exact E|reflexivity]. cbn [mbind option_bind].
  set (n := v_refs (vo_version o)) in *. set (vs1 := set_objects vs _ _ _).
  pose proof (same_versions_refs Y vs p o (n - 1) E) as Hs1. fold vs1 in Hs1.
  assert (forall q, q <> p -> multiplicity q (R ∖ {[+ p +]}) = multiplicity q R) as Hq.
  { intros q Hne. rewrite multiplicity_difference, multiplicity_singleton_ne by done. lia. }
  destruct (Z.eqb_spec (n - 1) 0) as [H0|H0].
  - assert (p ∉ R ∖ {[+ p +]}) as HpR.
    { rewrite elem_of_multiplicity, multiplicity_difference, multiplicity_singleton_eq. lia. }
    destruct (doomed_destroy vs1 Y (R ∖ {[+ p +]}) pd p (with_version o (set_v_refs (vo_version o) (n - 1))))
      as (vs' & E' & Hc' & Hs' & Ho' & Hp').
    { destruct Hc as [H1 H2 H3 H4 H5 H6 H7 H8 H9].
      pose proof (owned_update (vs_objects vs) p o (with_version o (set_v_refs (vo_version o) (n - 1))) E eq_refl) as Ho.
      split; unfold vs1; cbn [set_objects vs_objects vs_store vs_fresh dummy_versions_]; try done.
      - by rewrite Ho.
      - intros a. rewrite Ho. apply H2.
      - intros q Hx. apply lookup_update in Hx; [by apply H3|by eexists].
      - intros q Hne. by rewrite H6, !elem_of_multiplicity, Hq.
      - intros q Hne. rewrite lookup_insert_ne by done. rewrite <- H7. by rewrite !elem_of_multiplicity, Hq.
      - intros q o' Hne. rewrite lookup_insert_ne by done. rewrite Hq by done. apply H8.
      - intros q Hx. assert (q <> p) as Hne by congruence. split; [done|]. rewrite lookup_insert_ne by done. by apply H9. }
    { apply lookup_insert_eq. } { done. }
    exists vs'. split; [done|]. split; [done|]. split; [by eapply same_versions_trans|]. split; [done|].
    intros q Hne. rewrite Ho', lookup_delete_ne by done. unfold vs1. cbn. by rewrite lookup_insert_ne.
  - exists vs1. split; [done|].
    split; [|split_and!; [done|done|]; intros q Hne; unfold vs1; cbn; by rewrite lookup_insert_ne].
    apply (core_update vs Y R); [done|done|done| |done|].
    + cbn. rewrite multiplicity_difference, multiplicity_singleton_eq. lia.
    + rewrite !elem_of_multiplicity, multiplicity_difference, multiplicity_singleton_eq. lia.
Qed.

(** ** Records can always be written *)

Section EmitTotal.
Context {F : Type} {HF : ConcurrentWritableFile F}.
Lemma u64_aligned x : x mod kBlockSize = 0 -> u64 x mod kBlockSize = 0.
Proof.
  intros H. unfold u64. change kBlockSize with 32768 in *. pose proof (Z.div_mod x (2 ^ 64) ltac:(lia)).
  replace (x mod 2 ^ 64) with (x + (- (x / 2 ^ 64) * 2 ^ 49) * 32768) by lia. by rewrite Z.mod_add by lia.
Qed.
(** A round ends the loop, or the next one starts a block with less data. *)
Lemma emit_loop_total fuel : forall dest begin off data,
  (length data + (if decide ((off mod kBlockSize)%Z = 0%Z) then 1 else 2) <= fuel)%nat ->
  exists r, Writer.emit_loop fuel dest begin off data = Some r.
Proof.
  induction fuel as [|fuel IH]; intros dest begin off data Hf; [destruct (decide _); lia|].
  cbn [Writer.emit_loop]. rewrite land_block. pose proof (Z.mod_pos_bound off kBlockSize ltac:(done)) as Hb.
  set (bo := off mod kBlockSize) in *.
  assert (exists dest' bo' off', (if kBlockSize - bo <? kHeaderSize then
      (fst (WriteAt dest off (replicate (Z.to_nat (kBlockSize - bo)) 0)), 0, u64 (off + (kBlockSize - bo)))
    else (dest, bo, off)) = (dest', bo', off') /\ 0 <= bo' <= kBlockSize - kHeaderSize /\
    (off' - bo') mod kBlockSize = 0 /\ (bo' = kBlockSize - kHeaderSize -> bo <> 0))
    as (dest' & bo' & off' & -> & Hbo & Hal & Hz).
  { destruct (Z.ltb_spec (kBlockSize - bo) kHeaderSize) as [Hl|Hl].
    - eexists _, _, _. split; [done|]. split; [done|]. split; [|done]. rewrite Z.sub_0_r. apply u64_aligned.
      replace (off + (kBlockSize - bo)) with (off - bo + 1 * kBlockSize) by lia. rewrite Z.mod_add by done.
      unfold bo. by rewrite Zminus_mod_idemp_r, Z.sub_diag.
    - exists dest, bo, off. split; [done|]. split; [lia|]. split; [|unfold kBlockSize, kHeaderSize; lia].
      unfold bo. by rewrite Zminus_mod_idemp_r, Z.sub_diag. }
  set (fl := if blen data <? kBlockSize - bo' - kHeaderSize then blen data else kBlockSize - bo' - kHeaderSize).
  destruct (Writer.EmitPhysicalRecordAt dest' _ _ off') as [dest2 s].
  destruct (ok s && (0 <? blen (drop (Z.to_nat fl) data))) eqn:Eg; [|by eexists].
  apply andb_true_iff in Eg as [_ Eg%Z.ltb_lt]. unfold blen in Eg. rewrite length_drop in Eg.
  unfold fl in Eg |- *. destruct (Z.ltb_spec (blen data) (kBlockSize - bo' - kHeaderSize)) as [Hs|Hs].
  { unfold blen in Eg. lia. }
  apply IH. rewrite length_drop, decide_True.
  - unfold kBlockSize, kHeaderSize in *. destruct (decide (bo = 0)); [|unfold blen in *; lia].
    assert (bo' <> 32768 - 7) by (intros ->; by apply Hz). unfold blen in *. lia.
  - apply u64_aligned. replace (off' + kHeaderSize + (kBlockSize - bo' - kHeaderSize)) with (off' - bo' + 1 * kBlockSize) by lia.
    by rewrite Z.mod_add.
Qed.
Lemma AddRecord_total dest off data : exists r, Writer.AddRecord dest off data = Some r.
Proof.
  unfold Writer.AddRecord. destruct (emit_loop_total (Writer.emit_fuel data) dest true off data) as [[dest' s] ->]; [|by eexists].
  unfold Writer.emit_fuel. destruct (decide _); lia.
Qed.
End EmitTotal.

(** ** Versions under changes of the store *)

(** The end of a builder. *)
Lemma core_builder_destroy vs Y R pd b cp : core vs (Y ⊎ mset (builder_files b)) R pd ->
  core (set_pointers vs (Builder_destroy b (vs_store vs)) cp) Y R pd /\
  same_versions Y vs (set_pointers vs (Builder_destroy b (vs_store vs)) cp).
Proof.
  intros [H1 H2 H3 H4 H5 H6 H7 H8 H9]. rewrite (assoc_L (⊎)) in H1.
  destruct (Builder_destroy_refs b (vs_store vs) _ H1) as (Hr & Hn & Hs). split.
  - split; try done. intros a Ha. cbn [set_pointers vs_store]. rewrite Hn. apply H2. cbn in Ha. multiset_solver.
  - split; [|split|done].
    + intros q o' E'. exists o', (v_refs (vo_version o')). split; [done|]. by destruct (vo_version o').
    + cbn. lia.
    + exact Hs.
Qed.

(** ** Making a version current *)

Lemma core_install vs Y R p o l : core vs Y R (Some p) -> vs_objects vs !! p = Some o -> l = dummy_versions_ vs ++ [p] ->
  core (set_objects vs (vs_store vs) (<[p := with_version o (set_v_refs (vo_version o) (v_refs (vo_version o) + 1))]>
    (vs_objects vs)) l) Y (R ⊎ {[+ p +]}) None.
Proof.
  intros Hco E ->. assert (p ∉ R) as HpR by (rewrite (co_live _ _ _ _ Hco); tauto).
  assert (forall q, q <> p -> multiplicity q (R ⊎ {[+ p +]}) = multiplicity q R) as Hq.
  { intros q Hne. rewrite multiplicity_disj_union, multiplicity_singleton_ne by done. lia. }
  assert (v_refs (vo_version o) = 0) as H0.
  { rewrite (co_counts _ _ _ _ Hco p o E). rewrite elem_of_multiplicity in HpR. lia. }
  destruct Hco as [H1 H2 H3 H4 H5 H6 H7 H8 H9].
  pose proof (owned_update (vs_objects vs) p o
    (with_version o (set_v_refs (vo_version o) (v_refs (vo_version o) + 1))) E eq_refl) as Ho.
  split; cbn [set_objects vs_store vs_objects vs_fresh dummy_versions_]; [by rewrite Ho|intros a; rewrite Ho; apply H2| |done| | | | |done].
  - intros q Hx. apply lookup_update in Hx; [by apply H3|by eexists].
  - apply NoDup_app. split; [done|]. split; [|apply NoDup_singleton]. intros q Hin ->%list_elem_of_singleton.
    by apply H6 in Hin.
  - intros q. rewrite elem_of_app, list_elem_of_singleton, H6. multiset_solver.
  - intros q. rewrite lookup_update by by eexists. rewrite gmultiset_elem_of_disj_union, gmultiset_elem_of_singleton, H7.
    split; [|intros [Hx _]].
    + intros [[Hx _]| ->]; [done|]. split; [by eexists|done].
    + destruct (decide (q = p)); [by right|left]. split; [done|congruence].
  - intros q o' E'. destruct (decide (p = q)) as [<-|Hne].
    + rewrite lookup_insert_eq in E'. injection E' as <-. cbn. rewrite H0, multiplicity_disj_union, multiplicity_singleton_eq.
      rewrite elem_of_multiplicity in HpR. lia.
    + rewrite lookup_insert_ne in E' by done. rewrite Hq by done. by apply H8.
Qed.
Lemma set_current_core vs p Y R pd : core (set_current vs p) Y R pd <-> core vs Y R pd.
Proof. split; intros []; by split. Qed.
Lemma AppendVersion_ok vs Y R p : core vs Y (R ⊎ {[+ current_ vs +]}) (Some p) ->
  exists vs', AppendVersion vs p = Some vs' /\ core vs' Y (R ⊎ {[+ p +]}) None /\ current_ vs' = p /\
    compact_pointer_ vs' = compact_pointer_ vs /\ same_versions Y vs (set_current vs' (current_ vs)).
Proof.
  intros Hco. destruct (co_pending _ _ _ _ Hco p eq_refl) as [o E].
  assert (current_ vs <> 0) as Hne.
  { destruct (proj1 (co_live _ _ _ _ Hco (current_ vs)) ltac:(multiset_solver)) as [Hx _].
    apply (co_fresh _ _ _ _ Hco) in Hx. lia. }
  unfold AppendVersion. rewrite E. cbn [mbind option_bind].
  assert (p ∉ R ⊎ {[+ current_ vs +]}) as HpR by (rewrite (co_live _ _ _ _ Hco); tauto).
  assert (v_refs (vo_version o) = 0) as H0.
  { rewrite (co_counts _ _ _ _ Hco p o E). rewrite elem_of_multiplicity in HpR. lia. }
  rewrite H0. cbn [Z.eqb negb orb]. rewrite (proj2 (Z.eqb_neq p (current_ vs))) by multiset_solver.
  rewrite (proj2 (Z.eqb_neq (current_ vs) 0)) by done.
  destruct (core_Unref vs Y _ (Some p) (current_ vs) Hco ltac:(multiset_solver)) as (vs1 & -> & Hc1 & Hs1 & Hp1 & Ho1).
  cbn [mbind option_bind]. replace ((R ⊎ {[+ current_ vs +]}) ∖ {[+ current_ vs +]}) with R in Hc1 by multiset_solver.
  assert (vs_objects vs1 !! p = Some o) as E1 by (rewrite Ho1 by multiset_solver; done).
  unfold Version_Ref. erewrite on_version_Some; [|exact E1|reflexivity]. cbn [mbind option_bind]. eexists. split; [done|].
  split; [|split_and!; [done|done|]].
  - eapply (core_install (set_current vs1 p)); [by apply set_current_core|done|done].
  - eapply same_versions_trans; [exact Hs1|].
    pose proof (same_versions_refs Y vs1 p o (v_refs (vo_version o) + 1) E1) as [S1 S2 S3].
    split; [exact S1|exact S2|]. cbn. decompose [and] (sm_rest _ _ _ Hs1). split_and!; congruence.
Qed.

Section Vset.
Context (ucmp : Comparator) (Hc : ComparatorOk ucmp bytes_ok) (Hid : cmp_identity ucmp).
Context (garbage : list SpecFloat.spec_float).

Lemma finfo_local h h' a : finfo (deref h a) = finfo (deref h' a) -> file_pair h a = file_pair h' a.
Proof. unfold finfo, file_pair, file_info. congruence. Qed.
Lemma level_inv_local st st' l : st_next st <= st_next st' ->
  (forall a, a ∈ l -> finfo (deref (st_files st) a) = finfo (deref (st_files st') a)) ->
  level_inv ucmp st LevelState_new l -> level_inv ucmp st' LevelState_new l.
Proof.
  intros Hn Hs [Ha Hnum Hk _ Hb]. cbn [LevelState_new ls_added_files app] in *.
  split; cbn [LevelState_new ls_added_files app].
  - intros a Hin. specialize (Ha a Hin). lia.
  - erewrite list_fmap_ext; [exact Hnum|]. intros i a Hi%list_elem_of_lookup_2. specialize (Hs a Hi). unfold finfo in Hs. congruence.
  - rewrite Forall_forall in *. intros a Hin. specialize (Hs a Hin). destruct (Hk a Hin). unfold finfo in Hs.
    split; congruence.
  - constructor.
  - eapply sorted_ext; [|exact Hb]. intros a b Hia Hib. unfold ord_le, file_before, BySmallestKey.
    pose proof (Hs a Hia) as H1. pose proof (Hs b Hib) as H2. unfold finfo in H1, H2.
    injection H1 as -> _ -> _. injection H2 as -> _ -> _. done.
Qed.
Lemma version_inv_local st st' v : st_next st <= st_next st' ->
  same_on (mset (all_files v)) (st_files st) (st_files st') -> version_inv ucmp st v -> version_inv ucmp st' v.
Proof.
  intros Hn Hs [H1 H2 H3 H4]. split; [lia|done| |done]. intros L HL. eapply level_inv_local; [done| |by apply H3].
  intros a Ha. apply Hs. rewrite elem_of_mset. apply all_files_spec. by exists L.
Qed.
Lemma abs_version_local h h' v L : L ∈ levels -> same_on (mset (all_files v)) h h' -> abs_version h v L = abs_version h' v L.
Proof.
  intros HL Hs. unfold abs_version, abs_files. f_equal. apply list_fmap_ext. intros i a Ha%list_elem_of_lookup_2.
  apply finfo_local, Hs. rewrite elem_of_mset. apply all_files_spec. by exists L.
Qed.
Lemma version_inv_refs st v n : version_inv ucmp st v -> version_inv ucmp st (set_v_refs v n).
Proof.
  intros [H1 [W1 W2 W3 W4 W5] H3 H4]. split; [done|by split|exact H3|]. intros L HL. destruct (H4 L HL). by split.
Qed.
(** The version at an address stays what it is. *)
Lemma same_versions_inv Y vs vs' q o o' : same_versions Y vs vs' -> vs_objects vs' !! q = Some o' ->
  vs_objects vs !! q = Some o -> version_inv ucmp (vs_store vs) (vo_version o) ->
  version_inv ucmp (vs_store vs') (vo_version o').
Proof.
  intros [S1 [S2 S3] _] E' E H. destruct (S1 q o' E') as (o0 & n & E0 & ->). assert (o0 = o) as -> by congruence.
  apply version_inv_refs. eapply version_inv_local; [done| |exact H]. intros a Ha. apply S3.
  apply gmultiset_elem_of_disj_union. left. rewrite elem_of_mset in *. eapply owned_elem; [exact E'|].
  destruct (S1 q o' E') as (o1 & m & E1 & ->). assert (o1 = o) as -> by congruence. done.
Qed.

(** ** Building the next version *)

Lemma apply_one_edit es st cp b : apply_all ucmp [es] (st, cp, b) = Apply ucmp st cp b es.
Proof. unfold apply_all. cbn. by destruct (Apply ucmp st cp b es). Qed.
Lemma set_pointers_objects vs st cp : vs_objects (set_pointers vs st cp) = vs_objects vs.
Proof. done. Qed.

(** What [SaveTo] makes of the edit. *)
Definition saved_edit (base : Version) (edit : VersionEdit) : VersionEdit :=
  default edit (fold_left (fun e L => edit_complete ucmp base L e) levels (Some edit)).
(** Edits applied by a new builder and saved, on a set that holds the base version: the
    new version and the builder have their references. *)
Lemma saved_core vs R pd p o es e : core vs ∅ R pd -> vs_objects vs !! p = Some o ->
  version_inv ucmp (vs_store vs) (vo_version o) -> Forall edit_applies es ->
  fresh_edits (st_files (vs_store vs)) Builder_new (vo_version o) es ->
  exists st' cp' b h' v e', apply_all ucmp es (vs_store vs, compact_pointer_ vs, Builder_new) = Some (st', cp', b) /\
    SaveTo ucmp b (vo_version o) st' Version_new e = (set_files st' h', v, e') /\
    core (set_pointers vs (set_files st' h') cp') (mset (all_files v) ⊎ mset (builder_files b)) R pd /\
    same_versions ∅ vs (set_pointers vs (set_files st' h') cp') /\
    version_inv ucmp (set_files st' h') v /\ v_refs v = 0 /\
    forall L, L ∈ levels ->
      abs_version h' v L = spec_edits es L (abs_version (st_files (vs_store vs)) (vo_version o) L) /\
      guard_keys (at_level (guards_ v) L) = edits_guards es L ∪ guard_keys (at_level (guards_ (vo_version o)) L).
Proof.
  intros Hco E Hv He Hf.
  destruct (edits_saved ucmp Hc Hid es (vs_store vs) (compact_pointer_ vs) (vo_version o) e Hv He Hf)
    as (st' & cp' & b & h' & v & e' & Ha & (_ & Hb & Hbi) & Hg & Hk & Hs & Hi & Hv' & Hr & Hrefs & H).
  exists st', cp', b, h', v, e'. split; [done|]. split; [done|].
  set (X := mset (owned (vs_objects vs))).
  assert (file_refs (st_files (vs_store vs)) X /\ forall a, a ∈ X -> 0 < a < st_next (vs_store vs)) as [HX HXa].
  { destruct Hco as [H1 H2 _ _ _ _ _ _ _]. fold X in H1, H2. by replace (X ⊎ ∅) with X in H1, H2 by multiset_solver. }
  assert (mset (all_files (vo_version o)) ⊆ X) as Hsub.
  { unfold X. rewrite (owned_delete _ _ _ E), list_to_set_disj_app. multiset_solver. }
  specialize (Hrefs X ltac:(intros a Hx; apply HXa in Hx; lia) Hsub HX). destruct Hg as [Hg1 Hg2].
  split_and!; [| |done|done|].
  - destruct Hco as [H1 H2 H3 H4 H5 H6 H7 H8 H9]. split; try done.
    + cbn. fold X. by rewrite (assoc_L (⊎)).
    + intros a. rewrite !gmultiset_elem_of_disj_union, !elem_of_mset. cbn. intros [Ha'|[Ha'|Ha']].
      * unfold X in HXa. specialize (HXa a). rewrite elem_of_mset in HXa. specialize (HXa Ha'). lia.
      * apply all_files_spec in Ha' as (L & HL & Ha'). exact (li_addr _ _ _ _ (vi_files _ _ _ Hv' L HL) a Ha').
      * destruct (builder_files_elem b a Hb Ha') as (L & HL & Hal). destruct (Hbi L HL) as [Hli _].
        apply (li_addr _ _ _ _ Hli). apply elem_of_app. by left.
    + cbn. destruct H4. lia.
  - split; [|split|done].
    + intros q o' E'. exists o', (v_refs (vo_version o')). split; [done|]. by destruct (vo_version o').
    + done.
    + intros a Ha'. replace (mset (owned (vs_objects (set_pointers vs (set_files st' h') cp'))) ⊎ ∅) with X in Ha'
        by (unfold X; cbn; multiset_solver). cbn. rewrite <- (Hi a). unfold finfo. by rewrite (Hg2 a) by by apply HXa.
  - intros L HL. by destruct (H L HL) as (? & ? & _).
Qed.
Lemma build_version_ok vs R o edit : core vs ∅ R None -> current_ vs ∈ R -> vs_objects vs !! current_ vs = Some o ->
  version_inv ucmp (vs_store vs) (vo_version o) -> edit_applies edit ->
  fresh_edits (st_files (vs_store vs)) Builder_new (vo_version o) [edit] ->
  exists vs' v, build_version ucmp vs edit = Some (vs', v, saved_edit (vo_version o) edit) /\
    core vs' (mset (all_files v)) R None /\ same_versions ∅ vs vs' /\
    version_inv ucmp (vs_store vs') v /\ v_refs v = 0 /\
    forall L, L ∈ levels ->
      abs_version (st_files (vs_store vs')) v L = spec_edit edit L (abs_version (st_files (vs_store vs)) (vo_version o) L) /\
      guard_keys (at_level (guards_ v) L) = edits_guards [edit] L ∪ guard_keys (at_level (guards_ (vo_version o)) L).
Proof.
  intros Hco Hcur E Hv He Hf. unfold build_version.
  destruct (core_Ref vs ∅ R None (current_ vs) Hco Hcur) as (vs1 & -> & Hc1 & Hs1 & Hp1 & Est). cbn [mbind option_bind].
  destruct (proj1 (co_live _ _ _ _ Hc1 (current_ vs)) ltac:(multiset_solver)) as [[o1 E1] _]. rewrite E1. cbn [mbind option_bind].
  destruct (sm_objects _ _ _ Hs1 _ _ E1) as (o0 & n & E0 & Eo). assert (o0 = o) as -> by congruence.
  destruct (saved_core vs1 _ None _ o1 [edit] (Some edit) Hc1 E1)
    as (st' & cp' & b & h' & v & e' & Ha & Hs & Hc2 & Hs12 & Hv' & Hr & H);
    [by eapply same_versions_inv|by constructor|by rewrite Est, Eo|].
  rewrite apply_one_edit in Ha. rewrite Ha. cbn [mbind option_bind]. rewrite Hs.
  assert (default edit e' = saved_edit (vo_version o) edit) as ->.
  { destruct (SaveTo_spec ucmp b (vo_version o1) st' (Some edit)) as (v0 & Es & _). rewrite Hs in Es.
    injection Es as _ _ ->. by rewrite Eo. }
  destruct (core_builder_destroy _ _ _ _ _ cp' Hc2) as [Hc3 Hs23].
  change (set_pointers (set_pointers vs1 (set_files st' h') cp') _ cp')
    with (set_pointers vs1 (Builder_destroy b (set_files st' h')) cp') in Hc3, Hs23.
  destruct (core_Unref _ _ _ None (current_ vs) Hc3 ltac:(multiset_solver)) as (vs3 & -> & Hc4 & Hs34 & _).
  cbn [mbind option_bind]. exists vs3, v. split; [done|].
  assert ((R ⊎ {[+ current_ vs +]}) ∖ {[+ current_ vs +]} = R) as ER by multiset_solver. rewrite ER in Hc4.
  pose proof (same_versions_trans _ _ _ _ Hs23 Hs34) as Hs24.
  assert (same_on (mset (all_files v)) h' (st_files (vs_store vs3))) as Hson.
  { destruct Hs24 as [_ [_ Hx] _]. eapply same_on_sub; [|exact Hx]. multiset_solver. }
  split; [done|]. split_and!.
  - eapply same_versions_trans; [exact Hs1|]. eapply same_versions_trans; [exact Hs12|].
    eapply same_versions_sub, Hs24. multiset_solver.
  - apply (version_inv_local (set_files st' h')); [apply (sm_store _ _ _ Hs24)|exact Hson|exact Hv'].
  - done.
  - intros L HL. rewrite <- (abs_version_local h' _ v L HL Hson). destruct (H L HL) as [-> ->]. by rewrite Est, Eo.
Qed.

(** ** Guards added in memory *)

Abbreviation gvalid := (fun g => bytes_ok (guard_user_key g)).
(** [cg] has more complete guards than [v], at the end of each level. *)
Definition more_guards (v : Version) (cg : list (list GuardMetaData)) : Prop :=
  blen cg = kNumLevels /\ forall L, L ∈ levels -> exists l,
    at_level cg L = at_level (complete_guards_ v) L ++ l /\ Forall gvalid l.
Lemma version_inv_guards st v cg : more_guards v cg -> version_inv ucmp st v -> version_inv ucmp st (set_complete_guards v cg).
Proof.
  intros [Hl Hm] [H1 [W1 W2 W3 W4 W5] H3 H4]. split; [done|by split|exact H3|]. intros L HL.
  destruct (Hm L HL) as (l & El & Hv). destruct (H4 L HL) as [G1 G2 G3 (num & En & Hn & Hs)].
  split; [done|done| |]; cbn [set_complete_guards complete_guards_ num_complete_guards_]; rewrite El.
  - by apply Forall_app.
  - exists num. split; [done|]. split; [rewrite blen_app; pose proof (blen_nonneg l); lia|].
    rewrite take_app_le by (unfold blen in Hn; lia). done.
Qed.
Lemma push_guards v L g : blen (complete_guards_ v) = kNumLevels -> L ∈ levels -> gvalid g ->
  more_guards v (push_at (complete_guards_ v) L g).
Proof.
  intros Hb HL%levels_range Hg. split; [by rewrite blen_push|]. intros L' HL'%levels_range.
  rewrite at_level_push by lia. destruct (decide (L' = L)); [by exists [g]; split; [|by constructor]|].
  exists []. by rewrite app_nil_r.
Qed.
(** The guards that [la_install] copies. *)
Definition add_deltas (v : Version) (added : list (Z * list GuardMetaData)) : Version :=
  fold_left (fun v p => set_complete_guards v (set_level (complete_guards_ v) (fst p)
    (at_level (complete_guards_ v) (fst p) ++ snd p))) added v.
Lemma add_deltas_spec added : forall v, NoDup (fst <$> added) -> (forall p, p ∈ added -> fst p ∈ levels) ->
  blen (complete_guards_ v) = kNumLevels ->
  exists cg, add_deltas v added = set_complete_guards v cg /\ blen cg = kNumLevels /\
    forall L, L ∈ levels -> at_level cg L = at_level (complete_guards_ v) L ++
      concat (snd <$> filter (fun p => fst p = L) added).
Proof.
  induction added as [|[L0 gs] added IH]; intros v Hnd Hin Hb; cbn [add_deltas fold_left].
  { exists (complete_guards_ v). split; [by destruct v|]. split; [done|]. intros L _. cbn. by rewrite app_nil_r. }
  apply NoDup_cons in Hnd as [Hn Hnd]. pose proof (Hin _ ltac:(by left)) as HL0%levels_range. cbn [fst snd] in *.
  set (v1 := set_complete_guards v _).
  destruct (IH v1 Hnd ltac:(intros; apply Hin; by right)) as (cg & E & Hcg & H).
  { unfold v1, blen, set_level in *. cbn. by rewrite length_insert. }
  exists cg. split; [exact E|]. split; [done|]. intros L HL. rewrite (H L HL). unfold v1. cbn [set_complete_guards complete_guards_].
  apply levels_range in HL. rewrite at_level_set by lia. rewrite filter_cons. cbn [fst].
  destruct (decide (L = L0)) as [->|Hne]; [rewrite decide_True by done|by rewrite decide_False by done].
  cbn. by rewrite <- app_assoc.
Qed.
Lemma filter_tagged {A} (f : Z -> list A) ls L : NoDup ls -> L ∈ ls ->
  concat (snd <$> filter (fun p => fst p = L) ((fun L => (L, f L)) <$> ls)) = f L.
Proof.
  induction ls as [|L0 ls IH]; intros Hnd HL; [by apply elem_of_nil in HL|]. apply NoDup_cons in Hnd as [Hn Hnd].
  cbn [fmap list_fmap]. rewrite filter_cons. cbn [fst]. destruct (decide (L0 = L)) as [->|Hne].
  - cbn. assert (filter (fun p : Z * list A => fst p = L) ((fun L => (L, f L)) <$> ls) = []) as ->; [|by rewrite app_nil_r].
    apply elem_of_nil_inv. intros p [E (L' & -> & HL')%list_elem_of_fmap]%list_elem_of_filter. cbn in E. congruence.
  - apply IH; [done|]. by apply elem_of_cons in HL as [->|].
Qed.
Lemma delta_guards_more v w sizes : blen (complete_guards_ v) = kNumLevels ->
  (forall L, L ∈ levels -> Forall gvalid (at_level (complete_guards_ w) L)) ->
  exists cg, add_deltas v ((fun L => (L, delta_guards w sizes L)) <$> levels) = set_complete_guards v cg /\
    more_guards v cg /\ forall L, L ∈ levels -> at_level cg L = at_level (complete_guards_ v) L ++ delta_guards w sizes L.
Proof.
  intros Hb Hw. destruct (add_deltas_spec ((fun L => (L, delta_guards w sizes L)) <$> levels) v) as (cg & E & Hl & H).
  - rewrite <- list_fmap_compose. cbn. rewrite list_fmap_id. apply levels_nodup.
  - by intros p (L & -> & HL)%list_elem_of_fmap.
  - done.
  - assert (forall L, L ∈ levels -> at_level cg L = at_level (complete_guards_ v) L ++ delta_guards w sizes L) as H'.
    { intros L HL. rewrite (H L HL). f_equal. by apply filter_tagged; [apply levels_nodup|]. }
    exists cg. split; [done|]. split; [|done]. split; [done|]. intros L HL. exists (delta_guards w sizes L).
    split; [by apply H'|]. unfold delta_guards. apply Forall_fmap, Forall_drop. exact (Hw L HL).
Qed.
End Vset.
