(* ===== verification/VersionSetSafety.v ===== *)
(** * Readers, writers and the set of versions

    The operations that threads perform on the set of versions, as steps of a state
    machine: [LogAndApply] in three steps (the mutex is released during the write of the
    manifest), readers that hold and release versions, writers that add guards and take
    file numbers.  Every sequence of steps that follows the rules is defined and keeps
    the reference counts exact. *)

From stdpp Require Import gmap gmultiset sorting.
From S2P Require Import Prelude Coding Status Comparator DbFormat Bloom LogFormat LogProofs.
From S2P Require Import VersionEdit FileName MemTable TableGet Version VersionProofs VersionGet VersionBuilder.
From S2P Require Import VersionBuilderProofs FileRefs VersionRefines VersionSet VersionSetProofs.
From stdpp Require Import list.
#[local] Open Scope Z_scope.

(** ** Lemmas on the steps *)

Lemma core_ext vs vs' Y R pd : vs_store vs' = vs_store vs -> vs_objects vs' = vs_objects vs ->
  vs_fresh vs' = vs_fresh vs -> dummy_versions_ vs' = dummy_versions_ vs -> core vs Y R pd -> core vs' Y R pd.
Proof. intros E1 E2 E3 E4 []. split; rewrite ?E1, ?E2, ?E3, ?E4; done. Qed.
(** A new version takes over the references to its files. *)
Lemma core_new vs Y R o : core vs (mset (all_files (vo_version o)) ⊎ Y) R None -> v_refs (vo_version o) = 0 ->
  core (fst (new_version vs o)) Y R (Some (vs_fresh vs)).
Proof.
  intros [H1 H2 H3 H4 H5 H6 H7 H8 H9] Hr.
  assert (vs_objects vs !! vs_fresh vs = None) as En.
  { destruct (vs_objects vs !! vs_fresh vs) eqn:E; [|done]. specialize (H3 (vs_fresh vs) ltac:(by eexists)). lia. }
  assert (vs_fresh vs ∉ R) as HnR by (rewrite H7, En; by intros [[? ?] _]).
  pose proof (owned_insert (vs_objects vs) (vs_fresh vs) o En) as Ho.
  assert (mset (owned (<[vs_fresh vs := o]> (vs_objects vs))) ⊎ Y =
    mset (owned (vs_objects vs)) ⊎ (mset (all_files (vo_version o)) ⊎ Y)) as EX.
  { rewrite Ho, list_to_set_disj_app. multiset_solver. }
  split; cbn [new_version fst vs_store vs_objects vs_fresh dummy_versions_].
  - by rewrite EX.
  - by rewrite EX.
  - intros p [x [[<- _]|[_ Hx]]%lookup_insert_Some]; [lia|]. specialize (H3 p ltac:(by eexists)). lia.
  - lia.
  - done.
  - done.
  - intros p. rewrite H7. destruct (decide (p = vs_fresh vs)) as [->|Hne].
    + rewrite En. split; [by intros [[? ?] _]|naive_solver].
    + rewrite lookup_insert_ne by done. naive_solver.
  - intros p o' [[<- <-]|[_ Hx]]%lookup_insert_Some; [|by apply H8]. rewrite Hr. rewrite elem_of_multiplicity in HnR. lia.
  - intros p [= <-]. rewrite lookup_insert_eq. by eexists.
Qed.

Section Safety.
Context (ucmp : Comparator) (Hc : ComparatorOk ucmp bytes_ok) (Hid : cmp_identity ucmp).
Context (cmp_name dbname : bytes) (garbage : list SpecFloat.spec_float).
Context {E F : Type} `{HE : Env E} `{HM : ManifestEnv E F}.

(** What [complete_edit] sets. *)
Definition log_number_ok (vs : VersionSet) (edit : VersionEdit) : Prop :=
  has_log_number_ edit = true ->
  log_number_ vs <= VersionEdit.log_number_ edit < next_file_number_ vs.
Definition same_changes (e e' : VersionEdit) : Prop :=
  compact_pointers_ e' = compact_pointers_ e /\ deleted_files_ e' = deleted_files_ e /\ new_files_ e' = new_files_ e /\
  new_guards_ e' = new_guards_ e /\ new_complete_guards_ e' = new_complete_guards_ e /\ deleted_guards_ e' = deleted_guards_ e.
Lemma complete_edit_ok vs edit : log_number_ok vs edit -> exists e, complete_edit vs edit = Some e /\ same_changes edit e.
Proof.
  intros Hl. unfold complete_edit. destruct (has_log_number_ edit) eqn:El.
  - destruct (Hl El) as [H1 H2]. rewrite (proj2 (Z.leb_le _ _) H1), (proj2 (Z.ltb_lt _ _) H2). cbn.
    eexists. split; [done|]. by destruct (has_prev_log_number_ edit).
  - cbn. eexists. split; [done|]. by destruct (has_prev_log_number_ edit).
Qed.
Lemma same_changes_applies e e' : same_changes e e' -> edit_applies e -> edit_applies e'.
Proof. intros (E1 & E2 & E3 & E4 & E5 & E6) []. split; by rewrite ?E1, ?E2, ?E3, ?E4, ?E5, ?E6. Qed.
Lemma same_changes_fresh h v e e' : same_changes e e' -> fresh_edits h Builder_new v [e] -> fresh_edits h Builder_new v [e'].
Proof.
  intros (_ & _ & En & _) H L HL. specialize (H L HL). unfold edits_new, edit_new in *. cbn in *. by rewrite En.
Qed.

(** ** The state machine *)

Inductive phase := Idle | Writing (pd : Pending) (s : Status) | Written (pd : Pending) (s : Status).
Record World := { w_env : E; w_vs : VersionSet; w_phase : phase; w_held : gmultiset Z }.
Inductive vop :=
  | OBegin (edit : VersionEdit) | OWrite | OFinish (file_numbers : list Z) (filters : list (option bytes))
  | OHold | ORelease (p : Z)
  | OGuard (level : Z) (g : GuardMetaData) | OStats (p : Z) (stats : GetStats)
  | ONumber | OReuse (n : Z) | OMark (n : Z) | OSequence (s : Z).
Definition set_vs (w : World) (vs : VersionSet) : World :=
  {| w_env := w_env w; w_vs := vs; w_phase := w_phase w; w_held := w_held w |}.
Definition update_stats (vs : VersionSet) (p : Z) (stats : GetStats) : option VersionSet :=
  o ← vs_objects vs !! p;
  let '(h, v, _) := UpdateStats (st_files (vs_store vs)) (vo_version o) stats in
  Some (set_objects vs (set_files (vs_store vs) h) (<[p := with_version o v]> (vs_objects vs)) (dummy_versions_ vs)).
Definition vrun (w : World) (op : vop) : option World :=
  let vs := w_vs w in
  match op with
  | OBegin edit =>
      match w_phase w with
      | Idle =>
          '(vs, pd) ← la_begin ucmp garbage vs edit;
          '(env, s, vs, pd) ← la_open cmp_name dbname (w_env w) vs pd;
          Some {| w_env := env; w_vs := vs; w_phase := Writing pd s; w_held := w_held w |}
      | _ => None
      end
  | OWrite =>
      match w_phase w with
      | Writing pd s =>
          '(env, s, vs) ← la_write dbname (w_env w) s vs pd;
          Some {| w_env := env; w_vs := vs; w_phase := Written pd s; w_held := w_held w |}
      | _ => None
      end
  | OFinish ns fs =>
      match w_phase w with
      | Written pd s =>
          '(env, vs) ← la_finish dbname (w_env w) s vs pd ns fs;
          Some {| w_env := env; w_vs := vs; w_phase := Idle; w_held := w_held w |}
      | _ => None
      end
  | OHold =>
      vs' ← Version_Ref vs (current_ vs);
      Some {| w_env := w_env w; w_vs := vs'; w_phase := w_phase w; w_held := {[+ current_ vs +]} ⊎ w_held w |}
  | ORelease p =>
      vs ← Version_Unref vs p;
      Some {| w_env := w_env w; w_vs := vs; w_phase := w_phase w; w_held := w_held w ∖ {[+ p +]} |}
  | OGuard level g => vs ← on_version vs (current_ vs) (fun v => AddToCompleteGuards v g level); Some (set_vs w vs)
  | OStats p stats => vs ← update_stats vs p stats; Some (set_vs w vs)
  | ONumber => Some (set_vs w (snd (NewFileNumber vs)))
  | OReuse n => Some (set_vs w (ReuseFileNumber vs n))
  | OMark n => Some (set_vs w (MarkFileNumberUsed vs n))
  | OSequence s => Some (set_vs w (SetLastSequence vs s))
  end.
(** The rules: one [LogAndApply] at a time, with an edit the builder can apply; readers
    release what they hold. *)
Definition allowed (w : World) (op : vop) : Prop :=
  let vs := w_vs w in
  match op with
  | OBegin edit => w_phase w = Idle /\ edit_applies edit /\ log_number_ok vs edit /\
      exists o, vs_objects vs !! current_ vs = Some o /\ fresh_edits (st_files (vs_store vs)) Builder_new (vo_version o) [edit]
  | OWrite => exists pd s, w_phase w = Writing pd s
  | OFinish _ _ => exists pd s, w_phase w = Written pd s
  | ORelease p => p ∈ w_held w
  | OGuard level g => level ∈ levels /\ bytes_ok (guard_user_key g)
  | OStats p stats => (p = current_ vs \/ p ∈ w_held w) /\ exists o, vs_objects vs !! p = Some o /\
      (seek_file stats = 0 \/ seek_file stats ∈ all_files (vo_version o))
  | _ => True
  end.
Fixpoint vruns (w : World) (ops : list vop) : option World :=
  match ops with [] => Some w | op :: ops => w ← vrun w op; vruns w ops end.
Fixpoint all_allowed (w : World) (ops : list vop) : Prop :=
  match ops with [] => True | op :: ops => allowed w op /\ forall w', vrun w op = Some w' -> all_allowed w' ops end.

Definition pending_of (ph : phase) : option Z :=
  match ph with Idle => None | Writing pd _ | Written pd _ => Some (pd_version pd) end.
Record winv (w : World) : Prop := {
  wi_core : core (w_vs w) ∅ (w_held w ⊎ {[+ current_ (w_vs w) +]}) (pending_of (w_phase w));
  wi_versions : forall p, p = current_ (w_vs w) \/ pending_of (w_phase w) = Some p ->
    exists o, vs_objects (w_vs w) !! p = Some o /\ version_inv ucmp (vs_store (w_vs w)) (vo_version o);
  wi_open : forall pd s, w_phase w = Writing pd s -> ok s = true -> is_Some (descriptor_log_ (w_vs w));
}.

(** Steps that only change counters. *)
Lemma versions_kept vs vs' Y Y' R pd : same_versions Y vs vs' -> core vs' Y' (R ⊎ {[+ current_ vs' +]}) pd ->
  current_ vs' = current_ vs ->
  (forall p, p = current_ vs \/ pd = Some p ->
     exists o, vs_objects vs !! p = Some o /\ version_inv ucmp (vs_store vs) (vo_version o)) ->
  forall p, p = current_ vs' \/ pd = Some p ->
    exists o, vs_objects vs' !! p = Some o /\ version_inv ucmp (vs_store vs') (vo_version o).
Proof.
  intros Hs Hco Ecur Hv p Hp.
  assert (is_Some (vs_objects vs' !! p)) as [o' E'].
  { destruct Hp as [->|Hp]; [|by apply (co_pending _ _ _ _ Hco)]. apply (co_live _ _ _ _ Hco). multiset_solver. }
  rewrite Ecur in Hp. destruct (Hv p Hp) as (o & Eo & Ho). exists o'. split; [done|].
  by eapply (same_versions_inv ucmp Y vs vs' p o o').
Qed.
Lemma winv_refs w vs' held' : winv w -> same_versions ∅ (w_vs w) vs' ->
  core vs' ∅ (held' ⊎ {[+ current_ vs' +]}) (pending_of (w_phase w)) ->
  winv {| w_env := w_env w; w_vs := vs'; w_phase := w_phase w; w_held := held' |}.
Proof.
  intros [H1 H2 H3] Hs Hco. destruct (sm_rest _ _ _ Hs) as (_ & Ecur & R). split; cbn [w_vs w_phase w_held]; [done| |].
  - eapply versions_kept; eauto.
  - intros pd s E1 E2. destruct R as (_ & _ & _ & _ & _ & _ & ->). by eapply H3.
Qed.
(** A version object is replaced by one with the same files, over a store that agrees. *)
Lemma winv_update w p o v h : winv w -> vs_objects (w_vs w) !! p = Some o -> all_files v = all_files (vo_version o) ->
  v_refs v = v_refs (vo_version o) ->
  (forall st, version_inv ucmp st (vo_version o) -> version_inv ucmp st v) ->
  file_refs h (mset (owned (vs_objects (w_vs w)))) -> same_on (mset (owned (vs_objects (w_vs w)))) (st_files (vs_store (w_vs w))) h ->
  winv (set_vs w (set_objects (w_vs w) (set_files (vs_store (w_vs w)) h)
    (<[p := with_version o v]> (vs_objects (w_vs w))) (dummy_versions_ (w_vs w)))).
Proof.
  intros [H1 H2 H3] E0 Ef Er Hvi Hr Hs. set (vs := w_vs w) in *. split; cbn [set_vs w_vs w_phase w_held].
  - pose proof (owned_update (vs_objects vs) p o (with_version o v) E0 Ef) as Ho.
    assert (core (set_objects vs (vs_store vs) (<[p := with_version o v]> (vs_objects vs)) (dummy_versions_ vs)) ∅
      (w_held w ⊎ {[+ current_ vs +]}) (pending_of (w_phase w))) as [C1 C2 C3 C4 C5 C6 C7 C8 C9].
    { apply (core_update vs ∅ (w_held w ⊎ {[+ current_ vs +]})); try done.
      rewrite Er. by apply (co_counts _ _ _ _ H1). }
    split; try done. cbn [set_objects vs_objects vs_store set_files st_files].
    replace (mset (owned (<[p:=with_version o v]> (vs_objects vs))) ⊎ ∅) with (mset (owned (vs_objects vs)))
      by (rewrite Ho; multiset_solver). done.
  - intros q Hq. destruct (H2 q Hq) as (o' & E' & Ho'). fold vs in E', Ho'. cbn [set_objects vs_objects vs_store].
    assert (version_inv ucmp (set_files (vs_store vs) h) (vo_version o')) as Hq'.
    { eapply version_inv_local; [|eapply same_on_sub, Hs|exact Ho']; [cbn; lia|].
      rewrite (owned_delete _ q o' E'), list_to_set_disj_app. multiset_solver. }
    destruct (decide (p = q)) as [<-|Hne].
    + rewrite lookup_insert_eq. eexists. split; [done|]. cbn. apply Hvi. by assert (o' = o) as <- by congruence.
    + rewrite lookup_insert_ne by done. by exists o'.
  - done.
Qed.

Lemma winv_ext w vs' : winv w -> vs_store vs' = vs_store (w_vs w) -> vs_objects vs' = vs_objects (w_vs w) ->
  vs_fresh vs' = vs_fresh (w_vs w) -> dummy_versions_ vs' = dummy_versions_ (w_vs w) -> current_ vs' = current_ (w_vs w) ->
  descriptor_log_ vs' = descriptor_log_ (w_vs w) -> winv (set_vs w vs').
Proof.
  intros [H1 H2 H3] E1 E2 E3 E4 E5 E6. split; cbn [set_vs w_vs w_phase w_held]; rewrite ?E1, ?E2, ?E5, ?E6; [|done|done].
  by eapply core_ext.
Qed.

(** *** Readers *)

Lemma hold_ok w : winv w -> exists w', vrun w OHold = Some w' /\ winv w'.
Proof.
  intros Hw. destruct (core_Ref _ _ _ _ (current_ (w_vs w)) (wi_core w Hw) ltac:(multiset_solver)) as (vs' & Er & Hco & Hs & _).
  cbn [vrun]. rewrite Er. cbn [mbind option_bind]. eexists. split; [done|]. apply winv_refs; [done|done|].
  destruct (sm_rest _ _ _ Hs) as (_ & -> & _). replace ({[+ current_ (w_vs w) +]} ⊎ w_held w ⊎ {[+ current_ (w_vs w) +]})
    with (w_held w ⊎ {[+ current_ (w_vs w) +]} ⊎ {[+ current_ (w_vs w) +]}) by multiset_solver. done.
Qed.
Lemma release_ok w p : winv w -> p ∈ w_held w -> exists w', vrun w (ORelease p) = Some w' /\ winv w'.
Proof.
  intros Hw Hp. destruct (core_Unref _ _ _ _ p (wi_core w Hw) ltac:(multiset_solver)) as (vs' & Er & Hco & Hs & _).
  cbn [vrun]. rewrite Er. cbn [mbind option_bind]. eexists. split; [done|]. apply winv_refs; [done|done|].
  destruct (sm_rest _ _ _ Hs) as (_ & -> & _). replace (w_held w ∖ {[+ p +]} ⊎ {[+ current_ (w_vs w) +]})
    with ((w_held w ⊎ {[+ current_ (w_vs w) +]}) ∖ {[+ p +]}) by multiset_solver. done.
Qed.
Lemma file_refs_seeks h X a n : file_refs h X -> a ∈ X -> file_refs (<[a := set_allowed_seeks (deref h a) n]> h) X.
Proof.
  intros H Ha b. rewrite <- (H b). destruct (decide (a = b)) as [<-|Hne]; [|by rewrite lookup_insert_ne].
  rewrite lookup_insert_eq. destruct (file_refs_Some h X a H Ha) as (f & Ef & _). unfold deref. by rewrite Ef.
Qed.
Lemma stats_ok w p stats : winv w -> allowed w (OStats p stats) -> exists w', vrun w (OStats p stats) = Some w' /\ winv w'.
Proof.
  intros Hw (_ & o & Eo & Hseek). cbn [vrun]. unfold update_stats. rewrite Eo. cbn [mbind option_bind].
  assert (file_refs (st_files (vs_store (w_vs w))) (mset (owned (vs_objects (w_vs w))))) as Hr.
  { destruct (wi_core w Hw) as [H1 _ _ _ _ _ _ _ _].
    by replace (mset (owned (vs_objects (w_vs w))) ⊎ ∅) with (mset (owned (vs_objects (w_vs w)))) in H1 by multiset_solver. }
  unfold UpdateStats. destruct (Z.eqb_spec (seek_file stats) 0) as [H0|H0].
  { eexists. split; [done|]. by apply winv_update. }
  destruct Hseek as [|Hin]; [done|].
  assert (seek_file stats ∈ mset (owned (vs_objects (w_vs w)))) as Hin' by (rewrite elem_of_mset; by eapply owned_elem).
  pose proof (file_refs_seeks _ _ _ (f_allowed_seeks (deref (st_files (vs_store (w_vs w))) (seek_file stats)) - 1) Hr Hin') as Hr'.
  set (h := <[seek_file stats := _]> _) in *.
  assert (same_on (mset (owned (vs_objects (w_vs w)))) (st_files (vs_store (w_vs w))) h) as Hs.
  { intros b _. unfold h. destruct (decide (seek_file stats = b)) as [<-|Hne]; [by rewrite deref_insert|by rewrite deref_insert_ne]. }
  destruct (_ && _); eexists; (split; [done|]); apply winv_update; try done.
  intros st [V1 [W1 W2 W3 W4 W5] V3 V4]. split; [done|by split|exact V3|]. intros L HL. destruct (V4 L HL). by split.
Qed.

(** *** Writers *)

Lemma guard_ok w level g : winv w -> allowed w (OGuard level g) -> exists w', vrun w (OGuard level g) = Some w' /\ winv w'.
Proof.
  intros Hw [HL Hg]. destruct (wi_versions w Hw (current_ (w_vs w)) ltac:(by left)) as (o & Eo & Ho). cbn [vrun].
  erewrite on_version_Some; [|exact Eo|].
  2: { unfold AddToCompleteGuards. apply levels_range in HL as [H0 H1].
       rewrite (proj2 (Z.leb_le _ _) H0), (proj2 (Z.ltb_lt _ _) H1). reflexivity. }
  cbn [mbind option_bind]. eexists. split; [done|].
  replace (vs_store (w_vs w)) with (set_files (vs_store (w_vs w)) (st_files (vs_store (w_vs w)))) by by destruct (vs_store (w_vs w)).
  apply winv_update; try done.
  - intros st Hst. apply version_inv_guards; [|done]. apply push_guards; [apply (vw_complete _ (vi_wf _ _ _ Hst))|done|done].
  - destruct (wi_core w Hw) as [H1 _ _ _ _ _ _ _ _].
    by replace (mset (owned (vs_objects (w_vs w))) ⊎ ∅) with (mset (owned (vs_objects (w_vs w)))) in H1 by multiset_solver.
Qed.
Lemma numbers_ok w op : winv w -> (op = ONumber \/ (exists n, op = OReuse n \/ op = OMark n \/ op = OSequence n)) ->
  exists w', vrun w op = Some w' /\ winv w'.
Proof.
  intros Hw [->|(n & [->|[->| ->]])]; cbn [vrun]; eexists; (split; [done|]); apply winv_ext; try done.
  all: unfold ReuseFileNumber, MarkFileNumberUsed, SetLastSequence; by destruct (_ : bool).
Qed.

(** *** LogAndApply *)

Lemma descriptor_AddRecord_total env d record : exists env' s d', @descriptor_AddRecord E F HM env d record = Some (env', s, d').
Proof.
  unfold descriptor_AddRecord.
  destruct (@AddRecord_total E (named_file (fst d)) env (snd d) record) as [[[env' s] off] ->]. cbn. by eexists _, _, _.
Qed.
Lemma set_descriptor_id vs d : descriptor_log_ vs = d -> set_descriptor vs d = vs.
Proof. intros <-. by destruct vs. Qed.
Lemma la_open_ok env vs pd : is_Some (vs_objects vs !! current_ vs) -> exists env' s d pd',
  la_open cmp_name dbname env vs pd = Some (env', s, set_descriptor vs d, pd') /\ pd_version pd' = pd_version pd /\
  pd_cg_sizes pd' = pd_cg_sizes pd /\ (ok s = true -> is_Some d).
Proof.
  intros [o Eo]. unfold la_open. destruct (descriptor_log_ vs) as [d|] eqn:Ed.
  { eexists env, OK, (Some d), pd. split_and!; [|done|done|done]. by rewrite set_descriptor_id. }
  destruct (NewConcurrentWritableFile env _) as [s env1]. destruct (ok s) eqn:Es.
  - unfold WriteSnapshot. rewrite Eo. cbn [mbind option_bind].
    destruct (descriptor_AddRecord_total env1 (DescriptorFileName dbname (manifest_file_number_ vs), 0)
      (EncodeTo (snapshot cmp_name (st_files (vs_store vs)) (compact_pointer_ vs) (vo_version o)) [])) as (env2 & s2 & d & ->).
    cbn [mbind option_bind]. by eexists _, _, (Some d), _.
  - eexists env1, s, None, _. rewrite (set_descriptor_id vs _ Ed). split; [done|]. by rewrite Es.
Qed.
Lemma la_write_ok env s vs pd : (ok s = true -> is_Some (descriptor_log_ vs)) -> exists env' s' d,
  la_write dbname env s vs pd = Some (env', s', set_descriptor vs d).
Proof.
  intros Hd. unfold la_write. destruct (ok s) eqn:Es.
  - destruct (Hd eq_refl) as [d ->]. cbn [mbind option_bind].
    destruct (descriptor_AddRecord_total env d (EncodeTo (pd_edit pd) [])) as (env1 & s1 & d1 & ->). cbn [mbind option_bind].
    destruct (if ok s1 then _ else _) as [s2 env2]. cbn [mbind option_bind].
    destruct (if ok s2 && _ then _ else _) as [s3 env3]. by eexists _, _, _.
  - cbn [mbind option_bind]. rewrite Es. cbn [andb]. eexists _, _, (descriptor_log_ vs). by rewrite set_descriptor_id.
Qed.

Lemma la_begin_ok w edit : winv w -> allowed w (OBegin edit) -> exists vs1 vs' pd e o obj,
  la_begin ucmp garbage (w_vs w) edit = Some (vs', pd) /\ vs' = fst (new_version vs1 obj) /\
  same_versions ∅ (w_vs w) vs1 /\ pd_version pd = vs_fresh vs1 /\
  core vs' ∅ (w_held w ⊎ {[+ current_ (w_vs w) +]}) (Some (pd_version pd)) /\
  (forall p, p = current_ vs' \/ Some (pd_version pd) = Some p ->
    exists o, vs_objects vs' !! p = Some o /\ version_inv ucmp (vs_store vs') (vo_version o)) /\
  vs_objects (w_vs w) !! current_ (w_vs w) = Some o /\ vs_objects vs' !! pd_version pd = Some obj /\
  complete_edit (w_vs w) edit = Some e /\ same_changes edit e /\ pd_edit pd = saved_edit ucmp (vo_version o) e /\
  forall L, L ∈ levels ->
    abs_version (st_files (vs_store vs')) (vo_version obj) L =
      spec_edit edit L (abs_version (st_files (vs_store (w_vs w))) (vo_version o) L) /\
    guard_keys (at_level (guards_ (vo_version obj)) L) =
      edits_guards [edit] L ∪ guard_keys (at_level (guards_ (vo_version o)) L).
Proof.
  intros Hw (Hidle & Hap & Hlog & o & Eo & Hfr). set (vs := w_vs w) in *.
  destruct (wi_versions w Hw (current_ vs) ltac:(by left)) as (o0 & E0 & Hov). fold vs in E0, Hov.
  assert (o0 = o) as -> by congruence.
  destruct (complete_edit_ok vs edit Hlog) as (e & Ee & Hsc). unfold la_begin. rewrite Ee, Eo. cbn [mbind option_bind].
  pose proof (wi_core w Hw) as Hco. rewrite Hidle in Hco. cbn [pending_of] in Hco. fold vs in Hco.
  destruct (build_version_ok ucmp Hc Hid vs (w_held w ⊎ {[+ current_ vs +]}) o e Hco ltac:(multiset_solver) Eo Hov)
    as (vs1 & v & -> & Hc1 & Hs1 & Hv1 & Hr1 & Habs).
  { by eapply same_changes_applies. } { by eapply same_changes_fresh. }
  cbn [mbind option_bind]. set (obj := {| vo_version := v; vo_scores := _ |}).
  destruct (sm_rest _ _ _ Hs1) as (_ & Ecur & R).
  pose proof (core_new vs1 ∅ _ obj ltac:(by rewrite (right_id_L ∅ (⊎))) Hr1) as Hc2. cbn [new_version] in *.
  set (vs2 := fst _) in Hc2. exists vs1, vs2. eexists _, e, o, obj. split; [done|]. cbn [pd_version pd_edit].
  assert (vs_objects vs2 !! vs_fresh vs1 = Some obj) as Eobj by (cbn; apply lookup_insert_eq).
  split_and!; [done|done|done|exact Hc2| |done|exact Eobj|done|done|done|].
  - intros p [->|[= <-]]; [|by exists obj].
    rewrite <- Ecur in Hc1. destruct (versions_kept vs vs1 ∅ _ (w_held w) None Hs1 Hc1 Ecur) with (p := current_ vs1)
      as (o1 & E1 & Ho1); [|by left|].
    { intros p [->|]; [|done]. by exists o. }
    exists o1. split; [|exact Ho1]. cbn. rewrite lookup_insert_ne; [exact E1|].
    assert (0 < current_ vs1 < vs_fresh vs1) by (apply (co_fresh _ _ _ _ Hc1); by eexists). lia.
  - intros L HL. change (st_files (vs_store vs2)) with (st_files (vs_store vs1)). change (vo_version obj) with v.
    destruct (Habs L HL) as [-> ->].
    destruct Hsc as (_ & E2 & E3 & E4 & _). unfold spec_edit, edit_deleted, edit_new, edits_guards. cbn. by rewrite E2, E3, E4.
Qed.
Lemma begin_ok w edit : winv w -> allowed w (OBegin edit) -> exists w', vrun w (OBegin edit) = Some w' /\ winv w'.
Proof.
  intros Hw Hal. destruct (la_begin_ok w edit Hw Hal) as (vs0 & vs1 & pd & e & o & obj & Eb & E1 & Hs & _ & Hc1 & Hv & _).
  assert (current_ vs1 = current_ (w_vs w)) as Ecur by (rewrite E1; apply (sm_rest _ _ _ Hs)).
  destruct Hal as (Hidle & _). cbn [vrun]. rewrite Hidle, Eb. cbn [mbind option_bind].
  destruct (la_open_ok (w_env w) vs1 pd) as (env & s & d & pd' & -> & Ep & _ & Hd).
  { destruct (Hv (current_ vs1) ltac:(by left)) as (o1 & ? & _). by exists o1. }
  cbn [mbind option_bind]. eexists. split; [done|]. split; cbn [w_vs w_phase w_held pending_of set_descriptor current_ vs_objects vs_store].
  - rewrite Ep, Ecur. by eapply core_ext; [..|exact Hc1].
  - rewrite Ep. exact Hv.
  - intros pd0 s0 [= <- <-]. exact Hd.
Qed.
Lemma write_ok w : winv w -> allowed w OWrite -> exists w', vrun w OWrite = Some w' /\ winv w'.
Proof.
  intros Hw (pd & s & Hph). cbn [vrun]. rewrite Hph.
  destruct (la_write_ok (w_env w) s (w_vs w) pd (wi_open w Hw pd s Hph)) as (env & s' & d & ->). cbn [mbind option_bind].
  eexists. split; [done|]. destruct Hw as [H1 H2 H3]. rewrite Hph in H1, H2.
  split; cbn [w_vs w_phase w_held pending_of set_descriptor current_ vs_objects vs_store]; [|exact H2|done].
  by eapply core_ext; [..|exact H1].
Qed.

Lemma la_install_ok vs pd held : core vs ∅ (held ⊎ {[+ current_ vs +]}) (Some (pd_version pd)) ->
  (forall p, p = current_ vs \/ Some (pd_version pd) = Some p ->
    exists o, vs_objects vs !! p = Some o /\ version_inv ucmp (vs_store vs) (vo_version o)) ->
  exists vs' oc op o' n cg, la_install vs pd = Some vs' /\ core vs' ∅ (held ⊎ {[+ pd_version pd +]}) None /\
    current_ vs' = pd_version pd /\
    vs_objects vs !! current_ vs = Some oc /\ vs_objects vs !! pd_version pd = Some op /\
    vs_objects vs' !! pd_version pd = Some o' /\ vo_version o' = set_complete_guards (set_v_refs (vo_version op) n) cg /\
    version_inv ucmp (vs_store vs') (vo_version o') /\
    same_on (mset (all_files (vo_version op))) (st_files (vs_store vs)) (st_files (vs_store vs')) /\
    (forall L, L ∈ levels -> at_level cg L =
      at_level (complete_guards_ (vo_version op)) L ++ delta_guards (vo_version oc) (pd_cg_sizes pd) L) /\
    log_number_ vs' = VersionEdit.log_number_ (pd_edit pd) /\ prev_log_number_ vs' = VersionEdit.prev_log_number_ (pd_edit pd) /\
    next_file_number_ vs' = next_file_number_ vs /\ manifest_file_number_ vs' = manifest_file_number_ vs /\
    last_sequence_ vs' = last_sequence_ vs /\ descriptor_log_ vs' = descriptor_log_ vs /\
    compact_pointer_ vs' = compact_pointer_ vs.
Proof.
  intros Hco Hv. destruct (Hv (current_ vs) ltac:(by left)) as (oc & Ec & Hoc).
  destruct (Hv (pd_version pd) ltac:(by right)) as (op & Ep & Hop).
  unfold la_install. rewrite Ec. cbn [mbind option_bind].
  destruct (AppendVersion_ok vs ∅ held (pd_version pd) Hco) as (vs1 & -> & Hc1 & Ecur & Ecp & Hs). cbn [mbind option_bind].
  destruct (proj1 (co_live _ _ _ _ Hc1 (pd_version pd)) ltac:(multiset_solver)) as [[o1 E1] _].
  destruct (sm_objects _ _ _ Hs _ _ E1) as (o0 & n & E0 & Eo1). assert (o0 = op) as -> by congruence.
  assert (version_inv ucmp (vs_store vs1) (vo_version o1)) as Hv1.
  { by apply (same_versions_inv ucmp ∅ vs (set_current vs1 (current_ vs)) (pd_version pd) op o1). }
  destruct (delta_guards_more (vo_version o1) (vo_version oc) (pd_cg_sizes pd)) as (cg & Eadd & Hmore & Hcg).
  { apply (vw_complete _ (vi_wf _ _ _ Hv1)). } { intros L HL. apply (bg_complete _ _ _ (vi_guards _ _ _ Hoc L HL)). }
  erewrite on_version_Some; [|exact E1|reflexivity]. fold (add_deltas (vo_version o1)
    ((fun L => (L, delta_guards (vo_version oc) (pd_cg_sizes pd) L)) <$> levels)). rewrite Eadd. cbn [mbind option_bind].
  eexists _, oc, op, (with_version o1 (set_complete_guards (vo_version o1) cg)), n, cg. split; [done|].
  cbn [set_numbers set_objects current_ vs_objects vs_store log_number_ prev_log_number_ next_file_number_
    manifest_file_number_ last_sequence_ descriptor_log_ compact_pointer_ with_version vo_version].
  destruct (sm_rest _ _ _ Hs) as (_ & _ & R). cbn [set_current next_file_number_ manifest_file_number_ last_sequence_
    descriptor_log_ log_number_ prev_log_number_ file_level_bloom_filter] in R.
  split_and!; try done; try apply R.
  - eapply core_ext; [..|apply (core_update vs1 ∅ (held ⊎ {[+ pd_version pd +]}) _ None (pd_version pd) o1
      (set_complete_guards (vo_version o1) cg) Hc1 E1)]; try done. apply (co_counts _ _ _ _ Hc1 _ _ E1).
  - apply lookup_insert_eq.
  - by rewrite Eo1.
  - by apply version_inv_guards.
  - destruct Hs as [_ [_ Hs] _]. eapply same_on_sub; [|exact Hs]. cbn [set_current vs_objects].
    rewrite (owned_delete _ _ _ E1), list_to_set_disj_app, Eo1. rewrite all_files_refs. multiset_solver.
  - intros L HL. rewrite (Hcg L HL). by rewrite Eo1.
Qed.
Lemma finish_ok w ns fs : winv w -> allowed w (OFinish ns fs) -> exists w', vrun w (OFinish ns fs) = Some w' /\ winv w'.
Proof.
  intros Hw (pd & s & Hph). cbn [vrun]. rewrite Hph. unfold la_finish. destruct Hw as [H1 H2 _]. rewrite Hph in H1, H2.
  cbn [pending_of] in H1, H2. set (vs := set_level_filters _ _).
  assert (core vs ∅ (w_held w ⊎ {[+ current_ vs +]}) (Some (pd_version pd))) as Hco by (by eapply core_ext; [..|exact H1]).
  destruct (ok s).
  - destruct (la_install_ok vs pd (w_held w) Hco H2) as (vs' & oc & op & o' & n & cg & -> & Hc' & Ecur & _ & _ & Eo' & _ & Hv' & _).
    cbn [mbind option_bind]. eexists. split; [done|].
    split; cbn [w_vs w_phase w_held pending_of]; [by rewrite Ecur| |done].
    intros p [->|]; [|done]. exists o'. by rewrite Ecur.
  - destruct (core_destroy_pending vs ∅ _ _ Hco) as (vs' & -> & Hc' & Hs & Eo & _). cbn [mbind option_bind].
    destruct (sm_rest _ _ _ Hs) as (_ & Ecur & _). rewrite <- Ecur in Hc'.
    assert (forall p, p = current_ vs' \/ None = Some p ->
      exists o, vs_objects vs' !! p = Some o /\ version_inv ucmp (vs_store vs') (vo_version o)) as Hv'.
    { eapply versions_kept; [exact Hs|exact Hc'|done|]. intros p [->|]; [|done]. by apply H2; left. }
    destruct (pd_new_manifest pd); cbn [mbind option_bind]; eexists; (split; [done|]);
      split; cbn [w_vs w_phase w_held pending_of set_descriptor current_ vs_objects vs_store]; try done.
    by eapply core_ext; [..|exact Hc'].
Qed.

Lemma step_ok w op : winv w -> allowed w op -> exists w', vrun w op = Some w' /\ winv w'.
Proof.
  intros Hw Ha. destruct op as [e| |ns fs| |p|L g|p st| |n|n|n].
  - by apply begin_ok.
  - by apply write_ok.
  - by apply finish_ok.
  - by apply hold_ok.
  - by apply release_ok.
  - by apply guard_ok.
  - by apply stats_ok.
  - apply numbers_ok; [done|by left].
  - apply numbers_ok; [done|right; exists n; by left].
  - apply numbers_ok; [done|right; exists n; right; by left].
  - apply numbers_ok; [done|right; exists n; right; by right].
Qed.
Lemma steps_ok ops : forall w, winv w -> all_allowed w ops -> exists w', vruns w ops = Some w' /\ winv w'.
Proof.
  induction ops as [|op ops IH]; intros w Hw Ha; [by exists w|]. destruct Ha as [Ha Hr].
  destruct (step_ok w op Hw Ha) as (w1 & E1 & Hw1). destruct (IH w1 Hw1 (Hr w1 E1)) as (w2 & E2 & Hw2).
  exists w2. cbn [vruns]. rewrite E1. by split.
Qed.

(** *** The start *)

Lemma VersionSet_new_ok : exists vs, VersionSet_new garbage = Some vs /\ forall env,
  winv {| w_env := env; w_vs := vs; w_phase := Idle; w_held := ∅ |}.
Proof.
  eexists. split; [reflexivity|]. intros env.
  set (vs := VersionSet_empty). set (o := {| vo_version := Version_new; vo_scores := Scores_new garbage |}).
  assert (core vs (mset (all_files (vo_version o)) ⊎ ∅) ∅ None) as Hco.
  { change (mset (all_files (vo_version o)) ⊎ ∅) with (∅ : gmultiset Z). assert (owned (vs_objects vs) = []) as Ew by done.
    split; rewrite ?Ew; cbn [vs VersionSet_empty vs_store vs_objects vs_fresh dummy_versions_ st_files st_next]; try done.
    - intros a. multiset_solver.
    - intros p. rewrite lookup_empty. by intros [? ?].
    - constructor.
    - intros p. rewrite elem_of_nil. multiset_solver.
    - intros p. rewrite lookup_empty. split; [multiset_solver|]. by intros [[? ?] _]. }
  pose proof (core_new vs ∅ ∅ o Hco eq_refl) as Hn. cbn [vs_fresh vs VersionSet_empty] in Hn.
  pose proof (core_install (set_current (fst (new_version vs o)) 1) ∅ ∅ 1 o [1]) as Hi.
  split; cbn [w_vs w_phase w_held pending_of]; [|intros p [->|]; [|done]|done].
  - eapply core_ext; [..|apply Hi; [by apply set_current_core|reflexivity|reflexivity]]; done.
  - eexists. split; [reflexivity|]. cbn [vo_version with_version].
    eapply (version_inv_refs ucmp). apply version_inv_new.
Qed.

(** ** Files in use *)

Lemma AddLiveFiles_spec vs l : forall live : gset Z, (forall p, p ∈ l -> is_Some (vs_objects vs !! p)) ->
  exists live' : gset Z, AddLiveFiles (set_objects vs (vs_store vs) (vs_objects vs) l) live = Some live' /\
    forall n, n ∈ live' <-> n ∈ live \/ exists p o a, p ∈ l /\ vs_objects vs !! p = Some o /\
      a ∈ all_files (vo_version o) /\ n = f_number (deref (st_files (vs_store vs)) a).
Proof using Type.
  clear Hc Hid ucmp.
  assert (forall k (live : gset Z) n,
    n ∈ fold_left (fun (live : gset Z) a => {[ f_number (deref (st_files (vs_store vs)) a) ]} ∪ live) k live <->
    n ∈ live \/ exists a, a ∈ k /\ n = f_number (deref (st_files (vs_store vs)) a)) as Hf.
  { induction k as [|a k IH]; intros live n; cbn [fold_left]; [set_solver|]. rewrite IH. set_solver. }
  unfold AddLiveFiles. cbn [set_objects vs_objects vs_store dummy_versions_].
  induction l as [|p l IH]; intros live Hl; cbn [foldM]; [exists live; set_solver|].
  destruct (Hl p ltac:(set_solver)) as [o Eo]. rewrite Eo. cbn [mbind option_bind].
  destruct (IH (fold_left (fun live a => {[ f_number (deref (st_files (vs_store vs)) a) ]} ∪ live)
    (concat (at_level (files_ (vo_version o)) <$> levels)) live)) as (live' & -> & H); [set_solver|].
  exists live'. split; [done|]. intros n. rewrite H, Hf. fold (all_files (vo_version o)). split.
  - intros [[?|(a & ? & ?)]|(q & o' & a & ? & ? & ?)]; [by left|right; exists p, o, a|right; exists q, o', a];
      rewrite elem_of_cons; tauto.
  - intros [?|(q & o' & a & [->|?]%elem_of_cons & Eq & ? & ?)]; [by left; left| |right; by exists q, o', a].
    left. right. exists a. by simplify_eq.
Qed.

(** C7: Whatever readers and writers do to the set of versions, its memory is safe and its
    reference counts exact.  From a new set of versions, every sequence of steps that
    follows the rules (one LogAndApply at a time, its write of the manifest interleaved
    with readers that hold and release versions, writers that add guards and take numbers,
    and every write free to fail) runs to its end: no freed version or file is used, no
    assertion fails.  Then a version object exists exactly when it is current, held or
    being prepared, and its counter is the number of its holders; a file object exists
    exactly when a version object lists it, and its counter is the number of times it is
    listed; the live files are the files of the versions that are current or held. *)
Theorem version_refs_exact (env : E) (ops : list vop) (vs0 : VersionSet) :
  VersionSet_new garbage = Some vs0 ->
  all_allowed {| w_env := env; w_vs := vs0; w_phase := Idle; w_held := ∅ |} ops ->
  exists w, vruns {| w_env := env; w_vs := vs0; w_phase := Idle; w_held := ∅ |} ops = Some w /\
    let vs := w_vs w in
    let holders := w_held w ⊎ {[+ current_ vs +]} in
    (forall p, is_Some (vs_objects vs !! p) <-> p ∈ holders \/ pending_of (w_phase w) = Some p) /\
    (forall p o, vs_objects vs !! p = Some o -> v_refs (vo_version o) = Z.of_nat (multiplicity p holders)) /\
    (forall a, f_refs <$> st_files (vs_store vs) !! a =
       let n := multiplicity a (mset (owned (vs_objects vs))) in if decide (n = 0%nat) then None else Some (Z.of_nat n)) /\
    exists live, AddLiveFiles vs ∅ = Some live /\
      forall n, n ∈ live <-> exists p o a, p ∈ holders /\ vs_objects vs !! p = Some o /\
        a ∈ all_files (vo_version o) /\ n = f_number (deref (st_files (vs_store vs)) a).
Proof.
  intros Enew Hall. destruct VersionSet_new_ok as (vs1 & E1 & Hw). assert (vs1 = vs0) as -> by congruence.
  destruct (steps_ok ops _ (Hw env) Hall) as (w & Er & Hi). exists w. split; [done|]. pose proof (wi_core w Hi) as Hco.
  cbn zeta. split_and!.
  - intros p. pose proof (co_live _ _ _ _ Hco p) as H. pose proof (co_pending _ _ _ _ Hco p) as H'.
    destruct (decide (pending_of (w_phase w) = Some p)); naive_solver.
  - apply (co_counts _ _ _ _ Hco).
  - intros a. rewrite (co_refs _ _ _ _ Hco a).
    replace (mset (owned (vs_objects (w_vs w))) ⊎ ∅) with (mset (owned (vs_objects (w_vs w)))) by multiset_solver.
    rewrite (decide_ext _ _ _ _ (elem_of_multiplicity a _)). do 2 case_decide; done || lia.
  - destruct (AddLiveFiles_spec (w_vs w) (dummy_versions_ (w_vs w)) ∅) as (live & El & H).
    { intros p Hp%(co_listed _ _ _ _ Hco). by apply (co_live _ _ _ _ Hco) in Hp as [? _]. }
    exists live. split; [by destruct (w_vs w)|]. intros n. rewrite H. split.
    + intros [?|(p & o & a & Hp & ?)]; [set_solver|]. exists p, o, a. by rewrite <- (co_listed _ _ _ _ Hco).
    + intros (p & o & a & Hp & ?). right. exists p, o, a. by rewrite (co_listed _ _ _ _ Hco).
Qed.
End Safety.

(** The in-memory environment as an environment of manifests, which are mapped: a write
    at an offset does not fail. *)
#[export] Instance mem_ManifestEnv : ManifestEnv (nat * gmap (list Z) (list Z)) (list Z) := {
  NewConcurrentWritableFile e f := mem_call e (<[f := []]> (snd e));
  WriteFileAt e f off data := ((fst e, alter (fun old => mem_write old off data) f (snd e)), OK);
  NewSequentialFile e f :=
    match snd e !! f with Some data => (OK, data) | None => (IOError f (str "No such file or directory"), []) end;
}.

Section Example.
Abbreviation dbname := (str "/db").
Abbreviation vrun := (vrun BytewiseComparator (str "leveldb.BytewiseComparator") dbname []).
Abbreviation vruns := (vruns BytewiseComparator (str "leveldb.BytewiseComparator") dbname []).
Abbreviation all_allowed := (all_allowed BytewiseComparator (str "leveldb.BytewiseComparator") dbname []).
(** The second edit follows while a reader holds the first version; a guard is added
    during its write. *)
Definition example_ops : list (vop) :=
  [OHold; OBegin (nth 0 example_edits VersionEdit_new); OWrite; OFinish [5; 6] [None; Some [1]];
   OHold; OBegin (nth 1 example_edits VersionEdit_new);
   OGuard 2 {| g_refs := 1; g_level := 2; g_number_segments := 0; g_guard_key := example_key [99] 4;
               g_smallest := []; g_largest := []; g_files := []; g_file_metas := [] |};
   OWrite; OFinish [7] [None]; ORelease 1].
Definition example_world (n : nat) : @World (nat * gmap (list Z) (list Z)) :=
  {| w_env := (n, ∅); w_vs := default VersionSet_empty (VersionSet_new []); w_phase := Idle; w_held := ∅ |}.
Lemma begin_allowed w e : w_phase w = Idle -> edit_applies e -> has_log_number_ e = false ->
  forallb (fun L => bool_decide (NoDup ((f_number <$> edits_new [e] L) ++
    match vs_objects (w_vs w) !! current_ (w_vs w) with
    | Some o => numbers (st_files (vs_store (w_vs w))) (at_level (files_ (vo_version o)) L) | None => [0; 0] end))) levels = true ->
  @allowed (nat * gmap (list Z) (list Z)) w (OBegin e).
Proof.
  intros H1 H2 H3 H4. split; [done|]. split; [done|]. split; [by intros ?; congruence|].
  destruct (vs_objects (w_vs w) !! current_ (w_vs w)) as [o|].
  - exists o. split; [done|]. intros L HL. rewrite forallb_forall in H4. specialize (H4 L ltac:(by apply list_elem_of_In)).
    rewrite level_state_new. by apply bool_decide_eq_true in H4.
  - specialize (proj1 (forallb_forall _ _) H4 0 ltac:(by left)) as H5. apply bool_decide_eq_true in H5.
    apply NoDup_app in H5 as (_ & _ & H5). by apply NoDup_cons in H5 as [[]%not_elem_of_cons _].
Qed.
Lemma step_allowed (w : @World (nat * gmap (list Z) (list Z))) op :
  match op, w_phase w with
  | OWrite, Writing _ _ | OFinish _ _, Written _ _ | OHold, _ => true
  | ORelease p, _ => (0 <? Z.of_nat (multiplicity p (w_held w)))
  | OGuard level g, _ => (0 <=? level) && (level <? kNumLevels) && forallb (fun b => (0 <=? b) && (b <? 256)) (guard_user_key g)
  | _, _ => false
  end = true -> allowed w op.
Proof.
  destruct op, (w_phase w) eqn:Ep; cbn; try done; try (by eexists _, _).
  all: try (by intros ?%Z.ltb_lt; apply elem_of_multiplicity; lia).
  all: rewrite !andb_true_iff, Z.leb_le, Z.ltb_lt; intros [HL Hb]; split; [by apply levels_range|].
  all: apply Forall_forall; intros b Hin; rewrite forallb_forall in Hb; specialize (Hb b ltac:(by apply list_elem_of_In));
    apply andb_true_iff in Hb as [?%Z.leb_le ?%Z.ltb_lt]; split; lia.
Qed.
Lemma all_allowed_steps d ops : forall w, (forall k op, ops !! k = Some op ->
    allowed (default d (vruns w (take k ops))) op) -> all_allowed w ops.
Proof.
  induction ops as [|op ops IH]; intros w H; [done|]. split; [by apply (H 0%nat op)|]. intros w' Ew. apply IH.
  intros k op' Hk. specialize (H (S k) op' Hk). cbn [take VersionSetSafety.vruns] in H. by rewrite Ew in H.
Qed.
Lemma example_allowed n : n = 100%nat \/ n = 7%nat -> all_allowed (example_world n) example_ops.
Proof.
  pose proof example_edits_apply as [He1 [He2 _]%Forall_cons]%Forall_cons. intros Hn.
  apply (all_allowed_steps (example_world 0)). intros k op Hk. unfold example_ops in Hk.
  do 10 (destruct k as [|k]; [injection Hk as <-; destruct Hn as [->| ->];
    first [apply step_allowed; vm_compute; reflexivity
          |apply begin_allowed; [vm_compute; reflexivity|done|reflexivity|vm_compute; reflexivity]]|]).
  done.
Qed.

Lemma version_refs_exact_witness : exists w w',
  vruns (example_world 100) example_ops = Some w /\ vruns (example_world 7) example_ops = Some w' /\
  (forall p, is_Some (vs_objects (w_vs w) !! p) <-> p ∈ w_held w ⊎ {[+ current_ (w_vs w) +]} \/ pending_of (w_phase w) = Some p) /\
  (exists live, AddLiveFiles (w_vs w) ∅ = Some live /\ 5 ∈ live /\ 7 ∈ live) /\
  (exists live, AddLiveFiles (w_vs w') ∅ = Some live /\ 7 ∉ live).
Proof.
  destruct (version_refs_exact BytewiseComparator _ Bytewise_identity
    (str "leveldb.BytewiseComparator") dbname [] (100%nat, ∅) example_ops (default VersionSet_empty (VersionSet_new [])))
    as (w & Ew & Hp & _ & _ & _); [reflexivity|apply example_allowed; by left|].
  destruct (version_refs_exact BytewiseComparator _ Bytewise_identity
    (str "leveldb.BytewiseComparator") dbname [] (7%nat, ∅) example_ops (default VersionSet_empty (VersionSet_new [])))
    as (w' & Ew' & _); [reflexivity|apply example_allowed; by right|].
  exists w, w'. split_and!; [done|done|done|..].
  - apply (f_equal (fmap (fun w => AddLiveFiles (w_vs w) ∅))) in Ew. vm_compute in Ew.
    injection Ew as Ew. eexists. split; [by symmetry|]. split; vm_compute; done.
  - apply (f_equal (fmap (fun w => AddLiveFiles (w_vs w) ∅))) in Ew'. vm_compute in Ew'.
    injection Ew' as Ew'. eexists. split; [by symmetry|]. vm_compute. done.
Defined.
End Example.
