(* ===== verification/Manifest.v ===== *)
(** * The manifest as a log of edits

    The laws of an environment whose manifest files are mapped memory; records appended
    to the manifest through the environment are the log of [LogProofs]; what a new edit
    that lists a version's files and guards stands for; what a reader of an encoded edit
    obtains. *)

From stdpp Require Import gmap gmultiset sorting.
From S2P Require Import Prelude Coding Status Comparator DbFormat Bloom LogFormat LogProofs.
From S2P Require Import VersionEdit FileName MemTable TableGet Version VersionProofs VersionGet VersionBuilder.
From S2P Require Import VersionBuilderProofs FileRefs VersionRefines VersionSet VersionSetProofs VersionSetSafety.
From stdpp Require Import list.
#[local] Open Scope Z_scope.

(** ** The environment *)

(** Creating a manifest may fail; a write to an open manifest is a copy to mapped memory;
    a file that is read has the bytes it has. *)
Class ManifestEnvOk (E : Type) {HM : ManifestEnv E (list Z)} (files : E -> gmap (list Z) (list Z)) := {
  new_manifest : forall e f, ok (fst (NewConcurrentWritableFile e f)) = true ->
    files (snd (NewConcurrentWritableFile e f)) = <[f := []]> (files e);
  write_manifest : forall e f off data old, files e !! f = Some old -> exists e',
    WriteFileAt e f off data = (e', OK) /\ files e' = <[f := mem_write old off data]> (files e);
  open_file : forall e f data, files e !! f = Some data -> NewSequentialFile e f = (OK, data);
}.
#[export] Instance mem_ManifestEnvOk : ManifestEnvOk (nat * gmap (list Z) (list Z)) snd.
Proof.
  split.
  - intros [[|n] m] f; done.
  - intros [n m] f off data old Ho. eexists. split; [done|]. cbn in *. apply map_eq. intros g.
    destruct (decide (f = g)) as [->|Hne]; [by rewrite lookup_alter_eq, Ho, lookup_insert_eq|].
    by rewrite lookup_alter_ne, lookup_insert_ne.
  - intros [n m] f data Hf. cbn in *. by rewrite Hf.
Qed.

(** ** Appending to the manifest *)

Section Append.
Context {E : Type} {HM : ManifestEnv E (list Z)} (files : E -> gmap (list Z) (list Z)) {HMok : ManifestEnvOk E files}.

Lemma emit_record_named name env f t payload off : files env !! name = Some f -> exists env',
  @Writer.EmitPhysicalRecordAt E (named_file name) env t payload off = (env', OK) /\
  files env' = <[name := fst (Writer.EmitPhysicalRecordAt f t payload off)]> (files env).
Proof.
  intros Hf. unfold Writer.EmitPhysicalRecordAt. cbn [WriteAt named_file mem_ConcurrentWritableFile].
  destruct (write_manifest env name off (Writer.header t payload) f Hf) as (e1 & -> & H1). cbn [ok OK].
  destruct (write_manifest e1 name (u64 (off + kHeaderSize)) payload (mem_write f off (Writer.header t payload)))
    as (e2 & E2 & H2); [by rewrite H1, lookup_insert_eq|].
  exists e2. split; [done|]. by rewrite H2, H1, insert_insert_eq.
Qed.
(** The writer on a file of the environment does what it does on the file's bytes. *)
Lemma emit_loop_named name fuel : forall env f b off d f' s, files env !! name = Some f ->
  Writer.emit_loop fuel f b off d = Some (f', s) -> exists env',
  @Writer.emit_loop E (named_file name) fuel env b off d = Some (env', s) /\ files env' = <[name := f']> (files env).
Proof.
  induction fuel as [|fuel IH]; intros env f b off d f' s Hf He; [done|].
  cbn [Writer.emit_loop] in *. set (lo := _ <? kHeaderSize) in *.
  assert (exists env1 f1, (if lo then (fst (@WriteAt E (named_file name) env off
      (replicate (Z.to_nat (kBlockSize - Z.land off (kBlockSize - 1))) 0)), 0, u64 (off + (kBlockSize - Z.land off (kBlockSize - 1))))
      else (env, Z.land off (kBlockSize - 1), off)) =
      (env1, if lo then 0 else Z.land off (kBlockSize - 1),
        if lo then u64 (off + (kBlockSize - Z.land off (kBlockSize - 1))) else off) /\
    (if lo then (fst (WriteAt f off
      (replicate (Z.to_nat (kBlockSize - Z.land off (kBlockSize - 1))) 0)), 0, u64 (off + (kBlockSize - Z.land off (kBlockSize - 1))))
      else (f, Z.land off (kBlockSize - 1), off)) =
      (f1, if lo then 0 else Z.land off (kBlockSize - 1),
        if lo then u64 (off + (kBlockSize - Z.land off (kBlockSize - 1))) else off) /\
    files env1 = <[name := f1]> (files env)) as (env1 & f1 & -> & E1 & H1).
  { destruct lo; [|eexists env, f; split_and!; [done|done|by rewrite insert_id]].
    cbn [WriteAt named_file mem_ConcurrentWritableFile].
    edestruct (write_manifest env name off) as (e1 & -> & H1); [done|]. by eexists _, _. }
  rewrite E1 in He. clear E1. set (bo := if lo then 0 else _) in *. set (o := if lo then u64 _ else off) in *.
  set (n := if _ <? _ then _ else _) in *. set (t := Writer.record_type _ _) in *.
  destruct (emit_record_named name env1 f1 t (take (Z.to_nat n) d) o) as (env2 & -> & H2); [by rewrite H1, lookup_insert_eq|].
  destruct (Writer.EmitPhysicalRecordAt f1 t (take (Z.to_nat n) d) o) as [f2 s2] eqn:E2.
  assert (s2 = OK) as -> by (by unfold Writer.EmitPhysicalRecordAt in E2; cbn in E2; simplify_eq).
  cbn [fst] in H2. rewrite H1, insert_insert_eq in H2. destruct (_ && _).
  - destruct (IH env2 f2 false (u64 (o + kHeaderSize + n)) (drop (Z.to_nat n) d) f' s) as (env' & E' & H');
      [by rewrite H2, lookup_insert_eq|done|]. exists env'. split; [done|]. by rewrite H', H2, insert_insert_eq.
  - injection He as <- <-. by exists env2.
Qed.

Lemma logs_snoc off recs bs d bs' : logs off recs bs -> emits true (off + blen bs) d bs' ->
  Writer.reserve (off + blen bs) (blen d) = off + blen bs + blen bs' -> logs off (recs ++ [d]) (bs ++ bs').
Proof.
  induction 1 as [off|off d0 recs bs1 bs2 He Hr Hl IH]; intros He' Hr'.
  - rewrite blen_nil, Z.add_0_r in *. rewrite <- (app_nil_r bs'). cbn [app]. econstructor; [done|done|constructor].
  - rewrite <- app_assoc. cbn [app]. econstructor; [done|done|]. rewrite blen_app, Z.add_assoc in *. by apply IH.
Qed.
(** A record appended to a manifest that is a log. *)
Lemma manifest_append env name f recs d : files env !! name = Some f -> logs 0 recs f -> LogProofs.placed (blen f) [d] = true ->
  exists env' bs, descriptor_AddRecord env (name, blen f) d = Some (env', OK, (name, blen (f ++ bs))) /\
    files env' = <[name := f ++ bs]> (files env) /\ logs 0 (recs ++ [d]) (f ++ bs) /\ blen (f ++ bs) < 2 ^ 32.
Proof.
  intros Hf Hl Hp. destruct (write_all_logs [d] f Hp) as (bs & Hl' & Hsz & Hw).
  inversion Hl' as [|off d' recs' bs1 bs2 He Hr Hn]; subst. inversion Hn; subst. rewrite app_nil_r in *.
  cbn [write_all] in Hw. destruct (Writer.AddRecord f (blen f) d) as [[[f' s] o]|] eqn:Ea; [|done].
  destruct (ok s) eqn:Es; [|done]. injection Hw as -> ->. unfold Writer.AddRecord in Ea.
  destruct (Writer.emit_loop _ f true _ d) as [[f1 s1]|] eqn:El; [|done]. injection Ea as -> -> _.
  destruct (emit_loop_named name _ env f true (blen f) d _ _ Hf El) as (env' & E' & H').
  assert (s = OK) as ->.
  { destruct (AddRecord_mem f d) as (bs' & _ & Ha); [cbn [LogProofs.placed] in Hp; apply andb_prop in Hp as [[Hp%Z.ltb_lt _]%andb_prop _]; unfold kBlockSize in *; pose proof (blen_nonneg f); lia|].
    unfold Writer.AddRecord in Ha. rewrite El in Ha. by injection Ha. }
  exists env', bs1. split_and!.
  - unfold descriptor_AddRecord, Writer.AddRecord. cbn [fst snd]. rewrite E'. cbn [mbind option_bind].
    by rewrite Hr, blen_app.
  - done.
  - by apply logs_snoc.
  - by rewrite blen_app.
Qed.
End Append.

(** ** What an edit does to the files and guards of a level *)

Definition file_entry (f : FileMetaData) : Z * info := (f_number f, file_info f).
Definition effect (e : VersionEdit) (L : Z) : gset Z * list (Z * info) * list (list Z) :=
  (edit_deleted e L, file_entry <$> edit_new e L, guard_user_key <$> at_level (new_guards_ e) L).
Abbreviation same_effect e e' := (forall L, effect e' L = effect e L).

Lemma spec_edit_effect e e' L m : effect e' L = effect e L -> spec_edit e' L m = spec_edit e L m.
Proof. intros [= E1 E2 _]. unfold spec_edit, new_map. unfold file_entry in E2. by rewrite E1, E2. Qed.
Lemma spec_edits_effect es es' L : Forall2 (fun e e' => effect e' L = effect e L) es es' ->
  forall m, spec_edits es' L m = spec_edits es L m.
Proof.
  unfold spec_edits. induction 1 as [|e e' es es' He _ IH]; intros m; [done|]. cbn [fold_left].
  by rewrite (spec_edit_effect e e'), IH.
Qed.
Lemma edits_new_effect es es' L : Forall2 (fun e e' => effect e' L = effect e L) es es' ->
  f_number <$> edits_new es' L = f_number <$> edits_new es L.
Proof.
  unfold edits_new. induction 1 as [|e e' es es' [= _ E _] _ IH]; [done|]. cbn [fmap list_fmap concat].
  rewrite !fmap_app, IH. f_equal. apply (f_equal (fmap fst)) in E. by rewrite <- !list_fmap_compose in E.
Qed.
Lemma edits_guards_effect es es' L : Forall2 (fun e e' => effect e' L = effect e L) es es' ->
  edits_guards es' L = edits_guards es L.
Proof.
  unfold edits_guards, guard_keys. induction 1 as [|e e' es es' [= _ _ E] _ IH]; [done|]. cbn [fmap list_fmap concat].
  rewrite !fmap_app, !list_to_set_app_L, IH, E. done.
Qed.
Lemma spec_edits_snoc es e L m : spec_edits (es ++ [e]) L m = spec_edit e L (spec_edits es L m).
Proof. unfold spec_edits. by rewrite fold_left_app. Qed.
Lemma edits_guards_snoc es e L : edits_guards (es ++ [e]) L = edits_guards es L ∪ edits_guards [e] L.
Proof. unfold edits_guards. rewrite fmap_app, concat_app. unfold guard_keys. by rewrite fmap_app, list_to_set_app_L. Qed.

(** A reader of the encoding obtains the same effect. *)
Lemma persisted_effect e : same_effect e (persisted VersionEdit_new e).
Proof.
  intros L. unfold effect, edit_deleted, edit_new. cbn [persisted deleted_files_ new_files_ new_guards_]. f_equal; [f_equal|].
  - induction (new_files_ e) as [|[l f] fs IH]; [done|]. cbn [persisted_files fmap list_fmap]. rewrite !filter_cons. cbn [fst]. case_decide; [|done].
    cbn [fmap list_fmap]. f_equal. exact IH.
  - unfold persisted_guards. rewrite !at_level_lookup, list_lookup_fmap. destruct (new_guards_ e !! _); [|done].
    cbn. rewrite <- list_fmap_compose. by apply list_fmap_ext.
Qed.
Lemma persisted_applies e : edit_applies e -> edit_applies (persisted VersionEdit_new e).
Proof.
  intros [H1 H2 H3 H4 H5]. split; cbn [persisted compact_pointers_ deleted_files_ new_files_ new_guards_ new_complete_guards_ deleted_guards_]; try done.
  - unfold persisted_files. rewrite Forall_fmap. eapply Forall_impl; [exact H3|]. by intros [? ?].
  - intros L HL. destruct (H4 L HL) as [G1 G2]. split.
    + unfold persisted_guards. rewrite at_level_lookup, list_lookup_fmap in *. destruct (new_guards_ e !! _); cbn in *; [|constructor].
      by rewrite Forall_fmap.
    + rewrite at_level_lookup, lookup_zip_with in *. destruct (new_complete_guards_ VersionEdit_new !! _) as [l|] eqn:E0; [|constructor].
      unfold persisted_guards. rewrite list_lookup_fmap. destruct (new_complete_guards_ e !! _); cbn in *; [|constructor].
      apply lookup_replicate in E0 as [-> _]. cbn. by rewrite Forall_fmap.
Qed.

(** ** The edit that [LogAndApply] writes *)

Abbreviation gvalid := (fun g => bytes_ok (guard_user_key g)).
Definition guards_valid (gs : list (list GuardMetaData)) : Prop := forall L, L ∈ levels -> Forall gvalid (at_level gs L).
Lemma guards_valid_push gs L g : guards_valid gs -> gvalid g -> guards_valid (push_at gs L g).
Proof.
  intros H Hg L' HL'. specialize (H L' HL'). rewrite at_level_lookup in *. unfold push_at.
  destruct (decide (Z.to_nat L = Z.to_nat L')) as [E|Hne]; [|by rewrite list_lookup_alter_ne].
  rewrite E, list_lookup_alter_eq. destruct (gs !! _); cbn in *; [|done]. apply Forall_app. by split; [|constructor].
Qed.
(** Only complete guards are added. *)
Definition more_complete (e e' : VersionEdit) : Prop :=
  exists cg, e' = set_new_complete_guards e cg /\ (guards_valid (new_complete_guards_ e) -> guards_valid cg).
Lemma more_complete_refl e : more_complete e e.
Proof. exists (new_complete_guards_ e). by destruct e. Qed.
Lemma more_complete_trans e e1 e2 : more_complete e e1 -> more_complete e1 e2 -> more_complete e e2.
Proof. intros (c1 & -> & H1) (c2 & -> & H2). exists c2. split; [done|]. cbn in H2. auto. Qed.
Lemma add_complete_more L gs : forall e, Forall gvalid gs -> exists e',
  fold_left (add_complete L) gs (Some e) = Some e' /\ more_complete e e'.
Proof.
  induction gs as [|g gs IH]; intros e Hg; [exists e; split; [done|apply more_complete_refl]|].
  apply Forall_cons in Hg as [Hg Hgs]. cbn [fold_left add_complete fmap option_fmap option_map].
  destruct (IH (AddCompleteGuardFromExisting e L g) Hgs) as (e' & -> & H). exists e'. split; [done|].
  eapply more_complete_trans; [|exact H]. eexists. split; [reflexivity|]. intros He. by apply guards_valid_push.
Qed.
Lemma saved_edit_more ucmp base e : (forall L, L ∈ levels -> Forall gvalid (at_level (complete_guards_ base) L)) ->
  more_complete e (saved_edit ucmp base e).
Proof.
  intros Hb. unfold saved_edit. assert (forall ls e, (forall L, L ∈ ls -> L ∈ levels) -> exists e',
    fold_left (fun e L => edit_complete ucmp base L e) ls (Some e) = Some e' /\ more_complete e e') as H.
  { induction ls as [|L ls IH]; intros e0 Hls; [exists e0; split; [done|apply more_complete_refl]|]. cbn [fold_left].
    assert (exists e1, edit_complete ucmp base L (Some e0) = Some e1 /\ more_complete e0 e1) as (e1 & -> & H1).
    { unfold edit_complete. specialize (Hb L ltac:(apply Hls; by left)). destruct (at_level _ L) eqn:El;
        [exists e0; split; [done|apply more_complete_refl]|]. rewrite <- El in *. apply add_complete_more.
      apply Forall_app. split; [by apply Forall_drop|]. apply Forall_reverse, Forall_drop. by apply Forall_take. }
    destruct (IH e1) as (e' & -> & H'); [intros L' HL'; apply Hls; by right|]. exists e'. split; [done|].
    by eapply more_complete_trans. }
  by destruct (H levels e (fun _ x => x)) as (e' & -> & ?).
Qed.
Lemma more_complete_effect e e' : more_complete e e' -> same_effect e e'.
Proof. by intros (cg & -> & _) L. Qed.
Lemma more_complete_applies e e' : more_complete e e' -> edit_applies e -> edit_applies e'.
Proof.
  intros (cg & -> & Hcg) [H1 H2 H3 H4 H5]. split; try done. intros L HL. split; [by apply H4|].
  apply Hcg; [|done]. intros L' HL'. by apply H4.
Qed.

(** ** Snapshots *)

(** [e'] adds to [e] the files and guards of the levels [ls] of [v]. *)
Definition snap_file (f : FileMetaData) : FileMetaData :=
  {| f_refs := 0; f_allowed_seeks := Z.shiftl 1 30; f_number := f_number f; f_file_size := f_file_size f;
     f_smallest := f_smallest f; f_largest := f_largest f; f_guard := 0 |}.
Record snapped (h : Files) (v : Version) (e : VersionEdit) (ls : list Z) (e' : VersionEdit) : Prop := {
  sn_files : new_files_ e' = new_files_ e ++
    concat ((fun L => (fun a => (L, snap_file (deref h a))) <$> at_level (files_ v) L) <$> ls);
  sn_guards : blen (new_guards_ e') = kNumLevels /\ forall L, L ∈ levels ->
    guard_user_key <$> at_level (new_guards_ e') L =
    (guard_user_key <$> at_level (new_guards_ e) L) ++
      concat ((fun L' => if decide (L' = L) then guard_user_key <$> at_level (guards_ v) L else []) <$> ls);
  sn_complete : guards_valid (new_complete_guards_ e) -> guards_valid (new_complete_guards_ e');
  sn_rest : deleted_files_ e' = deleted_files_ e /\ deleted_guards_ e' = deleted_guards_ e /\
    compact_pointers_ e' = compact_pointers_ e /\ comparator_ e' = comparator_ e /\ has_comparator_ e' = has_comparator_ e /\
    has_log_number_ e' = has_log_number_ e /\ has_prev_log_number_ e' = has_prev_log_number_ e /\
    has_next_file_number_ e' = has_next_file_number_ e /\ has_last_sequence_ e' = has_last_sequence_ e;
}.
Lemma snapshot_files_spec h L l : forall e,
  snapshot_files h L l e = set_new_files e (new_files_ e ++ ((fun a => (L, snap_file (deref h a))) <$> l)).
Proof.
  unfold snapshot_files. induction l as [|a l IH]; intros e; cbn [fold_left fmap list_fmap].
  - rewrite app_nil_r. by destruct e.
  - rewrite IH. unfold AddFile. cbn. by rewrite <- app_assoc.
Qed.
Lemma snapshot_nos_spec L l : forall e, exists s,
  fold_left (fun e n => AddSentinelFileNo e L n) l e = set_sentinel_file_nos e s.
Proof.
  induction l as [|n l IH]; intros e; cbn [fold_left]; [exists (VersionEdit.sentinel_file_nos_ e); by destruct e|].
  destruct (IH (AddSentinelFileNo e L n)) as (s & ->). by exists s.
Qed.
Lemma snapshot_guards_spec L gs : 0 <= L < kNumLevels -> forall e, blen (new_guards_ e) = kNumLevels -> exists s,
  snapshot_guards L gs e = set_new_guards e s /\ blen s = kNumLevels /\ forall L', L' ∈ levels ->
    guard_user_key <$> at_level s L' =
    (guard_user_key <$> at_level (new_guards_ e) L') ++ (if decide (L = L') then guard_user_key <$> gs else []).
Proof.
  intros HL. unfold snapshot_guards. induction gs as [|g gs IH]; intros e Hb; cbn [fold_left].
  - exists (new_guards_ e). split; [by destruct e|]. split; [done|]. intros L' _. case_decide; by rewrite app_nil_r.
  - set (e1 := if 0 <? _ then _ else _).
    assert (exists x, e1 = set_new_guards e (push_at (new_guards_ e) L x) /\ guard_user_key x = guard_user_key g) as (x & E1 & Hx).
    { unfold e1. destruct (0 <? _); by eexists. }
    destruct (IH e1) as (s & -> & Hs & H); [rewrite E1; cbn; by rewrite blen_push|].
    exists s. split; [by rewrite E1|]. split; [done|]. intros L' HL'. rewrite (H L' HL'), E1. cbn [set_new_guards new_guards_].
    apply levels_range in HL'. rewrite at_level_push by lia.
    destruct (decide (L' = L)) as [->|Hne]; [|by rewrite !decide_False by congruence].
    rewrite !decide_True by done. cbn [fmap list_fmap]. rewrite fmap_app, <- (assoc_L (++)). cbn. by rewrite Hx.
Qed.
Lemma snapshot_complete_spec L gs : Forall gvalid gs -> forall e, exists s,
  fold_left (fun e g => VersionEdit.AddCompleteGuard e L (g_guard_key g)) gs e = set_new_complete_guards e s /\
  (guards_valid (new_complete_guards_ e) -> guards_valid s).
Proof.
  induction 1 as [|g gs Hg _ IH]; intros e; cbn [fold_left]; [exists (new_complete_guards_ e); by destruct e|].
  destruct (IH (VersionEdit.AddCompleteGuard e L (g_guard_key g))) as (s & -> & H). exists s. split; [done|].
  intros He. apply H. cbn. by apply guards_valid_push.
Qed.
Lemma snapped_level h v e L : L ∈ levels -> blen (new_guards_ e) = kNumLevels ->
  Forall gvalid (at_level (complete_guards_ v) L) -> snapped h v e [L] (snapshot_level h v e L).
Proof.
  intros HL Hb Hv. unfold snapshot_level. rewrite snapshot_files_spec. set (e1 := set_new_files e _).
  destruct (snapshot_nos_spec L (at_level (Version.sentinel_file_nos_ v) L) e1) as (s2 & ->).
  destruct (snapshot_guards_spec L (at_level (guards_ v) L)) with (e := set_sentinel_file_nos e1 s2) as (s3 & -> & Hs3 & H3);
    [by apply levels_range|done|].
  destruct (snapshot_complete_spec L _ Hv (set_new_guards (set_sentinel_file_nos e1 s2) s3)) as (s4 & -> & H4).
  split; [cbn; by rewrite app_nil_r| |exact H4|done]. split; [done|]. intros L' HL'. cbn [set_new_complete_guards set_new_guards new_guards_].
  rewrite (H3 L' HL'). cbn. rewrite app_nil_r. by destruct (decide (L = L')) as [->|].
Qed.
Lemma snapped_trans h v e ls e1 ls' e2 : snapped h v e ls e1 -> snapped h v e1 ls' e2 -> snapped h v e (ls ++ ls') e2.
Proof.
  intros [F1 [B1 G1] C1 R1] [F2 [B2 G2] C2 R2]. split.
  - rewrite F2, F1, fmap_app, concat_app. by rewrite (assoc_L (++)).
  - split; [done|]. intros L HL. by rewrite G2, G1, fmap_app, concat_app, (assoc_L (++)).
  - auto.
  - decompose [and] R1. decompose [and] R2. split_and!; congruence.
Qed.
Lemma snapped_levels h v ls : (forall L, L ∈ ls -> L ∈ levels) ->
  (forall L, L ∈ levels -> Forall gvalid (at_level (complete_guards_ v) L)) -> forall e,
  blen (new_guards_ e) = kNumLevels -> snapped h v e ls (fold_left (snapshot_level h v) ls e).
Proof.
  intros Hls Hv. induction ls as [|L ls IH]; intros e Hb; cbn [fold_left].
  - split; [cbn; by rewrite app_nil_r| |done|done]. split; [done|]. intros L _. cbn. by rewrite app_nil_r.
  - pose proof (snapped_level h v e L ltac:(apply Hls; by left) Hb (Hv L ltac:(apply Hls; by left))) as H1.
    change (L :: ls) with ([L] ++ ls). eapply snapped_trans; [exact H1|]. apply IH; [intros L' ?; apply Hls; by right|].
    apply (sn_guards _ _ _ _ _ H1).
Qed.
(** What is before the levels: the comparator and the compaction pointers. *)
Lemma snapshot_pointers cp ls : (forall L, L ∈ ls -> L ∈ levels) -> forall e, Forall (fun p => fst p ∈ levels) (compact_pointers_ e) ->
  exists cps, fold_left (fun e level => match at_level cp level with [] => e | key => SetCompactPointer e level key end) ls e =
    set_compact_pointers e cps /\ Forall (fun p => fst p ∈ levels) cps.
Proof.
  intros Hls. induction ls as [|L ls IH]; intros e He; cbn [fold_left]; [exists (compact_pointers_ e); by destruct e|].
  set (e1 := match _ with [] => e | _ => _ end).
  assert (exists c1, e1 = set_compact_pointers e c1 /\ Forall (fun p => fst p ∈ levels) c1) as (c1 & E1 & H1).
  { unfold e1. destruct (at_level cp L); [exists (compact_pointers_ e); by destruct e|]. eexists. split; [reflexivity|].
    apply Forall_app. split; [done|]. constructor; [apply Hls; by left|done]. }
  destruct (IH ltac:(intros L' ?; apply Hls; by right) e1) as (cps & -> & H); [by rewrite E1|]. exists cps. by rewrite E1.
Qed.

Lemma level_entries (l : list Z) (F : Z -> list FileMetaData) L : NoDup l ->
  snd <$> filter (fun p => fst p = L) (concat ((fun L' => (fun f => (L', f)) <$> F L') <$> l)) =
  if decide (L ∈ l) then F L else [].
Proof.
  assert (forall L', snd <$> filter (fun p => fst p = L) ((fun f => (L', f)) <$> F L') = if decide (L' = L) then F L' else []) as H.
  { intros L'. destruct (decide (L' = L)) as [->|Hne]; (induction (F _) as [|f fs IH]; [done|]); cbn [fmap list_fmap];
      rewrite filter_cons; [rewrite decide_True by done|by rewrite decide_False by done].
    cbn [fmap list_fmap]. f_equal. exact IH. }
  induction 1 as [|L' l Hn Hnd IH]; [done|]. cbn [fmap list_fmap concat]. rewrite filter_app, fmap_app, H, IH.
  destruct (decide (L' = L)) as [->|Hne].
  - rewrite decide_False, decide_True by (done || by left). apply app_nil_r.
  - cbn [app]. apply decide_ext. rewrite elem_of_cons. naive_solver.
Qed.
Lemma once_level {A} (l : list Z) (x : list A) L : NoDup l -> L ∈ l ->
  concat ((fun L' => if decide (L' = L) then x else []) <$> l) = x.
Proof.
  assert (forall l, L ∉ l -> concat ((fun L' => if decide (L' = L) then x else []) <$> l) = []) as H.
  { induction l0 as [|L' l0 IH]; [done|]. rewrite not_elem_of_cons. intros [? ?]. cbn. rewrite decide_False by done. by apply IH. }
  induction 1 as [|L' l' Hn Hnd IH]; [by rewrite elem_of_nil|]. intros [->|Hin]%elem_of_cons; cbn [fmap list_fmap concat].
  - rewrite decide_True by done. rewrite H by done. apply app_nil_r.
  - rewrite decide_False by congruence. by apply IH.
Qed.

(** A snapshot applied to nothing is the version. *)
Record snapshot_of (cmp_name : bytes) (h : Files) (v : Version) (e : VersionEdit) : Prop := {
  so_applies : edit_applies e;
  so_files : forall L, L ∈ levels -> spec_edit e L ∅ = abs_version h v L;
  so_guards : forall L, L ∈ levels -> edits_guards [e] L = guard_keys (at_level (guards_ v) L);
  so_numbers : forall L, L ∈ levels -> f_number <$> edit_new e L = numbers h (at_level (files_ v) L);
  so_comparator : comparator_ e = cmp_name /\ has_comparator_ e = true;
  so_has : has_log_number_ e = false /\ has_prev_log_number_ e = false /\ has_next_file_number_ e = false /\
    has_last_sequence_ e = false;
}.
Lemma snapshot_ok ucmp cmp_name st cp v : version_inv ucmp st v ->
  snapshot_of cmp_name (st_files st) v (snapshot cmp_name (st_files st) cp v).
Proof.
  intros Hv. unfold snapshot.
  destruct (snapshot_pointers cp levels (fun _ x => x) (SetComparatorName VersionEdit_new cmp_name)) as (cps & -> & Hcps); [done|].
  set (e0 := set_compact_pointers _ cps). set (h := st_files st).
  pose proof (snapped_levels h v levels (fun _ x => x)
    (fun L HL => bg_complete _ _ _ (vi_guards _ _ _ Hv L HL)) e0 eq_refl) as [F [B G] C R].
  set (e := fold_left _ _ e0) in *. destruct R as (R1 & R2 & R3 & R4 & R5 & R6 & R7 & R8 & R9).
  assert (forall L, L ∈ levels -> edit_new e L = (fun a => snap_file (deref h a)) <$> at_level (files_ v) L) as En.
  { intros L HL. unfold edit_new. rewrite F. cbn [e0 set_compact_pointers SetComparatorName VersionEdit_new new_files_ app].
    pose proof (level_entries levels (fun L => (fun a => snap_file (deref h a)) <$> at_level (files_ v) L) L levels_nodup) as Hl.
    rewrite decide_True in Hl by done. rewrite <- Hl. do 3 f_equal. apply list_fmap_ext. intros _ L' _. by rewrite <- list_fmap_compose. }
  assert (forall L, L ∈ levels -> guard_user_key <$> at_level (new_guards_ e) L = guard_user_key <$> at_level (guards_ v) L) as Eg.
  { intros L HL. rewrite (G L HL), once_level by (done || apply levels_nodup). revert L HL. apply levels_forall. repeat constructor. }
  split.
  - split; [by rewrite R3|by rewrite R1| | |by rewrite R2].
    + rewrite F. cbn. apply Forall_concat, Forall_fmap, Forall_forall. intros L HL. apply Forall_fmap, Forall_forall.
      intros a Ha. split; [done|]. pose proof (li_keys _ _ _ _ (vi_files _ _ _ Hv L HL)) as Hk. rewrite Forall_forall in Hk.
      by destruct (Hk a Ha).
    + intros L HL. split.
      * pose proof (bg_valid _ _ _ (vi_guards _ _ _ Hv L HL)) as Hg. apply (Forall_fmap guard_user_key bytes_ok).
        rewrite (Eg L HL). by apply Forall_fmap.
      * apply C; [|done]. intros L' HL'. revert L' HL'. apply levels_forall. repeat constructor.
  - intros L HL. unfold spec_edit, abs_version, abs_files, new_map. rewrite (En L HL), <- list_fmap_compose.
    rewrite map_filter_empty. by rewrite (left_id_L ∅ (∪)).
  - intros L HL. unfold edits_guards, guard_keys. cbn. rewrite app_nil_r. by rewrite (Eg L HL).
  - intros L HL. rewrite (En L HL), <- list_fmap_compose. done.
  - by rewrite R4, R5.
  - by rewrite R6, R7, R8, R9.
Qed.
