(* ===== verification/ManifestRecover.v ===== *)
(** * Recovery from the manifest

    [Recover] of a new set of versions reads the edits of a manifest that may end in a torn
    record and rebuilds the version they make; run after any work of readers and writers,
    it restores what the last completed [LogAndApply] installed. *)

From stdpp Require Import gmap gmultiset sorting.
From S2P Require Import Prelude Coding Status Comparator DbFormat Bloom LogFormat LogProofs.
From S2P Require Import VersionEdit FileName MemTable TableGet Version VersionProofs VersionGet VersionBuilder.
From S2P Require Import VersionBuilderProofs FileRefs VersionRefines VersionSet VersionSetProofs VersionSetSafety.
From S2P Require Import Manifest.
From stdpp Require Import list.
#[local] Open Scope Z_scope.

(** ** Records of edits *)

Abbreviation record_of e := (EncodeTo e []).
(** An edit that can be written and read back. *)
Record loggable (cmp_name : bytes) (e : VersionEdit) : Prop := {
  lo_encodes : edit_ok e;
  lo_bytes : bytes_ok (record_of e);
  lo_comparator : has_comparator_ e = true -> comparator_ e = cmp_name;
  lo_applies : edit_applies e;
}.
(** The last value of a number that edits set. *)
Definition number_of (has : VersionEdit -> bool) (num : VersionEdit -> Z) (o : option Z) (e : VersionEdit) : option Z :=
  if has e then Some (num e) else o.
Definition last_number has num (es : list VersionEdit) (o : option Z) : option Z := fold_left (number_of has num) es o.
Definition recovered (rc : Recovered) (es : list VersionEdit) (st : Store) (cp : list bytes) (b : Builder) : Recovered :=
  {| rc_store := st; rc_pointers := cp; rc_builder := b;
     rc_log := last_number has_log_number_ VersionEdit.log_number_ es (rc_log rc);
     rc_prev := last_number has_prev_log_number_ VersionEdit.prev_log_number_ es (rc_prev rc);
     rc_next := last_number has_next_file_number_ VersionEdit.next_file_number_ es (rc_next rc);
     rc_last := last_number has_last_sequence_ VersionEdit.last_sequence_ es (rc_last rc) |}.

Section Recovery.
Context (ucmp : Comparator) (Hc : ComparatorOk ucmp bytes_ok) (Hid : cmp_identity ucmp).
Context (cmp_name dbname : bytes) (asserts : bool) (garbage : list SpecFloat.spec_float).

Lemma Recover_record_ok rc e st cp b : loggable cmp_name e ->
  Apply ucmp (rc_store rc) (rc_pointers rc) (rc_builder rc) (persisted VersionEdit_new e) = Some (st, cp, b) ->
  Recover_record ucmp cmp_name asserts rc (record_of e) = Some (OK, recovered rc [e] st cp b).
Proof.
  intros [Hok Hb Hcmp _] Ha. unfold Recover_record. rewrite DecodeFrom_EncodeTo by done. cbn [ok OK andb].
  assert (has_comparator_ (persisted VersionEdit_new e) &&
    negb (bool_decide (comparator_ (persisted VersionEdit_new e) = cmp_name)) = false) as ->.
  { cbn [persisted has_comparator_ comparator_]. destruct (has_comparator_ e); [|done]. cbn. by rewrite bool_decide_true by auto. }
  cbn [ok OK]. rewrite Ha. cbn [mbind option_bind]. unfold recovered, last_number, number_of. cbn [fold_left persisted
    has_log_number_ has_prev_log_number_ has_next_file_number_ has_last_sequence_ VersionEdit.log_number_
    VersionEdit.prev_log_number_ VersionEdit.next_file_number_ VersionEdit.last_sequence_].
  by destruct (has_log_number_ e), (has_prev_log_number_ e), (has_next_file_number_ e), (has_last_sequence_ e).
Qed.

(** The loop reads the edits whose records lie in the first [k] bytes. *)
Lemma Recover_loop_logs off recs bs : logs off recs bs -> forall es r k fuel rc st cp b,
  recs = (fun e => record_of e) <$> es -> at_pos r off (take (Z.to_nat (k - off)) bs) -> 0 <= Reader.last_record_offset_ r ->
  Forall (loggable cmp_name) es -> (length bs < fuel)%nat ->
  apply_all ucmp (persisted VersionEdit_new <$> take (LogProofs.complete off recs k) es) (rc_store rc, rc_pointers rc, rc_builder rc) =
    Some (st, cp, b) ->
  Recover_loop ucmp cmp_name asserts (S (length es)) fuel r OK rc =
    Some (OK, recovered rc (take (LogProofs.complete off recs k) es) st cp b).
Proof.
  assert (forall rc, recovered rc [] (rc_store rc) (rc_pointers rc) (rc_builder rc) = rc) as Hrc by (by intros []).
  assert (forall r r' : Reader.Reader (list Z), Reader.reporter_ r' = Reader.reporter_ r ->
    report_status OK (drop (length (reports r)) (reports r')) = OK) as Hrep.
  { intros r r' E. unfold reports. rewrite E. by rewrite drop_ge. }
  induction 1 as [off|off d recs bs bs' He Hres Hl IH]; intros es r k fuel rc st cp b Erecs Ha Hlast Hok Hf Happ;
    (destruct es as [|e es]; cbn [fmap list_fmap] in Erecs; [try done|try done]).
  - rewrite take_nil in Ha. destruct fuel as [|fuel]; [lia|].
    destruct (ReadRecord_end r off fuel Ha Hlast) as (r' & E & Hr). cbn [length Recover_loop]. rewrite E. cbn [mbind option_bind].
    rewrite (Hrep r r' Hr). cbn in Happ. injection Happ as <- <- <-. by rewrite take_nil, Hrc.
  - injection Erecs as Ed Er. apply Forall_cons in Hok as [Hek Hok]. rewrite length_app in Hf.
    destruct (read_record off d bs bs' r k fuel He Ha Hlast) as (r1 & Hr1 & H); [rewrite Ed; apply Hek|lia|].
    cbn [LogProofs.complete] in *. rewrite Hres in *. cbn [length]. remember (S (length es)) as n eqn:En. cbn [Recover_loop].
    destruct (_ <=? k).
    + destruct H as (E & Hlast1 & Ha1). rewrite E. cbn [mbind option_bind]. rewrite (Hrep r r1 Hr1). cbn [ok OK negb].
      cbn [take fmap list_fmap] in Happ. unfold apply_all in Happ. cbn [foldM apply_one] in Happ.
      destruct (Apply ucmp _ _ _ _) as [[[st1 cp1] b1]|] eqn:Ea; [|done].
      rewrite Ed, (Recover_record_ok rc e st1 cp1 b1 Hek Ea). cbn [mbind option_bind]. subst n.
      rewrite (IH es r1 k fuel (recovered rc [e] st1 cp1 b1) st cp b Er Ha1 Hlast1 Hok ltac:(lia) Happ). done.
    + rewrite H. cbn [mbind option_bind]. rewrite (Hrep r r1 Hr1). cbn in Happ. injection Happ as <- <- <-. by rewrite Hrc.
Qed.

(** ** Reading CURRENT *)

Lemma read_all_mem fuel : forall (f data : list Z), (length f < fuel)%nat ->
  FileName.read_all fuel f data = Some (OK, data ++ f).
Proof.
  induction fuel as [|fuel IH]; intros f data Hf; [lia|]. cbn [FileName.read_all]. rewrite mem_Read. cbn [ok OK negb].
  assert (0 < Z.to_nat kBufferSize)%nat as Hk by (unfold kBufferSize; lia).
  destruct (take (Z.to_nat kBufferSize) f) as [|x l] eqn:Et.
  - apply (f_equal length) in Et. rewrite length_take in Et. cbn [length] in Et.
    assert (f = []) as -> by (apply length_zero_iff_nil; lia). done.
  - pose proof (f_equal length Et) as Hl. rewrite length_take in Hl. cbn [length] in Hl. rewrite IH by (rewrite length_drop; lia). by rewrite <- Et, <- (assoc_L (++)), take_drop.
Qed.
Lemma current_names n : last (current_contents n) = Some 10 /\
  dbname ++ [47] ++ take (length (current_contents n) - 1) (current_contents n) = DescriptorFileName dbname n.
Proof.
  unfold current_contents. rewrite (assoc_L (++)). split; [apply last_snoc|].
  rewrite length_app. cbn [length]. rewrite Nat.add_sub, take_app_length. done.
Qed.

(** ** Recovery *)

Context {E : Type} {HE : Env E} {HM : ManifestEnv E (list Z)} (files : E -> gmap (list Z) (list Z)).
Context {HMok : ManifestEnvOk E files}.

Lemma VersionSet_new_eq vs0 : VersionSet_new garbage = Some vs0 ->
  current_ vs0 = 1 /\ vs_store vs0 = empty_store /\ descriptor_log_ vs0 = None /\
  exists o, vs_objects vs0 !! 1 = Some o /\ vo_version o = set_v_refs Version_new 1.
Proof. intros [= <-]. split_and!; [done|done|done|]. by eexists. Qed.

Lemma persisted_edits es L : Forall2 (fun e e' => effect e' L = effect e L) es (persisted VersionEdit_new <$> es).
Proof. induction es as [|e es IH]; constructor; [apply persisted_effect|done]. Qed.
Lemma marked_numbers vs n : exists next, MarkFileNumberUsed vs n = set_next vs next.
Proof. unfold MarkFileNumberUsed. destruct (_ <=? _); [by eexists|]. exists (next_file_number_ vs). by destruct vs. Qed.

Record recovered_set (es : list VersionEdit) (lg nx sq : Z) (vs' : VersionSet) : Prop := {
  rs_inv : forall env : E, winv ucmp {| w_env := env; w_vs := vs'; w_phase := Idle; w_held := ∅ |};
  rs_current : exists o, vs_objects vs' !! current_ vs' = Some o /\ forall L, L ∈ levels ->
    abs_version (st_files (vs_store vs')) (vo_version o) L = spec_edits es L ∅ /\
    guard_keys (at_level (guards_ (vo_version o)) L) = edits_guards es L;
  rs_closed : descriptor_log_ vs' = None;
  rs_numbers : log_number_ vs' = lg /\
    prev_log_number_ vs' = default 0 (last_number has_prev_log_number_ VersionEdit.prev_log_number_ es None) /\
    last_sequence_ vs' = sq /\ manifest_file_number_ vs' = nx /\ next_file_number_ vs' = u64 (nx + 1);
}.

Lemma Recover_ok env vs0 es f k n fuel lg nx sq :
  let es' := take (LogProofs.complete 0 ((fun e => record_of e) <$> es) k) es in
  VersionSet_new garbage = Some vs0 ->
  files env !! CurrentFileName dbname = Some (current_contents n) ->
  files env !! DescriptorFileName dbname n = Some (take (Z.to_nat k) f) ->
  logs 0 ((fun e => record_of e) <$> es) f -> blen f < 2 ^ 32 ->
  Forall (loggable cmp_name) es -> (forall L, L ∈ levels -> NoDup (f_number <$> edits_new es L)) ->
  last_number has_log_number_ VersionEdit.log_number_ es' None = Some lg ->
  last_number has_next_file_number_ VersionEdit.next_file_number_ es' None = Some nx ->
  last_number has_last_sequence_ VersionEdit.last_sequence_ es' None = Some sq ->
  (length f + length (current_contents n) < fuel)%nat ->
  exists vs', Recover ucmp cmp_name dbname asserts garbage (S (length es)) fuel env vs0 = Some (OK, vs') /\
    recovered_set es' lg nx sq vs'.
Proof.
  intros es' Hnew Hcur Hman Hl Hsz Hok Hfr Elg Enx Esq Hfuel. unfold Recover.
  rewrite (open_file env _ _ Hcur). unfold ReadFileToString. cbn [ok OK negb].
  rewrite read_all_mem by lia. change ([] ++ current_contents n) with (current_contents n).
  cbn [mbind option_bind ok OK negb].
  destruct (current_names n) as [H1 H2]. rewrite (bool_decide_true _ H1). cbn [negb]. rewrite H2, (open_file env _ _ Hman). cbn [ok OK negb].
  destruct (VersionSet_new_eq vs0 Hnew) as (Ec & Est & Ed & o & Eo & Ev).
  destruct (VersionSet_new_ok (E := E) ucmp Hc Hid garbage) as (vs0' & E0' & Hw). assert (vs0' = vs0) as -> by congruence.
  pose proof (wi_core _ _ (Hw env)) as Hco. cbn [w_vs w_held w_phase pending_of] in Hco. rewrite (left_id_L ∅ (⊎)) in Hco.
  destruct (core_Ref vs0 ∅ _ None (current_ vs0) Hco ltac:(multiset_solver)) as (vs1 & -> & Hc1 & Hs1 & Hp1 & Est1).
  cbn [mbind option_bind]. destruct (sm_rest _ _ _ Hs1) as (Efr & Ecur & R).
  destruct (proj1 (co_live _ _ _ _ Hc1 (current_ vs0)) ltac:(multiset_solver)) as [[o1 E1] _].
  destruct (sm_objects _ _ _ Hs1 _ _ E1) as (o0 & m & E0 & Eo1). assert (o0 = o) as -> by congruence.
  assert (version_inv ucmp (vs_store vs1) (vo_version o1)) as Hv1.
  { rewrite Eo1, Ev, Est1, Est. do 2 apply (version_inv_refs ucmp). apply version_inv_new. }
  assert (Forall (loggable cmp_name) es') as Hok' by (by apply Forall_take).
  destruct (saved_core ucmp Hc Hid vs1 _ None _ o1 (persisted VersionEdit_new <$> es') None Hc1 E1 Hv1)
    as (st' & cp' & b & h' & v & e' & Ha & Hs & Hc2 & Hs12 & Hv' & Hr & H).
  { apply Forall_fmap. eapply Forall_impl; [exact Hok'|]. intros e He. apply persisted_applies, He. }
  { intros L HL. rewrite level_state_new. rewrite (edits_new_effect es' _ L (persisted_edits es' L)).
    assert (at_level (files_ (vo_version o1)) L = []) as -> by (rewrite Eo1, Ev; apply (Version_new_empty L HL)).
    rewrite app_nil_r. specialize (Hfr L HL). rewrite <- (take_drop (LogProofs.complete 0 ((fun e => record_of e) <$> es) k) es) in Hfr.
    unfold edits_new in *. rewrite fmap_app, concat_app, fmap_app in Hfr. by apply NoDup_app in Hfr as [? _]. }
  assert (at_pos (Reader.new (take (Z.to_nat k) f) true true 0) 0 (take (Z.to_nat (k - 0)) f)) as Hpos.
  { rewrite Z.sub_0_r. apply at_pos_new. rewrite blen_take. ulia. }
  erewrite Recover_loop_logs; [|exact Hl|reflexivity|exact Hpos|done|exact Hok|lia|exact Ha].
  cbn [mbind option_bind ok OK recovered rc_store rc_pointers rc_builder rc_log rc_prev rc_next rc_last]. fold es'.
  rewrite Elg, Enx, Esq. cbn [from_option id ok OK].
  set (pl := default 0 _). destruct (marked_numbers (set_pointers vs1 st' cp') pl) as (n1 & ->).
  destruct (marked_numbers (set_next (set_pointers vs1 st' cp') n1) lg) as (n2 & ->).
  cbn [set_next set_numbers vs_objects set_pointers vs_store]. rewrite E1. cbn [mbind option_bind]. rewrite Hs. cbn [set_pointers].
  set (vs2 := set_pointers _ _ _). set (obj := {| vo_version := v; vo_scores := _ |}).
  assert (core vs2 (mset (all_files (vo_version obj)) ⊎ mset (builder_files b)) {[+ current_ vs0; current_ vs0 +]} None) as Hc2'
    by (by eapply core_ext; [..|exact Hc2]).
  pose proof (core_new vs2 _ _ obj Hc2' Hr) as Hc3. cbn [new_version] in *. set (vs3 := {| vs_store := _ |}) in *. cbn [fst] in Hc3.
  destruct (AppendVersion_ok vs3 (mset (builder_files b)) {[+ current_ vs0 +]} (vs_fresh vs2)) as (vs4 & -> & Hc4 & Ecur4 & Ecp4 & Hs34).
  { cbn [vs3 current_ vs2 set_pointers set_next set_numbers]. by rewrite Ecur. }
  cbn [mbind option_bind]. set (vs5 := set_numbers vs4 _ _ _ _ _).
  assert (core vs5 (∅ ⊎ mset (builder_files b)) ({[+ current_ vs0 +]} ⊎ {[+ vs_fresh vs2 +]}) None) as Hc5.
  { rewrite (left_id_L ∅ (⊎)). by eapply core_ext; [..|exact Hc4]. }
  destruct (core_builder_destroy vs5 ∅ _ None b (compact_pointer_ vs5) Hc5) as [Hc6 Hs56]. set (vs6 := set_pointers vs5 _ _) in *.
  destruct (core_Unref vs6 ∅ _ None (current_ vs0) Hc6 ltac:(multiset_solver)) as (vs7 & -> & Hc7 & Hs67 & _). cbn [mbind option_bind].
  replace (({[+ current_ vs0 +]} ⊎ {[+ vs_fresh vs2 +]}) ∖ {[+ current_ vs0 +]}) with ({[+ vs_fresh vs2 +]} : gmultiset Z) in Hc7
    by multiset_solver.
  exists vs7. split; [done|].
  pose proof (same_versions_trans _ _ _ _ Hs56 Hs67) as Hs57. destruct (sm_rest _ _ _ Hs57) as (_ & Ecur7 & R7).
  assert (current_ vs7 = vs_fresh vs2) as Ec7 by (rewrite Ecur7; done).
  destruct (proj1 (co_live _ _ _ _ Hc7 (vs_fresh vs2)) ltac:(multiset_solver)) as [[o7 E7] _].
  destruct (sm_objects _ _ _ Hs57 _ _ E7) as (o5 & n5 & E5 & Eo5).
  change (vs_objects vs5) with (vs_objects vs4) in E5. destruct (sm_objects _ _ _ Hs34 _ _ E5) as (o3 & n3 & E3 & Eo3).
  assert (o3 = obj) as ->.
  { cbn [vs3 vs_objects] in E3. rewrite lookup_insert_eq in E3. by injection E3. }
  assert (same_on (mset (all_files v)) h' (st_files (vs_store vs7))) as Hson.
  { apply (same_on_trans _ _ (st_files (vs_store vs4))).
    - destruct Hs34 as [_ [_ Hx] _]. eapply same_on_sub; [|exact Hx]. cbn [set_current vs_objects].
      rewrite (owned_delete _ _ _ E5), list_to_set_disj_app, Eo3. cbn [obj vo_version]. rewrite all_files_refs. multiset_solver.
    - destruct Hs57 as [_ [_ Hx] _]. eapply same_on_sub; [|exact Hx].
      rewrite (owned_delete _ _ _ E7), list_to_set_disj_app, Eo5, Eo3. cbn [obj vo_version]. rewrite !all_files_refs. multiset_solver. }
  assert (st_next st' <= st_next (vs_store vs7)) as Hnext.
  { destruct (sm_store _ _ _ Hs34) as [Hx _]. destruct (sm_store _ _ _ Hs57) as [Hy _]. cbn in Hx, Hy. lia. }
  assert (vo_version o7 = set_v_refs v n5) as Ev7 by (by rewrite Eo5, Eo3).
  assert (version_inv ucmp (vs_store vs7) (vo_version o7)) as Hv7.
  { rewrite Ev7. apply (version_inv_refs ucmp). by apply (version_inv_local ucmp (set_files st' h')). }
  split.
  - intros env'. split; cbn [w_vs w_phase w_held pending_of]; [|intros p [->|]; [|done]|done].
    + rewrite Ec7. by rewrite (left_id_L ∅ (⊎)).
    + rewrite Ec7. by exists o7.
  - exists o7. rewrite Ec7. split; [done|]. intros L HL. rewrite Ev7. destruct (H L HL) as [HA HG].
    rewrite (spec_edits_effect es' _ L (persisted_edits es' L)) in HA.
    rewrite (edits_guards_effect es' _ L (persisted_edits es' L)) in HG.
    rewrite Eo1, Ev in HA, HG. destruct (Version_new_empty L HL) as (Ef0 & Eg0 & _).
    split.
    + rewrite <- (abs_version_local h'); [|done|exact Hson]. change (abs_version h' (set_v_refs v n5) L) with (abs_version h' v L).
      rewrite HA. unfold abs_version. cbn [set_v_refs files_]. by rewrite Ef0.
    + change (at_level (guards_ (set_v_refs v n5)) L) with (at_level (guards_ v) L). rewrite HG. cbn [set_v_refs guards_].
      rewrite Eg0. unfold guard_keys. cbn. by rewrite (right_id_L ∅ (∪)).
  - decompose [and] R7. destruct (sm_rest _ _ _ Hs34) as (_ & _ & R34). decompose [and] R34. decompose [and] R.
    cbn in *. congruence.
  - destruct R7 as (-> & -> & -> & -> & -> & _). done.
Qed.
End Recovery.
