(* ===== verification/ManifestSafety.v ===== *)
(** * The manifest and the set of versions agree

    Over the state machine of [VersionSetSafety]: in a run whose calls succeed, the manifest
    is the log of the edits that were installed, after a snapshot of the version the run
    started from.  Hence [Recover] of a crash at any point, with the record being written
    torn, gives the version that was last installed. *)

From stdpp Require Import gmap gmultiset sorting.
From S2P Require Import Prelude Coding Status Comparator DbFormat Bloom LogFormat LogProofs.
From S2P Require Import VersionEdit FileName MemTable TableGet Version VersionProofs VersionGet VersionBuilder.
From S2P Require Import VersionBuilderProofs FileRefs VersionRefines VersionSet VersionSetProofs VersionSetSafety.
From S2P Require Import Manifest ManifestRecover.
From stdpp Require Import list.
#[local] Open Scope Z_scope.

(** ** What recovery restores of a version *)

Definition view (vs : VersionSet) (o : VersionObject) (L : Z) : list Z * gmap Z info * gset (list Z) :=
  (numbers (st_files (vs_store vs)) (at_level (files_ (vo_version o)) L),
   abs_version (st_files (vs_store vs)) (vo_version o) L, guard_keys (at_level (guards_ (vo_version o)) L)).
Lemma view_local vs vs' o o' L : L ∈ levels -> files_ (vo_version o') = files_ (vo_version o) ->
  guards_ (vo_version o') = guards_ (vo_version o) ->
  same_on (mset (all_files (vo_version o))) (st_files (vs_store vs)) (st_files (vs_store vs')) ->
  view vs' o' L = view vs o L.
Proof.
  intros HL Ef Eg Hs. unfold view, abs_version, abs_files. rewrite Ef, Eg.
  assert (forall a, a ∈ at_level (files_ (vo_version o)) L ->
    finfo (deref (st_files (vs_store vs)) a) = finfo (deref (st_files (vs_store vs')) a)) as Hf.
  { intros a Ha. apply Hs. rewrite elem_of_mset. apply all_files_spec. by exists L. }
  do 2 f_equal; [|f_equal]; apply list_fmap_ext; intros i a Ha%list_elem_of_lookup_2; specialize (Hf a Ha);
    unfold finfo in Hf; unfold file_pair, file_info; congruence.
Qed.
Lemma same_versions_view Y vs vs' p o' : same_versions Y vs vs' -> vs_objects vs' !! p = Some o' ->
  exists o, vs_objects vs !! p = Some o /\ forall L, L ∈ levels -> view vs' o' L = view vs o L.
Proof.
  intros Hs E'. destruct (sm_objects _ _ _ Hs p o' E') as (o & n & E & Eo). exists o. split; [done|]. intros L HL.
  apply view_local; [done|by rewrite Eo|by rewrite Eo|]. destruct (sm_store _ _ _ Hs) as [_ Hx]. eapply same_on_sub; [|exact Hx].
  rewrite (owned_delete _ _ _ E'), list_to_set_disj_app, Eo, all_files_refs. multiset_solver.
Qed.

Section Manifests.
Context (ucmp : Comparator) (Hc : ComparatorOk ucmp bytes_ok) (Hid : cmp_identity ucmp).
Context (cmp_name dbname : bytes) (asserts : bool) (garbage : list SpecFloat.spec_float).
Context {E : Type} {HE : Env E} {HM : ManifestEnv E (list Z)} (files : E -> gmap (list Z) (list Z)).
Context {HEok : EnvOk E files} {HMok : ManifestEnvOk E files}.
Abbreviation World := (@World E).
Abbreviation vrun := (vrun ucmp cmp_name dbname garbage).
Abbreviation vruns := (vruns ucmp cmp_name dbname garbage).
Abbreviation winv := (winv ucmp).

(** ** Runs whose calls succeed *)

Definition phase_ok (ph : phase) : Prop := match ph with Idle => True | Writing _ s | Written _ s => ok s = true end.
(** The record of an edit can be encoded, and written at an offset of the manifest. *)
Definition fits (off : Z) (e : VersionEdit) : Prop :=
  edit_ok e /\ bytes_ok (record_of e) /\ (has_comparator_ e = true -> comparator_ e = cmp_name) /\
  LogProofs.placed off [record_of e] = true.
(** What [op] writes fits. *)
Definition writes_fit (w : World) (op : vop) : Prop :=
  let vs := w_vs w in
  match op, w_phase w, descriptor_log_ vs with
  | OBegin edit, _, None => forall vs' pd o, la_begin ucmp garbage vs edit = Some (vs', pd) ->
      vs_objects vs' !! current_ vs' = Some o ->
      fits 0 (snapshot cmp_name (st_files (vs_store vs')) (compact_pointer_ vs') (vo_version o))
  | OWrite, Writing pd _, Some (_, off) => fits off (pd_edit pd)
  | _, _, _ => True
  end.
Fixpoint all_logged (w : World) (ops : list vop) : Prop :=
  match ops with
  | [] => True
  | op :: ops => allowed w op /\ writes_fit w op /\ forall w', vrun w op = Some w' -> phase_ok (w_phase w') /\ all_logged w' ops
  end.
(** The edits of a run. *)
Definition begun (ops : list vop) : list VersionEdit := omap (fun op => match op with OBegin e => Some e | _ => None end) ops.

(** ** Steps that leave the manifest alone *)

Record quiet (w w' : World) : Prop := {
  qu_env : w_env w' = w_env w;
  qu_phase : w_phase w' = w_phase w;
  qu_current : current_ (w_vs w') = current_ (w_vs w);
  qu_numbers : descriptor_log_ (w_vs w') = descriptor_log_ (w_vs w) /\
    manifest_file_number_ (w_vs w') = manifest_file_number_ (w_vs w) /\
    log_number_ (w_vs w') = log_number_ (w_vs w) /\ prev_log_number_ (w_vs w') = prev_log_number_ (w_vs w) /\
    last_sequence_ (w_vs w) <= last_sequence_ (w_vs w');
  qu_objects : forall p o', p = current_ (w_vs w) \/ pending_of (w_phase w) = Some p -> vs_objects (w_vs w') !! p = Some o' ->
    exists o, vs_objects (w_vs w) !! p = Some o /\ forall L, L ∈ levels -> view (w_vs w') o' L = view (w_vs w) o L;
}.
Lemma quiet_refs w vs' held' : same_versions ∅ (w_vs w) vs' ->
  quiet w {| w_env := w_env w; w_vs := vs'; w_phase := w_phase w; w_held := held' |}.
Proof.
  intros Hs. destruct (sm_rest _ _ _ Hs) as (_ & Ecur & R). decompose [and] R. split; cbn [w_env w_vs w_phase]; try done.
  - split_and!; try done. lia.
  - intros p o' _ E'. by eapply same_versions_view.
Qed.
(** One version object and the files' seek counters change. *)
Lemma quiet_update w p o v h : vs_objects (w_vs w) !! p = Some o -> files_ v = files_ (vo_version o) ->
  guards_ v = guards_ (vo_version o) -> (forall a, finfo (deref (st_files (vs_store (w_vs w))) a) = finfo (deref h a)) ->
  quiet w (set_vs w (set_objects (w_vs w) (set_files (vs_store (w_vs w)) h)
    (<[p := with_version o v]> (vs_objects (w_vs w))) (dummy_versions_ (w_vs w)))).
Proof.
  intros E0 Ef Eg Hh. split; cbn [set_vs w_env w_vs w_phase]; try done. intros q o' _ E'. cbn [set_objects vs_objects] in E'.
  destruct (decide (p = q)) as [<-|Hne].
  - rewrite lookup_insert_eq in E'. injection E' as <-. exists o. split; [done|]. intros L HL. apply view_local; try done. intros a _. apply Hh.
  - rewrite lookup_insert_ne in E' by done. exists o'. split; [done|]. intros L HL. apply view_local; try done. intros a _. apply Hh.
Qed.
Lemma quiet_counters w vs' : vs_store vs' = vs_store (w_vs w) -> vs_objects vs' = vs_objects (w_vs w) ->
  current_ vs' = current_ (w_vs w) -> descriptor_log_ vs' = descriptor_log_ (w_vs w) ->
  manifest_file_number_ vs' = manifest_file_number_ (w_vs w) -> log_number_ vs' = log_number_ (w_vs w) ->
  prev_log_number_ vs' = prev_log_number_ (w_vs w) -> last_sequence_ (w_vs w) <= last_sequence_ vs' -> quiet w (set_vs w vs').
Proof.
  intros E1 E2 E3 E4 E5 E6 E7 E8. split; cbn [set_vs w_env w_vs w_phase]; try done. intros p o' _ E'. rewrite E2 in E'.
  exists o'. split; [done|]. intros L HL. unfold view. by rewrite E1.
Qed.
Lemma quiet_step w op w' : winv w -> allowed w op -> vrun w op = Some w' ->
  match op with OBegin _ | OWrite | OFinish _ _ => False | _ => True end -> quiet w w'.
Proof.
  intros Hw Ha Hrun Hop. destruct op as [e| |ns fs| |p|L g|p st| |n|n|n]; try done; cbn [VersionSetSafety.vrun] in Hrun.
  - destruct (core_Ref _ _ _ _ (current_ (w_vs w)) (wi_core _ w Hw) ltac:(multiset_solver)) as (vs' & Er & _ & Hs & _).
    rewrite Er in Hrun. injection Hrun as <-. by apply quiet_refs.
  - cbn in Ha. destruct (core_Unref _ _ _ _ p (wi_core _ w Hw) ltac:(multiset_solver)) as (vs' & Er & _ & Hs & _).
    rewrite Er in Hrun. injection Hrun as <-. by apply quiet_refs.
  - unfold on_version in Hrun. destruct (vs_objects (w_vs w) !! _) as [o|] eqn:Eo; [|done]. cbn [mbind option_bind] in Hrun.
    destruct (AddToCompleteGuards _ _ _) as [v|] eqn:Ev; [|done]. injection Hrun as <-.
    unfold AddToCompleteGuards in Ev. destruct (_ && _); [|done]. injection Ev as <-.
    replace (vs_store (w_vs w)) with (set_files (vs_store (w_vs w)) (st_files (vs_store (w_vs w)))) by by destruct (vs_store (w_vs w)).
    by apply quiet_update.
  - unfold update_stats in Hrun. destruct (vs_objects (w_vs w) !! p) as [o|] eqn:Eo; [|done]. cbn [mbind option_bind] in Hrun.
    assert (forall a, finfo (deref (st_files (vs_store (w_vs w))) a) = finfo (deref (<[seek_file st :=
      set_allowed_seeks (deref (st_files (vs_store (w_vs w))) (seek_file st))
        (f_allowed_seeks (deref (st_files (vs_store (w_vs w))) (seek_file st)) - 1)]> (st_files (vs_store (w_vs w)))) a)) as Hh.
    { intros b. destruct (decide (seek_file st = b)) as [<-|Hne]; [by rewrite deref_insert|by rewrite deref_insert_ne]. }
    unfold UpdateStats in Hrun. destruct (_ =? 0); [|destruct (_ && _)]; injection Hrun as <-; by apply quiet_update.
  - injection Hrun as <-. by apply quiet_counters.
  - injection Hrun as <-. unfold ReuseFileNumber. destruct (_ =? _); by apply quiet_counters.
  - injection Hrun as <-. unfold MarkFileNumberUsed. destruct (_ <=? _); by apply quiet_counters.
  - injection Hrun as <-. unfold SetLastSequence. destruct (Z.leb_spec (last_sequence_ (w_vs w)) n); by apply quiet_counters.
Qed.

(** ** The manifest holds the installed edits *)

(** The version at [p] is what the edits make. *)
Definition shows (vs : VersionSet) (p : Z) (es : list VersionEdit) : Prop :=
  exists o, vs_objects vs !! p = Some o /\ forall L, L ∈ levels ->
    abs_version (st_files (vs_store vs)) (vo_version o) L = spec_edits es L ∅ /\
    guard_keys (at_level (guards_ (vo_version o)) L) = edits_guards es L.
Definition pending_edit (ph : phase) : list VersionEdit :=
  match ph with Idle => [] | Writing pd _ | Written pd _ => [pd_edit pd] end.
Definition written (ph : phase) : list VersionEdit := match ph with Written pd _ => [pd_edit pd] | _ => [] end.
Definition creating (ph : phase) : Prop :=
  match ph with Idle => False | Writing pd _ | Written pd _ => pd_new_manifest pd = true end.
Definition all_numbers (e : VersionEdit) : Prop :=
  has_log_number_ e = true /\ has_prev_log_number_ e = true /\ has_next_file_number_ e = true /\ has_last_sequence_ e = true.

Section Invariant.
Context (n0 : Z) (Hn0 : is_u64 n0) (N0 : Z -> list Z).
Abbreviation manifest := (DescriptorFileName dbname n0).

Record unopened (w : World) : Prop := {
  un_closed : descriptor_log_ (w_vs w) = None;
  un_idle : w_phase w = Idle;
  un_number : manifest_file_number_ (w_vs w) = n0;
  un_files : exists o, vs_objects (w_vs w) !! current_ (w_vs w) = Some o /\ forall L, L ∈ levels ->
    numbers (st_files (vs_store (w_vs w))) (at_level (files_ (vo_version o)) L) = N0 L;
}.
(** [H] are the edits installed, the snapshot first; [B] are the edits begun. *)
Record logged (w : World) (H B : list VersionEdit) : Prop := {
  lg_file : exists f, descriptor_log_ (w_vs w) = Some (manifest, blen f) /\ files (w_env w) !! manifest = Some f /\
    logs 0 ((fun e => record_of e) <$> (H ++ written (w_phase w))) f /\ blen f < 2 ^ 32;
  lg_edits : Forall (loggable cmp_name) (H ++ written (w_phase w));
  lg_applies : Forall edit_applies (pending_edit (w_phase w));
  lg_current : shows (w_vs w) (current_ (w_vs w)) H;
  lg_pending : forall p, pending_of (w_phase w) = Some p -> shows (w_vs w) p (H ++ pending_edit (w_phase w));
  lg_fresh : forall L, L ∈ levels ->
    f_number <$> edits_new (H ++ pending_edit (w_phase w)) L = N0 L ++ (f_number <$> edits_new B L);
  lg_CURRENT : (exists pd s, w_phase w = Writing pd s /\ pd_new_manifest pd = true) \/
    files (w_env w) !! CurrentFileName dbname = Some (current_contents n0);
  lg_numbers : creating (w_phase w) \/ (exists nx sq,
    last_number has_log_number_ VersionEdit.log_number_ H None = Some (log_number_ (w_vs w)) /\
    last_number has_prev_log_number_ VersionEdit.prev_log_number_ H None = Some (prev_log_number_ (w_vs w)) /\
    last_number has_next_file_number_ VersionEdit.next_file_number_ H None = Some nx /\
    last_number has_last_sequence_ VersionEdit.last_sequence_ H None = Some sq /\ sq <= last_sequence_ (w_vs w));
  lg_pending_numbers : forall e, e ∈ pending_edit (w_phase w) ->
    all_numbers e /\ VersionEdit.last_sequence_ e <= last_sequence_ (w_vs w);
  lg_number : manifest_file_number_ (w_vs w) = n0;
}.
Definition minv (w : World) (B : list VersionEdit) : Prop := (unopened w /\ B = []) \/ exists H, logged w H B.

Lemma shows_view vs vs' p o o' es : vs_objects vs !! p = Some o -> vs_objects vs' !! p = Some o' ->
  (forall L, L ∈ levels -> view vs' o' L = view vs o L) -> shows vs p es -> shows vs' p es.
Proof.
  intros E1 E2 Hv (o0 & E0 & H). assert (o0 = o) as -> by congruence. exists o'. split; [done|]. intros L HL.
  specialize (Hv L HL). injection Hv as _ -> ->. by apply H.
Qed.
Lemma quiet_minv w w' B : winv w' -> quiet w w' -> minv w B -> minv w' B.
Proof.
  intros Hw' [Q1 Q2 Q3 (D1 & D2 & D3 & D4 & D5) Q5] HI.
  assert (forall p es, p = current_ (w_vs w) \/ pending_of (w_phase w) = Some p -> shows (w_vs w) p es -> shows (w_vs w') p es) as Hsh.
  { intros p es Hp Hs. destruct (wi_versions _ w' Hw' p) as (o' & E' & _); [by rewrite Q2, Q3|].
    destruct (Q5 p o' Hp E') as (o & E0 & Hv). by eapply shows_view. }
  destruct HI as [[[U1 U2 U3 (o & U4 & U5)] ->]|(H & [G1 G2 G3 G4 G5 G6 G7 G8 G9 G10])].
  - left. split; [|done]. split; [congruence|congruence|congruence|].
    destruct (wi_versions _ w' Hw' (current_ (w_vs w))) as (o' & E' & _); [by left|].
    destruct (Q5 (current_ (w_vs w)) o' ltac:(by left) E') as (o1 & E1 & Hv). assert (o1 = o) as -> by congruence.
    rewrite Q3. exists o'. split; [done|]. intros L HL. specialize (Hv L HL). injection Hv as -> _ _. by apply U5.
  - right. exists H. split; rewrite ?Q1, ?Q2, ?D1, ?D2, ?D3, ?D4, ?Q3; try done.
    + apply Hsh; [by left|done].
    + intros p Hp. apply Hsh; [by right|by apply G5].
    + destruct G8 as [?|(nx & sq & ? & ? & ? & ? & ?)]; [by left|right]. exists nx, sq. split_and!; try done. lia.
    + intros e He. destruct (G9 e He). split; [done|lia].
Qed.

(** *** The edit being written *)

Lemma same_changes_effect e e' : same_changes e e' -> same_effect e e'.
Proof. intros (_ & E1 & E2 & E3 & _) L. unfold effect, edit_deleted, edit_new. by rewrite E1, E2, E3. Qed.
Lemma pd_edit_ok (w : World) e e1 o : winv w -> vs_objects (w_vs w) !! current_ (w_vs w) = Some o -> edit_applies e ->
  complete_edit (w_vs w) e = Some e1 -> same_changes e e1 ->
  let pe := saved_edit ucmp (vo_version o) e1 in
  same_effect e pe /\ edit_applies pe /\ all_numbers pe /\ VersionEdit.last_sequence_ pe = last_sequence_ (w_vs w).
Proof.
  intros Hw Eo Hap Ece Hsc pe. destruct (wi_versions _ w Hw (current_ (w_vs w)) ltac:(by left)) as (o0 & E0 & Hov).
  assert (o0 = o) as -> by congruence.
  assert (more_complete e1 pe) as Hm by (apply saved_edit_more; intros L HL; apply (bg_complete _ _ _ (vi_guards _ _ _ Hov L HL))).
  split; [|split; [by eapply more_complete_applies, same_changes_applies|]].
  - intros L. rewrite (more_complete_effect _ _ Hm L). by apply same_changes_effect.
  - destruct Hm as (cg & -> & _). unfold complete_edit in Ece. destruct (if has_log_number_ e then _ else _) as [e2|] eqn:E2; [|done].
    cbn [mbind option_bind] in Ece. injection Ece as <-. unfold all_numbers.
    assert (has_log_number_ e2 = true) as Hl.
    { destruct (has_log_number_ e) eqn:El; [|by injection E2 as <-]. destruct (_ && _); [|done]. by injection E2 as <-. }
    destruct (has_prev_log_number_ e2) eqn:Ep; cbn; by rewrite ?Hl, ?Ep.
Qed.
Lemma edits_new_snoc es e L : edits_new (es ++ [e]) L = edits_new es L ++ edit_new e L.
Proof. unfold edits_new. rewrite fmap_app, concat_app. cbn. by rewrite app_nil_r. Qed.
Lemma effect_numbers e e' L : effect e' L = effect e L -> f_number <$> edit_new e' L = f_number <$> edit_new e L.
Proof. intros [= _ Ee _]. apply (f_equal (fmap fst)) in Ee. by rewrite <- !list_fmap_compose in Ee. Qed.
Lemma effect_guards e e' L : effect e' L = effect e L -> edits_guards [e'] L = edits_guards [e] L.
Proof. intros [= _ _ Ee]. unfold edits_guards, guard_keys. cbn. by rewrite !app_nil_r, Ee. Qed.
(** The version that [OBegin] prepares, over what the current one shows. *)
Lemma shows_next vs vs' p q o obj H e pe : vs_objects vs !! p = Some o -> vs_objects vs' !! q = Some obj -> shows vs p H ->
  same_effect e pe -> (forall L, L ∈ levels ->
    abs_version (st_files (vs_store vs')) (vo_version obj) L =
      spec_edit e L (abs_version (st_files (vs_store vs)) (vo_version o) L) /\
    guard_keys (at_level (guards_ (vo_version obj)) L) = edits_guards [e] L ∪ guard_keys (at_level (guards_ (vo_version o)) L)) ->
  shows vs' q (H ++ [pe]).
Proof.
  intros E1 E2 (o0 & E0 & HH) Heff Hab. assert (o0 = o) as -> by congruence. exists obj. split; [done|]. intros L HL.
  destruct (Hab L HL) as [-> ->], (HH L HL) as [-> ->]. rewrite spec_edits_snoc, edits_guards_snoc.
  rewrite (spec_edit_effect e pe L _ (Heff L)), (effect_guards e pe L (Heff L)). split; [done|]. apply (comm_L (∪)).
Qed.

(** *** OBegin *)

(** The current version after a new version was made. *)
Lemma new_version_view vs vs1 obj oc p : same_versions ∅ vs vs1 -> p <> vs_fresh vs1 ->
  vs_objects (fst (new_version vs1 obj)) !! p = Some oc ->
  exists o, vs_objects vs !! p = Some o /\ forall L, L ∈ levels -> view (fst (new_version vs1 obj)) oc L = view vs o L.
Proof.
  intros Hs Hne Eoc. cbn [new_version fst vs_objects] in Eoc. rewrite lookup_insert_ne in Eoc by done.
  by apply (same_versions_view ∅ vs vs1 p oc).
Qed.
Lemma SetNextFile_ok e n : edit_applies e -> all_numbers e ->
  same_effect e (SetNextFile e n) /\ edit_applies (SetNextFile e n) /\ all_numbers (SetNextFile e n).
Proof. intros [] (? & ? & ? & ?). by split_and!. Qed.
(** A new manifest holds a snapshot of the current version. *)
Lemma open_logged env vs pd env' s vs' pd' oc : descriptor_log_ vs = None -> manifest_file_number_ vs = n0 ->
  vs_objects vs !! current_ vs = Some oc -> version_inv ucmp (vs_store vs) (vo_version oc) ->
  fits 0 (snapshot cmp_name (st_files (vs_store vs)) (compact_pointer_ vs) (vo_version oc)) ->
  la_open cmp_name dbname env vs pd = Some (env', s, vs', pd') -> ok s = true ->
  exists snap f, vs' = set_descriptor vs (Some (manifest, blen f)) /\ files env' !! manifest = Some f /\
    logs 0 [record_of snap] f /\ blen f < 2 ^ 32 /\ loggable cmp_name snap /\ shows vs (current_ vs) [snap] /\
    (forall L, L ∈ levels -> f_number <$> edit_new snap L =
       numbers (st_files (vs_store vs)) (at_level (files_ (vo_version oc)) L)) /\
    pd' = {| pd_version := pd_version pd; pd_edit := SetNextFile (pd_edit pd) (next_file_number_ vs);
             pd_cg_sizes := pd_cg_sizes pd; pd_new_manifest := true |}.
Proof.
  intros Ed En Eo Hv (F1 & F2 & F3 & F4) Hopen Hs. unfold la_open in Hopen. rewrite Ed, En in Hopen.
  pose proof (new_manifest env manifest) as Hnew.
  destruct (NewConcurrentWritableFile env manifest) as [s1 env1]. cbn [fst snd] in Hnew.
  destruct (ok s1) eqn:Es1; [|injection Hopen; intros; congruence]. specialize (Hnew eq_refl).
  unfold WriteSnapshot in Hopen. rewrite Eo in Hopen. cbn [mbind option_bind] in Hopen.
  set (snap := snapshot _ _ _ _) in *. pose proof (snapshot_ok ucmp cmp_name (vs_store vs) (compact_pointer_ vs) (vo_version oc) Hv) as So.
  fold snap in So.
  destruct (manifest_append files env1 manifest [] [] (record_of snap)) as (env2 & bs & Ea & Hf & Hl & Hsz);
    [by rewrite Hnew, lookup_insert_eq|constructor|done|].
  change (blen []) with 0 in Ea. rewrite Ea in Hopen. cbn [mbind option_bind app] in *. injection Hopen as <- <- <- <-.
  exists snap, bs. split_and!; try done.
  - by rewrite Hf, lookup_insert_eq.
  - split; [done|done|done|apply So].
  - exists oc. split; [done|]. intros L HL. by rewrite <- (so_files _ _ _ _ So L HL), <- (so_guards _ _ _ _ So L HL).
  - apply So.
Qed.
Lemma begin_logged w e w' B : winv w -> minv w B -> allowed w (OBegin e) -> writes_fit w (OBegin e) ->
  vrun w (OBegin e) = Some w' -> phase_ok (w_phase w') -> exists H, logged w' H (B ++ [e]).
Proof.
  intros Hw HI Hal Hfit Hrun Hph.
  destruct (la_begin_ok ucmp Hc Hid garbage w e Hw Hal)
    as (vs1 & vs' & pd & e1 & o & obj & Eb & Evs & Hs & Epd & Hco & Hv & Eo & Eobj & Ece & Hsc & Epe & Hab).
  destruct (pd_edit_ok w e e1 o Hw Eo ltac:(apply Hal) Ece Hsc) as (Heff & Hap & Hall & Hseq). rewrite <- Epe in Heff, Hap, Hall, Hseq.
  destruct Hal as (Hidle & _). destruct (sm_rest _ _ _ Hs) as (_ & Ecur & R).
  assert (current_ vs' = current_ (w_vs w)) as Ecur' by (by rewrite Evs).
  destruct (Hv (current_ vs') ltac:(by left)) as (oc & Eoc & Hoc).
  assert (current_ vs' <> pd_version pd) as Hne.
  { intros Hx. assert (pd_version pd ∈ w_held w ⊎ {[+ current_ (w_vs w) +]}) as Hin by (rewrite <- Hx, Ecur'; multiset_solver).
    apply (co_live _ _ _ _ Hco) in Hin as [_ Hin]. done. }
  assert (forall L, L ∈ levels -> view vs' oc L = view (w_vs w) o L) as Hview.
  { rewrite Evs in Eoc. destruct (new_version_view (w_vs w) vs1 obj oc (current_ (w_vs w)) Hs) as (o' & E' & Hvw);
      [by rewrite <- Epd, <- Ecur'|rewrite <- Ecur', Evs; exact Eoc|]. assert (o' = o) as -> by congruence. by rewrite Evs. }
  cbn [VersionSetSafety.vrun] in Hrun. rewrite Hidle, Eb in Hrun. cbn [mbind option_bind] in Hrun.
  assert (descriptor_log_ vs' = descriptor_log_ (w_vs w) /\ manifest_file_number_ vs' = manifest_file_number_ (w_vs w) /\
    log_number_ vs' = log_number_ (w_vs w) /\ prev_log_number_ vs' = prev_log_number_ (w_vs w) /\
    last_sequence_ vs' = last_sequence_ (w_vs w)) as (F1 & F2 & F3 & F4 & F5) by (rewrite Evs; cbn; split_and!; apply R).
  destruct HI as [[[U1 _ U3 (o2 & U4 & U5)] ->]|(H & [G1 G2 G3 G4 G5 G6 G7 G8 G9 G10])].
  - assert (o2 = o) as -> by congruence.
    unfold writes_fit in Hfit. rewrite U1 in Hfit. specialize (Hfit vs' pd oc Eb Eoc).
    destruct (la_open cmp_name dbname (w_env w) vs' pd) as [[[[env' s] vs2] pd2]|] eqn:Eop; [|done].
    cbn [mbind option_bind] in Hrun. injection Hrun as <-. cbn [w_phase phase_ok] in Hph.
    destruct (open_logged (w_env w) vs' pd env' s vs2 pd2 oc) as (snap & f & -> & Hf & Hlogs & Hsz & Hlog & Hshow & Hnum & ->);
      [congruence|congruence|done|done|done|done|done|].
    destruct (SetNextFile_ok (pd_edit pd) (next_file_number_ vs') Hap Hall) as (Heff2 & Hap2 & Hall2).
    exists [snap]. split; cbn [w_env w_vs w_phase written pending_edit pending_of creating pd_edit pd_version pd_new_manifest
      set_descriptor descriptor_log_ manifest_file_number_ current_ vs_objects vs_store app last_sequence_].
    + by exists f.
    + by constructor.
    + by constructor.
    + exact Hshow.
    + intros p [= <-]. apply (shows_next vs' (set_descriptor vs' (Some (manifest, blen f))) (current_ vs') _ oc obj [snap] e);
        [exact Eoc|exact Eobj|exact Hshow|intros L; rewrite (Heff2 L); apply Heff|].
      intros L HL. specialize (Hview L HL). injection Hview as _ -> ->. by apply Hab.
    + intros L HL. change [snap; SetNextFile (pd_edit pd) (next_file_number_ vs')] with ([snap] ++ [SetNextFile (pd_edit pd) (next_file_number_ vs')]).
      change [e] with ([] ++ [e]). rewrite !edits_new_snoc, !fmap_app. rewrite (effect_numbers _ _ L (Heff2 L)), (effect_numbers _ _ L (Heff L)).
      cbn [edits_new fmap list_fmap concat app]. rewrite app_nil_r, (Hnum L HL), <- (U5 L HL).
      specialize (Hview L HL). by injection Hview as -> _ _.
    + left. by eexists _, _.
    + by left.
    + intros x ->%list_elem_of_singleton. split; [done|]. cbn. rewrite Hseq, F5. lia.
    + congruence.
  - destruct G1 as (f & D & Hf & Hlogs & Hsz). unfold la_open in Hrun. rewrite F1, D in Hrun. cbn [mbind option_bind] in Hrun. injection Hrun as <-.
    exists H. rewrite Hidle in *. cbn [written pending_edit] in *. rewrite app_nil_r in *.
    split; cbn [w_env w_vs w_phase written pending_edit pending_of creating]; rewrite ?app_nil_r.
    + exists f. by rewrite F1.
    + done.
    + by constructor.
    + rewrite Ecur' in Eoc |- *. by eapply (shows_view (w_vs w) vs').
    + intros p [= <-]. by apply (shows_next (w_vs w) vs' (current_ (w_vs w)) _ o obj H e).
    + intros L HL. rewrite !edits_new_snoc, !fmap_app, (G6 L HL), (effect_numbers _ _ L (Heff L)). by rewrite (assoc_L (++)).
    + right. destruct G7 as [(? & ? & ? & _)|?]; done.
    + right. destruct G8 as [[]|(nx & sq & ? & ? & ? & ? & ?)]. exists nx, sq. rewrite F3, F4, F5. done.
    + intros x ->%list_elem_of_singleton. split; [done|]. rewrite Hseq, F5. lia.
    + congruence.
Qed.

(** *** OWrite *)

(** The environment after the record was written, synced and, for a new manifest, made current. *)
Lemma la_write_files env s vs pd f recs env' s' vs' : descriptor_log_ vs = Some (manifest, blen f) ->
  manifest_file_number_ vs = n0 -> files env !! manifest = Some f -> logs 0 recs f ->
  LogProofs.placed (blen f) [record_of (pd_edit pd)] = true ->
  la_write dbname env s vs pd = Some (env', s', vs') -> ok s' = true ->
  exists f', vs' = set_descriptor vs (Some (manifest, blen f')) /\ files env' !! manifest = Some f' /\
    logs 0 (recs ++ [record_of (pd_edit pd)]) f' /\ blen f' < 2 ^ 32 /\ f `prefix_of` f' /\
    if pd_new_manifest pd then files env' !! CurrentFileName dbname = Some (current_contents n0)
    else files env' !! CurrentFileName dbname = files env !! CurrentFileName dbname.
Proof.
  intros Ed En Hf Hl Hp Hrun Hok. unfold la_write in Hrun.
  destruct (ok s) eqn:Es; [|cbn [mbind option_bind] in Hrun; rewrite Es in Hrun; injection Hrun; intros; congruence].
  rewrite Ed in Hrun. cbn [mbind option_bind] in Hrun.
  destruct (manifest_append files env manifest f recs (record_of (pd_edit pd)) Hf Hl Hp) as (env1 & bs & Ea & Hf1 & Hl1 & Hsz).
  rewrite Ea in Hrun. cbn [mbind option_bind ok OK fst] in Hrun. pose proof (sync_file env1 manifest) as Hsync.
  destruct (SyncFile env1 manifest) as [s2 env2]. cbn [mbind option_bind fst snd] in *.
  destruct (ok s2) eqn:E2; [|cbn [andb] in Hrun; injection Hrun; intros; congruence]. specialize (Hsync eq_refl).
  cbn [andb set_descriptor manifest_file_number_] in Hrun. rewrite En in Hrun.
  assert (files env2 !! manifest = Some (f ++ bs)) as Hf2 by (by rewrite Hsync, Hf1, lookup_insert_eq).
  exists (f ++ bs). destruct (pd_new_manifest pd).
  - pose proof (SetCurrentFile_spec files env2 dbname n0) as (Hcur & _ & Hframe).
    destruct (SetCurrentFile env2 dbname n0) as [s3 env3]. cbn [fst snd] in *. injection Hrun as <- <- <-.
    split_and!; [done| |done|done|by exists bs|by apply Hcur].
    rewrite Hframe; [done|apply manifest_not_current|by apply manifest_not_temp].
  - injection Hrun as <- <- <-. split_and!; [done|done|done|done|by exists bs|].
    rewrite Hsync, Hf1, lookup_insert_ne; [done|apply manifest_not_current].
Qed.
Lemma write_logged w w' H B : logged w H B -> writes_fit w OWrite -> vrun w OWrite = Some w' -> phase_ok (w_phase w') ->
  logged w' H B.
Proof.
  intros [G1 G2 G3 G4 G5 G6 G7 G8 G9 G10] Hfit Hrun Hph. cbn [VersionSetSafety.vrun] in Hrun. unfold writes_fit in Hfit.
  destruct (w_phase w) as [|pd s|pd s] eqn:Ep; [done| |done]. destruct G1 as (f & Ed & Hf & Hl & Hsz).
  rewrite Ed in Hfit. destruct Hfit as (F1 & F2 & F3 & F4). cbn [written pending_edit pending_of creating] in *. rewrite app_nil_r in Hl, G2.
  destruct (la_write dbname (w_env w) s (w_vs w) pd) as [[[env' s'] vs']|] eqn:Ew; [|done]. cbn [mbind option_bind] in Hrun.
  injection Hrun as <-. cbn [w_phase phase_ok] in Hph.
  destruct (la_write_files _ _ _ _ _ _ _ _ _ Ed G10 Hf Hl F4 Ew Hph) as (f' & -> & Hf' & Hl' & Hsz' & _ & Hcur).
  split; cbn [w_env w_vs w_phase written pending_edit pending_of creating set_descriptor descriptor_log_ manifest_file_number_
    current_ vs_objects vs_store log_number_ prev_log_number_ last_sequence_]; try done.
  - exists f'. split_and!; try done. by rewrite fmap_app.
  - apply Forall_app. split; [done|]. constructor; [|done]. apply Forall_cons in G3 as [G3 _]. by split.
  - right. destruct (pd_new_manifest pd) eqn:En; [done|]. rewrite Hcur.
    destruct G7 as [(pd0 & s0 & [= <- <-] & ?)|?]; [congruence|done].
Qed.

(** *** OFinish *)

Lemma last_number_snoc has num es e o : last_number has num (es ++ [e]) o = number_of has num (last_number has num es o) e.
Proof. unfold last_number. by rewrite fold_left_app. Qed.
Lemma finish_logged w ns fs w' H B : winv w -> logged w H B -> phase_ok (w_phase w) -> vrun w (OFinish ns fs) = Some w' ->
  exists H', logged w' H' B.
Proof.
  intros [Hco Hv _] [G1 G2 G3 G4 G5 G6 G7 G8 G9 G10] Hok Hrun. cbn [VersionSetSafety.vrun] in Hrun.
  destruct (w_phase w) as [|pd s|pd s] eqn:Ep; [done|done|]. cbn [phase_ok] in Hok. unfold la_finish in Hrun. rewrite Hok in Hrun.
  cbn [written pending_edit pending_of creating] in *. set (vs := set_level_filters _ _) in *.
  assert (core vs ∅ (w_held w ⊎ {[+ current_ vs +]}) (Some (pd_version pd))) as Hco' by (by eapply core_ext; [..|exact Hco]).
  destruct (la_install_ok ucmp Hc Hid vs pd (w_held w) Hco' Hv)
    as (vs' & oc & op & o' & n & cg & Ei & Hc' & Ecur & _ & Eop & Eo' & Ev & Hv' & Hson & _ & I1 & I2 & I3 & I4 & I5 & I6 & _).
  rewrite Ei in Hrun. cbn [mbind option_bind] in Hrun. injection Hrun as <-.
  exists (H ++ [pd_edit pd]). destruct (G9 (pd_edit pd) ltac:(by left)) as ((A1 & A2 & A3 & A4) & Hsq).
  split; cbn [w_env w_vs w_phase written pending_edit pending_of creating]; rewrite ?app_nil_r, ?I6, ?I4, ?I5, ?I1, ?I2; try done.
  - rewrite Ecur. apply (shows_view (w_vs w) vs' (pd_version pd) op o'); [exact Eop|exact Eo'| |by apply G5].
    intros L HL. apply view_local; [done|by rewrite Ev|by rewrite Ev|exact Hson].
  - right. destruct G7 as [(? & ? & ? & _)|?]; done.
  - right. eexists _, _. rewrite !last_number_snoc. unfold number_of. rewrite A1, A2, A3, A4. by split_and!.
  - by intros e He%elem_of_nil.
Qed.

Lemma step_logged w op w' B : winv w -> minv w B -> phase_ok (w_phase w) -> allowed w op -> writes_fit w op ->
  vrun w op = Some w' -> phase_ok (w_phase w') -> winv w' -> minv w' (B ++ begun [op]).
Proof.
  intros Hw HI Hph Ha Hf Hrun Hph' Hw'. destruct op as [e| |ns fs| |p|L g|p st| |n|n|n]; cbn [begun omap list_omap]; rewrite ?app_nil_r;
    try exact (quiet_minv w w' B Hw' (quiet_step w _ w' Hw Ha Hrun I) HI).
  - right. apply (begin_logged w e w' B); done.
  - destruct HI as [[[_ Ui _ _] _]|(H & HH)]; [destruct Ha as (? & ? & ?); congruence|]. right. exists H. by eapply write_logged.
  - destruct HI as [[[_ Ui _ _] _]|(H & HH)]; [destruct Ha as (? & ? & ?); congruence|]. right. apply (finish_logged w ns fs w' H B); done.
Qed.
Lemma steps_logged ops : forall w B, winv w -> minv w B -> phase_ok (w_phase w) -> all_logged w ops ->
  exists w', vruns w ops = Some w' /\ winv w' /\ minv w' (B ++ begun ops) /\ phase_ok (w_phase w').
Proof.
  induction ops as [|op ops IH]; intros w B Hw HI Hph Hal.
  - exists w. cbn. by rewrite app_nil_r.
  - destruct Hal as (Ha & Hf & Hr). destruct (step_ok ucmp Hc Hid cmp_name dbname garbage w op Hw Ha) as (w1 & E1 & Hw1).
    destruct (Hr w1 E1) as [Hph1 Hal1]. pose proof (step_logged w op w1 B Hw HI Hph Ha Hf E1 Hph1 Hw1) as HI1.
    destruct (IH w1 _ Hw1 HI1 Hph1 Hal1) as (w2 & E2 & H2 & HI2 & Hph2). exists w2. cbn [VersionSetSafety.vruns]. rewrite E1.
    split_and!; try done. replace (begun (op :: ops)) with (begun [op] ++ begun ops) by (by destruct op). by rewrite (assoc_L (++)).
Qed.

(** ** After a crash *)

Definition durable_version (w : World) : Z := match w_phase w with Written pd _ => pd_version pd | _ => current_ (w_vs w) end.
Definition durable_log (w : World) : Z * Z :=
  match w_phase w with
  | Written pd _ => (VersionEdit.log_number_ (pd_edit pd), VersionEdit.prev_log_number_ (pd_edit pd))
  | _ => (log_number_ (w_vs w), prev_log_number_ (w_vs w))
  end.
(** The manifest that a crash of [w] leaves: the file as it is, or with a part of the
    record that is being written. *)
Definition crash_leaves (w : World) (f' : list Z) : Prop :=
  files (w_env w) !! manifest = Some f' \/
  exists w' f f2 k, vrun w OWrite = Some w' /\ phase_ok (w_phase w') /\ writes_fit w OWrite /\
    files (w_env w) !! manifest = Some f /\ files (w_env w') !! manifest = Some f2 /\
    blen f <= k < blen f2 /\ f' = take (Z.to_nat k) f2.

Lemma complete_cut off recs f d f2 k : logs off recs f -> logs off (recs ++ [d]) f2 -> off + blen f <= k < off + blen f2 ->
  LogProofs.complete off (recs ++ [d]) k = length recs.
Proof.
  intros Hl. revert f2. induction Hl as [off|off d0 recs bs bs' He Hr Hl IH]; intros f2 H2 Hk.
  - inversion H2 as [|? ? ? bs1 bs2 He1 Hr1 Hl1]; subst. inversion Hl1; subst. cbn [app LogProofs.complete]. rewrite Hr1.
    rewrite app_nil_r, blen_nil in *. by rewrite (proj2 (Z.leb_gt _ _)) by lia.
  - cbn [app] in H2. inversion H2 as [|? ? ? bs1 bs2 He1 Hr1 Hl1]; subst. cbn [app LogProofs.complete length]. rewrite Hr.
    assert (blen bs1 = blen bs) as Eb by lia. rewrite !blen_app, Eb in Hk. rewrite Eb in Hl1.
    pose proof (blen_nonneg bs'). rewrite (proj2 (Z.leb_le _ _)) by lia. f_equal. apply (IH bs2 Hl1). lia.
Qed.
(** What [Recover] of a set of edits gives, compared with a version of [w]. *)
Definition restores (w : World) (vs' : VersionSet) : Prop :=
  (forall env : E, winv {| w_env := env; w_vs := vs'; w_phase := Idle; w_held := ∅ |}) /\ descriptor_log_ vs' = None /\
  (exists o o', vs_objects (w_vs w) !! durable_version w = Some o /\ vs_objects vs' !! current_ vs' = Some o' /\
    forall L, L ∈ levels ->
      abs_version (st_files (vs_store vs')) (vo_version o') L = abs_version (st_files (vs_store (w_vs w))) (vo_version o) L /\
      guard_keys (at_level (guards_ (vo_version o')) L) = guard_keys (at_level (guards_ (vo_version o)) L)) /\
  (log_number_ vs', prev_log_number_ vs') = durable_log w /\ last_sequence_ vs' <= last_sequence_ (w_vs w) /\
  next_file_number_ vs' = u64 (manifest_file_number_ vs' + 1).
Lemma recovered_restores w es lg nx sq vs' : recovered_set ucmp (E := E) es lg nx sq vs' -> shows (w_vs w) (durable_version w) es ->
  (lg, default 0 (last_number has_prev_log_number_ VersionEdit.prev_log_number_ es None)) = durable_log w ->
  sq <= last_sequence_ (w_vs w) -> restores w vs'.
Proof.
  intros [R1 (o' & E' & R2) R3 (N1 & N2 & N3 & N4 & N5)] (o & E0 & Hs) Hlog Hsq. split_and!; try done.
  - exists o, o'. split_and!; try done. intros L HL. destruct (R2 L HL) as [-> ->], (Hs L HL) as [-> ->]. done.
  - by rewrite N1, N2.
  - by rewrite N3.
  - by rewrite N5, N4.
Qed.
Lemma written_numbers w H B : logged w H B -> ~ (exists pd s, w_phase w = Writing pd s /\ pd_new_manifest pd = true) ->
  exists lg pl nx sq,
    last_number has_log_number_ VersionEdit.log_number_ (H ++ written (w_phase w)) None = Some lg /\
    last_number has_prev_log_number_ VersionEdit.prev_log_number_ (H ++ written (w_phase w)) None = Some pl /\
    last_number has_next_file_number_ VersionEdit.next_file_number_ (H ++ written (w_phase w)) None = Some nx /\
    last_number has_last_sequence_ VersionEdit.last_sequence_ (H ++ written (w_phase w)) None = Some sq /\
    (lg, pl) = durable_log w /\ sq <= last_sequence_ (w_vs w).
Proof.
  intros [_ _ _ _ _ _ _ G8 G9 _] Hnew. unfold durable_log. destruct (w_phase w) as [|pd s|pd s] eqn:Ep; cbn [written] in *.
  - rewrite app_nil_r. destruct G8 as [[]|(nx & sq & ? & ? & ? & ? & ?)]. by eexists _, _, nx, sq.
  - rewrite app_nil_r. destruct G8 as [G8|(nx & sq & ? & ? & ? & ? & ?)]; [|by eexists _, _, nx, sq].
    destruct Hnew. by exists pd, s.
  - destruct (G9 (pd_edit pd) ltac:(by left)) as ((A1 & A2 & A3 & A4) & Hsq). rewrite !last_number_snoc. unfold number_of.
    rewrite A1, A2, A3, A4. by eexists _, _, _, _.
Qed.
Lemma logged_NoDup w H B : logged w H B -> (forall L, L ∈ levels -> NoDup (N0 L ++ (f_number <$> edits_new B L))) ->
  forall L, L ∈ levels -> NoDup (f_number <$> edits_new (H ++ pending_edit (w_phase w)) L).
Proof. intros HH Hnd L HL. rewrite (lg_fresh _ _ _ HH L HL). by apply Hnd. Qed.
Lemma write_phase w w' : vrun w OWrite = Some w' -> exists pd s s', w_phase w = Writing pd s /\ w_phase w' = Written pd s'.
Proof.
  cbn [VersionSetSafety.vrun]. destruct (w_phase w) as [|pd s|pd s]; [done| |done].
  destruct (la_write _ _ _ _ _) as [[[env s'] vs]|]; [|done]. intros [= <-]. by exists pd, s, s'.
Qed.
Lemma shows_durable w H B : logged w H B -> shows (w_vs w) (durable_version w) (H ++ written (w_phase w)).
Proof.
  intros HH. pose proof (lg_current _ _ _ HH) as Hcur. pose proof (lg_pending _ _ _ HH) as Hpend. unfold durable_version.
  destruct (w_phase w); cbn [written]; rewrite ?app_nil_r; [done|done|]. by apply Hpend.
Qed.
Lemma crash_recovers w H B env' f' vs0 : logged w H B ->
  ~ (exists pd s, w_phase w = Writing pd s /\ pd_new_manifest pd = true) ->
  (forall L, L ∈ levels -> NoDup (N0 L ++ (f_number <$> edits_new B L))) -> VersionSet_new garbage = Some vs0 ->
  files env' !! CurrentFileName dbname = files (w_env w) !! CurrentFileName dbname ->
  files env' !! manifest = Some f' -> crash_leaves w f' ->
  exists n m, forall fuel, (m <= fuel)%nat -> exists vs',
    Recover ucmp cmp_name dbname asserts garbage n fuel env' vs0 = Some (OK, vs') /\ restores w vs'.
Proof.
  intros HH Hnew Hnd Evs Ecur Hf' Hcrash.
  destruct (written_numbers w H B HH Hnew) as (lg & pl & nx & sq & N1 & N2 & N3 & N4 & N5 & N6).
  destruct (lg_CURRENT _ _ _ HH) as [?|HC]; [done|]. rewrite HC in Ecur. pose proof (logged_NoDup w H B HH Hnd) as Hnd'.
  destruct (lg_file _ _ _ HH) as (f & Ed & Hf & Hl & Hsz).
  assert (exists es f2 k, f' = take (Z.to_nat k) f2 /\ logs 0 ((fun e => record_of e) <$> es) f2 /\ blen f2 < 2 ^ 32 /\
    Forall (loggable cmp_name) es /\ (forall L, L ∈ levels -> NoDup (f_number <$> edits_new es L)) /\
    take (LogProofs.complete 0 ((fun e => record_of e) <$> es) k) es = H ++ written (w_phase w))
    as (es & f2 & k & -> & Hl2 & Hsz2 & Hlog & Hfr & Ecut).
  { destruct Hcrash as [Hx|(w' & f0 & f2 & k & Hrun & Hph & Hfit & Hf0 & Hf2 & Hk & ->)].
    - exists (H ++ written (w_phase w)), f, (blen f). assert (f' = f) as -> by congruence. split_and!; try done.
      + rewrite take_ge; [done|unfold blen; lia].
      + apply (lg_edits _ _ _ HH).
      + intros L HL. specialize (Hnd' L HL). destruct (w_phase w); cbn [written pending_edit] in *; rewrite ?app_nil_r in *; [done| |done].
        rewrite edits_new_snoc, fmap_app in Hnd'. by apply NoDup_app in Hnd' as [? _].
      + rewrite (complete_all 0 _ f) by (done || lia). rewrite length_fmap. by rewrite take_ge.
    - pose proof (write_logged w w' H B HH Hfit Hrun Hph) as HH'. destruct (write_phase w w' Hrun) as (pd & s & s' & Ew & Ew').
      destruct (lg_file _ _ _ HH') as (f3 & _ & Hf3 & Hl3 & Hsz3). pose proof (lg_edits _ _ _ HH') as Hlog.
      assert (f3 = f2) as -> by congruence. assert (f0 = f) as -> by congruence.
      rewrite Ew in *. rewrite Ew' in *. cbn [written pending_edit] in *. rewrite app_nil_r in *.
      exists (H ++ [pd_edit pd]), f2, k. split_and!; try done. rewrite fmap_app in *. cbn [fmap list_fmap] in *.
      rewrite (complete_cut 0 _ f (record_of (pd_edit pd)) f2 k Hl Hl3) by lia. rewrite length_fmap. by rewrite take_app_length. }
  exists (S (length es)), (S (length f2 + length (current_contents n0))). intros fuel Hfuel.
  destruct (Recover_ok ucmp Hc Hid cmp_name dbname asserts garbage files env' vs0 es f2 k n0 fuel lg nx sq) as (vs' & Er & Hrec);
    try done; try (by rewrite Ecut); try lia.
  exists vs'. split; [done|]. rewrite Ecut in Hrec. eapply recovered_restores; [exact Hrec|by eapply shows_durable| |done].
  by rewrite N2.
Qed.
End Invariant.

(** C6: Recovery after a crash restores what was last committed.  Start from any set of
    versions with no open manifest (a new or a recovered one), run any allowed sequence of
    steps of readers and writers in which the calls of the environment succeed, and stop at
    any point after the first LogAndApply made its manifest current, also in the middle of
    writing a record.  On the environment that is left (CURRENT as it is, the manifest with
    a prefix of the record being written or without it) Recover of a new set of versions
    terminates with OK.  Its current version has at each level exactly the files (numbers,
    sizes, key ranges) and the guard keys of the version that was current, or of the
    version being installed once its record is complete; the log numbers are those that
    were committed with it, and the set is again one such a run can start from.  For edits that
    add no file number twice to a level, whose records can be encoded and do not fill a
    block of the manifest exactly, in a manifest below 4 GiB. *)
Theorem manifest_crash_recovery (w0 w : World) (ops : list vop) (o0 : VersionObject) (vs0 : VersionSet) (env' : E) (f' : list Z)
  (Hw0 : winv w0) (Hidle : w_phase w0 = Idle) (Hclosed : descriptor_log_ (w_vs w0) = None)
  (Hnum : is_u64 (manifest_file_number_ (w_vs w0)))
  (Hcur0 : vs_objects (w_vs w0) !! current_ (w_vs w0) = Some o0)
  (Hfresh : forall L, L ∈ levels -> NoDup (numbers (st_files (vs_store (w_vs w0))) (at_level (files_ (vo_version o0)) L) ++
     (f_number <$> edits_new (begun ops) L)))
  (Hlog : all_logged w0 ops) (Hrun : vruns w0 ops = Some w) (Hopen : is_Some (descriptor_log_ (w_vs w)))
  (Hfirst : ~ (exists pd s, w_phase w = Writing pd s /\ pd_new_manifest pd = true))
  (Hnew : VersionSet_new garbage = Some vs0)
  (Hcurrent : files env' !! CurrentFileName dbname = files (w_env w) !! CurrentFileName dbname)
  (Hmanifest : files env' !! DescriptorFileName dbname (manifest_file_number_ (w_vs w0)) = Some f')
  (Hcrash : crash_leaves (manifest_file_number_ (w_vs w0)) w f') :
  exists n m, forall fuel, (m <= fuel)%nat -> exists vs',
    Recover ucmp cmp_name dbname asserts garbage n fuel env' vs0 = Some (OK, vs') /\ restores w vs'.
Proof.
  set (n0 := manifest_file_number_ (w_vs w0)) in *.
  set (N0 := fun L => numbers (st_files (vs_store (w_vs w0))) (at_level (files_ (vo_version o0)) L)).
  destruct (steps_logged n0 Hnum N0 ops w0 [] Hw0) as (w' & Ew & _ & HI & _).
  { left. split; [|done]. split; [done|done|done|]. by exists o0. } { by rewrite Hidle. } { done. }
  assert (w' = w) as -> by congruence. destruct HI as [[[Hd _ _ _] _]|(H & HH)]; [destruct Hopen; congruence|].
  by eapply (crash_recovers n0 Hnum N0 w H).
Qed.
End Manifests.

(** ** An example *)

Section Example.
Abbreviation cmp_name := (str "leveldb.BytewiseComparator").
Abbreviation dbname := (str "/db").
Abbreviation vrun := (vrun BytewiseComparator cmp_name dbname []).
Abbreviation vruns := (vruns BytewiseComparator cmp_name dbname []).
Abbreviation MemWorld := (@World (nat * gmap (list Z) (list Z))).

Lemma fits_built off e ops : build_all ops VersionEdit_new = Some e -> Forall edit_op_ok ops ->
  forallb (fun b => (0 <=? b) && (b <? 256)) (record_of e) = true ->
  (if has_comparator_ e then bool_decide (comparator_ e = cmp_name) else true) = true ->
  LogProofs.placed off [record_of e] = true -> fits cmp_name off e.
Proof.
  intros Hb Hops Hbytes Hcmp Hp. split; [|split; [|split]].
  - eapply build_all_ok; [apply VersionEdit_new_ok|exact Hops|exact Hb].
  - apply Forall_forall. intros b Hin. rewrite forallb_forall in Hbytes. specialize (Hbytes b ltac:(by apply list_elem_of_In)).
    apply andb_true_iff in Hbytes as [?%Z.leb_le ?%Z.ltb_lt]. split; lia.
  - intros Hh. rewrite Hh in Hcmp. by apply bool_decide_eq_true in Hcmp.
  - done.
Qed.
Definition first_snapshot (r : option (VersionSet * Pending)) : VersionEdit :=
  match r with
  | Some (vs, _) => match vs_objects vs !! current_ vs with
                    | Some o => snapshot cmp_name (st_files (vs_store vs)) (compact_pointer_ vs) (vo_version o)
                    | None => VersionEdit_new end
  | None => VersionEdit_new
  end.
Lemma begin_fits (w : MemWorld) e :
  fits cmp_name 0 (first_snapshot (la_begin BytewiseComparator [] (w_vs w) e)) ->
  writes_fit BytewiseComparator cmp_name [] w (OBegin e).
Proof.
  intros Hf. unfold writes_fit. destruct (w_phase w) as [|p1 s1|p1 s1], (descriptor_log_ _); try done;
    intros vs' pd o Eb Eo; rewrite Eb in Hf; cbn [first_snapshot] in Hf; by rewrite Eo in Hf.
Qed.
Definition logged_record (w : MemWorld) : Z * VersionEdit :=
  match w_phase w, descriptor_log_ (w_vs w) with
  | Writing pd _, Some (_, off) => (off, pd_edit pd) | _, _ => (0, VersionEdit_new) end.
Lemma write_fits (w : MemWorld) off e : logged_record w = (off, e) -> fits cmp_name off e ->
  writes_fit BytewiseComparator cmp_name [] w OWrite.
Proof.
  unfold logged_record, writes_fit. destruct (w_phase w); try done. destruct (descriptor_log_ _) as [[? ?]|]; [|done].
  by intros [= -> ->].
Qed.
Lemma all_logged_steps (d : MemWorld) ops : forall w, (forall k op, ops !! k = Some op ->
    let w' := default d (vruns w (take k ops)) in
    allowed w' op /\ writes_fit BytewiseComparator cmp_name [] w' op /\ phase_ok (w_phase (default d (vrun w' op)))) ->
  all_logged BytewiseComparator cmp_name dbname [] w ops.
Proof.
  induction ops as [|op ops IH]; intros w H; [done|]. destruct (H 0%nat op eq_refl) as (H1 & H2 & H3).
  split; [done|]. split; [done|]. intros w' Ew. split; [cbn [take VersionSetSafety.vruns from_option id] in H3; by rewrite Ew in H3|].
  apply IH. intros k op' Hk. specialize (H (S k) op' Hk). cbn [take VersionSetSafety.vruns] in H. by rewrite Ew in H.
Qed.

(** Two files are installed; the edit that replaces one of them is being written. *)
Definition crash_ops : list vop :=
  [OBegin (nth 0 example_edits VersionEdit_new); OWrite; OFinish [5; 6] [None; None]; OBegin (nth 1 example_edits VersionEdit_new)].
Definition written_ops : list edit_op :=
  [EAddFile 1 5 100 (example_key [97] 3) (example_key [98] 2); EAddFile 1 6 100 (example_key [100] 9) (example_key [101] 9);
   EAddGuard 1 (example_key [99] 4); ELogNumber 0; EPrevLogNumber 0; ENextFile 2; ELastSequence 0].
Definition writing_ops : list edit_op :=
  [EDeleteFile 1 5; EAddFile 1 7 80 (example_key [98] 2) (example_key [98] 2); ELogNumber 0; EPrevLogNumber 0;
   ENextFile 2; ELastSequence 0].
Definition built (ops : list edit_op) : VersionEdit := default VersionEdit_new (build_all ops VersionEdit_new).
Lemma written_fits : fits cmp_name 35 (built written_ops) /\ fits cmp_name 111 (built writing_ops).
Proof.
  split; [apply (fits_built _ _ written_ops)|apply (fits_built _ _ writing_ops)].
  all: [> vm_compute; reflexivity|repeat constructor; done|vm_compute; reflexivity|reflexivity|vm_compute; reflexivity
    |vm_compute; reflexivity|repeat constructor; done|vm_compute; reflexivity|reflexivity|vm_compute; reflexivity].
Qed.
Lemma crash_ops_logged : all_logged BytewiseComparator cmp_name dbname [] (example_world 100) crash_ops.
Proof.
  pose proof example_edits_apply as [He1 [He2 _]%Forall_cons]%Forall_cons.
  apply (all_logged_steps (example_world 0)). intros k op Hk. unfold crash_ops in Hk.
  destruct k as [|k]; [injection Hk as <-|].
  { split; [apply begin_allowed; [reflexivity|done|reflexivity|vm_compute; reflexivity]|]. split; [|vm_compute; reflexivity].
    apply begin_fits. match goal with |- fits _ _ ?x => replace x with (built [EComparator cmp_name]) by (vm_compute; reflexivity) end.
    apply (fits_built _ _ [EComparator cmp_name]); [vm_compute; reflexivity|repeat constructor; done|vm_compute; reflexivity..]. }
  destruct k as [|k]; [injection Hk as <-|].
  { split; [apply step_allowed; vm_compute; reflexivity|]. split; [|vm_compute; reflexivity].
    eapply write_fits; [vm_compute; reflexivity|]. apply written_fits. }
  destruct k as [|k]; [injection Hk as <-|].
  { split; [apply step_allowed; vm_compute; reflexivity|]. split; [done|vm_compute; exact I]. }
  destruct k as [|k]; [injection Hk as <-|done].
  split; [apply begin_allowed; [vm_compute; reflexivity|done|reflexivity|vm_compute; reflexivity]|]. split; [|vm_compute; reflexivity].
  unfold writes_fit. match goal with |- context [descriptor_log_ ?x] => replace (descriptor_log_ x) with (Some (DescriptorFileName dbname 0, 111)) by (vm_compute; reflexivity) end. done.
Qed.

Definition crash_world : MemWorld := default (example_world 0) (vruns (example_world 100) crash_ops).
Definition crash_manifest : list Z := DescriptorFileName dbname 0.
Definition manifest_of (w : MemWorld) : list Z := default [] (snd (w_env w) !! crash_manifest).
(** Five bytes of the record are written. *)
Definition torn_manifest : list Z := take 116 (manifest_of (default (example_world 0) (vrun crash_world OWrite))).
Lemma torn_crash : crash_leaves BytewiseComparator cmp_name dbname [] snd 0 crash_world torn_manifest.
Proof.
  right. exists (default (example_world 0) (vrun crash_world OWrite)), (manifest_of crash_world),
    (manifest_of (default (example_world 0) (vrun crash_world OWrite))), 116.
  split; [vm_compute; reflexivity|]. split; [vm_compute; reflexivity|].
  split; [eapply write_fits; [vm_compute; reflexivity|apply written_fits]|].
  split; [vm_compute; reflexivity|]. split; [vm_compute; reflexivity|]. split; [|reflexivity].
  split; [apply Z.leb_le|apply Z.ltb_lt]; vm_compute; reflexivity.
Qed.
Lemma crash_shows : (fun o => abs_version (st_files (vs_store (w_vs crash_world))) (vo_version o) 1) <$>
    (vs_objects (w_vs crash_world) !! durable_version crash_world) =
  Some {[ 5 := (100, example_key [97] 3, example_key [98] 2); 6 := (100, example_key [100] 9, example_key [101] 9) ]}.
Proof. vm_compute. reflexivity. Qed.
Lemma manifest_crash_recovery_witness : exists vs0 n m, VersionSet_new [] = Some vs0 /\ forall fuel, (m <= fuel)%nat ->
  exists vs' o', Recover BytewiseComparator cmp_name dbname true [] n fuel
      (0%nat, <[crash_manifest := torn_manifest]> (snd (w_env crash_world))) vs0 = Some (OK, vs') /\
    vs_objects vs' !! current_ vs' = Some o' /\
    abs_version (st_files (vs_store vs')) (vo_version o') 1 =
      {[ 5 := (100, example_key [97] 3, example_key [98] 2); 6 := (100, example_key [100] 9, example_key [101] 9) ]}.
Proof.
  assert (1 ∈ levels) as HL by (apply levels_range; done).
  destruct (VersionSet_new_ok (E := nat * gmap (list Z) (list Z)) BytewiseComparator _ Bytewise_identity []) as (vs0 & E0 & Hw).
  assert (vs0 = w_vs (example_world 100)) as -> by (by injection E0).
  destruct (manifest_crash_recovery BytewiseComparator _ Bytewise_identity cmp_name dbname true [] snd
    (example_world 100) crash_world crash_ops
    (default {| vo_version := Version_new; vo_scores := Scores_new [] |} (vs_objects (w_vs (example_world 100)) !! 1))
    (w_vs (example_world 100)) (0%nat, <[crash_manifest := torn_manifest]> (snd (w_env crash_world))) torn_manifest)
    as (n & m & HR); [apply Hw|reflexivity|reflexivity|by vm_compute|reflexivity| |apply crash_ops_logged
    |vm_compute; reflexivity|vm_compute; by eexists| |exact E0
    |cbn [snd]; apply lookup_insert_ne, manifest_not_current|apply lookup_insert_eq|apply torn_crash|].
  - apply levels_forall. repeat constructor; apply (bool_decide_unpack _); vm_compute; exact I.
  - intros (pd & s & E1 & E2). assert (match w_phase crash_world with Writing pd _ => pd_new_manifest pd | _ => true end = false) as H
      by (vm_compute; reflexivity). rewrite E1 in H. congruence.
  - exists (w_vs (example_world 100)), n, m. split; [done|]. intros fuel Hfuel.
    destruct (HR fuel Hfuel) as (vs' & Er & _ & _ & (o & o' & Eo & Eo' & H) & _). exists vs', o'. split; [done|]. split; [done|].
    destruct (H 1 HL) as [Hab _].
    pose proof crash_shows as (o1 & E1 & Es)%fmap_Some. rewrite Eo in E1. apply (inj Some) in E1. subst o1.
    exact (eq_trans Hab (eq_sym Es)).
Defined.
End Example.

