(* ===== verification/Compaction.v ===== *)
(** * Choosing compactions

    Models the class [Compaction] and the operations of [VersionSet] that choose one
    ([src/pebblesdb/src/db/version_set.cc] and [src/pebblesdb/src/db/version_set.h]): the
    level that needs compaction most, the files and guards of that level and of the next
    one that take part, and the questions the compaction asks of its input version.

    The input version is an object of the set of versions, named by its address; its
    files are read through the store of file objects. *)

From Stdlib Require Import SpecFloat.
From stdpp Require Import gmap sorting.
From S2P Require Import Prelude Coding Status Comparator DbFormat Bloom LogFormat VersionEdit FileName.
From S2P Require Import MemTable TableGet Version VersionBuilder VersionSet.
From stdpp Require Import list.
#[local] Open Scope Z_scope.

(** ** The class *)

Record Compaction := {
  level_ : Z;
  min_output_file_size_ : Z;
  max_output_file_size_ : Z;
  input_version_ : Z;
  edit_ : VersionEdit;
  inputs_ : list (list Z);
  guard_inputs_ : list (list GuardMetaData);
  sentinel_inputs_ : list (list Z);
  boundaries_ : list (Z * bytes);
  level_ptrs_ : list nat;
  is_horizontal_compaction : bool;
}.
(** The members [is_horizontal_compaction], [inputs_] and [input_version_] are set by the
    callers, which get them as arguments here. *)
Definition Compaction_new (l : Z) (v : Z) (horizontal : bool) (inputs : list (list Z))
    (guard_inputs : list (list GuardMetaData)) (sentinel_inputs : list (list Z)) : Compaction :=
  {| level_ := l; min_output_file_size_ := MinFileSizeForLevel l; max_output_file_size_ := MaxFileSizeForLevel l;
     input_version_ := v; edit_ := VersionEdit_new; inputs_ := inputs; guard_inputs_ := guard_inputs;
     sentinel_inputs_ := sentinel_inputs; boundaries_ := []; level_ptrs_ := replicate (Z.to_nat kNumLevels) 0%nat;
     is_horizontal_compaction := horizontal |}.
Definition set_input_version (c : Compaction) (v : Z) : Compaction :=
  {| level_ := level_ c; min_output_file_size_ := min_output_file_size_ c;
     max_output_file_size_ := max_output_file_size_ c; input_version_ := v; edit_ := edit_ c; inputs_ := inputs_ c;
     guard_inputs_ := guard_inputs_ c; sentinel_inputs_ := sentinel_inputs_ c; boundaries_ := boundaries_ c;
     level_ptrs_ := level_ptrs_ c; is_horizontal_compaction := is_horizontal_compaction c |}.
Definition set_edit (c : Compaction) (e : VersionEdit) : Compaction :=
  {| level_ := level_ c; min_output_file_size_ := min_output_file_size_ c;
     max_output_file_size_ := max_output_file_size_ c; input_version_ := input_version_ c; edit_ := e;
     inputs_ := inputs_ c; guard_inputs_ := guard_inputs_ c; sentinel_inputs_ := sentinel_inputs_ c;
     boundaries_ := boundaries_ c; level_ptrs_ := level_ptrs_ c;
     is_horizontal_compaction := is_horizontal_compaction c |}.
Definition set_level_ptrs (c : Compaction) (ptrs : list nat) : Compaction :=
  {| level_ := level_ c; min_output_file_size_ := min_output_file_size_ c;
     max_output_file_size_ := max_output_file_size_ c; input_version_ := input_version_ c; edit_ := edit_ c;
     inputs_ := inputs_ c; guard_inputs_ := guard_inputs_ c; sentinel_inputs_ := sentinel_inputs_ c;
     boundaries_ := boundaries_ c; level_ptrs_ := ptrs;
     is_horizontal_compaction := is_horizontal_compaction c |}.

Definition num_input_files (c : Compaction) (which : Z) : Z := blen (at_level (inputs_ c) which).
Definition input (c : Compaction) (which : Z) (i : nat) : option Z := at_level (inputs_ c) which !! i.
Definition MinOutputFileSize (c : Compaction) : Z := min_output_file_size_ c.
Definition MaxOutputFileSize (c : Compaction) : Z := max_output_file_size_ c.
Definition IsTrivialMove (c : Compaction) : bool := num_input_files c 1 =? 0.

Section Questions.
Context (ucmp : Comparator) (h : Files).

(** The numbers and keys of the two sides; the loop moves [hint] past the boundaries that
    lie below the old key. *)
Fixpoint CrossesBoundary_loop (rest : list (Z * bytes)) (lower_num upper_num : Z) (old_key new_key : bytes)
    (hint : nat) : option (bool * nat) :=
  match rest with
  | [] => Some (false, hint)
  | b :: rest =>
      if negb ((lower_num <? upper_num) ||
               ((lower_num =? upper_num) && (Compare ucmp old_key new_key <=? 0))) then None
      else
        let lower := (lower_num <? fst b) || ((lower_num =? fst b) && (Compare ucmp old_key (snd b) <=? 0)) in
        let upper := (fst b <? upper_num) || ((upper_num =? fst b) && (0 <? Compare ucmp new_key (snd b))) in
        if lower && upper then Some (true, hint)
        else if negb upper then Some (false, hint)
        else CrossesBoundary_loop rest lower_num upper_num old_key new_key (S hint)
  end.
Definition CrossesBoundary (c : Compaction) (old_key new_key : ParsedInternalKey) (hint : nat)
    : option (bool * nat) :=
  match boundaries_ c with
  | [] => Some (false, hint)
  | _ => CrossesBoundary_loop (drop hint (boundaries_ c)) (KeyNum ucmp (user_key old_key))
           (KeyNum ucmp (user_key new_key)) (user_key old_key) (user_key new_key) hint
  end.

Definition AddInputDeletions (c : Compaction) (ed : VersionEdit) : VersionEdit :=
  fold_left (fun ed which =>
    fold_left (fun ed a => DeleteFile ed (level_ c + which) (f_number (deref h a))) (at_level (inputs_ c) which) ed)
    [0; 1] ed.

(** The inner loop of [IsBaseLevelForKey] from the file the pointer is at: whether the key
    falls in the range of the file it stops at, and the pointer. *)
Fixpoint base_scan (rest : list Z) (ptr : nat) (user_key : bytes) : bool * nat :=
  match rest with
  | [] => (false, ptr)
  | f :: rest =>
      if Compare ucmp user_key (file_limit h f) <=? 0
      then (0 <=? Compare ucmp user_key (file_start h f), ptr)
      else base_scan rest (S ptr) user_key
  end.
Fixpoint base_levels (v : Version) (lvls : list Z) (ptrs : list nat) (user_key : bytes) : bool * list nat :=
  match lvls with
  | [] => (true, ptrs)
  | lvl :: lvls =>
      let ptr := of_level 0%nat ptrs lvl in
      let '(found, ptr) := base_scan (drop ptr (at_level (files_ v) lvl)) ptr user_key in
      let ptrs := <[Z.to_nat lvl := ptr]> ptrs in
      if found then (false, ptrs) else base_levels v lvls ptrs user_key
  end.
(** [v] is the input version. *)
Definition IsBaseLevelForKey (v : Version) (c : Compaction) (user_key : bytes) : bool * Compaction :=
  let '(b, ptrs) := base_levels v (seqZ (level_ c + 2) (kNumLevels - (level_ c + 2))) (level_ptrs_ c) user_key in
  (b, set_level_ptrs c ptrs).
End Questions.

(** [ReleaseInputs]; the destructor does the same. *)
Definition ReleaseInputs (vs : VersionSet) (c : Compaction) : option (VersionSet * Compaction) :=
  if input_version_ c =? 0 then Some (vs, c)
  else vs ← Version_Unref vs (input_version_ c); Some (vs, set_input_version c 0).

(** ** Choosing the level *)

Definition one : spec_float := double_of_int 1.
Definition dge (a b : spec_float) : bool := SFleb b a.
Definition score (s : Scores) (level : Z) : spec_float := of_level S754_nan (compaction_scores_ s) level.

Definition NumUncompactedLevels (s : Scores) : Z :=
  fold_left (fun n i => if dge (score s i) one then n + 1 else n) levels 0.
Definition IsAllLevelsCompacted (s : Scores) : bool := forallb (fun i => negb (dge (score s i) one)) levels.

(** Level [i] and the next one are free; [locked] has an element for each level, and
    reading past it is an error. *)
Definition unlocked (locked : list bool) (i : Z) : option bool :=
  match locked !! Z.to_nat i with
  | None => None
  | Some true => Some false
  | Some false => negb <$> locked !! Z.to_nat (i + 1)
  end.
(** The first loop: the first free level with a score of 1 or more that the next level's
    score does not exceed. *)
Fixpoint pick_by_score (s : Scores) (locked : list bool) (ls : list Z) : option Z :=
  match ls with
  | [] => Some kNumLevels
  | i :: ls =>
      free ← unlocked locked i;
      if negb free then pick_by_score s locked ls
      else if dge (score s i) one && dge (score s i) (score s (i + 1)) then Some i
      else pick_by_score s locked ls
  end.
Definition kForceCompactSizeThresholdInMb : Z := 10 * 1024.
(** The last loop, from the deepest level with files upwards.  [count_guard_scores] and
    [no_horizontal_compact] live across its rounds. *)
Fixpoint pick_forced (h : Files) (v : Version) (s : Scores) (locked : list bool) (ls : list Z)
    (count_guard_scores : Z) (no_horizontal_compact : bool) : option (option Z) :=
  match ls with
  | [] => Some None
  | i :: ls =>
      let skip := pick_forced h v s locked ls count_guard_scores no_horizontal_compact in
      if kNumLevels - 1 <=? i then skip
      else
        free ← unlocked locked i;
        if negb free || (NumFiles v i =? 0) then skip
        else
          let current_level_size := TotalFileSize h (at_level (files_ v) i) in
          let next_level_size := TotalFileSize h (at_level (files_ v) (i + 1)) in
          if current_level_size =? 0 then skip
          else
            let inter_level_ratio := Z.quot next_level_size current_level_size in
            if (inter_level_ratio <=? 25) ||
               (Z.quot next_level_size 1048576 <? kForceCompactSizeThresholdInMb) then
              let guard_scores := at_level (guard_compaction_scores_ s) i in
              let checked := (25 <? inter_level_ratio) && SFltb (score s i) one &&
                SFltb (of_level S754_nan (sentinel_compaction_scores_ s) i) one in
              let count := if checked
                then count_guard_scores + blen (filter (fun x => SFltb x one = true) guard_scores)
                else count_guard_scores in
              let no_horizontal := no_horizontal_compact || (checked && (count =? blen guard_scores)) in
              if no_horizontal then pick_forced h v s locked ls count no_horizontal else Some (Some i)
            else skip
  end.
Definition max_level (v : Version) : Z :=
  fold_left (fun m i => if 0 <? NumFiles v i then i else m) levels (-1).

(** The level, whether to compact it by force, and the current version, whose candidate
    for a seek compaction is taken. *)
Definition PickCompactionLevel (h : Files) (v : Version) (s : Scores) (locked : list bool) (seek_driven : bool)
    : option (Z * bool * Version) :=
  level ← pick_by_score s locked (seqZ 1 (kNumLevels - 2));
  '(level, v) ← (if seek_driven && (level =? kNumLevels) && negb (file_to_compact_ v =? 0) then
      free ← unlocked locked (file_to_compact_level_ v);
      if (free : bool) then Some (file_to_compact_level_ v, set_compact v 0 (-1)) else Some (level, v)
    else Some (level, v));
  last ← locked !! Z.to_nat (kNumLevels - 1);
  let level := if (level =? kNumLevels) && dge (score s (kNumLevels - 1)) one && negb last
               then kNumLevels - 1 else level in
  free ← unlocked locked 0;
  let level := if (free : bool) && dge (score s 0) one && SFleb (score s 1) one then 0 else level in
  if seek_driven && ((level =? kNumLevels) || SFltb (score s level) one) then
    if max_level v =? -1 then Some (level, false, v)
    else
      forced ← pick_forced h v s locked (reverse (seqZ 0 (max_level v + 1))) 0 false;
      Some (match forced with Some i => (i, true, v) | None => (level, false, v) end)
  else Some (level, false, v).

(** ** Choosing the inputs *)

Section Pick.
Context (ucmp : Comparator) (h : Files).

(** Guards by key; a key that repeats is kept once. *)
Definition SortBySmallestGuard (g1 g2 : GuardMetaData) : bool :=
  Compare ucmp (guard_user_key g1) (guard_user_key g2) <? 0.
Fixpoint drop_repeats (prev : GuardMetaData) (l : list GuardMetaData) : list GuardMetaData :=
  match l with
  | [] => []
  | g :: l =>
      if Compare ucmp (guard_user_key g) (guard_user_key prev) =? 0 then drop_repeats prev l
      else g :: drop_repeats g l
  end.
Definition sorted_guards (l : list GuardMetaData) : list GuardMetaData :=
  match std_sort SortBySmallestGuard l with
  | [] => []
  | g :: l => g :: drop_repeats g l
  end.

(** In a horizontal compaction only files that are small for their segment take part,
    unless all must. *)
Definition average_size (files : list Z) : Z :=
  double_to_size_t (ddiv (double_of_int (u64 (TotalFileSize h files))) (double_of_int kMaxFilesPerGuardSentinel)).
Definition lit_1_5 : spec_float := ddiv (double_of_int 3) (double_of_int 2).
Definition takes_part (add_all : bool) (avg_file_size max_files_per_guard : Z) (a : Z) : bool :=
  let size := f_file_size (deref h a) in
  add_all || (size <? avg_file_size) ||
  SFleb (ddiv (double_of_int size) (double_of_int avg_file_size)) lit_1_5 || (max_files_per_guard =? 1).
Definition choose_files (horizontal add_all : bool) (max_files_per_guard : Z) (files : list Z) : list Z :=
  if horizontal then filter (fun a => takes_part add_all (average_size files) max_files_per_guard a) files
  else files.

(** A sentinel file reaches past the first guard. *)
Definition sentinels_misplaced (complete_guards : list GuardMetaData) (sentinels : list Z) : bool :=
  match complete_guards with
  | [] => false
  | g :: _ => existsb (fun a => 0 <=? Compare ucmp (file_limit h a) (guard_user_key g)) sentinels
  end.
(** A file of the guard [key] does not lie between it and the next guard. *)
Definition misplaced (key : bytes) (next : option bytes) (a : Z) : bool :=
  (Compare ucmp (file_start h a) key <? 0) ||
  match next with Some n => 0 <=? Compare ucmp (file_limit h a) n | None => false end.

(** The guard with the key of a complete guard, from index [gi] of the guards on; [rest]
    are the guards from there.  The index the search ends at, and the guards after it. *)
Fixpoint match_guard (rest : list GuardMetaData) (gi : nat) (key : bytes)
    : option (nat * GuardMetaData) * nat * list GuardMetaData :=
  match rest with
  | [] => (None, gi, [])
  | g :: rest' =>
      let compare := Compare ucmp (guard_user_key g) key in
      if compare =? 0 then (Some (gi, g), S gi, rest')
      else if 0 <? compare then (None, gi, rest)
      else match_guard rest' (S gi) key
  end.
(** The guards that take part and whether all their files must; [score] says whether the
    guard at an index needs compaction. *)
Fixpoint choose_guards (complete rest : list GuardMetaData) (gi : nat) (wanted : nat -> option bool)
    : option (list (GuardMetaData * bool)) :=
  match complete with
  | [] => Some []
  | cg :: complete =>
      let '(found, gi', rest) := match_guard rest gi (guard_user_key cg) in
      match found with
      | None => choose_guards complete rest gi' wanted
      | Some (i, g) =>
          if existsb (misplaced (guard_user_key cg) (guard_user_key <$> head complete))
               (take (length (g_files g)) (g_file_metas g))
          then l ← choose_guards complete rest gi' wanted; Some ((g, true) :: l)
          else if blen (g_file_metas g) <? blen (g_files g) then None
          else
            w ← wanted i;
            l ← choose_guards complete rest gi' wanted;
            Some (if (w : bool) then (g, false) :: l else l)
      end
  end.

(** The files of a chosen guard and the guard the compaction lists: in a horizontal
    compaction a new one with the files that take part. *)
Definition guard_files (horizontal : bool) (max_files_per_guard : Z) (p : GuardMetaData * bool)
    : option (list Z * GuardMetaData) :=
  let '(g, add_all) := p in
  if blen (g_file_metas g) <? g_number_segments g then None
  else
    let files := take (Z.to_nat (g_number_segments g)) (g_file_metas g) in
    if horizontal then
      let chosen := filter (fun a => takes_part add_all (average_size (g_file_metas g)) max_files_per_guard a) files in
      Some (chosen, {| g_refs := 0; g_level := -1; g_number_segments := blen chosen;
                       g_guard_key := g_guard_key g; g_smallest := g_smallest g; g_largest := g_largest g;
                       g_files := (fun a => f_number (deref h a)) <$> chosen; g_file_metas := chosen |})
    else Some (files, g).

Record LevelInputs := { li_files : list Z; li_guards : list GuardMetaData; li_sentinels : list Z }.
Definition no_inputs : LevelInputs := {| li_files := []; li_guards := []; li_sentinels := [] |}.
(** The inputs from one level: [first] is the level of the compaction itself, where the
    scores count; [complete_guards] are its complete guards, sorted. *)
Definition pick_level (v : Version) (s : Scores) (horizontal force_compact first : bool) (level : Z)
    (complete_guards : list GuardMetaData) : option LevelInputs :=
  let sentinels := at_level (sentinel_files_ v) level in
  let guards := at_level (guards_ v) level in
  let all_sentinels := sentinels_misplaced complete_guards sentinels in
  let add_sentinels := all_sentinels ||
    (first && (force_compact || dge (of_level S754_nan (sentinel_compaction_scores_ s) level) one)) in
  let max_files_per_guard :=
    if MaxFilesPerGuardForLevel level <=? 0 then kMaxFilesPerGuardSentinel else MaxFilesPerGuardForLevel level in
  let sentinel_inputs :=
    if add_sentinels then choose_files horizontal all_sentinels max_files_per_guard sentinels else [] in
  let wanted i :=
    if negb first then Some false else if force_compact then Some true
    else (fun x => dge x one) <$> at_level (guard_compaction_scores_ s) level !! i in
  chosen ← choose_guards complete_guards guards 0 wanted;
  parts ← mapM (guard_files horizontal max_files_per_guard) chosen;
  Some {| li_files := sentinel_inputs ++ concat (fst <$> parts); li_guards := snd <$> parts;
          li_sentinels := sentinel_inputs |}.

(** Whether the compaction stays on its level: the last level always, the one before it
    when the last one is more than 25 times as large. *)
Definition is_horizontal (current : Version) (level : Z) : bool :=
  if level =? kNumLevels - 1 then true
  else if level =? kNumLevels - 2 then
    let current_level_size := TotalFileSize h (at_level (files_ current) level) in
    let next_level_size := TotalFileSize h (at_level (files_ current) (level + 1)) in
    (0 <? current_level_size) && (25 <? Z.quot next_level_size current_level_size)
  else false.
End Pick.

(** The compaction, if any, and the guards that its outputs are cut at: those of the level
    the outputs go to. *)
Definition PickCompactionForGuards (ucmp : Comparator) (vs : VersionSet) (p : Z) (level : Z) (force_compact : bool)
    : option (VersionSet * option (Compaction * list GuardMetaData)) :=
  let h := st_files (vs_store vs) in
  if kNumLevels <=? level then None
  else
    o ← vs_objects vs !! p;
    cur ← vs_objects vs !! current_ vs;
    let v := vo_version o in
    if NumFiles v level =? 0 then Some (vs, None)
    else
      let horizontal := is_horizontal h (vo_version cur) level in
      let complete which := sorted_guards ucmp (at_level (complete_guards_ v) (level + which)) in
      vs ← Version_Ref vs p;
      a ← pick_level ucmp h v (vo_scores o) horizontal force_compact true level (complete 0);
      b ← (if horizontal then Some no_inputs
           else pick_level ucmp h v (vo_scores o) horizontal force_compact false (level + 1) (complete 1));
      Some (vs, Some (Compaction_new level p horizontal [li_files a; li_files b] [li_guards a; li_guards b]
                        [li_sentinels a; li_sentinels b],
                      if horizontal then complete 0 else complete 1)).

(** A manual compaction of a range of a level, with the guards and files of the next level
    that meet the range. *)
Definition VersionSet_CompactRange (ucmp : Comparator) (vs : VersionSet) (level : Z) (begin end_ : option bytes)
    : option (VersionSet * option Compaction) :=
  let h := st_files (vs_store vs) in
  o ← vs_objects vs !! current_ vs;
  '(f0, g0, s0) ← GetOverlappingInputsGuards ucmp h (vo_version o) level begin end_;
  '(f1, g1, s1) ← GetOverlappingInputsGuards ucmp h (vo_version o) (level + 1) begin end_;
  match f0 with
  | [] => Some (vs, None)
  | _ =>
      vs ← Version_Ref vs (current_ vs);
      Some (vs, Some (Compaction_new level (current_ vs) false [f0; f1] [g0; g1] [s0; s1]))
  end.
