(* ===== verification/DbImpl.v ===== *)
(** * The database object: background compaction

    Models the parts of [DBImpl] ([src/pebblesdb/src/db/db_impl.cc],
    [src/pebblesdb/src/db/db_impl.h]) that rewrite tables: [DoCompactionWorkGuards] merges
    the inputs of a compaction into new tables, dropping entries that no reader needs and
    cutting the outputs at guards; [BackgroundCompactionGuards] picks a compaction, runs it
    and installs it; [DeleteObsoleteFiles] collects files.

    The environment, the table cache and the iterators over the inputs of one level are
    interfaces.  An operation runs alone: between the sections that hold the mutex no other
    thread runs.  A failed [assert] and an access past an array are the outcome [None]. *)

From Stdlib Require Import SpecFloat.
From stdpp Require Import gmap sorting.
From S2P Require Import Prelude Coding Status Comparator DbFormat Bloom LogFormat Iterator VersionEdit.
From S2P Require Import FileName FilterBlock TableFormat Table Merger.
From S2P Require Import MemTable TableGet Version VersionBuilder VersionSet Compaction.
From stdpp Require Import list.
#[local] Open Scope Z_scope.

(** ** What the database needs of its environment *)

(** [Flush] of an open file, the names in a directory. *)
Class DirEnv (E : Type) := {
  FlushNamed : E -> bytes -> Status * E;
  GetChildren : E -> bytes -> list (list Z);
}.
(** The table cache: the status of the iterator it opens on a table, and eviction. *)
Class TableOpens (T E : Type) := {
  table_status : T -> E -> Z -> Z -> Status * T;
  Evict : T -> Z -> T;
}.
(** Writing front to back to the open file [name]. *)
Definition named_writable {E} `{Env E} `{DirEnv E} (name : bytes) : WritableFile E := {|
  Append env data := let '(s, env) := AppendToFile env name data in (env, s);
  FlushFile env := let '(s, env) := FlushNamed env name in (env, s);
|}.

(** ** The state *)

Record ManualCompaction := { m_level : Z; m_done : bool; m_begin : option bytes; m_end : option bytes }.
Record DB (E T : Type) := {
  env_ : E;
  versions_ : VersionSet;
  table_cache_ : T;
  pending_outputs_ : gset Z;
  snapshots_ : list Z;
  manual_garbage_cutoff_ : Z;
  levels_locked_ : list bool;
  bg_error_ : Status;
  manual_compaction_ : option ManualCompaction;
  straight_reads_ : Z;
  backup_in_progress_ : bool;
  backup_deferred_delete_ : bool;
}.
Arguments env_ {E T} _. Arguments versions_ {E T} _. Arguments table_cache_ {E T} _.
Arguments pending_outputs_ {E T} _. Arguments snapshots_ {E T} _. Arguments manual_garbage_cutoff_ {E T} _.
Arguments levels_locked_ {E T} _. Arguments bg_error_ {E T} _. Arguments manual_compaction_ {E T} _.
Arguments straight_reads_ {E T} _. Arguments backup_in_progress_ {E T} _. Arguments backup_deferred_delete_ {E T} _.

Record Output := { number : Z; file_size : Z; smallest : bytes; largest : bytes }.
(** While a builder writes the output file, its copy of the environment is set before each
    call; an open file is named by its path. *)
Record CompactionState (E : Type) := {
  compaction : Compaction;
  smallest_snapshot : Z;
  outputs : list Output;
  outfile : option bytes;
  builder : option (TableBuilder.Rep E);
  total_bytes : Z;
}.
Arguments compaction {E} _. Arguments smallest_snapshot {E} _. Arguments outputs {E} _.
Arguments outfile {E} _. Arguments builder {E} _. Arguments total_bytes {E} _.
Arguments Build_CompactionState {E}. Arguments Build_DB {E T}.

Section Assign.
Context {E T : Type}.
Definition set_env (d : DB E T) (env : E) : DB E T :=
  {| env_ := env; versions_ := versions_ d; table_cache_ := table_cache_ d; pending_outputs_ := pending_outputs_ d;
     snapshots_ := snapshots_ d; manual_garbage_cutoff_ := manual_garbage_cutoff_ d;
     levels_locked_ := levels_locked_ d; bg_error_ := bg_error_ d; manual_compaction_ := manual_compaction_ d;
     straight_reads_ := straight_reads_ d; backup_in_progress_ := backup_in_progress_ d;
     backup_deferred_delete_ := backup_deferred_delete_ d |}.
Definition set_versions (d : DB E T) (vs : VersionSet) : DB E T :=
  {| env_ := env_ d; versions_ := vs; table_cache_ := table_cache_ d; pending_outputs_ := pending_outputs_ d;
     snapshots_ := snapshots_ d; manual_garbage_cutoff_ := manual_garbage_cutoff_ d;
     levels_locked_ := levels_locked_ d; bg_error_ := bg_error_ d; manual_compaction_ := manual_compaction_ d;
     straight_reads_ := straight_reads_ d; backup_in_progress_ := backup_in_progress_ d;
     backup_deferred_delete_ := backup_deferred_delete_ d |}.
Definition set_table_cache (d : DB E T) (t : T) : DB E T :=
  {| env_ := env_ d; versions_ := versions_ d; table_cache_ := t; pending_outputs_ := pending_outputs_ d;
     snapshots_ := snapshots_ d; manual_garbage_cutoff_ := manual_garbage_cutoff_ d;
     levels_locked_ := levels_locked_ d; bg_error_ := bg_error_ d; manual_compaction_ := manual_compaction_ d;
     straight_reads_ := straight_reads_ d; backup_in_progress_ := backup_in_progress_ d;
     backup_deferred_delete_ := backup_deferred_delete_ d |}.
Definition set_pending_outputs (d : DB E T) (p : gset Z) : DB E T :=
  {| env_ := env_ d; versions_ := versions_ d; table_cache_ := table_cache_ d; pending_outputs_ := p;
     snapshots_ := snapshots_ d; manual_garbage_cutoff_ := manual_garbage_cutoff_ d;
     levels_locked_ := levels_locked_ d; bg_error_ := bg_error_ d; manual_compaction_ := manual_compaction_ d;
     straight_reads_ := straight_reads_ d; backup_in_progress_ := backup_in_progress_ d;
     backup_deferred_delete_ := backup_deferred_delete_ d |}.
Definition set_locked (d : DB E T) (l : list bool) : DB E T :=
  {| env_ := env_ d; versions_ := versions_ d; table_cache_ := table_cache_ d; pending_outputs_ := pending_outputs_ d;
     snapshots_ := snapshots_ d; manual_garbage_cutoff_ := manual_garbage_cutoff_ d;
     levels_locked_ := l; bg_error_ := bg_error_ d; manual_compaction_ := manual_compaction_ d;
     straight_reads_ := straight_reads_ d; backup_in_progress_ := backup_in_progress_ d;
     backup_deferred_delete_ := backup_deferred_delete_ d |}.
Definition set_bg_error (d : DB E T) (s : Status) : DB E T :=
  {| env_ := env_ d; versions_ := versions_ d; table_cache_ := table_cache_ d; pending_outputs_ := pending_outputs_ d;
     snapshots_ := snapshots_ d; manual_garbage_cutoff_ := manual_garbage_cutoff_ d;
     levels_locked_ := levels_locked_ d; bg_error_ := s; manual_compaction_ := manual_compaction_ d;
     straight_reads_ := straight_reads_ d; backup_in_progress_ := backup_in_progress_ d;
     backup_deferred_delete_ := backup_deferred_delete_ d |}.
Definition set_manual (d : DB E T) (m : option ManualCompaction) : DB E T :=
  {| env_ := env_ d; versions_ := versions_ d; table_cache_ := table_cache_ d; pending_outputs_ := pending_outputs_ d;
     snapshots_ := snapshots_ d; manual_garbage_cutoff_ := manual_garbage_cutoff_ d;
     levels_locked_ := levels_locked_ d; bg_error_ := bg_error_ d; manual_compaction_ := m;
     straight_reads_ := straight_reads_ d; backup_in_progress_ := backup_in_progress_ d;
     backup_deferred_delete_ := backup_deferred_delete_ d |}.
Definition set_deferred (d : DB E T) (b : bool) : DB E T :=
  {| env_ := env_ d; versions_ := versions_ d; table_cache_ := table_cache_ d; pending_outputs_ := pending_outputs_ d;
     snapshots_ := snapshots_ d; manual_garbage_cutoff_ := manual_garbage_cutoff_ d;
     levels_locked_ := levels_locked_ d; bg_error_ := bg_error_ d; manual_compaction_ := manual_compaction_ d;
     straight_reads_ := straight_reads_ d; backup_in_progress_ := backup_in_progress_ d;
     backup_deferred_delete_ := b |}.

Definition CompactionState_new (c : Compaction) : CompactionState E :=
  {| compaction := c; smallest_snapshot := 0; outputs := []; outfile := None; builder := None; total_bytes := 0 |}.
Definition set_compaction (cs : CompactionState E) (c : Compaction) : CompactionState E :=
  {| compaction := c; smallest_snapshot := smallest_snapshot cs; outputs := outputs cs; outfile := outfile cs;
     builder := builder cs; total_bytes := total_bytes cs |}.
Definition set_smallest_snapshot (cs : CompactionState E) (s : Z) : CompactionState E :=
  {| compaction := compaction cs; smallest_snapshot := s; outputs := outputs cs; outfile := outfile cs;
     builder := builder cs; total_bytes := total_bytes cs |}.
Definition set_outputs (cs : CompactionState E) (o : list Output) : CompactionState E :=
  {| compaction := compaction cs; smallest_snapshot := smallest_snapshot cs; outputs := o; outfile := outfile cs;
     builder := builder cs; total_bytes := total_bytes cs |}.
Definition set_builder (cs : CompactionState E) (f : option bytes) (b : option (TableBuilder.Rep E)) : CompactionState E :=
  {| compaction := compaction cs; smallest_snapshot := smallest_snapshot cs; outputs := outputs cs; outfile := f;
     builder := b; total_bytes := total_bytes cs |}.
Definition set_total_bytes (cs : CompactionState E) (n : Z) : CompactionState E :=
  {| compaction := compaction cs; smallest_snapshot := smallest_snapshot cs; outputs := outputs cs;
     outfile := outfile cs; builder := builder cs; total_bytes := n |}.
(** [*current_output()] is the last output. *)
Definition on_current_output (cs : CompactionState E) (f : Output -> Output) : option (CompactionState E) :=
  match last (outputs cs) with
  | Some o => Some (set_outputs cs (removelast (outputs cs) ++ [f o]))
  | None => None
  end.

Definition RecordBackgroundError (d : DB E T) (s : Status) : DB E T :=
  if ok (bg_error_ d) then set_bg_error d s else d.
End Assign.

(** ** Writing the outputs *)

Section Compact.
Context (ucmp : Comparator) (opt : Options) (cmp_name dbname : bytes) (garbage : list spec_float).
Context {E T F : Type} `{HE : Env E} `{HD : DirEnv E} `{HT : TableOpens T E} `{HM : ManifestEnv E F} `{HS : Snappy}.
Abbreviation db := (DB E T).
Abbreviation state := (CompactionState E).

(** A call on the builder, on the environment as it is now. *)
Definition on_builder {A} (env : E) (cs : state) (f : WritableFile E -> TableBuilder.Rep E -> option (A * TableBuilder.Rep E))
    : option (A * E * state) :=
  match builder cs, outfile cs with
  | Some r, Some name =>
      '(a, r) ← f (named_writable name) (TableBuilder.set_file r env (TableBuilder.status r));
      Some (a, TableBuilder.file r, set_builder cs (Some name) (Some r))
  | _, _ => None
  end.

Definition OpenCompactionOutputFile (d : db) (cs : state) : option (Status * db * state) :=
  match builder cs with
  | Some _ => None
  | None =>
      let '(file_number, vs) := NewFileNumber (versions_ d) in
      let d := set_pending_outputs (set_versions d vs) ({[ file_number ]} ∪ pending_outputs_ d) in
      let cs := set_outputs cs (outputs cs ++ [{| number := file_number; file_size := 0; smallest := []; largest := [] |}]) in
      let fname := TableFileName dbname file_number in
      let '(s, env) := NewWritableFile (env_ d) fname in
      let d := set_env d env in
      Some (s, d, if ok s then set_builder cs (Some fname) (Some (TableBuilder.new opt env)) else cs)
  end.

(** What the compaction collects besides the state: the builder of the filters of whole
    files, the numbers of the outputs and their filters. *)
Record Collected := {
  filter_builder : FileLevelFilterBuilder.FileLevelFilterBuilder;
  file_numbers : list Z;
  file_level_filters : list (option bytes);
}.

(** The filter of the whole file: null is a failed assertion. *)
Definition close_filter (col : Collected) : option (FileLevelFilterBuilder.FileLevelFilterBuilder * list (option bytes)) :=
  match filter_policy opt with
  | Some _ =>
      let '(fb, filter) := FileLevelFilterBuilder.GenerateFilter (filter_builder col) in
      if filter then Some (FileLevelFilterBuilder.Clear fb, file_level_filters col ++ [filter]) else None
  | None => Some (filter_builder col, file_level_filters col)
  end.
(** Finish and check for file errors, then verify that the table is usable. *)
Definition close_output (d : db) (env : E) (name : bytes) (s : Status) (output_number current_bytes current_entries : Z)
    : Status * db :=
  let '(s, env) := if ok s then SyncFile env name else (s, env) in
  let '(s, env) := if ok s then CloseFile env name else (s, env) in
  let d := set_env d env in
  if ok s && (0 <? current_entries) then
    let '(s, t) := table_status (table_cache_ d) (env_ d) output_number current_bytes in (s, set_table_cache d t)
  else (s, d).
(** [input_status] is [input->status()].  The filter is made after the file is closed, which
    it does not depend on; [SetFileMetaDataMap] returns at once. *)
Definition FinishCompactionOutputFile (d : db) (cs : state) (col : Collected) (input_status : Status)
    : option (Status * db * state * Collected) :=
  out ← last (outputs cs);
  name ← outfile cs;
  r0 ← builder cs;
  if number out =? 0 then None
  else
    let current_entries := TableBuilder.NumEntries r0 in
    '(s, env, cs) ← (if ok input_status then on_builder (env_ d) cs (fun w r => TableBuilder.Finish r)
                     else on_builder (env_ d) cs (fun w r => r ← TableBuilder.Abandon r; Some (input_status, r)));
    r ← builder cs;
    let current_bytes := TableBuilder.FileSize r in
    cs ← on_current_output cs (fun o => {| number := number o; file_size := current_bytes;
                                           smallest := smallest o; largest := largest o |});
    let cs := set_builder (set_total_bytes cs (u64 (total_bytes cs + current_bytes))) None None in
    '(fb, filters) ← close_filter col;
    let '(s, d) := close_output d env name s (number out) current_bytes current_entries in
    Some (s, d, cs, {| filter_builder := fb; file_numbers := file_numbers col ++ [number out];
                       file_level_filters := filters |}).

Definition InstallCompactionResults (d : db) (cs : state) (level_to_add_new_files : Z) (col : Collected)
    : option (Status * db * state) :=
  let c := compaction cs in
  let edit := AddInputDeletions (st_files (vs_store (versions_ d))) c (edit_ c) in
  let edit := fold_left (fun e o =>
    VersionEdit.AddFile e level_to_add_new_files (number o) (file_size o) (smallest o) (largest o)) (outputs cs) edit in
  '(env, s, vs) ← LogAndApply ucmp cmp_name dbname garbage (env_ d) (versions_ d) edit (file_numbers col)
                    (file_level_filters col);
  Some (s, set_versions (set_env d env) vs, set_compaction cs (set_edit c edit)).

Definition CleanupCompaction (d : db) (cs : state) : option db :=
  _ ← (match builder cs, outfile cs with
       | Some r, _ => TableBuilder.Abandon r ≫= fun _ => Some tt
       | None, None => Some tt
       | None, Some _ => None
       end);
  Some (set_pending_outputs d (pending_outputs_ d ∖ list_to_set (number <$> outputs cs))).

(** ** The merge *)

Section Work.
Context {I : Type} `{HI : Iterator I}.

(** The state of the loop: [l_current_key] is the parsed [current_key] while
    [has_current_key]; [l_guards] are the guards from [current_guard] on. *)
Record Loop := {
  l_db : db;
  l_cs : state;
  l_col : Collected;
  l_current_key : option ParsedInternalKey;
  l_last_sequence : Z;
  l_hint : nat;
  l_guards : list GuardMetaData;
}.
Definition set_run (l : Loop) (d : db) (cs : state) (col : Collected) : Loop :=
  {| l_db := d; l_cs := cs; l_col := col; l_current_key := l_current_key l; l_last_sequence := l_last_sequence l;
     l_hint := l_hint l; l_guards := l_guards l |}.
Definition set_current_key (l : Loop) (k : option ParsedInternalKey) (last : Z) (hint : nat) : Loop :=
  {| l_db := l_db l; l_cs := l_cs l; l_col := l_col l; l_current_key := k; l_last_sequence := last;
     l_hint := hint; l_guards := l_guards l |}.
Definition set_guards_left (l : Loop) (g : list GuardMetaData) : Loop :=
  {| l_db := l_db l; l_cs := l_cs l; l_col := l_col l; l_current_key := l_current_key l;
     l_last_sequence := l_last_sequence l; l_hint := l_hint l; l_guards := g |}.

Definition finish_output (it : I) (l : Loop) : option (Status * Loop) :=
  '(s, d, cs, col) ← FinishCompactionOutputFile (l_db l) (l_cs l) (l_col l) (status it);
  Some (s, set_run l d cs col).
Definition open_output (l : Loop) : option (Status * Loop) :=
  match builder (l_cs l) with
  | Some _ => Some (OK, l)
  | None =>
      '(s, d, cs) ← OpenCompactionOutputFile (l_db l) (l_cs l);
      Some (s, set_run l d cs (l_col l))
  end.

(** A user key that was not the current one: close the output at a boundary of the level
    below, and remember the key. *)
Definition close_at_boundary (it : I) (l : Loop) (ikey : ParsedInternalKey) : option (Status * Loop) :=
  match l_current_key l, builder (l_cs l) with
  | Some cur, Some r =>
      if MinOutputFileSize (compaction (l_cs l)) <=? TableBuilder.FileSize r then
        '(crosses, hint) ← CrossesBoundary ucmp (compaction (l_cs l)) cur ikey (l_hint l);
        let l := set_current_key l (l_current_key l) (l_last_sequence l) hint in
        if (crosses : bool) then finish_output it l else Some (OK, l)
      else Some (OK, l)
  | _, _ => Some (OK, l)
  end.
Definition new_user_key (it : I) (l : Loop) (ikey : ParsedInternalKey) : option (Status * Loop) :=
  '(s, l) ← close_at_boundary it l ikey;
  if negb (ok s) then Some (s, l)
  else Some (OK, set_current_key l (Some ikey) kMaxSequenceNumber (l_hint l)).

(** Whether the entry is dropped; [v] is the input version. *)
Definition drop_entry (h : Files) (v : Version) (c : Compaction) (snapshot cutoff last : Z) (ikey : ParsedInternalKey)
    : bool * Compaction :=
  let '(drop, c) :=
    if last <=? snapshot then (true, c)
    else if (type ikey =? kTypeDeletion) && (sequence ikey <=? snapshot)
    then IsBaseLevelForKey ucmp h v c (user_key ikey)
    else (false, c) in
  (if drop && (last =? kMaxSequenceNumber) && (cutoff <=? sequence ikey) then false else drop, c).

(** Keys that do not parse are kept. *)
Definition judge_key (h : Files) (v : Version) (it : I) (l : Loop) : option (Status * bool * Loop) :=
  match ParseInternalKey (key it) with
  | None => Some (OK, false, set_current_key l None kMaxSequenceNumber (l_hint l))
  | Some ikey =>
      let first := match l_current_key l with
                   | Some cur => negb (Compare ucmp (user_key ikey) (user_key cur) =? 0)
                   | None => true
                   end in
      '(s, l) ← (if first then new_user_key it l ikey else Some (OK, l));
      if negb (ok s) then Some (s, false, l)
      else
        let '(drop, c) := drop_entry h v (compaction (l_cs l)) (smallest_snapshot (l_cs l))
                            (manual_garbage_cutoff_ (l_db l)) (l_last_sequence l) ikey in
        let l := set_run l (l_db l) (set_compaction (l_cs l) c) (l_col l) in
        Some (OK, drop, set_current_key l (l_current_key l) (sequence ikey) (l_hint l))
  end.

(** The key has reached the next guard: close the output and pass the guards. *)
Fixpoint pass_guards (ukey : bytes) (guards : list GuardMetaData) : list GuardMetaData :=
  match guards with
  | [] => []
  | g :: rest => if 0 <=? Compare ucmp ukey (guard_user_key g) then pass_guards ukey rest else guards
  end.
Definition split_at_guard (it : I) (l : Loop) : option (Status * Loop) :=
  match l_guards l with
  | g :: _ =>
      let ukey := ExtractUserKey (key it) in
      if 0 <=? Compare ucmp ukey (guard_user_key g) then
        r ← builder (l_cs l);
        '(s, l) ← (if 0 <? TableBuilder.NumEntries r then finish_output it l else Some (OK, l));
        Some (s, set_guards_left l (pass_guards ukey (l_guards l)))
      else Some (OK, l)
  | [] => Some (OK, l)
  end.
Definition write_entry (it : I) (l : Loop) : option Loop :=
  r ← builder (l_cs l);
  cs ← on_current_output (l_cs l) (fun o =>
    {| number := number o; file_size := file_size o;
       smallest := if TableBuilder.NumEntries r =? 0 then key it else smallest o; largest := key it |});
  '(_, env, cs) ← on_builder (env_ (l_db l)) cs (fun w r => r ← TableBuilder.Add r (key it) (value it); Some (tt, r));
  let col := {| filter_builder := FileLevelFilterBuilder.AddKey (filter_builder (l_col l)) (key it);
                file_numbers := file_numbers (l_col l); file_level_filters := file_level_filters (l_col l) |} in
  Some (set_run l (set_env (l_db l) env) cs col).
Definition close_if_big (it : I) (l : Loop) : option (Status * Loop) :=
  r ← builder (l_cs l);
  if MaxOutputFileSize (compaction (l_cs l)) <=? TableBuilder.FileSize r then finish_output it l else Some (OK, l).

(** The steps of a round; an error ends the round and the loop. *)
Definition andthen (x : option (Status * Loop)) (f : Loop -> option (Status * Loop)) : option (Status * Loop) :=
  '(s, l) ← x; if ok s then f l else Some (s, l).
Definition keep_entry (it : I) (l : Loop) : option (Status * Loop) :=
  andthen (open_output l) (fun l =>
  andthen (split_at_guard it l) (fun l =>
  andthen (open_output l) (fun l =>
  l ← write_entry it l; close_if_big it l))).
Definition work_step (h : Files) (v : Version) (it : I) (l : Loop) : option (Status * Loop) :=
  '(s, drop, l) ← judge_key h v it l;
  if negb (ok s) || drop then Some (s, l) else keep_entry it l.

(** The oldest snapshot in use, and the variables before the loop. *)
Definition oldest_snapshot (d : db) : Z := match snapshots_ d with [] => last_sequence_ (versions_ d) | s :: _ => s end.
Definition work_start (d : db) (cs : state) (guards : list GuardMetaData)
    (fb : FileLevelFilterBuilder.FileLevelFilterBuilder) : Loop :=
  {| l_db := d; l_cs := cs; l_col := {| filter_builder := fb; file_numbers := []; file_level_filters := [] |};
     l_current_key := None; l_last_sequence := kMaxSequenceNumber; l_hint := 0%nat; l_guards := guards |}.

(** [shutdown n]: what the [n]th load of [shutting_down_] gives; [n] counts the loads. *)
Fixpoint work_loop (fuel : nat) (shutdown : nat -> bool) (n : nat) (h : Files) (v : Version) (it : I) (l : Loop)
    : option (Status * nat * I * Loop) :=
  match fuel with
  | O => None
  | S fuel =>
      if negb (Valid it) then Some (OK, n, it, l)
      else if shutdown n then Some (OK, S n, it, l)
      else
        '(s, l) ← work_step h v it l;
        if negb (ok s) then Some (s, S n, it, l)
        else work_loop fuel shutdown (S n) h v (Next it) l
  end.

(** The merge of the entries of [it] into outputs, until the mutex is taken again. *)
Definition merge_inputs (fuel : nat) (shutdown : nat -> bool) (h : Files) (v : Version) (it : I) (l : Loop)
    : option (Status * Loop) :=
  '(s, n, it, l) ← work_loop fuel shutdown 0 h v (SeekToFirst it) l;
  let s := if ok s && shutdown n then IOError (str "Deleting DB during compaction") [] else s in
  '(s, l) ← (if ok s && (if builder (l_cs l) then true else false) then finish_output it l else Some (s, l));
  Some (if ok s then status it else s, l).
End Work.

(** ** A whole compaction *)

Section Background.
Context {I0 : Type} `{HI0 : Iterator I0} `{HH : StdHeap}.
(** [NewTwoLevelIteratorGuards] over a [LevelGuardNumIterator] for the guards, sentinel
    files and files of a level. *)
Context (level_iterator : db -> Z -> list GuardMetaData -> list Z -> list Z -> I0).
Abbreviation inputs := (EmptyIterator + (I0 + MergingIterator I0))%type.
#[local] Instance merging_inputs : Iterator (MergingIterator I0) := MergingIterator_ops (InternalKeyComparator ucmp).

Definition MakeInputIteratorForGuardsInALevel (d : db) (c : Compaction) : inputs :=
  NewMergingIterator (InternalKeyComparator ucmp)
    ((fun which => level_iterator d (which + level_ c) (at_level (guard_inputs_ c) which)
       (at_level (sentinel_inputs_ c) which) (at_level (inputs_ c) which)) <$>
     filter (fun which => num_input_files c which <> 0) [0; 1]).

Definition DoCompactionWorkGuards (fuel : nat) (shutdown : nat -> bool) (d : db) (cs : state)
    (complete_guards_used_in_bg_compaction : list GuardMetaData) (fb : FileLevelFilterBuilder.FileLevelFilterBuilder)
    : option (Status * db * state * FileLevelFilterBuilder.FileLevelFilterBuilder) :=
  let c := compaction cs in
  if (num_input_files c 0 =? 0) && (num_input_files c 1 =? 0) then Some (OK, d, cs, fb)
  else
    cur ← vs_objects (versions_ d) !! current_ (versions_ d);
    v ← vs_objects (versions_ d) !! input_version_ c;
    if NumFiles (vo_version cur) (level_ c) =? 0 then None
    else if builder cs then None else if outfile cs then None
    else
      let l := work_start d (set_smallest_snapshot cs (oldest_snapshot d)) complete_guards_used_in_bg_compaction fb in
      '(s, l) ← merge_inputs fuel shutdown (st_files (vs_store (versions_ d))) (vo_version v)
                  (MakeInputIteratorForGuardsInALevel d c) l;
      let level_written_to := if is_horizontal_compaction c then level_ c else level_ c + 1 in
      '(s, d, cs) ← (if ok s then InstallCompactionResults (l_db l) (l_cs l) level_written_to (l_col l)
                     else Some (s, l_db l, l_cs l));
      Some (s, if negb (ok s) then RecordBackgroundError d s else d, cs, filter_builder (l_col l)).

(** A file of a kind, kept or not; [live] are the tables in use. *)
Definition keep_file (vs : VersionSet) (live : gset Z) (n : Z) (type : FileType) : bool :=
  match type with
  | kLogFile => (log_number_ vs <=? n) || (n =? prev_log_number_ vs)
  | kDescriptorFile => manifest_file_number_ vs <=? n
  | kTableFile | kTempFile => bool_decide (n ∈ live)
  | _ => true
  end.
(** The table cache has no file metadata to forget: nothing is ever put in its map. *)
Definition delete_file_named (d : db) (name : bytes) (n : Z) (type : FileType) : db :=
  let d := match type with
           | kTableFile => set_versions (set_table_cache d (Evict (table_cache_ d) n))
                             (RemoveFileLevelBloomFilterInfo (versions_ d) n)
           | _ => d
           end in
  set_env d (snd (RemoveFile (env_ d) (dbname ++ str "/" ++ name))).
Definition DeleteObsoleteFiles (d : db) : option db :=
  if backup_in_progress_ d then Some (set_deferred d true)
  else if negb (ok (bg_error_ d)) then Some d
  else
    live ← AddLiveFiles (versions_ d) (pending_outputs_ d);
    Some (fold_left (fun d name =>
      match ParseFileName name with
      | Some (n, type) => if keep_file (versions_ d) live n type then d else delete_file_named d name n type
      | None => d
      end) (GetChildren (env_ d) dbname) d).

(** The array of locks has one element for each level. *)
Definition set_lock (d : db) (level : Z) (b : bool) : option db :=
  if (0 <=? level) && (level <? kNumLevels) then Some (set_locked d (<[Z.to_nat level := b]> (levels_locked_ d)))
  else None.

(** The compaction to run, the guards to cut at and, for a manual one, the largest key of its
    last input. *)
Definition choose_compaction (d : db) : option (db * option (Compaction * list GuardMetaData) * bytes) :=
  match manual_compaction_ d with
  | Some m =>
      '(vs, c) ← VersionSet_CompactRange ucmp (versions_ d) (m_level m) (m_begin m) (m_end m);
      let d := set_manual (set_versions d vs) (Some {| m_level := m_level m; m_done := match c with None => true | _ => false end;
                                     m_begin := m_begin m; m_end := m_end m |}) in
      match c with
      | Some c => a ← last (at_level (inputs_ c) 0);
          Some (d, Some (c, []), f_largest (deref (st_files (vs_store vs)) a))
      | None => Some (d, None, [])
      end
  | None =>
      let vs := versions_ d in
      cur ← vs_objects vs !! current_ vs;
      '(level, force_compact, v) ← PickCompactionLevel (st_files (vs_store vs)) (vo_version cur) (vo_scores cur)
                                     (levels_locked_ d) (10 <? straight_reads_ d);
      vs ← on_version vs (current_ vs) (fun _ => Some v);
      '(vs, c) ← (if level =? kNumLevels then Some (vs, None)
                  else PickCompactionForGuards ucmp vs (current_ vs) level force_compact);
      let d := set_versions d vs in
      match c with
      | None => Some (d, None, [])
      | Some (c, guards) =>
          match levels_locked_ d !! Z.to_nat (level_ c) with
          | Some false =>
              d ← (if level_ c + 1 <? kNumLevels then
                     match levels_locked_ d !! Z.to_nat (level_ c + 1) with
                     | Some false => set_lock d (level_ c + 1) true
                     | _ => None
                     end
                   else Some d);
              d ← set_lock d (level_ c) true;
              Some (d, Some (c, guards), [])
          | _ => None
          end
      end
  end.

(** The levels whose complete guards the compaction makes guards. *)
Definition guard_levels (is_manual : bool) (c : Compaction) : list Z :=
  if is_manual then [] else if is_horizontal_compaction c then [level_ c] else [level_ c; level_ c + 1].
(** What is left to do of a manual compaction. *)
Definition advance_manual (s : Status) (manual_end : bytes) (m : ManualCompaction) : ManualCompaction :=
  let done := m_done m || negb (ok s) in
  {| m_level := m_level m; m_done := done; m_begin := if done then m_begin m else Some manual_end; m_end := m_end m |}.
(** The last component is the manual compaction the caller waits for. *)
Definition BackgroundCompactionGuards (fuel : nat) (shutdown : nat -> bool) (d : db)
    (fb : FileLevelFilterBuilder.FileLevelFilterBuilder)
    : option (Status * db * FileLevelFilterBuilder.FileLevelFilterBuilder * option ManualCompaction) :=
  let is_manual := bool_decide (is_Some (manual_compaction_ d)) in
  '(d, c, manual_end) ← choose_compaction d;
  '(s, d, fb) ← (match c with
    | None => Some (OK, d, fb)
    | Some (c, guards) =>
        cur ← vs_objects (versions_ d) !! current_ (versions_ d);
        let c := set_edit c (AddGuardsToEdit (vo_version cur) (edit_ c) (guard_levels is_manual c)) in
        '(s, d, cs, fb) ← DoCompactionWorkGuards fuel shutdown d (CompactionState_new c) guards fb;
        let d := if negb (ok s) then RecordBackgroundError d s else d in
        d ← CleanupCompaction d cs;
        '(vs, c) ← ReleaseInputs (versions_ d) (compaction cs);
        d ← DeleteObsoleteFiles (set_versions d vs);
        d ← set_lock d (level_ c) false;
        d ← set_lock d (level_ c + 1) false;
        Some (s, d, fb)
    end);
  let m := if is_manual then advance_manual s manual_end <$> manual_compaction_ d else None in
  Some (s, if is_manual then set_manual d None else d, fb, m).
End Background.
End Compact.
