(* ===== verification/CompactionDrop.v ===== *)
(** * What a compaction may drop

    The answers of [Compaction::IsBaseLevelForKey] over the ascending keys of a
    compaction, the entries that the rules of [DoCompactionWorkGuards] keep
    ([survivors]), and what readers at the snapshots still in use see of them. *)

From stdpp Require Import gmap sorting.
From S2P Require Import Prelude Coding Status Comparator DbFormat Bloom VersionEdit MemTable TableGet.
From S2P Require Import Version VersionSet VersionGet Compaction DbImpl.
From stdpp Require Import list.
#[local] Open Scope Z_scope.

Abbreviation euser e := (user_key (fst (to_ientry e))).
Abbreviation etype e := (type (fst (to_ientry e))).

(** ** IsBaseLevelForKey *)

Section Base.
Context (ucmp : Comparator) (Hc : ComparatorOk ucmp bytes_ok) (h : Files).

(** The range of the file holds the key. *)
Definition spans (k : bytes) (a : Z) : Prop :=
  Compare ucmp (file_start h a) k <= 0 /\ Compare ucmp k (file_limit h a) <= 0.
#[export] Instance spans_dec k a : Decision (spans k a).
Proof. unfold spans. apply _. Defined.
Definition ranged (a : Z) : Prop := bytes_ok (file_start h a) /\ bytes_ok (file_limit h a).
(** The files of a level are listed by their smallest keys; their ranges may overlap. *)
Definition by_start (l : list Z) : Prop :=
  StronglySorted (fun a b => Compare ucmp (file_start h a) (file_start h b) <= 0) l /\ Forall ranged l.
Definition passed (k : bytes) (a : Z) : Prop := Compare ucmp (file_limit h a) k < 0.

Lemma by_start_cons a l : by_start (a :: l) ->
  by_start l /\ ranged a /\ forall b, b ∈ l -> Compare ucmp (file_start h a) (file_start h b) <= 0.
Proof.
  intros [[Hle Hs]%StronglySorted_cons [Ha Hl]%Forall_cons]. split; [by split|]. split; [done|].
  by rewrite Forall_forall in Hle.
Qed.
Lemma by_start_drop n l : by_start l -> by_start (drop n l).
Proof.
  intros [Hs Hr]. rewrite <- (take_drop n l) in Hs, Hr. apply Forall_app in Hr as [_ Hr].
  split; [by eapply StronglySorted_app_1_r|done].
Qed.
Lemma base_scan_spec rest : forall ptr k, bytes_ok k -> by_start rest ->
  exists n, snd (base_scan ucmp h rest ptr k) = (ptr + n)%nat /\ Forall (passed k) (take n rest) /\
    fst (base_scan ucmp h rest ptr k) = bool_decide (Exists (spans k) rest).
Proof.
  induction rest as [|a rest IH]; intros ptr k Hk Hs; cbn [base_scan].
  { exists 0%nat. rewrite Nat.add_0_r. split_and!; [done|constructor|done]. }
  apply by_start_cons in Hs as (Hs & [Hst Hl] & Hle). destruct (Z.leb_spec (Compare ucmp k (file_limit h a)) 0) as [Hin|Hout].
  - exists 0%nat. rewrite Nat.add_0_r. split_and!; [done|constructor|]. cbn [fst].
    destruct (Z.leb_spec 0 (Compare ucmp k (file_start h a))) as [H|H]; symmetry.
    + apply bool_decide_eq_true_2. left. split; [|done]. by apply cmp_ge_le.
    + apply bool_decide_eq_false_2. intros (b & [->|Hb]%elem_of_cons & Hb1 & _)%Exists_exists.
      * apply cmp_ge_le in Hb1; [lia|done..].
      * assert (ranged b) as [Hbs _] by (by eapply Forall_forall; [apply Hs|]).
        pose proof (cmp_trans _ _ _ Hst Hbs Hk (Hle b Hb) Hb1) as H1. apply cmp_ge_le in H1; [lia|done..].
  - destruct (IH (S ptr) k Hk Hs) as (n & E1 & E2 & E3). exists (S n). rewrite E1, E3. split_and!.
    + lia.
    + constructor; [|done]. unfold passed. by apply (cmp_antisym (file_limit h a) k).
    + apply bool_decide_ext. rewrite Exists_cons. split; [by right|]. intros [[_ ?]|?]; [lia|done].
Qed.

(** The pointers only pass files that end before the key. *)
Definition ptrs_at (v : Version) (lvls : list Z) (ptrs : list nat) (k : bytes) : Prop :=
  length ptrs = Z.to_nat kNumLevels /\
  forall lvl, lvl ∈ lvls -> Forall (passed k) (take (of_level 0%nat ptrs lvl) (at_level (files_ v) lvl)).
Lemma of_level_insert (ptrs : list nat) n lvl lvl' : 0 <= lvl < kNumLevels -> 0 <= lvl' < kNumLevels ->
  length ptrs = Z.to_nat kNumLevels ->
  of_level 0%nat (<[Z.to_nat lvl := n]> ptrs) lvl' = if decide (lvl = lvl') then n else of_level 0%nat ptrs lvl'.
Proof.
  intros H1 H2 Hl. unfold of_level. rewrite !nth_lookup. destruct (decide (lvl = lvl')) as [<-|Hne].
  - rewrite list_lookup_insert_eq by lia. done.
  - rewrite list_lookup_insert_ne by lia. done.
Qed.
Lemma spans_passed k l : Forall ranged l -> bytes_ok k -> Forall (passed k) l -> ~ Exists (spans k) l.
Proof.
  intros Hr Hk Hp (a & Ha & _ & H2)%Exists_exists. rewrite Forall_forall in Hp, Hr. destruct (Hr a Ha) as [_ Hl].
  specialize (Hp a Ha). unfold passed in Hp. apply (cmp_antisym (file_limit h a) k) in Hp; [lia|done..].
Qed.
Lemma base_levels_spec v LV (Hlv : forall lvl, lvl ∈ LV -> 0 <= lvl < kNumLevels /\ by_start (at_level (files_ v) lvl)) lvls :
  forall ptrs k, bytes_ok k -> (forall lvl, lvl ∈ lvls -> lvl ∈ LV) -> ptrs_at v LV ptrs k ->
  ptrs_at v LV (snd (base_levels ucmp h v lvls ptrs k)) k /\
  fst (base_levels ucmp h v lvls ptrs k) =
    bool_decide (Forall (fun lvl => ~ Exists (spans k) (at_level (files_ v) lvl)) lvls).
Proof.
  induction lvls as [|lvl lvls IH]; intros ptrs k Hk Hin Hp; cbn [base_levels]; [done|].
  destruct (Hlv lvl ltac:(apply Hin; by left)) as [Hr Hs]. set (ptr := of_level 0%nat ptrs lvl).
  set (files := at_level (files_ v) lvl) in *.
  destruct (base_scan_spec (drop ptr files) ptr k Hk (by_start_drop _ _ Hs)) as (n & E1 & E2 & E3).
  destruct (base_scan _ _ _ _ _) as [found p']. cbn [fst snd] in *. subst found p'.
  destruct Hp as [Hlen Hp]. pose proof (Hp lvl ltac:(apply Hin; by left)) as Hpass. fold ptr files in Hpass.
  assert (ptrs_at v LV (<[Z.to_nat lvl := (ptr + n)%nat]> ptrs) k) as Hp'.
  { split; [by rewrite length_insert|]. intros lvl' Hl'. destruct (Hlv lvl' Hl') as [Hr' _].
    rewrite of_level_insert by done. destruct (decide (lvl = lvl')) as [<-|]; [|by apply Hp].
    fold files. replace (take (ptr + n) files) with (take ptr files ++ take n (drop ptr files))
      by (by rewrite take_take_drop). by apply Forall_app. }
  assert (Exists (spans k) (drop ptr files) <-> Exists (spans k) files) as Hex.
  { rewrite <- (take_drop ptr files) at 2. rewrite Exists_app. split; [by right|]. intros [H|H]; [|done]. exfalso.
    eapply spans_passed; [|exact Hk|exact Hpass|exact H]. destruct Hs as [_ Hs]. rewrite <- (take_drop ptr files) in Hs.
    by apply Forall_app in Hs as [? _]. }
  destruct (decide (Exists (spans k) files)) as [Hsp|Hsp].
  - rewrite bool_decide_eq_true_2 by by apply Hex. cbn [fst snd]. split; [done|].
    symmetry. apply bool_decide_eq_false_2. by intros [? _]%Forall_cons.
  - rewrite bool_decide_eq_false_2 by by rewrite Hex. destruct (IH _ k Hk ltac:(intros; apply Hin; by right) Hp') as [H1 H2].
    split; [done|]. rewrite H2. apply bool_decide_ext. rewrite Forall_cons. naive_solver.
Qed.

(** The key is in the range of no file of the levels below the output. *)
Definition deeper (level : Z) : list Z := seqZ (level + 2) (kNumLevels - (level + 2)).
Definition is_base (v : Version) (level : Z) (k : bytes) : bool :=
  bool_decide (Forall (fun lvl => ~ Exists (spans k) (at_level (files_ v) lvl)) (deeper level)).
Lemma deeper_levels level lvl : 0 <= level -> lvl ∈ deeper level -> 0 <= lvl < kNumLevels.
Proof. unfold deeper. rewrite elem_of_seqZ. lia. Qed.
Definition pointed (v : Version) (c : Compaction) (k : bytes) : Prop := ptrs_at v (deeper (level_ c)) (level_ptrs_ c) k.
Lemma IsBaseLevelForKey_spec v c k : 0 <= level_ c ->
  (forall lvl, lvl ∈ deeper (level_ c) -> by_start (at_level (files_ v) lvl)) -> bytes_ok k -> pointed v c k ->
  exists ptrs, IsBaseLevelForKey ucmp h v c k = (is_base v (level_ c) k, set_level_ptrs c ptrs) /\
    pointed v (set_level_ptrs c ptrs) k.
Proof.
  intros H0 Hs Hk Hp. unfold IsBaseLevelForKey.
  destruct (base_levels_spec v (deeper (level_ c))) with (lvls := deeper (level_ c)) (ptrs := level_ptrs_ c) (k := k)
    as [H1 H2]; [|done..|].
  { intros lvl Hl. split; [by eapply deeper_levels|by apply Hs]. }
  unfold deeper in *. destruct (base_levels _ _ _ _ _ _) as [b ptrs]. cbn [fst snd] in *. subst b. by exists ptrs.
Qed.
Lemma pointed_mono v c k k' : bytes_ok k -> bytes_ok k' -> Compare ucmp k k' <= 0 ->
  (forall lvl, lvl ∈ deeper (level_ c) -> by_start (at_level (files_ v) lvl)) -> pointed v c k -> pointed v c k'.
Proof.
  intros Hk Hk' Hle Hs [Hl Hp]. split; [done|]. intros lvl Hlvl. specialize (Hp lvl Hlvl). destruct (Hs lvl Hlvl) as [_ Hr].
  rewrite Forall_forall in Hp, Hr |- *. intros a Ha. assert (ranged a) as [_ Hla].
  { apply Hr. rewrite <- (take_drop (of_level 0%nat (level_ptrs_ c) lvl)). apply elem_of_app. by left. }
  by eapply cmp_lt_le_trans; [exact Hla|exact Hk| |by apply Hp|].
Qed.
Lemma pointed_start v c k : level_ptrs_ c = replicate (Z.to_nat kNumLevels) 0%nat -> pointed v c k.
Proof.
  intros E. split; [by rewrite E|]. intros lvl _. rewrite E. unfold of_level.
  replace (nth _ _ _) with 0%nat; [constructor|]. symmetry. rewrite nth_lookup. destruct (replicate _ _ !! _) eqn:En; [|done]. by apply lookup_replicate in En as [-> _].
Qed.
End Base.

(** ** The entries that are kept *)

Section Keep.
Context (ucmp : Comparator) (Hc : ComparatorOk ucmp bytes_ok) (Hid : cmp_identity ucmp).
Context (base : bytes -> bool) (snapshot cutoff : Z).

(** The entry of user key [k] goes: an entry of the same key with number [last] is visible
    at every snapshot in use, or it is a deletion that hides nothing further down. *)
Definition dropped (last : Z) (e : entry) : bool :=
  let drop := (last <=? snapshot) ||
    ((etype e =? kTypeDeletion) && (entry_seq e <=? snapshot) && base (euser e)) in
  drop && negb ((last =? kMaxSequenceNumber) && (cutoff <=? entry_seq e)).
Definition last_for (cur : option bytes) (last : Z) (k : bytes) : Z :=
  match cur with Some c => if Compare ucmp k c =? 0 then last else kMaxSequenceNumber | None => kMaxSequenceNumber end.
Fixpoint survivors (cur : option bytes) (last : Z) (es : list entry) : list entry :=
  match es with
  | [] => []
  | e :: es =>
      let rest := survivors (Some (euser e)) (entry_seq e) es in
      if dropped (last_for cur last (euser e)) e then rest else e :: rest
  end.

(** User keys ascend; the entries of a user key get older. *)
Definition before_entry (e e' : entry) : Prop :=
  Compare ucmp (euser e) (euser e') < 0 \/ (euser e = euser e' /\ entry_seq e' < entry_seq e).
Definition in_order (es : list entry) : Prop := StronglySorted before_entry es /\ Forall point_entry es.

Lemma survivors_sub cur last es : sublist (survivors cur last es) es.
Proof.
  revert cur last. induction es as [|e es IH]; intros cur last; cbn [survivors]; [constructor|].
  destruct (dropped _ _); constructor; apply IH.
Qed.
Lemma in_order_cons e es : in_order (e :: es) ->
  in_order es /\ point_entry e /\ forall e', e' ∈ es -> point_entry e' /\ before_entry e e'.
Proof.
  intros [[Hle Hs]%StronglySorted_cons [He Hes]%Forall_cons]. split; [by split|]. split; [done|].
  intros e' He'. rewrite Forall_forall in Hes, Hle. split; [by apply Hes|by apply Hle].
Qed.
Lemma visible_iff ukey s e : bytes_ok ukey -> point_entry e ->
  visible ucmp ukey s e = true <-> euser e = ukey /\ entry_seq e <= s.
Proof.
  intros Hu He. unfold visible. rewrite andb_true_iff, Z.eqb_eq, Z.leb_le. split; intros [H1 H2]; (split; [|done]).
  - apply Hid; [by apply point_user|done|done].
  - rewrite H1. by apply (@cmp_refl ucmp bytes_ok Hc).
Qed.
Lemma newest_none ukey s es : (forall e, e ∈ es -> visible ucmp ukey s e = false) -> newest ucmp ukey s es = None.
Proof.
  intros H. destruct (newest ucmp ukey s es) as [e|] eqn:E; [|done].
  destruct (newest_in ucmp ukey s es e E) as [He Hv]. rewrite (H e He) in Hv. done.
Qed.
Lemma newest_skip ukey s e es : visible ucmp ukey s e = false -> newest ucmp ukey s (e :: es) = newest ucmp ukey s es.
Proof. intros H. cbn [newest]. by rewrite H. Qed.
(** The first visible entry of a key is the newest. *)
Lemma newest_first_visible ukey s e es es' : bytes_ok ukey -> in_order (e :: es) -> sublist es' es ->
  visible ucmp ukey s e = true -> newest ucmp ukey s (e :: es') = Some e.
Proof.
  intros Hu (_ & He & Hlt)%in_order_cons Hsub Hv. apply newest_unique_max; [by left|done|].
  intros e' [->|He']%elem_of_cons Hv'; [by left|right]. assert (e' ∈ es) as Hin by (eapply elem_of_sublist; [exact He'|done]).
  destruct (Hlt e' Hin) as [Hp [Hk|[_ ?]]]; [|done]. apply visible_iff in Hv as [E _]; [|done..].
  apply visible_iff in Hv' as [E' _]; [|done..]. rewrite E, E', (@cmp_refl ucmp bytes_ok Hc) in Hk by done. lia.
Qed.

(** Once the last entry of a key is visible everywhere, the older ones all go. *)
Lemma survivors_hidden ukey es : forall last, snapshot < kMaxSequenceNumber -> bytes_ok ukey -> in_order es ->
  last <= snapshot ->
  (forall e, e ∈ es -> Compare ucmp ukey (euser e) < 0 \/ (euser e = ukey /\ entry_seq e <= last)) ->
  forall e, e ∈ survivors (Some ukey) last es -> euser e <> ukey.
Proof.
  induction es as [|a es IH]; intros last Hsn Hu Ho Hl Hall e; cbn [survivors]; [by rewrite elem_of_nil|].
  apply in_order_cons in Ho as (Ho & Ha & Hlt). pose proof (point_user _ Ha) as Hau.
  assert (Compare ucmp ukey ukey = 0) as Hrefl by by apply (@cmp_refl ucmp bytes_ok Hc).
  destruct (Hall a ltac:(by left)) as [Hgt|[E Hs]].
  - intros He E. assert (e ∈ a :: es) as Hin.
    { assert (e ∈ survivors (Some ukey) last (a :: es)) as He' by (cbn [survivors]; exact He).
      eapply elem_of_sublist; [exact He'|]. apply survivors_sub. }
    apply elem_of_cons in Hin as [->|Hin]; [rewrite E in Hgt; lia|].
    destruct (Hlt e Hin) as [Hp [H|[H _]]].
    + pose proof (cmp_lt_trans ukey (euser a) (euser e) Hu Hau (point_user _ Hp) Hgt H) as H'. rewrite E in H'. lia.
    + rewrite H, E in Hgt. lia.
  - unfold last_for. rewrite E, Hrefl. cbn [Z.eqb]. unfold dropped.
    rewrite (proj2 (Z.leb_le last snapshot)) by done. cbn [orb andb].
    destruct (Z.eqb_spec last kMaxSequenceNumber); [lia|]. cbn [andb negb].
    apply IH; [done|done|done|lia|]. intros e' He'. destruct (Hlt e' He') as [Hp [H|[H H']]].
    + left. by rewrite <- E.
    + right. split; [congruence|lia].
Qed.

(** A reader at a snapshot in use finds the entry it found, or, in place of a deletion with
    nothing below, no entry. *)
Lemma survivors_newest ukey s es : snapshot < kMaxSequenceNumber -> snapshot <= s -> bytes_ok ukey ->
  forall cur last, in_order es -> (forall c, cur = Some c -> bytes_ok c) -> (cur = Some ukey -> snapshot < last) ->
  newest ucmp ukey s (survivors cur last es) = newest ucmp ukey s es \/
  exists e, newest ucmp ukey s es = Some e /\ etype e = kTypeDeletion /\ entry_seq e <= snapshot /\ base ukey = true /\
    newest ucmp ukey s (survivors cur last es) = None.
Proof.
  intros Hsn Hs Hu. induction es as [|a es IH]; intros cur last Ho Hcur Hlast; [by left|].
  pose proof Ho as (Ho' & Ha & Hlt)%in_order_cons. pose proof (point_user _ Ha) as Hau.
  assert (forall c, Some (euser a) = Some c -> bytes_ok c) as Hcur' by (by intros c [= <-]).
  cbn [survivors]. destruct (visible ucmp ukey s a) eqn:Ev.
  - pose proof Ev as [E Hseq]%visible_iff; [|done..].
    rewrite (newest_first_visible ukey s a es es Hu Ho ltac:(done) Ev).
    destruct (dropped _ a) eqn:Ed.
    2: { left. eapply newest_first_visible; [done|exact Ho|apply survivors_sub|done]. }
    right. exists a. split; [done|]. rewrite E in *.
    assert (snapshot < last_for cur last ukey) as Hl.
    { unfold last_for. destruct cur as [c|]; [|done]. destruct (Z.eqb_spec (Compare ucmp ukey c) 0) as [H0|]; [|done].
      apply Hlast. f_equal. symmetry. apply Hid; [done|by apply Hcur|done]. }
    unfold dropped in Ed. apply andb_true_iff in Ed as [Ed _].
    rewrite (proj2 (Z.leb_gt _ snapshot)) in Ed by done. cbn [orb] in Ed.
    apply andb_true_iff in Ed as [[Ht%Z.eqb_eq Hsq%Z.leb_le]%andb_true_iff Hb]. rewrite E in Hb.
    split_and!; [done|done|done|]. apply newest_none. intros e He.
    destruct (visible ucmp ukey s e) eqn:Ev'; [|done]. exfalso.
    assert (e ∈ es) as Hin by (eapply elem_of_sublist; [exact He|apply survivors_sub]).
    apply visible_iff in Ev' as [E' _]; [|done|by apply Hlt]. revert E'.
    eapply survivors_hidden; [done|exact Hu|exact Ho'| |..|exact He]; [done|].
    intros e' He'. destruct (Hlt e' He') as [_ [H|[H H']]]; rewrite E in *; [by left|right]. split; [done|lia].
  - rewrite (newest_skip ukey s a es Ev).
    assert (newest ucmp ukey s (if dropped (last_for cur last (euser a)) a then survivors (Some (euser a)) (entry_seq a) es
      else a :: survivors (Some (euser a)) (entry_seq a) es) = newest ucmp ukey s (survivors (Some (euser a)) (entry_seq a) es)) as ->.
    { destruct (dropped _ _); [done|]. by apply newest_skip. }
    apply IH; [done|done|]. intros [= E]. destruct (Z.le_gt_cases (entry_seq a) s) as [Hle|Hgt]; [|lia].
    exfalso. assert (visible ucmp ukey s a = true) by (by apply visible_iff). congruence.
Qed.

(** ** What readers see of the database *)

(** The value a read returns, from the newest visible entry. *)
Definition seen (e : option entry) : option bytes := match get_result e with Found v => Some v | _ => None end.
Lemma newest_append ukey s a b : newest ucmp ukey s (a ++ b) =
  match newest ucmp ukey s a, newest ucmp ukey s b with
  | Some x, Some y => if entry_seq x <? entry_seq y then Some y else Some x
  | None, r | r, None => r
  end.
Proof.
  induction a as [|e a IH]; cbn [app newest]; [by destruct (newest ucmp ukey s b)|]. rewrite IH.
  destruct (visible ucmp ukey s e); [|done].
  destruct (newest ucmp ukey s a) as [x|], (newest ucmp ukey s b) as [y|]; repeat case_bool; try done; lia.
Qed.

(** No entry outside is older than a deletion that may go. *)
Definition deletions_last (es others : list entry) : Prop := forall e e', e ∈ es -> e' ∈ others ->
  etype e = kTypeDeletion -> base (euser e) = true -> euser e' = euser e -> entry_seq e < entry_seq e'.
Lemma survivors_seen ukey s es others : snapshot < kMaxSequenceNumber -> snapshot <= s -> bytes_ok ukey ->
  in_order es -> Forall point_entry others -> deletions_last es others ->
  seen (newest ucmp ukey s (survivors None kMaxSequenceNumber es ++ others)) = seen (newest ucmp ukey s (es ++ others)).
Proof.
  intros Hsn Hs Hu Ho Hpo Hlast. rewrite !newest_append.
  destruct (survivors_newest ukey s es Hsn Hs Hu None kMaxSequenceNumber Ho) as [->|(e & En & Ht & Hsq & Hb & ->)]; [done|done|done|].
  rewrite En. destruct (newest_in ucmp ukey s es e En) as [He Hv].
  apply visible_iff in Hv as [E _]; [|done|by eapply Forall_forall; [apply Ho|]].
  destruct (newest ucmp ukey s others) as [e'|] eqn:En'.
  - destruct (newest_in ucmp ukey s others e' En') as [He' Hv'].
    apply visible_iff in Hv' as [E' _]; [|done|by eapply Forall_forall].
    rewrite (proj2 (Z.ltb_lt _ _)); [done|]. apply Hlast; try done; congruence.
  - destruct e as [[[sq t] k] x]. cbn in Ht. subst t. done.
Qed.
End Keep.
