(* ===== verification/TableEnv.v ===== *)
(** * Tables written through the environment

    The table builder on a file of an environment ([named_writable]) does to the contents
    of that file what it does to a byte string, until a call of the environment fails;
    after a failure its status is an error and it writes no more.  Other files are left
    alone. *)

From stdpp Require Import gmap.
From S2P Require Import Prelude Coding Status Crc32c Comparator DbFormat Bloom Iterator Block.
From S2P Require Import FilterBlock TableFormat FileName Table Merger MemTable TableGet.
From S2P Require Import Version VersionSet Compaction DbImpl.
From stdpp Require Import list.
#[local] Open Scope Z_scope.
Import TableBuilder.

(** [Flush] changes no contents. *)
Class DirEnvOk (E : Type) `{DirEnv E} (files : E -> gmap (list Z) (list Z)) := {
  flush_file : forall e f, ok (fst (FlushNamed e f)) = true -> files (snd (FlushNamed e f)) = files e;
  frame_flush : forall e f g, g <> f -> files (snd (FlushNamed e f)) !! g = files e !! g;
}.

Section Named.
Context {E : Type} `{HE : Env E} `{HD : DirEnv E} (files : E -> gmap (list Z) (list Z)).
Context {HEok : EnvOk E files} {HDok : DirEnvOk E files} `{HS : Snappy}.
Context (name : bytes).
#[local] Instance named : WritableFile E := named_writable name.

(** No call on files fails. *)
Record reliable : Prop := {
  rel_new : forall e f, ok (fst (NewWritableFile e f)) = true;
  rel_append : forall e f d, ok (fst (AppendToFile e f d)) = true;
  rel_flush : forall e f, ok (fst (FlushNamed e f)) = true;
  rel_sync : forall e f, ok (fst (SyncFile e f)) = true;
  rel_close : forall e f, ok (fst (CloseFile e f)) = true;
}.

(** The same builder on the contents of its file. *)
Definition with_file {F G} (r : Rep F) (g : G) : Rep G :=
  {| options := options r; index_block_options := index_block_options r; file := g; offset := offset r;
     status := status r; data_block := data_block r; index_block := index_block r; last_key := last_key r;
     num_entries := num_entries r; closed := closed r; filter_block := filter_block r;
     pending_index_entry := pending_index_entry r; pending_handle := pending_handle r |}.
Definition contents (e : E) : bytes := default [] (files e !! name).
Definition view (r : Rep E) : Rep bytes := with_file r (contents (file r)).
Definition framed (e e' : E) : Prop := forall g, g <> name -> files e' !! g = files e !! g.

(** [r'] has gone on as [rb'] did, or a call failed. *)
Definition broken (r : Rep E) : Prop := ok (status r) = false /\ ~ reliable.
Definition tracks (r : Rep E) (rb : Rep bytes) : Prop := view r = rb /\ is_Some (files (file r) !! name).
Definition lands (e : E) (r' : Rep E) (rb' : Rep bytes) : Prop :=
  framed e (file r') /\ closed r' = closed rb' /\ (tracks r' rb' \/ broken r').

Lemma framed_refl e : framed e e.
Proof. done. Qed.
Lemma framed_trans e e' e'' : framed e e' -> framed e' e'' -> framed e e''.
Proof. intros H1 H2 g Hg. by rewrite H2, H1. Qed.

Lemma append_named e data : exists e' s, Append e data = (e', s) /\ framed e e' /\
  (is_Some (files e !! name) -> ok s = true -> is_Some (files e' !! name) /\ contents e' = contents e ++ data) /\
  (ok s = false -> ~ reliable).
Proof.
  cbn [Append named named_writable]. pose proof (append_file e name data) as Ha.
  pose proof (frame_append e name data) as Hf. pose proof (fun Hr => rel_append Hr e name data) as Hr.
  destruct (AppendToFile e name data) as [s e']. cbn [fst snd] in *. exists e', s. split_and!; [done|done| |].
  - intros [old Ho] Hs. specialize (Ha old Hs Ho). unfold contents. rewrite Ha, Ho, lookup_insert_eq. done.
  - intros Hs Hrel. rewrite Hr in Hs by done. done.
Qed.
Lemma flush_named e : exists e' s, FlushFile e = (e', s) /\ framed e e' /\ (ok s = true -> files e' = files e) /\
  (ok s = false -> ~ reliable).
Proof.
  cbn [FlushFile named named_writable]. pose proof (flush_file e name) as Ha.
  pose proof (frame_flush e name) as Hf. pose proof (fun Hr => rel_flush Hr e name) as Hr.
  destruct (FlushNamed e name) as [s e']. cbn [fst snd] in *. exists e', s. split_and!; [done|done|done|].
  intros Hs Hrel. rewrite Hr in Hs by done. done.
Qed.

Lemma view_eta (r : Rep E) (f : E) s : view (set_file r f s) = set_file (view r) (contents f) s.
Proof. done. Qed.

Lemma WriteRawBlock_lands r rb c t : tracks r rb -> ok (status rb) = true ->
  exists r' rb' hd, WriteRawBlock r c t = (r', hd) /\ WriteRawBlock rb c t = (rb', hd) /\
    lands (file r) r' rb' /\ ok (status rb') = true.
Proof.
  intros [<- Hp] Hok. unfold WriteRawBlock. cbn [Append mem_WritableFile offset view with_file].
  destruct (append_named (file r) c) as (e1 & s1 & E1 & F1 & G1 & N1). cbn [Append named] in E1. rewrite E1.
  cbn [ok OK]. destruct (ok s1) eqn:O1.
  2: { eexists _, _, _. split; [done|]. split; [done|]. split; [|done]. split; [done|]. split; [done|]. right.
       split; [done|by apply N1]. }
  destruct (G1 Hp eq_refl) as [Hp1 C1].
  match goal with |- context [Append (file (set_file r e1 s1)) ?d] =>
    destruct (append_named e1 d) as (e2 & s2 & E2 & F2 & G2 & N2); cbn [file set_file]; cbn [Append named] in E2; rewrite E2 end.
  cbn [ok OK]. destruct (ok s2) eqn:O2.
  2: { eexists _, _, _. split; [done|]. split; [done|]. split; [|done]. split; [by eapply framed_trans|]. split; [done|]. right.
       split; [done|by apply N2]. }
  destruct (G2 Hp1 eq_refl) as [Hp2 C2]. destruct s1; [done|]. destruct s2; [done|].
  eexists _, _, _. split; [done|]. split; [done|]. split; [|done]. split; [by eapply framed_trans|]. split; [done|]. left.
  split; [|done]. unfold view, with_file. cbn. rewrite C2, C1. done.
Qed.
Lemma WriteBlock_lands r rb b rb' b' hd : tracks r rb -> ok (status rb) = true ->
  WriteBlock rb b = Some (rb', b', hd) ->
  exists r', WriteBlock r b = Some (r', b', hd) /\ lands (file r) r' rb' /\ ok (status rb') = true.
Proof.
  intros Ht Hok. unfold WriteBlock. pose proof Ht as [Ev _].
  assert (status r = status rb) as -> by by rewrite <- Ev. assert (options r = options rb) as -> by by rewrite <- Ev.
  rewrite Hok. cbn [negb]. destruct (BlockBuilder.Finish b) as [b1 raw].
  match goal with |- context [match ?x with Some _ => _ | None => None end] => destruct x as [[c t]|] end; [|done].
  destruct (WriteRawBlock_lands r rb c t Ht Hok) as (r' & rb1 & h1 & -> & -> & Hl & Ho).
  intros [= <- <- <-]. exists r'. done.
Qed.

(** Assignments that leave the file and the status alone. *)
Definition steady (f : forall F : Type, Rep F -> Rep F) : Prop := forall F (r : Rep F) G (g : G),
  f G (with_file r g) = with_file (f F r) g /\ file (f F r) = file r /\ status (f F r) = status r /\ closed (f F r) = closed r.
Lemma lands_steady f e r rb : steady f -> lands e r rb -> lands e (f E r) (f bytes rb).
Proof.
  intros Hf (Hfr & Hcl & H). unfold lands, framed, tracks, broken in *.
  destruct (Hf E r E (file r)) as (_ & -> & -> & ->). destruct (Hf bytes rb bytes (file rb)) as (_ & _ & _ & ->).
  split; [done|]. split; [done|]. destruct H as [[<- Hp]|H]; [left|by right]. split; [|done].
  unfold view. destruct (Hf E r bytes (contents (file r))) as (-> & _). by destruct (Hf E r E (file r)) as (_ & -> & _).
Qed.
Lemma steady_on_filter f : steady (fun F r => on_filter r f).
Proof. intros F r G g. unfold on_filter. cbn [filter_block with_file]. by destruct (filter_block r) as [[p fb]|]. Qed.
Lemma tracks_lands r rb : tracks r rb -> lands (file r) r rb.
Proof. intros H. split; [done|]. split; [|by left]. by destruct H as [<- _]. Qed.
Lemma lands_status e r rb : lands e r rb -> (ok (status r) = true -> tracks r rb) /\ (ok (status r) = false -> ok (status rb) = true -> broken r).
Proof.
  intros (_ & _ & [H|H]); (split; [|]); try done.
  - intros H1 H2. destruct H as [<- _]. cbn in H2. congruence.
  - intros H1. destruct H. congruence.
Qed.

Lemma Flush_lands r rb rb' : tracks r rb -> ok (status rb) = true -> Flush rb = Some rb' ->
  exists r', Flush r = Some r' /\ lands (file r) r' rb' /\ ok (status rb') = true.
Proof.
  intros Ht Hok. pose proof Ht as [Ev _]. unfold Flush.
  assert (closed r = closed rb /\ status r = status rb /\ data_block r = data_block rb /\
    pending_index_entry r = pending_index_entry rb) as (-> & -> & -> & ->) by by rewrite <- Ev.
  destruct (closed rb); [done|]. rewrite Hok. cbn [negb].
  destruct (BlockBuilder.empty (data_block rb)).
  { intros [= <-]. exists r. split; [done|]. split; [by apply tracks_lands|done]. }
  destruct (pending_index_entry rb); [done|].
  destruct (WriteBlock rb (data_block rb)) as [[[rb1 b1] hd]|] eqn:EW; [|done].
  destruct (WriteBlock_lands r rb _ _ _ _ Ht Hok EW) as (r1 & -> & Hl & Hok1). intros [= <-].
  eexists. split; [done|].
  set (r2 := set_pending (set_data_block r1 b1) (pending_index_entry r1) hd).
  set (rb2 := set_pending (set_data_block rb1 b1) (pending_index_entry rb1) hd).
  assert (lands (file r) r2 rb2) as Hl2.
  { apply (lands_steady (fun F r => set_pending (set_data_block r b1) (pending_index_entry r) hd)); [by intros F q G g|done]. }
  assert (ok (status rb2) = true) as Hok2 by done. assert (file rb1 = file rb2) as -> by done.
  fold r2 rb2. cbv zeta. assert (pending_handle r2 = hd) as Eh by done. clearbody r2 rb2. rewrite Hok1.
  destruct (ok (status r2)) eqn:Os.
  - destruct (lands_status _ _ _ Hl2) as [H2 _]. specialize (H2 Os) as Ht2. destruct Hl2 as (Hf2 & Hc2 & _).
    destruct (flush_named (file r2)) as (e & s & EF & Hfr & Hsame & Hn). cbn [FlushFile mem_WritableFile].
    cbn [file set_pending] in *. rewrite EF, Eh. set (r3 := set_file _ e s). set (rb3 := set_file _ (file rb2) OK).
    assert (lands (file r) r3 rb3) as Hl3.
    { split; [by eapply framed_trans|]. split; [done|]. destruct (ok s) eqn:O; [left|right; split; [done|by apply Hn]].
      destruct s; [done|]. destruct Ht2 as [<- Hp]. unfold r3, rb3. split; [|cbn; by rewrite Hsame].
      unfold view, with_file, contents. cbn. by rewrite Hsame. }
    assert (ok (status rb3) = true) as Hok3 by done. assert (offset r3 = offset rb3) as Eo by by destruct Ht2 as [<- _].
    clearbody r3 rb3. rewrite Eo. split; [apply (lands_steady _ _ _ _ (steady_on_filter _) Hl3)|].
    by destruct (steady_on_filter (fun p fb => FilterBlockBuilder.StartBlock p fb (offset rb3)) bytes rb3 bytes []) as (_ & _ & -> & _).
  - destruct (lands_status _ _ _ Hl2) as [_ H2]. specialize (H2 Os Hok2) as Hb.
    destruct Hl2 as (Hf2 & Hc2 & _).
    pose proof (steady_on_filter (fun p fb => FilterBlockBuilder.StartBlock p fb (offset r2)) E r2 E (file r2)) as (_ & F1 & S1 & C1).
    set (rb3 := set_file _ _ _). assert (ok (status rb3) = true /\ closed rb3 = closed rb2) as [Hok3 Hc3] by done. clearbody rb3.
    pose proof (steady_on_filter (fun p fb => FilterBlockBuilder.StartBlock p fb (offset rb3)) bytes rb3 bytes []) as (_ & _ & S2 & C2).
    cbn beta in *. split; [|by rewrite S2]. unfold lands, broken, framed. rewrite F1, S1, C1, C2, Hc3. split; [done|]. split; [done|]. right. apply Hb.
Qed.

(** [Add] up to the size test. *)
Definition enter {F} (r : Rep F) (key value : bytes) : Rep F :=
  let r := if pending_index_entry r
           then add_index_entry r (FindShortestSeparator (comparator (options r)) (last_key r) key)
           else r in
  let r := on_filter r (fun _ fb => FilterBlockBuilder.AddKey fb key) in
  let r := set_last_key r key (num_entries r + 1) in
  set_data_block r (BlockBuilder.Add (data_block r) key value).
Lemma enter_steady k v : steady (fun F r => enter r k v).
Proof.
  intros F r G g. unfold enter, on_filter. cbn [pending_index_entry with_file options last_key].
  by destruct (pending_index_entry r); cbn; destruct (filter_block r) as [[p fb]|].
Qed.
Lemma enter_num {F} (r : Rep F) k v : num_entries (enter r k v) = num_entries r + 1.
Proof. unfold enter, on_filter. by destruct (pending_index_entry r); cbn; destruct (filter_block r) as [[p fb]|]. Qed.

Lemma Add_enter {F} `{WritableFile F} (r : Rep F) k v : Add r k v =
  if closed r then None else if negb (ok (status r)) then Some r
  else if pending_index_entry r && negb (BlockBuilder.empty (data_block r)) then None
  else if block_size (options (enter r k v)) <=? BlockBuilder.CurrentSizeEstimate (data_block (enter r k v))
  then Flush (enter r k v) else Some (enter r k v).
Proof. done. Qed.
Lemma Add_lands r rb k v rb' : tracks r rb -> ok (status rb) = true -> Add rb k v = Some rb' ->
  exists r', Add r k v = Some r' /\ lands (file r) r' rb'.
Proof.
  intros Ht Hok. rewrite !Add_enter. pose proof (lands_steady _ _ _ _ (enter_steady k v) (tracks_lands _ _ Ht)) as Hl.
  destruct (enter_steady k v E r E (file r)) as (_ & Ef & Es & Ec). cbn beta in *.
  destruct Ht as [<- Hp]. cbn [closed status pending_index_entry data_block view with_file] in *.
  destruct (closed r); [done|]. rewrite Hok in *. cbn [negb]. destruct (_ && _); [done|].
  assert (tracks (enter r k v) (enter (view r) k v)) as Ht.
  { destruct Hl as (_ & _ & [H|[H _]]); [done|]. congruence. }
  pose proof Ht as [Ev _]. rewrite <- Ev. cbn [options data_block view with_file]. change (with_file _ _) with (view (enter r k v)).
  destruct (_ <=? _).
  - intros HF. destruct (Flush_lands _ _ rb' Ht) as (r' & -> & Hl' & _); [|by rewrite <- Ev|].
    { destruct (enter_steady k v bytes (view r) bytes []) as (_ & _ & -> & _). done. }
    exists r'. rewrite Ef in Hl'. done.
  - intros [= <-]. exists (enter r k v). split; [done|]. by rewrite Ev.
Qed.
Lemma Add_broken r k v : ok (status r) = false -> closed r = false -> Add r k v = Some r.
Proof. intros H1 H2. unfold Add. by rewrite H1, H2. Qed.

(** *** Finish *)

Lemma broken_metaindex r hd : ok (status r) = false -> write_metaindex_block r hd = Some (r, BlockHandle_default).
Proof. intros H. unfold write_metaindex_block. by rewrite H. Qed.
Lemma broken_index r : ok (status r) = false -> write_index_block r = Some (r, BlockHandle_default).
Proof. intros H. unfold write_index_block. by rewrite H. Qed.
Lemma broken_footer r h1 h2 : ok (status r) = false -> write_footer r h1 h2 = r.
Proof. intros H. unfold write_footer. by rewrite H. Qed.
Lemma write_filter_lands r rb : tracks r rb -> ok (status rb) = true ->
  exists r' rb' hd, write_filter_block r = (r', hd) /\ write_filter_block rb = (rb', hd) /\ lands (file r) r' rb' /\ ok (status rb') = true.
Proof.
  intros Ht Hok. unfold write_filter_block. pose proof Ht as [Ev Hp].
  assert (status r = status rb /\ filter_block r = filter_block rb) as [-> ->] by by rewrite <- Ev. rewrite Hok.
  destruct (filter_block rb) as [[p fb]|].
  - destruct (FilterBlockBuilder.Finish p fb) as [fb' c].
    destruct (WriteRawBlock_lands (set_filter_block r (Some (p, fb'))) (set_filter_block rb (Some (p, fb'))) c kNoCompression)
      as (r' & rb' & hd & -> & -> & Hl & Ho); [by rewrite <- Ev; split|done|]. by exists r', rb', hd.
  - exists r, rb, BlockHandle_default. split_and!; [done|done|by apply tracks_lands|done].
Qed.
Lemma write_metaindex_lands r rb hd rb' h' : tracks r rb -> ok (status rb) = true ->
  write_metaindex_block rb hd = Some (rb', h') ->
  exists r', write_metaindex_block r hd = Some (r', h') /\ lands (file r) r' rb' /\ ok (status rb') = true.
Proof.
  intros Ht Hok. unfold write_metaindex_block. pose proof Ht as [Ev Hp].
  assert (status r = status rb /\ filter_block r = filter_block rb /\ options r = options rb) as (-> & -> & ->) by by rewrite <- Ev.
  rewrite Hok. match goal with |- mbind ?f ?x = _ -> _ => destruct x as [b|] end; [|done]. cbn [mbind option_bind].
  destruct (WriteBlock rb b) as [[[rb1 b1] h1]|] eqn:EW; [|done]. intros [= <- <-].
  destruct (WriteBlock_lands _ _ _ _ _ _ Ht Hok EW) as (r' & -> & Hl & Ho). by exists r'.
Qed.
Lemma write_index_lands r rb rb' h' : tracks r rb -> ok (status rb) = true -> write_index_block rb = Some (rb', h') ->
  exists r', write_index_block r = Some (r', h') /\ lands (file r) r' rb' /\ ok (status rb') = true.
Proof.
  intros Ht Hok. unfold write_index_block. pose proof Ht as [Ev Hp].
  assert (status r = status rb /\ pending_index_entry r = pending_index_entry rb) as (-> & ->) by by rewrite <- Ev. rewrite Hok.
  set (q := if pending_index_entry rb then add_index_entry r _ else r).
  set (qb := if pending_index_entry rb then add_index_entry rb _ else rb).
  assert (tracks q qb /\ ok (status qb) = true /\ file q = file r) as (Htq & Hokq & Hfq).
  { unfold q, qb. rewrite <- Ev in *. by destruct (pending_index_entry (view r)). }
  clearbody q qb. assert (index_block q = index_block qb) as -> by by destruct Htq as [<- _].
  destruct (WriteBlock qb (index_block qb)) as [[[rb1 b1] h1]|] eqn:EW; [|done]. cbn [mbind option_bind]. intros [= <- <-].
  destruct (WriteBlock_lands _ _ _ _ _ _ Htq Hokq EW) as (r' & -> & Hl & Ho). cbn [mbind option_bind]. rewrite Hfq in Hl.
  eexists. split; [done|]. split; [|done]. by apply (lands_steady (fun F r => set_index_block r b1)); [by intros F x G g|].
Qed.
Lemma write_footer_lands r rb h1 h2 : tracks r rb -> ok (status rb) = true ->
  lands (file r) (write_footer r h1 h2) (write_footer rb h1 h2).
Proof.
  intros Ht Hok. unfold write_footer. pose proof Ht as [Ev Hp].
  assert (status r = status rb) as -> by by rewrite <- Ev. rewrite Hok. cbn [Append mem_WritableFile ok OK].
  match goal with |- context [Append (file r) ?d] => destruct (append_named (file r) d) as (e & s & EA & Hf & Hg & Hn) end.
  cbn [Append named] in EA. rewrite EA. destruct (ok s) eqn:Os.
  - destruct (Hg Hp eq_refl) as [Hp' Hc]. destruct s; [done|]. split; [done|]. split; [by rewrite <- Ev|]. left. rewrite <- Ev.
    split; [|done]. unfold view, with_file. cbn. by rewrite Hc.
  - split; [done|]. split; [by rewrite <- Ev|]. right. split; [done|by apply Hn].
Qed.

(** [Finish] after the filter block, and after the metaindex block. *)
Definition finish_index {F} `{WritableFile F} (r : Rep F) (meta : BlockHandle) : option (Status * Rep F) :=
  '(r, index) ← write_index_block r;
  let r := write_footer r meta index in Some (status r, r).
Definition finish_meta {F} `{WritableFile F} (r : Rep F) (filter : BlockHandle) : option (Status * Rep F) :=
  '(r, meta) ← write_metaindex_block r filter; finish_index r meta.
Lemma Finish_parts {F} `{WritableFile F} (r : Rep F) : Finish r =
  r ← Flush r; if closed r then None else let '(r, hd) := write_filter_block (set_closed r) in finish_meta r hd.
Proof. done. Qed.
Lemma finish_index_broken r meta : ok (status r) = false -> finish_index r meta = Some (status r, r).
Proof. intros H. unfold finish_index. rewrite broken_index by done. cbn [mbind option_bind]. by rewrite broken_footer. Qed.
Lemma finish_meta_broken r hd : ok (status r) = false -> finish_meta r hd = Some (status r, r).
Proof. intros H. unfold finish_meta. rewrite broken_metaindex by done. cbn [mbind option_bind]. by apply finish_index_broken. Qed.
Lemma Finish_broken r : ok (status r) = false -> closed r = false -> exists r', Finish r = Some (status r, r') /\ file r' = file r.
Proof.
  intros H1 H2. rewrite Finish_parts. unfold Flush. rewrite H2, H1. cbn [negb mbind option_bind]. rewrite H2.
  unfold write_filter_block. cbn [status set_closed]. rewrite H1. exists (set_closed r). split; [exact (finish_meta_broken (set_closed r) _ H1)|done].
Qed.
(** How the end of a builder's life went. *)
Definition finished (e : E) (s : Status) (r' : Rep E) (rb' : Rep bytes) : Prop :=
  framed e (file r') /\ ((s = OK /\ tracks r' rb') \/ (ok s = false /\ ~ reliable)).
Lemma finish_index_lands e r rb meta rb' : lands e r rb -> ok (status rb) = true -> finish_index rb meta = Some (OK, rb') ->
  exists s r', finish_index r meta = Some (s, r') /\ finished e s r' rb'.
Proof.
  intros Hl Hok HF. destruct (ok (status r)) eqn:Os.
  - destruct (lands_status _ _ _ Hl) as [Ht _]. specialize (Ht Os). destruct Hl as (Hf & _ & _). unfold finish_index in *.
    destruct (write_index_block rb) as [[rb1 h1]|] eqn:E1; [|done]. cbn [mbind option_bind] in HF.
    destruct (write_index_lands _ _ _ _ Ht Hok E1) as (r1 & -> & Hl1 & Ho1). cbn [mbind option_bind]. eexists _, _. split; [done|].
    destruct (ok (status r1)) eqn:Os1.
    + destruct (lands_status _ _ _ Hl1) as [Ht1 _]. specialize (Ht1 Os1). destruct Hl1 as (Hf1 & _ & _).
      destruct (write_footer_lands r1 rb1 meta h1 Ht1 Ho1) as (Hf2 & _ & H2). injection HF as Est <-.
      split; [by eapply framed_trans; [|eapply framed_trans]|]. destruct H2 as [H2|H2]; [left|by right].
      split; [|done]. destruct H2 as [Ev _]. rewrite <- Ev in Est. exact Est.
    + destruct (lands_status _ _ _ Hl1) as [_ Hb]. specialize (Hb Os1 Ho1). destruct Hl1 as (Hf1 & _ & _).
      rewrite broken_footer by done. split; [by eapply framed_trans|]. right. by destruct Hb.
  - destruct (lands_status _ _ _ Hl) as [_ Hb]. specialize (Hb Os Hok). rewrite finish_index_broken by done. eexists _, _. split; [done|].
    destruct Hl as (Hf & _ & _). split; [done|]. by right.
Qed.
Lemma finish_meta_lands e r rb hd rb' : lands e r rb -> ok (status rb) = true -> finish_meta rb hd = Some (OK, rb') ->
  exists s r', finish_meta r hd = Some (s, r') /\ finished e s r' rb'.
Proof.
  intros Hl Hok HF. destruct (ok (status r)) eqn:Os.
  - destruct (lands_status _ _ _ Hl) as [Ht _]. specialize (Ht Os). destruct Hl as (Hf & _ & _). unfold finish_meta in *.
    destruct (write_metaindex_block rb hd) as [[rb1 h1]|] eqn:E1; [|done]. cbn [mbind option_bind] in HF.
    destruct (write_metaindex_lands _ _ _ _ _ Ht Hok E1) as (r1 & -> & (Hf1 & Hc1 & Hd1) & Ho1). cbn [mbind option_bind].
    eapply (finish_index_lands e r1 rb1); [|done|done]. split; [by eapply framed_trans|done].
  - destruct (lands_status _ _ _ Hl) as [_ Hb]. specialize (Hb Os Hok). rewrite finish_meta_broken by done. eexists _, _. split; [done|].
    destruct Hl as (Hf & _ & _). split; [done|]. by right.
Qed.
Lemma Finish_lands r rb rb' : tracks r rb -> ok (status rb) = true -> Finish rb = Some (OK, rb') ->
  exists s r', Finish r = Some (s, r') /\ finished (file r) s r' rb'.
Proof.
  intros Ht Hok. rewrite !Finish_parts. destruct (Flush rb) as [rb1|] eqn:EF; [|done]. cbn [mbind option_bind].
  destruct (Flush_lands _ _ _ Ht Hok EF) as (r1 & -> & Hl1 & Ho1). cbn [mbind option_bind].
  pose proof Hl1 as (Hf1 & Ec & _). rewrite Ec. destruct (closed rb1); [done|].
  assert (lands (file r) (set_closed r1) (set_closed rb1)) as (Hf2 & Hc2 & Hd2).
  { destruct Hl1 as (_ & _ & Hd). split; [done|]. split; [done|]. destruct Hd as [[<- Hp]|Hb]; [left|by right]. by split. }
  assert (ok (status (set_closed rb1)) = true) as Ho2 by done.
  destruct Hd2 as [Ht2|Hb2].
  - destruct (write_filter_lands _ _ Ht2 Ho2) as (r3 & rb3 & hd & -> & -> & (Hf3 & Hc3 & Hd3) & Ho3). intros HF.
    eapply finish_meta_lands; [|done|done]. split; [by eapply framed_trans|done].
  - destruct (write_filter_block (set_closed rb1)) as [rb3 hd]. intros _. destruct Hb2 as [Hb2 Hn].
    unfold write_filter_block. rewrite Hb2, finish_meta_broken by done. eexists _, _. split; [done|]. split; [done|]. by right.
Qed.
End Named.
