(* ===== verification/CompactionRun.v ===== *)
(** * A compaction writes what it keeps

    The loop of [DoCompactionWorkGuards] over the entries of its inputs: it ends, and
    unless a call of the environment fails its outputs are tables that hold exactly the
    entries that survive, in order, none of them crossing a guard. *)

From stdpp Require Import gmap sorting.
From S2P Require Import Prelude Coding Status Crc32c Comparator DbFormat Bloom Iterator Block BlockProofs.
From S2P Require Import FilterBlock TableFormat FileName Table TableProofs TableReader TableSpec Merger.
From S2P Require Import VersionEdit MemTable TableGet.
From S2P Require Import Version VersionSet VersionGet Compaction DbImpl CompactionDrop TableEnv.
From stdpp Require Import list.
#[local] Open Scope Z_scope.

(** Names of tables differ with their numbers. *)
Lemma TableFileName_inj dbname n m : is_u64 n -> is_u64 m -> TableFileName dbname n = TableFileName dbname m -> n = m.
Proof.
  intros Hn Hm H. unfold TableFileName, MakeFileName in H. apply app_inv_head, app_inv_head in H.
  pose proof (ParseFileName_number n (str "sst") kTableFile Hn ltac:(right; left; done)) as H1.
  pose proof (ParseFileName_number m (str "sst") kTableFile Hm ltac:(right; left; done)) as H2.
  rewrite H, H2 in H1. by injection H1.
Qed.

(** ** Entries as the keys and values of tables *)

Abbreviation kvs es := (iter_entries (to_ientry <$> es)).
Abbreviation ekey e := (ikey (to_ientry e)).
Lemma kvs_app es es' : kvs (es ++ es') = kvs es ++ kvs es'.
Proof. unfold iter_entries. by rewrite !fmap_app. Qed.
Lemma kvs_snoc es e : kvs (es ++ [e]) = kvs es ++ [(ekey e, snd (to_ientry e))].
Proof. apply kvs_app. Qed.
Lemma kv_size_sublist (l l' : list (bytes * bytes)) : sublist l l' -> kv_size l <= kv_size l'.
Proof.
  induction 1 as [|[k v] l l' _ IH|[k v] l l' _ IH]; cbn [kv_size]; [lia|lia|].
  pose proof (blen_nonneg k). pose proof (blen_nonneg v). lia.
Qed.
Lemma kvs_sublist es es' : sublist es es' -> sublist (kvs es) (kvs es').
Proof. induction 1; cbn; constructor; done. Qed.
Lemma table_size_sublist es es' : sublist es es' -> table_size (kvs es) <= table_size (kvs es').
Proof.
  intros H. apply kvs_sublist in H. pose proof (kv_size_sublist _ _ H). apply sublist_length in H. unfold table_size, blen. lia.
Qed.

Section Order.
Context (ucmp : Comparator) (Hc : ComparatorOk ucmp bytes_ok) (Hid : cmp_identity ucmp).
Lemma in_order_sublist es es' : sublist es es' -> in_order ucmp es' -> in_order ucmp es.
Proof.
  intros Hs [H1 H2]. split.
  - revert H1. induction Hs as [|e l l' Hs IH|e l l' Hs IH]; intros H; [done| |].
    + apply StronglySorted_cons in H as [Hl H]. inversion_clear H2. constructor; [by apply IH|].
      rewrite Forall_forall in Hl |- *. intros x Hx. apply Hl. by eapply elem_of_sublist.
    + apply StronglySorted_cons in H as [_ H]. inversion_clear H2. by apply IH.
  - rewrite Forall_forall in H2 |- *. intros x Hx. apply H2. by eapply elem_of_sublist.
Qed.
Lemma before_keys e e' : point_entry e -> point_entry e' -> before_entry ucmp e e' ->
  InternalKey_Compare ucmp (ekey e) (ekey e') < 0.
Proof.
  intros [[Hk _] _] [[Hk' _] _] H. unfold ikey. rewrite icmp_encode by done. cbv zeta.
  destruct H as [H|[E Hs]]; [destruct (Z.eqb_spec (Compare ucmp (euser e) (euser e')) 0); [lia|done]|].
  rewrite E, (@cmp_refl ucmp bytes_ok Hc) by apply Hk'. cbn [Z.eqb].
  destruct e as [[[s t] k] v], e' as [[[s' t'] k'] v']. cbn in *.
  rewrite (proj2 (Z.compare_lt_iff _ _)); [done|lia].
Qed.
Lemma in_order_entries es : in_order ucmp es -> Forall (fun e => bytes_ok (snd (to_ientry e))) es ->
  table_size (kvs es) < 2 ^ 32 -> entries_ok (InternalKeyComparator ucmp) (internal_valid bytes_ok) (kvs es).
Proof.
  intros [Hs Hp] Hb Hsz. apply iter_entries_ok; [| | |done].
  - apply Forall_fmap. eapply Forall_impl; [exact Hp|]. intros e He. apply He.
  - by apply Forall_fmap.
  - clear Hsz Hb. induction Hs as [|e es Hs IH Hlt]; [constructor|]. inversion_clear Hp as [|? ? He Hes].
    cbn [fmap list_fmap]. constructor; [by apply IH|]. rewrite <- list_fmap_compose. apply Forall_fmap.
    rewrite Forall_forall in Hlt, Hes |- *. intros e' He'.
    change (KeyComparator ucmp (ientry_bytes (to_ientry e)) (ientry_bytes (to_ientry e')) < 0).
    rewrite compare_entries; [|apply He|apply (Hes e' He')].
    by apply before_keys; [|apply Hes|apply Hlt].
Qed.
End Order.

(** ** The filters of whole files *)

Section Filters.
Context (pol : option FilterPolicy).
Definition filter_state (es : list entry) : FileLevelFilterBuilder.FileLevelFilterBuilder :=
  fold_left FileLevelFilterBuilder.AddKey ((fun e => ekey e) <$> es) (FileLevelFilterBuilder.new pol).
Definition filters_of (parts : list (list entry)) : list (option bytes) :=
  if pol then (fun part => snd (FileLevelFilterBuilder.GenerateFilter (filter_state part))) <$> parts else [].
Lemma filter_state_snoc es e : filter_state (es ++ [e]) = FileLevelFilterBuilder.AddKey (filter_state es) (ekey e).
Proof. unfold filter_state. by rewrite fmap_app, fold_left_app. Qed.
Lemma filter_state_policy es : FileLevelFilterBuilder.policy_ (filter_state es) = pol.
Proof.
  induction es as [|e es IH] using rev_ind; [done|]. rewrite filter_state_snoc.
  unfold FileLevelFilterBuilder.AddKey. rewrite IH. by destruct (pol).
Qed.
Lemma AddKey_offsets b k p : FileLevelFilterBuilder.policy_ b = Some p ->
  FileLevelFilterBuilder.policy_ (FileLevelFilterBuilder.AddKey b k) = Some p /\
  FileLevelFilterBuilder.key_offsets_ (FileLevelFilterBuilder.AddKey b k) <> [].
Proof. intros H. unfold FileLevelFilterBuilder.AddKey. rewrite H. split; [done|]. cbn. by destruct (FileLevelFilterBuilder.key_offsets_ b). Qed.
Lemma GenerateFilter_some b p : FileLevelFilterBuilder.policy_ b = Some p -> FileLevelFilterBuilder.key_offsets_ b <> [] ->
  exists f, FileLevelFilterBuilder.GenerateFilter b = (FileLevelFilterBuilder.Clear b, Some f).
Proof.
  intros Hp Hk. unfold FileLevelFilterBuilder.GenerateFilter. rewrite Hp.
  destruct (FileLevelFilterBuilder.key_offsets_ b); [done|]. by eexists.
Qed.
Lemma filter_state_offsets es : es <> [] -> is_Some (pol) ->
  FileLevelFilterBuilder.key_offsets_ (filter_state es) <> [].
Proof.
  intros Hne [p Hp]. destruct es as [|e es _] using rev_ind; [done|]. rewrite filter_state_snoc.
  eapply AddKey_offsets. rewrite filter_state_policy. exact Hp.
Qed.
(** The end of an output for the filters of files. *)
Lemma filter_closes es : es <> [] -> exists f, match pol with
  | Some _ => FileLevelFilterBuilder.GenerateFilter (filter_state es) = (filter_state [], Some f) /\
              FileLevelFilterBuilder.Clear (filter_state []) = filter_state []
  | None => filter_state es = filter_state []
  end.
Proof.
  intros Hne. pose proof (filter_state_policy es) as Hp. destruct (pol) as [p|] eqn:Ep.
  - destruct (GenerateFilter_some (filter_state es) p Hp) as [f Hf]; [apply filter_state_offsets; [done|by rewrite Ep]|].
    exists f. rewrite Hf. unfold filter_state, FileLevelFilterBuilder.Clear. cbn [fmap list_fmap fold_left]. rewrite Ep.
    split; [|done]. f_equal. unfold FileLevelFilterBuilder.new. f_equal. unfold filter_state in Hp. by rewrite Ep in Hp.
  - exists []. clear Hne. induction es as [|e es IH] using rev_ind; [done|]. rewrite filter_state_snoc.
    unfold FileLevelFilterBuilder.AddKey. rewrite filter_state_policy, Ep. apply IH. by rewrite filter_state_policy.
Qed.

End Filters.

(** ** Where an iterator over entries stands *)

Section Standing.
Context {I : Type} `{HI : Iterator I}.
(** The iterator stands at the entry [e]. *)
Record stands (it : I) (e : entry) : Prop := {
  st_key : key it = ekey e;
  st_value : value it = snd (to_ientry e);
  st_status : status it = OK;
}.
Lemma stands_user it e : stands it e -> ExtractUserKey (key it) = euser e.
Proof. intros [-> _ _]. apply ExtractUserKey_encode. Qed.

Context (ucmp : Comparator) (valid : bytes -> Prop) (es0 : list entry).
Abbreviation icmp := (InternalKeyComparator ucmp).
Definition standing (past todo : list entry) (it : I) : Prop :=
  at_pos icmp valid (kvs es0) it (match todo with [] => None | _ => Some (length past) end).
Lemma kvs_at es i : kvs es !! i = (fun e => (ekey e, snd (to_ientry e))) <$> es !! i.
Proof. unfold iter_entries. rewrite !list_lookup_fmap. by destruct (es !! i). Qed.
Lemma kvs_length es : length (kvs es) = length es.
Proof. unfold iter_entries. by rewrite !length_fmap. Qed.
Lemma standing_valid past todo it : standing past todo it -> Valid it = bool_decide (todo <> []) /\ status it = OK.
Proof.
  intros H. unfold standing in H. pose proof (io_status _ _ H) as Hs. rewrite (io_valid _ _ H). split; [|done].
  destruct todo; [done|]. rewrite !bool_decide_eq_true_2; done.
Qed.
Lemma standing_stands past e todo it : es0 = past ++ e :: todo -> standing past (e :: todo) it -> stands it e.
Proof.
  intros Ees H. unfold standing in H. pose proof (io_entry _ _ H) as He. rewrite kvs_at, Ees, list_lookup_middle in He by done.
  cbn in He. injection He as Ek Ev. split; [done..|]. by apply (io_status _ _ H).
Qed.
Lemma standing_next past e todo it : es0 = past ++ e :: todo -> standing past (e :: todo) it -> standing (past ++ [e]) todo (Next it).
Proof.
  intros Ees H. unfold standing in H |- *. apply io_next in H. unfold next_pos in H. replace (length (kvs es0)) with (length past + S (length todo))%nat in H
    by (rewrite kvs_length, Ees, length_app; done).
  rewrite length_app. destruct todo as [|e' todo]; cbn [length] in H |- *.
  - by rewrite (proj2 (Nat.ltb_ge _ _)) in H by lia.
  - rewrite (proj2 (Nat.ltb_lt _ _)) in H by lia. by rewrite Nat.add_1_r.
Qed.
Lemma standing_first it p : at_pos icmp valid (kvs es0) it p -> standing [] es0 (SeekToFirst it).
Proof. intros H%io_first. unfold standing. by destruct es0. Qed.
End Standing.
Arguments standing_valid {I HI ucmp valid es0}. Arguments standing_stands {I HI ucmp valid es0}.
Arguments standing_next {I HI ucmp valid es0}. Arguments standing_first {I HI ucmp valid es0}.

(** ** The loop *)

#[local] Arguments db_options : simpl never.
Section Run.
Context (ucmp : Comparator) (Hc : ComparatorOk ucmp bytes_ok) (Hid : cmp_identity ucmp) (Hkn : KeyNumOk ucmp bytes_ok).
Context `{HS : Snappy} {HSok : SnappyOk}.
Context (addr block_size restart_interval compression : Z) (policy : option FilterPolicy).
Abbreviation opt := (db_options ucmp addr block_size restart_interval compression policy).
Context (Hopt : options_ok opt) (Hname : forall p, filter_policy opt = Some p -> name_ok p).
Context (dbname : bytes) {E T : Type} `{HE : Env E} `{HD : DirEnv E} `{HT : TableOpens T E}.
Context (files : E -> gmap (list Z) (list Z)) {HEok : EnvOk E files} {HDok : DirEnvOk E files}.
Context {I : Type} `{HI : Iterator I}.
Abbreviation db := (DB E T).
Abbreviation table_name n := (TableFileName dbname n).
Abbreviation loop := (@Loop E T).

(** The table of some entries. *)
Definition part_table (part : list entry) (f : bytes) : Prop := exists r r',
  TableBuilder.add_entries (TableBuilder.new opt []) (kvs part) = Some r /\
  TableBuilder.Finish r = Some (OK, r') /\ TableBuilder.file r' = f /\ TableBuilder.FileSize r' = blen f.
Definition first_ikey (es : list entry) : bytes := from_option (fun e => ekey e) [] (head es).
Definition last_ikey (es : list entry) : bytes := from_option (fun e => ekey e) [] (last es).
(** An output that is finished, and the entries in it. *)
Record output_ok (e : E) (o : Output) (part : list entry) : Prop := {
  oo_some : part <> [];
  oo_smallest : smallest o = first_ikey part;
  oo_largest : largest o = last_ikey part;
  oo_file : exists f, files e !! table_name (number o) = Some f /\ part_table part f /\ file_size o = blen f;
}.
(** All the entries that the compaction reads. *)
Context (es0 : list entry) (Hord : in_order ucmp es0) (Hval : Forall (fun e => bytes_ok (snd (to_ientry e))) es0).
Context (Hsize : table_size (kvs es0) < 2 ^ 32).
Context (Hfilter : forall part r, sublist part es0 ->
  TableBuilder.add_entries (TableBuilder.new opt []) (kvs part) = Some r -> filter_bytes r + 5 < 2 ^ 32).
(** The table cache opens a table of these entries that is in the environment. *)
Definition opens_tables : Prop := forall t e n part f, sublist part es0 -> part_table part f ->
  files e !! table_name n = Some f -> ok (fst (table_status t e n (blen f))) = true.
(** The database when the loop begins. *)
Context (d0 : db) (Hnext : 0 < next_file_number_ (versions_ d0))
  (Hroom : next_file_number_ (versions_ d0) + blen es0 < 2 ^ 64).
Abbreviation next0 := (next_file_number_ (versions_ d0)).
Abbreviation rel := (reliable (E := E)).

Lemma part_entries part : sublist part es0 ->
  entries_ok (InternalKeyComparator ucmp) (internal_valid bytes_ok) (kvs part).
Proof.
  intros Hs. apply in_order_entries; [done|by eapply in_order_sublist| |].
  - rewrite Forall_forall in Hval |- *. intros e He. apply Hval. by eapply elem_of_sublist.
  - pose proof (table_size_sublist _ _ Hs). lia.
Qed.
Lemma part_builds part : sublist part es0 -> exists rb bs cur,
  TableBuilder.add_entries (TableBuilder.new opt []) (kvs part) = Some rb /\ building opt rb bs cur (kvs part).
Proof.
  intros Hs. pose proof (e_size _ _ _ (part_entries part Hs)) as Hz. unfold table_size in Hz. pose proof (blen_nonneg (kvs part)).
  destruct (add_entries_building opt Hopt (kvs part) _ _ _ _ (new_building opt)) as (rb & bs & cur & H1 & H2); [cbn [app]; lia|].
  by exists rb, bs, cur.
Qed.
Lemma part_finishes part rb : sublist part es0 ->
  TableBuilder.add_entries (TableBuilder.new opt []) (kvs part) = Some rb ->
  exists rb', TableBuilder.Finish rb = Some (OK, rb') /\ part_table part (TableBuilder.file rb').
Proof.
  intros Hs Hr. pose proof (Hfilter part rb Hs Hr) as Hf.
  pose proof (InternalKeyComparator_ok ucmp bytes_ok (fun k H => H)) as Hic.
  destruct (build_and_open (Hc := Hic) (Hshort := InternalKey_ShortKeys ucmp bytes_ok) opt Hopt (internal_valid bytes_ok)
    (kvs part) (part_entries part Hs) Hname) as (r & Hr' & Hrest).
  assert (r = rb) as -> by congruence. destruct (Hrest Hf) as (r' & _ & _ & HF & Hsz & _). exists r'. split; [done|]. by exists rb, r'.
Qed.

(** *** The invariant *)

Definition rebased (l : loop) (r : TableBuilder.Rep E) : TableBuilder.Rep E :=
  TableBuilder.set_file r (env_ (l_db l)) (TableBuilder.status r).
(** The output [o] is open, with the entries [cur] in it. *)
Record opened (l : loop) (o : Output) (cur : list entry) : Prop := {
  op_outfile : outfile (l_cs l) = Some (table_name (number o));
  op_builder : exists r rb bs cb, builder (l_cs l) = Some r /\
    tracks files (table_name (number o)) (rebased l r) rb /\
    TableBuilder.add_entries (TableBuilder.new opt []) (kvs cur) = Some rb /\ building opt rb bs cb (kvs cur);
  op_range : cur <> [] -> smallest o = first_ikey cur /\ largest o = last_ikey cur;
}.
(** What the loop leaves alone. *)
Definition same_db (d : db) : Prop := exists env n t,
  d = set_pending_outputs (set_table_cache (set_versions (set_env d0 env) (set_next (versions_ d0) n)) t) (pending_outputs_ d).
(** The outputs [outs] are finished and hold [parts]; no call has failed yet. *)
Record healthy (l : loop) (outs : list Output) (parts : list (list entry)) (cur : list entry) : Prop := {
  he_open : match builder (l_cs l) with
            | None => outputs (l_cs l) = outs /\ outfile (l_cs l) = None /\ cur = []
            | Some _ => exists o, outputs (l_cs l) = outs ++ [o] /\ opened l o cur
            end;
  he_parts : Forall2 (output_ok (env_ (l_db l))) outs parts;
  he_sub : sublist (concat parts ++ cur) es0;
  he_numbers : number <$> outputs (l_cs l) = seqZ next0 (blen (outputs (l_cs l)));
  he_room : blen (outputs (l_cs l)) <= blen es0;
  he_next : next_file_number_ (versions_ (l_db l)) = next0 + blen (outputs (l_cs l));
  he_db : same_db (l_db l);
  he_col : l_col l = {| filter_builder := filter_state (filter_policy opt) cur; file_numbers := number <$> outs;
                        file_level_filters := filters_of (filter_policy opt) parts |};
  he_frame : forall g, (forall o, o ∈ outputs (l_cs l) -> g <> table_name (number o)) ->
    files (env_ (l_db l)) !! g = files (env_ d0) !! g;
  he_pending : pending_outputs_ (l_db l) = list_to_set (number <$> outputs (l_cs l)) ∪ pending_outputs_ d0;
}.
(** A write to the open output has failed. *)
Record failing (l : loop) : Prop := {
  fa_builder : exists r o name, builder (l_cs l) = Some r /\ ok (TableBuilder.status r) = false /\
    TableBuilder.closed r = false /\ outfile (l_cs l) = Some name /\ last (outputs (l_cs l)) = Some o /\ number o <> 0;
  fa_filter : FileLevelFilterBuilder.policy_ (filter_builder (l_col l)) = filter_policy opt /\
    (is_Some (filter_policy opt) -> FileLevelFilterBuilder.key_offsets_ (filter_builder (l_col l)) <> []);
  fa_db : manual_garbage_cutoff_ (l_db l) = manual_garbage_cutoff_ d0;
  fa_unreliable : ~ rel;
}.

(** *** Small facts *)

Lemma concat_snoc {A} (parts : list (list A)) part : concat (parts ++ [part]) = concat parts ++ part.
Proof. rewrite concat_app. cbn. by rewrite app_nil_r. Qed.
Lemma outs_length e outs parts : Forall2 (output_ok e) outs parts -> (length outs <= length (concat parts))%nat.
Proof.
  induction 1 as [|o part outs parts Ho _ IH]; cbn; [lia|]. rewrite length_app.
  destruct part as [|x part]; [by destruct (oo_some _ _ _ Ho)|]. cbn. lia.
Qed.
Lemma output_ok_frame e e' name o part : framed files name e e' -> table_name (number o) <> name ->
  output_ok e o part -> output_ok e' o part.
Proof. intros Hf Hne [H1 H2 H3 (f & H4 & H5)]. split; [done..|]. exists f. by rewrite Hf. Qed.
Lemma outputs_frame e e' name outs parts : framed files name e e' -> (forall o, o ∈ outs -> table_name (number o) <> name) ->
  Forall2 (output_ok e) outs parts -> Forall2 (output_ok e') outs parts.
Proof.
  intros Hf Hne HF. induction HF as [|o part outs parts Ho HF IH]; constructor.
  - eapply output_ok_frame; [done| |done]. apply Hne. by left.
  - apply IH. intros o' Ho'. apply Hne. by right.
Qed.
Lemma numbers_range l outs parts cur o : healthy l outs parts cur -> o ∈ outputs (l_cs l) ->
  next0 <= number o < next0 + blen (outputs (l_cs l)) /\ is_u64 (number o).
Proof.
  intros Hh Ho. pose proof (he_numbers _ _ _ _ Hh) as Hn. pose proof (he_room _ _ _ _ Hh) as Hr.
  assert (number o ∈ number <$> outputs (l_cs l)) as Hin by by apply list_elem_of_fmap_2.
  rewrite Hn in Hin. apply elem_of_seqZ in Hin. split; [done|]. unfold is_u64. lia.
Qed.
Lemma last_output_new l outs parts cur o : healthy l outs parts cur -> outputs (l_cs l) = outs ++ [o] ->
  number o = next0 + blen outs /\ forall o', o' ∈ outs -> table_name (number o') <> table_name (number o).
Proof.
  intros Hh Eo. pose proof (he_numbers _ _ _ _ Hh) as Hn. rewrite Eo in Hn.
  assert (number o = next0 + blen outs) as En.
  { assert ((number <$> outs ++ [o]) !! length outs = Some (number o)) as H.
    { rewrite list_lookup_fmap, lookup_app_r, Nat.sub_diag by lia. done. }
    rewrite Hn in H. apply lookup_seqZ in H as [-> _]. done. }
  split; [done|]. intros o' Ho' E'.
  destruct (numbers_range l outs parts cur o' Hh ltac:(rewrite Eo; apply elem_of_app; by left)) as [_ Hu'].
  destruct (numbers_range l outs parts cur o Hh ltac:(rewrite Eo; apply elem_of_app; right; by left)) as [_ Hu].
  apply TableFileName_inj in E'; [|done..].
  assert (number <$> outs = seqZ next0 (blen outs)) as Hn'.
  { rewrite fmap_app, blen_app in Hn. change (blen [o]) with 1 in Hn. rewrite seqZ_app in Hn by (blia || lia).
    apply app_inj_1 in Hn as [-> _]; [done|]. rewrite length_fmap, length_seqZ. unfold blen. lia. }
  assert (number o' ∈ number <$> outs) as Hin by by apply list_elem_of_fmap_2.
  rewrite Hn' in Hin. apply elem_of_seqZ in Hin. lia.
Qed.

(** Steps on outputs do not move the loop. *)
Record kept (l l' : loop) : Prop := {
  k_key : l_current_key l' = l_current_key l;
  k_last : l_last_sequence l' = l_last_sequence l;
  k_guards : l_guards l' = l_guards l;
  k_compaction : compaction (l_cs l') = compaction (l_cs l);
  k_snapshot : smallest_snapshot (l_cs l') = smallest_snapshot (l_cs l);
  k_cutoff : manual_garbage_cutoff_ (l_db l') = manual_garbage_cutoff_ (l_db l);
}.
Lemma kept_trans l1 l2 l3 : kept l1 l2 -> kept l2 l3 -> kept l1 l3.
Proof. intros [] []. split; congruence. Qed.
Lemma kept_refl l : kept l l.
Proof. by split. Qed.

(** *** Finishing an output *)

Context (Hopens : rel -> opens_tables).

Lemma close_output_ok d env name s n part f size entries : 0 < entries -> name = table_name n ->
  sublist part es0 -> (ok s = true -> files env !! name = Some f /\ part_table part f /\ size = blen f) ->
  exists s' env' t, close_output d env name s n size entries = (s', set_table_cache (set_env d env') t) /\
    framed files name env env' /\ (ok s' = true -> ok s = true /\ files env' !! name = Some f) /\
    (ok s' = false -> ok s = false \/ ~ rel).
Proof.
  intros He -> Hpart Hs. unfold close_output. rewrite (proj2 (Z.ltb_lt 0 entries)) by done.
  destruct (ok s) eqn:Os.
  2: { do 2 rewrite ?Os; cbn [andb]. exists s, env, (table_cache_ d). split_and!; [by destruct d|done|intros H; congruence|by left]. }
  destruct (Hs eq_refl) as (Hf & Hpt & ->). pose proof (sync_file env (table_name n)) as Y1. pose proof (frame_sync env (table_name n)) as Y2.
  pose proof (fun R => rel_sync R env (table_name n)) as Y3.
  destruct (SyncFile env (table_name n)) as [s1 e1]. cbn [fst snd] in *. destruct (ok s1) eqn:O1.
  2: { rewrite ?O1. cbn [andb]. exists s1, e1, (table_cache_ d). split_and!; [by destruct d|done|intros H; congruence|].
       intros _. right. intros R. specialize (Y3 R). congruence. }
  specialize (Y1 eq_refl). pose proof (close_file e1 (table_name n)) as C1. pose proof (frame_close e1 (table_name n)) as C2.
  pose proof (fun R => rel_close R e1 (table_name n)) as C3.
  destruct (CloseFile e1 (table_name n)) as [s2 e2]. cbn [fst snd] in *.
  assert (framed files (table_name n) env e2) as Hfr by (eapply framed_trans; [exact Y2|exact C2]).
  destruct (ok s2) eqn:O2.
  2: { cbn [andb]. exists s2, e2, (table_cache_ d). split_and!; [by destruct d|done|intros H; congruence|].
       intros _. right. intros R. specialize (C3 R). congruence. }
  specialize (C1 eq_refl). cbn [andb table_cache_ env_ set_env].
  pose proof (fun R => Hopens R (table_cache_ d) e2 n part f Hpart Hpt ltac:(by rewrite C1, Y1)) as T1.
  destruct (table_status (table_cache_ d) e2 n (blen f)) as [s3 t]. cbn [fst] in T1.
  exists s3, e2, t. split_and!; [done|done|by rewrite C1, Y1|].
  intros O3. right. intros R. specialize (T1 R). congruence.
Qed.
Lemma on_current_last (cs : CompactionState E) outs o f : outputs cs = outs ++ [o] ->
  on_current_output cs f = Some (set_outputs cs (outs ++ [f o])).
Proof. intros H. unfold on_current_output. rewrite H, last_snoc. by rewrite removelast_last. Qed.

Lemma add_entries_num kv rb bs cb : building opt rb bs cb kv -> TableBuilder.NumEntries rb = blen kv.
Proof. intros H. apply (b_num _ _ _ _ _ H). Qed.

Lemma finish_output_ok it l outs parts cur : healthy l outs parts cur -> builder (l_cs l) <> None -> cur <> [] ->
  status it = OK ->
  exists s l', finish_output opt it l = Some (s, l') /\ kept l l' /\ builder (l_cs l') = None /\
    (ok s = true -> exists o', healthy l' (outs ++ [o']) (parts ++ [cur]) []) /\ (ok s = false -> ~ rel).
Proof.
  intros Hh Hb Hne Hit. pose proof (he_open _ _ _ _ Hh) as Ho. destruct (builder (l_cs l)) as [r0|] eqn:Eb; [|done].
  destruct Ho as (o & Eo & Hop). destruct Hop as [Hof (r & rb & bs & cb & Er & Htr & Hadd & Hbu) Hrange].
  assert (r0 = r) as -> by congruence. destruct (Hrange Hne) as [Hsm Hla].
  destruct (last_output_new l outs parts cur o Hh Eo) as [Hnum Hdist].
  assert (sublist cur es0) as Hsub.
  { etrans; [|exact (he_sub _ _ _ _ Hh)]. by apply sublist_inserts_l. }
  destruct (part_finishes cur rb Hsub Hadd) as (rb' & HF & Hpt).
  destruct (Finish_lands files (table_name (number o)) (rebased l r) rb rb' Htr) as (s & r' & HF' & Hfr & Hfin);
    [by rewrite (b_status _ _ _ _ _ Hbu)|done|].
  destruct (filter_closes (filter_policy opt) cur Hne) as [f Hfc].
  assert (exists fs, close_filter opt (l_col l) = Some (filter_state (filter_policy opt) [], fs) /\
    fs = filters_of (filter_policy opt) (parts ++ [cur])) as (fs & Hcf & Hfs).
  { unfold close_filter, filters_of in *. rewrite (he_col _ _ _ _ Hh). cbn [filter_builder file_level_filters].
    destruct (filter_policy opt) as [p|]; [|rewrite Hfc; eexists; by split].
    destruct Hfc as [Hg1 Hg2]. rewrite Hg1. eexists. split; [by rewrite Hg2|]. rewrite fmap_app. cbn [fmap list_fmap]. by rewrite Hg1. }
  assert (0 < TableBuilder.NumEntries r) as Hent.
  { destruct Htr as [Ev _]. assert (TableBuilder.NumEntries r = TableBuilder.NumEntries rb) as -> by by rewrite <- Ev.
    rewrite (add_entries_num _ _ _ _ Hbu). unfold blen, iter_entries. rewrite !length_fmap. destruct cur; [done|]. cbn. lia. }
  unfold finish_output, FinishCompactionOutputFile. rewrite Eo, last_snoc, Hof, Eb. cbn [mbind option_bind].
  destruct (Z.eqb_spec (number o) 0) as [E0|_]; [pose proof (blen_nonneg outs); lia|]. rewrite Hit. cbn [ok OK].
  unfold on_builder. rewrite Eb, Hof. fold (rebased l r). unfold named in HF'. rewrite HF'. cbn [mbind option_bind builder set_builder].
  set (cs1 := set_builder (l_cs l) _ _). rewrite (on_current_last cs1 outs o) by done. cbn [mbind option_bind]. rewrite Hcf.
  cbn [mbind option_bind].
  assert (ok s = true -> files (TableBuilder.file r') !! table_name (number o) = Some (TableBuilder.file rb') /\
    part_table cur (TableBuilder.file rb') /\ TableBuilder.FileSize r' = blen (TableBuilder.file rb')) as Hgood.
  { intros Os. destruct Hfin as [[_ [Ev [x Hx]]]|[Of _]]; [|congruence]. rewrite <- Ev. cbn. unfold contents. rewrite Hx. split_and!; [done| |].
    - rewrite <- Ev in Hpt. cbn in Hpt. unfold contents in Hpt. by rewrite Hx in Hpt.
    - destruct Hpt as (q & q' & H1 & H2 & _ & H4). assert (q = rb) as -> by congruence. assert (q' = rb') as -> by congruence.
      rewrite <- Ev in H4. cbn in H4. unfold contents in H4. by rewrite Hx in H4. }
  destruct (close_output_ok (l_db l) (TableBuilder.file r') (table_name (number o)) s (number o) cur (TableBuilder.file rb')
    (TableBuilder.FileSize r') (TableBuilder.NumEntries r) Hent eq_refl Hsub Hgood) as (s' & env' & t & -> & Hfr' & Hok' & Hbad').
  eexists s', _. split; [done|]. split; [by split|]. split; [done|]. split.
  2: { intros Os'. destruct (Hbad' Os') as [Os|]; [|done]. destruct Hfin as [[-> _]|[_ ?]]; done. }
  intros Os'. destruct (Hok' Os') as [Os Hfile]. destruct (Hgood Os) as (_ & _ & Hfsz).
  assert (framed files (table_name (number o)) (env_ (l_db l)) env') as Hall by (eapply framed_trans; [exact Hfr|exact Hfr']).
  set (o' := {| number := number o; file_size := _; smallest := _; largest := _ |}). exists o'.
  split; cbn [l_cs l_db l_col set_run builder outputs outfile set_builder set_total_bytes set_outputs env_ set_env set_table_cache versions_ pending_outputs_].
  - done.
  - apply Forall2_app; [by eapply outputs_frame; [|exact Hdist|apply Hh]|]. constructor; [|constructor].
    split; [done|done|done|]. exists (TableBuilder.file rb'). split; [exact Hfile|]. split; [by apply Hgood|exact Hfsz].
  - rewrite concat_snoc, app_nil_r. apply Hh.
  - pose proof (he_numbers _ _ _ _ Hh) as H. rewrite Eo in H. rewrite !fmap_app, blen_app in *. exact H.
  - pose proof (he_room _ _ _ _ Hh) as H. rewrite Eo in H. rewrite blen_app in *. exact H.
  - pose proof (he_next _ _ _ _ Hh) as H. rewrite Eo in H. rewrite blen_app in *. exact H.
  - destruct (he_db _ _ _ _ Hh) as (e & n & t0 & Ed). exists env', n, t. rewrite Ed. done.
  - rewrite (he_col _ _ _ _ Hh). cbn [file_numbers]. rewrite fmap_app. by rewrite Hfs.
  - intros g Hg. rewrite Hall; [apply Hh|].
    + intros x. rewrite Eo, elem_of_app, list_elem_of_singleton. intros [Hx| ->]; [apply Hg, elem_of_app; by left|].
      apply (Hg o'), elem_of_app. right. by left.
    + apply (Hg o'), elem_of_app. right. by left.
  - rewrite (he_pending _ _ _ _ Hh), Eo, !fmap_app. done.
Qed.

(** A builder that failed makes the output fail. *)
Lemma finish_output_fails it l : failing l -> status it = OK -> exists s l', finish_output opt it l = Some (s, l') /\ ok s = false.
Proof.
  intros [(r & o & name & Eb & Os & Ecl & Ef & El & Hn) [Fp Fk] _ _] Hit.
  assert (exists x, close_filter opt (l_col l) = Some x) as [[fb fs] Hcf].
  { unfold close_filter. destruct (filter_policy opt) as [p|]; [|by eexists].
    destruct (GenerateFilter_some _ p Fp (Fk ltac:(done))) as [f ->]. by eexists. }
  destruct (Finish_broken (HE := HE) (HD := HD) name (rebased l r) Os Ecl) as (r' & HF & _).
  unfold finish_output, FinishCompactionOutputFile. rewrite El, Ef, Eb. cbn [mbind option_bind].
  destruct (Z.eqb_spec (number o) 0) as [|_]; [done|]. rewrite Hit. cbn [ok OK].
  unfold on_builder. rewrite Eb, Ef. fold (rebased l r). unfold named in HF. rewrite HF. cbn [mbind option_bind builder set_builder].
  unfold on_current_output. cbn [outputs set_builder]. rewrite El. cbn [mbind option_bind]. rewrite Hcf. cbn [mbind option_bind].
  unfold close_output. cbn [TableBuilder.status rebased TableBuilder.set_file]. do 3 rewrite ?Os. cbn [andb].
  eexists _, _. split; [done|]. done.
Qed.

(** *** Opening an output *)

Lemma rebased_new (env : E) l : env_ (l_db l) = env -> rebased l (TableBuilder.new opt env) = TableBuilder.new opt env.
Proof.
  intros <-. unfold rebased, TableBuilder.new, TableBuilder.on_filter. cbn. by destruct (filter_policy opt).
Qed.
Lemma view_new e f : files e !! f = Some [] -> view files f (TableBuilder.new opt e) = TableBuilder.new opt [].
Proof.
  intros H. unfold view, with_file, TableBuilder.new, TableBuilder.on_filter, contents. cbn.
  destruct (filter_policy opt); cbn; by rewrite H.
Qed.
Lemma open_output_ok l outs parts cur : healthy l outs parts cur -> (length outs < length es0)%nat ->
  exists s l', open_output opt dbname l = Some (s, l') /\ kept l l' /\
    (ok s = true -> healthy l' outs parts cur /\ builder (l_cs l') <> None) /\ (ok s = false -> ~ rel).
Proof.
  intros Hh Hroom'. unfold open_output. destruct (builder (l_cs l)) as [r|] eqn:Eb.
  { exists OK, l. split; [done|]. split; [done|]. split; [|done]. intros _. split; [done|]. by rewrite Eb. }
  unfold OpenCompactionOutputFile. rewrite Eb. unfold NewFileNumber.
  pose proof (he_open _ _ _ _ Hh) as Ho. rewrite Eb in Ho. destruct Ho as (Eo & Eof & ->).
  pose proof (he_next _ _ _ _ Hh) as Hnx. rewrite Eo in Hnx.
  set (n := next_file_number_ (versions_ (l_db l))) in *.
  cbn [env_ set_pending_outputs set_versions]. pose proof (new_file (env_ (l_db l)) (table_name n)) as N1.
  pose proof (frame_new (env_ (l_db l)) (table_name n)) as N2. pose proof (fun R => rel_new R (env_ (l_db l)) (table_name n)) as N3.
  destruct (NewWritableFile (env_ (l_db l)) (table_name n)) as [s env]. cbn [fst snd mbind option_bind] in *.
  exists s. eexists. split; [done|]. destruct (ok s) eqn:Os.
  2: { split; [by split|]. split; [done|]. intros _ R. specialize (N3 R). congruence. }
  split; [by split|]. split; [intros _|done]. specialize (N1 eq_refl). split; [|done].
  assert (is_u64 n) as Hun by (unfold is_u64, blen in *; lia).
  assert (is_u64 (n + 1)) as Hun1 by (unfold is_u64, blen in *; lia).
  set (o := {| number := n; file_size := 0; smallest := []; largest := [] |}).
  assert (number <$> outs ++ [o] = seqZ next0 (blen (outs ++ [o]))) as Hnum.
  { pose proof (he_numbers _ _ _ _ Hh) as H. rewrite Eo in H. rewrite fmap_app, H, blen_app. change (blen [o]) with 1.
    rewrite seqZ_app by (blia || lia). cbn [fmap list_fmap number o]. rewrite Hnx. done. }
  assert (forall x, x ∈ outs -> table_name (number x) <> table_name n) as Hdist.
  { intros x Hx H. destruct (numbers_range l outs parts [] x Hh ltac:(by rewrite Eo)) as [H1 H2].
    apply TableFileName_inj in H; [|done..]. rewrite Eo in H1. lia. }
  split; cbn [l_cs l_db l_col set_run builder outputs outfile set_builder set_outputs env_ set_env set_pending_outputs
    set_versions versions_ pending_outputs_ next_file_number_ set_next]; rewrite ?Eo.
  - exists o. split; [done|]. split; cbn [l_cs l_db set_run builder outfile set_builder set_outputs].
    + done.
    + exists (TableBuilder.new opt env), (TableBuilder.new opt []), [], []. split; [done|]. split; [|split; [done|by apply new_building]].
      rewrite (rebased_new env) by done. cbn [number o]. split; [apply view_new; by rewrite N1, lookup_insert_eq|].
      assert (TableBuilder.file (TableBuilder.new opt env) = env) as ->.
      { unfold TableBuilder.new, TableBuilder.on_filter. cbn. by destruct (filter_policy opt). }
      rewrite N1, lookup_insert_eq. done.
    + done.
  - eapply outputs_frame; [exact N2|exact Hdist|apply Hh].
  - apply Hh.
  - done.
  - rewrite blen_app. change (blen [o]) with 1. unfold blen in *. lia.
  - unfold set_next. cbn [next_file_number_]. rewrite u64_small by done. rewrite blen_app. change (blen [o]) with 1. cbn [next_file_number_ set_numbers]. lia.
  - destruct (he_db _ _ _ _ Hh) as (e & m & t & Ed). exists env, (u64 (n + 1)), t. rewrite Ed. done.
  - by rewrite (he_col _ _ _ _ Hh).
  - intros g Hg. rewrite N2; [apply Hh|].
    + rewrite Eo. intros x Hx. apply Hg, elem_of_app. by left.
    + apply (Hg o), elem_of_app. right. by left.
  - rewrite (he_pending _ _ _ _ Hh), Eo, fmap_app, list_to_set_app_L. cbn [fmap list_fmap list_to_set number o]. set_solver.
Qed.

(** *** Adding an entry *)

Lemma first_ikey_snoc cur e : first_ikey (cur ++ [e]) = if decide (cur = []) then ekey e else first_ikey cur.
Proof. by destruct cur. Qed.
Lemma last_ikey_snoc cur e : last_ikey (cur ++ [e]) = ekey e.
Proof. unfold last_ikey. by rewrite last_snoc. Qed.
Lemma grow_table cur e rb : sublist (cur ++ [e]) es0 ->
  TableBuilder.add_entries (TableBuilder.new opt []) (kvs cur) = Some rb ->
  exists rb' bs cb, TableBuilder.Add rb (ekey e) (snd (to_ientry e)) = Some rb' /\
    TableBuilder.add_entries (TableBuilder.new opt []) (kvs (cur ++ [e])) = Some rb' /\ building opt rb' bs cb (kvs (cur ++ [e])).
Proof.
  intros Hs Ha. destruct (part_builds (cur ++ [e]) Hs) as (rb' & bs & cb & H1 & H2). exists rb', bs, cb. split; [|done].
  rewrite kvs_snoc in H1. unfold TableBuilder.add_entries in *. rewrite fold_left_app, Ha in H1. exact H1.
Qed.
Lemma opened_entries l outs parts cur : healthy l outs parts cur -> forall r, builder (l_cs l) = Some r ->
  TableBuilder.NumEntries r = blen cur.
Proof.
  intros Hh r Er. pose proof (he_open _ _ _ _ Hh) as Ho. rewrite Er in Ho. destruct Ho as (o & _ & [_ (r1 & rb & bs & cb & E1 & [Ev _] & _ & Hb) _]).
  assert (r1 = r) as -> by congruence. assert (TableBuilder.NumEntries r = TableBuilder.NumEntries rb) as -> by by rewrite <- Ev.
  rewrite (add_entries_num _ _ _ _ Hb). unfold blen, iter_entries. by rewrite !length_fmap.
Qed.
Lemma write_entry_ok it l outs parts cur e : healthy l outs parts cur -> builder (l_cs l) <> None ->
  key it = ekey e -> value it = snd (to_ientry e) -> sublist (concat parts ++ cur ++ [e]) es0 ->
  exists l', write_entry it l = Some l' /\ kept l l' /\ builder (l_cs l') <> None /\
    (healthy l' outs parts (cur ++ [e]) \/ failing l').
Proof.
  intros Hh Hb Hk Hv Hsub. destruct (builder (l_cs l)) as [r|] eqn:Er; [|done].
  pose proof (opened_entries _ _ _ _ Hh r Er) as Hent.
  pose proof (he_open _ _ _ _ Hh) as Ho. rewrite Er in Ho. destruct Ho as (o & Eo & [Hof (r1 & rb & bs & cb & E1 & Ht & Hadd & Hbu) Hrange]).
  assert (r1 = r) as -> by congruence. destruct (last_output_new l outs parts cur o Hh Eo) as [Hnum Hdist].
  destruct (grow_table cur e rb) as (rb' & bs' & cb' & HA & Hadd' & Hbu'); [|done|].
  { etrans; [|exact Hsub]. by apply sublist_inserts_l. }
  destruct (Add_lands files (table_name (number o)) (rebased l r) rb (ekey e) (snd (to_ientry e)) rb' Ht) as (r' & HA' & Hfr & Hcl & Hl);
    [by rewrite (b_status _ _ _ _ _ Hbu)|done|].
  unfold write_entry. rewrite Er. cbn [mbind option_bind]. rewrite (on_current_last (l_cs l) outs o) by done. cbn [mbind option_bind].
  unfold on_builder. cbn [builder outfile set_outputs]. rewrite Er, Hof. fold (rebased l r). unfold named in HA'. rewrite Hk, Hv, HA'.
  cbn [mbind option_bind]. eexists. split; [done|]. split; [by split|]. split; [done|].
  set (o' := {| number := number o; file_size := file_size o; smallest := _; largest := _ |}).
  assert (forall x, x ∈ outs ++ [o'] -> exists y, y ∈ outs ++ [o] /\ number y = number x) as Hsame.
  { intros x. rewrite elem_of_app, list_elem_of_singleton. intros [Hx| ->]; [exists x|exists o]; rewrite elem_of_app, list_elem_of_singleton; auto. }
  destruct Hl as [Ht'|[Hbad Hn]].
  - left. split; cbn [l_cs l_db l_col set_run builder outputs outfile set_builder set_outputs env_ set_env versions_ pending_outputs_].
    + exists o'. split; [done|]. split; cbn [l_cs l_db set_run builder outfile set_builder set_outputs].
      * done.
      * exists r', rb', bs', cb'. split; [done|]. split; [|done]. assert (rebased _ r' = r') as ->; [|done].
        unfold rebased. cbn. by destruct r'.
      * intros _. rewrite last_ikey_snoc, first_ikey_snoc. cbn [smallest largest o']. split; [|done]. rewrite Hent.
        destruct (Z.eqb_spec (blen cur) 0) as [E0|E0]; destruct (decide (cur = [])) as [->|Hne]; try done.
        -- exfalso. apply Hne. by apply blen_0.
        -- by apply Hrange.
    + eapply outputs_frame; [exact Hfr|exact Hdist|apply Hh].
    + done.
    + pose proof (he_numbers _ _ _ _ Hh) as H. rewrite Eo in H. rewrite !fmap_app, blen_app in *. exact H.
    + pose proof (he_room _ _ _ _ Hh) as H. rewrite Eo in H. rewrite blen_app in *. exact H.
    + pose proof (he_next _ _ _ _ Hh) as H. rewrite Eo in H. rewrite blen_app in *. exact H.
    + destruct (he_db _ _ _ _ Hh) as (e' & n & t & Ed). exists (TableBuilder.file r'), n, t. rewrite Ed. done.
    + rewrite (he_col _ _ _ _ Hh). cbn [filter_builder file_numbers file_level_filters]. by rewrite filter_state_snoc.
    + intros g Hg. rewrite Hfr; [apply Hh|].
      * rewrite Eo. intros x Hx. destruct (decide (number x = number o)) as [Ex|Ex].
        -- rewrite Ex. apply (Hg o'), elem_of_app. right. by left.
        -- apply elem_of_app in Hx as [Hx|Hx%list_elem_of_singleton]; [apply Hg, elem_of_app; by left|by subst].
      * apply (Hg o'), elem_of_app. right. by left.
    + rewrite (he_pending _ _ _ _ Hh), Eo, !fmap_app. done.
  - right. split; cbn [l_cs l_db l_col set_run builder outputs outfile set_builder set_outputs env_ set_env filter_builder manual_garbage_cutoff_].
    + exists r', o', (table_name (number o)). split_and!; [done|done| |done|by rewrite last_snoc|].
      * rewrite Hcl. apply (b_closed _ _ _ _ _ Hbu').
      * cbn [number o']. pose proof (blen_nonneg outs). lia.
    + rewrite (he_col _ _ _ _ Hh). cbn [filter_builder]. rewrite <- filter_state_snoc. split; [apply filter_state_policy|].
      intros Hp. apply filter_state_offsets; [by destruct cur|done].
    + destruct (he_db _ _ _ _ Hh) as (e' & n & t & Ed). by rewrite Ed.
    + done.
Qed.

Lemma write_entry_failing it l : failing l -> exists l', write_entry it l = Some l' /\ kept l l' /\ failing l'.
Proof.
  intros [(r & o & name & Eb & Os & Ecl & Ef & El & Hn) [Fp Fk] Fc Fr]. unfold write_entry. rewrite Eb. cbn [mbind option_bind].
  unfold on_current_output. rewrite El. cbn [mbind option_bind]. unfold on_builder. cbn [builder outfile set_outputs]. rewrite Eb, Ef.
  fold (rebased l r). rewrite Add_broken by done. cbn [mbind option_bind]. eexists. split; [done|]. split; [by split|].
  split; cbn [l_cs l_db l_col set_run builder outputs outfile set_builder set_outputs filter_builder set_env manual_garbage_cutoff_].
  - eexists _, _, name. split_and!; [done|done|done|done|by rewrite last_snoc|exact Hn].
  - destruct (filter_policy opt) as [p|] eqn:Ep.
    + destruct (AddKey_offsets (filter_builder (l_col l)) (key it) p Fp) as [H1 H2]. split; [exact H1|intros _; exact H2].
    + unfold FileLevelFilterBuilder.AddKey. rewrite Fp. split; [exact Fp|by intros []].
  - done.
  - done.
Qed.

(** *** A round *)

(** Results: a status, with what holds when it is OK; an error means a failed call. *)
Definition steps (x : option (Status * loop)) (P : loop -> Prop) : Prop :=
  exists s l', x = Some (s, l') /\ (ok s = true -> P l') /\ (ok s = false -> ~ rel).
Lemma steps_andthen x f (P Q : loop -> Prop) : steps x P -> (forall l, P l -> steps (f l) Q) -> steps (andthen x f) Q.
Proof.
  intros (s & l & -> & Hok & Hbad) Hf. cbn [andthen mbind option_bind]. unfold andthen. cbn [mbind option_bind].
  destruct (ok s) eqn:Es; [by apply Hf, Hok|]. exists s, l. split; [done|]. split; [intros H; congruence|intros _; by apply Hbad].
Qed.
Lemma steps_ret l (P : loop -> Prop) : P l -> steps (Some (OK, l)) P.
Proof. intros H. by exists OK, l. Qed.
Lemma steps_impl x (P Q : loop -> Prop) : (forall l, P l -> Q l) -> steps x P -> steps x Q.
Proof. intros H (s & l & ? & Hok & ?). exists s, l. split; [done|]. split; [|done]. auto. Qed.
Lemma steps_fail s l (P : loop -> Prop) : ~ rel -> ok s = false -> steps (Some (s, l)) P.
Proof. intros H Hs. exists s, l. split; [done|]. split; [intros; congruence|done]. Qed.

(** What the splitting leaves alone. *)
Record moved (l l' : loop) : Prop := {
  m_key : l_current_key l' = l_current_key l;
  m_last : l_last_sequence l' = l_last_sequence l;
  m_compaction : compaction (l_cs l') = compaction (l_cs l);
  m_snapshot : smallest_snapshot (l_cs l') = smallest_snapshot (l_cs l);
  m_cutoff : manual_garbage_cutoff_ (l_db l') = manual_garbage_cutoff_ (l_db l);
}.
Lemma kept_moved l l' : kept l l' -> moved l l'.
Proof. by intros []. Qed.
Lemma moved_trans l1 l2 l3 : moved l1 l2 -> moved l2 l3 -> moved l1 l3.
Proof. intros [] []. split; congruence. Qed.

(** The guards the outputs are cut at. *)
Context (guards : list GuardMetaData).
Context (Hgs : StronglySorted (fun g g' => Compare ucmp (guard_user_key g) (guard_user_key g') <= 0) guards)
  (Hgb : Forall (fun g => bytes_ok (guard_user_key g)) guards).
Definition below (g : GuardMetaData) (e : entry) : Prop := Compare ucmp (euser e) (guard_user_key g) < 0.
Definition cut_at (g : GuardMetaData) (part : list entry) : Prop := Forall (below g) part \/ Forall (fun e => ~ below g e) part.
Record cuts (l : loop) (parts : list (list entry)) (cur todo : list entry) (passed : list GuardMetaData) : Prop := {
  cu_split : guards = passed ++ l_guards l;
  cu_passed : forall g e, g ∈ passed -> e ∈ cur ++ todo -> ~ below g e;
  cu_left : forall g e, g ∈ l_guards l -> e ∈ concat parts ++ cur -> below g e;
  cu_parts : forall g part, g ∈ passed -> part ∈ parts -> cut_at g part;
}.

Lemma cuts_finish l l' parts cur todo passed : l_guards l' = l_guards l -> cuts l parts cur todo passed ->
  cuts l' (parts ++ [cur]) [] todo passed.
Proof.
  intros Eg [H1 H2 H3 H4]. split; rewrite ?Eg.
  - done.
  - intros g e Hg He. apply H2; [done|]. apply elem_of_app. by right.
  - intros g e Hg. rewrite app_nil_r, concat_snoc. by apply H3.
  - intros g part Hg [Hp|Hp%list_elem_of_singleton]%elem_of_app; [by apply H4|]. subst part. right.
    apply Forall_forall. intros e He. apply H2; [done|]. apply elem_of_app. by left.
Qed.
Lemma cuts_same l l' parts cur todo passed : l_guards l' = l_guards l -> cuts l parts cur todo passed -> cuts l' parts cur todo passed.
Proof. intros Eg []. split; by rewrite ?Eg. Qed.
Lemma cuts_less l parts cur e todo passed : cuts l parts cur (e :: todo) passed -> cuts l parts cur todo passed.
Proof.
  intros [H1 H2 H3 H4]. split; try done. intros g x Hg Hx. apply H2; [done|].
  apply elem_of_app in Hx as [Hx|Hx]; apply elem_of_app; [by left|]. right. by right.
Qed.
Lemma cuts_add l parts cur e todo passed : (forall g, g ∈ l_guards l -> below g e) -> cuts l parts cur (e :: todo) passed ->
  cuts l parts (cur ++ [e]) todo passed.
Proof.
  intros Hb [H1 H2 H3 H4]. split; try done.
  - intros g x Hg Hx. apply H2; [done|]. by rewrite <- app_assoc in Hx.
  - intros g x Hg. rewrite app_assoc. intros [Hx| ->%list_elem_of_singleton]%elem_of_app; [by apply H3|by apply Hb].
Qed.

Lemma pass_guards_spec k gs : bytes_ok k -> Forall (fun g => bytes_ok (guard_user_key g)) gs ->
  StronglySorted (fun g g' => Compare ucmp (guard_user_key g) (guard_user_key g') <= 0) gs ->
  exists p, gs = p ++ pass_guards ucmp k gs /\ (forall g, g ∈ p -> 0 <= Compare ucmp k (guard_user_key g)) /\
    (forall g, g ∈ pass_guards ucmp k gs -> Compare ucmp k (guard_user_key g) < 0).
Proof.
  intros Hk. induction gs as [|g gs IH]; intros Hb Hs; cbn [pass_guards].
  { exists []. split; [done|]. split; intros g Hg; by apply elem_of_nil in Hg. }
  apply Forall_cons in Hb as [Hg Hb]. apply StronglySorted_cons in Hs as [Hle Hs].
  destruct (Z.leb_spec 0 (Compare ucmp k (guard_user_key g))) as [H|H].
  - destruct (IH Hb Hs) as (p & E1 & E2 & E3). exists (g :: p). split; [cbn; by rewrite <- E1|]. split; [|done].
    intros g' [->|Hg']%elem_of_cons; [done|by apply E2].
  - exists []. split; [done|]. split; [intros g' Hg'; by apply elem_of_nil in Hg'|].
    intros g' [->|Hg']%elem_of_cons; [done|]. rewrite Forall_forall in Hle, Hb.
    by eapply cmp_lt_le_trans; [exact Hk|exact Hg|by apply Hb| |by apply Hle].
Qed.
(** The guards from some point on. *)
Lemma guards_left l parts cur todo passed : cuts l parts cur todo passed ->
  Forall (fun g => bytes_ok (guard_user_key g)) (l_guards l) /\
  StronglySorted (fun g g' => Compare ucmp (guard_user_key g) (guard_user_key g') <= 0) (l_guards l).
Proof.
  intros H. pose proof (cu_split _ _ _ _ _ H) as Eg. rewrite Eg in Hgs, Hgb. split; [by apply Forall_app in Hgb as [_ ?]|].
  by eapply StronglySorted_app_1_r.
Qed.
Lemma cuts_pass l parts e todo passed : bytes_ok (euser e) ->
  (forall e', e' ∈ todo -> bytes_ok (euser e') /\ Compare ucmp (euser e) (euser e') <= 0) ->
  cuts l parts [] (e :: todo) passed -> exists p,
  cuts (set_guards_left l (pass_guards ucmp (euser e) (l_guards l))) parts [] (e :: todo) (passed ++ p) /\
  forall g, g ∈ pass_guards ucmp (euser e) (l_guards l) -> below g e.
Proof.
  intros He Hle Hcu. destruct (guards_left _ _ _ _ _ Hcu) as [Hb Hs].
  destruct (pass_guards_spec (euser e) (l_guards l) He Hb Hs) as (p & E1 & E2 & E3). exists p. split; [|done].
  destruct Hcu as [H1 H2 H3 H4]. split; cbn [l_guards set_guards_left].
  - by rewrite <- app_assoc, <- E1.
  - intros g x [Hg|Hg]%elem_of_app Hx; [by apply H2|]. unfold below.
    assert (bytes_ok (guard_user_key g)) as Hgk.
    { rewrite Forall_forall in Hb. apply Hb. rewrite E1. apply elem_of_app. by left. }
    cbn [app] in Hx. apply elem_of_cons in Hx as [->|Hx]; [pose proof (E2 g Hg); lia|].
    destruct (Hle x Hx) as [Hxb Hxl]. intros Hlt. pose proof (E2 g Hg).
    pose proof (cmp_le_lt_trans _ _ _ He Hxb Hgk Hxl Hlt). lia.
  - intros g x Hg Hx. apply H3; [|done]. rewrite E1. apply elem_of_app. by right.
  - intros g part [Hg|Hg]%elem_of_app Hp; [by apply H4|]. left. apply Forall_forall. intros x Hx.
    apply H3; [rewrite E1; apply elem_of_app; by left|]. rewrite app_nil_r. apply elem_of_concat. by exists part.
Qed.

(** Assignments outside the outputs. *)
Record same_run (l l' : loop) : Prop := {
  sr_db : l_db l' = l_db l;
  sr_col : l_col l' = l_col l;
  sr_builder : builder (l_cs l') = builder (l_cs l);
  sr_outputs : outputs (l_cs l') = outputs (l_cs l);
  sr_outfile : outfile (l_cs l') = outfile (l_cs l);
}.
Lemma healthy_ext l l' outs parts cur : same_run l l' -> healthy l outs parts cur -> healthy l' outs parts cur.
Proof.
  intros [E1 E2 E3 E4 E5] [H1 H2 H3 H4 H5 H6 H7 H8 H9 H10]. split; rewrite ?E1, ?E2, ?E3, ?E4, ?E5; try done.
  destruct (builder (l_cs l)) as [r|] eqn:Er; [|done]. destruct H1 as (o & Eo & [O1 O2 O3]). exists o. split; [done|].
  split; rewrite ?E3, ?E5, ?Er in *; try done. unfold rebased in *. by rewrite E1.
Qed.
(** All is written that was kept so far: [X] is still to come. *)
Context (SV : list entry) (HSsub : sublist SV es0).
Definition written (l : loop) (todo X : list entry) : Prop := exists outs parts cur passed,
  healthy l outs parts cur /\ cuts l parts cur todo passed /\ concat parts ++ cur ++ X = SV.
Lemma written_room l outs parts cur e X : healthy l outs parts cur -> concat parts ++ cur ++ e :: X = SV -> (length outs < length es0)%nat.
Proof.
  intros Hh HX. pose proof (outs_length _ _ _ (he_parts _ _ _ _ Hh)). apply sublist_length in HSsub.
  rewrite <- HX, !length_app in HSsub. cbn in HSsub. lia.
Qed.
Record comes (e : entry) (todo : list entry) : Prop := {
  co_user : bytes_ok (euser e);
  co_later : forall e', e' ∈ todo -> bytes_ok (euser e') /\ Compare ucmp (euser e) (euser e') <= 0;
}.

Lemma split_at_guard_ok it l e todo X : written l (e :: todo) (e :: X) -> builder (l_cs l) <> None ->
  stands it e -> comes e todo ->
  steps (split_at_guard ucmp opt it l) (fun l' => moved l l' /\ written l' (e :: todo) (e :: X) /\
    forall g, g ∈ l_guards l' -> below g e).
Proof.
  intros (outs & parts & cur & passed & Hh & Hcu & HX) Hb Hst Hco. unfold split_at_guard.
  pose proof (guards_left _ _ _ _ _ Hcu) as [Hgb' Hgs'].
  assert (forall g gs, l_guards l = g :: gs -> Compare ucmp (euser e) (guard_user_key g) < 0 -> forall g', g' ∈ l_guards l -> below g' e) as Hbel.
  { intros g gs Eg Hlt g' Hg'. rewrite Eg in *. apply elem_of_cons in Hg' as [->|Hg']; [done|].
    apply StronglySorted_cons in Hgs' as [Hle _]. apply Forall_cons in Hgb' as [Hgk Hgb'']. rewrite Forall_forall in Hle, Hgb''.
    by eapply cmp_lt_le_trans; [apply Hco|exact Hgk|by apply Hgb''|exact Hlt|by apply Hle]. }
  destruct (l_guards l) as [|g gs] eqn:Eg.
  { apply steps_ret. split; [by split|]. split; [by exists outs, parts, cur, passed|]. intros g Hg. rewrite Eg in Hg. by apply elem_of_nil in Hg. }
  rewrite (stands_user it e Hst). destruct (Z.leb_spec 0 (Compare ucmp (euser e) (guard_user_key g))) as [Hge|Hlt].
  2: { apply steps_ret. split; [by split|]. split; [by exists outs, parts, cur, passed|]. rewrite Eg. by eapply Hbel. }
  destruct (builder (l_cs l)) as [r|] eqn:Er; [|done]. cbn [mbind option_bind].
  rewrite (opened_entries _ _ _ _ Hh r Er).
  assert (exists s l1, (if 0 <? blen cur then finish_output opt it l else Some (OK, l)) = Some (s, l1) /\
    moved l l1 /\ (ok s = false -> ~ rel) /\ (ok s = true -> l_guards l1 = l_guards l /\ exists outs1 parts1, healthy l1 outs1 parts1 [] /\
    cuts l1 parts1 [] (e :: todo) passed /\ concat parts1 ++ e :: X = SV)) as (s & l1 & -> & Hm & Hbad & Hok).
  { destruct (Z.ltb_spec 0 (blen cur)) as [Hpos|Hz].
    - destruct (finish_output_ok it l outs parts cur Hh) as (s & l1 & E1 & Hk & _ & Hok & Hbad);
        [by rewrite Er|by destruct cur|apply Hst|]. exists s, l1. split; [done|]. split; [by apply kept_moved|]. split; [done|].
      intros Os. destruct (Hok Os) as [o' Hh']. split; [apply Hk|]. exists (outs ++ [o']), (parts ++ [cur]). split; [done|].
      split; [by apply (cuts_finish l); [apply Hk|]|]. by rewrite concat_snoc, <- app_assoc.
    - exists OK, l. split; [done|]. split; [by split|]. split; [done|]. intros _. split; [done|]. exists outs, parts.
      assert (cur = []) as -> by (apply blen_0; pose proof (blen_nonneg cur); lia). done. }
  cbn [mbind option_bind]. eexists s, _. split; [done|]. split; [|done]. intros Os. destruct (Hok Os) as (Eg1 & outs1 & parts1 & Hh1 & Hcu1 & HX1).
  destruct (cuts_pass l1 parts1 e todo passed (co_user _ _ Hco) (co_later _ _ Hco) Hcu1) as (p & Hcu2 & Hbel2).
  split; [by destruct Hm; split|]. cbn [l_guards set_guards_left]. split; [|done].
  exists outs1, parts1, [], (passed ++ p). split; [by eapply healthy_ext; [|exact Hh1]|]. by split.
Qed.

Lemma failing_ext l l' : same_run l l' -> failing l -> failing l'.
Proof. intros [E1 E2 E3 E4 E5] [H1 H2 H3 H4]. split; by rewrite ?E1, ?E2, ?E3, ?E4, ?E5. Qed.
Lemma open_written l todo e X : written l (e :: todo) (e :: X) ->
  steps (open_output opt dbname l) (fun l' => kept l l' /\ written l' (e :: todo) (e :: X) /\ builder (l_cs l') <> None).
Proof.
  intros (outs & parts & cur & passed & Hh & Hcu & HX).
  destruct (open_output_ok l outs parts cur Hh) as (s & l' & -> & Hk & Hok & Hbad); [by eapply written_room|].
  exists s, l'. split; [done|]. split; [|done]. intros Os. destruct (Hok Os) as [Hh' Hb]. split; [done|]. split; [|done].
  exists outs, parts, cur, passed. split; [done|]. split; [|done]. eapply cuts_same; [apply Hk|done].
Qed.
Lemma add_written it l e todo X : written l (e :: todo) (e :: X) -> builder (l_cs l) <> None -> stands it e ->
  (forall g, g ∈ l_guards l -> below g e) ->
  exists l', write_entry it l = Some l' /\ kept l l' /\ builder (l_cs l') <> None /\
    ((exists outs parts cur passed, healthy l' outs parts (cur ++ [e]) /\ cuts l' parts (cur ++ [e]) todo passed /\
      concat parts ++ (cur ++ [e]) ++ X = SV) \/ failing l').
Proof.
  intros (outs & parts & cur & passed & Hh & Hcu & HX) Hb Hst Hbel.
  destruct (write_entry_ok it l outs parts cur e Hh Hb (st_key _ _ Hst) (st_value _ _ Hst)) as (l' & -> & Hk & Hb' & Hl).
  { etrans; [|exact HSsub]. rewrite <- HX. change (e :: X) with ([e] ++ X). rewrite !app_assoc. by apply sublist_inserts_r. }
  exists l'. split; [done|]. split; [done|]. split; [done|]. destruct Hl as [Hl|Hl]; [left|by right].
  exists outs, parts, cur, passed. split; [done|]. split; [|by rewrite <- app_assoc].
  eapply cuts_same; [apply Hk|]. by apply cuts_add.
Qed.
(** Between rounds an open output is not empty. *)
Definition settled (l : loop) (todo X : list entry) : Prop := exists outs parts cur passed,
  healthy l outs parts cur /\ cuts l parts cur todo passed /\ concat parts ++ cur ++ X = SV /\
  (cur = [] -> builder (l_cs l) = None).
Lemma settled_written l todo X : settled l todo X -> written l todo X.
Proof. intros (outs & parts & cur & passed & H1 & H2 & H3 & _). by exists outs, parts, cur, passed. Qed.
Lemma close_if_big_ok it l outs parts cur todo passed X : healthy l outs parts cur -> cur <> [] -> cuts l parts cur todo passed ->
  concat parts ++ cur ++ X = SV -> builder (l_cs l) <> None -> status it = OK ->
  steps (close_if_big opt it l) (fun l' => moved l l' /\ settled l' todo X).
Proof.
  intros Hh Hne Hcu HX Hb Hit. unfold close_if_big. destruct (builder (l_cs l)) as [r|] eqn:Er; [|done]. cbn [mbind option_bind].
  destruct (_ <=? _).
  - destruct (finish_output_ok it l outs parts cur Hh) as (s & l1 & -> & Hk & Hb1 & Hok & Hbad); [by rewrite Er|done|done|].
    exists s, l1. split; [done|]. split; [|done]. intros Os. destruct (Hok Os) as [o' Hh']. split; [by apply kept_moved|].
    exists (outs ++ [o']), (parts ++ [cur]), [], passed. split; [done|].
    split; [by apply (cuts_finish l); [apply Hk|]|]. split; [by rewrite concat_snoc, <- app_assoc|done].
  - apply steps_ret. split; [by split|]. by exists outs, parts, cur, passed.
Qed.
Lemma close_if_big_failing it l : failing l -> status it = OK -> steps (close_if_big opt it l) (fun l' => moved l l' /\ failing l').
Proof.
  intros Hf Hit. unfold close_if_big. destruct (fa_builder _ Hf) as (r & _ & _ & -> & _). cbn [mbind option_bind].
  destruct (_ <=? _); [|by apply steps_ret]. destruct (finish_output_fails it l Hf Hit) as (s & l' & -> & Os).
  apply steps_fail; [apply Hf|done].
Qed.
Lemma keep_entry_ok it l e todo X : written l (e :: todo) (e :: X) -> stands it e -> comes e todo ->
  steps (keep_entry ucmp opt dbname it l) (fun l' => moved l l' /\ (settled l' todo X \/ failing l')).
Proof.
  intros Hw Hst Hco. unfold keep_entry. eapply steps_andthen; [by apply open_written|]. cbn beta. intros l1 (K1 & W1 & B1).
  eapply steps_andthen; [by apply split_at_guard_ok|]. cbn beta. intros l2 (M2 & W2 & G2).
  eapply steps_andthen; [by apply open_written|]. cbn beta. intros l3 (K3 & W3 & B3).
  destruct (add_written it l3 e todo X W3 B3 Hst) as (l4 & -> & K4 & B4 & Hl); [by rewrite (k_guards _ _ K3)|]. cbn [mbind option_bind].
  assert (moved l l4) as M4.
  { eapply moved_trans; [by apply kept_moved|]. eapply moved_trans; [done|]. eapply moved_trans; by apply kept_moved. }
  destruct Hl as [(outs & parts & cur & passed & Hh & Hcu & HX)|Hf].
  - eapply steps_impl; [|by eapply (close_if_big_ok it l4 outs parts (cur ++ [e])); [|destruct cur| | | |apply Hst]].
    cbn beta. intros l5 [M5 W5]. split; [by eapply moved_trans|by left].
  - eapply steps_impl; [|by apply close_if_big_failing; [|apply Hst]]. cbn beta. intros l5 [M5 F5]. split; [by eapply moved_trans|by right].
Qed.
Lemma keep_entry_failing it l : failing l -> status it = OK ->
  steps (keep_entry ucmp opt dbname it l) (fun l' => moved l l' /\ failing l').
Proof.
  intros Hf Hit.
  assert (forall l, failing l -> open_output opt dbname l = Some (OK, l)) as Hopen.
  { intros q Hq. unfold open_output. by destruct (fa_builder _ Hq) as (r & _ & _ & -> & _). }
  assert (steps (split_at_guard ucmp opt it l) (fun l' => moved l l' /\ failing l')) as Hsplit.
  { unfold split_at_guard. destruct (l_guards l) as [|g gs]; [by apply steps_ret|]. destruct (_ <=? _); [|by apply steps_ret].
    destruct (fa_builder _ Hf) as (r & _ & _ & -> & _). cbn [mbind option_bind]. destruct (0 <? _).
    - destruct (finish_output_fails it l Hf Hit) as (s & l' & -> & Os). cbn [mbind option_bind]. apply steps_fail; [apply Hf|done].
    - cbn [mbind option_bind]. apply steps_ret. split; [by split|]. by eapply failing_ext; [|exact Hf]. }
  unfold keep_entry. rewrite Hopen by done. apply (steps_andthen _ _ (fun q => q = l)); [by apply steps_ret|]. intros ? ->.
  eapply steps_andthen; [exact Hsplit|]. cbn beta. intros l2 [M2 F2]. rewrite Hopen by done.
  apply (steps_andthen _ _ (fun q => moved l q /\ failing q)); [by apply steps_ret|]. intros l3 [M3 F3].
  destruct (write_entry_failing it l3 F3) as (l4 & -> & K4 & F4). cbn [mbind option_bind].
  eapply steps_impl; [|by apply close_if_big_failing]. cbn beta. intros l5 [M5 F5]. split; [|done].
  eapply moved_trans; [exact M3|]. eapply moved_trans; [by apply kept_moved|done].
Qed.

(** *** The key of a round *)

Context (h : Files) (v : Version) (c0 : Compaction) (snapshot : Z).
Context (Hlevel : 0 <= level_ c0).
Context (Hdeep : forall lvl, lvl ∈ deeper (level_ c0) -> by_start ucmp h (at_level (files_ v) lvl)).
Abbreviation base := (is_base ucmp h v (level_ c0)).
Abbreviation cutoff := (manual_garbage_cutoff_ d0).
Record at_key (l : loop) (todo : list entry) : Prop := {
  ak_compaction : exists ptrs, compaction (l_cs l) = set_level_ptrs c0 ptrs;
  ak_pointed : forall e, e ∈ todo -> pointed ucmp h v (compaction (l_cs l)) (euser e);
  ak_snapshot : smallest_snapshot (l_cs l) = snapshot;
  ak_cutoff : manual_garbage_cutoff_ (l_db l) = cutoff;
  ak_key : forall k, l_current_key l = Some k -> bytes_ok (user_key k) /\
    forall e, e ∈ todo -> Compare ucmp (user_key k) (euser e) <= 0;
}.
Lemma at_key_moved l l' todo : moved l l' -> at_key l todo -> at_key l' todo.
Proof. intros [M1 M2 M3 M4 M5] [A1 A2 A3 A4 A5]. split; by rewrite ?M1, ?M3, ?M4, ?M5. Qed.

Lemma CrossesBoundary_total c a b hint : bytes_ok (user_key a) -> bytes_ok (user_key b) -> Compare ucmp (user_key a) (user_key b) <= 0 ->
  exists crosses hint', CrossesBoundary ucmp c a b hint = Some (crosses, hint').
Proof.
  intros Ha Hb Hle. unfold CrossesBoundary. destruct (boundaries_ c) as [|b0 bs]; [by eexists _, _|].
  pose proof (kn_mono _ _ Ha Hb Hle) as Hm. generalize (drop hint (b0 :: bs)). clear b0 bs. intros bs. revert hint.
  induction bs as [|x bs IH]; intros hint; cbn [CrossesBoundary_loop]; [by eexists _, _|].
  assert ((KeyNum ucmp (user_key a) <? KeyNum ucmp (user_key b)) ||
    ((KeyNum ucmp (user_key a) =? KeyNum ucmp (user_key b)) && (Compare ucmp (user_key a) (user_key b) <=? 0)) = true) as ->.
  { destruct (Z.ltb_spec (KeyNum ucmp (user_key a)) (KeyNum ucmp (user_key b))); [done|].
    rewrite (proj2 (Z.eqb_eq _ _)) by lia. rewrite (proj2 (Z.leb_le _ _)) by done. done. }
  cbn [negb]. destruct (_ && _); [by eexists _, _|]. destruct (negb _); [by eexists _, _|]. apply IH.
Qed.

(** The outputs are in order, or a call failed. *)
Definition fine (l : loop) (todo X : list entry) : Prop := settled l todo X \/ failing l.
Lemma fine_ext l l' todo X : same_run l l' -> l_guards l' = l_guards l -> fine l todo X -> fine l' todo X.
Proof.
  intros Hs Hg [(outs & parts & cur & passed & H1 & H2 & H3 & H4)|Hf]; [left|right; by eapply failing_ext].
  exists outs, parts, cur, passed. split; [by eapply healthy_ext|]. split; [by eapply cuts_same|]. split; [done|].
  by rewrite (sr_builder _ _ Hs).
Qed.
Lemma finish_fine it l todo X : fine l todo X -> builder (l_cs l) <> None -> status it = OK ->
  steps (finish_output opt it l) (fun l' => kept l l' /\ fine l' todo X /\ builder (l_cs l') = None).
Proof.
  intros [(outs & parts & cur & passed & Hh & Hcu & HX & Hne)|Hf] Hb Hit.
  - destruct (finish_output_ok it l outs parts cur Hh Hb) as (s & l1 & -> & Hk & Hb1 & Hok & Hbad); [naive_solver|done|].
    exists s, l1. split; [done|]. split; [|done]. intros Os. destruct (Hok Os) as [o' Hh']. split; [done|]. split; [|done]. left.
    exists (outs ++ [o']), (parts ++ [cur]), [], passed. split; [done|].
    split; [by apply (cuts_finish l); [apply Hk|]|]. split; [by rewrite concat_snoc, <- app_assoc|done].
  - destruct (finish_output_fails it l Hf Hit) as (s & l' & -> & Os). apply steps_fail; [apply Hf|done].
Qed.
Lemma close_at_boundary_ok it l e todo X ikey : at_key l (e :: todo) -> fine l (e :: todo) X -> status it = OK ->
  user_key ikey = euser e -> bytes_ok (euser e) ->
  steps (close_at_boundary ucmp opt it l ikey) (fun l' => moved l l' /\ fine l' (e :: todo) X).
Proof.
  intros Ha Hf Hit Hu Hb. unfold close_at_boundary.
  destruct (l_current_key l) as [k|] eqn:Ek; [|by apply steps_ret]. destruct (builder (l_cs l)) as [r|] eqn:Er; [|by apply steps_ret].
  destruct (_ <=? _); [|by apply steps_ret]. destruct (ak_key _ _ Ha k Ek) as [Hkb Hle].
  destruct (CrossesBoundary_total (compaction (l_cs l)) k ikey (l_hint l)) as (crosses & hint & ->);
    [done|by rewrite Hu|rewrite Hu; apply Hle; by left|]. cbn [mbind option_bind].
  set (l1 := set_current_key l _ _ _). assert (fine l1 (e :: todo) X) as Hf1 by by eapply fine_ext; [..|exact Hf].
  assert (moved l l1) as M1 by by split. destruct crosses; [|by apply steps_ret].
  eapply steps_impl; [|apply finish_fine; [exact Hf1|cbn; by rewrite Er|done]]. cbn beta. intros l2 (K2 & F2 & _). split; [|done].
  eapply moved_trans; [exact M1|by apply kept_moved].
Qed.
(** The loop is about to judge the entry [e]. *)
Record at_entry (l : loop) (e : entry) (todo X : list entry) (last : Z) : Prop := {
  ae_key : at_key l (e :: todo);
  ae_fine : fine l (e :: todo) X;
  ae_current : user_key <$> l_current_key l = Some (euser e);
  ae_last : l_last_sequence l = last;
}.
Lemma new_user_key_ok it l e todo X ikey : at_key l (e :: todo) -> fine l (e :: todo) X -> status it = OK ->
  user_key ikey = euser e -> comes e todo ->
  steps (new_user_key ucmp opt it l ikey) (fun l' => at_entry l' e todo X kMaxSequenceNumber).
Proof.
  intros Ha Hf Hit Hu Hco. unfold new_user_key.
  destruct (close_at_boundary_ok it l e todo X ikey) as (s & l1 & -> & Hok & Hbad); [done..|apply Hco|].
  cbn [mbind option_bind]. destruct (ok s) eqn:Os; cbn [negb].
  2: { exists s, l1. split; [done|]. split; [intros; congruence|intros _; by apply Hbad]. }
  destruct (Hok eq_refl) as [M1 F1]. apply steps_ret. split; [|by eapply fine_ext; [..|exact F1]|cbn; by rewrite Hu|done].
  pose proof (at_key_moved _ _ _ M1 Ha) as [A1 A2 A3 A4 A5]. split; [done..|]. cbn. intros k [= <-]. rewrite Hu.
  split; [apply Hco|]. intros e' [->|He']%elem_of_cons; [|by apply Hco]. rewrite (@cmp_refl ucmp bytes_ok Hc); [done|apply Hco].
Qed.

Lemma at_key_ptrs l ptrs k seq e todo : comes e todo -> at_key l (e :: todo) -> k = l_current_key l ->
  pointed ucmp h v (set_level_ptrs (compaction (l_cs l)) ptrs) (euser e) ->
  at_key (set_current_key (set_run l (l_db l) (set_compaction (l_cs l) (set_level_ptrs (compaction (l_cs l)) ptrs)) (l_col l)) k seq (l_hint l))
    (e :: todo).
Proof.
  intros Hco [[p Ep] A2 A3 A4 A5] -> Hp. split; cbn; [exists ptrs; by rewrite Ep| |done..].
  intros e' [->|He']%elem_of_cons; [done|]. destruct (co_later _ _ Hco e' He') as [Hb Hle].
  eapply pointed_mono; [done|apply Hco|done|done| |done]. cbn [level_ set_level_ptrs]. by rewrite Ep.
Qed.
Lemma drop_entry_ok l e todo last ikey : at_key l (e :: todo) -> comes e todo ->
  user_key ikey = euser e -> type ikey = etype e -> sequence ikey = entry_seq e ->
  exists ptrs, drop_entry ucmp h v (compaction (l_cs l)) (smallest_snapshot (l_cs l)) (manual_garbage_cutoff_ (l_db l)) last ikey =
    (dropped base snapshot cutoff last e, set_level_ptrs (compaction (l_cs l)) ptrs) /\
    pointed ucmp h v (set_level_ptrs (compaction (l_cs l)) ptrs) (euser e).
Proof.
  intros Ha Hco Eu Et Es. unfold drop_entry, dropped. rewrite Eu, Et, Es, (ak_snapshot _ _ Ha), (ak_cutoff _ _ Ha).
  destruct (ak_compaction _ _ Ha) as [p Ep]. pose proof (ak_pointed _ _ Ha e ltac:(by left)) as Hp.
  assert (set_level_ptrs (compaction (l_cs l)) (level_ptrs_ (compaction (l_cs l))) = compaction (l_cs l)) as Esame
    by (by destruct (compaction (l_cs l))).
  destruct (last <=? snapshot) eqn:E1; cbn [orb].
  { eexists. rewrite Esame. split; [|done]. by destruct (_ && (_ <=? entry_seq e)). }
  destruct ((_ =? _) && (_ <=? snapshot)) eqn:E2; cbn [andb].
  2: { eexists. by rewrite Esame. }
  destruct (IsBaseLevelForKey_spec ucmp Hc h v (compaction (l_cs l)) (euser e)) as (ptrs & -> & Hp');
    [by rewrite Ep|rewrite Ep; exact Hdeep|apply Hco|done|].
  exists ptrs. split; [|done]. rewrite Ep. cbn [level_ set_level_ptrs].
  by destruct (base (euser e)), (_ =? kMaxSequenceNumber), (_ <=? entry_seq e).
Qed.
Lemma judge_key_ok it l e todo X : at_key l (e :: todo) -> fine l (e :: todo) X -> stands it e -> comes e todo -> point_entry e ->
  exists s drop l', judge_key ucmp opt h v it l = Some (s, drop, l') /\ (ok s = false -> ~ rel) /\
    (ok s = true -> drop = dropped base snapshot cutoff
       (last_for ucmp (user_key <$> l_current_key l) (l_last_sequence l) (euser e)) e /\ at_entry l' e todo X (entry_seq e)).
Proof.
  intros Ha Hf Hst Hco [[Hk _] Hpt]. unfold judge_key. rewrite (st_key _ _ Hst). unfold ikey at 1.
  rewrite ParseInternalKey_encode by apply Hk. rewrite (proj2 (Z.leb_le _ _)) by apply Hpt.
  set (last := last_for _ _ _ _).
  assert (steps (if match l_current_key l with
      | Some cur => negb (Compare ucmp (euser e) (user_key cur) =? 0) | None => true end
    then new_user_key ucmp opt it l (fst (to_ientry e)) else Some (OK, l)) (fun l' => at_entry l' e todo X last)) as Hn.
  { assert (last = kMaxSequenceNumber -> steps (new_user_key ucmp opt it l (fst (to_ientry e))) (fun l' => at_entry l' e todo X last)) as Hnew.
    { intros ->. by apply new_user_key_ok; [..|apply Hst| |]. }
    unfold last_for in last. destruct (l_current_key l) as [k|] eqn:Ek; cbn [fmap option_fmap option_map] in last; [|by apply Hnew].
    destruct (Compare ucmp (euser e) (user_key k) =? 0) eqn:E0; [|by apply Hnew]. cbn [negb]. apply steps_ret.
    split; [done..| |done]. rewrite Ek. cbn. f_equal. apply Z.eqb_eq in E0. symmetry. apply Hid; [apply Hco|by apply (ak_key _ _ Ha)|done]. }
  destruct Hn as (s & l1 & -> & Hok & Hbad). cbn [mbind option_bind]. destruct (ok s) eqn:Os; cbn [negb].
  2: { exists s, false, l1. split; [done|]. split; [intros _; by apply Hbad|intros; congruence]. }
  destruct (Hok eq_refl) as [A1 F1 C1 L1].
  assert (sequence (fst (to_ientry e)) = entry_seq e) as Eseq by by destruct e as [[[? ?] ?] ?].
  destruct (drop_entry_ok l1 e todo (l_last_sequence l1) (fst (to_ientry e))) as (ptrs & -> & Hp); [done..|].
  eexists OK, _, _. split; [done|]. split; [done|]. intros _. split; [by rewrite L1|].
  rewrite Eseq. split; [exact (at_key_ptrs l1 ptrs _ _ e todo Hco A1 eq_refl Hp)|by eapply fine_ext; [..|exact F1]|done|done].
Qed.
(** Between two rounds. *)
Record round_ok (l : loop) (todo : list entry) : Prop := {
  be_key : at_key l todo;
  be_fine : fine l todo (survivors ucmp base snapshot cutoff (user_key <$> l_current_key l) (l_last_sequence l) todo);
}.
Lemma fine_less l e todo X : fine l (e :: todo) X -> fine l todo X.
Proof.
  intros [(outs & parts & cur & passed & H1 & H2 & H3 & H4)|Hf]; [left|by right].
  exists outs, parts, cur, passed. split; [done|]. split; [by eapply cuts_less|done].
Qed.
Lemma at_key_less l e todo : at_key l (e :: todo) -> at_key l todo.
Proof.
  intros [A1 A2 A3 A4 A5]. split; [done| |done|done|].
  - intros e' He'. apply A2. by right.
  - intros k Ek. destruct (A5 k Ek) as [Hb Hle]. split; [done|]. intros e' He'. apply Hle. by right.
Qed.
Lemma work_step_ok it l e todo : round_ok l (e :: todo) -> stands it e -> comes e todo -> point_entry e ->
  steps (work_step ucmp opt dbname h v it l) (fun l' => round_ok l' todo).
Proof.
  intros [Ha Hf] Hst Hco Hpe. unfold work_step.
  destruct (judge_key_ok it l e todo _ Ha Hf Hst Hco Hpe) as (s & drop & l1 & -> & Hbad & Hok). cbn [mbind option_bind].
  destruct (ok s) eqn:Os; cbn [negb orb].
  2: { exists s, l1. split; [done|]. split; [intros; congruence|intros _; by apply Hbad]. }
  destruct (Hok eq_refl) as [-> [A1 F1 C1 L1]]. cbn [survivors] in F1.
  assert (forall l2, moved l1 l2 -> fine l2 todo (survivors ucmp base snapshot cutoff (Some (euser e)) (entry_seq e) todo) -> round_ok l2 todo) as Hend.
  { intros l2 M2 F2. split; [eapply at_key_moved; [exact M2|by eapply at_key_less]|]. by rewrite (m_key _ _ M2), (m_last _ _ M2), C1, L1. }
  destruct (dropped _ _ _ _ _).
  - exists s, l1. split; [done|]. split; [|intros; congruence]. intros _. apply Hend; [by split|by eapply fine_less].
  - destruct F1 as [F1|F1].
    + eapply steps_impl; [|by eapply keep_entry_ok; [apply settled_written|..]]. cbn beta. intros l2 [M2 F2]. by apply Hend.
    + eapply steps_impl; [|apply keep_entry_failing; [done|apply Hst]]. cbn beta. intros l2 [M2 F2]. apply Hend; [done|by right].
Qed.

(** *** The whole loop *)

Abbreviation icmp := (InternalKeyComparator ucmp).
Abbreviation standing := (standing ucmp (internal_valid bytes_ok) es0).

Lemma in_order_comes past e todo : in_order ucmp (past ++ e :: todo) -> comes e todo /\ point_entry e.
Proof.
  intros [H1 H2]. apply StronglySorted_app_1_r in H1. apply Forall_app in H2 as [_ H2].
  destruct (in_order_cons ucmp e todo) as (_ & He & Hle); [by split|]. split; [|done]. split; [by apply point_user|].
  intros e' He'. destruct (Hle e' He') as [Hp [Hlt|[-> _]]]; (split; [by apply point_user|]); [lia|].
  rewrite (@cmp_refl ucmp bytes_ok Hc); [done|by apply point_user].
Qed.

(** A shutdown is final. *)
Context (shutdown : nat -> bool) (Hshut : forall n m, (n <= m)%nat -> shutdown n = true -> shutdown m = true).
Definition shut : Prop := exists n, shutdown n = true.
Lemma work_loop_ok todo : forall fuel n past it l, es0 = past ++ todo -> standing past todo it -> round_ok l todo ->
  (length todo < fuel)%nat -> exists s m it' l',
  work_loop ucmp opt dbname fuel shutdown n h v it l = Some (s, m, it', l') /\ status it' = OK /\
  (ok s = false -> ~ rel) /\ (ok s = true -> shutdown m = false -> fine l' [] []).
Proof.
  induction todo as [|e todo IH]; intros fuel n past it l Ees Hst Hb Hfu; (destruct fuel as [|fuel]; [cbn in Hfu; lia|]);
    cbn [work_loop]; destruct (standing_valid _ _ _ Hst) as [-> Hit].
  - exists OK, n, it, l. cbn. split; [done|]. split; [done|]. split; [done|]. intros _ _. apply Hb.
  - rewrite bool_decide_eq_true_2 by done. cbn [negb]. destruct (shutdown n) eqn:Esh.
    + exists OK, (S n), it, l. split; [done|]. split; [done|]. split; [done|]. intros _. by rewrite (Hshut n) by (done || lia).
    + pose proof (standing_stands _ _ _ _ Ees Hst) as Hs. pose proof Hord as Ho. rewrite Ees in Ho. apply in_order_comes in Ho as [Hco Hpe].
      destruct (work_step_ok it l e todo Hb Hs Hco Hpe) as (s & l1 & -> & Hok & Hbad). cbn [mbind option_bind].
      destruct (ok s) eqn:Os; cbn [negb].
      * apply (IH fuel (S n) (past ++ [e])); [by rewrite <- app_assoc|by apply standing_next|by apply Hok|cbn in Hfu; lia].
      * exists s, (S n), it, l1. split; [done|]. split; [done|]. split; [intros _; by apply Hbad|intros; congruence].
Qed.

(** The outputs hold the survivors. *)
Record finished (l : loop) (parts : list (list entry)) : Prop := {
  fi_outputs : Forall2 (output_ok (env_ (l_db l))) (outputs (l_cs l)) parts;
  fi_entries : concat parts = SV;
  fi_numbers : number <$> outputs (l_cs l) = seqZ next0 (blen (outputs (l_cs l)));
  fi_next : next_file_number_ (versions_ (l_db l)) = next0 + blen (outputs (l_cs l));
  fi_pending : pending_outputs_ (l_db l) = list_to_set (number <$> outputs (l_cs l)) ∪ pending_outputs_ d0;
  fi_guards : forall g part, g ∈ guards -> part ∈ parts -> cut_at g part;
  fi_frame : forall f, (forall o, o ∈ outputs (l_cs l) -> f <> table_name (number o)) ->
    files (env_ (l_db l)) !! f = files (env_ d0) !! f;
  fi_filters : file_numbers (l_col l) = number <$> outputs (l_cs l) /\
    file_level_filters (l_col l) = filters_of (filter_policy opt) parts;
}.
Lemma fine_finished l : fine l [] [] -> builder (l_cs l) = None -> exists parts, finished l parts.
Proof.
  intros [(outs & parts & cur & passed & [H1 H2 H3 H4 H5 H6 H7 H8 H9 H10] & [C1 C2 C3 C4] & HX & _)|Hf] Hb.
  - rewrite Hb in H1. destruct H1 as (E1 & _ & ->). exists parts. rewrite E1 in *. split; rewrite ?E1; try done.
    + by rewrite !app_nil_r in HX.
    + intros g part Hg Hp. rewrite C1 in Hg. apply elem_of_app in Hg as [Hg|Hg]; [by apply C4|]. left. apply Forall_forall.
      intros e He. apply C3; [done|]. rewrite app_nil_r. apply elem_of_concat. by exists part.
    + by rewrite H8.
  - destruct (fa_builder _ Hf) as (r & _ & _ & Eb & _). congruence.
Qed.
Lemma merge_inputs_ok fuel it p l : round_ok l es0 -> at_pos icmp (internal_valid bytes_ok) (kvs es0) it p ->
  (length es0 < fuel)%nat -> exists s l',
  merge_inputs ucmp opt dbname fuel shutdown h v it l = Some (s, l') /\
  (ok s = true -> exists parts, finished l' parts) /\ (ok s = false -> ~ rel \/ shut).
Proof.
  intros Hb Hp Hfu. unfold merge_inputs.
  destruct (work_loop_ok es0 fuel 0%nat [] (SeekToFirst it) l) as (s & m & it' & l1 & -> & Hit & Hbad & Hok); [done|by eapply standing_first|done..|].
  cbn [mbind option_bind]. destruct (ok s) eqn:Os; cbn [andb].
  2: { rewrite Os. cbn [andb mbind option_bind]. rewrite Os. exists s, l1. split; [done|]. split; [congruence|]. left. by apply Hbad. }
  destruct (shutdown m) eqn:Esh.
  { cbn [ok andb mbind option_bind IOError]. eexists _, l1. split; [done|]. split; [done|]. right. by exists m. }
  rewrite Os. cbn [andb]. pose proof (Hok eq_refl eq_refl) as Hf. destruct (builder (l_cs l1)) as [r|] eqn:Er.
  - destruct (finish_fine it' l1 [] [] Hf) as (s' & l2 & Efi & Hok' & Hbad'); [by rewrite Er|done|].
    rewrite Efi. cbn [mbind option_bind]. destruct (ok s') eqn:Os'.
    + rewrite Hit. eexists OK, l2. split; [done|]. split; [|done]. intros _. destruct (Hok' eq_refl) as (_ & F2 & B2).
      by apply fine_finished.
    + eexists s', l2. split; [done|]. split; [congruence|]. intros _. left. by apply Hbad'.
  - cbn [mbind option_bind]. rewrite Os, Hit. eexists OK, l1. split; [done|]. split; [|done]. intros _. by apply fine_finished.
Qed.
End Run.
