(* ===== verification/CompactionSafety.v ===== *)
(** * Compactions and readers

    The merge of a compaction ends and, unless the environment fails or the database shuts
    down, leaves tables from which every reader at a snapshot in use gets what it got
    before; and a run of the whole background compaction in which a deleted key comes
    back. *)

From stdpp Require Import gmap sorting.
From S2P Require Import Prelude Coding Status Crc32c Comparator DbFormat Bloom Iterator Block BlockProofs.
From S2P Require Import FilterBlock TableFormat TwoLevelIterator FileName Table TableProofs TableReader TableSpec Merger.
From S2P Require Import VersionEdit MemTable TableGet.
From S2P Require Import Version VersionBuilder VersionProofs VersionRefines VersionSet VersionGet VersionSetSafety.
From S2P Require Import Compaction DbImpl CompactionDrop TableEnv CompactionRun.
From stdpp Require Import list.
#[local] Open Scope Z_scope.

#[local] Arguments db_options : simpl never.
Section Preserve.
Context (ucmp : Comparator) (Hc : ComparatorOk ucmp bytes_ok) (Hid : cmp_identity ucmp) (Hkn : KeyNumOk ucmp bytes_ok).
Context `{HS : Snappy} {HSok : SnappyOk} {C : Type} `{HC : BlockCache C} {HCok : BlockCacheOk C}.
Context (addr block_size restart_interval compression : Z) (policy : option FilterPolicy).
Abbreviation opt := (db_options ucmp addr block_size restart_interval compression policy).
Context (Hopt : options_ok opt) (Hname : forall p, filter_policy opt = Some p -> name_ok p).
Context (dbname : bytes) {E T : Type} `{HE : Env E} `{HD : DirEnv E} `{HT : TableOpens T E}.
Context (files : E -> gmap (list Z) (list Z)) {HEok : EnvOk E files} {HDok : DirEnvOk E files}.
Context {I : Type} `{HI : Iterator I}.
Abbreviation part_table := (part_table ucmp addr block_size restart_interval compression policy).

(** The inputs of a compaction: its entries [es], as the merged inputs give them, the tables
    that can be made of them and the guards of the level it writes to. *)
Record inputs_ok (es : list entry) (guards : list GuardMetaData) : Prop := {
  in_entries : in_order ucmp es;
  in_values : Forall (fun e => bytes_ok (snd (to_ientry e))) es;
  in_size : table_size (kvs es) < 2 ^ 32;
  in_filters : forall part r, sublist part es ->
    TableBuilder.add_entries (TableBuilder.new opt []) (kvs part) = Some r -> filter_bytes r + 5 < 2 ^ 32;
  in_guards : StronglySorted (fun g g' => Compare ucmp (guard_user_key g) (guard_user_key g') <= 0) guards;
  in_guard_keys : Forall (fun g => bytes_ok (guard_user_key g)) guards;
}.
(** A compaction that was just picked: the levels below its output list their files by
    smallest keys. *)
Record picked (h : Files) (v : Version) (c : Compaction) : Prop := {
  pk_level : 0 <= level_ c;
  pk_ptrs : level_ptrs_ c = replicate (Z.to_nat kNumLevels) 0%nat;
  pk_deep : forall lvl, lvl ∈ deeper (level_ c) -> by_start ucmp h (at_level (files_ v) lvl);
}.
(** The file is a table of the entries: opened with any cache, it scans to them. *)
Definition scans (part : list entry) (f : bytes) : Prop :=
  forall (cache : option C) verify fill fuel, fresh_for cache -> (length part < fuel)%nat -> exists t cache',
    Table.Open opt cache f (blen f) = (OK, Some t, cache') /\
    let ops := TwoLevelIterator_ops (Table.read_block_entry t verify fill) fuel in
    @collect _ ops (length part) (@SeekToFirst _ ops (Table.NewIterator t cache')) = kvs part.
Lemma part_scans es guards part f : inputs_ok es guards -> sublist part es -> part_table part f -> scans part f.
Proof.
  intros [H1 H2 H3 H4 _ _] Hs (r & r' & Hr & HF & <- & Hsz) cache verify fill fuel Hfresh Hfuel.
  pose proof (InternalKeyComparator_ok ucmp bytes_ok (fun k H => H)) as Hic.
  pose proof (InternalKey_ShortKeys ucmp bytes_ok) as Hsk.
  pose proof (part_entries ucmp Hc es H1 H2 H3 part Hs) as He.
  destruct (build_and_open (Hc := Hic) (Hshort := Hsk) opt Hopt (internal_valid bytes_ok) (kvs part) He Hname) as (r1 & Hr1 & Hrest).
  assert (r1 = r) as -> by congruence. destruct (Hrest (H4 part r Hs Hr)) as (r2 & bs & footer & HF2 & Hsz2 & _ & Htf & Hfl).
  assert (r2 = r') as -> by congruence.
  destruct (open_fresh (Hc := Hic) (Hshort := Hsk) opt Hopt (internal_valid bytes_ok) (fun x Hx => proj1 Hx) (kvs part) He Hname _ bs footer cache Htf Hfl Hfresh)
    as (t & cache' & HO & Ht & Hco).
  exists t, cache'. split; [done|]. cbv zeta.
  pose proof (table_iterator (Hc := Hic) (Hshort := Hsk) opt Hopt (internal_valid bytes_ok) (fun x Hx => proj1 Hx) _ bs (kvs part) footer Htf He t verify fill cache' fuel
    Ht Hco ltac:(by rewrite kvs_length)) as Hat. rewrite <- (kvs_length part). exact (@collect_all _ _ _ _ _ _ _ _ None Hat).
Qed.

(** The output is a table of the entries, with their range. *)
Record table_of (e : E) (o : Output) (part : list entry) : Prop := {
  to_smallest : smallest o = first_ikey part;
  to_largest : largest o = last_ikey part;
  to_file : exists f, files e !! TableFileName dbname (number o) = Some f /\ file_size o = blen f /\ scans part f;
}.
(** The outputs of the run, made from the entries [es] when the database was [d]. *)
Record rewritten (d : DB E T) (es : list entry) (guards : list GuardMetaData) (l : @Loop E T) (parts : list (list entry)) : Prop := {
  rw_tables : Forall2 (table_of (env_ (l_db l))) (outputs (l_cs l)) parts;
  rw_some : Forall (fun part => part <> []) parts;
  rw_sub : sublist (concat parts) es;
  rw_numbers : number <$> outputs (l_cs l) = seqZ (next_file_number_ (versions_ d)) (blen (outputs (l_cs l)));
  rw_pending : pending_outputs_ (l_db l) = list_to_set (number <$> outputs (l_cs l)) ∪ pending_outputs_ d;
  rw_guards : forall g part, g ∈ guards -> part ∈ parts -> cut_at ucmp g part;
  rw_frame : forall f, (forall o, o ∈ outputs (l_cs l) -> f <> TableFileName dbname (number o)) ->
    files (env_ (l_db l)) !! f = files (env_ d) !! f;
}.
(** A reader of [es] among [others] at a snapshot from [snapshot] on finds the same in [kept]. *)
Definition same_reads (base : bytes -> bool) (snapshot : Z) (es kept : list entry) : Prop :=
  forall others ukey s, snapshot <= s -> bytes_ok ukey -> Forall point_entry others -> deletions_last base es others ->
    seen (newest ucmp ukey s (kept ++ others)) = seen (newest ucmp ukey s (es ++ others)).
Abbreviation filters0 := (FileLevelFilterBuilder.new (filter_policy opt)).

Lemma start_round es guards h v (d : DB E T) (cs : CompactionState E) : inputs_ok es guards -> picked h v (compaction cs) ->
  outputs cs = [] -> builder cs = None -> outfile cs = None ->
  let snapshot := oldest_snapshot d in
  round_ok ucmp addr block_size restart_interval compression policy dbname files es d guards
    (survivors ucmp (is_base ucmp h v (level_ (compaction cs))) snapshot (manual_garbage_cutoff_ d) None kMaxSequenceNumber es)
    h v (compaction cs) snapshot (work_start d (set_smallest_snapshot cs snapshot) guards filters0) es.
Proof.
  intros Hin [H1 H2 H3] Eo Eb Ef snapshot. split.
  - split; [|intros e _; by apply pointed_start|done..]. exists (level_ptrs_ (compaction cs)). cbn. by destruct (compaction cs).
  - left. exists [], [], [], []. split; [|split; [|split; [done|intros _; exact Eb]]].
    + split; cbn [work_start l_cs l_db l_col outputs builder outfile set_smallest_snapshot].
      * by rewrite Eb.
      * constructor.
      * apply sublist_nil_l.
      * by rewrite Eo.
      * rewrite Eo. apply blen_nonneg.
      * rewrite Eo. change (blen (@nil Output)) with 0. lia.
      * exists (env_ d), (next_file_number_ (versions_ d)), (table_cache_ d). by destruct d as [? [] ? ? ? ? ? ? ? ? ? ?].
      * f_equal. cbn. unfold filters_of. by destruct policy.
      * done.
      * rewrite Eo. cbn. by rewrite (left_id_L ∅ (∪)).
    + split; cbn [work_start l_guards]; [done| |intros ? ? _ Hx; by apply elem_of_nil in Hx|intros ? ? _ Hx; by apply elem_of_nil in Hx].
      intros ? ? Hx _; by apply elem_of_nil in Hx.
Qed.

Lemma Forall2_and_sublist {A B} (R : A -> list B -> Prop) l parts es : sublist (concat parts) es -> Forall2 R l parts ->
  Forall2 (fun o part => R o part /\ sublist part es) l parts.
Proof.
  intros Hs H. revert Hs. induction H as [|o part l parts Ho _ IH]; cbn; intros Hs; constructor.
  - split; [done|]. etrans; [|exact Hs]. by apply sublist_inserts_r.
  - apply IH. etrans; [|exact Hs]. by apply sublist_inserts_l.
Qed.

(** C5: Compaction keeps what readers see: for inputs in order, the merge of
    [DoCompactionWorkGuards] ends.  When it ends with status OK its outputs have
    new numbers, each is a table, with the range recorded for it, that opens and scans to a
    part of the inputs, no output crosses a guard, other files are as they were, and every
    read at a snapshot not older than the oldest in use finds in the outputs together with
    any other entries what it found in the inputs with them, provided no other entry
    is older than a deletion that has no file of its range two or more levels down.  The
    status is an error only when the environment failed a call or the database shut down. *)
Theorem compaction_preserves_reads (es : list entry) (guards : list GuardMetaData) (h : Files) (v : Version) (d : DB E T)
  (cs : CompactionState E) (shutdown : nat -> bool) (fuel : nat) (it : I) (p : option nat)
  (Hin : inputs_ok es guards) (Hpick : picked h v (compaction cs))
  (Houts : outputs cs = []) (Hb : builder cs = None) (Hf : outfile cs = None)
  (Hnext : 0 < next_file_number_ (versions_ d)) (Hroom : next_file_number_ (versions_ d) + blen es < 2 ^ 64)
  (Hopens : reliable (E := E) -> opens_tables ucmp addr block_size restart_interval compression policy dbname files es)
  (Hsnap : oldest_snapshot d < kMaxSequenceNumber)
  (Hshut : forall n m, (n <= m)%nat -> shutdown n = true -> shutdown m = true)
  (Hit : at_pos (InternalKeyComparator ucmp) (internal_valid bytes_ok) (kvs es) it p) (Hfuel : (length es < fuel)%nat) :
  exists s l, merge_inputs ucmp opt dbname fuel shutdown h v it
      (work_start d (set_smallest_snapshot cs (oldest_snapshot d)) guards filters0) = Some (s, l) /\
    (ok s = true -> exists parts, rewritten d es guards l parts /\
       same_reads (is_base ucmp h v (level_ (compaction cs))) (oldest_snapshot d) es (concat parts)) /\
    (ok s = false -> ~ reliable (E := E) \/ shut shutdown).
Proof.
  pose proof (start_round es guards h v d cs Hin Hpick Houts Hb Hf) as Hbe. destruct Hpick as [H1 H2 H3].
  pose proof Hin as [I1 I2 I3 I4 I5 I6].
  destruct (merge_inputs_ok ucmp Hc Hid Hkn addr block_size restart_interval compression policy Hopt Hname dbname files es I1 I2 I3 I4
    d Hnext Hroom Hopens guards I5 I6 _ (survivors_sub _ _ _ _ _ _ _) h v (compaction cs) (oldest_snapshot d) H1 H3 shutdown Hshut fuel it p _ Hbe Hit Hfuel)
    as (s & l & -> & Hok & Hbad).
  exists s, l. split; [done|]. split; [|done]. intros Os. destruct (Hok Os) as [parts [F1 F2 F3 F4 F5 F6 F7 F8]].
  exists parts. split.
  - assert (sublist (concat parts) es) as Hsub by (rewrite F2; apply survivors_sub). split; [|..|done|done|done|done].
    + eapply Forall2_impl; [apply (Forall2_and_sublist _ _ _ _ Hsub F1)|]. intros o part [[_ O2 O3 (f & O4 & O5 & O6)] Hp].
      split; [done..|]. exists f. split; [done|]. split; [done|]. by eapply part_scans.
    + eapply Forall2_Forall_r; [exact F1|]. apply Forall_forall. intros o _ part [? _ _ _]. done.
    + done.
  - intros others ukey sn Hsn Hu Hp Hl. rewrite F2. by apply survivors_seen.
Qed.
End Preserve.

(** ** Runs in memory *)

#[export] Instance mem_DirEnv : DirEnv (nat * gmap (list Z) (list Z)) := {
  FlushNamed e f := mem_call e (snd e);
  GetChildren e dir := omap (fun f => if bool_decide (take (length dir + 1) f = dir ++ str "/")
                                      then Some (drop (length dir + 1) f) else None) (elements (dom (snd e)));
}.
#[export] Instance mem_DirEnvOk : DirEnvOk (nat * gmap (list Z) (list Z)) snd.
Proof. split; intros [[|n] m]; done. Qed.

Section Example.
Abbreviation MemEnv := (nat * gmap (list Z) (list Z))%type.
Abbreviation dbname := (str "/db").
Abbreviation bloom := (BloomPolicy (mkBloomFilterPolicy 10)).
Abbreviation mem_options := (db_options BytewiseComparator 0 4096 16 kNoCompression (Some bloom)).
#[local] Existing Instance no_snappy.
#[local] Existing Instance no_snappy_ok.
#[local] Existing Instance sorted_heap.
(** A table cache that opens tables from the file system. *)
#[local] Instance MapTables_opens : TableOpens MapTables MemEnv := {
  table_status t e n size :=
    (match snd e !! TableFileName dbname n with
     | Some f => fst (fst (Table.Open (C := MapCache) mem_options None f size))
     | None => NotFound []
     end, t);
  Evict t n := delete n t; }.
#[local] Instance list_ops : Iterator ListIter := ListIter_ops (InternalKeyComparator BytewiseComparator).
(** The entries of files of a level, in order. *)
Definition kv_before (a b : bytes * bytes) : bool := Compare (InternalKeyComparator BytewiseComparator) (fst a) (fst b) <? 0.
Definition mem_level (d : DB MemEnv MapTables) (level : Z) (guards : list GuardMetaData) (sentinels fs : list Z) : ListIter :=
  let table a := default [] (table_cache_ d !! f_number (deref (st_files (vs_store (versions_ d))) a)) in
  {| li_entries := std_sort kv_before (concat (table <$> fs)); li_at := None |}.
Definition mem_db (w : @World MemEnv) (last straight_reads : Z) (tables : MapTables) : DB MemEnv MapTables :=
  {| env_ := w_env w; versions_ := SetLastSequence (MarkFileNumberUsed (w_vs w) 20) last; table_cache_ := tables;
     pending_outputs_ := ∅; snapshots_ := []; manual_garbage_cutoff_ := kMaxSequenceNumber;
     levels_locked_ := replicate (Z.to_nat kNumLevels) false; bg_error_ := OK; manual_compaction_ := None;
     straight_reads_ := straight_reads; backup_in_progress_ := false; backup_deferred_delete_ := false |}.

(** *** A merge *)

(** Of the two values of [a] the newer stays; the deletion of [b] goes; level 2 has a
    file around [c], so its deletion stays.  The guard [c] cuts the outputs. *)
Definition merge_entries : list entry :=
  [(9, kTypeValue, [97], [1]); (4, kTypeValue, [97], [2]); (5, kTypeDeletion, [98], []);
   (6, kTypeDeletion, [99], []); (7, kTypeValue, [100], [3])].
Definition merge_files : Files := {[ 1 := example_file 12 [99] [99] ]}.
Definition merge_version : Version :=
  {| v_refs := 1; files_ := [[]; []; [1]; []; []; []; []]; guards_ := no_levels; complete_guards_ := no_levels;
     sentinel_files_ := [[]; []; [1]; []; []; []; []]; sentinel_file_nos_ := no_levels;
     num_complete_guards_ := [0; 0; 0; 0; 0; 0; 0]; file_to_compact_ := 0; file_to_compact_level_ := -1; num_files_read := 0 |}.
Definition merge_guards : list GuardMetaData := [example_guard [99] 2 []].
Definition merge_state : CompactionState MemEnv := CompactionState_new (Compaction_new 0 1 false [[]; []] [[]; []] [[]; []]).
Definition merge_db : DB MemEnv MapTables := mem_db (example_world 100) 10 0 ∅.
Definition merge_run : option (Status * Loop) :=
  merge_inputs BytewiseComparator mem_options dbname 6 (fun _ => false) merge_files merge_version
    {| li_entries := kvs merge_entries; li_at := None |}
    (work_start merge_db (set_smallest_snapshot merge_state 10) merge_guards (FileLevelFilterBuilder.new (filter_policy mem_options))).

Fixpoint sublists {A} (l : list A) : list (list A) :=
  match l with [] => [[]] | x :: l => sublists l ++ (cons x <$> sublists l) end.
Lemma sublists_spec {A} (l l' : list A) : sublist l l' -> l ∈ sublists l'.
Proof.
  induction 1 as [|x l l' _ IH|x l l' _ IH]; cbn [sublists]; [by left| |].
  - apply elem_of_app. right. by apply list_elem_of_fmap_2.
  - apply elem_of_app. by left.
Qed.
Definition small_filter (part : list entry) : bool :=
  match TableBuilder.add_entries (TableBuilder.new mem_options []) (kvs part) with
  | Some r => filter_bytes r + 5 <? 2 ^ 32
  | None => true
  end.
Lemma merge_inputs_fit : inputs_ok BytewiseComparator 0 4096 16 kNoCompression (Some bloom) merge_entries merge_guards.
Proof.
  split.
  - split.
    + repeat first [apply SSorted_nil | apply SSorted_cons | apply Forall_nil_2 | apply Forall_cons_2];
        first [left; vm_compute; reflexivity | right; vm_compute; auto].
    + repeat constructor; vm_compute; done.
  - repeat constructor; done.
  - by vm_compute.
  - intros part r Hp%sublists_spec Hr. assert (forallb small_filter (sublists merge_entries) = true) as H by (vm_compute; reflexivity).
    rewrite forallb_forall in H. specialize (H part ltac:(by apply list_elem_of_In)). unfold small_filter in H. rewrite Hr in H.
    by apply Z.ltb_lt.
  - repeat constructor.
  - repeat constructor; done.
Qed.
Lemma merge_picked : picked BytewiseComparator merge_files merge_version (compaction merge_state).
Proof.
  split; [done|reflexivity|]. intros lvl Hl. change (deeper _) with [2; 3; 4; 5; 6] in Hl.
  rewrite !elem_of_cons, elem_of_nil in Hl. destruct Hl as [->|[->|[->|[->|[->|[]]]]]]; split; repeat constructor; done.
Qed.
Lemma merge_opens : opens_tables BytewiseComparator 0 4096 16 kNoCompression (Some bloom) dbname (snd (A := nat)) merge_entries.
Proof.
  intros t e n part f Hs Hp Hf. cbn [table_status MapTables_opens fst]. rewrite Hf.
  destruct (part_scans (C := MapCache) BytewiseComparator _ 0 4096 16 kNoCompression (Some bloom) ltac:(split; [done|by left])
    ltac:(intros p [= <-]; split; [repeat constructor; done|by vm_compute]) _ _ part f merge_inputs_fit Hs Hp None true true
    (S (length part))) as (tb & cache & -> & _); [done|lia|done].
Qed.
Lemma compaction_preserves_reads_witness : exists l parts, merge_run = Some (OK, l) /\
  rewritten (C := MapCache) BytewiseComparator 0 4096 16 kNoCompression (Some bloom) dbname snd merge_db merge_entries merge_guards l parts /\
  length parts = 2%nat /\
  seen (newest BytewiseComparator [97] 10 (concat parts ++ [])) = Some [1] /\
  seen (newest BytewiseComparator [98] 10 (concat parts ++ [(8, kTypeValue, [98], [7])])) = Some [7].
Proof.
  destruct (ListIter_at (InternalKeyComparator BytewiseComparator) (internal_valid bytes_ok) (kvs merge_entries)) as [p Hp].
  destruct (compaction_preserves_reads (C := MapCache) BytewiseComparator _ Bytewise_identity _ 0 4096 16 kNoCompression (Some bloom)
    ltac:(split; [done|by left]) ltac:(intros q [= <-]; split; [repeat constructor; done|by vm_compute]) dbname (snd (A := nat))
    merge_entries merge_guards merge_files merge_version merge_db merge_state (fun _ => false) 6
    {| li_entries := kvs merge_entries; li_at := None |} p merge_inputs_fit merge_picked eq_refl eq_refl eq_refl)
    as (s & l & Hrun & Hok & _); [by vm_compute|by vm_compute|intros _; exact merge_opens|by vm_compute|done|exact Hp|cbn; lia|].
  assert (merge_run = Some (s, l)) as Hm by exact Hrun.
  assert ((fun r => (fst r, length (outputs (l_cs (snd r))))) <$> merge_run = Some (OK, 2%nat)) as Ho by (vm_compute; reflexivity).
  rewrite Hm in Ho. injection Ho as -> Hl. destruct (Hok eq_refl) as (parts & Hrw & Hsame). exists l, parts.
  split; [exact Hm|]. split; [exact Hrw|]. split; [rewrite <- Hl; symmetry; exact (Forall2_length _ _ _ (rw_tables _ _ _ _ _ _ _ _ _ _ _ _ _ Hrw))|].
  change (oldest_snapshot merge_db) with 10 in Hsame. split.
  - rewrite Hsame; [vm_compute; reflexivity|done|repeat constructor; done|constructor|]. intros e e' _ H. destruct (not_elem_of_nil _ H).
  - rewrite Hsame; [vm_compute; reflexivity|done|repeat constructor; done|repeat constructor; vm_compute; done|].
    intros e e' He ->%list_elem_of_singleton. unfold merge_entries in He. rewrite !elem_of_cons, elem_of_nil in He.
    destruct He as [->|[->|[->|[->|[->|[]]]]]]; vm_compute; congruence.
Defined.

(** *** A deleted key comes back *)

(** The level 5 holds a deletion of [k], level 6 an older value of it. *)
Definition old_value : list entry := [(3, kTypeValue, [107], str "old")].
Definition deletion : list entry := [(5, kTypeDeletion, [107], [])].
Definition deleted_edit : VersionEdit :=
  AddFile (AddFile VersionEdit_new 5 20 100 (first_ikey deletion) (last_ikey deletion)) 6 10 100 (first_ikey old_value) (last_ikey old_value).
Definition deleted_world : @World MemEnv :=
  default (example_world 0) (vruns BytewiseComparator (str "leveldb.BytewiseComparator") dbname [] (example_world 100)
    [OBegin deleted_edit; OWrite; OFinish [] []]).
Definition deleted_db : DB MemEnv MapTables := mem_db deleted_world 8 11 (list_to_map [(20, kvs deletion); (10, kvs old_value)]).
(** [Version::Get] of the current version. *)
Definition read_current (d : DB MemEnv MapTables) (ukey : bytes) (s : Z) : option (Status * bytes) :=
  o ← vs_objects (versions_ d) !! current_ (versions_ d);
  '(st, r) ← Get BytewiseComparator (Some (InternalFilterPolicy bloom)) (st_files (vs_store (versions_ d))) true true
     (vo_version o) (table_cache_ d) ∅ (mkLookupKey ukey s) [];
  Some (st, rd_value r).

(** C27: A compaction can bring a deleted key back: [IsBaseLevelForKey] only looks for the
    key from two levels below the inputs on, but a compaction need not read the level it
    writes to.  In a database whose level 5 holds a deletion of a key that has an older
    value in level 6, a background compaction that runs to its end without any error
    drops the deletion and installs no output, and a read at the same
    snapshot, which answered NotFound before, then finds the old value. *)
Theorem compaction_resurrects_deleted : exists d fb,
  BackgroundCompactionGuards BytewiseComparator mem_options (str "leveldb.BytewiseComparator") dbname
    (replicate (Z.to_nat kNumLevels) (SpecFloat.S754_zero false)) mem_level 2 (fun _ => false) deleted_db
    (FileLevelFilterBuilder.new (filter_policy mem_options)) = Some (OK, d, fb, None) /\
  bg_error_ d = OK /\
  read_current deleted_db [107] 8 = Some (NotFound [], []) /\ read_current d [107] 8 = Some (OK, str "old").
Proof.
  match goal with |- exists d fb, ?r = _ /\ _ => assert ((fun '(s, d, fb, m) => (s, m, bg_error_ d, read_current d [107] 8)) <$> r =
    Some (OK, None, OK, Some (OK, str "old"))) as Hr by (vm_compute; reflexivity); destruct r as [[[[s d] fb] m]|]; [|discriminate] end.
  cbn [fmap option_fmap option_map] in Hr. injection Hr as -> -> Hbg Hread. exists d, fb.
  split; [reflexivity|]. split; [exact Hbg|]. split; [vm_compute; reflexivity|exact Hread].
Qed.
End Example.
