(* ===== verification/ObsoleteFiles.v ===== *)
(** * Collecting files that are no longer in use

    [DBImpl::DeleteObsoleteFiles] removes exactly the files that no version, no running
    compaction and no recovery needs. *)

From stdpp Require Import gmap.
From S2P Require Import Prelude Coding Status Comparator DbFormat Bloom VersionEdit FileName MemTable TableGet Table.
From S2P Require Import Version VersionBuilder VersionProofs VersionRefines VersionSet VersionGet VersionSetSafety.
From S2P Require Import Compaction DbImpl TableEnv CompactionSafety.
From stdpp Require Import list.
#[local] Open Scope Z_scope.

Section Collect.
Context (dbname : bytes) {E T : Type} `{HE : Env E} `{HD : DirEnv E} `{HT : TableOpens T E}.
Context (files : E -> gmap (list Z) (list Z)) {HEok : EnvOk E files}.
Abbreviation path name := (dbname ++ str "/" ++ name).

(** A table that some version lists. *)
Definition listed (vs : VersionSet) (n : Z) : Prop := exists p o a, p ∈ dummy_versions_ vs /\
  vs_objects vs !! p = Some o /\ a ∈ all_files (vo_version o) /\ n = f_number (deref (st_files (vs_store vs)) a).
(** What no reader, writer or recovery of the database needs. *)
Definition obsolete (d : DB E T) (n : Z) (type : FileType) : Prop :=
  match type with
  | kLogFile => n < log_number_ (versions_ d) /\ n <> prev_log_number_ (versions_ d)
  | kDescriptorFile => n < manifest_file_number_ (versions_ d)
  | kTableFile | kTempFile => n ∉ pending_outputs_ d /\ ~ listed (versions_ d) n
  | _ => False
  end.

(** Collecting leaves the numbers and the versions alone. *)
Definition same_numbers (vs vs' : VersionSet) : Prop :=
  log_number_ vs' = log_number_ vs /\ prev_log_number_ vs' = prev_log_number_ vs /\
  manifest_file_number_ vs' = manifest_file_number_ vs.
Lemma keep_file_same vs vs' live n type : same_numbers vs vs' -> keep_file vs' live n type = keep_file vs live n type.
Proof. intros (H1 & H2 & H3). unfold keep_file. by rewrite H1, H2, H3. Qed.
Definition visit (live : gset Z) (d : DB E T) (name : bytes) : DB E T :=
  match ParseFileName name with
  | Some (n, type) => if keep_file (versions_ d) live n type then d else delete_file_named dbname d name n type
  | None => d
  end.
Definition goes (vs : VersionSet) (live : gset Z) (name : bytes) : bool :=
  match ParseFileName name with Some (n, type) => negb (keep_file vs live n type) | None => false end.
Lemma visit_spec live d name : same_numbers (versions_ d) (versions_ (visit live d name)) /\
  env_ (visit live d name) = (if goes (versions_ d) live name then snd (RemoveFile (env_ d) (path name)) else env_ d).
Proof.
  unfold visit, goes. destruct (ParseFileName name) as [[n type]|]; [|done]. destruct (keep_file _ _ _ _); [done|].
  cbn [negb]. unfold delete_file_named. by destruct type.
Qed.
Lemma goes_same vs vs' live name : same_numbers vs vs' -> goes vs' live name = goes vs live name.
Proof. intros H. unfold goes. destruct (ParseFileName name) as [[n type]|]; [|done]. by rewrite (keep_file_same vs vs'). Qed.
Lemma sweep_frame live names : forall d f, (forall name, name ∈ names -> goes (versions_ d) live name = true -> f <> path name) ->
  files (env_ (fold_left (visit live) names d)) !! f = files (env_ d) !! f.
Proof.
  induction names as [|name names IH]; intros d f Hf; cbn [fold_left]; [done|]. destruct (visit_spec live d name) as [Hs He].
  rewrite IH.
  - rewrite He. destruct (goes (versions_ d) live name) eqn:Eg; [|done]. apply frame_remove. apply Hf; [by left|done].
  - intros name' Hn. rewrite (goes_same _ _ _ _ Hs). apply Hf. by right.
Qed.
(** Removing a file succeeds, and the file is gone. *)
Definition removes : Prop := forall e f, ok (fst (RemoveFile e f)) = true /\ files (snd (RemoveFile e f)) !! f = None.
Lemma sweep_removes live names name : removes -> forall d, name ∈ names -> goes (versions_ d) live name = true ->
  files (env_ (fold_left (visit live) names d)) !! path name = None.
Proof.
  intros Hr. induction names as [|name' names IH]; intros d Hin Hg; [by apply elem_of_nil in Hin|]. cbn [fold_left].
  destruct (visit_spec live d name') as [Hs He].
  destruct (decide (name ∈ names)) as [Hl|Hl]; [apply IH; [done|]; by rewrite (goes_same _ _ _ _ Hs)|].
  apply elem_of_cons in Hin as [<-|Hin]; [|done]. rewrite sweep_frame.
  - rewrite He, Hg. apply Hr.
  - intros name'' Hn _ Heq. apply app_inv_head, app_inv_head in Heq. by subst.
Qed.
Lemma goes_obsolete d live name : (forall n, n ∈ live <-> n ∈ pending_outputs_ d \/ listed (versions_ d) n) ->
  goes (versions_ d) live name = true <-> exists n type, ParseFileName name = Some (n, type) /\ obsolete d n type.
Proof.
  intros Hl. unfold goes. destruct (ParseFileName name) as [[n type]|]; [|split; [done|by intros (? & ? & ? & _)]].
  assert (negb (keep_file (versions_ d) live n type) = true <-> obsolete d n type) as ->.
  { rewrite negb_true_iff. destruct type; cbn [keep_file obsolete]; try done.
    all: rewrite ?orb_false_iff, ?Z.leb_gt, ?Z.eqb_neq, ?bool_decide_eq_false, ?Hl; tauto. }
  split; [intros H; by exists n, type|]. by intros (? & ? & [= <- <-] & H).
Qed.
(** C30: Collecting files is safe and complete: as long as the versions in the list are
    allocated, [DeleteObsoleteFiles] ends; a file whose contents it changes has a name that
    was listed in the directory and parses to an obsolete number: a table or temporary
    file that no version lists and no compaction is writing, a log before the current one
    other than the previous one, a manifest before the current one, and none at all while
    a backup runs or after a background error.  Otherwise, if removing files does not fail,
    every listed obsolete file is gone. *)
Theorem obsolete_files_deleted (d : DB E T)
  (Hobj : forall p, p ∈ dummy_versions_ (versions_ d) -> is_Some (vs_objects (versions_ d) !! p)) :
  exists d', DeleteObsoleteFiles dbname d = Some d' /\
  (forall f, files (env_ d') !! f <> files (env_ d) !! f ->
     backup_in_progress_ d = false /\ ok (bg_error_ d) = true /\ exists name n type, f = path name /\
     name ∈ GetChildren (env_ d) dbname /\ ParseFileName name = Some (n, type) /\ obsolete d n type) /\
  (backup_in_progress_ d = false -> ok (bg_error_ d) = true -> removes -> forall name n type,
     name ∈ GetChildren (env_ d) dbname -> ParseFileName name = Some (n, type) -> obsolete d n type ->
     files (env_ d') !! path name = None).
Proof.
  unfold DeleteObsoleteFiles. destruct (backup_in_progress_ d); [by eexists|]. destruct (ok (bg_error_ d)); [cbn [negb]|by eexists].
  destruct (AddLiveFiles_spec (versions_ d) (dummy_versions_ (versions_ d)) (pending_outputs_ d) Hobj) as (live & El & Hlive).
  replace (set_objects _ _ _ _) with (versions_ d) in El by by destruct (versions_ d). rewrite El. cbn [mbind option_bind].
  pose proof (goes_obsolete d live) as Hgo. specialize (fun name => Hgo name Hlive).
  eexists. split; [done|]. fold (visit live). split.
  - intros f Hf. split; [done|]. split; [done|].
    destruct (decide (Exists (fun name => goes (versions_ d) live name = true /\ f = path name) (GetChildren (env_ d) dbname))) as [He|He].
    + apply Exists_exists in He as (name & Hin & Hg & ->). apply Hgo in Hg as (n & type & H1 & H2). by exists name, n, type.
    + exfalso. apply Hf, sweep_frame. intros name Hin Hg ->. apply He, Exists_exists. by exists name.
  - intros _ _ Hr name n type Hin Hp Ho. apply sweep_removes; [done|done|]. apply Hgo. by exists n, type.
Qed.
End Collect.

(** ** An example *)

(** A file system whose calls do not fail. *)
#[export] Instance disk_Env : Env (gmap (list Z) (list Z)) := {
  NewWritableFile e f := (OK, <[f := []]> e);
  AppendToFile e f data := (OK, alter (fun old => old ++ data) f e);
  SyncFile e f := (OK, e);
  CloseFile e f := (OK, e);
  RemoveFile e f := (OK, delete f e);
  RenameFile e a b := (OK, match e !! a with Some v => <[b := v]> (delete a e) | None => e end);
}.
#[export] Instance disk_EnvOk : EnvOk (gmap (list Z) (list Z)) id.
Proof.
  split; intros e; unfold id; cbn; try done.
  - intros f data old _ Hf. apply map_eq. intros i. destruct (decide (f = i)) as [->|Hi].
    + by rewrite lookup_alter_eq, Hf, lookup_insert_eq.
    + by rewrite lookup_alter_ne, lookup_insert_ne.
  - intros a b v _ Ha. by rewrite Ha.
  - intros f g Hg. by rewrite lookup_insert_ne.
  - intros f d g Hg. by rewrite lookup_alter_ne.
  - intros f g Hg. by rewrite lookup_delete_ne.
Qed.
#[export] Instance disk_DirEnv : DirEnv (gmap (list Z) (list Z)) := {
  FlushNamed e f := (OK, e);
  GetChildren e dir := omap (fun f => if bool_decide (take (length dir + 1) f = dir ++ str "/")
                                      then Some (drop (length dir + 1) f) else None) (elements (dom e));
}.

Section Example.
Abbreviation Disk := (gmap (list Z) (list Z)).
#[local] Instance MapTables_disk : TableOpens MapTables Disk := {
  table_status t e n size := (if bool_decide (is_Some (t !! n)) then OK else NotFound [], t);
  Evict t n := delete n t; }.
(** Of the tables 15, 16 and 20 the version lists 20, and 16 is being written. *)
Definition collect_db : DB Disk MapTables :=
  let d := deleted_db in
  {| env_ := list_to_map ((fun f => (str "/db/" ++ f, [])) <$> [str "000015.sst"; str "000016.sst"; str "000020.sst"; str "CURRENT"; str "notes"]);
     versions_ := versions_ d; table_cache_ := table_cache_ d; pending_outputs_ := {[ 16 ]}; snapshots_ := [];
     manual_garbage_cutoff_ := kMaxSequenceNumber; levels_locked_ := levels_locked_ d; bg_error_ := OK; manual_compaction_ := None;
     straight_reads_ := 0; backup_in_progress_ := false; backup_deferred_delete_ := false |}.
Lemma collect_listed n : listed (versions_ collect_db) n <-> n = 20 \/ n = 10.
Proof.
  assert (dummy_versions_ (versions_ collect_db) = [2]) as Hl by (vm_compute; reflexivity).
  assert ((fun o => (fun a => f_number (deref (st_files (vs_store (versions_ collect_db))) a)) <$> all_files (vo_version o)) <$>
    vs_objects (versions_ collect_db) !! 2 = Some [20; 10]) as (o & Eo & Hf)%fmap_Some by (vm_compute; reflexivity).
  unfold listed. rewrite Hl. split.
  - intros (p & o' & a & ->%list_elem_of_singleton & Eo' & Ha & ->). rewrite Eo in Eo'. injection Eo' as <-.
    apply (list_elem_of_fmap_2 (fun a => f_number (deref (st_files (vs_store (versions_ collect_db))) a))) in Ha.
    rewrite <- Hf in Ha. rewrite !elem_of_cons, elem_of_nil in Ha. tauto.
  - intros Hn. assert (n ∈ [20; 10]) as Hin by (rewrite !elem_of_cons; tauto). rewrite Hf in Hin.
    apply list_elem_of_fmap in Hin as (a & -> & Ha). exists 2, o, a. rewrite elem_of_cons. tauto.
Qed.
Lemma obsolete_files_deleted_witness : exists d', DeleteObsoleteFiles (str "/db") collect_db = Some d' /\
  env_ d' !! str "/db/000015.sst" = None /\ env_ d' !! str "/db/000020.sst" = Some [] /\ env_ d' !! str "/db/000016.sst" = Some [].
Proof.
  destruct (obsolete_files_deleted (str "/db") id collect_db) as (d' & Ed & Hsafe & Hgone).
  - intros p. change (dummy_versions_ (versions_ collect_db)) with [2]. intros ->%list_elem_of_singleton. vm_compute. by eexists.
  - exists d'. split; [exact Ed|].
    assert (forall name n, ParseFileName name = Some (n, kTableFile) -> n = 20 \/ n = 16 -> env_ collect_db !! (str "/db/" ++ name) = Some [] ->
      env_ d' !! (str "/db/" ++ name) = Some []) as Hkeep.
    { intros name n Hp Hn <-. destruct (decide (env_ d' !! (str "/db/" ++ name) = env_ collect_db !! (str "/db/" ++ name))) as [He|He]; [exact He|exfalso].
      destruct (Hsafe _ He) as (_ & _ & name' & n' & type & Heq & _ & Hp' & Ho). assert (name = name') as <- by exact (app_inv_head (str "/db/") _ _ Heq).
      rewrite Hp in Hp'. injection Hp' as <- <-. destruct Ho as [H1 H2]. destruct Hn as [->| ->].
      - apply H2, collect_listed. by left.
      - apply H1. change (pending_outputs_ collect_db) with ({[ 16 ]} : gset Z). clear. set_solver. }
    split; [|split].
    + apply (Hgone eq_refl eq_refl) with (name := str "000015.sst") (n := 15) (type := kTableFile).
      * intros e f. split; [reflexivity|]. apply lookup_delete_eq.
      * apply (bool_decide_unpack _). vm_compute. exact I.
      * vm_compute. reflexivity.
      * split; [|rewrite collect_listed; clear; lia]. change (pending_outputs_ collect_db) with ({[ 16 ]} : gset Z). clear. set_solver.
    + apply (Hkeep (str "000020.sst") 20); [vm_compute; reflexivity|by left|vm_compute; reflexivity].
    + apply (Hkeep (str "000016.sst") 16); [vm_compute; reflexivity|by right|vm_compute; reflexivity].
Defined.
End Example.
