(* ===== verification/Builder.v ===== *)
(** * Writing memtables to tables

    Models [src/pebblesdb/src/db/builder.cc]: [BuildLevel0Tables] writes the entries of an
    iterator to one table for each range between guards, [BuildTable] writes them to one
    table.

    While a table is being written, the environment is the one its builder holds.  A failed
    [assert] and the use of a key that was not parsed are the outcome [None]. *)

From stdpp Require Import gmap.
From S2P Require Import Prelude Coding Status Comparator DbFormat Bloom Iterator VersionEdit FileName.
From S2P Require Import FilterBlock TableFormat Table MemTable TableGet Version VersionBuilder VersionSet DbImpl.
From stdpp Require Import list.
#[local] Open Scope Z_scope.

Section Meta.
Implicit Type m : FileMetaData.
Definition meta_start m (number : Z) (smallest : bytes) : FileMetaData :=
  {| f_refs := f_refs m; f_allowed_seeks := f_allowed_seeks m; f_number := number; f_file_size := f_file_size m;
     f_smallest := smallest; f_largest := f_largest m; f_guard := f_guard m |}.
Definition meta_largest m (largest : bytes) : FileMetaData :=
  {| f_refs := f_refs m; f_allowed_seeks := f_allowed_seeks m; f_number := f_number m; f_file_size := f_file_size m;
     f_smallest := f_smallest m; f_largest := largest; f_guard := f_guard m |}.
Definition meta_size m (size : Z) : FileMetaData :=
  {| f_refs := f_refs m; f_allowed_seeks := f_allowed_seeks m; f_number := f_number m; f_file_size := size;
     f_smallest := f_smallest m; f_largest := f_largest m; f_guard := f_guard m |}.
End Meta.

Section Build.
Context (ucmp : Comparator) (opt : Options) (dbname : bytes).
Context {E T : Type} `{HE : Env E} `{HD : DirEnv E} `{HT : TableOpens T E} `{HS : Snappy}.
Context {I : Type} `{HI : Iterator I}.
Abbreviation db := (DB E T).
Abbreviation filter_builder := FileLevelFilterBuilder.FileLevelFilterBuilder.

(** Finish and check for file errors.  The status is a parameter passed by value. *)
Definition FinishFileCompletion (d : db) (s : Status) (meta : FileMetaData) (fname : bytes) : db :=
  let '(s, env) := if ok s then SyncFile (env_ d) fname else (s, env_ d) in
  let '(s, env) := if ok s then CloseFile env fname else (s, env) in
  let d := set_env d env in
  let '(s, d) := if ok s then
      let '(s, t) := table_status (table_cache_ d) (env_ d) (f_number meta) (f_file_size meta) in (s, set_table_cache d t)
    else (s, d) in
  if ok s && (0 <? f_file_size meta) then d else set_env d (snd (RemoveFile (env_ d) fname)).

Definition AddFilterString (fb : filter_builder) (filter_list : list (option bytes)) : filter_builder * list (option bytes) :=
  match filter_policy opt with
  | Some _ =>
      let '(fb, filter_string) := FileLevelFilterBuilder.GenerateFilter fb in
      (FileLevelFilterBuilder.Clear fb, filter_list ++ [filter_string])
  | None => (fb, filter_list)
  end.

(** The variables of [BuildLevel0Tables]; [bl_builder] is there while [count] is not 0. *)
Record Build := {
  bl_db : db;
  bl_fb : filter_builder;
  bl_filters : list (option bytes);
  bl_metas : list FileMetaData;
  bl_meta : FileMetaData;
  bl_builder : option (TableBuilder.Rep E);
  bl_count : Z;
  bl_index : nat;
}.
Definition set_table_open (b : Build) (d : db) (meta : FileMetaData) (r : TableBuilder.Rep E) (index : nat) : Build :=
  {| bl_db := d; bl_fb := bl_fb b; bl_filters := bl_filters b; bl_metas := bl_metas b; bl_meta := meta;
     bl_builder := Some r; bl_count := bl_count b; bl_index := index |}.
Definition set_table_added (b : Build) (fb : filter_builder) (meta : FileMetaData) (r : TableBuilder.Rep E) : Build :=
  {| bl_db := bl_db b; bl_fb := fb; bl_filters := bl_filters b; bl_metas := bl_metas b; bl_meta := meta;
     bl_builder := Some r; bl_count := bl_count b + 1; bl_index := bl_index b |}.
Definition set_table_closed (b : Build) (d : db) (meta : FileMetaData) (metas : list FileMetaData) (fb : filter_builder)
    (filters : list (option bytes)) : Build :=
  {| bl_db := d; bl_fb := fb; bl_filters := filters; bl_metas := metas; bl_meta := meta;
     bl_builder := None; bl_count := 0; bl_index := bl_index b |}.

(** The number of the next table: a reserved one, or a new one when they are used up. *)
Definition next_number (reserved : list Z) (d : db) (index : nat) : Z * db * nat :=
  match reserved !! index with
  | Some n => (n, d, S index)
  | None => let '(n, vs) := NewFileNumber (versions_ d) in
            (n, set_pending_outputs (set_versions d vs) ({[ n ]} ∪ pending_outputs_ d), index)
  end.
Definition start_table (reserved : list Z) (it : I) (b : Build) : Status * Build :=
  let '(n, d, index) := next_number reserved (bl_db b) (bl_index b) in
  let '(s, env) := NewWritableFile (env_ d) (TableFileName dbname n) in
  (s, set_table_open b (set_env d env) (meta_start (bl_meta b) n (key it)) (TableBuilder.new opt env) index).
Definition put_entry (it : I) (b : Build) : option Build :=
  r ← bl_builder b;
  let _ := named_writable (TableFileName dbname (f_number (bl_meta b))) in
  r ← TableBuilder.Add r (key it) (value it);
  Some (set_table_added b (FileLevelFilterBuilder.AddKey (bl_fb b) (key it)) (meta_largest (bl_meta b) (key it)) r).
(** An error of opening the table ends the whole function: the outcome has [true]. *)
Definition emit (reserved : list Z) (it : I) (s : Status) (b : Build) : option (bool * Status * Build) :=
  let '(s, b) := if bl_count b =? 0 then start_table reserved it b else (s, b) in
  if (bl_count b =? 0) && negb (ok s) then Some (true, s, b)
  else b ← put_entry it b; Some (false, s, b).
Definition finish_table (b : Build) : option (Status * Build) :=
  r ← bl_builder b;
  let fname := TableFileName dbname (f_number (bl_meta b)) in
  let _ := named_writable fname in
  '(s, r) ← TableBuilder.Finish r;
  let d := set_env (bl_db b) (TableBuilder.file r) in
  if ok s then
    let meta := meta_size (bl_meta b) (TableBuilder.FileSize r) in
    if 0 <? f_file_size meta then
      let '(fb, filters) := AddFilterString (bl_fb b) (bl_filters b) in
      Some (s, set_table_closed b (FinishFileCompletion d s meta fname) meta (bl_metas b ++ [meta]) fb filters)
    else None
  else Some (s, set_table_closed b (FinishFileCompletion d s (bl_meta b) fname) (bl_meta b) (bl_metas b) (bl_fb b) (bl_filters b)).
Definition finish_open (s : Status) (b : Build) : option (Status * Build) :=
  if 0 <? bl_count b then finish_table b else Some (s, b).

(** The entries before a guard; the last table has no guard. *)
Fixpoint fill (fuel : nat) (reserved : list Z) (guard : option GuardMetaData) (it : I) (s : Status) (b : Build)
    : option (bool * Status * I * Build) :=
  match fuel with
  | O => None
  | S fuel =>
      if negb (Valid it) then Some (false, s, it, b)
      else
        here ← (match guard with
                | Some g => if blen (key it) <? 8 then None
                            else Some (Compare ucmp (ExtractUserKey (key it)) (guard_user_key g) <? 0)
                | None => Some true
                end);
        if (here : bool) then
          '(returned, s, b) ← emit reserved it s b;
          if (returned : bool) then Some (true, s, it, b) else fill fuel reserved guard (Next it) s b
        else '(s, b) ← finish_open s b; Some (false, s, it, b)
  end.
Fixpoint fill_guards (fuel : nat) (reserved : list Z) (guards : list GuardMetaData) (it : I) (s : Status) (b : Build)
    : option (bool * Status * I * Build) :=
  match guards with
  | [] => Some (false, s, it, b)
  | g :: guards =>
      '(returned, s, it, b) ← fill fuel reserved (Some g) it s b;
      if (returned : bool) then Some (true, s, it, b) else fill_guards fuel reserved guards it s b
  end.
Definition BuildLevel0Tables (fuel : nat) (d : db) (it : I) (complete_guards_ : list GuardMetaData) (reserved : list Z)
    (fb : filter_builder) (filter_list : list (option bytes)) : option (Status * Build) :=
  let b := {| bl_db := d; bl_fb := fb; bl_filters := filter_list; bl_metas := []; bl_meta := FileMetaData_new;
              bl_builder := None; bl_count := 0; bl_index := 0%nat |} in
  let it := SeekToFirst it in
  if negb (Valid it) then Some (if ok (status it) then OK else status it, b)
  else
    '(returned, s, it, b) ← fill_guards fuel reserved complete_guards_ it OK b;
    if (returned : bool) then Some (s, b)
    else
      '(s, b) ← finish_open s b;
      '(returned, s, it, b) ← fill fuel reserved None it s b;
      if (returned : bool) then Some (s, b)
      else
        '(s, b) ← finish_open s b;
        Some (if ok (status it) then s else status it, b).

(** ** BuildTable *)

Fixpoint add_loop `{WritableFile E} (fuel : nat) (it : I) (meta : FileMetaData) (r : TableBuilder.Rep E)
    : option (I * FileMetaData * TableBuilder.Rep E) :=
  match fuel with
  | O => None
  | S fuel =>
      if negb (Valid it) then Some (it, meta, r)
      else
        r ← TableBuilder.Add r (key it) (value it);
        add_loop fuel (Next it) (meta_largest meta (key it)) r
  end.
Definition BuildTable (fuel : nat) (d : db) (it : I) (meta : FileMetaData) : option (Status * db * FileMetaData) :=
  let meta := meta_size meta 0 in
  let it := SeekToFirst it in
  let fname := TableFileName dbname (f_number meta) in
  let close it s d meta :=
    let s := if ok (status it) then s else status it in
    (s, if ok s && (0 <? f_file_size meta) then d else set_env d (snd (RemoveFile (env_ d) fname)), meta) in
  if negb (Valid it) then Some (close it OK d meta)
  else
    let '(s, env) := NewWritableFile (env_ d) fname in
    if negb (ok s) then Some (s, set_env d env, meta)
    else
      let _ := named_writable fname in
      '(it, meta, r) ← add_loop fuel it (meta_start meta (f_number meta) (key it)) (TableBuilder.new opt env);
      '(s, r) ← TableBuilder.Finish r;
      let meta := if ok s then meta_size meta (TableBuilder.FileSize r) else meta in
      if ok s && (f_file_size meta <=? 0) then None
      else
        let env := TableBuilder.file r in
        let '(s, env) := if ok s then SyncFile env fname else (s, env) in
        let '(s, env) := if ok s then CloseFile env fname else (s, env) in
        let d := set_env d env in
        let '(s, d) := if ok s then
            let '(s, t) := table_status (table_cache_ d) (env_ d) (f_number meta) (f_file_size meta) in (s, set_table_cache d t)
          else (s, d) in
        Some (close it s d meta).
End Build.
