(* ===== verification/MemCompact.v ===== *)
(** * Memtable compaction

    Models [WriteLevel0TableGuards] and the round of [CompactMemTableThread] of
    [src/pebblesdb/src/db/db_impl.cc]: the immutable memtable becomes tables of level 0, and
    the log it came from is no longer needed. *)

From Stdlib Require Import SpecFloat.
From stdpp Require Import gmap.
From S2P Require Import Prelude Coding Status Comparator DbFormat Bloom Iterator VersionEdit FileName.
From S2P Require Import FilterBlock TableFormat Table MemTable TableGet.
From S2P Require Import Version VersionBuilder VersionSet Compaction DbImpl Builder.
From stdpp Require Import list.
#[local] Open Scope Z_scope.

Section MemCompact.
Context (ucmp : Comparator) (opt : Options) (cmp_name dbname : bytes) (garbage : list spec_float).
Context {E T F : Type} `{HE : Env E} `{HD : DirEnv E} `{HT : TableOpens T E} `{HM : ManifestEnv E F} `{HS : Snappy}.
Abbreviation db := (DB E T).
Abbreviation filter_builder := FileLevelFilterBuilder.FileLevelFilterBuilder.
#[local] Existing Instance MemTableIterator_ops.

(** A number for every range between guards. *)
Fixpoint reserve_numbers (n : nat) (d : db) : list Z * db :=
  match n with
  | O => ([], d)
  | S n => let '(number, vs) := NewFileNumber (versions_ d) in
           let '(numbers, d) := reserve_numbers n (set_pending_outputs (set_versions d vs) ({[ number ]} ∪ pending_outputs_ d)) in
           (number :: numbers, d)
  end.
Definition add_level0_file (s : Status) (p : VersionEdit * list Z) (meta : FileMetaData) : VersionEdit * list Z :=
  if ok s && (0 <? f_file_size meta)
  then (AddFile (fst p) 0 (f_number meta) (f_file_size meta) (f_smallest meta) (f_largest meta), snd p ++ [f_number meta]) else p.
Definition WriteLevel0TableGuards (fuel : nat) (d : db) (mem : MemTable) (edit : VersionEdit) (base : option Version) (numbers : list Z)
    (fb : filter_builder) (filters : list (option bytes))
    : option (Status * db * VersionEdit * list Z * filter_builder * list (option bytes)) :=
  let guards := match base with Some v => at_level (guards_ v) 0 | None => [] end in
  let '(reserved, d) := reserve_numbers (S (length guards)) d in
  '(s, b) ← BuildLevel0Tables (HI := MemTableIterator_ops ucmp) ucmp opt dbname fuel d (NewIterator mem) guards reserved fb filters;
  let '(edit, numbers) := fold_left (add_level0_file s) (bl_metas b) (edit, numbers) in
  Some (s, bl_db b, edit, numbers ++ drop (length (bl_metas b)) reserved, bl_fb b, bl_filters b).

(** The variables of the thread; [imm_] is the memtable to write out. *)
Record MemThread := {
  mt_db : db;
  imm_ : option MemTable;
  logfile_number_ : Z;
  mt_fb : filter_builder;
  first_memtable_compaction : bool;
}.
Definition install_memtable (shutdown : bool) (s : Status) (d : db) (edit : VersionEdit) (logfile : Z) (numbers : list Z)
    (filters : list (option bytes)) : option (Status * db) :=
  let s := if ok s && shutdown then IOError (str "Deleting DB during memtable compaction") [] else s in
  if ok s then
    let edit := SetLogNumber (SetPrevLogNumber edit 0) logfile in
    '(env, s, vs) ← LogAndApply ucmp cmp_name dbname garbage (env_ d) (versions_ d) edit numbers filters;
    Some (s, set_versions (set_env d env) vs)
  else Some (s, d).
(** One round with a memtable to write; [shutdown] is [shutting_down_] after the tables were
    written. *)
Definition CompactMemTable_round (fuel : nat) (shutdown : bool) (m : MemThread) : option (Status * MemThread) :=
  imm ← imm_ m;
  let d := mt_db m in
  let base := current_ (versions_ d) in
  vs ← Version_Ref (versions_ d) base;
  o ← vs_objects vs !! base;
  '(s, d, edit, numbers, fb, filters) ←
    WriteLevel0TableGuards fuel (set_versions d vs) imm VersionEdit_new (Some (vo_version o)) [] (mt_fb m) [];
  let edit := if first_memtable_compaction m then AddCompleteGuardsToEdit (vo_version o) edit else edit in
  vs ← Version_Unref (versions_ d) base;
  '(s, d) ← install_memtable shutdown s (set_versions d vs) edit (logfile_number_ m) numbers filters;
  let d := set_pending_outputs d (pending_outputs_ d ∖ list_to_set numbers) in
  if ok s then
    d ← DeleteObsoleteFiles dbname d;
    Some (s, {| mt_db := d; imm_ := None; logfile_number_ := logfile_number_ m; mt_fb := fb; first_memtable_compaction := false |})
  else
    Some (s, {| mt_db := RecordBackgroundError d s; imm_ := imm_ m; logfile_number_ := logfile_number_ m; mt_fb := fb;
                first_memtable_compaction := false |}).
End MemCompact.
