(* ===== verification/BuilderProofs.v ===== *)
(** * Flushed tables hold the memtable

    [BuildLevel0Tables] on an environment whose calls do not fail: the entries are split at
    the guards, and each part that is not empty is in a table of its own. *)

From stdpp Require Import gmap sorting.
From S2P Require Import Prelude Coding Status Crc32c Comparator DbFormat Bloom Iterator Block BlockProofs.
From S2P Require Import FilterBlock TableFormat FileName Table TableProofs TableReader TableSpec Merger.
From S2P Require Import VersionEdit MemTable TableGet.
From S2P Require Import Version VersionBuilder VersionSet VersionGet DbImpl CompactionDrop TableEnv CompactionRun Builder.
From stdpp Require Import list.
#[local] Open Scope Z_scope.

(** ** The parts *)

Section Split.
Context (ucmp : Comparator).
Definition before_guard (g : GuardMetaData) (e : entry) : bool := Compare ucmp (euser e) (guard_user_key g) <? 0.
(** The entries in front that are before the guard, and the rest. *)
Fixpoint span (g : GuardMetaData) (es : list entry) : list entry * list entry :=
  match es with
  | [] => ([], [])
  | e :: es' => if before_guard g e then let '(a, b) := span g es' in (e :: a, b) else ([], es)
  end.
Definition some (es : list entry) : list (list entry) := match es with [] => [] | _ => [es] end.
Fixpoint split_guards (guards : list GuardMetaData) (es : list entry) : list (list entry) :=
  match guards with
  | [] => some es
  | g :: guards => let '(a, b) := span g es in some a ++ split_guards guards b
  end.

Lemma span_app g es : fst (span g es) ++ snd (span g es) = es.
Proof. induction es as [|e es IH]; [done|]. cbn [span]. destruct (before_guard g e); [|done]. destruct (span g es). cbn in *. by rewrite IH. Qed.
Lemma some_length es : (length (some es) <= 1)%nat.
Proof. destruct es; cbn; lia. Qed.
Lemma concat_some es : concat (some es) = es.
Proof. destruct es; [done|]. cbn. by rewrite app_nil_r. Qed.
Lemma split_concat guards : forall es, concat (split_guards guards es) = es.
Proof.
  induction guards as [|g guards IH]; intros es; cbn [split_guards]; [apply concat_some|].
  pose proof (span_app g es) as H. destruct (span g es) as [a b]. rewrite concat_app, concat_some, IH. exact H.
Qed.
Lemma split_length guards : forall es, (length (split_guards guards es) <= S (length guards))%nat.
Proof.
  induction guards as [|g guards IH]; intros es; cbn [split_guards]; [apply some_length|].
  destruct (span g es) as [a b]. rewrite length_app. pose proof (some_length a). pose proof (IH b). cbn. lia.
Qed.
Lemma split_nil guards : split_guards guards [] = [].
Proof. induction guards as [|g guards IH]; [done|]. exact IH. Qed.
Lemma some_not_nil es part : part ∈ some es -> part <> [] /\ part = es.
Proof. destruct es; cbn; [by intros ?%elem_of_nil|]. by intros ->%list_elem_of_singleton. Qed.

(** Ascending entries are cut at every guard. *)
Lemma span_below g es e : e ∈ fst (span g es) -> before_guard g e = true.
Proof.
  induction es as [|x es IH]; cbn [span]; [by intros ?%elem_of_nil|]. destruct (before_guard g x) eqn:Ex; [|by intros ?%elem_of_nil].
  destruct (span g es). cbn in *. intros [->|He]%elem_of_cons; [done|by apply IH].
Qed.
Lemma span_rest (Hc : ComparatorOk ucmp bytes_ok) g es e : bytes_ok (guard_user_key g) -> in_order ucmp es ->
  e ∈ snd (span g es) -> before_guard g e = false.
Proof.
  intros Hg. induction es as [|x es IH]; intros Ho; cbn [span]; [by intros ?%elem_of_nil|].
  apply in_order_cons in Ho as (Ho & Hx & Hlt). destruct (before_guard g x) eqn:Ex.
  - destruct (span g es). cbn in *. by apply IH.
  - cbn [snd]. intros [->|He]%elem_of_cons; [done|]. unfold before_guard in *. apply Z.ltb_ge in Ex. apply Z.ltb_ge.
    destruct (Hlt e He) as [Hp Hb]. pose proof (point_user _ Hx). pose proof (point_user _ Hp).
    destruct (Z.le_gt_cases 0 (Compare ucmp (euser e) (guard_user_key g))) as [|Hn]; [done|exfalso].
    assert (Compare ucmp (euser x) (euser e) <= 0) as Hle.
    { destruct Hb as [?|[-> _]]; [lia|]. rewrite (@cmp_refl ucmp bytes_ok Hc); [done|done]. }
    pose proof (cmp_le_lt_trans (euser x) (euser e) (guard_user_key g) ltac:(done) ltac:(done) Hg Hle ltac:(lia)). lia.
Qed.
Lemma split_cut (Hc : ComparatorOk ucmp bytes_ok) guards : forall es, in_order ucmp es ->
  StronglySorted (fun g g' => Compare ucmp (guard_user_key g) (guard_user_key g') <= 0) guards ->
  Forall (fun g => bytes_ok (guard_user_key g)) guards ->
  forall g part, g ∈ guards -> part ∈ split_guards guards es -> cut_at ucmp g part.
Proof.
  induction guards as [|g0 guards IH]; intros es Ho Hs Hb g part Hg Hp; [by apply elem_of_nil in Hg|].
  apply StronglySorted_cons in Hs as [Hle Hs]. apply Forall_cons in Hb as [Hg0 Hb]. cbn [split_guards] in Hp.
  pose proof (span_below g0 es) as Hlow. pose proof (fun e => span_rest Hc g0 es e Hg0 Ho) as Hhigh.
  pose proof (span_app g0 es) as Happ. destruct (span g0 es) as [a b]. cbn [fst snd] in *.
  assert (in_order ucmp b) as Hob.
  { eapply in_order_sublist; [|exact Ho]. rewrite <- Happ. by apply sublist_inserts_l. }
  assert (Forall point_entry a) as Hpa by (destruct Ho as [_ Ho]; rewrite <- Happ in Ho; by apply Forall_app in Ho as [? _]).
  apply elem_of_app in Hp as [Hp|Hp].
  - apply some_not_nil in Hp as [_ ->]. left. apply Forall_forall. intros e He. specialize (Hlow e He). apply Z.ltb_lt in Hlow.
    apply elem_of_cons in Hg as [->|Hg]; [done|]. rewrite Forall_forall in Hle, Hb. rewrite Forall_forall in Hpa.
    by eapply cmp_lt_le_trans; [apply point_user, Hpa|exact Hg0|by apply Hb|exact Hlow|by apply Hle].
  - apply elem_of_cons in Hg as [->|Hg]; [|by eapply IH]. right. apply Forall_forall. intros e He.
    assert (e ∈ b) as Heb by (rewrite <- (split_concat guards b); apply elem_of_concat; by exists part).
    specialize (Hhigh e Heb). unfold before_guard in Hhigh. apply Z.ltb_ge in Hhigh. unfold below. lia.
Qed.
End Split.

(** ** The tables *)

#[local] Arguments db_options : simpl never.
Section Tables.
Context (ucmp : Comparator) (Hc : ComparatorOk ucmp bytes_ok).
Context `{HS : Snappy} {HSok : SnappyOk}.
Context (addr block_size restart_interval compression : Z) (policy : option FilterPolicy).
Abbreviation opt := (db_options ucmp addr block_size restart_interval compression policy).
Context (Hopt : options_ok opt) (Hname : forall p, filter_policy opt = Some p -> name_ok p).
Context (dbname : bytes) {E T : Type} `{HE : Env E} `{HD : DirEnv E} `{HT : TableOpens T E}.
Context (files : E -> gmap (list Z) (list Z)) {HEok : EnvOk E files} {HDok : DirEnvOk E files}.
Context {I : Type} `{HI : Iterator I}.
Abbreviation table_name n := (TableFileName dbname n).
Abbreviation output_ok := (output_ok ucmp addr block_size restart_interval compression policy dbname files).
Abbreviation part_table := (part_table ucmp addr block_size restart_interval compression policy).
Context (es0 : list entry) (Hord : in_order ucmp es0) (Hval : Forall (fun e => bytes_ok (snd (to_ientry e))) es0).
Context (Hsize : table_size (kvs es0) < 2 ^ 32).
Context (Hfilter : forall part r, sublist part es0 ->
  TableBuilder.add_entries (TableBuilder.new opt []) (kvs part) = Some r -> filter_bytes r + 5 < 2 ^ 32).
Context (Hrel : reliable (E := E))
  (Hopens : opens_tables ucmp addr block_size restart_interval compression policy dbname files es0).
Context (d0 : DB E T) (reserved : list Z) (Hnd : NoDup reserved) (Hu64 : Forall is_u64 reserved).
Abbreviation build := (@Build E T).

Definition meta_out (m : FileMetaData) : Output :=
  {| number := f_number m; file_size := f_file_size m; smallest := f_smallest m; largest := f_largest m |}.
(** The environment is the one of the builder while a table is open. *)
Definition bl_env (b : build) : E := match bl_builder b with Some r => TableBuilder.file r | None => env_ (bl_db b) end.
(** The open table holds [cur]. *)
Record writing (b : build) (n : Z) (cur : list entry) : Prop := {
  wr_builder : exists r rb bs cb, bl_builder b = Some r /\ tracks files (table_name n) r rb /\
    TableBuilder.add_entries (TableBuilder.new opt []) (kvs cur) = Some rb /\ building opt rb bs cb (kvs cur);
  wr_number : f_number (bl_meta b) = n;
  wr_smallest : cur <> [] -> f_smallest (bl_meta b) = first_ikey cur;
  wr_largest : cur <> [] -> f_largest (bl_meta b) = last_ikey cur;
}.
(** The tables of [parts] are done, [cur] is in the open one. *)
Record built (b : build) (parts : list (list entry)) (cur todo : list entry) : Prop := {
  bt_tables : Forall2 (output_ok (bl_env b)) (meta_out <$> bl_metas b) parts;
  bt_entries : concat parts ++ cur ++ todo = es0;
  bt_numbers : f_number <$> bl_metas b = take (length parts) reserved;
  bt_count : bl_count b = blen cur;
  bt_index : bl_index b = (length parts + length (some cur))%nat;
  bt_room : (bl_index b <= length reserved)%nat;
  bt_open : if decide (cur = []) then bl_builder b = None
            else exists n, reserved !! length parts = Some n /\ writing b n cur;
  bt_fb : bl_fb b = filter_state (filter_policy opt) cur;
  bt_filters : bl_filters b = filters_of (filter_policy opt) parts;
  bt_db : exists env t, bl_db b = set_table_cache (set_env d0 env) t;
  bt_frame : forall f, (forall n, n ∈ reserved -> f <> table_name n) -> files (bl_env b) !! f = files (env_ d0) !! f;
}.

Lemma tables_length e metas parts : Forall2 (output_ok e) (meta_out <$> metas) parts -> length metas = length parts.
Proof. intros H%Forall2_length. by rewrite length_fmap in H. Qed.
Lemma metas_distinct b parts cur todo n : built b parts cur todo -> reserved !! length parts = Some n ->
  forall o, o ∈ meta_out <$> bl_metas b -> table_name (number o) <> table_name n.
Proof.
  intros Hb Hn o (m & -> & Hm)%list_elem_of_fmap Heq. cbn in Heq.
  assert (f_number m ∈ take (length parts) reserved) as Hin by (rewrite <- (bt_numbers _ _ _ _ Hb); by apply list_elem_of_fmap_2).
  apply list_elem_of_lookup in Hin as [i Hi]. apply lookup_take_Some in Hi as [Hi Hlt].
  apply TableFileName_inj in Heq; [|by eapply Forall_lookup_1|by eapply Forall_lookup_1].
  rewrite Heq in Hi. pose proof (NoDup_lookup _ _ _ _ Hnd Hi Hn). lia.
Qed.

(** *** A table is opened *)

Lemma new_file_env (env : E) : TableBuilder.file (TableBuilder.new opt env) = env.
Proof. unfold TableBuilder.new, TableBuilder.on_filter. cbn. by destruct (filter_policy opt). Qed.
Definition opening (b : build) (parts : list (list entry)) (e : entry) (todo : list entry) (n : Z) : Prop :=
  Forall2 (output_ok (bl_env b)) (meta_out <$> bl_metas b) parts /\ concat parts ++ e :: todo = es0 /\
  f_number <$> bl_metas b = take (length parts) reserved /\ bl_count b = 0 /\ bl_index b = S (length parts) /\
  reserved !! length parts = Some n /\ writing b n [] /\ f_smallest (bl_meta b) = ekey e /\
  bl_fb b = filter_state (filter_policy opt) [] /\ bl_filters b = filters_of (filter_policy opt) parts /\
  (exists env t, bl_db b = set_table_cache (set_env d0 env) t) /\
  (forall f, (forall n, n ∈ reserved -> f <> table_name n) -> files (bl_env b) !! f = files (env_ d0) !! f) /\
  forall o, o ∈ meta_out <$> bl_metas b -> table_name (number o) <> table_name n.
Lemma start_table_ok it b parts e todo : built b parts [] (e :: todo) -> stands it e -> (length parts < length reserved)%nat ->
  exists s b' n, start_table opt dbname reserved it b = (s, b') /\ ok s = true /\ opening b' parts e todo n.
Proof.
  intros Hb Hst Hlt. pose proof Hb as [T1 T2 T3 T4 T5 T6 T7 T8 T9 T10 T11]. cbn [decide] in T7.
  destruct (lookup_lt_is_Some_2 reserved (length parts) Hlt) as [n Hn]. unfold start_table, next_number. rewrite T5. cbn [some length].
  rewrite Nat.add_0_r, Hn. unfold bl_env in T1, T11. rewrite decide_True in T7 by done. rewrite T7 in T1, T11.
  pose proof (FileName.new_file (env_ (bl_db b)) (table_name n)) as N1. pose proof (frame_new (env_ (bl_db b)) (table_name n)) as N2.
  pose proof (rel_new Hrel (env_ (bl_db b)) (table_name n)) as N3. destruct (NewWritableFile _ _) as [s env]. cbn [fst snd] in *.
  specialize (N1 N3). eexists s, _, n. split; [done|]. split; [done|]. unfold opening, bl_env. cbn [bl_builder set_table_open bl_metas bl_count bl_index bl_fb bl_filters bl_db bl_meta].
  rewrite new_file_env. split_and!; try done.
  - eapply outputs_frame; [exact N2| |exact T1]. by eapply metas_distinct.
  - split; [|done|done|done]. exists (TableBuilder.new opt env), (TableBuilder.new opt []), [], []. split; [done|].
    split; [|split; [done|by apply new_building]]. split; [eapply view_new; [exact Hname|by rewrite N1, lookup_insert_eq]|].
    rewrite new_file_env, N1, lookup_insert_eq. done.
  - cbn. apply (st_key _ _ Hst).
  - destruct T10 as (env' & t & ->). by exists env, t.
  - intros f Hf. rewrite N2; [by apply T11|]. apply Hf. by eapply list_elem_of_lookup_2.
  - by eapply metas_distinct.
Qed.

(** *** An entry is added *)

(** The common part: the open table holds [cur] and takes [e]. *)
Lemma add_to_table it b n cur e : writing b n cur -> stands it e -> sublist (cur ++ [e]) es0 ->
  exists r r', bl_builder b = Some r /\
    TableBuilder.Add (H := named_writable (table_name (f_number (bl_meta b)))) r (key it) (value it) = Some r' /\
    framed files (table_name n) (TableBuilder.file r) (TableBuilder.file r') /\
    exists rb bs cb, tracks files (table_name n) r' rb /\
    TableBuilder.add_entries (TableBuilder.new opt []) (kvs (cur ++ [e])) = Some rb /\ building opt rb bs cb (kvs (cur ++ [e])).
Proof.
  intros [(r & rb & bs & cb & Er & Ht & Hadd & Hbu) Hn _ _] Hst Hsub.
  destruct (grow_table ucmp Hc addr block_size restart_interval compression policy Hopt es0 Hord Hval Hsize cur e rb Hsub Hadd)
    as (rb' & bs' & cb' & HA & Hadd' & Hbu').
  destruct (Add_lands files (table_name n) r rb (ekey e) (snd (to_ientry e)) rb' Ht) as (r' & HA' & Hfr & _ & Hl);
    [by rewrite (b_status _ _ _ _ _ Hbu)|done|].
  exists r, r'. rewrite Hn, (st_key _ _ Hst), (st_value _ _ Hst). split; [done|]. split; [exact HA'|]. split; [done|].
  exists rb', bs', cb'. split; [|done]. destruct Hl as [Hl|[_ Hl]]; [done|by destruct Hl].
Qed.

Lemma some_snoc (cur : list entry) e : some (cur ++ [e]) = [cur ++ [e]].
Proof. by destruct cur. Qed.
Lemma blen_zero_nil (cur : list entry) : (blen cur =? 0) = bool_decide (cur = []).
Proof. destruct cur; [done|]. unfold blen. cbn [length]. rewrite bool_decide_eq_false_2 by done. apply Z.eqb_neq. lia. Qed.
(** After an entry was added to an open table. *)
Lemma put_entry_ok it b parts cur e todo n : writing b n cur -> stands it e -> concat parts ++ cur ++ e :: todo = es0 ->
  Forall2 (output_ok (bl_env b)) (meta_out <$> bl_metas b) parts -> f_number <$> bl_metas b = take (length parts) reserved ->
  bl_count b = blen cur -> bl_index b = S (length parts) -> reserved !! length parts = Some n ->
  (forall o, o ∈ meta_out <$> bl_metas b -> table_name (number o) <> table_name n) ->
  f_smallest (bl_meta b) = first_ikey (cur ++ [e]) -> bl_fb b = filter_state (filter_policy opt) cur ->
  bl_filters b = filters_of (filter_policy opt) parts -> (exists env t, bl_db b = set_table_cache (set_env d0 env) t) ->
  (forall f, (forall n, n ∈ reserved -> f <> table_name n) -> files (bl_env b) !! f = files (env_ d0) !! f) ->
  exists b', put_entry dbname it b = Some b' /\ built b' parts (cur ++ [e]) todo.
Proof.
  intros Hw Hst Hes H1 H3 H4 H5 Hn Hd Hsm H8 H9 H10 H11.
  destruct (add_to_table it b n cur e Hw Hst) as (r & r' & Er & HA & Hfr & rb & bs & cb & Ht & Hadd & Hbu).
  { rewrite <- Hes. apply sublist_inserts_l. change (e :: todo) with ([e] ++ todo). rewrite app_assoc. by apply sublist_inserts_r. }
  unfold put_entry. rewrite Er. cbn [mbind option_bind]. cbv zeta. rewrite HA. cbn [mbind option_bind]. eexists. split; [done|].
  unfold bl_env in H1, H11. rewrite Er in H1, H11.
  split; unfold bl_env; cbn [set_table_added bl_db bl_fb bl_filters bl_metas bl_meta bl_builder bl_count bl_index].
  - by eapply outputs_frame.
  - rewrite <- Hes. by rewrite <- app_assoc.
  - done.
  - rewrite H4, blen_app. done.
  - rewrite H5, some_snoc. cbn. lia.
  - rewrite H5. by eapply lookup_lt_Some.
  - rewrite decide_False by (by destruct cur). exists n. split; [done|].
    split; cbn [set_table_added bl_builder bl_meta meta_largest f_number f_smallest f_largest].
    + by exists r', rb, bs, cb.
    + apply Hw.
    + done.
    + intros _. rewrite last_ikey_snoc. apply (st_key _ _ Hst).
  - rewrite filter_state_snoc, H8, (st_key _ _ Hst). done.
  - done.
  - done.
  - intros f Hf. rewrite Hfr; [by apply H11|]. apply Hf. by eapply list_elem_of_lookup_2.
Qed.
Lemma emit_ok it s b parts cur e todo : built b parts cur (e :: todo) -> stands it e -> ok s = true ->
  (cur = [] -> (length parts < length reserved)%nat) ->
  exists s' b', emit opt dbname reserved it s b = Some (false, s', b') /\ ok s' = true /\ built b' parts (cur ++ [e]) todo.
Proof.
  intros Hb Hst Os Hlt. unfold emit. rewrite (bt_count _ _ _ _ Hb), blen_zero_nil. destruct (decide (cur = [])) as [->|Hne].
  - rewrite bool_decide_eq_true_2 by done.
    destruct (start_table_ok it b parts e todo Hb Hst (Hlt eq_refl)) as (s' & b1 & n & -> & Os' & O1 & O2 & O3 & O4 & O5 & O6 & O7 & O8 & O9 & O10 & O11 & O12 & O13).
    rewrite Os', andb_false_r. destruct (put_entry_ok it b1 parts [] e todo n) as (b' & -> & Hb'); try done.
    cbn [mbind option_bind]. by exists s', b'.
  - rewrite bool_decide_eq_false_2 by done. cbn [andb]. rewrite (bt_count _ _ _ _ Hb), blen_zero_nil, bool_decide_eq_false_2 by done. cbn [andb].
    pose proof Hb as [T1 T2 T3 T4 T5 T6 T7 T8 T9 T10 T11]. rewrite decide_False in T7 by done. destruct T7 as (n & Hn & Hw).
    destruct (put_entry_ok it b parts cur e todo n) as (b' & -> & Hb'); try done.
    + rewrite T5. destruct cur; [done|]. cbn. lia.
    + by eapply metas_distinct.
    + rewrite first_ikey_snoc, decide_False by done. by apply Hw.
    + cbn [mbind option_bind]. by exists s, b'.
Qed.

(** *** A table is finished *)

Lemma part_size part f : sublist part es0 -> part_table part f -> 0 < blen f.
Proof.
  intros Hs (r & r' & Hr & HF & <- & _). pose proof (InternalKeyComparator_ok ucmp bytes_ok (fun k H => H)) as Hic.
  pose proof (part_entries ucmp Hc es0 Hord Hval Hsize part Hs) as He.
  destruct (build_and_open (Hc := Hic) (Hshort := InternalKey_ShortKeys ucmp bytes_ok) opt Hopt (internal_valid bytes_ok)
    (kvs part) He Hname) as (r1 & Hr1 & Hrest). assert (r1 = r) as -> by congruence.
  destruct (Hrest (Hfilter part r Hs Hr)) as (r2 & bs & footer & HF2 & _ & _ & [_ _ _ (mst & mty & ist & ity & Hf & _)] & _).
  assert (r2 = r') as -> by congruence. rewrite Hf, !blen_app, !blen_segment. blia.
Qed.
Lemma AddFilterString_ok cur parts : cur <> [] ->
  AddFilterString opt (filter_state (filter_policy opt) cur) (filters_of (filter_policy opt) parts) =
    (filter_state (filter_policy opt) [], filters_of (filter_policy opt) (parts ++ [cur])).
Proof.
  intros Hne. destruct (filter_closes (filter_policy opt) cur Hne) as [f Hf]. unfold AddFilterString, filters_of in *.
  destruct (filter_policy opt) as [p|]; [|by rewrite Hf]. destruct Hf as [H1 H2]. rewrite H1, H2, fmap_app. cbn [fmap list_fmap]. by rewrite H1.
Qed.
Lemma FinishFileCompletion_ok (d : DB E T) s meta part f : ok s = true -> sublist part es0 -> part_table part f ->
  files (env_ d) !! table_name (f_number meta) = Some f -> f_file_size meta = blen f ->
  exists env t, FinishFileCompletion d s meta (table_name (f_number meta)) = set_table_cache (set_env d env) t /\
    framed files (table_name (f_number meta)) (env_ d) env /\ files env !! table_name (f_number meta) = Some f.
Proof.
  intros Os Hs Hp Hf Hz. set (name := table_name _) in *. unfold FinishFileCompletion. rewrite Os.
  pose proof (sync_file (env_ d) name) as Y1. pose proof (frame_sync (env_ d) name) as Y2. pose proof (rel_sync Hrel (env_ d) name) as Y3.
  destruct (SyncFile (env_ d) name) as [s1 e1]. cbn [fst snd] in *. rewrite Y3. specialize (Y1 Y3).
  pose proof (close_file e1 name) as C1. pose proof (frame_close e1 name) as C2. pose proof (rel_close Hrel e1 name) as C3.
  destruct (CloseFile e1 name) as [s2 e2]. cbn [fst snd] in *. rewrite C3. specialize (C1 C3).
  assert (files e2 !! name = Some f) as Hf2 by (by rewrite C1, Y1).
  pose proof (Hopens (table_cache_ d) e2 (f_number meta) part f Hs Hp Hf2) as Ho. cbn [table_cache_ set_env env_]. rewrite Hz.
  destruct (table_status _ _ _ _) as [s3 t]. cbn [fst] in Ho. rewrite Ho, (proj2 (Z.ltb_lt _ _)) by by eapply part_size. cbn [andb].
  exists e2, t. split; [done|]. split; [|done]. by eapply framed_trans.
Qed.
Lemma finish_table_ok b parts cur todo : built b parts cur todo -> cur <> [] ->
  exists s b', finish_table opt dbname b = Some (s, b') /\ ok s = true /\ built b' (parts ++ [cur]) [] todo.
Proof.
  intros Hb Hne. pose proof Hb as [T1 T2 T3 T4 T5 T6 T7 T8 T9 T10 T11]. rewrite decide_False in T7 by done.
  destruct T7 as (n & Hn & [(r & rb & bs & cb & Er & Ht & Hadd & Hbu) Wn Ws Wl]).
  assert (sublist cur es0) as Hsub by (rewrite <- T2; apply sublist_inserts_l; by apply sublist_inserts_r).
  destruct (part_finishes ucmp Hc addr block_size restart_interval compression policy Hopt Hname es0 Hord Hval Hsize Hfilter cur rb Hsub Hadd)
    as (rb' & HF & Hpt).
  destruct (Finish_lands files (table_name n) r rb rb' Ht) as (s & r' & HF' & Hfr & [[-> Ht']|[_ Hf]]);
    [by rewrite (b_status _ _ _ _ _ Hbu)|done| |by destruct Hf].
  unfold finish_table. rewrite Er, Wn. cbn [mbind option_bind]. cbv zeta. unfold named in HF'. rewrite HF'. cbn [mbind option_bind].
  change (ok OK) with true. cbv iota. destruct Ht' as [Ev [x Hx]].
  assert (TableBuilder.file rb' = x) as Hfx by (rewrite <- Ev; cbn; unfold contents; by rewrite Hx). rewrite Hfx in Hpt.
  assert (TableBuilder.FileSize r' = blen x) as Hsz.
  { destruct Hpt as (q & q' & H1 & H2 & _ & H4). assert (q = rb) as -> by congruence. assert (q' = rb') as -> by congruence.
    rewrite <- Ev in H4. exact H4. }
  cbn [f_file_size meta_size]. rewrite Hsz, (proj2 (Z.ltb_lt _ _)) by by eapply part_size. rewrite T8, T9, AddFilterString_ok by done.
  set (meta := meta_size (bl_meta b) (blen x)). assert (f_number meta = n) as Hmn by exact Wn. rewrite <- Hmn.
  destruct (FinishFileCompletion_ok (set_env (bl_db b) (TableBuilder.file r')) OK meta cur x) as (env & t & Efin & Hfr2 & Hfin); [done|done|done|by rewrite Hmn|done|].
  rewrite Efin. eexists OK, _. split; [done|]. split; [done|]. cbn [env_ set_env] in Hfr2. rewrite Hmn in Hfr2, Hfin.
  unfold bl_env in T1, T11. rewrite Er in T1, T11. assert (framed files (table_name n) (TableBuilder.file r) env) as Hall by (by eapply framed_trans).
  split; unfold bl_env; cbn [set_table_closed bl_db bl_fb bl_filters bl_metas bl_meta bl_builder bl_count bl_index env_ set_env set_table_cache].
  - rewrite fmap_app. apply Forall2_app; [eapply outputs_frame; [exact Hall| |exact T1]; by eapply metas_distinct|].
    constructor; [|constructor]. split; [done|by apply Ws|by apply Wl|]. exists x. cbn [number meta_out file_size]. rewrite Hmn. done.
  - rewrite concat_snoc, <- app_assoc. done.
  - rewrite fmap_app, T3, length_app, Nat.add_1_r. cbn [fmap list_fmap]. rewrite Hmn. by rewrite (take_S_r _ _ _ Hn).
  - done.
  - rewrite T5, length_app. destruct cur; [done|]. cbn. lia.
  - done.
  - by rewrite decide_True.
  - done.
  - done.
  - destruct T10 as (env' & t' & ->). by exists env, t.
  - intros f Hf. rewrite Hall; [by apply T11|]. apply Hf. by eapply list_elem_of_lookup_2.
Qed.

(** *** The entries between two guards *)

Lemma finish_open_ok s b parts cur todo : built b parts cur todo -> ok s = true ->
  exists s' b', finish_open opt dbname s b = Some (s', b') /\ ok s' = true /\ built b' (parts ++ some cur) [] todo.
Proof.
  intros Hb Os. unfold finish_open. rewrite (bt_count _ _ _ _ Hb). destruct cur as [|e cur].
  - cbn [blen length Z.of_nat Z.ltb Z.compare some]. rewrite app_nil_r. by exists s, b.
  - rewrite (proj2 (Z.ltb_lt _ _)) by (unfold blen; cbn [length]; lia). by apply finish_table_ok.
Qed.
Definition upto (guard : option GuardMetaData) (es : list entry) : list entry * list entry :=
  match guard with Some g => span ucmp g es | None => (es, []) end.
Definition taken (guard : option GuardMetaData) (e : entry) : bool :=
  match guard with Some g => before_guard ucmp g e | None => true end.
Lemma upto_cons guard e es : upto guard (e :: es) =
  if taken guard e then (e :: fst (upto guard es), snd (upto guard es)) else ([], e :: es).
Proof. destruct guard as [g|]; [|done]. cbn [upto taken span]. destruct (before_guard ucmp g e); [|done]. by destruct (span ucmp g es). Qed.
Lemma upto_nil guard : upto guard [] = ([], []).
Proof. by destruct guard. Qed.
Lemma some_app_nil (cur : list entry) : some (cur ++ []) = some cur.
Proof. by rewrite app_nil_r. Qed.

Context (valid : bytes -> Prop).
Abbreviation standing := (standing ucmp valid es0).
(** At a guard the table is closed; at the end of the entries it stays open. *)
Lemma fill_ok fuel : forall guard it s b parts cur todo, built b parts cur todo ->
  standing (concat parts ++ cur) todo it -> ok s = true -> (length todo < fuel)%nat ->
  (todo <> [] -> cur = [] -> (length parts < length reserved)%nat) ->
  exists s' it' b' parts' cur', fill ucmp opt dbname fuel reserved guard it s b = Some (false, s', it', b') /\ ok s' = true /\
    built b' parts' cur' (snd (upto guard todo)) /\ standing (concat parts' ++ cur') (snd (upto guard todo)) it' /\
    parts' ++ some cur' = parts ++ some (cur ++ fst (upto guard todo)) /\ (snd (upto guard todo) <> [] -> cur' = []).
Proof.
  induction fuel as [|fuel IH]; intros guard it s b parts cur todo Hb Hst Os Hfu Hroom; [lia|]. cbn [fill].
  destruct (standing_valid _ _ _ Hst) as [Hv _]. rewrite Hv. destruct todo as [|e todo].
  { rewrite bool_decide_eq_false_2 by (intros H; by apply H). cbn [negb]. rewrite upto_nil. cbn [fst snd].
    exists s, it, b, parts, cur. rewrite some_app_nil. by split_and!. }
  rewrite bool_decide_eq_true_2 by done. cbn [negb].
  assert (es0 = (concat parts ++ cur) ++ e :: todo) as Ees by (rewrite <- app_assoc; symmetry; apply Hb).
  pose proof (standing_stands _ _ _ _ Ees Hst) as Hse. pose proof (stands_user _ _ Hse) as Hu.
  assert ((match guard with
           | Some g => if blen (key it) <? 8 then None else Some (Compare ucmp (ExtractUserKey (key it)) (guard_user_key g) <? 0)
           | None => Some true end) = Some (taken guard e)) as ->.
  { destruct guard as [g|]; [|done]. rewrite Hu, (st_key _ _ Hse). rewrite (proj2 (Z.ltb_ge _ _)); [done|].
    destruct e as [[[? ?] ?] ?]. cbn [to_ientry fst]. unfold ikey. cbn [fst]. rewrite blen_ikey. blia. }
  rewrite upto_cons. cbn [mbind option_bind]. destruct (taken guard e) eqn:Et; cbn [fst snd].
  - destruct (emit_ok it s b parts cur e todo Hb Hse Os) as (s' & b' & -> & Os' & Hb'); [by apply Hroom|]. cbn [mbind option_bind].
    destruct (IH guard (Next it) s' b' parts (cur ++ [e]) todo Hb') as (s2 & it2 & b2 & parts2 & cur2 & -> & H); [|done|cbn in Hfu; lia|by destruct cur|].
    { rewrite app_assoc. by eapply standing_next. }
    rewrite <- app_assoc in H. by exists s2, it2, b2, parts2, cur2.
  - destruct (finish_open_ok s b parts cur (e :: todo) Hb Os) as (s' & b' & -> & Os' & Hb'). cbn [mbind option_bind].
    exists s', it, b', (parts ++ some cur), []. rewrite some_app_nil. split_and!; try done; [|by rewrite app_nil_r].
    by rewrite concat_app, concat_some, app_nil_r.
Qed.
Lemma fill_guards_ok fuel guards : forall it s b parts cur todo, built b parts cur todo ->
  standing (concat parts ++ cur) todo it -> ok s = true -> (length todo < fuel)%nat ->
  (todo <> [] -> cur = [] /\ (length parts + S (length guards) <= length reserved)%nat) ->
  exists s' it' b' parts' cur' todo', fill_guards ucmp opt dbname fuel reserved guards it s b = Some (false, s', it', b') /\ ok s' = true /\
    built b' parts' cur' todo' /\ standing (concat parts' ++ cur') todo' it' /\ (length todo' <= length todo)%nat /\
    parts' ++ some cur' ++ some todo' = parts ++ some cur ++ split_guards ucmp guards todo /\
    (todo' <> [] -> cur' = [] /\ (length parts' < length reserved)%nat).
Proof.
  induction guards as [|g guards IH]; intros it s b parts cur todo Hb Hst Os Hfu Hroom; cbn [fill_guards split_guards].
  { exists s, it, b, parts, cur, todo. split_and!; try done. intros H. destruct (Hroom H) as [-> ?]. cbn [length] in *. split; [done|lia]. }
  destruct (fill_ok fuel (Some g) it s b parts cur todo Hb Hst Os Hfu) as (s1 & it1 & b1 & parts1 & cur1 & -> & Os1 & Hb1 & Hst1 & Hp1 & Hc1).
  { intros H _. destruct (Hroom H). cbn in *. lia. }
  cbn [mbind option_bind]. cbn [upto] in *. pose proof (span_app ucmp g todo) as Happ. destruct (span ucmp g todo) as [x rest] eqn:Esp. cbn [fst snd] in *.
  assert (length rest <= length todo)%nat as Hle by (rewrite <- Happ, length_app; lia).
  destruct (IH it1 s1 b1 parts1 cur1 rest Hb1 Hst1 Os1) as (s2 & it2 & b2 & parts2 & cur2 & todo2 & -> & Os2 & Hb2 & Hst2 & Hl2 & Hp2 & Hc2); [lia| |].
  { intros Hr. specialize (Hc1 Hr) as ->. split; [done|]. rewrite app_nil_r in Hp1. destruct (Hroom ltac:(intros ->; by destruct rest)) as [-> Hro].
    rewrite Hp1, length_app. pose proof (some_length ([] ++ x)). cbn [length] in Hro. lia. }
  exists s2, it2, b2, parts2, cur2, todo2. split_and!; try done; [lia|]. rewrite Hp2, app_assoc, Hp1.
  destruct todo as [|e todo].
  - injection Esp as <- <-. rewrite app_nil_r. cbn [some]. by rewrite split_nil, !app_nil_r.
  - destruct (Hroom ltac:(done)) as [-> _]. by rewrite <- app_assoc.
Qed.
End Tables.
