(* ===== verification/FlushSafety.v ===== *)
(** * Memtables are written out

    In an environment whose calls do not fail [BuildLevel0Tables] puts every entry in a
    table, and [WriteLevel0TableGuards] adds the tables to the edit; and a run of memtable
    compaction in which the environment fails to sync a table. *)

From stdpp Require Import gmap sorting.
From S2P Require Import Prelude Coding Status Crc32c Comparator DbFormat Bloom Iterator Block BlockProofs.
From S2P Require Import FilterBlock TableFormat FileName Table TableProofs TableReader TableSpec Merger.
From S2P Require Import VersionEdit MemTable TableGet Version VersionBuilder VersionSet VersionGet VersionSetSafety.
From S2P Require Import Compaction DbImpl CompactionDrop TableEnv CompactionRun CompactionSafety ObsoleteFiles.
From S2P Require Import Builder BuilderProofs MemCompact.
From stdpp Require Import list.
#[local] Open Scope Z_scope.

#[local] Arguments db_options : simpl never.
Section Flush.
Context (ucmp : Comparator) (Hc : ComparatorOk ucmp bytes_ok).
Context `{HS : Snappy} {HSok : SnappyOk} {C : Type} `{HC : BlockCache C} {HCok : BlockCacheOk C}.
Context (addr block_size restart_interval compression : Z) (policy : option FilterPolicy).
Abbreviation opt := (db_options ucmp addr block_size restart_interval compression policy).
Context (Hopt : options_ok opt) (Hname : forall p, filter_policy opt = Some p -> name_ok p).
Context (dbname : bytes) {E T : Type} `{HE : Env E} `{HD : DirEnv E} `{HT : TableOpens T E}.
Context (files : E -> gmap (list Z) (list Z)) {HEok : EnvOk E files} {HDok : DirEnvOk E files}.
Context {I : Type} `{HI : Iterator I}.
Abbreviation table_of := (table_of (C := C) ucmp addr block_size restart_interval compression policy dbname files).
Abbreviation inputs_ok := (inputs_ok ucmp addr block_size restart_interval compression policy).
Abbreviation filters0 := (FileLevelFilterBuilder.new (filter_policy opt)).

(** The tables written from the entries [es] when the database was [d]. *)
Record flushed (d : DB E T) (es : list entry) (guards : list GuardMetaData) (reserved : list Z) (b : @Build E T)
    (parts : list (list entry)) : Prop := {
  fl_tables : Forall2 (table_of (env_ (bl_db b))) (meta_out <$> bl_metas b) parts;
  fl_some : Forall (fun part => part <> []) parts;
  fl_all : concat parts = es;
  fl_guards : forall g part, g ∈ guards -> part ∈ parts -> cut_at ucmp g part;
  fl_numbers : f_number <$> bl_metas b = take (length parts) reserved;
  fl_filters : bl_filters b = filters_of (filter_policy opt) parts;
  fl_fb : bl_fb b = filters0;
  fl_db : exists env t, bl_db b = set_table_cache (set_env d env) t;
  fl_frame : forall f, (forall n, n ∈ reserved -> f <> TableFileName dbname n) -> files (env_ (bl_db b)) !! f = files (env_ d) !! f;
}.

Lemma start_built es guards (d : DB E T) reserved : inputs_ok es guards -> forall b,
  b = {| bl_db := d; bl_fb := filters0; bl_filters := []; bl_metas := []; bl_meta := FileMetaData_new;
         bl_builder := None; bl_count := 0; bl_index := 0%nat |} ->
  built ucmp addr block_size restart_interval compression policy dbname files es d reserved b [] [] es.
Proof.
  intros [_ _ _ _ _ _] b ->. split; cbn; try done; [lia|unfold filters_of; by destruct policy|].
  exists (env_ d), (table_cache_ d). by destruct d.
Qed.
Lemma split_some guards : forall es, Forall (fun part => part <> []) (split_guards ucmp guards es).
Proof.
  induction guards as [|g guards IH]; intros es; cbn [split_guards].
  - by destruct es; repeat constructor.
  - destruct (span ucmp g es) as [a b]. apply Forall_app. split; [by destruct a; repeat constructor|apply IH].
Qed.
Lemma built_flushed es guards d reserved b parts : inputs_ok es guards -> parts = split_guards ucmp guards es ->
  built ucmp addr block_size restart_interval compression policy dbname files es d reserved b parts [] [] ->
  flushed d es guards reserved b parts.
Proof.
  intros Hin Hp [T1 T2 T3 T4 T5 T6 T7 T8 T9 T10 T11]. rewrite decide_True in T7 by done. unfold bl_env in T1, T11. rewrite T7 in T1, T11.
  pose proof Hin as [I1 I2 I3 I4 I5 I6]. assert (concat parts = es) as Hall by (rewrite Hp; apply split_concat). split; try done.
  - assert (sublist (concat parts) es) as Hsub by (by rewrite Hall).
    eapply Forall2_impl; [apply (Forall2_and_sublist _ _ _ _ Hsub T1)|]. intros o part [[_ O2 O3 (f & O4 & O5 & O6)] Hs].
    split; [done..|]. exists f. split; [done|]. split; [done|]. by eapply part_scans.
  - rewrite Hp. apply split_some.
  - rewrite Hp. by apply split_cut.
Qed.

(** The tables hold all entries, cut at the guards. *)
Lemma BuildLevel0Tables_ok (valid : bytes -> Prop) (es : list entry) (guards : list GuardMetaData) (d : DB E T) (reserved : list Z) (fuel : nat) (it : I)
  (p : option nat) (Hin : inputs_ok es guards) (Hnd : NoDup reserved) (Hu64 : Forall is_u64 reserved)
  (Hnum : length reserved = S (length guards)) (Hrel : reliable (E := E))
  (Hopens : opens_tables ucmp addr block_size restart_interval compression policy dbname files es)
  (Hit : at_pos (InternalKeyComparator ucmp) valid (kvs es) it p) (Hfuel : (length es < fuel)%nat) :
  exists b, BuildLevel0Tables ucmp opt dbname fuel d it guards reserved filters0 [] = Some (OK, b) /\
    flushed d es guards reserved b (split_guards ucmp guards es).
Proof.
  unfold BuildLevel0Tables. cbv zeta. pose proof Hin as [I1 I2 I3 I4 I5 I6]. pose proof (standing_first it p Hit) as Hst.
  destruct (standing_valid _ _ _ Hst) as [-> Hs]. set (b0 := {| bl_db := d |}). pose proof (start_built es guards d reserved Hin b0 eq_refl) as Hb0.
  case_bool_decide as He; cbn [negb].
  2: { subst es. rewrite Hs. eexists. split; [done|]. apply built_flushed; [done|done|]. by rewrite split_nil. }
  destruct (fill_guards_ok ucmp Hc addr block_size restart_interval compression policy Hopt Hname dbname files es I1 I2 I3 I4 Hrel Hopens
    d reserved Hnd Hu64 valid fuel guards (SeekToFirst it) OK b0 [] [] es Hb0 Hst)
    as (s1 & it1 & b1 & parts1 & cur1 & todo1 & -> & Os1 & Hb1 & Hst1 & Hl1 & Hp1 & Hc1); [done|done|by rewrite Hnum|]. cbn [mbind option_bind].
  destruct (finish_open_ok ucmp Hc addr block_size restart_interval compression policy Hopt Hname dbname files es I1 I2 I3 I4 Hrel Hopens
    d reserved Hnd Hu64 s1 b1 parts1 cur1 todo1 Hb1 Os1) as (s2 & b2 & -> & Os2 & Hb2). cbn [mbind option_bind].
  destruct (fill_ok ucmp Hc addr block_size restart_interval compression policy Hopt Hname dbname files es I1 I2 I3 I4 Hrel Hopens
    d reserved Hnd Hu64 valid fuel None it1 s2 b2 (parts1 ++ some cur1) [] todo1 Hb2) as (s3 & it3 & b3 & parts3 & cur3 & -> & Os3 & Hb3 & Hst3 & Hp3 & _).
  { by rewrite app_nil_r, concat_app, concat_some. }
  { done. }
  { lia. }
  { intros Ht _. destruct (Hc1 Ht) as [-> ?]. by rewrite app_nil_r. }
  cbn [mbind option_bind upto snd fst app] in *.
  destruct (finish_open_ok ucmp Hc addr block_size restart_interval compression policy Hopt Hname dbname files es I1 I2 I3 I4 Hrel Hopens
    d reserved Hnd Hu64 s3 b3 parts3 cur3 [] Hb3 Os3) as (s4 & b4 & -> & Os4 & Hb4). cbn [mbind option_bind].
  destruct (standing_valid _ _ _ Hst3) as [_ ->]. exists b4. destruct s4; [done|]. split; [done|].
  apply built_flushed; [done|done|]. rewrite Hp3, <- app_assoc, Hp1 in Hb4. exact Hb4.
Qed.
End Flush.

(** ** The memtable *)

Section Memtable.
Context (ucmp : Comparator) (Hc : ComparatorOk ucmp bytes_ok).
Context `{HS : Snappy} {HSok : SnappyOk} {C : Type} `{HC : BlockCache C} {HCok : BlockCacheOk C}.
Context (addr block_size restart_interval compression : Z) (policy : option FilterPolicy).
Abbreviation opt := (db_options ucmp addr block_size restart_interval compression policy).
Context (Hopt : options_ok opt) (Hname : forall p, filter_policy opt = Some p -> name_ok p).
Context (dbname : bytes) {E T : Type} `{HE : Env E} `{HD : DirEnv E} `{HT : TableOpens T E}.
Context (files : E -> gmap (list Z) (list Z)) {HEok : EnvOk E files} {HDok : DirEnvOk E files}.
Abbreviation table_of := (table_of (C := C) ucmp addr block_size restart_interval compression policy dbname files).
Abbreviation inputs_ok := (inputs_ok ucmp addr block_size restart_interval compression policy).
Abbreviation filters0 := (FileLevelFilterBuilder.new (filter_policy opt)).
Context (Hid : cmp_identity ucmp) (Hkn : KeyNumOk ucmp bytes_ok).

Lemma keys_before_entry e e' : point_entry e -> point_entry e' -> entry_seq e <> entry_seq e' ->
  KeyComparator ucmp (ientry_bytes (to_ientry e)) (ientry_bytes (to_ientry e')) < 0 -> before_entry ucmp e e'.
Proof.
  intros He He' Hne. rewrite compare_entries by (apply He || apply He'). unfold ikey. rewrite icmp_encode by (apply He || apply He'). cbv zeta.
  pose proof (point_user _ He) as Hu. pose proof (point_user _ He') as Hu'.
  destruct e as [[[s t] k] v], e' as [[[s' t'] k'] v']. cbn [to_ientry fst user_key sequence] in *. unfold before_entry. cbn.
  destruct (Z.eqb_spec (Compare ucmp k k') 0) as [Eq|Hk]; [|by left].
  destruct (Z.compare_spec s' s); [by destruct Hne|intros _; right|done]. split; [by apply Hid|done].
Qed.
Lemma memtable_entries es : Forall point_entry es -> NoDup (entry_seq <$> es) ->
  exists m es', fold_left (add ucmp) es (Some MemTable_new) = Some m /\ es' ≡ₚ es /\ in_order ucmp es' /\
    at_pos (H := MemTableIterator_ops ucmp) (InternalKeyComparator ucmp) seek_target (kvs es') (NewIterator m) None.
Proof.
  intros Hes Hnd. destruct (fold_add_holds ucmp Hc Hkn es) as (m & ns & ies & Em & Hm & Hp); [|done|].
  { eapply Forall_impl; [exact Hes|]. intros e He. apply He. }
  apply Permutation_map_inv in Hp as (es' & -> & Hp). change (map to_ientry es') with (to_ientry <$> es') in *.
  assert (Forall point_entry es') as Hes' by by rewrite <- Hp. exists m, es'. split; [done|]. split; [by symmetry|]. split.
  - split; [|done]. pose proof (holds_sorted _ _ _ _ Hm) as Hs. rewrite Hp in Hnd. clear - Hid Hc Hs Hes' Hnd.
    induction Hes' as [|e es' He Hes' IH]; [constructor|]. rewrite !fmap_cons in Hs. rewrite fmap_cons in Hnd. apply StronglySorted_inv in Hs as [Hs Hlt].
    apply NoDup_cons in Hnd as [Hnin Hnd]. constructor; [by apply IH|]. rewrite !Forall_fmap, Forall_forall in Hlt. rewrite Forall_forall in Hes'. apply Forall_forall.
    intros e' Hin. apply keys_before_entry; [done|by apply Hes'| |by apply Hlt]. intros Eq. apply Hnin. rewrite Eq. by apply list_elem_of_fmap_2.
  - exists (mi_pos m ns). split; [|done]. by apply (MemTableIterator_ok ucmp Hc Hkn m ns _ Hm).
Qed.

(** Consecutive numbers are reserved. *)
Lemma reserve_numbers_ok n : forall d : DB E T, 0 <= next_file_number_ (versions_ d) -> next_file_number_ (versions_ d) + Z.of_nat n < 2 ^ 64 ->
  let numbers := seqZ (next_file_number_ (versions_ d)) (Z.of_nat n) in
  reserve_numbers n d = (numbers, set_pending_outputs (set_versions d (VersionSet.set_next (versions_ d) (next_file_number_ (versions_ d) + Z.of_nat n)))
    (list_to_set numbers ∪ pending_outputs_ d)).
Proof.
  induction n as [|n IH]; intros d H0 Hlt; cbv zeta.
  - cbn [reserve_numbers Z.of_nat]. rewrite Z.add_0_r. replace (list_to_set (seqZ _ 0) ∪ _) with (pending_outputs_ d) by (cbn; set_solver). by destruct d as [? [] ? ? ? ? ? ? ? ? ? ?].
  - cbn [reserve_numbers NewFileNumber]. rewrite u64_small by (unfold is_u64; lia). rewrite IH; cbn [versions_ set_pending_outputs set_versions VersionSet.set_next next_file_number_ set_numbers]; [|lia..].
    rewrite (seqZ_cons (next_file_number_ (versions_ d)) (Z.of_nat (S n))) by lia.
    rewrite Nat2Z.inj_succ, Z.pred_succ, <- Z.add_1_r. f_equal. rewrite <- Z.add_assoc, (Z.add_comm 1).
    unfold set_pending_outputs, set_versions, VersionSet.set_next, set_numbers. cbn. f_equal. set_solver.
Qed.

(** The edit with the files of level 0. *)
Definition add_files (edit : VersionEdit) (metas : list FileMetaData) : VersionEdit :=
  fold_left (fun e m => AddFile e 0 (f_number m) (f_file_size m) (f_smallest m) (f_largest m)) metas edit.
Lemma level0_files metas : Forall (fun m => 0 < f_file_size m) metas -> forall edit numbers,
  fold_left (add_level0_file OK) metas (edit, numbers) = (add_files edit metas, numbers ++ (f_number <$> metas)).
Proof.
  induction 1 as [|m metas Hm _ IH]; intros edit numbers; [by rewrite app_nil_r|]. cbn [fold_left]. unfold add_level0_file at 2.
  cbn [ok OK andb fst snd]. rewrite (proj2 (Z.ltb_lt _ _) Hm), IH. by rewrite <- app_assoc.
Qed.
(** A table that scans has a footer. *)
Lemma table_of_size e o part : table_of e o part -> 0 < file_size o.
Proof.
  intros [_ _ (f & _ & -> & Hs)]. destruct (Hs None true true (S (length part))) as (t & c & Ho & _); [done|lia|].
  destruct (decide (f = [])) as [->|Hf]; [exfalso|destruct f; [done|unfold blen; cbn; lia]]. by cbn in Ho.
Qed.
Lemma tables_sized e metas parts : Forall2 (table_of e) (meta_out <$> metas) parts -> Forall (fun m => 0 < f_file_size m) metas.
Proof.
  revert parts. induction metas as [|m metas IH]; intros parts H; [constructor|]. rewrite fmap_cons in H.
  apply Forall2_cons_inv_l in H as (part & parts' & Hm & H & ->). constructor; [exact (table_of_size _ _ _ Hm)|by eapply IH].
Qed.

(** Entries of a memtable and the guards of level 0. *)
Record memtable_ok (es : list entry) (guards : list GuardMetaData) : Prop := {
  me_points : Forall point_entry es;
  me_distinct : NoDup (entry_seq <$> es);
  me_values : Forall (fun e => bytes_ok (snd (to_ientry e))) es;
  me_size : table_size (kvs es) < 2 ^ 32;
  me_filters : forall part r, part ⊆+ es ->
    TableBuilder.add_entries (TableBuilder.new opt []) (kvs part) = Some r -> filter_bytes r + 5 < 2 ^ 32;
  me_guards : StronglySorted (fun g g' => Compare ucmp (guard_user_key g) (guard_user_key g') <= 0) guards;
  me_guard_keys : Forall (fun g => bytes_ok (guard_user_key g)) guards;
}.
Lemma memtable_inputs es es' guards : memtable_ok es guards -> es' ≡ₚ es -> in_order ucmp es' -> inputs_ok es' guards.
Proof.
  intros [H1 H2 H3 H4 H5 H6 H7] Hp Ho. split; [done|by rewrite Hp| | |done|done].
  - unfold table_size in *. rewrite (kv_size_perm _ (kvs es)) by (by apply fmap_Permutation, fmap_Permutation). unfold blen in *. rewrite kvs_length in *. by rewrite Hp.
  - intros part r Hs. apply H5. rewrite <- Hp. by apply sublist_submseteq.
Qed.

(** The database after the entries [es] were written out. *)
Record written_out (d d' : DB E T) (edit edit' : VersionEdit) (es : list entry) (guards : list GuardMetaData) (numbers : list Z)
    (filters : list (option bytes)) (metas : list FileMetaData) (parts : list (list entry)) : Prop := {
  wo_tables : Forall2 (table_of (env_ d')) (meta_out <$> metas) parts;
  wo_some : Forall (fun part => part <> []) parts;
  wo_all : concat parts ≡ₚ es;
  wo_order : in_order ucmp (concat parts);
  wo_guards : forall g part, g ∈ guards -> part ∈ parts -> cut_at ucmp g part;
  wo_numbers : f_number <$> metas = take (length parts) numbers;
  wo_edit : edit' = add_files edit metas;
  wo_filters : filters = filters_of (filter_policy opt) parts;
  wo_pending : pending_outputs_ d' = list_to_set numbers ∪ pending_outputs_ d;
  wo_versions : versions_ d' = VersionSet.set_next (versions_ d) (next_file_number_ (versions_ d) + Z.of_nat (length numbers));
  wo_frame : forall f, (forall n, n ∈ numbers -> f <> TableFileName dbname n) -> files (env_ d') !! f = files (env_ d) !! f;
}.

(** A memtable whose iterator gives the entries in order. *)
Lemma write_memtable_ok (m : MemTable) (es es' : list entry) (base : option Version) (d : DB E T) (edit : VersionEdit) (fuel : nat) p
  (guards := match base with Some v => at_level (guards_ v) 0 | None => [] end)
  (numbers := seqZ (next_file_number_ (versions_ d)) (Z.of_nat (S (length guards)))) : memtable_ok es guards ->
  0 <= next_file_number_ (versions_ d) -> next_file_number_ (versions_ d) + Z.of_nat (S (length guards)) < 2 ^ 64 ->
  reliable (E := E) -> opens_tables ucmp addr block_size restart_interval compression policy dbname files es' ->
  es' ≡ₚ es -> in_order ucmp es' ->
  at_pos (H := MemTableIterator_ops ucmp) (InternalKeyComparator ucmp) seek_target (kvs es') (NewIterator m) p -> (length es < fuel)%nat ->
  exists d' edit' filters metas parts,
    WriteLevel0TableGuards ucmp opt dbname fuel d m edit base [] filters0 [] = Some (OK, d', edit', numbers, filters0, filters) /\
    written_out d d' edit edit' es guards numbers filters metas parts.
Proof.
  intros Hes H0 Hroom Hrel Hopens Hp Ho Hit Hfuel.
  pose proof (memtable_inputs _ _ _ Hes Hp Ho) as Hin. pose proof (reserve_numbers_ok (S (length guards)) d H0 Hroom) as Hr. cbv zeta in Hr.
  fold numbers in Hr. set (d1 := set_pending_outputs _ _) in Hr.
  assert (length numbers = S (length guards)) as Hlen by (unfold numbers; rewrite length_seqZ; lia).
  destruct (BuildLevel0Tables_ok (C := C) (HI := MemTableIterator_ops ucmp) ucmp Hc addr block_size restart_interval compression policy Hopt Hname dbname files seek_target es' guards d1 numbers fuel (NewIterator m) p Hin) as (b & Hb & Hfl);
    [apply NoDup_seqZ|apply Forall_forall; intros n [? ?]%elem_of_seqZ; unfold is_u64; lia|done|done|done|done|by rewrite Hp|].
  pose proof Hfl as [F1 F2 F3 F4 F5 F6 F7 (env & t & F8) F9].
  assert (length (bl_metas b) = length (split_guards ucmp guards es')) as Hl by (apply Forall2_length in F1; by rewrite length_fmap in F1).
  pose proof (tables_sized _ _ _ F1) as Hsz.
  exists (bl_db b), (add_files edit (bl_metas b)), (bl_filters b), (bl_metas b), (split_guards ucmp guards es'). split.
  - unfold WriteLevel0TableGuards. fold guards. rewrite Hr, Hb. cbn [mbind option_bind]. rewrite level0_files by done.
    rewrite app_nil_l, Hl, F5, take_drop, F7. done.
  - split; try done; [by rewrite F3|by rewrite F3|by rewrite F8|]. rewrite F8, Hlen. done.
Qed.

(** C4: Writing a memtable out loses nothing: for any entries with different sequence
    numbers, in any order of arrival, and any guards of level 0 in order, in an environment
    whose calls do not fail, [WriteLevel0TableGuards] ends with status OK.  Every entry is in
    exactly one of the tables the edit gets; each table opens and scans to its entries, has
    the range recorded for it, lies on one side of every guard and has a number that was
    reserved and a filter of its keys; the numbers handed back are all the reserved ones,
    used or not, and other files are as they were. *)
Theorem memtable_written_out (es : list entry) (base : option Version) (d : DB E T) (edit : VersionEdit) (fuel : nat)
  (guards := match base with Some v => at_level (guards_ v) 0 | None => [] end)
  (numbers := seqZ (next_file_number_ (versions_ d)) (Z.of_nat (S (length guards))))
  (Hes : memtable_ok es guards)
  (H0 : 0 <= next_file_number_ (versions_ d)) (Hroom : next_file_number_ (versions_ d) + Z.of_nat (S (length guards)) < 2 ^ 64)
  (Hrel : reliable (E := E))
  (Hopens : forall es', es' ≡ₚ es -> in_order ucmp es' -> opens_tables ucmp addr block_size restart_interval compression policy dbname files es')
  (Hfuel : (length es < fuel)%nat) :
  exists m d' edit' filters metas parts, fold_left (add ucmp) es (Some MemTable_new) = Some m /\
    WriteLevel0TableGuards ucmp opt dbname fuel d m edit base [] filters0 [] = Some (OK, d', edit', numbers, filters0, filters) /\
    written_out d d' edit edit' es guards numbers filters metas parts.
Proof.
  destruct (memtable_entries es (me_points _ _ Hes) (me_distinct _ _ Hes)) as (m & es' & Em & Hp & Ho & Hit).
  destruct (write_memtable_ok m es es' base d edit fuel None Hes H0 Hroom Hrel (Hopens es' Hp Ho) Hp Ho Hit Hfuel)
    as (d' & edit' & filters & metas & parts & Hw). by exists m, d', edit', filters, metas, parts.
Qed.
End Memtable.

(** ** Runs *)

#[export] Instance disk_DirEnvOk : DirEnvOk (gmap (list Z) (list Z)) id.
Proof. by split. Qed.
Lemma disk_reliable : reliable (E := gmap (list Z) (list Z)).
Proof. by split. Qed.

Section Example.
Abbreviation Disk := (gmap (list Z) (list Z)).
Abbreviation dbname := (str "/db").
Abbreviation bloom := (BloomPolicy (mkBloomFilterPolicy 10)).
Abbreviation mem_options := (db_options BytewiseComparator 0 4096 16 kNoCompression (Some bloom)).
#[local] Existing Instance no_snappy.
#[local] Existing Instance no_snappy_ok.
#[export] Instance disk_opens : TableOpens MapTables Disk := {
  table_status t e n size :=
    (match e !! TableFileName dbname n with
     | Some f => fst (fst (Table.Open (C := MapCache) mem_options None f size))
     | None => NotFound []
     end, t);
  Evict t n := delete n t; }.
Definition flush_db : DB Disk MapTables :=
  let d := merge_db in
  {| env_ := {[ str "/db/CURRENT" := str "MANIFEST-000002" ]};
     versions_ := versions_ d; table_cache_ := ∅; pending_outputs_ := ∅; snapshots_ := [];
     manual_garbage_cutoff_ := kMaxSequenceNumber; levels_locked_ := levels_locked_ d; bg_error_ := OK; manual_compaction_ := None;
     straight_reads_ := 0; backup_in_progress_ := false; backup_deferred_delete_ := false |}.
(** In the order of arrival; the guard [c] of level 0 is between the last keys. *)
Definition flush_entries : list entry :=
  [(4, kTypeValue, [100], [3]); (5, kTypeValue, [97], [1]); (6, kTypeDeletion, [98], [])].
Definition flush_version : Version := set_guards merge_version (set_level no_levels 0 [example_guard [99] 0 []]).
Lemma small_filters es : forallb small_filter (sublists es ≫= permutations) = true -> forall part r, part ⊆+ es ->
  TableBuilder.add_entries (TableBuilder.new mem_options []) (kvs part) = Some r -> filter_bytes r + 5 < 2 ^ 32.
Proof.
  intros H part r Hp Hr. apply submseteq_sublist_r in Hp as (l & Hp & Hl).
  assert (part ∈ (sublists es ≫= permutations)) as Hin.
  { apply list_elem_of_bind. exists l. split; [by apply permutations_Permutation; symmetry|by apply sublists_spec]. }
  rewrite forallb_forall in H. specialize (H part ltac:(by apply list_elem_of_In)). unfold small_filter in H. rewrite Hr in H. by apply Z.ltb_lt.
Qed.
Lemma flush_memtable_ok : memtable_ok BytewiseComparator 0 4096 16 kNoCompression (Some bloom) flush_entries [example_guard [99] 0 []].
Proof.
  split.
  - repeat constructor; vm_compute; done.
  - apply (bool_decide_unpack _). vm_compute. exact I.
  - repeat constructor; done.
  - by vm_compute.
  - apply small_filters. vm_compute. reflexivity.
  - repeat constructor.
  - repeat constructor; done.
Qed.
Lemma disk_opens_tables es0 guards es : memtable_ok BytewiseComparator 0 4096 16 kNoCompression (Some bloom) es0 guards ->
  es ≡ₚ es0 -> in_order BytewiseComparator es ->
  opens_tables BytewiseComparator 0 4096 16 kNoCompression (Some bloom) dbname (E := Disk) id es.
Proof.
  intros Hok Hp Ho t e n part f Hs Hpt Hf. unfold id in Hf. cbn [table_status disk_opens fst]. rewrite Hf.
  pose proof (memtable_inputs _ _ _ _ _ _ _ _ _ Hok Hp Ho) as Hin.
  destruct (part_scans (C := MapCache) BytewiseComparator _ 0 4096 16 kNoCompression (Some bloom) ltac:(split; [done|by left])
    ltac:(intros p [= <-]; split; [repeat constructor; done|by vm_compute]) _ _ part f Hin Hs Hpt None true true
    (S (length part))) as (tb & cache & -> & _); [done|lia|done].
Qed.
Lemma memtable_written_out_witness : exists m d' edit' filters metas parts,
  WriteLevel0TableGuards BytewiseComparator mem_options dbname 4 flush_db m VersionEdit_new (Some flush_version) []
    (FileLevelFilterBuilder.new (filter_policy mem_options)) [] =
    Some (OK, d', edit', [21; 22], FileLevelFilterBuilder.new (filter_policy mem_options), filters) /\
  written_out (C := MapCache) BytewiseComparator 0 4096 16 kNoCompression (Some bloom) dbname id flush_db d' VersionEdit_new edit'
    flush_entries [example_guard [99] 0 []] [21; 22] filters metas parts /\
  env_ d' !! str "/db/CURRENT" = Some (str "MANIFEST-000002").
Proof.
  destruct (memtable_written_out (C := MapCache) BytewiseComparator _ 0 4096 16 kNoCompression (Some bloom)
    ltac:(split; [done|by left]) ltac:(intros q [= <-]; split; [repeat constructor; done|by vm_compute]) dbname id Bytewise_identity _
    flush_entries (Some flush_version) flush_db VersionEdit_new 4)
    as (m & d' & edit' & filters & metas & parts & _ & Hrun & Hw);
    [exact flush_memtable_ok|by vm_compute|by vm_compute|exact disk_reliable|intros es Hp Ho; exact (disk_opens_tables _ _ es flush_memtable_ok Hp Ho)|cbn; lia|].
  exists m, d', edit', filters, metas, parts. split; [exact Hrun|]. split; [exact Hw|]. clear Hrun.
  pose proof (wo_frame _ _ _ _ _ _ _ _ _ _ _ _ _ _ _ _ _ _ Hw (str "/db/CURRENT")) as Hf. unfold id in Hf. rewrite Hf; [vm_compute; reflexivity|].
  intros n Hn. change (n ∈ [21; 22]) in Hn. rewrite !elem_of_cons, elem_of_nil in Hn. destruct Hn as [->|[->|[]]]; vm_compute; congruence.
Defined.

(** *** A table that is not synced *)

Abbreviation MemEnv := (nat * gmap (list Z) (list Z))%type.
(** The file system fails to sync tables, for instance because the disk is full, and does
    everything else. *)
Definition is_table_name (f : bytes) : bool := bool_decide (drop (length f - 4) f = str ".sst").
Definition unsynced_Env : Env MemEnv := {|
  NewWritableFile := NewWritableFile; AppendToFile := AppendToFile;
  SyncFile e f := if is_table_name f then (IOError f (str "No space left on device"), e) else SyncFile e f;
  CloseFile := CloseFile; RemoveFile := RemoveFile; RenameFile := RenameFile |}.
#[local] Instance unsynced_opens : TableOpens MapTables MemEnv := {
  table_status t e n size :=
    (match snd e !! TableFileName dbname n with
     | Some f => fst (fst (Table.Open (C := MapCache) mem_options None f size))
     | None => NotFound []
     end, t);
  Evict t n := delete n t; }.
(** The memtable has the entries of the log 19; log 20 is the one in use. *)
Definition unsynced_thread : option (MemThread (E := MemEnv) (T := MapTables)) :=
  m ← fold_left (add BytewiseComparator) flush_entries (Some MemTable_new);
  let d := merge_db in
  Some {| mt_db := set_env d (100%nat, {[ str "/db/000019.log" := [1; 2; 3]; str "/db/000020.log" := [] ]}); imm_ := Some (Ref m);
          logfile_number_ := 20; mt_fb := FileLevelFilterBuilder.new (filter_policy mem_options); first_memtable_compaction := true |}.
Definition unsynced_round : option (Status * MemThread) :=
  m ← unsynced_thread;
  CompactMemTable_round (HE := unsynced_Env) BytewiseComparator mem_options (str "leveldb.BytewiseComparator") dbname
    (replicate (Z.to_nat kNumLevels) (SpecFloat.S754_zero false)) 4 false m.
(** The tables of level 0 of the current version. *)
Definition level0_tables (d : DB MemEnv MapTables) : list Z :=
  match vs_objects (versions_ d) !! current_ (versions_ d) with
  | Some o => (fun a => f_number (deref (st_files (vs_store (versions_ d))) a)) <$> at_level (files_ (vo_version o)) 0
  | None => []
  end.

(** C28: A table that could not be synced is taken for written: [FinishFileCompletion]
    gets the status by value, so its errors stay in it.  In a run where the environment
    fails to sync the table of a memtable, the round of memtable compaction ends with
    status OK and no background error.  The memtable is dropped, the current version lists
    a table whose file was deleted, and the log that still had the entries is deleted as
    obsolete. *)
Theorem unsynced_flush_loses_memtable : exists before m, unsynced_thread = Some before /\ unsynced_round = Some (OK, m) /\
  bg_error_ (mt_db m) = OK /\ imm_ m = None /\ level0_tables (mt_db m) = [21] /\
  snd (env_ (mt_db m)) !! TableFileName dbname 21 = None /\
  snd (env_ (mt_db before)) !! str "/db/000019.log" = Some [1; 2; 3] /\ snd (env_ (mt_db m)) !! str "/db/000019.log" = None.
Proof.
  assert ((fun m => snd (env_ (mt_db m)) !! str "/db/000019.log") <$> unsynced_thread = Some (Some [1; 2; 3])) as Hb by (vm_compute; reflexivity).
  assert ((fun r => (fst r, bg_error_ (mt_db (snd r)), imm_ (snd r), level0_tables (mt_db (snd r)),
      snd (env_ (mt_db (snd r))) !! TableFileName dbname 21, snd (env_ (mt_db (snd r))) !! str "/db/000019.log")) <$> unsynced_round =
    Some (OK, OK, None, [21], None, None)) as Hr by (vm_compute; reflexivity).
  destruct unsynced_thread as [before|]; [|discriminate Hb]. destruct unsynced_round as [[s m]|]; [|discriminate Hr].
  injection Hb as Hb. cbn [fmap option_fmap option_map fst snd] in Hr. injection Hr as -> H1 H2 H3 H4 H5.
  exists before, m. split; [reflexivity|]. split; [reflexivity|]. repeat split; assumption.
Qed.
End Example.
