(* ===== verification/DbRecover.v ===== *)
(** * Opening a database

    Models [NewDB], [MaybeIgnoreError], [RecoverLogFile] and [Recover] of
    [src/pebblesdb/src/db/db_impl.cc]: what [DB::Open] reads back from the manifest and the
    logs.

    The memory a memtable uses is a parameter.  A failed [assert] and an index beyond the end
    of a vector are the outcome [None]. *)

From Stdlib Require Import SpecFloat.
From stdpp Require Import gmap sorting.
From S2P Require Import Prelude Coding Status Comparator DbFormat Bloom LogFormat Iterator WriteBatch VersionEdit.
From S2P Require Import FileName FilterBlock TableFormat Table MemTable TableGet.
From S2P Require Import Version VersionBuilder VersionSet Compaction DbImpl Builder MemCompact.
From stdpp Require Import list.
#[local] Open Scope Z_scope.

(** What opening a database needs of the environment besides. *)
Class OpenEnv (E : Type) := {
  CreateDir : E -> bytes -> Status * E;
  LockFile : E -> bytes -> Status * E;
  FileExists : E -> bytes -> bool;
  ListChildren : E -> bytes -> Status * list (list Z);
}.
Record OpenOptions := {
  create_if_missing : bool;
  error_if_exists : bool;
  paranoid_checks : bool;
  write_buffer_size : Z;
}.

(** The batch goes to the memtable and its guards to the version. *)
Definition recover_InsertTarget (ucmp : Comparator) : InsertTarget (option MemTable) (option Version) := {|
  MemTable_Add m s t k v := add ucmp m (s, t, k, v);
  WriteBatch.AddToCompleteGuards v ikey level :=
    v ← v;
    Version.AddToCompleteGuards v {| g_refs := 1; g_level := level; g_number_segments := 0; g_guard_key := ikey;
                                     g_smallest := []; g_largest := []; g_files := []; g_file_metas := [] |} level;
|}.

Section Recover.
Context (ucmp : Comparator) (opt : Options) (oo : OpenOptions) (cmp_name dbname : bytes) (garbage : list spec_float).
Context (asserts : bool) (ApproximateMemoryUsage : MemTable -> Z).
Context {E T F : Type} `{HE : Env E} `{HD : DirEnv E} `{HO : OpenEnv E} `{HT : TableOpens T E} `{HM : ManifestEnv E F}.
Context `{HF : SequentialFile F} `{HS : Snappy}.
Abbreviation db := (DB E T).
Abbreviation filter_builder := FileLevelFilterBuilder.FileLevelFilterBuilder.

Definition NewDB (env : E) : option (Status * E) :=
  let new_db := VersionEdit.SetLastSequence (SetNextFile (SetLogNumber (SetComparatorName VersionEdit_new cmp_name) 0) 2) 0 in
  let manifest := DescriptorFileName dbname 1 in
  let '(s, env) := NewConcurrentWritableFile env manifest in
  if negb (ok s) then Some (s, env)
  else
    '(env, s, _) ← descriptor_AddRecord env (manifest, 0) (EncodeTo new_db []);
    let '(s, env) := if ok s then CloseFile env manifest else (s, env) in
    Some (if ok s then SetCurrentFile env dbname 1 else (s, snd (RemoveFile env manifest))).

Definition MaybeIgnoreError (s : Status) : Status := if ok s || paranoid_checks oo then s else OK.

(** ** RecoverLogFile *)

(** The variables of the loop. *)
Record Replay := {
  rp_db : db;
  rp_edit : VersionEdit;
  rp_max : Z;
  rp_mem : option MemTable;
  rp_fb : filter_builder;
}.
Definition set_current_version (d : db) (v : Version) : option db :=
  vs ← on_version (versions_ d) (current_ (versions_ d)) (fun _ => Some v); Some (set_versions d vs).
Definition current_version (d : db) : option Version :=
  o ← vs_objects (versions_ d) !! current_ (versions_ d); Some (vo_version o).
Definition insert_batch (d : db) (mem : MemTable) (batch : WriteBatch) : option (Status * db * MemTable) :=
  v ← current_version d;
  '(s, ins) ← InsertIntoVersion (H := recover_InsertTarget ucmp) batch (Some mem) (Some v);
  mem ← mem_ ins;
  v ← version_ ins; v ← v;
  d ← set_current_version d v;
  Some (s, d, mem).
(** A corruption is kept with paranoid checks only. *)
Definition reported (s : Status) (reports : list Reader.report) : Status :=
  if paranoid_checks oo then report_status s reports else s.
(** One record; the outcome has [true] when the loop ends. *)
Definition replay_record (fuel : nat) (rp : Replay) (record : bytes) : option (bool * Status * Replay) :=
  if blen record <? 12 then
    Some (false, reported OK [(blen record, Corruption (str "log record too small"))], rp)
  else
    let batch := SetContents record in
    '(s, d, mem) ← insert_batch (rp_db rp) (default (Ref MemTable_new) (rp_mem rp)) batch;
    let s := MaybeIgnoreError s in
    let rp := {| rp_db := d; rp_edit := rp_edit rp; rp_max := rp_max rp; rp_mem := Some mem; rp_fb := rp_fb rp |} in
    if negb (ok s) then Some (true, s, rp)
    else
      let last_seq := u64 (Sequence batch + Count batch - 1) in
      let max := if rp_max rp <? last_seq then last_seq else rp_max rp in
      let rp := {| rp_db := d; rp_edit := rp_edit rp; rp_max := max; rp_mem := Some mem; rp_fb := rp_fb rp |} in
      if write_buffer_size oo <? ApproximateMemoryUsage mem then
        '(s, d, edit, numbers, fb, filters) ←
          WriteLevel0TableGuards ucmp opt dbname fuel d mem (rp_edit rp) (current_version d) [] (rp_fb rp) [];
        if negb (ok s) then
          Some (true, s, {| rp_db := d; rp_edit := edit; rp_max := max; rp_mem := Some mem; rp_fb := fb |})
        else
          let vs := set_level_filters (versions_ d) (AddFilters (file_level_bloom_filter (versions_ d)) numbers filters) in
          Some (false, s, {| rp_db := set_versions d vs; rp_edit := edit; rp_max := max; rp_mem := None; rp_fb := fb |})
      else Some (false, s, rp).
Fixpoint replay_loop (n fuel : nat) (r : Reader.Reader F) (s : Status) (rp : Replay) : option (Status * Replay) :=
  match n with
  | O => None
  | S n =>
      '(rec, r') ← Reader.ReadRecord fuel r;
      let s := reported s (drop (length (reports r)) (reports r')) in
      match rec with
      | None => Some (s, rp)
      | Some record =>
          if negb (ok s) then Some (s, rp)
          else
            '(ended, s, rp) ← replay_record fuel rp record;
            if (ended : bool) then Some (s, rp) else replay_loop n fuel r' s rp
      end
  end.
(** The last memtable; there must be a filter for every number. *)
Definition write_last (fuel : nat) (rp : Replay) (mem : MemTable) : option (Status * db * VersionEdit) :=
  '(s, d, edit, numbers, fb, filters) ←
    WriteLevel0TableGuards ucmp opt dbname fuel (rp_db rp) mem (rp_edit rp) (current_version (rp_db rp)) [] (rp_fb rp) [];
  vs ← (match filter_policy opt with
        | Some _ => if (length filters <? length numbers)%nat then None
                    else Some (set_level_filters (versions_ d) (AddFilters (file_level_bloom_filter (versions_ d)) numbers filters))
        | None => Some (versions_ d)
        end);
  Some (s, set_pending_outputs (set_versions d vs) (pending_outputs_ d ∖ list_to_set numbers), edit).
Definition RecoverLogFile (n fuel : nat) (d : db) (log_number : Z) (edit : VersionEdit) (max_sequence : Z)
    : option (Status * db * VersionEdit * Z) :=
  let '(s, file) := NewSequentialFile (env_ d) (LogFileName dbname log_number) in
  if negb (ok s) then Some (MaybeIgnoreError s, d, edit, max_sequence)
  else
    '(s, rp) ← replay_loop n fuel (Reader.new file true true 0) s
      {| rp_db := d; rp_edit := edit; rp_max := max_sequence; rp_mem := None;
         rp_fb := FileLevelFilterBuilder.new (filter_policy opt) |};
    v ← current_version (rp_db rp);
    let edit := AddCompleteGuardsToEdit v (AddGuardsToEdit v (rp_edit rp) []) in
    let rp := {| rp_db := rp_db rp; rp_edit := edit; rp_max := rp_max rp; rp_mem := rp_mem rp; rp_fb := rp_fb rp |} in
    match rp_mem rp with
    | Some mem => if ok s then '(s, d, edit) ← write_last fuel rp mem; Some (s, d, edit, rp_max rp)
                  else Some (s, rp_db rp, edit, rp_max rp)
    | None => Some (s, rp_db rp, edit, rp_max rp)
    end.

(** ** Recover *)

(** The files found: the logs to replay and the tables still missing. *)
Definition scan_children (min_log prev_log : Z) (names : list bytes) (expected : gset Z) : gset Z * list Z :=
  fold_left (fun p name =>
    match ParseFileName name with
    | Some (number, type) =>
        (fst p ∖ {[ number ]},
         match type with
         | kLogFile => if (min_log <=? number) || (number =? prev_log) then snd p ++ [number] else snd p
         | _ => snd p
         end)
    | None => p
    end) names (expected, []).
Fixpoint replay_logs (n fuel : nat) (logs : list Z) (s : Status) (d : db) (edit : VersionEdit) (max_sequence : Z)
    : option (Status * db * VersionEdit * Z) :=
  match logs with
  | [] => Some (s, d, edit, max_sequence)
  | log :: logs =>
      '(s, d, edit, max_sequence) ← RecoverLogFile n fuel d log edit max_sequence;
      replay_logs n fuel logs s (set_versions d (MarkFileNumberUsed (versions_ d) log)) edit max_sequence
  end.
Definition least (numbers : gset Z) : Z := match elements numbers with [] => 0 | x :: l => fold_left Z.min l x end.
Definition missing_files (expected : gset Z) : Status :=
  mkStatus kCorruption (NumberToString (Z.of_nat (size expected)) ++ str " missing files; e.g.") (TableFileName dbname (least expected)).
Definition recover_logs (n fuel : nat) (d : db) (edit : VersionEdit) : option (Status * db * VersionEdit) :=
  let '(s, names) := ListChildren (env_ d) dbname in
  if negb (ok s) then Some (s, d, edit)
  else
    expected ← AddLiveFiles (versions_ d) ∅;
    let '(expected, logs) := scan_children (log_number_ (versions_ d)) (prev_log_number_ (versions_ d)) names expected in
    if negb (bool_decide (expected = ∅)) then Some (missing_files expected, d, edit)
    else
      '(s, d, edit, max_sequence) ← replay_logs n fuel (std_sort Z.ltb logs) s d edit 0;
      let vs := if ok s && (last_sequence_ (versions_ d) <? max_sequence)
                then VersionSet.SetLastSequence (versions_ d) max_sequence else versions_ d in
      Some (s, set_versions d vs, edit).
Definition DBImpl_Recover (n fuel : nat) (d : db) (edit : VersionEdit) : option (Status * db * VersionEdit) :=
  let env := snd (CreateDir (env_ d) dbname) in
  let '(s, env) := LockFile env (LockFileName dbname) in
  if negb (ok s) then Some (s, set_env d env, edit)
  else
    '(s, env) ← (if FileExists env (CurrentFileName dbname)
                 then Some (if error_if_exists oo then mkStatus kInvalidArgument dbname (str "exists (error_if_exists is true)") else OK, env)
                 else if create_if_missing oo then NewDB env
                 else Some (mkStatus kInvalidArgument dbname (str "does not exist (create_if_missing is false)"), env));
    let d := set_env d env in
    if negb (ok s) then Some (s, d, edit)
    else
      '(s, vs) ← VersionSet.Recover ucmp cmp_name dbname asserts garbage n fuel env (versions_ d);
      let d := set_versions d vs in
      if ok s then recover_logs n fuel d edit else Some (s, d, edit).
End Recover.
