(* ===== verification/DbRecoverProofs.v ===== *)
(** * Replaying a log

    [RecoverLogFile] on a log cut anywhere: the batches that lie in the rest of it end up in
    tables of level 0. *)

From stdpp Require Import gmap sorting.
From S2P Require Import Prelude Coding Status Crc32c Comparator DbFormat Bloom LogFormat LogProofs Iterator Block BlockProofs.
From S2P Require Import FilterBlock TableFormat FileName Table TableProofs TableReader TableSpec WriteBatch Merger.
From S2P Require Import VersionEdit MemTable TableGet Version VersionBuilder VersionSet VersionGet VersionSetSafety.
From S2P Require Import Compaction DbImpl CompactionDrop TableEnv CompactionRun CompactionSafety ObsoleteFiles.
From S2P Require Import Builder MemCompact BuilderProofs FlushSafety DbRecover.
From stdpp Require Import list.
#[local] Open Scope Z_scope.

(** ** Batches *)

(** The entries of a batch that is inserted together with its guards: a guard takes a
    sequence number too. *)
Fixpoint batch_entries (seq : Z) (ops : list wb_op) : list entry :=
  match ops with
  | [] => []
  | OpPut k v :: ops => (seq, kTypeValue, k, v) :: batch_entries (seq + 1) ops
  | OpDelete k :: ops => (seq, kTypeDeletion, k, []) :: batch_entries (seq + 1) ops
  | OpGuard _ _ :: ops => batch_entries (seq + 1) ops
  end.
Definition guard_level_ok (op : wb_op) : Prop := match op with OpGuard _ l => 0 <= l < kNumLevels | _ => True end.

Section Batch.
Context (ucmp : Comparator).
#[local] Existing Instance recover_InsertTarget.
Abbreviation inserter := (@MemTableInserter (option MemTable) (option Version)).

Lemma insert_version_ops ops : forall seq (m : option MemTable) v, 0 <= seq -> seq + blen ops < 2 ^ 64 -> Forall guard_level_ok ops ->
  exists gs s, fold_left (handle_op (H0 := MemTableInserter_Handler (H := recover_InsertTarget ucmp))) ops
    {| sequence_ := seq; mem_ := m; version_ := Some (Some v) |} =
    {| sequence_ := s; mem_ := fold_left (add ucmp) (batch_entries seq ops) m; version_ := Some (Some (set_complete_guards v gs)) |}.
Proof.
  induction ops as [|op ops IH]; intros seq m v Hs Hl Hg; cbn [fold_left].
  { exists (complete_guards_ v), seq. cbn. by destruct v. }
  rewrite blen_cons in Hl. pose proof (blen_nonneg ops). apply Forall_cons in Hg as [Hg1 Hg].
  destruct op as [k x|k|k l]; cbn [batch_entries handle_op HandlePut HandleDelete HandleGuard MemTableInserter_Handler sequence_ mem_ version_ fold_left];
    rewrite ?u64_small by (unfold is_u64; lia); cbn [MemTable_Add recover_InsertTarget WriteBatch.AddToCompleteGuards mbind option_bind].
  - destruct (IH (seq + 1) (add ucmp m (seq, kTypeValue, k, x)) v) as (gs & s & ->); [lia|lia|done|]. by exists gs, s.
  - destruct (IH (seq + 1) (add ucmp m (seq, kTypeDeletion, k, [])) v) as (gs & s & ->); [lia|lia|done|]. by exists gs, s.
  - unfold Version.AddToCompleteGuards. rewrite (proj2 (Z.leb_le _ _)), (proj2 (Z.ltb_lt _ _)) by apply Hg1. cbn [andb].
    match goal with |- context [set_complete_guards v ?x] => destruct (IH (seq + 1) m (set_complete_guards v x)) as (gs & s & ->); [lia|lia|done|] end.
    exists gs, s. done.
Qed.
End Batch.

(** ** The loop *)

#[local] Arguments db_options : simpl never.
Section Replay.
Context (ucmp : Comparator) (Hc : ComparatorOk ucmp bytes_ok).
Context `{HS : Snappy} {HSok : SnappyOk} {C : Type} `{HC : BlockCache C} {HCok : BlockCacheOk C}.
Context (addr block_size restart_interval compression : Z) (policy : option FilterPolicy).
Abbreviation opt := (db_options ucmp addr block_size restart_interval compression policy).
Context (Hopt : options_ok opt) (Hname : forall p, filter_policy opt = Some p -> name_ok p).
Context (dbname : bytes) {E T : Type} `{HE : Env E} `{HD : DirEnv E} `{HT : TableOpens T E} `{HM : ManifestEnv E (list Z)}.
Context (files : E -> gmap (list Z) (list Z)) {HEok : EnvOk E files} {HDok : DirEnvOk E files}.
Context (Hid : cmp_identity ucmp) (Hkn : KeyNumOk ucmp bytes_ok).
Context (oo : OpenOptions) (usage : MemTable -> Z).
Abbreviation table_of := (table_of (C := C) ucmp addr block_size restart_interval compression policy dbname files).
Abbreviation memtable_ok := (memtable_ok ucmp addr block_size restart_interval compression policy).
Abbreviation filters0 := (FileLevelFilterBuilder.new (filter_policy opt)).
Abbreviation replay := (@Replay E T).
Abbreviation next d := (next_file_number_ (versions_ d)).

Lemma memtable_ok_sub es es' guards : memtable_ok es' guards -> es ⊆+ es' -> memtable_ok es guards.
Proof.
  intros [H1 H2 H3 H4 H5 H6 H7] Hs. pose proof Hs as (l & Hl & Hp)%submseteq_sublist_l. split; [| | | | |done|done].
  - rewrite Forall_forall in H1 |- *. intros e He. apply H1. by eapply elem_of_submseteq.
  - rewrite <- Hp in H2. eapply sublist_NoDup; [exact H2|]. by apply (fmap_sublist entry_seq).
  - rewrite Forall_forall in H3 |- *. intros e He. apply H3. by eapply elem_of_submseteq.
  - eapply Z.le_lt_trans; [by apply table_size_sublist|]. unfold table_size in *. rewrite (kv_size_perm _ (kvs es')) by (by apply fmap_Permutation, fmap_Permutation).
    unfold blen in *. rewrite kvs_length in *. by rewrite Hp.
  - intros part r Hpart. apply H5. by etrans.
Qed.

Context (d0 : DB E T) (edit0 : VersionEdit) (guards : list GuardMetaData) (es0 : list entry).
Context (Hes0 : memtable_ok es0 guards) (Hrel : reliable (E := E)).
Context (Hopens : forall es, es ⊆+ es0 -> in_order ucmp es ->
  opens_tables ucmp addr block_size restart_interval compression policy dbname files es).
Context (H0 : 0 <= next d0).

(** The entries [fl] are in the tables [metas], [cur] in the memtable. *)
Record replayed (rp : replay) (fl cur : list entry) (metas : list FileMetaData) (parts : list (list entry)) : Prop := {
  ry_mem : match rp_mem rp with
           | Some m => fold_left (add ucmp) cur (Some (Ref MemTable_new)) = Some m
           | None => cur = []
           end;
  ry_tables : Forall2 (table_of (env_ (rp_db rp))) (meta_out <$> metas) parts;
  ry_some : Forall (fun part => part <> []) parts;
  ry_all : concat parts ≡ₚ fl;
  ry_edit : new_files_ (rp_edit rp) = new_files_ (add_files edit0 metas);
  ry_numbers : Forall (fun m => next d0 <= f_number m < next (rp_db rp)) metas;
  ry_distinct : NoDup (f_number <$> metas);
  ry_next : next d0 <= next (rp_db rp);
  ry_version : exists v, current_version (rp_db rp) = Some v /\ at_level (guards_ v) 0 = guards;
  ry_fb : rp_fb rp = filters0;
  ry_frame : forall f, (forall n, next d0 <= n < next (rp_db rp) -> f <> TableFileName dbname n) ->
    files (env_ (rp_db rp)) !! f = files (env_ d0) !! f;
}.
Lemma replayed_max rp max fl cur metas parts : replayed rp fl cur metas parts ->
  replayed {| rp_db := rp_db rp; rp_edit := rp_edit rp; rp_max := max; rp_mem := rp_mem rp; rp_fb := rp_fb rp |} fl cur metas parts.
Proof. intros []. by split. Qed.

Lemma add_files_new edit metas : new_files_ (add_files edit metas) = new_files_ edit ++
  ((fun m => (0, {| f_refs := 0; f_allowed_seeks := Z.shiftl 1 30; f_number := f_number m; f_file_size := f_file_size m;
                    f_smallest := f_smallest m; f_largest := f_largest m; f_guard := 0 |})) <$> metas).
Proof.
  revert edit. induction metas as [|m metas IH]; intros edit; [by rewrite app_nil_r|]. cbn [add_files fold_left]. unfold add_files in IH. rewrite IH.
  cbn. by rewrite <- app_assoc.
Qed.
Lemma add_files_from edit edit' metas metas' : new_files_ edit' = new_files_ (add_files edit metas) ->
  new_files_ (add_files edit' metas') = new_files_ (add_files edit (metas ++ metas')).
Proof. intros H. by rewrite !add_files_new, H, add_files_new, fmap_app, app_assoc. Qed.
Lemma fold_add_Ref es : forall m, fold_left (add ucmp) es (Some (Ref m)) = Ref <$> fold_left (add ucmp) es (Some m).
Proof.
  induction es as [|[[[s t] k] v] es IH]; intros m; [done|]. cbn [fold_left add].
  assert (MemTable.Add ucmp (Ref m) s t k v = Ref <$> MemTable.Add ucmp m s t k v) as -> by (unfold MemTable.Add; cbn [table_ Ref]; by destruct (SkipList.Insert _ _ _ _)).
  destruct (MemTable.Add ucmp m s t k v) as [m'|]; [apply IH|]. by rewrite !fold_add_None.
Qed.

(** A batch goes to the memtable; of the database only the complete guards change. *)
Lemma insert_batch_ok (d : DB E T) v m m' seq ops : current_version d = Some v -> ops_ok seq ops -> Forall guard_level_ok ops ->
  seq + blen ops < 2 ^ 64 -> fold_left (add ucmp) (batch_entries seq ops) (Some m) = Some m' ->
  exists vs gs, insert_batch ucmp d m (batch_of seq ops) = Some (OK, set_versions d vs, m') /\
    current_version (set_versions d vs) = Some (set_complete_guards v gs) /\ next_file_number_ vs = next d.
Proof.
  intros Hv Hok Hg Hl Hm. destruct (insert_version_ops ucmp ops seq (Some m) v) as (gs & s & Hi); [apply Hok|done|done|].
  unfold insert_batch. rewrite Hv. cbn [mbind option_bind]. unfold InsertIntoVersion. rewrite Iterate_batch by done.
  rewrite Sequence_batch by apply Hok. rewrite Hi. cbn [mbind option_bind mem_ version_]. rewrite Hm. cbn [mbind option_bind].
  unfold set_current_version, on_version. unfold current_version in Hv. destruct (vs_objects _ !! _) as [o|] eqn:Eo; [|done].
  cbn [mbind option_bind] in *. eexists _, gs. split; [done|]. split; [|done].
  unfold current_version. cbn [set_versions versions_ set_objects vs_objects current_]. by rewrite lookup_insert_eq.
Qed.

Lemma table_of_frame e e' o part : table_of e o part ->
  files e' !! TableFileName dbname (number o) = files e !! TableFileName dbname (number o) -> table_of e' o part.
Proof. intros [H1 H2 (f & H3 & H4)] Hf. split; [done|done|]. exists f. by rewrite Hf. Qed.
Lemma tables_frame e e' metas parts : Forall2 (table_of e) (meta_out <$> metas) parts ->
  (forall m, m ∈ metas -> files e' !! TableFileName dbname (f_number m) = files e !! TableFileName dbname (f_number m)) ->
  Forall2 (table_of e') (meta_out <$> metas) parts.
Proof.
  revert parts. induction metas as [|m metas IH]; intros parts H Hf; [apply Forall2_nil_inv_l in H as ->; constructor|]. rewrite fmap_cons in *.
  apply Forall2_cons_inv_l in H as (part & parts' & Hm & H & ->). constructor; [eapply table_of_frame; [exact Hm|apply Hf; by left]|].
  apply IH; [done|]. intros m' Hm'. apply Hf. by right.
Qed.

(** The memtable is written out. *)
Lemma flush_ok rp fl cur todo metas parts m fuel : replayed rp fl cur metas parts -> rp_mem rp = Some m -> fl ++ cur ++ todo = es0 ->
  next (rp_db rp) + Z.of_nat (S (length guards)) < 2 ^ 64 -> (length cur < fuel)%nat ->
  exists d' edit' metas' parts', let numbers := seqZ (next (rp_db rp)) (Z.of_nat (S (length guards))) in
    WriteLevel0TableGuards ucmp opt dbname fuel (rp_db rp) m (rp_edit rp) (current_version (rp_db rp)) [] (rp_fb rp) [] =
      Some (OK, d', edit', numbers, filters0, filters_of (filter_policy opt) parts') /\
    concat parts' ≡ₚ cur /\ Forall (fun part => part <> []) parts' /\ next d' = next (rp_db rp) + Z.of_nat (S (length guards)) /\
    forall vs pend max edit'', vs_objects vs = vs_objects (versions_ d') -> current_ vs = current_ (versions_ d') ->
      next_file_number_ vs = next d' -> new_files_ edit'' = new_files_ edit' ->
      replayed {| rp_db := set_pending_outputs (set_versions d' vs) pend; rp_edit := edit''; rp_max := max; rp_mem := None; rp_fb := filters0 |}
        (fl ++ cur) [] (metas ++ metas') (parts ++ parts').
Proof.
  intros [R1 R2 R3 R4 R5 R6 R7 R8 (v & R9 & Hg) R10 R11] Em Hes Hroom Hfuel. rewrite Em in R1.
  assert (cur ⊆+ es0) as Hsub by (rewrite <- Hes; apply submseteq_inserts_l, submseteq_inserts_r; done).
  pose proof (memtable_ok_sub _ _ _ Hes0 Hsub) as Hcur.
  destruct (memtable_entries ucmp Hc Hid Hkn cur (me_points _ _ _ _ _ _ _ _ Hcur) (me_distinct _ _ _ _ _ _ _ _ Hcur)) as (m1 & es' & Em1 & Hp & Ho & Hit).
  rewrite fold_add_Ref, Em1 in R1. cbn in R1. injection R1 as <-. rewrite R9, R10. rewrite <- Hg in *.
  destruct (write_memtable_ok ucmp Hc addr block_size restart_interval compression policy Hopt Hname dbname files Hid Hkn (Ref m1) cur es' (Some v)
    (rp_db rp) (rp_edit rp) fuel None Hcur) as (d' & edit' & filters & metas' & parts' & Hw & [W1 W2 W3 W4 W5 W6 W7 W8 W9 W10 W11]);
    [lia|done|done|by apply Hopens; [rewrite Hp|]|done|done|exact Hit|done|].
  assert (next d' = next (rp_db rp) + Z.of_nat (S (length (at_level (guards_ v) 0)))) as Hn by (rewrite W10, length_seqZ; cbn; lia).
  exists d', edit', metas', parts'. rewrite W8 in Hw. split; [done|]. split; [done|]. split; [done|]. split; [done|].
  assert (length metas' = length parts') as Hlm by (apply Forall2_length in W1; by rewrite length_fmap in W1).
  assert (Forall (fun m => next (rp_db rp) <= f_number m < next d') metas') as Hnew.
  { apply Forall_forall. intros x Hx%(list_elem_of_fmap_2 f_number). rewrite W6 in Hx. apply elem_of_take in Hx as (i & Hx & _).
    apply lookup_seqZ in Hx. lia. }
  intros vs pend max edit'' V1 V2 V3 V4. split; cbn [rp_mem rp_db rp_edit rp_fb set_pending_outputs set_versions env_ versions_]; rewrite ?V3.
  - done.
  - rewrite fmap_app. apply Forall2_app; [|done]. eapply tables_frame; [exact R2|]. intros x Hx. apply W11. intros n Hin%elem_of_seqZ Heq.
    rewrite Forall_forall in R6. specialize (R6 x Hx). apply TableFileName_inj in Heq; unfold is_u64; lia.
  - by apply Forall_app.
  - by rewrite concat_app, R4, W3.
  - rewrite V4, W7. by apply add_files_from.
  - apply Forall_app. split; [|eapply Forall_impl; [exact Hnew|]; cbn; lia]. eapply Forall_impl; [exact R6|]. cbn. lia.
  - rewrite fmap_app. apply NoDup_app. split; [done|]. split; [|rewrite W6; eapply sublist_NoDup; [apply NoDup_seqZ|apply sublist_take]].
    intros n Hn1 Hn2. apply list_elem_of_fmap in Hn1 as (x & -> & Hx). apply list_elem_of_fmap in Hn2 as (y & Ey & Hy).
    rewrite Forall_forall in R6, Hnew. specialize (R6 x Hx). specialize (Hnew y Hy). lia.
  - lia.
  - exists v. split; [|done]. unfold current_version in *. cbn [versions_ set_pending_outputs set_versions]. rewrite V1, V2, W10. exact R9.
  - done.
  - intros f Hf. rewrite W11; [apply R11; intros n Hin; apply Hf; lia|]. intros n Hin%elem_of_seqZ. apply Hf. lia.
Qed.

(** *** Records *)

Definition batch_record (b : Z * list wb_op) : bytes := batch_of (fst b) (snd b).
Definition entries_of (b : Z * list wb_op) : list entry := batch_entries (fst b) (snd b).
Record batch_good (b : Z * list wb_op) : Prop := {
  bg_ops : ops_ok (fst b) (snd b);
  bg_levels : Forall guard_level_ok (snd b);
  bg_first : 0 < fst b;
  bg_last : fst b + blen (snd b) < 2 ^ 64;
}.
Definition last_of (max : Z) (b : Z * list wb_op) : Z := Z.max max (fst b + blen (snd b) - 1).
Lemma blen_batch_record b : 12 <= blen (batch_record b).
Proof. unfold batch_record, batch_of. rewrite !blen_app. unfold blen at 1 2. rewrite EncodeFixed64_length, EncodeFixed32_length. blia. Qed.

Lemma replay_record_ok rp fl cur todo metas parts b fuel : replayed rp fl cur metas parts -> batch_good b ->
  fl ++ cur ++ entries_of b ++ todo = es0 -> next (rp_db rp) + Z.of_nat (S (length guards)) < 2 ^ 64 -> (length es0 < fuel)%nat ->
  exists rp' fl' cur' metas' parts', replay_record ucmp opt oo dbname usage fuel rp (batch_record b) = Some (false, OK, rp') /\
    replayed rp' fl' cur' metas' parts' /\ fl' ++ cur' = fl ++ cur ++ entries_of b /\ rp_max rp' = last_of (rp_max rp) b /\
    next (rp_db rp') <= next (rp_db rp) + Z.of_nat (S (length guards)) /\ (rp_mem rp' <> None -> cur' = cur ++ entries_of b).
Proof.
  intros Hr [B1 B2 B3 B4] Hes Hroom Hfuel. pose proof (blen_nonneg (snd b)). pose proof Hr as [R1 R2 R3 R4 R5 R6 R7 R8 (v & R9 & Hg) R10 R11].
  assert (fold_left (add ucmp) cur (Some (Ref MemTable_new)) = Some (default (Ref MemTable_new) (rp_mem rp))) as Hm by (destruct (rp_mem rp); [done|by rewrite R1]).
  assert (cur ++ entries_of b ⊆+ es0) as Hsub by (rewrite <- Hes; apply submseteq_inserts_l; rewrite app_assoc; apply submseteq_inserts_r; done).
  pose proof (memtable_ok_sub _ _ _ Hes0 Hsub) as Hcur.
  destruct (memtable_entries ucmp Hc Hid Hkn _ (me_points _ _ _ _ _ _ _ _ Hcur) (me_distinct _ _ _ _ _ _ _ _ Hcur)) as (m1 & _ & Em1 & _).
  assert (fold_left (add ucmp) (cur ++ entries_of b) (Some (Ref MemTable_new)) = Some (Ref m1)) as Hm' by by rewrite fold_add_Ref, Em1.
  rewrite fold_left_app, Hm in Hm'.
  destruct (insert_batch_ok (rp_db rp) v _ _ (fst b) (snd b) R9 B1 B2 B4 Hm') as (vs & gs & Hi & Hcv & Hn).
  unfold replay_record. rewrite (proj2 (Z.ltb_ge _ _)) by apply blen_batch_record. cbv zeta. unfold SetContents, batch_record in *. rewrite Hi. cbn [mbind option_bind].
  unfold MaybeIgnoreError. cbn [ok OK orb negb rp_max]. rewrite Sequence_batch, Count_batch by (apply B1 || done). rewrite u64_small by (unfold is_u64; lia).
  set (max := if rp_max rp <? _ then _ else _). assert (max = last_of (rp_max rp) b) as Emax by (unfold max, last_of; destruct (Z.ltb_spec (rp_max rp) (fst b + blen (snd b) - 1)); lia).
  set (rp1 := {| rp_db := set_versions (rp_db rp) vs; rp_edit := rp_edit rp; rp_max := max; rp_mem := Some (Ref m1); rp_fb := rp_fb rp |}).
  assert (replayed rp1 fl (cur ++ entries_of b) metas parts) as Hr1.
  { split; cbn [rp1 rp_mem rp_db rp_edit rp_fb set_versions env_ versions_]; rewrite ?Hn; try done; [by rewrite fold_left_app, Hm|]. exists (set_complete_guards v gs). done. }
  destruct (write_buffer_size oo <? usage (Ref m1)).
  - destruct (flush_ok rp1 fl (cur ++ entries_of b) todo metas parts (Ref m1) fuel Hr1 eq_refl) as (d' & edit' & metas' & parts' & Hw & _ & _ & Hn' & Hrp);
      [by rewrite <- app_assoc|cbn; by rewrite Hn|rewrite <- Hes, !length_app in Hfuel; rewrite length_app; lia|].
    cbn [rp1 rp_db rp_edit rp_fb] in Hw |- *. rewrite Hw. cbn [mbind option_bind ok OK negb]. eexists _, (fl ++ cur ++ entries_of b), [], (metas ++ metas'), (parts ++ parts').
    split; [done|]. split; [|split; [by rewrite app_nil_r|split; [done|split; [cbn in *; rewrite Hn', Hn; lia|done]]]].
    specialize (Hrp (set_level_filters (versions_ d') (AddFilters (file_level_bloom_filter (versions_ d'))
      (seqZ (next (rp_db rp1)) (Z.of_nat (S (length guards)))) (filters_of (filter_policy opt) parts'))) (pending_outputs_ d') max edit' eq_refl eq_refl eq_refl eq_refl).
    destruct Hrp. by split.
  - eexists rp1, fl, (cur ++ entries_of b), metas, parts. split; [done|]. split; [done|]. split; [done|]. split; [done|]. split; [cbn; lia|done].
Qed.

(** *** The loop *)

(** A memtable that is there has entries. *)
Definition mem_full (rp : replay) (cur : list entry) : Prop := rp_mem rp <> None -> cur <> [].
Abbreviation step := (Z.of_nat (S (length guards))).
Lemma reports_same (r r' : Reader.Reader (list Z)) : Reader.reporter_ r' = Reader.reporter_ r ->
  reported oo OK (drop (length (reports r)) (reports r')) = OK.
Proof. intros Hr. unfold reported, reports. rewrite Hr, drop_ge by done. by destruct (paranoid_checks oo). Qed.
Lemma replay_loop_ok off recs bs : logs off recs bs -> forall batches r k n fuel rp fl cur metas parts,
  recs = batch_record <$> batches -> LogProofs.at_pos r off (take (Z.to_nat (k - off)) bs) -> 0 <= Reader.last_record_offset_ r ->
  Forall bytes_ok recs -> Forall batch_good batches ->
  fl ++ cur ++ concat (entries_of <$> take (LogProofs.complete off recs k) batches) = es0 ->
  next (rp_db rp) + step * blen batches < 2 ^ 64 -> (length bs < fuel)%nat -> (length es0 < fuel)%nat -> (length batches < n)%nat ->
  replayed rp fl cur metas parts ->
  exists rp' fl' cur' metas' parts', replay_loop ucmp opt oo dbname usage n fuel r OK rp = Some (OK, rp') /\
    replayed rp' fl' cur' metas' parts' /\ fl' ++ cur' = es0 /\
    rp_max rp' = fold_left last_of (take (LogProofs.complete off recs k) batches) (rp_max rp) /\
    next (rp_db rp') <= next (rp_db rp) + step * blen batches /\
    (Forall (fun b => entries_of b <> []) batches -> mem_full rp cur -> mem_full rp' cur').
Proof.
  induction 1 as [off|off d recs bs bs' He Hres Hl IH]; intros batches r k n fuel rp fl cur metas parts Erecs Ha Hlast Hby Hok Hes Hroom Hf Hfe Hn Hr;
    (destruct n as [|n]; [lia|]); (destruct batches as [|b batches]; [try done|try done]); cbn [replay_loop].
  - rewrite take_nil in Ha. destruct fuel as [|fuel]; [lia|].
    destruct (ReadRecord_end r off fuel Ha Hlast) as (r' & Er & Hrep). rewrite Er. cbn [mbind option_bind].
    rewrite (reports_same r r' Hrep). rewrite take_nil, app_nil_r in Hes.
    exists rp, fl, cur, metas, parts. split; [done|]. split; [done|]. split; [done|]. split; [done|]. split; [unfold blen; cbn [length]; lia|done].
  - rewrite fmap_cons in Erecs. injection Erecs as Ed Er. apply Forall_cons in Hok as [Hb Hok]. apply Forall_cons in Hby as [Hd Hby]. rewrite length_app in Hf.
    destruct (read_record off d bs bs' r k fuel He Ha Hlast Hd) as (r1 & Hr1 & H); [lia|]. rewrite blen_cons in *.
    cbn [LogProofs.complete] in *. rewrite Hres in *. destruct (_ <=? k).
    + destruct H as (Erd & Hlast1 & Ha1). rewrite Erd. cbn [mbind option_bind]. rewrite (reports_same r r1 Hr1). cbn [ok OK negb]. rewrite Ed.
      cbn [take] in Hes. rewrite fmap_cons in Hes. cbn [concat] in Hes. pose proof (blen_nonneg batches).
      destruct (replay_record_ok rp fl cur (concat (entries_of <$> take (LogProofs.complete (off + blen bs) recs k) batches)) metas parts b fuel Hr Hb Hes)
        as (rp1 & fl1 & cur1 & metas1 & parts1 & Hrr & Hr' & Hfc & Hmax & Hnx & Hfull); [nia|done|]. rewrite Hrr. cbn [mbind option_bind].
      destruct (IH batches r1 k n fuel rp1 fl1 cur1 metas1 parts1 Er Ha1 Hlast1 Hby Hok) as (rp2 & fl2 & cur2 & metas2 & parts2 & Hlp & Hr2 & H2 & Hmax2 & Hnx2 & Hfull2);
        [by rewrite app_assoc, Hfc, <- !app_assoc|nia|lia|done|cbn in Hn; lia|done|].
      exists rp2, fl2, cur2, metas2, parts2. split; [done|]. split; [done|]. split; [done|]. split; [by rewrite Hmax2, Hmax|]. split; [nia|].
      intros [Hne Hall]%Forall_cons Hq. apply Hfull2; [done|]. intros Hm. rewrite (Hfull Hm). intros [_ E2]%app_nil. done.
    + rewrite H. cbn [mbind option_bind]. rewrite (reports_same r r1 Hr1). cbn [take fmap list_fmap concat] in Hes. rewrite app_nil_r in Hes.
      exists rp, fl, cur, metas, parts. split; [done|]. split; [done|]. split; [done|]. split; [done|]. pose proof (blen_nonneg batches). split; [nia|done].
Qed.
End Replay.

(** ** The log *)

Lemma fold_new_files {A} (f : VersionEdit -> A -> VersionEdit) (l : list A) : (forall e a, new_files_ (f e a) = new_files_ e) ->
  forall e, new_files_ (fold_left f l e) = new_files_ e.
Proof. intros Hf. induction l as [|a l IH]; intros e; [done|]. cbn [fold_left]. by rewrite IH, Hf. Qed.
Lemma guards_new_files v e : new_files_ (AddCompleteGuardsToEdit v (AddGuardsToEdit v e [])) = new_files_ e.
Proof.
  unfold AddCompleteGuardsToEdit, AddGuardsToEdit. rewrite fold_new_files; [apply fold_new_files|].
  - intros e' i. rewrite bool_decide_eq_false_2 by apply not_elem_of_nil. done.
  - intros e' i. by apply fold_new_files.
Qed.

#[local] Arguments db_options : simpl never.
Section Log.
Context (ucmp : Comparator) (Hc : ComparatorOk ucmp bytes_ok).
Context `{HS : Snappy} {HSok : SnappyOk} {C : Type} `{HC : BlockCache C} {HCok : BlockCacheOk C}.
Context (addr block_size restart_interval compression : Z) (policy : option FilterPolicy).
Abbreviation opt := (db_options ucmp addr block_size restart_interval compression policy).
Context (Hopt : options_ok opt) (Hname : forall p, filter_policy opt = Some p -> name_ok p).
Context (dbname : bytes) {E T : Type} `{HE : Env E} `{HD : DirEnv E} `{HT : TableOpens T E} `{HM : ManifestEnv E (list Z)}.
Context (files : E -> gmap (list Z) (list Z)) {HEok : EnvOk E files} {HDok : DirEnvOk E files}.
Context (Hid : cmp_identity ucmp) (Hkn : KeyNumOk ucmp bytes_ok).
Context (oo : OpenOptions) (usage : MemTable -> Z).
Abbreviation table_of := (table_of (C := C) ucmp addr block_size restart_interval compression policy dbname files).
Abbreviation memtable_ok := (memtable_ok ucmp addr block_size restart_interval compression policy).
Abbreviation next d := (next_file_number_ (versions_ d)).

(** The entries [es] of a log are in tables; the database was [d]. *)
Record log_recovered (d d' : DB E T) (edit edit' : VersionEdit) (es : list entry) (metas : list FileMetaData) (parts : list (list entry)) : Prop := {
  lr_tables : Forall2 (table_of (env_ d')) (meta_out <$> metas) parts;
  lr_some : Forall (fun part => part <> []) parts;
  lr_all : concat parts ≡ₚ es;
  lr_edit : new_files_ edit' = new_files_ (add_files edit metas);
  lr_numbers : Forall (fun m => next d <= f_number m < next d') metas;
  lr_distinct : NoDup (f_number <$> metas);
  lr_frame : forall f, (forall n, next d <= n < next d' -> f <> TableFileName dbname n) -> files (env_ d') !! f = files (env_ d) !! f;
}.


(** *** A batch without writes *)

Lemma empty_memtable_written (d : DB E T) edit base fuel :
  exists d', WriteLevel0TableGuards ucmp opt dbname fuel d (Ref MemTable_new) edit base [] (FileLevelFilterBuilder.new (filter_policy opt)) [] =
    Some (OK, d', edit, fst (reserve_numbers (S (length (match base with Some v => at_level (guards_ v) 0 | None => [] end))) d),
          FileLevelFilterBuilder.new (filter_policy opt), []).
Proof.
  unfold WriteLevel0TableGuards. destruct (reserve_numbers _ d) as [reserved d1]. unfold BuildLevel0Tables. cbv zeta.
  assert (@Valid _ (MemTableIterator_ops ucmp) (@SeekToFirst _ (MemTableIterator_ops ucmp) (NewIterator (Ref MemTable_new))) = false) as -> by reflexivity.
  cbn [negb mbind option_bind bl_metas fold_left bl_db bl_fb bl_filters]. by exists d1.
Qed.
Lemma reserved_some n (d : DB E T) : fst (reserve_numbers (S n) d) <> [].
Proof. cbn [reserve_numbers]. destruct (NewFileNumber _). by destruct (reserve_numbers n _). Qed.

(** C29: A batch without writes stops recovery: with a filter policy, when the last memtable
    that [RecoverLogFile] fills from a log is empty, [WriteLevel0TableGuards] reserves file
    numbers and makes no filter, and the loop that registers a filter for every number
    reads past the end of the vector of filters.  For a log of one empty batch, which the
    writer accepts like any other, this happens in every database. *)
Theorem empty_batch_stops_recovery (d : DB E T) (v : Version) (edit : VersionEdit) (max log seq off : Z) (f : bytes) (n fuel : nat)
  (Hp : is_Some policy) (Hv : current_version d = Some v) (Hseq : 0 < seq < 2 ^ 63)
  (Hw : LogProofs.write_all [] 0 [batch_of seq []] = Some (f, off))
  (Hfile : NewSequentialFile (env_ d) (LogFileName dbname log) = (OK, f))
  (Husage : usage (Ref MemTable_new) <= write_buffer_size oo) (Hn : (1 < n)%nat) (Hfuel : (length f < fuel)%nat) :
  RecoverLogFile ucmp opt oo dbname usage n fuel d log edit max = None.
Proof.
  assert (bytes_ok (batch_of seq [])) as Hby by (unfold batch_of; rewrite !bytes_ok_app; split; [apply EncodeFixed64_ok|split; [apply EncodeFixed32_ok|constructor]]).
  assert (blen (batch_of seq []) = 12) as Hlen by (unfold batch_of, blen; by rewrite !length_app, EncodeFixed64_length, EncodeFixed32_length).
  assert (LogProofs.placed 0 [batch_of seq []] = true) as Hplaced by (cbn [LogProofs.placed]; by rewrite Hlen).
  destruct (write_all_logs [batch_of seq []] [] Hplaced) as (bs & Hl & Hsz & Hw'). cbn [app] in Hw'. rewrite blen_nil in *. rewrite Hw in Hw'. injection Hw' as <- _.
  destruct n as [|[|n]]; [lia|lia|]. inversion Hl as [|? ? ? b1 b2 He Hres Hl2]; subst. inversion Hl2; subst. rewrite app_nil_r in *.
  unfold RecoverLogFile. rewrite Hfile. cbn [ok OK negb].
  destruct (read_record 0 (batch_of seq []) b1 [] (Reader.new b1 true true 0) (blen b1) fuel He) as (r1 & Hr1 & H); [rewrite app_nil_r, take_ge by ulia; apply at_pos_new; ulia|done|done|done|].
  rewrite Z.add_0_l, Z.leb_refl in H. destruct H as (Erd & Hlast1 & Ha1). rewrite take_nil in Ha1. destruct fuel as [|fuel]; [lia|].
  destruct (ReadRecord_end r1 _ fuel Ha1 Hlast1) as (r2 & Er2 & Hr2).
  cbn [replay_loop]. rewrite Erd. cbn [mbind option_bind]. rewrite (reports_same oo _ r1 Hr1). cbn [ok OK negb].
  unfold replay_record. rewrite (proj2 (Z.ltb_ge _ _)) by apply (blen_batch_record (seq, [])). cbv zeta. cbn [rp_db rp_mem default rp_fb rp_edit rp_max].
  destruct (insert_batch_ok (E := E) (T := T) ucmp d v (Ref MemTable_new) (Ref MemTable_new) seq [] Hv) as (vs & gs & Hi & Hcv & _); [|constructor|unfold blen; cbn; lia|done|].
  { split; [unfold is_u64; lia|]. split; [done|constructor]. }
  unfold SetContents. rewrite Hi. cbn [mbind option_bind]. unfold MaybeIgnoreError. cbn [ok OK orb negb]. rewrite (proj2 (Z.ltb_ge _ _)) by lia.
  cbn [mbind option_bind]. rewrite Er2. cbn [mbind option_bind]. rewrite (reports_same oo _ r2 Hr2). cbn [rp_db]. rewrite Hcv. cbn [mbind option_bind rp_mem ok OK].
  unfold write_last. cbn [rp_db rp_edit rp_fb]. rewrite Hcv.
  match goal with |- context [WriteLevel0TableGuards _ _ _ ?fu ?d1 _ ?e1 ?b1 _ _ _] => destruct (empty_memtable_written d1 e1 b1 fu) as [d2 ->] end.
  cbn [mbind option_bind]. match goal with |- context [fst (reserve_numbers (S ?k) ?x)] => pose proof (reserved_some k x) as Hne; destruct (fst (reserve_numbers (S k) x)); [done|] end.
  destruct Hp as [p Hp]. clear - Hp. subst policy. reflexivity.
Qed.
End Log.

(** ** Examples *)

Section Example.
Abbreviation Disk := (gmap (list Z) (list Z)).
Abbreviation dbname := (str "/db").
Abbreviation bloom := (BloomPolicy (mkBloomFilterPolicy 10)).
Abbreviation mem_options := (db_options BytewiseComparator 0 4096 16 kNoCompression (Some bloom)).
#[local] Existing Instance no_snappy.
#[local] Existing Instance no_snappy_ok.
#[local] Instance disk_ManifestEnv : ManifestEnv Disk (list Z) := {
  NewConcurrentWritableFile e f := (OK, <[f := []]> e);
  WriteFileAt e f off data := (alter (fun old => mem_write old off data) f e, OK);
  NewSequentialFile e f := match e !! f with Some data => (OK, data) | None => (IOError f (str "No such file"), []) end;
}.
(** Three batches with their guards; the last one is torn. *)
Definition log_batches : list (Z * list wb_op) :=
  [(4, [OpPut [100] [3]; OpGuard [100] 6]); (6, [OpPut [97] [1]; OpDelete [98]]); (9, [OpPut [99] [7]]); (11, [OpPut [101] [8]])].
Definition log_file : list Z := match LogProofs.write_all [] 0 (batch_record <$> log_batches) with Some (f, _) => f | None => [] end.
Definition log_cut : Z := blen log_file - 3.
Definition log_db : DB Disk MapTables := set_env flush_db {[ str "/db/000019.log" := take (Z.to_nat log_cut) log_file ]}.
Definition log_entries : list entry :=
  [(4, kTypeValue, [100], [3]); (6, kTypeValue, [97], [1]); (7, kTypeDeletion, [98], []); (9, kTypeValue, [99], [7])].
Definition log_options : OpenOptions :=
  {| create_if_missing := true; error_if_exists := false; paranoid_checks := false; write_buffer_size := 2 |}.
Lemma log_memtable_ok : memtable_ok BytewiseComparator 0 4096 16 kNoCompression (Some bloom) log_entries [].
Proof.
  split.
  - repeat constructor; vm_compute; done.
  - apply (bool_decide_unpack _). vm_compute. exact I.
  - repeat constructor; done.
  - by vm_compute.
  - apply small_filters. vm_compute. reflexivity.
  - constructor.
  - constructor.
Qed.
Lemma log_batches_good : Forall batch_good log_batches.
Proof. repeat constructor; vm_compute; done. Qed.
Definition empty_log : list Z := match LogProofs.write_all [] 0 [batch_of 4 []] with Some (f, _) => f | None => [] end.
Definition empty_log_db : DB Disk MapTables := set_env flush_db {[ str "/db/000019.log" := empty_log ]}.
Lemma empty_batch_stops_recovery_witness :
  RecoverLogFile BytewiseComparator mem_options log_options dbname num_entries 2 20 empty_log_db 19 VersionEdit_new 0 = None.
Proof.
  apply (empty_batch_stops_recovery BytewiseComparator 0 4096 16 kNoCompression (Some bloom) dbname log_options num_entries
    empty_log_db (default Version_new (current_version empty_log_db)) VersionEdit_new 0 19 4 (blen empty_log) empty_log 2 20).
  - by eexists.
  - vm_compute. reflexivity.
  - lia.
  - vm_compute. reflexivity.
  - vm_compute. reflexivity.
  - vm_compute. congruence.
  - lia.
  - apply Nat.ltb_lt. vm_compute. reflexivity.
Defined.
End Example.
