(* ===== verification/Writers.v ===== *)
(** * Concurrent writers and snapshots

    Models [Write], [SequenceWriteBegin], [SequenceWriteEnd], [WaitOutWriters], [GetSnapshot],
    [ReleaseSnapshot] and [Get] of [src/pebblesdb/src/db/db_impl.cc].  A thread runs the
    sections that hold a mutex, and the write to the log, as single steps; the steps of
    threads interleave.

    The [Writer] objects are on the stacks of their threads: a pointer to the writer of a
    thread that has returned is undefined.  A failed [assert] and a step that has to wait are
    the outcome [None].  A round of the memtable thread is one step.  There is no backup and
    no replay iterator; delays ([micros_]) and the wake-up flags are left out, a waiting thread
    is one whose step is not defined yet. *)

From Stdlib Require Import SpecFloat.
From stdpp Require Import gmap sorting.
From S2P Require Import Prelude Coding Status Comparator DbFormat Bloom LogFormat WriteBatch VersionEdit FileName.
From S2P Require Import FilterBlock TableFormat Table MemTable TableGet.
From S2P Require Import Version VersionBuilder VersionSet Compaction DbImpl Builder MemCompact DbRecover.
From stdpp Require Import list.
#[local] Open Scope Z_scope.

Record Writer := {
  linked_ : bool;
  w_has_imm_ : bool;
  prev_ : option nat;
  next_ : option nat;
  start_sequence_ : Z;
  end_sequence_ : Z;
  w_log_ : Z;              (** the number of the log *)
}.
Definition Writer_new : Writer :=
  {| linked_ := false; w_has_imm_ := false; prev_ := None; next_ := None; start_sequence_ := 0; end_sequence_ := 0; w_log_ := 0 |}.
Definition set_next_ (n : option nat) (w : Writer) : Writer :=
  {| linked_ := linked_ w; w_has_imm_ := w_has_imm_ w; prev_ := prev_ w; next_ := n; start_sequence_ := start_sequence_ w;
     end_sequence_ := end_sequence_ w; w_log_ := w_log_ w |}.
Definition set_prev_ (p : option nat) (w : Writer) : Writer :=
  {| linked_ := linked_ w; w_has_imm_ := w_has_imm_ w; prev_ := p; next_ := next_ w; start_sequence_ := start_sequence_ w;
     end_sequence_ := end_sequence_ w; w_log_ := w_log_ w |}.
Definition set_has_imm (b : bool) (w : Writer) : Writer :=
  {| linked_ := linked_ w; w_has_imm_ := b; prev_ := prev_ w; next_ := next_ w; start_sequence_ := start_sequence_ w;
     end_sequence_ := end_sequence_ w; w_log_ := w_log_ w |}.
Definition set_room (log : Z) (has_imm : bool) (w : Writer) : Writer :=
  {| linked_ := linked_ w; w_has_imm_ := has_imm; prev_ := prev_ w; next_ := next_ w; start_sequence_ := start_sequence_ w;
     end_sequence_ := end_sequence_ w; w_log_ := log |}.
Definition set_linked (prev : option nat) (w : Writer) : Writer :=
  {| linked_ := true; w_has_imm_ := w_has_imm_ w; prev_ := prev; next_ := None; start_sequence_ := start_sequence_ w;
     end_sequence_ := end_sequence_ w; w_log_ := w_log_ w |}.
Definition set_sequences (first last : Z) (w : Writer) : Writer :=
  {| linked_ := linked_ w; w_has_imm_ := w_has_imm_ w; prev_ := prev_ w; next_ := next_ w; start_sequence_ := first;
     end_sequence_ := last; w_log_ := w_log_ w |}.

(** How far a thread is: it has room, is in the list, has written the log, has inserted its
    batch, is out of the list again. *)
Inductive Stage := Ready | Queued | Logged | Inserted | Unlinked.
(** A thread in [Write], or in [GetSnapshot] when there is a snapshot. *)
Record Thread := {
  t_writer : Writer;
  t_updates : option WriteBatch;
  t_sync : bool;
  t_batch : option WriteBatch;      (** [updates_with_guards] *)
  t_snapshot : option Z;
  t_status : Status;
  t_stage : Stage;
}.
Definition with_writer (t : Thread) (w : Writer) : Thread :=
  {| t_writer := w; t_updates := t_updates t; t_sync := t_sync t; t_batch := t_batch t; t_snapshot := t_snapshot t;
     t_status := t_status t; t_stage := t_stage t |}.
Definition at_stage (t : Thread) (g : Stage) : Thread :=
  {| t_writer := t_writer t; t_updates := t_updates t; t_sync := t_sync t; t_batch := t_batch t; t_snapshot := t_snapshot t;
     t_status := t_status t; t_stage := g |}.
Definition set_logged (t : Thread) (updates batch : option WriteBatch) (s : Status) : Thread :=
  {| t_writer := t_writer t; t_updates := updates; t_sync := t_sync t; t_batch := batch; t_snapshot := t_snapshot t;
     t_status := s; t_stage := Logged |}.

(** The part of the database that writers use. *)
Record Writers (E T : Type) := {
  wp_db : DB E T;
  wp_mem : MemTable;
  wp_imm : option MemTable;
  wp_has_imm : bool;
  wp_logfile : Z;
  wp_offsets : gmap Z Z;            (** [offset_] of the log writers *)
  wp_fb : FileLevelFilterBuilder.FileLevelFilterBuilder;
  wp_first : bool;                  (** variables of the memtable thread *)
  wp_threads : gmap nat Thread;
  wp_returns : list (nat * Thread); (** the calls that have returned *)
  writers_tail_ : option nat;
  writers_upper_ : Z;
}.
Arguments wp_db {E T} _. Arguments wp_mem {E T} _. Arguments wp_imm {E T} _. Arguments wp_has_imm {E T} _. Arguments wp_logfile {E T} _.
Arguments wp_offsets {E T} _. Arguments wp_fb {E T} _. Arguments wp_first {E T} _. Arguments wp_threads {E T} _. Arguments wp_returns {E T} _.
Arguments writers_tail_ {E T} _. Arguments writers_upper_ {E T} _.

Section Assign.
Context {E T : Type}.
Implicit Type st : Writers E T.
Definition set_threads st (ts : gmap nat Thread) (tail : option nat) (upper : Z) : Writers E T :=
  {| wp_db := wp_db st; wp_mem := wp_mem st; wp_imm := wp_imm st; wp_has_imm := wp_has_imm st; wp_logfile := wp_logfile st;
     wp_offsets := wp_offsets st; wp_fb := wp_fb st; wp_first := wp_first st; wp_threads := ts; wp_returns := wp_returns st;
     writers_tail_ := tail; writers_upper_ := upper |}.
Definition set_memory st (d : DB E T) (mem : MemTable) : Writers E T :=
  {| wp_db := d; wp_mem := mem; wp_imm := wp_imm st; wp_has_imm := wp_has_imm st; wp_logfile := wp_logfile st;
     wp_offsets := wp_offsets st; wp_fb := wp_fb st; wp_first := wp_first st; wp_threads := wp_threads st; wp_returns := wp_returns st;
     writers_tail_ := writers_tail_ st; writers_upper_ := writers_upper_ st |}.
Definition set_log st (env : E) (log off : Z) : Writers E T :=
  {| wp_db := set_env (wp_db st) env; wp_mem := wp_mem st; wp_imm := wp_imm st; wp_has_imm := wp_has_imm st; wp_logfile := wp_logfile st;
     wp_offsets := <[log := off]> (wp_offsets st); wp_fb := wp_fb st; wp_first := wp_first st; wp_threads := wp_threads st;
     wp_returns := wp_returns st; writers_tail_ := writers_tail_ st; writers_upper_ := writers_upper_ st |}.
(** A new log and a new memtable. *)
Definition switch_memtable st (d : DB E T) (log : Z) : Writers E T :=
  {| wp_db := d; wp_mem := Ref MemTable_new; wp_imm := Some (wp_mem st); wp_has_imm := wp_has_imm st; wp_logfile := log;
     wp_offsets := <[log := 0]> (wp_offsets st); wp_fb := wp_fb st; wp_first := wp_first st; wp_threads := wp_threads st;
     wp_returns := wp_returns st; writers_tail_ := writers_tail_ st; writers_upper_ := writers_upper_ st |}.
Definition set_has_imm_ st (has_imm : bool) : Writers E T :=
  {| wp_db := wp_db st; wp_mem := wp_mem st; wp_imm := wp_imm st; wp_has_imm := has_imm; wp_logfile := wp_logfile st;
     wp_offsets := wp_offsets st; wp_fb := wp_fb st; wp_first := wp_first st; wp_threads := wp_threads st; wp_returns := wp_returns st;
     writers_tail_ := writers_tail_ st; writers_upper_ := writers_upper_ st |}.
Definition set_returned st (id : nat) (t : Thread) : Writers E T :=
  {| wp_db := wp_db st; wp_mem := wp_mem st; wp_imm := wp_imm st; wp_has_imm := wp_has_imm st; wp_logfile := wp_logfile st;
     wp_offsets := wp_offsets st; wp_fb := wp_fb st; wp_first := wp_first st; wp_threads := delete id (wp_threads st);
     wp_returns := wp_returns st ++ [(id, t)]; writers_tail_ := writers_tail_ st; writers_upper_ := writers_upper_ st |}.
(** What the memtable thread leaves. *)
Definition set_round st (m : @MemThread E T) (has_imm : bool) : Writers E T :=
  {| wp_db := mt_db m; wp_mem := wp_mem st; wp_imm := imm_ m; wp_has_imm := has_imm; wp_logfile := wp_logfile st;
     wp_offsets := wp_offsets st; wp_fb := mt_fb m; wp_first := first_memtable_compaction m; wp_threads := wp_threads st;
     wp_returns := wp_returns st; writers_tail_ := writers_tail_ st; writers_upper_ := writers_upper_ st |}.
Definition set_straight_reads (d : DB E T) (n : Z) : DB E T :=
  {| env_ := env_ d; versions_ := versions_ d; table_cache_ := table_cache_ d; pending_outputs_ := pending_outputs_ d;
     snapshots_ := snapshots_ d; manual_garbage_cutoff_ := manual_garbage_cutoff_ d; levels_locked_ := levels_locked_ d;
     bg_error_ := bg_error_ d; manual_compaction_ := manual_compaction_ d; straight_reads_ := n;
     backup_in_progress_ := backup_in_progress_ d; backup_deferred_delete_ := backup_deferred_delete_ d |}.
Definition set_snapshots (d : DB E T) (l : list Z) : DB E T :=
  {| env_ := env_ d; versions_ := versions_ d; table_cache_ := table_cache_ d; pending_outputs_ := pending_outputs_ d;
     snapshots_ := l; manual_garbage_cutoff_ := manual_garbage_cutoff_ d; levels_locked_ := levels_locked_ d;
     bg_error_ := bg_error_ d; manual_compaction_ := manual_compaction_ d; straight_reads_ := straight_reads_ d;
     backup_in_progress_ := backup_in_progress_ d; backup_deferred_delete_ := backup_deferred_delete_ d |}.
End Assign.

(** ** The list of writers *)

Definition present {A} (p : option A) : bool := match p with Some _ => true | None => false end.
Definition on_writer (ts : gmap nat Thread) (p : nat) (f : Writer -> Writer) : option (gmap nat Thread) :=
  t ← ts !! p; Some (<[p := with_writer t (f (t_writer t))]> ts).
Definition on_writer_opt (ts : gmap nat Thread) (p : option nat) (f : Writer -> Writer) : option (gmap nat Thread) :=
  match p with Some p => on_writer ts p f | None => Some ts end.
(** To the end of the list. *)
Definition link (ts : gmap nat Thread) (tail : option nat) (id : nat) : option (gmap nat Thread) :=
  ts ← on_writer_opt ts tail (set_next_ (Some id));
  on_writer ts id (set_linked tail).
(** The tail is forgotten when its writer leaves. *)
Definition drop_tail (tail : option nat) (id : nat) (w : Writer) : option (option nat) :=
  if bool_decide (tail = Some id) then if present (next_ w) then None else Some None else Some tail.
Definition unlink (ts : gmap nat Thread) (tail : option nat) (id : nat) : option (gmap nat Thread * option nat) :=
  t ← ts !! id;
  let w := t_writer t in
  ts ← on_writer_opt ts (prev_ w) (fun p => set_has_imm (w_has_imm_ p || w_has_imm_ w) (set_next_ (next_ w) p));
  ts ← (if present (prev_ w) then on_writer ts id (set_has_imm false) else Some ts);
  ts ← on_writer_opt ts (next_ w) (set_prev_ (prev_ w));
  tail ← drop_tail tail id w;
  Some (ts, tail).
(** The head of the list leaves. *)
Definition unlink_head (ts : gmap nat Thread) (tail : option nat) (id : nat) : option (gmap nat Thread * option nat) :=
  t ← ts !! id;
  let w := t_writer t in
  if present (prev_ w) then None
  else
    ts ← on_writer_opt ts (next_ w) (set_prev_ None);
    tail ← drop_tail tail id w;
    Some (ts, tail).

Section Steps.
Context (ucmp : Comparator) (opt : Options) (cmp_name dbname : bytes) (garbage : list spec_float).
Context (usage : MemTable -> Z) (write_buffer_size : Z) (fuel : nat).
Context {E T F : Type} `{HE : Env E} `{HD : DirEnv E} `{HT : TableOpens T E} `{HM : ManifestEnv E F} `{HS : Snappy}.
Abbreviation state := (Writers E T).

(** ** Write *)

Definition new_thread (updates : option WriteBatch) (sync : bool) (log : Z) (has_imm : bool) (s : Status) : Thread :=
  {| t_writer := set_room log has_imm Writer_new; t_updates := updates; t_sync := sync; t_batch := None; t_snapshot := None;
     t_status := s; t_stage := Ready |}.
Definition add_thread (st : state) (id : nat) (t : Thread) : state :=
  set_threads st (<[id := t]> (wp_threads st)) (writers_tail_ st) (writers_upper_ st).
(** The first section of [SequenceWriteBegin]: room in the memtable, or a new one; an error
    ends [Write]. *)
Definition make_room (st : state) (id : nat) (updates : option WriteBatch) (sync : bool) : option state :=
  let d := set_straight_reads (wp_db st) 0 in
  let st := set_memory st d (wp_mem st) in
  let force := negb (present updates) in
  if negb (ok (bg_error_ d)) then Some (set_returned st id (new_thread updates sync 0 false (bg_error_ d)))
  else if negb force && (usage (wp_mem st) <=? write_buffer_size) then
    Some (add_thread st id (new_thread updates sync (wp_logfile st) false OK))
  else if present (wp_imm st) then None
  else if negb (prev_log_number_ (versions_ d) =? 0) then None
  else
    let '(number, vs) := NewFileNumber (versions_ d) in
    let '(s, env) := NewConcurrentWritableFile (env_ d) (LogFileName dbname number) in
    let d := set_versions (set_env d env) vs in
    if negb (ok s) then
      Some (set_returned (set_memory st (set_versions d (ReuseFileNumber vs number)) (wp_mem st)) id (new_thread updates sync 0 false s))
    else Some (add_thread (switch_memtable st d number) id (new_thread updates sync number true OK)).
(** The second section: a place in the list and a ticket. *)
Definition take_ticket (st : state) (id : nat) : option state :=
  t ← wp_threads st !! id;
  let diff := match t_updates t with Some u => u64 (Count u) | None => 0 end in
  ts ← link (wp_threads st) (writers_tail_ st) id;
  let ticket := u64 (writers_upper_ st + (1 + diff)) in
  ts ← on_writer ts id (set_sequences (u64 (ticket - diff)) ticket);
  t ← ts !! id;
  Some (set_threads st (<[id := at_stage t Queued]> ts) (Some id) ticket).
(** The body of [Write]: guards and log. *)
Definition write_log (st : state) (id : nat) : option state :=
  t ← wp_threads st !! id;
  match t_updates t with
  | None => Some (add_thread st id (set_logged t None None OK))
  | Some u =>
      let u := SetSequence u (start_sequence_ (t_writer t)) in
      '(s, g) ← SetGuards u u;
      if negb (ok s) then None
      else
        let log := w_log_ (t_writer t) in
        off ← wp_offsets st !! log;
        '(env, s, lg) ← descriptor_AddRecord (env_ (wp_db st)) (LogFileName dbname log, off) (Contents (new_batch g));
        if negb (ok s) then None
        else
          let '(s, env) := if t_sync t then SyncFile env (LogFileName dbname log) else (s, env) in
          Some (add_thread (set_log st env log (snd lg)) id (set_logged t (Some u) (Some (new_batch g)) s))
  end.
(** The first section of [SequenceWriteEnd]: the batch goes to the memtable of this moment; the
    status is a parameter passed by value. *)
Definition insert_updates (st : state) (id : nat) : option state :=
  t ← wp_threads st !! id;
  '(s, d, mem) ← (match t_batch t with
                  | Some b => if ok (t_status t) then insert_batch ucmp (wp_db st) (wp_mem st) b
                              else Some (t_status t, wp_db st, wp_mem st)
                  | None => Some (t_status t, wp_db st, wp_mem st)
                  end);
  let d := if ok s then d else RecordBackgroundError d s in
  let d := set_versions d (SetLastSequence (versions_ d) (end_sequence_ (t_writer t))) in
  Some (add_thread (set_memory st d mem) id (at_stage t Inserted)).
Definition leave_list (st : state) (id : nat) : option state :=
  '(ts, tail) ← unlink (wp_threads st) (writers_tail_ st) id;
  t ← ts !! id;
  Some (set_threads st (<[id := at_stage t Unlinked]> ts) tail (writers_upper_ st)).
(** The full memtable is announced; the thread returns. *)
Definition finish_thread (st : state) (id : nat) : option state :=
  t ← wp_threads st !! id;
  let w := t_writer t in
  let st := if w_has_imm_ w && negb (present (prev_ w)) then set_has_imm_ st (present (wp_imm st)) else st in
  Some (set_returned st id t).

(** ** Snapshots *)

Definition take_snapshot (st : state) (id : nat) : state :=
  let d := wp_db st in
  let n := last_sequence_ (versions_ d) in
  add_thread (set_memory st (set_snapshots d (snapshots_ d ++ [n])) (wp_mem st)) id
    {| t_writer := Writer_new; t_updates := None; t_sync := false; t_batch := None; t_snapshot := Some n; t_status := OK; t_stage := Ready |}.
(** [WaitOutWriters]: to the end of the list, and out of it once the thread is its head. *)
Definition begin_wait (st : state) (id : nat) : option state :=
  ts ← link (wp_threads st) (writers_tail_ st) id;
  t ← ts !! id;
  Some (set_threads st (<[id := at_stage t Queued]> ts) (Some id) (writers_upper_ st)).
Definition end_wait (st : state) (id : nat) : option state :=
  '(ts, tail) ← unlink_head (wp_threads st) (writers_tail_ st) id;
  t ← ts !! id;
  Some (set_threads st (<[id := at_stage t Unlinked]> ts) tail (writers_upper_ st)).
Definition ReleaseSnapshot (d : DB E T) (n : Z) : DB E T :=
  set_snapshots d (match list_find (eq n) (snapshots_ d) with Some (i, _) => delete i (snapshots_ d) | None => snapshots_ d end).

(** ** Steps *)

Definition memtable_round (st : state) (shutdown : bool) : option state :=
  '(s, m) ← CompactMemTable_round ucmp opt cmp_name dbname garbage fuel shutdown
    {| mt_db := wp_db st; imm_ := wp_imm st; logfile_number_ := wp_logfile st; mt_fb := wp_fb st; first_memtable_compaction := wp_first st |};
  Some (set_round st m (if ok s then false else wp_has_imm st)).
Inductive label :=
| LWrite (id : nat) (updates : option WriteBatch) (sync : bool)
| LGetSnapshot (id : nat)
| LRelease (n : Z)
| LStep (id : nat)               (** the next section of the thread *)
| LRound (shutdown : bool).
Definition thread_step (st : state) (id : nat) : option state :=
  t ← wp_threads st !! id;
  match t_stage t, t_snapshot t with
  | Ready, None => take_ticket st id
  | Queued, None => write_log st id
  | Logged, None => insert_updates st id
  | Inserted, None => leave_list st id
  | Ready, Some _ => begin_wait st id
  | Queued, Some _ => end_wait st id
  | Unlinked, _ => finish_thread st id
  | _, _ => None
  end.
Definition wstep (l : label) (st : state) : option state :=
  match l with
  | LWrite id updates sync => if present (wp_threads st !! id) then None else make_room st id updates sync
  | LGetSnapshot id => if present (wp_threads st !! id) then None else Some (take_snapshot st id)
  | LRelease n => Some (set_memory st (ReleaseSnapshot (wp_db st) n) (wp_mem st))
  | LStep id => thread_step st id
  | LRound shutdown => memtable_round st shutdown
  end.
Definition wsteps (ls : list label) (st : state) : option state := foldM (fun st l => wstep l st) ls st.
End Steps.

(** ** Get *)

Section Get.
Context (ucmp : Comparator) (policy : option FilterPolicy) {E T : Type} `{TableReads T}.
Definition mem_answer (r : GetResult) (value : bytes) : option (Status * bytes) :=
  match r with
  | Found v => Some (OK, v)
  | Deleted s => Some (s, value)
  | Unknown => None
  end.
(** [Version::Get] on the current version, and the seek statistics. *)
Definition get_version (verify fill : bool) (d : DB E T) (lkey : LookupKey) (value : bytes) : option (Status * bytes * DB E T) :=
  v ← current_version d;
  let vs := versions_ d in
  '(s, r) ← Version.Get ucmp policy (st_files (vs_store vs)) verify fill v (table_cache_ d) (file_level_bloom_filter vs) lkey value;
  let '(h, v, _) := UpdateStats (st_files (vs_store vs)) v (rd_stats r) in
  let vs := set_level_filters (set_pointers vs {| st_files := h; st_next := st_next (vs_store vs) |} (compact_pointer_ vs)) (rd_filters r) in
  d ← set_current_version (set_table_cache (set_versions d vs) (rd_cache r)) v;
  Some (s, rd_value r, d).
Definition DBImpl_Get (verify fill : bool) (snapshot : option Z) (st : Writers E T) (key value : bytes)
    : option (Status * bytes * Writers E T) :=
  let lkey := mkLookupKey key (default (last_sequence_ (versions_ (wp_db st))) snapshot) in
  r ← MemTable.Get ucmp (wp_mem st) lkey;
  match mem_answer r value with
  | Some (s, v) => Some (s, v, st)
  | None =>
      i ← (match wp_imm st with Some imm => r ← MemTable.Get ucmp imm lkey; Some (mem_answer r value) | None => Some None end);
      match i with
      | Some (s, v) => Some (s, v, st)
      | None =>
          '(s, v, d) ← get_version verify fill (wp_db st) lkey value;
          Some (s, v, set_memory st d (wp_mem st))
      end
  end.
End Get.
