(* ===== verification/DbOpen.v ===== *)
(** * DB::Open

    Models [DB::Open] and the constructor of [DBImpl] of [src/pebblesdb/src/db/db_impl.cc], and
    [PopulateFileLevelBloomFilter] of [src/pebblesdb/src/db/version_set.cc]: a database is
    recovered, gets a new log and the filters of its tables, and is ready for writers.

    The keys of a table come from the table cache, which is an interface. *)

From Stdlib Require Import SpecFloat.
From stdpp Require Import gmap sorting.
From S2P Require Import Prelude Coding Status Comparator DbFormat Bloom LogFormat Iterator WriteBatch VersionEdit.
From S2P Require Import FileName FilterBlock TableFormat Table MemTable TableGet.
From S2P Require Import Version VersionBuilder VersionSet Compaction DbImpl Builder MemCompact DbRecover Writers.
From stdpp Require Import list.
#[local] Open Scope Z_scope.

(** The keys that an iterator of the table cache walks over. *)
Class TableScans (T E : Type) := {
  table_keys : T -> E -> Z -> Z -> list (list Z) * T;
}.

Section Open.
Context (ucmp : Comparator) (opt : Options) (oo : OpenOptions) (cmp_name dbname : bytes) (garbage : list spec_float).
Context (asserts manual_garbage_collection : bool) (usage : MemTable -> Z).
Context {E T F : Type} `{HE : Env E} `{HD : DirEnv E} `{HO : OpenEnv E} `{HT : TableOpens T E} `{HK : TableScans T E}.
Context `{HM : ManifestEnv E F} `{HF : SequentialFile F} `{HS : Snappy}.
Abbreviation db := (DB E T).
Abbreviation filter_builder := FileLevelFilterBuilder.FileLevelFilterBuilder.

(** ** The filters of the tables *)

Definition PopulateBloomFilterForFile (p : db * filter_builder) (file : FileMetaData) : option (db * filter_builder) :=
  let '(d, fb) := p in
  let '(filter, m) := filter_at (file_level_bloom_filter (versions_ d)) (f_number file) in
  let d := set_versions d (set_level_filters (versions_ d) m) in
  if present filter then Some (d, fb)
  else
    let '(keys, t) := table_keys (table_cache_ d) (env_ d) (f_number file) (f_file_size file) in
    let d := set_table_cache d t in
    let fb := fold_left FileLevelFilterBuilder.AddKey keys fb in
    if 0 <? blen keys then
      let '(fb, filter_string) := FileLevelFilterBuilder.GenerateFilter fb in
      filter_string ← filter_string;
      let m := AddFileLevelBloomFilterInfo (file_level_bloom_filter (versions_ d)) (f_number file) (Some filter_string) in
      Some (set_versions d (set_level_filters (versions_ d) m), fb)
    else Some (d, fb).
Definition PopulateFileLevelBloomFilter (d : db) : option db :=
  match filter_policy opt with
  | None => Some d
  | Some _ =>
      let p := current_ (versions_ d) in
      vs ← Version_Ref (versions_ d) p;
      o ← vs_objects vs !! p;
      let files := deref (st_files (vs_store vs)) <$> concat (at_level (files_ (vo_version o)) <$> levels) in
      '(d, _) ← foldM PopulateBloomFilterForFile files (set_versions d vs, FileLevelFilterBuilder.new (filter_policy opt));
      vs ← Version_Unref (versions_ d) p;
      Some (set_versions d vs)
  end.

(** ** DB::Open *)

Definition DBImpl_new (env : E) (cache : T) : option db :=
  vs ← VersionSet_new garbage;
  Some {| env_ := env; versions_ := vs; table_cache_ := cache; pending_outputs_ := ∅; snapshots_ := [];
          manual_garbage_cutoff_ := if manual_garbage_collection then 0 else kMaxSequenceNumber;
          levels_locked_ := replicate (Z.to_nat kNumLevels) false; bg_error_ := OK; manual_compaction_ := None;
          straight_reads_ := 0; backup_in_progress_ := false; backup_deferred_delete_ := false |}.
(** The new log takes over from the logs that were replayed. *)
Definition start_log (d : db) (edit : VersionEdit) : option (Status * db * Z) :=
  let '(number, vs) := NewFileNumber (versions_ d) in
  let '(s, env) := NewConcurrentWritableFile (env_ d) (LogFileName dbname number) in
  let d := set_versions (set_env d env) vs in
  '(s, d) ← (if ok s then
               '(env, s, vs) ← LogAndApply ucmp cmp_name dbname garbage (env_ d) (versions_ d) (SetLogNumber edit number) [] [];
               Some (s, set_versions (set_env d env) vs)
             else Some (s, d));
  d ← (if ok s then DeleteObsoleteFiles dbname d else Some d);
  Some (s, d, number).
Definition ready (d : db) (log : Z) : Writers E T :=
  {| wp_db := d; wp_mem := Ref MemTable_new; wp_imm := None; wp_has_imm := false; wp_logfile := log; wp_offsets := {[ log := 0 ]};
     wp_fb := FileLevelFilterBuilder.new (filter_policy opt); wp_first := true; wp_threads := ∅; wp_returns := []; writers_tail_ := None;
     writers_upper_ := last_sequence_ (versions_ d) |}.
(** The database is there when the status is OK. *)
Definition Open (n fuel : nat) (env : E) (cache : T) : option (Status * E * option (Writers E T)) :=
  d ← DBImpl_new env cache;
  '(s, d, edit) ← DBImpl_Recover ucmp opt oo cmp_name dbname garbage asserts usage n fuel d VersionEdit_new;
  '(s, d, log) ← (if ok s then start_log d edit else Some (s, d, 0));
  d ← PopulateFileLevelBloomFilter d;
  let d := set_pending_outputs d ∅ in
  Some (s, env_ d, if ok s then Some (ready d log) else None).
End Open.
