(* ===== verification/WriterLists.v ===== *)
(** * The list of writers

    The writers in the list are doubly linked: [link], [unlink] and [unlink_head] never meet
    a dangling pointer and keep the links mutual.  The list may fall into several pieces,
    because the tail is forgotten when its writer leaves; within a piece the links are in
    the order of arrival. *)

From stdpp Require Import gmap.
From S2P Require Import Prelude Status WriteBatch Writers.
From stdpp Require Import list.

(** A thread is in the list from its ticket until it leaves. *)
Definition active (t : Thread) : bool := match t_stage t with Queued | Logged | Inserted => true | _ => false end.
Definition thread_next (t : Thread) : option nat := if active t then next_ (t_writer t) else None.
Definition thread_prev (t : Thread) : option nat := if active t then prev_ (t_writer t) else None.
Definition next_of (ts : gmap nat Thread) (a : nat) : option nat := ts !! a ≫= thread_next.
Definition prev_of (ts : gmap nat Thread) (a : nat) : option nat := ts !! a ≫= thread_prev.
Definition is_active (ts : gmap nat Thread) (a : nat) : Prop := exists t, ts !! a = Some t /\ active t = true.

(** [ord] is the order of arrival. *)
Record linked_list (ts : gmap nat Thread) (tail : option nat) (ord : nat -> nat) : Prop := {
  ll_links a b : next_of ts a = Some b <-> prev_of ts b = Some a;
  ll_tail a : tail = Some a -> is_active ts a /\ next_of ts a = None;
  ll_order a b : prev_of ts a = Some b -> (ord b < ord a)%nat;
}.

(** A thread without its place in the list. *)
Definition bare (t : Thread) : Thread :=
  with_writer t {| linked_ := false; w_has_imm_ := false; prev_ := None; next_ := None; start_sequence_ := start_sequence_ (t_writer t);
                   end_sequence_ := end_sequence_ (t_writer t); w_log_ := w_log_ (t_writer t) |}.

Section Lists.
Implicit Types (ts : gmap nat Thread) (t : Thread) (tail : option nat) (ord : nat -> nat).

Lemma next_of_insert ts a t x : next_of (<[a := t]> ts) x = if decide (x = a) then thread_next t else next_of ts x.
Proof. unfold next_of. destruct (decide (x = a)) as [->|H]; [by rewrite lookup_insert_eq|by rewrite lookup_insert_ne]. Qed.
Lemma prev_of_insert ts a t x : prev_of (<[a := t]> ts) x = if decide (x = a) then thread_prev t else prev_of ts x.
Proof. unfold prev_of. destruct (decide (x = a)) as [->|H]; [by rewrite lookup_insert_eq|by rewrite lookup_insert_ne]. Qed.
Lemma prev_of_active ts a b : prev_of ts a = Some b -> exists t, ts !! a = Some t /\ active t = true /\ prev_ (t_writer t) = Some b.
Proof.
  unfold prev_of, thread_prev. destruct (ts !! a) as [t|]; [|done]. cbn [mbind option_bind]. destruct (active t) eqn:E; [|done].
  intros H. by exists t.
Qed.
Lemma next_of_active ts a b : next_of ts a = Some b -> exists t, ts !! a = Some t /\ active t = true /\ next_ (t_writer t) = Some b.
Proof.
  unfold next_of, thread_next. destruct (ts !! a) as [t|]; [|done]. cbn [mbind option_bind]. destruct (active t) eqn:E; [|done].
  intros H. by exists t.
Qed.
Lemma is_active_insert ts a t x : is_active (<[a := t]> ts) x <-> (x = a /\ active t = true) \/ (x <> a /\ is_active ts x).
Proof.
  unfold is_active. destruct (decide (x = a)) as [->|H].
  - rewrite lookup_insert_eq. split; [intros (t' & [= <-] & Ht); by left|]. intros [[_ Ht]|[[] _]]; [by exists t|done].
  - rewrite lookup_insert_ne by done. split; [intros Hx; by right|]. intros [[]|[_ Hx]]; [done|done].
Qed.

(** The links only matter for threads in the list. *)
Lemma linked_ext ts ts' tail ord : linked_list ts tail ord -> (forall x, next_of ts' x = next_of ts x) -> (forall x, prev_of ts' x = prev_of ts x) ->
  (forall x, is_active ts x -> is_active ts' x) -> linked_list ts' tail ord.
Proof.
  intros [L1 L2 L3] Hn Hp Ha. split.
  - intros a b. by rewrite Hn, Hp.
  - intros a Ea. rewrite Hn. destruct (L2 a Ea) as [H1 H2]. split; [by apply Ha|done].
  - intros a b. rewrite Hp. apply L3.
Qed.
Lemma linked_change ts tail ord a t t' : linked_list ts tail ord -> ts !! a = Some t -> active t' = active t ->
  prev_ (t_writer t') = prev_ (t_writer t) -> next_ (t_writer t') = next_ (t_writer t) -> linked_list (<[a := t']> ts) tail ord.
Proof.
  intros Hl Ha E1 E2 E3. eapply linked_ext; [exact Hl|..]; intros x.
  - rewrite next_of_insert. destruct (decide (x = a)) as [->|]; [|done]. unfold next_of. rewrite Ha. cbn. unfold thread_next. by rewrite E1, E3.
  - rewrite prev_of_insert. destruct (decide (x = a)) as [->|]; [|done]. unfold prev_of. rewrite Ha. cbn. unfold thread_prev. by rewrite E1, E2.
  - intros Hx. rewrite is_active_insert. destruct (decide (x = a)) as [->|]; [left|by right]. split; [done|]. rewrite E1.
    destruct Hx as (t0 & E0 & H0). by rewrite Ha in E0; injection E0 as <-.
Qed.
Lemma inactive_links ts a t : ts !! a = Some t -> active t = false -> next_of ts a = None /\ prev_of ts a = None.
Proof. intros Ha Ht. unfold next_of, prev_of. rewrite Ha. cbn. unfold thread_next, thread_prev. by rewrite Ht. Qed.
Lemma absent_links ts a : ts !! a = None -> next_of ts a = None /\ prev_of ts a = None.
Proof. intros Ha. unfold next_of, prev_of. by rewrite Ha. Qed.
(** A thread that is not in the list may come, change and go. *)
Lemma linked_outside ts ts' tail ord a : linked_list ts tail ord -> ~ is_active ts a -> (forall x, x <> a -> ts' !! x = ts !! x) ->
  (forall t, ts' !! a = Some t -> active t = false) -> linked_list ts' tail ord.
Proof.
  intros Hl Ha Hx Ht.
  assert (next_of ts a = None /\ prev_of ts a = None) as [N1 N2].
  { destruct (ts !! a) as [t|] eqn:E; [|by apply absent_links]. apply (inactive_links ts a t E). destruct (active t) eqn:Et; [|done]. destruct Ha. by exists t. }
  assert (next_of ts' a = None /\ prev_of ts' a = None) as [M1 M2].
  { destruct (ts' !! a) as [t|] eqn:E; [|by apply absent_links]. apply (inactive_links ts' a t E). by apply Ht. }
  eapply linked_ext; [exact Hl|..]; intros x; destruct (decide (x = a)) as [->|Hne]; try congruence.
  - unfold next_of. by rewrite Hx.
  - unfold prev_of. by rewrite Hx.
  - intros (t & E & E'). exists t. by rewrite Hx.
Qed.

Lemma bare_insert ts a t t' : ts !! a = Some t -> bare t' = bare t -> bare <$> <[a := t']> ts = bare <$> ts.
Proof. intros Ha Hb. rewrite fmap_insert, Hb. apply insert_id. by rewrite lookup_fmap, Ha. Qed.

Lemma alter_lookup {A} (f : A -> A) (m : gmap nat A) i x : m !! i = Some x -> alter f i m = <[i := f x]> m.
Proof.
  intros Hi. apply map_eq. intros j. destruct (decide (j = i)) as [->|Hj]; [by rewrite lookup_alter_eq, lookup_insert_eq, Hi|].
  by rewrite lookup_alter_ne, lookup_insert_ne.
Qed.

(** ** To the end of the list *)

Lemma link_ok ts tail ord id t : linked_list ts tail ord -> ts !! id = Some t -> active t = false ->
  exists ts', link ts tail id = Some ts' /\ ts' !! id = Some (with_writer t (set_linked tail (t_writer t))) /\ bare <$> ts' = bare <$> ts /\
    forall t', active t' = true -> prev_ (t_writer t') = tail -> next_ (t_writer t') = None ->
      exists ord', linked_list (<[id := t']> ts') (Some id) ord'.
Proof.
  intros Hl Ht Hin. pose proof Hl as [L1 L2 L3]. destruct (inactive_links ts id t Ht Hin) as [N1 N2].
  set (ts1 := match tail with Some p => alter (fun t => with_writer t (set_next_ (Some id) (t_writer t))) p ts | None => ts end).
  assert (forall p, tail = Some p -> p <> id) as Hne.
  { intros p Ep ->. destruct (L2 id Ep) as [(t0 & E0 & Ha) _]. rewrite Ht in E0. injection E0 as <-. by rewrite Hin in Ha. }
  assert (on_writer_opt ts tail (set_next_ (Some id)) = Some ts1 /\ bare <$> ts1 = bare <$> ts) as [E1 Hb].
  { unfold ts1, on_writer_opt, on_writer. destruct tail as [p|]; [|done]. destruct (L2 p eq_refl) as [(tp & Ep & _) _]. rewrite Ep. cbn [mbind option_bind].
    rewrite (alter_lookup _ _ _ _ Ep). split; [done|]. by apply (bare_insert ts p tp). }
  assert (ts1 !! id = Some t) as Ht1.
  { unfold ts1. destruct tail as [p|]; [|done]. by rewrite lookup_alter_ne by (by apply Hne). }
  unfold link. rewrite E1. cbn [mbind option_bind]. unfold on_writer. rewrite Ht1. cbn [mbind option_bind]. eexists. split; [done|].
  rewrite lookup_insert_eq. split; [done|]. split; [rewrite <- Hb; by apply (bare_insert ts1 id t)|].
  intros t' A1 A2 A3. rewrite insert_insert_eq. 
  exists (fun x => if decide (x = id) then S (match tail with Some p => ord p | None => 0%nat end) else ord x).
  assert (forall x, x <> id -> next_of (<[id := t']> ts1) x = if decide (tail = Some x) then Some id else next_of ts x) as Hnx.
  { intros x Hx. rewrite next_of_insert, decide_False by done. unfold ts1. destruct tail as [p|]; [|by rewrite decide_False].
    destruct (L2 p eq_refl) as [(tp & Ep & Hap) _]. destruct (decide (Some p = Some x)) as [[= ->]|Hpx].
    - unfold next_of. rewrite lookup_alter_eq, Ep. cbn. unfold thread_next. cbn. unfold active in Hap |- *. cbn. by rewrite Hap.
    - unfold next_of. rewrite lookup_alter_ne by congruence. done. }
  assert (forall x, x <> id -> prev_of (<[id := t']> ts1) x = prev_of ts x) as Hpx.
  { intros x Hx. rewrite prev_of_insert, decide_False by done. unfold ts1. destruct tail as [p|]; [|done]. unfold prev_of.
    destruct (decide (x = p)) as [->|Hxp]; [|by rewrite lookup_alter_ne]. rewrite lookup_alter_eq. destruct (ts !! p) as [tp|]; [|done]. done. }
  assert (next_of (<[id := t']> ts1) id = None) as Hni by (rewrite next_of_insert, decide_True by done; unfold thread_next; by rewrite A1, A3).
  assert (prev_of (<[id := t']> ts1) id = tail) as Hpi by (rewrite prev_of_insert, decide_True by done; unfold thread_prev; by rewrite A1, A2).
  split.
  - intros a b. destruct (decide (a = id)) as [->|Ha].
    + rewrite Hni. split; [done|]. destruct (decide (b = id)) as [->|Hbd]; [rewrite Hpi; intros E; by destruct (Hne id E)|].
      rewrite Hpx by done. intros H. apply L1 in H. congruence.
    + rewrite Hnx by done. destruct (decide (b = id)) as [->|Hbd].
      * rewrite Hpi. destruct (decide (tail = Some a)) as [E|E]; [done|]. split; [|done]. intros H. apply L1 in H. congruence.
      * rewrite Hpx by done. destruct (decide (tail = Some a)) as [E|E]; [|apply L1]. split; [congruence|].
        intros H. apply L1 in H. destruct (L2 a E) as [_ H']. congruence.
  - intros a [= <-]. split; [|done]. exists t'. by rewrite lookup_insert_eq.
  - intros a b. destruct (decide (a = id)) as [->|Ha].
    + rewrite Hpi. intros ->. rewrite (decide_False (P := b = id)) by (by apply Hne). lia.
    + rewrite Hpx by done. intros H. rewrite decide_False; [by apply L3|].
      intros ->. apply L1 in H. congruence.
Qed.

(** ** Out of the list *)

(** What leaving does to the links of the others. *)
Definition skips (ts ts' : gmap nat Thread) (id : nat) (p n : option nat) : Prop :=
  (forall x, x <> id -> next_of ts' x = if decide (p = Some x) then n else next_of ts x) /\
  (forall x, x <> id -> prev_of ts' x = if decide (n = Some x) then p else prev_of ts x) /\
  (forall x, x <> id -> is_active ts x -> is_active ts' x).
Lemma linked_skip ts ts' tail tail' ord id t t' : linked_list ts tail ord -> ts !! id = Some t -> active t = true ->
  skips ts ts' id (prev_ (t_writer t)) (next_ (t_writer t)) -> active t' = false -> (tail' = None \/ tail' = tail /\ tail <> Some id) ->
  linked_list (<[id := t']> ts') tail' ord.
Proof.
  intros [L1 L2 L3] Ht Hact (S1 & S2 & S3) Hin Htail.
  assert (prev_of ts id = prev_ (t_writer t)) as Ep by (unfold prev_of; rewrite Ht; cbn; unfold thread_prev; by rewrite Hact).
  assert (next_of ts id = next_ (t_writer t)) as En by (unfold next_of; rewrite Ht; cbn; unfold thread_next; by rewrite Hact).
  rewrite <- Ep, <- En in *.
  assert (prev_of ts id <> Some id) as Hself by (intros H; apply L3 in H; lia).
  assert (next_of (<[id := t']> ts') id = None) as Hni by (rewrite next_of_insert, decide_True by done; unfold thread_next; by rewrite Hin).
  assert (prev_of (<[id := t']> ts') id = None) as Hpi by (rewrite prev_of_insert, decide_True by done; unfold thread_prev; by rewrite Hin).
  assert (forall x, x <> id -> next_of (<[id := t']> ts') x = if decide (prev_of ts id = Some x) then next_of ts id else next_of ts x) as Hnx
    by (intros x Hx; rewrite next_of_insert, decide_False by done; by apply S1).
  assert (forall x, x <> id -> prev_of (<[id := t']> ts') x = if decide (next_of ts id = Some x) then prev_of ts id else prev_of ts x) as Hpx
    by (intros x Hx; rewrite prev_of_insert, decide_False by done; by apply S2).
  split.
  - intros a b. destruct (decide (a = id)) as [->|Ha].
    + rewrite Hni. split; [done|]. destruct (decide (b = id)) as [->|Hb]; [by rewrite Hpi|]. rewrite Hpx by done.
      destruct (decide _) as [E|E]; [done|]. intros H. apply L1 in H. done.
    + rewrite Hnx by done. destruct (decide (b = id)) as [->|Hb].
      * rewrite Hpi. split; [|done]. destruct (decide _) as [E|E]; [intros H; apply L1 in H; done|]. intros H. apply L1 in H. done.
      * rewrite Hpx by done. destruct (decide (prev_of ts id = Some a)) as [E|E], (decide (next_of ts id = Some b)) as [E'|E']; [done| | |apply L1].
        -- split; [done|]. intros H. apply L1 in H. apply L1 in E. congruence.
        -- split; [|done]. intros H. apply L1 in H. apply L1 in E'. congruence.
  - intros a Ea. destruct Htail as [->|[-> Hne]]; [done|]. destruct (L2 a Ea) as [H1 H2].
    assert (a <> id) as Ha by (intros ->; done). rewrite is_active_insert, Hnx by done. split; [right; split; [done|by apply S3]|].
    destruct (decide _) as [E|E]; [|done]. apply L1 in E. congruence.
  - intros a b. destruct (decide (a = id)) as [->|Ha]; [by rewrite Hpi|]. rewrite Hpx by done. destruct (decide _) as [E|E]; [|apply L3].
    intros H. apply L1 in E. apply L3 in E. apply L3 in H. lia.
Qed.

(** The effect of an assignment through a pointer. *)
Lemma on_writer_at ts a t f : ts !! a = Some t -> on_writer ts a f = Some (<[a := with_writer t (f (t_writer t))]> ts).
Proof. intros Ha. unfold on_writer. by rewrite Ha. Qed.
Lemma drop_tail_ok ts tail ord id t : linked_list ts tail ord -> ts !! id = Some t -> active t = true ->
  exists tail', drop_tail tail id (t_writer t) = Some tail' /\ (tail' = None \/ tail' = tail /\ tail <> Some id).
Proof.
  intros [L1 L2 L3] Ht Hact. unfold drop_tail. destruct (bool_decide_reflect (tail = Some id)) as [E|E].
  - destruct (L2 id E) as [_ H]. unfold next_of in H. rewrite Ht in H. cbn in H. unfold thread_next in H. rewrite Hact in H. rewrite H.
    exists None. split; [done|by left].
  - exists tail. split; [done|by right].
Qed.
(** The links after the two neighbours were joined. *)
Lemma join_ok ts tail ord id t (f : Writer -> Writer) : linked_list ts tail ord -> ts !! id = Some t -> active t = true ->
  (forall w, next_ (f w) = next_ (t_writer t) /\ prev_ (f w) = prev_ w) -> (forall u, bare (with_writer u (f (t_writer u))) = bare u) ->
  exists ts1, on_writer_opt ts (prev_ (t_writer t)) f = Some ts1 /\ ts1 !! id = Some t /\ bare <$> ts1 = bare <$> ts /\
    forall t1, t1 = t \/ t1 = with_writer t (set_has_imm false (t_writer t)) ->
    exists ts2, on_writer_opt (<[id := t1]> ts1) (next_ (t_writer t)) (set_prev_ (prev_ (t_writer t))) = Some ts2 /\ ts2 !! id = Some t1 /\
      bare <$> ts2 = bare <$> ts /\ skips ts ts2 id (prev_ (t_writer t)) (next_ (t_writer t)).
Proof.
  intros [L1 L2 L3] Ht Hact Hf Hfb.
  assert (prev_of ts id = prev_ (t_writer t)) as Ep by (unfold prev_of; rewrite Ht; cbn; unfold thread_prev; by rewrite Hact).
  assert (next_of ts id = next_ (t_writer t)) as En by (unfold next_of; rewrite Ht; cbn; unfold thread_next; by rewrite Hact).
  assert (exists ts1, on_writer_opt ts (prev_ (t_writer t)) f = Some ts1 /\ ts1 !! id = Some t /\ bare <$> ts1 = bare <$> ts /\
    (forall x, next_of ts1 x = if decide (prev_ (t_writer t) = Some x) then next_ (t_writer t) else next_of ts x) /\
    (forall x, prev_of ts1 x = prev_of ts x) /\ (forall x, is_active ts x -> is_active ts1 x)) as (ts1 & E1 & Hid1 & Hb1 & N1 & P1 & A1).
  { destruct (prev_ (t_writer t)) as [p|] eqn:Eprev; [|exists ts; repeat split; try done; intros x; by rewrite decide_False].
    pose proof (proj2 (L1 p id) Ep) as Hpn. destruct (next_of_active _ _ _ Hpn) as (tp & Etp & Htp & _).
    assert (p <> id) as Hpid by (intros ->; apply L3 in Ep; lia).
    exists (<[p := with_writer tp (f (t_writer tp))]> ts). cbn [on_writer_opt]. rewrite (on_writer_at _ _ _ _ Etp), lookup_insert_ne by done.
    split; [done|]. split; [done|]. split; [by apply (bare_insert ts p tp)|]. split; [|split].
    - intros x. rewrite next_of_insert. destruct (decide (x = p)) as [->|Hx]; [|by rewrite decide_False by congruence]. rewrite decide_True by done.
      unfold thread_next, active in *. cbn. rewrite Htp. apply Hf.
    - intros x. rewrite prev_of_insert. destruct (decide (x = p)) as [->|Hx]; [|done]. unfold prev_of. rewrite Etp. cbn.
      unfold thread_prev. change (active (with_writer tp _)) with (active tp). rewrite Htp. apply Hf.
    - intros x Hx. rewrite is_active_insert. destruct (decide (x = p)) as [->|Hxp]; [by left|by right]. }
  exists ts1. split; [done|]. split; [done|]. split; [done|]. intros t1 Ht1.
  assert (active t1 = true /\ bare t1 = bare t /\ next_ (t_writer t1) = next_ (t_writer t)) as (Hact1 & Hbare1 & Hnx1)
    by (destruct Ht1 as [->| ->]; done).
  assert (bare <$> <[id := t1]> ts1 = bare <$> ts) as Hb2 by (rewrite <- Hb1; by apply (bare_insert ts1 id t)).
  assert (forall x, x <> id -> next_of (<[id := t1]> ts1) x = if decide (prev_ (t_writer t) = Some x) then next_ (t_writer t) else next_of ts x) as N2
    by (intros x Hx; rewrite next_of_insert, decide_False by done; apply N1).
  assert (forall x, x <> id -> prev_of (<[id := t1]> ts1) x = prev_of ts x) as P2
    by (intros x Hx; rewrite prev_of_insert, decide_False by done; apply P1).
  assert (forall x, x <> id -> is_active ts x -> is_active (<[id := t1]> ts1) x) as A2
    by (intros x Hx Ha; rewrite is_active_insert; right; split; [done|by apply A1]).
  destruct (next_ (t_writer t)) as [n|] eqn:Enext.
  - pose proof (proj1 (L1 id n) En) as Hnp.
    assert (n <> id) as Hnid by (intros ->; apply L3 in Hnp; lia).
    assert (is_active ts n) as Hna by (destruct (prev_of_active _ _ _ Hnp) as (tn & ? & ? & _); by exists tn).
    destruct (A2 n Hnid Hna) as (tn & Etn & Htn).
    exists (<[n := with_writer tn (set_prev_ (prev_ (t_writer t)) (t_writer tn))]> (<[id := t1]> ts1)). cbn [on_writer_opt].
    rewrite (on_writer_at _ _ _ _ Etn). split; [done|]. split; [by rewrite lookup_insert_ne, lookup_insert_eq|].
    split; [rewrite <- Hb2; by apply (bare_insert (<[id := t1]> ts1) n tn)|]. split; [|split].
    + intros x Hx. rewrite <- N2 by done. rewrite next_of_insert. destruct (decide (x = n)) as [->|]; [|done]. unfold next_of. by rewrite Etn.
    + intros x Hx. rewrite prev_of_insert. destruct (decide (x = n)) as [->|Hxn]; [|rewrite decide_False by congruence; by apply P2].
      rewrite decide_True by done. unfold thread_prev. change (active (with_writer tn _)) with (active tn). by rewrite Htn.
    + intros x Hx Ha. rewrite is_active_insert. destruct (decide (x = n)) as [->|Hxn]; [by left|right]. split; [done|by apply A2].
  - exists (<[id := t1]> ts1). cbn [on_writer_opt]. split; [done|]. split; [by rewrite lookup_insert_eq|]. split; [done|]. split; [done|]. split; [|done].
    intros x Hx. rewrite decide_False by done. by apply P2.
Qed.
Lemma unlink_ok ts tail ord id t : linked_list ts tail ord -> ts !! id = Some t -> active t = true ->
  exists ts' tail' t', unlink ts tail id = Some (ts', tail') /\ ts' !! id = Some t' /\ bare t' = bare t /\ bare <$> ts' = bare <$> ts /\
    forall t'', active t'' = false -> linked_list (<[id := t'']> ts') tail' ord.
Proof.
  intros Hl Ht Hact. unfold unlink. rewrite Ht. cbn [mbind option_bind].
  set (f := fun p : Writer => set_has_imm _ _).
  destruct (join_ok ts tail ord id t f Hl Ht Hact) as (ts1 & E1 & Hid1 & _ & Hj); [done|done|]. rewrite E1. cbn [mbind option_bind].
  set (t1 := if present (prev_ (t_writer t)) then with_writer t (set_has_imm false (t_writer t)) else t).
  assert ((if present (prev_ (t_writer t)) then on_writer ts1 id (set_has_imm false) else Some ts1) = Some (<[id := t1]> ts1)) as ->.
  { unfold t1. destruct (present _); [by rewrite (on_writer_at _ _ _ _ Hid1)|]. by rewrite insert_id. }
  cbn [mbind option_bind]. destruct (Hj t1) as (ts2 & E2 & Hid2 & Hb2 & Hs2); [unfold t1; destruct (present _); auto|]. rewrite E2. cbn [mbind option_bind].
  destruct (drop_tail_ok ts tail ord id t Hl Ht Hact) as (tail' & -> & Htail). cbn [mbind option_bind].
  exists ts2, tail', t1. split; [done|]. split; [done|]. split; [unfold t1; by destruct (present _)|]. split; [done|].
  intros t'' Hin. by eapply linked_skip.
Qed.
Lemma unlink_head_ok ts tail ord id t : linked_list ts tail ord -> ts !! id = Some t -> active t = true -> prev_ (t_writer t) = None ->
  exists ts' tail', unlink_head ts tail id = Some (ts', tail') /\ ts' !! id = Some t /\ bare <$> ts' = bare <$> ts /\
    forall t'', active t'' = false -> linked_list (<[id := t'']> ts') tail' ord.
Proof.
  intros Hl Ht Hact Hp. unfold unlink_head. rewrite Ht. cbn [mbind option_bind]. rewrite Hp. cbn [present].
  destruct (join_ok ts tail ord id t (set_next_ (next_ (t_writer t))) Hl Ht Hact) as (ts1 & E1 & Hid1 & _ & Hj); [done|done|].
  rewrite Hp in *. cbn [on_writer_opt] in E1. injection E1 as <-. destruct (Hj t) as (ts2 & E2 & Hid2 & Hb2 & Hs2); [by left|].
  rewrite insert_id in E2 by done. rewrite E2. cbn [mbind option_bind].
  destruct (drop_tail_ok ts tail ord id t Hl Ht Hact) as (tail' & -> & Htail). cbn [mbind option_bind].
  exists ts2, tail'. split; [done|]. split; [done|]. split; [done|]. intros t'' Hin. eapply (linked_skip ts ts2 tail tail' ord id t); try done. by rewrite Hp.
Qed.
End Lists.
