(* ===== verification/WriterProofs.v ===== *)
(** * Invariants of concurrent writers

    The sequence number of a database moves only when a writer ends.  The invariant [writers_ok]
    says what the memtables hold while writers, snapshots and the memtable thread interleave;
    every step keeps it. *)

From Stdlib Require Import SpecFloat.
From stdpp Require Import gmap sorting.
From S2P Require Import Prelude Coding Status Comparator DbFormat Bloom LogFormat Iterator WriteBatch VersionEdit FileName.
From S2P Require Import FilterBlock TableFormat Table MemTable TableGet.
From S2P Require Import Version VersionBuilder VersionSet VersionSetProofs Compaction DbImpl Builder MemCompact DbRecover.
From S2P Require Import VersionGet DbRecoverProofs Writers WriterLists.
From stdpp Require Import list.
#[local] Open Scope Z_scope.

(** ** The sequence number is kept *)

(** Follows the successful branches of a computation. *)
Ltac follow H :=
  repeat (cbn [mbind option_bind] in H;
    match type of H with
    | Some _ = Some _ => injection H as H
    | None = Some _ => discriminate H
    | (match ?x with _ => _ end) = Some _ => destruct x eqn:?
    | option_bind ?f ?x = Some _ => destruct x eqn:?
    | (_ ← ?x; _) = Some _ => destruct x eqn:?
    end).
Section Frame.
Context (ucmp : Comparator) (opt : Options) (cmp_name dbname : bytes) (garbage : list spec_float).
Context {E T F : Type} `{HE : Env E} `{HD : DirEnv E} `{HT : TableOpens T E} `{HM : ManifestEnv E F} `{HS : Snappy}.
Abbreviation last vs := (last_sequence_ vs).
Abbreviation dlast d := (last_sequence_ (versions_ d)).

Lemma on_version_last vs p f vs' : on_version vs p f = Some vs' -> last vs' = last vs.
Proof. unfold on_version. intros H. follow H. by subst. Qed.
Lemma Ref_last vs p vs' : Version_Ref vs p = Some vs' -> last vs' = last vs.
Proof. apply on_version_last. Qed.
Lemma destroy_last vs p vs' : Version_destroy vs p = Some vs' -> last vs' = last vs.
Proof. unfold Version_destroy. intros H. follow H. by subst. Qed.
Lemma Unref_last vs p vs' : Version_Unref vs p = Some vs' -> last vs' = last vs.
Proof.
  unfold Version_Unref. cbv zeta. intros H. follow H.
  - rewrite (destroy_last _ _ _ H). by eapply on_version_last.
  - subst. by eapply on_version_last.
Qed.
Lemma build_last vs edit r : build_version ucmp vs edit = Some r -> last (fst (fst r)) = last vs.
Proof.
  unfold build_version. cbv zeta. intros H. follow H. subst. cbn [fst]. erewrite Unref_last by eassumption.
  cbn [set_pointers last_sequence_]. eapply Ref_last. eassumption.
Qed.
Lemma begin_last vs edit r : la_begin ucmp garbage vs edit = Some r -> last (fst r) = last vs.
Proof. unfold la_begin. cbv zeta. intros H. follow H. subst. match goal with H : new_version _ _ = _ |- _ => injection H as <- _ end. cbn [fst last_sequence_]. exact (build_last _ _ (_, _, _) ltac:(eassumption)). Qed.
Lemma open_last env vs pd r : la_open cmp_name dbname env vs pd = Some r -> last (snd (fst r)) = last vs.
Proof. unfold la_open. cbv zeta. intros H. follow H; by subst. Qed.
Lemma write_last_sequence env s vs pd r : la_write dbname env s vs pd = Some r -> last (snd r) = last vs.
Proof.
  unfold la_write. cbv zeta. match goal with |- (_ ← ?x; _) = _ -> _ => destruct x as [[[e1 s1] vs1]|] eqn:E1; [|done] end.
  assert (last vs1 = last vs) as H1 by (follow E1; by subst). intros H. follow H; subst; exact H1.
Qed.
Lemma AppendVersion_last vs p vs' : AppendVersion vs p = Some vs' -> last vs' = last vs.
Proof.
  unfold AppendVersion. destruct (vs_objects vs !! p); [|done]. cbn [mbind option_bind]. destruct (_ || _); [done|].
  match goal with |- (_ ← ?x; _) = _ -> _ => destruct x as [vs1|] eqn:E1; [|done] end. cbn [mbind option_bind].
  assert (last vs1 = last vs) as H1 by (destruct (current_ vs =? 0); [by injection E1 as <-|by eapply Unref_last]).
  destruct (Version_Ref _ _) as [vs2|] eqn:E2; [|done]. intros [= <-]. apply Ref_last in E2. cbn in *. congruence.
Qed.
Lemma install_last vs pd vs' : la_install vs pd = Some vs' -> last vs' = last vs.
Proof.
  unfold la_install. cbv zeta. intros H. follow H. subst. cbn [set_numbers last_sequence_].
  etransitivity; [eapply on_version_last; eassumption|]. eapply AppendVersion_last. eassumption.
Qed.
Lemma finish_last env s vs pd numbers filters r : la_finish dbname env s vs pd numbers filters = Some r -> last (snd r) = last vs.
Proof.
  unfold la_finish. cbv zeta. intros H. follow H; subst; cbn [snd set_descriptor last_sequence_].
  - etransitivity; [eapply install_last; eassumption|done].
  - etransitivity; [eapply destroy_last; eassumption|done].
  - etransitivity; [eapply destroy_last; eassumption|done].
Qed.
Lemma LogAndApply_last env vs edit numbers filters r :
  LogAndApply ucmp cmp_name dbname garbage env vs edit numbers filters = Some r -> last (snd r) = last vs.
Proof.
  unfold LogAndApply. intros H. follow H. subst. cbn [snd]. etransitivity; [exact (finish_last _ _ _ _ _ _ (_, _) ltac:(eassumption))|].
  etransitivity; [exact (write_last_sequence _ _ _ _ (_, _, _) ltac:(eassumption))|].
  etransitivity; [exact (open_last _ _ _ (_, _, _, _) ltac:(eassumption))|]. exact (begin_last _ _ (_, _) ltac:(eassumption)).
Qed.

(** Writing tables *)
Section Build.
Context {I : Type} `{HI : Iterator I}.
Abbreviation blast b := (dlast (bl_db b)).
Lemma FinishFileCompletion_last (d : DB E T) s meta fname : dlast (FinishFileCompletion d s meta fname) = dlast d.
Proof.
  unfold FinishFileCompletion. destruct (if ok s then SyncFile _ _ else _) as [s1 e1]. destruct (if ok s1 then CloseFile _ _ else _) as [s2 e2].
  destruct (ok s2); [destruct (table_status _ _ _ _) as [s3 t]; destruct (ok s3 && _)|destruct (ok s2 && _)]; done.
Qed.
Lemma emit_last reserved (it : I) s (b : Build (E := E) (T := T)) r : emit opt dbname reserved it s b = Some r -> blast (snd r) = blast b.
Proof.
  unfold emit. destruct (if bl_count b =? 0 then start_table opt dbname reserved it b else (s, b)) as [s1 b1] eqn:Eb.
  assert (blast b1 = blast b) as Hb.
  { destruct (bl_count b =? 0); [|by injection Eb as _ <-]. unfold start_table, next_number in Eb. destruct (reserved !! _); cbn [NewFileNumber] in Eb;
      destruct (NewWritableFile _ _); injection Eb as _ <-; done. }
  intros H. follow H; subst; cbn [snd]; [done|]. rewrite <- Hb. unfold put_entry in *. follow Heqo. by subst.
Qed.
Lemma finish_open_last s (b : Build (E := E) (T := T)) r : finish_open opt dbname s b = Some r -> blast (snd r) = blast b.
Proof.
  unfold finish_open, finish_table. cbv zeta. intros H. follow H; subst; cbn [snd set_table_closed bl_db]; rewrite ?FinishFileCompletion_last; done.
Qed.
Lemma fill_last fuel reserved guard : forall (it : I) s (b : Build (E := E) (T := T)) r,
  fill ucmp opt dbname fuel reserved guard it s b = Some r -> blast (snd r) = blast b.
Proof.
  induction fuel as [|fuel IH]; intros it s b r H; [done|]. cbn [fill] in H.
  destruct (negb (Valid it)); [follow H; by subst|].
  destruct (match guard with Some g => _ | None => _ end) as [here|]; [|done]. cbn [mbind option_bind] in H. destruct here.
  - destruct (emit _ _ _ _ _ _) as [[[ended s1] b1]|] eqn:Ee; [|done]. cbn [mbind option_bind] in H. apply emit_last in Ee. cbn [snd] in Ee.
    destruct ended; [follow H; by subst|]. rewrite <- Ee. by eapply IH.
  - follow H. subst. exact (finish_open_last _ _ (_, _) ltac:(eassumption)).
Qed.
Lemma fill_guards_last fuel reserved guards : forall (it : I) s (b : Build (E := E) (T := T)) r,
  fill_guards ucmp opt dbname fuel reserved guards it s b = Some r -> blast (snd r) = blast b.
Proof.
  induction guards as [|g guards IH]; intros it s b r H; cbn [fill_guards] in H; [follow H; by subst|].
  destruct (fill _ _ _ _ _ _ _ _ _) as [[[[ended s1] it1] b1]|] eqn:Ef; [|done]. cbn [mbind option_bind] in H. apply fill_last in Ef. cbn [snd] in Ef.
  destruct ended; [follow H; by subst|]. rewrite <- Ef. by eapply IH.
Qed.
Lemma BuildLevel0Tables_last fuel (d : DB E T) (it : I) guards reserved fb filters r :
  BuildLevel0Tables ucmp opt dbname fuel d it guards reserved fb filters = Some r -> blast (snd r) = dlast d.
Proof.
  unfold BuildLevel0Tables. cbv zeta. destruct (negb _); [intros H; follow H; by subst|].
  destruct (fill_guards _ _ _ _ _ _ _ _ _) as [[[[ended s1] it1] b1]|] eqn:Eg; [|done]. apply fill_guards_last in Eg. cbn [snd bl_db mbind option_bind] in *.
  destruct ended; [intros H; follow H; by subst|]. destruct (finish_open _ _ _ b1) as [[s2 b2]|] eqn:E1; [|done]. apply finish_open_last in E1. cbn [snd mbind option_bind] in *.
  destruct (fill _ _ _ _ _ _ _ _ _) as [[[[ended3 s3] it3] b3]|] eqn:E2; [|done]. apply fill_last in E2. cbn [snd mbind option_bind] in *.
  destruct ended3; [intros H; follow H; subst; cbn [snd]; congruence|].
  destruct (finish_open _ _ _ b3) as [[s4 b4]|] eqn:E3; [|done]. apply finish_open_last in E3. cbn [snd mbind option_bind] in *.
  intros H. follow H; subst; cbn [snd]; congruence.
Qed.
End Build.

(** The round of the memtable thread *)
Lemma reserve_last n : forall d : DB E T, dlast (snd (reserve_numbers n d)) = dlast d.
Proof.
  induction n as [|n IH]; intros d; [done|]. cbn [reserve_numbers NewFileNumber].
  match goal with |- context [reserve_numbers n ?x] => specialize (IH x); destruct (reserve_numbers n x) end. exact IH.
Qed.
Lemma WriteLevel0_last fuel (d : DB E T) mem edit base numbers fb filters s d' edit' numbers' fb' filters' :
  WriteLevel0TableGuards ucmp opt dbname fuel d mem edit base numbers fb filters = Some (s, d', edit', numbers', fb', filters') -> dlast d' = dlast d.
Proof.
  unfold WriteLevel0TableGuards. cbv zeta. pose proof (reserve_last (S (length (match base with Some v => at_level (guards_ v) 0 | None => [] end))) d) as Hr.
  destruct (reserve_numbers _ d) as [reserved d1]. cbn [snd] in Hr.
  destruct (BuildLevel0Tables _ _ _ _ _ _ _ _ _ _) as [[s1 b]|] eqn:Eb; [|done]. apply BuildLevel0Tables_last in Eb. cbn [snd mbind option_bind] in *.
  destruct (fold_left _ _ _). intros [= _ <- _ _ _ _]. congruence.
Qed.
Lemma DeleteObsoleteFiles_last (d d' : DB E T) : DeleteObsoleteFiles dbname d = Some d' -> dlast d' = dlast d.
Proof.
  unfold DeleteObsoleteFiles. intros H. follow H; subst; [done|done|]. generalize (GetChildren (env_ d) dbname). intros l.
  assert (forall d0 : DB E T, dlast d0 = dlast d -> dlast (fold_left (fun d name => match ParseFileName name with
    | Some (n, type) => if keep_file (versions_ d) g n type then d else delete_file_named dbname d name n type
    | None => d end) l d0) = dlast d) as Hl; [|by apply Hl].
  induction l as [|name l IH]; intros d0 H0; [done|]. cbn [fold_left]. apply IH. destruct (ParseFileName name) as [[n []]|]; try done;
    destruct (keep_file _ _ _ _); done.
Qed.
Lemma round_last fuel shutdown (m m' : MemThread (E := E) (T := T)) s :
  CompactMemTable_round ucmp opt cmp_name dbname garbage fuel shutdown m = Some (s, m') ->
  dlast (mt_db m') = dlast (mt_db m) /\ imm_ m <> None /\ imm_ m' = if ok s then None else imm_ m.
Proof.
  unfold CompactMemTable_round. cbv zeta. destruct (imm_ m) as [imm|] eqn:Eimm; [|done]. cbn [mbind option_bind].
  destruct (Version_Ref _ _) as [vs1|] eqn:E1; [|done]. apply Ref_last in E1. cbn [mbind option_bind].
  destruct (vs_objects vs1 !! _) as [o|]; [|done]. cbn [mbind option_bind].
  destruct (WriteLevel0TableGuards _ _ _ _ _ _ _ _ _ _ _) as [[[[[[s2 d2] edit] numbers] fb] filters]|] eqn:E2; [|done]. apply WriteLevel0_last in E2.
  cbn [mbind option_bind versions_ set_versions] in *. destruct (Version_Unref _ _) as [vs3|] eqn:E3; [|done]. apply Unref_last in E3. cbn [mbind option_bind].
  destruct (install_memtable _ _ _ _ _ _ _ _ _ _ _) as [[s4 d4]|] eqn:E4; [|done].
  assert (dlast d4 = last vs3) as H4.
  { unfold install_memtable in E4. cbv zeta in E4. destruct (ok _); [|by injection E4 as _ <-].
    destruct (LogAndApply _ _ _ _ _ _ _ _ _) as [[[env s5] vs5]|] eqn:E5; [|done]. apply LogAndApply_last in E5. cbn in E4. by injection E4 as _ <-. }
  cbn [mbind option_bind]. destruct (ok s4) eqn:E6.
  - destruct (DeleteObsoleteFiles _ _) as [d5|] eqn:E5; [|done]. apply DeleteObsoleteFiles_last in E5. cbn in *. intros [= <- <-].
    rewrite E6. split; [cbn; congruence|done].
  - intros [= <- <-]. rewrite E6. split; [|done]. cbn [mt_db]. unfold RecordBackgroundError.
    destruct (ok (bg_error_ _)); cbn [versions_ set_bg_error set_pending_outputs] in *; congruence.
Qed.
End Frame.

(** ** Batches of clients *)

Definition client_batch (ops : list wb_op) : Prop := Forall client_op ops /\ Forall write_ok ops /\ 8 * blen ops < 2 ^ 31.
Definition all_guards (ops : list wb_op) : list wb_op := concat (guards_of <$> ops).
Lemma client_ops_ok ops : client_batch ops -> Forall op_ok ops.
Proof.
  intros (Hc & Hw & _). apply Forall_forall. intros op Hop. rewrite Forall_forall in Hc, Hw. specialize (Hc op Hop). specialize (Hw op Hop).
  destruct op as [k v|k|k l]; cbn in *; unfold lp_ok; [|destruct Hw; lia|done]. destruct Hw as (? & ? & ?). lia.
Qed.
Lemma guards_only ops : Forall (fun op => ~ client_op op /\ guard_level_ok op) (all_guards ops) /\ blen (all_guards ops) <= 7 * blen ops.
Proof.
  unfold all_guards. induction ops as [|op ops [IH1 IH2]]; [done|]. rewrite fmap_cons. cbn [concat]. rewrite Forall_app, blen_app, blen_cons.
  assert (Forall (fun op => ~ client_op op /\ guard_level_ok op) (guards_of op) /\ blen (guards_of op) <= 7) as [H1 H2].
  { destruct op as [k v|k|k l]; cbn [guards_of]; [|done|done]. split.
    - apply List.Forall_map, List.Forall_forall. intros j [Hj _]%filter_In. split; [intros []|]. cbn. unfold WriteBatch.levels in Hj. cbn in Hj. change kNumLevels with 7. lia.
    - unfold blen. rewrite length_map. pose proof (filter_length_le (is_guard (MurmurHash3_x86_32 k murmur_seed)) WriteBatch.levels) as H.
      change (length WriteBatch.levels) with 7%nat in H. lia. }
  split; [done|]. unfold fmap in *. lia.
Qed.
Lemma guarded_ok seq ops : is_u64 seq -> client_batch ops -> ops_ok seq (ops ++ all_guards ops) /\ Forall guard_level_ok (ops ++ all_guards ops).
Proof.
  intros Hs Hb. pose proof (client_ops_ok ops Hb) as Hops. destruct Hb as (Hc & Hw & Hl). destruct (guards_only ops) as [Hg Hgl]. pose proof (blen_nonneg ops).
  destruct (guards_ok seq ops Hs Hops) as (_ & _ & Hgo); [lia|]. split.
  - split; [done|]. rewrite blen_app. split; [lia|]. by apply Forall_app.
  - apply Forall_app. split; [|eapply Forall_impl; [exact Hg|]; cbn; tauto]. eapply Forall_impl; [exact Hc|]. by intros [].
Qed.
Lemma SetGuards_client seq ops : is_u64 seq -> client_batch ops ->
  exists g, SetGuards (batch_of seq ops) (batch_of seq ops) = Some (OK, g) /\ new_batch g = batch_of seq (ops ++ all_guards ops).
Proof.
  intros Hs Hb. destruct (guarded_ok seq ops Hs Hb) as [Hok _]. unfold SetGuards. rewrite Iterate_batch by (by eapply ops_ok_app_l).
  eexists. split; [done|]. rewrite guard_inserter_ops by apply Hb. cbn [new_batch]. by apply apply_ops_batch.
Qed.
(** A guard takes a sequence number, but guards come after the writes of the batch. *)
Lemma guarded_entries ops gs : Forall client_op ops -> Forall (fun op => ~ client_op op /\ guard_level_ok op) gs -> forall seq,
  batch_entries seq (ops ++ gs) = numbered seq ops.
Proof.
  intros Hc Hg. induction Hc as [|op ops Hop Hc IH]; intros seq; cbn [app batch_entries numbered].
  - revert seq. induction Hg as [|op gs [Hop _] Hg IH]; intros seq; [done|]. destruct op as [k v|k|k l]; [by destruct Hop|by destruct Hop|]. apply IH.
  - destruct op as [k v|k|k l]; [by rewrite IH|by rewrite IH|done].
Qed.

(** ** Threads *)

Abbreviation start t := (start_sequence_ (t_writer t)).
Abbreviation finish t := (end_sequence_ (t_writer t)).
(** The thread has a ticket that it has not used up. *)
Definition pending (t : Thread) : bool :=
  match t_stage t, t_snapshot t with Queued, None | Logged, None => true | _, _ => false end.
Definition count_of (t : Thread) : Z := match t_updates t with Some u => Count u | None => 0 end.
(** A write that succeeded: the entries of its batch are among [all], under the numbers of its
    ticket, and below the last sequence number. *)
Definition recorded (all : list entry) (last : Z) (t : Thread) : Prop :=
  t_status t = OK -> forall u, t_updates t = Some u -> exists ops, client_batch ops /\ u = batch_of (start t) ops /\
    (forall e, e ∈ numbered (start t) ops -> e ∈ all) /\ start t + blen ops <= last.
Record thread_ok (all : list entry) (u0 last upper : Z) (offsets : gmap Z Z) (t : Thread) : Prop := {
  to_updates u : t_updates t = Some u -> exists s ops, is_u64 s /\ client_batch ops /\ u = batch_of s ops;
  to_snapshot : t_snapshot t <> None -> t_stage t <> Logged /\ t_stage t <> Inserted;
  to_log : t_snapshot t = None -> is_Some (offsets !! w_log_ (t_writer t));
  to_ticket : pending t = true -> u0 < start t <= finish t /\ finish t = start t + count_of t /\ finish t <= upper;
  to_logged : t_stage t = Logged ->
    match t_updates t with
    | Some u => exists ops, client_batch ops /\ u = batch_of (start t) ops /\ t_batch t = Some (batch_of (start t) (ops ++ all_guards ops))
    | None => t_batch t = None
    end;
  to_done : t_snapshot t = None -> t_stage t = Inserted \/ t_stage t = Unlinked -> recorded all last t;
}.
(** The threads [bs] and the entries [all] written so far. *)
Record memory_ok (bs : gmap nat Thread) (returns : list (nat * Thread)) (all : list entry) (u0 last upper : Z) (offsets : gmap Z Z) : Prop := {
  mo_threads id t : bs !! id = Some t -> thread_ok all u0 last upper offsets t;
  mo_disjoint a b ta tb : a <> b -> bs !! a = Some ta -> bs !! b = Some tb -> pending ta = true -> pending tb = true ->
    finish ta < start tb \/ finish tb < start ta;
  mo_free a t e : bs !! a = Some t -> pending t = true -> e ∈ all -> ~ start t <= entry_seq e <= finish t;
  mo_returns id t : (id, t) ∈ returns -> t_snapshot t = None -> recorded all last t;
  mo_points : Forall point_entry all;
  mo_nodup : NoDup (entry_seq <$> all);
  mo_bound : Forall (fun e => u0 < entry_seq e <= upper) all;
  mo_last : last <= upper;
  mo_upper : 0 <= u0 <= upper;
}.

Section Memory.
Implicit Types (all : list entry) (t : Thread) (bs : gmap nat Thread) (returns : list (nat * Thread)) (off : gmap Z Z).

Lemma recorded_mono all all' last last' t : (forall e, e ∈ all -> e ∈ all') -> last <= last' -> recorded all last t -> recorded all' last' t.
Proof. intros Ha Hl H Hs u Hu. destruct (H Hs u Hu) as (ops & H1 & H2 & H3 & H4). exists ops. split_and!; [done|done|auto|lia]. Qed.
Lemma thread_ok_mono all all' u0 last last' upper upper' off off' t : (forall e, e ∈ all -> e ∈ all') -> last <= last' -> upper <= upper' ->
  (forall n, is_Some (off !! n) -> is_Some (off' !! n)) -> thread_ok all u0 last upper off t -> thread_ok all' u0 last' upper' off' t.
Proof.
  intros Ha Hl Hu Ho [T1 T2 T3 T4 T5 T6]. split; [done|done|auto| |done|].
  - intros Hp. destruct (T4 Hp) as (? & ? & ?). split; [done|]. split; [done|lia].
  - intros H1 H2. eapply recorded_mono; [exact Ha|exact Hl|auto].
Qed.
Lemma thread_ok_bare all u0 last upper off t : thread_ok all u0 last upper off (bare t) <-> thread_ok all u0 last upper off t.
Proof. split; intros [T1 T2 T3 T4 T5 T6]; split; done. Qed.
Lemma memory_grow bs returns all all' u0 last last' upper off off' : memory_ok bs returns all u0 last upper off ->
  all' ≡ₚ all -> last <= last' <= upper -> (forall n, is_Some (off !! n) -> is_Some (off' !! n)) -> memory_ok bs returns all' u0 last' upper off'.
Proof.
  intros [M1 M2 M3 M4 M5 M6 M7 M8 M9] Hp Hl Ho. assert (forall e, e ∈ all -> e ∈ all') as Hin by (intros e He; by rewrite Hp).
  split; rewrite ?Hp; try done; [| | |lia].
  - intros id t Ht. eapply thread_ok_mono; [exact Hin|apply Hl|reflexivity|exact Ho|by eapply M1].
  - intros a t e Ha Hpt He. rewrite Hp in He. by eapply M3.
  - intros id t Ht Hs. eapply recorded_mono; [exact Hin|apply Hl|by eapply M4].
Qed.
(** A thread changes without a new ticket. *)
Lemma memory_update bs returns all u0 last upper off id t' : memory_ok bs returns all u0 last upper off -> thread_ok all u0 last upper off t' ->
  (pending t' = true -> exists t, bs !! id = Some t /\ pending t = true /\ start t' = start t /\ finish t' = finish t) ->
  memory_ok (<[id := t']> bs) returns all u0 last upper off.
Proof.
  intros [M1 M2 M3 M4 M5 M6 M7 M8 M9] Ht' Hpend. split; try done.
  - intros x t. rewrite lookup_insert. case_decide; [intros [= <-]; done|apply M1].
  - intros a b ta tb Hab Ha Hb Hpa Hpb. rewrite lookup_insert in Ha, Hb. destruct (decide (id = a)), (decide (id = b)); [congruence| | |exact (M2 a b ta tb Hab Ha Hb Hpa Hpb)].
    + injection Ha as <-. destruct (Hpend Hpa) as (t & E & Hp & -> & ->). subst. by eapply (M2 a b).
    + injection Hb as <-. destruct (Hpend Hpb) as (t & E & Hp & -> & ->). subst. by eapply (M2 a b).
  - intros a t e Ha Hp He. rewrite lookup_insert in Ha. case_decide; [|by eapply M3]. injection Ha as <-.
    destruct (Hpend Hp) as (t0 & E & Hp0 & -> & ->). by eapply (M3 id).
Qed.
Lemma memory_return bs returns all u0 last upper off id t : memory_ok bs returns all u0 last upper off ->
  (t_snapshot t = None -> recorded all last t) -> memory_ok (delete id bs) (returns ++ [(id, t)]) all u0 last upper off.
Proof.
  intros [M1 M2 M3 M4 M5 M6 M7 M8 M9] Hr. split; try done.
  - intros x t'. rewrite lookup_delete. case_decide; [done|apply M1].
  - intros a b ta tb Hab Ha Hb. rewrite lookup_delete in Ha, Hb. case_decide; [done|]. case_decide; [done|]. exact (M2 a b ta tb Hab Ha Hb).
  - intros a t' e Ha. rewrite lookup_delete in Ha. case_decide; [done|]. by eapply M3.
  - intros x t' [H|[= -> ->]%list_elem_of_singleton]%elem_of_app; [by eapply M4|done].
Qed.
(** A new ticket, above all others. *)
Lemma memory_ticket bs returns all u0 last upper off id t : memory_ok bs returns all u0 last upper off ->
  start t = upper + 1 -> upper < finish t -> thread_ok all u0 last (finish t) off t ->
  memory_ok (<[id := t]> bs) returns all u0 last (finish t) off.
Proof.
  intros [M1 M2 M3 M4 M5 M6 M7 M8 M9] Hs Hf Ht. split; try done; [| | | |lia|lia].
  - intros x t'. rewrite lookup_insert. case_decide; [intros [= <-]; done|]. intros E. eapply thread_ok_mono; [| | | |by eapply M1]; [done|done|lia|done].
  - intros a b ta tb Hab Ha Hb Hpa Hpb. rewrite lookup_insert in Ha, Hb. destruct (decide (id = a)), (decide (id = b)); [congruence| | |exact (M2 a b ta tb Hab Ha Hb Hpa Hpb)].
    + injection Ha as <-. destruct (to_ticket _ _ _ _ _ _ (M1 b tb Hb) Hpb) as (_ & _ & ?). right. lia.
    + injection Hb as <-. destruct (to_ticket _ _ _ _ _ _ (M1 a ta Ha) Hpa) as (_ & _ & ?). left. lia.
  - intros a t' e Ha Hp He. rewrite lookup_insert in Ha. case_decide; [|by eapply M3]. injection Ha as <-.
    rewrite Forall_forall in M7. specialize (M7 e He). cbn in M7. lia.
  - eapply Forall_impl; [exact M7|]. cbn. lia.
Qed.
(** A ticket is used up. *)
Lemma memory_insert bs returns all u0 last last' upper off id t t' new : memory_ok bs returns all u0 last upper off -> bs !! id = Some t ->
  pending t = true -> pending t' = false -> Forall point_entry new -> NoDup (entry_seq <$> new) -> Forall (fun e => start t <= entry_seq e <= finish t) new ->
  last <= last' <= upper -> thread_ok (new ++ all) u0 last' upper off t' -> memory_ok (<[id := t']> bs) returns (new ++ all) u0 last' upper off.
Proof.
  intros [M1 M2 M3 M4 M5 M6 M7 M8 M9] Ht Hp Hp' Hpts Hnd Hrange Hl Hok. destruct (to_ticket _ _ _ _ _ _ (M1 id t Ht) Hp) as (Hfirst & _ & Hfin).
  assert (forall e, e ∈ all -> e ∈ new ++ all) as Hin by (intros e He; apply elem_of_app; by right). rewrite Forall_forall in Hrange. split; try done.
  - intros x t0. rewrite lookup_insert. case_decide; [intros [= <-]; done|]. intros E. eapply thread_ok_mono; [exact Hin|apply Hl|reflexivity|done|by eapply M1].
  - intros a b ta tb Hab Ha Hb Hpa Hpb. rewrite lookup_insert in Ha, Hb.
    destruct (decide (id = a)); [injection Ha as <-; congruence|]. destruct (decide (id = b)); [injection Hb as <-; congruence|]. exact (M2 a b ta tb Hab Ha Hb Hpa Hpb).
  - intros a t0 e Ha Hpa He. rewrite lookup_insert in Ha. case_decide as Hne; [injection Ha as <-; congruence|]. apply elem_of_app in He as [He|He]; [|by eapply M3].
    specialize (Hrange e He). destruct (M2 id a t t0 Hne Ht Ha Hp Hpa); lia.
  - intros x t0 Hx Hs. eapply recorded_mono; [exact Hin|apply Hl|by eapply M4].
  - by apply Forall_app.
  - rewrite fmap_app. apply NoDup_app. split; [done|]. split; [|done]. intros n (e & -> & He)%list_elem_of_fmap (e' & E & He')%list_elem_of_fmap.
    specialize (Hrange e He). eapply (M3 id t e' Ht Hp He'). by rewrite <- E.
  - apply Forall_app. split; [|done]. apply Forall_forall. intros e He. specialize (Hrange e He). lia.
  - lia.
Qed.
End Memory.

(** ** The invariant *)

Section Invariant.
Context (ucmp : Comparator) (Hc : ComparatorOk ucmp bytes_ok) (Hkn : KeyNumOk ucmp bytes_ok).
Context (opt : Options) (cmp_name dbname : bytes) (garbage : list spec_float) (usage : MemTable -> Z) (write_buffer_size : Z) (fuel : nat).
Context {E T F : Type} `{HE : Env E} `{HD : DirEnv E} `{HT : TableOpens T E} `{HM : ManifestEnv E F} `{HS : Snappy}.
Abbreviation state := (Writers E T).
Abbreviation wstep := (wstep ucmp opt cmp_name dbname garbage usage write_buffer_size fuel).
Abbreviation last_of st := (last_sequence_ (versions_ (wp_db st))).
Implicit Types (st : state) (es imm fl : list entry).

Definition holds_entries (m : MemTable) es : Prop := fold_left (add ucmp) es (Some (Ref MemTable_new)) = Some m.
(** The memtable holds [es], the immutable one [imm]; [fl] were written out. *)
Record writers_ok (u0 : Z) st es imm fl : Prop := {
  wk_links : exists ord, linked_list (wp_threads st) (writers_tail_ st) ord;
  wk_memory : memory_ok (bare <$> wp_threads st) (wp_returns st) (es ++ imm ++ fl) u0 (last_of st) (writers_upper_ st) (wp_offsets st);
  wk_mem : holds_entries (wp_mem st) es;
  wk_imm : match wp_imm st with Some m => holds_entries m imm | None => imm = [] end;
  wk_log : is_Some (wp_offsets st !! wp_logfile st);
}.
Definition label_ok (l : label) : Prop :=
  match l with LWrite _ (Some u) _ => exists s ops, is_u64 s /\ client_batch ops /\ u = batch_of s ops | _ => True end.
(** There are sequence numbers left for a batch. *)
Definition has_room st : Prop := writers_upper_ st + 2 ^ 31 <= kMaxSequenceNumber.

Lemma bare_lookup st id t : wp_threads st !! id = Some t -> (bare <$> wp_threads st) !! id = Some (bare t).
Proof. intros H. by rewrite lookup_fmap, H. Qed.
Lemma ok_thread u0 st es imm fl id t : writers_ok u0 st es imm fl -> wp_threads st !! id = Some t ->
  thread_ok (es ++ imm ++ fl) u0 (last_of st) (writers_upper_ st) (wp_offsets st) t.
Proof. intros [_ M _ _ _] Ht. apply thread_ok_bare. eapply mo_threads; [exact M|by apply bare_lookup]. Qed.
Lemma absent_inactive st id : wp_threads st !! id = None -> ~ is_active (wp_threads st) id.
Proof. intros H (t & E0 & _). congruence. Qed.

(** A thread that is not in the list comes or changes. *)
Lemma ok_outside u0 st es imm fl id t : writers_ok u0 st es imm fl -> ~ is_active (wp_threads st) id -> active t = false ->
  thread_ok (es ++ imm ++ fl) u0 (last_of st) (writers_upper_ st) (wp_offsets st) t -> writers_ok u0 (add_thread st id t) es imm fl.
Proof.
  intros [[ord W1] W2 W3 W4 W5] Hid Ha Ht. split; try done.
  - exists ord. eapply linked_outside; [exact W1|exact Hid| |]; cbn [add_thread set_threads wp_threads].
    + intros x Hx. by rewrite lookup_insert_ne.
    + intros t'. rewrite lookup_insert_eq. by intros [= <-].
  - cbn [add_thread set_threads wp_threads wp_returns wp_db writers_upper_ wp_offsets]. rewrite fmap_insert. apply memory_update; [done|by apply thread_ok_bare|].
    unfold pending, active in *. cbn. by destruct (t_stage t).
Qed.
(** A thread in the list changes, but not its place. *)
Lemma ok_inside u0 st es imm fl id t t' : writers_ok u0 st es imm fl -> wp_threads st !! id = Some t -> active t' = active t ->
  prev_ (t_writer t') = prev_ (t_writer t) -> next_ (t_writer t') = next_ (t_writer t) ->
  thread_ok (es ++ imm ++ fl) u0 (last_of st) (writers_upper_ st) (wp_offsets st) t' ->
  (pending t' = true -> pending t = true /\ start t' = start t /\ finish t' = finish t) -> writers_ok u0 (add_thread st id t') es imm fl.
Proof.
  intros [[ord W1] W2 W3 W4 W5] Ht Ha Hp Hn Hok Hpend. split; try done.
  - exists ord. cbn. by eapply linked_change.
  - cbn [add_thread set_threads wp_threads wp_returns wp_db writers_upper_ wp_offsets]. rewrite fmap_insert. apply memory_update; [done|by apply thread_ok_bare|].
    intros H. destruct (Hpend H) as (? & ? & ?). exists (bare t). split; [by apply bare_lookup|done].
Qed.
Lemma ok_returned u0 st es imm fl id t : writers_ok u0 st es imm fl -> ~ is_active (wp_threads st) id ->
  (t_snapshot t = None -> recorded (es ++ imm ++ fl) (last_of st) t) -> writers_ok u0 (set_returned st id t) es imm fl.
Proof.
  intros [[ord W1] W2 W3 W4 W5] Hid Hr. split; try done.
  - exists ord. eapply linked_outside; [exact W1|exact Hid| |]; cbn [set_returned wp_threads].
    + intros x Hx. by rewrite lookup_delete_ne.
    + intros t'. by rewrite lookup_delete_eq.
  - cbn [set_returned wp_threads wp_returns wp_db writers_upper_ wp_offsets]. rewrite fmap_delete. by apply memory_return.
Qed.
(** The database changes, but not its last sequence number. *)
Lemma ok_db u0 st es imm fl d : writers_ok u0 st es imm fl -> last_sequence_ (versions_ d) = last_of st -> writers_ok u0 (set_memory st d (wp_mem st)) es imm fl.
Proof. intros [W1 W2 W3 W4 W5] Hl. split; try done. cbn. by rewrite Hl. Qed.
(** Logs are added. *)
Lemma ok_logs u0 st es imm fl env log off : writers_ok u0 st es imm fl -> writers_ok u0 (set_log st env log off) es imm fl.
Proof.
  intros [W1 W2 W3 W4 W5].
  assert (forall n, is_Some (wp_offsets st !! n) -> is_Some (<[log := off]> (wp_offsets st) !! n)) as Ho.
  { intros n Hn. rewrite lookup_insert. by case_decide. }
  split; try done; [|by apply Ho]. cbn. eapply memory_grow; [exact W2|done|split; [lia|apply (mo_last _ _ _ _ _ _ _ W2)]|exact Ho].
Qed.
Lemma ok_switch u0 st es imm fl d log : writers_ok u0 st es imm fl -> wp_imm st = None -> last_sequence_ (versions_ d) = last_of st ->
  writers_ok u0 (switch_memtable st d log) [] es fl.
Proof.
  intros [W1 W2 W3 W4 W5] Hi Hl. rewrite Hi in W4. subst imm.
  assert (forall n, is_Some (wp_offsets st !! n) -> is_Some (<[log := 0]> (wp_offsets st) !! n)) as Ho.
  { intros n Hn. rewrite lookup_insert. by case_decide. }
  split; try done; cbn; [|rewrite lookup_insert_eq; by eexists]. rewrite Hl.
  eapply memory_grow; [exact W2|done|split; [lia|apply (mo_last _ _ _ _ _ _ _ W2)]|exact Ho].
Qed.

(** *** The steps of writers *)

Lemma new_thread_ok u0 st all updates sync log has_imm s : (forall u, updates = Some u -> exists s ops, is_u64 s /\ client_batch ops /\ u = batch_of s ops) ->
  is_Some (wp_offsets st !! log) -> thread_ok all u0 (last_of st) (writers_upper_ st) (wp_offsets st) (new_thread updates sync log has_imm s).
Proof. intros Hu Hl. split; try done. by intros _ [|]. Qed.
Lemma make_room_ok u0 st es imm fl id updates sync st' : writers_ok u0 st es imm fl -> label_ok (LWrite id updates sync) -> wp_threads st !! id = None ->
  make_room dbname usage write_buffer_size st id updates sync = Some st' -> exists es' imm', writers_ok u0 st' es' imm' fl.
Proof.
  intros Hw Hlab Hid Hm. unfold make_room in Hm. cbv zeta in Hm. set (d := set_straight_reads (wp_db st) 0) in *.
  assert (forall u, updates = Some u -> exists s ops, is_u64 s /\ client_batch ops /\ u = batch_of s ops) as Hu by (intros u ->; exact Hlab).
  pose proof (ok_db u0 st es imm fl d Hw eq_refl) as Hw1. set (st1 := set_memory st d (wp_mem st)) in *. clear Hw.
  assert (~ is_active (wp_threads st1) id) as Hid1 by by apply (absent_inactive st1).
  destruct (ok (bg_error_ d)) eqn:Eok; cbn [negb] in Hm.
  2:{ injection Hm as <-. exists es, imm. apply ok_returned; [done|done|]. intros _ Hs. change (bg_error_ d = OK) in Hs. by rewrite Hs in Eok. }
  destruct (negb (negb (present updates)) && _).
  { injection Hm as <-. exists es, imm. apply ok_outside; [done|done|done|]. apply new_thread_ok; [done|]. apply (wk_log _ _ _ _ _ Hw1). }
  destruct (wp_imm st1) eqn:Ei; cbn [present] in Hm; [done|]. destruct (negb _); [done|]. cbn [NewFileNumber] in Hm.
  destruct (NewConcurrentWritableFile _ _) as [s env]. destruct (ok s) eqn:Es; cbn [negb] in Hm; injection Hm as <-.
  - exists [], es. apply ok_outside; [by apply ok_switch with (imm := imm)|done|done|]. apply new_thread_ok; [done|]. cbn. rewrite lookup_insert_eq. by eexists.
  - exists es, imm. apply ok_returned; [apply (ok_db u0 st1 es imm fl); [done|]|done|].
    + cbn. unfold ReuseFileNumber. by case_match.
    + intros _ Hs. cbn [new_thread t_status] in Hs. by rewrite Hs in Es.
Qed.
Lemma take_ticket_ok u0 st es imm fl id t : writers_ok u0 st es imm fl -> has_room st -> wp_threads st !! id = Some t -> t_stage t = Ready ->
  t_snapshot t = None -> exists st', take_ticket st id = Some st' /\ writers_ok u0 st' es imm fl.
Proof.
  intros Hw Hroom Ht Hst Hsn. pose proof (ok_thread _ _ _ _ _ _ _ Hw Ht) as [T1 T2 T3 T4 T5 T6]. destruct Hw as [[ord W1] W2 W3 W4 W5].
  assert (active t = false) as Hact by (unfold active; by rewrite Hst).
  destruct (link_ok _ _ _ id t W1 Ht Hact) as (ts & Elink & Hid & Hb & Hlinks).
  unfold take_ticket. rewrite Ht. cbn [mbind option_bind]. rewrite Elink. cbn [mbind option_bind].
  set (diff := match t_updates t with Some u => u64 (Count u) | None => 0 end).
  assert (diff = count_of t /\ 0 <= diff < 2 ^ 31) as [Hdiff Hd].
  { unfold diff, count_of. destruct (t_updates t) as [u|]; [|done]. destruct (T1 u eq_refl) as (s & ops & Hs & Hcb & ->).
    pose proof (client_ops_ok ops Hcb) as Hops. destruct Hcb as (_ & _ & Hl). pose proof (blen_nonneg ops).
    rewrite Count_batch by (split; [done|split; [lia|done]]). rewrite u64_small by (unfold is_u64; lia). lia. }
  unfold has_room in Hroom. change kMaxSequenceNumber with (2 ^ 56 - 1) in Hroom. pose proof (mo_upper _ _ _ _ _ _ _ W2) as Hup.
  set (upper := writers_upper_ st) in *.
  rewrite (u64_small (upper + (1 + diff))) by (unfold is_u64; lia). rewrite u64_small by (unfold is_u64; lia).
  rewrite (on_writer_at _ _ _ _ Hid). cbn [mbind option_bind]. rewrite lookup_insert_eq. cbn [mbind option_bind]. eexists. split; [done|].
  rewrite insert_insert_eq. set (tq := at_stage _ Queued).
  assert (start tq = upper + 1 /\ finish tq = upper + (1 + diff)) as [Hs Hf] by (cbn; lia).
  split; try done.
  - cbn [set_threads wp_threads writers_tail_]. by apply Hlinks.
  - cbn [set_threads wp_threads writers_upper_ wp_returns wp_db wp_offsets]. rewrite fmap_insert, Hb, <- Hf. apply (memory_ticket _ _ _ _ _ upper _ id (bare tq)); [done|exact Hs|cbn; lia|].
    apply thread_ok_bare. split; try done.
    + intros _. split; [lia|]. split; [|done]. change (count_of tq) with (count_of t). lia.
    + by intros _ [|].
Qed.
Lemma write_log_ok u0 st es imm fl id t st' : writers_ok u0 st es imm fl -> has_room st -> wp_threads st !! id = Some t -> t_stage t = Queued ->
  t_snapshot t = None -> write_log dbname st id = Some st' -> writers_ok u0 st' es imm fl.
Proof.
  intros Hw Hroom Ht Hst Hsn. pose proof (ok_thread _ _ _ _ _ _ _ Hw Ht) as [T1 T2 T3 T4 T5 T6].
  assert (pending t = true) as Hp by (unfold pending; by rewrite Hst, Hsn). destruct (T4 Hp) as (K1 & K2 & K3).
  pose proof (mo_upper _ _ _ _ _ _ _ (wk_memory _ _ _ _ _ Hw)) as Hup. unfold has_room in Hroom. change kMaxSequenceNumber with (2 ^ 56 - 1) in Hroom.
  unfold write_log. rewrite Ht. cbn [mbind option_bind]. destruct (t_updates t) as [u|] eqn:Eu.
  - destruct (T1 u eq_refl) as (s & ops & Hs & Hcb & ->). rewrite SetSequence_batch.
    assert (is_u64 (start t)) as Hst64.
    { unfold count_of in K2. rewrite Eu in K2. pose proof (client_ops_ok ops Hcb) as Hops. destruct Hcb as (_ & _ & Hl). pose proof (blen_nonneg ops).
      rewrite Count_batch in K2 by (split; [done|split; [lia|done]]). unfold is_u64. lia. }
    destruct (SetGuards_client (start t) ops Hst64 Hcb) as (g & -> & Hg). cbn [mbind option_bind ok OK negb].
    destruct (wp_offsets st !! w_log_ (t_writer t)) as [off|]; [|done]. cbn [mbind option_bind].
    destruct (descriptor_AddRecord _ _ _) as [[[env s1] lg]|]; [|done]. cbn [mbind option_bind]. destruct (negb (ok s1)); [done|].
    destruct (if t_sync t then _ else _) as [s2 env2]. intros [= <-]. set (t' := set_logged _ _ _ _).
    eapply (ok_inside _ (set_log st env2 (w_log_ (t_writer t)) (snd lg)) es imm fl id t); [by apply ok_logs|done|unfold active; by rewrite Hst|done|done| |done].
    pose proof (ok_thread _ _ _ _ _ _ _ (ok_logs _ _ _ _ _ env2 (w_log_ (t_writer t)) (snd lg) Hw) Ht) as [U1 U2 U3 U4 U5 U6]. split.
    + intros u [= <-]. exists (start t), ops. done.
    + done.
    + done.
    + intros _. destruct (U4 Hp) as (? & ? & ?). split; [done|]. split; [|done]. change (finish t') with (finish t). change (start t') with (start t).
      rewrite K2. unfold count_of. rewrite Eu. change (t_updates t') with (Some (batch_of (start t) ops)). pose proof (client_ops_ok ops Hcb) as Hops. destruct Hcb as (_ & _ & Hl). pose proof (blen_nonneg ops).
      by rewrite !Count_batch by (split; [done|split; [lia|done]]).
    + intros _. exists ops. cbn. rewrite Hg. done.
    + by intros _ [|].
  - intros [= <-]. apply (ok_inside _ _ es imm fl id t); [done|done|unfold active; by rewrite Hst|done|done| |done].
    split; try done. cbn. intros _. unfold count_of in *. by rewrite Eu in K2.
Qed.

(** *** The memtable *)

Lemma add_all es : Forall point_entry es -> NoDup (entry_seq <$> es) -> exists m, holds_entries m es.
Proof.
  intros Hp Hn. destruct (fold_add_holds ucmp Hc Hkn es) as (m & _ & _ & Em & _); [|done|].
  { eapply Forall_impl; [exact Hp|]. intros e He. apply He. }
  exists (Ref m). unfold holds_entries. by rewrite fold_add_Ref, Em.
Qed.
Lemma insert_batch_last (d d' : DB E T) m b s m' : insert_batch ucmp d m b = Some (s, d', m') -> last_sequence_ (versions_ d') = last_sequence_ (versions_ d).
Proof.
  unfold insert_batch, set_current_version. intros H. follow H. subst.
  match goal with H : (_ ← on_version _ _ _; _) = Some _ |- _ => follow H; subst end. cbn. eapply on_version_last. eassumption.
Qed.
Lemma SetLastSequence_last vs n : last_sequence_ (VersionSet.SetLastSequence vs n) = Z.max (last_sequence_ vs) n.
Proof. unfold VersionSet.SetLastSequence. destruct (Z.leb_spec (last_sequence_ vs) n); cbn; lia. Qed.
Lemma RecordBackgroundError_versions (d : DB E T) s : versions_ (RecordBackgroundError d s) = versions_ d.
Proof. unfold RecordBackgroundError. by destruct (ok _). Qed.

(** The state after a thread in the list has inserted the entries [new]. *)
Lemma inserted_memory u0 st es imm fl id t new : writers_ok u0 st es imm fl -> wp_threads st !! id = Some t -> t_stage t = Logged -> t_snapshot t = None ->
  Forall point_entry new -> NoDup (entry_seq <$> new) -> Forall (fun e => start t <= entry_seq e <= finish t) new ->
  recorded (new ++ es ++ imm ++ fl) (Z.max (last_of st) (finish t)) t ->
  memory_ok (<[id := bare (at_stage t Inserted)]> (bare <$> wp_threads st)) (wp_returns st) (new ++ es ++ imm ++ fl) u0 (Z.max (last_of st) (finish t))
    (writers_upper_ st) (wp_offsets st).
Proof.
  intros Hw Ht Hst Hsn Hpts Hnd Hrange Hrec. pose proof (ok_thread _ _ _ _ _ _ _ Hw Ht) as [T1 T2 T3 T4 T5 T6]. destruct Hw as [_ W2 _ _ _].
  assert (pending t = true) as Hp by (unfold pending; by rewrite Hst, Hsn). destruct (T4 Hp) as (K1 & K2 & K3).
  eapply (memory_insert _ _ _ _ _ _ _ _ id (bare t)); [exact W2|by apply bare_lookup|done|done|done|done|done| |].
  - pose proof (mo_last _ _ _ _ _ _ _ W2). lia.
  - apply thread_ok_bare. split; try done.
Qed.
Lemma ok_inserted u0 st es imm fl id t d mem new : writers_ok u0 st es imm fl -> wp_threads st !! id = Some t -> t_stage t = Logged -> t_snapshot t = None ->
  memory_ok (<[id := bare (at_stage t Inserted)]> (bare <$> wp_threads st)) (wp_returns st) (new ++ es ++ imm ++ fl) u0 (Z.max (last_of st) (finish t))
    (writers_upper_ st) (wp_offsets st) ->
  last_sequence_ (versions_ d) = last_of st -> holds_entries mem (es ++ new) ->
  writers_ok u0 (add_thread (set_memory st (set_versions d (VersionSet.SetLastSequence (versions_ d) (finish t))) mem) id (at_stage t Inserted)) (es ++ new) imm fl.
Proof.
  intros [[ord W1] W2 W3 W4 W5] Ht Hst Hsn Hmem Hl Hh. split; try done.
  - exists ord. cbn. eapply linked_change; [exact W1|exact Ht|unfold active; by rewrite Hst|done|done].
  - cbn [add_thread set_threads set_memory wp_threads wp_returns wp_db writers_upper_ wp_offsets versions_ set_versions].
    rewrite SetLastSequence_last, Hl, fmap_insert. eapply memory_grow; [exact Hmem|by rewrite (Permutation_app_comm es new), <- app_assoc|split; [lia|apply (mo_last _ _ _ _ _ _ _ Hmem)]|done].
Qed.
Lemma insert_updates_ok u0 st es imm fl id t : writers_ok u0 st es imm fl -> has_room st -> wp_threads st !! id = Some t -> t_stage t = Logged ->
  t_snapshot t = None -> is_Some (current_version (wp_db st)) \/ insert_updates ucmp st id <> None ->
  exists st' es', insert_updates ucmp st id = Some st' /\ writers_ok u0 st' es' imm fl.
Proof.
  intros Hw Hroom Ht Hst Hsn. pose proof (ok_thread _ _ _ _ _ _ _ Hw Ht) as [T1 T2 T3 T4 T5 T6]. specialize (T5 Hst).
  assert (pending t = true) as Hp by (unfold pending; by rewrite Hst, Hsn). destruct (T4 Hp) as (K1 & K2 & K3).
  pose proof (mo_upper _ _ _ _ _ _ _ (wk_memory _ _ _ _ _ Hw)) as Hup. unfold has_room in Hroom. change kMaxSequenceNumber with (2 ^ 56 - 1) in Hroom.
  unfold insert_updates. rewrite Ht. cbn [mbind option_bind].
  destruct (t_updates t) as [u|] eqn:Eu; [|rewrite T5].
  2:{ intros _. cbn [mbind option_bind]. eexists _, (es ++ []). split; [done|]. apply ok_inserted; [done|done|done|done| | |by rewrite app_nil_r; apply (wk_mem _ _ _ _ _ Hw)].
      - apply (inserted_memory _ _ _ _ _ _ _ []); try done; [constructor|]. intros _ u0' Eu'. congruence.
      - destruct (ok (t_status t)); [done|]. by rewrite RecordBackgroundError_versions. }
  destruct T5 as (ops & Hcb & -> & ->). destruct (ok (t_status t)) eqn:Eok.
  2:{ intros _. cbn [mbind option_bind]. rewrite Eok. eexists _, (es ++ []). split; [done|].
      apply ok_inserted; [done|done|done|done| |by rewrite RecordBackgroundError_versions|by rewrite app_nil_r; apply (wk_mem _ _ _ _ _ Hw)].
      apply (inserted_memory _ _ _ _ _ _ _ []); try done; [constructor|]. intros Hs. by rewrite Hs in Eok. }
  pose proof (client_ops_ok ops Hcb) as Hops. pose proof Hcb as (Hcl & Hwr & Hl). pose proof (blen_nonneg ops).
  unfold count_of in K2. rewrite Eu in K2. rewrite Count_batch in K2 by (split; [unfold is_u64; lia|split; [lia|done]]).
  assert (is_u64 (start t)) as Hst64 by (unfold is_u64; lia).
  set (new := numbered (start t) ops).
  assert (memory_ok (<[id := bare (at_stage t Inserted)]> (bare <$> wp_threads st)) (wp_returns st) (new ++ es ++ imm ++ fl) u0 (Z.max (last_of st) (finish t))
    (writers_upper_ st) (wp_offsets st)) as Hmem.
  { apply inserted_memory; try done.
    - apply numbered_points; [done|lia|]. change kMaxSequenceNumber with (2 ^ 56 - 1). lia.
    - apply numbered_nodup.
    - apply Forall_forall. intros e He%numbered_seqs. lia.
    - intros _ u Hu. rewrite Eu in Hu. injection Hu as <-. exists ops. split; [done|]. split; [done|]. split; [intros e He; apply elem_of_app; by left|lia]. }
  destruct (add_all (es ++ new)) as [m' Hm'].
  { pose proof (mo_points _ _ _ _ _ _ _ Hmem) as H'. apply Forall_app in H' as [H1 H2]. apply Forall_app in H2 as [H2 _]. by apply Forall_app. }
  { pose proof (mo_nodup _ _ _ _ _ _ _ Hmem) as H'. rewrite !fmap_app in H'. rewrite app_assoc in H'. apply NoDup_app in H' as [H' _].
    rewrite fmap_app. by rewrite Permutation_app_comm. }
  destruct (current_version (wp_db st)) as [v|] eqn:Ev.
  2:{ assert (insert_batch ucmp (wp_db st) (wp_mem st) (batch_of (start t) (ops ++ all_guards ops)) = None) as -> by (unfold insert_batch; by rewrite Ev).
      cbn. intros [[? ?]|?]; done. }
  intros _. destruct (guarded_ok (start t) ops Hst64 Hcb) as [Hok Hlev]. destruct (guards_only ops) as [Hgo Hgl].
  destruct (insert_batch_ok (E := E) (T := T) ucmp (wp_db st) v (wp_mem st) m' (start t) (ops ++ all_guards ops) Ev Hok Hlev) as (vs & gs & Hi & _ & _).
  { rewrite blen_app. lia. }
  { rewrite guarded_entries by done. unfold holds_entries in Hm'. rewrite fold_left_app in Hm'. by rewrite (wk_mem _ _ _ _ _ Hw) in Hm'. }
  rewrite Hi. cbn [mbind option_bind ok OK]. eexists _, (es ++ new). split; [done|]. apply ok_inserted; [done|done|done|done|done| |done].
  by eapply insert_batch_last.
Qed.

(** *** In and out of the list *)

(** The thread of [t] has left the list. *)
Lemma ok_left u0 st es imm fl id t t' ts tail ord : writers_ok u0 st es imm fl -> wp_threads st !! id = Some t -> bare <$> ts = bare <$> wp_threads st ->
  linked_list (<[id := at_stage t' Unlinked]> ts) tail ord -> bare t' = bare t -> (t_snapshot t = None -> t_stage t = Inserted) ->
  writers_ok u0 (set_threads st (<[id := at_stage t' Unlinked]> ts) tail (writers_upper_ st)) es imm fl.
Proof.
  intros Hw Ht Hb Hl Hbare Hst. pose proof (ok_thread _ _ _ _ _ _ _ Hw Ht) as Hok. destruct Hw as [_ W2 W3 W4 W5]. split; try done; [by exists ord|].
  cbn [set_threads wp_threads wp_returns wp_db writers_upper_ wp_offsets]. rewrite fmap_insert, Hb. apply memory_update; [done| |].
  - assert (bare (at_stage t' Unlinked) = at_stage (bare t') Unlinked) as -> by done. rewrite Hbare. apply thread_ok_bare in Hok as [T1 T2 T3 T4 T5 T6].
    split; try done. intros Hsn _. apply T6; [exact Hsn|]. left. by apply Hst.
  - cbn. by destruct (t_snapshot t').
Qed.
Lemma leave_list_ok u0 st es imm fl id t : writers_ok u0 st es imm fl -> wp_threads st !! id = Some t -> t_stage t = Inserted ->
  exists st', leave_list st id = Some st' /\ writers_ok u0 st' es imm fl.
Proof.
  intros Hw Ht Hst. destruct (wk_links _ _ _ _ _ Hw) as [ord Hl].
  destruct (unlink_ok _ _ _ id t Hl Ht) as (ts & tail & t' & Eu & Et & Hb & Hbs & Hl'); [unfold active; by rewrite Hst|].
  unfold leave_list. rewrite Eu. cbn [mbind option_bind]. rewrite Et. cbn [mbind option_bind]. eexists. split; [done|].
  eapply ok_left; [done|exact Ht|done|by apply Hl'|done|done].
Qed.
Lemma begin_wait_ok u0 st es imm fl id t : writers_ok u0 st es imm fl -> wp_threads st !! id = Some t -> t_stage t = Ready -> t_snapshot t <> None ->
  exists st', begin_wait st id = Some st' /\ writers_ok u0 st' es imm fl.
Proof.
  intros Hw Ht Hst Hsn. pose proof (ok_thread _ _ _ _ _ _ _ Hw Ht) as Hok. destruct Hw as [[ord Hl] W2 W3 W4 W5].
  destruct (link_ok _ _ _ id t Hl Ht) as (ts & Elink & Et & Hb & Hlinks); [unfold active; by rewrite Hst|].
  unfold begin_wait. rewrite Elink. cbn [mbind option_bind]. rewrite Et. cbn [mbind option_bind]. eexists. split; [done|].
  split; try done; [by apply Hlinks|]. cbn [set_threads wp_threads wp_returns wp_db writers_upper_ wp_offsets]. rewrite fmap_insert, Hb. apply memory_update; [done| |].
  - apply thread_ok_bare. destruct Hok as [T1 T2 T3 T4 T5 T6]. split; try done.
    unfold pending. cbn. by destruct (t_snapshot t).
  - unfold pending. cbn. by destruct (t_snapshot t).
Qed.
Lemma end_wait_ok u0 st es imm fl id t : writers_ok u0 st es imm fl -> wp_threads st !! id = Some t -> t_stage t = Queued -> t_snapshot t <> None ->
  prev_ (t_writer t) = None -> exists st', end_wait st id = Some st' /\ writers_ok u0 st' es imm fl.
Proof.
  intros Hw Ht Hst Hsn Hp. destruct (wk_links _ _ _ _ _ Hw) as [ord Hl].
  destruct (unlink_head_ok _ _ _ id t Hl Ht) as (ts & tail & Eu & Et & Hbs & Hl'); [unfold active; by rewrite Hst|done|].
  unfold end_wait. rewrite Eu. cbn [mbind option_bind]. rewrite Et. cbn [mbind option_bind]. eexists. split; [done|].
  eapply ok_left; [done|exact Ht|done|by apply Hl'|done|done].
Qed.
Lemma finish_thread_ok u0 st es imm fl id t : writers_ok u0 st es imm fl -> wp_threads st !! id = Some t -> t_stage t = Unlinked ->
  exists st', finish_thread st id = Some st' /\ writers_ok u0 st' es imm fl.
Proof.
  intros Hw Ht Hst. unfold finish_thread. rewrite Ht. cbn [mbind option_bind]. eexists. split; [done|].
  set (st1 := if _ && _ then _ else _). assert (writers_ok u0 st1 es imm fl) as Hw1 by (unfold st1; destruct (_ && _); [destruct Hw; by split|done]).
  assert (wp_threads st1 !! id = Some t) as Ht1 by (unfold st1; by destruct (_ && _)).
  apply ok_returned; [done| |].
  - intros (t' & E' & Ha). rewrite Ht1 in E'. injection E' as <-. unfold active in Ha. by rewrite Hst in Ha.
  - intros Hsn. pose proof (ok_thread _ _ _ _ _ _ _ Hw1 Ht1) as [T1 T2 T3 T4 T5 T6]. apply T6; [done|by right].
Qed.
Lemma round_ok u0 st es imm fl shutdown st' : writers_ok u0 st es imm fl ->
  memtable_round ucmp opt cmp_name dbname garbage fuel st shutdown = Some st' -> exists imm' fl', writers_ok u0 st' es imm' fl'.
Proof.
  intros [W1 W2 W3 W4 W5] H. unfold memtable_round in H. destruct (CompactMemTable_round _ _ _ _ _ _ _ _) as [[s m]|] eqn:Er; [|done].
  cbn [mbind option_bind] in H. injection H as <-. apply round_last in Er as (Hl & Hi & Hi'). cbn [mt_db imm_] in *. destruct (ok s).
  - exists [], (imm ++ fl). split; try done; cbn; [by rewrite Hl|by rewrite Hi'].
  - exists imm, fl. split; try done; cbn; [by rewrite Hl|by rewrite Hi'].
Qed.

(** ** All steps *)

Lemma thread_step_ok u0 st es imm fl id st' : writers_ok u0 st es imm fl -> has_room st -> thread_step ucmp dbname st id = Some st' ->
  exists es', writers_ok u0 st' es' imm fl.
Proof.
  intros Hw Hroom H. unfold thread_step in H. destruct (wp_threads st !! id) as [t|] eqn:Ht; [|done]. cbn [mbind option_bind] in H.
  destruct (t_stage t) eqn:Hst, (t_snapshot t) as [n|] eqn:Hsn; try done.
  - destruct (begin_wait_ok u0 st es imm fl id t) as (st1 & E1 & H1); [done|done|done|by rewrite Hsn|]. exists es. congruence.
  - destruct (take_ticket_ok u0 st es imm fl id t) as (st1 & E1 & H1); [done..|]. exists es. congruence.
  - destruct (prev_ (t_writer t)) eqn:Ep.
    { unfold end_wait, unlink_head in H. rewrite Ht in H. cbn in H. by rewrite Ep in H. }
    destruct (end_wait_ok u0 st es imm fl id t) as (st1 & E1 & H1); [done|done|done|by rewrite Hsn|done|]. exists es. congruence.
  - exists es. by eapply write_log_ok.
  - destruct (insert_updates_ok u0 st es imm fl id t) as (st1 & es1 & E1 & H1); [done|done|done|done|done|by right; rewrite H|]. exists es1. congruence.
  - destruct (leave_list_ok u0 st es imm fl id t) as (st1 & E1 & H1); [done..|]. exists es. congruence.
  - destruct (finish_thread_ok u0 st es imm fl id t) as (st1 & E1 & H1); [done..|]. exists es. congruence.
  - destruct (finish_thread_ok u0 st es imm fl id t) as (st1 & E1 & H1); [done..|]. exists es. congruence.
Qed.
Lemma wstep_ok u0 st es imm fl l st' : writers_ok u0 st es imm fl -> label_ok l -> has_room st -> wstep l st = Some st' ->
  exists es' imm' fl', writers_ok u0 st' es' imm' fl'.
Proof.
  intros Hw Hlab Hroom H. destruct l as [id updates sync|id|n|id|shutdown]; cbn [Writers.wstep] in H.
  - destruct (wp_threads st !! id) eqn:Ht; [done|]. destruct (make_room_ok _ _ _ _ _ _ _ _ _ Hw Hlab Ht H) as (es' & imm' & H'). by exists es', imm', fl.
  - destruct (wp_threads st !! id) eqn:Ht; [done|]. injection H as <-. exists es, imm, fl. unfold take_snapshot. cbv zeta.
    apply ok_outside; [by apply ok_db|by apply absent_inactive|done|]. split; try done.
  - injection H as <-. exists es, imm, fl. by apply ok_db.
  - destruct (thread_step_ok _ _ _ _ _ _ _ Hw Hroom H) as (es' & H'). by exists es', imm, fl.
  - destruct (round_ok _ _ _ _ _ _ _ Hw H) as (imm' & fl' & H'). by exists es, imm', fl'.
Qed.
End Invariant.
