(* ===== verification/WriterSafety.v ===== *)
(** * Concurrent writers: what they ensure, and what they do not

    Over all interleavings of writers, snapshots and rounds of the memtable thread: sequence
    numbers are never given twice, acknowledged batches are in a memtable or written out below
    the last sequence number, and threads are never stuck.  Three runs show what is not ensured: a
    synced write can be lost, a snapshot can change and a read can go back to an older value. *)

From Stdlib Require Import SpecFloat.
From stdpp Require Import gmap sorting.
From S2P Require Import Prelude Coding Status Crc32c Comparator DbFormat Bloom LogFormat LogProofs Iterator Block BlockProofs.
From S2P Require Import FilterBlock TableFormat FileName Table TableProofs TableReader TableSpec TwoLevelIterator WriteBatch Merger.
From S2P Require Import VersionEdit MemTable TableGet Version VersionBuilder VersionSet VersionGet VersionSetProofs VersionSetSafety.
From S2P Require Import Compaction DbImpl CompactionDrop TableEnv CompactionRun CompactionSafety ObsoleteFiles.
From S2P Require Import Builder MemCompact BuilderProofs FlushSafety DbRecover DbRecoverProofs Writers DbOpen WriterLists WriterProofs.
From stdpp Require Import list.
#[local] Open Scope Z_scope.

(** ** Records of a log *)

Section Reliable.
Context {F : Type} {HF : ConcurrentWritableFile F} (Hwrite : forall dest off data, snd (WriteAt dest off data) = OK).
Lemma emit_loop_reliable fuel : forall dest begin off data r, Writer.emit_loop fuel dest begin off data = Some r -> snd r = OK.
Proof.
  induction fuel as [|fuel IH]; intros dest begin off data r H; [done|]. cbn [Writer.emit_loop] in H.
  destruct (if _ <? kHeaderSize then _ else _) as [[dest1 bo] off1].
  match type of H with context [Writer.EmitPhysicalRecordAt ?a ?b ?c ?e] => destruct (Writer.EmitPhysicalRecordAt a b c e) as [dest2 s] eqn:Ee end.
  assert (s = OK) as ->.
  { unfold Writer.EmitPhysicalRecordAt in Ee. pose proof (Hwrite dest1 off1) as H1.
    match type of Ee with context [WriteAt dest1 off1 ?h] => specialize (H1 h); destruct (WriteAt dest1 off1 h) as [dest3 s3] end. cbn [snd] in H1. subst s3.
    cbn [ok OK] in Ee. match type of Ee with WriteAt ?a ?b ?c = _ => pose proof (Hwrite a b c) as H2; rewrite Ee in H2 end. exact H2. }
  cbn [ok OK andb] in H. destruct (0 <? _); [by eapply IH|]. by injection H as <-.
Qed.
Lemma AddRecord_reliable dest off data : exists r, Writer.AddRecord dest off data = Some r /\ snd (fst r) = OK.
Proof.
  destruct (AddRecord_total dest off data) as [[[d s] o] E]. exists (d, s, o). split; [done|]. unfold Writer.AddRecord in E.
  destruct (Writer.emit_loop _ _ _ _ _) as [[d' s']|] eqn:El; [|done]. apply emit_loop_reliable in El. cbn in *. by injection E as _ <- _.
Qed.
End Reliable.

Section Safety.
Context (ucmp : Comparator) (Hc : ComparatorOk ucmp bytes_ok) (Hkn : KeyNumOk ucmp bytes_ok).
Context (opt : Options) (cmp_name dbname : bytes) (garbage : list spec_float) (usage : MemTable -> Z) (write_buffer_size : Z) (fuel : nat).
Context {E T F : Type} `{HE : Env E} `{HD : DirEnv E} `{HT : TableOpens T E} `{HM : ManifestEnv E F} `{HS : Snappy}.
Abbreviation state := (Writers E T).
Abbreviation wstep := (wstep ucmp opt cmp_name dbname garbage usage write_buffer_size fuel).
Abbreviation last_of st := (last_sequence_ (versions_ (wp_db st))).
Implicit Types (st : state).

(** A database that was just opened. *)
Record started st : Prop := {
  sd_mem : wp_mem st = Ref MemTable_new;
  sd_imm : wp_imm st = None;
  sd_log : is_Some (wp_offsets st !! wp_logfile st);
  sd_threads : wp_threads st = ∅;
  sd_returns : wp_returns st = [];
  sd_tail : writers_tail_ st = None;
  sd_upper : 0 <= last_of st <= writers_upper_ st;
}.
(** The states that steps lead to, as long as there are sequence numbers. *)
Inductive wreach (st0 : state) : state -> Prop :=
| wr_start : wreach st0 st0
| wr_step st l st' : wreach st0 st -> label_ok l -> has_room st -> wstep l st = Some st' -> wreach st0 st'.

Lemma started_ready d log : 0 <= last_sequence_ (versions_ d) -> started (ready opt d log).
Proof. intros Hl. split; try done. cbn. eexists. apply lookup_singleton_eq. Qed.
Lemma started_ok st : started st -> writers_ok ucmp (writers_upper_ st) st [] [] [].
Proof.
  intros [S1 S2 S3 S4 S5 S6 S7]. split; rewrite ?S1, ?S2, ?S4, ?S5, ?S6; try done.
  - exists (fun _ => 0%nat). split; [|done|].
    + intros a b. unfold next_of, prev_of. by rewrite !lookup_empty.
    + intros a b. unfold prev_of. by rewrite lookup_empty.
  - rewrite fmap_empty. split; try done; [by intros ? ? ?%elem_of_nil|constructor|lia|lia].
Qed.
Lemma reach_ok st0 st : started st0 -> wreach st0 st -> exists es imm fl, writers_ok ucmp (writers_upper_ st0) st es imm fl.
Proof.
  intros Hs. induction 1 as [|st l st' _ (es & imm & fl & Hw) Hl Hr Hstep]; [exists [], [], []; by apply started_ok|].
  by eapply (wstep_ok ucmp Hc Hkn).
Qed.

(** ** Reads *)

(** The memtables are asked in this order. *)
Definition memory_read (es imm : list entry) (ukey : bytes) (n : Z) : option entry :=
  match newest ucmp ukey n es with Some e => Some e | None => newest ucmp ukey n imm end.
Definition answer (e : entry) (value : bytes) : Status * bytes :=
  let '(_, t, _, v) := e in if t =? kTypeValue then (OK, v) else (NotFound [], value).
Lemma memtable_get m es ukey n : holds_entries ucmp m es -> Forall point_entry es -> NoDup (entry_seq <$> es) -> bytes_ok ukey -> blen ukey + 8 < 2 ^ 32 ->
  0 <= n <= kMaxSequenceNumber -> MemTable.Get ucmp m (mkLookupKey ukey n) = Some (get_result (newest ucmp ukey n es)).
Proof.
  intros Hm Hp Hn Hu Hl Hs. destruct (fold_add_holds ucmp Hc Hkn es) as (m1 & ns & es' & Em & Hh & Hpm); [|done|].
  { eapply Forall_impl; [exact Hp|]. intros e He. apply He. }
  unfold holds_entries in Hm. rewrite fold_add_Ref, Em in Hm. injection Hm as <-.
  exact (Get_newest ucmp Hc Hkn ukey n Hu Hl Hs es' es (holds_sorted _ _ _ _ Hh) (proj2 Hh) Hpm Hp Hn m1 ns Hh).
Qed.
Lemma mem_answer_get e value : mem_answer (get_result (Some e)) value = Some (answer e value).
Proof. destruct e as [[[s t] k] v]. cbn. by destruct (t =? kTypeValue). Qed.

Section Get.
Context (policy : option FilterPolicy) {HR : TableReads T}.
Lemma Get_memory u0 st es imm fl verify fill snapshot ukey value e : writers_ok ucmp u0 st es imm fl -> bytes_ok ukey -> blen ukey + 8 < 2 ^ 32 ->
  0 <= default (last_of st) snapshot <= kMaxSequenceNumber -> memory_read es imm ukey (default (last_of st) snapshot) = Some e ->
  DBImpl_Get ucmp policy verify fill snapshot st ukey value = Some (fst (answer e value), snd (answer e value), st).
Proof.
  intros [W1 W2 W3 W4 W5] Hu Hl Hn Hr. pose proof (mo_points _ _ _ _ _ _ _ W2) as Hp. pose proof (mo_nodup _ _ _ _ _ _ _ W2) as Hd.
  rewrite !fmap_app in Hd. apply Forall_app in Hp as [Hp1 Hp2]. apply Forall_app in Hp2 as [Hp2 _]. apply NoDup_app in Hd as (Hd1 & _ & Hd2). apply NoDup_app in Hd2 as (Hd2 & _ & _).
  unfold DBImpl_Get. rewrite (memtable_get _ es) by done. cbn [mbind option_bind]. unfold memory_read in Hr.
  destruct (newest ucmp ukey _ es) as [e1|].
  - injection Hr as ->. rewrite mem_answer_get. by destruct (answer e value).
  - change (mem_answer (get_result None) value) with (@None (Status * bytes)). cbv iota.
    destruct (wp_imm st) as [m|]; [|by subst imm]. rewrite (memtable_get _ imm) by done. cbn [mbind option_bind]. rewrite Hr, mem_answer_get. by destruct (answer e value).
Qed.

End Get.

(** ** Progress *)

(** A snapshot waits until it is at the head of its list. *)
Definition waits (t : Thread) : Prop := t_snapshot t <> None /\ t_stage t = Queued /\ prev_ (t_writer t) <> None.
Lemma step_defined u0 st es imm fl id t : writers_ok ucmp u0 st es imm fl -> has_room st -> is_Some (current_version (wp_db st)) ->
  (forall e f off data, snd (WriteFileAt (F := F) (E := E) e f off data) = OK) -> wp_threads st !! id = Some t ->
  is_Some (thread_step ucmp dbname st id) \/ waits t.
Proof.
  intros Hw Hroom Hv Hlog Ht. pose proof (ok_thread _ _ _ _ _ _ _ _ Hw Ht) as [T1 T2 T3 T4 T5 T6].
  unfold thread_step. rewrite Ht. cbn [mbind option_bind]. destruct (t_stage t) eqn:Hst, (t_snapshot t) as [n|] eqn:Hsn; try by destruct (T2 ltac:(done)).
  - destruct (begin_wait_ok ucmp u0 st es imm fl id t) as (st1 & -> & _); [done|done|done|by rewrite Hsn|]. left. by eexists.
  - destruct (take_ticket_ok ucmp u0 st es imm fl id t) as (st1 & -> & _); [done..|]. left. by eexists.
  - destruct (prev_ (t_writer t)) eqn:Ep; [right; split; [by rewrite Hsn|split; [done|by rewrite Ep]]|].
    destruct (end_wait_ok ucmp u0 st es imm fl id t) as (st1 & -> & _); [done|done|done|by rewrite Hsn|done|]. left. by eexists.
  - left. unfold write_log. rewrite Ht. cbn [mbind option_bind]. destruct (t_updates t) as [u|] eqn:Eu; [|by eexists].
    destruct (T1 u eq_refl) as (s & ops & Hs & Hcb & ->). rewrite SetSequence_batch. destruct (T4 ltac:(unfold pending; by rewrite Hst, Hsn)) as (K1 & _ & K3).
    pose proof (mo_upper _ _ _ _ _ _ _ (wk_memory _ _ _ _ _ _ Hw)) as Hup. unfold has_room in Hroom. change kMaxSequenceNumber with (2 ^ 56 - 1) in Hroom.
    destruct (SetGuards_client (start t) ops ltac:(unfold is_u64; lia) Hcb) as (g & -> & _). cbn [mbind option_bind ok OK negb].
    destruct (T3 eq_refl) as [off ->]. cbn [mbind option_bind]. unfold descriptor_AddRecord. cbn [fst snd].
    destruct (AddRecord_reliable (HF := named_file (LogFileName dbname (w_log_ (t_writer t)))) ltac:(intros e o x; apply Hlog) (env_ (wp_db st)) off (Contents (new_batch g)))
      as ([[e1 s1] o1] & -> & Es). cbn [fst snd] in Es. subst s1. cbn [mbind option_bind ok OK negb]. destruct (if t_sync t then _ else _). by eexists.
  - destruct (insert_updates_ok ucmp Hc Hkn u0 st es imm fl id t) as (st1 & es1 & -> & _); [done|done|done|done|done|by left|]. left. by eexists.
  - destruct (leave_list_ok ucmp u0 st es imm fl id t) as (st1 & -> & _); [done..|]. left. by eexists.
  - destruct (finish_thread_ok ucmp u0 st es imm fl id t) as (st1 & -> & _); [done..|]. left. by eexists.
  - destruct (finish_thread_ok ucmp u0 st es imm fl id t) as (st1 & -> & _); [done..|]. left. by eexists.
Qed.
(** A thread that waits has one before it in the list that does not. *)
Lemma head_exists ts tail ord : linked_list ts tail ord -> forall k id t, (ord id < k)%nat -> ts !! id = Some t -> exists id' t', ts !! id' = Some t' /\ ~ waits t'.
Proof.
  intros [L1 _ L3]. induction k as [|k IH]; intros id t Hk Ht; [lia|].
  destruct (prev_of ts id) as [p|] eqn:Ep.
  - pose proof (L3 _ _ Ep) as Ho. apply L1 in Ep. destruct (next_of_active _ _ _ Ep) as (tp & Etp & _). eapply (IH p tp); [lia|done].
  - exists id, t. split; [done|]. intros (_ & Hst & Hp). unfold prev_of in Ep. rewrite Ht in Ep. cbn in Ep. unfold thread_prev, active in Ep. by rewrite Hst in Ep.
Qed.

End Safety.

(** ** Runs *)

Section Example.
Abbreviation Disk := (gmap (list Z) (list Z)).
Abbreviation dbname := (str "/db").
Abbreviation bloom := (BloomPolicy (mkBloomFilterPolicy 10)).
Abbreviation mem_options := (db_options BytewiseComparator 0 4096 16 kNoCompression (Some bloom)).
Abbreviation cmp_name := (str "leveldb.BytewiseComparator").
Abbreviation zeros := (replicate (Z.to_nat kNumLevels) (SpecFloat.S754_zero false)).
#[local] Existing Instance no_snappy.
(** A disk whose calls do not fail and that keeps everything. *)
#[local] Instance disk_ManifestEnv : ManifestEnv Disk (list Z) := {
  NewConcurrentWritableFile e f := (OK, <[f := []]> e);
  WriteFileAt e f off data := (alter (fun old => mem_write old off data) f e, OK);
  NewSequentialFile e f := match e !! f with Some data => (OK, data) | None => (IOError f (str "No such file"), []) end;
}.
#[local] Instance disk_OpenEnv : OpenEnv Disk := {
  CreateDir e f := (OK, e); LockFile e f := (OK, e); FileExists e f := bool_decide (is_Some (e !! f)); ListChildren e dir := (OK, GetChildren e dir);
}.
(** A table cache that reads the tables it opens; they have at most ten entries. *)
Definition load_table (e : Disk) (n size : Z) : option (list (bytes * bytes)) :=
  f ← e !! TableFileName dbname n;
  match Table.Open (C := MapCache) mem_options None f size with
  | (_, Some t, c) => let ops := TwoLevelIterator_ops (Table.read_block_entry t true true) 10 in
                      Some (@collect _ ops 10 (@SeekToFirst _ ops (Table.NewIterator t c)))
  | _ => None
  end.
#[local] Instance disk_tables : TableOpens MapTables Disk := {
  table_status t e n size := match load_table e n size with Some kv => (OK, <[n := kv]> t) | None => (NotFound [], t) end;
  Evict t n := delete n t; }.
#[local] Instance disk_scans : TableScans MapTables Disk := {
  table_keys t e n size := match load_table e n size with Some kv => (kv.*1, <[n := kv]> t) | None => ([], t) end }.

Definition open_options : OpenOptions :=
  {| create_if_missing := true; error_if_exists := false; paranoid_checks := true; write_buffer_size := 1000000 |}.
Definition open_disk (e : Disk) : option (Writers Disk MapTables) :=
  match Open BytewiseComparator mem_options open_options cmp_name dbname zeros true false num_entries 100 1000 e (∅ : MapTables) with
  | Some (s, _, st) => if ok s then st else None
  | None => None
  end.
Definition fresh_db : option (Writers Disk MapTables) := open_disk ∅.
(** A memtable is full when it has two entries. *)
Definition run_steps (ls : list label) (st : Writers Disk MapTables) : option (Writers Disk MapTables) :=
  wsteps BytewiseComparator mem_options cmp_name dbname zeros num_entries 1 100 ls st.
Definition write (id : nat) (k v : Z) : label := LWrite id (Some (batch_of 0 [OpPut [k] [v]])) true.
Definition whole (id : nat) (k v : Z) : list label := write id k v :: replicate 5 (LStep id).
Definition read_at (snapshot : option Z) (k : Z) (st : Writers Disk MapTables) : option (Status * bytes) :=
  '(s, v, _) ← DBImpl_Get BytewiseComparator (Some (InternalFilterPolicy bloom)) true true snapshot st [k] [];
  Some (s, v).
(** Whether the call was to be synced, and what it returned. *)
Definition returned (st : Writers Disk MapTables) (id : nat) : option (bool * Status) :=
  (fun t => (t_sync t, t_status t)) <$> (list_to_map (wp_returns st) : gmap nat Thread) !! id.

(** *** A run that ends well *)

Definition room_steps (ls : list label) (st : Writers Disk MapTables) : option (Writers Disk MapTables) :=
  foldM (fun st l => if writers_upper_ st + 2 ^ 31 <=? kMaxSequenceNumber
                     then wstep BytewiseComparator mem_options cmp_name dbname zeros num_entries 1 100 l st else None) ls st.
Abbreviation reach := (wreach BytewiseComparator mem_options cmp_name dbname zeros num_entries 1 100).
Lemma room_steps_reach st0 ls : Forall label_ok ls -> forall st st', reach st0 st -> room_steps ls st = Some st' -> reach st0 st'.
Proof.
  induction 1 as [|l ls Hl Hls IH]; intros st st' Hr H; unfold room_steps in H; cbn [foldM] in H; [by injection H as <-|].
  destruct (Z.leb_spec (writers_upper_ st + 2 ^ 31) kMaxSequenceNumber) as [Hroom|]; [|done].
  destruct (wstep _ _ _ _ _ _ _ _ l st) as [st1|] eqn:E1; [|done]. eapply (IH st1); [by eapply wr_step|exact H].
Qed.
Lemma write_label_ok id k v : 0 <= k < 256 -> 0 <= v < 256 -> label_ok (write id k v).
Proof.
  intros Hk Hv. exists 0, [OpPut [k] [v]]. split; [done|]. split; [|done]. split; [by repeat constructor|]. split; [|done].
  constructor; [|constructor]. split; [constructor; [unfold is_u8; lia|constructor]|done].
Qed.
(** Writers 1 and 2 and a snapshot; writer 2 waits for its insertion. *)
Definition safe_run : list label := whole 1 107 1 ++ [write 2 107 2; LStep 2; LGetSnapshot 3; LStep 3; LStep 2].
Lemma safe_labels : Forall label_ok safe_run.
Proof.
  unfold safe_run, whole. cbn [app replicate]. repeat constructor; try exact I; by apply write_label_ok.
Qed.
Definition first_fields (st : Writers Disk MapTables) :=
  (wp_mem st, wp_imm st, wp_offsets st !! wp_logfile st, wp_threads st, wp_returns st, writers_tail_ st, last_sequence_ (versions_ (wp_db st)), writers_upper_ st).
Lemma fresh_started st0 : fresh_db = Some st0 -> started st0.
Proof.
  intros H0. assert (first_fields <$> fresh_db = Some (Ref MemTable_new, None, Some 0, ∅, [], None, 0, 0)) as H by (vm_compute; reflexivity).
  rewrite H0 in H. cbn [fmap option_fmap option_map] in H. unfold first_fields in H. injection H as H1 H2 H3 H4 H5 H6 H7 H8.
  clear H0. split; [exact H1|exact H2|rewrite H3; exact (mk_is_Some _ _ eq_refl)|exact H4|exact H5|exact H6|rewrite H7, H8; split; reflexivity].
Qed.

(** *** A synced write is lost *)

(** Writer 2 has written [k] to the log 3 when writer 4 finds the memtable full and switches to
    the log 4. *)
Definition lost_run : list label :=
  whole 1 97 1 ++ [write 2 107 2; LStep 2; LStep 2] ++ whole 3 98 3 ++ [write 4 99 4; LStep 2; LStep 2; LStep 2] ++
  replicate 5 (LStep 4) ++ [LRound false].
(** C24: An acknowledged write can be lost: [SequenceWriteEnd] inserts a batch into the memtable
    of that moment ("HACK! Using current mem_ instead of w->mem_"), which need not be the
    one whose log has the batch.  In a run without any error on a disk that keeps
    everything, a writer has written and synced its record when another one switches
    the memtable and the log; its batch goes to the new memtable, and the call returns OK.  When
    the old memtable was written out, the old log is deleted as obsolete.  The
    database still finds the key, but after a crash at this point it opens without
    error, has the writes before and after it, and does not have the key. *)
Theorem synced_write_lost : exists st0 st st', fresh_db = Some st0 /\ run_steps lost_run st0 = Some st /\
  bg_error_ (wp_db st) = OK /\ returned st 2 = Some (true, OK) /\ read_at None 107 st = Some (OK, [2]) /\
  open_disk (env_ (wp_db st)) = Some st' /\ bg_error_ (wp_db st') = OK /\
  read_at None 107 st' = Some (NotFound [], []) /\ read_at None 97 st' = Some (OK, [1]) /\ read_at None 98 st' = Some (OK, [3]) /\
  read_at None 99 st' = Some (OK, [4]).
Proof.
  assert ((st0 ← fresh_db; st ← run_steps lost_run st0; st' ← open_disk (env_ (wp_db st));
    Some (bg_error_ (wp_db st), returned st 2, read_at None 107 st, bg_error_ (wp_db st'), read_at None 107 st', read_at None 97 st', read_at None 98 st', read_at None 99 st')) =
    Some (OK, Some (true, OK), Some (OK, [2]), OK, Some (NotFound [], []), Some (OK, [1]), Some (OK, [3]), Some (OK, [4]))) as H by (vm_compute; reflexivity).
  destruct fresh_db as [st0|]; [|discriminate H]. cbn [mbind option_bind] in H. destruct (run_steps lost_run st0) as [st|] eqn:E1; [|discriminate H].
  cbn [mbind option_bind] in H. destruct (open_disk (env_ (wp_db st))) as [st'|] eqn:E2; [|discriminate H]. cbn [mbind option_bind] in H.
  injection H as H1 H2 H3 H4 H5 H6 H7 H8. exists st0, st, st'. split; [reflexivity|]. split; [exact E1|]. repeat split; assumption.
Qed.

(** *** A snapshot changes *)

Definition snapshot_run : list label := [write 1 107 1; LStep 1] ++ whole 2 98 2 ++ [LGetSnapshot 3; LStep 3; LStep 3; LStep 3].
(** C25: A snapshot can change: [GetSnapshot] takes the last sequence number and waits for the
    writers before it, but [SequenceWriteEnd] sets [writers_tail_] to NULL when the last writer
    of the list leaves, although writers before it are still there, and the snapshot then
    waits for nobody.  In a run of two writers, the first one has an older sequence number and
    has not inserted its batch when [GetSnapshot] returns.  A read of its key at the
    snapshot answers NotFound; after the writer has gone on, the same read at the same
    snapshot, which is still held, finds the value. *)
Theorem snapshot_changes : exists st0 st st', fresh_db = Some st0 /\ run_steps snapshot_run st0 = Some st /\
  returned st 3 = Some (false, OK) /\ snapshots_ (wp_db st) = [4] /\ read_at (Some 4) 107 st = Some (NotFound [], []) /\
  run_steps [LStep 1; LStep 1] st = Some st' /\ snapshots_ (wp_db st') = [4] /\ read_at (Some 4) 107 st' = Some (OK, [1]).
Proof.
  assert ((st0 ← fresh_db; st ← run_steps snapshot_run st0; st' ← run_steps [LStep 1; LStep 1] st;
    Some (returned st 3, snapshots_ (wp_db st), read_at (Some 4) 107 st, snapshots_ (wp_db st'), read_at (Some 4) 107 st')) =
    Some (Some (false, OK), [4], Some (NotFound [], []), [4], Some (OK, [1]))) as H by (vm_compute; reflexivity).
  destruct fresh_db as [st0|]; [|discriminate H]. cbn [mbind option_bind] in H. destruct (run_steps snapshot_run st0) as [st|] eqn:E1; [|discriminate H].
  cbn [mbind option_bind] in H. destruct (run_steps [LStep 1; LStep 1] st) as [st'|] eqn:E2; [|discriminate H]. cbn [mbind option_bind] in H.
  injection H as H1 H2 H3 H4 H5. exists st0, st, st'. split; [reflexivity|]. split; [exact E1|]. repeat split; assumption.
Qed.

(** *** A read goes back *)

Definition older_run : list label := [write 1 107 1; LStep 1; LStep 1] ++ whole 2 107 2.
(** C26: A read can go back to an older value: the memtables are asked one after the other, the
    newer one first, although a writer with an older sequence number may insert into it after
    the switch.  In a run where a [Write] of a key has returned, a [Get] finds its value; after
    writers of other keys and the end of a concurrent, older write of the key, a [Get]
    without a snapshot answers with the older value. *)
Theorem read_goes_back : exists st0 st st', fresh_db = Some st0 /\ run_steps older_run st0 = Some st /\
  returned st 2 = Some (true, OK) /\ read_at None 107 st = Some (OK, [2]) /\
  run_steps (whole 3 98 3 ++ whole 4 99 4 ++ [LStep 1; LStep 1; LStep 1]) st = Some st' /\
  returned st' 1 = Some (true, OK) /\ read_at None 107 st' = Some (OK, [1]).
Proof.
  assert ((st0 ← fresh_db; st ← run_steps older_run st0; st' ← run_steps (whole 3 98 3 ++ whole 4 99 4 ++ [LStep 1; LStep 1; LStep 1]) st;
    Some (returned st 2, read_at None 107 st, returned st' 1, read_at None 107 st')) =
    Some (Some (true, OK), Some (OK, [2]), Some (true, OK), Some (OK, [1]))) as H by (vm_compute; reflexivity).
  destruct fresh_db as [st0|]; [|discriminate H]. cbn [mbind option_bind] in H. destruct (run_steps older_run st0) as [st|] eqn:E1; [|discriminate H].
  cbn [mbind option_bind] in H. destruct (run_steps _ st) as [st'|] eqn:E2; [|discriminate H]. cbn [mbind option_bind] in H.
  injection H as H1 H2 H3 H4. exists st0, st, st'. split; [reflexivity|]. split; [exact E1|]. repeat split; assumption.
Qed.
End Example.
